(* ===== verification/_CoqProject ===== *)
-Q . S2P
Prelude.v
Decimal.v
Pg.v
Shard.v
RWLock.v
DirHash.v
PathParse.v
Inode.v
Route.v
FileOps.v
FileSpec.v
ReadDir.v
FileWitness.v
ForeignServer.v
RemoteComm.v
RemoteSpec.v
DirOps.v
DirSpec.v
DirCreate.v
Transaction.v
TwoPhase.v
RemoteWitness.v
DirOpsWitness.v
SerializedData.v
ShmemAllocator.v
Posix.v
FileLock.v
DiskCache.v
IOClient.v
WriteStream.v
ReadStream.v
Node.v
Store.v
Server.v
StoreSpec.v
ServerSpec.v
StoreSpace.v
StoreOpen.v
StoreWitness.v
Connection.v
Router.v
RouterSpec.v
Client.v
ClientDir.v
Fuse.v
ClientDirSpec.v
ClientWrite.v
ClientSpec.v
ClientWitness.v
MetaCodec.v
Counting.v
Pool.v
PoolSpec.v
PoolWitness.v
PgConnection.v
PgConnectionSpec.v
ObsStorage.v
ObsSpec.v
ThreadPool.v
