(* ===== verification/Prelude.v ===== *)
(** * CuckooFS: verification library

    ** The program

    CuckooFS keeps the metadata of a distributed file system in PostgreSQL
    servers extended by src/cuckoo.  One server is the coordinator (id 0), the
    others are workers.  Every server has a full copy of the directory table,
    which maps (parent id, name) to the inode id of a directory; the inode rows
    of files and directories are spread over shards by a hash of the name's
    part id, and a shard map says which server serves which range of hash
    values.  Operations on files run on the server that owns the shard;
    mkdir, rmdir and rename run on the coordinator, which changes its own
    directory table, sends sub-operations to the other servers and commits with
    two-phase commit.  What a crash leaves behind is finished by a background
    process.  Requests reach a server over brpc: a connection pool joins those of
    one service into batches, copies them into shared memory and has a PostgreSQL
    backend execute them.

    The contents of files are kept by data nodes (src/cuckoo_store with
    src/common).  A file is cached on the local disk of the node its inode id
    (or its directory) is hashed to and, when so configured, persisted in an
    object storage.  A process writes and reads through open instances: writes to
    a file of another node are collected by a write stream, reads are fed by a
    read stream whose threads read ahead; both reach the other node through its
    brpc service.  A node that does not answer is given up and the file moves.

    The client library (src/cuckoo_client) offers operations on paths, to FUSE
    among others.  Its router has a copy of the shard map and sends a request to the
    coordinator or the owner of the path's last component; when a server does not
    answer it asks the cluster manager or the coordinator for the new one and
    repeats the request.

    ** Files, parts of the program and correspondence

    Components are functions over explicit states in the monad [M] of this file
    (returned value, raised error, a wait or loop that does not end, undefined
    behaviour).  A C function is the definition of the same name; loops and
    blocks of a long function have names of their own next to it.

    - Prelude.v: record update, machine integers, error codes, the monad and its
      reasoning rules ([outcome_ok] accounts for every outcome), lists, C
      strings, lexicographic order.
    - Pg.v: what the code uses of PostgreSQL, as type classes with laws
      ([PgRelation]: a relation with a unique index and command visibility;
      [PgEnv]), and a reference implementation [PgRef] for the examples.
    - Shard.v: metadb/shard_table.c, identifiers of utils/utils.c and
      metadb/meta_handle.c.  State [ShardState]: the relation and the shared
      array with its valid flag.
    - RWLock.v: utils/rwlock.c.  State [RWLocks]: the lock words and the held
      handles of a backend; Module Interleaving has many backends.
    - DirHash.v: metadb/directory_table.c, dir_path_shmem/dir_path_hash.c.
      State [DirState]: the relation, the shared table, the locks, the commit
      list.
    - PathParse.v: utils/path_parse.c, pathcmp of utils/utils_standalone.c.
      State [PathState]: the above and the transaction's tree, a finite map from
      component lists to nodes in place of the red-black tree.
    - Inode.v: the inode relations and the requests of a batch ([MetaState]);
      SearchAndUpdateInodeTableInfo, InsertIntoInodeTable and the preparation
      of a batch.  Route.v: the reference of that preparation.
    - FileOps.v: the handlers of files, listings and attributes of
      metadb/meta_handle.c.  FileSpec.v, ReadDir.v: what they do.
    - ForeignServer.v: metadb/foreign_server.c over an interface to libpq
      ([Libpq]).
    - RemoteComm.v: distributed_backend/remote_comm_cuckoo.c, the records and
      the list of transactions in progress of transaction/transaction_cleanup.c.
      RemoteSpec.v: what prepare does, for a libpq with the laws [LibpqLaws].
    - DirOps.v: mkdir, rmdir, rename with their sub-operations, the fields that
      travel between servers (metadb/meta_serialize_interface_helper.cpp), the
      dispatch of metadb/meta_serialize_interface.c and
      metadb/meta_plain_interface.c.  DirSpec.v, DirCreate.v: what the
      sub-operations do to a server.
    - Transaction.v: transaction/transaction.c and the cleanup of
      transaction/transaction_cleanup.c.
    - TwoPhase.v: coordinators, servers and the cleanup as a transition system.
    - SerializedData.v: the framing of messages,
      remote_connection_def/remote_connection_utils/serialized_data.h.
    - ShmemAllocator.v: utils/cuckoo_shmem_allocator.c; Module Processes has
      many processes.
    - Posix.v: what the data store uses of POSIX, as classes ([Posix],
      [PosixFiles] with the laws of open files) with a reference file system.
    - FileLock.v: cuckoo_store/src/util/file_lock.cpp; Module Lockers has many
      lockers.
    - DiskCache.v: cuckoo_store/src/disk_cache/disk_cache.cpp.  State
      [DiskCache]: the list of items with the addresses of its nodes, the map of
      iterators, the counters; floating-point ratios as SpecFloat.
    - IOClient.v: cuckoo_store/src/connection/cuckoo_io_client.cpp over a class
      [Stub] for the generated stub.
    - WriteStream.v: common/src/write_stream/stream_assembler.cpp and .h, proved
      against the promise [StubFiles] of the other node.
    - ReadStream.v: common/src/read_stream/read_stream.cpp as a step relation.
    - Node.v: cuckoo_store/src/connection/node.cpp.
    - Store.v: cuckoo_store/src/cuckoo_store/cuckoo_store.cpp.  State [Store]:
      disk cache, file system and other nodes, object storage, file locks, nodes,
      directory hash, tasks of the thread pool.
    - Server.v: common/src/buffer/dir_open_instance.cpp and the handlers of
      cuckoo_store/src/brpc/brpc_main.cpp.
    - StoreSpec.v, ServerSpec.v, StoreSpace.v, StoreOpen.v: what store and
      service do; ServerSpec discharges [StubFiles] with the handlers.
    - Decimal.v: numbers in text.  Connection.v: the requests of a client and
      their answers (cuckoo_client/src/connection.cpp) and the error numbers, over
      an interface to brpc.  Router.v: cuckoo_client/src/router.cpp and the lookups
      of common/src/cm/cuckoo_cm.cpp.  RouterSpec.v: agreement with Shard.v.
    - Client.v, ClientDir.v: cuckoo_client/src/cuckoo_meta.cpp and
      inner_cuckoo_meta.cpp over router, connections and store.  Fuse.v:
      cuckoo_client/fuse_main.cpp.  ClientDirSpec.v, ClientWrite.v, ClientSpec.v:
      listings, writes and failover as a client sees them; ClientWrite composes the
      library with WriteStream, Server and Store.
    - MetaCodec.v: the decoding and encoding of requests
      (metadb/meta_serialize_interface_helper.cpp) over an interface to FlatBuffers,
      with the framing of SerializedData.v.
    - Pool.v: connection_pool/pg_connection_pool.cpp and the threads of
      pg_connection.cpp as a step relation.  PoolSpec.v: its invariant, safety and
      liveness.  PgConnection.v: what a worker does with a task (the loop of
      PGConnection::BackgroundWorker), the server's function it calls, error codes
      in texts (utils/error_code.c), over interfaces to libpq and PostgreSQL;
      PgConnectionSpec.v: the answers.
    - Counting.v: occurrences in lists and sums over threads.
    - ObsStorage.v: cuckoo_store/src/storage/obs_storage.cpp over an interface to
      the SDK ([ObsSdk]).  ObsSpec.v: uploads and downloads, for a service with the
      laws [ObsObjects].
    - ThreadPool.v: common/src/thread_pool/thread_pool.cpp as a step relation.
    - FileWitness.v, RemoteWitness.v, ClientWitness.v, PoolWitness.v,
      DirOpsWitness.v, StoreWitness.v: concrete runs.  Other files have theirs in a
      module at the end.

    ** What the theorems show

    - The shard map covers every hash value, stays so under updates, and the
      lookup, the reload of the cache and the ranges given to clients agree
      with it (Shard).
    - Reader/writer locks exclude in every interleaving of up to 2047 backends
      that do not release a handle they have only declared, and somebody always
      makes progress (RWLock; an example shows what such a release does).
    - A transaction sees the committed directories and its own changes through
      the shared table, which agrees with the relation after commit and after
      abort; eviction ends however other backends come in between, and removes
      one entry that nobody refers to or finds none (DirHash).  Paths resolve to
      what the directories say, for every set of flags; inode numbers are unique; the character-level parser does what the
      walk over components does (PathParse).
    - Create, stat and unlink of a batch answer every request as if it were
      handled alone, in some order; pages of a listing make up the listing
      (FileSpec, ReadDir).
    - The sub-operations of mkdir, rmdir and rename change exactly the rows they
      should, or raise an error after which an abort restores agreement; what
      survives a rename across servers (DirSpec, DirCreate).
    - Connections lead to where the relation says; prepare has every writer
      execute PREPARE TRANSACTION and records it (ForeignServer, RemoteSpec).  Two-phase commit with the
      cleanup refines atomic commitment, is atomic in every reachable state, and
      the cleanup finishes what is left (TwoPhase).
    - Messages round-trip on machines of either byte order, with the bounds
      within which this holds (SerializedData); requests of clients and servers
      arrive with every field (MetaCodec); blocks of shared memory never overlap or
      get lost while there are less than 4 GiB of them (ShmemAllocator).
    - No interleaving of the pool's threads loses a job, answers it twice or
      changes a task that is being executed (PoolSpec).  A batch is split so that
      every job gets the replies to its own requests, errors keep their code, and
      the shared memory is given back (PgConnectionSpec).
    - File locks exclude and lose no wake-up (FileLock).  The disk cache is a
      finite map with exact accounting, evicts files in the order of its list, none
      that is pinned and no more than needed, and recovers what is on the disk
      (DiskCache).
    - Write and read streams are not observable: writes arrive as written, except
      those for which no buffer could be had, reads are a prefix of the file in
      order, no thread that fills a pipe sleeps when there is room, and the reader
      waits for ever only if it misses the end of a file it has read (WriteStream,
      ReadStream).  Composed with the service, a client reads what it wrote to
      another node (ServerSpec).
    - Reserved space is given back on every path, pins are balanced, and an open
      gives up exactly the nodes whose calls fail and settles at one that answered
      (StoreSpec, StoreSpace, StoreOpen).  The
      table of open files stays coherent (Server).
    - A client sends a request to the server that the shard map says (RouterSpec),
      also after a failover of the coordinator or of a worker in a build with
      ZK_INIT (ClientSpec); a listing has every name of every worker once, whatever
      the sizes of the buffers, as long as they hold two entries (ClientDirSpec);
      what was written and had a buffer is on the other node's disk when close has
      returned 0 (ClientWrite).
    - An upload to the object storage that reports success has stored the file, and
      a download gives the range asked for when attempts fail before anything
      arrived and pwrite takes every piece in full; the examples show what a retry after that does (ObsSpec).
    - The thread pool runs every task once and loses no notification; Stop lets the
      workers finish what was queued (ThreadPool).

    ** Fuel and bounds

    A spin on a lock that another backend holds, or a poll of a connection that
    stays in progress, is the outcome [Diverge]: the theorems say exactly when
    it can occur.  The results left over on a connection to another server are as
    many as they are (LibpqLaws.unfetched), and fetching them needs one turn more.  Reloading a cache takes two tests of its flag (wait_valid,
    wait_servers).  Eviction scans are bounded by the usage counts,
    and its retries by how often other backends come in between
    (DirHash.Eliminate_ends); the retry loop of create by the length of the
    group (each retry marks one more request); doubling a buffer's capacity by
    31 steps up to 2^31 bytes, beyond which the code does not end.  A write in
    pieces takes at most as many calls as it has bytes (Store.write_all: pwrite of
    some bytes writes one or fails); a new descriptor at most five draws
    (Server.ObtainFd_fresh); failover as many attempts as there are nodes, as in
    the code; the recursion of OpenFile is one level deep
    (StoreOpen.OpenFile_recursion) and that of CloseTmpFiles too, by its guard.
    A request of the client is repeated at most three times, as in the code; reading
    a directory to its end takes at most two calls more than it has names
    (ClientDirSpec); the commands of a request are at most as many as its services
    (PgConnection.make_commands).  A request to the object storage
    is attempted ten times, as in the code.  Every run of the connection pool and of
    the thread pool without spurious wake-ups is finite (PoolSpec.pool_answers_all,
    ThreadPool.ThreadPool_runs_all).  Integers are wrapped at their width where the
    code stores them; offsets into shared memory wrap around at 4 GiB.

    ** Not modelled

    The SDK of the object storage (an interface), ZooKeeper sessions and watches of the cluster
    manager's client, starting and stopping brpc servers and the pool, logging,
    statistics and configuration (C++ over third-party libraries), the code generated
    from FlatBuffers and protobuf schemas (interfaces with round-trip laws), start-up
    and registration with PostgreSQL, SQL wrappers and DDL, the main loop of the
    cleanup process, memory contexts and freeing, cluster management scripts and
    tests.  LWLocks are not separate steps: an operation on a partition or a cache
    that the code runs under its LWLock is atomic.  Operations of the store run one
    after the other, with tasks of its pool between them; the mutexes of an open
    instance make that so for one file.  A worker of the connection pool is alone with
    the allocator while it executes a task; the interleaving of allocations is that of
    ShmemAllocator.Processes.  An exception of pg_connection.cpp ends the process; runs
    of the pool with one are not modelled (Pool). *)

From stdpp Require Export base gmap strings list fin_maps sorting.
From Stdlib Require Export ZArith Lia Ascii.

#[global] Open Scope Z_scope.

(** ** Record update

    [r <| field := v |>] updates one field of a record that has an [Eta]
    instance (its eta expansion); [r <| field ::= f |>] maps a function. *)
Class Eta (R : Type) := eta : R → R.

Class Setter {R E : Type} (proj : R → E) := set_field : (E → E) → R → R.
Arguments set_field {R E} proj {_} f r.

Ltac build_setter :=
  lazymatch goal with
  | |- @Setter ?R ?E ?p =>
      let f := fresh "f" in
      let r := fresh "r" in
      intros f r;
      let e := constr:(ltac:(typeclasses eauto) : Eta R) in
      match eval hnf in (e r) with
      | context C [p r] => let b := context C [f (p r)] in exact b
      end
  end.

#[global] Hint Extern 1 (Setter _) => build_setter : typeclass_instances.

Declare Scope record_scope.
#[global] Open Scope record_scope.
Notation "r <| p := v |>" := (set_field p (λ _, v) r)
  (at level 1, p at level 9, format "r <| p  :=  v |>") : record_scope.
Notation "r <| p ::= f |>" := (set_field p f r)
  (at level 1, p at level 9, format "r <| p  ::=  f |>") : record_scope.

(** ** Machine integers

    A C integer of width w is a [Z]; each arithmetic result is wrapped
    where the C code stores it. *)
Definition u16 (z : Z) : Z := z mod 2 ^ 16.
Definition u32 (z : Z) : Z := z mod 2 ^ 32.
Definition u64 (z : Z) : Z := z mod 2 ^ 64.
Definition i32 (z : Z) : Z := (z + 2 ^ 31) mod 2 ^ 32 - 2 ^ 31.
Definition i64 (z : Z) : Z := (z + 2 ^ 63) mod 2 ^ 64 - 2 ^ 63.

Definition INT32_MAX : Z := 2 ^ 31 - 1.

Lemma u16_range z : 0 ≤ u16 z < 2 ^ 16.
Proof. apply Z.mod_pos_bound. lia. Qed.

Lemma u32_range z : 0 ≤ u32 z < 2 ^ 32.
Proof. apply Z.mod_pos_bound. lia. Qed.

Lemma u64_range z : 0 ≤ u64 z < 2 ^ 64.
Proof. apply Z.mod_pos_bound. lia. Qed.

Lemma u64_small z : 0 ≤ z < 2 ^ 64 → u64 z = z.
Proof. apply Z.mod_small. Qed.

Lemma i32_small z : - 2 ^ 31 ≤ z < 2 ^ 31 → i32 z = z.
Proof. intros H. unfold i32. rewrite Z.mod_small by lia. lia. Qed.

Lemma i64_small z : - 2 ^ 63 ≤ z < 2 ^ 63 → i64 z = z.
Proof. intros H. unfold i64. rewrite Z.mod_small by lia. lia. Qed.

Lemma i64_range z : - 2 ^ 63 ≤ i64 z < 2 ^ 63.
Proof. unfold i64. pose proof (Z.mod_pos_bound (z + 2 ^ 63) (2 ^ 64)). lia. Qed.

(** Bits at or above the width of a bounded value are clear. *)
Lemma testbit_above b n i : 0 ≤ n → 0 ≤ b < 2 ^ n → n ≤ i → Z.testbit b i = false.
Proof.
  intros Hn Hb Hi. rewrite <-(Z.mod_small b (2 ^ n)) by lia.
  apply Z.mod_pow2_bits_high. lia.
Qed.

Lemma land_shiftl_low a b n :
  0 ≤ n → 0 ≤ b < 2 ^ n → Z.land (Z.shiftl a n) b = 0.
Proof.
  intros Hn Hb. apply Z.bits_inj'. intros i Hi. rewrite Z.land_spec, Z.bits_0.
  destruct (decide (i < n)).
  - by rewrite Z.shiftl_spec_low by lia.
  - rewrite (testbit_above b n i) by lia. apply andb_false_r.
Qed.

(** A bit-or of a multiple of [2^n] with a value below [2^n] is a sum. *)
Lemma lor_shiftl_add a b n :
  0 ≤ n → 0 ≤ b < 2 ^ n → Z.lor (Z.shiftl a n) b = a * 2 ^ n + b.
Proof.
  intros Hn Hb. pose proof (land_shiftl_low a b n Hn Hb) as Hl.
  rewrite <-Z.lxor_lor, <-Z.add_nocarry_lxor by done.
  by rewrite Z.shiftl_mul_pow2 by lia.
Qed.

Lemma land_ones_mod a n : 0 ≤ n → Z.land a (2 ^ n - 1) = a mod 2 ^ n.
Proof. intros Hn. rewrite <-Z.land_ones by lia. by rewrite Z.ones_equiv, Z.sub_1_r. Qed.

(** ** Error codes (remote_connection_def/remote_connection_utils/error_code_def.h) *)
Inductive CuckooErrorCode :=
  | SUCCESS | PATH_IS_INVALID | PATH_IS_ROOT | PATH_EXISTS | PATH_NOT_EXISTS
  | PATH_LOCK_CONFLICT | PATH_VERIFY_FAILED | REMOTE_TRANSFER_FAILED | WRONG_WORKER
  | OBSOLETE_SHARD | REMOTE_QUERY_FAILED | ARGUMENT_ERROR | INODE_ROW_TYPE_ERROR
  | FILE_EXISTS | FILE_NOT_EXISTS | OUT_OF_MEMORY | STREAM_ERROR | PROGRAM_ERROR
  | SMART_ROUTE_ERROR | UNDEFINED | MKDIR_DUPLICATE | XKEY_EXISTS | XKEY_NOT_EXISTS
  | VERSION_OUT_OF_DATE | INVALID_PARAMETER | UNKNOWN | SERVER_FAULT | ZK_NOT_CONNECT
  | ZK_FETCH_RESULT_FAILED | TRANSACTION_FAULT | POOLED_FAULT | NOT_FOUND_FD
  | GET_ALL_WORKER_CONN_FAILED | IO_ERROR | READDIR_RENEW_CONN | LAST_CUCKOO_ERROR_CODE.

#[global] Instance CuckooErrorCode_eq_dec : EqDecision CuckooErrorCode.
Proof. solve_decision. Defined.

(** What elog(ERROR) reports: an error of the code's own, or one raised
    inside PostgreSQL (a unique-index violation, or an update or delete of a
    tuple that the transaction has already removed). *)
Inductive ErrorData :=
  | Cuckoo (c : CuckooErrorCode)
  | UniqueViolation
  | TupleAlreadyModified.

#[global] Instance ErrorData_eq_dec : EqDecision ErrorData.
Proof. solve_decision. Defined.

(** ** Outcomes and the state monad

    [Ret]: the C function returns.  [Elog]: elog(ERROR) unwinds to the
    transaction abort with the shared state as it was at that point.
    [Diverge]: a spin loop that this backend cannot leave on its own, or a
    loop whose fuel ran out.  [Undefined]: undefined behaviour in C. *)
Inductive outcome (S A : Type) : Type :=
  | Ret (a : A) (s : S)
  | Elog (e : ErrorData) (s : S)
  | Diverge
  | Undefined.
Arguments Ret {S A} a s.
Arguments Elog {S A} e s.
Arguments Diverge {S A}.
Arguments Undefined {S A}.

Definition M (S A : Type) : Type := S → outcome S A.

#[global] Instance M_ret S : MRet (M S) := λ A a s, Ret a s.
#[global] Instance M_bind S : MBind (M S) := λ A B f m s,
  match m s with
  | Ret a s' => f a s'
  | Elog e s' => Elog e s'
  | Diverge => Diverge
  | Undefined => Undefined
  end.

Definition mget {S} : M S S := λ s, Ret s s.
Definition mput {S} (s' : S) : M S () := λ _, Ret () s'.
Definition mmodify {S} (f : S → S) : M S () := λ s, Ret () (f s).
Definition melog {S A} (c : CuckooErrorCode) : M S A := λ s, Elog (Cuckoo c) s.
Definition mpgerror {S A} (e : ErrorData) : M S A := λ s, Elog e s.
Definition mdiverge {S A} : M S A := λ _, Diverge.
Definition mundefined {S A} : M S A := λ _, Undefined.

(** PG_TRY / PG_CATCH: the error, or the result. *)
Definition mtry {S A} (m : M S A) : M S (ErrorData + A) := λ s,
  match m s with
  | Ret a s' => Ret (inr a) s'
  | Elog e s' => Ret (inl e) s'
  | Diverge => Diverge
  | Undefined => Undefined
  end.

(** [for (x : l) body x] *)
Fixpoint mfor {S A} (l : list A) (body : A → M S ()) : M S () :=
  match l with
  | [] => mret ()
  | x :: l' => body x ;; mfor l' body
  end.

(** Run a computation on a part of the state. *)
Definition mzoom {S T A} (get : S → T) (put : T → S → S) (m : M T A) : M S A := λ s,
  match m (get s) with
  | Ret a t => Ret a (put t s)
  | Elog e t => Elog e (put t s)
  | Diverge => Diverge
  | Undefined => Undefined
  end.

(** The outcome, when there is a returned value, satisfies [P]. *)
Definition returns {S A} (o : outcome S A) (P : A → S → Prop) : Prop :=
  match o with Ret a s => P a s | _ => False end.

Definition is_ret {S A} (o : outcome S A) : bool := match o with Ret _ _ => true | _ => false end.

Lemma bind_ret {S A B} (m : M S A) (f : A → M S B) s a s' :
  m s = Ret a s' → (m ≫= f) s = f a s'.
Proof. intros H. unfold mbind, M_bind. by rewrite H. Qed.

(** Every outcome is accounted for: the returned value and the raised error
    satisfy the given predicates, [D] says whether the run may spin, and
    undefined behaviour is excluded. *)
Definition outcome_ok {S A} (o : outcome S A) (P : A → S → Prop) (E : ErrorData → S → Prop)
    (D : Prop) : Prop :=
  match o with
  | Ret a s => P a s
  | Elog e s => E e s
  | Diverge => D
  | Undefined => False
  end.

Lemma outcome_ok_bind {S A B} (m : M S A) (f : A → M S B) s P Q E D :
  outcome_ok (m s) P E D → (∀ a s', P a s' → outcome_ok (f a s') Q E D) →
  outcome_ok ((m ≫= f) s) Q E D.
Proof. unfold mbind, M_bind. intros Hm Hf. by destruct (m s); simpl in *; auto. Qed.

Lemma outcome_ok_mono {S A} (o : outcome S A) (P P' : A → S → Prop) (E E' : ErrorData → S → Prop)
    (D D' : Prop) :
  outcome_ok o P E D → (∀ a s, P a s → P' a s) → (∀ e s, E e s → E' e s) → (D → D') →
  outcome_ok o P' E' D'.
Proof. destruct o; simpl; auto. Qed.

Lemma outcome_ok_zoom {S T A} (get : S → T) put (m : M T A) s P E D :
  outcome_ok (m (get s)) P E D →
  outcome_ok (mzoom get put m s) (λ a s', ∃ t, s' = put t s ∧ P a t)
    (λ e s', ∃ t, s' = put t s ∧ E e t) D.
Proof. unfold mzoom. destruct (m (get s)); simpl; eauto. Qed.

Lemma outcome_ok_ret {S A} (o : outcome S A) P E D a s :
  outcome_ok o P E D → o = Ret a s → P a s.
Proof. by intros H ->. Qed.

Lemma outcome_ok_returns {S A} (o : outcome S A) P E D :
  outcome_ok o P E D → is_ret o = true → returns o P.
Proof. by destruct o. Qed.

Lemma returns_mono {S A} (o : outcome S A) (P Q : A → S → Prop) :
  returns o P → (∀ a s, P a s → Q a s) → returns o Q.
Proof. destruct o; simpl; auto. Qed.

Lemma bind_inv {S A B} (m : M S A) (f : A → M S B) s b s'' :
  (m ≫= f) s = Ret b s'' → ∃ a s', m s = Ret a s' ∧ f a s' = Ret b s''.
Proof. unfold mbind, M_bind. destruct (m s); naive_solver. Qed.

(** Equations that run the monad one operation at a time. *)
Lemma bind_mget {S B} (f : S → M S B) s : (mget ≫= f) s = f s s.
Proof. done. Qed.
Lemma bind_mret {S A B} (a : A) (f : A → M S B) s : (mret a ≫= f) s = f a s.
Proof. done. Qed.
Lemma bind_mput {S B} (t : S) (f : () → M S B) s : (mput t ≫= f) s = f () t.
Proof. done. Qed.
Lemma bind_mmodify {S B} g (f : () → M S B) (s : S) : (mmodify g ≫= f) s = f () (g s).
Proof. done. Qed.
Lemma bind_melog {S A B} c (f : A → M S B) s : (melog c ≫= f) s = Elog (Cuckoo c) s.
Proof. done. Qed.
Lemma bind_assoc {S A B C} (m : M S A) (f : A → M S B) (g : B → M S C) s :
  ((m ≫= f) ≫= g) s = (m ≫= λ a, f a ≫= g) s.
Proof. unfold mbind, M_bind. by destruct (m s). Qed.

Create HintDb cuckoo discriminated.
Create Rewrite HintDb cuckoo.
#[global] Hint Rewrite @bind_mget @bind_mret @bind_mput @bind_mmodify @bind_melog @bind_assoc
  : cuckoo.

(** [mstep] runs the reads, writes and returns at the head of the goal;
    [mstep_in H] does so in a hypothesis. *)
Ltac mstep := repeat (progress (autorewrite with cuckoo; cbv beta iota)).
Ltac mstep_in H := repeat (progress (autorewrite with cuckoo in H; cbv beta iota in H)).

(** A for loop preserves what each of its iterations preserves. *)
Lemma mfor_invariant {S A} (P : S → Prop) (l : list A) (body : A → M S ()) s u s' :
  (∀ x s1 s2, x ∈ l → P s1 → body x s1 = Ret () s2 → P s2) →
  P s → mfor l body s = Ret u s' → P s'.
Proof.
  intros Hstep. revert s. induction l as [|x l IH]; simpl; intros s HP H.
  - by inversion H; subst.
  - apply bind_inv in H as ([] & s1 & H1 & H2).
    eapply IH; [| |exact H2].
    + intros y s3 s4 Hy. apply Hstep. by right.
    + eapply Hstep; [|done|exact H1]. by left.
Qed.

(** ** Lists *)
Lemma filter_none {A} (P : A → Prop) `{!∀ x, Decision (P x)} (l : list A) :
  (∀ x, x ∈ l → ¬ P x) → filter P l = [].
Proof.
  intros Hl. destruct (filter P l) as [|x k] eqn:E; [done|]. exfalso.
  assert (x ∈ filter P l) as Hx by (rewrite E; left).
  apply list_elem_of_filter in Hx as [Hp Hin]. by apply (Hl x).
Qed.

Lemma filter_all {A} (P : A → Prop) `{!∀ x, Decision (P x)} (l : list A) :
  (∀ x, x ∈ l → P x) → filter P l = l.
Proof.
  induction l as [|x l IH]; intros Hl; [done|]. rewrite filter_cons, decide_True by (apply Hl; by left).
  f_equal. apply IH. intros y Hy. apply Hl. by right.
Qed.

Lemma filter_fmap {A B} (f : A → B) (P : B → Prop) `{!∀ x, Decision (P x)} (l : list A) :
  filter P (f <$> l) = f <$> filter (λ x, P (f x)) l.
Proof.
  induction l as [|x l IH]; [done|]. rewrite fmap_cons, !filter_cons, IH.
  by destruct (decide (P (f x))).
Qed.

Lemma snd_pair {A B} (a : A) (l : list B) : (pair a <$> l).*2 = l.
Proof. rewrite <-list_fmap_compose. apply list_fmap_id. Qed.

Lemma list_alter_insert {A} (f : A → A) i (l : list A) x : l !! i = Some x → alter f i l = <[i := f x]> l.
Proof.
  intros Hi. apply list_eq. intros j. destruct (decide (i = j)) as [<-|Hne].
  - rewrite list_lookup_alter_eq, list_lookup_insert_eq by by eapply lookup_lt_Some. by rewrite Hi.
  - by rewrite list_lookup_alter_ne, list_lookup_insert_ne.
Qed.

(** Changing distinct elements one after the other. *)
Lemma foldl_alter_lookup {A} (f : nat → A → A) idxs (l : list A) i :
  NoDup idxs →
  foldl (λ l j, alter (f j) j l) l idxs !! i = if decide (i ∈ idxs) then f i <$> l !! i else l !! i.
Proof.
  revert l. induction idxs as [|j idxs IH]; intros l Hnd.
  { by rewrite decide_False by apply not_elem_of_nil. }
  apply NoDup_cons in Hnd as [Hj Hnd]. simpl. rewrite IH by done. destruct (decide (j = i)) as [<-|Hne].
  - rewrite decide_False, decide_True by (done || by left). by rewrite list_lookup_alter_eq.
  - rewrite list_lookup_alter_ne by done. destruct (decide (i ∈ idxs)) as [Hi|Hi].
    + by rewrite decide_True by (by right).
    + rewrite decide_False; [done|]. rewrite not_elem_of_cons. split; [congruence|done].
Qed.

(** *** Sums over a list *)
Fixpoint zsum {A} (f : A → Z) (l : list A) : Z :=
  match l with [] => 0 | x :: l' => f x + zsum f l' end.

Section zsum.
Context {A : Type}.
Implicit Types (f g : A → Z) (bs : list A) (b : A).

Lemma zsum_insert f bs i b b' :
  bs !! i = Some b → zsum f (<[i := b']> bs) = zsum f bs - f b + f b'.
Proof.
  revert i. induction bs as [|x bs IH]; intros [|i] Hi; simplify_eq/=; [lia|].
  rewrite (IH i) by done. lia.
Qed.

Lemma zsum_le f g bs : (∀ b, b ∈ bs → f b ≤ g b) → zsum f bs ≤ zsum g bs.
Proof.
  induction bs as [|x bs IH]; intros Hle; simpl; [lia|].
  assert (f x ≤ g x) by (apply Hle; by left).
  assert (zsum f bs ≤ zsum g bs) by (apply IH; intros; apply Hle; by right). lia.
Qed.

Lemma zsum_const k bs : zsum (λ _, k) bs = k * Z.of_nat (length bs).
Proof. induction bs as [|x bs IH]; simpl; lia. Qed.

Lemma zsum_nonneg f bs : (∀ b, b ∈ bs → 0 ≤ f b) → 0 ≤ zsum f bs.
Proof. intros Hf. pose proof (zsum_le (λ _, 0) f bs Hf) as Hle. rewrite zsum_const in Hle. lia. Qed.

Lemma zsum_elem f bs i b :
  (∀ b, 0 ≤ f b) → bs !! i = Some b → f b ≤ zsum f bs.
Proof.
  intros Hf. revert i. induction bs as [|x bs IH]; intros [|i] Hi; simplify_eq/=.
  - pose proof (zsum_nonneg f bs (λ b _, Hf b)). lia.
  - specialize (IH i Hi). specialize (Hf x). lia.
Qed.

Lemma zsum_two f bs i j b b' :
  (∀ b, 0 ≤ f b) → i ≠ j → bs !! i = Some b → bs !! j = Some b' → f b + f b' ≤ zsum f bs.
Proof.
  intros Hf. revert i j. induction bs as [|x bs IH]; intros [|i] [|j] Hij Hi Hj; simplify_eq/=.
  - pose proof (zsum_elem f bs j b' Hf Hj). lia.
  - pose proof (zsum_elem f bs i b Hf Hi). lia.
  - specialize (IH i j ltac:(lia) Hi Hj). specialize (Hf x). lia.
Qed.

Lemma zsum_sub f g bs i b :
  (∀ b, f b ≤ g b) → bs !! i = Some b → zsum f bs - f b ≤ zsum g bs - g b.
Proof.
  intros Hfg. revert i. induction bs as [|x bs IH]; intros [|i] Hi; simplify_eq/=.
  - pose proof (zsum_le f g bs (λ b _, Hfg b)). lia.
  - specialize (IH i Hi). specialize (Hfg x). lia.
Qed.

Lemma zsum_app f bs bs' : zsum f (bs ++ bs') = zsum f bs + zsum f bs'.
Proof. induction bs as [|x bs IH]; simpl; lia. Qed.

Lemma zsum_ext f g bs : (∀ b, b ∈ bs → f b = g b) → zsum f bs = zsum g bs.
Proof.
  induction bs as [|x bs IH]; intros Hfg; simpl; [done|].
  rewrite (Hfg x), IH; [done| |by left]. intros b Hb. apply Hfg. by right.
Qed.
End zsum.

Lemma zsum_fmap {A B} (g : B → Z) (f : A → B) (l : list A) : zsum g (f <$> l) = zsum (λ x, g (f x)) l.
Proof. induction l as [|x l IH]; [done|]. rewrite fmap_cons. cbn [zsum]. by rewrite IH. Qed.

(** ** C strings

    A [char *] is the [string] of its bytes before the terminating NUL;
    reading the terminator gives NUL, reading past it is undefined. *)
Definition c_nul : ascii := "000"%char.
Definition c_at (s : string) (i : nat) : option ascii :=
  if decide (i < String.length s)%nat then String.get i s
  else if decide (i = String.length s) then Some c_nul else None.

(** The string holds no NUL of its own. *)
Definition cstring (s : string) : Prop := c_nul ∉ String.list_ascii_of_string s.

Lemma cstring_cons c s : cstring (String c s) ↔ c ≠ c_nul ∧ cstring s.
Proof. unfold cstring. simpl. rewrite not_elem_of_cons. split; intros [? ?]; auto. Qed.

Lemma c_at_0 s : c_at s 0 = Some (match s with EmptyString => c_nul | String c _ => c end).
Proof. by destruct s. Qed.

Lemma string_length_app s t : String.length (s ++ t) = (String.length s + String.length t)%nat.
Proof. induction s; simpl; auto. Qed.

Lemma c_at_app s t i : c_at (s ++ t) (String.length s + i) = c_at t i.
Proof.
  unfold c_at. rewrite string_length_app.
  assert (String.get (String.length s + i) (s ++ t) = String.get i t) as ->
    by (induction s; simpl; auto).
  repeat (destruct (decide _)); try lia; done.
Qed.

Lemma substring_app s t n : String.substring (String.length s) n (s ++ t) = String.substring 0 n t.
Proof. induction s; simpl; auto. Qed.

Lemma substring_prefix s t : String.substring 0 (String.length s) (s ++ t) = s.
Proof. induction s as [|c s IH]; simpl; [by destruct t|]. by rewrite IH. Qed.

Lemma string_app_assoc (s t u : string) : ((s ++ t) ++ u = s ++ t ++ u)%string.
Proof. induction s as [|c s IH]; [done|exact (f_equal (String c) IH)]. Qed.

Lemma string_app_nil (s : string) : (s ++ "" = s)%string.
Proof. induction s as [|c s IH]; [done|exact (f_equal (String c) IH)]. Qed.

(** ** Lexicographic order on lists of integers, a prefix first *)
Fixpoint lex_le (a b : list Z) : Prop :=
  match a, b with
  | [], _ => True
  | _ :: _, [] => False
  | x :: a', y :: b' => x < y ∨ (x = y ∧ lex_le a' b')
  end.

#[global] Instance lex_le_dec : RelDecision lex_le.
Proof. intros a. induction a as [|x a IH]; intros [|y b]; simpl; apply _. Defined.

Lemma lex_le_refl a : lex_le a a.
Proof. induction a; simpl; auto. Qed.

Lemma lex_le_trans a b c : lex_le a b → lex_le b c → lex_le a c.
Proof.
  revert b c. induction a as [|x a IH]; intros [|y b] [|z c]; simpl; try done.
  intros [?|[-> ?]] [?|[-> ?]]; try (left; lia). right. split; [done|]. by eapply IH.
Qed.

Lemma lex_le_antisym a b : lex_le a b → lex_le b a → a = b.
Proof.
  revert b. induction a as [|x a IH]; intros [|y b]; simpl; try done.
  intros [?|[-> ?]] [?|[? ?]]; try lia. f_equal. auto.
Qed.

Lemma lex_le_total a b : lex_le a b ∨ lex_le b a.
Proof.
  revert b. induction a as [|x a IH]; intros [|y b]; simpl; auto.
  destruct (Z.lt_total x y) as [?|[->|?]]; auto. destruct (IH b); auto.
Qed.

(** What lies between [d] and an extension of [d] extends [d] too. *)
Lemma lex_le_between d a r : lex_le d a → lex_le a (d ++ r) → ∃ x, a = d ++ x ∧ lex_le x r.
Proof.
  revert a. induction d as [|y d IH]; intros a; simpl; [eauto|].
  destruct a as [|x a]; [done|]. simpl. intros [?|[-> H1]] [?|[? H2]]; try lia.
  destruct (IH a H1 H2) as (z & -> & Hz). eauto.
Qed.
