(* ===== verification/Decimal.v ===== *)
(** * Decimal numbers in text: atoll and strtol of the C library

    What PostgreSQL and std::format print, [pretty] of stdpp, reads back. *)
From stdpp Require Import pretty.
From S2P Require Import Prelude.

(** atoll *)
Fixpoint digits_value (acc : Z) (s : string) : Z :=
  match s with
  | String c s' =>
    let k := Z.of_N (N_of_ascii c) in
    if decide (48 ≤ k ≤ 57) then digits_value (acc * 10 + (k - 48)) s' else acc
  | EmptyString => acc
  end.
Definition is_space (c : ascii) : bool :=
  let k := Z.of_N (N_of_ascii c) in bool_decide (k = 32 ∨ 9 ≤ k ≤ 13).
Fixpoint skip_spaces (s : string) : string :=
  match s with String c s' => if is_space c then skip_spaces s' else s | EmptyString => s end.
Definition atoll (s : string) : Z :=
  let clamp z := Z.max (- 2 ^ 63) (Z.min (2 ^ 63 - 1) z) in
  match skip_spaces s with
  | String "-" s' => clamp (- digits_value 0 s')
  | String "+" s' => clamp (digits_value 0 s')
  | s' => clamp (digits_value 0 s')
  end.

Definition digit_value (c : ascii) : Z := Z.of_N (N_of_ascii c) - 48.

Lemma pretty_char x : (x < 10)%N → digit_value (pretty_N_char x) = Z.of_N x.
Proof.
  intros Hx. assert (x = 0 ∨ x = 1 ∨ x = 2 ∨ x = 3 ∨ x = 4 ∨ x = 5 ∨ x = 6 ∨ x = 7 ∨ x = 8 ∨ x = 9)%N as Hc by lia.
  by repeat (destruct Hc as [->|Hc]; [done|]); rewrite Hc.
Qed.

Lemma digits_cons acc x s : (x < 10)%N →
  digits_value acc (String (pretty_N_char x) s) = digits_value (acc * 10 + Z.of_N x) s.
Proof.
  intros Hx. pose proof (pretty_char x Hx) as Hd. unfold digit_value in Hd. cbn [digits_value]. rewrite decide_True by lia. f_equal. lia.
Qed.

Lemma digits_pretty x s t : digits_value 0 (pretty_N_go x s +:+ t) = digits_value (Z.of_N x) (s +:+ t).
Proof.
  revert s. induction x as [x IH] using (well_founded_induction N.lt_wf_0). intros s. destruct (decide (x = 0)%N) as [->|Hne].
  { by rewrite pretty_N_go_0. }
  rewrite pretty_N_go_step by lia. rewrite IH by (apply N.div_lt; lia). change (String ?c s +:+ t) with (String c (s +:+ t)).
  pose proof (N.mod_lt x 10 ltac:(lia)). rewrite (digits_cons _ (x mod 10)) by done.
  f_equal. rewrite (N.div_mod x 10) at 3 by lia. lia.
Qed.

Lemma pretty_first x s : (0 < x)%N → ∃ c r, pretty_N_go x s = String c r ∧ 0 ≤ digit_value c ≤ 9.
Proof.
  revert s. induction x as [x IH] using (well_founded_induction N.lt_wf_0). intros s Hx. rewrite pretty_N_go_step by lia.
  pose proof (N.mod_lt x 10 ltac:(lia)). destruct (decide (x / 10 = 0)%N) as [->|Hne].
  - rewrite pretty_N_go_0. eexists _, _. split; [reflexivity|]. rewrite pretty_char by done. revert H. generalize (x mod 10)%N. lia.
  - apply IH; [apply N.div_lt; lia|by apply N.neq_0_lt_0].
Qed.

(** The number in front of a text that does not go on with a digit. *)
Lemma atoll_pretty i t : 0 ≤ i < 2 ^ 63 → (∀ acc, digits_value acc t = acc) → atoll (pretty (Z.to_N i) +:+ t) = i.
Proof.
  intros Hi Ht. set (s := (pretty (Z.to_N i) +:+ t)%string).
  assert (digits_value 0 s = i ∧ ∃ c r, s = String c r ∧ 0 ≤ digit_value c ≤ 9) as (Hv & c & r & Hs & Hc).
  { unfold s, pretty, pretty_N. destruct (decide (Z.to_N i = 0%N)) as [Hz|Hz].
    - split; [simpl; rewrite Ht; lia|]. by eexists _, _.
    - rewrite digits_pretty. simpl. rewrite Ht. split; [lia|]. destruct (pretty_first (Z.to_N i) ""%string) as (c & r & -> & Hc); [lia|].
      by exists c, (r +:+ t)%string. }
  rewrite Hs in Hv |- *. unfold digit_value in Hc.
  assert (c ≠ "-"%char ∧ c ≠ "+"%char) as [Hm Hp] by (split; intros ->; simpl in Hc; lia).
  unfold atoll. cbn [skip_spaces]. unfold is_space. rewrite bool_decide_eq_false_2 by lia.
  destruct c as [[] [] [] [] [] [] [] []]; try done; rewrite Hv; lia.
Qed.
