(* ===== verification/Pg.v ===== *)
(** * PostgreSQL services the extension calls

    PostgreSQL is not part of the repository (it is a git submodule), so what
    the code uses of it is an interface: a relation with a unique btree index
    ([PgRelation]) and the server's utility functions ([PgEnv]).  The laws are
    PostgreSQL's documented behaviour.  The end of the file gives one concrete
    implementation of each, at which the witnesses evaluate. *)

From S2P Require Import Prelude.

(** ** Heap relations with a unique index

    [visible t] are the rows a scan started by the current command sees,
    [latest t] the rows once the command has ended: a row written by a
    command is seen by the scans that follow the next
    CommandCounterIncrement, while the unique index checks all of them. *)
Class PgRelation {K R : Type} `{Countable K} (key_of : R → K) (idx_le : relation K) := {
  rel : Type;
  visible : rel → gmap K R;
  latest : rel → gmap K R;
  index_scan : rel → list R;
  CatalogTupleInsert : rel → R → option rel;
  CatalogTupleUpdate : rel → R → option rel;
  CatalogTupleDelete : rel → K → option rel;
  CommandCounterIncrement : rel → rel;
  visible_key t k r : visible t !! k = Some r → key_of r = k;
  scan_elem t r : r ∈ index_scan t ↔ visible t !! key_of r = Some r;
  scan_NoDup t : NoDup (index_scan t);
  scan_sorted t : StronglySorted (λ a b, idx_le (key_of a) (key_of b)) (index_scan t);
  insert_None t r : CatalogTupleInsert t r = None ↔ is_Some (latest t !! key_of r);
  insert_Some t r t' : CatalogTupleInsert t r = Some t' →
    visible t' = visible t ∧ latest t' = <[key_of r := r]> (latest t);
  update_None t r : CatalogTupleUpdate t r = None ↔ latest t !! key_of r = None;
  update_Some t r t' : CatalogTupleUpdate t r = Some t' →
    visible t' = visible t ∧ latest t' = <[key_of r := r]> (latest t);
  delete_None t k : CatalogTupleDelete t k = None ↔ latest t !! k = None;
  delete_Some t k t' : CatalogTupleDelete t k = Some t' →
    visible t' = visible t ∧ latest t' = delete k (latest t);
  cci_visible t : visible (CommandCounterIncrement t) = latest t;
  cci_latest t : latest (CommandCounterIncrement t) = latest t;
}.
Arguments rel {K R _ _} key_of idx_le {_}.

Section scans.
Context {K R : Type} `{Countable K} {key_of : R → K} {idx_le : relation K}.
Context `{!PgRelation key_of idx_le}.

(** systable_beginscan with equality keys on every column of the unique
    index, then the first systable_getnext. *)
Definition scan_eq (t : rel key_of idx_le) (k : K) : option R :=
  head (filter (λ r, key_of r = k) (index_scan t)).

Lemma scan_eq_visible t k : scan_eq t k = visible t !! k.
Proof.
  unfold scan_eq. destruct (filter _ _) as [|r l] eqn:E; simpl.
  - destruct (visible t !! k) as [r|] eqn:Hv; [|done]. exfalso.
    pose proof (visible_key _ _ _ Hv) as Hk.
    assert (r ∈ filter (λ r, key_of r = k) (index_scan t)) as Hin.
    { apply list_elem_of_filter. split; [done|]. apply scan_elem. by rewrite Hk. }
    rewrite E in Hin. by apply not_elem_of_nil in Hin.
  - assert (r ∈ filter (λ r, key_of r = k) (index_scan t)) as Hin
      by (rewrite E; left).
    apply list_elem_of_filter in Hin as [<- Hin]. by apply scan_elem in Hin.
Qed.

(** No command is pending: every scan sees every row. *)
Definition settled (t : rel key_of idx_le) : Prop := visible t = latest t.

Lemma settled_cci t : settled (CommandCounterIncrement t).
Proof. unfold settled. by rewrite cci_visible, cci_latest. Qed.

Lemma insert_is_Some t r :
  latest t !! key_of r = None → ∃ t', CatalogTupleInsert t r = Some t'.
Proof.
  intros Hn. destruct (CatalogTupleInsert t r) eqn:E; [eauto|].
  apply insert_None in E. rewrite Hn in E. by destruct E.
Qed.

Lemma update_is_Some t r :
  is_Some (latest t !! key_of r) → ∃ t', CatalogTupleUpdate t r = Some t'.
Proof.
  intros Hn. destruct (CatalogTupleUpdate t r) eqn:E; [eauto|].
  apply update_None in E. rewrite E in Hn. by destruct Hn.
Qed.

Lemma delete_is_Some t k :
  is_Some (latest t !! k) → ∃ t', CatalogTupleDelete t k = Some t'.
Proof.
  intros Hn. destruct (CatalogTupleDelete t k) eqn:E; [eauto|].
  apply delete_None in E. rewrite E in Hn. by destruct Hn.
Qed.

Lemma elem_key_inj t r1 r2 :
  r1 ∈ index_scan t → r2 ∈ index_scan t → key_of r1 = key_of r2 → r1 = r2.
Proof. rewrite !scan_elem. intros H1 H2 Hk. rewrite Hk in H1. congruence. Qed.

Lemma scan_keys_NoDup t : NoDup (key_of <$> index_scan t).
Proof.
  apply NoDup_fmap_2_strong; [|apply scan_NoDup]. intros. by eapply elem_key_inj.
Qed.

Lemma scan_map_to_list t :
  (λ r, (key_of r, r)) <$> index_scan t ≡ₚ map_to_list (visible t).
Proof.
  apply NoDup_Permutation.
  - apply NoDup_fmap_2_strong; [naive_solver|apply scan_NoDup].
  - apply NoDup_map_to_list.
  - intros [k r]. rewrite elem_of_map_to_list, list_elem_of_fmap. split.
    + intros (r' & ? & Hin). simplify_eq. by apply scan_elem.
    + intros Hk. pose proof (visible_key _ _ _ Hk) as <-. exists r. split; [done|].
      by apply scan_elem.
Qed.

Lemma length_scan t : length (index_scan t) = size (visible t).
Proof.
  by rewrite <-length_map_to_list, <-scan_map_to_list, length_fmap.
Qed.

(** A scan is determined by the visible rows. *)
Lemma scan_ext `{!PartialOrder idx_le} t t' :
  visible t = visible t' → index_scan t = index_scan t'.
Proof.
  intros Hv.
  assert (∀ r, r ∈ index_scan t ↔ r ∈ index_scan t') as Hel
    by (intros r; by rewrite !scan_elem, Hv).
  apply (StronglySorted_unique_strong (λ a b, idx_le (key_of a) (key_of b)));
    [|apply scan_sorted|apply scan_sorted|].
  - intros r1 r2 H1 H2 Hle1 Hle2. apply Hel in H2.
    eapply elem_key_inj; [done..|]. by apply (anti_symm idx_le).
  - apply NoDup_Permutation; [apply scan_NoDup..|done].
Qed.

(** In an index scan the keys increase strictly. *)
Lemma scan_lookup_ne t i j r1 r2 :
  index_scan t !! i = Some r1 → index_scan t !! j = Some r2 →
  (i < j)%nat → idx_le (key_of r1) (key_of r2) ∧ key_of r1 ≠ key_of r2.
Proof.
  intros H1 H2 Hij. split.
  - pose proof (scan_sorted t) as Hs. revert i j H1 H2 Hij.
    induction Hs as [|r l Hs IH Hall]; intros i j H1 H2 Hij; [done|].
    destruct i, j; simplify_eq/=; [lia| |lia|].
    + rewrite Forall_forall in Hall. apply Hall. by eapply list_elem_of_lookup_2.
    + eapply IH; [done..|lia].
  - intros Hk. assert (i = j); [|lia].
    eapply (NoDup_lookup (key_of <$> index_scan t)); [apply scan_keys_NoDup|..].
    + by rewrite list_lookup_fmap, H1.
    + by rewrite list_lookup_fmap, H2; simpl; rewrite Hk.
Qed.
End scans.

(** The order of text columns in an index: the collation of the database. *)
Class Collation := {
  text_le : relation string;
  text_le_dec : RelDecision text_le;
  text_le_po : PartialOrder text_le;
  text_le_total : Total text_le;
}.
#[global] Existing Instances text_le_dec text_le_po text_le_total.

(** Row order of a btree on a bigint column and a text column. *)
Section index_order.
Context `{!Collation}.
Definition id_text_le (a b : Z * string) : Prop := a.1 < b.1 ∨ (a.1 = b.1 ∧ text_le a.2 b.2).

#[global] Instance id_text_le_dec : RelDecision id_text_le.
Proof. intros a b. unfold id_text_le. apply _. Defined.

#[global] Instance id_text_le_po : PartialOrder id_text_le.
Proof.
  split; [split|].
  - intros [x s]. right. by split.
  - intros [x s] [y t] [z u] [?|[? ?]] [?|[? ?]]; simpl in *; subst; unfold id_text_le; simpl; try lia.
    right. split; [done|]. by etransitivity.
  - intros [x s] [y t] [?|[? ?]] [?|[? ?]]; simpl in *; subst; try lia.
    f_equal. by apply (anti_symm text_le).
Qed.

#[global] Instance id_text_le_total : Total id_text_le.
Proof.
  intros [x s] [y t]. unfold id_text_le; simpl.
  destruct (Z.lt_total x y) as [?|[->|?]]; [by left; left| |by right; left].
  destruct (total text_le s t); [left|right]; right; by split.
Qed.
End index_order.

(** ** Utility functions of the server process *)
Class PgEnv := {
  (** whether plain char is signed on the platform *)
  char_is_signed : bool;
  (** common/hashfn.c *)
  hash_bytes_uint32 : Z → Z;
  hash_any_extended : string → Z → Z;
  hash_bytes_uint32_range k : 0 ≤ hash_bytes_uint32 k < 2 ^ 32;
  (** the order in which hash_seq_search returns the entries of a table *)
  hash_seq_order {A : Type} : list A → list A;
  hash_seq_order_perm {A : Type} (l : list A) : hash_seq_order l ≡ₚ l;
  (** port/qsort.c with a comparator that returns a negative, zero or
      positive int *)
  pg_qsort {A : Type} : (A → A → Z) → list A → list A;
  pg_qsort_perm {A : Type} cmp (l : list A) : pg_qsort cmp l ≡ₚ l;
  pg_qsort_sorted {A : Type} cmp (l : list A) :
    (∀ a b, cmp a b ≤ 0 ∨ cmp b a ≤ 0) →
    (∀ a b c, cmp a b ≤ 0 → cmp b c ≤ 0 → cmp a c ≤ 0) →
    StronglySorted (λ a b, cmp a b ≤ 0) (pg_qsort cmp l);
}.

(** ** Reference implementations *)
Module PgRef.
#[local] Obligation Tactic := idtac.

Section relation.
Context {K R : Type} `{Countable K} (key_of : R → K) (idx_le : relation K).
Context `{!RelDecision idx_le, !PartialOrder idx_le, !Total idx_le}.

Record table := mk_table { vis : gmap K R; lat : gmap K R }.

Definition row_le (a b : R) : Prop := idx_le (key_of a) (key_of b).
#[local] Instance row_le_dec : RelDecision row_le := λ a b, decide (idx_le (key_of a) (key_of b)).
#[local] Instance row_le_trans : Transitive row_le.
Proof. intros a b c. unfold row_le. apply transitivity. Qed.
#[local] Instance row_le_total : Total row_le.
Proof. intros a b. unfold row_le. apply (total idx_le). Qed.

Definition keyed (m : gmap K R) : gmap K R := filter (λ kr, key_of kr.2 = kr.1) m.

Lemma keyed_lookup m k r : keyed m !! k = Some r ↔ m !! k = Some r ∧ key_of r = k.
Proof. unfold keyed. by rewrite map_lookup_filter_Some. Qed.

Lemma keyed_insert m r : keyed (<[key_of r := r]> m) = <[key_of r := r]> (keyed m).
Proof. unfold keyed. by rewrite map_filter_insert_True. Qed.

Lemma keyed_delete m k : keyed (delete k m) = delete k (keyed m).
Proof. unfold keyed. by rewrite map_filter_delete. Qed.

Definition scan (t : table) : list R :=
  merge_sort row_le ((map_to_list (keyed (vis t))).*2).

Lemma scan_perm t : scan t ≡ₚ (map_to_list (keyed (vis t))).*2.
Proof. apply merge_sort_Permutation. Qed.

Lemma scan_spec t r : r ∈ scan t ↔ keyed (vis t) !! key_of r = Some r.
Proof.
  rewrite scan_perm, list_elem_of_fmap. split.
  - intros ([k r'] & -> & Hin). apply elem_of_map_to_list in Hin. simpl.
    by pose proof (proj1 (keyed_lookup _ _ _) Hin) as [_ ->].
  - intros Hl. exists (key_of r, r). split; [done|]. by apply elem_of_map_to_list.
Qed.

Lemma scan_nodup t : NoDup (scan t).
Proof.
  rewrite scan_perm. apply NoDup_fmap_2_strong; [|apply NoDup_map_to_list].
  intros [k1 r1] [k2 r2] H1 H2 Heq. simpl in Heq. subst r2.
  apply elem_of_map_to_list, keyed_lookup in H1 as [_ <-].
  by apply elem_of_map_to_list, keyed_lookup in H2 as [_ <-].
Qed.

Definition tinsert (t : table) (r : R) : option table :=
  match keyed (lat t) !! key_of r with
  | Some _ => None
  | None => Some (mk_table (vis t) (<[key_of r := r]> (lat t)))
  end.

Definition tupdate (t : table) (r : R) : option table :=
  match keyed (lat t) !! key_of r with
  | Some _ => Some (mk_table (vis t) (<[key_of r := r]> (lat t)))
  | None => None
  end.

Definition tdelete (t : table) (k : K) : option table :=
  match keyed (lat t) !! k with
  | Some _ => Some (mk_table (vis t) (delete k (lat t)))
  | None => None
  end.

Ltac table_case :=
  intros; unfold tinsert, tupdate, tdelete in *;
  repeat case_match; simplify_eq/=; rewrite ?keyed_insert, ?keyed_delete; auto;
  split; intros; simplify_eq/=; eauto; by destruct_and?.

#[export] Instance pg_table : PgRelation key_of idx_le.
Proof.
  refine {|
    rel := table;
    visible t := keyed (vis t);
    latest t := keyed (lat t);
    index_scan := scan;
    CatalogTupleInsert := tinsert;
    CatalogTupleUpdate := tupdate;
    CatalogTupleDelete := tdelete;
    CommandCounterIncrement t := mk_table (lat t) (lat t);
    scan_elem := scan_spec;
    scan_NoDup := scan_nodup;
    scan_sorted t := StronglySorted_merge_sort row_le _;
  |}; cbn beta; try reflexivity.
  - intros t k r Hl. by apply keyed_lookup in Hl as [_ ?].
  - intros t r. unfold tinsert. destruct (keyed (lat t) !! key_of r) as [r0|]; split;
      try discriminate; [by exists r0|done|by intros [? ?]].
  - table_case.
  - table_case.
  - table_case.
  - table_case.
  - table_case.
Defined.

Definition of_rows (l : list R) : table :=
  let m := list_to_map ((λ r, (key_of r, r)) <$> l) in mk_table m m.
End relation.

(** Jenkins' final mix, as hash_bytes_uint32 of common/hashfn.c. *)
Definition rot32 (x k : Z) : Z := Z.lor (u32 (Z.shiftl x k)) (Z.shiftr x (32 - k)).
Definition jenkins32 (k : Z) : Z :=
  let a := u32 (2654435769 + 4 + 3923095) in
  let b := a in
  let c := a in
  let a := u32 (a + k) in
  let c := u32 (Z.lxor c b - rot32 b 14) in
  let a := u32 (Z.lxor a c - rot32 c 11) in
  let b := u32 (Z.lxor b a - rot32 a 25) in
  let c := u32 (Z.lxor c b - rot32 b 16) in
  let a := u32 (Z.lxor a c - rot32 c 4) in
  let b := u32 (Z.lxor b a - rot32 a 14) in
  u32 (Z.lxor c b - rot32 b 24).

Definition cmp_le {A} (cmp : A → A → Z) (a b : A) : Prop := cmp a b ≤ 0.
#[local] Instance cmp_le_dec {A} (cmp : A → A → Z) : RelDecision (cmp_le cmp) :=
  λ a b, Z_le_dec (cmp a b) 0.

#[export] Program Instance pg_env : PgEnv := {|
  char_is_signed := true;
  hash_bytes_uint32 := jenkins32;
  hash_any_extended s seed := fold_left (λ h c, u64 (h * 31 + Z.of_nat (nat_of_ascii c))) (String.list_ascii_of_string s) (u64 seed);
  hash_seq_order A l := l;
  pg_qsort A cmp l := merge_sort (cmp_le cmp) l;
|}.
Next Obligation. intros k. apply u32_range. Qed.
Next Obligation. done. Qed.
Next Obligation. intros A cmp l. apply merge_sort_Permutation. Qed.
Next Obligation.
  intros A cmp l Htot Htrans.
  assert (Total (cmp_le cmp)) by exact Htot.
  assert (Transitive (cmp_le cmp)) by exact Htrans.
  apply (StronglySorted_merge_sort (cmp_le cmp)).
Qed.

(** The C collation: byte by byte, a prefix first. *)
Definition codes (s : string) : list Z :=
  (λ c, Z.of_nat (nat_of_ascii c)) <$> String.list_ascii_of_string s.

Lemma codes_inj s t : codes s = codes t → s = t.
Proof.
  unfold codes. intros Heq.
  assert (String.list_ascii_of_string s = String.list_ascii_of_string t) as Hl.
  { eapply (list_fmap_eq_inj (λ c, Z.of_nat (nat_of_ascii c))); [|exact Heq].
    intros a b Hab. apply Nat2Z.inj in Hab.
    by rewrite <-(ascii_nat_embedding a), <-(ascii_nat_embedding b), Hab. }
  by rewrite <-(String.string_of_list_ascii_of_string s), Hl, String.string_of_list_ascii_of_string.
Qed.

#[export] Program Instance c_collation : Collation := {| text_le s t := lex_le (codes s) (codes t) |}.
Next Obligation. intros s t. apply lex_le_dec. Defined.
Next Obligation.
  split; [split|].
  - intros s. apply lex_le_refl.
  - intros s t u. apply lex_le_trans.
  - intros s t H1 H2. apply codes_inj. by apply lex_le_antisym.
Qed.
Next Obligation. intros s t. apply lex_le_total. Qed.
End PgRef.
