(* ===== verification/Shard.v ===== *)
(** * Sharding: identifiers, the shard map and its cache

    utils/utils.c (inode ids, HashShard), metadb/meta_handle.c (HashPartId,
    CombineParentIdWithPartId) and metadb/shard_table.c.  A file's inode row
    lives in the shard whose range of hash values covers the hash of the
    file's part id; the shard map is a relation of range end points, mirrored
    in a shared-memory array that is reloaded when it has been invalidated. *)

From S2P Require Import Prelude Pg.

(** ** Identifiers *)

Definition PART_ID_MASK : Z := 8191. (* 0x1FFF *)
Definition PART_ID_BIT_COUNT : Z := 13.
Definition FILENAMELENGTH : nat := 256.

Definition GenerateInodeIdBySeqAndNodeId (seq nodeId : Z) : Z :=
  Z.lor (u64 (Z.shiftl seq 12)) (Z.land nodeId 4095).

(** The value of a plain char in an int expression. *)
Definition char_to_int `{!PgEnv} (c : ascii) : Z :=
  let v := Z.of_nat (nat_of_ascii c) in
  if char_is_signed then (if decide (v < 128) then v else v - 256) else v.

Definition hash_part_step `{!PgEnv} (hashValue : Z) (c : ascii) : Z :=
  u16 (hashValue * 31 + char_to_int c).

Definition HashPartId `{!PgEnv} (fileName : string) : Z :=
  Z.land (fold_left hash_part_step
            (take FILENAMELENGTH (String.list_ascii_of_string fileName)) 0)
         PART_ID_MASK.

Definition CombineParentIdWithPartId (parent_id part_id : Z) : Z :=
  Z.lor (u64 (Z.shiftl parent_id PART_ID_BIT_COUNT)) part_id.

Definition HashShard `{!PgEnv} (parentId_partId : Z) : Z :=
  let val := i64 (Z.land parentId_partId PART_ID_MASK) in
  let lohalf := u32 val in
  let hihalf := u32 (Z.shiftr val 32) in
  let lohalf := Z.lxor lohalf (if decide (val >= 0) then hihalf else u32 (Z.lnot hihalf)) in
  let res := i32 (hash_bytes_uint32 lohalf) in
  i32 (Z.land (u32 res) (u32 (Z.lnot (Z.shiftl 1 31)))).

(** ** The shard map *)

Definition SHARD_COUNT_MAX : Z := 100000000.
Definition SHARD_TABLE_RANGE_MIN : Z := 0.
Definition SHARD_TABLE_RANGE_MAX : Z := INT32_MAX.

Record FormData_cuckoo_shard_table := mkShard { range_point : Z; server_id : Z }.

Record ShardInfo := mkShardInfo {
  si_rangeMin : Z; si_rangeMax : Z; si_host : string; si_port : Z; si_serverId : Z }.

Abbreviation shard_rel := (rel range_point Z.le).

(** The relation cuckoo_shard_table and the shared-memory mirror of it:
    ShardTableShmemCache[0 .. *ShardTableShmemCacheCount) and the flag
    ShardTableShmemCacheInvalid. *)
Record ShardState `{!PgRelation range_point Z.le} := mkShardState {
  shard_table : shard_rel;
  shard_cache : list FormData_cuckoo_shard_table;
  shard_cache_invalid : bool }.
#[global] Instance eta_ShardState `{!PgRelation range_point Z.le} : Eta ShardState :=
  λ s, mkShardState _ (shard_table s) (shard_cache s) (shard_cache_invalid s).

Section shard.
Context `{!PgEnv, !PgRelation range_point Z.le}.

Definition shard_insert (row : FormData_cuckoo_shard_table) : M ShardState () := λ s,
  match CatalogTupleInsert (shard_table s) row with
  | Some t => Ret () (s <| shard_table := t |>)
  | None => Elog UniqueViolation s
  end.

Definition shard_update (row : FormData_cuckoo_shard_table) : M ShardState () := λ s,
  match CatalogTupleUpdate (shard_table s) row with
  | Some t => Ret () (s <| shard_table := t |>)
  | None => Elog TupleAlreadyModified s
  end.

Definition shard_cci : M ShardState () :=
  mmodify (λ s, s <| shard_table ::= CommandCounterIncrement |>).

Definition InvalidateShardTableShmemCache : M ShardState () :=
  mmodify (λ s, s <| shard_cache_invalid := true |>).

(** The end point of the i-th of [shardCount] shards. *)
Definition build_range_point (shardCount i : Z) : Z :=
  if decide (i = shardCount - 1) then SHARD_TABLE_RANGE_MAX
  else i32 (((SHARD_TABLE_RANGE_MAX - SHARD_TABLE_RANGE_MIN) * (i + 1)) `quot` shardCount
            + SHARD_TABLE_RANGE_MIN).

(** The loop of cuckoo_build_shard_table over i = shardCount - n .. *)
Fixpoint build_shards (serverIdList : list Z) (shardCount : Z) (n : nat) (serverRound : Z)
  : M ShardState () :=
  match n with
  | O => mret ()
  | S n' =>
      let i := shardCount - Z.of_nat n in
      match serverIdList !! Z.to_nat serverRound with
      | None => mundefined
      | Some id =>
          shard_insert (mkShard (build_range_point shardCount i) id) ;;
          build_shards serverIdList shardCount n'
            ((serverRound + 1) mod Z.of_nat (length serverIdList))
      end
  end.

(** [serverIdList] is what GetAllForeignServerId(false, true) returns. *)
Definition cuckoo_build_shard_table (serverIdList : list Z) (shardCount : Z) : M ShardState () :=
  if decide (shardCount ≤ 0 ∨ shardCount > SHARD_COUNT_MAX) then melog ARGUMENT_ERROR
  else if decide (length serverIdList = 0%nat) then melog ARGUMENT_ERROR
  else
    build_shards serverIdList shardCount (Z.to_nat shardCount) 0 ;;
    shard_cci ;;
    InvalidateShardTableShmemCache.

(** The scan loop of ReloadShardTableShmemCache: the rows copied so far and
    whether the array was too small. *)
Fixpoint reload_loop (rows cache : list FormData_cuckoo_shard_table) (count : Z)
  : list FormData_cuckoo_shard_table * bool :=
  match rows with
  | [] => (cache, false)
  | row :: rows' =>
      if decide (count >= SHARD_COUNT_MAX) then (cache, true)
      else reload_loop rows' (cache ++ [row]) (count + 1)
  end.

Definition ReloadShardTableShmemCache : M ShardState () := λ s,
  if shard_cache_invalid s then
    let '(cache, exceedMaxNumOfShardTable) := reload_loop (index_scan (shard_table s)) [] 0 in
    let s := s <| shard_cache := cache |> <| shard_cache_invalid := false |> in
    if exceedMaxNumOfShardTable : bool then
      Elog (Cuckoo PROGRAM_ERROR) (s <| shard_cache_invalid := true |>)
    else Ret () s
  else Ret () s.

(** while (pg_atomic_read_u32(ShardTableShmemCacheInvalid)) Reload...; one
    iteration clears the flag or raises, so two tests of it are enough. *)
Fixpoint wait_valid (fuel : nat) : M ShardState () := λ s,
  match fuel with
  | O => Diverge
  | S fuel' =>
      if shard_cache_invalid s then (ReloadShardTableShmemCache ;; wait_valid fuel') s
      else Ret () s
  end.

Definition cuckoo_reload_shard_table_cache : M ShardState () :=
  InvalidateShardTableShmemCache ;; ReloadShardTableShmemCache.

(** One step of the loop of cuckoo_update_shard_table. *)
Definition update_shard_step (change : Z * Z) : M ShardState () :=
  let '(rangePoint, serverId) := change in
  s ← mget;
  (match scan_eq (shard_table s) rangePoint with
   | None => shard_insert (mkShard rangePoint serverId)
   | Some row => shard_update (mkShard (range_point row) serverId)
   end) ;;
  shard_cci.

Definition cuckoo_update_shard_table (rangePointArray serverIdArray : list Z) : M ShardState () :=
  if decide (length rangePointArray ≠ length serverIdArray) then melog ARGUMENT_ERROR
  else
    mfor (zip rangePointArray serverIdArray) update_shard_step ;;
    InvalidateShardTableShmemCache ;;
    ReloadShardTableShmemCache.

(** The binary search of SearchShardInfoByShardValue: the least index whose
    range point is not below the hash value. *)
Fixpoint search_loop (fuel : nat) (cache : list FormData_cuckoo_shard_table) (hashvalue l r : Z)
  : option Z :=
  match fuel with
  | O => None
  | S fuel' =>
      if decide (l < r) then
        let mid := (l + r) `quot` 2 in
        match cache !! Z.to_nat mid with
        | None => None
        | Some row =>
            if decide (range_point row < hashvalue) then search_loop fuel' cache hashvalue (mid + 1) r
            else search_loop fuel' cache hashvalue l mid
        end
      else Some l
  end.

(** Returns (range_point, server_id).  When the value is past the last range
    point the error message reads the last row of the array, which is out of
    bounds when the array is empty. *)
Definition SearchShardInfoByShardValue (shardColValue : Z) : M ShardState (Z * Z) :=
  let hashvalue := HashShard shardColValue in
  wait_valid 2 ;;
  s ← mget;
  let cache := shard_cache s in
  let count := Z.of_nat (length cache) in
  match search_loop (S (length cache)) cache hashvalue 0 count with
  | None => mdiverge
  | Some l =>
      if decide (l = count) then
        (if decide (count = 0) then mundefined else melog PROGRAM_ERROR)
      else match cache !! Z.to_nat l with
           | Some row => mret (range_point row, server_id row)
           | None => mundefined
           end
  end.

Definition GetShardTableData : M ShardState (list FormData_cuckoo_shard_table) :=
  wait_valid 2 ;; s ← mget; mret (shard_cache s).

Definition GetShardTableSize : M ShardState Z :=
  wait_valid 2 ;; s ← mget; mret (Z.of_nat (length (shard_cache s))).

(** InvalidOid is 0. *)
Definition InvalidateShardTableShmemCacheCallback (shardRelationId relationId : Z) : M ShardState () :=
  if decide (relationId = 0 ∨ relationId = shardRelationId) then InvalidateShardTableShmemCache
  else mret ().

Definition ShardTableShmemInit (t : shard_rel) : ShardState := mkShardState _ t [] true.

(** The loop of cuckoo_renew_shard_table over the cached rows. *)
Fixpoint renew_ranges (rangeLow : Z) (rows : list FormData_cuckoo_shard_table) : list (Z * Z * Z) :=
  match rows with
  | [] => []
  | row :: rows' =>
      (rangeLow, range_point row, server_id row) :: renew_ranges (i32 (range_point row + 1)) rows'
  end.

(** [connectionInfo] is GetForeignServerConnectionInfo for one server id. *)
Fixpoint renew_infos (connectionInfo : Z → option (string * Z)) (ranges : list (Z * Z * Z))
  : option (list ShardInfo) :=
  match ranges with
  | [] => Some []
  | (lo, hi, id) :: ranges' =>
      '(h, p) ← connectionInfo id;
      rest ← renew_infos connectionInfo ranges';
      Some (mkShardInfo lo hi h p id :: rest)
  end.

Definition cuckoo_renew_shard_table (connectionInfo : Z → option (string * Z))
  : M ShardState (list ShardInfo) :=
  wait_valid 2 ;;
  s ← mget;
  match renew_infos connectionInfo (renew_ranges SHARD_TABLE_RANGE_MIN (shard_cache s)) with
  | Some l => mret l
  | None => melog PROGRAM_ERROR
  end.
End shard.

(** ** Bounds of the identifiers *)

Section identifiers.
Context `{!PgEnv}.

Lemma part_mask_mod z : Z.land z PART_ID_MASK = z mod 2 ^ 13.
Proof. apply (land_ones_mod z 13). lia. Qed.

Lemma HashPartId_range fileName : 0 ≤ HashPartId fileName < 2 ^ 13.
Proof. unfold HashPartId. rewrite part_mask_mod. apply Z.mod_pos_bound. lia. Qed.

Lemma shiftl_u64 a n :
  0 ≤ n ≤ 64 → u64 (Z.shiftl a n) = Z.shiftl (a mod 2 ^ (64 - n)) n.
Proof.
  intros Hn. unfold u64. rewrite !Z.shiftl_mul_pow2 by lia.
  replace (2 ^ 64) with (2 ^ (64 - n) * 2 ^ n) by (rewrite <-Z.pow_add_r by lia; f_equal; lia).
  rewrite Z.mul_mod_distr_r; lia.
Qed.

Lemma Combine_sum d p :
  0 ≤ p < 2 ^ 13 → CombineParentIdWithPartId d p = d mod 2 ^ 51 * 2 ^ 13 + p.
Proof.
  intros Hp. unfold CombineParentIdWithPartId, PART_ID_BIT_COUNT.
  rewrite shiftl_u64 by lia. apply lor_shiftl_add; lia.
Qed.

Lemma Combine_range d p :
  0 ≤ p < 2 ^ 13 → 0 ≤ CombineParentIdWithPartId d p < 2 ^ 64.
Proof.
  intros Hp. rewrite Combine_sum by done.
  pose proof (Z.mod_pos_bound d (2 ^ 51)). lia.
Qed.

Lemma Combine_part d p :
  0 ≤ p < 2 ^ 13 → Z.land (CombineParentIdWithPartId d p) PART_ID_MASK = p.
Proof.
  intros Hp. rewrite part_mask_mod, Combine_sum by done.
  rewrite Z.add_comm, Z.mod_add, Z.mod_small; lia.
Qed.

(** Directories whose ids differ below bit 51 have disjoint key ranges, and
    the range that a directory scan reads, from part 0 to part 0x1FFF, holds
    exactly the keys of that directory. *)
Lemma Combine_between d d' p :
  0 ≤ d < 2 ^ 51 → 0 ≤ d' < 2 ^ 51 → 0 ≤ p < 2 ^ 13 →
  CombineParentIdWithPartId d 0 ≤ CombineParentIdWithPartId d' p
    ≤ CombineParentIdWithPartId d PART_ID_MASK ↔ d' = d.
Proof.
  intros Hd Hd' Hp. unfold PART_ID_MASK.
  rewrite !Combine_sum by lia. rewrite !Z.mod_small by lia. lia.
Qed.

Lemma Combine_inj d p d' p' :
  0 ≤ d < 2 ^ 51 → 0 ≤ d' < 2 ^ 51 → 0 ≤ p < 2 ^ 13 → 0 ≤ p' < 2 ^ 13 →
  CombineParentIdWithPartId d p = CombineParentIdWithPartId d' p' → d = d' ∧ p = p'.
Proof.
  intros ????. rewrite !Combine_sum by lia. rewrite !Z.mod_small by lia. lia.
Qed.

Lemma HashShard_range v : 0 ≤ HashShard v ≤ INT32_MAX.
Proof.
  unfold HashShard.
  change (u32 (Z.lnot (Z.shiftl 1 31))) with (2 ^ 31 - 1).
  rewrite land_ones_mod by lia.
  match goal with |- context [?x mod 2 ^ 31] => pose proof (Z.mod_pos_bound x (2 ^ 31)) end.
  rewrite i32_small; unfold INT32_MAX; lia.
Qed.

(** Only the part id takes part in the choice of the shard. *)
Lemma HashShard_part d d' p :
  0 ≤ p < 2 ^ 13 →
  HashShard (CombineParentIdWithPartId d p) = HashShard (CombineParentIdWithPartId d' p).
Proof. intros Hp. unfold HashShard. by rewrite !Combine_part by done. Qed.

Lemma GenerateInodeId_sum seq nodeId :
  GenerateInodeIdBySeqAndNodeId seq nodeId = seq mod 2 ^ 52 * 2 ^ 12 + nodeId mod 2 ^ 12.
Proof.
  unfold GenerateInodeIdBySeqAndNodeId. rewrite (shiftl_u64 seq 12) by lia.
  change 4095 with (2 ^ 12 - 1). rewrite land_ones_mod by lia.
  apply lor_shiftl_add; [lia|]. apply Z.mod_pos_bound. lia.
Qed.

Lemma GenerateInodeId_inj s n s' n' :
  0 ≤ s < 2 ^ 52 → 0 ≤ s' < 2 ^ 52 → 0 ≤ n < 2 ^ 12 → 0 ≤ n' < 2 ^ 12 →
  GenerateInodeIdBySeqAndNodeId s n = GenerateInodeIdBySeqAndNodeId s' n' → s = s' ∧ n = n'.
Proof.
  intros ????. rewrite !GenerateInodeId_sum, !Z.mod_small by lia. lia.
Qed.
End identifiers.

(** ** The binary search and the shard map *)

(** A map of rows that covers every hash value: strictly increasing range
    points from 0 up, the last one INT32_MAX. *)
Definition shard_map_ok (rows : list FormData_cuckoo_shard_table) : Prop :=
  StronglySorted Z.lt (range_point <$> rows) ∧
  Forall (λ r, SHARD_TABLE_RANGE_MIN ≤ range_point r ≤ SHARD_TABLE_RANGE_MAX) rows ∧
  ∃ r, last rows = Some r ∧ range_point r = SHARD_TABLE_RANGE_MAX.

(** [row] is the row of the map that serves hash value [h]. *)
Definition covers (rows : list FormData_cuckoo_shard_table) (h : Z)
    (row : FormData_cuckoo_shard_table) : Prop :=
  row ∈ rows ∧ h ≤ range_point row ∧
  ∀ r, r ∈ rows → range_point r < range_point row → range_point r < h.

Lemma StronglySorted_lookup_lt (l : list Z) i j x y :
  StronglySorted Z.lt l → l !! i = Some x → l !! j = Some y → (i < j)%nat → x < y.
Proof.
  intros Hs. revert i j. induction Hs as [|z l Hs IH Hall]; intros i j H1 H2 Hij; [done|].
  destruct i, j; simplify_eq/=; [lia| |lia|].
  - rewrite Forall_forall in Hall. apply Hall. by eapply list_elem_of_lookup_2.
  - eapply IH; [done..|lia].
Qed.

Section search.
Context (cache : list FormData_cuckoo_shard_table) (h : Z).
Hypothesis Hsorted : StronglySorted Z.lt (range_point <$> cache).

Lemma cache_lookup_lt i j a b :
  cache !! i = Some a → cache !! j = Some b → (i < j)%nat → range_point a < range_point b.
Proof.
  intros Ha Hb. apply (StronglySorted_lookup_lt (range_point <$> cache)); [done|..];
    by rewrite list_lookup_fmap, ?Ha, ?Hb.
Qed.

(** The loop finds the boundary between the points below [h] and the rest. *)
Lemma search_loop_spec fuel l r :
  0 ≤ l ≤ r → r ≤ Z.of_nat (length cache) → r - l < Z.of_nat fuel →
  (∀ i a, cache !! i = Some a → Z.of_nat i < l → range_point a < h) →
  (∀ i a, cache !! i = Some a → r ≤ Z.of_nat i → h ≤ range_point a) →
  ∃ k, search_loop fuel cache h l r = Some k ∧ l ≤ k ≤ r ∧
    (∀ i a, cache !! i = Some a → Z.of_nat i < k → range_point a < h) ∧
    (∀ i a, cache !! i = Some a → k ≤ Z.of_nat i → h ≤ range_point a).
Proof.
  revert l r. induction fuel as [|fuel IH]; intros l r Hlr Hr Hf Hlo Hhi; [lia|].
  simpl. case_decide as Hlt.
  2:{ exists l. replace r with l in * by lia. split_and!; [done|lia|lia|done..]. }
  assert (l ≤ (l + r) `quot` 2 < r) as Hmid.
  { rewrite Z.quot_div_nonneg by lia. split.
    - apply Z.div_le_lower_bound; lia.
    - apply Z.div_lt_upper_bound; lia. }
  set (mid := (l + r) `quot` 2) in *.
  destruct (lookup_lt_is_Some_2 cache (Z.to_nat mid)) as [row Hrow]; [lia|].
  rewrite Hrow. case_decide as Hcmp.
  - destruct (IH (mid + 1) r) as (k & Hk & Hb & H1 & H2); [lia..| |done|].
    + intros i a Ha Hi. destruct (decide (Z.of_nat i = mid)) as [<-|].
      * rewrite Nat2Z.id in Hrow. by simplify_eq.
      * assert (range_point a < range_point row); [|lia].
        eapply cache_lookup_lt; [done..|lia].
    + exists k. split_and!; [done|lia|lia|done..].
  - destruct (IH l mid) as (k & Hk & Hb & H1 & H2); [lia..|done| |].
    + intros i a Ha Hi. destruct (decide (Z.of_nat i = mid)) as [<-|].
      * rewrite Nat2Z.id in Hrow. simplify_eq. lia.
      * assert (range_point row < range_point a); [|lia].
        eapply cache_lookup_lt; [done..|lia].
    + exists k. split_and!; [done|lia|lia|done..].
Qed.

Lemma search_loop_total :
  ∃ k, search_loop (S (length cache)) cache h 0 (Z.of_nat (length cache)) = Some k ∧
    0 ≤ k ≤ Z.of_nat (length cache) ∧
    (∀ i a, cache !! i = Some a → Z.of_nat i < k → range_point a < h) ∧
    (∀ i a, cache !! i = Some a → k ≤ Z.of_nat i → h ≤ range_point a).
Proof.
  apply search_loop_spec; try lia.
  intros i a Ha Hi. apply lookup_lt_Some in Ha. lia.
Qed.
End search.

Section theorems.
Context `{!PgEnv, !PgRelation range_point Z.le}.

(** The rows of the relation cuckoo_shard_table, in index order. *)
Definition shard_rows (s : ShardState) : list FormData_cuckoo_shard_table :=
  index_scan (shard_table s).

(** The shared-memory array mirrors the relation whenever it is not marked
    invalid. *)
Definition shard_inv (s : ShardState) : Prop :=
  shard_cache_invalid s = false → shard_cache s = shard_rows s.

(** The map seen as a finite map: every point in range, the last one there. *)
Definition points_ok (m : gmap Z FormData_cuckoo_shard_table) : Prop :=
  (∀ k r, m !! k = Some r → SHARD_TABLE_RANGE_MIN ≤ k ≤ SHARD_TABLE_RANGE_MAX) ∧
  is_Some (m !! SHARD_TABLE_RANGE_MAX).

Lemma sorted_scan (t : shard_rel) : StronglySorted Z.lt (range_point <$> index_scan t).
Proof.
  pose proof (scan_sorted t) as Hs. pose proof (scan_keys_NoDup t) as Hn. revert Hs Hn.
  generalize (index_scan t). intros l. induction l as [|r l IH]; intros Hs Hn; simpl; [constructor|].
  apply StronglySorted_inv in Hs as [Hs Hall]. apply NoDup_cons in Hn as [Hnot Hn].
  constructor; [by apply IH|]. apply Forall_fmap. rewrite Forall_forall in Hall |- *.
  intros x Hx. specialize (Hall x Hx). simpl. assert (range_point r ≠ range_point x); [|lia].
  intros Heq. apply Hnot. rewrite Heq. by apply list_elem_of_fmap_2.
Qed.

Lemma points_ok_map_ok t : points_ok (visible t) → shard_map_ok (index_scan t).
Proof.
  intros [Hr [rmax Hmax]]. split_and!; [apply sorted_scan| |].
  - apply Forall_forall. intros r Hin. apply scan_elem in Hin. by eapply Hr.
  - assert (rmax ∈ index_scan t) as Hin.
    { apply scan_elem. by rewrite (visible_key _ _ _ Hmax). }
    apply list_elem_of_lookup in Hin as [i Hi].
    pose proof (lookup_lt_Some _ _ _ Hi) as Hlen.
    destruct (last_is_Some (index_scan t)) as [_ Hl].
    destruct Hl as [r Hlast]; [by destruct (index_scan t)|].
    exists r. split; [done|]. rewrite last_lookup in Hlast.
    assert (range_point r ≤ SHARD_TABLE_RANGE_MAX).
    { eapply (Hr _ r), scan_elem. by eapply list_elem_of_lookup_2. }
    pose proof (visible_key _ _ _ Hmax) as Hk.
    destruct (decide (i = Nat.pred (length (index_scan t)))) as [->|]; [congruence|].
    destruct (scan_lookup_ne t i (Nat.pred (length (index_scan t))) rmax r); [done..|lia|lia].
Qed.

Lemma reload_loop_all rows cache count :
  count + Z.of_nat (length rows) ≤ SHARD_COUNT_MAX →
  reload_loop rows cache count = (cache ++ rows, false).
Proof.
  revert cache count. induction rows as [|row rows IH]; intros cache count Hc; simpl.
  - by rewrite app_nil_r.
  - simpl in Hc. rewrite decide_False by lia. rewrite IH by lia.
    by rewrite <-app_assoc.
Qed.

(** Waiting for a valid cache returns, with the cache equal to the relation. *)
Lemma wait_valid_spec s :
  shard_inv s → Z.of_nat (length (shard_rows s)) ≤ SHARD_COUNT_MAX →
  wait_valid 2 s =
    Ret () (s <| shard_cache := shard_rows s |> <| shard_cache_invalid := false |>).
Proof.
  intros Hinv Hlen. destruct s as [t c i]. unfold shard_inv, shard_rows in *; simpl in *.
  destruct i; simpl.
  - unfold mbind, M_bind, ReloadShardTableShmemCache. simpl.
    by rewrite (reload_loop_all _ [] 0) by lia.
  - by rewrite Hinv.
Qed.

(** Within a covering map there is exactly one row for a hash value. *)
Lemma covers_unique rows h a b :
  shard_map_ok rows → covers rows h a → covers rows h b → a = b.
Proof.
  intros (Hs & _ & _) (Ha & Hha & Hma) (Hb & Hhb & Hmb).
  apply list_elem_of_lookup in Ha as [i Hi]. apply list_elem_of_lookup in Hb as [j Hj].
  destruct (decide (i = j)) as [->|Hne]; [congruence|]. exfalso.
  assert (range_point a < range_point b ∨ range_point b < range_point a) as [Hlt|Hlt].
  { destruct (decide (i < j)%nat); [left|right]; eapply cache_lookup_lt; eauto; lia. }
  - assert (range_point a < h); [|lia]. eapply Hmb; [|done]. by eapply list_elem_of_lookup_2.
  - assert (range_point b < h); [|lia]. eapply Hma; [|done]. by eapply list_elem_of_lookup_2.
Qed.

(** The search over an array that holds a covering map. *)
Lemma search_covers rows h :
  shard_map_ok rows → h ≤ INT32_MAX →
  ∃ k row, search_loop (S (length rows)) rows h 0 (Z.of_nat (length rows)) = Some k ∧
    0 ≤ k < Z.of_nat (length rows) ∧ rows !! Z.to_nat k = Some row ∧ covers rows h row.
Proof.
  intros (Hs & Hr & rmax & Hlast & Hmax) Hh.
  destruct (search_loop_total rows h Hs) as (k & Hk & Hb & Hlo & Hhi).
  rewrite last_lookup in Hlast. pose proof (lookup_lt_Some _ _ _ Hlast) as Hlen.
  assert (k ≠ Z.of_nat (length rows)) as Hne.
  { intros ->. specialize (Hlo _ _ Hlast). rewrite Hmax in Hlo.
    unfold SHARD_TABLE_RANGE_MAX in Hlo. lia. }
  destruct (lookup_lt_is_Some_2 rows (Z.to_nat k)) as [row Hrow]; [lia|].
  exists k, row. split_and!; [done|lia|lia|done|]. split_and!.
  - by eapply list_elem_of_lookup_2.
  - eapply Hhi; [done|lia].
  - intros r Hin Hlt. apply list_elem_of_lookup in Hin as [i Hi].
    apply (Hlo i r Hi). destruct (decide (Z.of_nat i < k)) as [|Hge]; [done|]. exfalso.
    destruct (decide (i = Z.to_nat k)) as [->|]; [simplify_eq; lia|].
    pose proof (cache_lookup_lt rows Hs (Z.to_nat k) i row r Hrow Hi). lia.
Qed.

(** *** cuckoo_build_shard_table *)

Lemma build_range_point_eq n i :
  0 ≤ i < n → n ≤ SHARD_COUNT_MAX →
  build_range_point n i =
    if decide (i = n - 1) then INT32_MAX else INT32_MAX * (i + 1) / n.
Proof.
  intros Hi Hn. unfold build_range_point. case_decide; [done|].
  unfold SHARD_TABLE_RANGE_MIN, SHARD_TABLE_RANGE_MAX. rewrite Z.sub_0_r, Z.add_0_r.
  rewrite Z.quot_div_nonneg by (unfold INT32_MAX; lia).
  apply i32_small. unfold INT32_MAX. split.
  - transitivity 0; [lia|]. apply Z.div_pos; lia.
  - apply Z.div_lt_upper_bound; lia.
Qed.

Lemma build_range_point_mono n i j :
  0 ≤ i < j → j < n → n ≤ SHARD_COUNT_MAX → build_range_point n i < build_range_point n j.
Proof.
  intros Hi Hj Hn. rewrite !build_range_point_eq by lia.
  rewrite (decide_False (P := i = n - 1)) by lia.
  unfold SHARD_COUNT_MAX, INT32_MAX in *. case_decide.
  - apply Z.div_lt_upper_bound; nia.
  - apply Z.lt_le_trans with ((2 ^ 31 - 1) * (i + 1) / n + 1); [lia|].
    rewrite <-Z.div_add by lia. rewrite Z.mul_1_l. apply Z.div_le_mono; nia.
Qed.

Lemma build_range_point_range n i :
  0 ≤ i < n → n ≤ SHARD_COUNT_MAX → 0 ≤ build_range_point n i ≤ INT32_MAX.
Proof.
  intros Hi Hn. rewrite build_range_point_eq by lia. unfold INT32_MAX.
  case_decide; [lia|]. split; [apply Z.div_pos; lia|].
  apply Z.div_le_upper_bound; nia.
Qed.

(** The i-th row of the map: servers are taken round robin. *)
Definition built_row (serverIdList : list Z) (n i : Z) : FormData_cuckoo_shard_table :=
  mkShard (build_range_point n i)
    (nth (Z.to_nat (i mod Z.of_nat (length serverIdList))) serverIdList 0).

(** The rows inserted before step i. *)
Definition built_map (serverIdList : list Z) (n i : Z) : gmap Z FormData_cuckoo_shard_table :=
  list_to_map ((λ j, (build_range_point n j, built_row serverIdList n j)) <$> seqZ 0 i).

Lemma built_map_lookup servers n i k r :
  0 ≤ i ≤ n → n ≤ SHARD_COUNT_MAX →
  built_map servers n i !! k = Some r ↔
  ∃ j, 0 ≤ j < i ∧ k = build_range_point n j ∧ r = built_row servers n j.
Proof.
  intros Hi Hn. unfold built_map.
  rewrite <-elem_of_list_to_map.
  - rewrite list_elem_of_fmap. split.
    + intros (j & ? & Hj). simplify_eq. apply elem_of_seqZ in Hj.
      exists j. split_and!; [lia|lia|done..].
    + intros (j & Hj & -> & ->). exists j. split; [done|]. apply elem_of_seqZ. lia.
  - rewrite <-list_fmap_compose. apply NoDup_fmap_2_strong; [|apply NoDup_seqZ].
    intros a b Ha%elem_of_seqZ Hb%elem_of_seqZ Heq. simpl in Heq.
    destruct (Z.lt_trichotomy a b) as [Hlt|[->|Hlt]]; [|done|].
    + pose proof (build_range_point_mono n a b). lia.
    + pose proof (build_range_point_mono n b a). lia.
Qed.

Lemma built_map_succ servers n i :
  0 ≤ i < n → n ≤ SHARD_COUNT_MAX →
  built_map servers n (i + 1) = <[build_range_point n i := built_row servers n i]> (built_map servers n i).
Proof.
  intros Hi Hn. apply map_eq. intros k. apply option_eq. intros r.
  rewrite built_map_lookup by lia. rewrite lookup_insert_Some, built_map_lookup by lia.
  split.
  - intros (j & Hj & -> & ->). destruct (decide (j = i)) as [->|]; [by left|]. right.
    split; [|exists j; split_and!; [lia|lia|done..]].
    pose proof (build_range_point_mono n j i). lia.
  - intros [[<- <-]|[_ (j & Hj & -> & ->)]]; [exists i|exists j]; split_and!; by try lia.
Qed.

Lemma build_shards_spec servers n k s :
  servers ≠ [] → n ≤ SHARD_COUNT_MAX → 0 ≤ Z.of_nat k ≤ n →
  latest (shard_table s) = built_map servers n (n - Z.of_nat k) →
  ∃ s', build_shards servers n k ((n - Z.of_nat k) mod Z.of_nat (length servers)) s = Ret () s' ∧
    latest (shard_table s') = built_map servers n n ∧
    shard_cache s' = shard_cache s.
Proof.
  intros Hne Hn. revert s. induction k as [|k IH]; intros s Hk Hl.
  - exists s. split_and!; [done| |done]. rewrite Hl.
    by replace (n - Z.of_nat 0) with n by lia.
  - set (i := n - Z.of_nat (S k)) in *.
    assert (0 < Z.of_nat (length servers)) as Hlen by (destruct servers; simpl; [done|lia]).
    pose proof (Z.mod_pos_bound i (Z.of_nat (length servers)) Hlen) as Hmod.
    destruct (lookup_lt_is_Some_2 servers (Z.to_nat (i mod Z.of_nat (length servers)))) as [id Hid]; [lia|].
    assert (mkShard (build_range_point n i) id = built_row servers n i) as Hrow.
    { unfold built_row. f_equal. symmetry. by apply nth_lookup_Some. }
    destruct (insert_is_Some (shard_table s) (built_row servers n i)) as [t' Ht'].
    { rewrite Hl. apply eq_None_not_Some. intros [r Hr].
      apply built_map_lookup in Hr as (j & Hj & Heq & _); [|lia..]. simpl in Heq.
      pose proof (build_range_point_mono n j i). lia. }
    destruct (insert_Some _ _ _ Ht') as [_ Hlat].
    cbn [build_shards]. fold i. rewrite Hid, Hrow.
    unfold shard_insert at 1, mbind, M_bind. rewrite Ht'.
    rewrite Zplus_mod_idemp_l. replace (i + 1) with (n - Z.of_nat k) by lia.
    destruct (IH (s <| shard_table := t' |>)) as (s' & Hb & Hls & Hc);
      [lia| |by exists s']. simpl. rewrite Hlat, Hl. simpl.
    rewrite <-built_map_succ by lia. by replace (n - Z.of_nat k) with (i + 1) by lia.
Qed.

Lemma built_points_ok servers n :
  0 < n ≤ SHARD_COUNT_MAX → points_ok (built_map servers n n).
Proof.
  intros Hn. split.
  - intros k r Hr. apply built_map_lookup in Hr as (j & Hj & -> & _); [|lia..].
    apply build_range_point_range; lia.
  - exists (built_row servers n (n - 1)). apply built_map_lookup; [lia..|].
    exists (n - 1). split_and!; [lia|lia| |done].
    rewrite build_range_point_eq by lia. by rewrite decide_True by done.
Qed.

(** The row that serves a hash value: the first one that ends at it or after. *)
Definition shard_for (rows : list FormData_cuckoo_shard_table) (h : Z) : option FormData_cuckoo_shard_table :=
  head (filter (λ r, h ≤ range_point r) rows).

Lemma shard_for_covers rows h row : shard_map_ok rows → covers rows h row → shard_for rows h = Some row.
Proof.
  intros (Hs & _ & _) (Hin & Hle & Hmin). unfold shard_for. apply list_elem_of_split in Hin as (p & q & ->).
  rewrite filter_app, filter_cons, decide_True by done.
  assert (filter (λ r, h ≤ range_point r) p = []) as ->; [|done].
  apply filter_none. intros r Hr Hh.
  rewrite fmap_app in Hs. apply StronglySorted_app in Hs as (Hlt & _ & _).
  assert (range_point r < range_point row) as Hrr.
  { apply Hlt; [by apply list_elem_of_fmap_2|]. simpl. by left. }
  assert (range_point r < h); [|lia]. apply Hmin; [|done]. apply elem_of_app. by left.
Qed.

Lemma search_info_spec s v :
  shard_inv s → shard_map_ok (shard_rows s) →
  Z.of_nat (length (shard_rows s)) ≤ SHARD_COUNT_MAX →
  ∃ row s', SearchShardInfoByShardValue v s = Ret (range_point row, server_id row) s' ∧
    covers (shard_rows s) (HashShard v) row ∧
    shard_table s' = shard_table s ∧ shard_inv s'.
Proof.
  intros Hinv Hok Hlen.
  destruct (search_covers (shard_rows s) (HashShard v)) as (k & row & Hk & Hb & Hrow & Hcov);
    [done|apply HashShard_range|].
  exists row, (s <| shard_cache := shard_rows s |> <| shard_cache_invalid := false |>).
  split_and!; [|done|done|done].
  unfold SearchShardInfoByShardValue. rewrite (bind_ret _ _ _ _ _ (wait_valid_spec s Hinv Hlen)).
  mstep. cbn [shard_cache set_field]. rewrite Hk, decide_False by lia. by rewrite Hrow.
Qed.


(** (C18) When the shard relation covers every hash value, the lookup of any
    key returns (no error, no divergence), with the end point and server of
    the one row whose range holds the key's hash; the relation is unchanged
    and the cache mirrors it afterwards. *)
Theorem SearchShardInfo_covers s v :
  shard_inv s → shard_map_ok (shard_rows s) →
  Z.of_nat (length (shard_rows s)) ≤ SHARD_COUNT_MAX →
  ∃ row s', SearchShardInfoByShardValue v s = Ret (range_point row, server_id row) s' ∧
    covers (shard_rows s) (HashShard v) row ∧
    shard_table s' = shard_table s ∧ shard_inv s'.
Proof. apply search_info_spec. Qed.

(** Building the map on an empty relation with a legal shard count and
    at least one worker succeeds: the relation then holds exactly
    [shardCount] rows, row i ending at the i-th range point and served by the
    workers in turn; every hash value is covered, and the cache is marked
    invalid so that the next reader reloads it. *)
Theorem build_shard_table_covers servers n s :
  servers ≠ [] → 0 < n ≤ SHARD_COUNT_MAX → latest (shard_table s) = ∅ →
  ∃ s', cuckoo_build_shard_table servers n s = Ret () s' ∧
    visible (shard_table s') = built_map servers n n ∧
    shard_map_ok (shard_rows s') ∧
    shard_cache_invalid s' = true.
Proof.
  intros Hne Hn Hempty.
  destruct (build_shards_spec servers n (Z.to_nat n) s) as (s' & Hb & Hl & _);
    [done|lia|lia| |].
  { rewrite Z2Nat.id, Z.sub_diag by lia. by rewrite Hempty. }
  rewrite Z2Nat.id, Z.sub_diag, Z.mod_0_l in Hb by (destruct servers; simpl; [done|lia]).
  eexists. split_and!.
  - unfold cuckoo_build_shard_table. rewrite decide_False by lia.
    rewrite decide_False by (by destruct servers).
    rewrite (bind_ret _ _ _ _ _ Hb). unfold shard_cci, InvalidateShardTableShmemCache.
    mstep. reflexivity.
  - simpl. by rewrite cci_visible.
  - apply points_ok_map_ok. simpl. rewrite cci_visible, Hl. by apply built_points_ok.
  - done.
Qed.

(** *** cuckoo_update_shard_table *)

(** The relation after a list of changes (range point, server). *)
Definition apply_changes (changes : list (Z * Z)) (m : gmap Z FormData_cuckoo_shard_table)
  : gmap Z FormData_cuckoo_shard_table :=
  foldl (λ m c, <[c.1 := mkShard c.1 c.2]> m) m changes.

Lemma update_shard_step_spec c s :
  settled (shard_table s) →
  ∃ s', update_shard_step c s = Ret () s' ∧ settled (shard_table s') ∧
    visible (shard_table s') = <[c.1 := mkShard c.1 c.2]> (visible (shard_table s)).
Proof.
  intros Hs. destruct c as [p id]. unfold update_shard_step. mstep. rewrite scan_eq_visible.
  destruct (visible (shard_table s) !! p) as [row|] eqn:E.
  - pose proof (visible_key _ _ _ E) as Hp.
    destruct (update_is_Some (shard_table s) (mkShard (range_point row) id)) as [t Ht].
    { rewrite <-Hs. simpl. rewrite Hp, E. eauto. }
    destruct (update_Some _ _ _ Ht) as [_ Hl]. eexists. split_and!.
    + unfold shard_update, mbind, M_bind. rewrite Ht. unfold shard_cci, mmodify. reflexivity.
    + apply settled_cci.
    + simpl. rewrite cci_visible, Hl, Hs. simpl. by rewrite Hp.
  - destruct (insert_is_Some (shard_table s) (mkShard p id)) as [t Ht].
    { rewrite <-Hs. done. }
    destruct (insert_Some _ _ _ Ht) as [_ Hl]. eexists. split_and!.
    + unfold shard_insert, mbind, M_bind. rewrite Ht. unfold shard_cci, mmodify. reflexivity.
    + apply settled_cci.
    + simpl. by rewrite cci_visible, Hl, Hs.
Qed.

Lemma update_loop_spec changes s :
  settled (shard_table s) →
  ∃ s', mfor changes update_shard_step s = Ret () s' ∧ settled (shard_table s') ∧
    visible (shard_table s') = apply_changes changes (visible (shard_table s)).
Proof.
  revert s. induction changes as [|c changes IH]; intros s Hs; simpl; [by exists s|].
  destruct (update_shard_step_spec c s Hs) as (s1 & H1 & Hs1 & Hv1).
  destruct (IH s1 Hs1) as (s2 & H2 & Hs2 & Hv2).
  exists s2. rewrite (bind_ret _ _ _ _ _ H1). split_and!; [done|done|].
  by rewrite Hv2, Hv1.
Qed.

Lemma apply_changes_ok changes m :
  Forall (λ c, SHARD_TABLE_RANGE_MIN ≤ c.1 ≤ SHARD_TABLE_RANGE_MAX) changes →
  points_ok m → points_ok (apply_changes changes m).
Proof.
  intros Hc. revert m. induction Hc as [|c changes Hc _ IH]; intros m Hm; [done|].
  apply IH. destruct Hm as [H1 H2]. split.
  - intros k r. rewrite lookup_insert_Some. intros [[<- _]|[_ Hk]]; [done|eauto].
  - rewrite lookup_insert. case_decide; [eauto|done].
Qed.

Lemma map_ok_points_ok t : shard_map_ok (index_scan t) → points_ok (visible t).
Proof.
  intros (_ & Hr & r & Hl & Hm). split.
  - intros k r' Hk. rewrite Forall_forall in Hr. rewrite <-(visible_key _ _ _ Hk).
    apply Hr, scan_elem. by rewrite (visible_key _ _ _ Hk).
  - exists r. rewrite <-Hm. apply scan_elem. rewrite last_lookup in Hl.
    by eapply list_elem_of_lookup_2.
Qed.

(** Updating a covering map with in-range points keeps it covering: the
    relation is the old one with each change applied in order (a new point
    splits a range, a known one moves its range to another server), and the
    cache is already reloaded from it when the call returns. *)
Theorem update_shard_table_covers points ids s :
  length points = length ids → settled (shard_table s) → shard_map_ok (shard_rows s) →
  Forall (λ p, SHARD_TABLE_RANGE_MIN ≤ p ≤ SHARD_TABLE_RANGE_MAX) points →
  Z.of_nat (size (apply_changes (zip points ids) (visible (shard_table s)))) ≤ SHARD_COUNT_MAX →
  ∃ s', cuckoo_update_shard_table points ids s = Ret () s' ∧
    visible (shard_table s') = apply_changes (zip points ids) (visible (shard_table s)) ∧
    shard_map_ok (shard_rows s') ∧
    shard_cache_invalid s' = false ∧ shard_inv s'.
Proof.
  intros Hlen Hs Hok Hp Hsize.
  destruct (update_loop_spec (zip points ids) s Hs) as (s1 & H1 & Hs1 & Hv1).
  assert (points_ok (visible (shard_table s1))) as Hpok.
  { rewrite Hv1. apply apply_changes_ok; [|by apply map_ok_points_ok].
    apply Forall_forall. intros [p i] Hin. apply elem_of_zip_l in Hin.
    rewrite Forall_forall in Hp. by apply Hp. }
  assert (length (index_scan (shard_table s1)) = size (visible (shard_table s1))) as Hsz
    by apply length_scan.
  exists (s1 <| shard_cache := shard_rows s1 |> <| shard_cache_invalid := false |>). split_and!.
  - unfold cuckoo_update_shard_table. rewrite decide_False by lia.
    rewrite (bind_ret _ _ _ _ _ H1). unfold InvalidateShardTableShmemCache. mstep.
    unfold ReloadShardTableShmemCache. cbn [shard_cache_invalid shard_table set_field].
    rewrite (reload_loop_all _ [] 0); [done|]. rewrite Hsz, Hv1. lia.
  - done.
  - by apply points_ok_map_ok.
  - done.
  - done.
Qed.

(** *** cuckoo_renew_shard_table: the ranges clients route with *)

Definition in_order (lo : Z) (rows : list FormData_cuckoo_shard_table) : Prop :=
  0 ≤ lo ∧ StronglySorted Z.lt (range_point <$> rows) ∧
  Forall (λ r, lo ≤ range_point r ≤ INT32_MAX) rows.

(** After a row, the next range starts right behind its end point. *)
Lemma in_order_tail lo row rows :
  in_order lo (row :: rows) →
  in_order (range_point row + 1) rows ∧
  renew_ranges (i32 (range_point row + 1)) rows = renew_ranges (range_point row + 1) rows.
Proof.
  intros (Hlo & Hs & Hr). apply StronglySorted_inv in Hs as [Hs Hall].
  apply Forall_cons in Hr as [Hrow Hr].
  apply (Forall_fmap range_point (Z.lt (range_point row)) rows) in Hall. split.
  - split_and!; [lia|done|]. rewrite Forall_forall in *. intros r Hin.
    specialize (Hall r Hin). specialize (Hr r Hin). simpl in *. lia.
  - destruct rows as [|row' rows]; [done|]. rewrite i32_small; [done|].
    inv Hall. inv Hr. unfold INT32_MAX in *. simpl in *. lia.
Qed.

Lemma renew_ranges_lower lo rows a b id :
  in_order lo rows → (a, b, id) ∈ renew_ranges lo rows → lo ≤ a.
Proof.
  revert lo. induction rows as [|row rows IH]; intros lo Ho Hin; simpl in Hin.
  { by apply not_elem_of_nil in Hin. }
  apply elem_of_cons in Hin as [?|Hin]; [simplify_eq; lia|].
  destruct (in_order_tail _ _ _ Ho) as [Ho' Heq]. rewrite Heq in Hin.
  apply IH in Hin; [|done]. destruct Ho as (_ & _ & Hr). inv Hr. lia.
Qed.

(** The advertised range that holds [h] is that of the row serving [h]. *)
Lemma renew_ranges_covers lo rows h b id :
  in_order lo rows → lo ≤ h →
  (∃ a, (a, b, id) ∈ renew_ranges lo rows ∧ a ≤ h ≤ b) ↔ covers rows h (mkShard b id).
Proof.
  revert lo. induction rows as [|row rows IH]; intros lo Ho Hh; simpl.
  { split; [intros (a & Hin & _)|intros [Hin _]]; by apply not_elem_of_nil in Hin. }
  destruct (in_order_tail _ _ _ Ho) as [Ho' ->].
  assert (∀ r, r ∈ rows → range_point row < range_point r) as Hhd.
  { intros r Hin. destruct Ho' as (_ & _ & Hr). rewrite Forall_forall in Hr.
    specialize (Hr r Hin). lia. }
  split.
  - intros (a & Hin & Ha & Hb). apply elem_of_cons in Hin as [?|Hin].
    + simplify_eq. destruct row as [b id]; simpl in *.
      split_and!; [left|done|]. intros r Hr Hlt.
      apply elem_of_cons in Hr as [->|Hr]; [simpl in *; lia|].
      specialize (Hhd r Hr). simpl in *. lia.
    + pose proof (renew_ranges_lower _ _ _ _ _ Ho' Hin).
      destruct (proj1 (IH _ Ho' ltac:(lia))) as (Hin' & Hle & Hmin); [by exists a|].
      split_and!; [by right|done|]. intros r Hr Hlt.
      apply elem_of_cons in Hr as [->|Hr]; [lia|by apply Hmin].
  - intros (Hin & Hle & Hmin). apply elem_of_cons in Hin as [<-|Hin].
    + exists lo. split; [left|done].
    + assert (range_point row < h) by (apply Hmin; [left|by apply Hhd]).
      destruct (proj2 (IH (range_point row + 1) Ho' ltac:(lia))) as (a & Ha & Hab).
      { split_and!; [done|done|]. intros r Hr. apply Hmin. by right. }
      exists a. split; [by right|done].
Qed.

Lemma map_ok_in_order rows : shard_map_ok rows → in_order 0 rows.
Proof. intros (Hs & Hr & _). split_and!; done. Qed.

Lemma renew_infos_spec conn ranges :
  (∀ x, x ∈ ranges → is_Some (conn x.2)) →
  ∃ l, renew_infos conn ranges = Some l ∧
    (λ i, (si_rangeMin i, si_rangeMax i, si_serverId i)) <$> l = ranges ∧
    Forall (λ i, conn (si_serverId i) = Some (si_host i, si_port i)) l.
Proof.
  induction ranges as [|[[lo hi] id] ranges IH]; intros Hc; simpl; [by exists []|].
  destruct (Hc (lo, hi, id)) as [[h p] Hp]; [left|]. simpl in Hp. rewrite Hp. simpl.
  destruct IH as (l & Hl & Hm & Hf); [intros x Hx; apply Hc; by right|]. rewrite Hl. simpl.
  eexists. split_and!; [done| |by constructor]. by rewrite fmap_cons, Hm.
Qed.

Lemma renew_ranges_server lo rows x :
  x ∈ renew_ranges lo rows → ∃ r, r ∈ rows ∧ x.2 = server_id r.
Proof.
  revert lo. induction rows as [|row rows IH]; intros lo Hin; simpl in Hin.
  { by apply not_elem_of_nil in Hin. }
  apply elem_of_cons in Hin as [->|Hin]; [exists row; split; [left|done]|].
  destruct (IH _ Hin) as (r & Hr & ?). exists r. split; [by right|done].
Qed.

(** The table handed to clients agrees with the server's own lookup: it
    carries the connection of each shard's server, and for every hash value
    exactly the range of the serving row contains it. *)
Theorem renew_shard_table_agrees conn s :
  shard_inv s → shard_map_ok (shard_rows s) →
  Z.of_nat (length (shard_rows s)) ≤ SHARD_COUNT_MAX →
  (∀ r, r ∈ shard_rows s → is_Some (conn (server_id r))) →
  ∃ infos s', cuckoo_renew_shard_table conn s = Ret infos s' ∧
    shard_table s' = shard_table s ∧
    Forall (λ i, conn (si_serverId i) = Some (si_host i, si_port i)) infos ∧
    ∀ h row, SHARD_TABLE_RANGE_MIN ≤ h →
      (covers (shard_rows s) h row ↔
       ∃ i, i ∈ infos ∧ si_rangeMin i ≤ h ≤ si_rangeMax i ∧
            row = mkShard (si_rangeMax i) (si_serverId i)).
Proof.
  intros Hinv Hok Hlen Hconn.
  destruct (renew_infos_spec conn (renew_ranges 0 (shard_rows s))) as (l & Hl & Hm & Hf).
  { intros x Hx. apply renew_ranges_server in Hx as (r & Hr & ->). by apply Hconn. }
  exists l, (s <| shard_cache := shard_rows s |> <| shard_cache_invalid := false |>). split_and!.
  - unfold cuckoo_renew_shard_table. rewrite (bind_ret _ _ _ _ _ (wait_valid_spec s Hinv Hlen)).
    mstep. cbn [shard_cache set_field]. unfold SHARD_TABLE_RANGE_MIN. by rewrite Hl.
  - done.
  - done.
  - intros h [b id] Hh. rewrite <-(renew_ranges_covers 0) by (by try apply map_ok_in_order).
    rewrite <-Hm. split.
    + intros (a & Hin & Hab). apply list_elem_of_fmap in Hin as (i & ? & Hi). simplify_eq.
      by exists i.
    + intros (i & Hi & Hb & ?). simplify_eq. exists (si_rangeMin i). split; [|done].
      apply list_elem_of_fmap. by exists i.
Qed.

End theorems.

(** ** Witnesses: a map of three shards on two workers *)
Module ShardWitness.
Import PgRef.

Definition rows3 : list FormData_cuckoo_shard_table :=
  [mkShard 715827882 1; mkShard 1431655764 2; mkShard 2147483647 1].

Definition state3 : ShardState :=
  mkShardState _ (of_rows range_point rows3) [] true.

Lemma rows3_ok : shard_map_ok rows3.
Proof.
  split_and!.
  - repeat constructor.
  - repeat constructor; done.
  - by exists (mkShard 2147483647 1).
Qed.

Lemma state3_rows : shard_rows state3 = rows3.
Proof. vm_compute. reflexivity. Qed.

Lemma SearchShardInfo_covers_witness :
  ∃ row s', SearchShardInfoByShardValue 5 state3 = Ret (range_point row, server_id row) s' ∧
    covers (shard_rows state3) (HashShard 5) row ∧
    shard_table s' = shard_table state3 ∧ shard_inv s'.
Proof.
  apply (SearchShardInfo_covers state3 5).
  - intros H. discriminate H.
  - rewrite state3_rows. exact rows3_ok.
  - rewrite state3_rows. vm_compute. discriminate.
Defined.

Lemma build_shard_table_covers_witness :
  ∃ s', cuckoo_build_shard_table [1; 2] 3 (mkShardState _ (of_rows range_point []) [] false) = Ret () s' ∧
    visible (shard_table s') = built_map [1; 2] 3 3 ∧
    shard_map_ok (shard_rows s') ∧
    shard_cache_invalid s' = true.
Proof.
  apply (build_shard_table_covers [1; 2] 3).
  - discriminate.
  - unfold SHARD_COUNT_MAX. lia.
  - vm_compute. reflexivity.
Defined.

Lemma update_shard_table_covers_witness :
  ∃ s', cuckoo_update_shard_table [100; 1431655764] [2; 1] state3 = Ret () s' ∧
    visible (shard_table s') =
      apply_changes (zip [100; 1431655764] [2; 1]) (visible (shard_table state3)) ∧
    shard_map_ok (shard_rows s') ∧
    shard_cache_invalid s' = false ∧ shard_inv s'.
Proof.
  apply (update_shard_table_covers [100; 1431655764] [2; 1] state3).
  - reflexivity.
  - reflexivity.
  - rewrite state3_rows. exact rows3_ok.
  - repeat constructor; vm_compute; discriminate.
  - vm_compute. discriminate.
Defined.

Lemma renew_shard_table_agrees_witness :
  let conn := λ id, Some ("10.0.0.1", 5432 + id) in
  ∃ infos s', cuckoo_renew_shard_table conn state3 = Ret infos s' ∧
    shard_table s' = shard_table state3 ∧
    Forall (λ i, conn (si_serverId i) = Some (si_host i, si_port i)) infos ∧
    ∀ h row, SHARD_TABLE_RANGE_MIN ≤ h →
      (covers (shard_rows state3) h row ↔
       ∃ i, i ∈ infos ∧ si_rangeMin i ≤ h ≤ si_rangeMax i ∧
            row = mkShard (si_rangeMax i) (si_serverId i)).
Proof.
  intros conn. apply (renew_shard_table_agrees conn state3).
  - intros H. discriminate H.
  - rewrite state3_rows. exact rows3_ok.
  - rewrite state3_rows. vm_compute. discriminate.
  - intros r _. by eexists.
Defined.
End ShardWitness.
