(* ===== verification/RWLock.v ===== *)
(** * Reader/writer spin locks in shared memory (utils/rwlock.c)

    A lock is one 64-bit word: the number of shared holders (bits 0 to 23),
    the exclusive holder (bit 24), the reference count (from bit 25) and the
    flag of a waiting writer (bit 62).  The first part gives the functions as
    one backend runs them, over the words in shared memory and the backend's
    own array of held locks; the second part interleaves the atomic
    operations of many backends on one word. *)

From S2P Require Import Prelude.

Definition BIT_COUNT_FOR_SHARED : Z := 24.
Definition RW_FLAG_HAS_EXCLUSIVE_WAITER : Z := Z.shiftl 1 62.
Definition RW_VAL_EXCLUSIVE : Z := Z.shiftl 1 BIT_COUNT_FOR_SHARED.
Definition RW_VAL_SHARED : Z := 1.
Definition RW_VAL_REF_COUNT : Z := Z.shiftl 1 (BIT_COUNT_FOR_SHARED + 1).
Definition RW_LOCK_MASK : Z := Z.shiftl 1 (BIT_COUNT_FOR_SHARED + 1) - 1.
Definition RW_REF_COUNT_MASK : Z :=
  Z.land (Z.shiftl 1 (BIT_COUNT_FOR_SHARED * 2 + 2) - 1) (u64 (Z.lnot RW_LOCK_MASK)).
Definition MAX_SIMUL_RWLOCKS : nat := Z.to_nat 8196.

Inductive RWLockMode := RW_EXCLUSIVE | RW_SHARED | RW_DECLARE.

#[global] Instance RWLockMode_eq_dec : EqDecision RWLockMode.
Proof. solve_decision. Defined.

(** One pass of the compare-and-exchange loop of RWLockAttemptLock: the word
    it tries to install for the word it has read, and whether that acquires
    the lock. *)
Definition attempt_word (mode : RWLockMode) (old_state : Z) : Z * bool :=
  match mode with
  | RW_EXCLUSIVE =>
      if decide (Z.land old_state RW_LOCK_MASK = 0) then
        (Z.land (Z.lor old_state RW_VAL_EXCLUSIVE) (u64 (Z.lnot RW_FLAG_HAS_EXCLUSIVE_WAITER)), true)
      else (Z.lor old_state RW_FLAG_HAS_EXCLUSIVE_WAITER, false)
  | _ =>
      if decide (Z.land old_state (Z.lor RW_VAL_EXCLUSIVE RW_FLAG_HAS_EXCLUSIVE_WAITER) = 0) then
        (u64 (old_state + RW_VAL_SHARED), true)
      else (old_state, false)
  end.

(** ** The functions of one backend *)

(** Lock words by address, held_rwlocks[0 .. num_held_rwlocks) in the order
    of acquisition, and PostgreSQL's InterruptHoldoffCount, which
    HOLD_INTERRUPTS and RESUME_INTERRUPTS count up and down. *)
Record RWLocks (A : Type) `{Countable A} := mkRWLocks {
  lock_words : gmap A Z;
  held_rwlocks : list (A * RWLockMode);
  InterruptHoldoffCount : Z }.
Arguments mkRWLocks {A _ _} _ _ _.
Arguments lock_words {A _ _} _.
Arguments held_rwlocks {A _ _} _.
Arguments InterruptHoldoffCount {A _ _} _.

#[global] Instance eta_RWLocks `{Countable A} : Eta (RWLocks A) :=
  λ s, mkRWLocks (lock_words s) (held_rwlocks s) (InterruptHoldoffCount s).

Section rwlock.
Context {A : Type} `{Countable A}.
Implicit Types (lock : A) (s : RWLocks A).

(** Access through a lock pointer; a pointer to no lock is a wild access. *)
Definition read_word lock : M (RWLocks A) Z := λ s,
  match lock_words s !! lock with Some w => Ret w s | None => Undefined end.

Definition write_word lock (w : Z) : M (RWLocks A) () :=
  mmodify (λ s, s <| lock_words ::= <[lock := w]> |>).

Definition atomic_fetch_add lock (d : Z) : M (RWLocks A) () :=
  w ← read_word lock; write_word lock (u64 (w + d)).

Definition atomic_fetch_sub lock (d : Z) : M (RWLocks A) () :=
  w ← read_word lock; write_word lock (u64 (w - d)).

Definition push_handle lock (mode : RWLockMode) : M (RWLocks A) () :=
  mmodify (λ s, s <| held_rwlocks ::= λ l, l ++ [(lock, mode)] |>).

Definition HOLD_INTERRUPTS : M (RWLocks A) () :=
  mmodify (λ s, s <| InterruptHoldoffCount ::= Z.succ |>).
Definition RESUME_INTERRUPTS : M (RWLocks A) () :=
  mmodify (λ s, s <| InterruptHoldoffCount ::= Z.pred |>).

(** pg_atomic_init_u64(&lock->state, 0), on freshly allocated memory. *)
Definition RWLockInitialize lock : M (RWLocks A) () := write_word lock 0.

Definition RWLockAttemptLock lock (mode : RWLockMode) : M (RWLocks A) bool :=
  old_state ← read_word lock;
  let '(desired_state, lock_free) := attempt_word mode old_state in
  write_word lock desired_state ;;
  mret (lock_free : bool).

Definition RWLockDeclare lock : M (RWLocks A) () :=
  s ← mget;
  if decide (MAX_SIMUL_RWLOCKS ≤ length (held_rwlocks s))%nat then melog PROGRAM_ERROR
  else HOLD_INTERRUPTS ;; atomic_fetch_add lock RW_VAL_REF_COUNT ;; push_handle lock RW_DECLARE.

(** The last index i with P held_rwlocks[i], scanning backwards. *)
Fixpoint rfind_index {B} (P : B → bool) (l : list B) : option nat :=
  match l with
  | [] => None
  | x :: l' =>
      match rfind_index P l' with
      | Some i => Some (S i)
      | None => if P x then Some O else None
      end
  end.

(** Drop entry i, moving the later ones down by one. *)
Definition remove_at {B} (i : nat) (l : list B) : list B := take i l ++ drop (S i) l.

Definition RWLockUndeclare lock : M (RWLocks A) () :=
  s ← mget;
  match rfind_index (λ h, bool_decide (h = (lock, RW_DECLARE))) (held_rwlocks s) with
  | None => melog PROGRAM_ERROR
  | Some i =>
      mput (s <| held_rwlocks ::= remove_at i |>) ;;
      atomic_fetch_sub lock RW_VAL_REF_COUNT ;;
      RESUME_INTERRUPTS
  end.

Definition RWLockCheckDestroyable lock : M (RWLocks A) bool :=
  state ← read_word lock;
  mret (bool_decide (Z.land state RW_REF_COUNT_MASK = 0)).

(** The spin loop.  Between two attempts of the same backend only other
    backends can change the word, so with fuel left the loop ends exactly
    when the first attempt succeeds ([spin_first_attempt]). *)
Fixpoint acquire_spin (fuel : nat) lock (mode : RWLockMode) : M (RWLocks A) () :=
  match fuel with
  | O => mdiverge
  | S fuel' =>
      getLock ← RWLockAttemptLock lock mode;
      if getLock : bool then mret () else acquire_spin fuel' lock mode
  end.

Definition RWLockAcquire lock (mode : RWLockMode) : M (RWLocks A) () :=
  s ← mget;
  if decide (mode = RW_DECLARE) then melog PROGRAM_ERROR
  else if decide (MAX_SIMUL_RWLOCKS ≤ length (held_rwlocks s))%nat then melog PROGRAM_ERROR
  else
    HOLD_INTERRUPTS ;;
    atomic_fetch_add lock RW_VAL_REF_COUNT ;;
    acquire_spin 1 lock mode ;;
    push_handle lock mode.

Definition RWLockRelease lock : M (RWLocks A) () :=
  s ← mget;
  match rfind_index (λ h, bool_decide (h.1 = lock)) (held_rwlocks s) with
  | None => melog PROGRAM_ERROR
  | Some i =>
      match held_rwlocks s !! i with
      | None => mundefined
      | Some (_, mode) =>
          mput (s <| held_rwlocks ::= remove_at i |>) ;;
          (if decide (mode = RW_EXCLUSIVE) then atomic_fetch_sub lock RW_VAL_EXCLUSIVE
           else atomic_fetch_sub lock RW_VAL_SHARED) ;;
          atomic_fetch_sub lock RW_VAL_REF_COUNT ;;
          RESUME_INTERRUPTS
      end
  end.

(** while (num_held_rwlocks > 0): one iteration drops one handle, so as many
    iterations as there are handles. *)
Fixpoint release_all_loop (keepInterruptHoldoffCount : bool) (fuel : nat) : M (RWLocks A) () :=
  s ← mget;
  match last (held_rwlocks s) with
  | None => mret ()
  | Some (lock, mode) =>
      match fuel with
      | O => mdiverge
      | S fuel' =>
          (if keepInterruptHoldoffCount then HOLD_INTERRUPTS else mret ()) ;;
          (if decide (mode = RW_DECLARE) then RWLockUndeclare lock else RWLockRelease lock) ;;
          release_all_loop keepInterruptHoldoffCount fuel'
      end
  end.

Definition RWLockReleaseAll (keepInterruptHoldoffCount : bool) : M (RWLocks A) () :=
  s ← mget; release_all_loop keepInterruptHoldoffCount (length (held_rwlocks s)).
End rwlock.

(** ** The bit fields of the word *)

(** The word with [sh] shared holders, [ex] exclusive holders, [rf]
    references and the waiter flag [w]. *)
Definition enc (sh ex rf w : Z) : Z := sh + ex * 2 ^ 24 + rf * 2 ^ 25 + w * 2 ^ 62.

Definition enc_ok (sh ex rf w : Z) : Prop :=
  0 ≤ sh < 2 ^ 24 ∧ 0 ≤ ex ≤ 1 ∧ 0 ≤ rf < 2 ^ 25 ∧ 0 ≤ w ≤ 1.

Lemma testbit_mod_div x n : 0 ≤ n → Z.testbit x n = bool_decide ((x / 2 ^ n) mod 2 = 1).
Proof.
  intros Hn. rewrite Z.testbit_eqb by done.
  by destruct (Z.eqb_spec ((x / 2 ^ n) mod 2) 1); [rewrite bool_decide_true|rewrite bool_decide_false].
Qed.

Lemma enc_bit24 sh ex rf w :
  enc_ok sh ex rf w → Z.testbit (enc sh ex rf w) 24 = bool_decide (ex = 1).
Proof.
  intros (? & ? & ? & ?). rewrite testbit_mod_div by lia. apply bool_decide_ext.
  replace (enc sh ex rf w) with (sh + (ex + (rf + w * 2 ^ 37) * 2) * 2 ^ 24) by (unfold enc; lia).
  rewrite Z.div_add, (Z.div_small sh), Z.add_0_l by lia.
  rewrite Z.mod_add by lia. rewrite Z.mod_small by lia. done.
Qed.

Lemma enc_bit62 sh ex rf w :
  enc_ok sh ex rf w → Z.testbit (enc sh ex rf w) 62 = bool_decide (w = 1).
Proof.
  intros (? & ? & ? & ?). rewrite testbit_mod_div by lia. apply bool_decide_ext.
  unfold enc. rewrite Z.div_add by lia. rewrite Z.div_small by lia.
  rewrite Z.add_0_l, Z.mod_small by lia. done.
Qed.

Lemma setbit_add x n : 0 ≤ n → Z.testbit x n = false → Z.lor x (2 ^ n) = x + 2 ^ n.
Proof.
  intros Hn Hb.
  assert (Z.land x (2 ^ n) = 0) as Hl.
  { apply Z.bits_inj'. intros i Hi. rewrite Z.land_spec, Z.bits_0, Z.pow2_bits_eqb by lia.
    destruct (Z.eqb_spec n i) as [<-|]; [by rewrite Hb|apply andb_false_r]. }
  by rewrite <-Z.lxor_lor, <-Z.add_nocarry_lxor.
Qed.

Lemma setbit_id x n : 0 ≤ n → Z.testbit x n = true → Z.lor x (2 ^ n) = x.
Proof.
  intros Hn Hb. apply Z.bits_inj'. intros i Hi. rewrite Z.lor_spec, Z.pow2_bits_eqb by lia.
  destruct (Z.eqb_spec n i) as [<-|]; [by rewrite Hb|apply orb_false_r].
Qed.

Lemma land_bit x n : 0 ≤ n → Z.land x (2 ^ n) = if Z.testbit x n then 2 ^ n else 0.
Proof.
  intros Hn. apply Z.bits_inj'. intros i Hi. rewrite Z.land_spec, Z.pow2_bits_eqb by lia.
  destruct (Z.eqb_spec n i) as [<-|Hne].
  - rewrite andb_true_r. destruct (Z.testbit x n); [|by rewrite Z.bits_0].
    by rewrite Z.pow2_bits_true.
  - rewrite andb_false_r. destruct (Z.testbit x n); [|by rewrite Z.bits_0].
    by rewrite Z.pow2_bits_false.
Qed.

(** Clearing a bit of a 64-bit word. *)
Lemma clearbit_sub x n :
  0 ≤ n < 64 → 0 ≤ x < 2 ^ 64 →
  Z.land x (u64 (Z.lnot (2 ^ n))) = x - (if Z.testbit x n then 2 ^ n else 0).
Proof.
  intros Hn Hx. rewrite <-land_bit by lia.
  assert (Z.land x (u64 (Z.lnot (2 ^ n))) = Z.ldiff x (2 ^ n)) as ->.
  { apply Z.bits_inj'. intros i Hi. unfold u64.
    rewrite Z.land_spec, Z.ldiff_spec.
    destruct (decide (i < 64)).
    - rewrite Z.mod_pow2_bits_low, Z.lnot_spec by lia. done.
    - by rewrite (testbit_above x 64 i) by lia. }
  apply Z.add_move_r. rewrite Z.add_nocarry_lxor, Z.lxor_lor.
  - apply Z.bits_inj'. intros i Hi. rewrite Z.lor_spec, Z.ldiff_spec, Z.land_spec.
    by destruct (Z.testbit x i), (Z.testbit (2 ^ n) i).
  - apply Z.bits_inj'. intros i Hi. rewrite !Z.land_spec, Z.ldiff_spec, Z.bits_0.
    by destruct (Z.testbit x i), (Z.testbit (2 ^ n) i).
  - apply Z.bits_inj'. intros i Hi. rewrite !Z.land_spec, Z.ldiff_spec, Z.bits_0.
    by destruct (Z.testbit x i), (Z.testbit (2 ^ n) i).
Qed.

(** What an attempt to lock does to the fields. *)
Lemma attempt_exclusive sh ex rf w :
  enc_ok sh ex rf w →
  attempt_word RW_EXCLUSIVE (enc sh ex rf w) =
    if decide (sh = 0 ∧ ex = 0) then (enc 0 1 rf 0, true) else (enc sh ex rf 1, false).
Proof.
  intros Hok. pose proof Hok as (Hsh & Hex & Hrf & Hw). unfold attempt_word.
  change RW_LOCK_MASK with (2 ^ 25 - 1). rewrite land_ones_mod by lia.
  replace (enc sh ex rf w mod 2 ^ 25) with (sh + ex * 2 ^ 24).
  2:{ replace (enc sh ex rf w) with (sh + ex * 2 ^ 24 + (rf + w * 2 ^ 37) * 2 ^ 25) by (unfold enc; lia).
      rewrite Z.mod_add by lia. rewrite Z.mod_small; lia. }
  change RW_VAL_EXCLUSIVE with (2 ^ 24). change RW_FLAG_HAS_EXCLUSIVE_WAITER with (2 ^ 62).
  destruct (decide (sh + ex * 2 ^ 24 = 0)) as [Hz|Hz].
  - assert (sh = 0 ∧ ex = 0) as [-> ->] by lia. rewrite decide_True by done. f_equal.
    rewrite setbit_add; [|lia|rewrite enc_bit24 by done; by rewrite bool_decide_false by lia].
    replace (enc 0 0 rf w + 2 ^ 24) with (enc 0 1 rf w) by (unfold enc; lia).
    rewrite clearbit_sub by (unfold enc; lia). rewrite enc_bit62 by (unfold enc_ok; lia).
    case_bool_decide; unfold enc; lia.
  - rewrite decide_False by lia. f_equal.
    destruct (decide (w = 1)) as [->|].
    + apply setbit_id; [lia|]. rewrite enc_bit62 by done. by apply bool_decide_true.
    + rewrite setbit_add; [unfold enc; lia|lia|].
      rewrite enc_bit62 by done. by apply bool_decide_false.
Qed.

Lemma attempt_shared sh ex rf w :
  enc_ok sh ex rf w → sh + 1 < 2 ^ 24 →
  attempt_word RW_SHARED (enc sh ex rf w) =
    if decide (ex = 0 ∧ w = 0) then (enc (sh + 1) ex rf w, true) else (enc sh ex rf w, false).
Proof.
  intros Hok Hlt. pose proof Hok as (Hsh & Hex & Hrf & Hw). unfold attempt_word.
  change RW_VAL_EXCLUSIVE with (2 ^ 24). change RW_FLAG_HAS_EXCLUSIVE_WAITER with (2 ^ 62).
  rewrite Z.land_lor_distr_r, !land_bit, enc_bit24, enc_bit62 by (done || lia).
  assert (∀ a b, Z.lor a b = 0 ↔ a = 0 ∧ b = 0) as Hlor by (intros; apply Z.lor_eq_0_iff).
  destruct (decide (ex = 0 ∧ w = 0)) as [[-> ->]|Hne].
  - rewrite decide_True by (by repeat case_bool_decide). f_equal.
    unfold RW_VAL_SHARED. rewrite u64_small by (unfold enc; lia). unfold enc; lia.
  - rewrite decide_False; [done|]. rewrite Hlor. repeat case_bool_decide; lia.
Qed.

Lemma enc_destroyable sh ex rf w :
  enc_ok sh ex rf w →
  Z.land (enc sh ex rf w) RW_REF_COUNT_MASK = rf * 2 ^ 25.
Proof.
  intros (Hsh & Hex & Hrf & Hw).
  change RW_REF_COUNT_MASK with (Z.shiftl (2 ^ 25 - 1) 25).
  rewrite <-(Z.shiftl_mul_pow2 rf 25) by lia.
  replace (Z.land (enc sh ex rf w) (Z.shiftl (2 ^ 25 - 1) 25))
    with (Z.shiftl (Z.land (Z.shiftr (enc sh ex rf w) 25) (2 ^ 25 - 1)) 25).
  - f_equal. rewrite land_ones_mod, Z.shiftr_div_pow2 by lia.
    replace (enc sh ex rf w) with (sh + ex * 2 ^ 24 + (rf + w * 2 ^ 12 * 2 ^ 25) * 2 ^ 25) by (unfold enc; lia).
    rewrite Z.div_add, (Z.div_small (sh + ex * 2 ^ 24)) by lia.
    rewrite Z.add_0_l, Z.mod_add by lia. apply Z.mod_small. lia.
  - apply Z.bits_inj'. intros i Hi. rewrite Z.land_spec. destruct (decide (i < 25)).
    + rewrite !Z.shiftl_spec_low by lia. by rewrite andb_false_r.
    + rewrite !Z.shiftl_spec by lia. rewrite Z.land_spec, Z.shiftr_spec by lia.
      by replace (i - 25 + 25) with i by lia.
Qed.

(** A failed attempt leaves a word at which the next attempt fails too. *)
Lemma attempt_fail_idem mode old :
  (attempt_word mode old).2 = false →
  attempt_word mode (attempt_word mode old).1 = ((attempt_word mode old).1, false).
Proof.
  assert (Z.land RW_FLAG_HAS_EXCLUSIVE_WAITER RW_LOCK_MASK = 0) as Hf by reflexivity.
  destruct mode; simpl; (destruct (decide _) as [He|He]; simpl; [done|intros _]).
  1: rewrite decide_False.
  - f_equal. by rewrite <-Z.lor_assoc, Z.lor_diag.
  - rewrite Z.land_lor_distr_l, Hf. by rewrite Z.lor_0_r.
  - by rewrite decide_False.
  - by rewrite decide_False.
Qed.

Lemma attempt_lock_eq `{Countable A} (lock : A) mode (s : RWLocks A) :
  RWLockAttemptLock lock mode s =
    match lock_words s !! lock with
    | None => Undefined
    | Some w => Ret (attempt_word mode w).2
                  (s <| lock_words ::= <[lock := (attempt_word mode w).1]> |>)
    end.
Proof.
  unfold RWLockAttemptLock, mbind, M_bind, read_word.
  destruct (lock_words s !! lock) as [w|]; [|done]. by destruct (attempt_word mode w).
Qed.

(** Alone, the spin loop ends with the first attempt or never. *)
Lemma spin_first_attempt `{Countable A} fuel (lock : A) mode (s : RWLocks A) :
  acquire_spin (S fuel) lock mode s = acquire_spin 1 lock mode s.
Proof.
  revert s. induction fuel as [|fuel IH]; intros s; [done|].
  change (acquire_spin (S (S fuel)) lock mode s)
    with ((RWLockAttemptLock lock mode ≫= λ getLock : bool,
          if getLock then mret () else acquire_spin (S fuel) lock mode) s).
  change (acquire_spin 1 lock mode)
    with (RWLockAttemptLock lock mode ≫= λ getLock : bool,
          if getLock then mret () else mdiverge).
  unfold mbind, M_bind. rewrite attempt_lock_eq.
  destruct (lock_words s !! lock) as [w|] eqn:Hw; [|done].
  destruct ((attempt_word mode w).2) eqn:Hb; [done|].
  rewrite IH. simpl. unfold mbind, M_bind. rewrite attempt_lock_eq. simpl.
  rewrite lookup_insert_eq, attempt_fail_idem by done. done.
Qed.

(** ** Releasing everything on abort *)

(** What a handle has added to the word of its lock. *)
Definition handle_weight (mode : RWLockMode) : Z :=
  match mode with
  | RW_EXCLUSIVE => RW_VAL_EXCLUSIVE + RW_VAL_REF_COUNT
  | RW_SHARED => RW_VAL_SHARED + RW_VAL_REF_COUNT
  | RW_DECLARE => RW_VAL_REF_COUNT
  end.

Section release_all.
Context {A : Type} `{Countable A}.
Implicit Types (lock : A) (s : RWLocks A) (held : list (A * RWLockMode)).

Fixpoint held_weight lock held : Z :=
  match held with
  | [] => 0
  | h :: held' => (if decide (h.1 = lock) then handle_weight h.2 else 0) + held_weight lock held'
  end.

Lemma held_weight_snoc lock held h :
  held_weight lock (held ++ [h]) =
    held_weight lock held + (if decide (h.1 = lock) then handle_weight h.2 else 0).
Proof. induction held as [|x held IH]; simpl; [|rewrite IH]; lia. Qed.

Lemma rfind_snoc {B} (P : B → bool) l x : P x = true → rfind_index P (l ++ [x]) = Some (length l).
Proof. intros Hx. induction l as [|y l IH]; simpl; [by rewrite Hx|by rewrite IH]. Qed.

Lemma remove_snoc {B} (l : list B) x : remove_at (length l) (l ++ [x]) = l.
Proof.
  unfold remove_at. rewrite take_app_length, drop_ge by (rewrite length_app; simpl; lia).
  by rewrite app_nil_r.
Qed.

Lemma u64_sub_sub w a b : u64 (u64 (w - a) - b) = u64 (w - (a + b)).
Proof. unfold u64. rewrite Zminus_mod_idemp_l. f_equal. lia. Qed.

(** The last handle, dropped by the call RWLockReleaseAll makes for it. *)
Definition drop_last lock mode : M (RWLocks A) () :=
  if decide (mode = RW_DECLARE) then RWLockUndeclare lock else RWLockRelease lock.

Lemma drop_last_spec s held lock mode w :
  held_rwlocks s = held ++ [(lock, mode)] → lock_words s !! lock = Some w →
  drop_last lock mode s =
    Ret () (mkRWLocks (<[lock := u64 (w - handle_weight mode)]> (lock_words s)) held
              (Z.pred (InterruptHoldoffCount s))).
Proof.
  intros Hh Hw. destruct s as [words h cnt]; simpl in *; subst h.
  unfold drop_last. destruct (decide (mode = RW_DECLARE)) as [->|Hm].
  - unfold RWLockUndeclare. mstep. cbn [held_rwlocks].
    rewrite rfind_snoc by by apply bool_decide_true.
    mstep. unfold atomic_fetch_sub. mstep. erewrite bind_ret.
    2:{ unfold read_word. simpl. by rewrite Hw. }
    unfold write_word, RESUME_INTERRUPTS. mstep. unfold mmodify. f_equal.
    unfold set_field; simpl. by rewrite remove_snoc.
  - unfold RWLockRelease. mstep. cbn [held_rwlocks].
    rewrite rfind_snoc by by apply bool_decide_true.
    rewrite lookup_app_r, Nat.sub_diag by lia. cbn [lookup list_lookup]. mstep.
    assert (∀ d, ((atomic_fetch_sub lock d ;; atomic_fetch_sub lock RW_VAL_REF_COUNT ;; RESUME_INTERRUPTS)
        : M (RWLocks A) ()) (mkRWLocks words held cnt)
      = Ret () (mkRWLocks (<[lock := u64 (w - (d + RW_VAL_REF_COUNT))]> words) held (Z.pred cnt))) as Hsub.
    { intros d. unfold atomic_fetch_sub, write_word, RESUME_INTERRUPTS. mstep.
      erewrite bind_ret; [|unfold read_word; simpl; by rewrite Hw]. mstep.
      erewrite bind_ret; [|unfold read_word; simpl; by rewrite lookup_insert_eq]. mstep.
      unfold mmodify. f_equal. unfold set_field; simpl. by rewrite insert_insert_eq, u64_sub_sub. }
    unfold set_field; simpl. rewrite remove_snoc.
    destruct mode; [exact (Hsub RW_VAL_EXCLUSIVE)|exact (Hsub RW_VAL_SHARED)|done].
Qed.

Lemma release_all_loop_spec keep fuel s :
  (length (held_rwlocks s) ≤ fuel)%nat →
  (∀ h, h ∈ held_rwlocks s → is_Some (lock_words s !! h.1)) →
  (∀ lock w, lock_words s !! lock = Some w → 0 ≤ w < 2 ^ 64) →
  release_all_loop keep fuel s =
    Ret () (mkRWLocks
      (map_imap (λ lock w, Some (u64 (w - held_weight lock (held_rwlocks s)))) (lock_words s)) []
      (InterruptHoldoffCount s - (if keep then 0 else Z.of_nat (length (held_rwlocks s))))).
Proof.
  revert s. induction fuel as [|fuel IH]; intros [words held cnt] Hf Hex Hr;
    cbn [release_all_loop]; mstep; simpl in *.
  all: destruct held as [|h held _] using rev_ind.
  1, 3: unfold mret, M_ret; do 2 f_equal; simpl; [|destruct keep; lia];
    apply map_eq; intros l; rewrite map_lookup_imap; destruct (words !! l) eqn:E; simpl; [|done];
    by rewrite Z.sub_0_r, u64_small by eauto.
  1: rewrite length_app in Hf; simpl in Hf; lia.
  rewrite last_snoc. destruct h as [lock mode].
  destruct (Hex (lock, mode)) as [w Hw]; [apply elem_of_app; right; by left|]. simpl in Hw.
  set (cnt' := if keep then Z.succ cnt else cnt).
  transitivity ((drop_last lock mode ;; release_all_loop keep fuel)
                  (mkRWLocks words (held ++ [(lock, mode)]) cnt')).
  { by destruct keep. }
  erewrite bind_ret by (by apply (drop_last_spec _ held _ _ w)). simpl.
  rewrite length_app in Hf; simpl in Hf. rewrite IH; simpl.
  - do 2 f_equal.
    + apply map_eq; intros l. rewrite !map_lookup_imap, lookup_insert.
      rewrite held_weight_snoc; simpl. destruct (decide (lock = l)) as [->|].
      * rewrite Hw; simpl. rewrite u64_sub_sub. do 2 f_equal. lia.
      * by rewrite Z.add_0_r.
    + rewrite length_app; simpl. destruct keep; subst cnt'; lia.
  - lia.
  - intros h Hh. destruct (decide (lock = h.1)) as [->|]; [rewrite lookup_insert_eq; eauto|].
    rewrite lookup_insert_ne by done. apply Hex. apply elem_of_app. by left.
  - intros l v. destruct (decide (lock = l)) as [->|].
    + rewrite lookup_insert_eq. intros [= <-]. apply u64_range.
    + rewrite lookup_insert_ne by done. apply Hr.
Qed.

(** RWLockReleaseAll, run on abort, always ends: it drops every handle
    of the backend, takes from each lock word exactly what the backend's
    handles had added to it and leaves InterruptHoldoffCount unchanged when
    asked to keep it, else lower by the number of handles. *)
Theorem RWLockReleaseAll_releases keep s :
  (∀ h, h ∈ held_rwlocks s → is_Some (lock_words s !! h.1)) →
  (∀ lock w, lock_words s !! lock = Some w → 0 ≤ w < 2 ^ 64) →
  RWLockReleaseAll keep s =
    Ret () (mkRWLocks
      (map_imap (λ lock w, Some (u64 (w - held_weight lock (held_rwlocks s)))) (lock_words s)) []
      (InterruptHoldoffCount s - (if keep : bool then 0 else Z.of_nat (length (held_rwlocks s))))).
Proof. intros. unfold RWLockReleaseAll. mstep. by apply release_all_loop_spec. Qed.
End release_all.

(** ** Many backends on one lock

    Each backend has the handles it holds on the lock (oldest first) and a
    program point inside the function it runs: [Attempting] after
    RWLockAcquire has taken its reference and before the next attempt;
    [Comparing] between the read (or the failed compare-and-exchange) and the
    next compare-and-exchange; [Unreferencing] between the two subtractions
    of RWLockRelease.  One step is one atomic access of the shared word. *)
Module Interleaving.

Inductive pc := Idle | Attempting (mode : RWLockMode) | Comparing (mode : RWLockMode) (old_state : Z)
  | Unreferencing.

Record backend := mk_backend { handles : list RWLockMode; at_pc : pc }.

Record config := mk_config { word : Z; backends : list backend }.

(** RWLockRelease of a lock whose last handle is [mode]. *)
Definition release_val (mode : RWLockMode) : Z :=
  if decide (mode = RW_EXCLUSIVE) then RW_VAL_EXCLUSIVE else RW_VAL_SHARED.

(** The atomic steps of backend [b] at word [w]. *)
Inductive bstep : Z → backend → Z → backend → Prop :=
  | step_declare w hs :
      (length hs < MAX_SIMUL_RWLOCKS)%nat →
      bstep w (mk_backend hs Idle) (u64 (w + RW_VAL_REF_COUNT)) (mk_backend (hs ++ [RW_DECLARE]) Idle)
  | step_undeclare w hs i :
      rfind_index (λ m, bool_decide (m = RW_DECLARE)) hs = Some i →
      bstep w (mk_backend hs Idle) (u64 (w - RW_VAL_REF_COUNT)) (mk_backend (remove_at i hs) Idle)
  | step_acquire w hs mode :
      mode ≠ RW_DECLARE → (length hs < MAX_SIMUL_RWLOCKS)%nat →
      bstep w (mk_backend hs Idle) (u64 (w + RW_VAL_REF_COUNT)) (mk_backend hs (Attempting mode))
  | step_read w hs mode :
      bstep w (mk_backend hs (Attempting mode)) w (mk_backend hs (Comparing mode w))
  | step_cas_fail w hs mode old :
      w ≠ old →
      bstep w (mk_backend hs (Comparing mode old)) w (mk_backend hs (Comparing mode w))
  | step_cas_lock hs mode old w' :
      attempt_word mode old = (w', true) →
      bstep old (mk_backend hs (Comparing mode old)) w' (mk_backend (hs ++ [mode]) Idle)
  | step_cas_busy hs mode old w' :
      attempt_word mode old = (w', false) →
      bstep old (mk_backend hs (Comparing mode old)) w' (mk_backend hs (Attempting mode))
  | step_release w hs mode :
      bstep w (mk_backend (hs ++ [mode]) Idle) (u64 (w - release_val mode)) (mk_backend hs Unreferencing)
  | step_unreference w hs :
      bstep w (mk_backend hs Unreferencing) (u64 (w - RW_VAL_REF_COUNT)) (mk_backend hs Idle).

Inductive step : config → config → Prop :=
  | step_backend w w' bs i b b' :
      bs !! i = Some b → bstep w b w' b' →
      step (mk_config w bs) (mk_config w' (<[i := b']> bs)).

(** RWLockRelease of a lock whose last handle is a declaration: the code takes a
    shared count that the backend does not have.  The callers do not do that: a
    declaration is undeclared by the function that made it, before anything is
    released. *)
Definition releases_declared (b b' : backend) : Prop :=
  at_pc b = Idle ∧ at_pc b' = Unreferencing ∧ ∃ hs, handles b = hs ++ [RW_DECLARE].

(** A step of the callers' kind. *)
Inductive careful : config → config → Prop :=
  | careful_backend w w' bs i b b' :
      bs !! i = Some b → bstep w b w' b' → ¬ releases_declared b b' →
      careful (mk_config w bs) (mk_config w' (<[i := b']> bs)).

(** RWLockInitialize, before any backend uses the lock. *)
Definition initial (n : nat) : config := mk_config 0 (replicate n (mk_backend [] Idle)).

(** *** Counting over the backends *)
Definition count (m : RWLockMode) (hs : list RWLockMode) : Z :=
  Z.of_nat (length (filter (λ h, h = m) hs)).

Definition pending (p : pc) : Z := match p with Idle => 0 | _ => 1 end.
Definition refs (b : backend) : Z := Z.of_nat (length (handles b)) + pending (at_pc b).

Definition sharers (c : config) : Z := zsum (λ b, count RW_SHARED (handles b)) (backends c).
Definition owners (c : config) : Z := zsum (λ b, count RW_EXCLUSIVE (handles b)) (backends c).
Definition references (c : config) : Z := zsum refs (backends c).

Definition wants_exclusive (p : pc) : Prop :=
  match p with Attempting m | Comparing m _ => m = RW_EXCLUSIVE | _ => False end.

Lemma count_snoc m hs h : count m (hs ++ [h]) = count m hs + (if decide (h = m) then 1 else 0).
Proof.
  unfold count. rewrite filter_app, length_app. simpl.
  rewrite filter_cons, filter_nil. destruct (decide _); simpl; lia.
Qed.

Lemma count_remove m hs i h :
  hs !! i = Some h → count m (remove_at i hs) = count m hs - (if decide (h = m) then 1 else 0).
Proof.
  intros Hi. rewrite <-(take_drop_middle hs i h Hi) at 2. unfold remove_at, count.
  rewrite !filter_app, !length_app, filter_cons. destruct (decide _); simpl; lia.
Qed.

Lemma count_pos m hs : m ∈ hs → 1 ≤ count m hs.
Proof.
  intros Hm. unfold count. assert (m ∈ filter (λ h, h = m) hs) as Hin by (by apply list_elem_of_filter).
  destruct (filter _ hs); [by apply not_elem_of_nil in Hin|simpl; lia].
Qed.

Lemma count_nonneg m hs : 0 ≤ count m hs.
Proof. unfold count. lia. Qed.

Lemma count_le m hs : count m hs ≤ Z.of_nat (length hs).
Proof. unfold count. pose proof (length_filter (λ h, h = m) hs). lia. Qed.

Lemma length_remove {B} (hs : list B) i h :
  hs !! i = Some h → length (remove_at i hs) = pred (length hs).
Proof.
  intros Hi. pose proof (lookup_lt_Some _ _ _ Hi). unfold remove_at.
  rewrite length_app, length_take, length_drop. lia.
Qed.

Lemma rfind_lookup {B} (P : B → bool) hs i :
  rfind_index P hs = Some i → ∃ h, hs !! i = Some h ∧ P h = true.
Proof.
  revert i. induction hs as [|x hs IH]; intros i Hi; simplify_eq/=.
  destruct (rfind_index P hs) as [j|]; simplify_eq/=; [by apply IH|].
  destruct (P x) eqn:E; simplify_eq/=. eauto.
Qed.

(** *** The invariant *)
Definition limit : Z := Z.of_nat MAX_SIMUL_RWLOCKS.

Definition backend_ok (b : backend) : Prop :=
  refs b ≤ limit ∧
  match at_pc b with Attempting m | Comparing m _ => m ≠ RW_DECLARE | _ => True end.

Ltac fields w :=
  exists w; rewrite ?length_app in *; simpl in *;
  unfold release_val, RW_VAL_REF_COUNT, RW_VAL_EXCLUSIVE, RW_VAL_SHARED, BIT_COUNT_FOR_SHARED, limit in *;
  repeat rewrite decide_True in * by done; repeat rewrite decide_False in * by done;
  change (Z.shiftl 1 (24 + 1)) with (2 ^ 25) in *; change (Z.shiftl 1 24) with (2 ^ 24) in *;
  split; [rewrite ?u64_small by (unfold enc; lia); unfold enc; lia
         |repeat split; try lia; try done; try (intros; tauto); try (intros; right; by split)].

(** What one step of a backend makes of the fields, when [b] has part of them. *)
Lemma bstep_fields sh ex rf wf b w' b' :
  bstep (enc sh ex rf wf) b w' b' → ¬ releases_declared b b' → backend_ok b →
  0 ≤ wf ≤ 1 → count RW_SHARED (handles b) ≤ sh → count RW_EXCLUSIVE (handles b) ≤ ex →
  ex ≤ 1 → (ex = 1 → sh = 0) →
  sh - count RW_SHARED (handles b) ≤ rf - refs b → refs b ≤ rf → rf - refs b + limit < 2 ^ 24 →
  let sh' := sh - count RW_SHARED (handles b) + count RW_SHARED (handles b') in
  let ex' := ex - count RW_EXCLUSIVE (handles b) + count RW_EXCLUSIVE (handles b') in
  ∃ wf', w' = enc sh' ex' (rf - refs b + refs b') wf' ∧ 0 ≤ wf' ≤ 1 ∧ ex' ≤ 1 ∧
    (ex' = 1 → sh' = 0) ∧ backend_ok b' ∧
    (wf' = 1 → wants_exclusive (at_pc b') ∨ wf = 1 ∧ ¬ wants_exclusive (at_pc b)).
Proof.
  intros Hst Hrel [Hrl Hpc] Hwf Hsh Hex Hex1 Hxs Hshrf Hrf Hlim.
  pose proof (count_nonneg RW_SHARED (handles b)). pose proof (count_nonneg RW_EXCLUSIVE (handles b)).
  pose proof (count_le RW_SHARED (handles b)).
  assert (0 ≤ pending (at_pc b)) by (destruct (at_pc b); simpl; lia).
  assert (enc_ok sh ex rf wf) as Hok by (unfold enc_ok, refs in *; lia).
  pose proof (enc_range := Hok). unfold enc_ok in enc_range.
  unfold backend_ok. remember (enc sh ex rf wf) as w0 eqn:Hw0.
  destruct Hst as [w hs Hl|w hs i Hi|w hs m Hm Hl|w hs m|w hs m old Hne|hs m old w' Hat|hs m old w' Hat
    |w hs m|w hs]; unfold refs in *; simpl in *; rewrite ?count_snoc; subst.
  - fields wf.
  - apply rfind_lookup in Hi as (h & Hi & ->%bool_decide_eq_true).
    pose proof (lookup_lt_Some _ _ _ Hi).
    rewrite !(count_remove _ _ _ _ Hi), (length_remove _ _ _ Hi). fields wf.
  - fields wf.
  - destruct (decide (m = RW_EXCLUSIVE)); fields wf.
  - destruct (decide (m = RW_EXCLUSIVE)); fields wf.
  - destruct m; [rewrite attempt_exclusive in Hat by done|rewrite attempt_shared in Hat by (done || lia)|done];
      destruct (decide _) as [[-> ->]|]; simplify_eq.
    + fields 0.
    + fields 0.
  - destruct m; [rewrite attempt_exclusive in Hat by done|rewrite attempt_shared in Hat by (done || lia)|done];
      destruct (decide _); simplify_eq.
    + fields 1.
    + fields wf.
  - pose proof (count_nonneg RW_SHARED hs). unfold release_val. rewrite !count_snoc in *.
    destruct m; [simpl in *; fields wf..|]. exfalso. apply Hrel. split_and!; [done..|by exists hs].
  - fields wf.
Qed.

Section reachable.
Context (n : nat) (n_small : Z.of_nat n * limit < 2 ^ 24).

Definition inv (c : config) : Prop :=
  length (backends c) = n ∧ Forall backend_ok (backends c) ∧
  owners c ≤ 1 ∧ (owners c = 1 → sharers c = 0) ∧
  ∃ wf, word c = enc (sharers c) (owners c) (references c) wf ∧ 0 ≤ wf ≤ 1 ∧
    (wf = 1 → ∃ i b, backends c !! i = Some b ∧ wants_exclusive (at_pc b)).

Lemma refs_bound b : count RW_SHARED (handles b) ≤ refs b ∧ count RW_EXCLUSIVE (handles b) ≤ refs b.
Proof.
  pose proof (count_le RW_SHARED (handles b)). pose proof (count_le RW_EXCLUSIVE (handles b)).
  unfold refs. destruct (at_pc b); simpl; lia.
Qed.

(** The references of all backends but one leave room for the limit of one. *)
Lemma others_bound bs i b :
  length bs = n → Forall backend_ok bs → bs !! i = Some b →
  zsum refs bs - refs b + limit < 2 ^ 24.
Proof.
  intros Hn Hall Hi.
  assert (∃ b0, refs b0 = limit) as [b0 Hb0].
  { exists (mk_backend (replicate MAX_SIMUL_RWLOCKS RW_DECLARE) Idle). unfold refs.
    cbn [handles at_pc pending]. rewrite length_replicate. unfold limit. lia. }
  pose proof (zsum_insert refs bs i b b0 Hi) as Ht. rewrite Hb0 in Ht. rewrite <-Ht.
  eapply Z.le_lt_trans; [|exact n_small]. rewrite Z.mul_comm, <-Hn, <-(length_insert bs i b0), <-zsum_const.
  apply zsum_le. intros b' Hb'. apply list_elem_of_lookup in Hb' as [j Hj].
  destruct (decide (i = j)) as [->|].
  - rewrite list_lookup_insert_eq in Hj by (by eapply lookup_lt_Some). simplify_eq. lia.
  - rewrite list_lookup_insert_ne in Hj by done. by apply (Forall_lookup_1 _ _ _ _ Hall Hj).
Qed.

Lemma refs_nonneg b : 0 ≤ refs b.
Proof. unfold refs. destruct (at_pc b); simpl; lia. Qed.

Lemma inv_step c c' : inv c → careful c c' → inv c'.
Proof.
  intros (Hn & Hall & Ho1 & Hox & wf & Hw & Hwf & Hwant) Hst.
  destruct Hst as [w w' bs i b b' Hi Hb Hrel]. unfold inv, sharers, owners, references in *. simpl in *.
  pose proof (Forall_lookup_1 _ _ _ _ Hall Hi) as Hbok. subst w.
  assert (∀ m b, 0 ≤ count m (handles b)) as Hnn by (intros; apply count_nonneg).
  eapply bstep_fields in Hb as (wf' & -> & Hwf' & Ho' & Hox' & Hbok' & Hwant'); try done.
  - rewrite !(zsum_insert _ _ _ _ _ Hi), length_insert. split_and!; try done.
    { by apply Forall_insert. }
    exists wf'. split_and!; try done; try lia. intros ->. destruct Hwant' as [Hw'|[-> Hnw]]; [done| |].
    + exists i, b'. by rewrite list_lookup_insert_eq by (by eapply lookup_lt_Some).
    + destruct Hwant as (j & bj & Hj & Hwj); [done|]. exists j, bj.
      rewrite list_lookup_insert_ne by (intros ->; by simplify_eq). done.
  - apply (zsum_elem (λ b, count RW_SHARED (handles b)) bs i b); auto.
  - apply (zsum_elem (λ b, count RW_EXCLUSIVE (handles b)) bs i b); auto.
  - apply (zsum_sub (λ b, count RW_SHARED (handles b)) refs bs i); [|done]. intros; apply refs_bound.
  - by apply (zsum_elem refs bs i b refs_nonneg).
  - by apply others_bound with i.
Qed.

Lemma total_initial f k : f (mk_backend [] Idle) = 0 → zsum f (replicate k (mk_backend [] Idle)) = 0.
Proof. intros Hf. induction k; simpl; lia. Qed.

Lemma inv_initial : inv (initial n).
Proof.
  unfold inv, sharers, owners, references, initial; simpl.
  rewrite !total_initial by done. rewrite length_replicate. split_and!; try done; try lia.
  - apply Forall_replicate. split; [unfold refs; simpl; unfold limit; lia|done].
  - exists 0. split_and!; try done; lia.
Qed.

Definition reachable (c : config) : Prop := rtc careful (initial n) c.

Lemma inv_reachable c : reachable c → inv c.
Proof.
  intros Hr. unfold reachable in Hr. revert Hr.
  apply (rtc_ind_r (λ c, inv c) (initial n) inv_initial).
  intros c1 c2 _ Hs IH. by eapply inv_step.
Qed.

(** The invariant bounds every field of the word. *)
Lemma inv_enc_ok c wf :
  inv c → 0 ≤ wf ≤ 1 → enc_ok (sharers c) (owners c) (references c) wf.
Proof.
  intros (Hn & Hall & Ho & Hox & _) Hwf.
  assert (references c ≤ limit * Z.of_nat n) as Hr.
  { rewrite <-Hn, <-zsum_const. apply zsum_le. intros b Hb.
    rewrite Forall_forall in Hall. by apply Hall. }
  assert (sharers c ≤ references c) as Hs by (apply zsum_le; intros b _; apply refs_bound).
  assert (0 ≤ sharers c) by (apply zsum_nonneg; intros; apply count_nonneg).
  assert (0 ≤ owners c) by (apply zsum_nonneg; intros; apply count_nonneg).
  unfold enc_ok. lia.
Qed.

Lemma mutual_exclusion c i j bi bj :
  reachable c → backends c !! i = Some bi → backends c !! j = Some bj →
  (RW_EXCLUSIVE ∈ handles bi → i ≠ j → (RW_EXCLUSIVE ∉ handles bj) ∧ (RW_SHARED ∉ handles bj)) ∧
  (RW_EXCLUSIVE ∈ handles bi → count RW_EXCLUSIVE (handles bi) = 1 ∧ (RW_SHARED ∉ handles bi)) ∧
  (Z.land (word c) RW_REF_COUNT_MASK = 0 ↔
    ∀ k b, backends c !! k = Some b → handles b = [] ∧ at_pc b = Idle).
Proof.
  intros Hr Hi Hj. pose proof (inv_reachable c Hr) as Hinv.
  pose proof Hinv as (_ & _ & Ho & Hox & wf & Hw & Hwf & _).
  assert (∀ m b, 0 ≤ count m (handles b)) as Hnn by (intros; apply count_nonneg).
  assert (∀ k b m, backends c !! k = Some b → m ∈ handles b →
    1 ≤ zsum (λ b, count m (handles b)) (backends c)) as Hpos.
  { intros k b m Hk Hm. pose proof (count_pos m _ Hm).
    pose proof (zsum_elem (λ b, count m (handles b)) _ k b (Hnn m) Hk). simpl in *. lia. }
  split_and!.
  - intros Hx Hij. pose proof (Hpos _ _ _ Hi Hx). split; intros Hm.
    + pose proof (zsum_two (λ b, count RW_EXCLUSIVE (handles b)) _ i j bi bj (Hnn _) Hij Hi Hj).
      pose proof (count_pos _ _ Hx). pose proof (count_pos _ _ Hm). unfold owners in *. simpl in *. lia.
    + pose proof (Hpos _ _ _ Hj Hm). unfold owners, sharers in *. lia.
  - intros Hx. pose proof (Hpos _ _ _ Hi Hx). pose proof (count_pos _ _ Hx).
    pose proof (zsum_elem (λ b, count RW_EXCLUSIVE (handles b)) _ i bi (Hnn _) Hi). split.
    + unfold owners in *. simpl in *. lia.
    + intros Hm. pose proof (Hpos _ _ _ Hi Hm). unfold owners, sharers in *. lia.
  - rewrite Hw, enc_destroyable by by apply inv_enc_ok. split.
    + intros Hz k b Hk. pose proof (zsum_elem refs _ k b refs_nonneg Hk) as Hle.
      unfold references in Hz. assert (refs b = 0) as Hb by (pose proof (refs_nonneg b); lia).
      unfold refs in Hb. destruct (handles b), (at_pc b); simpl in Hb; lia || done.
    + intros Hall. assert (references c ≤ 0) as Hle; [|pose proof (zsum_nonneg refs (backends c) (λ b _, refs_nonneg b)); unfold references in *; lia].
      transitivity (zsum (λ _, 0) (backends c)); [|rewrite zsum_const; lia].
      apply zsum_le. intros b Hb. apply list_elem_of_lookup in Hb as [k Hk].
      destruct (Hall k b Hk) as [Hh Hp]. unfold refs. by rewrite Hh, Hp.
Qed.

(** No wait is in vain: in every reachable state in which backends wait
    for the lock and none holds it, the waiting-writer flag included, some
    waiting backend's next compare-and-exchange on the current word takes the
    lock. *)
Theorem rwlock_progress c i b m :
  reachable c → backends c !! i = Some b →
  at_pc b = Attempting m ∨ (∃ old, at_pc b = Comparing m old) →
  owners c = 0 → sharers c = 0 →
  ∃ j bj mj, backends c !! j = Some bj ∧
    (at_pc bj = Attempting mj ∨ (∃ old, at_pc bj = Comparing mj old)) ∧
    (attempt_word mj (word c)).2 = true.
Proof.
  intros Hr Hi Hp Ho Hs. pose proof (inv_reachable c Hr) as Hinv.
  pose proof Hinv as (_ & Hall & _ & _ & wf & Hw & Hwf & Hwant).
  pose proof (Forall_lookup_1 _ _ _ _ Hall Hi) as [_ Hm].
  assert (m ≠ RW_DECLARE) as Hmode by (by destruct Hp as [Hp|[old Hp]]; rewrite Hp in Hm).
  pose proof (inv_enc_ok c wf Hinv Hwf) as Hok. rewrite Ho, Hs in *.
  destruct (decide (wf = 1)) as [->|Hne].
  - destruct Hwant as (j & bj & Hj & Hwj); [done|].
    exists j, bj, RW_EXCLUSIVE. split; [done|]. split.
    + destruct (at_pc bj); simpl in Hwj; subst; eauto; done.
    + by rewrite Hw, attempt_exclusive.
  - exists i, b, m. split; [done|]. split; [done|]. rewrite Hw. destruct m; [| |done].
    + by rewrite attempt_exclusive.
    + rewrite attempt_shared by (done || lia). by rewrite decide_True by lia.
Qed.
End reachable.

(** (C34) Mutual exclusion, for at most 2047 backends (the counters of the word
    have 24 bits): in every state they can reach by any interleaving of the atomic
    accesses of RWLockDeclare, RWLockUndeclare, RWLockAcquire and RWLockRelease,
    as long as nobody releases a lock whose last handle is a declaration, the
    backend with an exclusive handle excludes every shared or exclusive handle of
    the other backends, and has itself no second one; and
    RWLockCheckDestroyable's test holds exactly when no backend holds or is about
    to take or drop a reference. *)
Theorem rwlock_mutual_exclusion n c i j bi bj : (n ≤ 2047)%nat →
  reachable n c → backends c !! i = Some bi → backends c !! j = Some bj →
  (RW_EXCLUSIVE ∈ handles bi → i ≠ j → (RW_EXCLUSIVE ∉ handles bj) ∧ (RW_SHARED ∉ handles bj)) ∧
  (RW_EXCLUSIVE ∈ handles bi → count RW_EXCLUSIVE (handles bi) = 1 ∧ (RW_SHARED ∉ handles bi)) ∧
  (Z.land (word c) RW_REF_COUNT_MASK = 0 ↔
    ∀ k b, backends c !! k = Some b → handles b = [] ∧ at_pc b = Idle).
Proof. intros Hn. apply mutual_exclusion. change limit with 8196. lia. Qed.

Ltac breaking_step i := eapply rtc_l; [eapply (step_backend _ _ _ i); [reflexivity|]|].

(** Without that condition a reader is let in while a writer holds the lock: the
    writer declares the lock as well and releases it. *)
Example declared_release_breaks_exclusion : ∃ w, rtc step (initial 2)
  (mk_config w [mk_backend [RW_EXCLUSIVE] Idle; mk_backend [RW_SHARED] Idle]).
Proof.
  eexists. unfold initial. simpl.
  breaking_step 0%nat; [by apply (step_acquire _ _ RW_EXCLUSIVE); [|unfold MAX_SIMUL_RWLOCKS; simpl; lia]|].
  breaking_step 0%nat; [apply step_read|].
  breaking_step 0%nat; [by apply step_cas_lock|].
  breaking_step 0%nat; [apply step_declare; unfold MAX_SIMUL_RWLOCKS; simpl; lia|].
  breaking_step 0%nat; [apply (step_release _ [RW_EXCLUSIVE] RW_DECLARE)|].
  breaking_step 0%nat; [apply step_unreference|].
  breaking_step 1%nat; [by apply (step_acquire _ _ RW_SHARED); [|unfold MAX_SIMUL_RWLOCKS; simpl; lia]|].
  breaking_step 1%nat; [apply step_read|].
  breaking_step 1%nat; [by apply step_cas_lock; vm_compute|].
  apply rtc_refl.
Qed.

(** Two backends that race for the lock: one gets it exclusively, the other
    has set the waiting-writer flag and spins. *)
Definition race : config :=
  mk_config (enc 0 1 2 1)
    [mk_backend [RW_EXCLUSIVE] Idle; mk_backend [] (Attempting RW_EXCLUSIVE)].

Ltac take_step i tac := eapply rtc_l; [eapply (careful_backend _ _ _ i); [reflexivity|tac|intros (Hidle & Hrel & ?); discriminate]|].

Lemma race_reachable : reachable 2 race.
Proof.
  unfold reachable, initial, race; simpl.
  take_step 0%nat ltac:(by apply (step_acquire _ _ RW_EXCLUSIVE); [|unfold MAX_SIMUL_RWLOCKS; simpl; lia]).
  take_step 0%nat ltac:(apply step_read).
  take_step 0%nat ltac:(by apply step_cas_lock).
  take_step 1%nat ltac:(by apply (step_acquire _ _ RW_EXCLUSIVE); [|unfold MAX_SIMUL_RWLOCKS; simpl; lia]).
  take_step 1%nat ltac:(apply step_read).
  take_step 1%nat ltac:(by apply step_cas_busy).
  apply rtc_refl.
Qed.

(** ... and the same once the first has started to release. *)
Definition handover : config :=
  mk_config (enc 0 0 2 1) [mk_backend [] Unreferencing; mk_backend [] (Attempting RW_EXCLUSIVE)].

Lemma handover_reachable : reachable 2 handover.
Proof.
  eapply rtc_r; [apply race_reachable|].
  apply (careful_backend (enc 0 1 2 1) (enc 0 0 2 1)
    [mk_backend [RW_EXCLUSIVE] Idle; mk_backend [] (Attempting RW_EXCLUSIVE)]
    0 (mk_backend [RW_EXCLUSIVE] Idle) (mk_backend [] Unreferencing)).
  - reflexivity.
  - exact (step_release (enc 0 1 2 1) [] RW_EXCLUSIVE).
  - intros (_ & _ & hs & Hhs). destruct hs as [|? []]; discriminate Hhs.
Qed.
End Interleaving.

(** ** The locks as one backend sees them

    While a backend runs, a word is what the others contribute plus what its
    own handles do. *)
Section backend_view.
Import Interleaving.
Context {A : Type} `{Countable A}.
Implicit Types (k lock : A) (s : RWLocks A) (held : list (A * RWLockMode)).

Definition handles_of k held : list RWLockMode := (filter (λ h, h.1 = k) held).*2.

Definition lock_ok k held (w : Z) : Prop :=
  ∃ sh ex rf wf, 0 ≤ sh ≤ rf ∧ 0 ≤ ex ∧ rf + limit < 2 ^ 24 ∧ 0 ≤ wf ≤ 1 ∧
    ex + count RW_EXCLUSIVE (handles_of k held) ≤ 1 ∧
    w = enc (sh + count RW_SHARED (handles_of k held)) (ex + count RW_EXCLUSIVE (handles_of k held))
          (rf + Z.of_nat (length (handles_of k held))) wf.

Record lock_inv s : Prop := {
  held_bounded : (length (held_rwlocks s) ≤ MAX_SIMUL_RWLOCKS)%nat;
  held_words h : h ∈ held_rwlocks s → is_Some (lock_words s !! h.1);
  words_ok k w : lock_words s !! k = Some w → lock_ok k (held_rwlocks s) w }.

Lemma handles_of_app k held held' : handles_of k (held ++ held') = handles_of k held ++ handles_of k held'.
Proof. unfold handles_of. by rewrite filter_app, fmap_app. Qed.

Lemma handles_of_snoc_eq k held m : handles_of k (held ++ [(k, m)]) = handles_of k held ++ [m].
Proof. rewrite handles_of_app. unfold handles_of. by rewrite filter_cons_True. Qed.

Lemma handles_of_snoc_ne k k' held m : k ≠ k' → handles_of k (held ++ [(k', m)]) = handles_of k held.
Proof.
  intros Hne. rewrite handles_of_app. unfold handles_of at 2.
  rewrite filter_cons_False by (simpl; congruence). apply app_nil_r.
Qed.

Lemma handles_of_length k held : (length (handles_of k held) ≤ length held)%nat.
Proof. unfold handles_of. rewrite length_fmap. apply length_filter. Qed.

Lemma handles_of_elem k m held : (k, m) ∈ held → m ∈ handles_of k held.
Proof.
  intros Hin. unfold handles_of. apply list_elem_of_fmap. exists (k, m). split; [done|].
  by apply list_elem_of_filter.
Qed.

(** A word of an uninvolved lock stays right. *)
Lemma lock_ok_snoc_ne k k' held m w : k ≠ k' → lock_ok k held w → lock_ok k (held ++ [(k', m)]) w.
Proof. intros Hne. unfold lock_ok. by rewrite handles_of_snoc_ne. Qed.

Lemma lock_ok_fresh k held : handles_of k held = [] → lock_ok k held 0.
Proof. intros Hh. exists 0, 0, 0, 0. rewrite Hh. change limit with 8196. unfold enc, count; simpl. lia. Qed.

(** Taking a reference. *)
Lemma lock_ok_declare k held w :
  lock_ok k held w → (length held < MAX_SIMUL_RWLOCKS)%nat →
  lock_ok k (held ++ [(k, RW_DECLARE)]) (u64 (w + RW_VAL_REF_COUNT)).
Proof.
  intros (sh & ex & rf & wf & ? & ? & ? & ? & ? & ->) Hl.
  pose proof (handles_of_length k held). pose proof (count_le RW_SHARED (handles_of k held)).
  pose proof (count_nonneg RW_SHARED (handles_of k held)).
  pose proof (count_nonneg RW_EXCLUSIVE (handles_of k held)).
  exists sh, ex, rf, wf. rewrite handles_of_snoc_eq, !count_snoc, length_app; simpl.
  change RW_VAL_REF_COUNT with (2 ^ 25). unfold limit in *.
  split_and!; try lia. rewrite u64_small by (unfold enc; lia). unfold enc. lia.
Qed.

(** Whether an attempt succeeds depends on the lock bits, not on references. *)
Lemma attempt_ref mode sh ex rf rf' wf :
  enc_ok sh ex rf wf → enc_ok sh ex rf' wf → sh + 1 < 2 ^ 24 → mode ≠ RW_DECLARE →
  (attempt_word mode (enc sh ex rf wf)).2 = (attempt_word mode (enc sh ex rf' wf)).2.
Proof.
  intros H1 H2 Hlt Hm. destruct mode; [rewrite !attempt_exclusive by done|rewrite !attempt_shared by done|done];
    by destruct (decide _).
Qed.

(** A successful attempt, after its reference was taken, turns into a handle. *)
Lemma lock_ok_attempt k held w mode :
  lock_ok k held w → (length held < MAX_SIMUL_RWLOCKS)%nat → mode ≠ RW_DECLARE →
  (attempt_word mode (u64 (w + RW_VAL_REF_COUNT))).2 = (attempt_word mode w).2 ∧
  ((attempt_word mode w).2 = true →
    lock_ok k (held ++ [(k, mode)]) (attempt_word mode (u64 (w + RW_VAL_REF_COUNT))).1).
Proof.
  intros (sh & ex & rf & wf & ? & ? & ? & ? & ? & ->) Hl Hm.
  pose proof (handles_of_length k held). pose proof (count_le RW_SHARED (handles_of k held)).
  pose proof (count_nonneg RW_SHARED (handles_of k held)).
  pose proof (count_nonneg RW_EXCLUSIVE (handles_of k held)).
  set (own_sh := count RW_SHARED (handles_of k held)) in *.
  set (own_ex := count RW_EXCLUSIVE (handles_of k held)) in *.
  change RW_VAL_REF_COUNT with (2 ^ 25). unfold limit, lock_ok in *.
  rewrite u64_small by (unfold enc; lia).
  replace (enc _ _ _ wf + 2 ^ 25) with
    (enc (sh + own_sh) (ex + own_ex) (rf + Z.of_nat (length (handles_of k held)) + 1) wf)
    by (unfold enc; lia).
  split; [apply attempt_ref; unfold enc_ok; (lia || done)|].
  intros Hs. rewrite handles_of_snoc_eq, !count_snoc, length_app; simpl. unfold limit.
  fold own_sh own_ex. destruct mode; [| |done].
  - rewrite attempt_exclusive in Hs by (unfold enc_ok; lia).
    rewrite attempt_exclusive by (unfold enc_ok; lia).
    destruct (decide _); [|done]. exists sh, ex, rf, 0. simpl. split_and!; try lia. f_equal; lia.
  - rewrite attempt_shared in Hs by (unfold enc_ok; lia).
    rewrite attempt_shared by (unfold enc_ok; lia).
    destruct (decide _); [|done]. exists sh, ex, rf, wf. simpl. split_and!; try lia. f_equal; lia.
Qed.

(** Dropping a declared reference from the middle of the array. *)
Lemma lock_ok_undeclare k held held' w :
  lock_ok k (held ++ (k, RW_DECLARE) :: held') w → (length (held ++ (k, RW_DECLARE) :: held') ≤ MAX_SIMUL_RWLOCKS)%nat →
  lock_ok k (held ++ held') (u64 (w - RW_VAL_REF_COUNT)).
Proof.
  unfold lock_ok. rewrite !handles_of_app.
  assert (handles_of k ((k, RW_DECLARE) :: held') = RW_DECLARE :: handles_of k held') as ->
    by (unfold handles_of; by rewrite filter_cons_True).
  intros (sh & ex & rf & wf & ? & ? & ? & ? & Hx & ->) Hl.
  pose proof (handles_of_length k held). pose proof (handles_of_length k held').
  pose proof (count_le RW_SHARED (handles_of k held ++ handles_of k held')) as Hc.
  pose proof (count_nonneg RW_SHARED (handles_of k held ++ handles_of k held')).
  pose proof (count_nonneg RW_EXCLUSIVE (handles_of k held ++ handles_of k held')).
  assert (∀ m, m ≠ RW_DECLARE → count m (handles_of k held ++ RW_DECLARE :: handles_of k held')
    = count m (handles_of k held ++ handles_of k held')) as Hcount.
  { intros m Hm. unfold count. by rewrite !filter_app, filter_cons_False. }
  rewrite !Hcount in * by done. rewrite !length_app in *. simpl in *.
  change RW_VAL_REF_COUNT with (2 ^ 25). unfold limit in *.
  exists sh, ex, rf, wf. split_and!; try lia.
  rewrite u64_small by (unfold enc; lia). unfold enc. lia.
Qed.

(** A lock in use cannot be destroyed. *)
Lemma lock_ok_destroyable k held w m :
  lock_ok k held w → (length held ≤ MAX_SIMUL_RWLOCKS)%nat → (k, m) ∈ held →
  Z.land w RW_REF_COUNT_MASK ≠ 0.
Proof.
  intros (sh & ex & rf & wf & ? & ? & ? & ? & ? & ->) Hl Hin.
  pose proof (handles_of_length k held). pose proof (count_le RW_SHARED (handles_of k held)).
  pose proof (count_nonneg RW_SHARED (handles_of k held)).
  pose proof (count_nonneg RW_EXCLUSIVE (handles_of k held)).
  unfold limit in *. rewrite enc_destroyable by (unfold enc_ok; lia).
  apply handles_of_elem in Hin. destruct (handles_of k held); [by apply not_elem_of_nil in Hin|].
  simpl. lia.
Qed.
(** The functions on a state whose lock is there. *)
Lemma declare_eq k s w :
  lock_words s !! k = Some w → (length (held_rwlocks s) < MAX_SIMUL_RWLOCKS)%nat →
  RWLockDeclare k s =
    Ret () (mkRWLocks (<[k := u64 (w + RW_VAL_REF_COUNT)]> (lock_words s))
              (held_rwlocks s ++ [(k, RW_DECLARE)]) (Z.succ (InterruptHoldoffCount s))).
Proof.
  intros Hw Hl. unfold RWLockDeclare. mstep. rewrite decide_False by lia.
  unfold HOLD_INTERRUPTS, atomic_fetch_add, write_word, push_handle. mstep.
  erewrite bind_ret; [|unfold read_word; simpl; by rewrite Hw]. by mstep.
Qed.

Lemma acquire_eq k mode s w :
  mode ≠ RW_DECLARE →
  lock_words s !! k = Some w → (length (held_rwlocks s) < MAX_SIMUL_RWLOCKS)%nat →
  RWLockAcquire k mode s =
    if (attempt_word mode (u64 (w + RW_VAL_REF_COUNT))).2 then
      Ret () (mkRWLocks (<[k := (attempt_word mode (u64 (w + RW_VAL_REF_COUNT))).1]> (lock_words s))
                (held_rwlocks s ++ [(k, mode)]) (Z.succ (InterruptHoldoffCount s)))
    else Diverge.
Proof.
  intros Hm Hw Hl. unfold RWLockAcquire. mstep. rewrite decide_False by done. rewrite decide_False by lia.
  unfold HOLD_INTERRUPTS, atomic_fetch_add, write_word, push_handle. mstep.
  erewrite bind_ret; [|unfold read_word; simpl; by rewrite Hw]. mstep.
  cbn [acquire_spin]. unfold mbind, M_bind. rewrite attempt_lock_eq. simpl.
  rewrite lookup_insert_eq. destruct ((attempt_word mode _).2); [|done].
  unfold mret, M_ret, mmodify. f_equal. unfold set_field; simpl. by rewrite insert_insert_eq.
Qed.

Lemma undeclare_eq k mode l s w :
  mode ≠ RW_DECLARE → held_rwlocks s = l ++ [(k, RW_DECLARE); (k, mode)] →
  lock_words s !! k = Some w →
  RWLockUndeclare k s =
    Ret () (mkRWLocks (<[k := u64 (w - RW_VAL_REF_COUNT)]> (lock_words s)) (l ++ [(k, mode)])
              (Z.pred (InterruptHoldoffCount s))).
Proof.
  intros Hm Hh Hw. unfold RWLockUndeclare. mstep. rewrite Hh.
  assert (rfind_index (λ h, bool_decide (h = (k, RW_DECLARE))) (l ++ [(k, RW_DECLARE); (k, mode)])
    = Some (length l)) as ->.
  { clear Hh. induction l as [|x l IH]; simpl; [|by rewrite IH].
    rewrite bool_decide_false by congruence. by rewrite bool_decide_true. }
  mstep. unfold atomic_fetch_sub, write_word, RESUME_INTERRUPTS. mstep.
  erewrite bind_ret; [|unfold read_word; simpl; by rewrite Hw]. mstep.
  unfold mmodify. f_equal. unfold set_field; simpl. f_equal. rewrite Hh. unfold remove_at.
  rewrite take_app_length, drop_app_ge by lia.
  by replace (S (length l) - length l)%nat with 1%nat by lia.
Qed.

Lemma lock_inv_set k held w s cnt :
  lock_inv s → lock_ok k held w → (length held ≤ MAX_SIMUL_RWLOCKS)%nat →
  (∀ h, h ∈ held → h.1 = k ∨ h ∈ held_rwlocks s) →
  (∀ k', k' ≠ k → handles_of k' held = handles_of k' (held_rwlocks s)) →
  lock_inv (mkRWLocks (<[k := w]> (lock_words s)) held cnt).
Proof.
  intros [Hb Hh Hok] Hw Hl Hin Hother. split; simpl; [done| |].
  - intros h Hhh. destruct (decide (h.1 = k)) as [->|]; [rewrite lookup_insert_eq; eauto|].
    rewrite lookup_insert_ne by done. destruct (Hin h Hhh); [done|auto].
  - intros k' w'. destruct (decide (k = k')) as [->|Hne].
    + rewrite lookup_insert_eq. by intros [= <-].
    + rewrite lookup_insert_ne by done. intros Hw'. unfold lock_ok. rewrite Hother by done.
      by apply Hok.
Qed.

(** The protocol of the directory hash table: declare, acquire, undeclare.
    It spins exactly when the lock is not free for the mode, and fails only
    when the backend has used up its handles. *)
Definition lock_protocol k mode : M (RWLocks A) () :=
  RWLockDeclare k ;; RWLockAcquire k mode ;; RWLockUndeclare k.

Lemma lock_protocol_spec k mode s w :
  lock_inv s → lock_words s !! k = Some w → mode ≠ RW_DECLARE →
  outcome_ok (lock_protocol k mode s)
    (λ _ s', lock_inv s' ∧ held_rwlocks s' = held_rwlocks s ++ [(k, mode)] ∧
      ∃ w', lock_words s' = <[k := w']> (lock_words s))
    (λ e s', e = Cuckoo PROGRAM_ERROR ∧ lock_inv s' ∧ dom (lock_words s') = dom (lock_words s) ∧
      (MAX_SIMUL_RWLOCKS ≤ S (length (held_rwlocks s)))%nat)
    ((attempt_word mode w).2 = false).
Proof.
  intros Hinv Hw Hm. pose proof (words_ok s Hinv k w Hw) as Hok.
  destruct s as [words held cnt]; simpl in *. unfold lock_protocol.
  destruct (decide (MAX_SIMUL_RWLOCKS ≤ length held)%nat) as [Hfull|Hroom].
  { unfold RWLockDeclare. mstep. rewrite decide_True by done. mstep.
    split_and!; [done|done|done|lia]. }
  erewrite bind_ret by (eapply declare_eq; [exact Hw|simpl; lia]). simpl.
  pose proof (lock_ok_declare k held w Hok ltac:(lia)) as Hok1.
  set (w1 := u64 (w + RW_VAL_REF_COUNT)) in *.
  assert (lock_inv (mkRWLocks (<[k:=w1]> words) (held ++ [(k, RW_DECLARE)]) (Z.succ cnt))) as Hinv1.
  { apply (lock_inv_set k _ _ (mkRWLocks words held cnt)); simpl; try done.
    - rewrite length_app; simpl; lia.
    - intros h [?|?%list_elem_of_singleton]%elem_of_app; subst; auto.
    - intros k' Hne. by apply handles_of_snoc_ne. }
  destruct (decide (MAX_SIMUL_RWLOCKS ≤ S (length held))%nat) as [Hfull|Hroom2].
  { unfold RWLockAcquire. mstep. rewrite decide_False by done.
    rewrite decide_True by (simpl; rewrite length_app; simpl; lia). mstep.
    split_and!; [done|done| |done]. simpl. apply dom_insert_lookup_L; eauto. }
  unfold mbind, M_bind.
  rewrite (acquire_eq _ _ _ w1) by (simpl; rewrite ?lookup_insert_eq, ?length_app; simpl; lia || done).
  destruct (lock_ok_attempt k (held ++ [(k, RW_DECLARE)]) w1 mode Hok1) as [Ha Hsucc];
    [rewrite length_app; simpl; lia|done|]. rewrite Ha.
  destruct (lock_ok_attempt k held w mode Hok ltac:(lia) Hm) as [Ha' _]. fold w1 in Ha'. rewrite Ha' in *.
  destruct ((attempt_word mode w).2) eqn:Hfree; simpl; [|done]. specialize (Hsucc eq_refl).
  set (w2 := (attempt_word mode (u64 (w1 + RW_VAL_REF_COUNT))).1) in *.
  rewrite (undeclare_eq k mode held _ w2); simpl; [|done|by rewrite <-app_assoc|by rewrite lookup_insert_eq].
  rewrite !insert_insert_eq. split_and!; [|done|eauto].
  apply (lock_inv_set k _ _ (mkRWLocks words held cnt)); simpl; try done.
  - apply (lock_ok_undeclare k held [(k, mode)]); [by rewrite <-app_assoc in Hsucc|].
    rewrite length_app; simpl; lia.
  - rewrite length_app; simpl; lia.
  - intros h [?|?%list_elem_of_singleton]%elem_of_app; subst; auto.
  - intros k' Hne. by apply handles_of_snoc_ne.
Qed.
End backend_view.

(** ** Concrete runs *)
Module RWLockWitness.
Import Interleaving.

Lemma two_backends_small : Z.of_nat 2 * limit < 2 ^ 24.
Proof. done. Qed.

Lemma rwlock_mutual_exclusion_witness :
  (RW_SHARED ∉ ([] : list RWLockMode)) ∧ Z.land (word race) RW_REF_COUNT_MASK ≠ 0.
Proof.
  destruct (rwlock_mutual_exclusion 2 race 0 1
    (mk_backend [RW_EXCLUSIVE] Idle) (mk_backend [] (Attempting RW_EXCLUSIVE))
    ltac:(lia) race_reachable eq_refl eq_refl) as (H1 & _ & H3).
  split.
  - by destruct H1; [left|lia|].
  - intros Hz. destruct (proj1 H3 Hz 0%nat _ eq_refl). discriminate.
Defined.

Lemma rwlock_progress_witness :
  ∃ j bj mj, backends handover !! j = Some bj ∧
    (at_pc bj = Attempting mj ∨ (∃ old, at_pc bj = Comparing mj old)) ∧
    (attempt_word mj (word handover)).2 = true.
Proof.
  apply (rwlock_progress 2 two_backends_small handover 1
    (mk_backend [] (Attempting RW_EXCLUSIVE)) RW_EXCLUSIVE);
    [apply handover_reachable|reflexivity|by left|reflexivity|reflexivity].
Defined.

(** A backend that has read-locked lock 1, write-locked lock 2 and declared
    lock 1 a second time. *)
Definition three_handles : RWLocks Z :=
  mkRWLocks {[ 1 := enc 1 0 2 0; 2 := enc 0 1 1 0 ]}
    [(1, RW_SHARED); (2, RW_EXCLUSIVE); (1, RW_DECLARE)] 3.

Lemma RWLockReleaseAll_releases_witness :
  RWLockReleaseAll false three_handles = Ret () (mkRWLocks {[ 1 := 0; 2 := 0 ]} [] 0).
Proof.
  rewrite RWLockReleaseAll_releases.
  - vm_compute. reflexivity.
  - intros h Hh. repeat (apply elem_of_cons in Hh as [->|Hh]; [vm_compute; eauto|]).
    by apply not_elem_of_nil in Hh.
  - intros lock w. unfold three_handles. cbn [lock_words]. rewrite lookup_insert.
    destruct (decide (1 = lock)); [intros [= <-]; by vm_compute|].
    intros [_ <-]%lookup_singleton_Some. by vm_compute.
Defined.

(** RWLockRelease looks for the last handle of the lock in any mode: after
    an exclusive acquire and a later declare, releasing drops the declaration
    and takes a shared count the backend never had, which borrows from the
    exclusive bit, so that a reader is let in while the writer holds the lock. *)
Definition write_then_declare : RWLocks Z :=
  mkRWLocks {[ 1 := enc 0 1 2 0 ]} [(1, RW_EXCLUSIVE); (1, RW_DECLARE)] 2.

Lemma release_of_declared_handle :
  RWLockRelease 1 write_then_declare =
    Ret () (mkRWLocks {[ 1 := enc (2 ^ 24 - 1) 0 1 0 ]} [(1, RW_EXCLUSIVE)] 1).
Proof. by vm_compute. Qed.
End RWLockWitness.
