(* ===== verification/DirHash.v ===== *)
(** * The directory relation and its shared cache

    metadb/directory_table.c stores one row per directory, from (parent id,
    name) to the directory's inode id.  dir_path_shmem/dir_path_hash.c keeps a
    shared hash table in front of it, whose items also carry the lock of the
    (parent id, name) pair, directory or not.  A transaction never publishes
    its own changes in the table: it records commit actions, and
    CommitForDirPathHash applies them. *)

From S2P Require Import Prelude Pg RWLock.

(** ** Data *)

Record FormData_cuckoo_directory_table := mkDirRow {
  dt_parentId : Z; dt_name : string; dt_inodeId : Z }.

Definition dir_key (r : FormData_cuckoo_directory_table) : Z * string := (dt_parentId r, dt_name r).

Record DirPathHashKey := mkKey { fileName : string; parentId : Z }.

#[global] Instance DirPathHashKey_eq_dec : EqDecision DirPathHashKey.
Proof. solve_decision. Defined.
#[global] Instance DirPathHashKey_countable : Countable DirPathHashKey :=
  inj_countable' (λ k, (fileName k, parentId k)) (λ p, mkKey p.1 p.2) ltac:(by intros []).

(** An entry of the hash table; its lock is the word at address [key]. *)
Record DirPathHashItem := mkItem { inodeId : Z; usageCount : Z }.
#[global] Instance eta_DirPathHashItem : Eta DirPathHashItem :=
  λ i, mkItem (inodeId i) (usageCount i).

Inductive DirPathLockMode := DIR_LOCK_EXCLUSIVE | DIR_LOCK_SHARED | DIR_LOCK_NONE.
#[global] Instance DirPathLockMode_eq_dec : EqDecision DirPathLockMode.
Proof. solve_decision. Defined.

Definition MAX_DIRECTORY_PATH_HASH_SIZE : nat := 256.
Definition MAX_DIRECTORY_HASH_TO_COMMIT_ACTION_LENGTH : nat := Z.to_nat 4096.
Definition DIR_HASH_TABLE_PATH_NOT_EXIST : Z := u64 (-1).
Definition DIR_HASH_TABLE_PATH_UNKNOWN : Z := u64 (-2).
Definition DIR_PATH_HASH_PARTITION_SIZE : Z := 128.
Definition MAX_DIRECTORY_PATH_HASH_CAPACITY : Z := 2048.
Definition MAX_BUCKET_SUM_LRU_CLAER_BEGIN : Z := MAX_DIRECTORY_PATH_HASH_CAPACITY `div` 4 * 3.

(** The action characters 'A' and 'U' with their item. *)
Inductive DirPathHashToCommitAction :=
  | ActionAdd (key : DirPathHashKey)
  | ActionUpdate (key : DirPathHashKey) (inodeId : Z).

(** What the code relies on of dynahash.c and the C library. *)
Class DirHashEnv `{!PgEnv} := {
  (** the values of successive rand() calls *)
  rand : Z → Z;
  (** hash_seq_search started at a given bucket *)
  seq_from {A : Type} : Z → list A → list A;
  seq_from_suffix {A : Type} b (l : list A) : seq_from b l `suffix_of` hash_seq_order l;
  (** how many entries the memory of a partition allows: at least those it
      was created for *)
  partition_capacity : Z;
  partition_capacity_range :
    MAX_DIRECTORY_PATH_HASH_CAPACITY `div` DIR_PATH_HASH_PARTITION_SIZE ≤ partition_capacity < 2 ^ 32;
  (** lock word and item found in the memory of a recycled element *)
  stale_item : DirPathHashKey → Z * DirPathHashItem;
  stale_item_int32 k : - 2 ^ 31 ≤ usageCount (stale_item k).2 < 2 ^ 31;
}.

Section dir_hash.
Context `{!PgEnv, !Collation, !DirHashEnv, !PgRelation dir_key id_text_le}.

Record DirState := mkDirState {
  directory_rel : rel dir_key id_text_le;
  PathDirHash : gmap DirPathHashKey DirPathHashItem;
  PathDirHashEntryCount : gmap Z Z;
  dir_locks : RWLocks DirPathHashKey;
  DirPathHashToCommit : list DirPathHashToCommitAction;
  DirectoryHashTableLastAcquiredLock : option DirPathHashKey;
  rand_calls : Z }.

#[global] Instance eta_DirState : Eta DirState := λ s,
  mkDirState (directory_rel s) (PathDirHash s) (PathDirHashEntryCount s) (dir_locks s)
    (DirPathHashToCommit s) (DirectoryHashTableLastAcquiredLock s) (rand_calls s).

Abbreviation D := (M DirState).

Definition on_locks {A} (m : M (RWLocks DirPathHashKey) A) : D A :=
  mzoom dir_locks (λ l s, s <| dir_locks := l |>) m.

(** ** metadb/directory_table.c *)

Definition SearchDirectoryTableInfo (parentId : Z) (name : string) : D Z :=
  s ← mget;
  match scan_eq (directory_rel s) (parentId, name) with
  | None => mret (u64 (-1))
  | Some row => mret (dt_inodeId row)
  end.

Definition InsertIntoDirectoryTable (parentId : Z) (name : string) (inodeId : Z) : D () :=
  s ← mget;
  match CatalogTupleInsert (directory_rel s) (mkDirRow parentId name inodeId) with
  | None => mpgerror UniqueViolation
  | Some t => mput (s <| directory_rel := t |>)
  end.

Definition DeleteFromDirectoryTable (parentId : Z) (name : string) : D () :=
  s ← mget;
  match scan_eq (directory_rel s) (parentId, name) with
  | None => melog ARGUMENT_ERROR
  | Some row =>
      match CatalogTupleDelete (directory_rel s) (dir_key row) with
      | None => mpgerror TupleAlreadyModified
      | Some t => mput (s <| directory_rel := t |>)
      end
  end.

(** ** dir_path_shmem/dir_path_hash.c *)

(** strcpy into the fixed-size name buffer of a key. *)
Definition make_key (parentId : Z) (name : string) : D DirPathHashKey :=
  if decide (String.length name < MAX_DIRECTORY_PATH_HASH_SIZE)%nat then mret (mkKey name parentId)
  else mundefined.

Definition dir_path_hash (key : DirPathHashKey) : Z :=
  u32 (hash_any_extended (fileName key) (parentId key)).

Definition DIR_PATH_HASH_PARTITION_INDEX (hashcode : Z) : Z := hashcode mod DIR_PATH_HASH_PARTITION_SIZE.

Definition partition_of (key : DirPathHashKey) : Z := DIR_PATH_HASH_PARTITION_INDEX (dir_path_hash key).

(** The entries of one partition, PathDirHash[partitionIndex]. *)
Definition partition (partitionIndex : Z) (s : DirState) : gmap DirPathHashKey DirPathHashItem :=
  filter (λ ki, partition_of ki.1 = partitionIndex) (PathDirHash s).

Definition entry_count (s : DirState) (partitionIndex : Z) : Z :=
  default 0 (PathDirHashEntryCount s !! partitionIndex).

Definition count_add (partitionIndex d : Z) : D () :=
  mmodify (λ s, s <| PathDirHashEntryCount ::=
    <[partitionIndex := u32 (entry_count s partitionIndex + d)]> |>).

Definition set_item (key : DirPathHashKey) (i : DirPathHashItem) : D () :=
  mmodify (λ s, s <| PathDirHash ::= <[key := i]> |>).

Definition to_commit (a : DirPathHashToCommitAction) : D () :=
  s ← mget;
  if decide (MAX_DIRECTORY_HASH_TO_COMMIT_ACTION_LENGTH ≤ length (DirPathHashToCommit s))%nat
  then melog PROGRAM_ERROR
  else mput (s <| DirPathHashToCommit ::= λ l, l ++ [a] |>).

Definition DirPathHashToCommitAddEntry (parentId : Z) (fileName : string) : D () :=
  to_commit (ActionAdd (mkKey fileName parentId)).

Definition DirPathHashToCommitUpdateEntry (parentId : Z) (fileName : string) (inodeId : Z) : D () :=
  to_commit (ActionUpdate (mkKey fileName parentId) inodeId).

Definition DirPathHashToCommitClear : D () := mmodify (λ s, s <| DirPathHashToCommit := [] |>).

(** Whether HASH_ENTER_NULL finds a free element in the partition whose
    entries are given. *)
Definition has_space (m : gmap DirPathHashKey DirPathHashItem) : bool :=
  bool_decide (Z.of_nat (size m) < partition_capacity).

(** hash_search_with_hash_value with HASH_ENTER_NULL: *isfound and the item;
    a new element has its key set and whatever its memory held before. *)
Definition hash_enter_null (key : DirPathHashKey) : D (bool * option DirPathHashItem) :=
  s ← mget;
  match PathDirHash s !! key with
  | Some i => mret (true, Some i)
  | None =>
      if has_space (partition (partition_of key) s) then
        let '(word, i) := stale_item key in
        set_item key i ;;
        on_locks (write_word key word) ;;
        mret (false, Some i)
      else mret (false, None)
  end.

(** Removal from the table; the element's memory goes back to the free list. *)
Definition hash_remove (key : DirPathHashKey) : D () :=
  mmodify (λ s, s <| PathDirHash ::= delete key |>
                  <| dir_locks ::= λ l, l <| lock_words ::= delete key |> |>).

(** The entry the scan stops at, if any, and how many destroyable entries it
    has met on the way. *)
Fixpoint FindNextItem (status : list DirPathHashKey) (destroyableCnt : Z)
    : D (option DirPathHashKey * Z) :=
  match status with
  | [] => mret (None, destroyableCnt)
  | entry :: status' =>
      s ← mget;
      match PathDirHash s !! entry with
      | None => mundefined
      | Some i =>
          destroyable ← on_locks (RWLockCheckDestroyable entry);
          if negb destroyable then FindNextItem status' destroyableCnt
          else
            let i' := i <| usageCount ::= λ u, i32 (u - 1) |> in
            set_item entry i' ;;
            if decide (usageCount i' ≤ 0) then mret (Some entry, destroyableCnt + 1)
            else FindNextItem status' (destroyableCnt + 1)
      end
  end.

(** The keys of a partition in the order of hash_seq_search. *)
Definition seq_keys (partitionIndex : Z) (s : DirState) : list DirPathHashKey :=
  hash_seq_order ((map_to_list (partition partitionIndex s)).*1).

(** while (entry == NULL): full scans until one finds a victim or meets no
    destroyable entry. *)
Fixpoint eliminate_scan (fuel : nat) (partitionIndex : Z) : D (option DirPathHashKey) :=
  match fuel with
  | O => mdiverge
  | S fuel' =>
      s ← mget;
      r ← FindNextItem (seq_keys partitionIndex s) 0;
      if decide (r.2 = 0) then mret r.1
      else match r.1 with
           | Some entry => mret (Some entry)
           | None => eliminate_scan fuel' partitionIndex
           end
  end.

(** How many scans it takes to bring an int usage count down to zero. *)
Definition scans_left (u : Z) : nat :=
  Z.to_nat (if decide (u = - 2 ^ 31) then 2 ^ 31 else Z.max 1 u).

Definition scan_fuel (s : DirState) : nat :=
  S (max_list ((λ i, scans_left (usageCount i)) <$> (map_to_list (PathDirHash s)).*2)).

(** The section of one iteration under the shared partition lock: from a
    random bucket on, then full scans, until a victim is found. *)
Definition eliminate_pick (partitionIndex : Z) : D (option DirPathHashKey) :=
  s ← mget;
  mput (s <| rand_calls ::= Z.succ |>) ;;
  r ← FindNextItem (seq_from (rand (rand_calls s)) ((map_to_list (partition partitionIndex s)).*1)) 0;
  match r.1 with
  | Some entry => mret (Some entry)
  | None => s ← mget; eliminate_scan (scan_fuel s) partitionIndex
  end.

(** The section under the exclusive partition lock: the victim is looked up
    again and removed if no backend refers to it. *)
Definition eliminate_remove (target : DirPathHashKey) : D bool :=
  s ← mget;
  match PathDirHash s !! target with
  | None => mret false
  | Some _ =>
      destroyable ← on_locks (RWLockCheckDestroyable target);
      if destroyable : bool then hash_remove target ;; mret true else mret false
  end.

(** for (;;): between the two sections the partition lock is free, and what
    the other backends do to the shared state there in the successive
    iterations is [others]; when the list is used up nobody comes in between
    any more.  [continue] goes round again. *)
Fixpoint eliminate_loop (others : list (DirState → DirState)) (partitionIndex : Z) : D bool :=
  entry ← eliminate_pick partitionIndex;
  match entry with
  | None => mret false
  | Some target =>
      mmodify (default id (head others)) ;;
      found ← eliminate_remove target;
      if found : bool then count_add partitionIndex (-1) ;; mret true
      else match others with
           | [] => mdiverge
           | _ :: others' => eliminate_loop others' partitionIndex
           end
  end.

Definition EliminateAmong (others : list (DirState → DirState)) (partitionIndex : Z) : D bool :=
  s ← mget;
  if decide (entry_count s partitionIndex ≤
             MAX_BUCKET_SUM_LRU_CLAER_BEGIN `div` DIR_PATH_HASH_PARTITION_SIZE)
  then mret false
  else eliminate_loop others partitionIndex.

(** The call as the operations of this backend below make it, with no other
    backend in between. *)
Definition EliminateDirPathHashByLRU (partitionIndex : Z) : D bool := EliminateAmong [] partitionIndex.

(** for (;;) around HASH_ENTER_NULL, as in the three operations below:
    [newId] goes into a new item, [on_found] handles an item that appeared
    meanwhile.  [None]: no space, and the caller wants no lock.  After an
    elimination there is space, and when there is nothing to eliminate only
    other backends can make progress, so two iterations. *)
Fixpoint enter_loop (fuel : nat) (key : DirPathHashKey) (lockMode : DirPathLockMode) (newId : Z)
    (on_found : DirPathHashItem → D ()) : D (option DirPathHashItem) :=
  match fuel with
  | O => mdiverge
  | S fuel' =>
      fi ← hash_enter_null key;
      match fi with
      | (false, None) =>
          if decide (lockMode ≠ DIR_LOCK_NONE) then
            EliminateDirPathHashByLRU (partition_of key) ;;
            enter_loop fuel' key lockMode newId on_found
          else mret None
      | (false, Some _) =>
          count_add (partition_of key) 1 ;;
          on_locks (RWLockInitialize key) ;;
          set_item key (mkItem newId 0) ;;
          DirPathHashToCommitAddEntry (parentId key) (fileName key) ;;
          s ← mget; mret (PathDirHash s !! key)
      | (true, Some item) => on_found item ;; s ← mget; mret (PathDirHash s !! key)
      | (true, None) => mundefined
      end
  end.

(** The found branches of the search and the insertion. *)
Definition fill_unknown (key : DirPathHashKey) (newId : Z) (item : DirPathHashItem) : D () :=
  if decide (inodeId item = DIR_HASH_TABLE_PATH_UNKNOWN) then
    set_item key (item <| inodeId := newId |>)
  else if decide (inodeId item ≠ newId) then melog PROGRAM_ERROR
  else mret ().

(** item->usageCount++, then the lock of the item in the given mode, with a
    declaration that keeps the item alive while the partition lock is given
    up and the lock is waited for. *)
Definition use_and_lock (key : DirPathHashKey) (item : DirPathHashItem) (lockMode : DirPathLockMode) : D () :=
  set_item key (item <| usageCount ::= λ u, i32 (u + 1) |>) ;;
  match lockMode with
  | DIR_LOCK_NONE => mret ()
  | _ =>
      on_locks (RWLockDeclare key) ;;
      on_locks (RWLockAcquire key
        (if decide (lockMode = DIR_LOCK_EXCLUSIVE) then RW_EXCLUSIVE else RW_SHARED)) ;;
      on_locks (RWLockUndeclare key) ;;
      mmodify (λ s, s <| DirectoryHashTableLastAcquiredLock := Some key |>)
  end.

Definition InsertDirectoryByDirectoryHashTable (parentId : Z) (name : string) (newId numSubparts : Z)
    (lockMode : DirPathLockMode) : D () :=
  key ← make_key parentId name;
  s ← mget;
  item ← match PathDirHash s !! key with
         | Some item =>
             if decide (inodeId item = DIR_HASH_TABLE_PATH_UNKNOWN) then
               tempId ← SearchDirectoryTableInfo parentId name;
               if decide (tempId ≠ DIR_HASH_TABLE_PATH_NOT_EXIST) then melog ARGUMENT_ERROR
               else enter_loop 2 key lockMode tempId (fill_unknown key tempId)
             else mret (Some item)
         | None =>
             tempId ← SearchDirectoryTableInfo parentId name;
             if decide (tempId ≠ DIR_HASH_TABLE_PATH_NOT_EXIST) then melog ARGUMENT_ERROR
             else enter_loop 2 key lockMode tempId (fill_unknown key tempId)
         end;
  match item with
  | None => InsertIntoDirectoryTable parentId name newId
  | Some item =>
      use_and_lock key item lockMode ;;
      InsertIntoDirectoryTable parentId name newId ;;
      DirPathHashToCommitUpdateEntry parentId name newId
  end.

Definition SearchDirectoryByDirectoryHashTable (parentId : Z) (name : string)
    (lockMode : DirPathLockMode) : D Z :=
  key ← make_key parentId name;
  s ← mget;
  let miss :=
    newId ← SearchDirectoryTableInfo parentId name;
    item ← enter_loop 2 key lockMode newId (fill_unknown key newId);
    mret (item, newId) in
  r ← match PathDirHash s !! key with
      | Some item =>
          if decide (inodeId item = DIR_HASH_TABLE_PATH_UNKNOWN) then miss
          else mret (Some item, inodeId item)
      | None => miss
      end;
  match r.1 with
  | None => mret r.2
  | Some item =>
      use_and_lock key item lockMode ;;
      s ← mget;
      match PathDirHash s !! key with
      | None => mundefined
      | Some item => mret (inodeId item)
      end
  end.

Definition DeleteDirectoryByDirectoryHashTable (parentId : Z) (name : string)
    (lockMode : DirPathLockMode) : D () :=
  if decide (lockMode = DIR_LOCK_SHARED) then melog PROGRAM_ERROR
  else
    key ← make_key parentId name;
    s ← mget;
    item ← match PathDirHash s !! key with
           | Some item => mret (Some item)
           | None => enter_loop 2 key lockMode DIR_HASH_TABLE_PATH_UNKNOWN (λ _, mret ())
           end;
    match item with
    | None => DeleteFromDirectoryTable parentId name
    | Some item =>
        use_and_lock key item lockMode ;;
        DeleteFromDirectoryTable parentId name ;;
        DirPathHashToCommitUpdateEntry parentId name DIR_HASH_TABLE_PATH_NOT_EXIST
    end.

Definition ReleaseDirPathHashLock (parentId : Z) (filename : string) : D () :=
  key ← make_key parentId filename;
  s ← mget;
  match PathDirHash s !! key with
  | None => melog FILE_NOT_EXISTS
  | Some _ => on_locks (RWLockRelease key)
  end.

(** One commit action.  An item that is entered for an update is neither
    given a lock nor a usage count. *)
Definition commit_action (a : DirPathHashToCommitAction) : D () :=
  match a with
  | ActionAdd key => EliminateDirPathHashByLRU (partition_of key) ;; mret ()
  | ActionUpdate key newId =>
      fi ← hash_enter_null key;
      match fi with
      | (_, None) => mret ()
      | (found, Some item) =>
          (if (found : bool) then mret () else count_add (partition_of key) 1) ;;
          set_item key (item <| inodeId := newId |>)
      end
  end.

Definition CommitForDirPathHash : D () :=
  s ← mget;
  mfor (DirPathHashToCommit s) commit_action ;;
  DirPathHashToCommitClear.

Definition AbortForDirPathHash : D () := DirPathHashToCommitClear.

(** hash_clear of every partition; the entry counts are not reset. *)
Definition ClearDirPathHash : D () :=
  mmodify (λ s, s <| PathDirHash := ∅ |> <| dir_locks ::= λ l, l <| lock_words := ∅ |> |>).

(** ** Eviction *)

(** What an item keeps under the replacement policy. *)
Definition same_but_usage (m m' : gmap DirPathHashKey DirPathHashItem) : Prop :=
  ∀ k, inodeId <$> m' !! k = inodeId <$> m !! k.

Definition usage_int32 (m : gmap DirPathHashKey DirPathHashItem) : Prop :=
  ∀ k i, m !! k = Some i → - 2 ^ 31 ≤ usageCount i < 2 ^ 31.

Definition destroyable (s : DirState) (k : DirPathHashKey) : Prop :=
  ∃ w, lock_words (dir_locks s) !! k = Some w ∧ Z.land w RW_REF_COUNT_MASK = 0.

(** The state after some of the cached items have been touched. *)
Record touched (s : DirState) (m : gmap DirPathHashKey DirPathHashItem) (s' : DirState) : Prop := {
  touched_eq : s' = s <| PathDirHash := m |>;
  touched_same : same_but_usage (PathDirHash s) m;
  touched_int32 : usage_int32 m }.

Lemma i32_range z : - 2 ^ 31 ≤ i32 z < 2 ^ 31.
Proof. unfold i32. pose proof (Z.mod_pos_bound (z + 2 ^ 31) (2 ^ 32)). lia. Qed.

Lemma same_but_usage_dom m m' : same_but_usage m m' → dom m' = dom m.
Proof.
  intros Hs. apply set_eq. intros k. rewrite !elem_of_dom. specialize (Hs k).
  rewrite <-(fmap_is_Some inodeId (m !! k)), <-(fmap_is_Some inodeId (m' !! k)). by rewrite Hs.
Qed.

Lemma same_but_usage_insert m k i u :
  m !! k = Some i → same_but_usage m (<[k := i <| usageCount := u |>]> m).
Proof.
  intros Hk k'. destruct (decide (k = k')) as [<-|].
  - by rewrite lookup_insert_eq, Hk.
  - by rewrite lookup_insert_ne.
Qed.

Lemma check_destroyable_eq k s :
  is_Some (lock_words (dir_locks s) !! k) →
  ∃ b : bool, on_locks (RWLockCheckDestroyable k) s = Ret b s ∧ (b = true ↔ destroyable s k).
Proof.
  intros [w Hw]. exists (bool_decide (Z.land w RW_REF_COUNT_MASK = 0)). split.
  - unfold on_locks, mzoom, RWLockCheckDestroyable, mbind, M_bind, read_word. rewrite Hw. simpl.
    by destruct s.
  - rewrite bool_decide_eq_true. unfold destroyable. rewrite Hw.
    split; [eauto|]. by intros (w' & [= <-] & ?).
Qed.

Lemma find_next_spec status cnt s :
  (∀ k, k ∈ status → is_Some (PathDirHash s !! k) ∧ is_Some (lock_words (dir_locks s) !! k)) →
  usage_int32 (PathDirHash s) → NoDup status →
  outcome_ok (FindNextItem status cnt s)
    (λ r s', ∃ m, touched s m s' ∧ cnt ≤ r.2 ∧
      (∀ k, k ∉ status → m !! k = PathDirHash s !! k) ∧
      (cnt < r.2 → ∃ k, k ∈ status ∧ destroyable s k) ∧
      match r.1 with
      | Some k => k ∈ status ∧ destroyable s k ∧ cnt < r.2
      | None => (∀ k, k ∈ status → destroyable s k → cnt < r.2 ∧
                  ∃ i i', PathDirHash s !! k = Some i ∧ m !! k = Some i' ∧
                    usageCount i' = i32 (usageCount i - 1) ∧ 0 < usageCount i')
      end)
    (λ _ _, False) False.
Proof.
  revert cnt s. induction status as [|e status IH]; intros cnt s Hin Hu Hnd; simpl.
  { exists (PathDirHash s). split_and!; try done; try lia.
    - split; [by destruct s|done|done].
    - by intros k Hk%not_elem_of_nil. }
  apply NoDup_cons in Hnd as [Hne Hnd]. mstep.
  destruct (Hin e) as [[i Hi] Hw]; [by left|]. rewrite Hi.
  destruct (check_destroyable_eq e s Hw) as (b & Hb & Hbd).
  erewrite bind_ret by exact Hb. destruct b; simpl.
  2:{ eapply outcome_ok_mono; [apply IH; [intros; apply Hin; by right|done|done]|simpl|done|done].
      intros [[k|] c] s' (m & Ht & Hc & Hrest & Hex & Hr); exists m; simpl in *;
        (split; [done|split; [done|split; [|split]]]).
      1, 4: intros k' Hk'; apply Hrest; intros ?; apply Hk'; by right.
      1, 3: intros Hlt; destruct (Hex Hlt) as (k' & ? & ?); exists k'; split; [by right|done].
      - destruct Hr as (? & ? & ?). split_and!; [by right|done|done].
      - intros k' [->|Hk']%elem_of_cons Hd; [|by apply Hr]. by apply Hbd in Hd. }
  unfold set_item. mstep. set (i' := i <|usageCount ::= _|>).
  assert (same_but_usage (PathDirHash s) (<[e := i']> (PathDirHash s))) as Hsame
    by by apply (same_but_usage_insert _ _ i).
  assert (usage_int32 (<[e := i']> (PathDirHash s))) as Hu'.
  { intros k j. destruct (decide (e = k)) as [->|]; [rewrite lookup_insert_eq; intros [= <-]; apply i32_range|].
    rewrite lookup_insert_ne by done. apply Hu. }
  set (s1 := s <| PathDirHash ::= <[e:=i']> |>).
  destruct (decide (i32 (usageCount i - 1) ≤ 0)) as [Hle|Hgt].
  - simpl. exists (<[e := i']> (PathDirHash s)). split_and!; try done; try lia.
    + intros k Hk. rewrite lookup_insert_ne; [done|]. intros ->. apply Hk. by left.
    + intros _. exists e. split; [by left|by apply Hbd].
    + by left.
    + by apply Hbd.
  - eapply outcome_ok_mono.
    + apply (IH (cnt + 1) s1); [|done|done]. intros k Hk. destruct (Hin k) as [? ?]; [by right|].
      split; [|done]. simpl. rewrite lookup_insert_ne; [done|]. intros ->. done.
    + intros [r c] s' (m & [-> Hsm Hum] & Hc & Hrest & _ & Hr). exists m. simpl in *.
      split; [|split; [lia|split; [|split]]].
      * split; [done| |done]. intros k. rewrite Hsm. by apply Hsame.
      * intros k Hk. rewrite Hrest by (intros ?; apply Hk; by right).
        rewrite lookup_insert_ne; [done|]. intros ->. apply Hk. by left.
      * intros _. exists e. split; [by left|by apply Hbd].
      * destruct r as [k|].
        -- destruct Hr as (? & ? & ?). split_and!; [by right|done|lia].
        -- intros k [->|Hk]%elem_of_cons Hd.
           ++ split; [lia|]. exists i, i'. rewrite Hrest by done. rewrite lookup_insert_eq.
              split_and!; [done|done|done|simpl; lia].
           ++ destruct (Hr k Hk Hd) as (? & j & j' & Hj & Hj' & ? & ?). split; [lia|].
              exists j, j'. rewrite lookup_insert_ne in Hj by (intros ->; done). done.
    + done.
    + done.
Qed.

(** *** The invariant of the table *)
Record cache_ok (s : DirState) : Prop := {
  cache_locks : lock_inv (dir_locks s);
  cache_words : dom (lock_words (dir_locks s)) = dom (PathDirHash s);
  cache_int32 : usage_int32 (PathDirHash s);
  cache_size p : Z.of_nat (size (partition p s)) ≤ partition_capacity;
  cache_count p : entry_count s p = Z.of_nat (size (partition p s)) }.

Lemma cache_word s k : cache_ok s → is_Some (PathDirHash s !! k) → is_Some (lock_words (dir_locks s) !! k).
Proof. intros Hc. by rewrite <-!elem_of_dom, (cache_words s Hc). Qed.

Lemma partition_lookup p s k i :
  partition p s !! k = Some i ↔ PathDirHash s !! k = Some i ∧ partition_of k = p.
Proof. unfold partition. by rewrite map_lookup_filter_Some. Qed.

Lemma seq_keys_elem p s k : k ∈ seq_keys p s ↔ is_Some (PathDirHash s !! k) ∧ partition_of k = p.
Proof.
  unfold seq_keys. rewrite hash_seq_order_perm, list_elem_of_fmap. split.
  - intros ([k' i] & -> & Hi). apply elem_of_map_to_list, partition_lookup in Hi as [Hi Hp].
    split; [by exists i|done].
  - intros [[i Hi] Hp]. exists (k, i). split; [done|]. by apply elem_of_map_to_list, partition_lookup.
Qed.

Lemma seq_keys_NoDup p s : NoDup (seq_keys p s).
Proof. unfold seq_keys. rewrite hash_seq_order_perm. apply NoDup_fst_map_to_list. Qed.

Lemma seq_from_elem b p s k :
  k ∈ seq_from b (map_to_list (partition p s)).*1 → k ∈ seq_keys p s.
Proof.
  destruct (seq_from_suffix b ((map_to_list (partition p s)).*1)) as [l Hl].
  unfold seq_keys. rewrite Hl, elem_of_app. auto.
Qed.

Lemma seq_from_NoDup b p s : NoDup (seq_from b (map_to_list (partition p s)).*1).
Proof.
  destruct (seq_from_suffix b ((map_to_list (partition p s)).*1)) as [l Hl].
  pose proof (seq_keys_NoDup p s) as Hnd. unfold seq_keys in Hnd. rewrite Hl in Hnd.
  by apply NoDup_app in Hnd as (_ & _ & ?).
Qed.

Lemma size_by_dom (m m' : gmap DirPathHashKey DirPathHashItem) : dom m' = dom m → size m' = size m.
Proof. intros Hd. by rewrite <-!size_dom, Hd. Qed.

Lemma partition_dom p s s' :
  dom (PathDirHash s') = dom (PathDirHash s) → dom (partition p s') = dom (partition p s).
Proof.
  intros Hd. apply set_eq. intros k. rewrite !elem_of_dom.
  assert (is_Some (PathDirHash s' !! k) ↔ is_Some (PathDirHash s !! k)) as Hk
    by by rewrite <-!elem_of_dom, Hd.
  split; intros [i Hi%partition_lookup]; destruct Hi as [Hi Hp].
  - destruct (proj1 Hk (mk_is_Some _ _ Hi)) as [j Hj]. exists j. by apply partition_lookup.
  - destruct (proj2 Hk (mk_is_Some _ _ Hi)) as [j Hj]. exists j. by apply partition_lookup.
Qed.

Lemma touched_ok s m s' : cache_ok s → touched s m s' → cache_ok s'.
Proof.
  intros [Hl Hw Hi Hsz Hc] [-> Hs Hu].
  assert (∀ p, size (partition p (s <| PathDirHash := m |>)) = size (partition p s)) as Hsize
    by (intros p; apply size_by_dom, partition_dom; by apply same_but_usage_dom).
  split; simpl; try done.
  - rewrite Hw. symmetry. by apply same_but_usage_dom.
  - intros p. by rewrite Hsize.
  - intros p. unfold entry_count in *; simpl. by rewrite Hc, Hsize.
Qed.

Lemma touched_trans s m s' m' s'' : touched s m s' → touched s' m' s'' → touched s m' s''.
Proof.
  intros [-> Hs Hu] [-> Hs' Hu']. split; [by destruct s| |done].
  intros k. rewrite Hs'. simpl. apply Hs.
Qed.

Lemma touched_destroyable s m s' k : touched s m s' → destroyable s' k ↔ destroyable s k.
Proof. by intros [-> _ _]. Qed.

Lemma touched_keys s m s' p k : touched s m s' → k ∈ seq_keys p s' ↔ k ∈ seq_keys p s.
Proof.
  intros Ht. rewrite !seq_keys_elem, <-!elem_of_dom. rewrite (touched_eq _ _ _ Ht). simpl.
  by rewrite (same_but_usage_dom _ _ (touched_same _ _ _ Ht)).
Qed.

Lemma scans_left_dec u :
  - 2 ^ 31 ≤ u < 2 ^ 31 → 0 < i32 (u - 1) →
  (S (scans_left (i32 (u - 1))) ≤ scans_left u ∧ 1 ≤ scans_left (i32 (u - 1)))%nat.
Proof.
  intros Hu Hpos. unfold scans_left. destruct (decide (u = - 2 ^ 31)) as [->|Hne].
  - change (i32 (- 2 ^ 31 - 1)) with (2 ^ 31 - 1). rewrite decide_False by lia. lia.
  - rewrite i32_small in * by lia. rewrite decide_False by lia. lia.
Qed.

Lemma eliminate_scan_spec fuel p s :
  cache_ok s → (1 ≤ fuel)%nat →
  (∀ k i, partition p s !! k = Some i → destroyable s k → (scans_left (usageCount i) ≤ fuel)%nat) →
  outcome_ok (eliminate_scan fuel p s)
    (λ r s', ∃ m, touched s m s' ∧
      match r with
      | Some k => k ∈ seq_keys p s ∧ destroyable s k
      | None => ∀ k, k ∈ seq_keys p s → ¬ destroyable s k
      end)
    (λ _ _, False) False.
Proof.
  revert s. induction fuel as [|fuel IH]; intros s Hok Hf Hall; [lia|].
  cbn [eliminate_scan]. mstep. eapply outcome_ok_bind.
  { apply find_next_spec; [|apply Hok|apply seq_keys_NoDup].
    intros k [Hk _]%seq_keys_elem. split; [done|]. by apply cache_word. }
  intros [r c] s' (m & Ht & Hc & Hrest & Hex & Hr). simpl in *.
  destruct (decide (c = 0)) as [->|Hnz].
  { simpl. exists m. split; [done|]. destruct r as [k|]; [lia|].
    intros k Hk Hd. destruct (Hr k Hk Hd). lia. }
  destruct r as [k|]; [destruct Hr as (? & ? & _); by exists m|].
  destruct (Hex ltac:(lia)) as (k0 & Hk0 & Hd0).
  assert (∀ k i', partition p s' !! k = Some i' → destroyable s' k → (scans_left (usageCount i') ≤ fuel)%nat) as Hall'.
  { intros k i' [Hi' Hp]%partition_lookup Hd. rewrite (touched_destroyable _ _ _ _ Ht) in Hd.
    rewrite (touched_eq _ _ _ Ht) in Hi'; simpl in Hi'.
    destruct (Hr k) as (_ & i & j & Hi & Hj & Hu & Hpos); [|done|].
    { apply seq_keys_elem. split; [|done]. rewrite <-elem_of_dom,
        <-(same_but_usage_dom _ _ (touched_same _ _ _ Ht)), elem_of_dom. eauto. }
    simplify_eq. specialize (Hall k i). rewrite Hu in *.
    pose proof (scans_left_dec (usageCount i) (cache_int32 s Hok _ _ Hi) Hpos).
    enough (scans_left (usageCount i) ≤ S fuel)%nat by lia. apply Hall; [|done]. by apply partition_lookup. }
  eapply outcome_ok_mono; [apply IH; [by eapply touched_ok| |done]|..]; [|simpl|done|done].
  - destruct (Hr k0 Hk0 Hd0) as (_ & i & j & Hi & Hj & Hu & Hpos).
    apply seq_keys_elem in Hk0 as [_ Hp].
    pose proof (Hall k0 i ltac:(by apply partition_lookup) Hd0).
    rewrite Hu in Hpos. pose proof (scans_left_dec (usageCount i) (cache_int32 s Hok _ _ Hi) Hpos). lia.
  - intros r s'' (m' & Ht' & Hr'). exists m'. split; [by eapply touched_trans|].
    destruct r as [k|].
    + by rewrite <-(touched_keys _ _ _ _ _ Ht), <-(touched_destroyable _ _ _ _ Ht).
    + intros k. rewrite <-(touched_keys _ _ _ _ _ Ht), <-(touched_destroyable _ _ _ _ Ht). apply Hr'.
Qed.

(** What an elimination leaves as it was. *)
Record evicts (s s' : DirState) : Prop := {
  ev_rel : directory_rel s' = directory_rel s;
  ev_commit : DirPathHashToCommit s' = DirPathHashToCommit s;
  ev_last : DirectoryHashTableLastAcquiredLock s' = DirectoryHashTableLastAcquiredLock s;
  ev_held : held_rwlocks (dir_locks s') = held_rwlocks (dir_locks s);
  ev_items k i' : PathDirHash s' !! k = Some i' → inodeId <$> PathDirHash s !! k = Some (inodeId i');
  ev_used k m : (k, m) ∈ held_rwlocks (dir_locks s) → is_Some (PathDirHash s !! k) → is_Some (PathDirHash s' !! k);
  ev_words k : is_Some (PathDirHash s' !! k) → lock_words (dir_locks s') !! k = lock_words (dir_locks s) !! k }.

Lemma evicts_refl s : evicts s s.
Proof. split; try done. by intros k i' ->. Qed.

Lemma evicts_touched s m s' : touched s m s' → evicts s s'.
Proof.
  intros [-> Hs Hu]. split; simpl; try done.
  - intros k i' Hk. by rewrite <-(Hs k), Hk.
  - intros k md _ Hk. by rewrite <-elem_of_dom, (same_but_usage_dom _ _ Hs), elem_of_dom.
Qed.

Lemma evicts_trans s1 s2 s3 : evicts s1 s2 → evicts s2 s3 → evicts s1 s3.
Proof.
  intros [R1 C1 L1 H1' I1 U1 W1] [R2 C2 L2 H2' I2 U2 W2]. split; try congruence.
  - intros k i' Hi'. specialize (I2 k i' Hi'). destruct (PathDirHash s2 !! k) as [i|] eqn:Hi; [|done].
    simpl in I2. rewrite (I1 _ _ Hi). congruence.
  - intros k m Hk Hin. apply (U2 k m); [by rewrite H1'|]. by apply (U1 k m).
  - intros k Hk. rewrite W2 by done. apply W1. destruct Hk as [i' Hi'].
    specialize (I2 k i' Hi'). by destruct (PathDirHash s2 !! k).
Qed.

Lemma evicts_rand s : evicts s (s <| rand_calls ::= Z.succ |>).
Proof. split; try done. simpl. by intros k i' ->. Qed.

Lemma u32_small z : 0 ≤ z < 2 ^ 32 → u32 z = z.
Proof. apply Z.mod_small. Qed.

Lemma partition_delete s k :
  partition (partition_of k) (s <| PathDirHash ::= delete k |>) = delete k (partition (partition_of k) s).
Proof. unfold partition; simpl. apply map_filter_delete. Qed.

Lemma partition_delete_ne p s k :
  partition_of k ≠ p → partition p (s <| PathDirHash ::= delete k |>) = partition p s.
Proof. intros Hne. unfold partition; simpl. apply map_filter_delete_not. auto. Qed.

(** The state without an entry, its lock word and its count. *)
Definition evict (k : DirPathHashKey) (s : DirState) : DirState :=
  s <| PathDirHash ::= delete k |>
    <| dir_locks ::= λ l, l <| lock_words ::= delete k |> |>
    <| PathDirHashEntryCount ::= <[partition_of k := u32 (entry_count s (partition_of k) - 1)]> |>.

Lemma remove_evicts (next : D bool) s k i :
  PathDirHash s !! k = Some i → destroyable s k →
  (found ← eliminate_remove k;
   if found : bool then count_add (partition_of k) (-1) ;; mret true else next) s = Ret true (evict k s).
Proof.
  intros Hi Hd. unfold eliminate_remove. rewrite bind_assoc, bind_mget, Hi.
  destruct (check_destroyable_eq k s) as (b & Hb & Hbd); [by destruct Hd as (w & -> & _)|].
  rewrite bind_assoc. erewrite bind_ret by exact Hb. assert (b = true) as -> by by apply Hbd.
  done.
Qed.

(** A victim that has gone, or is referred to again, stays as it is. *)
Lemma remove_refused s k :
  cache_ok s →
  (∃ i, PathDirHash s !! k = Some i ∧ destroyable s k) ∨ eliminate_remove k s = Ret false s.
Proof.
  intros Hok. unfold eliminate_remove. rewrite bind_mget.
  destruct (PathDirHash s !! k) as [i|] eqn:Hi; [|by right].
  destruct (check_destroyable_eq k s) as (b & Hb & Hbd); [apply cache_word; eauto|].
  erewrite bind_ret by exact Hb. destruct b; [left|by right]. exists i. split; [done|by apply Hbd].
Qed.

Lemma evict_ok s k i :
  cache_ok s → PathDirHash s !! k = Some i → destroyable s k →
  cache_ok (evict k s) ∧ evicts s (evict k s) ∧ has_space (partition (partition_of k) (evict k s)) = true.
Proof.
  intros [Hl Hw Hu Hsz Hc] Hi (w & Hwk & Hd).
  pose proof partition_capacity_range as Hcap.
  assert (partition (partition_of k) s !! k = Some i) as Hpk by by apply partition_lookup.
  assert (size (partition (partition_of k) s) ≠ 0%nat) as Hne0.
  { intros Hz%map_size_empty_iff. by rewrite Hz in Hpk. }
  assert (size (delete k (partition (partition_of k) s)) = pred (size (partition (partition_of k) s))) as Hdel
    by (apply map_size_delete_Some; eauto).
  assert (∀ m, (k, m) ∉ held_rwlocks (dir_locks s)) as Hfree.
  { intros m Hm. by eapply lock_ok_destroyable; [apply Hl; exact Hwk|apply Hl|exact Hm|]. }
  split_and!.
  - split; simpl.
    + destruct Hl as [Hb Hh Hok]. split; simpl; [done| |].
      * intros h Hin. rewrite lookup_delete_ne; [by apply Hh|]. intros ->. destruct h as [k m]. by apply (Hfree m).
      * intros k' w' [_ Hw']%lookup_delete_Some. by apply Hok.
    + by rewrite !dom_delete_L, Hw.
    + intros k' i' [_ Hi']%lookup_delete_Some. by eapply Hu.
    + intros p. unfold partition in *; simpl. destruct (decide (partition_of k = p)) as [<-|Hne].
      * rewrite map_filter_delete. specialize (Hsz (partition_of k)). lia.
      * rewrite map_filter_delete_not by auto. apply Hsz.
    + intros p. unfold evict, entry_count in *; simpl. destruct (decide (partition_of k = p)) as [<-|Hne].
      * rewrite lookup_insert_eq; simpl. rewrite Hc. specialize (Hsz (partition_of k)).
        rewrite u32_small by lia. unfold partition in *; simpl. rewrite map_filter_delete. lia.
      * rewrite lookup_insert_ne by done. rewrite Hc. unfold partition; simpl.
        by rewrite map_filter_delete_not by auto.
  - split; simpl; try done.
    + intros k' i' [_ Hi']%lookup_delete_Some. by rewrite Hi'.
    + intros k' m Hm Hk'. rewrite lookup_delete_ne; [done|]. intros ->. by apply (Hfree m).
    + intros k' [i' [Hne _]%lookup_delete_Some]. by rewrite lookup_delete_ne.
  - unfold has_space. apply bool_decide_true. specialize (Hsz (partition_of k)).
    unfold partition in *; simpl. rewrite map_filter_delete. lia.
Qed.

(** What happens to the state before an entry is removed: the scans lower
    usage counts and draw random numbers, and the other backends do what
    they do. *)
Inductive before_removal (others : list (DirState → DirState)) (s : DirState) : DirState → Prop :=
| before_scan m s' : touched s m s' → before_removal others s s'
| before_rand : before_removal others s (s <| rand_calls ::= Z.succ |>)
| before_other f : f ∈ others → before_removal others s (f s).

(** What another backend may do to the table: anything that keeps it well
    formed, its references being in the lock words. *)
Definition other_backend (f : DirState → DirState) : Prop := ∀ s, cache_ok s → cache_ok (f s).

Lemma before_ok others s s' :
  Forall other_backend others → cache_ok s → rtc (before_removal others) s s' → cache_ok s'.
Proof.
  intros Ho Hok Hr. induction Hr as [s|s s1 s2 Hs _ IH]; [done|]. apply IH. destruct Hs as [m s1 Ht| |f Hf].
  - by eapply touched_ok.
  - by destruct Hok.
  - rewrite Forall_forall in Ho. by apply Ho.
Qed.

Lemma before_alone s s' : rtc (before_removal []) s s' → evicts s s'.
Proof.
  induction 1 as [s|s s1 s2 Hs _ IH]; [apply evicts_refl|]. eapply evicts_trans; [|exact IH].
  destruct Hs as [m s1 Ht| |f Hf]; [by eapply evicts_touched|apply evicts_rand|].
  by apply not_elem_of_nil in Hf.
Qed.

Lemma eliminate_pick_spec others p s :
  cache_ok s →
  outcome_ok (eliminate_pick p s)
    (λ r s', rtc (before_removal others) s s' ∧ cache_ok s' ∧
      match r with
      | Some k => is_Some (PathDirHash s' !! k) ∧ partition_of k = p ∧ destroyable s' k
      | None => ∀ k, k ∈ seq_keys p s' → ¬ destroyable s' k
      end)
    (λ _ _, False) False.
Proof.
  intros Hok. unfold eliminate_pick. mstep. set (s0 := s <| rand_calls ::= Z.succ |>).
  assert (cache_ok s0) as Hok0 by (by destruct Hok).
  assert (∀ m s', touched s0 m s' → rtc (before_removal others) s s') as Hrtc
    by (intros m s' Ht; eapply rtc_l; [apply before_rand|by eapply rtc_once, before_scan]).
  eapply (outcome_ok_bind _ _ _ (λ r s', ∃ m, touched s0 m s' ∧
    match r.1 with Some k => k ∈ seq_keys p s0 ∧ destroyable s0 k | None => True end)).
  { eapply outcome_ok_mono; [apply find_next_spec|..]; [|apply Hok|apply seq_from_NoDup| |done|done].
    - intros k [Hk _]%seq_from_elem%seq_keys_elem. split; [done|]. by apply (cache_word s).
    - intros [r c] s' (m & Ht & _ & _ & _ & Hr). exists m. split; [done|]. destruct r; [|done].
      destruct Hr as (? & ? & _). split; [by eapply seq_from_elem|done]. }
  intros [r c] s1 (m1 & Ht1 & Hr). simpl in Hr |- *.
  assert (cache_ok s1) as Hok1 by by eapply touched_ok.
  destruct r as [k|].
  - destruct Hr as [Hk Hd]. split; [by eapply Hrtc|]. split; [done|].
    rewrite <-(touched_keys _ _ _ _ _ Ht1) in Hk. apply seq_keys_elem in Hk as [? ?].
    split_and!; [done|done|]. by apply (touched_destroyable _ _ _ _ Ht1).
  - rewrite bind_mget.
    eapply outcome_ok_mono; [apply (eliminate_scan_spec (scan_fuel s1) p s1 Hok1); [unfold scan_fuel; lia|]| |done|done].
    + intros k i Hpi _. apply partition_lookup in Hpi as [Hi _]. unfold scan_fuel. apply le_S, max_list_elem_of_le.
      apply list_elem_of_fmap. exists i. split; [done|]. apply list_elem_of_fmap. exists (k, i).
      split; [done|]. by apply elem_of_map_to_list.
    + intros r s2 (m2 & Ht2 & Hr2). split; [by eapply Hrtc, touched_trans|].
      split; [by eapply touched_ok|]. destruct r as [k|].
      * destruct Hr2 as [Hk Hd]. rewrite <-(touched_keys _ _ _ _ _ Ht2) in Hk. apply seq_keys_elem in Hk as [? ?].
        split_and!; [done|done|]. by apply (touched_destroyable _ _ _ _ Ht2).
      * intros k Hk. rewrite (touched_keys _ _ _ _ _ Ht2) in Hk.
        rewrite (touched_destroyable _ _ _ _ Ht2). by apply Hr2.
Qed.

(** What the loop has done when it returns, from a state the other backends
    and the scans may have changed on the way. *)
Definition eliminated (others : list (DirState → DirState)) p s (b : bool) s' : Prop :=
  ∃ s1, rtc (before_removal others) s s1 ∧
    if b then ∃ k i, PathDirHash s1 !! k = Some i ∧ partition_of k = p ∧ destroyable s1 k ∧ s' = evict k s1
    else s' = s1 ∧ ∀ k, k ∈ seq_keys p s1 → ¬ destroyable s1 k.

Lemma eliminate_loop_spec others p s :
  Forall other_backend others → cache_ok s →
  outcome_ok (eliminate_loop others p s) (eliminated others p s) (λ _ _, False) False.
Proof.
  revert s. induction others as [|f others IH]; intros s Ho Hok; cbn [eliminate_loop].
  all: eapply outcome_ok_bind; [by eapply eliminate_pick_spec|]; intros r s1 (Hr & Hok1 & Hpick).
  all: destruct r as [k|]; [|by exists s1]; destruct Hpick as ([i Hi] & Hp & Hd).
  - erewrite bind_ret by reflexivity. rewrite <-Hp, (remove_evicts _ _ _ i) by done. exists s1. eauto 10.
  - apply Forall_cons in Ho as [Hf Ho]. erewrite bind_ret by reflexivity. pose proof (Hf _ Hok1) as Hok2.
    assert (rtc (before_removal (f :: others)) s (f s1)) as Hr2
      by (eapply rtc_r; [exact Hr|apply before_other; left]).
    destruct (remove_refused (f s1) k Hok2) as [(i' & Hi' & Hd')|Href].
    { rewrite <-Hp, (remove_evicts _ _ _ i') by done. exists (f s1). eauto 10. }
    erewrite bind_ret by exact Href. eapply outcome_ok_mono; [by apply IH| |done|done].
    intros b s' (s2 & Hr' & Hb). exists s2. split; [|done]. etrans; [exact Hr2|].
    eapply rtc_subrel; [|exact Hr'].
    intros x y [m ? ?| |g ?]; [by eapply before_scan|apply before_rand|apply before_other; by right].
Qed.

Lemma before_alone_keys s s' p k :
  rtc (before_removal []) s s' → k ∈ seq_keys p s → destroyable s k → k ∈ seq_keys p s' ∧ destroyable s' k.
Proof.
  induction 1 as [s|s s1 s2 Hs _ IH]; [done|]. intros Hk Hd. apply IH; destruct Hs as [m s1 Ht| |f Hf]; try done;
    try by apply not_elem_of_nil in Hf.
  - by apply (touched_keys _ _ _ _ _ Ht).
  - by apply (touched_destroyable _ _ _ _ Ht).
Qed.

(** A call of the eviction, with what it leaves. *)
Lemma eliminate_among_spec others p s :
  Forall other_backend others → cache_ok s →
  outcome_ok (EliminateAmong others p s)
    (λ b s', cache_ok s' ∧ (b = true → has_space (partition p s') = true) ∧
      (if decide (entry_count s p ≤ 12) then b = false ∧ s' = s else eliminated others p s b s') ∧
      (others = [] → evicts s s'))
    (λ _ _, False) False.
Proof.
  intros Ho Hok. unfold EliminateAmong. mstep.
  change (_ `div` _) with 12. destruct (decide (entry_count s p ≤ 12)) as [Hle|Hgt].
  { split_and!; [done|done|done|done|]. intros _. apply evicts_refl. }
  eapply outcome_ok_mono; [by apply eliminate_loop_spec| |done|done].
  intros b s' Hel. pose proof Hel as (s1 & Hr & Hb). pose proof (before_ok _ _ _ Ho Hok Hr) as Hok1.
  destruct b.
  - destruct Hb as (k & i & Hi & <- & Hd & ->). destruct (evict_ok s1 k i Hok1 Hi Hd) as (? & Hev & ?).
    split_and!; [done|done|exact Hel|]. intros ->. eapply evicts_trans; [by apply before_alone|done].
  - destruct Hb as [-> Hb]. split_and!; [done|done|exact Hel|]. intros ->. by apply before_alone.
Qed.

Lemma eliminate_spec p s :
  cache_ok s →
  outcome_ok (EliminateDirPathHashByLRU p s)
    (λ b s', cache_ok s' ∧ evicts s s' ∧
      if b then has_space (partition p s') = true
      else entry_count s p ≤ 12 ∨ ∀ k, k ∈ seq_keys p s → ¬ destroyable s k)
    (λ _ _, False) False.
Proof.
  intros Hok. eapply outcome_ok_mono; [by apply eliminate_among_spec| |done|done].
  intros b s' (Hok' & Hsp & Hb & Hev). split_and!; [done|by apply Hev|].
  destruct (decide (entry_count s p ≤ 12)) as [Hle|Hgt]; [destruct Hb as [-> ->]; by left|].
  destruct Hb as (s1 & Hr & Hb). destruct b; [by apply Hsp|]. destruct Hb as [-> Hb].
  right. intros k Hk Hd. destruct (before_alone_keys _ _ _ _ Hr Hk Hd) as [??]. by eapply Hb.
Qed.

(** ** Searching *)

Definition rw_mode (lockMode : DirPathLockMode) : RWLockMode :=
  if decide (lockMode = DIR_LOCK_EXCLUSIVE) then RW_EXCLUSIVE else RW_SHARED.

Lemma on_locks_protocol {A} key mode (k : () → D A) s :
  (on_locks (RWLockDeclare key) ≫= λ _, on_locks (RWLockAcquire key mode) ≫= λ _,
     on_locks (RWLockUndeclare key) ≫= k) s = (on_locks (lock_protocol key mode) ≫= k) s.
Proof.
  unfold on_locks, mzoom, lock_protocol, mbind, M_bind.
  destruct (RWLockDeclare key (dir_locks s)) as [[] l|e l| |]; simpl; try done.
  by destruct (RWLockAcquire key mode l) as [[] l'|e l'| |]; simpl.
Qed.

(** The table [s'] caches the same keys as [s], with the same counts. *)
Lemma same_dom_ok s s' :
  cache_ok s → lock_inv (dir_locks s') → dom (PathDirHash s') = dom (PathDirHash s) →
  dom (lock_words (dir_locks s')) = dom (lock_words (dir_locks s)) →
  usage_int32 (PathDirHash s') → PathDirHashEntryCount s' = PathDirHashEntryCount s → cache_ok s'.
Proof.
  intros [Hl Hw Hu Hsz Hc] Hl' Hd Hdw Hu' Hc'.
  assert (∀ p, size (partition p s') = size (partition p s)) as Hsize
    by (intros p; by apply size_by_dom, partition_dom).
  split; [done|congruence|done|intros p; by rewrite Hsize|].
  intros p. unfold entry_count in *. by rewrite Hc', Hc, Hsize.
Qed.

Lemma usage_int32_insert m k i :
  usage_int32 m → - 2 ^ 31 ≤ usageCount i < 2 ^ 31 → usage_int32 (<[k := i]> m).
Proof.
  intros Hu Hi k' j. destruct (decide (k = k')) as [->|]; [rewrite lookup_insert_eq; by intros [= <-]|].
  rewrite lookup_insert_ne by done. apply Hu.
Qed.

Definition used (item : DirPathHashItem) : DirPathHashItem := item <| usageCount ::= λ u, i32 (u + 1) |>.

Definition busy (s : DirState) (key : DirPathHashKey) (lockMode : DirPathLockMode) : Prop :=
  ∃ w, lock_words (dir_locks s) !! key = Some w ∧ (attempt_word (rw_mode lockMode) w).2 = false.

Lemma use_and_lock_spec key item lockMode s :
  cache_ok s → PathDirHash s !! key = Some item →
  outcome_ok (use_and_lock key item lockMode s)
    (λ _ s', cache_ok s' ∧ PathDirHash s' = <[key := used item]> (PathDirHash s) ∧
      directory_rel s' = directory_rel s ∧ DirPathHashToCommit s' = DirPathHashToCommit s ∧
      if decide (lockMode = DIR_LOCK_NONE) then held_rwlocks (dir_locks s') = held_rwlocks (dir_locks s)
      else held_rwlocks (dir_locks s') = held_rwlocks (dir_locks s) ++ [(key, rw_mode lockMode)] ∧
           DirectoryHashTableLastAcquiredLock s' = Some key)
    (λ e s', e = Cuckoo PROGRAM_ERROR ∧ cache_ok s' ∧ PathDirHash s' = <[key := used item]> (PathDirHash s) ∧
      directory_rel s' = directory_rel s ∧
      (MAX_SIMUL_RWLOCKS ≤ S (length (held_rwlocks (dir_locks s))))%nat)
    (lockMode ≠ DIR_LOCK_NONE ∧ busy s key lockMode).
Proof.
  intros Hok Hi. unfold use_and_lock, set_item. mstep. fold (used item).
  assert (dom (<[key := used item]> (PathDirHash s)) = dom (PathDirHash s)) as Hd
    by (apply dom_insert_lookup_L; eauto).
  assert (usage_int32 (<[key := used item]> (PathDirHash s))) as Hu
    by (apply usage_int32_insert; [apply Hok|apply i32_range]).
  destruct (decide (lockMode = DIR_LOCK_NONE)) as [->|Hm].
  { simpl. split_and!; try done. by apply (same_dom_ok s); [| apply Hok|..]. }
  destruct (cache_word s key Hok) as [w Hw]; [eauto|].
  assert (rw_mode lockMode ≠ RW_DECLARE) as Hrm by (unfold rw_mode; by destruct (decide _)).
  pose proof (lock_protocol_spec key (rw_mode lockMode) (dir_locks s) w (cache_locks s Hok) Hw Hrm) as Hp.
  assert (∀ k : () → D (), (match lockMode with
    | DIR_LOCK_NONE => mret ()
    | _ => on_locks (RWLockDeclare key) ≫= λ _, on_locks (RWLockAcquire key
        (if decide (lockMode = DIR_LOCK_EXCLUSIVE) then RW_EXCLUSIVE else RW_SHARED)) ≫= λ _,
        on_locks (RWLockUndeclare key) ≫= k
    end) = (on_locks (RWLockDeclare key) ≫= λ _, on_locks (RWLockAcquire key (rw_mode lockMode)) ≫= λ _,
     on_locks (RWLockUndeclare key) ≫= k)) as -> by (by destruct lockMode).
  rewrite on_locks_protocol. unfold on_locks at 1, mzoom, mbind, M_bind. simpl.
  destruct (lock_protocol key (rw_mode lockMode) (dir_locks s)) as [[] l|e l| |]; simpl in *; [| | |done].
  - destruct Hp as (Hl & Hh & w' & Hw'). split_and!; try done.
    apply (same_dom_ok s); simpl; try done. rewrite Hw'. apply dom_insert_lookup_L; eauto.
  - destruct Hp as (-> & Hl & Hdl & Hfull). split_and!; try done.
    by apply (same_dom_ok s); simpl.
  - split; [done|]. by exists w.
Qed.

(** [f] gives the inode id of each (name, parent) pair, or
    DIR_HASH_TABLE_PATH_NOT_EXIST; the table agrees with it where it knows. *)
Definition coherent (f : DirPathHashKey → Z) (s : DirState) : Prop :=
  ∀ k i, PathDirHash s !! k = Some i → inodeId i = DIR_HASH_TABLE_PATH_UNKNOWN ∨ inodeId i = f k.

Definition known (s : DirState) (k : DirPathHashKey) : Prop :=
  ∃ i, PathDirHash s !! k = Some i ∧ inodeId i ≠ DIR_HASH_TABLE_PATH_UNKNOWN.

(** What every lookup leaves as it was: the relation, the recorded updates,
    the locks held and what is known of the keys they protect. *)
Record extends (s s' : DirState) : Prop := {
  ext_rel : directory_rel s' = directory_rel s;
  ext_commit : ∃ ks, DirPathHashToCommit s' = DirPathHashToCommit s ++ (ActionAdd <$> ks);
  ext_held h : h ∈ held_rwlocks (dir_locks s) → h ∈ held_rwlocks (dir_locks s');
  ext_known k m : (k, m) ∈ held_rwlocks (dir_locks s) → known s k → known s' k }.

Lemma extends_refl s : extends s s.
Proof. split; try done. exists []. by rewrite app_nil_r. Qed.

Lemma extends_trans s1 s2 s3 : extends s1 s2 → extends s2 s3 → extends s1 s3.
Proof.
  intros [R1 [ks1 C1] H1' K1] [R2 [ks2 C2] H2' K2]. split; [congruence| |auto|].
  - exists (ks1 ++ ks2). rewrite C2, C1, fmap_app. by rewrite app_assoc.
  - intros k m Hk Hkn. apply (K2 k m); [auto|]. by apply (K1 k m).
Qed.

Lemma evicts_extends s s' : evicts s s' → extends s s'.
Proof.
  intros [HR HC HL HH HI HU HW]. split; [done| | |].
  - exists []. by rewrite app_nil_r.
  - intros h. by rewrite HH.
  - intros k m Hm (i & Hi & Hn). destruct (HU k m Hm) as [i' Hi']; [eauto|].
    exists i'. split; [done|]. specialize (HI k i' Hi'). rewrite Hi in HI. simpl in HI. congruence.
Qed.

Lemma evicts_coherent f s s' : evicts s s' → coherent f s → coherent f s'.
Proof.
  intros He Hc k i' Hi'. pose proof (ev_items _ _ He k i' Hi') as Hi.
  destruct (PathDirHash s !! k) as [i|] eqn:E; [|done]. simpl in Hi.
  destruct (Hc k i E) as [?|?]; [left|right]; congruence.
Qed.

Lemma evicts_absent s s' k : evicts s s' → PathDirHash s !! k = None → PathDirHash s' !! k = None.
Proof.
  intros He Hn. destruct (PathDirHash s' !! k) as [i'|] eqn:E; [|done].
  pose proof (ev_items _ _ He k i' E) as Hi. by rewrite Hn in Hi.
Qed.

Lemma cache_word_None s k :
  cache_ok s → PathDirHash s !! k = None → lock_words (dir_locks s) !! k = None.
Proof. intros Hc. rewrite <-!not_elem_of_dom, (cache_words s Hc). done. Qed.

(** A new item, its lock initialised, with its count and commit action. *)
Lemma enter_new_spec key newId s :
  cache_ok s → PathDirHash s !! key = None → has_space (partition (partition_of key) s) = true →
  let s1 := s <| PathDirHash ::= <[key := (stale_item key).2]> |>
              <| dir_locks ::= λ l, l <| lock_words ::= <[key := (stale_item key).1]> |> |> in
  outcome_ok ((count_add (partition_of key) 1 ;; on_locks (RWLockInitialize key) ;;
     set_item key (mkItem newId 0) ;; DirPathHashToCommitAddEntry (parentId key) (fileName key) ;;
     s ← mget; mret (PathDirHash s !! key)) s1)
    (λ r s', r = Some (mkItem newId 0) ∧ cache_ok s' ∧ directory_rel s' = directory_rel s ∧
      PathDirHash s' = <[key := mkItem newId 0]> (PathDirHash s) ∧
      DirPathHashToCommit s' = DirPathHashToCommit s ++ [ActionAdd key] ∧
      dir_locks s' = (dir_locks s) <| lock_words ::= <[key := 0]> |>)
    (λ e s', e = Cuckoo PROGRAM_ERROR ∧ cache_ok s' ∧ directory_rel s' = directory_rel s ∧
      PathDirHash s' = <[key := mkItem newId 0]> (PathDirHash s))
    False.
Proof.
  intros Hok Hn Hsp%bool_decide_eq_true. intros s1. pose proof partition_capacity_range as Hcap. unfold count_add, on_locks, RWLockInitialize, set_item,
    DirPathHashToCommitAddEntry, to_commit. mstep.
  set (s2 := mkDirState (directory_rel s) (<[key := mkItem newId 0]> (PathDirHash s))
    (<[partition_of key := u32 (entry_count s (partition_of key) + 1)]> (PathDirHashEntryCount s))
    ((dir_locks s) <| lock_words ::= <[key := 0]> |>) (DirPathHashToCommit s)
    (DirectoryHashTableLastAcquiredLock s) (rand_calls s)).
  assert (cache_ok s2) as Hok2.
  { pose proof (cache_word_None s key Hok Hn) as Hwn. destruct Hok as [[Hb Hh Hwk] Hw Hu Hsz Hc].
    assert (∀ p, size (partition p s2) = if decide (partition_of key = p) then S (size (partition p s)) else size (partition p s)) as Hsize.
    { intros p. unfold partition; simpl. destruct (decide (partition_of key = p)) as [<-|Hne].
      - rewrite map_filter_insert_True by done. apply map_size_insert_None.
        apply map_lookup_filter_None. by left.
      - rewrite map_filter_insert_not'; [done|done|]. intros j. by rewrite Hn. }
    split; simpl.
    - assert (handles_of key (held_rwlocks (dir_locks s)) = []) as Hno.
      { destruct (handles_of key (held_rwlocks (dir_locks s))) as [|m hs] eqn:E; [done|]. exfalso.
        assert (m ∈ handles_of key (held_rwlocks (dir_locks s))) as Hin by (rewrite E; left).
        unfold handles_of in Hin. apply list_elem_of_fmap in Hin as (h & -> & Hin).
        apply list_elem_of_filter in Hin as [<- Hin]. destruct (Hh h Hin) as [? Hx].
        by rewrite Hwn in Hx. }
      split; simpl; [done| |].
      + intros h Hin. destruct (decide (key = h.1)) as [<-|]; [rewrite lookup_insert_eq; eauto|].
        rewrite lookup_insert_ne by done. auto.
      + intros k w. destruct (decide (key = k)) as [<-|].
        * rewrite lookup_insert_eq. intros [= <-]. by apply lock_ok_fresh.
        * rewrite lookup_insert_ne by done. apply Hwk.
    - by rewrite !dom_insert_L, Hw.
    - apply usage_int32_insert; [done|simpl; lia].
    - intros p. rewrite Hsize. specialize (Hsz p). destruct (decide _) as [<-|]; lia.
    - intros p. rewrite Hsize. unfold entry_count in *; simpl. specialize (Hsz p).
      destruct (decide _) as [<-|Hne].
      + rewrite lookup_insert_eq; simpl. rewrite Hc, u32_small by lia. lia.
      + rewrite lookup_insert_ne by done. apply Hc. }
  unfold mzoom, write_word, mmodify, mbind, M_bind, mget. simpl.
  destruct (decide _) as [Hfull|Hroom]; simpl.
  - split_and!; [done| |done|by rewrite insert_insert_eq].
    unfold set_field; simpl. rewrite !insert_insert_eq. exact Hok2.
  - unfold mret, M_ret, mput. simpl. rewrite lookup_insert_eq, !insert_insert_eq. simpl.
    split_and!; try done.
    + unfold set_field; simpl. rewrite !insert_insert_eq. by destruct Hok2.
    + destruct key; done.
    + unfold set_field; simpl. by rewrite insert_insert_eq.
Qed.

Lemma hash_enter_new key s :
  PathDirHash s !! key = None → has_space (partition (partition_of key) s) = true →
  hash_enter_null key s = Ret (false, Some (stale_item key).2)
    (s <| PathDirHash ::= <[key := (stale_item key).2]> |>
       <| dir_locks ::= λ l, l <| lock_words ::= <[key := (stale_item key).1]> |> |>).
Proof.
  intros Hn Hsp. unfold hash_enter_null. rewrite bind_mget, Hn, Hsp. by destruct (stale_item key).
Qed.

Lemma hash_enter_full key s :
  PathDirHash s !! key = None → has_space (partition (partition_of key) s) = false →
  hash_enter_null key s = Ret (false, None) s.
Proof. intros Hn Hsp. unfold hash_enter_null. by rewrite bind_mget, Hn, Hsp. Qed.

(** The result of entering [key] with [newId], possibly after an eviction. *)
Record entered (key : DirPathHashKey) (newId : Z) (s s' : DirState) : Prop := {
  ent_ok : cache_ok s';
  ent_extends : extends s s';
  ent_held : held_rwlocks (dir_locks s') = held_rwlocks (dir_locks s);
  ent_item : PathDirHash s' !! key = Some (mkItem newId 0);
  ent_word : lock_words (dir_locks s') !! key = Some 0;
  ent_coherent f : coherent f s → newId = DIR_HASH_TABLE_PATH_UNKNOWN ∨ newId = f key → coherent f s' }.

(** An operation failed before it changed the relation. *)
Definition failed (s s' : DirState) (newId : DirPathHashKey → Z → Prop) : Prop :=
  cache_ok s' ∧ directory_rel s' = directory_rel s ∧
  ∀ f, coherent f s → (∀ k i, newId k i → i = DIR_HASH_TABLE_PATH_UNKNOWN ∨ i = f k) → coherent f s'.

Lemma coherent_insert f s s' key i :
  coherent f s → PathDirHash s' = <[key := i]> (PathDirHash s) →
  inodeId i = DIR_HASH_TABLE_PATH_UNKNOWN ∨ inodeId i = f key → coherent f s'.
Proof.
  intros Hc Heq Hi k j. rewrite Heq. destruct (decide (key = k)) as [<-|].
  - rewrite lookup_insert_eq. by intros [= <-].
  - rewrite lookup_insert_ne by done. apply Hc.
Qed.

Lemma enter_loop_space fuel key lockMode newId on_found s :
  cache_ok s → PathDirHash s !! key = None → has_space (partition (partition_of key) s) = true →
  outcome_ok (enter_loop (S fuel) key lockMode newId on_found s)
    (λ r s', r = Some (mkItem newId 0) ∧ entered key newId s s')
    (λ e s', e = Cuckoo PROGRAM_ERROR ∧ failed s s' (λ k i, k = key ∧ i = newId)) False.
Proof.
  intros Hok Hn Hsp. cbn [enter_loop]. erewrite bind_ret by by apply hash_enter_new. cbv iota beta.
  eapply outcome_ok_mono; [by apply (enter_new_spec key newId s)|..]; [| |done].
  - intros r s' (-> & Hok' & Hrel & Hh & Hc & Hl). split; [done|]. split; try done.
    + split; [done|exists [key]; by rewrite Hc|by rewrite Hl|].
      intros k m Hm (i & Hi & Hu). exists i. split; [|done]. rewrite Hh, lookup_insert_ne; [done|congruence].
    + by rewrite Hl.
    + by rewrite Hh, lookup_insert_eq.
    + rewrite Hl. simpl. by rewrite lookup_insert_eq.
    + intros f Hcf Hid. by eapply coherent_insert.
  - intros e s' (-> & Hok' & Hrel & Hh). split; [done|]. split_and!; [done|done|].
    intros f Hcf Hid. eapply coherent_insert; [done..|]. simpl. auto.
Qed.

(** No free element and nothing to evict: other backends hold the locks of
    all entries of the partition. *)
Definition full (s : DirState) (key : DirPathHashKey) : Prop :=
  has_space (partition (partition_of key) s) = false ∧
  ∀ k, k ∈ seq_keys (partition_of key) s → ¬ destroyable s k.

Lemma evicts_entered key newId s s1 s' : evicts s s1 → entered key newId s1 s' → entered key newId s s'.
Proof.
  intros He [Ho Hx Hh Hi Hw Hc]. split; try done.
  - eapply extends_trans; [by apply evicts_extends|done].
  - rewrite Hh. by apply ev_held.
  - intros f Hf. apply Hc. by eapply evicts_coherent.
Qed.

Lemma evicts_failed s s1 s' Q : evicts s s1 → failed s1 s' Q → failed s s' Q.
Proof.
  intros He (Ho & Hr & Hc). split_and!; [done|rewrite Hr; by apply ev_rel|].
  intros f Hf. apply Hc. by eapply evicts_coherent.
Qed.

Lemma enter_loop_absent key lockMode newId on_found s :
  cache_ok s → PathDirHash s !! key = None →
  outcome_ok (enter_loop 2 key lockMode newId on_found s)
    (λ r s', match r with
             | Some i => i = mkItem newId 0 ∧ entered key newId s s'
             | None => lockMode = DIR_LOCK_NONE ∧ s' = s
             end)
    (λ e s', e = Cuckoo PROGRAM_ERROR ∧ failed s s' (λ k i, k = key ∧ i = newId))
    (lockMode ≠ DIR_LOCK_NONE ∧ full s key).
Proof.
  intros Hok Hn. destruct (has_space (partition (partition_of key) s)) eqn:Hsp.
  { eapply outcome_ok_mono; [by apply enter_loop_space| |done|done]. by intros r s' [-> ?]. }
  assert (∃ n, n = 1%nat) as [n Hone] by eauto. replace 2%nat with (S n) by lia.
  cbn [enter_loop]. erewrite bind_ret by by apply hash_enter_full. cbv iota beta.
  destruct (decide (lockMode ≠ DIR_LOCK_NONE)) as [Hm|Hm%dec_stable]; [|done].
  eapply outcome_ok_bind; [eapply outcome_ok_mono; [by apply eliminate_spec|exact (λ a s H, H)|done|done]|].
  intros b s1 (Hok1 & Hev & Hb). subst n.
  pose proof (evicts_absent _ _ _ Hev Hn) as Hn1.
  destruct (has_space (partition (partition_of key) s1)) eqn:Hsp1.
  { eapply outcome_ok_mono; [by apply (enter_loop_space 0 key lockMode newId on_found s1)|..]; [| |done].
    - intros r s' [-> Hent]. split; [done|]. by eapply evicts_entered.
    - intros e s' [-> Hf]. split; [done|]. by eapply evicts_failed. }
  destruct b; [congruence|].
  cbn [enter_loop]. erewrite bind_ret by by apply hash_enter_full. cbv iota beta.
  rewrite decide_True by done.
  eapply outcome_ok_bind; [eapply outcome_ok_mono; [by apply eliminate_spec|exact (λ a s _, I)|done|done]|].
  intros b s2 _. simpl. split; [done|]. split; [done|]. destruct Hb as [Hb|Hb]; [|done]. exfalso.
  apply bool_decide_eq_false in Hsp. pose proof partition_capacity_range as [Hcap _].
  change (_ `div` _) with 16 in Hcap. pose proof (cache_count s Hok (partition_of key)). lia.
Qed.

(** The inode id a set of directory rows gives to a pair. *)
Definition id_of (m : gmap (Z * string) FormData_cuckoo_directory_table) (k : DirPathHashKey) : Z :=
  match m !! (parentId k, fileName k) with
  | Some r => dt_inodeId r
  | None => DIR_HASH_TABLE_PATH_NOT_EXIST
  end.

Lemma search_table_eq pid name s :
  SearchDirectoryTableInfo pid name s = Ret (id_of (visible (directory_rel s)) (mkKey name pid)) s.
Proof.
  unfold SearchDirectoryTableInfo, id_of. rewrite bind_mget, scan_eq_visible. simpl.
  by destruct (visible _ !! _).
Qed.

(** The locks after an operation in the given mode. *)
Definition locked (s s' : DirState) (key : DirPathHashKey) (lockMode : DirPathLockMode) : Prop :=
  if decide (lockMode = DIR_LOCK_NONE) then held_rwlocks (dir_locks s') = held_rwlocks (dir_locks s)
  else held_rwlocks (dir_locks s') = held_rwlocks (dir_locks s) ++ [(key, rw_mode lockMode)] ∧
       DirectoryHashTableLastAcquiredLock s' = Some key ∧ known s' key.

Lemma use_extends s1 s2 key item lockMode :
  PathDirHash s1 !! key = Some item → PathDirHash s2 = <[key := used item]> (PathDirHash s1) →
  directory_rel s2 = directory_rel s1 → DirPathHashToCommit s2 = DirPathHashToCommit s1 →
  (if decide (lockMode = DIR_LOCK_NONE) then held_rwlocks (dir_locks s2) = held_rwlocks (dir_locks s1)
   else held_rwlocks (dir_locks s2) = held_rwlocks (dir_locks s1) ++ [(key, rw_mode lockMode)] ∧
        DirectoryHashTableLastAcquiredLock s2 = Some key) →
  extends s1 s2.
Proof.
  intros Hi Hp Hr Hc Hh. split; [done|exists []; by rewrite app_nil_r| |].
  - intros h Hin. destruct (decide _); [by rewrite Hh|]. destruct Hh as [-> _]. apply elem_of_app. by left.
  - intros k m _ (j & Hj & Hn). unfold known. rewrite Hp. destruct (decide (key = k)) as [<-|].
    + rewrite lookup_insert_eq. exists (used item). split; [done|]. simplify_eq. done.
    + rewrite lookup_insert_ne by done. eauto.
Qed.

Lemma search_tail f key item lockMode s s1 :
  cache_ok s1 → coherent f s1 → extends s s1 →
  held_rwlocks (dir_locks s1) = held_rwlocks (dir_locks s) → PathDirHash s1 !! key = Some item →
  inodeId item = f key → f key ≠ DIR_HASH_TABLE_PATH_UNKNOWN →
  outcome_ok ((use_and_lock key item lockMode ;; s ← mget;
      match PathDirHash s !! key with None => mundefined | Some item => mret (inodeId item) end) s1)
    (λ id s', id = f key ∧ cache_ok s' ∧ coherent f s' ∧ extends s s' ∧ locked s s' key lockMode)
    (λ e s', e = Cuckoo PROGRAM_ERROR ∧ cache_ok s' ∧ coherent f s' ∧ directory_rel s' = directory_rel s)
    (lockMode ≠ DIR_LOCK_NONE ∧ busy s1 key lockMode).
Proof.
  intros Hok Hcf Hext Hheld Hi Hid Hnu.
  assert (∀ s', PathDirHash s' = <[key := used item]> (PathDirHash s1) → coherent f s') as Hco.
  { intros s' Hs'. eapply coherent_insert; [done|exact Hs'|]. by right. }
  eapply outcome_ok_bind.
  - eapply outcome_ok_mono; [by apply use_and_lock_spec|exact (λ a s H, H)| |done].
    intros e s' (-> & Hok' & Hp & Hr & _). split_and!; [done|done|auto|]. rewrite Hr. apply Hext.
  - intros [] s2 (Hok2 & Hp & Hr & Hc & Hh). mstep. rewrite Hp, lookup_insert_eq. simpl.
    split_and!; [done|done|auto| |].
    + eapply extends_trans; [done|]. by eapply use_extends.
    + unfold locked. destruct (decide _); [congruence|]. destruct Hh as [Hh Hl].
      split_and!; [congruence|done|]. exists (used item). rewrite Hp, lookup_insert_eq.
      split; [done|]. simpl. congruence.
Qed.

Lemma enter_loop_found fuel key lockMode newId on_found s item :
  PathDirHash s !! key = Some item →
  enter_loop (S fuel) key lockMode newId on_found s =
    (on_found item ;; s ← mget; mret (PathDirHash s !! key)) s.
Proof.
  intros Hi. cbn [enter_loop]. erewrite bind_ret; [|unfold hash_enter_null; rewrite bind_mget, Hi; done].
  done.
Qed.

(** Filling in the id of an item that was entered as unknown. *)
Lemma fill_spec f key item s (s1 := s <| PathDirHash ::= <[key := item <| inodeId := f key |>]> |>) :
  cache_ok s → coherent f s → PathDirHash s !! key = Some item →
  inodeId item = DIR_HASH_TABLE_PATH_UNKNOWN →
  enter_loop 2 key DIR_LOCK_NONE (f key) (fill_unknown key (f key)) s = Ret (Some (item <| inodeId := f key |>)) s1 ∧
  cache_ok s1 ∧ coherent f s1 ∧ extends s s1.
Proof.
  intros Hok Hcf Hi Hu. split_and!.
  - rewrite (enter_loop_found _ _ _ _ _ _ item) by done. unfold fill_unknown. rewrite decide_True by done.
    unfold set_item. mstep. simpl. by rewrite lookup_insert_eq.
  - apply (same_dom_ok s); simpl; try done; [apply Hok|apply dom_insert_lookup_L; eauto|].
    apply usage_int32_insert; [apply Hok|]. simpl. by eapply (cache_int32 s Hok).
  - eapply coherent_insert; [done|done|]. by right.
  - split; [done|exists []; by rewrite app_nil_r|done|]. intros k m _ (j & Hj & Hn). unfold known. simpl.
    rewrite lookup_insert_ne; [eauto|]. intros ->. simplify_eq.
Qed.

Lemma fill_mode fuel key lockMode lockMode' newId on_found s item :
  PathDirHash s !! key = Some item →
  enter_loop (S fuel) key lockMode newId on_found s = enter_loop (S fuel) key lockMode' newId on_found s.
Proof. intros Hi. by rewrite !(enter_loop_found _ _ _ _ _ _ item). Qed.

Lemma make_key_eq pid name s :
  (String.length name < MAX_DIRECTORY_PATH_HASH_SIZE)%nat → make_key pid name s = Ret (mkKey name pid) s.
Proof. intros Hl. unfold make_key. by rewrite decide_True. Qed.

Lemma search_spec f pid name lockMode s (key := mkKey name pid) :
  cache_ok s → coherent f s → (¬ known s key → id_of (visible (directory_rel s)) key = f key) →
  f key ≠ DIR_HASH_TABLE_PATH_UNKNOWN → (String.length name < MAX_DIRECTORY_PATH_HASH_SIZE)%nat →
  outcome_ok (SearchDirectoryByDirectoryHashTable pid name lockMode s)
    (λ id s', id = f key ∧ cache_ok s' ∧ coherent f s' ∧ extends s s' ∧ locked s s' key lockMode)
    (λ e s', e = Cuckoo PROGRAM_ERROR ∧ cache_ok s' ∧ coherent f s' ∧ directory_rel s' = directory_rel s)
    (lockMode ≠ DIR_LOCK_NONE ∧ (busy s key lockMode ∨ (PathDirHash s !! key = None ∧ full s key))).
Proof.
  intros Hok Hcf Hvis Hnu Hl. unfold SearchDirectoryByDirectoryHashTable.
  erewrite bind_ret by by apply make_key_eq. rewrite bind_mget. fold key.
  destruct (PathDirHash s !! key) as [item|] eqn:Hi.
  - destruct (decide (inodeId item = DIR_HASH_TABLE_PATH_UNKNOWN)) as [Hu|Hk].
    + rewrite bind_assoc. erewrite bind_ret by apply search_table_eq. fold key.
      rewrite Hvis by (intros (j & Hj & Hn); congruence).
      destruct (fill_spec f key item s Hok Hcf Hi Hu) as (Hf & Hok1 & Hcf1 & Hext1).
      rewrite bind_assoc. erewrite bind_ret by (erewrite fill_mode by exact Hi; exact Hf). mstep.
      eapply outcome_ok_mono; [apply (search_tail f key _ lockMode s); try done|done|done|].
      * simpl. by rewrite lookup_insert_eq.
      * intros [Hm Hb]. split; [done|]. by left.
    + mstep. eapply outcome_ok_mono; [apply (search_tail f key item lockMode s s); try done|done|done|].
      * apply extends_refl.
      * destruct (Hcf key item Hi); done.
      * intros [Hm Hb]. split; [done|]. by left.
  - rewrite bind_assoc. erewrite bind_ret by apply search_table_eq. fold key.
    rewrite Hvis by (intros (j & Hj & Hn); congruence). rewrite bind_assoc.
    eapply outcome_ok_bind.
    + eapply outcome_ok_mono; [by apply enter_loop_absent|exact (λ a s H, H)| |].
      * intros e s' (-> & Hok' & Hr & Hco). split_and!; [done|done| |done].
        apply Hco; [done|]. intros k i [-> ->]. by right.
      * intros [Hm Hf]. split; [done|]. by right.
    + intros [i|] s1; mstep; [|intros [-> ->]; simpl; split_and!; [done..|apply extends_refl|];
        unfold locked; by rewrite decide_True].
      intros [-> [Hok1 Hext Hheld Hi1 Hw Hco]]. simpl.
      eapply outcome_ok_mono; [apply (search_tail f key _ lockMode s s1); try done; by apply Hco; [|right]|done|done|].
      intros [_ (w & Hw' & Hf)]. rewrite Hw in Hw'. simplify_eq. exfalso.
      revert Hf. unfold rw_mode. by destruct (decide _).
Qed.

(** ** Transactions *)

Definition row_key (k : DirPathHashKey) : Z * string := (parentId k, fileName k).

(** The ids after the recorded updates. *)
Definition publish (f : DirPathHashKey → Z) (a : DirPathHashToCommitAction) : DirPathHashKey → Z :=
  match a with
  | ActionAdd _ => f
  | ActionUpdate k v => λ k', if decide (k' = k) then v else f k'
  end.

Definition updated (s : DirState) (k : DirPathHashKey) : Prop :=
  ∃ v, ActionUpdate k v ∈ DirPathHashToCommit s.

(** A transaction under way that started from the committed rows [D0]. *)
Record txn (D0 : gmap (Z * string) FormData_cuckoo_directory_table) (s : DirState) : Prop := {
  txn_ok : cache_ok s;
  txn_coherent : coherent (id_of D0) s;
  txn_locked k : updated s k → is_Some (PathDirHash s !! k) ∧ ∃ m, (k, m) ∈ held_rwlocks (dir_locks s);
  txn_rest k : ¬ updated s k → visible (directory_rel s) !! row_key k = D0 !! row_key k ∧
    latest (directory_rel s) !! row_key k = D0 !! row_key k;
  txn_latest k : id_of (latest (directory_rel s)) k =
    fold_left publish (DirPathHashToCommit s) (id_of D0) k }.

(** What an abort finds: the table still agrees with the committed rows. *)
Definition abort_safe (D0 : gmap (Z * string) FormData_cuckoo_directory_table) (s : DirState) : Prop :=
  cache_ok s ∧ coherent (id_of D0) s.

(** Ids that cannot be mistaken for the mark of an unknown entry. *)
Definition real_ids (D0 : gmap (Z * string) FormData_cuckoo_directory_table) : Prop :=
  ∀ k, id_of D0 k ≠ DIR_HASH_TABLE_PATH_UNKNOWN.

Lemma real_ids_rows D0 :
  map_Forall (λ _ r, dt_inodeId r ≠ DIR_HASH_TABLE_PATH_UNKNOWN) D0 → real_ids D0.
Proof.
  intros Hall k. unfold id_of. destruct (D0 !! _) as [r|] eqn:E; [by apply (Hall _ r E)|done].
Qed.

(** An empty table is right for any rows. *)
Lemma empty_safe D0 t n : abort_safe D0 (mkDirState t ∅ ∅ (mkRWLocks ∅ [] 0) [] None n).
Proof.
  pose proof partition_capacity_range as [Hcap _].
  change (_ `div` _) with 16 in Hcap.
  assert (∀ p, partition p (mkDirState t ∅ ∅ (mkRWLocks ∅ [] 0) [] None n) = ∅) as Hp
    by (intros p; unfold partition; simpl; apply map_filter_empty).
  split; [split|]; simpl.
  - split; simpl; [lia| |done]. by intros h Hh%not_elem_of_nil.
  - done.
  - done.
  - intros p. rewrite Hp, map_size_empty. lia.
  - intros p. rewrite Hp, map_size_empty. unfold entry_count. simpl. by rewrite lookup_empty.
  - done.
Qed.

Lemma updated_adds s s' ks k :
  DirPathHashToCommit s' = DirPathHashToCommit s ++ (ActionAdd <$> ks) → updated s' k ↔ updated s k.
Proof.
  intros Hc. unfold updated. rewrite Hc. split; intros [v Hv]; exists v.
  - apply elem_of_app in Hv as [Hv|Hv]; [done|]. by apply list_elem_of_fmap in Hv as (? & ? & _).
  - apply elem_of_app. by left.
Qed.

Lemma publish_adds f acts ks : fold_left publish (acts ++ (ActionAdd <$> ks)) f = fold_left publish acts f.
Proof. rewrite fold_left_app. generalize (fold_left publish acts f). induction ks; simpl; auto. Qed.

Lemma txn_extends D0 s s' :
  txn D0 s → cache_ok s' → coherent (id_of D0) s' → extends s s' →
  (∀ k m, (k, m) ∈ held_rwlocks (dir_locks s) → is_Some (PathDirHash s !! k) → is_Some (PathDirHash s' !! k)) →
  txn D0 s'.
Proof.
  intros [Hok Hco Hlk Hre Hla] Hok' Hco' [Hr [ks Hc] Hh Hk] Hin.
  assert (∀ k, updated s' k ↔ updated s k) as Hup by (intros k; by eapply updated_adds).
  split; [done|done|..].
  - intros k Hu%Hup. destruct (Hlk k Hu) as [Hs [m Hm]]. split; [eauto|]. exists m. auto.
  - intros k Hu. rewrite Hup in Hu. rewrite Hr. auto.
  - intros k. rewrite Hr, Hla, Hc. by rewrite publish_adds.
Qed.

Lemma cache_held s k m :
  cache_ok s → (k, m) ∈ held_rwlocks (dir_locks s) → is_Some (PathDirHash s !! k).
Proof.
  intros [Hl Hw _ _ _] Hin. rewrite <-elem_of_dom, <-Hw, elem_of_dom.
  by apply (held_words _ Hl (k, m)).
Qed.

Lemma txn_extends' D0 s s' :
  txn D0 s → cache_ok s' → coherent (id_of D0) s' → extends s s' → txn D0 s'.
Proof.
  intros Ht Hok' Hco' Hx. eapply txn_extends; [done..|]. intros k m Hin _.
  apply (cache_held s' k m Hok'). by apply Hx.
Qed.

(** A pair can be looked up when the transaction has not changed it behind
    an item whose id is not known. *)
Definition searchable (s : DirState) (k : DirPathHashKey) : Prop := known s k ∨ ¬ updated s k.

Lemma txn_visible D0 s k :
  txn D0 s → searchable s k → ¬ known s k → id_of (visible (directory_rel s)) k = id_of D0 k.
Proof.
  intros Ht [?|Hu] Hk; [done|]. unfold id_of.
  destruct (txn_rest D0 s Ht k Hu) as [Hv _]. unfold row_key in Hv. by rewrite Hv.
Qed.

(** A lookup, cached or not. *)
Lemma search_txn D0 pid name lockMode s :
  txn D0 s → real_ids D0 → searchable s (mkKey name pid) →
  (String.length name < MAX_DIRECTORY_PATH_HASH_SIZE)%nat →
  outcome_ok (SearchDirectoryByDirectoryHashTable pid name lockMode s)
    (λ id s', id = id_of D0 (mkKey name pid) ∧ txn D0 s' ∧ extends s s' ∧ locked s s' (mkKey name pid) lockMode)
    (λ e s', e = Cuckoo PROGRAM_ERROR ∧ abort_safe D0 s')
    (lockMode ≠ DIR_LOCK_NONE ∧ (busy s (mkKey name pid) lockMode ∨
      (PathDirHash s !! mkKey name pid = None ∧ full s (mkKey name pid)))).
Proof.
  intros Ht Hreal Hs Hl.
  eapply outcome_ok_mono; [apply (search_spec (id_of D0)); try done|..].
  - apply Ht.
  - apply Ht.
  - intros Hk. by apply txn_visible.
  - intros id s' (-> & Hok' & Hco' & Hx & Hlk). split_and!; [done| |done|done]. by eapply txn_extends'.
  - intros e s' (-> & Hok' & Hco' & _). by split.
  - done.
Qed.

(** The caller asks for the lock, or the backend holds it already. *)
Definition lockable (s : DirState) (k : DirPathHashKey) (lockMode : DirPathLockMode) : Prop :=
  lockMode ≠ DIR_LOCK_NONE ∨ ∃ m, (k, m) ∈ held_rwlocks (dir_locks s).

Lemma coherent_used f s s' key item :
  coherent f s → PathDirHash s !! key = Some item →
  PathDirHash s' = <[key := used item]> (PathDirHash s) → coherent f s'.
Proof. intros Hc Hi Hs'. eapply coherent_insert; [done|exact Hs'|]. by apply (Hc key item). Qed.

Lemma use_txn D0 key item lockMode s :
  txn D0 s → PathDirHash s !! key = Some item → lockable s key lockMode →
  outcome_ok (use_and_lock key item lockMode s)
    (λ _ s', txn D0 s' ∧ extends s s' ∧ ∃ m, (key, m) ∈ held_rwlocks (dir_locks s'))
    (λ e s', e = Cuckoo PROGRAM_ERROR ∧ abort_safe D0 s')
    (lockMode ≠ DIR_LOCK_NONE ∧ busy s key lockMode).
Proof.
  intros Ht Hi Hlk. eapply outcome_ok_mono; [apply use_and_lock_spec; [apply Ht|done]|..]; [| |done].
  - intros [] s' (Hok' & Hp & Hr & Hc & Hh). pose proof (use_extends _ _ _ _ _ Hi Hp Hr Hc Hh) as Hx.
    split_and!; [|done|].
    + eapply txn_extends'; [done|done| |done]. eapply coherent_used; [apply Ht|done|done].
    + destruct (decide (lockMode = DIR_LOCK_NONE)) as [->|Hm].
      * destruct Hlk as [?|[m Hm]]; [done|]. exists m. by apply Hx.
      * destruct Hh as [-> _]. exists (rw_mode lockMode). apply elem_of_app. right. by left.
  - intros e s' (-> & Hok' & Hp & _). split; [done|]. split; [done|].
    eapply coherent_used; [apply Ht|done|done].
Qed.

(** A change of one pair: its update is recorded, and the locks and what is
    known under them stay. *)
Record changes (key : DirPathHashKey) (s s' : DirState) : Prop := {
  ch_held h : h ∈ held_rwlocks (dir_locks s) → h ∈ held_rwlocks (dir_locks s');
  ch_known k m : (k, m) ∈ held_rwlocks (dir_locks s) → known s k → known s' k;
  ch_updated k : updated s' k ↔ updated s k ∨ k = key;
  ch_self : ∃ m, (key, m) ∈ held_rwlocks (dir_locks s') }.

Lemma extends_updated s s' k : extends s s' → updated s' k ↔ updated s k.
Proof. intros [_ [ks Hc] _ _]. by eapply updated_adds. Qed.

Lemma extends_changes key s s1 s' : extends s s1 → changes key s1 s' → changes key s s'.
Proof.
  intros Hx [Hh Hk Hu Hs]. split; [intros h Hin; by apply Hh, Hx| |intros k; by rewrite Hu, (extends_updated s s1)|done].
  intros k m Hin Hkn. apply (Hk k m); [by apply Hx|]. by apply (ext_known _ _ Hx k m).
Qed.

(** Recording the update of a pair whose row has just been changed. *)
Lemma record_txn D0 key newId t s :
  txn D0 s → (∃ m, (key, m) ∈ held_rwlocks (dir_locks s)) →
  visible t = visible (directory_rel s) →
  (∀ k, k ≠ key → latest t !! row_key k = latest (directory_rel s) !! row_key k) →
  id_of (latest t) key = newId →
  outcome_ok (to_commit (ActionUpdate key newId) (s <| directory_rel := t |>))
    (λ _ s', txn D0 s' ∧ directory_rel s' = t ∧ changes key s s')
    (λ e s', e = Cuckoo PROGRAM_ERROR ∧ abort_safe D0 s') False.
Proof.
  intros [Hok Hco Hlk Hre Hla] [m Hm] Hv Hother Hid. unfold to_commit. rewrite bind_mget.
  assert (cache_ok (s <| directory_rel := t |>)) as Hok' by by destruct Hok.
  destruct (decide _); simpl; [done|].
  set (s' := (s <|directory_rel := t|>) <|DirPathHashToCommit ::= λ l, l ++ [ActionUpdate key newId]|>).
  assert (∀ k, updated s' k ↔ updated s k ∨ k = key) as Hup.
  { intros k. unfold updated, s'; simpl. split.
    - intros [v [Hv'|Hv']%elem_of_app]; [eauto|]. apply list_elem_of_singleton in Hv'. simplify_eq. auto.
    - intros [[v Hv']| ->]; [exists v|exists newId]; apply elem_of_app; [auto|right; by left]. }
  split; [|split; [done|split; [done|done|exact Hup|by exists m]]]. split; try done.
  - by destruct Hok.
  - intros k Hu. apply Hup in Hu as [Hu| ->]; [by apply Hlk|]. split; [|eauto]. by apply (cache_held s key m).
  - intros k Hu. rewrite Hup in Hu. destruct (Hre k) as [Hr1 Hr2]; [tauto|]. simpl. rewrite Hv.
    split; [done|]. rewrite Hother by tauto. done.
  - intros k. simpl. rewrite fold_left_app. simpl. destruct (decide (k = key)) as [->|Hne]; [done|].
    rewrite <-Hla. unfold id_of.
    pose proof (Hother k Hne) as Ho. unfold row_key in Ho. by rewrite Ho.
Qed.

Lemma row_key_inj k k' : row_key k = row_key k' → k = k'.
Proof. destruct k, k'. unfold row_key; simpl. congruence. Qed.

Lemma entered_txn D0 key newId s s' :
  txn D0 s → entered key newId s s' →
  newId = DIR_HASH_TABLE_PATH_UNKNOWN ∨ newId = id_of D0 key → txn D0 s'.
Proof.
  intros Ht [Hok Hx Hh Hi Hw Hco] Hid. eapply txn_extends'; [done|done| |done].
  apply Hco; [apply Ht|done].
Qed.

Lemma failed_abort_safe D0 key newId s s' :
  txn D0 s → failed s s' (λ k i, k = key ∧ i = newId) →
  newId = DIR_HASH_TABLE_PATH_UNKNOWN ∨ newId = id_of D0 key → abort_safe D0 s'.
Proof.
  intros Ht (Hok & _ & Hco) Hid. split; [done|]. apply Hco; [apply Ht|]. by intros k i [-> ->].
Qed.

Lemma fresh_not_busy s key lockMode : lock_words (dir_locks s) !! key = Some 0 → ¬ busy s key lockMode.
Proof.
  intros Hw (w & Hw' & Hf). rewrite Hw in Hw'. simplify_eq. revert Hf. unfold rw_mode. by destruct (decide _).
Qed.

Definition spins (s : DirState) (key : DirPathHashKey) (lockMode : DirPathLockMode) : Prop :=
  lockMode ≠ DIR_LOCK_NONE ∧ (busy s key lockMode ∨ (PathDirHash s !! key = None ∧ full s key)).

(** The first half of an insertion: find or enter the item. *)
Lemma insert_item_spec D0 pid name lockMode s (key := mkKey name pid) :
  txn D0 s → real_ids D0 → searchable s key → lockable s key lockMode →
  outcome_ok
    ((match PathDirHash s !! key with
      | Some item =>
          if decide (inodeId item = DIR_HASH_TABLE_PATH_UNKNOWN) then
            tempId ← SearchDirectoryTableInfo pid name;
            if decide (tempId ≠ DIR_HASH_TABLE_PATH_NOT_EXIST) then melog ARGUMENT_ERROR
            else enter_loop 2 key lockMode tempId (fill_unknown key tempId)
          else mret (Some item)
      | None =>
          tempId ← SearchDirectoryTableInfo pid name;
          if decide (tempId ≠ DIR_HASH_TABLE_PATH_NOT_EXIST) then melog ARGUMENT_ERROR
          else enter_loop 2 key lockMode tempId (fill_unknown key tempId)
      end : D (option DirPathHashItem)) s)
    (λ r s', txn D0 s' ∧ extends s s' ∧ lockable s' key lockMode ∧
      ∃ item, r = Some item ∧ PathDirHash s' !! key = Some item ∧
        (busy s' key lockMode → busy s key lockMode))
    (λ e s', (e = Cuckoo PROGRAM_ERROR ∨ (e = Cuckoo ARGUMENT_ERROR ∧
        id_of D0 key ≠ DIR_HASH_TABLE_PATH_NOT_EXIST)) ∧ abort_safe D0 s')
    (lockMode ≠ DIR_LOCK_NONE ∧ PathDirHash s !! key = None ∧ full s key).
Proof.
  intros Ht Hreal Hs Hlk. destruct (PathDirHash s !! key) as [item|] eqn:Hi.
  - destruct (decide (inodeId item = DIR_HASH_TABLE_PATH_UNKNOWN)) as [Hu|Hk].
    + erewrite bind_ret by apply search_table_eq. fold key.
      rewrite (txn_visible D0) by (done || (intros (j & Hj & Hn); congruence)).
      destruct (decide _) as [He|He%dec_stable]; [split; [by right|split; apply Ht]|].
      destruct (fill_spec (id_of D0) key item s (txn_ok _ _ Ht) (txn_coherent _ _ Ht) Hi Hu)
        as (Hf & Hok1 & Hcf1 & Hext1).
      rewrite (fill_mode _ _ _ DIR_LOCK_NONE _ _ _ _ Hi), Hf. simpl.
      split_and!; [by eapply txn_extends'|done| |].
      * destruct Hlk as [?|[m Hm]]; [by left|right; by exists m].
      * exists (item <| inodeId := id_of D0 key |>). rewrite lookup_insert_eq. done.
    + simpl. split_and!; [done|apply extends_refl|done|eauto].
  - erewrite bind_ret by apply search_table_eq. fold key.
    rewrite (txn_visible D0) by (done || (intros (j & Hj & Hn); congruence)).
    destruct (decide _) as [He|He%dec_stable]; [split; [by right|split; apply Ht]|].
    eapply outcome_ok_mono; [apply enter_loop_absent; [apply Ht|done]|..].
    + intros [i|] s'.
      * intros [-> Hent]. split_and!; [by eapply entered_txn; [| |right]|apply Hent| |].
        -- destruct Hlk as [?|[m Hm]]; [by left|right; exists m; by apply Hent].
        -- exists (mkItem (id_of D0 key) 0). split_and!; [done|apply Hent|].
           intros Hb. exfalso. by eapply fresh_not_busy; [apply Hent|].
      * intros [-> ->]. destruct Hlk as [?|[m Hm]]; [done|].
        destruct (cache_held s key m (txn_ok _ _ Ht) Hm) as [? Hx]. by rewrite Hi in Hx.
    + intros e s' [-> Hf]. split; [by left|]. by eapply failed_abort_safe; [| |right].
    + intros [Hm Hf]. split_and!; done.
Qed.

(** An insertion records its update and publishes nothing. *)
Lemma insert_txn D0 pid name newId nsub lockMode s (key := mkKey name pid) :
  txn D0 s → real_ids D0 → searchable s key → lockable s key lockMode →
  (String.length name < MAX_DIRECTORY_PATH_HASH_SIZE)%nat →
  outcome_ok (InsertDirectoryByDirectoryHashTable pid name newId nsub lockMode s)
    (λ _ s', txn D0 s' ∧ changes key s s' ∧
      latest (directory_rel s) !! (pid, name) = None ∧
      latest (directory_rel s') = <[(pid, name) := mkDirRow pid name newId]> (latest (directory_rel s)) ∧
      visible (directory_rel s') = visible (directory_rel s))
    (λ e s', (e = Cuckoo PROGRAM_ERROR ∨ (e = Cuckoo ARGUMENT_ERROR ∧
        id_of D0 key ≠ DIR_HASH_TABLE_PATH_NOT_EXIST) ∨
      (e = UniqueViolation ∧ is_Some (latest (directory_rel s) !! (pid, name)))) ∧ abort_safe D0 s')
    (spins s key lockMode).
Proof.
  intros Ht Hreal Hs Hlk Hl. unfold InsertDirectoryByDirectoryHashTable.
  erewrite bind_ret by by apply make_key_eq. rewrite bind_mget. fold key.
  eapply outcome_ok_bind.
  { eapply outcome_ok_mono; [by apply (insert_item_spec D0 pid name lockMode s)|exact (λ a s H, H)|..].
    - intros e s' [[?|?] ?]; tauto.
    - intros (? & ? & ?). split; auto. }
  intros r s1 (Ht1 & Hx1 & Hlk1 & item & -> & Hi1 & Hb). pose proof (ext_rel _ _ Hx1) as Hr1.
  eapply outcome_ok_bind.
  { eapply outcome_ok_mono; [by apply (use_txn D0)|exact (λ a s H, H)|..].
    - intros e s' [-> ?]. tauto.
    - intros [Hm Hbusy]. split; auto. }
  intros [] s2 (Ht2 & Hx2 & Hm2). pose proof (ext_rel _ _ Hx2) as Hr2. unfold InsertIntoDirectoryTable. rewrite bind_assoc, bind_mget.
  destruct (CatalogTupleInsert (directory_rel s2) (mkDirRow pid name newId)) as [t|] eqn:Hins.
  - destruct (insert_Some _ _ _ Hins) as [Hv Hlat]. rewrite bind_mput. change (dir_key (mkDirRow pid name newId)) with (pid, name) in Hlat.
    assert (latest (directory_rel s2) !! (pid, name) = None) as Hnone.
    { destruct (latest (directory_rel s2) !! (pid, name)) as [r|] eqn:E; [|done].
      assert (CatalogTupleInsert (directory_rel s2) (mkDirRow pid name newId) = None) as Hx
        by (apply insert_None; eauto). congruence. }
    eapply outcome_ok_mono; [apply (record_txn D0 key newId t s2)|..]; try done.
    + intros k Hk. rewrite Hlat. rewrite lookup_insert_ne; [done|].
      intros Heq. apply Hk. symmetry. apply row_key_inj. exact Heq.
    + unfold id_of. rewrite Hlat. simpl. by rewrite lookup_insert_eq.
    + intros [] s' (Ht' & Hr' & Hch). rewrite Hr', Hlat, Hv, Hr2, Hr1.
      rewrite Hr2, Hr1 in Hnone. split_and!; try done. eapply extends_changes; [|exact Hch]. by eapply extends_trans.
    + intros e s' [-> ?]. tauto.
  - apply insert_None in Hins. rewrite Hr2, Hr1 in Hins. simpl. split; [|split; apply Ht2]. tauto.
Qed.

(** So does a deletion. *)
Lemma delete_txn D0 pid name lockMode s (key := mkKey name pid) :
  txn D0 s → lockable s key lockMode → lockMode ≠ DIR_LOCK_SHARED →
  (String.length name < MAX_DIRECTORY_PATH_HASH_SIZE)%nat →
  outcome_ok (DeleteDirectoryByDirectoryHashTable pid name lockMode s)
    (λ _ s', txn D0 s' ∧ changes key s s' ∧
      is_Some (visible (directory_rel s) !! (pid, name)) ∧
      latest (directory_rel s') = delete (pid, name) (latest (directory_rel s)) ∧
      visible (directory_rel s') = visible (directory_rel s))
    (λ e s', (e = Cuckoo PROGRAM_ERROR ∨
      (e = Cuckoo ARGUMENT_ERROR ∧ visible (directory_rel s) !! (pid, name) = None) ∨
      (e = TupleAlreadyModified ∧ latest (directory_rel s) !! (pid, name) = None)) ∧ abort_safe D0 s')
    (spins s key lockMode).
Proof.
  intros Ht Hlk Hsh Hl. unfold DeleteDirectoryByDirectoryHashTable. rewrite decide_False by done.
  erewrite bind_ret by by apply make_key_eq. rewrite bind_mget. fold key.
  eapply (outcome_ok_bind _ _ _ (λ r s', txn D0 s' ∧ extends s s' ∧
    lockable s' key lockMode ∧ ∃ item, r = Some item ∧ PathDirHash s' !! key = Some item ∧
      (busy s' key lockMode → busy s key lockMode))).
  { destruct (PathDirHash s !! key) as [item|] eqn:Hi; [simpl; split_and!; [done|apply extends_refl|done|eauto]|].
    eapply outcome_ok_mono; [apply enter_loop_absent; [apply Ht|done]|..].
    - intros [i|] s'.
      + intros [-> Hent]. split_and!; [by eapply entered_txn; [| |left]|apply Hent| |].
        * destruct Hlk as [?|[m Hm]]; [by left|right; exists m; by apply Hent].
        * eexists. split_and!; [done|apply Hent|].
          intros Hb. exfalso. by eapply fresh_not_busy; [apply Hent|].
      + intros [-> ->]. destruct Hlk as [?|[m Hm]]; [done|].
        destruct (cache_held s key m (txn_ok _ _ Ht) Hm) as [? Hx]. by rewrite Hi in Hx.
    - intros e s' [-> Hf]. split; [by left|]. by eapply failed_abort_safe; [| |left].
    - intros [Hm Hf]. split; auto. }
  intros r s1 (Ht1 & Hx1 & Hlk1 & item & -> & Hi1 & Hb). pose proof (ext_rel _ _ Hx1) as Hr1.
  eapply outcome_ok_bind.
  { eapply outcome_ok_mono; [by apply (use_txn D0)|exact (λ a s H, H)|..].
    - intros e s' [-> ?]. tauto.
    - intros [Hm Hbusy]. split; auto. }
  intros [] s2 (Ht2 & Hx2 & Hm2). pose proof (ext_rel _ _ Hx2) as Hr2. unfold DeleteFromDirectoryTable. rewrite bind_assoc, bind_mget.
  rewrite scan_eq_visible, Hr2, Hr1.
  destruct (visible (directory_rel s) !! (pid, name)) as [row|] eqn:Hvis.
  2:{ simpl. split; [tauto|split; apply Ht2]. }
  rewrite (visible_key _ _ _ Hvis).
  destruct (CatalogTupleDelete (directory_rel s) (pid, name)) as [t|] eqn:Hdel.
  - destruct (delete_Some _ _ _ Hdel) as [Hv Hlat]. rewrite bind_mput.
    eapply outcome_ok_mono; [apply (record_txn D0 key _ t s2)|..]; try done.
    + by rewrite Hr2, Hr1.
    + intros k Hk. rewrite Hlat, Hr2, Hr1. rewrite lookup_delete_ne; [done|].
      intros Heq. apply Hk. symmetry. apply row_key_inj. exact Heq.
    + unfold id_of. rewrite Hlat. simpl. by rewrite lookup_delete_eq.
    + intros [] s' (Ht' & Hr' & Hch). rewrite Hr', Hlat, Hv. split_and!; eauto.
      eapply extends_changes; [|exact Hch]. by eapply extends_trans.
    + intros e s' [-> ?]. tauto.
  - apply delete_None in Hdel. simpl. split; [tauto|split; apply Ht2].
Qed.

(** ** The end of the transaction *)

Lemma commit_actions_spec acts f s :
  cache_ok s → coherent f s →
  (∀ k v, ActionUpdate k v ∈ acts → ∃ m, (k, m) ∈ held_rwlocks (dir_locks s)) →
  outcome_ok (mfor acts commit_action s)
    (λ _ s', cache_ok s' ∧ coherent (fold_left publish acts f) s' ∧ directory_rel s' = directory_rel s ∧
      held_rwlocks (dir_locks s') = held_rwlocks (dir_locks s))
    (λ _ _, False) False.
Proof.
  revert f s. induction acts as [|a acts IH]; intros f s Hok Hco Hheld; simpl; [done|].
  eapply (outcome_ok_bind _ _ _ (λ _ s', cache_ok s' ∧ coherent (publish f a) s' ∧
    directory_rel s' = directory_rel s ∧ held_rwlocks (dir_locks s') = held_rwlocks (dir_locks s))).
  - destruct a as [key|key newId]; simpl.
    + eapply outcome_ok_bind; [by apply eliminate_spec|]. intros b s' (Hok' & Hev & _). simpl.
      split_and!; [done|by eapply evicts_coherent|apply Hev|apply Hev].
    + destruct (Hheld key newId) as [m Hm]; [by left|].
      destruct (cache_held s key m Hok Hm) as [item Hi].
      unfold hash_enter_null. rewrite bind_assoc, bind_mget, Hi. mstep. unfold set_item, mmodify. simpl.
      split_and!; [| |done|done].
      * apply (same_dom_ok s); simpl; try done; [apply Hok|apply dom_insert_lookup_L; eauto|].
        apply usage_int32_insert; [apply Hok|]. simpl. by eapply (cache_int32 s Hok).
      * intros k i. simpl. destruct (decide (key = k)) as [<-|Hne].
        -- rewrite lookup_insert_eq. intros [= <-]. right. simpl. by rewrite decide_True.
        -- rewrite lookup_insert_ne by done. rewrite decide_False by done. apply Hco.
  - intros [] s1 (Hok1 & Hco1 & Hr1 & Hh1).
    eapply outcome_ok_mono; [apply (IH (publish f a) s1); try done| |done|done].
    + intros k v Hkv. rewrite Hh1. apply (Hheld k v). by right.
    + intros [] s' (? & ? & ? & ?). split_and!; congruence || done.
Qed.

Lemma coherent_ext f g s : (∀ k, f k = g k) → coherent f s → coherent g s.
Proof. intros Hfg Hc k i Hi. rewrite <-Hfg. by apply Hc. Qed.

(** Committing publishes the recorded updates. *)
Lemma commit_txn D0 s :
  txn D0 s →
  outcome_ok (CommitForDirPathHash s)
    (λ _ s', abort_safe (latest (directory_rel s')) s' ∧ directory_rel s' = directory_rel s ∧
      DirPathHashToCommit s' = [] ∧ held_rwlocks (dir_locks s') = held_rwlocks (dir_locks s))
    (λ _ _, False) False.
Proof.
  intros Ht. unfold CommitForDirPathHash. rewrite bind_mget.
  eapply outcome_ok_bind.
  - apply (commit_actions_spec _ (id_of D0)); [apply Ht|apply Ht|].
    intros k v Hkv. apply (txn_locked D0 s Ht k). by exists v.
  - intros [] s1 (Hok1 & Hco1 & Hr1 & Hh1). unfold DirPathHashToCommitClear, mmodify. simpl.
    split_and!; [split; [by destruct Hok1|]|done|done|done].
    rewrite Hr1. eapply coherent_ext; [|exact Hco1]. intros k. symmetry. apply Ht.
Qed.

Lemma Abort_keeps D0 s :
  abort_safe D0 s → ∃ s', AbortForDirPathHash s = Ret () s' ∧ abort_safe D0 s' ∧ DirPathHashToCommit s' = [].
Proof. intros [[] Hc]. eexists. split; [done|]. done. Qed.

(** A transaction starts on settled rows with nothing recorded. *)
Lemma txn_begin s :
  abort_safe (latest (directory_rel s)) s → settled (directory_rel s) → DirPathHashToCommit s = [] →
  txn (latest (directory_rel s)) s.
Proof.
  intros [Hok Hco] Hse Hc.
  assert (∀ k, ¬ updated s k) as Hnu by (intros k [v Hv]; rewrite Hc in Hv; by apply not_elem_of_nil in Hv).
  split; try done; [by intros k ?%Hnu|intros k _; by rewrite Hse|intros k; by rewrite Hc].
Qed.

Lemma txn_cci D0 s : txn D0 s → txn D0 (s <| directory_rel ::= CommandCounterIncrement |>).
Proof.
  intros [Hok Hco Hlk Hre Hla]. split; simpl; try done.
  - by destruct Hok.
  - intros k Hk. rewrite cci_visible, cci_latest. destruct (Hre k Hk). done.
  - intros k. by rewrite cci_latest.
Qed.

Inductive dir_op :=
  | OpSearch (pid : Z) (name : string) (lockMode : DirPathLockMode)
  | OpInsert (pid : Z) (name : string) (newId : Z) (lockMode : DirPathLockMode)
  | OpDelete (pid : Z) (name : string) (lockMode : DirPathLockMode)
  | OpCommand.

(** An operation as the handlers call it: names that fit, a lock asked for or
    already held around every change, and no lookup of a pair that the
    transaction has changed without knowing its id. *)
Definition op_allowed (s : DirState) (op : dir_op) : Prop :=
  match op with
  | OpSearch pid name _ =>
      searchable s (mkKey name pid) ∧ (String.length name < MAX_DIRECTORY_PATH_HASH_SIZE)%nat
  | OpInsert pid name _ m =>
      searchable s (mkKey name pid) ∧ lockable s (mkKey name pid) m ∧
      (String.length name < MAX_DIRECTORY_PATH_HASH_SIZE)%nat
  | OpDelete pid name m =>
      lockable s (mkKey name pid) m ∧ m ≠ DIR_LOCK_SHARED ∧
      (String.length name < MAX_DIRECTORY_PATH_HASH_SIZE)%nat
  | OpCommand => True
  end.

Definition run_op (op : dir_op) : D () :=
  match op with
  | OpSearch pid name m => SearchDirectoryByDirectoryHashTable pid name m ;; mret ()
  | OpInsert pid name newId m => InsertDirectoryByDirectoryHashTable pid name newId 100 m
  | OpDelete pid name m => DeleteDirectoryByDirectoryHashTable pid name m
  | OpCommand => mmodify (λ s, s <| directory_rel ::= CommandCounterIncrement |>)
  end.

(** The states a transaction can be in, and those in which it has failed. *)
Inductive runs : DirState → list dir_op → DirState → Prop :=
  | runs_nil s : runs s [] s
  | runs_cons s op s1 ops s2 :
      op_allowed s op → run_op op s = Ret () s1 → runs s1 ops s2 → runs s (op :: ops) s2.

Lemma run_op_spec D0 op s :
  txn D0 s → real_ids D0 → op_allowed s op →
  outcome_ok (run_op op s) (λ _ s', txn D0 s') (λ _ s', abort_safe D0 s') True.
Proof.
  intros Ht Hr. destruct op as [pid name m|pid name newId m|pid name m|]; simpl.
  - intros [Hs Hl]. eapply outcome_ok_bind.
    + eapply outcome_ok_mono; [by apply (search_txn D0)|exact (λ a s H, H)| |done].
      by intros e s' [_ ?].
    + intros id s' (_ & ? & _). done.
  - intros (Hs & Hlk & Hl). eapply outcome_ok_mono; [by apply (insert_txn D0)|..]; [| |done].
    + by intros [] s' [? _].
    + by intros e s' [_ ?].
  - intros (Hlk & Hm & Hl). eapply outcome_ok_mono; [by apply (delete_txn D0)|..]; [| |done].
    + by intros [] s' [? _].
    + by intros e s' [_ ?].
  - intros _. by apply txn_cci.
Qed.

Lemma runs_txn D0 s ops s' : txn D0 s → real_ids D0 → runs s ops s' → txn D0 s'.
Proof.
  intros Ht Hr Hruns. induction Hruns as [|s op s1 ops s2 Ha Ho _ IH]; [done|]. apply IH.
  by apply (outcome_ok_ret _ _ _ _ _ _ (run_op_spec D0 op s Ht Hr Ha) Ho).
Qed.

(** A lookup through the hash table returns the inode id the committed
    directory rows give to the pair (or that there is none), whether the
    entry was cached, unknown or had to be entered, possibly after an
    eviction; it leaves the pair locked in the mode asked for and the
    transaction well formed.  It fails only when the backend has used up its
    locks or commit actions, leaving a table an abort can keep, and it spins
    only while other holders exclude the mode or every entry of a full
    partition is in use. *)
Theorem Search_returns_committed D0 pid name lockMode s :
  txn D0 s → real_ids D0 → searchable s (mkKey name pid) →
  (String.length name < MAX_DIRECTORY_PATH_HASH_SIZE)%nat →
  outcome_ok (SearchDirectoryByDirectoryHashTable pid name lockMode s)
    (λ id s', id = id_of D0 (mkKey name pid) ∧ txn D0 s' ∧ extends s s' ∧ locked s s' (mkKey name pid) lockMode)
    (λ e s', e = Cuckoo PROGRAM_ERROR ∧ abort_safe D0 s')
    (lockMode ≠ DIR_LOCK_NONE ∧ (busy s (mkKey name pid) lockMode ∨
      (PathDirHash s !! mkKey name pid = None ∧ full s (mkKey name pid)))).
Proof. apply search_txn. Qed.

(** Inserting a directory adds its row and records the update, and does
    not publish it: lookups keep returning what is committed.  An existing
    row is never overwritten (the insertion fails), and every failure leaves
    a table that an abort can keep. *)
Theorem Insert_records D0 pid name newId nsub lockMode s (key := mkKey name pid) :
  txn D0 s → real_ids D0 → searchable s key → lockable s key lockMode →
  (String.length name < MAX_DIRECTORY_PATH_HASH_SIZE)%nat →
  outcome_ok (InsertDirectoryByDirectoryHashTable pid name newId nsub lockMode s)
    (λ _ s', txn D0 s' ∧ changes key s s' ∧
      latest (directory_rel s) !! (pid, name) = None ∧
      latest (directory_rel s') = <[(pid, name) := mkDirRow pid name newId]> (latest (directory_rel s)) ∧
      visible (directory_rel s') = visible (directory_rel s))
    (λ e s', (e = Cuckoo PROGRAM_ERROR ∨ (e = Cuckoo ARGUMENT_ERROR ∧
        id_of D0 key ≠ DIR_HASH_TABLE_PATH_NOT_EXIST) ∨
      (e = UniqueViolation ∧ is_Some (latest (directory_rel s) !! (pid, name)))) ∧ abort_safe D0 s')
    (spins s key lockMode).
Proof. apply insert_txn. Qed.

(** Deleting a directory removes its row and records the update without
    publishing it; it fails when the committed rows visible to the
    transaction have no such row. *)
Theorem Delete_records D0 pid name lockMode s (key := mkKey name pid) :
  txn D0 s → lockable s key lockMode → lockMode ≠ DIR_LOCK_SHARED →
  (String.length name < MAX_DIRECTORY_PATH_HASH_SIZE)%nat →
  outcome_ok (DeleteDirectoryByDirectoryHashTable pid name lockMode s)
    (λ _ s', txn D0 s' ∧ changes key s s' ∧
      is_Some (visible (directory_rel s) !! (pid, name)) ∧
      latest (directory_rel s') = delete (pid, name) (latest (directory_rel s)) ∧
      visible (directory_rel s') = visible (directory_rel s))
    (λ e s', (e = Cuckoo PROGRAM_ERROR ∨
      (e = Cuckoo ARGUMENT_ERROR ∧ visible (directory_rel s) !! (pid, name) = None) ∨
      (e = TupleAlreadyModified ∧ latest (directory_rel s) !! (pid, name) = None)) ∧ abort_safe D0 s')
    (spins s key lockMode).
Proof. apply delete_txn. Qed.

(** (C19) Whatever sequence of lookups, insertions, deletions and command ends
    a transaction runs under the locking discipline, the shared table is right
    at its end: if one more operation fails, or the backend aborts, the table
    agrees with the rows committed before the transaction; if it commits,
    committing succeeds and the table agrees with the rows the transaction
    leaves, with all its locks still held. *)
Theorem transaction_coherence s ops s1 :
  abort_safe (latest (directory_rel s)) s → settled (directory_rel s) →
  DirPathHashToCommit s = [] → real_ids (latest (directory_rel s)) → runs s ops s1 →
  (∀ op e s2, op_allowed s1 op → run_op op s1 = Elog e s2 → abort_safe (latest (directory_rel s)) s2) ∧
  (∃ s2, AbortForDirPathHash s1 = Ret () s2 ∧ abort_safe (latest (directory_rel s)) s2 ∧
    DirPathHashToCommit s2 = []) ∧
  (∃ s2, CommitForDirPathHash s1 = Ret () s2 ∧ abort_safe (latest (directory_rel s2)) s2 ∧
    directory_rel s2 = directory_rel s1 ∧ DirPathHashToCommit s2 = [] ∧
    held_rwlocks (dir_locks s2) = held_rwlocks (dir_locks s1)).
Proof.
  intros Hsafe Hse Hc Hr Hruns. pose proof (txn_begin s Hsafe Hse Hc) as Ht.
  pose proof (runs_txn _ _ _ _ Ht Hr Hruns) as Ht1. split_and!.
  - intros op e s2 Ha Ho. pose proof (run_op_spec _ op s1 Ht1 Hr Ha) as Hspec. by rewrite Ho in Hspec.
  - apply Abort_keeps. split; apply Ht1.
  - pose proof (commit_txn _ s1 Ht1) as Hcm.
    destruct (CommitForDirPathHash s1) as [[] s2|e s2| |]; simpl in Hcm; [|done..]. eauto.
Qed.

(** (C40) Evicting from a partition comes to an end whatever the other
    backends do to the table in between, as long as they come in between
    finitely often.  At or below the threshold of 12 entries it does nothing
    and answers false.  Otherwise it answers true exactly when it has itself
    removed one entry of the partition, an entry whose lock word counts no
    reference of any backend at the time of the removal, with its lock word
    and its count, which leaves room for a new entry; and false exactly when
    it found every entry of the partition referenced, and then it has removed
    nothing.  Besides, it only lowers usage counts and draws random numbers,
    so that without interference the surviving entries keep their ids and
    lock words and this backend's locks and pending actions stay. *)
Theorem Eliminate_ends others p s :
  Forall other_backend others → cache_ok s →
  outcome_ok (EliminateAmong others p s)
    (λ b s', cache_ok s' ∧ (b = true → has_space (partition p s') = true) ∧
      (if decide (entry_count s p ≤ 12) then b = false ∧ s' = s else eliminated others p s b s') ∧
      (others = [] → evicts s s'))
    (λ _ _, False) False.
Proof.
  apply eliminate_among_spec.
Qed.
End dir_hash.

(** ** Concrete runs *)
Module DirWitness.
Import PgRef.

#[export] Program Instance dir_env : DirHashEnv := {|
  rand n := (n * 1103515245 + 12345) mod 2 ^ 31;
  seq_from A b l := drop (Z.to_nat (b mod 15)) l;
  partition_capacity := 16;
  stale_item k := (170, mkItem 85 9);
|}.
Next Obligation. intros A b l. simpl. exists (take (Z.to_nat (b mod 15)) l). symmetry. apply take_drop. Qed.
Next Obligation. done. Qed.
Next Obligation. intros k. simpl. lia. Qed.

Definition rows : list FormData_cuckoo_directory_table := [mkDirRow 0 "/" 1; mkDirRow 1 "a" 7].

Abbreviation state := (DirState (PgRelation0 := pg_table dir_key id_text_le)).

(** An empty table over the root directory and /a. *)
Definition s0 : state :=
  mkDirState (of_rows dir_key rows : rel dir_key id_text_le) ∅ ∅ (mkRWLocks ∅ [] 0) [] None 0.

Definition after (op : dir_op) (s : state) : state :=
  match run_op op s with Ret _ s' => s' | _ => s end.

(** mkdir /b: lock the root for reading and the pair (1, b) for writing, then
    insert the row and end the command. *)
Definition mkdir_b : list dir_op :=
  [OpSearch 0 "/" DIR_LOCK_SHARED; OpSearch 1 "b" DIR_LOCK_EXCLUSIVE;
   OpInsert 1 "b" 8 DIR_LOCK_NONE; OpCommand].

Definition s1 : state := after (OpSearch 0 "/" DIR_LOCK_SHARED) s0.
Definition s2 : state := after (OpSearch 1 "b" DIR_LOCK_EXCLUSIVE) s1.
Definition s3 : state := after (OpInsert 1 "b" 8 DIR_LOCK_NONE) s2.
Definition s4 : state := after OpCommand s3.

Lemma after_ret op s : is_ret (run_op op s) = true → run_op op s = Ret () (after op s).
Proof. unfold after. by destruct (run_op op s) as [[] ?|? ?| |]. Qed.

Ltac not_updated :=
  let v := fresh in let H := fresh in
  right; intros [v H];
  match type of H with _ ∈ DirPathHashToCommit ?s =>
    let l := eval vm_compute in (DirPathHashToCommit s) in
    replace (DirPathHashToCommit s) with l in H by (vm_compute; reflexivity)
  end;
  repeat (apply elem_of_cons in H as [H|H]; [discriminate|]); by apply not_elem_of_nil in H.

Ltac fits := by apply (bool_decide_eq_true_1 (_ < _)%nat); vm_compute.

Lemma mkdir_b_runs : runs s0 mkdir_b s4.
Proof.
  eapply runs_cons; [split; [not_updated|fits]|apply after_ret; by vm_compute|].
  eapply runs_cons; [split; [not_updated|fits]|apply after_ret; by vm_compute|].
  eapply runs_cons; [split_and!; [not_updated| |fits]|apply after_ret; by vm_compute|].
  - right. exists RW_EXCLUSIVE.
    replace (held_rwlocks _) with [(mkKey "/" 0, RW_SHARED); (mkKey "b" 1, RW_EXCLUSIVE)]
      by (vm_compute; reflexivity). right. left.
  - eapply runs_cons; [done|apply after_ret; by vm_compute|constructor].
Qed.

Lemma s0_real : real_ids (latest (directory_rel s0)).
Proof.
  apply real_ids_rows. apply map_Forall_to_list.
  let l := eval vm_compute in (map_to_list (latest (directory_rel s0))) in
  replace (map_to_list (latest (directory_rel s0))) with l by (vm_compute; reflexivity).
  repeat (apply Forall_cons; split; [discriminate|]). apply Forall_nil_2.
Qed.

Lemma transaction_coherence_witness :
  ∃ s2, CommitForDirPathHash s4 = Ret () s2 ∧ abort_safe (latest (directory_rel s2)) s2 ∧
    directory_rel s2 = directory_rel s4.
Proof.
  destruct (transaction_coherence s0 mkdir_b s4 (empty_safe _ _ _) eq_refl eq_refl s0_real mkdir_b_runs)
    as (_ & _ & t & Ht & Hsafe & Hr & _).
  exact (ex_intro _ t (conj Ht (conj Hsafe Hr))).
Defined.

Lemma s0_txn : txn (latest (directory_rel s0)) s0.
Proof. apply txn_begin; [apply empty_safe|reflexivity|reflexivity]. Qed.

Lemma s2_txn : txn (latest (directory_rel s0)) s2.
Proof.
  apply (runs_txn _ s0 (take 2 mkdir_b)); [apply s0_txn|apply s0_real|].
  eapply runs_cons; [split; [not_updated|fits]|apply after_ret; by vm_compute|].
  eapply runs_cons; [split; [not_updated|fits]|apply after_ret; by vm_compute|constructor].
Qed.

Lemma Search_returns_committed_witness :
  returns (SearchDirectoryByDirectoryHashTable 1 "a" DIR_LOCK_SHARED s0)
    (λ id s', id = 7 ∧ known s' (mkKey "a" 1)).
Proof.
  eapply returns_mono; [eapply outcome_ok_returns; [|vm_compute; reflexivity]|].
  - apply (Search_returns_committed (latest (directory_rel s0)));
      [apply s0_txn|apply s0_real|not_updated|fits].
  - intros id s' (-> & _ & _ & Hl). split; [vm_compute; reflexivity|]. apply Hl.
Defined.

Lemma Insert_records_witness :
  returns (InsertDirectoryByDirectoryHashTable 1 "b" 8 100 DIR_LOCK_NONE s2)
    (λ _ s', latest (directory_rel s') !! (1, "b") = Some (mkDirRow 1 "b" 8)).
Proof.
  eapply returns_mono; [eapply outcome_ok_returns; [|vm_compute; reflexivity]|].
  - apply (Insert_records (latest (directory_rel s0)));
      [apply s2_txn|apply s0_real|not_updated| |fits].
    right. exists RW_EXCLUSIVE.
    replace (held_rwlocks _) with [(mkKey "/" 0, RW_SHARED); (mkKey "b" 1, RW_EXCLUSIVE)]
      by (vm_compute; reflexivity). right. left.
  - intros u s' (_ & _ & _ & Hl & _). rewrite Hl. apply lookup_insert_eq.
Defined.

Lemma Delete_records_witness :
  returns (DeleteDirectoryByDirectoryHashTable 1 "a" DIR_LOCK_EXCLUSIVE s0)
    (λ _ s', latest (directory_rel s') !! (1, "a") = None).
Proof.
  eapply returns_mono; [eapply outcome_ok_returns; [|vm_compute; reflexivity]|].
  - apply (Delete_records (latest (directory_rel s0))); [apply s0_txn|by left|done|fits].
  - intros u s' (_ & _ & _ & Hl & _). rewrite Hl. apply lookup_delete_eq.
Defined.

(** Fourteen pairs of partition 5, the first one locked. *)
Definition crowd : list dir_op :=
  OpSearch 9 "n" DIR_LOCK_SHARED ::
  ((λ n, OpSearch (137 + 128 * Z.of_nat n) "n" DIR_LOCK_NONE) <$> seq 0 13).

Definition crowded : state := foldl (λ s op, after op s) s0 crowd.

Lemma crowd_runs : runs s0 crowd crowded.
Proof.
  unfold crowded, crowd. cbn -[after].
  repeat (eapply runs_cons; [split; [not_updated|fits]|apply after_ret; by vm_compute|]). constructor.
Qed.

(** Another backend that evicts a given entry, if nobody refers to it. *)
Definition rival (k : DirPathHashKey) (s : state) : state :=
  match PathDirHash s !! k, lock_words (dir_locks s) !! k with
  | Some _, Some w => if decide (Z.land w RW_REF_COUNT_MASK = 0) then evict k s else s
  | _, _ => s
  end.

Lemma rival_other k : other_backend (rival k).
Proof.
  intros s Hok. unfold rival. destruct (PathDirHash s !! k) as [i|] eqn:Hi; [|done].
  destruct (lock_words (dir_locks s) !! k) as [w|] eqn:Hw; [|done].
  destruct (decide _) as [Hd|]; [|done]. apply (evict_ok s k i); [done|done|]. by exists w.
Qed.

(** A computed fact of a result, beside what is proved of it. *)
Lemma returns_checked {S A} (o : outcome S A) P E D (c : A → S → bool) :
  outcome_ok o P E D → match o with Ret a s => c a s | _ => false end = true →
  returns o (λ a s, P a s ∧ c a s = true).
Proof. by destruct o. Qed.

(** The loop picks (1417, n), the other backend evicts that entry before this
    one has the exclusive lock, and the second round removes another. *)
Lemma Eliminate_ends_witness :
  size (partition 5 crowded) = 14%nat ∧
  returns (EliminateAmong [rival (mkKey "n" 1417)] 5 crowded)
    (λ b s', b = true ∧ eliminated [rival (mkKey "n" 1417)] 5 crowded b s' ∧ cache_ok s' ∧
      has_space (partition 5 s') = true ∧ size (partition 5 s') = 12%nat).
Proof.
  split; [by vm_compute|].
  eapply returns_mono; [eapply (returns_checked _ _ _ _
    (λ b s', b && bool_decide (size (partition 5 s') = 12%nat))); [|by vm_compute]|].
  - apply (Eliminate_ends [rival (mkKey "n" 1417)] 5 crowded); [by apply Forall_singleton, rival_other|].
    eapply txn_ok, runs_txn; [apply s0_txn|apply s0_real|apply crowd_runs].
  - intros b s' [(Hok & Hsp & Hel & _) [Hb Hsz]%andb_true_iff].
    apply bool_decide_eq_true in Hsz. rewrite decide_False in Hel by (vm_compute; by intros H; apply H).
    destruct b; [|done]. exact (conj eq_refl (conj Hel (conj Hok (conj (Hsp eq_refl) Hsz)))).
Defined.

(** The committed table knows the new directory. *)
Lemma commit_sees_b :
  match CommitForDirPathHash s4 with
  | Ret _ t => inodeId <$> PathDirHash t !! mkKey "b" 1
  | _ => None
  end = Some 8.
Proof. vm_compute. reflexivity. Qed.
End DirWitness.
