(* ===== verification/PathParse.v ===== *)
(** * Path resolution (utils/path_parse.c, utils/utils_standalone.c)

    PathParseTreeInsert walks a path component by component, looks each
    directory up through the shared directory table and locks it, and
    remembers what it has locked in a tree that lives as long as the
    transaction.  The file also holds the order in which a batch of paths is
    processed (pathcmp) and the generator of inode numbers. *)

From S2P Require Import Prelude Pg Shard RWLock DirHash.

(** ** Path order *)

Definition char_code (c : ascii) : Z := Z.of_nat (nat_of_ascii c).
Definition c_slash : ascii := "/"%char.

(** The do-while loop of pathcmp at position [i]; both strings are read up to
    and including their terminator. *)
Fixpoint pathcmp_loop (fuel : nat) (p1 p2 : string) (i : nat) : option Z :=
  match fuel with
  | O => None
  | S fuel' =>
      match c_at p1 i, c_at p2 i with
      | Some c1, Some c2 =>
          if decide (c1 = c_nul) then Some (char_code c1 - char_code c2)
          else if decide (c1 = c2) then pathcmp_loop fuel' p1 p2 (S i)
          else if decide (c2 = c_nul ∨ c2 = c_slash) then Some 1
          else if decide (c1 = c_slash) then Some (-1)
          else Some (char_code c1 - char_code c2)
      | _, _ => None
      end
  end.

Definition pathcmp (p1 p2 : string) : option Z := pathcmp_loop (S (String.length p1)) p1 p2 0.

(** *** The order pathcmp decides *)

(** A slash sorts before every other character of a path. *)
Definition char_weight (c : ascii) : Z := if decide (c = c_slash) then 1 else char_code c + 2.

Definition path_weights (p : string) : list Z := char_weight <$> String.list_ascii_of_string p.

Definition path_le (p q : string) : Prop := lex_le (path_weights p) (path_weights q).

Lemma char_code_inj c d : char_code c = char_code d → c = d.
Proof.
  unfold char_code. intros Hcd%Nat2Z.inj.
  by rewrite <-(ascii_nat_embedding c), <-(ascii_nat_embedding d), Hcd.
Qed.

Lemma char_code_nonneg c : 0 ≤ char_code c.
Proof. unfold char_code. lia. Qed.

Lemma char_weight_inj c d : char_weight c = char_weight d → c = d.
Proof.
  unfold char_weight. pose proof (char_code_nonneg c). pose proof (char_code_nonneg d).
  destruct (decide (c = c_slash)), (decide (d = c_slash)); try lia; [congruence|].
  intros. apply char_code_inj. lia.
Qed.

Lemma path_weights_inj p q : path_weights p = path_weights q → p = q.
Proof.
  intros Hw. apply (list_fmap_eq_inj char_weight char_weight_inj) in Hw.
  by rewrite <-(String.string_of_list_ascii_of_string p), Hw, String.string_of_list_ascii_of_string.
Qed.

Lemma nonzero_code c : c ≠ c_nul → 0 < char_code c.
Proof.
  intros Hc. pose proof (char_code_nonneg c). destruct (decide (char_code c = 0)) as [Hz|]; [|lia].
  exfalso. apply Hc. by apply char_code_inj.
Qed.

(** The loop on what is left of both strings. *)
Lemma pathcmp_loop_spec fuel a b p q :
  cstring p → cstring q → String.length a = String.length b → (String.length p < fuel)%nat →
  ∃ z, pathcmp_loop fuel (a ++ p) (b ++ q) (String.length a) = Some z ∧
    (z ≤ 0 ↔ path_le p q) ∧ (z = 0 ↔ p = q).
Proof.
  revert a b p q. induction fuel as [|fuel IH]; intros a b p q Hp Hq Hab Hf; [lia|].
  cbn [pathcmp_loop].
  assert (∀ x, c_at (a ++ x) (String.length a) = c_at x 0) as Ha
    by (intros x; rewrite <-(Nat.add_0_r (String.length a)); apply c_at_app).
  assert (∀ x, c_at (b ++ x) (String.length a) = c_at x 0) as Hb
    by (intros x; rewrite Hab, <-(Nat.add_0_r (String.length b)); apply c_at_app).
  rewrite Ha, Hb, !c_at_0. unfold path_le, path_weights. destruct p as [|c p].
  - rewrite decide_True by done. eexists. split; [done|]. change (char_code c_nul) with 0. destruct q as [|d q]; simpl.
    + change (char_code c_nul) with 0. split; [split; [done|lia]|split; [done|lia]].
    + apply cstring_cons in Hq as [Hd _]. pose proof (nonzero_code d Hd).
      split; [split; [done|lia]|split; [lia|done]].
  - apply cstring_cons in Hp as [Hc Hp]. rewrite decide_False by done. destruct q as [|d q].
    + rewrite decide_False by done. rewrite decide_True by auto. exists 1. simpl. split; [done|].
      split; [split; [lia|done]|split; [lia|done]].
    + apply cstring_cons in Hq as [Hd Hq]. destruct (decide (c = d)) as [<-|Hne].
      * destruct (IH (a ++ String c "")%string (b ++ String c "")%string p q) as (z & Hz & Hle & Heq);
          [done|done|rewrite !string_length_app; simpl; lia|simpl in Hf; lia|].
        rewrite string_length_app, !string_app_assoc in Hz. simpl in Hz. rewrite Nat.add_1_r in Hz.
        exists z. split; [done|]. simpl. split.
        -- rewrite Hle. unfold path_le, path_weights. split; [by right|]. intros [?|[_ ?]]; [lia|done].
        -- rewrite Heq. split; [by intros ->|by intros [= ->]].
      * pose proof (nonzero_code c Hc). pose proof (nonzero_code d Hd).
        assert (char_code c ≠ char_code d) by (intros Hcd; by apply Hne, char_code_inj).
        assert (∀ e, e ≠ c_slash → char_weight e = char_code e + 2) as Hw
          by (intros e He; unfold char_weight; by rewrite decide_False).
        assert (char_weight c_slash = 1) as Hs by done. simpl.
        destruct (decide (d = c_slash)) as [->|Hds].
        { rewrite decide_True by auto. exists 1. split; [done|]. rewrite Hs, (Hw c) by done.
          split; [split; [lia|intros [?|[? _]]; lia]|split; [lia|congruence]]. }
        rewrite decide_False by tauto. destruct (decide (c = c_slash)) as [->|Hcs].
        { exists (-1). split; [done|]. rewrite Hs, (Hw d) by done.
          split; [split; [left; lia|lia]|split; [lia|congruence]]. }
        eexists. split; [done|]. rewrite (Hw c), (Hw d) by done. split; [|split; [lia|congruence]].
        split; [left; lia|intros [?|[? _]]; lia].
Qed.

Lemma pathcmp_spec p q :
  cstring p → cstring q →
  ∃ z, pathcmp p q = Some z ∧ (z ≤ 0 ↔ path_le p q) ∧ (z = 0 ↔ p = q).
Proof. intros Hp Hq. apply (pathcmp_loop_spec _ "" "" p q); [done|done|done|lia]. Qed.

(** pathcmp is a total order on paths, in which a directory comes before
    everything in it and all that lies between a directory and something in
    it is itself in the directory: sorting a batch with it puts a directory
    and its subtree next to each other, parents first. *)
Theorem pathcmp_order p q r :
  cstring p → cstring q → cstring r →
  ∃ pq qp qr pr, pathcmp p q = Some pq ∧ pathcmp q p = Some qp ∧ pathcmp q r = Some qr ∧
    pathcmp p r = Some pr ∧
    (pq = 0 ↔ p = q) ∧ (pq ≤ 0 ∨ qp ≤ 0) ∧ (pq ≤ 0 → qr ≤ 0 → pr ≤ 0) ∧
    (∀ rest, q = (p ++ "/" ++ rest)%string → pq < 0) ∧
    (∀ rest, r = (p ++ "/" ++ rest)%string → pq ≤ 0 → qr ≤ 0 →
      q = p ∨ ∃ rest', q = (p ++ "/" ++ rest')%string).
Proof.
  intros Hp Hq Hr.
  destruct (pathcmp_spec p q Hp Hq) as (pq & Epq & Lpq & Zpq).
  destruct (pathcmp_spec q p Hq Hp) as (qp & Eqp & Lqp & Zqp).
  destruct (pathcmp_spec q r Hq Hr) as (qr & Eqr & Lqr & Zqr).
  destruct (pathcmp_spec p r Hp Hr) as (pr & Epr & Lpr & Zpr).
  assert (∀ x y, path_weights (x ++ y) = path_weights x ++ path_weights y) as Happ.
  { intros x y. unfold path_weights. rewrite <-fmap_app. f_equal.
    induction x as [|c x IH]; [done|exact (f_equal (cons c) IH)]. }
  exists pq, qp, qr, pr. split_and!; try done.
  - rewrite Lpq, Lqp. apply lex_le_total.
  - rewrite Lpq, Lqr, Lpr. apply lex_le_trans.
  - intros rest Hrest. assert (pq ≠ 0).
    { rewrite Zpq, Hrest. intros Heq. apply (f_equal String.length) in Heq.
      rewrite !string_length_app in Heq. simpl in Heq. lia. }
    enough (pq ≤ 0) by lia. apply Lpq. unfold path_le. rewrite Hrest, Happ. clear.
    induction (path_weights p); simpl; auto.
  - intros rest -> H1%Lpq H2%Lqr. unfold path_le in *. rewrite Happ in H2.
    destruct (lex_le_between _ _ _ H1 H2) as (x & Hx & Hle).
    destruct q as [|c q]; [left; symmetry; apply path_weights_inj; rewrite Hx in *; by destruct (path_weights p)|].
    destruct x as [|w x]; [left; apply path_weights_inj; by rewrite Hx, app_nil_r|right].
    assert (∃ q', String c q = (p ++ q')%string ∧ path_weights q' = w :: x) as (q' & -> & Hq').
    { clear -Hx. revert Hx. generalize (String c q) as q0. clear. induction p as [|d p IH]; intros q0 Hx; [by exists q0|].
      destruct q0 as [|e q0]; [done|]. simpl in Hx. injection Hx as He Hx.
      destruct (IH q0 Hx) as (q' & -> & ?). exists q'. split; [|done].
      by rewrite (char_weight_inj _ _ He). }
    destruct q' as [|d q']; [done|]. injection Hq' as <- <-. simpl in Hle.
    assert (d = c_slash) as ->; [|by exists q'].
    unfold char_weight in Hle. destruct (decide (d = c_slash)); [done|].
    pose proof (char_code_nonneg d). rewrite decide_True in Hle by done. lia.
Qed.

(** ** Data *)

Definition PATH_PARSE_FLAG_NOT_ROOT : Z := 1.
Definition PATH_PARSE_FLAG_TARGET_IS_DIRECTORY : Z := 2.
Definition PATH_PARSE_FLAG_TARGET_TO_BE_CREATED : Z := 4.
Definition PATH_PARSE_FLAG_INODE_ID_FOR_INPUT : Z := 8.
Definition PATH_PARSE_FLAG_TARGET_TO_BE_DELETED : Z := 16.
Definition PATH_PARSE_FLAG_ALLOW_OPERATION_UNDER_CREATED_DIRECTORY : Z := 32.
Definition PATH_PARSE_FLAG_ACQUIRE_SHARED_LOCK_IF_TARGET_IS_DIRECTORY : Z := 64.

Definition has_flag (flag f : Z) : bool := bool_decide (Z.land flag f ≠ 0).

Inductive PPLockMode := PP_NONE | PP_SHARED | PP_EXCLUSIVE | PP_EXCLUSIVE_FOR_CREATE.
#[global] Instance PPLockMode_eq_dec : EqDecision PPLockMode.
Proof. solve_decision. Defined.

(** A node of the tree, without its name and children: the tree is kept as a
    map from the names on the way to the node. *)
Record PathParseRBTreeNode := mkNode { node_inodeId : Z; lockAcquired : PPLockMode }.
#[global] Instance eta_PathParseRBTreeNode : Eta PathParseRBTreeNode :=
  λ n, mkNode (node_inodeId n) (lockAcquired n).

Abbreviation PathParseTree := (gmap (list string) PathParseRBTreeNode).

(** inodeId = 0, no name, no children; lockAcquired is not set and, for the
    root node, never read. *)
Definition PathParseTreeInit : PathParseTree := {[ [] := mkNode 0 PP_NONE ]}.

(** What PathParseTreeInsert returns: the error code and what it has stored
    through its out parameters. *)
Record ParseResult := mkResult {
  pr_errorCode : CuckooErrorCode;
  pr_parentId : option Z;
  pr_fileName : option string;
  pr_inodeId : option Z }.

Section path_parse.
Context `{!PgEnv, !Collation, !DirHashEnv, !PgRelation dir_key id_text_le}.
(** GetLocalServerId() *)
Context (LocalServerId : Z).

(** The directory state, TransactionLevelPathParseRoot, the static variables
    of GetNextSequenceNum and the next value of pg_dfs_inodeid_seq. *)
Record PathState := mkPathState {
  ps_dir : DirState;
  TransactionLevelPathParseRoot : option PathParseTree;
  remainNumberCount : Z;
  currentSequenceNumber : Z;
  inodeid_seq : Z }.

#[global] Instance eta_PathState : Eta PathState := λ s,
  mkPathState (ps_dir s) (TransactionLevelPathParseRoot s) (remainNumberCount s)
    (currentSequenceNumber s) (inodeid_seq s).

Abbreviation P := (M PathState).

Definition on_dir {A} (m : M DirState A) : P A := mzoom ps_dir (λ d s, s <| ps_dir := d |>) m.

(** ** Inode numbers *)

(** nextval_oid of a sequence with INCREMENT BY 32, MAXVALUE 2^63 - 1. *)
Definition nextval : P Z :=
  s ← mget;
  if decide (2 ^ 63 ≤ inodeid_seq s) then melog PROGRAM_ERROR
  else mput (s <| inodeid_seq ::= λ v, v + 32 |>) ;; mret (inodeid_seq s).

Definition GetNextSequenceNum : P Z :=
  s ← mget;
  (if decide (remainNumberCount s = 0) then
     sequenceNum ← nextval;
     mmodify (λ s, s <| remainNumberCount := 32 |> <| currentSequenceNumber := u64 sequenceNum |>)
   else mret ()) ;;
  mmodify (λ s, s <| remainNumberCount ::= λ n, i32 (n - 1) |>
                  <| currentSequenceNumber ::= λ n, u64 (n + 1) |>) ;;
  s ← mget;
  mret (u64 (currentSequenceNumber s - 1)).

(** ** The walk *)

(** The number of characters from [pos] to the next slash or the end. *)
Fixpoint name_length (fuel : nat) (path : string) (pos : nat) : option nat :=
  match fuel with
  | O => None
  | S fuel' =>
      match c_at path pos with
      | None => None
      | Some c =>
          if decide (c = c_nul ∨ c = c_slash) then Some O
          else S <$> name_length fuel' path (S pos)
      end
  end.

Definition tree_set (p : list string) (n : PathParseRBTreeNode) : P () :=
  mmodify (λ s, s <| TransactionLevelPathParseRoot ::= fmap <[p := n]> |>).

Definition tree_get (p : list string) : P (option PathParseRBTreeNode) :=
  s ← mget; mret (TransactionLevelPathParseRoot s ≫= λ t, t !! p).

(** The body of the while loop: step from the node [cur] to its child
    [name], or stop with an error code. *)
Definition visit (cur : list string) (name : string) : P (option CuckooErrorCode) :=
  parent ← tree_get cur;
  node ← tree_get (cur ++ [name]);
  match parent, node with
  | None, _ => mundefined
  | Some parent, None =>
      currentDirectoryId ← on_dir (SearchDirectoryByDirectoryHashTable (node_inodeId parent) name DIR_LOCK_SHARED);
      if decide (currentDirectoryId = u64 (-1)) then mret (Some PATH_IS_INVALID)
      else tree_set (cur ++ [name]) (mkNode currentDirectoryId PP_SHARED) ;; mret None
  | Some _, Some node =>
      if decide (lockAcquired node = PP_EXCLUSIVE) then mret (Some PATH_LOCK_CONFLICT)
      else if decide (lockAcquired node = PP_NONE) then
        on_dir (SearchDirectoryByDirectoryHashTable (node_inodeId node) name DIR_LOCK_SHARED) ;;
        tree_set (cur ++ [name]) (node <| lockAcquired := PP_SHARED |>) ;;
        mret None
      else mret None
  end.

(** while (path[start + length] != '\0'): the error code, or where the last
    component starts, its length and the node of the directory it is in.
    Each iteration moves past a component, so one per character. *)
Fixpoint parse_loop (fuel : nat) (path : string) (start len : nat) (cur : list string)
    : P (CuckooErrorCode + nat * nat * list string) :=
  match fuel with
  | O => mdiverge
  | S fuel' =>
      match c_at path (start + len) with
      | None => mundefined
      | Some c =>
          if decide (c = c_nul) then mret (inr (start, len, cur))
          else
            let name := String.substring start len path in
            err ← visit cur name;
            match err with
            | Some e => mret (inl e)
            | None =>
                let start' := if decide (start = 0%nat) then 1%nat else (start + len + 1)%nat in
                match name_length (S (String.length path)) path start' with
                | None => mundefined
                | Some len' => parse_loop fuel' path start' len' (cur ++ [name])
                end
            end
      end
  end.

(** if (flag & TARGET_TO_BE_CREATED): the error code and the new *inodeId. *)
Definition parse_create (flag : Z) (cur : list string) (parentId : Z) (name : string) (inodeId : option Z)
    : P (CuckooErrorCode * option Z) :=
  match inodeId with
  | None => melog PROGRAM_ERROR
  | Some inodeId =>
      if has_flag flag PATH_PARSE_FLAG_TARGET_IS_DIRECTORY then
        node ← tree_get (cur ++ [name]);
        match node with
        | Some _ => mret (PATH_EXISTS, Some inodeId)
        | None =>
            targetInodeId ← on_dir (SearchDirectoryByDirectoryHashTable parentId name DIR_LOCK_EXCLUSIVE);
            inodeId ← (if has_flag flag PATH_PARSE_FLAG_INODE_ID_FOR_INPUT then mret inodeId
                       else if decide (targetInodeId ≠ DIR_HASH_TABLE_PATH_NOT_EXIST) then mret targetInodeId
                       else seq ← GetNextSequenceNum; mret (GenerateInodeIdBySeqAndNodeId seq LocalServerId));
            tree_set (cur ++ [name]) (mkNode inodeId
              (if has_flag flag PATH_PARSE_FLAG_ALLOW_OPERATION_UNDER_CREATED_DIRECTORY
               then PP_EXCLUSIVE_FOR_CREATE else PP_EXCLUSIVE)) ;;
            if decide (targetInodeId ≠ DIR_HASH_TABLE_PATH_NOT_EXIST) then mret (PATH_EXISTS, Some inodeId)
            else mret (SUCCESS, Some inodeId)
        end
      else if has_flag flag PATH_PARSE_FLAG_INODE_ID_FOR_INPUT then mret (SUCCESS, Some inodeId)
      else
        seq ← GetNextSequenceNum;
        mret (SUCCESS, Some (GenerateInodeIdBySeqAndNodeId seq LocalServerId))
  end.

(** else if (TARGET_TO_BE_DELETED and TARGET_IS_DIRECTORY). *)
Definition parse_delete (cur : list string) (parentId : Z) (name : string) (inodeId : option Z)
    : P (CuckooErrorCode * option Z) :=
  match inodeId with
  | None => melog PROGRAM_ERROR
  | Some inodeId =>
      node ← tree_get (cur ++ [name]);
      match node with
      | Some n =>
          if decide (lockAcquired n ≠ PP_NONE) then mret (PATH_LOCK_CONFLICT, Some inodeId)
          else
            inodeId ← on_dir (SearchDirectoryByDirectoryHashTable parentId name DIR_LOCK_EXCLUSIVE);
            if decide (inodeId = DIR_HASH_TABLE_PATH_NOT_EXIST) then mret (PATH_NOT_EXISTS, Some inodeId)
            else
              tree_set (cur ++ [name]) (n <| lockAcquired := PP_EXCLUSIVE |>) ;;
              mret (SUCCESS, Some inodeId)
      | None =>
          inodeId ← on_dir (SearchDirectoryByDirectoryHashTable parentId name DIR_LOCK_EXCLUSIVE);
          if decide (inodeId = DIR_HASH_TABLE_PATH_NOT_EXIST) then mret (PATH_NOT_EXISTS, Some inodeId)
          else
            tree_set (cur ++ [name]) (mkNode inodeId PP_EXCLUSIVE) ;;
            mret (SUCCESS, Some inodeId)
      end
  end.

(** else if (ACQUIRE_SHARED_LOCK_IF_TARGET_IS_DIRECTORY). *)
Definition parse_shared (flag : Z) (cur : list string) (parentId : Z) (name : string) (inodeId : option Z)
    : P (CuckooErrorCode * option Z) :=
  node ← tree_get (cur ++ [name]);
  match node with
  | Some n =>
      if decide (lockAcquired n = PP_EXCLUSIVE) then mret (PATH_LOCK_CONFLICT, inodeId)
      else
        (if decide (node_inodeId n ≠ DIR_HASH_TABLE_PATH_NOT_EXIST ∧ lockAcquired n = PP_NONE) then
           on_dir (SearchDirectoryByDirectoryHashTable (node_inodeId n) name DIR_LOCK_SHARED) ;;
           tree_set (cur ++ [name]) (n <| lockAcquired := PP_SHARED |>)
         else mret ()) ;;
        mret (SUCCESS, (λ _, node_inodeId n) <$> inodeId)
  | None =>
      currentDirectoryId ← on_dir (SearchDirectoryByDirectoryHashTable parentId name DIR_LOCK_SHARED);
      if decide (currentDirectoryId = DIR_HASH_TABLE_PATH_NOT_EXIST ∧
                 has_flag flag PATH_PARSE_FLAG_TARGET_IS_DIRECTORY = true)
      then mret (PATH_NOT_EXISTS, inodeId)
      else
        (if decide (currentDirectoryId = DIR_HASH_TABLE_PATH_NOT_EXIST) then
           d ← on_dir mget;
           match DirectoryHashTableLastAcquiredLock d with
           | None => mundefined
           | Some lock => on_dir (on_locks (RWLockRelease lock))
           end ;;
           tree_set (cur ++ [name]) (mkNode currentDirectoryId PP_NONE)
         else tree_set (cur ++ [name]) (mkNode currentDirectoryId PP_SHARED)) ;;
        mret (SUCCESS, (λ _, currentDirectoryId) <$> inodeId)
  end.

(** What follows the walk: the target of the path, according to the flags. *)
Definition parse_target (flag : Z) (cur : list string) (parentId : Z) (name : string) (inodeId : option Z)
    : P (CuckooErrorCode * option Z) :=
  if has_flag flag PATH_PARSE_FLAG_TARGET_TO_BE_CREATED then parse_create flag cur parentId name inodeId
  else if has_flag flag PATH_PARSE_FLAG_TARGET_TO_BE_DELETED && has_flag flag PATH_PARSE_FLAG_TARGET_IS_DIRECTORY
  then parse_delete cur parentId name inodeId
  else if has_flag flag PATH_PARSE_FLAG_ACQUIRE_SHARED_LOCK_IF_TARGET_IS_DIRECTORY
  then parse_shared flag cur parentId name inodeId
  else mret (SUCCESS, inodeId).

(** [inodeId]: None for a null pointer.  Every caller passes a null [root],
    which stands for the tree of the transaction; a caller that passes a null
    [parentId] or [fileName] does not look at that field of the result. *)
Definition PathParseTreeInsert (path : string) (flag : Z) (inodeId : option Z) : P ParseResult :=
  if decide (path = "/"%string ∧ has_flag flag PATH_PARSE_FLAG_NOT_ROOT = true) then
    mret (mkResult PATH_IS_ROOT None None inodeId)
  else
    mmodify (λ s, s <| TransactionLevelPathParseRoot ::= λ r, Some (default PathParseTreeInit r) |>) ;;
    r ← parse_loop (S (String.length path)) path 0 1 [];
    match r with
    | inl errorCode => mret (mkResult errorCode None None inodeId)
    | inr (start, len, cur) =>
        node ← tree_get cur;
        match node with
        | None => mundefined
        | Some node =>
            let name := String.substring start len path in
            r ← parse_target flag cur (node_inodeId node) name inodeId;
            mret (mkResult r.1 (Some (node_inodeId node)) (Some name) r.2)
        end
    end.

Definition TransactionLevelPathParseReset : P () :=
  mmodify (λ s, s <| TransactionLevelPathParseRoot := None |>).

(** ** Checks on a path *)

Definition VERIFY_PATH_VALIDITY_REQUIREMENT_MUST_BE_DIRECTORY : Z := 1.
Definition VERIFY_PATH_VALIDITY_REQUIREMENT_MUST_BE_FILE : Z := 2.
Definition VERIFY_PATH_VALIDITY_PROPERTY_CAN_BE_DIRECTORY : Z := 1.
Definition VERIFY_PATH_VALIDITY_PROPERTY_CAN_BE_FILE : Z := 2.

(** The error code and *property. *)
Definition VerifyPathValidity (path : string) (requirement : Z) : CuckooErrorCode * Z :=
  if decide (c_at path 0 ≠ Some c_slash) then (PATH_IS_INVALID, 0)
  else
    let property :=
      if decide (c_at path (String.length path - 1) = Some c_slash)
      then VERIFY_PATH_VALIDITY_PROPERTY_CAN_BE_DIRECTORY
      else Z.lor VERIFY_PATH_VALIDITY_PROPERTY_CAN_BE_DIRECTORY VERIFY_PATH_VALIDITY_PROPERTY_CAN_BE_FILE in
    if has_flag requirement VERIFY_PATH_VALIDITY_REQUIREMENT_MUST_BE_DIRECTORY &&
       negb (has_flag property VERIFY_PATH_VALIDITY_PROPERTY_CAN_BE_DIRECTORY)
    then (PATH_VERIFY_FAILED, property)
    else if has_flag requirement VERIFY_PATH_VALIDITY_REQUIREMENT_MUST_BE_FILE &&
       negb (has_flag property VERIFY_PATH_VALIDITY_PROPERTY_CAN_BE_FILE)
    then (PATH_VERIFY_FAILED, property)
    else (SUCCESS, property).

(** The loop of CheckWhetherPathExistsInDirectoryTable. *)
Fixpoint exists_loop (fuel : nat) (path : string) (start len : nat) (parentId : Z) : P Z :=
  match fuel with
  | O => mdiverge
  | S fuel' =>
      match c_at path start with
      | None => mundefined
      | Some c =>
          if decide (c = c_nul) then mret parentId
          else
            let name := String.substring start len path in
            currentDirectoryId ← on_dir (SearchDirectoryByDirectoryHashTable parentId name DIR_LOCK_NONE);
            if decide (currentDirectoryId = DIR_HASH_TABLE_PATH_NOT_EXIST) then mret DIR_HASH_TABLE_PATH_NOT_EXIST
            else if decide (start ≠ 0%nat ∧ c_at path (start + len) = Some c_nul) then mret currentDirectoryId
            else
              let start' := if decide (start = 0%nat) then 1%nat else (start + len + 1)%nat in
              match name_length (S (String.length path)) path start' with
              | None => mundefined
              | Some len' => exists_loop fuel' path start' len' currentDirectoryId
              end
      end
  end.

Definition CheckWhetherPathExistsInDirectoryTable (path : string) : P Z :=
  if decide (path = ""%string) then melog ARGUMENT_ERROR
  else if decide (c_at path 0 ≠ Some c_slash) then melog ARGUMENT_ERROR
  else exists_loop (S (S (String.length path))) path 0 1 0.

(** ** The walk by components *)

(** A string cut at every slash. *)
Fixpoint split (s : string) : list string :=
  match s with
  | EmptyString => [""%string]
  | String c s' =>
      if decide (c = c_slash) then ""%string :: split s'
      else match split s' with
           | [] => [String c ""]
           | x :: l => String c x :: l
           end
  end.

(** The components of a path: its first character, which stands for the root
    directory, and what the slashes of the rest separate. *)
Definition components (path : string) : list string :=
  match path with
  | EmptyString => []
  | String c rest => String c "" :: (if decide (rest = ""%string) then [] else split rest)
  end.

(** Visit all components but the last, which is the target. *)
Fixpoint walk (names : list string) (cur : list string) : P (CuckooErrorCode + list string * string) :=
  match names with
  | [] => mundefined
  | [name] => mret (inr (cur, name))
  | name :: names' =>
      err ← visit cur name;
      match err with
      | Some e => mret (inl e)
      | None => walk names' (cur ++ [name])
      end
  end.

Definition target_of (path : string) (r : CuckooErrorCode + nat * nat * list string)
    : CuckooErrorCode + list string * string :=
  match r with
  | inl e => inl e
  | inr (start, len, cur) => inr (cur, String.substring start len path)
  end.

(** A suffix is its first component, alone or followed by a slash and more. *)
Lemma split_cases s :
  cstring s →
  (split s = [s] ∧ c_at s (String.length s) = Some c_nul) ∨
  ∃ x s', split s = x :: split s' ∧ s = (x ++ "/" ++ s')%string ∧ cstring s'.
Proof.
  induction s as [|c s IH]; intros Hs; simpl; [by left|].
  apply cstring_cons in Hs as [Hc Hs]. destruct (decide (c = c_slash)) as [->|Hne].
  { right. by exists ""%string, s. }
  destruct (IH Hs) as [[-> Ht]|(x & s' & Hsp & Heq & Hs')].
  - left. split; [done|]. unfold c_at. simpl. rewrite decide_False by lia. by rewrite decide_True.
  - right. rewrite Hsp. exists (String c x), s'. split_and!; [done| |done]. by rewrite Heq.
Qed.

Lemma substring_all s : String.substring 0 (String.length s) s = s.
Proof. rewrite <-(string_app_nil s) at 2. by rewrite substring_prefix. Qed.

Lemma name_length_spec fuel pre s :
  cstring s → (String.length s < fuel)%nat →
  name_length fuel (pre ++ s) (String.length pre) = String.length <$> head (split s).
Proof.
  revert pre s. induction fuel as [|fuel IH]; intros pre s Hs Hf; [lia|]. cbn [name_length].
  rewrite <-(Nat.add_0_r (String.length pre)) at 1. rewrite c_at_app, c_at_0.
  destruct s as [|c s]; [done|]. apply cstring_cons in Hs as [Hc Hs].
  simpl split. destruct (decide (c = c_slash)) as [->|Hne]; [done|].
  rewrite decide_False by tauto. specialize (IH (pre ++ String c "")%string s Hs ltac:(simpl in Hf; lia)).
  rewrite string_app_assoc, string_length_app in IH. simpl in IH. rewrite Nat.add_1_r in IH.
  change (String c "" +:+ s) with (String c s) in IH. rewrite IH.
  destruct (split s) as [|x l] eqn:E; [|done]. destruct s; simpl in E; [done|].
  repeat case_match; done.
Qed.

Lemma split_nonempty s : split s ≠ [].
Proof. destruct s; simpl; [done|]. repeat case_match; done. Qed.

Lemma length_split s : (length (split s) ≤ S (String.length s))%nat.
Proof.
  induction s as [|c s IH]; simpl; [lia|]. destruct (decide _); simpl; [lia|].
  destruct (split s); simpl in *; lia.
Qed.

(** The loop at a component boundary behind the first character. *)
Lemma parse_loop_walk fuel pre s cur st :
  cstring s → pre ≠ ""%string → (length (split s) ≤ fuel)%nat →
  (r ← parse_loop fuel (pre ++ s) (String.length pre) (default O (String.length <$> head (split s))) cur;
   mret (target_of (pre ++ s) r)) st = walk (split s) cur st.
Proof.
  revert pre s cur st. induction fuel as [|fuel IH]; intros pre s cur st Hs Hpre Hf.
  { pose proof (split_nonempty s). destruct (split s); simpl in Hf; [done|lia]. }
  cbn [parse_loop]. rewrite c_at_app.
  destruct (split_cases s Hs) as [[Hsp Hnul]|(x & s' & Hsp & Heq & Hs')].
  - rewrite Hsp. simpl. rewrite Hnul, decide_True by done. mstep. simpl.
    by rewrite substring_app, substring_all.
  - rewrite Hsp in *. change (default O (String.length <$> head (x :: split s'))) with (String.length x).
    simpl in Hf.
    assert (c_at s (String.length x) = Some c_slash) as ->.
    { rewrite Heq, <-(Nat.add_0_r (String.length x)), c_at_app. done. }
    rewrite decide_False by done. rewrite substring_app, Heq, substring_prefix.
    destruct (split s') as [|y l] eqn:El; [by apply split_nonempty in El|]. cbn [walk].
    rewrite bind_assoc. unfold mbind at 1 3, M_bind at 1 3.
    destruct (visit cur x st) as [[e|] st'|e st'| |]; [done| |done|done|done].
    assert (String.length pre ≠ 0%nat) as Hpos by (by destruct pre).
    rewrite decide_False by done.
    assert (String.length pre + String.length x + 1 = String.length (pre ++ x ++ "/"))%nat as ->
      by (rewrite !string_length_app; simpl; lia).
    assert (pre ++ x ++ "/" ++ s' = (pre ++ x ++ "/") ++ s')%string as -> by by rewrite !string_app_assoc.
    rewrite name_length_spec; [|done|rewrite string_length_app; lia]. rewrite El.
    change (String.length <$> head (y :: l)) with (Some (String.length y)).
    specialize (IH (pre ++ x ++ "/")%string s' (cur ++ [x]) st' Hs').
    rewrite El in IH. apply IH; [|lia]. by destruct pre.
Qed.

(** The loop over character positions visits the components in order. *)
Lemma parse_loop_components path st :
  cstring path → path ≠ ""%string →
  (r ← parse_loop (S (String.length path)) path 0 1 []; mret (target_of path r)) st =
    walk (components path) [] st.
Proof.
  intros Hc Hne. destruct path as [|c rest]; [done|]. clear Hne.
  pose proof Hc as [Hc0 Hrest]%cstring_cons. unfold components.
  destruct (decide (rest = ""%string)) as [->|Hr].
  { cbn [parse_loop]. by mstep. }
  cbn [parse_loop]. change (0 + 1)%nat with (String.length (String c "") + 0)%nat.
  change (String c rest) with (String c "" ++ rest)%string. rewrite c_at_app, c_at_0.
  destruct rest as [|d rest]; [done|]. pose proof Hrest as [Hd _]%cstring_cons. rewrite decide_False by done.
  assert (∃ y l, split (String d rest) = y :: l) as (y & l & El).
  { pose proof (split_nonempty (String d rest)) as Hs. destruct (split (String d rest)); [done|eauto]. }
  rewrite El. cbn [walk]. rewrite bind_assoc. change (String.substring 0 1 (String c "" ++ String d rest)) with (String c "").
  unfold mbind at 1 3, M_bind at 1 3. rewrite app_nil_l.
  destruct (visit [] (String c "") st) as [[e|] st'|e st'| |]; [done| |done|done|done].
  rewrite decide_True by done. change 1%nat with (String.length (String c "")) at 1 2.
  rewrite name_length_spec; [|done|simpl; lia]. rewrite El.
  change (String.length <$> head (y :: l)) with (Some (String.length y)).
  pose proof (parse_loop_walk (S (String.length (String d rest))) (String c "") (String d rest) [String c ""] st'
    Hrest ltac:(done) (length_split _)) as Hw.
  rewrite El in Hw. exact Hw.
Qed.

(** PathParseTreeInsert, by components. *)
Definition parse_by_components (path : string) (flag : Z) (inodeId : option Z) : P ParseResult :=
  if decide (path = "/"%string ∧ has_flag flag PATH_PARSE_FLAG_NOT_ROOT = true) then
    mret (mkResult PATH_IS_ROOT None None inodeId)
  else
    mmodify (λ s, s <| TransactionLevelPathParseRoot ::= λ r, Some (default PathParseTreeInit r) |>) ;;
    r ← walk (components path) [];
    match r with
    | inl errorCode => mret (mkResult errorCode None None inodeId)
    | inr (cur, name) =>
        node ← tree_get cur;
        match node with
        | None => mundefined
        | Some node =>
            r ← parse_target flag cur (node_inodeId node) name inodeId;
            mret (mkResult r.1 (Some (node_inodeId node)) (Some name) r.2)
        end
    end.

Lemma parse_components_eq path flag inodeId s :
  cstring path → path ≠ ""%string →
  PathParseTreeInsert path flag inodeId s = parse_by_components path flag inodeId s.
Proof.
  intros Hc Hne. unfold PathParseTreeInsert, parse_by_components.
  destruct (decide (_ ∧ _)); [done|]. rewrite !bind_mmodify.
  set (s1 := s <| TransactionLevelPathParseRoot ::= _ |>).
  unfold mbind at 1 4, M_bind at 1 4. rewrite <-parse_loop_components by done.
  unfold mbind at 3, M_bind at 3.
  destruct (parse_loop (S (String.length path)) path 0 1 [] s1) as [[e|[[st ln] cur]] s2|e s2| |]; done.
Qed.

(** PathParseTreeInsert, which scans the path character by character,
    does exactly what the walk over the path's components does: every
    component is visited once, in order and under its own name, the last is
    the target, no character past the terminator is read and the loop ends. *)
Theorem PathParseTreeInsert_components path flag inodeId s :
  cstring path → path ≠ ""%string →
  PathParseTreeInsert path flag inodeId s = parse_by_components path flag inodeId s.
Proof. apply parse_components_eq. Qed.

(** ** Resolution *)

(** The directory a path leads to: the tree of the transaction first, then
    the committed directories. *)
Fixpoint resolve_in (t : PathParseTree) (f : DirPathHashKey → Z) (cur : list string) (pid : Z)
    (names : list string) : CuckooErrorCode + list string * string * Z :=
  match names with
  | [] => inl PROGRAM_ERROR
  | [name] => inr (cur, name, pid)
  | name :: names' =>
      match t !! (cur ++ [name]) with
      | Some n =>
          if decide (lockAcquired n = PP_EXCLUSIVE) then inl PATH_LOCK_CONFLICT
          else resolve_in t f (cur ++ [name]) (node_inodeId n) names'
      | None =>
          if decide (f (mkKey name pid) = DIR_HASH_TABLE_PATH_NOT_EXIST) then inl PATH_IS_INVALID
          else resolve_in t f (cur ++ [name]) (f (mkKey name pid)) names'
      end
  end.

Definition node_ok (D0 : gmap (Z * string) FormData_cuckoo_directory_table) (d : DirState)
    (k : DirPathHashKey) (n : PathParseRBTreeNode) : Prop :=
  match lockAcquired n with
  | PP_NONE => node_inodeId n = DIR_HASH_TABLE_PATH_NOT_EXIST ∧ id_of D0 k = DIR_HASH_TABLE_PATH_NOT_EXIST
  | PP_SHARED => node_inodeId n = id_of D0 k ∧
      (node_inodeId n ≠ DIR_HASH_TABLE_PATH_NOT_EXIST → (k, RW_SHARED) ∈ held_rwlocks (dir_locks d))
  | _ => (k, RW_EXCLUSIVE) ∈ held_rwlocks (dir_locks d)
  end.

(** The tree and the locks agree: a node the transaction reads is the
    committed directory, read-locked, and one it creates or removes is
    write-locked. *)
Record tree_ok (D0 : gmap (Z * string) FormData_cuckoo_directory_table) (t : PathParseTree) (d : DirState) : Prop := {
  tree_root : ∃ n, t !! [] = Some n ∧ node_inodeId n = 0;
  tree_node p x n : t !! (p ++ [x]) = Some n →
    ∃ m, t !! p = Some m ∧ node_ok D0 d (mkKey x (node_inodeId m)) n }.

Definition updates_known (d : DirState) : Prop := ∀ k, updated d k → known d k.

Record walk_inv (D0 : gmap (Z * string) FormData_cuckoo_directory_table) (t : PathParseTree) (s : PathState) : Prop := {
  wi_tree : TransactionLevelPathParseRoot s = Some t;
  wi_txn : txn D0 (ps_dir s);
  wi_known : updates_known (ps_dir s);
  wi_ok : tree_ok D0 t (ps_dir s) }.

Lemma node_ok_extends D0 d d' k n : extends d d' → node_ok D0 d k n → node_ok D0 d' k n.
Proof.
  intros Hx. unfold node_ok. destruct (lockAcquired n); [done| |apply Hx|apply Hx].
  intros [? Hh]. split; [done|]. intros. by apply Hx, Hh.
Qed.

Lemma updates_known_extends D0 d d' : txn D0 d → extends d d' → updates_known d → updates_known d'.
Proof.
  intros Ht Hx Hk k Hu. destruct (ext_commit _ _ Hx) as [ks Hc].
  apply (updated_adds _ _ _ _ Hc) in Hu. destruct (txn_locked _ _ Ht k Hu) as [_ [m Hm]].
  apply (ext_known _ _ Hx k m Hm). by apply Hk.
Qed.

Lemma app_snoc_ne {A} (l : list A) x : l ++ [x] ≠ l.
Proof. intros Heq. apply (f_equal length) in Heq. rewrite length_app in Heq. simpl in Heq. lia. Qed.

Lemma tree_ok_extends D0 t d d' : tree_ok D0 t d → extends d d' → tree_ok D0 t d'.
Proof.
  intros [Hroot Hn] Hx. split; [done|]. intros p x n Hp. destruct (Hn p x n Hp) as (m & ? & ?).
  exists m. split; [done|]. by eapply node_ok_extends.
Qed.

(** Another lock on a node. *)
Lemma tree_ok_relock D0 t d d' cur name n n' m :
  tree_ok D0 t d → extends d d' → t !! cur = Some m → t !! (cur ++ [name]) = Some n → node_inodeId n' = node_inodeId n →
  node_ok D0 d' (mkKey name (node_inodeId m)) n' → tree_ok D0 (<[cur ++ [name] := n']> t) d'.
Proof.
  intros [(r & Hr & Hr0) Hn] Hx Hm Hold Hid Hok. split.
  - exists r. rewrite lookup_insert_ne; [done|]. by destruct cur.
  - intros p x q. destruct (decide (cur ++ [name] = p ++ [x])) as [Heq|Hne].
    + apply app_inj_tail in Heq as [<- <-]. rewrite lookup_insert_eq. intros [= <-].
      exists m. rewrite lookup_insert_ne by apply app_snoc_ne. done.
    + rewrite lookup_insert_ne by done. intros Hp. destruct (Hn p x q Hp) as (m' & Hm' & Hok').
      destruct (decide (cur ++ [name] = p)) as [<-|Hp'].
      * exists n'. rewrite lookup_insert_eq. split; [done|]. rewrite Hid. rewrite Hold in Hm'. injection Hm' as <-. by eapply node_ok_extends.
      * exists m'. rewrite lookup_insert_ne by done. split; [done|]. by eapply node_ok_extends.
Qed.

(** Adding a node below an existing one. *)
Lemma tree_ok_insert D0 t d d' cur name n m :
  tree_ok D0 t d → extends d d' → t !! cur = Some m → t !! (cur ++ [name]) = None →
  node_ok D0 d' (mkKey name (node_inodeId m)) n → tree_ok D0 (<[cur ++ [name] := n]> t) d'.
Proof.
  intros [(r & Hr & Hr0) Hn] Hx Hm Hnone Hok. split.
  - exists r. rewrite lookup_insert_ne; [done|]. by destruct cur.
  - intros p x n'. destruct (decide (cur ++ [name] = p ++ [x])) as [Heq|Hne].
    + apply app_inj_tail in Heq as [<- <-]. rewrite lookup_insert_eq. intros [= <-].
      exists m. rewrite lookup_insert_ne by apply app_snoc_ne. done.
    + rewrite lookup_insert_ne by done. intros Hp. destruct (Hn p x n' Hp) as (m' & Hm' & Hok').
      exists m'. rewrite lookup_insert_ne by (intros <-; congruence).
      split; [done|]. by eapply node_ok_extends.
Qed.

(** The walk only adds directories that exist, for reading. *)
Definition grown (t t' : PathParseTree) : Prop :=
  t ⊆ t' ∧ ∀ p n, t' !! p = Some n →
    t !! p = Some n ∨ (lockAcquired n = PP_SHARED ∧ node_inodeId n ≠ DIR_HASH_TABLE_PATH_NOT_EXIST).

Lemma grown_refl t : grown t t.
Proof. split; [done|auto]. Qed.

Lemma grown_trans t1 t2 t3 : grown t1 t2 → grown t2 t3 → grown t1 t3.
Proof.
  intros [Hs1 Hn1] [Hs2 Hn2]. split; [by etransitivity|]. intros p n Hp.
  destruct (Hn2 p n Hp); [by apply Hn1|by right].
Qed.

Lemma grown_insert t k id :
  t !! k = None → id ≠ DIR_HASH_TABLE_PATH_NOT_EXIST → grown t (<[k := mkNode id PP_SHARED]> t).
Proof.
  intros Hk Hid. split; [by apply insert_subseteq|]. intros p n.
  destruct (decide (k = p)) as [<-|Hne].
  - rewrite lookup_insert_eq. intros [= <-]. by right.
  - rewrite lookup_insert_ne by done. by left.
Qed.

(** Growing the tree does not change what any path leads to. *)
Lemma resolve_grown D0 t t' d cur pid names :
  tree_ok D0 t' d → grown t t' → (∀ m, t' !! cur = Some m → pid = node_inodeId m) →
  resolve_in t' (id_of D0) cur pid names = resolve_in t (id_of D0) cur pid names.
Proof.
  intros Hok [Hsub Hnew]. revert cur pid. induction names as [|x names IH]; intros cur pid Hc; [done|].
  destruct names as [|y names]; [done|]. cbn [resolve_in].
  destruct (t' !! (cur ++ [x])) as [n|] eqn:Hn.
  - assert (resolve_in t' (id_of D0) (cur ++ [x]) (node_inodeId n) (y :: names) =
      resolve_in t (id_of D0) (cur ++ [x]) (node_inodeId n) (y :: names)) as Hgo
      by (apply IH; intros m Hm; congruence).
    destruct (t !! (cur ++ [x])) as [n'|] eqn:Hn'.
    + pose proof (lookup_weaken _ _ _ _ Hn' Hsub). simplify_eq. by destruct (decide _).
    + destruct (Hnew _ _ Hn) as [?|[Hs Hid]]; [congruence|].
      destruct (tree_node _ _ _ Hok _ _ _ Hn) as (m & Hm & Hk). unfold node_ok in Hk. rewrite Hs in Hk |- *.
      rewrite (Hc m Hm). destruct Hk as [<- _]. rewrite decide_False by done. destruct (decide (node_inodeId n = _)); [done|exact Hgo].
  - destruct (t !! (cur ++ [x])) as [n'|] eqn:Hn'.
    { pose proof (lookup_weaken _ _ _ _ Hn' Hsub). congruence. }
    destruct (decide _); [done|]. apply IH. intros m Hm. congruence.
Qed.

(** The walk ahead only looks at longer paths. *)
Lemma resolve_in_insert t f k n cur pid names :
  (length k ≤ length cur)%nat → resolve_in (<[k := n]> t) f cur pid names = resolve_in t f cur pid names.
Proof.
  revert cur pid. induction names as [|x names IH]; intros cur pid Hk; [done|].
  destruct names as [|y names]; [done|]. cbn [resolve_in].
  rewrite lookup_insert_ne by (intros ->; rewrite length_app in Hk; simpl in Hk; lia).
  assert (length k ≤ length (cur ++ [x]))%nat as Hk' by (rewrite length_app; simpl; lia).
  destruct (t !! (cur ++ [x])); destruct (decide _); try done; exact (IH _ _ Hk').
Qed.

Definition short (name : string) : Prop := (String.length name < MAX_DIRECTORY_PATH_HASH_SIZE)%nat.

(** No pair on the way is known to be a file: such nodes are left behind by
    PATH_PARSE_FLAG_ACQUIRE_SHARED_LOCK_IF_TARGET_IS_DIRECTORY. *)
Definition no_files (t : PathParseTree) : Prop := ∀ p n, t !! p = Some n → p ≠ [] → lockAcquired n ≠ PP_NONE.

Definition blocked (s : PathState) : Prop :=
  ∃ d k lockMode, extends (ps_dir s) d ∧ spins d k lockMode.

Lemma get_tree D0 t s p : walk_inv D0 t s → tree_get p s = Ret (t !! p) s.
Proof. intros Hw. unfold tree_get. rewrite bind_mget, (wi_tree _ _ _ Hw). done. Qed.

Lemma searchable_known d k : updates_known d → searchable d k.
Proof.
  intros Hk. destruct (PathDirHash d !! k) as [i|] eqn:Hi.
  - destruct (decide (inodeId i = DIR_HASH_TABLE_PATH_UNKNOWN)) as [Hu|Hu]; [|left; by exists i].
    right. intros Hup. destruct (Hk k Hup) as (j & Hj & ?). congruence.
  - right. intros Hup. destruct (Hk k Hup) as (j & Hj & _). congruence.
Qed.

(** A lookup on behalf of a path: the invariant survives and the pair is
    locked. *)
Lemma walk_search D0 t s pid name lockMode :
  walk_inv D0 t s → real_ids D0 → short name →
  outcome_ok (on_dir (SearchDirectoryByDirectoryHashTable pid name lockMode) s)
    (λ id s', id = id_of D0 (mkKey name pid) ∧ walk_inv D0 t s' ∧ extends (ps_dir s) (ps_dir s') ∧
      locked (ps_dir s) (ps_dir s') (mkKey name pid) lockMode ∧
      s' = s <| ps_dir := ps_dir s' |>)
    (λ e s', e = Cuckoo PROGRAM_ERROR ∧ abort_safe D0 (ps_dir s'))
    (spins (ps_dir s) (mkKey name pid) lockMode).
Proof.
  intros [Ht Htx Hk Hok] Hr Hl.
  eapply outcome_ok_mono; [apply outcome_ok_zoom, (search_txn D0); try done|..].
  - by apply searchable_known.
  - intros id s' (d & -> & -> & Htx' & Hx & Hlk). simpl. split_and!; try done. split; simpl; try done.
    + by apply (updates_known_extends D0 (ps_dir s)).
    + by eapply tree_ok_extends.
  - intros e s' (d & -> & -> & Ha). by split.
  - done.
Qed.

(** What a walk does to the tree: it adds directories that exist, for reading, and
    takes a node that is known to be no directory for one it reads. *)
Definition walked (t t' : PathParseTree) : Prop :=
  (∀ p, is_Some (t !! p) → is_Some (t' !! p)) ∧
  ∀ p n', t' !! p = Some n' → match t !! p with
    | Some n => n' = n ∨ (p ≠ [] ∧ lockAcquired n = PP_NONE ∧ n' = n <| lockAcquired := PP_SHARED |>)
    | None => lockAcquired n' = PP_SHARED ∧ node_inodeId n' ≠ DIR_HASH_TABLE_PATH_NOT_EXIST
    end.

Lemma walked_refl t : walked t t.
Proof. split; [done|]. intros p n' Hp. rewrite Hp. by left. Qed.

Lemma walked_trans t1 t2 t3 : walked t1 t2 → walked t2 t3 → walked t1 t3.
Proof.
  intros [Hd1 Hn1] [Hd2 Hn2]. split; [auto|]. intros p n3 Hp3. specialize (Hn2 p n3 Hp3). destruct (t2 !! p) as [n2|] eqn:Hp2.
  - specialize (Hn1 p n2 Hp2). destruct Hn2 as [->|(Hp & Hl & ->)]; [done|]. destruct (t1 !! p) as [n1|].
    + destruct Hn1 as [->|(_ & _ & ->)]; [by right|done].
    + destruct Hn1. congruence.
  - destruct (t1 !! p) eqn:Hp1; [|done]. destruct (Hd1 p) as [? ?]; [by eexists|congruence].
Qed.

Lemma walked_insert t k n :
  match t !! k with
  | Some n0 => n = n0 ∨ (k ≠ [] ∧ lockAcquired n0 = PP_NONE ∧ n = n0 <| lockAcquired := PP_SHARED |>)
  | None => lockAcquired n = PP_SHARED ∧ node_inodeId n ≠ DIR_HASH_TABLE_PATH_NOT_EXIST
  end → walked t (<[k := n]> t).
Proof.
  intros Hk. split.
  - intros p Hp. apply lookup_insert_is_Some. destruct (decide (k = p)); auto.
  - intros p n'. destruct (decide (k = p)) as [<-|Hne].
    + rewrite lookup_insert_eq. intros [= <-]. done.
    + rewrite lookup_insert_ne by done. intros ->. by left.
Qed.

Lemma walked_grown t t' : no_files t → walked t t' → no_files t' ∧ grown t t'.
Proof.
  intros Hnf [Hd Hn]. assert (∀ p n', t' !! p = Some n' →
    t !! p = Some n' ∨ (lockAcquired n' = PP_SHARED ∧ node_inodeId n' ≠ DIR_HASH_TABLE_PATH_NOT_EXIST)) as Hg.
  { intros p n' Hp. specialize (Hn p n' Hp). destruct (t !! p) as [n|] eqn:E; [|by right].
    destruct Hn as [->|(Hne & Hl & _)]; [by left|]. by destruct (Hnf p n E Hne). }
  split; [|split; [|exact Hg]].
  - intros p n' Hp Hne. destruct (Hg p n' Hp) as [Hp'|[-> _]]; [by apply (Hnf p)|done].
  - apply map_subseteq_spec. intros p n Hp. destruct (Hd p) as [n' Hp']; [by eexists|]. destruct (Hg p n' Hp') as [E|[Hl _]]; [congruence|].
    specialize (Hn p n' Hp'). rewrite Hp in Hn. destruct Hn as [->|(Hne & Hl' & _)]; [done|]. by destruct (Hnf p n Hp Hne).
Qed.

Lemma visit_spec D0 t s cur m name :
  walk_inv D0 t s → real_ids D0 → short name → t !! cur = Some m →
  outcome_ok (visit cur name s)
    (λ err s', match resolve_in t (id_of D0) cur (node_inodeId m) [name; ""%string] with
       | inl e => err = Some e ∧ walk_inv D0 t s'
       | inr (_, _, id) => err = None ∧ ∃ n, node_inodeId n = id ∧
           walked t (<[cur ++ [name] := n]> t) ∧ walk_inv D0 (<[cur ++ [name] := n]> t) s'
       end ∧ extends (ps_dir s) (ps_dir s') ∧
       s' = s <| ps_dir := ps_dir s' |> <| TransactionLevelPathParseRoot := TransactionLevelPathParseRoot s' |>)
    (λ e s', e = Cuckoo PROGRAM_ERROR ∧ abort_safe D0 (ps_dir s'))
    (∃ k, spins (ps_dir s) k DIR_LOCK_SHARED).
Proof.
  intros Hw Hr Hl Hm. unfold visit.
  erewrite bind_ret by by eapply get_tree. erewrite bind_ret by by eapply get_tree. rewrite Hm.
  cbn [resolve_in]. destruct (t !! (cur ++ [name])) as [n|] eqn:Hn.
  - destruct (decide (lockAcquired n = PP_EXCLUSIVE)) as [Hx|Hx].
    { simpl. split_and!; [done|done|apply extends_refl|by destruct s]. }
    destruct (decide (lockAcquired n = PP_NONE)) as [Hnone|Hsome].
    + destruct (tree_node _ _ _ (wi_ok _ _ _ Hw) _ _ _ Hn) as (m' & Hm' & Hk). rewrite Hm in Hm'. injection Hm' as <-.
      unfold node_ok in Hk. rewrite Hnone in Hk. destruct Hk as [Hid Hid'].
      eapply outcome_ok_bind; [eapply outcome_ok_mono; [by eapply (walk_search D0 t)|exact (λ a s H, H)|done|by eexists]|].
      intros id s' (_ & Hw' & Hx' & _ & Hs'). unfold tree_set. mstep. simpl. split; [|split; [done|rewrite Hs'; by destruct s]].
      split; [done|]. exists (n <| lockAcquired := PP_SHARED |>). split; [done|]. split; [apply walked_insert; rewrite Hn; right; by destruct cur|].
      destruct Hw' as [Ht' Htx' Hk' Hok']. split; simpl; try done; [by rewrite Ht'|].
      eapply (tree_ok_relock _ _ _ _ _ _ n _ m); try done; [apply extends_refl|]. unfold node_ok. simpl. rewrite Hid, Hid'. by split.
    + simpl. split; [|split; [apply extends_refl|by destruct s]]. split; [done|]. exists n. split; [done|].
      split; [apply walked_insert; rewrite Hn; by left|]. by rewrite insert_id.
  - eapply outcome_ok_bind; [eapply outcome_ok_mono; [by eapply (walk_search D0 t)|exact (λ a s H, H)|done|by eexists]|].
    intros id s' (-> & Hw' & Hx & Hlk & Hs'). simpl.
    change (u64 (-1)) with DIR_HASH_TABLE_PATH_NOT_EXIST. destruct (decide _) as [Hne|Hne].
    { simpl. split_and!; [done|done|done|]. rewrite Hs'. by destruct s. }
    unfold tree_set. mstep. simpl. split; [|split; [done|rewrite Hs'; by destruct s]].
    split; [done|]. exists (mkNode (id_of D0 (mkKey name (node_inodeId m))) PP_SHARED).
    split; [done|]. split; [apply walked_insert; by rewrite Hn|].
    destruct Hw' as [Ht' Htx' Hk' Hok']. split; simpl; try done.
    + by rewrite Ht'.
    + eapply (tree_ok_insert _ _ _ _ _ _ _ m); [done|apply extends_refl|done|done|].
      split; [done|]. intros _. unfold locked in Hlk. simpl in Hlk. destruct Hlk as [-> _].
      apply elem_of_app. right. by left.
Qed.

(** The walk computes the resolution, extends the tree and the locks and
    leaves everything else alone. *)
Lemma walk_spec D0 t s cur m names :
  walk_inv D0 t s → real_ids D0 → Forall short names → names ≠ [] → t !! cur = Some m →
  outcome_ok (walk names cur s)
    (λ r s', ∃ t', walk_inv D0 t' s' ∧ walked t t' ∧ extends (ps_dir s) (ps_dir s') ∧
       s' = s <| ps_dir := ps_dir s' |> <| TransactionLevelPathParseRoot := Some t' |> ∧
       match resolve_in t (id_of D0) cur (node_inodeId m) names with
       | inl e => r = inl e
       | inr (c, x, id) => r = inr (c, x) ∧ ∃ n, t' !! c = Some n ∧ node_inodeId n = id ∧ short x
       end)
    (λ e s', e = Cuckoo PROGRAM_ERROR ∧ abort_safe D0 (ps_dir s'))
    (blocked s).
Proof.
  intros Hw Hr Hl Hne. revert t s cur m Hw Hl Hne. induction names as [|x names IH]; intros t s cur m Hw Hl Hne Hm; [done|].
  apply Forall_cons in Hl as [Hx Hl].
  destruct names as [|y names].
  { simpl. exists t. split_and!; try done; [apply walked_refl|apply extends_refl|destruct s; destruct Hw as [Ht _ _ _]; simpl in Ht; by subst|eauto]. }
  cbn [walk]. eapply outcome_ok_bind.
  { eapply outcome_ok_mono; [by eapply (visit_spec D0 t)|exact (λ a s H, H)|done|].
    intros [k Hsp]. eexists _, _, _. split; [apply extends_refl|exact Hsp]. }
  intros err s1 (Hres & Hx1 & Hs1).
  assert (∀ id, err = None ∧ (∃ n, node_inodeId n = id ∧
      walked t (<[cur ++ [x] := n]> t) ∧ walk_inv D0 (<[cur ++ [x] := n]> t) s1) →
    outcome_ok (match err with Some e => mret (inl e) | None => walk (y :: names) (cur ++ [x]) end s1)
      (λ r s', ∃ t', walk_inv D0 t' s' ∧ walked t t' ∧ extends (ps_dir s) (ps_dir s') ∧
       s' = s <| ps_dir := ps_dir s' |> <| TransactionLevelPathParseRoot := Some t' |> ∧
       match resolve_in t (id_of D0) (cur ++ [x]) id (y :: names) with
       | inl e => r = inl e
       | inr (c, x, id) => r = inr (c, x) ∧ ∃ n, t' !! c = Some n ∧ node_inodeId n = id ∧ short x
       end)
      (λ e s', e = Cuckoo PROGRAM_ERROR ∧ abort_safe D0 (ps_dir s')) (blocked s)) as Hstep.
  { intros id (-> & n & <- & Hsub & Hw1).
    eapply outcome_ok_mono.
    - apply (IH (<[cur ++ [x] := n]> t) s1 (cur ++ [x]) n); try done. by rewrite lookup_insert_eq.
    - intros r s' (t' & Hw' & Hsub' & Hx' & Hs' & Hres'). exists t'. split_and!; try done.
      + by eapply walked_trans.
      + by eapply extends_trans.
      + rewrite Hs', Hs1. by destruct s.
      + by rewrite resolve_in_insert in Hres' by done.
    - done.
    - intros (d & k & lm & Hxd & Hsp). exists d, k, lm. split; [by eapply extends_trans|done]. }
  cbn [resolve_in] in Hres |- *.
  destruct (t !! (cur ++ [x])) as [n0|] eqn:Hn0.
  - destruct (decide (lockAcquired n0 = PP_EXCLUSIVE)) as [He|He].
    { destruct Hres as [-> Hw1]. simpl. exists t. split_and!; try done; [apply walked_refl|]. rewrite Hs1. by rewrite (wi_tree _ _ _ Hw1). }
    by apply Hstep.
  - destruct (decide _) as [He|He].
    { destruct Hres as [-> Hw1]. simpl. exists t. split_and!; try done; [apply walked_refl|]. rewrite Hs1. by rewrite (wi_tree _ _ _ Hw1). }
    by apply Hstep.
Qed.

Lemma resolve_in_target t f cur pid names c x id :
  resolve_in t f cur pid names = inr (c, x, id) → c ++ [x] = cur ++ names.
Proof.
  revert cur pid. induction names as [|y names IH]; intros cur pid; [done|].
  destruct names as [|z names]; [by intros [= <- <- <-]|]. cbn [resolve_in].
  assert (∀ pid, resolve_in t f (cur ++ [y]) pid (z :: names) = inr (c, x, id) → c ++ [x] = cur ++ y :: z :: names) as Hgo.
  { intros pid' Hr. rewrite (IH _ _ Hr). by rewrite <-app_assoc. }
  destruct (t !! (cur ++ [y])); destruct (decide _); try done; apply Hgo.
Qed.

(** A transaction whose tree is [t], the initial one when none exists yet. *)
Definition parse_state (D0 : gmap (Z * string) FormData_cuckoo_directory_table) (t : PathParseTree) (s : PathState) : Prop :=
  t = default PathParseTreeInit (TransactionLevelPathParseRoot s) ∧
  txn D0 (ps_dir s) ∧ updates_known (ps_dir s) ∧ tree_ok D0 t (ps_dir s).
Definition parse_ready (D0 : gmap (Z * string) FormData_cuckoo_directory_table) (t : PathParseTree) (s : PathState) : Prop :=
  t = default PathParseTreeInit (TransactionLevelPathParseRoot s) ∧
  txn D0 (ps_dir s) ∧ updates_known (ps_dir s) ∧ tree_ok D0 t (ps_dir s) ∧ no_files t.

Lemma init_tree_ok D0 d : tree_ok D0 PathParseTreeInit d ∧ no_files PathParseTreeInit.
Proof.
  unfold PathParseTreeInit. split; [split|].
  - exists (mkNode 0 PP_NONE). by rewrite lookup_singleton_eq.
  - intros p x n. rewrite lookup_singleton_ne; [done|]. by destruct p.
  - intros p n [<- _]%lookup_singleton_Some. done.
Qed.

(** The whole function: the walk, then the target. *)
Lemma parse_walk_spec D0 t s path flag inodeId Q :
  parse_state D0 t s → real_ids D0 → cstring path → path ≠ ""%string → Forall short (components path) →
  (path = "/"%string → has_flag flag PATH_PARSE_FLAG_NOT_ROOT = false) →
  (∀ e s' t', walk_inv D0 t' s' → walked t t' → extends (ps_dir s) (ps_dir s') →
    resolve_in t (id_of D0) [] 0 (components path) = inl e → Q (mkResult e None None inodeId) s') →
  (∀ c x id n s' t', walk_inv D0 t' s' → walked t t' → t' !! c = Some n → node_inodeId n = id → short x →
    c ++ [x] = components path → extends (ps_dir s) (ps_dir s') →
    s' = s <| ps_dir := ps_dir s' |> <| TransactionLevelPathParseRoot := Some t' |> →
    resolve_in t (id_of D0) [] 0 (components path) = inr (c, x, id) →
    outcome_ok ((r ← parse_target flag c id x inodeId; mret (mkResult r.1 (Some id) (Some x) r.2)) s') Q
      (λ e s', e = Cuckoo PROGRAM_ERROR ∧ abort_safe D0 (ps_dir s')) (blocked s)) →
  outcome_ok (PathParseTreeInsert path flag inodeId s) Q
    (λ e s', e = Cuckoo PROGRAM_ERROR ∧ abort_safe D0 (ps_dir s')) (blocked s).
Proof.
  intros (Ht & Htx & Hk & Hok) Hr Hc Hne Hsh Hroot Herr Htgt.
  rewrite parse_components_eq by done. unfold parse_by_components.
  rewrite decide_False by (intros [-> Hf]; by rewrite Hroot in Hf).
  rewrite bind_mmodify. set (s1 := s <| TransactionLevelPathParseRoot ::= _ |>).
  assert (walk_inv D0 t s1) as Hw by (split; [by rewrite Ht|done..]).
  destruct (tree_root _ _ _ Hok) as (n0 & Hn0 & Hz).
  eapply outcome_ok_bind.
  { eapply outcome_ok_mono; [apply (walk_spec D0 t s1 [] n0 (components path)); try done|exact (λ a s H, H)|done|done].
    by destruct path. }
  rewrite Hz. intros r s2 (t' & Hw' & Hsub & Hx & Hs2 & Hres).
  destruct (resolve_in t (id_of D0) [] 0 (components path)) as [e|[[c x] id]] eqn:Eres.
  - subst r. simpl. by eapply Herr.
  - destruct Hres as (-> & n & Hn & Hid & Hx'). erewrite bind_ret by by eapply get_tree.
    rewrite Hn, Hid. eapply Htgt; try done.
    + by apply (resolve_in_target _ _ _ _ _ _ _ _ Eres).
Qed.

Lemma parse_insert_spec D0 t s path flag inodeId Q :
  parse_ready D0 t s → real_ids D0 → cstring path → path ≠ ""%string → Forall short (components path) →
  (path = "/"%string → has_flag flag PATH_PARSE_FLAG_NOT_ROOT = false) →
  (∀ e s' t', walk_inv D0 t' s' → no_files t' → grown t t' → extends (ps_dir s) (ps_dir s') →
    resolve_in t (id_of D0) [] 0 (components path) = inl e → Q (mkResult e None None inodeId) s') →
  (∀ c x id n s' t', walk_inv D0 t' s' → no_files t' → grown t t' → t' !! c = Some n → node_inodeId n = id → short x →
    c ++ [x] = components path → extends (ps_dir s) (ps_dir s') →
    s' = s <| ps_dir := ps_dir s' |> <| TransactionLevelPathParseRoot := Some t' |> →
    resolve_in t (id_of D0) [] 0 (components path) = inr (c, x, id) →
    outcome_ok ((r ← parse_target flag c id x inodeId; mret (mkResult r.1 (Some id) (Some x) r.2)) s') Q
      (λ e s', e = Cuckoo PROGRAM_ERROR ∧ abort_safe D0 (ps_dir s')) (blocked s)) →
  outcome_ok (PathParseTreeInsert path flag inodeId s) Q
    (λ e s', e = Cuckoo PROGRAM_ERROR ∧ abort_safe D0 (ps_dir s')) (blocked s).
Proof.
  intros (Ht & Htx & Hk & Hok & Hnf) Hr Hc Hne Hsh Hroot Herr Htgt. apply (parse_walk_spec D0 t); try done.
  - intros e s' t' Hw Hwalk. destruct (walked_grown t t' Hnf Hwalk). by eapply Herr.
  - intros c x id n s' t' Hw Hwalk. destruct (walked_grown t t' Hnf Hwalk). by eapply Htgt.
Qed.

(** What a path leads to: the id of the directory it is in and its name. *)
Definition resolve (D0 : gmap (Z * string) FormData_cuckoo_directory_table) (t : PathParseTree) (path : string)
    : CuckooErrorCode + Z * string :=
  match resolve_in t (id_of D0) [] 0 (components path) with
  | inl e => inl e
  | inr (_, x, id) => inr (id, x)
  end.

Lemma resolve_stable D0 t t' s path : parse_ready D0 t' s → grown t t' → resolve D0 t' path = resolve D0 t path.
Proof.
  intros (_ & _ & _ & Hok & _) Hg. unfold resolve. rewrite (resolve_grown D0 t t' (ps_dir s)); try done.
  intros m Hm. destruct (tree_root _ _ _ Hok) as (r & Hr & <-). congruence.
Qed.

Lemma resolve_in_error t f cur pid names e : resolve_in t f cur pid names = inl e → e ≠ SUCCESS.
Proof.
  revert cur pid. induction names as [|y names IH]; intros cur pid; [by intros [= <-]|].
  destruct names as [|z names]; [done|]. cbn [resolve_in].
  destruct (t !! (cur ++ [y])); destruct (decide _); try (by intros [= <-]); exact (IH _ _).
Qed.

Lemma resolve_error D0 t path e : resolve D0 t path = inl e → e ≠ SUCCESS.
Proof.
  unfold resolve. destruct (resolve_in _ _ _ _ _) as [e'|[[c x] id]] eqn:E; [|done].
  intros [= <-]. by eapply resolve_in_error.
Qed.

Lemma walk_ready D0 t s : walk_inv D0 t s → no_files t → parse_ready D0 t s.
Proof. intros [Ht ? ? ?] ?. by split_and!; rewrite ?Ht. Qed.

(** A path that is only looked at. *)
Lemma parse_lookup_spec D0 t s path flag inodeId :
  parse_ready D0 t s → real_ids D0 → cstring path → path ≠ ""%string → Forall short (components path) →
  (path = "/"%string → has_flag flag PATH_PARSE_FLAG_NOT_ROOT = false) →
  (∀ c id x, parse_target flag c id x inodeId = mret (SUCCESS, inodeId)) →
  outcome_ok (PathParseTreeInsert path flag inodeId s)
    (λ r s', (∃ t', parse_ready D0 t' s' ∧ grown t t') ∧ extends (ps_dir s) (ps_dir s') ∧
       match resolve D0 t path with
       | inl e => r = mkResult e None None inodeId
       | inr (id, x) => r = mkResult SUCCESS (Some id) (Some x) inodeId
       end)
    (λ e s', e = Cuckoo PROGRAM_ERROR ∧ abort_safe D0 (ps_dir s')) (blocked s).
Proof.
  intros Hready Hr Hc Hne Hsh Hroot Htgt. unfold resolve. apply (parse_insert_spec D0 t); try done.
  - intros e s' t' Hw' Hnf Hg Hx Hres. rewrite Hres. split_and!; [|done|done]. exists t'. split; [by apply walk_ready|done].
  - intros c x id n s' t' Hw' Hnf Hg _ _ _ _ Hx _ Hres. rewrite Hres, Htgt. simpl. split_and!; [|done|done].
    exists t'. split; [by apply walk_ready|done].
Qed.

Lemma sequence_outcome s :
  match GetNextSequenceNum s with
  | Ret _ s' => s' = s <| remainNumberCount := remainNumberCount s' |> <| currentSequenceNumber := currentSequenceNumber s' |>
                       <| inodeid_seq := inodeid_seq s' |>
  | Elog e s' => e = Cuckoo PROGRAM_ERROR ∧ s' = s
  | _ => False
  end.
Proof.
  unfold GetNextSequenceNum, nextval. rewrite bind_mget.
  destruct (decide (remainNumberCount s = 0)); [|by destruct s].
  rewrite !bind_assoc, bind_mget. destruct (decide _); [done|]. by destruct s.
Qed.

(** The path of a file to be created: its inode id is the next one drawn. *)
Lemma parse_new_file_spec D0 t s path inodeId :
  parse_ready D0 t s → real_ids D0 → cstring path → path ≠ ""%string → path ≠ "/"%string →
  Forall short (components path) →
  outcome_ok (PathParseTreeInsert path (Z.lor PATH_PARSE_FLAG_NOT_ROOT PATH_PARSE_FLAG_TARGET_TO_BE_CREATED) (Some inodeId) s)
    (λ r s', (∃ t', parse_ready D0 t' s' ∧ grown t t') ∧ extends (ps_dir s) (ps_dir s') ∧
       match resolve D0 t path with
       | inl e => r = mkResult e None None (Some inodeId)
       | inr (id, x) => ∃ seq, r = mkResult SUCCESS (Some id) (Some x) (Some (GenerateInodeIdBySeqAndNodeId seq LocalServerId))
       end)
    (λ e s', e = Cuckoo PROGRAM_ERROR ∧ abort_safe D0 (ps_dir s')) (blocked s).
Proof.
  intros Hready Hr Hc Hne Hnr Hsh. unfold resolve. apply (parse_insert_spec D0 t); try done.
  - intros e s' t' Hw' Hnf Hg Hx Hres. rewrite Hres. split_and!; [|done|done]. exists t'. split; [by apply walk_ready|done].
  - intros c x id n s' t' Hw' Hnf Hg _ _ _ _ Hx _ Hres. rewrite Hres.
    replace (parse_target _ c id x (Some inodeId)) with
      (seq ← GetNextSequenceNum; mret (SUCCESS, Some (GenerateInodeIdBySeqAndNodeId seq LocalServerId)) : P _) by done.
    rewrite bind_assoc. pose proof (sequence_outcome s') as Hseq. unfold mbind, M_bind.
    destruct (GetNextSequenceNum s') as [seq s2|e s2| |]; simpl; try done.
    + split_and!; [|by rewrite Hseq|by exists seq]. exists t'. split; [|done].
      pose proof (walk_ready _ _ _ Hw' Hnf) as Hrd. rewrite Hseq. exact Hrd.
    + destruct Hseq as [-> ->]. split; [done|]. split; apply (wi_txn _ _ _ Hw').
Qed.

(** The directory a path names. *)
Definition resolve_dir (D0 : gmap (Z * string) FormData_cuckoo_directory_table) (t : PathParseTree) (path : string)
    : CuckooErrorCode + Z :=
  match resolve_in t (id_of D0) [] 0 (components path) with
  | inl e => inl e
  | inr (c, x, pid) =>
      match t !! (c ++ [x]) with
      | Some n => if decide (lockAcquired n = PP_EXCLUSIVE) then inl PATH_LOCK_CONFLICT else inr (node_inodeId n)
      | None => if decide (id_of D0 (mkKey x pid) = DIR_HASH_TABLE_PATH_NOT_EXIST) then inl PATH_NOT_EXISTS
                else inr (id_of D0 (mkKey x pid))
      end
  end.

Lemma resolve_dir_error D0 t path e : resolve_dir D0 t path = inl e → e ≠ SUCCESS.
Proof.
  unfold resolve_dir. destruct (resolve_in _ _ _ _ _) as [e'|[[c x] id]] eqn:E.
  - intros [= <-]. by eapply resolve_in_error.
  - destruct (t !! (c ++ [x])); destruct (decide _); by intros [= <-].
Qed.

Definition dir_flags : Z :=
  Z.lor PATH_PARSE_FLAG_ACQUIRE_SHARED_LOCK_IF_TARGET_IS_DIRECTORY PATH_PARSE_FLAG_TARGET_IS_DIRECTORY.

(** The target of a path that names a directory, after the walk. *)
Lemma parse_shared_spec D0 t t' s s' c x m n0 inodeId :
  walk_inv D0 t' s' → no_files t' → grown t t' → real_ids D0 → short x → t' !! c = Some m → node_inodeId m = n0 →
  extends (ps_dir s) (ps_dir s') →
  outcome_ok (parse_target dir_flags c n0 x (Some inodeId) s')
    (λ r s2, (∃ t2, parse_ready D0 t2 s2 ∧ grown t t2) ∧ extends (ps_dir s) (ps_dir s2) ∧
       match t !! (c ++ [x]) with
       | Some n => if decide (lockAcquired n = PP_EXCLUSIVE) then r.1 = PATH_LOCK_CONFLICT
                   else r = (SUCCESS, Some (node_inodeId n))
       | None => if decide (id_of D0 (mkKey x n0) = DIR_HASH_TABLE_PATH_NOT_EXIST) then r.1 = PATH_NOT_EXISTS
                 else r = (SUCCESS, Some (id_of D0 (mkKey x n0)))
       end)
    (λ e s2, e = Cuckoo PROGRAM_ERROR ∧ abort_safe D0 (ps_dir s2)) (blocked s).
Proof.
  intros Hw Hnf [Hsub Hnew] Hr Hx Hm <- Hext.
  change (parse_target dir_flags c (node_inodeId m) x (Some inodeId)) with (parse_shared dir_flags c (node_inodeId m) x (Some inodeId)).
  unfold parse_shared. erewrite bind_ret by by eapply get_tree.
  assert (∃ t2, parse_ready D0 t2 s' ∧ grown t t2) as Hrd by (exists t'; split; [by apply walk_ready|done]).
  destruct (t' !! (c ++ [x])) as [n|] eqn:Hn.
  - assert (lockAcquired n ≠ PP_NONE) as Hl by (eapply Hnf; [done|by destruct c]).
    destruct (t !! (c ++ [x])) as [n'|] eqn:Hn'.
    + pose proof (lookup_weaken _ _ _ _ Hn' Hsub). simplify_eq. destruct (decide (lockAcquired n = PP_EXCLUSIVE)); [done|].
      rewrite decide_False by (by intros [_ ?]). done.
    + destruct (Hnew _ _ Hn) as [?|[Hs Hid]]; [congruence|].
      destruct (tree_node _ _ _ (wi_ok _ _ _ Hw) _ _ _ Hn) as (m' & Hm' & Hk). rewrite Hm in Hm'. injection Hm' as <-.
      unfold node_ok in Hk. rewrite Hs in Hk. destruct Hk as [Heq _]. rewrite <-Heq.
      rewrite decide_False by congruence. rewrite decide_False by (intros [_ ?]; congruence).
      destruct (decide (node_inodeId n = _)); done.
  - destruct (t !! (c ++ [x])) as [n'|] eqn:Hn'.
    { pose proof (lookup_weaken _ _ _ _ Hn' Hsub). congruence. }
    eapply outcome_ok_bind.
    { eapply outcome_ok_mono; [by eapply (walk_search D0 t')|exact (λ a s H, H)|done|].
      intros Hsp. exists (ps_dir s'), (mkKey x (node_inodeId m)), DIR_LOCK_SHARED. by split. }
    intros id s2 (-> & Hw2 & Hx2 & Hlk & Hs2). destruct (decide (id_of D0 _ = _)) as [He|He].
    + rewrite decide_True by done. simpl. split_and!; [|by eapply extends_trans|done].
      exists t'. split; [by apply walk_ready|done].
    + rewrite decide_False by (by intros [? _]). unfold tree_set. rewrite bind_mmodify. simpl.
      split_and!; [|by eapply extends_trans|done].
      exists (<[c ++ [x] := mkNode (id_of D0 (mkKey x (node_inodeId m))) PP_SHARED]> t'). split.
      * destruct Hw2 as [Ht2 Htx2 Hk2 Hok2]. split_and!; simpl; try done; [by rewrite Ht2| |].
        -- eapply (tree_ok_insert _ _ _ _ _ _ _ m); [done|apply extends_refl|done|done|].
           split; [done|]. intros _. unfold locked in Hlk. simpl in Hlk. destruct Hlk as [-> _].
           apply elem_of_app. right. by left.
        -- intros p n Hp Hne. destruct (decide (c ++ [x] = p)) as [<-|Hpn].
           ++ rewrite lookup_insert_eq in Hp. by simplify_eq.
           ++ rewrite lookup_insert_ne in Hp by done. by apply (Hnf p).
      * eapply grown_trans; [split; [exact Hsub|exact Hnew]|]. by apply grown_insert.
Qed.

Lemma parse_dir_spec D0 t s path inodeId :
  parse_ready D0 t s → real_ids D0 → cstring path → path ≠ ""%string → Forall short (components path) →
  outcome_ok (PathParseTreeInsert path dir_flags (Some inodeId) s)
    (λ r s', (∃ t', parse_ready D0 t' s' ∧ grown t t') ∧ extends (ps_dir s) (ps_dir s') ∧
       match resolve_dir D0 t path with
       | inl e => pr_errorCode r = e
       | inr id => pr_errorCode r = SUCCESS ∧ pr_inodeId r = Some id
       end)
    (λ e s', e = Cuckoo PROGRAM_ERROR ∧ abort_safe D0 (ps_dir s')) (blocked s).
Proof.
  intros Hready Hr Hc Hne Hsh. unfold resolve_dir. apply (parse_insert_spec D0 t); try done.
  - intros e s' t' Hw' Hnf Hg Hx Hres. rewrite Hres. split_and!; [|done|done]. exists t'. split; [by apply walk_ready|done].
  - intros c x id n s' t' Hw' Hnf Hg Hn Hid Hx _ Hext _ Hres. rewrite Hres.
    eapply outcome_ok_bind; [by eapply (parse_shared_spec D0 t t' s s' c x n id)|].
    intros r s2 (Hrd & Hx2 & Hcase). simpl. split_and!; [done|done|].
    destruct (t !! (c ++ [x])) as [n'|]; destruct (decide _); [done|by rewrite Hcase|done|by rewrite Hcase].
Qed.

(** ** Any flags *)

(** The target is only looked at. *)
Definition looks (flag : Z) : bool :=
  negb (has_flag flag PATH_PARSE_FLAG_TARGET_TO_BE_CREATED ||
        has_flag flag PATH_PARSE_FLAG_TARGET_TO_BE_DELETED && has_flag flag PATH_PARSE_FLAG_TARGET_IS_DIRECTORY ||
        has_flag flag PATH_PARSE_FLAG_ACQUIRE_SHARED_LOCK_IF_TARGET_IS_DIRECTORY).

Definition keeps_locks (s s' : PathState) : Prop := ∀ h, h ∈ held_rwlocks (dir_locks (ps_dir s)) → h ∈ held_rwlocks (dir_locks (ps_dir s')).

Lemma tree_ok_held D0 t d d' :
  tree_ok D0 t d → (∀ h, h ∈ held_rwlocks (dir_locks d) → h ∈ held_rwlocks (dir_locks d')) → tree_ok D0 t d'.
Proof.
  intros [Hroot Hn] Hx. split; [done|]. intros p x n Hp. destruct (Hn p x n Hp) as (m & ? & Hok). exists m. split; [done|].
  revert Hok. unfold node_ok. destruct (lockAcquired n); [done| |apply Hx|apply Hx]. intros [? Hh]. split; [done|]. intros. by apply Hx, Hh.
Qed.

(** A lookup, as the part behind the walk uses it. *)
Lemma target_search {B} D0 t s pid name lockMode (f : Z → P B) Q :
  walk_inv D0 t s → real_ids D0 → short name →
  (∀ s', walk_inv D0 t s' → extends (ps_dir s) (ps_dir s') → locked (ps_dir s) (ps_dir s') (mkKey name pid) lockMode →
     keeps_locks s s' → outcome_ok (f (id_of D0 (mkKey name pid)) s') Q
       (λ e s', e = Cuckoo PROGRAM_ERROR ∧ abort_safe D0 (ps_dir s')) (blocked s)) →
  outcome_ok ((id ← on_dir (SearchDirectoryByDirectoryHashTable pid name lockMode); f id) s) Q
    (λ e s', e = Cuckoo PROGRAM_ERROR ∧ abort_safe D0 (ps_dir s')) (blocked s).
Proof.
  intros Hw Hr Hl Hf. eapply outcome_ok_bind.
  { eapply outcome_ok_mono; [by eapply (walk_search D0 t)|exact (λ a s H, H)|done|]. intros Hsp. eexists _, _, _. split; [apply extends_refl|exact Hsp]. }
  intros id s' (-> & Hw' & Hx & Hlk & _). apply Hf; try done. intros h. apply Hx.
Qed.

(** Giving back the lock that was just taken. *)
Lemma release_last D0 t s s' key : walk_inv D0 t s' → locked (ps_dir s) (ps_dir s') key DIR_LOCK_SHARED →
  ∃ s2, (∀ (k : P ()), (d ← on_dir mget;
      match DirectoryHashTableLastAcquiredLock d with None => mundefined | Some lock => on_dir (on_locks (RWLockRelease lock)) end ;; k) s' = k s2) ∧
    held_rwlocks (dir_locks (ps_dir s2)) = held_rwlocks (dir_locks (ps_dir s)).
Proof.
  intros Hw (Hh & Hlast & (i & Hi & _)). simpl in Hh. destruct (cache_word (ps_dir s') key (txn_ok _ _ (wi_txn _ _ _ Hw))) as [w Hwd]; [by eexists|].
  pose proof (drop_last_spec (dir_locks (ps_dir s')) _ key RW_SHARED w Hh Hwd) as Hd. unfold drop_last in Hd. rewrite decide_False in Hd by done.
  eexists. split.
  - intros k. unfold on_dir at 1, mzoom at 1, mget, mbind, M_bind. cbn. rewrite Hlast. unfold on_dir, on_locks, mzoom.
    change (ps_dir (s' <| ps_dir := ps_dir s' |>)) with (ps_dir s'). rewrite Hd. reflexivity.
  - done.
Qed.

Lemma parse_target_spec D0 t s flag c id x inodeId : walk_inv D0 t s → real_ids D0 → short x →
  outcome_ok (parse_target flag c id x inodeId s)
    (λ r s', keeps_locks s s' ∧ (looks flag = true → r = (SUCCESS, inodeId)))
    (λ e s', e = Cuckoo PROGRAM_ERROR ∧ abort_safe D0 (ps_dir s')) (blocked s).
Proof.
  intros Hw Hr Hl. unfold parse_target, looks.
  assert (abort_safe D0 (ps_dir s)) as Ha by (split; apply (wi_txn _ _ _ Hw)).
  assert (∀ s', walk_inv D0 t s' → keeps_locks s s' → outcome_ok (GetNextSequenceNum s') (λ _ s2, keeps_locks s s2)
    (λ e s2, e = Cuckoo PROGRAM_ERROR ∧ abort_safe D0 (ps_dir s2)) (blocked s)) as Hseq.
  { intros s' Hw' Hk. pose proof (sequence_outcome s') as Hsq. destruct (GetNextSequenceNum s') as [seq s2|e s2| |]; try done; simpl.
    - by rewrite Hsq.
    - destruct Hsq as [-> ->]. split; [done|]. split; apply (wi_txn _ _ _ Hw'). }
  assert (keeps_locks s s) as Hrefl by (intros h; done).
  destruct (has_flag flag PATH_PARSE_FLAG_TARGET_TO_BE_CREATED).
  { unfold parse_create. destruct inodeId as [ino|]; [|by split]. destruct (has_flag flag PATH_PARSE_FLAG_TARGET_IS_DIRECTORY).
    - erewrite bind_ret by by eapply get_tree. destruct (t !! (c ++ [x])); [done|]. apply (target_search D0 t); try done. intros s1 Hw1 _ _ Hk1.
      eapply (outcome_ok_bind _ _ _ (λ _ s2, keeps_locks s s2)).
      { destruct (has_flag flag PATH_PARSE_FLAG_INODE_ID_FOR_INPUT); [done|]. destruct (decide _); [done|].
        eapply outcome_ok_bind; [by apply Hseq|]. intros seq s2 Hk2. done. }
      intros ino' s2 Hk2. unfold tree_set. rewrite bind_mmodify. by destruct (decide _).
    - destruct (has_flag flag PATH_PARSE_FLAG_INODE_ID_FOR_INPUT); [done|]. eapply outcome_ok_bind; [by apply Hseq|]. intros seq s2 Hk2. done. }
  destruct (has_flag flag PATH_PARSE_FLAG_TARGET_TO_BE_DELETED && has_flag flag PATH_PARSE_FLAG_TARGET_IS_DIRECTORY).
  { unfold parse_delete. destruct inodeId as [ino|]; [|by split]. erewrite bind_ret by by eapply get_tree.
    destruct (t !! (c ++ [x])) as [n|]; [destruct (decide _); [done|]|];
      (apply (target_search D0 t); try done; intros s1 Hw1 _ _ Hk1; destruct (decide _); [done|]; unfold tree_set; by rewrite bind_mmodify). }
  destruct (has_flag flag PATH_PARSE_FLAG_ACQUIRE_SHARED_LOCK_IF_TARGET_IS_DIRECTORY); [|done].
  unfold parse_shared. erewrite bind_ret by by eapply get_tree. destruct (t !! (c ++ [x])) as [n|].
  - destruct (decide (lockAcquired n = PP_EXCLUSIVE)); [done|]. destruct (decide (_ ∧ _)); [|done]. rewrite bind_assoc.
    by apply (target_search D0 t).
  - apply (target_search D0 t); try done. intros s1 Hw1 _ Hlk Hk1. destruct (decide (_ ∧ _)); [done|].
    destruct (decide _); [|unfold tree_set; by rewrite bind_mmodify].
    destruct (release_last D0 t s s1 _ Hw1 Hlk) as (s2 & Hrel & Hh). erewrite bind_ret by (rewrite Hrel; reflexivity).
    simpl. split; [|done]. intros h. by rewrite <-Hh.
Qed.

(** (C17) Resolving a path, with any flags and for any target: the parent and the
    name that are reported are those the committed directories (and the
    directories the transaction has created or visited) lead to, and the last
    component; a missing directory on the way is reported as PATH_IS_INVALID and
    one that the transaction itself is removing or renaming as PATH_LOCK_CONFLICT,
    so nothing is done under a directory that is about to move.  Every directory
    on the way is then locked by the transaction.  The exception is a name that
    the transaction has found to be no directory before: it is taken for a
    directory with inode id 2^64 - 1 ([resolve_in] takes what the tree has).  When
    the target is only looked at, the code is SUCCESS. *)
Theorem PathParseTreeInsert_resolves D0 t s path flag inodeId :
  parse_state D0 t s → real_ids D0 → cstring path → path ≠ ""%string → Forall short (components path) →
  outcome_ok (PathParseTreeInsert path flag inodeId s)
    (λ r s',
       if decide (path = "/"%string ∧ has_flag flag PATH_PARSE_FLAG_NOT_ROOT = true) then r = mkResult PATH_IS_ROOT None None inodeId
       else
         match resolve_in t (id_of D0) [] 0 (components path) with
         | inl e => r = mkResult e None None inodeId
         | inr (c, x, id) => pr_parentId r = Some id ∧ pr_fileName r = Some x ∧ c ++ [x] = components path ∧
             (looks flag = true → pr_errorCode r = SUCCESS ∧ pr_inodeId r = inodeId) ∧
             ∃ t', tree_ok D0 t' (ps_dir s') ∧ walked t t' ∧ is_Some (t' !! c)
         end)
    (λ e s', e = Cuckoo PROGRAM_ERROR ∧ abort_safe D0 (ps_dir s')) (blocked s).
Proof.
  intros Hready Hr Hc Hne Hsh. destruct (decide (path = "/"%string ∧ _)) as [[-> Hf]|Hroot].
  { unfold PathParseTreeInsert. by rewrite decide_True. }
  apply (parse_walk_spec D0 t); try done.
  - intros ->. destruct (has_flag flag PATH_PARSE_FLAG_NOT_ROOT); [|done]. by destruct Hroot.
  - intros e s' t' _ _ _ Hres. by rewrite Hres.
  - intros c x id n s' t' Hw' Hwalk Hn Hid Hx Hcx Hext _ Hres. rewrite Hres. eapply outcome_ok_bind.
    { eapply outcome_ok_mono; [by apply (parse_target_spec D0 t')|exact (λ a s H, H)|done|].
      intros (d & k & lm & Hxd & Hsp). exists d, k, lm. split; [by eapply extends_trans|done]. }
    intros [ec ino] s2 [Hk Hlook]. simpl. split_and!; try done.
    + intros Hlk. specialize (Hlook Hlk). by injection Hlook as -> ->.
    + exists t'. split_and!; [|done|by eexists]. eapply tree_ok_held; [apply Hw'|exact Hk].
Qed.

(** ** Inode numbers are drawn once *)

Lemma next_sequence_eq s :
  0 ≤ remainNumberCount s ≤ 32 → 0 ≤ currentSequenceNumber s → currentSequenceNumber s + 33 < 2 ^ 64 →
  0 ≤ inodeid_seq s →
  GetNextSequenceNum s =
    if decide (remainNumberCount s = 0) then
      if decide (2 ^ 63 ≤ inodeid_seq s) then Elog (Cuckoo PROGRAM_ERROR) s
      else Ret (inodeid_seq s) (s <| inodeid_seq := inodeid_seq s + 32 |> <| remainNumberCount := 31 |>
                                  <| currentSequenceNumber := inodeid_seq s + 1 |>)
    else Ret (currentSequenceNumber s) (s <| remainNumberCount := remainNumberCount s - 1 |>
                                          <| currentSequenceNumber := currentSequenceNumber s + 1 |>).
Proof.
  intros Hr Hc0 Hc Hq. unfold GetNextSequenceNum, nextval. rewrite bind_mget.
  destruct (decide (remainNumberCount s = 0)) as [Hz|Hz].
  - rewrite !bind_assoc, bind_mget. destruct (decide (2 ^ 63 ≤ inodeid_seq s)) as [Hm|Hm]; [done|].
    mstep. destruct s as [d t rem cur q]. unfold mret, M_ret, set_field. simpl in *.
    rewrite (u64_small q), (u64_small (q + 1)), u64_small by lia. f_equal. lia.
  - mstep. destruct s as [d t rem cur q]. unfold mret, M_ret, set_field. simpl in *.
    rewrite (u64_small (cur + 1)), u64_small, i32_small by lia. f_equal. lia.
Qed.

(** Many backends with their static variables, the shared sequence and the
    numbers handed out so far. *)
Record seq_config := mk_seq_config {
  sc_seq : Z; sc_backends : list (Z * Z); sc_drawn : list Z }.

Inductive seq_step : seq_config → seq_config → Prop :=
  | seq_draw q bs dr i rem cur d root v s' :
      bs !! i = Some (rem, cur) →
      GetNextSequenceNum (mkPathState d root rem cur q) = Ret v s' →
      seq_step (mk_seq_config q bs dr)
        (mk_seq_config (inodeid_seq s') (<[i := (remainNumberCount s', currentSequenceNumber s')]> bs) (v :: dr)).

(** The sequence as it is created, and [n] backends that have just started. *)
Definition seq_initial (n : nat) : seq_config := mk_seq_config 1 (replicate n (0, 0)) [].

Record seq_inv (c : seq_config) : Prop := {
  si_seq : 1 ≤ sc_seq c < 2 ^ 63 + 32;
  si_range i rem cur : sc_backends c !! i = Some (rem, cur) →
    0 ≤ rem ≤ 32 ∧ 0 ≤ cur ∧ cur + rem ≤ sc_seq c;
  si_apart i j rem cur rem' cur' : i ≠ j →
    sc_backends c !! i = Some (rem, cur) → sc_backends c !! j = Some (rem', cur') →
    rem = 0 ∨ rem' = 0 ∨ cur + rem ≤ cur' ∨ cur' + rem' ≤ cur;
  si_old v : v ∈ sc_drawn c → v < sc_seq c;
  si_used v i rem cur : v ∈ sc_drawn c → sc_backends c !! i = Some (rem, cur) →
    ¬ (cur ≤ v < cur + rem);
  si_nodup : NoDup (sc_drawn c) }.

Lemma seq_inv_step c c' : seq_inv c → seq_step c c' → seq_inv c'.
Proof.
  intros [Hq Hr Ha Ho Hu Hd] Hst. destruct Hst as [q bs dr i rem cur d root v s' Hi Hg]. simpl in *.
  pose proof (Hr i rem cur Hi) as (? & ? & ?). pose proof (lookup_lt_Some _ _ _ Hi) as Hlt.
  rewrite next_sequence_eq in Hg by (simpl; lia). simpl in Hg.
  assert (∀ (b : Z * Z) j rem' cur', <[i := b]> bs !! j = Some (rem', cur') →
    (j = i ∧ b = (rem', cur')) ∨ (j ≠ i ∧ bs !! j = Some (rem', cur'))) as Hlk.
  { intros b j rem' cur' Hj. destruct (decide (i = j)) as [<-|Hne].
    - rewrite list_lookup_insert_eq in Hj by done. left. by simplify_eq.
    - rewrite list_lookup_insert_ne in Hj by done. right. auto. }
  destruct (decide (rem = 0)) as [->|Hnz].
  - destruct (decide (2 ^ 63 ≤ q)) as [|Hm]; simplify_eq/=. split; simpl.
    + lia.
    + intros j rem' cur' [[-> [= <- <-]]|[Hne Hj]]%Hlk; [lia|]. pose proof (Hr j _ _ Hj). lia.
    + intros j k r1 c1 r2 c2 Hjk [[-> [= <- <-]]|[Hne Hj]]%Hlk [[-> [= <- <-]]|[Hne' Hk]]%Hlk; try done.
      * pose proof (Hr k _ _ Hk). lia.
      * pose proof (Hr j _ _ Hj). lia.
      * by apply (Ha j k).
    + intros w [->|Hw]%elem_of_cons; [lia|]. pose proof (Ho w Hw). lia.
    + intros w j rem' cur' [->|Hw]%elem_of_cons [[-> [= <- <-]]|[Hne Hj]]%Hlk.
      * lia.
      * pose proof (Hr j _ _ Hj). lia.
      * pose proof (Ho w Hw). lia.
      * by apply (Hu w j).
    + apply NoDup_cons. split; [|done]. intros Hin. pose proof (Ho _ Hin). lia.
  - simplify_eq/=. split; simpl.
    + lia.
    + intros j rem' cur' [[-> [= <- <-]]|[Hne Hj]]%Hlk; [lia|]. by apply (Hr j).
    + intros j k r1 c1 r2 c2 Hjk [[-> [= <- <-]]|[Hne Hj]]%Hlk [[-> [= <- <-]]|[Hne' Hk]]%Hlk; try done.
      * pose proof (Ha i k _ _ _ _ Hjk Hi Hk). lia.
      * pose proof (Ha j i _ _ _ _ Hjk Hj Hi). lia.
      * by apply (Ha j k).
    + intros w [->|Hw]%elem_of_cons; [lia|]. by apply Ho.
    + intros w j rem' cur' [->|Hw]%elem_of_cons [[-> [= <- <-]]|[Hne Hj]]%Hlk.
      * lia.
      * pose proof (Ha j i _ _ _ _ Hne Hj Hi). pose proof (Hr j _ _ Hj). lia.
      * pose proof (Hu w i _ _ Hw Hi). lia.
      * by apply (Hu w j).
    + apply NoDup_cons. split; [|done]. intros Hin. pose proof (Hu _ i _ _ Hin Hi). lia.
Qed.

(** However many backends draw inode numbers, in whatever order, each
    from its private batch of 32 of the shared sequence, no number is handed
    out twice. *)
Theorem sequence_numbers_unique n c :
  rtc seq_step (seq_initial n) c → NoDup (sc_drawn c).
Proof.
  intros Hr. enough (seq_inv c) as Hinv by apply Hinv. revert Hr.
  apply (rtc_ind_r (λ c, seq_inv c) (seq_initial n)).
  - split; simpl; [lia|..].
    + intros i rem cur Hi. apply lookup_replicate in Hi as [[= -> ->] _]. lia.
    + intros i j rem cur rem' cur' _ Hi _. apply lookup_replicate in Hi as [[= -> ->] _]. by left.
    + intros v Hv. by apply not_elem_of_nil in Hv.
    + intros v i rem cur Hv. by apply not_elem_of_nil in Hv.
    + constructor.
  - intros c1 c2 _ Hs IH. by eapply seq_inv_step.
Qed.
End path_parse.

(** ** Concrete runs *)
Module PathWitness.
Import PgRef DirWitness.

Definition p0 : PathState := mkPathState s0 None 0 0 1.

Ltac no_nul := by apply (bool_decide_eq_true_1 (_ ∉ _)); vm_compute.
Ltac short_names := repeat (apply Forall_cons; split; [by apply (bool_decide_eq_true_1 (_ < _)%nat); vm_compute|]); apply Forall_nil_2.

Lemma pathcmp_order_witness :
  ∃ pq, pathcmp "/a" "/a/b" = Some pq ∧ pq < 0.
Proof.
  destruct (pathcmp_order "/a" "/a/b" "/a/c") as (pq & qp & qr & pr & Hpq & _ & _ & _ & _ & _ & _ & Hlt & _);
    [no_nul|no_nul|no_nul|].
  exists pq. split; [exact Hpq|]. apply (Hlt "b"%string). reflexivity.
Defined.

Lemma PathParseTreeInsert_components_witness :
  PathParseTreeInsert 1 "/a/f" 0 None p0 = parse_by_components 1 "/a/f" 0 None p0.
Proof. apply PathParseTreeInsert_components; [no_nul|discriminate]. Defined.

Lemma p0_ready : parse_ready (latest (directory_rel s0)) PathParseTreeInit p0.
Proof.
  destruct (init_tree_ok (latest (directory_rel s0)) s0) as [Ht Hn].
  split; [reflexivity|]. split; [exact s0_txn|]. split; [|exact (conj Ht Hn)].
  intros k [v Hv]. exfalso. by apply not_elem_of_nil in Hv.
Qed.

Lemma p0_state : parse_state (latest (directory_rel s0)) PathParseTreeInit p0.
Proof. destruct p0_ready as (? & ? & ? & ? & _). by split_and!. Qed.

Lemma PathParseTreeInsert_resolves_witness :
  returns (PathParseTreeInsert 1 "/a/f" PATH_PARSE_FLAG_ACQUIRE_SHARED_LOCK_IF_TARGET_IS_DIRECTORY (Some 0) p0)
    (λ r _, pr_parentId r = Some 7 ∧ pr_fileName r = Some "f"%string).
Proof.
  eapply returns_mono; [eapply outcome_ok_returns; [|vm_compute; reflexivity]|].
  - apply (PathParseTreeInsert_resolves 1 (latest (directory_rel s0)) PathParseTreeInit p0 "/a/f"
      PATH_PARSE_FLAG_ACQUIRE_SHARED_LOCK_IF_TARGET_IS_DIRECTORY (Some 0));
      [apply p0_state|apply s0_real|no_nul|discriminate|short_names].
  - intros r s' Hr. cbv beta in Hr. rewrite decide_False in Hr by (intros [H _]; discriminate H).
    replace (resolve_in _ _ _ _ _) with (@inr CuckooErrorCode _ (["/"; "a"]%string, "f"%string, 7)) in Hr
      by (vm_compute; reflexivity).
    destruct Hr as (H1 & H2 & _). exact (conj H1 H2).
Defined.

(** Two backends draw three numbers. *)
Definition drawn : seq_config := mk_seq_config 65 [(30, 3); (31, 34)] [2; 33; 1].

Lemma sequence_numbers_unique_witness : NoDup [2; 33; 1].
Proof.
  apply (sequence_numbers_unique 2 drawn).
  eapply rtc_l; [apply (seq_draw 1 [(0, 0); (0, 0)] [] 0 0 0 s0 None 1 (mkPathState s0 None 31 2 33)); reflexivity|].
  eapply rtc_l; [apply (seq_draw 33 [(31, 2); (0, 0)] [1] 1 0 0 s0 None 33 (mkPathState s0 None 31 34 65)); reflexivity|].
  eapply rtc_l; [apply (seq_draw 65 [(31, 2); (31, 34)] [33; 1] 0 31 2 s0 None 2 (mkPathState s0 None 30 3 65)); reflexivity|].
  apply rtc_refl.
Defined.

(** A path with a slash at its end names an entry with the empty name inside
    the directory, although VerifyPathValidity accepts it as the directory. *)
Lemma trailing_slash :
  components "/a/" = ["/"; "a"; ""]%string ∧
  VerifyPathValidity "/a/" VERIFY_PATH_VALIDITY_REQUIREMENT_MUST_BE_DIRECTORY =
    (SUCCESS, VERIFY_PATH_VALIDITY_PROPERTY_CAN_BE_DIRECTORY).
Proof. split; vm_compute; reflexivity. Qed.

(** In one batch, /f is looked at first (there is no such directory, so its
    node is remembered without a lock) and then /f/x is resolved: the walk
    goes on below the node as if it were a directory, with parent id -1,
    where the same request on its own is rejected. *)
Definition look_at_f : M PathState ParseResult :=
  PathParseTreeInsert 1 "/f" PATH_PARSE_FLAG_ACQUIRE_SHARED_LOCK_IF_TARGET_IS_DIRECTORY (Some 0) ;;
  PathParseTreeInsert 1 "/f/x" 0 None.

Definition code_of {S} (o : outcome S ParseResult) : option (CuckooErrorCode * option Z) :=
  match o with Ret r _ => Some (pr_errorCode r, pr_parentId r) | _ => None end.

Lemma file_as_directory :
  code_of (look_at_f p0) = Some (SUCCESS, Some (u64 (-1))) ∧
  code_of (PathParseTreeInsert 1 "/f/x" 0 None p0) = Some (PATH_IS_INVALID, None).
Proof. split; vm_compute; reflexivity. Qed.
End PathWitness.
