(* ===== verification/Inode.v ===== *)
(** * Inode relations and the state of a metadata server

    metadb/inode_table.h, metadb/meta_process_info.h and the helpers at the
    end of metadb/meta_handle.c.  A server has one inode relation per shard,
    whose unique index is on (parentid_partid, name).  The requests of a batch
    are structs the handlers read and write through pointers: they are kept in
    the state, and the array of pointers the handlers sort is a list of their
    positions. *)

From S2P Require Import Prelude Pg Shard RWLock DirHash PathParse.

(** ** Data *)

Record FormData_dfs_inode_table := mkInode {
  it_name : string;
  it_st_ino : Z;
  it_parentid_partid : Z;
  it_st_dev : Z;
  it_st_mode : Z;
  it_st_nlink : Z;
  it_st_uid : Z;
  it_st_gid : Z;
  it_st_rdev : Z;
  it_st_size : Z;
  it_st_blksize : Z;
  it_st_blocks : Z;
  it_st_atim : Z;
  it_st_mtim : Z;
  it_st_ctim : Z;
  it_etag : string;
  it_update_version : Z;
  it_primary_nodeid : Z;
  it_backup_nodeid : Z }.

#[global] Instance eta_inode : Eta FormData_dfs_inode_table := λ r,
  mkInode (it_name r) (it_st_ino r) (it_parentid_partid r) (it_st_dev r) (it_st_mode r) (it_st_nlink r)
    (it_st_uid r) (it_st_gid r) (it_st_rdev r) (it_st_size r) (it_st_blksize r) (it_st_blocks r)
    (it_st_atim r) (it_st_mtim r) (it_st_ctim r) (it_etag r) (it_update_version r)
    (it_primary_nodeid r) (it_backup_nodeid r).

(** A bigint column holds the bits of the uint64. *)
Definition inode_key (r : FormData_dfs_inode_table) : Z * string :=
  (i64 (it_parentid_partid r), it_name r).

Record OneReadDirResult := mkOneReadDir { rd_fileName : string; rd_mode : Z }.

Record MetaProcessInfoData := mkInfo {
  path : string;
  mi_parentId : Z;
  readDirMaxReadCount : Z;
  mi_inodeId : Z;
  mi_parentId_partId : Z;
  mi_name : option string;
  st_dev : Z;
  st_mode : Z;
  st_nlink : Z;
  st_uid : Z;
  st_gid : Z;
  st_rdev : Z;
  st_size : Z;
  st_blksize : Z;
  st_blocks : Z;
  st_atim : Z;
  st_mtim : Z;
  st_ctim : Z;
  etag : string;
  node_id : Z;
  readDirLastShardIndex : Z;
  readDirLastFileName : option string;
  readDirResultList : list OneReadDirResult;
  dstPath : string;
  dstParentId : Z;
  dstParentIdPartId : Z;
  dstName : option string;
  targetIsDirectory : bool;
  srcLockOrder : Z;
  errorCode : CuckooErrorCode }.

#[global] Instance eta_info : Eta MetaProcessInfoData := λ i,
  mkInfo (path i) (mi_parentId i) (readDirMaxReadCount i) (mi_inodeId i) (mi_parentId_partId i) (mi_name i)
    (st_dev i) (st_mode i) (st_nlink i) (st_uid i) (st_gid i) (st_rdev i) (st_size i) (st_blksize i)
    (st_blocks i) (st_atim i) (st_mtim i) (st_ctim i) (etag i) (node_id i) (readDirLastShardIndex i)
    (readDirLastFileName i) (readDirResultList i) (dstPath i) (dstParentId i) (dstParentIdPartId i)
    (dstName i) (targetIsDirectory i) (srcLockOrder i) (errorCode i).

Definition S_IFMT : Z := 61440.   (* 0170000 *)
Definition S_IFREG : Z := 32768.  (* 0100000 *)
Definition S_IFDIR : Z := 16384.  (* 0040000 *)
Definition S_ISREG (mode : Z) : bool := bool_decide (Z.land mode S_IFMT = S_IFREG).

Definition CUCKOO_CN_SERVER_ID : Z := 0.
Definition BATCH_OPERATION_GROUP_SIZE : Z := 8.
Definition DEFAULT_SUBPART_NUM : Z := 100.

(** The arguments of SearchAndUpdateInodeTableInfo that ask for a change; a
    null pointer is None.  [nlinkChangeNum] counts only when the nlink pointer
    is not null. *)
Record InodeUpdate := mkUpdate {
  doUpdate : bool;
  newSize : option Z;
  updateVersion : bool;
  nlinkChange : option Z;
  newExecMode : option Z;
  newUid : option Z;
  newGid : option Z;
  newEtag : option string;
  newAtime : option Z;
  newMtime : option Z;
  newPrimaryNodeId : option Z }.

Definition no_update (upd : bool) : InodeUpdate :=
  mkUpdate upd None false None None None None None None None None.
#[global] Instance eta_update : Eta InodeUpdate := λ u,
  mkUpdate (doUpdate u) (newSize u) (updateVersion u) (nlinkChange u) (newExecMode u) (newUid u)
    (newGid u) (newEtag u) (newAtime u) (newMtime u) (newPrimaryNodeId u).

(** heap_modify_tuple with one column, when the pointer is not null: the new
    tuple and needCatalogTupleUpdate. *)
Definition set_col {A} (v : option A) (f : A → FormData_dfs_inode_table → FormData_dfs_inode_table)
    (acc : FormData_dfs_inode_table * bool) : FormData_dfs_inode_table * bool :=
  match v with
  | None => acc
  | Some x => (f x acc.1, true)
  end.

(** The columns SearchAndUpdateInodeTableInfo changes in [old] when doUpdate
    is set, other than by deleting the row. *)
Definition updated_tuple (u : InodeUpdate) (old : FormData_dfs_inode_table) : FormData_dfs_inode_table * bool :=
  let acc := (old, false) in
  let acc := set_col (newSize u) (λ x r, r <| it_st_size := x |>) acc in
  let acc := if updateVersion u then
               (acc.1 <| it_update_version := u64 (it_update_version old + 1) |>, true) else acc in
  let acc := match nlinkChange u with
             | Some d => if decide (u64 (it_st_nlink old + d) = 0) then acc
                         else (acc.1 <| it_st_nlink := u64 (it_st_nlink old + d) |>, true)
             | None => acc
             end in
  let acc := set_col (newUid u) (λ x r, r <| it_st_uid := x |>) acc in
  let acc := set_col (newGid u) (λ x r, r <| it_st_gid := x |>) acc in
  let acc := set_col (newExecMode u)
    (λ x r, r <| it_st_mode := Z.lor (Z.land (it_st_mode old) (u32 (Z.lnot 511))) x |>) acc in
  let acc := set_col (newEtag u) (λ x r, r <| it_etag := x |>) acc in
  let acc := set_col (newAtime u) (λ x r, r <| it_st_atim := x |>) acc in
  let acc := set_col (newMtime u) (λ x r, r <| it_st_mtim := x |>) acc in
  set_col (newPrimaryNodeId u) (λ x r, r <| it_primary_nodeid := x |>) acc.

(** ** The server *)
Section server.
Context `{!PgEnv, !Collation, !DirHashEnv, !PgRelation dir_key id_text_le,
          !PgRelation range_point Z.le, !PgRelation inode_key id_text_le}.
(** GetLocalServerId(), and the successive values of GetCurrentTimestamp(). *)
Context (LocalServerId : Z) (timestamp : Z → Z).

Abbreviation inode_rel := (rel inode_key id_text_le).

(** The directories and the path tree, the shard map, the inode relations by
    shard id, the requests at hand and the calls of the clock so far. *)
Record MetaState := mkMeta {
  ms_path : PathState;
  ms_shard : ShardState;
  inode_rels : gmap Z inode_rel;
  infos : list MetaProcessInfoData;
  clock_calls : Z }.

#[global] Instance eta_MetaState : Eta MetaState := λ s,
  mkMeta (ms_path s) (ms_shard s) (inode_rels s) (infos s) (clock_calls s).

Abbreviation MM := (M MetaState).

Definition on_path {A} (m : M PathState A) : MM A := mzoom ms_path (λ p s, s <| ms_path := p |>) m.
Definition on_shard {A} (m : M ShardState A) : MM A := mzoom ms_shard (λ p s, s <| ms_shard := p |>) m.

(** Access through an element of infoArray. *)
Definition get_info (i : nat) : MM MetaProcessInfoData :=
  s ← mget; match infos s !! i with Some x => mret x | None => mundefined end.
Definition set_info (i : nat) (f : MetaProcessInfoData → MetaProcessInfoData) : MM () :=
  x ← get_info i; mmodify (λ s, s <| infos ::= <[i := f x]> |>).
Definition set_error (i : nat) (c : CuckooErrorCode) : MM () := set_info i (λ x, x <| errorCode := c |>).

Definition GetCurrentTimestamp : MM Z :=
  s ← mget; mput (s <| clock_calls ::= Z.succ |>) ;; mret (timestamp (clock_calls s)).

(** CommandCounterIncrement() makes every change of the transaction visible. *)
Definition command_counter_increment : MM () :=
  mmodify (λ s, s <| ms_path ::= λ p, p <| ps_dir ::= λ d, d <| directory_rel ::= CommandCounterIncrement |> |> |>
                  <| inode_rels ::= fmap CommandCounterIncrement |>).

(** table_open(GetRelationOidByName_CUCKOO(GetInodeShardName(shardId))): the
    relation dfs_inode_table_<shardId>. *)
Definition open_inode_rel (shardId : Z) : MM inode_rel :=
  s ← mget; match inode_rels s !! shardId with Some t => mret t | None => melog PROGRAM_ERROR end.

Definition put_inode_rel (shardId : Z) (t : inode_rel) : MM () :=
  mmodify (λ s, s <| inode_rels ::= <[shardId := t]> |>).

(** The old row, None when there is none (the function returns false): every
    out parameter is a column of the old row. *)
Definition SearchAndUpdateInodeTableInfo (shardId parentId_partId : Z) (fileName : string) (u : InodeUpdate)
    : MM (option FormData_dfs_inode_table) :=
  t ← open_inode_rel shardId;
  match scan_eq t (i64 parentId_partId, fileName) with
  | None => mret None
  | Some old =>
      if negb (doUpdate u) then mret (Some old)
      else
        (match nlinkChange u with
         | Some d =>
             if decide (u64 (it_st_nlink old + d) = 0) then
               match CatalogTupleDelete t (inode_key old) with
               | None => mpgerror TupleAlreadyModified
               | Some t' => put_inode_rel shardId t' ;; command_counter_increment
               end
             else mret ()
         | None => mret ()
         end) ;;
        let '(row, needCatalogTupleUpdate) := updated_tuple u old in
        (if needCatalogTupleUpdate : bool then
           t ← open_inode_rel shardId;
           match CatalogTupleUpdate t row with
           | None => mpgerror TupleAlreadyModified
           | Some t' => put_inode_rel shardId t' ;; command_counter_increment
           end
         else mret ()) ;;
        mret (Some old)
  end.

Definition InsertIntoInodeTable (shardId : Z) (row : FormData_dfs_inode_table) : MM () :=
  t ← open_inode_rel shardId;
  match CatalogTupleInsert t row with
  | None => mpgerror UniqueViolation
  | Some t' => put_inode_rel shardId t' ;; command_counter_increment
  end.

(** ** What the handlers have in common *)

(** The first loop of a handler: reset the request and verify its path. *)
Definition verify_paths (requirement : Z) (infoArray : list nat) : MM () :=
  mfor infoArray (λ i,
    set_error i SUCCESS ;;
    info ← get_info i;
    let '(code, _) := VerifyPathValidity (path info) requirement in
    if decide (code ≠ SUCCESS) then set_error i code else mret ()).

(** pg_qsort(infoArray, ..., pg_qsort_meta_process_info_by_path_cmp) *)
Definition path_cmp (l : list MetaProcessInfoData) (i j : nat) : Z :=
  match l !! i, l !! j with
  | Some a, Some b => default 0 (pathcmp (path a) (path b))
  | _, _ => 0
  end.

Definition sort_infos (infoArray : list nat) : MM (list nat) :=
  s ← mget; mret (pg_qsort (path_cmp (infos s)) infoArray).

(** PathParseTreeInsert on behalf of request i, with &info->parentId,
    &info->name and, when [with_inode], &info->inodeId. *)
Definition parse_path (i : nat) (flag : Z) (with_inode : bool) : MM CuckooErrorCode :=
  info ← get_info i;
  r ← on_path (PathParseTreeInsert LocalServerId (path info) flag
                 (if with_inode then Some (mi_inodeId info) else None));
  set_info i (λ x, x <| mi_parentId := default (mi_parentId x) (pr_parentId r) |>
                     <| mi_name := match pr_fileName r with Some n => Some n | None => mi_name x end |>
                     <| mi_inodeId := if with_inode then default (mi_inodeId x) (pr_inodeId r)
                                      else mi_inodeId x |>) ;;
  mret (pr_errorCode r).

(** The hash table from shard (or server) id to a list, in the order the ids
    were entered; hash_seq_search goes through it in an order of its own. *)
Definition hash_append {A} (id : Z) (x : A) (table : list (Z * list A)) : list (Z * list A) :=
  if decide (id ∈ table.*1) then (λ e, if decide (e.1 = id) then (e.1, e.2 ++ [x]) else e) <$> table
  else table ++ [(id, [x])].

(** HashPartId and the shard of info's (parentId, name). *)
Definition locate_info (i : nat) : MM (Z * Z) :=
  info ← get_info i;
  match mi_name info with
  | None => mundefined
  | Some name =>
      let pp := CombineParentIdWithPartId (mi_parentId info) (HashPartId name) in
      set_info i (λ x, x <| mi_parentId_partId := pp |>) ;;
      on_shard (SearchShardInfoByShardValue pp)
  end.

(** The body of the second loop of the batch handlers: parse the path of a
    request that is still good and find its shard; [fill] is what the handler
    stores in the request in between.  The shard it is queued at, None after
    CHECK_ERROR_CODE_WITH_CONTINUE. *)
Definition route_one (flag : Z) (with_inode : bool) (fill : nat → MM ()) (i : nat) : MM (option Z) :=
  info ← get_info i;
  if decide (errorCode info ≠ SUCCESS) then mret None
  else
    code ← parse_path i flag with_inode;
    if decide (code ≠ SUCCESS) then set_error i code ;; mret None
    else
      fill i ;;
      loc ← locate_info i;
      if decide (loc.2 ≠ LocalServerId) then set_error i WRONG_WORKER ;; mret None
      else mret (Some loc.1).

Fixpoint group_by_shard (flag : Z) (with_inode : bool) (fill : nat → MM ()) (infoArray : list nat)
    (table : list (Z * list nat)) : MM (list (Z * list nat)) :=
  match infoArray with
  | [] => mret table
  | i :: infoArray' =>
      shard ← route_one flag with_inode fill i;
      group_by_shard flag with_inode fill infoArray'
        (match shard with Some shardId => hash_append shardId i table | None => table end)
  end.

(** The first half of every batch handler. *)
Definition prepare (requirement flag : Z) (with_inode : bool) (fill : nat → MM ()) (infoArray : list nat)
    : MM (list (Z * list nat)) :=
  verify_paths requirement infoArray ;;
  infoArray ← sort_infos infoArray;
  on_shard GetShardTableSize ;;
  group_by_shard flag with_inode fill infoArray [].

Definition all_infos : MM (list nat) := s ← mget; mret (seq 0 (length (infos s))).
End server.

(** ** Rows *)
Section rows.
Context `{!PgEnv, !Collation, !DirHashEnv, !PgRelation dir_key id_text_le,
          !PgRelation range_point Z.le, !PgRelation inode_key id_text_le}.

Abbreviation inode_map := (gmap (Z * string) FormData_dfs_inode_table).

(** The rows of every inode relation of the server. *)
Definition db (s : MetaState) : gmap Z inode_map := visible <$> inode_rels s.
Definition db_settled (s : MetaState) : Prop := ∀ shardId t, inode_rels s !! shardId = Some t → settled t.

Definition cci_path (p : PathState) : PathState :=
  p <| ps_dir ::= λ d, d <| directory_rel ::= CommandCounterIncrement |> |>.

(** The state before and after operations on rows: nothing else changes, but
    for commands that end. *)
Record rows_only (s s' : MetaState) : Prop := {
  ro_shard : ms_shard s' = ms_shard s;
  ro_infos : infos s' = infos s;
  ro_clock : clock_calls s' = clock_calls s;
  ro_path : ∃ n, ms_path s' = Nat.iter n cci_path (ms_path s) }.

Lemma rows_only_refl s : rows_only s s.
Proof. split; try done. by exists 0%nat. Qed.

Lemma rows_only_trans s1 s2 s3 : rows_only s1 s2 → rows_only s2 s3 → rows_only s1 s3.
Proof.
  intros [? ? ? [n Hn]] [? ? ? [m Hm]]. split; try congruence.
  exists (m + n)%nat. by rewrite Hm, Hn, Nat.iter_add.
Qed.

Lemma open_db s shardId m :
  db s !! shardId = Some m →
  ∃ t, inode_rels s !! shardId = Some t ∧ visible t = m ∧ open_inode_rel shardId s = Ret t s.
Proof.
  unfold db. rewrite lookup_fmap, fmap_Some. intros (t & Ht & ->). exists t.
  unfold open_inode_rel. rewrite bind_mget, Ht. by split_and!.
Qed.

Lemma open_db_None s shardId :
  db s !! shardId = None → open_inode_rel shardId s = Elog (Cuckoo PROGRAM_ERROR) s.
Proof.
  unfold db. rewrite lookup_fmap, fmap_None. intros Ht. unfold open_inode_rel. by rewrite bind_mget, Ht.
Qed.

(** A row is written and the command ends. *)
Lemma put_rows s shardId t :
  db_settled s →
  ∃ s', (put_inode_rel shardId t ;; command_counter_increment) s = Ret () s' ∧
    db s' = <[shardId := latest t]> (db s) ∧ db_settled s' ∧ rows_only s s'.
Proof.
  intros Hs. unfold put_inode_rel, command_counter_increment. rewrite bind_mmodify.
  eexists. split; [reflexivity|]. split_and!.
  - unfold db. simpl. rewrite <-map_fmap_compose, fmap_insert. f_equal.
    + simpl. by rewrite cci_visible.
    + apply map_fmap_ext. intros i t' Ht'. simpl. rewrite cci_visible. symmetry. by apply (Hs i).
  - intros i t'. simpl. rewrite lookup_fmap, fmap_Some. intros (t0 & _ & ->). apply settled_cci.
  - split; simpl; try done. by exists 1%nat.
Qed.

Lemma Insert_new s shardId m row :
  db_settled s → db s !! shardId = Some m → m !! inode_key row = None →
  ∃ s', InsertIntoInodeTable shardId row s = Ret () s' ∧
    db s' = <[shardId := <[inode_key row := row]> m]> (db s) ∧ db_settled s' ∧ rows_only s s'.
Proof.
  intros Hs Hm Hn. destruct (open_db _ _ _ Hm) as (t & Ht & <- & Ho). pose proof (Hs _ _ Ht) as Hset.
  unfold InsertIntoInodeTable. erewrite bind_ret by done.
  destruct (insert_is_Some t row) as [t' Et]; [by rewrite <-Hset|]. rewrite Et.
  apply insert_Some in Et as [_ El]. destruct (put_rows s shardId t' Hs) as (s' & Hr & Hd & Hs' & Hro).
  exists s'. split_and!; try done. by rewrite Hd, El, <-Hset.
Qed.

Lemma Insert_duplicate s shardId m row :
  db_settled s → db s !! shardId = Some m → is_Some (m !! inode_key row) →
  InsertIntoInodeTable shardId row s = Elog UniqueViolation s.
Proof.
  intros Hs Hm Hn. destruct (open_db _ _ _ Hm) as (t & Ht & <- & Ho). pose proof (Hs _ _ Ht) as Hset.
  unfold InsertIntoInodeTable. erewrite bind_ret by done.
  rewrite (proj2 (insert_None t row)); [done|]. by rewrite <-Hset.
Qed.

Definition row_at (m : inode_map) (parentId_partId : Z) (name : string) : option FormData_dfs_inode_table :=
  m !! (i64 parentId_partId, name).

Lemma Search_miss s shardId m pp name u :
  db s !! shardId = Some m → row_at m pp name = None →
  SearchAndUpdateInodeTableInfo shardId pp name u s = Ret None s.
Proof.
  intros Hm Hn. destruct (open_db _ _ _ Hm) as (t & Ht & <- & Ho).
  unfold SearchAndUpdateInodeTableInfo. erewrite bind_ret by done.
  unfold row_at in Hn. by rewrite scan_eq_visible, Hn.
Qed.

Lemma Search_read s shardId m pp name u :
  db s !! shardId = Some m → doUpdate u = false →
  SearchAndUpdateInodeTableInfo shardId pp name u s = Ret (row_at m pp name) s.
Proof.
  intros Hm Hu. destruct (open_db _ _ _ Hm) as (t & Ht & <- & Ho).
  unfold SearchAndUpdateInodeTableInfo, row_at. erewrite bind_ret by done. rewrite scan_eq_visible, Hu.
  by destruct (visible t !! _).
Qed.

Lemma set_col_key {A} (v : option A) f acc :
  (∀ x r, inode_key (f x r) = inode_key r) → inode_key (set_col v f acc).1 = inode_key acc.1.
Proof. intros Hf. destruct v; simpl; auto. Qed.

(** No update changes where a row is kept. *)
Lemma updated_tuple_key u old : inode_key (updated_tuple u old).1 = inode_key old.
Proof.
  unfold updated_tuple. rewrite !set_col_key by done.
  destruct (nlinkChange u); [destruct (decide _)|]; destruct (updateVersion u);
    by destruct (newSize u).
Qed.

Definition keyed (d : gmap Z inode_map) : Prop :=
  ∀ shardId m k r, d !! shardId = Some m → m !! k = Some r → inode_key r = k.

Lemma db_keyed s : keyed (db s).
Proof.
  intros i m k r Hm Hk. destruct (open_db _ _ _ Hm) as (t & _ & <- & _). by eapply visible_key.
Qed.

(** A change of columns. *)
Lemma Search_update s shardId m pp name u old :
  db_settled s → db s !! shardId = Some m → row_at m pp name = Some old → doUpdate u = true →
  (∀ d, nlinkChange u = Some d → u64 (it_st_nlink old + d) ≠ 0) → (updated_tuple u old).2 = true →
  ∃ s', SearchAndUpdateInodeTableInfo shardId pp name u s = Ret (Some old) s' ∧
    db s' = <[shardId := <[inode_key old := (updated_tuple u old).1]> m]> (db s) ∧ db_settled s' ∧ rows_only s s'.
Proof.
  intros Hs Hm Hold Hu Hnl Hneed. pose proof (db_keyed s _ _ _ _ Hm Hold) as Hkey.
  destruct (open_db _ _ _ Hm) as (t & Ht & <- & Ho). pose proof (Hs _ _ Ht) as Hset.
  unfold SearchAndUpdateInodeTableInfo. erewrite bind_ret by done.
  unfold row_at in Hold. rewrite scan_eq_visible, Hold, Hu. cbn [negb].
  pose proof (updated_tuple_key u old) as Hk. destruct (updated_tuple u old) as [row need]. simpl in Hneed, Hk. subst need.
  assert ((match nlinkChange u with
     | Some d => if decide (u64 (it_st_nlink old + d) = 0) then
         match CatalogTupleDelete t (inode_key old) with
         | None => mpgerror TupleAlreadyModified
         | Some t' => put_inode_rel shardId t' ;; command_counter_increment end
         else mret () | None => mret () end) s = Ret () s) as Hpre.
  { destruct (nlinkChange u) as [d|]; [|done]. by rewrite decide_False by by apply Hnl. }
  erewrite bind_ret by exact Hpre. rewrite bind_assoc. erewrite bind_ret by done.
  destruct (update_is_Some t row) as [t' Et].
  { rewrite Hk, <-Hset, Hkey. eauto. }
  rewrite Et. apply update_Some in Et as [_ El]. destruct (put_rows s shardId t' Hs) as (s' & Hr & Hd & Hs' & Hro).
  exists s'. erewrite bind_ret by exact Hr. split_and!; try done. by rewrite Hd, El, <-Hset, Hk.
Qed.

(** One link less: the row goes when there are none left. *)
Lemma Search_unlink s shardId m pp name old :
  db_settled s → db s !! shardId = Some m → row_at m pp name = Some old →
  ∃ s', SearchAndUpdateInodeTableInfo shardId pp name ((no_update true) <| nlinkChange := Some (-1) |>) s = Ret (Some old) s' ∧
    db s' = <[shardId := if decide (u64 (it_st_nlink old - 1) = 0) then delete (inode_key old) m
                         else <[inode_key old := old <| it_st_nlink := u64 (it_st_nlink old - 1) |>]> m]> (db s) ∧
    db_settled s' ∧ rows_only s s'.
Proof.
  intros Hs Hm Hold. set (u := (no_update true) <| nlinkChange := Some (-1) |>).
  destruct (decide (u64 (it_st_nlink old - 1) = 0)) as [Hz|Hz].
  - pose proof (db_keyed s _ _ _ _ Hm Hold) as Hkey.
    destruct (open_db _ _ _ Hm) as (t & Ht & <- & Ho). pose proof (Hs _ _ Ht) as Hset.
    unfold SearchAndUpdateInodeTableInfo. erewrite bind_ret by done.
    unfold row_at in Hold. rewrite scan_eq_visible, Hold. cbn -[mbind u64 Z.add].
    change (it_st_nlink old + -1) with (it_st_nlink old - 1).
    rewrite decide_True by done. unfold updated_tuple. cbn -[mbind u64 Z.add].
    change (it_st_nlink old + -1) with (it_st_nlink old - 1). rewrite decide_True by done.
    destruct (delete_is_Some t (inode_key old)) as [t' Et].
    { rewrite <-Hset, Hkey. eauto. }
    rewrite Et. apply delete_Some in Et as [_ El]. destruct (put_rows s shardId t' Hs) as (s' & Hr & Hd & Hs' & Hro).
    exists s'. erewrite bind_ret by exact Hr. split_and!; try done. by rewrite Hd, El, <-Hset.
  - assert (updated_tuple u old = (old <| it_st_nlink := u64 (it_st_nlink old - 1) |>, true)) as Hu.
    { unfold updated_tuple. cbn -[u64 Z.add]. change (it_st_nlink old + -1) with (it_st_nlink old - 1).
      by rewrite decide_False. }
    destruct (Search_update s shardId m pp name u old) as (s' & Hr & Hd & ? & ?); try done.
    + intros d [= <-]. done.
    + by rewrite Hu.
    + exists s'. split_and!; try done. by rewrite Hd, Hu.
Qed.

(** *** Requests *)

Lemma get_info_eq s i x : infos s !! i = Some x → get_info i s = Ret x s.
Proof. intros Hi. unfold get_info. by rewrite bind_mget, Hi. Qed.

Lemma set_info_eq s i x f :
  infos s !! i = Some x → set_info i f s = Ret () (s <| infos ::= <[i := f x]> |>).
Proof. intros Hi. unfold set_info. by erewrite bind_ret by by apply get_info_eq. Qed.

(** A server that handles requests against the rows [m] of one shard: it
    differs from [s0] by these rows and by the requests [l]. *)
Record shard_view (s0 : MetaState) (shardId : Z) (m : inode_map) (l : list MetaProcessInfoData)
    (s : MetaState) : Prop := {
  sv_settled : db_settled s;
  sv_db : db s = <[shardId := m]> (db s0);
  sv_frame : rows_only (s0 <| infos := l |>) s }.

Lemma shard_view_init s shardId m :
  db_settled s → db s !! shardId = Some m → shard_view s shardId m (infos s) s.
Proof.
  intros Hs Hm. split; [done|by rewrite insert_id|]. destruct s. apply rows_only_refl.
Qed.

Lemma sv_lookup s0 shardId m l s : shard_view s0 shardId m l s → db s !! shardId = Some m.
Proof. intros [_ Hd _]. by rewrite Hd, lookup_insert_eq. Qed.

Lemma sv_infos s0 shardId m l s : shard_view s0 shardId m l s → infos s = l.
Proof. intros [_ _ [_ Hi _ _]]. done. Qed.

Lemma sv_rows s0 shardId m m' l s s' :
  shard_view s0 shardId m l s → db s' = <[shardId := m']> (db s) → db_settled s' → rows_only s s' →
  shard_view s0 shardId m' l s'.
Proof.
  intros [_ Hd Hf] Hd' Hs' Hr. split; [done|by rewrite Hd', Hd, insert_insert_eq|].
  by eapply rows_only_trans.
Qed.

Lemma sv_set_infos s0 shardId m l l' s :
  shard_view s0 shardId m l s → shard_view s0 shardId m l' (s <| infos := l' |>).
Proof. intros [Hs Hd [? ? ? ?]]. split; [done|done|]. split; done. Qed.

Lemma sv_set_info s0 shardId m l s i x f :
  shard_view s0 shardId m l s → l !! i = Some x →
  ∃ s', set_info i f s = Ret () s' ∧ shard_view s0 shardId m (<[i := f x]> l) s'.
Proof.
  intros Hv Hi. pose proof (sv_infos _ _ _ _ _ Hv) as Hl. subst l. rewrite (set_info_eq _ _ _ _ Hi).
  eexists. split; [done|]. destruct Hv as [Hs Hd [? ? ? ?]]. split; [done|done|]. by split.
Qed.
End rows.
