(* ===== verification/Route.v ===== *)
(** * From paths to shards: the part the batch handlers share

    Every batch handler of metadb/meta_handle.c verifies its paths, sorts the
    requests, resolves each path and queues the request at the shard of its
    target.  This file gives the reference for these steps, as functions of
    the committed directories and of the shard map, and shows that the
    handlers' loops compute it. *)

From S2P Require Import Prelude Pg Shard RWLock DirHash PathParse Inode.

Section route.
Context `{!PgEnv, !Collation, !DirHashEnv, !PgRelation dir_key id_text_le,
          !PgRelation range_point Z.le, !PgRelation inode_key id_text_le}.
Context (LocalServerId : Z).

Abbreviation MM := (M MetaState).
Abbreviation dir_map := (gmap (Z * string) FormData_cuckoo_directory_table).

(** ** Reference *)

Record location := mkLoc { loc_parentId : Z; loc_name : string; loc_pp : Z; loc_shardId : Z }.

(** The shard of an entry, when this server is the one to serve it. *)
Definition place (rows : list FormData_cuckoo_shard_table) (pid : Z) (name : string) : CuckooErrorCode + location :=
  let pp := CombineParentIdWithPartId pid (HashPartId name) in
  match shard_for rows (HashShard pp) with
  | None => inl PROGRAM_ERROR
  | Some row => if decide (server_id row = LocalServerId) then inr (mkLoc pid name pp (range_point row))
                else inl WRONG_WORKER
  end.

(** Where the path of a request leads, or the error it gets. *)
Definition route (D0 : dir_map) (t : PathParseTree) (rows : list FormData_cuckoo_shard_table)
    (requirement : Z) (not_root : bool) (path : string) : CuckooErrorCode + location :=
  let '(code, _) := VerifyPathValidity path requirement in
  if decide (code ≠ SUCCESS) then inl code
  else if decide (path = "/"%string ∧ not_root = true) then inl PATH_IS_ROOT
  else match resolve D0 t path with
       | inl e => inl e
       | inr (pid, name) => place rows pid name
       end.

(** The queues: one list per shard, in the order of the requests. *)
Definition enqueue (routes : nat → CuckooErrorCode + location) (table : list (Z * list nat)) (i : nat)
    : list (Z * list nat) :=
  match routes i with
  | inl _ => table
  | inr loc => hash_append (loc_shardId loc) i table
  end.

Definition located (x : MetaProcessInfoData) (loc : location) (x' : MetaProcessInfoData) : Prop :=
  path x' = path x ∧ errorCode x' = SUCCESS ∧ mi_parentId x' = loc_parentId loc ∧
  mi_name x' = Some (loc_name loc) ∧ mi_parentId_partId x' = loc_pp loc.

(** ** The steps *)

Lemma verify_paths_spec requirement idxs s :
  NoDup idxs → Forall (λ i, is_Some (infos s !! i)) idxs →
  ∃ l, verify_paths requirement idxs s = Ret () (s <| infos := l |>) ∧
    ∀ i, l !! i = (if decide (i ∈ idxs) then
      (λ x, x <| errorCode := (VerifyPathValidity (path x) requirement).1 |>) <$> infos s !! i
      else infos s !! i).
Proof.
  unfold verify_paths. revert s. induction idxs as [|i idxs IH]; intros s Hnd Hv.
  { exists (infos s). split; [by destruct s|]. intros j. by rewrite decide_False by apply not_elem_of_nil. }
  apply NoDup_cons in Hnd as [Hi Hnd]. apply Forall_cons in Hv as [[x Hx] Hv].
  pose proof (lookup_lt_Some _ _ _ Hx) as Hlen.
  set (x' := x <| errorCode := (VerifyPathValidity (path x) requirement).1 |>).
  set (s1 := s <| infos := <[i := x']> (infos s) |>).
  destruct (IH s1) as (l & Hl & Hspec); [done| |].
  { eapply Forall_impl; [exact Hv|]. intros j Hj. simpl. destruct (decide (i = j)) as [<-|Hne].
    - rewrite list_lookup_insert_eq by done. eauto.
    - by rewrite list_lookup_insert_ne. }
  exists l. cbn [mfor]. split.
  - rewrite bind_assoc. erewrite (bind_ret (set_error i SUCCESS)) by by apply set_info_eq. rewrite bind_assoc.
    erewrite bind_ret by (apply get_info_eq; simpl; by rewrite list_lookup_insert_eq).
    simpl. unfold x' in s1. destruct (VerifyPathValidity (path x) requirement) as [code prop]. simpl in s1.
    assert ((if decide (code ≠ SUCCESS) then set_error i code else mret ())
      (s <| infos ::= <[i := x <| errorCode := SUCCESS |>]> |>) = Ret () s1) as Hstep.
    { destruct (decide (code ≠ SUCCESS)) as [Hc|Hc].
      - unfold set_error. rewrite (set_info_eq _ _ (x <| errorCode := SUCCESS |>)) by (simpl; by rewrite list_lookup_insert_eq).
        f_equal. unfold s1. destruct s. simpl in *. unfold set_field. simpl. f_equal.
        by rewrite list_insert_insert_eq.
      - apply dec_stable in Hc. subst code. by destruct s. }
    erewrite bind_ret by exact Hstep. rewrite Hl. by destruct s.
  - intros j. rewrite Hspec. simpl. destruct (decide (i = j)) as [<-|Hne].
    + rewrite decide_False by done. rewrite decide_True by (by left).
      by rewrite list_lookup_insert_eq, Hx.
    + rewrite list_lookup_insert_ne by done.
      destruct (decide (j ∈ idxs)) as [Hj|Hj]; [by rewrite decide_True by (by right)|].
      rewrite decide_False; [done|]. rewrite not_elem_of_cons. split; [congruence|done].
Qed.

(** ** Queues *)

Lemma hash_append_keys {A} id (x : A) table :
  (hash_append id x table).*1 = if decide (id ∈ table.*1) then table.*1 else table.*1 ++ [id].
Proof.
  unfold hash_append. destruct (decide (id ∈ table.*1)); [|by rewrite fmap_app].
  rewrite <-list_fmap_compose. apply list_fmap_ext. intros j y _. simpl. by destruct (decide _).
Qed.

Lemma hash_append_concat {A} id (x : A) table :
  NoDup table.*1 → concat (hash_append id x table).*2 ≡ₚ x :: concat table.*2.
Proof.
  unfold hash_append. intros Hnd. destruct (decide (id ∈ table.*1)) as [Hin|Hin].
  - induction table as [|[id' l] table IH]; [by apply not_elem_of_nil in Hin|].
    rewrite !fmap_cons. rewrite fmap_cons in Hnd, Hin. cbn [fst snd concat] in *.
    apply NoDup_cons in Hnd as [Hn Hnd]. destruct (decide (id' = id)) as [->|Hne]; cbn [fst snd].
    + assert ((λ e : Z * list A, if decide (e.1 = id) then (e.1, e.2 ++ [x]) else e) <$> table = table) as ->.
      { rewrite <-(list_fmap_id table) at 2. apply list_fmap_ext. intros j e He. simpl. rewrite decide_False; [done|].
        intros <-. apply Hn. apply list_elem_of_fmap_2. by eapply list_elem_of_lookup_2. }
      rewrite <-app_assoc. simpl. by rewrite <-Permutation_middle.
    + rewrite IH; [by rewrite Permutation_middle|done|]. apply elem_of_cons in Hin as [?|?]; [congruence|done].
  - rewrite fmap_app, concat_app. simpl. by rewrite Permutation_app_comm.
Qed.

Lemma hash_append_elem {A} id (x : A) table id' l y :
  (id', l) ∈ hash_append id x table → y ∈ l → (id' = id ∧ y = x) ∨ ∃ l', (id', l') ∈ table ∧ y ∈ l'.
Proof.
  unfold hash_append. destruct (decide (id ∈ table.*1)) as [Hin|Hin].
  - intros ([id2 l2] & Heq & Hel)%list_elem_of_fmap Hy. simpl in Heq.
    destruct (decide (id2 = id)) as [->|Hne]; simplify_eq; [|eauto].
    apply elem_of_app in Hy as [Hy|Hy]; [eauto|]. apply list_elem_of_singleton in Hy as ->. by left.
  - intros [Hel|Hel]%elem_of_app Hy; [eauto|]. apply list_elem_of_singleton in Hel. simplify_eq.
    apply list_elem_of_singleton in Hy as ->. by left.
Qed.

Definition is_inr {A B} (x : A + B) : bool := match x with inl _ => false | inr _ => true end.

(** Each request that has a shard is queued there, once. *)
Record queues (routes : nat → CuckooErrorCode + location) (idxs : list nat) (table : list (Z * list nat)) : Prop := {
  q_shards : NoDup table.*1;
  q_all : concat table.*2 ≡ₚ filter (λ i, is_inr (routes i) = true) idxs;
  q_place sid l i : (sid, l) ∈ table → i ∈ l → ∃ loc, routes i = inr loc ∧ loc_shardId loc = sid;
  q_nonempty sid l : (sid, l) ∈ table → l ≠ [] }.

Lemma enqueue_queues routes done i table :
  queues routes done table → queues routes (done ++ [i]) (enqueue routes table i).
Proof.
  intros [Hs Ha Hp Hne]. unfold enqueue. destruct (routes i) as [e|loc] eqn:E.
  - split; [done| |done|done]. rewrite filter_app, filter_cons, E. simpl. by rewrite filter_nil, app_nil_r.
  - split.
    + rewrite hash_append_keys. destruct (decide _) as [|Hn]; [done|]. apply NoDup_app. split_and!; [done| |apply NoDup_singleton].
      intros x Hx Hx'. apply list_elem_of_singleton in Hx' as ->. done.
    + rewrite hash_append_concat by done. rewrite Ha, filter_app, filter_cons, E. simpl.
      rewrite filter_nil. by rewrite Permutation_app_comm.
    + intros sid l j Hin Hj. destruct (hash_append_elem _ _ _ _ _ _ Hin Hj) as [[-> ->]|(l' & Hin' & Hj')]; eauto.
    + intros sid l. unfold hash_append. destruct (decide _).
      * intros ([id2 l2] & Heq & Hel)%list_elem_of_fmap. simpl in Heq.
        destruct (decide _); simplify_eq; [by destruct l2|eauto].
      * intros [Hel|Hel]%elem_of_app; [eauto|]. apply list_elem_of_singleton in Hel. by simplify_eq.
Qed.

Lemma enqueue_all routes idxs : queues routes idxs (foldl (enqueue routes) [] idxs).
Proof.
  induction idxs as [|i idxs IH] using rev_ind.
  - split; [apply NoDup_nil_2|done|..]; intros sid l; [intros i|]; intros Hin; by apply not_elem_of_nil in Hin.
  - rewrite foldl_app. simpl. by apply enqueue_queues.
Qed.

Lemma queues_perm routes idxs idxs' table : idxs ≡ₚ idxs' → queues routes idxs table → queues routes idxs' table.
Proof. intros Hp [? Ha ? ?]. split; [done| |done|done]. by rewrite Ha, Hp. Qed.

Lemma queues_order routes idxs table table' : table ≡ₚ table' → queues routes idxs table → queues routes idxs table'.
Proof.
  intros Hp [Hs Ha Hq Hne]. split; [by rewrite <-Hp|by rewrite <-Ha, Hp|..]; intros sid l.
  - intros i Hin. apply Hq. by rewrite Hp.
  - intros Hin. apply (Hne sid). by rewrite Hp.
Qed.

Lemma queues_NoDup routes idxs table : NoDup idxs → queues routes idxs table → NoDup (concat table.*2).
Proof. intros Hnd [_ Ha _ _]. rewrite Ha. by apply NoDup_filter. Qed.

(** A transaction that has started from the committed directories [D0] with
    the path tree [t] and the state [s0], and has not written a row since. *)
Section steps.
Context (D0 : dir_map) (t : PathParseTree) (rows : list FormData_cuckoo_shard_table) (s0 : MetaState).

Record batch_inv (s : MetaState) : Prop := {
  bi_path : ∃ t', parse_ready D0 t' (ms_path s) ∧ grown t t';
  bi_extends : extends (ps_dir (ms_path s0)) (ps_dir (ms_path s));
  bi_shard : shard_inv (ms_shard s);
  bi_rows : shard_rows (ms_shard s) = rows;
  bi_rels : inode_rels s = inode_rels s0 }.

Definition gives_up (e : ErrorData) (s : MetaState) : Prop :=
  e = Cuckoo PROGRAM_ERROR ∧ abort_safe D0 (ps_dir (ms_path s)).
Definition waits : Prop := blocked (ms_path s0).

Lemma batch_inv_infos s l c : batch_inv s → batch_inv (s <| infos := l |> <| clock_calls := c |>).
Proof. intros [? ? ? ? ?]. by split. Qed.

(** What the handler asks of a path and stores in its requests: the new value
    of the inode id, and the fields it fills in. *)
Context (flag : Z) (with_inode : bool) (fill : nat → MM ()) (not_root : bool)
  (New : option Z → option Z → Prop) (Fill : MetaProcessInfoData → MetaProcessInfoData → Prop).

Definition old_id (x : MetaProcessInfoData) : option Z := if with_inode then Some (mi_inodeId x) else None.

Definition parse_law : Prop := ∀ t1 p x, parse_ready D0 t1 p → cstring (path x) → path x ≠ ""%string →
  Forall short (components (path x)) →
  outcome_ok (PathParseTreeInsert LocalServerId (path x) flag (old_id x) p)
    (λ r p', (∃ t', parse_ready D0 t' p' ∧ grown t1 t') ∧ extends (ps_dir p) (ps_dir p') ∧
       match (if decide (path x = "/"%string ∧ not_root = true) then inl PATH_IS_ROOT else resolve D0 t1 (path x)) with
       | inl e => ∃ ino', r = mkResult e None None ino'
       | inr (id, name) => ∃ ino', r = mkResult SUCCESS (Some id) (Some name) ino' ∧ New (old_id x) ino'
       end)
    (λ e p', e = Cuckoo PROGRAM_ERROR ∧ abort_safe D0 (ps_dir p')) (blocked p).

Definition fill_law : Prop := ∀ i s x, infos s !! i = Some x →
  ∃ x' c, fill i s = Ret () (s <| infos := <[i := x']> (infos s) |> <| clock_calls := c |>) ∧ Fill x x' ∧
    path x' = path x ∧ errorCode x' = errorCode x ∧ mi_parentId x' = mi_parentId x ∧ mi_name x' = mi_name x.

(** A request that has been sent to its shard. *)
Definition routed (x : MetaProcessInfoData) (loc : location) (x' : MetaProcessInfoData) : Prop :=
  ∃ ino' x1, New (old_id x) ino' ∧
    Fill (x <| mi_parentId := loc_parentId loc |> <| mi_name := Some (loc_name loc) |>
            <| mi_inodeId := if with_inode then default (mi_inodeId x) ino' else mi_inodeId x |>) x1 ∧
    x' = x1 <| mi_parentId_partId := loc_pp loc |>.

Context (Hmap : shard_map_ok rows) (Hlen : Z.of_nat (length rows) ≤ SHARD_COUNT_MAX).
Context (Hparse : parse_law) (Hfill : fill_law).

Lemma parse_path_spec i s x :
  batch_inv s → infos s !! i = Some x → cstring (path x) → path x ≠ ""%string → Forall short (components (path x)) →
  outcome_ok (parse_path LocalServerId i flag with_inode s)
    (λ code s', batch_inv s' ∧ ∃ x', infos s' = <[i := x']> (infos s) ∧ path x' = path x ∧ errorCode x' = errorCode x ∧
       match (if decide (path x = "/"%string ∧ not_root = true) then inl PATH_IS_ROOT else resolve D0 t (path x)) with
       | inl e => code = e ∧ e ≠ SUCCESS
       | inr (id, name) => code = SUCCESS ∧ ∃ ino', New (old_id x) ino' ∧
           x' = x <| mi_parentId := id |> <| mi_name := Some name |>
                  <| mi_inodeId := if with_inode then default (mi_inodeId x) ino' else mi_inodeId x |>
       end) gives_up waits.
Proof.
  intros [(t1 & Hrd & Hg) Hx Hsh Hrows Hrels] Hi Hc Hne Hs. unfold parse_path.
  erewrite bind_ret by by apply get_info_eq. fold (old_id x).
  eapply outcome_ok_bind.
  { eapply outcome_ok_mono; [apply outcome_ok_zoom; by apply (Hparse t1)|exact (λ a s H, H)| |].
    - intros e s' (p' & -> & -> & Ha). by split.
    - intros (d & k & lm & Hd & Hsp). exists d, k, lm. split; [by eapply extends_trans|done]. }
  intros r s' (p' & -> & (t' & Hrd' & Hg') & Hx' & Hr).
  rewrite (resolve_stable D0 t t1 (ms_path s)) in Hr by done.
  erewrite bind_ret by by apply set_info_eq. simpl. split.
  { split; simpl; try done; [|by eapply extends_trans]. exists t'. split; [done|]. by eapply grown_trans. }
  eexists. split; [reflexivity|]. split_and!; [done|done|].
  destruct (decide (path x = "/"%string ∧ not_root = true)) as [Hroot|Hroot].
  - destruct Hr as (ino' & ->). done.
  - destruct (resolve D0 t (path x)) as [e|[id name]] eqn:E; destruct Hr as (ino' & Hr).
    + subst r. split; [done|]. by eapply resolve_error.
    + destruct Hr as [-> Hn]. split; [done|]. exists ino'. by split.
Qed.

Lemma search_shard s pp :
  batch_inv s →
  ∃ row sh, on_shard (SearchShardInfoByShardValue pp) s = Ret (range_point row, server_id row) (s <| ms_shard := sh |>) ∧
    shard_for rows (HashShard pp) = Some row ∧ batch_inv (s <| ms_shard := sh |>).
Proof.
  intros [Hp Hx Hsh Hrows Hrels]. rewrite <-Hrows in Hmap, Hlen.
  destruct (search_info_spec (ms_shard s) pp Hsh Hmap Hlen) as (row & sh & Hr & Hcov & Htab & Hinv).
  exists row, sh. unfold on_shard, mzoom. rewrite Hr. split_and!; [done| |].
  - rewrite <-Hrows. by apply shard_for_covers.
  - split; simpl; try done. unfold shard_rows. by rewrite Htab.
Qed.

Context (requirement : Z).

Definition path_ok (x : MetaProcessInfoData) : Prop := cstring (path x) ∧ Forall short (components (path x)).

(** A request after the routing of the batch. *)
Definition answered (x x' : MetaProcessInfoData) : Prop :=
  path x' = path x ∧
  match route D0 t rows requirement not_root (path x) with
  | inl e => errorCode x' = e
  | inr loc => errorCode x' = SUCCESS ∧ routed x loc x'
  end.

Definition verified (x : MetaProcessInfoData) : Prop := errorCode x = (VerifyPathValidity (path x) requirement).1.

Lemma place_not_success pid name e : place rows pid name = inl e → e ≠ SUCCESS.
Proof. unfold place. destruct (shard_for _ _); [destruct (decide _)|]; by intros [= <-]. Qed.

Lemma route_not_success p e : route D0 t rows requirement not_root p = inl e → e ≠ SUCCESS.
Proof.
  unfold route. destruct (VerifyPathValidity p requirement) as [code prop].
  destruct (decide _); [by intros [= <-]|]. destruct (decide _); [by intros [= <-]|].
  destruct (resolve D0 t p) as [e'|[pid name]] eqn:E; [intros [= <-]; by eapply resolve_error|apply place_not_success].
Qed.

Lemma VerifyPathValidity_empty : (VerifyPathValidity "" requirement).1 ≠ SUCCESS.
Proof. unfold VerifyPathValidity. by rewrite decide_True. Qed.

Lemma route_one_spec i s x :
  batch_inv s → infos s !! i = Some x → verified x → path_ok x →
  outcome_ok (route_one LocalServerId flag with_inode fill i s)
    (λ r s', batch_inv s' ∧ ∃ x', infos s' = <[i := x']> (infos s) ∧ answered x x' ∧
       r = match route D0 t rows requirement not_root (path x) with inl _ => None | inr loc => Some (loc_shardId loc) end)
    gives_up waits.
Proof.
  intros Hb Hi Hver [Hc Hs]. unfold route_one, answered. erewrite bind_ret by by apply get_info_eq.
  pose proof (lookup_lt_Some _ _ _ Hi) as Hlt.
  pose proof (route_not_success (path x)) as Hns. revert Hns. unfold route. unfold verified in Hver.
  pose proof VerifyPathValidity_empty as Hemp.
  destruct (VerifyPathValidity (path x) requirement) as [code prop] eqn:E. simpl in Hver.
  destruct (decide (errorCode x ≠ SUCCESS)) as [He|He].
  { intros _. rewrite decide_True by congruence. simpl. split; [done|]. exists x. by rewrite list_insert_id. }
  apply dec_stable in He. rewrite decide_False by congruence. intros Hns.
  assert (path x ≠ ""%string) as Hne by (intros Hp; rewrite Hp in E; rewrite E in Hemp; simpl in Hemp; congruence).
  eapply outcome_ok_bind; [by apply parse_path_spec|]. intros code' s1 (Hb1 & x1 & Hl1 & Hp1 & He1 & Hr).
  assert (infos s1 !! i = Some x1) as Hi1 by (by rewrite Hl1, list_lookup_insert_eq).
  assert (∀ e, code' = e ∧ e ≠ SUCCESS → outcome_ok ((if decide (code' ≠ SUCCESS) then set_error i code' ;; mret None
      else fill i ;; loc ← locate_info i; if decide (loc.2 ≠ LocalServerId) then set_error i WRONG_WORKER ;; mret None
           else mret (Some loc.1)) s1)
    (λ r s', batch_inv s' ∧ ∃ x', infos s' = <[i := x']> (infos s) ∧ (path x' = path x ∧ errorCode x' = e) ∧ r = None)
    gives_up waits) as Herr.
  { intros e [-> Hne']. rewrite decide_True by done. unfold set_error. erewrite bind_ret by by apply set_info_eq. simpl. split.
    - destruct Hb1. by split.
    - exists (x1 <| errorCode := e |>). split_and!; [by rewrite Hl1, list_insert_insert_eq|exact Hp1|done|done]. }
  destruct (decide (path x = "/"%string ∧ not_root = true)); [by apply Herr|].
  destruct (resolve D0 t (path x)) as [e|[pid name]]; [by apply Herr|]. clear Herr.
  destruct Hr as (-> & ino' & Hnew & ->). rewrite decide_False by (intros Hx; by apply Hx).
  destruct (Hfill i s1 _ Hi1) as (x2 & c & Hf & HF & Hp2 & He2 & Hpid & Hname). erewrite bind_ret by exact Hf.
  set (s2 := s1 <| infos := <[i := x2]> (infos s1) |> <| clock_calls := c |>).
  assert (batch_inv s2) as Hb2 by by apply batch_inv_infos.
  assert (infos s2 !! i = Some x2) as Hi2.
  { simpl. rewrite Hl1, list_insert_insert_eq. by rewrite list_lookup_insert_eq. }
  unfold locate_info. rewrite bind_assoc. erewrite bind_ret by by apply get_info_eq. rewrite Hname. simpl mi_name. cbv iota.
  rewrite Hpid. simpl mi_parentId.
  set (pp := CombineParentIdWithPartId pid (HashPartId name)) in *.
  rewrite bind_assoc. erewrite bind_ret by by apply set_info_eq.
  set (s3 := s2 <| infos ::= <[i := x2 <| mi_parentId_partId := pp |>]> |>).
  assert (batch_inv s3) as Hb3 by (destruct Hb2; by split).
  assert (infos s3 = <[i := x2 <| mi_parentId_partId := pp |>]> (infos s)) as Hl3.
  { simpl. by rewrite Hl1, !list_insert_insert_eq. }
  destruct (search_shard s3 pp Hb3) as (row & sh & Hsr & Hrow & Hb4). erewrite bind_ret by exact Hsr.
  unfold place in *. fold pp in Hns |- *. rewrite Hrow in Hns |- *. simpl.
  destruct (decide (server_id row ≠ LocalServerId)) as [Hw|Hw].
  - rewrite decide_False by done. unfold set_error.
    erewrite bind_ret by (apply set_info_eq; simpl; rewrite Hl1, !list_insert_insert_eq; by rewrite list_lookup_insert_eq).
    simpl. split; [destruct Hb4; by split|]. exists (x2 <| mi_parentId_partId := pp |> <| errorCode := WRONG_WORKER |>). split_and!; [by rewrite Hl1, !list_insert_insert_eq|by rewrite <-Hp1, <-Hp2|done|done].
  - apply dec_stable in Hw. rewrite decide_True by done. simpl. split; [done|].
    exists (x2 <| mi_parentId_partId := pp |>). split_and!; [by rewrite Hl1, !list_insert_insert_eq|by rewrite <-Hp1, <-Hp2| | |done].
    + simpl. by rewrite He2, He1.
    + exists ino', x2. by split_and!.
Qed.

Definition routes (l : list MetaProcessInfoData) (i : nat) : CuckooErrorCode + location :=
  match l !! i with
  | None => inl PROGRAM_ERROR
  | Some x => route D0 t rows requirement not_root (path x)
  end.

Lemma routes_ext l l' i :
  path <$> l !! i = path <$> l' !! i → routes l i = routes l' i.
Proof. unfold routes. destruct (l !! i), (l' !! i); simpl; intros; simplify_eq; congruence. Qed.

Lemma group_by_shard_spec idxs table s :
  batch_inv s → NoDup idxs →
  (∀ i, i ∈ idxs → ∃ x, infos s !! i = Some x ∧ verified x ∧ path_ok x) →
  outcome_ok (group_by_shard LocalServerId flag with_inode fill idxs table s)
    (λ table' s', batch_inv s' ∧ table' = foldl (enqueue (routes (infos s))) table idxs ∧
       ∀ i, if decide (i ∈ idxs) then ∃ x x', infos s !! i = Some x ∧ infos s' !! i = Some x' ∧ answered x x'
            else infos s' !! i = infos s !! i)
    gives_up waits.
Proof.
  revert table s. induction idxs as [|i idxs IH]; intros table s Hb Hnd Hok.
  { simpl. by split_and!. }
  apply NoDup_cons in Hnd as [Hi Hnd]. cbn [group_by_shard].
  destruct (Hok i) as (x & Hx & Hv & Hp); [by left|].
  eapply outcome_ok_bind; [by apply route_one_spec|]. intros r s1 (Hb1 & x' & Hl1 & Ha & Hr).
  assert (∀ j, j ∈ idxs → infos s1 !! j = infos s !! j) as Hsame.
  { intros j Hj. rewrite Hl1, list_lookup_insert_ne; [done|]. by intros ->. }
  eapply outcome_ok_mono.
  - apply (IH _ s1); [done|done|]. intros j Hj. rewrite Hsame by done. apply Hok. by right.
  - intros table' s' (Hb' & -> & Hall). split_and!; [done| |].
    + simpl. assert (enqueue (routes (infos s)) table i = match r with Some sid => hash_append sid i table | None => table end) as ->.
      { subst r. unfold enqueue, routes. rewrite Hx. by destruct (route _ _ _ _ _ _). }
      clear -Hsame. revert Hsame. generalize (match r with Some sid => hash_append sid i table | None => table end).
      induction idxs as [|j idxs IHi]; intros tb Hs; [done|]. simpl.
      assert (enqueue (routes (infos s1)) tb j = enqueue (routes (infos s)) tb j) as ->.
      { unfold enqueue. rewrite (routes_ext (infos s1) (infos s)); [done|]. rewrite Hs; [done|by left]. }
      apply IHi. intros k Hk. apply Hs. by right.
    + intros j. specialize (Hall j). destruct (decide (i = j)) as [<-|Hne].
      * rewrite decide_False in Hall by done. rewrite decide_True by (by left). exists x, x'.
        rewrite Hall, Hl1, list_lookup_insert_eq by by eapply lookup_lt_Some. done.
      * destruct (decide (j ∈ idxs)) as [Hj|Hj].
        -- rewrite decide_True by (by right). by rewrite Hsame in Hall.
        -- rewrite decide_False by (rewrite not_elem_of_cons; split; [congruence|done]).
           by rewrite Hall, Hl1, list_lookup_insert_ne.
  - done.
  - done.
Qed.

Lemma table_size s : batch_inv s →
  ∃ n sh, on_shard GetShardTableSize s = Ret n (s <| ms_shard := sh |>) ∧ batch_inv (s <| ms_shard := sh |>).
Proof.
  intros [Hp Hx Hsh Hrows Hrels]. rewrite <-Hrows in Hlen. unfold on_shard, mzoom, GetShardTableSize.
  rewrite (bind_ret _ _ _ _ _ (wait_valid_spec _ Hsh Hlen)), bind_mget. eexists _, _. split; [reflexivity|].
  by split.
Qed.

Definition reset (x : MetaProcessInfoData) : MetaProcessInfoData :=
  x <| errorCode := (VerifyPathValidity (path x) requirement).1 |>.

Lemma prepare_spec idxs :
  batch_inv s0 → NoDup idxs → (∀ i, i ∈ idxs → ∃ x, infos s0 !! i = Some x ∧ path_ok x) →
  outcome_ok (prepare LocalServerId requirement flag with_inode fill idxs s0)
    (λ table s', batch_inv s' ∧ queues (routes (infos s0)) idxs table ∧
       ∀ i, if decide (i ∈ idxs) then ∃ x x', infos s0 !! i = Some x ∧ infos s' !! i = Some x' ∧ answered (reset x) x'
            else infos s' !! i = infos s0 !! i)
    gives_up waits.
Proof.
  intros Hb Hnd Hok. unfold prepare.
  destruct (verify_paths_spec requirement idxs s0) as (l & Hl & Hspec); [done| |].
  { apply Forall_forall. intros i Hi. destruct (Hok i Hi) as (x & -> & _). eauto. }
  erewrite bind_ret by exact Hl. unfold sort_infos. rewrite bind_assoc, bind_mget.
  set (s1 := s0 <| infos := l |>). set (idxs' := pg_qsort _ idxs). rewrite bind_mret.
  assert (idxs' ≡ₚ idxs) as Hperm by apply pg_qsort_perm.
  assert (batch_inv s1) as Hb1 by (destruct Hb; by split).
  destruct (table_size s1 Hb1) as (n & sh & Hsz & Hb2). erewrite bind_ret by exact Hsz.
  eapply outcome_ok_mono.
  - apply group_by_shard_spec; [done|by rewrite Hperm|]. intros i Hi. simpl. rewrite Hspec.
    rewrite decide_True by by rewrite <-Hperm. destruct (Hok i) as (x & -> & Hp); [by rewrite <-Hperm|].
    exists (reset x). by split_and!.
  - intros table s' (Hb' & -> & Hall). split_and!; [done| |].
    + apply (queues_perm _ idxs'); [done|]. simpl.
      assert (∀ i, routes l i = routes (infos s0) i) as Hr.
      { intros i. apply routes_ext. rewrite Hspec. destruct (decide _); [|done]. by destruct (infos s0 !! i). }
      destruct (enqueue_all (routes l) idxs') as [Ha Hb3 Hc Hd]. split; [done| | |done].
      * rewrite Hb3. erewrite list_filter_iff; [done|]. intros i. simpl. by rewrite Hr.
      * intros sid q i. rewrite <-Hr. apply Hc.
    + intros i. specialize (Hall i). rewrite (decide_ext (i ∈ idxs') (i ∈ idxs)) in Hall by by rewrite Hperm.
      simpl in Hall. rewrite Hspec in Hall. destruct (decide (i ∈ idxs)) as [Hi|Hi]; [|done].
      destruct Hall as (x & x' & Hx & Hx' & Ha). destruct (infos s0 !! i) as [x0|]; [|done]. simpl in Hx.
      injection Hx as <-. by exists x0, x'.
  - done.
  - done.
Qed.
End steps.

(** ** Instances *)

(** Paths that are only looked at: stat and unlink. *)
Lemma lookup_parse_law D0 : real_ids D0 → parse_law D0 0 false false eq.
Proof.
  intros Hr t1 p x Hrd Hc Hne Hs. rewrite decide_False by (by intros [_ ?]).
  eapply outcome_ok_mono; [by apply (parse_lookup_spec LocalServerId D0 t1)| |done|done].
  intros r s' (Hrd' & Hx & Hres). split_and!; [done|done|].
  destruct (resolve D0 t1 (path x)) as [e|[id name]]; eauto.
Qed.

Lemma no_fill_law : fill_law (λ _, mret ()) eq.
Proof.
  intros i s x Hi. exists x, (clock_calls s). split_and!; try done. rewrite list_insert_id by done. by destruct s.
Qed.

(** Paths of files to be created. *)
Lemma create_parse_law D0 : real_ids D0 →
  parse_law D0 (Z.lor PATH_PARSE_FLAG_NOT_ROOT PATH_PARSE_FLAG_TARGET_TO_BE_CREATED) true true
    (λ _ ino, ∃ seq, ino = Some (GenerateInodeIdBySeqAndNodeId seq LocalServerId)).
Proof.
  intros Hr t1 p x Hrd Hc Hne Hs. destruct (decide (path x = "/"%string ∧ true = true)) as [[Hp _]|Hp].
  - unfold PathParseTreeInsert. rewrite decide_True by (by split). simpl. split_and!; [|apply extends_refl|eauto].
    exists t1. split; [done|apply grown_refl].
  - eapply outcome_ok_mono; [apply (parse_new_file_spec LocalServerId D0 t1); try done; naive_solver| |done|done].
    intros r s' (Hrd' & Hx & Hres). split_and!; [done|done|].
    destruct (resolve D0 t1 (path x)) as [e|[id name]]; [eauto|]. destruct Hres as (seq & ->). eauto.
Qed.
End route.
