(* ===== verification/FileOps.v ===== *)
(** * Handlers of files and attributes (metadb/meta_handle.c)

    Create, stat, open, close and unlink work on batches: the requests are
    verified, sorted by path, resolved, sent to the list of their shard and
    then processed shard by shard.  Readdir, opendir, utimens, chown and chmod
    work on one request. *)

From S2P Require Import Prelude Pg Shard RWLock DirHash PathParse Inode.

Section file_ops.
Context `{!PgEnv, !Collation, !DirHashEnv, !PgRelation dir_key id_text_le,
          !PgRelation range_point Z.le, !PgRelation inode_key id_text_le}.
Context (LocalServerId : Z) (timestamp : Z → Z).

Abbreviation MM := (M MetaState).

(** ** Create *)

Definition create_filled (now : Z) (x : MetaProcessInfoData) : MetaProcessInfoData :=
  x <| st_mode := Z.lor S_IFREG 420 |> <| st_mtim := now |> <| st_size := 0 |>
    <| node_id := -1 |> <| st_nlink := 1 |> <| etag := ""%string |> <| st_dev := 0 |> <| st_uid := 0 |>
    <| st_gid := 0 |> <| st_rdev := 0 |> <| st_blksize := 0 |> <| st_blocks := 0 |> <| st_atim := 0 |>
    <| st_ctim := 0 |>.

Definition create_fill (i : nat) : MM () :=
  now ← GetCurrentTimestamp timestamp; set_info i (create_filled now).

(** The row a request to create asks for. *)
Definition create_row (x : MetaProcessInfoData) : FormData_dfs_inode_table :=
  mkInode (default ""%string (mi_name x)) (mi_inodeId x) (mi_parentId_partId x) 0 (st_mode x) 1 0 0 0
    (st_size x) 0 0 (st_mtim x) (st_mtim x) (st_mtim x) (etag x) 0 (-1) (-1).

(** &info->inodeId, &info->st_size, &info->st_nlink, &info->st_mode,
    &info->node_id as out parameters of SearchAndUpdateInodeTableInfo. *)
Definition store_attributes (old : FormData_dfs_inode_table) (x : MetaProcessInfoData) : MetaProcessInfoData :=
  x <| mi_inodeId := it_st_ino old |> <| st_size := it_st_size old |> <| st_nlink := it_st_nlink old |>
    <| st_mode := it_st_mode old |> <| node_id := it_primary_nodeid old |>.

(** One request inside PG_TRY: whether it counts as one of the group. *)
Definition create_one (shardId : Z) (i : nat) : MM bool :=
  info ← get_info i;
  if decide (errorCode info ≠ SUCCESS) then
    (if decide (errorCode info = FILE_EXISTS) then
       old ← SearchAndUpdateInodeTableInfo shardId (mi_parentId_partId info)
               (default ""%string (mi_name info)) ((no_update false) <| nlinkChange := Some 0 |>);
       match old with
       | Some r => set_info i (store_attributes r)
       | None => mret ()
       end
     else mret ()) ;;
    mret false
  else
    InsertIntoInodeTable shardId (create_row info) ;;
    mret true.

(** The loop inside PG_TRY over the requests still to be handled, first
    request first (the C list is in reverse and is taken from its end).
    [inl i]: request i raised an error; [inr]: the requests left. *)
Fixpoint create_group (shardId : Z) (currentGroupHandled : Z) (pending : list nat) : MM (nat + list nat) :=
  match pending with
  | [] => mret (inr [])
  | i :: rest =>
      if decide (currentGroupHandled > 0) then
        r ← mtry (create_one shardId i);
        match r with
        | inl _ => mret (inl i)
        | inr counted => create_group shardId (if counted : bool then currentGroupHandled - 1 else currentGroupHandled) rest
        end
      else mret (inr pending)
  end.

(** RollbackAndReleaseCurrentSubTransaction: the rows written since
    BeginInternalSubTransaction are gone. *)
Definition rollback_to (saved : gmap Z (rel inode_key id_text_le)) : MM () :=
  mmodify (λ s, s <| inode_rels := saved |>).

(** while (list_length(toHandleMetaProcessList) != 0).  Each iteration
    handles a request or turns one into an error, so twice as many
    iterations as requests. *)
Fixpoint create_loop (fuel : nat) (shardId : Z) (updateExisted : bool) (pending : list nat) : MM () :=
  match pending with
  | [] => mret ()
  | _ =>
      match fuel with
      | O => mdiverge
      | S fuel' =>
          s ← mget;
          open_inode_rel shardId ;;
          r ← create_group shardId BATCH_OPERATION_GROUP_SIZE pending;
          match r with
          | inr pending' => create_loop fuel' shardId updateExisted pending'
          | inl i =>
              rollback_to (inode_rels s) ;;
              (if updateExisted then
                 info ← get_info i;
                 SearchAndUpdateInodeTableInfo shardId (mi_parentId_partId info) (default ""%string (mi_name info))
                   ((no_update true) <| newSize := Some (st_size info) |> <| newEtag := Some (etag info) |>
                                   <| newMtime := Some (st_mtim info) |>) ;;
                 mret ()
               else set_error i FILE_EXISTS) ;;
              create_loop fuel' shardId updateExisted pending
          end
      end
  end.

Definition create_shard (updateExisted : bool) (entry : Z * list nat) : MM () :=
  open_inode_rel entry.1 ;;
  s ← mget;
  let pending := filter (λ i, (errorCode <$> infos s !! i) = Some SUCCESS) entry.2 in
  create_loop (2 * length pending) entry.1 updateExisted pending.

Definition CuckooCreateHandle (updateExisted : bool) (infoArray : list nat) : MM () :=
  table ← prepare LocalServerId VERIFY_PATH_VALIDITY_REQUIREMENT_MUST_BE_FILE
            (Z.lor PATH_PARSE_FLAG_NOT_ROOT PATH_PARSE_FLAG_TARGET_TO_BE_CREATED) true create_fill infoArray;
  mfor (hash_seq_order table) (create_shard updateExisted).

(** ** Stat *)

Definition stat_fill (r : FormData_dfs_inode_table) (x : MetaProcessInfoData) : MetaProcessInfoData :=
  x <| mi_inodeId := it_st_ino r |> <| st_dev := it_st_dev r |> <| st_mode := it_st_mode r |>
    <| st_nlink := it_st_nlink r |> <| st_uid := it_st_uid r |> <| st_gid := it_st_gid r |>
    <| st_rdev := it_st_rdev r |> <| st_size := it_st_size r |> <| st_blksize := it_st_blksize r |>
    <| st_blocks := it_st_blocks r |> <| st_atim := it_st_atim r |> <| st_mtim := it_st_mtim r |>
    <| st_ctim := it_st_ctim r |> <| etag := it_etag r |>.

Definition stat_one (shardId : Z) (i : nat) : MM () :=
  t ← open_inode_rel shardId;
  info ← get_info i;
  match scan_eq t (i64 (mi_parentId_partId info), default ""%string (mi_name info)) with
  | None => set_error i FILE_NOT_EXISTS
  | Some r => set_info i (stat_fill r)
  end.

Definition stat_shard (entry : Z * list nat) : MM () :=
  open_inode_rel entry.1 ;; mfor entry.2 (stat_one entry.1).

Definition CuckooStatHandle (infoArray : list nat) : MM () :=
  table ← prepare LocalServerId 0 0 false (λ _, mret ()) infoArray;
  mfor (hash_seq_order table) stat_shard.

(** ** Open, close, unlink *)

Definition open_one (shardId : Z) (i : nat) : MM () :=
  info ← get_info i;
  if decide (errorCode info ≠ SUCCESS) then mret ()
  else
    old ← SearchAndUpdateInodeTableInfo shardId (mi_parentId_partId info) (default ""%string (mi_name info))
            ((no_update false) <| nlinkChange := Some 0 |>);
    set_info i (λ x,
      (match old with Some r => store_attributes r x | None => x end)
        <| st_dev := 0 |> <| st_uid := 0 |> <| st_gid := 0 |> <| st_rdev := 0 |> <| st_blksize := 0 |>
        <| st_blocks := 0 |> <| st_atim := 0 |> <| st_mtim := 0 |> <| st_ctim := 0 |> <| etag := ""%string |>
        <| errorCode := match old with Some _ => SUCCESS | None => FILE_NOT_EXISTS end |>).

Definition CuckooOpenHandle (infoArray : list nat) : MM () :=
  table ← prepare LocalServerId 0 PATH_PARSE_FLAG_ACQUIRE_SHARED_LOCK_IF_TARGET_IS_DIRECTORY false
            (λ _, mret ()) infoArray;
  mfor (hash_seq_order table) (λ entry, mfor entry.2 (open_one entry.1)).

Definition close_one (shardId : Z) (i : nat) : MM () :=
  info ← get_info i;
  if decide (errorCode info ≠ SUCCESS) then mret ()
  else
    mtime ← GetCurrentTimestamp timestamp;
    old ← SearchAndUpdateInodeTableInfo shardId (mi_parentId_partId info) (default ""%string (mi_name info))
            ((no_update true) <| newSize := Some (st_size info) |> <| newMtime := Some mtime |>
                            <| newPrimaryNodeId := Some (node_id info) |>);
    set_error i (match old with Some _ => SUCCESS | None => FILE_NOT_EXISTS end).

Definition CuckooCloseHandle (infoArray : list nat) : MM () :=
  table ← prepare LocalServerId 0 PATH_PARSE_FLAG_ACQUIRE_SHARED_LOCK_IF_TARGET_IS_DIRECTORY false
            (λ _, mret ()) infoArray;
  mfor (hash_seq_order table) (λ entry, mfor entry.2 (close_one entry.1)).

Definition unlink_fill (r : FormData_dfs_inode_table) (x : MetaProcessInfoData) : MetaProcessInfoData :=
  x <| mi_inodeId := it_st_ino r |> <| st_size := it_st_size r |> <| node_id := it_primary_nodeid r |>
    <| errorCode := if decide (it_st_nlink r ≠ 1 ∨ S_ISREG (it_st_mode r) = false)
                    then PROGRAM_ERROR else SUCCESS |>.

Definition unlink_one (shardId : Z) (i : nat) : MM () :=
  info ← get_info i;
  if decide (errorCode info ≠ SUCCESS) then mret ()
  else
    old ← SearchAndUpdateInodeTableInfo shardId (mi_parentId_partId info) (default ""%string (mi_name info))
            ((no_update true) <| nlinkChange := Some (-1) |>);
    match old with
    | None => set_error i FILE_NOT_EXISTS
    | Some r => set_info i (unlink_fill r)
    end.

Definition CuckooUnlinkHandle (infoArray : list nat) : MM () :=
  table ← prepare LocalServerId VERIFY_PATH_VALIDITY_REQUIREMENT_MUST_BE_FILE 0 false (λ _, mret ()) infoArray;
  mfor (hash_seq_order table) (λ entry, mfor entry.2 (unlink_one entry.1)).

(** ** Attributes of one file *)

(** Resolve the path of request i and find the shard of the target:
    (parentId_partId, fileName, shardId). *)
Definition locate_file (i : nat) : MM (Z * string * Z) :=
  info ← get_info i;
  r ← on_path (PathParseTreeInsert LocalServerId (path info)
                 PATH_PARSE_FLAG_ACQUIRE_SHARED_LOCK_IF_TARGET_IS_DIRECTORY None);
  if decide (pr_errorCode r ≠ SUCCESS) then melog (pr_errorCode r)
  else match pr_parentId r, pr_fileName r with
       | Some parentId, Some fileName =>
           let parentId_partId := CombineParentIdWithPartId parentId (HashPartId fileName) in
           loc ← on_shard (SearchShardInfoByShardValue parentId_partId);
           if decide (loc.2 ≠ LocalServerId) then melog WRONG_WORKER
           else mret (parentId_partId, fileName, loc.1)
       | _, _ => mundefined
       end.

Definition change_file (i : nat) (u : InodeUpdate) : MM () :=
  loc ← locate_file i;
  let '(parentId_partId, fileName, shardId) := loc in
  old ← SearchAndUpdateInodeTableInfo shardId parentId_partId fileName u;
  match old with
  | None => melog FILE_NOT_EXISTS
  | Some _ => set_error i SUCCESS
  end.

Definition CuckooUtimeNsHandle (i : nat) : MM () :=
  info ← get_info i;
  times ← (if decide (st_atim info = -1 ∨ st_mtim info = -1) then
             accessTime ← GetCurrentTimestamp timestamp;
             modifyTime ← GetCurrentTimestamp timestamp;
             mret (accessTime, modifyTime)
           else mret (st_atim info, st_mtim info));
  change_file i ((no_update true) <| newAtime := Some times.1 |> <| newMtime := Some times.2 |>).

Definition CuckooChownHandle (i : nat) : MM () :=
  info ← get_info i;
  change_file i ((no_update true) <| newUid := Some (st_uid info) |> <| newGid := Some (st_gid info) |>).

Definition CuckooChmodHandle (i : nat) : MM () :=
  info ← get_info i;
  change_file i ((no_update true) <| newExecMode := Some (Z.land (st_mode info) 511) |>).

(** ** Directories: readdir and opendir *)

Inductive StreamSearchState := SAME_ID_GREATER_NAME | GREATER_ID | NEW_SHARD.

#[global] Instance StreamSearchState_eq_dec : EqDecision StreamSearchState.
Proof. solve_decision. Defined.

(** The rows the scan keys of a state select, and the state after. *)
Definition scan_for (state : StreamSearchState) (directoryId : Z) (lastFileName : string)
    (r : FormData_dfs_inode_table) : bool :=
  let lowerId := CombineParentIdWithPartId directoryId 0 in
  let upperId := CombineParentIdWithPartId directoryId PART_ID_MASK in
  let lastId := CombineParentIdWithPartId directoryId (HashPartId lastFileName) in
  let id := i64 (it_parentid_partid r) in
  match state with
  | SAME_ID_GREATER_NAME =>
      bool_decide (id = i64 lastId) && bool_decide (text_le lastFileName (it_name r) ∧ it_name r ≠ lastFileName)
  | GREATER_ID => bool_decide (i64 lastId < id ∧ id ≤ i64 upperId)
  | NEW_SHARD => bool_decide (i64 lowerId ≤ id ∧ id ≤ i64 upperId)
  end.

Definition next_state (state : StreamSearchState) : StreamSearchState :=
  match state with SAME_ID_GREATER_NAME => GREATER_ID | _ => NEW_SHARD end.

Definition read_result (r : FormData_dfs_inode_table) : OneReadDirResult :=
  mkOneReadDir (it_name r) (it_st_mode r).

(** while (HeapTupleIsValid(...)): the results and readCount. *)
Fixpoint read_rows (rows : list FormData_dfs_inode_table) (maxReadCount : Z)
    (acc : list OneReadDirResult) (readCount : Z) : list OneReadDirResult * Z :=
  match rows with
  | [] => (acc, readCount)
  | r :: rows' =>
      let acc := acc ++ [read_result r] in
      let readCount := readCount + 1 in
      if decide (readCount >= maxReadCount) then (acc, readCount)
      else read_rows rows' maxReadCount acc readCount
  end.

(** while (shardIndex < shardTableCount): the results, readCount and the
    shard index at the end.  Every iteration moves to the next shard or
    state. *)
Fixpoint readdir_loop (fuel : nat) (shards : list FormData_cuckoo_shard_table) (directoryId maxReadCount : Z)
    (lastFileName : string) (state : StreamSearchState) (shardIndex : Z)
    (acc : list OneReadDirResult) (readCount : Z) : MM (list OneReadDirResult * Z * Z) :=
  match fuel with
  | O => mdiverge
  | S fuel' =>
      if decide (shardIndex < Z.of_nat (length shards)) then
        match shards !! Z.to_nat shardIndex with
        | None => mundefined
        | Some row =>
            if decide (server_id row ≠ LocalServerId) then
              readdir_loop fuel' shards directoryId maxReadCount lastFileName state (shardIndex + 1) acc readCount
            else
              t ← open_inode_rel (range_point row);
              let '(acc, readCount) :=
                read_rows (filter (λ r, scan_for state directoryId lastFileName r = true) (index_scan t))
                  maxReadCount acc readCount in
              let state := next_state state in
              if decide (readCount >= maxReadCount) then mret (acc, readCount, shardIndex)
              else
                readdir_loop fuel' shards directoryId maxReadCount lastFileName state
                  (if decide (state = NEW_SHARD) then shardIndex + 1 else shardIndex) acc readCount
        end
      else mret (acc, readCount, shardIndex)
  end.

Definition CuckooReadDirHandle (i : nat) : MM () :=
  info ← get_info i;
  let maxReadCount := if decide (readDirMaxReadCount info = -1) then INT32_MAX else readDirMaxReadCount info in
  let lastShardIndex := readDirLastShardIndex info in
  r ← on_path (PathParseTreeInsert LocalServerId (path info)
         (Z.lor PATH_PARSE_FLAG_ACQUIRE_SHARED_LOCK_IF_TARGET_IS_DIRECTORY PATH_PARSE_FLAG_TARGET_IS_DIRECTORY)
         (Some 0));
  if decide (pr_errorCode r ≠ SUCCESS) then melog (pr_errorCode r)
  else match pr_inodeId r with
  | None => mundefined
  | Some directoryId =>
      let firstCall := bool_decide (lastShardIndex = -1) in
      shards ← on_shard GetShardTableData;
      match (if firstCall then Some ""%string else readDirLastFileName info) with
      | None => mundefined
      | Some lastFileName =>
          res ← readdir_loop (S (S (length shards))) shards directoryId maxReadCount lastFileName
                  (if firstCall then NEW_SHARD else SAME_ID_GREATER_NAME)
                  (if firstCall then 0 else lastShardIndex) [] 0;
          let '(acc, readCount, shardIndex) := res in
          if decide (readCount < maxReadCount) then
            set_info i (λ x, x <| readDirLastShardIndex := -1 |> <| readDirLastFileName := None |>
              <| readDirResultList := acc |> <| errorCode := SUCCESS |>)
          else
            match last acc with
            | None => mundefined
            | Some lst =>
                set_info i (λ x, x <| readDirLastShardIndex := shardIndex |>
                  <| readDirLastFileName := Some (rd_fileName lst) |>
                  <| readDirResultList := acc |> <| errorCode := SUCCESS |>)
            end
      end
  end.

Definition CuckooOpenDirHandle (i : nat) : MM () :=
  info ← get_info i;
  r ← on_path (PathParseTreeInsert LocalServerId (path info)
         (Z.lor PATH_PARSE_FLAG_ACQUIRE_SHARED_LOCK_IF_TARGET_IS_DIRECTORY PATH_PARSE_FLAG_TARGET_IS_DIRECTORY)
         (Some 0));
  if decide (pr_errorCode r ≠ SUCCESS) then melog (pr_errorCode r)
  else match pr_inodeId r with
       | None => mundefined
       | Some directoryId => set_info i (λ x, x <| mi_inodeId := directoryId |> <| errorCode := SUCCESS |>)
       end.
End file_ops.
