(* ===== verification/FileSpec.v ===== *)
(** * What the file handlers do

    Create, stat and unlink against their references: each request of a batch
    handled on its own, one after the other, on the rows of its shard. *)

From S2P Require Import Prelude Pg Shard RWLock DirHash PathParse Inode Route FileOps.

Section file_spec.
Context `{!PgEnv, !Collation, !DirHashEnv, !PgRelation dir_key id_text_le,
          !PgRelation range_point Z.le, !PgRelation inode_key id_text_le}.
Context (LocalServerId : Z) (timestamp : Z → Z).

Abbreviation MM := (M MetaState).

(** ** Creating a batch of files

    The reference: the requests one after the other, each creating its row or
    reporting the row that is already there. *)
Abbreviation inode_map := (gmap (Z * string) FormData_dfs_inode_table).
Abbreviation requests := (list MetaProcessInfoData).

Definition target_row (m : inode_map) (x : MetaProcessInfoData) : option FormData_dfs_inode_table :=
  row_at m (mi_parentId_partId x) (default ""%string (mi_name x)).

Definition create_ref (v : inode_map * requests) (i : nat) : inode_map * requests :=
  match v.2 !! i with
  | None => v
  | Some x =>
      match target_row v.1 x with
      | Some r => (v.1, <[i := store_attributes r (x <| errorCode := FILE_EXISTS |>)]> v.2)
      | None => (<[inode_key (create_row x) := create_row x]> v.1, v.2)
      end
  end.

(** The same for requests some of which are already known to fail. *)
Definition create_item (v : inode_map * requests) (i : nat) : inode_map * requests :=
  match v.2 !! i with
  | None => v
  | Some x =>
      if decide (errorCode x = SUCCESS) then create_ref v i
      else if decide (errorCode x = FILE_EXISTS) then
        match target_row v.1 x with
        | Some r => (v.1, <[i := store_attributes r x]> v.2)
        | None => v
        end
      else v
  end.

Definition create_fails (v : inode_map * requests) (i : nat) : Prop :=
  ∃ x, v.2 !! i = Some x ∧ errorCode x = SUCCESS ∧ is_Some (target_row v.1 x).

Fixpoint quiet (v : inode_map * requests) (p : list nat) : Prop :=
  match p with
  | [] => True
  | i :: p' => ¬ create_fails v i ∧ quiet (create_item v i) p'
  end.

Definition status (l : requests) (i : nat) : option CuckooErrorCode := errorCode <$> l !! i.

Lemma create_fails_dec v i : create_fails v i ∨ ¬ create_fails v i.
Proof.
  unfold create_fails. destruct (v.2 !! i) as [x|]; [|right; by intros (x & ? & _)].
  destruct (decide (errorCode x = SUCCESS ∧ is_Some (target_row v.1 x))) as [[? ?]|Hn]; [left; eauto|].
  right. intros (y & [= <-] & ? & ?). by apply Hn.
Qed.

Lemma quiet_item v i :
  ¬ create_fails v i → ∀ j, status (create_item v i).2 j = status v.2 j.
Proof.
  intros Hf j. unfold create_item, create_ref, status. destruct (v.2 !! i) as [x|] eqn:Hi; [|done].
  destruct (decide (errorCode x = SUCCESS)) as [He|He].
  - destruct (target_row v.1 x) eqn:Ht; [|done]. exfalso. apply Hf. exists x. eauto.
  - destruct (decide (errorCode x = FILE_EXISTS)); [|done]. destruct (target_row v.1 x); [|done]. simpl.
    destruct (decide (i = j)) as [<-|Hne]; [|by rewrite list_lookup_insert_ne].
    rewrite list_lookup_insert_eq by by eapply lookup_lt_Some. by rewrite Hi.
Qed.

Lemma quiet_status p v : quiet v p → ∀ j, status (foldl create_item v p).2 j = status v.2 j.
Proof.
  revert v. induction p as [|i p IH]; intros v; [done|]. simpl. intros [Hf Hq] j.
  rewrite IH by done. by apply quiet_item.
Qed.

Lemma create_item_other v i j : i ≠ j → (create_item v i).2 !! j = v.2 !! j.
Proof.
  intros Hne. unfold create_item, create_ref. destruct (v.2 !! i) as [x|]; [|done].
  repeat (destruct (decide _)); try done; destruct (target_row v.1 x); try done; simpl;
    by rewrite list_lookup_insert_ne.
Qed.

Lemma create_items_other p v j : j ∉ p → (foldl create_item v p).2 !! j = v.2 !! j.
Proof.
  revert v. induction p as [|i p IH]; intros v; [done|]. rewrite not_elem_of_cons. intros [Hne Hp]. simpl.
  rewrite IH by done. by apply create_item_other.
Qed.

(** Running requests that do not fail once more changes nothing. *)
Lemma quiet_rerun p m l l'' :
  quiet (m, l) p → NoDup p →
  (∀ j, j ∈ p → l'' !! j = (foldl create_item (m, l) p).2 !! j) →
  foldl create_item (m, l'') p = ((foldl create_item (m, l) p).1, l'').
Proof.
  revert m l. induction p as [|i p IH]; intros m l; [done|]. simpl. intros [Hf Hq] [Hi Hp]%NoDup_cons Hl.
  assert (l'' !! i = (create_item (m, l) i).2 !! i) as Hli.
  { rewrite Hl by (by left). by rewrite create_items_other. }
  assert (create_item (m, l'') i = ((create_item (m, l) i).1, l'')) as ->.
  { revert Hli. unfold create_item, create_ref. simpl. destruct (l !! i) as [x|] eqn:Hx; simpl.
    2:{ rewrite Hx. by intros ->. }
    destruct (decide (errorCode x = SUCCESS)) as [He|He].
    - destruct (target_row m x) eqn:Ht.
      { exfalso. apply Hf. exists x. simpl. eauto. }
      simpl. rewrite Hx. intros ->. by rewrite decide_True, Ht.
    - destruct (decide (errorCode x = FILE_EXISTS)) as [He'|He'].
      2:{ simpl. rewrite Hx. intros ->. by rewrite !decide_False. }
      destruct (target_row m x) as [r|] eqn:Ht; simpl.
      2:{ rewrite Hx. intros ->. by rewrite decide_False, decide_True, Ht. }
      rewrite list_lookup_insert_eq by by eapply lookup_lt_Some. intros Hli. rewrite Hli. simpl.
      rewrite decide_False, decide_True by done. change (target_row m (store_attributes r x)) with (target_row m x).
      rewrite Ht. f_equal. by apply list_insert_id. }
  destruct (create_item (m, l) i) as [m1 l1]. apply IH; [done|done|]. intros j Hj. apply Hl. by right.
Qed.

Lemma create_one_spec s0 shardId m l s i x :
  shard_view s0 shardId m l s → l !! i = Some x →
  (create_fails (m, l) i ∧ create_one shardId i s = Elog UniqueViolation s) ∨
  (¬ create_fails (m, l) i ∧ ∃ c s', create_one shardId i s = Ret c s' ∧
    shard_view s0 shardId (create_item (m, l) i).1 (create_item (m, l) i).2 s').
Proof.
  intros Hv Hi. pose proof (sv_lookup _ _ _ _ _ Hv) as Hm. pose proof (sv_infos _ _ _ _ _ Hv) as Hl.
  assert (get_info i s = Ret x s) as Hg by (apply get_info_eq; by rewrite Hl).
  unfold create_one. erewrite bind_ret by done. unfold create_item, create_ref. simpl. rewrite Hi.
  destruct (decide (errorCode x ≠ SUCCESS)) as [He|He].
  - right. split; [by intros (y & Hy & ? & _); simpl in Hy; simplify_eq|].
    rewrite (decide_False (P := errorCode x = SUCCESS)) by done.
    destruct (decide (errorCode x = FILE_EXISTS)) as [He'|He'].
    + rewrite bind_assoc. erewrite bind_ret by by apply Search_read. fold (target_row m x).
      destruct (target_row m x) as [r|]; [|mstep; eauto].
      destruct (sv_set_info s0 shardId m l s i x (store_attributes r) Hv Hi) as (s' & Hs' & Hv').
      erewrite bind_ret by exact Hs'. eauto.
    + mstep. eauto.
  - apply dec_stable in He. rewrite decide_True by done.
    destruct (target_row m x) as [r|] eqn:Ht.
    + left. split; [exists x; simpl; eauto|]. unfold mbind, M_bind.
      by rewrite (Insert_duplicate s shardId m (create_row x) (sv_settled _ _ _ _ _ Hv) Hm) by eauto.
    + right. split.
      { intros (y & Hy & ? & [r Hr]). simpl in *. simplify_eq. }
      destruct (Insert_new s shardId m (create_row x) (sv_settled _ _ _ _ _ Hv) Hm Ht) as (s' & Hs' & Hd & Hset & Hro).
      erewrite bind_ret by exact Hs'. eexists _, s'. split; [done|]. by eapply sv_rows.
Qed.

(** A group: it stops at the first request that fails, or goes on through at
    least one request. *)
Lemma create_group_spec s0 shardId m l s g pending :
  shard_view s0 shardId m l s → Forall (λ i, is_Some (l !! i)) pending →
  ∃ p q s', pending = p ++ q ∧ quiet (m, l) p ∧
    shard_view s0 shardId (foldl create_item (m, l) p).1 (foldl create_item (m, l) p).2 s' ∧
    ((create_group shardId g pending s = Ret (inr q) s' ∧ (0 < g → pending ≠ [] → p ≠ [])) ∨
     (∃ i q', q = i :: q' ∧ create_fails (foldl create_item (m, l) p) i ∧
        create_group shardId g pending s = Ret (inl i) s')).
Proof.
  revert m l s g. induction pending as [|i rest IH]; intros m l s g Hv Hp.
  { exists [], [], s. simpl. split_and!; try done. left. by split. }
  apply Forall_cons in Hp as [[x Hi] Hp]. cbn [create_group]. destruct (decide (g > 0)) as [Hg|Hg].
  2:{ exists [], (i :: rest), s. simpl. split_and!; try done. left. split; [done|lia]. }
  destruct (create_one_spec s0 shardId m l s i x Hv Hi) as [[Hf Ho]|(Hf & c & s1 & Ho & Hv1)].
  - exists [], (i :: rest), s. simpl. split_and!; try done. right. exists i, rest. split_and!; try done.
    unfold mbind, M_bind, mtry. by rewrite Ho.
  - destruct (create_item (m, l) i) as [m1 l1] eqn:E. simpl in Hv1.
    destruct (IH m1 l1 s1 (if c then g - 1 else g) Hv1) as (p & q & s' & -> & Hq & Hv' & Hr).
    { eapply Forall_impl; [exact Hp|]. intros j [y Hy]. destruct (decide (i = j)) as [<-|Hne].
      - pose proof (quiet_item (m, l) i Hf i) as Hst. rewrite E in Hst. unfold status in Hst. simpl in Hst.
        rewrite Hi in Hst. by destruct (l1 !! i).
      - pose proof (create_item_other (m, l) i j Hne) as Hst. rewrite E in Hst. simpl in Hst. rewrite Hst. eauto. }
    exists (i :: p), q, s'. simpl. rewrite E. split_and!; try done.
    assert (create_group shardId g (i :: p ++ q) s = create_group shardId (if c then g - 1 else g) (p ++ q) s1) as Hstep.
    { cbn [create_group]. rewrite decide_True by done. unfold mbind, M_bind, mtry. by rewrite Ho. }
    cbn [create_group] in Hstep. rewrite decide_True in Hstep by done. rewrite Hstep.
    destruct Hr as [[Hr _]|(j & q' & -> & ? & Hr)]; [left; by split|right; exists j, q'; by split_and!].
Qed.

Definition open_count (l : requests) (pending : list nat) : nat :=
  length (filter (λ i, status l i = Some SUCCESS) pending).

Lemma open_count_le l l' pending :
  (∀ j, status l' j = Some SUCCESS → status l j = Some SUCCESS) →
  (open_count l' pending ≤ open_count l pending)%nat.
Proof.
  intros Hl. unfold open_count. induction pending as [|i p IH]; [done|]. rewrite !filter_cons.
  repeat (destruct (decide _)); simpl; try lia. exfalso. auto.
Qed.

Lemma open_count_lt l l' pending i :
  (∀ j, status l' j = Some SUCCESS → status l j = Some SUCCESS) → i ∈ pending →
  status l i = Some SUCCESS → status l' i ≠ Some SUCCESS →
  (open_count l' pending < open_count l pending)%nat.
Proof.
  intros Hl Hi Ha Hb. apply list_elem_of_split in Hi as (p & q & ->). unfold open_count.
  rewrite !filter_app, !filter_cons, !length_app, (decide_True (P := status l i = _)), (decide_False (P := status l' i = _)) by done.
  pose proof (open_count_le l l' p Hl). pose proof (open_count_le l l' q Hl). unfold open_count in *. simpl. lia.
Qed.

(** Finding out that a request fails, and starting over with this knowledge,
    leads to the same result. *)
Lemma mark_failing p i q m l x :
  quiet (m, l) p → NoDup (p ++ i :: q) → (foldl create_item (m, l) p).2 !! i = Some x →
  create_fails (foldl create_item (m, l) p) i →
  foldl create_item (m, <[i := x <| errorCode := FILE_EXISTS |>]> (foldl create_item (m, l) p).2) (p ++ i :: q) =
  foldl create_item (m, l) (p ++ i :: q).
Proof.
  intros Hq Hnd Hx (y & Hy & He & r & Hr). rewrite Hx in Hy. injection Hy as <-.
  apply NoDup_app in Hnd as (Hp & Hdisj & _). rewrite !foldl_app. simpl.
  rewrite (quiet_rerun p m l); [|done|done|].
  2:{ intros j Hj. rewrite list_lookup_insert_ne; [done|]. intros <-. apply (Hdisj i Hj). by left. }
  f_equal. destruct (foldl create_item (m, l) p) as [m' l']. simpl in *. unfold create_item, create_ref. simpl.
  rewrite list_lookup_insert_eq by by eapply lookup_lt_Some. rewrite Hx. simpl.
  rewrite decide_True by done.
  change (target_row m' (x <| errorCode := FILE_EXISTS |>)) with (target_row m' x). rewrite Hr.
  by rewrite list_insert_insert_eq.
Qed.

Lemma status_is_Some l i : is_Some (status l i) ↔ is_Some (l !! i).
Proof. apply fmap_is_Some. Qed.

Lemma create_loop_spec fuel s0 shardId m l s pending :
  shard_view s0 shardId m l s → Forall (λ i, is_Some (l !! i)) pending → NoDup pending →
  (length pending + open_count l pending ≤ fuel)%nat →
  ∃ s', create_loop fuel shardId false pending s = Ret () s' ∧
    shard_view s0 shardId (foldl create_item (m, l) pending).1 (foldl create_item (m, l) pending).2 s'.
Proof.
  revert m l s pending. induction fuel as [|fuel IH]; intros m l s pending Hv Hp Hnd Hfuel;
    (destruct pending as [|i0 pending0]; [by exists s|]); [simpl in Hfuel; lia|].
  cbn [create_loop]. remember (i0 :: pending0) as pending eqn:Epend.
  destruct (open_db s shardId m) as (t & _ & _ & Ho); [by eapply sv_lookup|].
  destruct (create_group_spec s0 shardId m l s BATCH_OPERATION_GROUP_SIZE pending Hv Hp)
    as (p & q & s' & Hpq & Hq & Hv' & Hr).
  rewrite bind_mget. erewrite bind_ret by exact Ho.
  destruct Hr as [[Hr Hne]|(i & q' & -> & Hf & Hr)]; erewrite bind_ret by exact Hr.
  - assert (p ≠ []) as Hp' by (apply Hne; [done|by subst]).
    pose proof (quiet_status p (m, l) Hq) as Hst. simpl in Hst.
    rewrite Hpq, foldl_app. destruct (foldl create_item (m, l) p) as [m' l'] eqn:E. simpl in *.
    apply (IH m' l' s'); try done.
    + rewrite Hpq in Hp. apply Forall_app in Hp as [_ Hp]. eapply Forall_impl; [exact Hp|]. intros j.
      by rewrite <-!status_is_Some, Hst.
    + rewrite Hpq in Hnd. by apply NoDup_app in Hnd as (_ & _ & ?).
    + rewrite Hpq in Hfuel. unfold open_count in *. rewrite filter_app, !length_app in Hfuel.
      pose proof (open_count_le l l' q) as Hle. unfold open_count in Hle. destruct p; [done|]. simpl in Hfuel.
      enough (length (filter (λ i, status l' i = Some SUCCESS) q) ≤ length (filter (λ i, status l i = Some SUCCESS) q))%nat by lia.
      apply Hle. intros j. by rewrite Hst.
  - destruct Hf as (x & Hx & He & Hex).
    unfold rollback_to. rewrite bind_mmodify.
    set (v := foldl create_item (m, l) p) in *.
    assert (shard_view s0 shardId m v.2 (s' <| inode_rels := inode_rels s |>)) as Hv2.
    { destruct Hv as [Hs Hd _]. destruct Hv' as [_ _ [? ? ? ?]]. split; [done|done|]. by split. }
    destruct (sv_set_info s0 shardId m v.2 _ i x (λ x, x <| errorCode := FILE_EXISTS |>) Hv2 Hx) as (s'' & Hs'' & Hv3).
    unfold set_error. erewrite bind_ret by exact Hs''.
    pose proof (quiet_status p (m, l) Hq) as Hst. fold v in Hst. simpl in Hst.
    rewrite Hpq in Hnd |- *.
    rewrite <-(mark_failing p i q' m l x Hq Hnd Hx) by (exists x; eauto). fold v.
    assert (∀ j, j ≠ i → status (<[i := x <| errorCode := FILE_EXISTS |>]> v.2) j = status l j) as Hother.
    { intros j Hj. rewrite <-Hst. unfold status. by rewrite list_lookup_insert_ne. }
    assert (status (<[i := x <| errorCode := FILE_EXISTS |>]> v.2) i = Some FILE_EXISTS) as Hmark.
    { unfold status. by rewrite list_lookup_insert_eq by by eapply lookup_lt_Some. }
    apply (IH m _ s''); try done.
    + rewrite <-Hpq. eapply Forall_impl; [exact Hp|]. intros j Hj. apply status_is_Some.
      destruct (decide (j = i)) as [->|Hne]; [rewrite Hmark; eauto|]. rewrite Hother by done. by apply status_is_Some.
    + rewrite <-Hpq. enough (open_count (<[i := x <| errorCode := FILE_EXISTS |>]> v.2) pending < open_count l pending)%nat by lia.
      apply (open_count_lt _ _ _ i).
      * intros j Hj. destruct (decide (j = i)) as [->|Hne]; [congruence|]. by rewrite <-Hother.
      * rewrite Hpq. apply elem_of_app. right. by left.
      * rewrite <-Hst. unfold status. by rewrite Hx, <-He.
      * by rewrite Hmark.
Qed.

(** ** Whole batches *)

Abbreviation dir_map := (gmap (Z * string) FormData_cuckoo_directory_table).

(** A server between two requests: [D0] are the committed directories, [t]
    the path tree of the transaction, [rows] the shard map. *)
Record server_ready (D0 : dir_map) (t : PathParseTree) (rows : list FormData_cuckoo_shard_table) (s : MetaState) : Prop := {
  sr_real : real_ids D0;
  sr_map : shard_map_ok rows;
  sr_len : Z.of_nat (length rows) ≤ SHARD_COUNT_MAX;
  sr_ready : parse_ready D0 t (ms_path s);
  sr_shard : shard_inv (ms_shard s);
  sr_rows : shard_rows (ms_shard s) = rows;
  sr_settled : db_settled s;
  sr_present row : row ∈ rows → server_id row = LocalServerId → is_Some (db s !! range_point row) }.

Lemma server_batch D0 t rows s : server_ready D0 t rows s → batch_inv D0 t rows s s.
Proof.
  intros [? ? ? ? ? ? ? ?]. split; try done; [|apply extends_refl]. exists t. split; [done|apply grown_refl].
Qed.

Definition requests_ok (s : MetaState) (idxs : list nat) : Prop :=
  NoDup idxs ∧ ∀ i, i ∈ idxs → ∃ x, infos s !! i = Some x ∧ path_ok x.

Definition row_of (d : gmap Z inode_map) (loc : location) : option FormData_dfs_inode_table :=
  d !! loc_shardId loc ≫= λ m, row_at m (loc_pp loc) (loc_name loc).

Lemma place_present D0 t rows s pid name loc :
  server_ready D0 t rows s → place LocalServerId rows pid name = inr loc → is_Some (db s !! loc_shardId loc).
Proof.
  intros Hs. unfold place. destruct (shard_for rows _) as [row|] eqn:E; [|done].
  destruct (decide _) as [Hl|]; [|done]. intros [= <-]. simpl. apply (sr_present _ _ _ _ Hs); [|done].
  unfold shard_for in E. apply head_Some_elem_of in E. by apply list_elem_of_filter in E as [_ ?].
Qed.

Lemma route_present D0 t rows s requirement not_root p loc :
  server_ready D0 t rows s → route LocalServerId D0 t rows requirement not_root p = inr loc →
  is_Some (db s !! loc_shardId loc).
Proof.
  intros Hs. unfold route. destruct (VerifyPathValidity p requirement). repeat (destruct (decide _); [done|]).
  destruct (resolve D0 t p) as [|[pid name]]; [done|]. by eapply place_present.
Qed.

(** *** Stat *)

Definition stat_answer (m : inode_map) (x : MetaProcessInfoData) : MetaProcessInfoData :=
  match target_row m x with
  | None => x <| errorCode := FILE_NOT_EXISTS |>
  | Some r => stat_fill r x
  end.

Lemma stat_one_spec sid m s i x :
  db s !! sid = Some m → infos s !! i = Some x →
  stat_one sid i s = Ret () (s <| infos ::= alter (stat_answer m) i |>).
Proof.
  intros Hm Hi. destruct (open_db _ _ _ Hm) as (tb & _ & <- & Ho). unfold stat_one.
  erewrite bind_ret by exact Ho. erewrite bind_ret by by apply get_info_eq. rewrite scan_eq_visible.
  fold (row_at (visible tb) (mi_parentId_partId x) (default ""%string (mi_name x))). fold (target_row (visible tb) x).
  assert (s <| infos ::= alter (stat_answer (visible tb)) i |> =
          s <| infos ::= <[i := stat_answer (visible tb) x]> |>) as ->.
  { unfold set_field. simpl. by rewrite (list_alter_insert _ _ _ x). }
  unfold stat_answer, set_error. destruct (target_row (visible tb) x); by apply set_info_eq.
Qed.

Lemma stat_queue sid m l s :
  db s !! sid = Some m → Forall (λ i, is_Some (infos s !! i)) l →
  mfor l (stat_one sid) s = Ret () (s <| infos := foldl (λ l j, alter (stat_answer m) j l) (infos s) l |>).
Proof.
  revert s. induction l as [|i l IH]; intros s Hm Hv; [by destruct s|].
  apply Forall_cons in Hv as [[x Hx] Hv]. cbn [mfor]. erewrite bind_ret by by eapply stat_one_spec.
  rewrite IH; [by destruct s|done|]. eapply Forall_impl; [exact Hv|]. intros j Hj. simpl.
  destruct (decide (i = j)) as [<-|Hne]; [|by rewrite list_lookup_alter_ne].
  rewrite list_lookup_alter_eq. by apply fmap_is_Some.
Qed.

Lemma stat_queues table s (f : nat → MetaProcessInfoData → MetaProcessInfoData) :
  (∀ sid l, (sid, l) ∈ table → ∃ m, db s !! sid = Some m ∧ ∀ i, i ∈ l → f i = stat_answer m ∧ is_Some (infos s !! i)) →
  mfor table stat_shard s = Ret () (s <| infos := foldl (λ l j, alter (f j) j l) (infos s) (concat table.*2) |>).
Proof.
  revert s. induction table as [|[sid l] table IH]; intros s Hall; [by destruct s|].
  destruct (Hall sid l) as (m & Hm & Hl); [by left|]. destruct (open_db _ _ _ Hm) as (tb & _ & _ & Ho).
  cbn [mfor]. change (stat_shard (sid, l)) with (open_inode_rel sid ;; mfor l (stat_one sid)).
  rewrite bind_assoc. erewrite bind_ret by exact Ho.
  erewrite bind_ret by (apply stat_queue; [done|]; apply Forall_forall; intros i Hi; by apply Hl).
  assert (foldl (λ l j, alter (stat_answer m) j l) (infos s) l = foldl (λ l j, alter (f j) j l) (infos s) l) as ->.
  { clear -Hl. revert Hl. generalize (infos s) at 2 3 as l0. induction l as [|i l IH]; intros l0 Hl; [done|]. simpl.
    destruct (Hl i) as [-> _]; [by left|]. apply IH. intros j Hj. apply Hl. by right. }
  rewrite IH.
  - rewrite fmap_cons. cbn [concat snd]. rewrite foldl_app. by destruct s.
  - intros sid' l' Hin. destruct (Hall sid' l') as (m' & Hm' & Hl'); [by right|]. exists m'. split; [done|].
    intros i Hi. destruct (Hl' i Hi) as [? Hs]. split; [done|]. simpl. clear -Hs. revert Hs. generalize (infos s).
    induction l as [|j l IHl]; intros l0 Hs; [done|]. simpl. apply IHl. destruct (decide (j = i)) as [<-|Hne].
    + rewrite list_lookup_alter_eq. by apply fmap_is_Some.
    + by rewrite list_lookup_alter_ne.
Qed.

(** The attributes stat reports. *)
Definition attributes (x : MetaProcessInfoData) :=
  (mi_inodeId x, st_dev x, st_mode x, st_nlink x, st_uid x, st_gid x, st_rdev x, st_size x, st_blksize x,
   st_blocks x, st_atim x, st_mtim x, st_ctim x, etag x).

Definition row_attributes (r : FormData_dfs_inode_table) :=
  (it_st_ino r, it_st_dev r, it_st_mode r, it_st_nlink r, it_st_uid r, it_st_gid r, it_st_rdev r, it_st_size r,
   it_st_blksize r, it_st_blocks r, it_st_atim r, it_st_mtim r, it_st_ctim r, it_etag r).

Definition stat_result (d : gmap Z inode_map) (r : CuckooErrorCode + location) (x : MetaProcessInfoData) : Prop :=
  match r with
  | inl e => errorCode x = e
  | inr loc =>
      match row_of d loc with
      | None => errorCode x = FILE_NOT_EXISTS
      | Some row => errorCode x = SUCCESS ∧ attributes x = row_attributes row
      end
  end.

Lemma queue_elem routes idxs table i :
  queues routes idxs table → i ∈ idxs → (i ∈ concat table.*2 ↔ is_inr (routes i) = true).
Proof. intros [_ Ha _ _] Hi. rewrite Ha, list_elem_of_filter. split; [by intros [? _]|by intros ?]. Qed.

Lemma in_queue (table : list (Z * list nat)) sid l (i : nat) : (sid, l) ∈ table → i ∈ l → i ∈ concat table.*2.
Proof.
  intros Hin Hi. apply list_elem_of_In, in_concat. exists l. rewrite <-!list_elem_of_In. split; [|done].
  by apply (list_elem_of_fmap_2 snd) in Hin.
Qed.

Lemma queue_present D0 t rows s requirement not_root l0 idxs table sid l :
  server_ready D0 t rows s → queues (routes LocalServerId D0 t rows not_root requirement l0) idxs table →
  (sid, l) ∈ table → is_Some (db s !! sid).
Proof.
  intros Hs Hq Hin. pose proof (q_nonempty _ _ _ Hq _ _ Hin) as Hne. destruct l as [|i l]; [done|].
  destruct (q_place _ _ _ Hq sid (i :: l) i Hin) as (loc & Hloc & <-); [by left|].
  unfold routes in Hloc. destruct (l0 !! i); [|done]. by eapply route_present.
Qed.

(** A request that was routed finds its row. *)
Lemma routed_target wi New Fill x loc x' d m :
  routed wi New Fill x loc x' → (∀ a b, Fill a b → mi_name b = mi_name a) →
  d !! loc_shardId loc = Some m → target_row m x' = row_of d loc.
Proof.
  intros (ino & x1 & _ & HF & ->) Hn Hm. unfold row_of. rewrite Hm. unfold target_row. simpl.
  by rewrite (Hn _ _ HF).
Qed.

(** (C16) Stat answers every request of a batch from the committed
    directories, the shard map and the rows: a request whose path is not
    valid, leads nowhere or belongs to another server gets that error, a
    request without a row gets FILE_NOT_EXISTS, and any other one gets the
    attributes of its row; no row changes.  Otherwise the handler waits for a
    lock or gives up with the directory table as an abort wants it. *)
Theorem CuckooStatHandle_answers D0 t rows s idxs :
  server_ready D0 t rows s → requests_ok s idxs →
  outcome_ok (CuckooStatHandle LocalServerId idxs s)
    (λ _ s', db s' = db s ∧ ∀ i x, i ∈ idxs → infos s !! i = Some x →
       ∃ x', infos s' !! i = Some x' ∧
         stat_result (db s) (route LocalServerId D0 t rows 0 false (path x)) x')
    (gives_up D0) (waits s).
Proof.
  intros Hs [Hnd Hok]. unfold CuckooStatHandle.
  eapply outcome_ok_bind.
  { apply (prepare_spec LocalServerId D0 t rows s 0 false (λ _, mret ()) false eq eq); try apply Hs; try done.
    - apply lookup_parse_law, Hs.
    - apply no_fill_law.
    - by apply server_batch. }
  intros table s1 (Hb & Hq & Hall).
  assert (db s1 = db s) as Hdb by (unfold db; by rewrite (bi_rels _ _ _ _ _ Hb)).
  pose proof (queues_order _ _ _ _ (symmetry (hash_seq_order_perm table)) Hq) as Hq'.
  set (rt := routes LocalServerId D0 t rows false 0 (infos s)) in *.
  set (f := λ i, match rt i with inr loc => stat_answer (default ∅ (db s !! loc_shardId loc)) | inl _ => λ x, x end).
  rewrite (stat_queues _ _ f).
  - simpl. split; [done|]. intros i x Hi Hx. specialize (Hall i). rewrite decide_True in Hall by done.
    destruct Hall as (x0 & x' & Hx0 & Hx' & Hp & Ha). rewrite Hx in Hx0. injection Hx0 as <-.
    rewrite foldl_alter_lookup by by eapply queues_NoDup. rewrite Hx'. simpl.
    assert (rt i = route LocalServerId D0 t rows 0 false (path x)) as Hrt by (unfold rt, routes; by rewrite Hx).
    change (path (reset 0 x)) with (path x) in Ha. rewrite <-Hrt in Ha |- *.
    pose proof (queue_elem _ _ _ i Hq' Hi) as Hel. unfold f. destruct (rt i) as [e|loc] eqn:E.
    + rewrite decide_False by (rewrite Hel; done). eauto.
    + rewrite decide_True by (by rewrite Hel). destruct Ha as [Hsucc Hr]. eexists. split; [done|].
      destruct (route_present D0 t rows s 0 false (path x) loc Hs (symmetry Hrt)) as [m Hm].
      rewrite Hm. unfold stat_answer. simpl.
      rewrite (routed_target _ _ _ _ _ _ (db s) m Hr) by (done || by intros ? ? ->).
      by destruct (row_of (db s) loc).
  - intros sid l Hin. rewrite Hdb. destruct (queue_present D0 t rows s _ _ _ _ _ _ _ Hs Hq' Hin) as [m Hm].
    exists m. split; [done|]. intros i Hi. destruct (q_place _ _ _ Hq' sid l i Hin Hi) as (loc & Hloc & <-).
    unfold f. rewrite Hloc, Hm. split; [done|]. specialize (Hall i).
    assert (i ∈ idxs) as Hii.
    { pose proof (in_queue _ _ _ _ Hin Hi) as Hc. rewrite (q_all _ _ _ Hq') in Hc. by apply list_elem_of_filter in Hc as [_ ?]. }
    rewrite decide_True in Hall by done. destruct Hall as (_ & x' & _ & -> & _). eauto.
Qed.

(** *** Create *)

Lemma create_refs_eq p m l :
  NoDup p → (∀ i, i ∈ p → status l i = Some SUCCESS) →
  foldl create_item (m, l) p = foldl create_ref (m, l) p.
Proof.
  revert m l. induction p as [|i p IH]; intros m l Hnd Hs; [done|]. apply NoDup_cons in Hnd as [Hi Hnd].
  pose proof (Hs i ltac:(by left)) as Hsi. unfold status in Hsi. simpl.
  assert (create_item (m, l) i = create_ref (m, l) i) as <-.
  { unfold create_item. simpl. destruct (l !! i) as [x|] eqn:Hx; [|done]. simpl in Hsi. injection Hsi as Hsi.
    by rewrite decide_True. }
  destruct (create_item (m, l) i) as [m1 l1] eqn:E. apply IH; [done|]. intros j Hj.
  pose proof (create_item_other (m, l) i j) as Ho. rewrite E in Ho. simpl in Ho. unfold status.
  rewrite Ho by (intros ->; done). apply Hs. by right.
Qed.

Lemma create_ref_other v i j : i ≠ j → (create_ref v i).2 !! j = v.2 !! j.
Proof.
  intros Hne. unfold create_ref. destruct (v.2 !! i) as [x|]; [|done].
  destruct (target_row v.1 x); [|done]. simpl. by rewrite list_lookup_insert_ne.
Qed.

Lemma create_refs_other p v j : j ∉ p → (foldl create_ref v p).2 !! j = v.2 !! j.
Proof.
  revert v. induction p as [|i p IH]; intros v; [done|]. rewrite not_elem_of_cons. intros [Hne Hp]. simpl.
  rewrite IH by done. by apply create_ref_other.
Qed.

Lemma create_shard_spec s sid m l :
  db_settled s → db s !! sid = Some m → NoDup l → (∀ i, i ∈ l → status (infos s) i = Some SUCCESS) →
  ∃ s', create_shard false (sid, l) s = Ret () s' ∧
    shard_view s sid (foldl create_ref (m, infos s) l).1 (foldl create_ref (m, infos s) l).2 s'.
Proof.
  intros Hset Hm Hnd Hs. destruct (open_db _ _ _ Hm) as (tb & _ & _ & Ho). unfold create_shard. simpl.
  erewrite bind_ret by exact Ho. rewrite bind_mget, filter_all by done.
  rewrite <-create_refs_eq by done. apply create_loop_spec.
  - by apply shard_view_init.
  - apply Forall_forall. intros i Hi. apply status_is_Some. rewrite Hs by done. eauto.
  - done.
  - unfold open_count. rewrite filter_all by done. lia.
Qed.

(** The requests of all shards, each with its shard. *)
Definition create_at (v : gmap Z inode_map * requests) (e : Z * nat) : gmap Z inode_map * requests :=
  match v.1 !! e.1 with
  | None => v
  | Some m => let w := create_ref (m, v.2) e.2 in (<[e.1 := w.1]> v.1, w.2)
  end.

Definition flatten (table : list (Z * list nat)) : list (Z * nat) :=
  concat ((λ e : Z * list nat, pair e.1 <$> e.2) <$> table).

Lemma create_at_fold sid m d l p :
  d !! sid = Some m →
  foldl create_at (d, l) (pair sid <$> p) =
    (<[sid := (foldl create_ref (m, l) p).1]> d, (foldl create_ref (m, l) p).2).
Proof.
  revert m d l. induction p as [|i p IH]; intros m d l Hm.
  { simpl. by rewrite insert_id. }
  rewrite fmap_cons. simpl. unfold create_at at 2. simpl. rewrite Hm.
  destruct (create_ref (m, l) i) as [m1 l1]. simpl. rewrite (IH m1) by by rewrite lookup_insert_eq.
  by rewrite insert_insert_eq.
Qed.

Lemma create_queues table s :
  db_settled s → NoDup (concat table.*2) →
  (∀ sid q, (sid, q) ∈ table → is_Some (db s !! sid) ∧ ∀ i, i ∈ q → status (infos s) i = Some SUCCESS) →
  ∃ s', mfor table (create_shard false) s = Ret () s' ∧
    foldl create_at (db s, infos s) (flatten table) = (db s', infos s').
Proof.
  revert s. induction table as [|[sid q] table IH]; intros s Hset Hnd Hall; [by exists s|].
  destruct (Hall sid q) as [[m Hm] Hq]; [by left|].
  rewrite fmap_cons in Hnd. cbn [concat snd] in Hnd. apply NoDup_app in Hnd as (Hnq & Hdisj & Hnd).
  destruct (create_shard_spec s sid m q Hset Hm Hnq Hq) as (s1 & Hs1 & Hv).
  cbn [mfor]. erewrite bind_ret by exact Hs1. unfold flatten. rewrite fmap_cons. cbn [concat fst snd].
  rewrite foldl_app, (create_at_fold sid m) by done.
  rewrite <-(sv_db _ _ _ _ _ Hv), <-(sv_infos _ _ _ _ _ Hv).
  apply (IH s1); [apply Hv|done|]. intros sid' q' Hin. destruct (Hall sid' q') as [Hp Hq']; [by right|]. split.
  - rewrite (sv_db _ _ _ _ _ Hv). destruct (decide (sid = sid')) as [<-|Hne]; [by rewrite lookup_insert_eq|].
    by rewrite lookup_insert_ne.
  - intros i Hi. rewrite (sv_infos _ _ _ _ _ Hv). unfold status. rewrite create_refs_other.
    + by apply Hq'.
    + intros Hin'. apply (Hdisj i Hin'). by eapply in_queue.
Qed.

(** The row of a shard under a key. *)
Definition cell (d : gmap Z inode_map) (sid : Z) (k : Z * string) : option FormData_dfs_inode_table :=
  d !! sid ≫= λ m, m !! k.

Definition req_key (x : MetaProcessInfoData) : Z * string :=
  (i64 (mi_parentId_partId x), default ""%string (mi_name x)).

(** What the requests [done] have come to: those that found no row are left
    as they were and have their row, the others show the row that is there. *)
Record created (d0 : gmap Z inode_map) (l1 : requests) (v : gmap Z inode_map * requests) (done : list (Z * nat)) : Prop := {
  cr_kept sid k r : cell d0 sid k = Some r → cell v.1 sid k = Some r;
  cr_dom sid : is_Some (d0 !! sid) → is_Some (v.1 !! sid);
  cr_done sid i : (sid, i) ∈ done → ∃ x1 x' r, l1 !! i = Some x1 ∧ v.2 !! i = Some x' ∧
    cell v.1 sid (req_key x1) = Some r ∧
    ((x' = x1 ∧ cell d0 sid (req_key x1) = None ∧ r = create_row x1) ∨
     x' = store_attributes r (x1 <| errorCode := FILE_EXISTS |>));
  cr_rest i : i ∉ done.*2 → v.2 !! i = l1 !! i;
  cr_new sid k r : cell v.1 sid k = Some r → cell d0 sid k = Some r ∨
    ∃ i x, (sid, i) ∈ done ∧ l1 !! i = Some x ∧ v.2 !! i = Some x ∧ k = req_key x ∧ r = create_row x;
  cr_once sid i j x y : (sid, i) ∈ done → (sid, j) ∈ done → l1 !! i = Some x → l1 !! j = Some y →
    v.2 !! i = Some x → v.2 !! j = Some y → req_key x = req_key y → i = j }.

Lemma created_nil d l : created d l (d, l) [].
Proof.
  split; simpl; try done; auto.
  - intros sid i Hin. by apply not_elem_of_nil in Hin.
  - intros sid i j x y Hin. by apply not_elem_of_nil in Hin.
Qed.

Lemma cell_insert d sid m sid' k :
  cell (<[sid := m]> d) sid' k = if decide (sid = sid') then m !! k else cell d sid' k.
Proof.
  unfold cell. destruct (decide (sid = sid')) as [<-|Hne]; [by rewrite lookup_insert_eq|by rewrite lookup_insert_ne].
Qed.

Lemma elem_fst {A B} (e : A * B) l : e ∈ l → e.2 ∈ l.*2.
Proof. apply list_elem_of_fmap_2. Qed.

Section step.
Context (d0 : gmap Z inode_map) (l1 : requests) (v : gmap Z inode_map * requests) (past : list (Z * nat))
  (sid : Z) (i : nat) (m : inode_map) (x : MetaProcessInfoData).
Context (Hcr : created d0 l1 v past) (Hi : i ∉ past.*2) (Hm : v.1 !! sid = Some m) (Hx : l1 !! i = Some x)
  (Hsx : errorCode x = SUCCESS).

Lemma past_ne sid' j : (sid', j) ∈ past → j ≠ i.
Proof. intros Hin ->. apply Hi. by apply elem_fst in Hin. Qed.

Lemma past_snoc sid' j : (sid', j) ∈ past ++ [(sid, i)] → (sid', j) ∈ past ∨ (sid' = sid ∧ j = i).
Proof.
  intros [?|Hin]%elem_of_app; [by left|right]. apply list_elem_of_singleton in Hin. by simplify_eq.
Qed.

Lemma past_rest j : j ∉ (past ++ [(sid, i)]).*2 → (j ∉ past.*2) ∧ j ≠ i.
Proof.
  rewrite fmap_app. change (snd <$> [(sid, i)]) with [i]. rewrite not_elem_of_app, not_elem_of_cons.
  by intros (? & ? & _).
Qed.

(** The request finds a row. *)
Lemma created_exists r :
  target_row m x = Some r →
  created d0 l1 (v.1, <[i := store_attributes r (x <| errorCode := FILE_EXISTS |>)]> v.2) (past ++ [(sid, i)]).
Proof.
  intros Ht. destruct Hcr as [Hk Hdom Hd Hr Hn Ho]. pose proof (Hr i Hi) as Hvi. rewrite Hx in Hvi.
  assert (∀ y z, l1 !! i = Some y → <[i := store_attributes r (x <| errorCode := FILE_EXISTS |>)]> v.2 !! i = Some z → y ≠ z) as Hfail.
  { intros y z Hy. rewrite list_lookup_insert_eq by by eapply lookup_lt_Some. intros [= <-] ->.
    rewrite Hx in Hy. apply (f_equal (fmap errorCode)) in Hy. simpl in Hy. congruence. }
  split; simpl; try done.
  - intros sid' j [Hin|[-> ->]]%past_snoc.
    + destruct (Hd _ _ Hin) as (x1 & x' & r' & ? & ? & ? & ?). exists x1, x', r'. split_and!; try done.
      rewrite list_lookup_insert_ne by (apply not_eq_sym; by eapply past_ne). done.
    + eexists x, _, r. split_and!; [done|apply list_lookup_insert_eq; by eapply lookup_lt_Some| |by right].
      unfold cell. by rewrite Hm.
  - intros j [Hj Hji]%past_rest. rewrite list_lookup_insert_ne by done. by apply Hr.
  - intros sid' k r' Hc. destruct (Hn sid' k r' Hc) as [?|(j & y & Hin & ? & ? & ? & ?)]; [by left|right].
    exists j, y. split_and!; try done; [apply elem_of_app; by left|].
    rewrite list_lookup_insert_ne by (apply not_eq_sym; by eapply past_ne). done.
  - intros sid' a b y z Ha Hb Hy Hz Hay Hbz Hkey.
    apply past_snoc in Ha as [Ha|[-> ->]]; [|by destruct (Hfail y y)].
    apply past_snoc in Hb as [Hb|[-> ->]]; [|by destruct (Hfail z z)].
    rewrite list_lookup_insert_ne in Hay, Hbz by (apply not_eq_sym; by eapply past_ne).
    by apply (Ho sid' a b y z).
Qed.

(** The request creates its row. *)
Lemma created_new :
  target_row m x = None →
  created d0 l1 (<[sid := <[req_key x := create_row x]> m]> v.1, v.2) (past ++ [(sid, i)]).
Proof.
  intros Ht. destruct Hcr as [Hk Hdom Hd Hr Hn Ho]. pose proof (Hr i Hi) as Hvi. rewrite Hx in Hvi.
  assert (cell v.1 sid (req_key x) = None) as Hcell by (unfold cell; by rewrite Hm).
  assert (∀ sid' k r, cell v.1 sid' k = Some r → cell (<[sid := <[req_key x := create_row x]> m]> v.1) sid' k = Some r) as Hmono.
  { intros sid' k r Hc. rewrite cell_insert. destruct (decide (sid = sid')) as [<-|]; [|done].
    rewrite lookup_insert_ne; [unfold cell in Hc; by rewrite Hm in Hc|]. intros <-. congruence. }
  split; simpl.
  - intros sid' k r Hc. by apply Hmono, Hk.
  - intros sid' Hs. destruct (decide (sid = sid')) as [<-|]; [by rewrite lookup_insert_eq|].
    rewrite lookup_insert_ne by done. auto.
  - intros sid' j [Hin|[-> ->]]%past_snoc.
    + destruct (Hd _ _ Hin) as (x1 & x' & r' & ? & ? & ? & ?). exists x1, x', r'. split_and!; auto.
    + exists x, x, (create_row x). split_and!; try done.
      * rewrite cell_insert, decide_True by done. by rewrite lookup_insert_eq.
      * left. split_and!; try done. destruct (cell d0 sid (req_key x)) eqn:E; [|done]. apply Hk in E. congruence.
  - intros j [Hj _]%past_rest. by apply Hr.
  - intros sid' k r. rewrite cell_insert. intros Hc.
    assert (cell v.1 sid' k = Some r ∨ (sid' = sid ∧ k = req_key x ∧ r = create_row x)) as [Hc'|(-> & -> & ->)].
    { destruct (decide (sid = sid')) as [<-|]; [|by left]. apply lookup_insert_Some in Hc as [[<- <-]|[_ Hc]]; [by right|].
      left. unfold cell. by rewrite Hm. }
    + destruct (Hn sid' k r Hc') as [?|(j & y & Hin & ? & ? & ? & ?)]; [by left|right].
      exists j, y. split_and!; try done. apply elem_of_app. by left.
    + right. exists i, x. split_and!; try done. apply elem_of_app. right. by left.
  - assert (∀ a y, (sid, a) ∈ past → l1 !! a = Some y → req_key y ≠ req_key x) as Hnew.
    { intros a y Ha Hy Hky. destruct (Hd _ _ Ha) as (x1 & x' & r' & ? & ? & Hc & _). congruence. }
    intros sid' a b y z Ha Hb Hy Hz Hay Hbz Hkey.
    apply past_snoc in Ha as [Ha|[-> ->]]; apply past_snoc in Hb as [Hb|[Hs ->]]; subst; try done.
    + by apply (Ho sid' a b y z).
    + exfalso. apply (Hnew a y); [done..|]. congruence.
    + exfalso. apply (Hnew b z); [done..|]. congruence.
Qed.

Lemma created_step : created d0 l1 (create_at v (sid, i)) (past ++ [(sid, i)]).
Proof.
  pose proof (cr_rest _ _ _ _ Hcr i Hi) as Hvi. rewrite Hx in Hvi.
  unfold create_at, create_ref. simpl. rewrite Hm. simpl. rewrite Hvi.
  destruct (target_row m x) as [r|] eqn:Ht; simpl.
  - rewrite insert_id by done. by apply created_exists.
  - by apply created_new.
Qed.
End step.

Lemma created_all d0 l1 todo :
  NoDup todo.*2 → (∀ sid i, (sid, i) ∈ todo → is_Some (d0 !! sid) ∧ status l1 i = Some SUCCESS) →
  created d0 l1 (foldl create_at (d0, l1) todo) todo.
Proof.
  induction todo as [|[sid i] todo IH] using rev_ind; intros Hnd Hall; [apply created_nil|].
  rewrite foldl_app. simpl. rewrite fmap_app in Hnd. apply NoDup_app in Hnd as (Hnd & Hdisj & _).
  assert (created d0 l1 (foldl create_at (d0, l1) todo) todo) as Hcr.
  { apply IH; [done|]. intros sid' j Hin. apply Hall, elem_of_app. by left. }
  destruct (Hall sid i) as [Hp Hs]; [apply elem_of_app; right; by left|].
  apply (cr_dom _ _ _ _ Hcr) in Hp as [m Hm]. unfold status in Hs. apply fmap_Some in Hs as (x & Hx & Hsx).
  apply (created_step _ _ _ _ _ _ m x); try done. intros Hin. apply (Hdisj i Hin). by left.
Qed.

Lemma create_fill_law : fill_law (create_fill timestamp) (λ x x', ∃ now, x' = create_filled now x).
Proof.
  intros i s x Hi. exists (create_filled (timestamp (clock_calls s)) x), (Z.succ (clock_calls s)).
  unfold create_fill, GetCurrentTimestamp. rewrite bind_assoc, bind_mget, bind_assoc, bind_mput, bind_mret.
  rewrite (set_info_eq _ _ x) by done. split_and!; try done. eauto.
Qed.

Lemma flatten_snd table : (flatten table).*2 = concat table.*2.
Proof.
  unfold flatten. induction table as [|[sid q] table IH]; [done|].
  rewrite !fmap_cons. cbn [concat fst snd]. by rewrite fmap_app, IH, snd_pair.
Qed.

Lemma flatten_elem table sid i : (sid, i) ∈ flatten table ↔ ∃ q, (sid, q) ∈ table ∧ i ∈ q.
Proof.
  unfold flatten. rewrite list_elem_of_In, in_concat. split.
  - intros (l & Hl & Hi). rewrite <-list_elem_of_In in Hl. rewrite <-list_elem_of_In in Hi. apply list_elem_of_fmap in Hl as ([sid' q] & -> & Hin).
    apply list_elem_of_fmap in Hi as (j & Heq & Hj). simpl in *. simplify_eq. eauto.
  - intros (q & Hin & Hi). exists (pair sid <$> q). split; apply list_elem_of_In.
    + apply list_elem_of_fmap. by exists (sid, q).
    + by apply list_elem_of_fmap_2.
Qed.

(** What a request to create gets: the error of its path, its new file, or
    the attributes of the entry that is there. *)
Definition create_result (d d' : gmap Z inode_map) (r : CuckooErrorCode + location) (x : MetaProcessInfoData) : Prop :=
  match r with
  | inl e => errorCode x = e
  | inr loc =>
      ∃ row, row_of d' loc = Some row ∧
        ((errorCode x = SUCCESS ∧ row_of d loc = None ∧ row = create_row x ∧ st_mode x = Z.lor S_IFREG 420 ∧
          st_size x = 0 ∧ ∃ seq, mi_inodeId x = GenerateInodeIdBySeqAndNodeId seq LocalServerId) ∨
         (errorCode x = FILE_EXISTS ∧
          (mi_inodeId x, st_size x, st_nlink x, st_mode x, node_id x) =
          (it_st_ino row, it_st_size row, it_st_nlink row, it_st_mode row, it_primary_nodeid row)))
  end.

(** A request routed to its shard asks for the row of its location. *)
Definition created_request (x : MetaProcessInfoData) (loc : location) (x' : MetaProcessInfoData) : Prop :=
  routed true (λ _ ino, ∃ seq, ino = Some (GenerateInodeIdBySeqAndNodeId seq LocalServerId))
    (λ x x', ∃ now, x' = create_filled now x) x loc x'.

Lemma created_request_facts x loc x' :
  created_request x loc x' →
  req_key x' = (i64 (loc_pp loc), loc_name loc) ∧ st_mode x' = Z.lor S_IFREG 420 ∧ st_size x' = 0 ∧
  ∃ seq, mi_inodeId x' = GenerateInodeIdBySeqAndNodeId seq LocalServerId.
Proof. intros (ino & x1 & [seq ->] & [now ->] & ->). split_and!; try done. by exists seq. Qed.

Lemma create_result_done d0 l1 v past sid i x loc x1 x' :
  created d0 l1 v past → (sid, i) ∈ past → loc_shardId loc = sid → l1 !! i = Some x1 → v.2 !! i = Some x' →
  created_request x loc x1 → errorCode x1 = SUCCESS → create_result d0 v.1 (inr loc) x'.
Proof.
  intros Hcr Hin <- Hx1 Hx' Hreq Hsucc. destruct (created_request_facts _ _ _ Hreq) as (Hkey & Hmode & Hsize & Hino).
  destruct (cr_done _ _ _ _ Hcr _ _ Hin) as (y & z & r & Hy & Hz & Hc & Hcase). simplify_eq.
  rewrite Hkey in Hc, Hcase. exists r. split; [exact Hc|].
  destruct Hcase as [(-> & Hd0 & ->)| ->]; [left|right]; by split_and!.
Qed.

(** The second half of the handler, on requests that have been routed. *)
Section create_batch.
Context (s s1 : MetaState) (idxs : list nat) (table : list (Z * list nat)) (rt : nat → CuckooErrorCode + location).
Context (Hset : db_settled s1) (Hdb : db s1 = db s) (Hnd : NoDup idxs) (Hq : queues rt idxs table).
Context (Hpresent : ∀ i loc, i ∈ idxs → rt i = inr loc → is_Some (db s !! loc_shardId loc)).
Context (Hreq : ∀ i, i ∈ idxs → ∃ x x1, infos s1 !! i = Some x1 ∧
  match rt i with
  | inl e => errorCode x1 = e ∧ e ≠ SUCCESS
  | inr loc => errorCode x1 = SUCCESS ∧ created_request x loc x1
  end).

Lemma queued sid q i : (sid, q) ∈ table → i ∈ q → i ∈ idxs ∧ ∃ loc, rt i = inr loc ∧ loc_shardId loc = sid.
Proof.
  intros Hin Hi. split; [|by eapply q_place].
  pose proof (in_queue _ _ _ _ Hin Hi) as Hc. rewrite (q_all _ _ _ Hq) in Hc. by apply list_elem_of_filter in Hc as [_ ?].
Qed.

Lemma queue_of i loc : i ∈ idxs → rt i = inr loc → (loc_shardId loc, i) ∈ flatten table.
Proof.
  intros Hi Hr. apply flatten_elem. assert (i ∈ concat table.*2) as Hc.
  { apply (queue_elem rt idxs); [done|done|]. by rewrite Hr. }
  apply list_elem_of_In, in_concat in Hc as (q & Hin & Hiq).
  rewrite <-list_elem_of_In in Hin. rewrite <-list_elem_of_In in Hiq.
  apply list_elem_of_fmap in Hin as ([sid q'] & -> & Hin).
  destruct (queued sid q' i Hin Hiq) as (_ & loc' & Hr' & <-). rewrite Hr in Hr'. injection Hr' as <-.
  exists q'. by split.
Qed.

Lemma create_batch :
  ∃ s', mfor table (create_shard false) s1 = Ret () s' ∧ created (db s) (infos s1) (db s', infos s') (flatten table).
Proof.
  destruct (create_queues table s1) as (s' & Hr & Hf); [done|by eapply queues_NoDup| |].
  - intros sid q Hin. rewrite Hdb. pose proof (q_nonempty _ _ _ Hq _ _ Hin) as Hne. destruct q as [|i0 q0]; [done|].
    split.
    + destruct (queued sid (i0 :: q0) i0 Hin) as (Hi & loc & Hloc & <-); [by left|]. by apply (Hpresent i0).
    + intros i Hi. destruct (queued sid (i0 :: q0) i Hin Hi) as (Hii & loc & Hloc & <-).
      destruct (Hreq i Hii) as (x & x1 & Hx1 & Hc). rewrite Hloc in Hc. unfold status. rewrite Hx1. simpl. by destruct Hc as [-> _].
  - exists s'. split; [done|]. rewrite <-Hf, Hdb. apply created_all.
    + rewrite flatten_snd. by eapply queues_NoDup.
    + intros sid i (q & Hin & Hi)%flatten_elem. destruct (queued sid q i Hin Hi) as (Hii & loc & Hloc & <-).
      split; [by apply (Hpresent i)|]. destruct (Hreq i Hii) as (x & x1 & Hx1 & Hc). rewrite Hloc in Hc.
      unfold status. rewrite Hx1. simpl. by destruct Hc as [-> _].
Qed.

Context (s' : MetaState) (Hcr : created (db s) (infos s1) (db s', infos s') (flatten table)).

Lemma batch_result i : i ∈ idxs → ∃ x', infos s' !! i = Some x' ∧ create_result (db s) (db s') (rt i) x'.
Proof.
  intros Hi. destruct (Hreq i Hi) as (x & x1 & Hx1 & Hc). destruct (rt i) as [e|loc] eqn:E.
  - exists x1. split; [|by destruct Hc]. rewrite <-Hx1. apply (cr_rest _ _ _ _ Hcr). rewrite flatten_snd.
    intros Hin. apply (queue_elem rt idxs) in Hin; [|done|done]. by rewrite E in Hin.
  - destruct Hc as [Hsucc Hcreq]. pose proof (queue_of i loc Hi E) as Hin.
    destruct (cr_done _ _ _ _ Hcr _ _ Hin) as (y & x' & r & Hy & Hx' & _). exists x'. split; [done|].
    by apply (create_result_done (db s) (infos s1) (db s', infos s') (flatten table) (loc_shardId loc) i x loc x1 x').
Qed.

Lemma batch_success i loc x' :
  i ∈ idxs → rt i = inr loc → infos s' !! i = Some x' → errorCode x' = SUCCESS →
  infos s1 !! i = Some x' ∧ req_key x' = (i64 (loc_pp loc), loc_name loc).
Proof.
  intros Hi Hr Hx' He. destruct (Hreq i Hi) as (x & x1 & Hx1 & Hc). rewrite Hr in Hc. destruct Hc as [_ Hcreq].
  destruct (cr_done _ _ _ _ Hcr _ _ (queue_of i loc Hi Hr)) as (y & z & r & Hy & Hz & _ & Hcase). simpl in Hz. simplify_eq.
  destruct Hcase as [(-> & _)| ->]; [|done]. split; [done|]. by apply (created_request_facts x).
Qed.
End create_batch.

(** (C1) Creating a batch of files: the groups of eight, the
    subtransactions that are rolled back and started over and the order of
    the shards do not show.  Every request gets the error of its path, or
    creates its row (a new empty regular file with an inode id drawn for it)
    exactly when no row was there, or gets FILE_EXISTS with the attributes of
    the row that is; among requests for the same name one at most succeeds.
    Rows that existed stay as they were, and every new row belongs to a
    request that reports success.  The handler always ends, unless it waits
    for a lock. *)
Theorem CuckooCreateHandle_creates D0 t rows s idxs :
  server_ready D0 t rows s → requests_ok s idxs →
  let goes_to x := route LocalServerId D0 t rows VERIFY_PATH_VALIDITY_REQUIREMENT_MUST_BE_FILE true (path x) in
  outcome_ok (CuckooCreateHandle LocalServerId timestamp false idxs s)
    (λ _ s',
       (∀ i x, i ∈ idxs → infos s !! i = Some x → ∃ x', infos s' !! i = Some x' ∧
          create_result (db s) (db s') (goes_to x) x') ∧
       (∀ i j x y x' y' loc, i ∈ idxs → j ∈ idxs → infos s !! i = Some x → infos s !! j = Some y →
          goes_to x = inr loc → goes_to y = inr loc → infos s' !! i = Some x' → infos s' !! j = Some y' →
          errorCode x' = SUCCESS → errorCode y' = SUCCESS → i = j) ∧
       (∀ sid k r, cell (db s) sid k = Some r → cell (db s') sid k = Some r) ∧
       (∀ sid k r, cell (db s') sid k = Some r → cell (db s) sid k = Some r ∨
          ∃ i x', i ∈ idxs ∧ infos s' !! i = Some x' ∧ errorCode x' = SUCCESS ∧ r = create_row x'))
    (gives_up D0) (waits s).
Proof.
  intros Hs [Hnd Hok] goes_to. unfold CuckooCreateHandle.
  eapply outcome_ok_bind.
  { apply (prepare_spec LocalServerId D0 t rows s _ true (create_fill timestamp) true
      (λ _ ino, ∃ seq, ino = Some (GenerateInodeIdBySeqAndNodeId seq LocalServerId))
      (λ x x', ∃ now, x' = create_filled now x)); try apply Hs; try done.
    - apply create_parse_law, Hs.
    - apply create_fill_law.
    - by apply server_batch. }
  intros table s1 (Hb & Hq & Hall).
  assert (db s1 = db s) as Hdb by (unfold db; by rewrite (bi_rels _ _ _ _ _ Hb)).
  apply (queues_order _ _ _ (hash_seq_order table)) in Hq; [|symmetry; apply hash_seq_order_perm].
  set (rt := routes LocalServerId D0 t rows true VERIFY_PATH_VALIDITY_REQUIREMENT_MUST_BE_FILE (infos s)) in *.
  assert (∀ i x, infos s !! i = Some x → rt i = goes_to x) as Hrt by (intros i x Hx; unfold rt, routes; by rewrite Hx).
  assert (∀ i, i ∈ idxs → ∃ x x1, infos s1 !! i = Some x1 ∧ match rt i with
    | inl e => errorCode x1 = e ∧ e ≠ SUCCESS | inr loc => errorCode x1 = SUCCESS ∧ created_request x loc x1 end) as Hreq.
  { intros i Hi. specialize (Hall i). rewrite decide_True in Hall by done. destruct Hall as (x & x1 & Hx & Hx1 & _ & Ha).
    exists (reset VERIFY_PATH_VALIDITY_REQUIREMENT_MUST_BE_FILE x), x1. split; [done|]. rewrite (Hrt i x Hx). unfold goes_to.
    change (path (reset _ x)) with (path x) in Ha. destruct (route _ _ _ _ _ _ (path x)) as [e|loc] eqn:E; [|done].
    split; [done|]. by eapply route_not_success. }
  destruct (create_batch s s1 idxs (hash_seq_order table) rt) as (s' & Hr & Hcr); try done.
  { unfold db_settled. rewrite (bi_rels _ _ _ _ _ Hb). apply Hs. }
  { intros i loc Hi Hl. destruct (Hok i Hi) as (x & Hx & _). rewrite (Hrt i x Hx) in Hl. by eapply route_present. }
  rewrite Hr. simpl. split_and!.
  - intros i x Hi Hx. rewrite <-(Hrt i x Hx). by apply (batch_result s s1 idxs (hash_seq_order table)).
  - intros i j x y x' y' loc Hi Hj Hx Hy Hgx Hgy Hx' Hy' Hex Hey.
    rewrite <-(Hrt i x Hx) in Hgx. rewrite <-(Hrt j y Hy) in Hgy.
    destruct (batch_success s s1 idxs _ rt Hq Hreq s' Hcr i loc x') as [Hx1 Hkx]; try done.
    destruct (batch_success s s1 idxs _ rt Hq Hreq s' Hcr j loc y') as [Hy1 Hky]; try done.
    apply (cr_once _ _ _ _ Hcr (loc_shardId loc) i j x' y'); try done; try (by eapply queue_of). congruence.
  - apply (cr_kept _ _ _ _ Hcr).
  - intros sid k r Hc. destruct (cr_new _ _ _ _ Hcr sid k r Hc) as [?|(i & x & Hin & Hx1 & Hx & -> & ->)]; [by left|right].
    apply flatten_elem in Hin as (q & Hin & Hiq). destruct (queued idxs _ rt Hq sid q i Hin Hiq) as (Hi & loc & Hloc & <-).
    exists i, x. split_and!; try done. destruct (Hreq i Hi) as (x0 & x1 & Hx1' & Hcs). rewrite Hloc in Hcs.
    rewrite Hx1 in Hx1'. injection Hx1' as <-. by destruct Hcs.
Qed.

(** *** Unlink *)

(** Hard links are not supported: every row has one link. *)
Definition one_link (d : gmap Z inode_map) : Prop := ∀ sid k r, cell d sid k = Some r → it_st_nlink r = 1.

Definition unlink_ref (v : inode_map * requests) (i : nat) : inode_map * requests :=
  match v.2 !! i with
  | None => v
  | Some x =>
      match target_row v.1 x with
      | None => (v.1, <[i := x <| errorCode := FILE_NOT_EXISTS |>]> v.2)
      | Some r => (delete (req_key x) v.1, <[i := unlink_fill r x]> v.2)
      end
  end.

Definition unlink_at (v : gmap Z inode_map * requests) (e : Z * nat) : gmap Z inode_map * requests :=
  match v.1 !! e.1 with
  | None => v
  | Some m => let w := unlink_ref (m, v.2) e.2 in (<[e.1 := w.1]> v.1, w.2)
  end.

Lemma unlink_one_spec s sid m i x :
  db_settled s → one_link (db s) → db s !! sid = Some m → infos s !! i = Some x → errorCode x = SUCCESS →
  ∃ s', unlink_one sid i s = Ret () s' ∧ db_settled s' ∧ unlink_at (db s, infos s) (sid, i) = (db s', infos s').
Proof.
  intros Hset Hone Hm Hi He. unfold unlink_one. erewrite bind_ret by by apply get_info_eq.
  rewrite decide_False by (intros Hn; by apply Hn). unfold unlink_at, unlink_ref. simpl. rewrite Hm. simpl. rewrite Hi.
  destruct (target_row m x) as [r|] eqn:Ht.
  - destruct (Search_unlink s sid m (mi_parentId_partId x) (default ""%string (mi_name x)) r) as (s1 & Hs1 & Hd & Hset1 & Hro); try done.
    erewrite bind_ret by exact Hs1. assert (infos s1 !! i = Some x) as Hi1 by (by rewrite (ro_infos _ _ Hro)).
    cbv beta iota. rewrite (set_info_eq _ _ x) by done. eexists. split_and!; [done|done|]. simpl.
    assert (it_st_nlink r = 1) as Hn by (apply (Hone sid (req_key x)); unfold cell; by rewrite Hm).
    rewrite Hn in Hd. rewrite decide_True in Hd by done.
    unfold db at 2. simpl. fold (db s1). rewrite Hd, (ro_infos _ _ Hro).
    by rewrite (db_keyed s sid m _ r Hm Ht).
  - erewrite bind_ret by by apply (Search_miss s sid m). unfold set_error. rewrite (set_info_eq _ _ x) by done.
    eexists. split_and!; [done|done|]. simpl. by rewrite insert_id.
Qed.

(** What the requests [past] have come to: the row of each is gone, and the
    first request for a row reports it. *)
Record removed (d0 : gmap Z inode_map) (l1 : requests) (v : gmap Z inode_map * requests) (past : list (Z * nat)) : Prop := {
  rm_dom sid : is_Some (d0 !! sid) → is_Some (v.1 !! sid);
  rm_gone sid i x : (sid, i) ∈ past → l1 !! i = Some x → cell v.1 sid (req_key x) = None;
  rm_kept sid k r : cell v.1 sid k = Some r → cell d0 sid k = Some r;
  rm_only sid k : cell v.1 sid k ≠ cell d0 sid k →
    ∃ i x r, (sid, i) ∈ past ∧ l1 !! i = Some x ∧ req_key x = k ∧ cell d0 sid k = Some r ∧ v.2 !! i = Some (unlink_fill r x);
  rm_done sid i x : (sid, i) ∈ past → l1 !! i = Some x → ∃ x', v.2 !! i = Some x' ∧
    ((x' = x <| errorCode := FILE_NOT_EXISTS |> ∧ (cell d0 sid (req_key x) = None ∨
        ∃ j y, (sid, j) ∈ past ∧ j ≠ i ∧ l1 !! j = Some y ∧ req_key y = req_key x)) ∨
     ∃ r, cell d0 sid (req_key x) = Some r ∧ x' = unlink_fill r x);
  rm_once sid i j x y x' y' : (sid, i) ∈ past → (sid, j) ∈ past → l1 !! i = Some x → l1 !! j = Some y →
    req_key x = req_key y → v.2 !! i = Some x' → v.2 !! j = Some y' →
    errorCode x' ≠ FILE_NOT_EXISTS → errorCode y' ≠ FILE_NOT_EXISTS → i = j;
  rm_rest i : i ∉ past.*2 → v.2 !! i = l1 !! i }.

Lemma removed_nil d l : removed d l (d, l) [].
Proof. split; simpl; try done; intros; exfalso; by eapply not_elem_of_nil. Qed.

Section unlink_step.
Context (d0 : gmap Z inode_map) (l1 : requests) (v : gmap Z inode_map * requests) (past : list (Z * nat))
  (sid : Z) (i : nat) (m : inode_map) (x : MetaProcessInfoData).
Context (Hrm : removed d0 l1 v past) (Hi : i ∉ past.*2) (Hm : v.1 !! sid = Some m) (Hx : l1 !! i = Some x).

Lemma lookup_past sid' j y : (sid', j) ∈ past → <[i := y]> v.2 !! j = v.2 !! j.
Proof. intros Hin. rewrite list_lookup_insert_ne; [done|]. apply not_eq_sym. by eapply (past_ne past i). Qed.

Lemma lookup_new y : <[i := y]> v.2 !! i = Some y.
Proof.
  apply list_lookup_insert_eq. pose proof (rm_rest _ _ _ _ Hrm i Hi) as Hv. rewrite Hx in Hv. by eapply lookup_lt_Some.
Qed.

Lemma rm_done_past (l' : requests) sid' j y :
  (∀ j, j ≠ i → l' !! j = v.2 !! j) → (sid', j) ∈ past → l1 !! j = Some y →
  ∃ y', l' !! j = Some y' ∧
    ((y' = y <| errorCode := FILE_NOT_EXISTS |> ∧ (cell d0 sid' (req_key y) = None ∨
        ∃ k z, (sid', k) ∈ past ++ [(sid, i)] ∧ k ≠ j ∧ l1 !! k = Some z ∧ req_key z = req_key y)) ∨
     ∃ r, cell d0 sid' (req_key y) = Some r ∧ y' = unlink_fill r y).
Proof.
  intros Hl' Hin Hy. destruct (rm_done _ _ _ _ Hrm sid' j y Hin Hy) as (y' & Hy' & Hc). exists y'.
  rewrite Hl' by (by eapply (past_ne past i)). split; [done|].
  destruct Hc as [(-> & [?|(k & z & ? & ? & ? & ?)])|?]; [left; split; [done|by left]| |by right].
  left. split; [done|]. right. exists k, z. split_and!; try done. apply elem_of_app. by left.
Qed.

(** The request removes its row. *)
Lemma removed_row r :
  target_row m x = Some r →
  removed d0 l1 (<[sid := delete (req_key x) m]> v.1, <[i := unlink_fill r x]> v.2) (past ++ [(sid, i)]).
Proof.
  intros Ht. pose proof Hrm as [Hdom Hgone Hkept Honly Hdone Honce Hrest].
  assert (cell v.1 sid (req_key x) = Some r) as Hcell by (unfold cell; by rewrite Hm).
  assert (∀ sid' k, cell (<[sid := delete (req_key x) m]> v.1) sid' k =
    if decide (sid' = sid ∧ k = req_key x) then None else cell v.1 sid' k) as Hc.
  { intros sid' k. rewrite cell_insert. destruct (decide (sid = sid')) as [<-|Hne].
    - destruct (decide (k = req_key x)) as [->|Hk]; [by rewrite decide_True, lookup_delete_eq|].
      rewrite decide_False by (by intros [_ ?]). rewrite lookup_delete_ne by done. unfold cell. by rewrite Hm.
    - rewrite decide_False; [done|]. by intros [-> _]. }
  split; simpl.
  - intros sid' Hs. destruct (decide (sid = sid')) as [<-|]; [by rewrite lookup_insert_eq|].
    rewrite lookup_insert_ne by done. auto.
  - intros sid' j y Hin Hy. rewrite Hc. destruct (decide _) as [|Hn]; [done|].
    apply (past_snoc past sid i) in Hin as [Hin|[-> ->]]; [eauto|]. exfalso. apply Hn. rewrite Hx in Hy. by simplify_eq.
  - intros sid' k r'. rewrite Hc. destruct (decide _); [done|]. apply Hkept.
  - intros sid' k. rewrite Hc. destruct (decide _) as [[-> ->]|Hn].
    + intros _. exists i, x, r. split_and!; try done; [apply elem_of_app; right; by left|by apply Hkept|apply lookup_new].
    + intros Hne. destruct (Honly sid' k Hne) as (j & y & r' & Hin & ? & ? & ? & ?). exists j, y, r'.
      split_and!; try done; [apply elem_of_app; by left|]. by rewrite (lookup_past sid').
  - intros sid' j y Hin Hy. apply (past_snoc past sid i) in Hin as [Hin|[-> ->]].
    + apply rm_done_past; [|done|done]. intros k Hk. by rewrite list_lookup_insert_ne.
    + rewrite Hx in Hy. injection Hy as <-. eexists. split; [apply lookup_new|]. right. exists r. split; [by apply Hkept|done].
  - intros sid' a b y z y' z' Ha Hb Hy Hz Hk Hay Hbz Hey Hez.
    apply (past_snoc past sid i) in Ha as [Ha|[-> ->]]; apply (past_snoc past sid i) in Hb as [Hb|[Hs ->]]; subst; try done.
    + rewrite (lookup_past sid') in Hay, Hbz by done. by apply (Honce sid' a b y z y' z').
    + exfalso. pose proof (Hgone _ _ _ Ha Hy) as Hg. rewrite Hx in Hz. injection Hz as <-. rewrite Hk in Hg. congruence.
    + exfalso. pose proof (Hgone _ _ _ Hb Hz) as Hg. rewrite Hx in Hy. injection Hy as <-. rewrite <-Hk in Hg. congruence.
  - intros j [Hj Hji]%past_rest. rewrite list_lookup_insert_ne by done. by apply Hrest.
Qed.

(** The request finds no row. *)
Lemma removed_none :
  target_row m x = None →
  removed d0 l1 (v.1, <[i := x <| errorCode := FILE_NOT_EXISTS |>]> v.2) (past ++ [(sid, i)]).
Proof.
  intros Ht. pose proof Hrm as [Hdom Hgone Hkept Honly Hdone Honce Hrest].
  assert (cell v.1 sid (req_key x) = None) as Hcell by (unfold cell; by rewrite Hm).
  split; simpl; try done.
  - intros sid' j y Hin Hy. apply (past_snoc past sid i) in Hin as [Hin|[-> ->]]; [eauto|]. rewrite Hx in Hy. by simplify_eq.
  - intros sid' k Hne. destruct (Honly sid' k Hne) as (j & y & r' & Hin & ? & ? & ? & ?). exists j, y, r'.
    split_and!; try done; [apply elem_of_app; by left|]. by rewrite (lookup_past sid').
  - intros sid' j y Hin Hy. apply (past_snoc past sid i) in Hin as [Hin|[-> ->]].
    + apply rm_done_past; [|done|done]. intros k Hk. by rewrite list_lookup_insert_ne.
    + rewrite Hx in Hy. injection Hy as <-. eexists. split; [apply lookup_new|]. left. split; [done|].
      destruct (cell d0 sid (req_key x)) as [r|] eqn:E; [right|by left].
      destruct (Honly sid (req_key x)) as (j & y & r' & Hin & Hy & Hk & _); [congruence|].
      exists j, y. split_and!; try done; [apply elem_of_app; by left|by eapply (past_ne past i)].
  - intros sid' a b y z y' z' Ha Hb Hy Hz Hk Hay Hbz Hey Hez.
    apply (past_snoc past sid i) in Ha as [Ha|[-> ->]]; [|rewrite lookup_new in Hay; by simplify_eq].
    apply (past_snoc past sid i) in Hb as [Hb|[Hs ->]]; [|rewrite lookup_new in Hbz; by simplify_eq].
    rewrite (lookup_past sid') in Hay, Hbz by done. by apply (Honce sid' a b y z y' z').
  - intros j [Hj Hji]%past_rest. rewrite list_lookup_insert_ne by done. by apply Hrest.
Qed.

Lemma removed_step : removed d0 l1 (unlink_at v (sid, i)) (past ++ [(sid, i)]).
Proof.
  pose proof (rm_rest _ _ _ _ Hrm i Hi) as Hvi. rewrite Hx in Hvi.
  unfold unlink_at, unlink_ref. simpl. rewrite Hm. simpl. rewrite Hvi.
  destruct (target_row m x) as [r|] eqn:Ht; simpl.
  - by apply removed_row.
  - rewrite insert_id by done. by apply removed_none.
Qed.
End unlink_step.

Lemma unlink_at_dom v e sid : is_Some (v.1 !! sid) → is_Some ((unlink_at v e).1 !! sid).
Proof.
  unfold unlink_at. intros Hs. destruct (v.1 !! e.1) as [m|] eqn:E; [|done]. simpl.
  destruct (decide (e.1 = sid)) as [<-|]; [by rewrite lookup_insert_eq|by rewrite lookup_insert_ne].
Qed.

Lemma removed_all d0 l1 todo :
  NoDup todo.*2 → (∀ sid i, (sid, i) ∈ todo → is_Some (d0 !! sid) ∧ is_Some (l1 !! i)) →
  removed d0 l1 (foldl unlink_at (d0, l1) todo) todo.
Proof.
  induction todo as [|[sid i] todo IH] using rev_ind; intros Hnd Hall; [apply removed_nil|].
  rewrite foldl_app. simpl. rewrite fmap_app in Hnd. apply NoDup_app in Hnd as (Hnd & Hdisj & _).
  assert (removed d0 l1 (foldl unlink_at (d0, l1) todo) todo) as Hrm.
  { apply IH; [done|]. intros sid' j Hin. apply Hall, elem_of_app. by left. }
  destruct (Hall sid i) as [Hp [x Hx]]; [apply elem_of_app; right; by left|].
  apply (rm_dom _ _ _ _ Hrm) in Hp as [m Hm].
  apply (removed_step _ _ _ _ _ _ m x); try done. intros Hin. apply (Hdisj i Hin). by left.
Qed.

Lemma unlink_at_other v sid i j : i ≠ j → (unlink_at v (sid, i)).2 !! j = v.2 !! j.
Proof.
  intros Hne. unfold unlink_at, unlink_ref. simpl. destruct (v.1 !! sid); [|done]. simpl.
  destruct (v.2 !! i); [|done]. destruct (target_row _ _); simpl; by rewrite list_lookup_insert_ne.
Qed.

Lemma unlink_at_one_link v e : one_link v.1 → one_link (unlink_at v e).1.
Proof.
  intros Hone sid k r. unfold unlink_at. destruct (v.1 !! e.1) as [m|] eqn:Hm; [|apply Hone].
  simpl. rewrite cell_insert. destruct (decide _) as [<-|]; [|apply Hone]. unfold unlink_ref. simpl.
  assert (∀ k r, m !! k = Some r → it_st_nlink r = 1) as Hm1.
  { intros k' r' Hk. apply (Hone e.1 k'). unfold cell. by rewrite Hm. }
  destruct (v.2 !! e.2); [|apply Hm1]. destruct (target_row _ _); simpl; [|apply Hm1].
  intros [_ Hk]%lookup_delete_Some. by apply (Hm1 k).
Qed.

(** The loops of the handler, as one loop over the requests of all shards. *)
Lemma unlink_loop todo s :
  db_settled s → one_link (db s) → NoDup todo.*2 →
  (∀ sid i, (sid, i) ∈ todo → is_Some (db s !! sid) ∧ status (infos s) i = Some SUCCESS) →
  ∃ s', mfor todo (λ e, unlink_one e.1 e.2) s = Ret () s' ∧ foldl unlink_at (db s, infos s) todo = (db s', infos s').
Proof.
  revert s. induction todo as [|[sid i] todo IH]; intros s Hset Hone Hnd Hall; [by exists s|].
  rewrite fmap_cons in Hnd. cbn [snd] in Hnd. apply NoDup_cons in Hnd as [Hi Hnd].
  destruct (Hall sid i) as [[m Hm] Hs]; [by left|]. unfold status in Hs. apply fmap_Some in Hs as (x & Hx & Hsx).
  destruct (unlink_one_spec s sid m i x Hset Hone Hm Hx (symmetry Hsx)) as (s1 & Hs1 & Hset1 & Hat).
  assert (db s1 = (unlink_at (db s, infos s) (sid, i)).1 ∧ infos s1 = (unlink_at (db s, infos s) (sid, i)).2)
    as [Hd1 Hi1] by by rewrite Hat.
  cbn [mfor fst snd foldl]. erewrite bind_ret by exact Hs1. rewrite Hat. apply IH; [done| |done|].
  - rewrite Hd1. by apply unlink_at_one_link.
  - intros sid' j Hin. rewrite Hd1, Hi1. destruct (Hall sid' j) as [Hp Hst]; [by right|].
    split; [by apply unlink_at_dom|]. unfold status. rewrite unlink_at_other; [done|].
    intros ->. apply Hi. by apply elem_fst in Hin.
Qed.

Lemma mfor_app {S A} (l1 l2 : list A) (body : A → M S ()) s :
  mfor (l1 ++ l2) body s = (mfor l1 body ;; mfor l2 body) s.
Proof.
  revert s. induction l1 as [|x l1 IH]; intros s; [done|]. simpl. rewrite bind_assoc.
  unfold mbind at 1 2, M_bind. destruct (body x s); [|done..]. apply IH.
Qed.

Lemma mfor_flatten {S} table (body : Z → nat → M S ()) s :
  mfor table (λ entry, mfor entry.2 (body entry.1)) s = mfor (flatten table) (λ e, body e.1 e.2) s.
Proof.
  revert s. induction table as [|[sid q] table IH]; intros s; [done|].
  unfold flatten. rewrite fmap_cons. cbn [concat fst snd mfor]. fold (flatten table). rewrite mfor_app.
  assert (∀ s, mfor (pair sid <$> q) (λ e, body e.1 e.2) s = mfor q (body sid) s) as Hq.
  { clear. induction q as [|i q IHq]; intros s; [done|]. rewrite fmap_cons. cbn [mfor fst snd].
    unfold mbind, M_bind. destruct (body sid i s); [|done..]. apply IHq. }
  unfold mbind, M_bind. rewrite Hq. destruct (mfor q (body sid) s); [|done..]. apply IH.
Qed.

(** The answer of a request that removed [row]. *)
Definition reports (row : FormData_dfs_inode_table) (x : MetaProcessInfoData) : Prop :=
  errorCode x = (if S_ISREG (it_st_mode row) then SUCCESS else PROGRAM_ERROR) ∧
  (mi_inodeId x, st_size x, node_id x) = (it_st_ino row, it_st_size row, it_primary_nodeid row).

(** Two places in the same row of the same shard. *)
Definition same_row (l l' : location) : Prop :=
  loc_shardId l = loc_shardId l' ∧ (i64 (loc_pp l), loc_name l) = (i64 (loc_pp l'), loc_name l').

Definition unlink_result (d d' : gmap Z inode_map) (r : CuckooErrorCode + location) (x : MetaProcessInfoData) : Prop :=
  match r with
  | inl e => errorCode x = e
  | inr loc =>
      row_of d' loc = None ∧
      match row_of d loc with
      | None => errorCode x = FILE_NOT_EXISTS
      | Some row => errorCode x = FILE_NOT_EXISTS ∨ reports row x
      end
  end.

Lemma unlink_fill_code r x :
  it_st_nlink r = 1 → errorCode (unlink_fill r x) = if S_ISREG (it_st_mode r) then SUCCESS else PROGRAM_ERROR.
Proof.
  intros Hn. unfold unlink_fill. simpl. rewrite Hn.
  destruct (S_ISREG (it_st_mode r)); [rewrite decide_False by (by intros [?|?])|rewrite decide_True by (by right)]; done.
Qed.

Lemma lookup_routed_facts x loc x1 :
  routed false eq eq x loc x1 → req_key x1 = (i64 (loc_pp loc), loc_name loc).
Proof. by intros (ino & x2 & _ & <- & ->). Qed.

Lemma unlink_result_done d0 l1 v past i x loc x1 x' :
  removed d0 l1 v past → one_link d0 → (loc_shardId loc, i) ∈ past → l1 !! i = Some x1 → v.2 !! i = Some x' →
  routed false eq eq x loc x1 → unlink_result d0 v.1 (inr loc) x'.
Proof.
  intros Hrm Hone Hin Hx1 Hx' Hr. apply lookup_routed_facts in Hr. simpl.
  pose proof (rm_gone _ _ _ _ Hrm _ _ _ Hin Hx1) as Hg. rewrite Hr in Hg. split; [exact Hg|].
  destruct (rm_done _ _ _ _ Hrm _ _ _ Hin Hx1) as (y & Hy & Hc). rewrite Hx' in Hy. injection Hy as <-.
  change (row_of d0 loc) with (cell d0 (loc_shardId loc) (i64 (loc_pp loc), loc_name loc)). rewrite <-Hr.
  destruct Hc as [[-> _]|(r & Hcell & ->)].
  - destruct (cell d0 _ _); [by left|done].
  - rewrite Hcell. right. split; [|done]. apply unlink_fill_code. by eapply Hone.
Qed.

Section unlink_batch.
Context (s s1 : MetaState) (idxs : list nat) (table : list (Z * list nat)) (rt : nat → CuckooErrorCode + location).
Context (Hset : db_settled s1) (Hdb : db s1 = db s) (Hone : one_link (db s)) (Hnd : NoDup idxs) (Hq : queues rt idxs table).
Context (Hpresent : ∀ i loc, i ∈ idxs → rt i = inr loc → is_Some (db s !! loc_shardId loc)).
Context (Hreq : ∀ i, i ∈ idxs → ∃ x x1, infos s1 !! i = Some x1 ∧
  match rt i with
  | inl e => errorCode x1 = e
  | inr loc => errorCode x1 = SUCCESS ∧ routed false eq eq x loc x1
  end).

Lemma unlink_queued sid i :
  (sid, i) ∈ flatten table → i ∈ idxs ∧ ∃ loc x x1, rt i = inr loc ∧ loc_shardId loc = sid ∧
    is_Some (db s !! sid) ∧ infos s1 !! i = Some x1 ∧ errorCode x1 = SUCCESS ∧ routed false eq eq x loc x1.
Proof.
  intros (q & Hin & Hi)%flatten_elem. destruct (queued idxs _ rt Hq sid q i Hin Hi) as (Hii & loc & Hloc & <-).
  destruct (Hreq i Hii) as (x & x1 & Hx1 & Hc). rewrite Hloc in Hc. split; [done|]. exists loc, x, x1.
  destruct Hc. split_and!; try done. by apply (Hpresent i).
Qed.

Lemma unlink_batch :
  ∃ s', mfor table (λ entry, mfor entry.2 (unlink_one entry.1)) s1 = Ret () s' ∧
    removed (db s) (infos s1) (db s', infos s') (flatten table).
Proof.
  assert (NoDup (flatten table).*2) as Hfl by (rewrite flatten_snd; by eapply queues_NoDup).
  rewrite mfor_flatten. destruct (unlink_loop (flatten table) s1) as (s' & Hr & Hf); try done.
  - by rewrite Hdb.
  - intros sid i Hin. destruct (unlink_queued sid i Hin) as (_ & loc & x & x1 & _ & _ & Hp & Hx1 & He & _).
    rewrite Hdb. split; [done|]. unfold status. by rewrite Hx1, <-He.
  - exists s'. split; [done|]. rewrite <-Hf, Hdb. apply removed_all; [done|].
    intros sid i Hin. destruct (unlink_queued sid i Hin) as (_ & loc & x & x1 & _ & _ & Hp & Hx1 & _). eauto.
Qed.

Context (s' : MetaState) (Hrm : removed (db s) (infos s1) (db s', infos s') (flatten table)).

Lemma unlink_batch_result i : i ∈ idxs → ∃ x', infos s' !! i = Some x' ∧ unlink_result (db s) (db s') (rt i) x'.
Proof.
  intros Hi. destruct (Hreq i Hi) as (x & x1 & Hx1 & Hc). destruct (rt i) as [e|loc] eqn:E.
  - exists x1. split; [|done]. rewrite <-Hx1. apply (rm_rest _ _ _ _ Hrm). rewrite flatten_snd.
    intros Hin. apply (queue_elem rt idxs) in Hin; [|done|done]. by rewrite E in Hin.
  - destruct Hc as [_ Hr]. pose proof (queue_of idxs table rt Hq i loc Hi E) as Hin.
    destruct (rm_done _ _ _ _ Hrm _ _ _ Hin Hx1) as (x' & Hx' & _). exists x'. split; [done|].
    by apply (unlink_result_done (db s) (infos s1) (db s', infos s') (flatten table) i x loc x1 x').
Qed.

Lemma unlink_batch_once i j x' y' loc loc' :
  i ∈ idxs → j ∈ idxs → rt i = inr loc → rt j = inr loc' → same_row loc loc' → infos s' !! i = Some x' → infos s' !! j = Some y' →
  errorCode x' ≠ FILE_NOT_EXISTS → errorCode y' ≠ FILE_NOT_EXISTS → i = j.
Proof.
  intros Hi Hj Hri Hrj [Hsh Hkey] Hx' Hy' Hex Hey.
  destruct (Hreq i Hi) as (x & x1 & Hx1 & Hc). rewrite Hri in Hc. destruct Hc as [_ Hkx%lookup_routed_facts].
  destruct (Hreq j Hj) as (y & y1 & Hy1 & Hc). rewrite Hrj in Hc. destruct Hc as [_ Hky%lookup_routed_facts].
  apply (rm_once _ _ _ _ Hrm (loc_shardId loc) i j x1 y1 x' y'); try done; [by eapply queue_of|rewrite Hsh; by eapply queue_of|congruence].
Qed.

(** A row that was there is reported by one of the requests for it. *)
Lemma unlink_batch_reported i loc row : i ∈ idxs → rt i = inr loc → row_of (db s) loc = Some row →
  ∃ j loc' y', j ∈ idxs ∧ rt j = inr loc' ∧ same_row loc' loc ∧ infos s' !! j = Some y' ∧ reports row y'.
Proof.
  intros Hi Hl Hrow. destruct (Hreq i Hi) as (x & x1 & Hx1 & Hc). rewrite Hl in Hc. destruct Hc as [_ Hk%lookup_routed_facts].
  pose proof (rm_gone _ _ _ _ Hrm _ _ _ (queue_of idxs table rt Hq i loc Hi Hl) Hx1) as Hg. rewrite Hk in Hg.
  destruct (rm_only _ _ _ _ Hrm (loc_shardId loc) (i64 (loc_pp loc), loc_name loc)) as (j & y & r & Hin & Hy & Hky & Hr & Hy').
  { simpl in *. rewrite Hg. change (cell _ _ _) with (row_of (db s) loc). by rewrite Hrow. }
  destruct (unlink_queued _ _ Hin) as (Hj & loc' & z & z1 & Hl' & Hsh & _ & Hz1 & _ & Hrz%lookup_routed_facts).
  change (row_of (db s) loc = Some r) in Hr. rewrite Hrow in Hr. injection Hr as <-. rewrite Hy in Hz1. injection Hz1 as <-.
  exists j, loc', (unlink_fill row y). split_and!; try done; [split; congruence|]. split; [|done].
  apply unlink_fill_code. by apply (Hone (loc_shardId loc) (i64 (loc_pp loc), loc_name loc)).
Qed.
End unlink_batch.

(** (C15) Unlinking a batch of files, none of which has more than one link
    (there are no hard links): every request gets the error of its path, or its
    row is gone afterwards.  A request whose row was not there reports
    FILE_NOT_EXISTS.  Of the requests for a row that was there exactly one reports
    the row, with inode id, size and node, and the others report FILE_NOT_EXISTS.
    No other row changes.  (An entry that is no regular file is removed all the
    same; the request then reports PROGRAM_ERROR.) *)
Theorem CuckooUnlinkHandle_removes D0 t rows s idxs :
  server_ready D0 t rows s → requests_ok s idxs → one_link (db s) →
  let goes_to x := route LocalServerId D0 t rows VERIFY_PATH_VALIDITY_REQUIREMENT_MUST_BE_FILE false (path x) in
  outcome_ok (CuckooUnlinkHandle LocalServerId idxs s)
    (λ _ s',
       (∀ i x, i ∈ idxs → infos s !! i = Some x → ∃ x', infos s' !! i = Some x' ∧
          unlink_result (db s) (db s') (goes_to x) x') ∧
       (∀ i x loc row, i ∈ idxs → infos s !! i = Some x → goes_to x = inr loc → row_of (db s) loc = Some row →
          ∃ j y loc' y', j ∈ idxs ∧ infos s !! j = Some y ∧ goes_to y = inr loc' ∧ same_row loc' loc ∧
            infos s' !! j = Some y' ∧ reports row y' ∧
            ∀ k z loc'' z', k ∈ idxs → k ≠ j → infos s !! k = Some z → goes_to z = inr loc'' → same_row loc'' loc →
              infos s' !! k = Some z' → errorCode z' = FILE_NOT_EXISTS) ∧
       (∀ sid k, cell (db s') sid k ≠ cell (db s) sid k →
          ∃ i x loc, i ∈ idxs ∧ infos s !! i = Some x ∧ goes_to x = inr loc ∧
            sid = loc_shardId loc ∧ k = (i64 (loc_pp loc), loc_name loc)))
    (gives_up D0) (waits s).
Proof.
  intros Hs [Hnd Hok] Hone goes_to. unfold CuckooUnlinkHandle.
  eapply outcome_ok_bind.
  { apply (prepare_spec LocalServerId D0 t rows s 0 false (λ _, mret ()) false eq eq); try apply Hs; try done.
    - apply lookup_parse_law, Hs.
    - apply no_fill_law.
    - by apply server_batch. }
  intros table s1 (Hb & Hq & Hall).
  assert (db s1 = db s) as Hdb by (unfold db; by rewrite (bi_rels _ _ _ _ _ Hb)).
  apply (queues_order _ _ _ (hash_seq_order table)) in Hq; [|symmetry; apply hash_seq_order_perm].
  set (rt := routes LocalServerId D0 t rows false VERIFY_PATH_VALIDITY_REQUIREMENT_MUST_BE_FILE (infos s)) in *.
  assert (∀ i x, infos s !! i = Some x → rt i = goes_to x) as Hrt by (intros i x Hx; unfold rt, routes; by rewrite Hx).
  assert (∀ i, i ∈ idxs → ∃ x x1, infos s1 !! i = Some x1 ∧ match rt i with
    | inl e => errorCode x1 = e | inr loc => errorCode x1 = SUCCESS ∧ routed false eq eq x loc x1 end) as Hreq.
  { intros i Hi. specialize (Hall i). rewrite decide_True in Hall by done. destruct Hall as (x & x1 & Hx & Hx1 & _ & Ha).
    exists (reset VERIFY_PATH_VALIDITY_REQUIREMENT_MUST_BE_FILE x), x1. split; [done|]. rewrite (Hrt i x Hx). exact Ha. }
  destruct (unlink_batch s s1 idxs (hash_seq_order table) rt) as (s' & Hr & Hrm); try done.
  { unfold db_settled. rewrite (bi_rels _ _ _ _ _ Hb). apply Hs. }
  { intros i loc Hi Hl. destruct (Hok i Hi) as (x & Hx & _). rewrite (Hrt i x Hx) in Hl. by eapply route_present. }
  rewrite Hr. simpl. split_and!.
  - intros i x Hi Hx. rewrite <-(Hrt i x Hx). by apply (unlink_batch_result s s1 idxs (hash_seq_order table)).
  - intros i x loc row Hi Hx Hgx Hrow. rewrite <-(Hrt i x Hx) in Hgx.
    assert (∀ k loc, k ∈ idxs → rt k = inr loc → is_Some (db s !! loc_shardId loc)) as Hpre.
    { intros k l Hk Hl. destruct (Hok k Hk) as (y & Hy & _). rewrite (Hrt k y Hy) in Hl. by eapply route_present. }
    destruct (unlink_batch_reported s s1 idxs (hash_seq_order table) rt Hone Hq Hpre Hreq s' Hrm i loc row Hi Hgx Hrow)
      as (j & loc' & y' & Hj & Hl' & Hsame & Hy' & Hrep).
    destruct (Hok j Hj) as (y & Hy & _). exists j, y, loc', y'. rewrite <-(Hrt j y Hy). split_and!; try done.
    intros k z loc'' z' Hk Hne Hz Hgz [Hs1 Hs2] Hz'. rewrite <-(Hrt k z Hz) in Hgz. destruct (decide (errorCode z' = FILE_NOT_EXISTS)) as [|He]; [done|].
    exfalso. apply Hne. destruct Hsame as [Hs3 Hs4].
    apply (unlink_batch_once s s1 idxs (hash_seq_order table) rt Hq Hreq s' Hrm k j z' y' loc'' loc'); try done; [split; congruence|].
    destruct Hrep as [-> _]. by destruct (S_ISREG _).
  - intros sid k Hne. destruct (rm_only _ _ _ _ Hrm sid k Hne) as (i & x1 & r & Hin & Hx1 & <- & _).
    apply flatten_elem in Hin as (q & Hin & Hiq). destruct (queued idxs _ rt Hq sid q i Hin Hiq) as (Hi & loc & Hloc & <-).
    destruct (Hreq i Hi) as (x & x2 & Hx2 & Hc). rewrite Hloc in Hc. destruct Hc as [_ Hk%lookup_routed_facts].
    destruct (Hok i Hi) as (x0 & Hx0 & _). exists i, x0, loc. rewrite <-(Hrt i x0 Hx0).
    split_and!; try done. rewrite <-Hk. congruence.
Qed.
End file_spec.
