(* ===== verification/ReadDir.v ===== *)
(** * Listing a directory page by page

    CuckooReadDirHandle answers with at most maxReadCount entries and a cursor
    (the shard it was reading and the last name).  The pages of a directory
    are consecutive pieces of one listing: shard after shard, in the order of
    the index of each shard. *)

From S2P Require Import Prelude Pg Shard RWLock DirHash PathParse Inode Route FileOps FileSpec.

Section read_dir.
Context `{!PgEnv, !Collation, !DirHashEnv, !PgRelation dir_key id_text_le,
          !PgRelation range_point Z.le, !PgRelation inode_key id_text_le}.
Context (LocalServerId : Z).

Abbreviation MM := (M MetaState).

(** ** One shard *)

Section shard_scan.
Context (directoryId : Z).

Definition lowerId : Z := i64 (CombineParentIdWithPartId directoryId 0).
Definition upperId : Z := i64 (CombineParentIdWithPartId directoryId PART_ID_MASK).
Definition row_id (r : FormData_dfs_inode_table) : Z := i64 (it_parentid_partid r).

(** The rows of the directory in a shard, in index order. *)
Definition entries (t : rel inode_key id_text_le) : list FormData_dfs_inode_table :=
  filter (λ r, scan_for NEW_SHARD directoryId ""%string r = true) (index_scan t).

(** A row is kept under the part its name hashes to. *)
Definition well_named (r : FormData_dfs_inode_table) : Prop :=
  ∃ pid, it_parentid_partid r = CombineParentIdWithPartId pid (HashPartId (it_name r)).

Definition row_lt (a b : FormData_dfs_inode_table) : Prop :=
  id_text_le (inode_key a) (inode_key b) ∧ inode_key a ≠ inode_key b.

Lemma i64_Combine d :
  ∃ b, ∀ p, 0 ≤ p < 2 ^ 13 → i64 (CombineParentIdWithPartId d p) = b * 2 ^ 13 + p.
Proof.
  set (q := d mod 2 ^ 51). assert (0 ≤ q < 2 ^ 51) as Hq by (apply Z.mod_pos_bound; lia).
  exists (if decide (q < 2 ^ 50) then q else q - 2 ^ 51). intros p Hp. rewrite Combine_sum by lia. fold q. unfold i64.
  destruct (decide (q < 2 ^ 50)).
  - rewrite Z.mod_small by lia. lia.
  - rewrite <-(Z.mod_unique (q * 2 ^ 13 + p + 2 ^ 63) (2 ^ 64) 1 (q * 2 ^ 13 + p - 2 ^ 63)) by lia. lia.
Qed.

(** Where the rows of the directory are in the index. *)
Lemma entry_id r :
  well_named r → lowerId ≤ row_id r ≤ upperId →
  row_id r = i64 (CombineParentIdWithPartId directoryId (HashPartId (it_name r))).
Proof.
  unfold lowerId, upperId, row_id, PART_ID_MASK. intros [pid ->].
  destruct (i64_Combine pid) as [b Hb]. destruct (i64_Combine directoryId) as [c Hc].
  pose proof (HashPartId_range (it_name r)). rewrite Hb, !Hc by lia. lia.
Qed.

Lemma elem_entries t r : r ∈ entries t ↔ r ∈ index_scan t ∧ lowerId ≤ row_id r ≤ upperId.
Proof.
  unfold entries. rewrite list_elem_of_filter. simpl. rewrite bool_decide_eq_true. unfold lowerId, upperId, row_id.
  split; by intros [? ?].
Qed.

Lemma StronglySorted_filter {A} (R : relation A) (P : A → Prop) `{!∀ x, Decision (P x)} l :
  StronglySorted R l → StronglySorted R (filter P l).
Proof.
  induction 1 as [|x l Hs IH Hall]; [constructor|]. rewrite filter_cons. destruct (decide (P x)); [|done].
  constructor; [done|]. apply Forall_forall. intros y [_ Hy]%list_elem_of_filter. rewrite Forall_forall in Hall. auto.
Qed.

Lemma StronglySorted_lookup {A} (R : relation A) l :
  (∀ i j a b, l !! i = Some a → l !! j = Some b → (i < j)%nat → R a b) → StronglySorted R l.
Proof.
  induction l as [|x l IH]; intros Hl; constructor.
  - apply IH. intros i j a b Ha Hb Hij. apply (Hl (S i) (S j)); [done|done|lia].
  - apply Forall_forall. intros y [j Hj]%list_elem_of_lookup. apply (Hl 0%nat (S j)); [done|done|lia].
Qed.

Lemma scan_row_lt t : StronglySorted row_lt (index_scan t).
Proof. apply StronglySorted_lookup. intros i j a b. apply scan_lookup_ne. Qed.

(** A sorted list that first satisfies P and then Q. *)
Lemma sorted_filter_app {A} (R : relation A) (P Q : A → Prop) `{!∀ x, Decision (P x), !∀ x, Decision (Q x)} l :
  StronglySorted R l → (∀ x, x ∈ l → P x ∨ Q x) → (∀ x, P x → ¬ Q x) → (∀ x y, R x y → Q x → ¬ P y) →
  filter P l ++ filter Q l = l.
Proof.
  intros Hs Hor Hex Hmon. induction Hs as [|x l Hs IH Hall]; [done|]. rewrite !filter_cons.
  assert (filter P l ++ filter Q l = l) as Hl by (apply IH; intros y Hy; apply Hor; by right).
  destruct (decide (P x)) as [HP|HP].
  - rewrite (decide_False (P := Q x)) by by apply Hex. simpl. by f_equal.
  - destruct (Hor x ltac:(by left)) as [?|HQ]; [done|]. rewrite decide_True by done.
    assert (filter P l = []) as HPl.
    { apply filter_none. intros y Hy. rewrite Forall_forall in Hall. eapply Hmon; [by apply Hall|done]. }
    rewrite HPl in Hl |- *. simpl in *. by f_equal.
Qed.

(** After the entry [e], the two scans for its shard give what follows it. *)
Lemma scans_after t before e after :
  (∀ r, r ∈ entries t → well_named r) → entries t = before ++ e :: after →
  filter (λ r, scan_for SAME_ID_GREATER_NAME directoryId (it_name e) r = true) (index_scan t) ++
  filter (λ r, scan_for GREATER_ID directoryId (it_name e) r = true) (index_scan t) = after.
Proof.
  intros Hwf Hsplit. set (id0 := i64 (CombineParentIdWithPartId directoryId (HashPartId (it_name e)))).
  assert (∀ r, r ∈ entries t → lowerId ≤ row_id r ≤ upperId) as Hin by (intros r Hr; by apply elem_entries in Hr as [_ ?]).
  assert (e ∈ entries t) as He by (rewrite Hsplit; apply elem_of_app; right; by left).
  assert (row_id e = id0) as Hid by (apply entry_id; auto).
  pose proof (Hin e He) as Hrange. rewrite Hid in Hrange.
  assert (∀ r, scan_for SAME_ID_GREATER_NAME directoryId (it_name e) r = true ↔
    row_id r = id0 ∧ text_le (it_name e) (it_name r) ∧ it_name r ≠ it_name e) as Hsame.
  { intros r. simpl. rewrite andb_true_iff, !bool_decide_eq_true. done. }
  assert (∀ r, scan_for GREATER_ID directoryId (it_name e) r = true ↔ id0 < row_id r ≤ upperId) as Hgt.
  { intros r. simpl. rewrite bool_decide_eq_true. done. }
  assert (StronglySorted row_lt (entries t)) as Hsorted by apply StronglySorted_filter, scan_row_lt.
  rewrite Hsplit in Hsorted. apply StronglySorted_app in Hsorted as (Hbe & _ & Hsa).
  apply StronglySorted_cons in Hsa as [Hea Hsa]. rewrite Forall_forall in Hea.
  assert (∀ (P : FormData_dfs_inode_table → Prop) `{!∀ x, Decision (P x)},
    (∀ r, P r → lowerId ≤ row_id r ≤ upperId) → (∀ r, row_lt r e → ¬ P r) → ¬ P e →
    filter P (index_scan t) = filter P after) as Hfil.
  { intros P HP Hnew Hbefore Hnot. transitivity (filter P (entries t)).
    - unfold entries. rewrite list_filter_filter_l; [done|]. intros r Hr. simpl. apply bool_decide_eq_true. by apply Hnew.
    - rewrite Hsplit, filter_app, filter_cons, decide_False by done.
      rewrite filter_none; [done|]. intros r Hr. apply Hbefore, Hbe; [done|by left]. }
  assert (∀ r, row_lt r e → row_id r < id0 ∨ (row_id r = id0 ∧ ¬ text_le (it_name e) (it_name r))) as Hlt.
  { intros r [[Hl|[Hl Ht]] Hne]; simpl in Hl; unfold row_id in *; [left; lia|right]. split; [lia|]. intros Ht'. apply Hne.
    unfold inode_key. f_equal; [done|]. by apply (anti_symm text_le). }
  rewrite !Hfil.
  - apply (sorted_filter_app row_lt); [done|..].
    + intros r Hr. rewrite Hsame, Hgt. destruct (Hin r) as [_ Hu]; [rewrite Hsplit; apply elem_of_app; right; by right|].
      destruct (Hea r Hr) as [[Hl|[Hl Ht]] Hne]; unfold row_id in *; simpl in Hl; [right; lia|left].
      split_and!; [lia|done|]. intros Hn. apply Hne. unfold inode_key. by f_equal.
    + intros r. rewrite Hsame, Hgt. lia.
    + intros a b [Hl _]. rewrite Hsame, Hgt. intros [? _] [Hb _]. unfold row_id in *. destruct Hl as [Hl|[Hl _]]; simpl in Hl; lia.
  - intros r. rewrite Hgt. lia.
  - intros r Hr. rewrite Hgt. destruct (Hlt r Hr); lia.
  - rewrite Hgt. lia.
  - intros r. rewrite Hsame. lia.
  - intros r Hr. rewrite Hsame. destruct (Hlt r Hr) as [?|[_ ?]]; [lia|]. by intros (_ & ? & _).
  - rewrite Hsame. by intros (_ & _ & ?).
Qed.
End shard_scan.

(** ** The listing *)

Section listing.
Context (s : MetaState) (directoryId : Z).

(** The entries of one shard, when this server serves it. *)
Definition shard_entries (row : FormData_cuckoo_shard_table) : list FormData_dfs_inode_table :=
  if decide (server_id row = LocalServerId) then
    match inode_rels s !! range_point row with Some t => entries directoryId t | None => [] end
  else [].

(** All entries, each with the index of its shard. *)
Fixpoint listing_from (j : Z) (shards : list FormData_cuckoo_shard_table) : list (Z * FormData_dfs_inode_table) :=
  match shards with
  | [] => []
  | row :: shards' => (pair j <$> shard_entries row) ++ listing_from (j + 1) shards'
  end.

Definition shards_open (shards : list FormData_cuckoo_shard_table) : Prop :=
  ∀ row, row ∈ shards → server_id row = LocalServerId → is_Some (inode_rels s !! range_point row).

Lemma read_rows_spec rows maxReadCount acc readCount :
  readCount < maxReadCount →
  read_rows rows maxReadCount acc readCount =
    (acc ++ (read_result <$> take (Z.to_nat (maxReadCount - readCount)) rows),
     readCount + Z.of_nat (length (take (Z.to_nat (maxReadCount - readCount)) rows))).
Proof.
  revert acc readCount. induction rows as [|r rows IH]; intros acc readCount Hlt; simpl.
  { rewrite take_nil. simpl. rewrite app_nil_r. f_equal. lia. }
  destruct (Z.to_nat (maxReadCount - readCount)) as [|n] eqn:E; [lia|]. simpl.
  destruct (decide (readCount + 1 >= maxReadCount)) as [Hge|Hge].
  - assert (n = 0%nat) as -> by lia. simpl. f_equal.
  - rewrite IH by lia. replace (Z.to_nat (maxReadCount - (readCount + 1))) with n by lia.
    rewrite <-app_assoc. f_equal. lia.
Qed.

(** What is left to read from a shard in a state of the search. *)
Definition left_in (state : StreamSearchState) (lastFileName : string) (t : rel inode_key id_text_le) : list FormData_dfs_inode_table :=
  match state with
  | NEW_SHARD => entries directoryId t
  | GREATER_ID => filter (λ r, scan_for GREATER_ID directoryId lastFileName r = true) (index_scan t)
  | SAME_ID_GREATER_NAME =>
      filter (λ r, scan_for SAME_ID_GREATER_NAME directoryId lastFileName r = true) (index_scan t) ++
      filter (λ r, scan_for GREATER_ID directoryId lastFileName r = true) (index_scan t)
  end.

Definition left_from (state : StreamSearchState) (lastFileName : string) (j : Z)
    (shards : list FormData_cuckoo_shard_table) : list (Z * FormData_dfs_inode_table) :=
  match state, shards with
  | NEW_SHARD, _ => listing_from j shards
  | _, [] => []
  | _, row :: shards' =>
      (pair j <$> match inode_rels s !! range_point row with Some t => left_in state lastFileName t | None => [] end)
        ++ listing_from (j + 1) shards'
  end.

(** A page: up to n entries, and the shard the search is in after a full page. *)
Definition page (n : nat) (l : list (Z * FormData_dfs_inode_table)) : list OneReadDirResult := read_result <$> (take n l).*2.

Definition steps_left (state : StreamSearchState) (shards : list FormData_cuckoo_shard_table) : nat :=
  (match state with SAME_ID_GREATER_NAME => 1 | _ => 0 end + length shards + 1)%nat.

Lemma listing_app pre post j : listing_from j (pre ++ post) = listing_from j pre ++ listing_from (j + Z.of_nat (length pre)) post.
Proof.
  revert j. induction pre as [|row pre IH]; intros j; simpl; [f_equal; lia|]. rewrite IH, <-app_assoc.
  do 3 f_equal. lia.
Qed.

Section loop.
Context (shards : list FormData_cuckoo_shard_table) (maxReadCount : Z) (lastFileName : string).
Context (Hopen : shards_open shards).

Definition loop_result (fuel : nat) (state : StreamSearchState) (pre post : list FormData_cuckoo_shard_table)
    (acc : list OneReadDirResult) (readCount : Z) (l : list (Z * FormData_dfs_inode_table)) : Prop :=
  let n := Z.to_nat (maxReadCount - readCount) in
  ∃ j, readdir_loop LocalServerId fuel shards directoryId maxReadCount lastFileName state (Z.of_nat (length pre)) acc readCount s =
      Ret (acc ++ page n l, readCount + Z.of_nat (length (take n l)), j) s ∧
    ((n ≤ length l)%nat → fst <$> last (take n l) = Some j).

(** The rows [f] of the shard at hand are read, then what follows. *)
Lemma loop_step fuel state pre post row post' t acc readCount l' state' pre' :
  shards = pre ++ row :: post → server_id row = LocalServerId → inode_rels s !! range_point row = Some t →
  readCount < maxReadCount → state' = next_state state →
  Z.of_nat (length pre') = (if decide (state' = NEW_SHARD) then Z.of_nat (length pre) + 1 else Z.of_nat (length pre)) →
  let f := filter (λ r, scan_for state directoryId lastFileName r = true) (index_scan t) in
  (∀ acc readCount, readCount < maxReadCount → loop_result fuel state' pre' post' acc readCount l') →
  loop_result (S fuel) state pre (row :: post) acc readCount ((pair (Z.of_nat (length pre)) <$> f) ++ l').
Proof.
  intros Hsh Hloc Ht Hlt -> Hpre f Hrest. unfold loop_result. set (n := Z.to_nat (maxReadCount - readCount)).
  cbn [readdir_loop]. rewrite decide_True by (rewrite Hsh, length_app; simpl; lia).
  assert (shards !! length pre = Some row) as Hlk by (rewrite Hsh; by apply list_lookup_middle).
  rewrite Nat2Z.id, Hlk, decide_False by (by intros Hn; apply Hn).
  unfold open_inode_rel. rewrite bind_assoc, bind_mget, Ht, bind_mret.
  rewrite read_rows_spec by done. fold f. fold n.
  destruct (decide (n ≤ length f)%nat) as [Hn|Hn].
  - exists (Z.of_nat (length pre)). rewrite length_take, Nat.min_l by done.
    rewrite decide_True by lia. rewrite !take_app_le by (by rewrite length_fmap). split.
    + unfold page. rewrite take_app_le by (by rewrite length_fmap). rewrite <-fmap_take, snd_pair.
      by rewrite length_fmap, length_take, Nat.min_l.
    + intros _. rewrite <-fmap_take, fmap_last. destruct (last (take n f)) eqn:El; [done|].
      apply last_None in El. apply (f_equal length) in El. rewrite length_take in El. simpl in El. lia.
  - rewrite (take_ge f) by lia. rewrite decide_False by lia.
    destruct (Hrest (acc ++ (read_result <$> f)) (readCount + Z.of_nat (length f))) as (j & Hr & Hj); [lia|].
    exists j. rewrite Hpre in Hr. rewrite Hr.
    replace (Z.to_nat (maxReadCount - (readCount + Z.of_nat (length f)))) with (n - length f)%nat in * by lia.
    rewrite take_app_ge by (rewrite length_fmap; lia). rewrite length_fmap. split.
    + unfold page. rewrite take_app_ge by (rewrite length_fmap; lia). rewrite length_fmap, !fmap_app, snd_pair.
      rewrite <-app_assoc, length_app, length_fmap. do 3 f_equal. lia.
    + rewrite length_app, length_fmap. intros Hl. rewrite last_app. destruct (last (take (n - length f) l')) eqn:El.
      * rewrite <-Hj by lia. done.
      * apply last_None in El. apply (f_equal length) in El. rewrite length_take in El. simpl in El. lia.
Qed.

Lemma left_NEW j post : left_from NEW_SHARD lastFileName j post = listing_from j post.
Proof. by destruct post. Qed.

Lemma readdir_loop_spec fuel state pre post acc readCount :
  shards = pre ++ post → readCount < maxReadCount →
  (state ≠ NEW_SHARD → ∃ row, head post = Some row ∧ server_id row = LocalServerId) →
  (steps_left state post ≤ fuel)%nat →
  loop_result fuel state pre post acc readCount (left_from state lastFileName (Z.of_nat (length pre)) post).
Proof.
  revert state pre post acc readCount. induction fuel as [|fuel IH]; intros state pre post acc readCount Hsh Hlt Hst Hfuel;
    [unfold steps_left in Hfuel; lia|].
  destruct post as [|row post].
  { assert (state = NEW_SHARD) as -> by (destruct (decide (state = NEW_SHARD)) as [|Hn]; [done|]; by destruct (Hst Hn) as (? & ? & _)).
    exists (Z.of_nat (length pre)). rewrite app_nil_r in Hsh. cbn [readdir_loop]. rewrite decide_False by (rewrite Hsh; lia).
    simpl. unfold page. rewrite take_nil. simpl. rewrite app_nil_r, Z.add_0_r. split; [done|lia]. }
  destruct (decide (server_id row = LocalServerId)) as [Hloc|Hloc].
  - destruct (Hopen row) as [t Ht]; [rewrite Hsh; apply elem_of_app; right; by left|done|].
    assert (∀ acc readCount, readCount < maxReadCount → loop_result fuel NEW_SHARD (pre ++ [row]) post acc readCount
      (listing_from (Z.of_nat (length pre) + 1) post)) as Hnext.
    { intros acc' rc' Hlt'. replace (Z.of_nat (length pre) + 1) with (Z.of_nat (length (pre ++ [row]))) by (rewrite length_app; simpl; lia).
      rewrite <-left_NEW. apply IH; [by rewrite <-app_assoc|done|done|]. unfold steps_left in *. simpl in *. destruct state; lia. }
    destruct state.
    + cbn [left_from]. rewrite Ht. cbn [left_in]. rewrite fmap_app, <-app_assoc.
      eapply (loop_step fuel SAME_ID_GREATER_NAME pre post row (row :: post) t _ _ _ GREATER_ID pre); try done.
      intros acc' rc' Hlt'. pose proof (IH GREATER_ID pre (row :: post) acc' rc' Hsh Hlt') as Hg.
      cbn [left_from] in Hg. rewrite Ht in Hg. apply Hg; [by exists row|]. unfold steps_left in *. simpl in *. lia.
    + cbn [left_from]. rewrite Ht. cbn [left_in].
      eapply (loop_step fuel GREATER_ID pre post row post t _ _ _ NEW_SHARD (pre ++ [row])); try done.
      rewrite length_app. simpl. lia.
    + cbn [left_from listing_from]. unfold shard_entries. rewrite decide_True by done. rewrite Ht.
      eapply (loop_step fuel NEW_SHARD pre post row post t _ _ _ NEW_SHARD (pre ++ [row])); try done.
      rewrite length_app. simpl. lia.
  - assert (state = NEW_SHARD) as ->.
    { destruct (decide (state = NEW_SHARD)) as [|Hn]; [done|]. destruct (Hst Hn) as (? & [= <-] & ?). done. }
    cbn [left_from listing_from]. unfold shard_entries. rewrite decide_False by done.
    destruct (IH NEW_SHARD (pre ++ [row]) post acc readCount) as (j & Hr & Hj);
      [by rewrite <-app_assoc|done|done|unfold steps_left in *; simpl in *; lia|].
    exists j. rewrite left_NEW, length_app in Hr, Hj. simpl in Hr, Hj.
    replace (Z.of_nat (length pre + 1)) with (Z.of_nat (length pre) + 1) in Hr, Hj by lia.
    split; [|exact Hj]. cbn [readdir_loop]. rewrite decide_True by (rewrite Hsh, length_app; simpl; lia).
    assert (shards !! length pre = Some row) as Hlk by (rewrite Hsh; by apply list_lookup_middle).
    rewrite Nat2Z.id, Hlk, decide_True by done. exact Hr.
Qed.
End loop.

(** The entries after a given one. *)
Lemma listing_after j0 shards k j e :
  shards_open shards → listing_from j0 shards !! k = Some (j, e) →
  ∃ pre row post t before after, shards = pre ++ row :: post ∧ j = j0 + Z.of_nat (length pre) ∧
    server_id row = LocalServerId ∧ inode_rels s !! range_point row = Some t ∧
    entries directoryId t = before ++ e :: after ∧
    drop (S k) (listing_from j0 shards) = (pair j <$> after) ++ listing_from (j + 1) post.
Proof.
  revert j0 k. induction shards as [|row shards IH]; intros j0 k Hop; [done|]. cbn [listing_from].
  destruct (decide (k < length (shard_entries row))%nat) as [Hk|Hk].
  - rewrite lookup_app_l by (by rewrite length_fmap). rewrite list_lookup_fmap_Some. intros (r & [= <- <-] & Hr).
    revert Hr Hk. unfold shard_entries. destruct (decide (server_id row = LocalServerId)) as [Hl|]; [|done].
    destruct (Hop row) as [t Ht]; [by left|done|]. rewrite Ht. intros Hr Hk.
    exists [], row, shards, t, (take k (entries directoryId t)), (drop (S k) (entries directoryId t)).
    split_and!; try done; [simpl; lia|by rewrite take_drop_middle|].
    rewrite drop_app_le by (rewrite length_fmap; lia). by rewrite fmap_drop.
  - rewrite lookup_app_r by (rewrite length_fmap; lia). rewrite length_fmap. intros Hlk.
    destruct (IH (j0 + 1) (k - length (shard_entries row))%nat) as (pre & row' & post & t & before & after & -> & -> & Hl & Ht & He & Hd);
      [intros r Hr; apply Hop; by right|done|].
    exists (row :: pre), row', post, t, before, after. split_and!; try done; [simpl; lia|].
    rewrite drop_app_ge by (rewrite length_fmap; lia). rewrite length_fmap.
    replace (S k - length (shard_entries row))%nat with (S (k - length (shard_entries row))) by lia. exact Hd.
Qed.
End listing.

Lemma listing_ext s s' d j shards : inode_rels s = inode_rels s' → listing_from s d j shards = listing_from s' d j shards.
Proof.
  intros Hr. revert j. induction shards as [|row shards IH]; intros j; [done|]. simpl. rewrite IH. unfold shard_entries.
  by rewrite Hr.
Qed.

(** ** The handler *)

(** A request whose cursor stands after the first n entries. *)
Definition at_position (l : list (Z * FormData_dfs_inode_table)) (n : nat) (x : MetaProcessInfoData) : Prop :=
  match n with
  | O => readDirLastShardIndex x = -1
  | S n' => ∃ j e, l !! n' = Some (j, e) ∧ readDirLastShardIndex x = j ∧ readDirLastFileName x = Some (it_name e)
  end.

Definition page_size (x : MetaProcessInfoData) : Z :=
  if decide (readDirMaxReadCount x = -1) then INT32_MAX else readDirMaxReadCount x.

Definition all_well_named (d : gmap Z (gmap (Z * string) FormData_dfs_inode_table)) : Prop :=
  ∀ sid k r, cell d sid k = Some r → well_named r.

Lemma entries_well_named s d sid t :
  all_well_named (db s) → inode_rels s !! sid = Some t → ∀ r, r ∈ entries d t → well_named r.
Proof.
  intros Hw Ht r Hr. apply elem_entries in Hr as [Hr _]. apply scan_elem in Hr. apply (Hw sid (inode_key r)).
  unfold cell, db. by rewrite lookup_fmap, Ht.
Qed.

(** The start of the search for a request, and what it leaves to read. *)
Definition start_state (x : MetaProcessInfoData) : StreamSearchState :=
  if bool_decide (readDirLastShardIndex x = -1) then NEW_SHARD else SAME_ID_GREATER_NAME.
Definition start_index (x : MetaProcessInfoData) : Z :=
  if bool_decide (readDirLastShardIndex x = -1) then 0 else readDirLastShardIndex x.
Definition start_name (x : MetaProcessInfoData) : option string :=
  if bool_decide (readDirLastShardIndex x = -1) then Some ""%string else readDirLastFileName x.

Lemma listing_index s d j0 shards k j e :
  shards_open s shards → 0 ≤ j0 → listing_from s d j0 shards !! k = Some (j, e) → 0 ≤ j.
Proof.
  intros Hop Hj Hk. destruct (listing_after s d j0 shards k j e Hop Hk) as (pre & _ & _ & _ & _ & _ & _ & -> & _). lia.
Qed.

Lemma start_at s d shards n x :
  shards_open s shards → all_well_named (db s) → (n ≤ length (listing_from s d 0 shards))%nat →
  at_position (listing_from s d 0 shards) n x →
  ∃ lastFileName pre post, start_name x = Some lastFileName ∧ shards = pre ++ post ∧ start_index x = Z.of_nat (length pre) ∧
    (start_state x ≠ NEW_SHARD → ∃ row, head post = Some row ∧ server_id row = LocalServerId) ∧
    left_from s d (start_state x) lastFileName (Z.of_nat (length pre)) post = drop n (listing_from s d 0 shards).
Proof.
  intros Hop Hw Hn Hp. unfold start_name, start_index, start_state. destruct n as [|n].
  - simpl in Hp. rewrite Hp, bool_decide_true by done. exists ""%string, [], shards. by split_and!.
  - destruct Hp as (j & e & Hk & Hj & Hname). pose proof (listing_index _ _ _ _ _ _ _ Hop (Z.le_refl 0) Hk) as Hj0.
    rewrite bool_decide_false by lia.
    destruct (listing_after s d 0 shards n j e Hop Hk) as (pre & row & post & t & before & after & -> & Hjp & Hl & Ht & He & Hd).
    exists (it_name e), pre, (row :: post). split_and!; try done; [lia|by exists row|].
    rewrite Hd. cbn [left_from]. rewrite Ht. cbn [left_in].
    rewrite (scans_after d t before e after); [|by eapply entries_well_named|done].
    by replace (Z.of_nat (length pre)) with j by lia.
Qed.

Lemma shard_data D0 t rows s0 s :
  Z.of_nat (length rows) ≤ SHARD_COUNT_MAX → batch_inv D0 t rows s0 s →
  ∃ sh, on_shard GetShardTableData s = Ret rows (s <| ms_shard := sh |>) ∧ batch_inv D0 t rows s0 (s <| ms_shard := sh |>).
Proof.
  intros Hlen [Hp Hx Hsh Hrows Hrels]. rewrite <-Hrows in Hlen. unfold on_shard, mzoom, GetShardTableData.
  rewrite (bind_ret _ _ _ _ _ (wait_valid_spec _ Hsh Hlen)), bind_mget. eexists. split; [by rewrite <-Hrows|]. by split.
Qed.

(** The path of a request that names a directory. *)
Lemma parse_dir_request D0 t rows s x :
  server_ready LocalServerId D0 t rows s → path_ok x → path x ≠ ""%string →
  outcome_ok (on_path (PathParseTreeInsert LocalServerId (path x) dir_flags (Some 0)) s)
    (λ r s', batch_inv D0 t rows s s' ∧ infos s' = infos s ∧
       match resolve_dir D0 t (path x) with
       | inl e => pr_errorCode r = e
       | inr id => pr_errorCode r = SUCCESS ∧ pr_inodeId r = Some id
       end) (gives_up D0) (waits s).
Proof.
  intros Hs [Hc Hsh] Hne. eapply outcome_ok_mono.
  - apply outcome_ok_zoom. apply (parse_dir_spec LocalServerId D0 t); try done; apply Hs.
  - intros r s' (p' & -> & (t' & Hrd & Hg) & Hx & Hr). split_and!; [|done|done].
    split; simpl; try done; [by exists t'|apply Hs|apply Hs].
  - intros e s' (p' & -> & -> & Ha). by split.
  - done.
Qed.

(** The answer to a request at position n. *)
Definition page_answer (l : list (Z * FormData_dfs_inode_table)) (n k : nat) (x : MetaProcessInfoData) : Prop :=
  errorCode x = SUCCESS ∧ readDirResultList x = page k (drop n l) ∧
  if decide (n + k ≤ length l)%nat then at_position l (n + k) x else at_position l 0 x.

Lemma read_page D0 t rows s i x d n :
  server_ready LocalServerId D0 t rows s → infos s !! i = Some x → path_ok x → path x ≠ ""%string →
  resolve_dir D0 t (path x) = inr d → all_well_named (db s) → 0 < page_size x →
  (n ≤ length (listing_from s d 0 rows))%nat → at_position (listing_from s d 0 rows) n x →
  outcome_ok (CuckooReadDirHandle LocalServerId i s)
    (λ _ s', db s' = db s ∧ ∃ x', infos s' = <[i := x']> (infos s) ∧
       page_answer (listing_from s d 0 rows) n (Z.to_nat (page_size x)) x')
    (gives_up D0) (waits s).
Proof.
  intros Hs Hi Hok Hne Hres Hwn Hk Hn Hpos. unfold CuckooReadDirHandle. erewrite bind_ret by by apply get_info_eq.
  fold (page_size x). fold dir_flags. eapply outcome_ok_bind; [by apply (parse_dir_request D0 t rows)|].
  rewrite Hres. intros r s1 (Hb & Hinf & Hc & Hid). rewrite Hc, decide_False by (intros Hx; by apply Hx). rewrite Hid.
  destruct (shard_data D0 t rows s s1) as (sh & Hsd & Hb2); [apply Hs|done|]. erewrite bind_ret by exact Hsd.
  set (s2 := s1 <| ms_shard := sh |>) in *.
  assert (inode_rels s2 = inode_rels s) as Hrels by apply (bi_rels _ _ _ _ _ Hb2).
  rewrite <-(listing_ext s2 s d 0 rows Hrels) in Hn, Hpos |- *. set (L := listing_from s2 d 0 rows) in *.
  assert (db s2 = db s) as Hdb by (unfold db; by rewrite Hrels).
  assert (shards_open s2 rows) as Hop.
  { intros row Hr Hl. destruct (sr_present _ _ _ _ _ Hs row Hr Hl) as [m Hm]. rewrite <-Hdb in Hm.
    destruct (open_db _ _ _ Hm) as (tb & Htb & _). eauto. }
  rewrite <-Hdb in Hwn.
  destruct (start_at s2 d rows n x Hop Hwn Hn Hpos) as (nm & pre & post & Hnm & Hsh & Hidx & Hst & Hleft).
  fold (start_name x). rewrite Hnm. fold (start_state x). fold (start_index x). rewrite Hidx.
  destruct (readdir_loop_spec s2 d rows (page_size x) nm Hop (S (S (length rows))) (start_state x) pre post [] 0)
    as (j & Hr & Hj); [done|lia|done| |].
  { unfold steps_left. rewrite Hsh, length_app. destruct (start_state x); lia. }
  erewrite bind_ret by exact Hr. rewrite Hleft in Hj |- *. fold L in Hj |- *. rewrite Z.sub_0_r in *. cbn [app].
  set (k := Z.to_nat (page_size x)) in *. unfold page_answer.
  rewrite length_take, length_drop in *. assert (infos s2 !! i = Some x) as Hi2 by (simpl; by rewrite Hinf).
  destruct (decide (n + k ≤ length L)%nat) as [Hfull|Hfull].
  - rewrite decide_False by lia. assert (k ≤ length L - n)%nat as Hkl by lia. specialize (Hj Hkl).
    destruct (last (take k (drop n L))) as [[j' e]|] eqn:El; [|done]. simpl in Hj. injection Hj as ->.
    assert (last (page k (drop n L)) = Some (read_result e)) as -> by (unfold page; by rewrite !fmap_last, El).
    rewrite (set_info_eq _ _ x) by done. simpl.
    split; [by rewrite <-Hdb|]. eexists. split; [by rewrite Hinf|]. split_and!; try done.
    assert (∃ n', (n + k)%nat = S n' ∧ L !! n' = Some (j, e)) as (n' & -> & Hl).
    { exists (n + k - 1)%nat. split; [lia|]. rewrite last_lookup, length_take, length_drop, Nat.min_l in El by lia.
      rewrite lookup_take, lookup_drop, decide_True in El by lia. replace (n + k - 1)%nat with (n + Nat.pred k)%nat by lia. done. }
    exists j, e. by split_and!.
  - rewrite decide_True by lia. rewrite (set_info_eq _ _ x) by done. simpl.
    split; [by rewrite <-Hdb|]. eexists. split; [by rewrite Hinf|]. by split_and!.
Qed.

(** A page of a directory listing: for a request whose cursor stands
    after the first n entries, the handler returns the next
    readDirMaxReadCount entries of the listing (name and mode), and a cursor
    that stands after them, or the cursor of the start when the listing is
    exhausted.  No row changes. *)
Theorem CuckooReadDirHandle_page D0 t rows s i x d n :
  server_ready LocalServerId D0 t rows s → infos s !! i = Some x → path_ok x → path x ≠ ""%string →
  resolve_dir D0 t (path x) = inr d → all_well_named (db s) → 0 < page_size x →
  (n ≤ length (listing_from s d 0 rows))%nat → at_position (listing_from s d 0 rows) n x →
  outcome_ok (CuckooReadDirHandle LocalServerId i s)
    (λ _ s', db s' = db s ∧ ∃ x', infos s' = <[i := x']> (infos s) ∧
       page_answer (listing_from s d 0 rows) n (Z.to_nat (page_size x)) x')
    (gives_up D0) (waits s).
Proof. apply read_page. Qed.

(** The listing holds every row of the directory on this server, once. *)
Lemma listing_complete s d shards j sid m k r row :
  row ∈ shards → server_id row = LocalServerId → range_point row = sid → db s !! sid = Some m → m !! k = Some r →
  lowerId d ≤ row_id r ≤ upperId d → r ∈ (listing_from s d j shards).*2.
Proof.
  intros Hrow Hl Hsid Hm Hk Hid. revert j. induction shards as [|row' shards IH]; intros j; [by apply not_elem_of_nil in Hrow|].
  cbn [listing_from]. rewrite fmap_app, snd_pair, elem_of_app. apply elem_of_cons in Hrow as [<-|Hrow]; [left|right; auto].
  unfold shard_entries. rewrite decide_True by done. subst sid. destruct (open_db _ _ _ Hm) as (t & -> & <- & _).
  apply elem_entries. split; [|done]. apply scan_elem. pose proof (visible_key _ _ _ Hk) as ->. done.
Qed.

Lemma listing_sound s d shards j r :
  r ∈ (listing_from s d j shards).*2 →
  ∃ row, row ∈ shards ∧ server_id row = LocalServerId ∧ cell (db s) (range_point row) (inode_key r) = Some r ∧
    lowerId d ≤ row_id r ≤ upperId d.
Proof.
  revert j. induction shards as [|row shards IH]; intros j; [by intros Hin%not_elem_of_nil|].
  cbn [listing_from]. rewrite fmap_app, snd_pair, elem_of_app. intros [Hr|Hr].
  - revert Hr. unfold shard_entries. destruct (decide _) as [Hl|]; [|by intros Hin%not_elem_of_nil].
    destruct (inode_rels s !! range_point row) as [t|] eqn:Ht; [|by intros Hin%not_elem_of_nil].
    intros [Hr Hid]%elem_entries. exists row. split; [by left|]. split; [done|]. split; [|done]. apply scan_elem in Hr.
    unfold cell, db. by rewrite lookup_fmap, Ht.
  - destruct (IH _ Hr) as (row' & ? & ?). exists row'. split; [by right|done].
Qed.

Lemma listing_tag s d shards j j' e : (j', e) ∈ listing_from s d j shards → j ≤ j'.
Proof.
  revert j. induction shards as [|row shards IH]; intros j; [by intros Hin%not_elem_of_nil|].
  cbn [listing_from]. rewrite elem_of_app. intros [(r & [= -> ->] & _)%list_elem_of_fmap|Hin%IH]; lia.
Qed.

Lemma listing_NoDup s d shards j : NoDup (listing_from s d j shards).
Proof.
  revert j. induction shards as [|row shards IH]; intros j; [apply NoDup_nil_2|]. cbn [listing_from].
  apply NoDup_app. split_and!; [| |apply IH].
  - apply NoDup_fmap; [by intros ? ? [=]|]. unfold shard_entries. destruct (decide _); [|apply NoDup_nil_2].
    destruct (_ !! _); [|apply NoDup_nil_2]. apply NoDup_filter, scan_NoDup.
  - intros [j' e] (r & [= -> ->] & _)%list_elem_of_fmap Hin%listing_tag. lia.
Qed.

(** *** Reading page after page *)

(** One call of the handler for pages of k entries of the directory d, at a
    moment when its listing is [l]: the request and the answer. *)
Definition reads (l : list (Z * FormData_dfs_inode_table)) (d k : Z) (x x' : MetaProcessInfoData) : Prop :=
  ∃ D0 t rows s i s', server_ready LocalServerId D0 t rows s ∧ infos s !! i = Some x ∧ path_ok x ∧ path x ≠ ""%string ∧
    resolve_dir D0 t (path x) = inr d ∧ all_well_named (db s) ∧ page_size x = k ∧ listing_from s d 0 rows = l ∧
    CuckooReadDirHandle LocalServerId i s = Ret () s' ∧ infos s' !! i = Some x'.

(** A client asks for page after page, each time with the cursor of the last
    answer, until that is the cursor of the start: the entries it has got and
    the number of calls. *)
Inductive session (l : list (Z * FormData_dfs_inode_table)) (d k : Z) :
    MetaProcessInfoData → list OneReadDirResult → nat → Prop :=
  | session_last x x' :
      reads l d k x x' → readDirLastShardIndex x' = -1 → session l d k x (readDirResultList x') 1
  | session_more x x' y rest m :
      reads l d k x x' → readDirLastShardIndex x' ≠ -1 →
      readDirLastShardIndex y = readDirLastShardIndex x' → readDirLastFileName y = readDirLastFileName x' →
      session l d k y rest m → session l d k x (readDirResultList x' ++ rest) (S m).

Lemma reads_answer l d k x x' n :
  reads l d k x x' → 0 < k → (n ≤ length l)%nat → at_position l n x → page_answer l n (Z.to_nat k) x'.
Proof.
  intros (D0 & t & rows & s & i & s' & Hs & Hi & Hok & Hne & Hres & Hw & <- & <- & Hrun & Hi') Hk Hn Hp.
  pose proof (read_page D0 t rows s i x d n Hs Hi Hok Hne Hres Hw Hk Hn Hp) as Hpage. rewrite Hrun in Hpage.
  destruct Hpage as (_ & y & Hy & Ha). rewrite Hy, list_lookup_insert_eq in Hi' by by eapply lookup_lt_Some.
  by injection Hi' as <-.
Qed.

Lemma at_position_cursor l n x y :
  readDirLastShardIndex y = readDirLastShardIndex x → readDirLastFileName y = readDirLastFileName x →
  at_position l n x → at_position l n y.
Proof. intros H1' H2'. destruct n; simpl; rewrite H1', ?H2'; done. Qed.

Lemma page_take_all k (l : list (Z * FormData_dfs_inode_table)) n :
  (length l < n + k)%nat → page k (drop n l) = read_result <$> (drop n l).*2.
Proof. intros Hl. unfold page. by rewrite take_ge by (rewrite length_drop; lia). Qed.

Lemma session_spec l d k x res m n :
  0 < k → (∀ j e, (j, e) ∈ l → 0 ≤ j) → session l d k x res m → (n ≤ length l)%nat → at_position l n x →
  res = read_result <$> (drop n l).*2 ∧ Z.of_nat m = Z.of_nat (length l - n) / k + 1.
Proof.
  intros Hk Hpos Hrun. revert n. induction Hrun as [x x' Hr Hend|x x' y rest m Hr Hmore Hc1 Hc2 _ IH]; intros n Hn Hp;
    destruct (reads_answer _ _ _ _ _ _ Hr Hk Hn Hp) as (_ & Hres & Hnext).
  - destruct (decide (n + Z.to_nat k ≤ length l)%nat) as [Hle|Hlt].
    + exfalso. destruct (n + Z.to_nat k)%nat as [|n'] eqn:E; [lia|]. destruct Hnext as (j & e & Hl & Hj & _).
      apply list_elem_of_lookup_2 in Hl. apply Hpos in Hl. lia.
    + rewrite Hres, page_take_all by lia. split; [done|]. rewrite Z.div_small by lia. lia.
  - destruct (decide (n + Z.to_nat k ≤ length l)%nat) as [Hle|Hlt]; [|by simpl in Hnext].
    destruct (IH (n + Z.to_nat k)%nat) as [Hrest Hm]; [done|by eapply at_position_cursor|]. split.
    + rewrite Hres, Hrest. unfold page. rewrite <-!fmap_app. f_equal. f_equal.
      by rewrite <-drop_drop, take_drop.
    + rewrite Nat2Z.inj_succ, Hm. replace (Z.of_nat (length l - n)) with (Z.of_nat (length l - (n + Z.to_nat k)) + 1 * k) by lia.
      rewrite Z.div_add by lia. lia.
Qed.

(** (C37) Reading a directory page after page gives exactly its listing,
    whatever the page size: every entry once and in order, in
    length / page size + 1 calls. *)
Theorem readdir_session s d rows k x res m (l := listing_from s d 0 rows) :
  0 < k → session l d k x res m → readDirLastShardIndex x = -1 →
  res = read_result <$> l.*2 ∧ Z.of_nat m = Z.of_nat (length l) / k + 1 ∧ NoDup l.
Proof.
  intros Hk Hrun Hx. destruct (session_spec l d k x res m 0) as [-> Hm]; try done; [|lia|].
  - intros j e Hin. by apply listing_tag in Hin.
  - rewrite Nat.sub_0_r in Hm. split_and!; [by rewrite drop_0|done|apply listing_NoDup].
Qed.

(** The answer to OPENDIR. *)
Definition opened_as (d : Z) (x : MetaProcessInfoData) : MetaProcessInfoData := x <| mi_inodeId := d |> <| errorCode := SUCCESS |>.

(** Opening a directory returns the inode id of the directory the path
    names, read-locked for the transaction, and raises the error of the path
    otherwise. *)
Theorem CuckooOpenDirHandle_finds D0 t rows s i x :
  server_ready LocalServerId D0 t rows s → infos s !! i = Some x → path_ok x → path x ≠ ""%string →
  outcome_ok (CuckooOpenDirHandle LocalServerId i s)
    (λ _ s', db s' = db s ∧ ∃ d, resolve_dir D0 t (path x) = inr d ∧
       infos s' = <[i := opened_as d x]> (infos s))
    (λ e s', gives_up D0 e s' ∨ ∃ c, resolve_dir D0 t (path x) = inl c ∧ e = Cuckoo c) (waits s).
Proof.
  intros Hs Hi Hok Hne. unfold CuckooOpenDirHandle. erewrite bind_ret by by apply get_info_eq. fold dir_flags.
  eapply outcome_ok_bind; [eapply outcome_ok_mono; [by apply (parse_dir_request D0 t rows)|exact (λ a s H, H)|by left|done]|].
  intros r s1 (Hb & Hinf & Hc). destruct (resolve_dir D0 t (path x)) as [c|d] eqn:E.
  - rewrite Hc, decide_True by (by eapply resolve_dir_error). right. by exists c.
  - destruct Hc as [Hc Hid]. rewrite Hc, decide_False by (intros Hx; by apply Hx). rewrite Hid.
    rewrite (set_info_eq _ _ x) by (by rewrite Hinf). simpl. split; [unfold db; simpl; by rewrite (bi_rels _ _ _ _ _ Hb)|].
    exists d. by rewrite Hinf.
Qed.
End read_dir.
