(* ===== verification/FileWitness.v ===== *)
(** * Concrete runs of the file handlers

    A worker (server 1) that serves two of the three shards of
    [ShardWitness.rows3], with the directories / and /a and the files f, g
    and h in /a. *)

From S2P Require Import Prelude Pg Shard RWLock DirHash PathParse Inode Route FileOps FileSpec ReadDir.

Module FileWitness.
Import PgRef DirWitness ShardWitness PathWitness.

Definition file (name : string) (ino mode : Z) : FormData_dfs_inode_table :=
  mkInode name ino (CombineParentIdWithPartId 7 (HashPartId name)) 0 mode 1 0 0 0 10 0 0 5 5 5 ""%string 0 (-1) (-1).

Definition regular : Z := Z.lor S_IFREG 420.

Definition request (p : string) (max cursor : Z) : MetaProcessInfoData :=
  mkInfo p 0 max 0 0 None 0 0 0 0 0 0 0 0 0 0 0 0 ""%string 0 cursor None [] ""%string 0 0 None false 0 UNKNOWN.

Definition f0 : MetaState :=
  mkMeta p0 state3
    {[ 715827882 := of_rows inode_key [file "f" 100 regular; file "h" 102 regular] : rel inode_key id_text_le;
       2147483647 := of_rows inode_key [file "g" 101 (Z.lor S_IFDIR 493)] ]}
    [request "/a/f" 0 0; request "/a/c" 0 0; request "/a/c" 0 0; request "/a/x" 0 0; request "/q/f" 0 0;
     request "/a" 2 (-1); request "/a/g" 0 0] 0.

Abbreviation D0 := (latest (directory_rel s0)).

Lemma f0_ready : server_ready 1 D0 PathParseTreeInit rows3 f0.
Proof.
  split.
  - exact s0_real.
  - exact rows3_ok.
  - vm_compute. discriminate.
  - exact p0_ready.
  - intros Hc. discriminate Hc.
  - exact state3_rows.
  - intros sid t Ht. simpl in Ht. apply lookup_insert_Some in Ht as [[_ <-]|[_ Ht]]; [reflexivity|].
    apply lookup_singleton_Some in Ht as [_ <-]. reflexivity.
  - intros row Hrow Hl. unfold rows3 in Hrow.
    repeat (apply elem_of_cons in Hrow as [->|Hrow]; [first [discriminate Hl|unfold db; rewrite lookup_fmap; eexists; reflexivity]|]).
    by apply not_elem_of_nil in Hrow.
Qed.

Ltac request_ok := eexists; split; [reflexivity|split; [no_nul|short_names]].

Lemma f0_requests : requests_ok f0 [0; 1; 2; 3; 4]%nat.
Proof.
  split; [apply (bool_decide_eq_true_1 (NoDup _)); vm_compute; reflexivity|]. intros i Hi.
  repeat (apply elem_of_cons in Hi as [->|Hi]; [request_ok|]). by apply not_elem_of_nil in Hi.
Qed.

(** /a/f is there, /a/c is asked for twice, /a/x belongs to server 2 and /q
    is no directory. *)
Lemma CuckooCreateHandle_creates_witness :
  returns (CuckooCreateHandle 1 (λ n, n) false [0; 1; 2; 3; 4]%nat f0)
    (λ _ s', (∃ x, infos s' !! 0%nat = Some x ∧ errorCode x = FILE_EXISTS ∧ mi_inodeId x = 100) ∧
             ∃ x, infos s' !! 4%nat = Some x ∧ errorCode x = PATH_IS_INVALID).
Proof.
  eapply returns_mono; [eapply outcome_ok_returns; [|vm_compute; reflexivity]|].
  - apply (CuckooCreateHandle_creates 1 (λ n, n) D0 PathParseTreeInit rows3 f0 [0; 1; 2; 3; 4]%nat f0_ready f0_requests).
  - intros u s' (Hres & _ & Hkept & _). split.
    + destruct (Hres 0%nat (request "/a/f" 0 0)) as (x & Hx & Hr); [by left|reflexivity|]. exists x. split; [exact Hx|].
      replace (route _ _ _ _ _ _ _) with (@inr CuckooErrorCode _ (mkLoc 7 "f" 57446 715827882)) in Hr by (vm_compute; reflexivity).
      destruct Hr as (row & Hrow & [(_ & Hnone & _)|(He & Hattr)]).
      * replace (row_of (db f0) _) with (Some (file "f" 100 regular)) in Hnone by (vm_compute; reflexivity). discriminate.
      * split; [exact He|]. assert (row = file "f" 100 regular) as ->; [|by injection Hattr].
        pose proof (Hkept 715827882 (57446, "f"%string) (file "f" 100 regular)) as Hk.
        assert (Some row = Some (file "f" 100 regular)) as [=]; [|done]. rewrite <-Hrow. apply Hk. vm_compute. reflexivity.
    + destruct (Hres 4%nat (request "/q/f" 0 0)) as (x & Hx & Hr); [by do 4 right; left|reflexivity|].
      exists x. split; [exact Hx|].
      replace (route _ _ _ _ _ _ _) with (@inl _ location PATH_IS_INVALID) in Hr by (vm_compute; reflexivity). exact Hr.
Defined.

Lemma CuckooStatHandle_answers_witness :
  returns (CuckooStatHandle 1 [0; 1; 2; 3; 4]%nat f0)
    (λ _ s', (∃ x, infos s' !! 0%nat = Some x ∧ errorCode x = SUCCESS ∧ st_size x = 10) ∧
             ∃ x, infos s' !! 3%nat = Some x ∧ errorCode x = WRONG_WORKER).
Proof.
  eapply returns_mono; [eapply outcome_ok_returns; [|vm_compute; reflexivity]|].
  - apply (CuckooStatHandle_answers 1 D0 PathParseTreeInit rows3 f0 [0; 1; 2; 3; 4]%nat f0_ready f0_requests).
  - intros u s' (_ & Hres). split.
    + destruct (Hres 0%nat (request "/a/f" 0 0)) as (x & Hx & Hr); [by left|reflexivity|]. exists x. split; [exact Hx|].
      replace (route _ _ _ _ _ _ _) with (@inr CuckooErrorCode _ (mkLoc 7 "f" 57446 715827882)) in Hr by (vm_compute; reflexivity).
      unfold stat_result in Hr. replace (row_of (db f0) _) with (Some (file "f" 100 regular)) in Hr by (vm_compute; reflexivity).
      destruct Hr as [He Ha]. split; [exact He|]. by injection Ha.
    + destruct (Hres 3%nat (request "/a/x" 0 0)) as (x & Hx & Hr); [by do 3 right; left|reflexivity|].
      exists x. split; [exact Hx|].
      replace (route _ _ _ _ _ _ _) with (@inl _ location WRONG_WORKER) in Hr by (vm_compute; reflexivity). exact Hr.
Defined.

Lemma f0_cells (P : FormData_dfs_inode_table → Prop) :
  P (file "f" 100 regular) → P (file "h" 102 regular) → P (file "g" 101 (Z.lor S_IFDIR 493)) →
  ∀ sid k r, cell (db f0) sid k = Some r → P r.
Proof.
  intros H1 H2 H3 sid k r. unfold cell, db. rewrite lookup_fmap. simpl.
  destruct (decide (sid = 715827882)) as [->|Hn1].
  - rewrite lookup_insert_eq. simpl. intros Hk.
    apply (elem_of_map_to_list (M := gmap (Z * string))) in Hk.
    match type of Hk with _ ∈ ?l => let v := eval vm_compute in l in replace l with v in Hk by (vm_compute; reflexivity) end.
    repeat (apply elem_of_cons in Hk as [[= _ ->]|Hk]; [assumption|]). by apply not_elem_of_nil in Hk.
  - rewrite lookup_insert_ne by congruence. destruct (decide (sid = 2147483647)) as [->|Hn2].
    + rewrite lookup_singleton_eq. simpl. intros Hk.
      apply (elem_of_map_to_list (M := gmap (Z * string))) in Hk.
      match type of Hk with _ ∈ ?l => let v := eval vm_compute in l in replace l with v in Hk by (vm_compute; reflexivity) end.
      repeat (apply elem_of_cons in Hk as [[= _ ->]|Hk]; [assumption|]). by apply not_elem_of_nil in Hk.
    + by rewrite lookup_singleton_ne by congruence.
Qed.

Lemma f0_one_link : one_link (db f0).
Proof. refine (f0_cells (λ r, it_st_nlink r = 1) _ _ _); reflexivity. Qed.

Lemma f0_well_named : all_well_named (db f0).
Proof. refine (f0_cells well_named _ _ _); exists 7; reflexivity. Qed.

Lemma CuckooUnlinkHandle_removes_witness :
  returns (CuckooUnlinkHandle 1 [0; 1; 2; 3; 4]%nat f0)
    (λ _ s', row_of (db s') (mkLoc 7 "f" 57446 715827882) = None ∧
             ∃ x, infos s' !! 1%nat = Some x ∧ errorCode x = FILE_NOT_EXISTS).
Proof.
  eapply returns_mono; [eapply outcome_ok_returns; [|vm_compute; reflexivity]|].
  - apply (CuckooUnlinkHandle_removes 1 D0 PathParseTreeInit rows3 f0 [0; 1; 2; 3; 4]%nat f0_ready f0_requests f0_one_link).
  - intros u s' (Hres & _). split.
    + destruct (Hres 0%nat (request "/a/f" 0 0)) as (x & Hx & Hr); [by left|reflexivity|].
      replace (route _ _ _ _ _ _ _) with (@inr CuckooErrorCode _ (mkLoc 7 "f" 57446 715827882)) in Hr by (vm_compute; reflexivity).
      by destruct Hr.
    + destruct (Hres 1%nat (request "/a/c" 0 0)) as (x & Hx & Hr); [by right; left|reflexivity|]. exists x. split; [exact Hx|].
      replace (route _ _ _ _ _ _ _) with (@inr CuckooErrorCode _ (mkLoc 7 "c" 57443 715827882)) in Hr by (vm_compute; reflexivity).
      destruct Hr as [_ Hr]. replace (row_of (db f0) _) with (@None FormData_dfs_inode_table) in Hr by (vm_compute; reflexivity).
      exact Hr.
Defined.

(** The directory entry g of /a goes although the request fails. *)
Definition unlink_g : option (CuckooErrorCode * option FormData_dfs_inode_table) :=
  match CuckooUnlinkHandle 1 [6]%nat f0 with
  | Ret _ s' => x ← infos s' !! 6%nat; Some (errorCode x, row_of (db s') (mkLoc 7 "g" 57447 2147483647))
  | _ => None
  end.

Lemma unlink_removes_directory_entry : unlink_g = Some (PROGRAM_ERROR, None).
Proof. vm_compute. reflexivity. Qed.

(** *** Reading /a two entries at a time *)

Definition first : MetaProcessInfoData := request "/a" 2 (-1).

Definition answer (s : MetaState) : MetaProcessInfoData :=
  match CuckooReadDirHandle 1 5 s with Ret _ s' => default first (infos s' !! 5%nat) | _ => first end.

(** The second request carries the cursor of the first answer. *)
Definition second : MetaProcessInfoData := first <| readDirLastShardIndex := 0 |> <| readDirLastFileName := Some "h"%string |>.
Definition f1 : MetaState := f0 <| infos := <[5%nat := second]> (infos f0) |>.

Lemma f1_ready : server_ready 1 D0 PathParseTreeInit rows3 f1.
Proof. destruct f0_ready. by split. Qed.

(** The state after a call, to run it without naming the state. *)
Definition after_read (s : MetaState) : MetaState :=
  match CuckooReadDirHandle 1 5 s with Ret _ s' => s' | _ => s end.

Lemma after_read_ret s : is_ret (CuckooReadDirHandle 1 5 s) = true → CuckooReadDirHandle 1 5 s = Ret () (after_read s).
Proof. unfold after_read. by destruct (CuckooReadDirHandle 1 5 s) as [[] ?|? ?| |]. Qed.

Abbreviation listing_a := (listing_from 1 f0 7 0 rows3).

Lemma CuckooReadDirHandle_page_witness :
  returns (CuckooReadDirHandle 1 5 f0)
    (λ _ s', db s' = db f0 ∧ ∃ x', infos s' = <[5%nat := x']> (infos f0) ∧ page_answer listing_a 0 2 x').
Proof.
  eapply outcome_ok_returns; [|vm_compute; reflexivity].
  apply (CuckooReadDirHandle_page 1 D0 PathParseTreeInit rows3 f0 5 first 7 0 f0_ready).
  - reflexivity.
  - split; [no_nul|short_names].
  - discriminate.
  - vm_compute. reflexivity.
  - exact f0_well_named.
  - vm_compute. reflexivity.
  - apply Nat.le_0_l.
  - reflexivity.
Defined.

Lemma CuckooOpenDirHandle_finds_witness :
  returns (CuckooOpenDirHandle 1 5 f0)
    (λ _ s', db s' = db f0 ∧ ∃ d, resolve_dir D0 PathParseTreeInit "/a" = inr d ∧
       infos s' = <[5%nat := first <| mi_inodeId := d |> <| errorCode := SUCCESS |>]> (infos f0)).
Proof.
  eapply outcome_ok_returns; [|vm_compute; reflexivity].
  apply (CuckooOpenDirHandle_finds 1 D0 PathParseTreeInit rows3 f0 5 first f0_ready);
    [reflexivity|split; [no_nul|short_names]|discriminate].
Defined.

Lemma reads_first : reads 1 listing_a 7 2 first (answer f0).
Proof.
  exists D0, PathParseTreeInit, rows3, f0, 5%nat, (after_read f0).
  split; [exact f0_ready|]. split; [reflexivity|]. split; [split; [no_nul|short_names]|]. split; [discriminate|].
  split; [vm_compute; reflexivity|]. split; [exact f0_well_named|]. split; [reflexivity|]. split; [reflexivity|].
  split; [apply after_read_ret; vm_compute; reflexivity|]. vm_compute. reflexivity.
Qed.

Lemma reads_second : reads 1 listing_a 7 2 second (answer f1).
Proof.
  exists D0, PathParseTreeInit, rows3, f1, 5%nat, (after_read f1).
  split; [exact f1_ready|]. split; [reflexivity|]. split; [split; [no_nul|short_names]|]. split; [discriminate|].
  split; [vm_compute; reflexivity|]. split; [exact f0_well_named|]. split; [reflexivity|]. split; [reflexivity|].
  split; [apply after_read_ret; vm_compute; reflexivity|]. vm_compute. reflexivity.
Qed.

(** Two calls list the three entries. *)
Lemma readdir_session_witness :
  [mkOneReadDir "f" 33188; mkOneReadDir "h" 33188; mkOneReadDir "g" 16877] = read_result <$> listing_a.*2.
Proof.
  assert (session 1 listing_a 7 2 first (readDirResultList (answer f0) ++ readDirResultList (answer f1)) 2) as Hs.
  { eapply session_more; [exact reads_first|vm_compute; discriminate| | |apply session_last; [exact reads_second|]];
      vm_compute; reflexivity. }
  destruct (readdir_session 1 f0 7 rows3 2 first _ 2 ltac:(lia) Hs eq_refl) as (Hres & _). rewrite <-Hres.
  vm_compute. reflexivity.
Defined.
End FileWitness.
