(* ===== verification/ForeignServer.v ===== *)
(** * The servers of the cluster and the connections to them
    (metadb/foreign_server.c)

    The relation cuckoo_foreign_server lists the servers of the cluster.  It is
    mirrored in a shared hash table, which is reloaded after it has been
    invalidated and then gets a new version; every backend keeps its
    connections in a table of its own, which it brings up to date when the
    version has changed.  libpq is an interface ([Libpq]). *)

From S2P Require Import Prelude Pg.

(** ** libpq *)

Inductive ConnStatusType := CONNECTION_OK | CONNECTION_BAD | CONNECTION_STARTED.
#[global] Instance ConnStatusType_eq_dec : EqDecision ConnStatusType.
Proof. solve_decision. Defined.

Inductive ExecStatusType :=
  | PGRES_COMMAND_OK | PGRES_TUPLES_OK | PGRES_PIPELINE_SYNC | PGRES_PIPELINE_ABORTED | PGRES_FATAL_ERROR.
#[global] Instance ExecStatusType_eq_dec : EqDecision ExecStatusType.
Proof. solve_decision. Defined.

(** A column of a row of a result: text, or the binary parameter or response
    of a metadata call. *)
Inductive Value (D : Type) := VText (s : string) | VData (d : D).
Arguments VText {D} s.
Arguments VData {D} d.

Record PGresult (D : Type) := mkPGresult { PQresultStatus : ExecStatusType; PQrows : list (list (Value D)) }.
Arguments mkPGresult {D} _ _.
Arguments PQresultStatus {D} _.
Arguments PQrows {D} _.

(** The statements the backend sends: SQL text, by the statement it is, and
    the prepared metadata call. *)
Inductive Query (D : Type) :=
  | BEGIN
  | COMMIT
  | ROLLBACK
  | PREPARE_TRANSACTION (gid : string)
  | COMMIT_PREPARED (gid : string)
  | ROLLBACK_PREPARED (gid : string)
  | SELECT_PREPARED_XACTS (localId : Z)
  | SELECT_cuckoo_prepare_commands
  | PLAIN (sql : string)
  | cs_meta_call (type count : Z) (param : D).
Arguments BEGIN {D}.
Arguments COMMIT {D}.
Arguments ROLLBACK {D}.
Arguments PREPARE_TRANSACTION {D} _.
Arguments COMMIT_PREPARED {D} _.
Arguments ROLLBACK_PREPARED {D} _.
Arguments SELECT_PREPARED_XACTS {D} _.
Arguments SELECT_cuckoo_prepare_commands {D}.
Arguments PLAIN {D} _.
Arguments cs_meta_call {D} _ _ _.

(** The calls of libpq, on the state [net] of the connections and of the
    servers behind them. *)
Class Libpq (D : Type) := {
  PGconn : Type;
  net : Type;
  PQconnectStart : string → Z → string → net → PGconn * net;
  PQstatus : PGconn → net → ConnStatusType;
  PQconnectPoll : PGconn → net → net;
  hostaddr : PGconn → string;
  port_of : PGconn → Z;
  PQfinish : PGconn → net → net;
  PQenterPipelineMode : PGconn → net → bool * net;
  PQsendQuery : PGconn → Query D → net → bool * net;
  PQpipelineSync : PGconn → net → bool * net;
  PQgetResult : PGconn → net → option (PGresult D) * net;
  (** a connection is to the address it was opened with *)
  connect_host h p u n : hostaddr (PQconnectStart h p u n).1 = h;
  connect_port h p u n : port_of (PQconnectStart h p u n).1 = p;
}.

(** text_to_cstring_buffer(text, buffer, length) clips the text to the
    buffer. *)
Class TextBuffer := {
  text_to_cstring_buffer : string → nat → string;
  text_buffer_fits s n : (String.length s < n)%nat → text_to_cstring_buffer s n = s;
}.

(** ** Data *)

Definition FOREIGN_SERVER_NAME_MAX_LENGTH : nat := 128.
Definition HOST_MAX_LENGTH : nat := 16.
Definition FOREIGN_SERVER_NUM_MAX : Z := 128.

Record FormData_cuckoo_foreign_server := mkServer {
  fs_server_id : Z;
  fs_server_name : string;
  fs_host : string;
  fs_port : Z;
  fs_is_local : bool;
  fs_user_name : string }.

Inductive CuckooRemoteTransactionState :=
  | CUCKOO_REMOTE_TRANSACTION_NONE
  | CUCKOO_REMOTE_TRANSACTION_BEGIN_FOR_WRITE
  | CUCKOO_REMOTE_TRANSACTION_BEGIN_FOR_SNAPSHOT
  | CUCKOO_REMOTE_TRANSACTION_PREPARE.
#[global] Instance CuckooRemoteTransactionState_eq_dec : EqDecision CuckooRemoteTransactionState.
Proof. solve_decision. Defined.

Record ForeignServerConnection {D} `{!Libpq D} := mkConnection {
  fc_serverId : Z;
  fc_conn : option PGconn;
  transactionState : CuckooRemoteTransactionState }.
#[global] Instance eta_connection {D} `{!Libpq D} : Eta ForeignServerConnection := λ c,
  mkConnection _ _ (fc_serverId c) (fc_conn c) (transactionState c).

(** ** Hash tables with an integer key: the entries in the order they were
    entered *)
Section hash_table.
Context {A : Type} (key : A → Z).

Definition hash_find (id : Z) (l : list A) : option A := head (filter (λ e, key e = id) l).
Definition hash_drop (id : Z) (l : list A) : list A := filter (λ e, key e ≠ id) l.
(** Store an entry: in place, or at the end when its key is new. *)
Definition hash_put (e : A) (l : list A) : list A :=
  if decide (key e ∈ key <$> l) then (λ x, if decide (key x = key e) then e else x) <$> l else l ++ [e].

Lemma hash_find_Some id l e : hash_find id l = Some e → e ∈ l ∧ key e = id.
Proof.
  unfold hash_find. destruct (filter _ l) as [|x k] eqn:E; [done|]. intros [= ->].
  assert (e ∈ filter (λ x, key x = id) l) as Hin by (rewrite E; left).
  by apply list_elem_of_filter in Hin as [? ?].
Qed.

Lemma hash_find_None id l : hash_find id l = None ↔ id ∉ key <$> l.
Proof.
  unfold hash_find. rewrite list_elem_of_fmap. destruct (filter _ l) as [|x k] eqn:E; simpl; split; try done.
  - intros _ (y & -> & Hy). assert (y ∈ filter (λ x, key x = key y) l) as Hin by by apply list_elem_of_filter.
    rewrite E in Hin. by apply not_elem_of_nil in Hin.
  - intros Hn. destruct Hn. exists x. assert (x ∈ filter (λ x, key x = id) l) as Hin by (rewrite E; left).
    apply list_elem_of_filter in Hin as [? ?]. by split.
Qed.

Lemma hash_find_elem l e : NoDup (key <$> l) → e ∈ l → hash_find (key e) l = Some e.
Proof.
  intros Hnd He. destruct (hash_find (key e) l) as [x|] eqn:E.
  - apply hash_find_Some in E as [Hx Hk]. f_equal.
    apply list_elem_of_lookup in He as [i Hi]. apply list_elem_of_lookup in Hx as [j Hj].
    assert (i = j) as ->; [|congruence].
    eapply (NoDup_lookup _ _ _ (key e) Hnd); rewrite list_lookup_fmap; [by rewrite Hi|by rewrite Hj; simpl; rewrite Hk].
  - apply hash_find_None in E. destruct E. apply list_elem_of_fmap. by exists e.
Qed.

Lemma hash_put_keys e l : key <$> hash_put e l = if decide (key e ∈ key <$> l) then key <$> l else (key <$> l) ++ [key e].
Proof.
  unfold hash_put. case_decide; [|by rewrite fmap_app]. rewrite <-list_fmap_compose. apply list_fmap_ext.
  intros i x _. simpl. by case_decide.
Qed.

Lemma hash_put_NoDup e l : NoDup (key <$> l) → NoDup (key <$> hash_put e l).
Proof.
  intros Hnd. rewrite hash_put_keys. case_decide as Hd; [done|]. apply NoDup_app. split; [done|]. split.
  - by intros x Hx ->%list_elem_of_singleton.
  - apply NoDup_singleton.
Qed.

Lemma hash_put_elem e l x : x ∈ hash_put e l → x = e ∨ (x ∈ l ∧ key x ≠ key e).
Proof.
  unfold hash_put. case_decide as Hd.
  - intros (y & -> & Hy)%list_elem_of_fmap. case_decide; [by left|by right].
  - intros [Hx| ->%list_elem_of_singleton]%elem_of_app; [right|by left]. split; [done|].
    intros Hk. apply Hd, list_elem_of_fmap. by exists x.
Qed.

Lemma hash_put_in e l : e ∈ hash_put e l.
Proof.
  unfold hash_put. case_decide as Hd; [|apply elem_of_app; right; by left].
  apply list_elem_of_fmap in Hd as (x & Hk & Hx). apply list_elem_of_fmap. exists x. by rewrite decide_True.
Qed.

Lemma hash_put_other e l x : x ∈ l → key x ≠ key e → x ∈ hash_put e l.
Proof.
  intros Hx Hk. unfold hash_put. case_decide; [|apply elem_of_app; by left].
  apply list_elem_of_fmap. exists x. by rewrite decide_False.
Qed.
End hash_table.

(** ** State *)
Section foreign_server.
Context {D : Type} `{!Libpq D, !PgEnv, !TextBuffer, !PgRelation fs_server_id Z.le}.

Abbreviation foreign_server_rel := (rel fs_server_id Z.le).

(** The relation; the shared cache with its version and flag; the statics of
    the backend; the network. *)
Record ForeignState := mkForeign {
  foreign_rel : foreign_server_rel;
  ForeignServerShmemCache : list FormData_cuckoo_foreign_server;
  ForeignServerShmemCacheVersion : Z;
  ForeignServerShmemCacheInvalid : bool;
  ForeignServerConnectionManager : list ForeignServerConnection;
  ForeignServerLocalConnectionManagerVersion : Z;
  fs_LocalServerId : Z;
  fs_LocalServerName : string;
  network : net }.

#[global] Instance eta_ForeignState : Eta ForeignState := λ s,
  mkForeign (foreign_rel s) (ForeignServerShmemCache s) (ForeignServerShmemCacheVersion s)
    (ForeignServerShmemCacheInvalid s) (ForeignServerConnectionManager s)
    (ForeignServerLocalConnectionManagerVersion s) (fs_LocalServerId s) (fs_LocalServerName s) (network s).

Abbreviation F := (M ForeignState).

(** A call of libpq. *)
Definition on_net {A} (f : net → A * net) : F A := λ s,
  let '(a, n) := f (network s) in Ret a (s <| network := n |>).
Definition finish (c : option PGconn) : F () :=
  match c with Some c => on_net (λ n, ((), PQfinish c n)) | None => mret () end.

Definition find_server (id : Z) (s : ForeignState) := hash_find fs_server_id id (ForeignServerShmemCache s).
Definition find_connection (id : Z) (s : ForeignState) := hash_find fc_serverId id (ForeignServerConnectionManager s).
Definition put_connection (c : ForeignServerConnection) : F () :=
  mmodify (λ s, s <| ForeignServerConnectionManager ::= hash_put fc_serverId c |>).
Definition remove_connection (id : Z) : F () :=
  mmodify (λ s, s <| ForeignServerConnectionManager ::= hash_drop fc_serverId id |>).

(** ** The relation *)

Definition foreign_cci : F () := mmodify (λ s, s <| foreign_rel ::= CommandCounterIncrement |>).

Definition InsertForeignServerByRel (serverId : Z) (serverName host : string) (port : Z) (isLocal : bool)
    (userName : string) : F () :=
  s ← mget;
  match CatalogTupleInsert (foreign_rel s) (mkServer serverId serverName host port isLocal userName) with
  | None => mpgerror UniqueViolation
  | Some t => mput (s <| foreign_rel := t |>) ;; foreign_cci
  end.

Definition DeleteForeignServerByRel (serverId : Z) : F () :=
  s ← mget;
  match scan_eq (foreign_rel s) serverId with
  | None => melog ARGUMENT_ERROR
  | Some row =>
      match CatalogTupleDelete (foreign_rel s) (fs_server_id row) with
      | None => mpgerror TupleAlreadyModified
      | Some t => mput (s <| foreign_rel := t |>) ;; foreign_cci
      end
  end.

Definition UpdateForeignServerByRel (serverId : Z) (host : string) (port : Z) : F () :=
  s ← mget;
  match scan_eq (foreign_rel s) serverId with
  | None => melog ARGUMENT_ERROR
  | Some row =>
      match CatalogTupleUpdate (foreign_rel s)
              (mkServer (fs_server_id row) (fs_server_name row) host port (fs_is_local row) (fs_user_name row)) with
      | None => mpgerror TupleAlreadyModified
      | Some t => mput (s <| foreign_rel := t |>) ;; foreign_cci
      end
  end.

(** ** The shared cache *)

Definition InvalidateForeignServerShmemCache : F () :=
  mmodify (λ s, s <| ForeignServerShmemCacheInvalid := true |>).

Definition InsertForeignServer (serverId : Z) (serverName host : string) (port : Z) (isLocal : bool)
    (userName : string) : F () :=
  InsertForeignServerByRel serverId serverName host port isLocal userName ;; InvalidateForeignServerShmemCache.
Definition DeleteForeignServer (serverId : Z) : F () :=
  DeleteForeignServerByRel serverId ;; InvalidateForeignServerShmemCache.
Definition UpdateForeignServer (serverId : Z) (host : string) (port : Z) : F () :=
  UpdateForeignServerByRel serverId host port ;; InvalidateForeignServerShmemCache.

(** The SQL functions have the same bodies. *)
Definition cuckoo_insert_foreign_server := InsertForeignServer.
Definition cuckoo_delete_foreign_server := DeleteForeignServer.
Definition cuckoo_update_foreign_server := UpdateForeignServer.

(** InvalidOid is 0. *)
Definition InvalidateForeignServerShmemCacheCallback (foreignServerRelationId relationId : Z) : F () :=
  if decide (relationId = 0 ∨ relationId = foreignServerRelationId) then InvalidateForeignServerShmemCache
  else mret ().

(** The entry a row becomes: its strings are clipped to the buffers. *)
Definition cached (row : FormData_cuckoo_foreign_server) : FormData_cuckoo_foreign_server :=
  mkServer (fs_server_id row)
    (text_to_cstring_buffer (fs_server_name row) FOREIGN_SERVER_NAME_MAX_LENGTH)
    (text_to_cstring_buffer (fs_host row) HOST_MAX_LENGTH)
    (fs_port row) (fs_is_local row)
    (text_to_cstring_buffer (fs_user_name row) FOREIGN_SERVER_NAME_MAX_LENGTH).

(** The scan loop of ReloadForeignServerShmemCache: the cache and
    exceedMaxNumOfForeignServer. *)
Fixpoint reload_servers (rows cache : list FormData_cuckoo_foreign_server)
    : list FormData_cuckoo_foreign_server * bool :=
  match rows with
  | [] => (cache, false)
  | row :: rows' =>
      if decide (Z.of_nat (length cache) >= FOREIGN_SERVER_NUM_MAX) then (cache, true)
      else reload_servers rows' (hash_put fs_server_id (cached row) cache)
  end.

Definition ReloadForeignServerShmemCache : F () := λ s,
  if ForeignServerShmemCacheInvalid s then
    let '(cache, exceedMaxNumOfForeignServer) := reload_servers (index_scan (foreign_rel s)) [] in
    let s := s <| ForeignServerShmemCacheInvalid := false |> <| ForeignServerShmemCache := cache |> in
    if exceedMaxNumOfForeignServer : bool then
      Elog (Cuckoo PROGRAM_ERROR) (s <| ForeignServerShmemCacheInvalid := true |>)
    else Ret () (s <| ForeignServerShmemCacheVersion ::= λ v, i32 (v + 1) |>)
  else Ret () s.

Definition cuckoo_reload_foreign_server_cache : F () :=
  InvalidateForeignServerShmemCache ;; ReloadForeignServerShmemCache.

(** while (pg_atomic_read_u32(...Invalid)) Reload...(); one iteration clears
    the flag or raises, so two tests of it are enough. *)
Fixpoint wait_servers (fuel : nat) : F () := λ s,
  match fuel with
  | O => Diverge
  | S fuel' =>
      if ForeignServerShmemCacheInvalid s then (ReloadForeignServerShmemCache ;; wait_servers fuel') s
      else Ret () s
  end.

Definition GetForeignServerCount : F Z :=
  wait_servers 2 ;; s ← mget; mret (Z.of_nat (length (ForeignServerShmemCache s))).

(** memcpy from the entry: undefined when the server is not in the cache. *)
Fixpoint collect_info (ids : list Z) : F (list FormData_cuckoo_foreign_server) :=
  match ids with
  | [] => mret []
  | id :: ids' =>
      s ← mget;
      match find_server id s with
      | None => mundefined
      | Some e => rest ← collect_info ids'; mret (e :: rest)
      end
  end.

Definition GetForeignServerInfo (foreignServerIdList : list Z) : F (list FormData_cuckoo_foreign_server) :=
  wait_servers 2 ;; collect_info foreignServerIdList.

Fixpoint collect_connection_info (ids : list Z) : F (list (string * Z)) :=
  match ids with
  | [] => mret []
  | id :: ids' =>
      s ← mget;
      match find_server id s with
      | None => melog PROGRAM_ERROR
      | Some e => rest ← collect_connection_info ids'; mret ((fs_host e, fs_port e) :: rest)
      end
  end.

Definition GetForeignServerConnectionInfo (foreignServerIdList : list Z) : F (list (string * Z)) :=
  wait_servers 2 ;; collect_connection_info foreignServerIdList.

(** Whether the server is in the list of GetAllForeignServerId. *)
Definition wanted (exceptSelf exceptCn : bool) (e : FormData_cuckoo_foreign_server) : bool :=
  negb (exceptSelf && fs_is_local e) && negb (exceptCn && bool_decide (fs_server_id e = 0)).

Definition GetAllForeignServerId (exceptSelf exceptCn : bool) : F (list Z) :=
  wait_servers 2 ;;
  s ← mget;
  mret (fs_server_id <$> filter (λ e, wanted exceptSelf exceptCn e = true)
                          (hash_seq_order (ForeignServerShmemCache s))).

(** ** The connections of the backend *)

(** ForeignServerCacheInit(). *)
Definition ForeignServerCacheInit (s : ForeignState) : ForeignState :=
  s <| ForeignServerConnectionManager := [] |> <| ForeignServerLocalConnectionManagerVersion := 0 |>.

Definition CleanupForeignServerConnections : F () :=
  s ← mget;
  mfor (hash_seq_order (ForeignServerConnectionManager s)) (λ c,
    finish (fc_conn c) ;; remove_connection (fc_serverId c)).

(** The connection is to be closed: the server is gone, or it has moved. *)
Definition stale (s : ForeignState) (c : ForeignServerConnection) : bool :=
  match find_server (fc_serverId c) s, fc_conn c with
  | Some e, Some conn => negb (bool_decide (hostaddr conn = fs_host e)) || negb (bool_decide (port_of conn = fs_port e))
  | _, _ => true
  end.

Definition RenewForeignServerLocalCache : F () :=
  s ← mget;
  mfor (hash_seq_order (ForeignServerConnectionManager s)) (λ c,
    s ← mget;
    if stale s c then finish (fc_conn c) ;; remove_connection (fc_serverId c) else mret ()) ;;
  s ← mget;
  (if decide (fs_LocalServerId s = -1) then
     match head (filter (λ e, fs_is_local e = true) (hash_seq_order (ForeignServerShmemCache s))) with
     | Some e =>
         mput (s <| fs_LocalServerId := fs_server_id e |> <| fs_LocalServerName := fs_server_name e |>) ;;
         if decide (fs_server_id e = -1) then melog PROGRAM_ERROR else mret ()
     | None => melog PROGRAM_ERROR
     end
   else mret ()) ;;
  mmodify (λ s, s <| ForeignServerLocalConnectionManagerVersion := ForeignServerShmemCacheVersion s |>).

Definition GetLocalServerId : F Z :=
  s ← mget;
  (if decide (fs_LocalServerId s = -1) then
     (if ForeignServerShmemCacheInvalid s then ReloadForeignServerShmemCache else mret ()) ;;
     RenewForeignServerLocalCache
   else mret ()) ;;
  s ← mget; mret (fs_LocalServerId s).

Definition GetLocalServerName : F string :=
  s ← mget;
  (if decide (fs_LocalServerId s = -1) then
     (if ForeignServerShmemCacheInvalid s then ReloadForeignServerShmemCache else mret ()) ;;
     RenewForeignServerLocalCache
   else mret ()) ;;
  s ← mget; mret (fs_LocalServerName s).

(** PGconnPrepare: the connection enters pipeline mode and prepares the
    commands on its server. *)
Definition PGconnPrepare (conn : PGconn) : F bool :=
  ok ← on_net (PQenterPipelineMode conn);
  if negb ok then mret false else
  ok ← on_net (PQsendQuery conn SELECT_cuckoo_prepare_commands);
  if negb ok then mret false else
  ok ← on_net (PQpipelineSync conn);
  if negb ok then mret false else
  res ← on_net (PQgetResult conn);
  match res with
  | Some (mkPGresult PGRES_TUPLES_OK [[VText "0"%string]]) =>
      res ← on_net (PQgetResult conn);
      match res with
      | Some _ => mret false
      | None =>
          res ← on_net (PQgetResult conn);
          match res with
          | Some (mkPGresult PGRES_PIPELINE_SYNC _) =>
              res ← on_net (PQgetResult conn);
              match res with Some _ => mret false | None => mret true end
          | _ => mret false
          end
      end
  | _ => mret false
  end.

(** The first loop of GetForeignServerConnection, for one server: whether a
    connection was started. *)
Definition start_connection (serverId : Z) : F bool :=
  s ← mget;
  let c := default (mkConnection _ _ serverId None CUCKOO_REMOTE_TRANSACTION_NONE) (find_connection serverId s) in
  put_connection c ;;
  c ← (match fc_conn c with
       | Some conn =>
           if decide (PQstatus conn (network s) = CONNECTION_BAD) then
             finish (Some conn) ;; put_connection (c <| fc_conn := None |>) ;; mret (c <| fc_conn := None |>)
           else mret c
       | None => mret c
       end);
  match fc_conn c with
  | Some _ => mret false
  | None =>
      s ← mget;
      match find_server serverId s with
      | None => melog PROGRAM_ERROR
      | Some e =>
          conn ← on_net (PQconnectStart (fs_host e) (fs_port e) (fs_user_name e));
          put_connection (mkConnection _ _ serverId (Some conn) CUCKOO_REMOTE_TRANSACTION_NONE) ;;
          mret true
      end
  end.

Fixpoint start_connections (ids : list Z) : F (list (Z * bool)) :=
  match ids with
  | [] => mret []
  | id :: ids' =>
      started ← start_connection id;
      rest ← start_connections ids';
      mret ((id, started) :: rest)
  end.

(** while ((status = PQstatus(conn)) != CONNECTION_OK), polled at most [fuel]
    times; the connection is good. *)
Fixpoint poll (fuel : nat) (conn : PGconn) : F bool :=
  match fuel with
  | O => mdiverge
  | S fuel' =>
      s ← mget;
      match PQstatus conn (network s) with
      | CONNECTION_OK => mret true
      | CONNECTION_BAD => mret false
      | CONNECTION_STARTED => on_net (λ n, ((), PQconnectPoll conn n)) ;; poll fuel' conn
      end
  end.

(** The second loop, for one server: connectSucceed stays true.  PQstatus of
    a null pointer is CONNECTION_BAD. *)
Definition complete_connection (fuel : nat) (serverId : Z) : F bool :=
  s ← mget;
  match find_connection serverId s with
  | None => mundefined
  | Some c =>
      valid ← (match fc_conn c with
               | None => mret false
               | Some conn => ok ← poll fuel conn; if ok : bool then PGconnPrepare conn else mret false
               end);
      if valid : bool then mret true
      else finish (fc_conn c) ;; put_connection (c <| fc_conn := None |>) ;; mret false
  end.

Fixpoint complete_connections (fuel : nat) (started : list (Z * bool)) : F bool :=
  match started with
  | [] => mret true
  | (id, new) :: started' =>
      ok ← (if new : bool then complete_connection fuel id else mret true);
      rest ← complete_connections fuel started';
      mret (ok && rest)
  end.

(** The entries of ForeignServerConnectionManager, by server id; [fuel] bounds
    the polls of a connection attempt. *)
Definition GetForeignServerConnection (fuel : nat) (foreignServerIdList : list Z) : F (list Z) :=
  wait_servers 2 ;;
  s ← mget;
  (if decide (ForeignServerLocalConnectionManagerVersion s < ForeignServerShmemCacheVersion s)
   then RenewForeignServerLocalCache else mret ()) ;;
  started ← start_connections foreignServerIdList;
  connectSucceed ← complete_connections fuel started;
  if connectSucceed : bool then mret foreignServerIdList else melog PROGRAM_ERROR.
End foreign_server.

(** ** The cache mirrors the relation *)
Section cache_lemmas.
Context {D : Type} `{!Libpq D, !PgEnv, !TextBuffer, !PgRelation fs_server_id Z.le}.

Abbreviation FState := ForeignState.

Lemma cached_id row : fs_server_id (cached row) = fs_server_id row.
Proof. done. Qed.

Lemma cached_ids (rows : list FormData_cuckoo_foreign_server) : fs_server_id <$> (cached <$> rows) = fs_server_id <$> rows.
Proof. rewrite <-list_fmap_compose. done. Qed.

Lemma reload_servers_spec rows cache :
  NoDup (fs_server_id <$> (cache ++ rows)) → Z.of_nat (length cache) ≤ FOREIGN_SERVER_NUM_MAX →
  if decide (Z.of_nat (length cache + length rows) ≤ FOREIGN_SERVER_NUM_MAX)
  then reload_servers rows cache = (cache ++ (cached <$> rows), false)
  else (reload_servers rows cache).2 = true.
Proof.
  revert cache. induction rows as [|row rows IH]; intros cache Hnd Hlen; simpl.
  { rewrite Nat.add_0_r, decide_True, app_nil_r by done. done. }
  destruct (decide (_ >= _)) as [Hge|Hlt]; [by rewrite decide_False by lia|].
  assert (fs_server_id row ∉ fs_server_id <$> cache) as Hnew.
  { rewrite fmap_app in Hnd. apply NoDup_app in Hnd as (_ & Hd & _). intros Hin. apply (Hd _ Hin). by left. }
  assert (hash_put fs_server_id (cached row) cache = cache ++ [cached row]) as ->
    by (unfold hash_put; by rewrite decide_False by exact Hnew).
  specialize (IH (cache ++ [cached row])). rewrite length_app in IH. simpl in IH.
  replace (length cache + S (length rows))%nat with (length cache + 1 + length rows)%nat by lia.
  rewrite <-!app_assoc in IH. ospecialize* IH; [rewrite !fmap_app in *; exact Hnd|lia|].
  destruct (decide (Z.of_nat (length cache + 1 + length rows) ≤ _)); exact IH.
Qed.

(** When the flag is clear, the cache holds the rows of the relation. *)
Definition mirrors (s : FState) : Prop :=
  ForeignServerShmemCacheInvalid s = false →
  ForeignServerShmemCache s = cached <$> index_scan (foreign_rel s) ∧
  Z.of_nat (length (index_scan (foreign_rel s))) ≤ FOREIGN_SERVER_NUM_MAX.

(** What the reload of the cache leaves alone. *)
Definition same_but_cache (s s' : FState) : Prop :=
  foreign_rel s' = foreign_rel s ∧ ForeignServerConnectionManager s' = ForeignServerConnectionManager s ∧
  ForeignServerLocalConnectionManagerVersion s' = ForeignServerLocalConnectionManagerVersion s ∧
  fs_LocalServerId s' = fs_LocalServerId s ∧ fs_LocalServerName s' = fs_LocalServerName s ∧ network s' = network s.

Lemma Reload_spec s :
  mirrors s →
  outcome_ok (ReloadForeignServerShmemCache s)
    (λ _ s', mirrors s' ∧ ForeignServerShmemCacheInvalid s' = false ∧ same_but_cache s s' ∧
       (if ForeignServerShmemCacheInvalid s
        then ForeignServerShmemCacheVersion s' = i32 (ForeignServerShmemCacheVersion s + 1) else s' = s))
    (λ e s', e = Cuckoo PROGRAM_ERROR ∧ ForeignServerShmemCacheInvalid s' = true ∧ same_but_cache s s' ∧
       ForeignServerShmemCacheVersion s' = ForeignServerShmemCacheVersion s ∧
       FOREIGN_SERVER_NUM_MAX < Z.of_nat (length (index_scan (foreign_rel s)))) False.
Proof.
  intros Hm. unfold ReloadForeignServerShmemCache. destruct (ForeignServerShmemCacheInvalid s) eqn:Hinv.
  2: { simpl. split; [done|]. split; [done|]. by split. }
  pose proof (reload_servers_spec (index_scan (foreign_rel s)) []) as Hr. simpl in Hr.
  ospecialize* Hr; [apply scan_keys_NoDup|done|]. destruct (decide _) as [Hle|Hgt].
  - rewrite Hr. simpl. split; [by intros _|]. done.
  - destruct (reload_servers _ _) as [cache []]; [|done]. simpl. split_and!; try done. lia.
Qed.

Lemma wait_servers_spec s :
  mirrors s →
  outcome_ok (wait_servers 2 s)
    (λ _ s', mirrors s' ∧ ForeignServerShmemCacheInvalid s' = false ∧ same_but_cache s s' ∧
       (if ForeignServerShmemCacheInvalid s
        then ForeignServerShmemCacheVersion s' = i32 (ForeignServerShmemCacheVersion s + 1) else s' = s))
    (λ e s', e = Cuckoo PROGRAM_ERROR ∧ ForeignServerShmemCacheInvalid s' = true ∧ same_but_cache s s' ∧
       ForeignServerShmemCacheVersion s' = ForeignServerShmemCacheVersion s ∧
       FOREIGN_SERVER_NUM_MAX < Z.of_nat (length (index_scan (foreign_rel s)))) False.
Proof.
  intros Hm. cbn [wait_servers]. destruct (ForeignServerShmemCacheInvalid s) eqn:Hinv.
  2: { simpl. split; [done|]. split; [done|]. by split. }
  pose proof (Reload_spec s Hm) as Hr. eapply outcome_ok_bind; [exact Hr|]. rewrite Hinv.
  intros [] s' (Hm' & Hi' & Hs & Hv). rewrite Hi'. simpl. done.
Qed.

Lemma mirrors_invalid s : ForeignServerShmemCacheInvalid s = true → mirrors s.
Proof. intros Hi Hf. congruence. Qed.
End cache_lemmas.

Section cache.
Context {D : Type} `{!Libpq D, !PgEnv, !TextBuffer, !PgRelation fs_server_id Z.le}.

(** The ids a caller asks for, from the rows of the relation. *)
Definition server_ids (exceptSelf exceptCn : bool) (rows : gmap Z FormData_cuckoo_foreign_server) : list Z :=
  fs_server_id <$> filter (λ r, wanted exceptSelf exceptCn r = true) (map_to_list rows).*2.

Lemma scan_rows (t : rel fs_server_id Z.le) : index_scan t ≡ₚ (map_to_list (visible t)).*2.
Proof. rewrite <-scan_map_to_list. rewrite <-list_fmap_compose. by rewrite list_fmap_id. Qed.

(** GetAllForeignServerId lists each server of the relation once, less
    the local one or the coordinator when the caller excludes them, whatever
    was inserted, moved or deleted before; it raises an error only when the
    relation has more than 128 rows. *)
Theorem GetAllForeignServerId_lists exceptSelf exceptCn s :
  mirrors s →
  outcome_ok (GetAllForeignServerId exceptSelf exceptCn s)
    (λ ids s', mirrors s' ∧ foreign_rel s' = foreign_rel s ∧ NoDup ids ∧
       ids ≡ₚ server_ids exceptSelf exceptCn (visible (foreign_rel s)))
    (λ e s', e = Cuckoo PROGRAM_ERROR ∧ mirrors s' ∧ FOREIGN_SERVER_NUM_MAX < Z.of_nat (size (visible (foreign_rel s))))
    False.
Proof.
  intros Hm. unfold GetAllForeignServerId. eapply outcome_ok_bind.
  { eapply outcome_ok_mono; [by apply wait_servers_spec|exact (λ a s H, H)| |done].
    intros e s' (He & Hi & Hs & _ & Hlt). split; [done|]. split; [by apply mirrors_invalid|]. by rewrite <-length_scan. }
  intros [] s' (Hm' & Hi & (Hrel & _) & _). rewrite bind_mget. destruct (Hm' Hi) as [Hc _]. simpl.
  assert (fs_server_id <$> filter (λ e, wanted exceptSelf exceptCn e = true) (hash_seq_order (ForeignServerShmemCache s'))
    ≡ₚ server_ids exceptSelf exceptCn (visible (foreign_rel s))) as Hp.
  { unfold server_ids. rewrite hash_seq_order_perm, Hc, Hrel, <-scan_rows, filter_fmap.
    rewrite <-list_fmap_compose. apply reflexivity. }
  split; [done|]. split; [done|]. split; [|done]. rewrite Hp. unfold server_ids. rewrite <-scan_rows.
  eapply sublist_NoDup; [apply (scan_keys_NoDup (foreign_rel s))|]. apply fmap_sublist, sublist_filter.
Qed.

(** *** Connections *)

(** A connection leads to where the cache says its server is. *)
Definition leads_to (e : FormData_cuckoo_foreign_server) (conn : PGconn) : Prop :=
  hostaddr conn = fs_host e ∧ port_of conn = fs_port e.

Definition good_connection (s : ForeignState) (c : ForeignServerConnection) : Prop :=
  ∀ conn, fc_conn c = Some conn → ∃ e, find_server (fc_serverId c) s = Some e ∧ leads_to e conn.

(** The backend's table agrees with the cache unless a newer version of the
    cache is still to be taken over. *)
Record connections_ok (s : ForeignState) : Prop := {
  co_mirrors : mirrors s;
  co_NoDup : NoDup (fc_serverId <$> ForeignServerConnectionManager s);
  co_version : ForeignServerLocalConnectionManagerVersion s ≤ ForeignServerShmemCacheVersion s;
  co_good : ForeignServerShmemCacheInvalid s = false →
    ForeignServerLocalConnectionManagerVersion s = ForeignServerShmemCacheVersion s →
    Forall (good_connection s) (ForeignServerConnectionManager s) }.

(** The table is up to date: what the loops of GetForeignServerConnection
    keep. *)
Record up_to_date (s : ForeignState) : Prop := {
  ud_mirrors : mirrors s;
  ud_valid : ForeignServerShmemCacheInvalid s = false;
  ud_NoDup : NoDup (fc_serverId <$> ForeignServerConnectionManager s);
  ud_version : ForeignServerLocalConnectionManagerVersion s = ForeignServerShmemCacheVersion s;
  ud_good : Forall (good_connection s) (ForeignServerConnectionManager s) }.

Lemma up_to_date_ok s : up_to_date s → connections_ok s.
Proof. intros []. split; [done|done|lia|done]. Qed.

Lemma good_cache s s' c : ForeignServerShmemCache s' = ForeignServerShmemCache s → good_connection s c → good_connection s' c.
Proof. intros Hc Hg conn Hconn. unfold find_server. rewrite Hc. by apply Hg. Qed.

Lemma up_to_date_net s n : up_to_date s → up_to_date (s <| network := n |>).
Proof. intros []. by split. Qed.

Lemma up_to_date_put s c :
  up_to_date s → good_connection s c → up_to_date (s <| ForeignServerConnectionManager ::= hash_put fc_serverId c |>).
Proof.
  intros [] Hg. split; simpl; [done|done|by apply hash_put_NoDup|done|].
  apply Forall_forall. intros x [->|[Hx _]]%hash_put_elem; [done|].
  rewrite Forall_forall in ud_good0. by apply ud_good0.
Qed.

(** The loop of RenewForeignServerLocalCache leaves no stale connection. *)
Definition renew_one (c : ForeignServerConnection) : M ForeignState () :=
  s ← mget; if stale s c then finish (fc_conn c) ;; remove_connection (fc_serverId c) else mret ().

Lemma finish_spec c s : ∃ n, finish c s = Ret () (s <| network := n |>).
Proof. destruct c as [c|]; simpl; [by eexists|]. exists (network s). by destruct s. Qed.

Lemma renew_loop l s :
  ∃ n l', mfor l renew_one s = Ret () (s <| network := n |> <| ForeignServerConnectionManager := l' |>) ∧
    sublist l' (ForeignServerConnectionManager s) ∧
    ∀ c, c ∈ l → stale s c = true → fc_serverId c ∉ fc_serverId <$> l'.
Proof.
  revert s. induction l as [|c l IH]; intros s; simpl.
  { exists (network s), (ForeignServerConnectionManager s). split; [by destruct s|]. split; [done|].
    by intros c Hc%not_elem_of_nil. }
  assert (∃ n l1, renew_one c s = Ret () (s <| network := n |> <| ForeignServerConnectionManager := l1 |>) ∧
    sublist l1 (ForeignServerConnectionManager s) ∧ (stale s c = true → fc_serverId c ∉ fc_serverId <$> l1))
    as (n1 & l1 & Hone & Hsub & Hst).
  { unfold renew_one. rewrite bind_mget. destruct (stale s c) eqn:Hst.
    - destruct (finish_spec (fc_conn c) s) as [n Hn]. erewrite bind_ret by exact Hn. unfold remove_connection.
      eexists n, _. split; [done|]. simpl. split; [apply sublist_filter|]. intros _.
      intros (x & Hk & Hx)%list_elem_of_fmap. by apply list_elem_of_filter in Hx as [Hne _].
    - exists (network s), (ForeignServerConnectionManager s). split; [by destruct s|]. done. }
  destruct (IH (s <| network := n1 |> <| ForeignServerConnectionManager := l1 |>)) as (n & l' & Hrun & Hsub' & Hst').
  exists n, l'. split; [by erewrite bind_ret by exact Hone|]. simpl in Hsub'. split; [by etrans|].
  intros c' [->|Hc']%elem_of_cons Hs; [|by apply Hst'].
  intros Hin. apply (Hst Hs). eapply elem_of_sublist; [done|by apply fmap_sublist].
Qed.

Lemma stale_false s c : stale s c = false → good_connection s c.
Proof.
  unfold stale, good_connection. destruct (find_server _ s) as [e|]; [|done]. destruct (fc_conn c) as [conn|]; [|done].
  intros [Hh Hp]%orb_false_iff conn' [= <-]. apply negb_false_iff, bool_decide_eq_true in Hh, Hp. by exists e.
Qed.

Lemma Renew_spec s :
  mirrors s → ForeignServerShmemCacheInvalid s = false → NoDup (fc_serverId <$> ForeignServerConnectionManager s) →
  ForeignServerLocalConnectionManagerVersion s ≤ ForeignServerShmemCacheVersion s →
  (ForeignServerLocalConnectionManagerVersion s = ForeignServerShmemCacheVersion s →
   Forall (good_connection s) (ForeignServerConnectionManager s)) →
  outcome_ok (RenewForeignServerLocalCache s)
    (λ _ s', up_to_date s' ∧ ForeignServerShmemCache s' = ForeignServerShmemCache s ∧ foreign_rel s' = foreign_rel s ∧
       fs_LocalServerId s' ≠ -1 ∧
       (if decide (fs_LocalServerId s = -1)
        then ∃ e, e ∈ ForeignServerShmemCache s ∧ fs_is_local e = true ∧ fs_server_id e = fs_LocalServerId s'
        else fs_LocalServerId s' = fs_LocalServerId s))
    (λ e s', e = Cuckoo PROGRAM_ERROR ∧ connections_ok s' ∧ fs_LocalServerId s = -1 ∧
       ∀ x, x ∈ ForeignServerShmemCache s → fs_is_local x = true → ∃ y, y ∈ ForeignServerShmemCache s ∧ fs_server_id y = -1)
    False.
Proof.
  intros Hm Hi Hnd Hv Hgood. unfold RenewForeignServerLocalCache. rewrite bind_mget. fold renew_one.
  destruct (renew_loop (hash_seq_order (ForeignServerConnectionManager s)) s) as (n & l' & Hrun & Hsub & Hst).
  erewrite bind_ret by exact Hrun. set (s1 := s <| network := n |> <| ForeignServerConnectionManager := l' |>).
  assert (Forall (good_connection s1) l') as Hg1.
  { apply Forall_forall. intros c Hc. apply (good_cache s); [done|]. apply stale_false, not_true_iff_false. intros Ht.
    apply (Hst c); [|done|by apply list_elem_of_fmap_2]. rewrite hash_seq_order_perm. by eapply elem_of_sublist. }
  assert (NoDup (fc_serverId <$> l')) as Hnd' by (eapply sublist_NoDup; [exact Hnd|by apply fmap_sublist]).
  assert (connections_ok s1) as Hok1 by by split.
  rewrite bind_mget. destruct (decide (fs_LocalServerId s = -1)) as [Hl|Hl].
  2: { rewrite decide_False by done. simpl. split; [by split|]. done. }
  rewrite decide_True by done. destruct (head _) as [e|] eqn:Hh.
  - assert (e ∈ filter (λ e, fs_is_local e = true) (hash_seq_order (ForeignServerShmemCache s1))) as He
      by (apply head_Some_elem_of; exact Hh).
    apply list_elem_of_filter in He as [Hloc He]. rewrite hash_seq_order_perm in He. rewrite bind_assoc, bind_mput.
    destruct (decide (fs_server_id e = -1)) as [Hm1|Hm1]; simpl.
    + split; [done|]. split; [by split|]. split; [done|]. intros. by exists e.
    + split; [by split|]. split; [done|]. split; [done|]. split; [done|]. by exists e.
  - simpl. split; [done|]. split; [done|]. split; [done|]. intros x Hx Hloc. exfalso.
    assert (x ∈ filter (λ e, fs_is_local e = true) (hash_seq_order (ForeignServerShmemCache s1))) as Hin.
    { apply list_elem_of_filter. split; [done|]. by rewrite hash_seq_order_perm. }
    destruct (filter _ _); [by apply not_elem_of_nil in Hin|done].
Qed.

(** Code that only talks to the network; [W] says whether it may wait for
    ever. *)
Definition net_only {A} (m : M ForeignState A) (W : Prop) : Prop :=
  ∀ s, outcome_ok (m s) (λ _ s', ∃ n, s' = s <| network := n |>) (λ _ _, False) W.

Lemma net_ret {A} (a : A) W : net_only (mret a) W.
Proof. intros s. exists (network s). by destruct s. Qed.

Lemma net_on {A} (f : net → A * net) W : net_only (on_net f) W.
Proof. intros s. unfold on_net. destruct (f (network s)) as [a n]. by exists n. Qed.

Lemma net_bind {A B} (m : M ForeignState A) (f : A → M ForeignState B) W :
  net_only m W → (∀ a, net_only (f a) W) → net_only (m ≫= f) W.
Proof.
  intros Hm Hf s. eapply outcome_ok_bind; [apply Hm|]. intros a s' [n ->].
  eapply outcome_ok_mono; [apply Hf| |done..]. by intros b s'' [n' ->]; exists n'.
Qed.

Lemma PGconnPrepare_net conn : net_only (PGconnPrepare conn) False.
Proof.
  unfold PGconnPrepare. repeat first [apply net_bind; [apply net_on|intros ?]|apply net_ret|case_match].
Qed.

(** Some connection attempt is in progress for as long as it is polled. *)
Definition slow (fuel : nat) : Prop :=
  ∃ conn n, ∀ k, (k < fuel)%nat → PQstatus conn (Nat.iter k (PQconnectPoll conn) n) = CONNECTION_STARTED.

Lemma poll_spec fuel conn s :
  outcome_ok (poll fuel conn s) (λ _ s', ∃ n, s' = s <| network := n |>) (λ _ _, False)
    (∀ k, (k < fuel)%nat → PQstatus conn (Nat.iter k (PQconnectPoll conn) (network s)) = CONNECTION_STARTED).
Proof.
  revert s. induction fuel as [|fuel IH]; intros s; cbn [poll]; [intros k Hk; lia|].
  rewrite bind_mget. destruct (PQstatus conn (network s)) eqn:Est.
  - by apply (net_ret true False s).
  - by apply (net_ret false False s).
  - unfold on_net. unfold mbind at 1, M_bind at 1. cbv beta iota.
    eapply outcome_ok_mono; [apply IH| |done|].
    + intros a s' [n ->]. by exists n.
    + intros Hk k Hlt. destruct k as [|k]; [done|]. rewrite Nat.iter_succ_r. apply (Hk k). lia.
Qed.

Lemma poll_net fuel conn : net_only (poll fuel conn) (slow fuel).
Proof. intros s. eapply outcome_ok_mono; [apply poll_spec|done|done|]. intros Hk. by exists conn, (network s). Qed.

Definition connected (s : ForeignState) (id : Z) : Prop :=
  ∃ conn st, find_connection id s = Some (mkConnection _ _ id (Some conn) st).

Lemma find_put_same c s :
  NoDup (fc_serverId <$> ForeignServerConnectionManager s) →
  find_connection (fc_serverId c) (s <| ForeignServerConnectionManager ::= hash_put fc_serverId c |>) = Some c.
Proof. intros Hnd. apply hash_find_elem; [by apply hash_put_NoDup|]. simpl. apply hash_put_in. Qed.

Lemma find_put_other c s id :
  NoDup (fc_serverId <$> ForeignServerConnectionManager s) → id ≠ fc_serverId c →
  find_connection id (s <| ForeignServerConnectionManager ::= hash_put fc_serverId c |>) = find_connection id s.
Proof.
  intros Hnd Hne. unfold find_connection. simpl. destruct (hash_find _ id (ForeignServerConnectionManager s)) as [x|] eqn:E.
  - apply hash_find_Some in E as [Hx <-]. apply hash_find_elem; [by apply hash_put_NoDup|]. by apply hash_put_other.
  - apply hash_find_None. rewrite hash_put_keys. apply hash_find_None in E. case_decide; [done|].
    rewrite elem_of_app, list_elem_of_singleton. by intros [?|?].
Qed.

Lemma connected_put id conn st s :
  NoDup (fc_serverId <$> ForeignServerConnectionManager s) →
  connected (s <| ForeignServerConnectionManager ::= hash_put fc_serverId (mkConnection _ _ id (Some conn) st) |>) id ∧
  ∀ j, connected s j → connected (s <| ForeignServerConnectionManager ::= hash_put fc_serverId (mkConnection _ _ id (Some conn) st) |>) j.
Proof.
  intros Hnd. assert (connected (s <| ForeignServerConnectionManager ::= hash_put fc_serverId (mkConnection _ _ id (Some conn) st) |>) id)
    as Hid by (exists conn, st; by apply (find_put_same (mkConnection _ _ id (Some conn) st))).
  split; [done|]. intros j Hj. destruct (decide (j = id)) as [->|Hne]; [done|].
  destruct Hj as (cj & sj & Hj). exists cj, sj. by rewrite find_put_other.
Qed.

Lemma find_connection_id id s c : find_connection id s = Some c → fc_serverId c = id ∧ c ∈ ForeignServerConnectionManager s.
Proof. by intros [? ?]%hash_find_Some. Qed.

(** What the two loops keep: the cache and the relation. *)
Definition same_servers (s s' : ForeignState) : Prop :=
  ForeignServerShmemCache s' = ForeignServerShmemCache s ∧ foreign_rel s' = foreign_rel s.

(** Writing an entry the table has already changes nothing. *)
Lemma put_again c s :
  NoDup (fc_serverId <$> ForeignServerConnectionManager s) → c ∈ ForeignServerConnectionManager s →
  s <| ForeignServerConnectionManager ::= hash_put fc_serverId c |> = s.
Proof.
  intros Hnd Hc. assert (hash_put fc_serverId c (ForeignServerConnectionManager s) = ForeignServerConnectionManager s) as Heq;
    [|destruct s; unfold set_field; simpl in *; by rewrite Heq].
  unfold hash_put. rewrite decide_True by by apply list_elem_of_fmap_2.
  rewrite <-(list_fmap_id (ForeignServerConnectionManager s)) at 2. apply list_fmap_ext. intros i x Hx.
  case_decide as Hk; [|done]. apply list_elem_of_lookup_2 in Hx. simpl.
  pose proof (hash_find_elem fc_serverId _ _ Hnd Hc) as H1'. pose proof (hash_find_elem fc_serverId _ _ Hnd Hx) as H2'.
  rewrite Hk in H2'. congruence.
Qed.

Lemma up_to_date_none s id st :
  up_to_date s → up_to_date (s <| ForeignServerConnectionManager ::= hash_put fc_serverId (mkConnection _ _ id None st) |>).
Proof. intros Hs. by apply up_to_date_put. Qed.

Lemma bind_put {B} c (f : () → M ForeignState B) s :
  (put_connection c ≫= f) s = f () (s <| ForeignServerConnectionManager ::= hash_put fc_serverId c |>).
Proof. done. Qed.

(** Open a connection to a server of the cache. *)
Lemma open_spec id s st :
  up_to_date s →
  find_connection id s = Some (mkConnection _ _ id None st) →
  outcome_ok
    ((s ← mget;
      match find_server id s with
      | None => melog PROGRAM_ERROR
      | Some e =>
          conn ← on_net (PQconnectStart (fs_host e) (fs_port e) (fs_user_name e));
          put_connection (mkConnection _ _ id (Some conn) CUCKOO_REMOTE_TRANSACTION_NONE) ;;
          mret true
      end) s)
    (λ _ s', up_to_date s' ∧ same_servers s s' ∧ connected s' id ∧ ∀ j, connected s j → connected s' j)
    (λ e s', e = Cuckoo PROGRAM_ERROR ∧ up_to_date s' ∧ find_server id s = None) False.
Proof.
  intros Hs Hf. rewrite bind_mget. destruct (find_server id s) as [e|] eqn:He; [|done].
  destruct (PQconnectStart (fs_host e) (fs_port e) (fs_user_name e) (network s)) as [conn n] eqn:Hc.
  erewrite bind_ret by (unfold on_net; rewrite Hc; reflexivity). rewrite bind_put.
  assert (up_to_date (s <| network := n |>)) as Hs' by by apply up_to_date_net.
  destruct (connected_put id conn CUCKOO_REMOTE_TRANSACTION_NONE (s <| network := n |>)) as [Hid Hj]; [apply Hs'|].
  simpl. split; [|done]. apply up_to_date_put; [done|]. intros conn' [= <-]. exists e. split; [done|].
  pose proof (connect_host (fs_host e) (fs_port e) (fs_user_name e) (network s)) as Hh.
  pose proof (connect_port (fs_host e) (fs_port e) (fs_user_name e) (network s)) as Hp. rewrite Hc in Hh, Hp. by split.
Qed.

Lemma start_spec id s :
  up_to_date s →
  outcome_ok (start_connection id s)
    (λ _ s', up_to_date s' ∧ same_servers s s' ∧ connected s' id ∧
       ∀ j, connected s j → connected s' j)
    (λ e s', e = Cuckoo PROGRAM_ERROR ∧ up_to_date s' ∧ find_server id s = None) False.
Proof.
  intros Hs. unfold start_connection. rewrite bind_mget.
  destruct (find_connection id s) as [c|] eqn:Hf; simpl default.
  - apply find_connection_id in Hf as Hc. destruct Hc as [Hid Hin]. rewrite bind_put.
    rewrite put_again; [|apply Hs|done].
    destruct c as [id' [conn|] st]; simpl in Hid; subst id'; simpl fc_conn; cbv iota.
    + destruct (decide (PQstatus conn (network s) = CONNECTION_BAD)) as [Hbad|Hgood].
      * rewrite bind_assoc. destruct (finish_spec (Some conn) s) as [n Hn]. erewrite bind_ret by exact Hn.
        rewrite bind_assoc. rewrite bind_put, bind_mret.
        set (s1 := _ <| ForeignServerConnectionManager ::= _ |>).
        assert (up_to_date s1) as Hs1 by (apply up_to_date_none; by apply up_to_date_net).
        eapply outcome_ok_mono; [apply (open_spec id s1 st Hs1)| |done|done].
        -- apply (find_put_same (mkConnection _ _ id None st)). apply Hs.
        -- intros b s' (H1' & H2' & H3' & H4'). split; [done|]. split; [done|]. split; [done|].
           intros j Hj. destruct (decide (j = id)) as [->|Hne]; [done|]. apply H4'. destruct Hj as (cj & sj & Hj).
           exists cj, sj. unfold s1. rewrite find_put_other; [done|apply Hs|done].
      * rewrite bind_mret. simpl. split; [done|]. split; [done|]. split; [by exists conn, st|done].
    + rewrite bind_mret. simpl fc_conn. cbv iota. by apply (open_spec id s st).
  - rewrite bind_put. simpl fc_conn. cbv iota. rewrite bind_mret. simpl fc_conn. cbv iota.
    set (s1 := _ <| ForeignServerConnectionManager ::= _ |>). assert (up_to_date s1) as Hs1 by by apply up_to_date_none.
    eapply outcome_ok_mono; [apply (open_spec id s1 CUCKOO_REMOTE_TRANSACTION_NONE Hs1)| |done|done].
    + apply (find_put_same (mkConnection _ _ id None _)). apply Hs.
    + intros b s' (H1' & H2' & H3' & H4'). split; [done|]. split; [done|]. split; [done|].
      intros j Hj. destruct (decide (j = id)) as [->|Hne]; [done|]. apply H4'. destruct Hj as (cj & sj & Hj).
      exists cj, sj. unfold s1. rewrite find_put_other; [done|apply Hs|done].
Qed.

Lemma starts_spec ids s :
  up_to_date s →
  outcome_ok (start_connections ids s)
    (λ l s', up_to_date s' ∧ same_servers s s' ∧ l.*1 = ids ∧ (∀ j, j ∈ ids ∨ connected s j → connected s' j))
    (λ e s', e = Cuckoo PROGRAM_ERROR ∧ up_to_date s' ∧ ∃ id, id ∈ ids ∧ find_server id s = None) False.
Proof.
  revert s. induction ids as [|id ids IH]; intros s Hs; simpl.
  { split; [done|]. split; [done|]. split; [done|]. by intros j [Hj%not_elem_of_nil|?]. }
  eapply outcome_ok_bind.
  { eapply outcome_ok_mono; [by apply start_spec|exact (λ a s H, H)| |done]. intros e s' (H1' & H2' & H3').
    split; [done|]. split; [done|]. exists id. split; [by left|done]. }
  intros b s1 (Hs1 & [Hc1 Hr1] & Hid & Hj1). eapply outcome_ok_bind.
  { eapply outcome_ok_mono; [by apply IH|exact (λ a s H, H)| |done]. intros e s' (H1' & H2' & j & Hj & Hn).
    split; [done|]. split; [done|]. exists j. split; [by right|]. unfold find_server in *. by rewrite <-Hc1. }
  intros l s2 (Hs2 & [Hc2 Hr2] & Hl & Hj2). simpl. split; [done|]. split; [split; congruence|]. split; [by f_equal|].
  intros j [[->|Hj]%elem_of_cons|Hj]; apply Hj2; [by right|by left|right; by apply Hj1].
Qed.

(** The server has an entry in the table, with or without a connection. *)
Definition has_entry (s : ForeignState) (id : Z) : Prop := id ∈ fc_serverId <$> ForeignServerConnectionManager s.

Lemma connected_entry s id : connected s id → has_entry s id.
Proof. intros (conn & st & [Hin _]%hash_find_Some). by apply (list_elem_of_fmap_2 fc_serverId _ _ Hin). Qed.

Lemma put_entry c s j :
  has_entry s j → has_entry (s <| ForeignServerConnectionManager ::= hash_put fc_serverId c |>) j.
Proof. unfold has_entry. simpl. rewrite hash_put_keys. case_decide; [done|]. rewrite elem_of_app. by left. Qed.

Lemma complete_spec fuel id s :
  up_to_date s → has_entry s id →
  outcome_ok (complete_connection fuel id s)
    (λ ok s', up_to_date s' ∧ same_servers s s' ∧ (∀ j, has_entry s j → has_entry s' j) ∧
       (ok = true → ∀ j, connected s j → connected s' j))
    (λ _ _, False) (slow fuel).
Proof.
  intros Hs Hent. unfold complete_connection. rewrite bind_mget.
  destruct (find_connection id s) as [c|] eqn:Hf; [|by apply hash_find_None in Hf].
  eapply outcome_ok_bind.
  { instantiate (1 := λ _ s', ∃ n, s' = s <| network := n |>). destruct (fc_conn c) as [conn|].
    - apply (net_bind _ _ (slow fuel)); [apply poll_net|]. intros []; [|apply net_ret].
      intros s1. eapply outcome_ok_mono; [apply PGconnPrepare_net|done..].
    - apply net_ret. }
  intros [] s1 [n ->].
  - simpl. split; [by apply up_to_date_net|]. by split.
  - destruct (finish_spec (fc_conn c) (s <| network := n |>)) as [n' Hn']. erewrite bind_ret by exact Hn'.
    rewrite bind_put. destruct c as [id' conn st]. simpl. split; [|split; [done|]].
    + apply (up_to_date_none (s <| network := n |> <| network := n' |>)). by do 2 apply up_to_date_net.
    + split; [|done]. intros j Hj. by apply (put_entry _ (s <| network := n |> <| network := n' |>)).
Qed.

Lemma completes_spec fuel l s :
  up_to_date s → (∀ j, j ∈ l.*1 → has_entry s j) →
  outcome_ok (complete_connections fuel l s)
    (λ ok s', up_to_date s' ∧ same_servers s s' ∧ (ok = true → ∀ j, connected s j → connected s' j))
    (λ _ _, False) (slow fuel).
Proof.
  revert s. induction l as [|[id new] l IH]; intros s Hs Hent; simpl; [done|]. eapply outcome_ok_bind.
  { instantiate (1 := λ ok s', up_to_date s' ∧ same_servers s s' ∧ (∀ j, has_entry s j → has_entry s' j) ∧
       (ok = true → ∀ j, connected s j → connected s' j)). destruct new; [|done].
    eapply complete_spec; [done|]. apply Hent. by left. }
  intros ok s1 (Hs1 & [Hc1 Hr1] & He1 & Hk1). eapply outcome_ok_bind.
  { apply IH; [done|]. intros j Hj. apply He1, Hent. by right. }
  intros ok' s2 (Hs2 & [Hc2 Hr2] & Hk2). simpl. split; [done|]. split; [split; congruence|].
  intros [-> ->]%andb_true_iff j Hj. apply Hk2; [done|]. by apply Hk1.
Qed.

Lemma i32_succ z : 0 ≤ z < INT32_MAX → i32 (z + 1) = z + 1.
Proof. intros Hz. apply i32_small. unfold INT32_MAX in Hz. lia. Qed.

(** GetForeignServerConnection hands out, for every server asked for, a
    connection to the address the relation gives for it now: connections
    opened before the server moved or was dropped are closed first, dead ones
    are opened again.  It raises an error when a server is unknown, cannot be
    reached or no row is local, and then the table is still in order; it
    waits only for a connection attempt that stays in progress. *)
Theorem GetForeignServerConnection_current fuel ids s :
  connections_ok s → 0 ≤ ForeignServerShmemCacheVersion s < INT32_MAX →
  outcome_ok (GetForeignServerConnection fuel ids s)
    (λ r s', r = ids ∧ connections_ok s' ∧ foreign_rel s' = foreign_rel s ∧
       ∀ id, id ∈ ids → ∃ conn st row,
         find_connection id s' = Some (mkConnection _ _ id (Some conn) st) ∧
         visible (foreign_rel s) !! id = Some row ∧ leads_to (cached row) conn)
    (λ e s', e = Cuckoo PROGRAM_ERROR ∧ connections_ok s') (slow fuel).
Proof.
  intros Hs Hver. unfold GetForeignServerConnection. eapply outcome_ok_bind.
  { eapply outcome_ok_mono; [apply wait_servers_spec, Hs|exact (λ a s H, H)| |done].
    intros e s' (-> & Hi & (_ & Hc & Hl & _) & Hv & _). split; [done|]. destruct Hs. split; rewrite ?Hc, ?Hl, ?Hv; try done.
    - by apply mirrors_invalid.
    - congruence. }
  intros [] s1 (Hm1 & Hi1 & (Hr1 & Hc1 & Hl1 & _) & Hv1).
  assert (ForeignServerLocalConnectionManagerVersion s1 ≤ ForeignServerShmemCacheVersion s1 ∧
    (ForeignServerLocalConnectionManagerVersion s1 = ForeignServerShmemCacheVersion s1 →
     Forall (good_connection s1) (ForeignServerConnectionManager s1))) as [Hle1 Hg1].
  { destruct Hs as [_ _ Hle Hg]. rewrite Hl1. destruct (ForeignServerShmemCacheInvalid s) eqn:Hi.
    - rewrite Hv1, i32_succ by done. split; [lia|]. intros; lia.
    - subst s1. split; [done|]. intros Heq. by apply Hg. }
  assert (NoDup (fc_serverId <$> ForeignServerConnectionManager s1)) as Hnd1 by (rewrite Hc1; apply Hs).
  rewrite bind_mget. eapply outcome_ok_bind.
  { instantiate (1 := λ _ s', up_to_date s' ∧ same_servers s1 s'). destruct (decide (_ < _)) as [Hlt|Hge].
    - eapply outcome_ok_mono; [by apply Renew_spec| | |done].
      + intros _ s' (Hu & Hc & Hr & _). done.
      + by intros e s' (-> & Hok & _).
    - simpl. split; [|done]. split; [done|done|done|lia|]. apply Hg1. lia. }
  intros [] s2 [Hu2 [Hc2 Hr2]]. eapply outcome_ok_bind.
  { eapply outcome_ok_mono; [by apply starts_spec|exact (λ a s H, H)| |done]. intros e s' (-> & Hu & _).
    split; [done|by apply up_to_date_ok]. }
  intros l s3 (Hu3 & [Hc3 Hr3] & Hl3 & Hj3). eapply outcome_ok_bind.
  { eapply outcome_ok_mono; [apply completes_spec; [done|]|exact (λ a s H, H)|done|done].
    intros j Hj. apply connected_entry, Hj3. left. by rewrite Hl3 in Hj. }
  intros [] s4 (Hu4 & [Hc4 Hr4] & Hj4); simpl; [|split; [done|by apply up_to_date_ok]].
  split; [done|]. split; [by apply up_to_date_ok|]. split; [congruence|]. intros id Hid.
  destruct (Hj4 eq_refl id) as (conn & st & Hf); [apply Hj3; by left|]. exists conn, st.
  pose proof (ud_good _ Hu4) as Hg. rewrite Forall_forall in Hg.
  apply find_connection_id in Hf as Hin. destruct Hin as [_ Hin].
  destruct (Hg _ Hin conn eq_refl) as (e & He & Hto). simpl in He.
  apply hash_find_Some in He as [He Hid']. destruct (ud_mirrors _ Hu4) as [Hc _]; [apply Hu4|].
  rewrite Hc in He. apply list_elem_of_fmap in He as (row & -> & Hrow). exists row. split; [done|]. split; [|done].
  apply scan_elem in Hrow. assert (foreign_rel s4 = foreign_rel s) as <- by congruence. by rewrite <-Hid'.
Qed.
End cache.
