(* ===== verification/RemoteComm.v ===== *)
(** * Commands to other servers and two-phase commit
    (distributed_backend/remote_comm_cuckoo.c, the transaction records of
    transaction/transaction_cleanup.c and the callback of
    transaction/transaction.c)

    A handler queues commands per server and sends them together; a server
    that gets a command which writes is first sent BEGIN.  When the
    transaction of the backend commits, the servers that have written prepare
    first, if more than one server has written, and commit once the backend
    has committed. *)

From stdpp Require Import pretty.
From S2P Require Import Prelude Pg ForeignServer.

(** ** Data *)

Inductive CuckooSupportMetaService :=
  | PLAIN_COMMAND | MKDIR | MKDIR_SUB_MKDIR | MKDIR_SUB_CREATE | CREATE | STAT | OPEN | CLOSE | UNLINK | READDIR
  | OPENDIR | RMDIR | RMDIR_SUB_RMDIR | RMDIR_SUB_UNLINK | RENAME | RENAME_SUB_RENAME_LOCALLY | RENAME_SUB_CREATE
  | UTIMENS | CHOWN | CHMOD | NOT_SUPPORTED.
#[global] Instance CuckooSupportMetaService_eq_dec : EqDecision CuckooSupportMetaService.
Proof. solve_decision. Defined.

Definition REMOTE_COMMAND_FLAG_BEGIN_TYPE_MASK : Z := 3.
Definition REMOTE_COMMAND_FLAG_NO_BEGIN : Z := 0.
Definition REMOTE_COMMAND_FLAG_NEED_TRANSACTION_SNAPSHOT : Z := 1.
Definition REMOTE_COMMAND_FLAG_WRITE : Z := 2.

Definition MAX_TRANSACTION_GID_LENGTH : nat := 127.
Definition CUCKOO_TRANSACTION_2PC_HEAD : string := "cuckoo_xact_".

(** metaService, count and the data of the union. *)
Inductive RemoteCommand (D : Type) :=
  | PlainCommand (command : Query D)
  | MetaCall (metaService : CuckooSupportMetaService) (count : Z) (param : D).
Arguments PlainCommand {D} _.
Arguments MetaCall {D} _ _ _.

Record RemoteConnectionCommandData (D : Type) := mkCommandData {
  rcd_serverId : Z;
  commandFlag : Z;
  remoteCommandList : list (RemoteCommand D) }.
Arguments mkCommandData {D} _ _ _.
Arguments rcd_serverId {D} _.
Arguments commandFlag {D} _.
Arguments remoteCommandList {D} _.
#[global] Instance eta_command_data {D} : Eta (RemoteConnectionCommandData D) := λ c,
  mkCommandData (rcd_serverId c) (commandFlag c) (remoteCommandList c).

Record FormData_cuckoo_distributed_transaction := mkRecord { dt_nodeId : Z; dt_gid : string }.
Definition dt_key (r : FormData_cuckoo_distributed_transaction) : Z * string := (dt_nodeId r, dt_gid r).

Section remote_comm.
Context {D : Type} `{!Libpq D, !PgEnv, !Collation, !TextBuffer, !PgRelation fs_server_id Z.le,
          !PgRelation dt_key id_text_le}.
(** MetaServiceTypeEncode; a bound on the polls of a connection attempt and
    on the results of one pipeline; GetTopTransactionId(). *)
Context (MetaServiceTypeEncode : CuckooSupportMetaService → Z) (fuel : nat) (TopTransactionId : N).

(** The statics of the backend, the records of prepared transactions
    (cuckoo_distributed_transaction) and the shared table of the transactions
    in progress. *)
Record RemoteState := mkRemote {
  rm_foreign : ForeignState;
  RemoteConnectionCommandCache : option (list (RemoteConnectionCommandData D));
  LocalServerWrite : bool;
  RemoteTransactionGid : string;
  transaction_rel : rel dt_key id_text_le;
  InprogressTransactions : list string }.
#[global] Instance eta_RemoteState : Eta RemoteState := λ s,
  mkRemote (rm_foreign s) (RemoteConnectionCommandCache s) (LocalServerWrite s) (RemoteTransactionGid s)
    (transaction_rel s) (InprogressTransactions s).

Abbreviation R := (M RemoteState).

Definition on_foreign {A} (m : M ForeignState A) : R A := mzoom rm_foreign (λ f s, s <| rm_foreign := f |>) m.

(** The connection and the transaction state of an entry that
    GetForeignServerConnection has returned. *)
Definition get_connection (serverId : Z) : R (PGconn * CuckooRemoteTransactionState) :=
  s ← mget;
  match find_connection serverId (rm_foreign s) with
  | Some (mkConnection _ _ _ (Some conn) st) => mret (conn, st)
  | _ => mundefined
  end.
Definition set_transactionState (serverId : Z) (st : CuckooRemoteTransactionState) : R () :=
  s ← mget;
  match find_connection serverId (rm_foreign s) with
  | Some c => on_foreign (put_connection (c <| transactionState := st |>))
  | None => mundefined
  end.

Definition send (conn : PGconn) (q : Query D) : R bool := on_foreign (on_net (PQsendQuery conn q)).
Definition pipeline_sync (conn : PGconn) : R bool := on_foreign (on_net (PQpipelineSync conn)).

(** The results are also kept in a list until they are freed. *)
Definition FetchPGresultAndMark (conn : PGconn) : R (option (PGresult D)) := on_foreign (on_net (PQgetResult conn)).

(** PQresultStatus of a null pointer is PGRES_FATAL_ERROR. *)
Definition status_of (res : option (PGresult D)) : ExecStatusType :=
  match res with Some r => PQresultStatus r | None => PGRES_FATAL_ERROR end.

(** ** Transactions in progress and their records *)

Definition AddInprogressTransaction (gid : string) : R () :=
  s ← mget;
  if decide (gid ∈ InprogressTransactions s) then melog PROGRAM_ERROR
  else mput (s <| InprogressTransactions ::= λ l, l ++ [gid] |>).

(** A transaction that is not there only gives a warning. *)
Definition RemoveInprogressTransaction (gid : string) : R () :=
  mmodify (λ s, s <| InprogressTransactions ::= filter (λ g, g ≠ gid) |>).

Definition Write2PCRecord (serverId : Z) (gid : string) : R () :=
  s ← mget;
  match CatalogTupleInsert (transaction_rel s) (mkRecord serverId gid) with
  | None => mpgerror UniqueViolation
  | Some t => mput (s <| transaction_rel := t |>)
  end.

Definition ClearRemoteTransactionGid : R () :=
  s ← mget;
  (if decide (RemoteTransactionGid s = ""%string) then mret ()
   else RemoveInprogressTransaction (RemoteTransactionGid s)) ;;
  mmodify (λ s, s <| RemoteTransactionGid := ""%string |>).

(** ** Queueing commands *)

Definition ClearRemoteConnectionCommand : R () :=
  mmodify (λ s, s <| RemoteConnectionCommandCache := None |> <| LocalServerWrite := false |>
                  <| RemoteTransactionGid := ""%string |>).

Definition RegisterLocalProcessFlag (readOnly : bool) : R () :=
  if readOnly then mret () else mmodify (λ s, s <| LocalServerWrite := true |>).

Definition IsLocalWrite : R bool := s ← mget; mret (LocalServerWrite s).

Definition RemoteConnectionCommandCacheInit : R () :=
  mmodify (λ s, s <| RemoteConnectionCommandCache := Some [] |>).

Definition cache_init_if_null : R () :=
  s ← mget;
  match RemoteConnectionCommandCache s with None => RemoteConnectionCommandCacheInit | Some _ => mret () end.

(** Append a command for one server to its entry. *)
Definition append_for (remoteCommand : RemoteCommand D) (flag serverId : Z)
    (cache : list (RemoteConnectionCommandData D)) : list (RemoteConnectionCommandData D) :=
  let e := default (mkCommandData serverId 0 []) (hash_find rcd_serverId serverId cache) in
  hash_put rcd_serverId
    (e <| commandFlag := Z.lor (commandFlag e) flag |> <| remoteCommandList := remoteCommandList e ++ [remoteCommand] |>)
    cache.

Definition CuckooAppendRemoteCommandToWorkerList (remoteCommand : RemoteCommand D) (flag : Z) (workerIdList : list Z)
    : R () :=
  cache_init_if_null ;;
  mfor workerIdList (λ serverId,
    mmodify (λ s, s <| RemoteConnectionCommandCache ::= fmap (append_for remoteCommand flag serverId) |>)).

Definition CuckooPlainCommandOnWorkerList (command : Query D) (flag : Z) (workerIdList : list Z) : R () :=
  cache_init_if_null ;; CuckooAppendRemoteCommandToWorkerList (PlainCommand command) flag workerIdList.

Definition CuckooMetaCallOnWorkerList (metaService : CuckooSupportMetaService) (count : Z) (param : D) (flag : Z)
    (workerIdList : list Z) : R () :=
  if decide (metaService = PLAIN_COMMAND) then melog PROGRAM_ERROR
  else
    cache_init_if_null ;;
    CuckooAppendRemoteCommandToWorkerList (MetaCall metaService count param) flag workerIdList.

(** ** Sending commands *)

Definition CheckPQpipelineSyncFinished (conn : PGconn) : R () :=
  res ← FetchPGresultAndMark conn;
  if decide (status_of res ≠ PGRES_PIPELINE_SYNC) then melog PROGRAM_ERROR
  else
    res ← FetchPGresultAndMark conn;
    match res with Some _ => melog PROGRAM_ERROR | None => mret () end.

(** Fetch until two null results in a row. *)
Fixpoint clear_results (n : nat) (conn : PGconn) (hasUnfetchedPGresult : bool) : R bool :=
  match n with
  | O => mdiverge
  | S n' =>
      res ← FetchPGresultAndMark conn;
      match res with
      | Some _ => clear_results n' conn true
      | None =>
          res ← FetchPGresultAndMark conn;
          match res with
          | Some _ => clear_results n' conn true
          | None => mret hasUnfetchedPGresult
          end
      end
  end.

Definition ClearPGresultInPGconn (conn : PGconn) : R bool := clear_results fuel conn false.

Definition query_of (c : RemoteCommand D) : Query D :=
  match c with
  | PlainCommand command => command
  | MetaCall metaService count param => cs_meta_call (MetaServiceTypeEncode metaService) count param
  end.

(** A send that fails raises an error. *)
Definition send_or_fail (conn : PGconn) (q : Query D) : R () :=
  ok ← send conn q; if ok : bool then mret () else melog REMOTE_QUERY_FAILED.

(** The first loop of CuckooSendCommandAndWaitForResult, for one server:
    whether BEGIN was sent. *)
Definition send_commands (e : RemoteConnectionCommandData D) : R bool :=
  c ← get_connection (rcd_serverId e);
  let '(conn, st) := c in
  ClearPGresultInPGconn conn ;;
  let begin := bool_decide (st = CUCKOO_REMOTE_TRANSACTION_NONE ∧
                 Z.land (commandFlag e) REMOTE_COMMAND_FLAG_BEGIN_TYPE_MASK ≠ REMOTE_COMMAND_FLAG_NO_BEGIN) in
  (if begin then send_or_fail conn BEGIN else mret ()) ;;
  mfor (remoteCommandList e) (λ c, send_or_fail conn (query_of c)) ;;
  ok ← pipeline_sync conn;
  (if ok : bool then mret () else melog REMOTE_QUERY_FAILED) ;;
  (if decide (st = CUCKOO_REMOTE_TRANSACTION_NONE) then
     if decide (Z.land (commandFlag e) REMOTE_COMMAND_FLAG_WRITE ≠ 0) then
       set_transactionState (rcd_serverId e) CUCKOO_REMOTE_TRANSACTION_BEGIN_FOR_WRITE
     else if decide (Z.land (commandFlag e) REMOTE_COMMAND_FLAG_NEED_TRANSACTION_SNAPSHOT ≠ 0) then
       set_transactionState (rcd_serverId e) CUCKOO_REMOTE_TRANSACTION_BEGIN_FOR_SNAPSHOT
     else mret ()
   else mret ()) ;;
  mmodify (λ s, s <| RemoteConnectionCommandCache ::= fmap (hash_put rcd_serverId (e <| remoteCommandList := [] |>)) |>) ;;
  mret begin.

(** while (!done) *)
Fixpoint fetch_results (n : nat) (conn : PGconn) (acc : list (PGresult D)) : R (list (PGresult D)) :=
  match n with
  | O => mdiverge
  | S n' =>
      res ← FetchPGresultAndMark conn;
      let expect_null (k : R (list (PGresult D))) : R (list (PGresult D)) :=
        res ← FetchPGresultAndMark conn;
        match res with Some _ => melog PROGRAM_ERROR | None => k end in
      match res with
      | Some r =>
          match PQresultStatus r with
          | PGRES_COMMAND_OK | PGRES_TUPLES_OK => expect_null (fetch_results n' conn (acc ++ [r]))
          | PGRES_PIPELINE_SYNC => expect_null (mret acc)
          | _ => melog REMOTE_QUERY_FAILED
          end
      | None => melog REMOTE_QUERY_FAILED
      end
  end.

(** The second loop, for one server. *)
Definition receive_results (serverId : Z) (needHandleTransactionControl : bool) : R (list (PGresult D)) :=
  c ← get_connection serverId;
  let conn := c.1 in
  (if needHandleTransactionControl then
     res ← FetchPGresultAndMark conn;
     if decide (status_of res ≠ PGRES_COMMAND_OK) then melog REMOTE_QUERY_FAILED
     else
       res ← FetchPGresultAndMark conn;
       match res with Some _ => melog PROGRAM_ERROR | None => mret () end
   else mret ()) ;;
  fetch_results fuel conn [].

Fixpoint send_all (l : list (RemoteConnectionCommandData D)) : R (list (Z * bool)) :=
  match l with
  | [] => mret []
  | e :: l' =>
      begin ← send_commands e;
      rest ← send_all l';
      mret ((rcd_serverId e, begin) :: rest)
  end.

Fixpoint receive_all (l : list (Z * bool)) : R (list (Z * list (PGresult D))) :=
  match l with
  | [] => mret []
  | (serverId, begin) :: l' =>
      r ← receive_results serverId begin;
      rest ← receive_all l';
      mret ((serverId, r) :: rest)
  end.

Definition CuckooSendCommandAndWaitForResult : R (list (Z * list (PGresult D))) :=
  s ← mget;
  match RemoteConnectionCommandCache s with
  | None => mundefined
  | Some cache =>
      let l := filter (λ e, length (remoteCommandList e) ≠ 0%nat) (hash_seq_order cache) in
      on_foreign (GetForeignServerConnection fuel (rcd_serverId <$> l)) ;;
      sent ← send_all l;
      receive_all sent
  end.

(** ** Two-phase commit *)

(** The servers that were sent a command. *)
Definition cached_servers (cache : list (RemoteConnectionCommandData D)) : list Z :=
  rcd_serverId <$> hash_seq_order cache.

Definition GetImplicitTransactionGid : R string :=
  w ← IsLocalWrite;
  id ← on_foreign GetLocalServerId;
  let str := (CUCKOO_TRANSACTION_2PC_HEAD ++ pretty TopTransactionId ++ ":" ++ pretty id ++ ":" ++
              (if w : bool then "T" else "F"))%string in
  if decide (MAX_TRANSACTION_GID_LENGTH < String.length str)%nat then melog PROGRAM_ERROR else mret str.

Fixpoint count_writers (ids : list Z) : R Z :=
  match ids with
  | [] => mret 0
  | id :: ids' =>
      c ← get_connection id;
      rest ← count_writers ids';
      mret ((if decide (c.2 = CUCKOO_REMOTE_TRANSACTION_BEGIN_FOR_WRITE) then 1 else 0) + rest)
  end.

Definition send_prepare (gid : string) (serverId : Z) : R () :=
  c ← get_connection serverId;
  let '(conn, st) := c in
  unfetched ← ClearPGresultInPGconn conn;
  if unfetched : bool then melog PROGRAM_ERROR
  else if decide (st = CUCKOO_REMOTE_TRANSACTION_BEGIN_FOR_WRITE) then
    send_or_fail conn (PREPARE_TRANSACTION gid) ;;
    ok ← pipeline_sync conn;
    if ok : bool then mret () else melog REMOTE_QUERY_FAILED
  else mret ().

(** One answer: whether it was good. *)
Definition receive_prepare (gid : string) (serverId : Z) : R bool :=
  c ← get_connection serverId;
  let '(conn, st) := c in
  res ← FetchPGresultAndMark conn;
  match res with
  | None => mret true
  | Some r =>
      match PQresultStatus r with
      | PGRES_COMMAND_OK | PGRES_TUPLES_OK =>
          res ← FetchPGresultAndMark conn;
          match res with
          | Some _ => melog PROGRAM_ERROR
          | None =>
              CheckPQpipelineSyncFinished conn ;;
              (if decide (st = CUCKOO_REMOTE_TRANSACTION_BEGIN_FOR_WRITE) then
                 set_transactionState serverId CUCKOO_REMOTE_TRANSACTION_PREPARE ;;
                 Write2PCRecord serverId gid
               else mret ()) ;;
              mret true
          end
      | _ => mret false
      end
  end.

Fixpoint receive_prepares (gid : string) (ids : list Z) : R bool :=
  match ids with
  | [] => mret true
  | id :: ids' =>
      ok ← receive_prepare gid id;
      rest ← receive_prepares gid ids';
      mret (ok && rest)
  end.

Definition CuckooRemoteCommandPrepare : R () :=
  s ← mget;
  match RemoteConnectionCommandCache s with
  | None => mret ()
  | Some cache =>
      let workerIdList := cached_servers cache in
      on_foreign (GetForeignServerConnection fuel workerIdList) ;;
      s ← mget;
      writers ← count_writers workerIdList;
      let writeServerCount := (if LocalServerWrite s then 1 else 0) + writers in
      if decide (writeServerCount >= 2) then
        gid ← GetImplicitTransactionGid;
        mmodify (λ s, s <| RemoteTransactionGid := gid |>) ;;
        AddInprogressTransaction gid ;;
        mfor workerIdList (send_prepare gid) ;;
        ok ← receive_prepares gid workerIdList;
        if ok : bool then mret () else melog REMOTE_QUERY_FAILED
      else mret ()
  end.

(** One server of the first loop of CuckooRemoteCommandCommit: false when the
    function returns with a warning. *)
Definition send_commit (serverId : Z) : R bool :=
  c ← get_connection serverId;
  let '(conn, st) := c in
  unfetched ← ClearPGresultInPGconn conn;
  if unfetched : bool then mret false
  else
    let send_sync (q : Query D) : R bool :=
      ok ← send conn q; if ok : bool then pipeline_sync conn else mret false in
    match st with
    | CUCKOO_REMOTE_TRANSACTION_BEGIN_FOR_SNAPSHOT | CUCKOO_REMOTE_TRANSACTION_BEGIN_FOR_WRITE => send_sync COMMIT
    | CUCKOO_REMOTE_TRANSACTION_PREPARE =>
        s ← mget;
        if decide (RemoteTransactionGid s = ""%string) then mundefined
        else send_sync (COMMIT_PREPARED (RemoteTransactionGid s))
    | CUCKOO_REMOTE_TRANSACTION_NONE => mret true
    end.

(** One server of the second loop: false when the function returns. *)
Definition receive_commit (serverId : Z) : R bool :=
  c ← get_connection serverId;
  let conn := c.1 in
  res ← FetchPGresultAndMark conn;
  match res with
  | None => mret true
  | Some r =>
      match PQresultStatus r with
      | PGRES_COMMAND_OK | PGRES_TUPLES_OK =>
          res ← FetchPGresultAndMark conn;
          match res with
          | Some _ => mret false
          | None =>
              CheckPQpipelineSyncFinished conn ;;
              set_transactionState serverId CUCKOO_REMOTE_TRANSACTION_NONE ;;
              mret true
          end
      | _ => mret false
      end
  end.

(** A loop over the servers that ends when the body returns false. *)
Fixpoint while_ok (body : Z → R bool) (ids : list Z) : R bool :=
  match ids with
  | [] => mret true
  | id :: ids' => ok ← body id; if ok : bool then while_ok body ids' else mret false
  end.

Definition CuckooRemoteCommandCommit : R () :=
  s ← mget;
  match RemoteConnectionCommandCache s with
  | None => mret ()
  | Some cache =>
      let workerIdList := cached_servers cache in
      on_foreign (GetForeignServerConnection fuel workerIdList) ;;
      ok ← while_ok send_commit workerIdList;
      if ok : bool then while_ok receive_commit workerIdList ;; mret () else mret ()
  end.

(** One server of the loops of CuckooRemoteCommandAbort: succeedThisTime. *)
Definition send_abort (serverId : Z) : R bool :=
  c ← get_connection serverId;
  let '(conn, st) := c in
  ClearPGresultInPGconn conn ;;
  let send_sync (q : Query D) : R bool :=
    ok ← send conn q; if ok : bool then pipeline_sync conn else mret false in
  match st with
  | CUCKOO_REMOTE_TRANSACTION_BEGIN_FOR_SNAPSHOT | CUCKOO_REMOTE_TRANSACTION_BEGIN_FOR_WRITE => send_sync ROLLBACK
  | CUCKOO_REMOTE_TRANSACTION_PREPARE =>
      s ← mget;
      if decide (RemoteTransactionGid s = ""%string) then mundefined
      else send_sync (ROLLBACK_PREPARED (RemoteTransactionGid s))
  | CUCKOO_REMOTE_TRANSACTION_NONE => mret true
  end.

Definition receive_abort (serverId : Z) : R bool :=
  c ← get_connection serverId;
  let conn := c.1 in
  res ← FetchPGresultAndMark conn;
  ok ← (match res with
        | None => mret true
        | Some r =>
            if decide (PQresultStatus r ≠ PGRES_COMMAND_OK) then mret false
            else
              res ← FetchPGresultAndMark conn;
              match res with
              | Some _ => mret false
              | None =>
                  res ← FetchPGresultAndMark conn;
                  if decide (status_of res ≠ PGRES_PIPELINE_SYNC) then mret false
                  else
                    res ← FetchPGresultAndMark conn;
                    match res with Some _ => mret false | None => mret true end
              end
        end);
  set_transactionState serverId CUCKOO_REMOTE_TRANSACTION_NONE ;;
  mret ok.

(** Every server, whatever the body returns: the conjunction. *)
Fixpoint for_all (body : Z → R bool) (ids : list Z) : R bool :=
  match ids with
  | [] => mret true
  | id :: ids' => ok ← body id; rest ← for_all body ids'; mret (ok && rest)
  end.

Definition CuckooRemoteCommandAbort : R bool :=
  s ← mget;
  match RemoteConnectionCommandCache s with
  | None => mret true
  | Some cache =>
      let workerIdList := cached_servers cache in
      on_foreign (GetForeignServerConnection fuel workerIdList) ;;
      ok ← for_all send_abort workerIdList;
      ok' ← for_all receive_abort workerIdList;
      mret (ok && ok')
  end.
End remote_comm.
