(* ===== verification/RemoteSpec.v ===== *)
(** * What two-phase commit does on the coordinator

    CuckooRemoteCommandPrepare, run when the local transaction is about to
    commit. *)

From stdpp Require Import pretty.
From S2P Require Import Prelude Pg ForeignServer RemoteComm.

(** ** The documented behaviour of libpq's pipeline that the code relies on *)
Class LibpqLaws (D : Type) `{!Libpq D} := {
  PGconn_eq_dec :: EqDecision PGconn;
  (** nothing is left to be fetched: two null pointers in a row *)
  idle : PGconn → net → Prop;
  null_twice_idle c n : (PQgetResult c n).1 = None → (PQgetResult c (PQgetResult c n).2).1 = None →
    idle c (PQgetResult c (PQgetResult c n).2).2;
  (** how many results, other than null pointers, are left to be fetched *)
  unfetched : PGconn → net → nat;
  get_unfetched c n : (unfetched c (PQgetResult c n).2 + match (PQgetResult c n).1 with Some _ => 1 | None => 0 end ≤ unfetched c n)%nat;
  get_unfetched_other c c' n : c ≠ c' → (unfetched c (PQgetResult c' n).2 ≤ unfetched c n)%nat;
  send_unfetched_other c c' q n : c ≠ c' → (unfetched c (PQsendQuery c' q n).2 ≤ unfetched c n)%nat;
  sync_unfetched_other c c' n : c ≠ c' → (unfetched c (PQpipelineSync c' n).2 ≤ unfetched c n)%nat;
  (** the next result is the one of this statement *)
  awaits : PGconn → Query D → net → Prop;
  send_awaits c q n : idle c n → (PQsendQuery c q n).1 = true → awaits c q (PQsendQuery c q n).2;
  sync_awaits c q c' n : awaits c q n → awaits c q (PQpipelineSync c' n).2;
  (** and it is not the null pointer *)
  awaits_result c q n : awaits c q n → (PQgetResult c n).1 ≠ None;
  send_other c c' q q' n : c ≠ c' → awaits c q n → awaits c q (PQsendQuery c' q' n).2;
  get_other c c' q n : c ≠ c' → awaits c q n → awaits c q (PQgetResult c' n).2;
  (** the server behind the connection has executed a statement: it has
      reported its success, and this does not go away *)
  executed : PGconn → Query D → net → Prop;
  result_executed c q n r : awaits c q n → (PQgetResult c n).1 = Some r →
    PQresultStatus r = PGRES_COMMAND_OK ∨ PQresultStatus r = PGRES_TUPLES_OK → executed c q (PQgetResult c n).2;
  get_executed c q c' n : executed c q n → executed c q (PQgetResult c' n).2;
  send_executed c q c' q' n : executed c q n → executed c q (PQsendQuery c' q' n).2;
  sync_executed c q c' n : executed c q n → executed c q (PQpipelineSync c' n).2;
}.

Lemma filter_ext_in {A} (P Q : A → Prop) `{!∀ x, Decision (P x), !∀ x, Decision (Q x)} (l : list A) :
  (∀ x, x ∈ l → P x ↔ Q x) → filter P l = filter Q l.
Proof.
  induction l as [|x l IH]; intros Hpq; [done|]. rewrite !filter_cons. rewrite IH by (intros y Hy; apply Hpq; by right).
  assert (P x ↔ Q x) as Hx by (apply Hpq; by left). destruct (decide (P x)), (decide (Q x)); tauto.
Qed.

Section hash.
Context {A : Type} (key : A → Z).

Lemma hash_find_put e l id :
  hash_find key id (hash_put key e l) = if decide (id = key e) then Some e else hash_find key id l.
Proof.
  unfold hash_find, hash_put. destruct (decide (key e ∈ key <$> l)) as [Hin|Hin].
  - destruct (decide (id = key e)) as [->|Hne].
    + induction l as [|x l IH]; [by apply not_elem_of_nil in Hin|]. rewrite fmap_cons. simpl.
      destruct (decide (key x = key e)) as [Hx|Hx]; [by rewrite filter_cons_True|].
      rewrite filter_cons_False by done. apply IH. rewrite fmap_cons in Hin. by apply elem_of_cons in Hin as [?|?].
    + f_equal. clear Hin. induction l as [|x l IH]; [done|]. rewrite fmap_cons. simpl.
      destruct (decide (key x = key e)) as [Hx|Hx].
      * rewrite !filter_cons_False by congruence. exact IH.
      * rewrite !filter_cons. destruct (decide (key x = id)); by rewrite IH.
  - rewrite filter_app. destruct (decide (id = key e)) as [->|Hne].
    + assert (filter (λ x, key x = key e) l = []) as ->.
      { destruct (filter _ l) as [|x k] eqn:E; [done|]. destruct Hin.
        assert (x ∈ filter (λ x, key x = key e) l) as [<- Hx]%list_elem_of_filter by (rewrite E; by left).
        by apply list_elem_of_fmap_2. }
      by rewrite filter_cons_True.
    + rewrite filter_cons_False by done. by rewrite filter_nil, app_nil_r.
Qed.

Lemma hash_put_same e l : NoDup (key <$> l) → hash_find key (key e) l = Some e → hash_put key e l = l.
Proof.
  intros Hnd Hf. apply hash_find_Some in Hf as [Hin _]. unfold hash_put.
  rewrite decide_True by by apply list_elem_of_fmap_2. rewrite <-(list_fmap_id l) at 2. apply list_fmap_ext.
  intros i x Hx. simpl. destruct (decide (key x = key e)) as [Hk|]; [|done].
  assert (Some e = Some x) as [= ->]; [|done].
  rewrite <-(hash_find_elem key l e Hnd Hin), <-Hk. apply hash_find_elem; [done|]. by eapply list_elem_of_lookup_2.
Qed.
End hash.

Section remote_spec.
Context {D : Type} `{!Libpq D, !LibpqLaws D, !PgEnv, !Collation, !TextBuffer, !PgRelation fs_server_id Z.le,
          !PgRelation dt_key id_text_le}.
Context (fuel : nat) (TopTransactionId : N).

Abbreviation State := (RemoteState (D := D)).
Abbreviation R := (M State).

(** The connection to a server and the state of its transaction. *)
Definition link (s : State) (id : Z) : option (PGconn * CuckooRemoteTransactionState) :=
  c ← find_connection id (rm_foreign s); conn ← fc_conn c; Some (conn, transactionState c).

Lemma get_connection_eq s id p : link s id = Some p → get_connection id s = Ret p s.
Proof.
  unfold link, get_connection. rewrite bind_mget. destruct (find_connection id (rm_foreign s)) as [[i [conn|] st]|]; try done.
  by intros [= <-].
Qed.

Lemma set_state_eq s id conn st st' :
  link s id = Some (conn, st) →
  ∃ s', set_transactionState id st' s = Ret () s' ∧ link s' id = Some (conn, st') ∧
    (∀ id', id' ≠ id → link s' id' = link s id') ∧ network (rm_foreign s') = network (rm_foreign s) ∧
    ∃ m, s' = s <| rm_foreign ::= λ f, f <| ForeignServerConnectionManager := m |> |>.
Proof.
  unfold link, set_transactionState. rewrite bind_mget. destruct (find_connection id (rm_foreign s)) as [c|] eqn:Ef; [|done].
  destruct c as [i [conn'|] st0]; [|done]. intros [= -> ->]. pose proof (hash_find_Some _ _ _ _ Ef) as [_ Hi]. simpl in Hi.
  eexists. split; [done|]. unfold find_connection. simpl. rewrite hash_find_put. simpl. rewrite decide_True by done.
  split; [done|]. split; [|split; [done|by eexists]].
  intros id' Hne. rewrite hash_find_put. simpl. by rewrite decide_False by congruence.
Qed.

(** Only the network changes. *)
Definition on_the_net (s s' : State) : Prop := ∃ n, s' = s <| rm_foreign ::= λ f, f <| network := n |> |>.

Lemma on_the_net_refl s : on_the_net s s.
Proof. exists (network (rm_foreign s)). by destruct s as [[] ?]. Qed.
Lemma on_the_net_trans s1 s2 s3 : on_the_net s1 s2 → on_the_net s2 s3 → on_the_net s1 s3.
Proof. intros [n ->] [n' ->]. exists n'. by destruct s1 as [[] ?]. Qed.
Lemma on_the_net_link s s' id : on_the_net s s' → link s' id = link s id.
Proof. by intros [n ->]. Qed.

(** The next result on the connection [c] is the one of [q]. *)
Definition expects (c : PGconn) (q : Query D) (s : State) : Prop := awaits c q (network (rm_foreign s)).
Definition has_executed (c : PGconn) (q : Query D) (s : State) : Prop := executed c q (network (rm_foreign s)).
Definition left_over (c : PGconn) (s : State) : nat := unfetched c (network (rm_foreign s)).

(** Only the network has changed, and there only the connection [conn]. *)
Record talks (conn : PGconn) (s s' : State) : Prop := {
  tk_net : on_the_net s s';
  tk_expects c q : c ≠ conn → expects c q s → expects c q s';
  tk_left c : c ≠ conn → (left_over c s' ≤ left_over c s)%nat;
  tk_executed c q : has_executed c q s → has_executed c q s' }.

Lemma talks_refl conn s : talks conn s s.
Proof. split; try done. apply on_the_net_refl. Qed.
Lemma talks_trans conn s1 s2 s3 : talks conn s1 s2 → talks conn s2 s3 → talks conn s1 s3.
Proof.
  intros [N1 E1 L1 X1] [N2 E2 L2 X2]. split; [by eapply on_the_net_trans|auto| |auto].
  intros c Hc. specialize (L1 c Hc). specialize (L2 c Hc). lia.
Qed.

Lemma fetch_spec conn s :
  ∃ res s', FetchPGresultAndMark conn s = Ret res s' ∧ talks conn s s' ∧
    (left_over conn s' + match res with Some _ => 1 | None => 0 end ≤ left_over conn s)%nat ∧
    (∀ q, expects conn q s → ∃ r, res = Some r ∧
       (PQresultStatus r = PGRES_COMMAND_OK ∨ PQresultStatus r = PGRES_TUPLES_OK → has_executed conn q s')) ∧
    PQgetResult conn (network (rm_foreign s)) = (res, network (rm_foreign s')).
Proof.
  unfold FetchPGresultAndMark, on_foreign, mzoom, on_net. destruct (PQgetResult conn _) as [res n] eqn:E.
  exists res, (s <| rm_foreign ::= λ f, f <| network := n |> |>). split; [by destruct s as [[] ?]|].
  assert (n = (PQgetResult conn (network (rm_foreign s))).2) as Hn by by rewrite E.
  assert (res = (PQgetResult conn (network (rm_foreign s))).1) as Hres by by rewrite E.
  unfold expects, left_over, has_executed in *. split_and!.
  - split; [by exists n|..]; unfold expects, left_over, has_executed; simpl; rewrite Hn.
    + intros c q. apply get_other.
    + intros c. apply get_unfetched_other.
    + intros c q. apply get_executed.
  - simpl. rewrite Hn, Hres. apply get_unfetched.
  - intros q He. pose proof (awaits_result _ _ _ He) as Hr. rewrite <-Hres in Hr. destruct res as [r|]; [|done].
    exists r. split; [done|]. simpl. rewrite Hn. by apply (result_executed _ _ _ _ He).
  - done.
Qed.

Lemma send_spec conn q s :
  ∃ ok s', send conn q s = Ret ok s' ∧ talks conn s s' ∧
    (idle conn (network (rm_foreign s)) → ok = true → expects conn q s').
Proof.
  unfold send, on_foreign, mzoom, on_net. destruct (PQsendQuery conn q _) as [ok n] eqn:E.
  exists ok, (s <| rm_foreign ::= λ f, f <| network := n |> |>). split; [by destruct s as [[] ?]|].
  assert (n = (PQsendQuery conn q (network (rm_foreign s))).2) as Hn by by rewrite E. split.
  - split; [by exists n|..]; unfold expects, left_over, has_executed; simpl; rewrite Hn.
    + intros c q'. apply send_other.
    + intros c. apply send_unfetched_other.
    + intros c q'. apply send_executed.
  - intros Hi ->. unfold expects. simpl. rewrite Hn. apply send_awaits; [done|]. by rewrite E.
Qed.

Lemma sync_spec conn s :
  ∃ ok s', pipeline_sync conn s = Ret ok s' ∧ talks conn s s' ∧ ∀ c q, expects c q s → expects c q s'.
Proof.
  unfold pipeline_sync, on_foreign, mzoom, on_net. destruct (PQpipelineSync conn _) as [ok n] eqn:E.
  exists ok, (s <| rm_foreign ::= λ f, f <| network := n |> |>). split; [by destruct s as [[] ?]|].
  assert (n = (PQpipelineSync conn (network (rm_foreign s))).2) as Hn by by rewrite E.
  assert (∀ c q, expects c q s → expects c q (s <| rm_foreign ::= λ f, f <| network := n |> |>)) as Hx
    by (intros c q; unfold expects; simpl; rewrite Hn; apply sync_awaits).
  split; [|done]. split; [by exists n|auto|..]; unfold left_over, has_executed; simpl; rewrite Hn.
  - intros c. apply sync_unfetched_other.
  - intros c q. apply sync_executed.
Qed.

(** ** PREPARE TRANSACTION *)

(** The results that are left over are fetched, and there is an end of them. *)
Lemma clear_spec n conn b s :
  (left_over conn s < n)%nat →
  outcome_ok (clear_results n conn b s) (λ _ s', talks conn s s' ∧ idle conn (network (rm_foreign s'))) (λ _ _, False) False.
Proof.
  revert b s. induction n as [|n IH]; intros b s Hn; [lia|]. cbn [clear_results].
  destruct (fetch_spec conn s) as (res & s1 & Hf & Ht & Hl & _ & Hq). erewrite bind_ret by exact Hf.
  assert (∀ b s2, talks conn s s2 → (left_over conn s2 < n)%nat →
    outcome_ok (clear_results n conn b s2) (λ _ s', talks conn s s' ∧ idle conn (network (rm_foreign s'))) (λ _ _, False) False) as Hgo.
  { intros b' s2 Ht2 Hn2. eapply outcome_ok_mono; [by apply IH| |done|done]. intros a s' [Ht' Hid].
    split; [by eapply talks_trans|done]. }
  destruct res as [r|]; [apply Hgo; [done|lia]|].
  destruct (fetch_spec conn s1) as (res & s2 & Hf2 & Ht2 & Hl2 & _ & Hq2). erewrite bind_ret by exact Hf2.
  assert (talks conn s s2) as Ht' by by eapply talks_trans.
  destruct res as [r|]; [apply Hgo; [done|lia]|]. simpl. split; [done|].
  pose proof (null_twice_idle conn (network (rm_foreign s))) as Hid. rewrite Hq in Hid. simpl in Hid. rewrite Hq2 in Hid.
  by apply Hid.
Qed.

Definition writing (st : CuckooRemoteTransactionState) : Prop := st = CUCKOO_REMOTE_TRANSACTION_BEGIN_FOR_WRITE.

Lemma send_prepare_spec gid id conn st s :
  link s id = Some (conn, st) → (left_over conn s < fuel)%nat →
  outcome_ok (send_prepare fuel gid id s)
    (λ _ s', talks conn s s' ∧ (writing st → expects conn (PREPARE_TRANSACTION gid) s'))
    (λ e s', e = Cuckoo PROGRAM_ERROR ∨ e = Cuckoo REMOTE_QUERY_FAILED) False.
Proof.
  intros Hl Hlo. unfold send_prepare. erewrite bind_ret by by apply get_connection_eq. eapply outcome_ok_bind.
  { eapply outcome_ok_mono; [by apply clear_spec|exact (λ a s H, H)|done|done]. }
  intros [] s1 (Ht1 & Hid1); [by left|].
  destruct (decide (st = CUCKOO_REMOTE_TRANSACTION_BEGIN_FOR_WRITE)) as [Hw|Hw]; [|by split_and!].
  unfold send_or_fail. destruct (send_spec conn (PREPARE_TRANSACTION gid) s1) as (ok & s2 & Hs2 & Ht2 & He2).
  rewrite bind_assoc. erewrite bind_ret by exact Hs2. destruct ok; [|by right]. rewrite bind_mret.
  destruct (sync_spec conn s2) as (ok & s3 & Hs3 & Ht3 & Hx3). erewrite bind_ret by exact Hs3.
  destruct ok; simpl; [|by right]. split; [by do 2 (eapply talks_trans; [eassumption|])|].
  intros _. by apply Hx3, He2.
Qed.

(** The servers have a connection each, of their own. *)
Definition linked (s : State) (ids : list Z) : Prop := ∀ id, id ∈ ids → is_Some (link s id).
Definition distinct (s : State) (ids : list Z) : Prop :=
  ∀ id id' conn st st', id ∈ ids → id' ∈ ids → link s id = Some (conn, st) → link s id' = Some (conn, st') → id = id'.
Definition all_expected (gid : string) (s : State) (ids : list Z) : Prop :=
  ∀ id conn st, id ∈ ids → link s id = Some (conn, st) → writing st → expects conn (PREPARE_TRANSACTION gid) s.
Definition enough_fuel (s : State) (ids : list Z) : Prop :=
  ∀ id conn st, id ∈ ids → link s id = Some (conn, st) → (left_over conn s < fuel)%nat.

(** A statement that another connection waits for stays so. *)
Definition untouched (s s' : State) (ids : list Z) : Prop :=
  ∀ c q, (∀ id conn st, id ∈ ids → link s id = Some (conn, st) → c ≠ conn) → expects c q s → expects c q s'.

Lemma send_prepares gid ids s :
  NoDup ids → linked s ids → distinct s ids → enough_fuel s ids →
  outcome_ok (mfor ids (send_prepare fuel gid) s)
    (λ _ s', on_the_net s s' ∧ all_expected gid s' ids ∧ untouched s s' ids)
    (λ e s', e = Cuckoo PROGRAM_ERROR ∨ e = Cuckoo REMOTE_QUERY_FAILED) False.
Proof.
  revert s. induction ids as [|id ids IH]; intros s Hnd Hl Hd Hfu.
  { simpl. split; [apply on_the_net_refl|]. split; [|by intros c q _]. intros id conn st Hin. by apply not_elem_of_nil in Hin. }
  apply NoDup_cons in Hnd as [Hid Hnd]. destruct (Hl id) as [[conn st] Hlid]; [by left|].
  cbn [mfor]. eapply outcome_ok_bind.
  { eapply outcome_ok_mono; [eapply send_prepare_spec; [exact Hlid|by eapply Hfu; [left|]]|exact (λ a s H, H)|done|done]. }
  intros [] s1 ([Hn1 Hx1 Hlo1 _] & He1). pose proof (λ id, on_the_net_link s s1 id Hn1) as Hlk.
  assert (∀ id2 conn2 st2, id2 ∈ ids → link s1 id2 = Some (conn2, st2) → conn2 ≠ conn) as Hother.
  { intros id2 conn2 st2 Hin2 Hc2 ->. rewrite Hlk in Hc2.
    assert (id2 = id) as -> by (eapply Hd; [by right|by left|exact Hc2|exact Hlid]). done. }
  eapply outcome_ok_mono; [apply (IH s1)|..]; [done| | | | |done|done].
  - intros id' Hin. rewrite Hlk. apply Hl. by right.
  - intros id1 id2 c st1 st2 Hi1 Hi2. rewrite !Hlk. apply Hd; by right.
  - intros id' c st' Hin Hc. specialize (Hlo1 c (Hother _ _ _ Hin Hc)). rewrite Hlk in Hc.
    specialize (Hfu id' c st' ltac:(by right) Hc). lia.
  - intros [] s2 (Hn2 & Hall & Hx2). split; [by eapply on_the_net_trans|]. split.
    + intros id' c st' [->|Hin]%elem_of_cons Hc Hw; [|by eapply Hall].
      rewrite (on_the_net_link s1 s2), Hlk, Hlid in Hc by done. injection Hc as <- <-. apply Hx2; [|by apply He1].
      intros id2 conn2 st2 Hin2 Hc2 ->. by eapply Hother.
    + intros c q Hc He. apply Hx2.
      * intros id' conn' st' Hin Hc'. rewrite Hlk in Hc'. eapply Hc; [by right|done].
      * apply Hx1; [|done]. eapply Hc; [by left|done].
Qed.

(** ** The answers *)

Lemma check_sync_spec conn s :
  outcome_ok (CheckPQpipelineSyncFinished conn s) (λ _ s', talks conn s s') (λ e s', e = Cuckoo PROGRAM_ERROR) False.
Proof.
  unfold CheckPQpipelineSyncFinished. destruct (fetch_spec conn s) as (res & s1 & Hf & Ht & _). erewrite bind_ret by exact Hf.
  destruct (decide _); [done|].
  destruct (fetch_spec conn s1) as (res2 & s2 & Hf2 & Ht2 & _). erewrite bind_ret by exact Hf2.
  destruct res2; simpl; [done|]. by eapply talks_trans.
Qed.

(** What neither the answers nor anything before them changes. *)
Record framed (s s' : State) : Prop := {
  fr_cache : RemoteConnectionCommandCache s' = RemoteConnectionCommandCache s;
  fr_write : LocalServerWrite s' = LocalServerWrite s;
  fr_foreign : ∃ m n, rm_foreign s' = (rm_foreign s) <| ForeignServerConnectionManager := m |> <| network := n |> }.

Lemma framed_refl s : framed s s.
Proof. split; try done. eexists (ForeignServerConnectionManager (rm_foreign s)), (network (rm_foreign s)). by destruct s as [[] ?]. Qed.
Lemma framed_trans s1 s2 s3 : framed s1 s2 → framed s2 s3 → framed s1 s3.
Proof.
  intros [C1 W1 (m1 & n1 & F1)] [C2 W2 (m2 & n2 & F2)]. split; [congruence|congruence|]. exists m2, n2. rewrite F2, F1. by destruct s1 as [[] ?].
Qed.
Lemma framed_net s s' : on_the_net s s' → framed s s'.
Proof. intros [n ->]. split; try done. eexists (ForeignServerConnectionManager (rm_foreign s)), n. by destruct s as [[] ?]. Qed.

(** One server has answered: nothing changes for the others. *)
Record received (id : Z) (conn : PGconn) (s s' : State) : Prop := {
  rv_others id' : id' ≠ id → link s' id' = link s id';
  rv_expect c q : c ≠ conn → expects c q s → expects c q s';
  rv_executed c q : has_executed c q s → has_executed c q s';
  rv_gid : RemoteTransactionGid s' = RemoteTransactionGid s;
  rv_inprogress : InprogressTransactions s' = InprogressTransactions s;
  rv_frame : framed s s' }.

Lemma received_net id conn s s' : talks conn s s' → received id conn s s'.
Proof.
  intros [Hn Hx _ Hd]. pose proof (on_the_net_link s s') as Hl. pose proof (framed_net s s' Hn) as Hf. destruct Hn as [n ->]. by split.
Qed.

(** The record of a prepared server. *)
Definition add_record (gid : string) (t : gmap (Z * string) FormData_cuckoo_distributed_transaction) (id : Z) :=
  <[(id, gid) := mkRecord id gid]> t.
Abbreviation recs s := (latest (transaction_rel s)).

Definition prepared_link (p : PGconn * CuckooRemoteTransactionState) : PGconn * CuckooRemoteTransactionState :=
  if decide (p.2 = CUCKOO_REMOTE_TRANSACTION_BEGIN_FOR_WRITE) then (p.1, CUCKOO_REMOTE_TRANSACTION_PREPARE) else p.

Definition prepare_error (e : ErrorData) : Prop :=
  e = Cuckoo PROGRAM_ERROR ∨ e = Cuckoo REMOTE_QUERY_FAILED ∨ e = UniqueViolation.

Lemma write_record_spec gid id s :
  outcome_ok (Write2PCRecord id gid s)
    (λ _ s', ∃ t, s' = s <| transaction_rel := t |> ∧ latest t = add_record gid (recs s) id)
    (λ e s', e = UniqueViolation) False.
Proof.
  unfold Write2PCRecord. rewrite bind_mget. destruct (CatalogTupleInsert (transaction_rel s) (mkRecord id gid)) as [t|] eqn:E; [|done].
  simpl. exists t. split; [done|]. by apply insert_Some in E as [_ ?].
Qed.

(** After a good answer: the state and the record of a server that has written. *)
Definition answer_ok (gid : string) (id : Z) (conn : PGconn) (st : CuckooRemoteTransactionState) (s s' : State) : Prop :=
  link s' id = Some (prepared_link (conn, st)) ∧ (writing st → has_executed conn (PREPARE_TRANSACTION gid) s') ∧
  recs s' = (if decide (writing st) then add_record gid (recs s) id else recs s).

Lemma mark_prepared gid id conn st s s3 :
  link s id = Some (conn, st) → talks conn s s3 → (writing st → has_executed conn (PREPARE_TRANSACTION gid) s3) →
  outcome_ok (((if decide (st = CUCKOO_REMOTE_TRANSACTION_BEGIN_FOR_WRITE) then
                  set_transactionState id CUCKOO_REMOTE_TRANSACTION_PREPARE ;; Write2PCRecord id gid else mret ()) ;; mret true) s3)
    (λ ok s', received id conn s s' ∧ if ok : bool then answer_ok gid id conn st s s' else True) (λ e s', prepare_error e) False.
Proof.
  intros Hl Ht Hdone. pose proof (on_the_net_link s s3 id (tk_net _ _ _ Ht)) as Hl3. rewrite Hl in Hl3.
  destruct (received_net id conn s s3 Ht) as [Hot Hex Hdn Hgg Hii Hfr].
  assert (recs s3 = recs s) as Hrec3 by (by destruct (tk_net _ _ _ Ht) as [n ->]).
  unfold answer_ok, prepared_link, writing in *. simpl.
  destruct (decide (st = CUCKOO_REMOTE_TRANSACTION_BEGIN_FOR_WRITE)) as [Hw|Hw].
  2: { rewrite bind_mret. simpl. split; [by apply received_net|]. by split_and!. }
  rewrite bind_assoc. destruct (set_state_eq s3 id conn st CUCKOO_REMOTE_TRANSACTION_PREPARE Hl3) as (s4 & Hs4 & Hl4 & Ho4 & Hnet & m & Hm).
  erewrite bind_ret by exact Hs4. eapply outcome_ok_bind.
  { eapply outcome_ok_mono; [apply write_record_spec|exact (λ a s H, H)| |done]. intros e s' ->. by right; right. }
  intros [] s5 (t & -> & Hlat). simpl. split.
  - split; simpl.
    + intros id' Hne. change (link s4 id' = link s id'). by rewrite Ho4, Hot.
    + intros c q Hc Hcx. unfold expects. simpl. rewrite Hnet. by apply Hex.
    + intros c q Hcx. unfold has_executed. simpl. rewrite Hnet. by apply Hdn.
    + rewrite Hm. done.
    + rewrite Hm. done.
    + eapply framed_trans; [exact Hfr|]. rewrite Hm. split; try done. exists m, (network (rm_foreign s3)). by destruct s3 as [[] ?].
  - split_and!; [exact Hl4| |].
    + intros _. unfold has_executed. simpl. rewrite Hnet. by apply Hdone.
    + rewrite Hlat, Hm. simpl. by rewrite Hrec3.
Qed.

Lemma receive_prepare_spec gid id conn st s :
  link s id = Some (conn, st) → (writing st → expects conn (PREPARE_TRANSACTION gid) s) →
  outcome_ok (receive_prepare gid id s)
    (λ ok s', received id conn s s' ∧ if ok : bool then answer_ok gid id conn st s s' else True)
    (λ e s', prepare_error e) False.
Proof.
  intros Hl He. unfold receive_prepare. erewrite bind_ret by by apply get_connection_eq.
  destruct (fetch_spec conn s) as (res & s1 & Hf & Ht & _ & Hres & _). erewrite bind_ret by exact Hf.
  pose proof (on_the_net_link s s1 id (tk_net _ _ _ Ht)) as Hl1.
  destruct res as [r|].
  2: { simpl. split; [by apply received_net|]. unfold answer_ok. rewrite Hl1, Hl. unfold prepared_link, writing in *. simpl.
       destruct (decide (st = CUCKOO_REMOTE_TRANSACTION_BEGIN_FOR_WRITE)) as [Hw|Hw];
         [by destruct (Hres _ (He Hw)) as (? & ? & _)|split_and!; [done|done|by destruct (tk_net _ _ _ Ht) as [n ->]]]. }
  assert (PQresultStatus r = PGRES_COMMAND_OK ∨ PQresultStatus r = PGRES_TUPLES_OK →
    outcome_ok ((res ← FetchPGresultAndMark conn; match res with
     | Some _ => melog PROGRAM_ERROR
     | None => CheckPQpipelineSyncFinished conn ;;
         (if decide (st = CUCKOO_REMOTE_TRANSACTION_BEGIN_FOR_WRITE) then
            set_transactionState id CUCKOO_REMOTE_TRANSACTION_PREPARE ;; Write2PCRecord id gid else mret ()) ;; mret true
     end) s1) (λ ok s', received id conn s s' ∧ if ok : bool then answer_ok gid id conn st s s' else True)
       (λ e s', prepare_error e) False) as Hgood.
  2: { destruct (PQresultStatus r); [apply Hgood; auto|apply Hgood; auto|simpl; split; [by apply received_net|done]..]. }
  intros Hr. destruct (fetch_spec conn s1) as (res2 & s2 & Hf2 & Ht2 & _). erewrite bind_ret by exact Hf2.
  destruct res2; [by left|]. eapply outcome_ok_bind.
  { eapply outcome_ok_mono; [apply check_sync_spec|exact (λ a s H, H)| |done]. intros e s' ->. by left. }
  intros [] s3 Ht3. apply mark_prepared; [done|by do 2 (eapply talks_trans; [eassumption|])|].
  intros Hw. destruct (Hres _ (He Hw)) as (r' & [= <-] & Hex). by apply Ht3, Ht2, Hex.
Qed.

Definition writers (s : State) (ids : list Z) : list Z :=
  filter (λ id, snd <$> link s id = Some CUCKOO_REMOTE_TRANSACTION_BEGIN_FOR_WRITE) ids.

(** The servers that have written have executed PREPARE TRANSACTION. *)
Definition all_prepared (gid : string) (s s' : State) (ids : list Z) : Prop :=
  ∀ id conn st, id ∈ ids → link s id = Some (conn, st) → writing st → has_executed conn (PREPARE_TRANSACTION gid) s'.

Lemma receive_prepares_spec gid ids s :
  NoDup ids → linked s ids → distinct s ids → all_expected gid s ids →
  outcome_ok (receive_prepares gid ids s)
    (λ ok s', RemoteTransactionGid s' = RemoteTransactionGid s ∧ InprogressTransactions s' = InprogressTransactions s ∧
       framed s s' ∧ (∀ c q, has_executed c q s → has_executed c q s') ∧
       (∀ id, id ∉ ids → link s' id = link s id) ∧
       if ok : bool then (∀ id, id ∈ ids → link s' id = prepared_link <$> link s id) ∧ all_prepared gid s s' ids ∧
         recs s' = foldl (add_record gid) (recs s) (writers s ids)
       else True)
    (λ e s', prepare_error e) False.
Proof.
  revert s. induction ids as [|id ids IH]; intros s Hnd Hl Hd Hex.
  { simpl. split_and!; try done; [apply framed_refl|..]; intros id; [intros Hin|intros ? ? Hin]; by apply not_elem_of_nil in Hin. }
  apply NoDup_cons in Hnd as [Hid Hnd]. destruct (Hl id) as [[conn st] Hlid]; [by left|].
  cbn [receive_prepares]. eapply outcome_ok_bind.
  { eapply outcome_ok_mono; [apply (receive_prepare_spec gid id conn st)|exact (λ a s H, H)|done|done]; [done|].
    intros Hw. eapply Hex; [by left|done|done]. }
  intros ok s1 [[Hot Hx Hdn Hg Hi Hfr] Hok]. assert (∀ id', id' ∈ ids → link s1 id' = link s id') as Hl1.
  { intros id' Hin. apply Hot. by intros ->. }
  eapply outcome_ok_bind.
  { eapply outcome_ok_mono; [apply (IH s1)|exact (λ a s H, H)|done|done]; [done| | |].
    - intros id' Hin. rewrite Hl1 by done. apply Hl. by right.
    - intros id1 id2 c st1 st2 Hi1 Hi2. rewrite !Hl1 by done. apply Hd; by right.
    - intros id' c st' Hin. rewrite Hl1 by done. intros Hc Hw. apply Hx; [|by eapply Hex; [right|..]].
      intros ->. assert (id' = id) as -> by (eapply Hd; [by right|by left|exact Hc|exact Hlid]). done. }
  intros rest s2 (Hg2 & Hi2 & Hfr2 & Hdn2 & Ho2 & Hrest). simpl. split; [by rewrite Hg2|]. split; [by rewrite Hi2|].
  split; [by eapply framed_trans|]. split; [auto|]. split.
  { intros id' [Hne Hin]%not_elem_of_cons. rewrite Ho2 by done. by apply Hot. }
  destruct ok; [|done]. destruct rest; [|done]. simpl. destruct Hok as (Hlk & Hdone & Hrec). destruct Hrest as (Hlks & Hall & Hrecs). split_and!.
  - intros id' [->|Hin]%elem_of_cons; [rewrite Ho2, Hlk, Hlid by done; done|]. by rewrite Hlks, Hl1.
  - intros id' c st' [->|Hin]%elem_of_cons Hc Hw; [rewrite Hlid in Hc; injection Hc as <- <-; by apply Hdn2, Hdone|].
    eapply Hall; [exact Hin|by rewrite Hl1|done].
  - rewrite Hrecs, Hrec. unfold writers. rewrite filter_cons. rewrite Hlid. simpl. unfold writing.
    assert (filter (λ id, snd <$> link s1 id = Some CUCKOO_REMOTE_TRANSACTION_BEGIN_FOR_WRITE) ids
      = filter (λ id, snd <$> link s id = Some CUCKOO_REMOTE_TRANSACTION_BEGIN_FOR_WRITE) ids) as ->.
    { apply filter_ext_in. intros id' Hin. by rewrite Hl1. }
    destruct (decide (st = _)) as [->|Hne]; [by rewrite decide_True|]. by rewrite decide_False by congruence.
Qed.

(** ** The connections of the transaction *)

(** The connections that the transaction has used are still open. *)
Record in_place (f : ForeignState) (ids : list Z) : Prop := {
  ip_valid : ForeignServerShmemCacheInvalid f = false;
  ip_version : ForeignServerShmemCacheVersion f ≤ ForeignServerLocalConnectionManagerVersion f;
  ip_NoDup : NoDup (fc_serverId <$> ForeignServerConnectionManager f);
  ip_open id : id ∈ ids → ∃ c conn, find_connection id f = Some c ∧ fc_conn c = Some conn ∧
    PQstatus conn (network f) ≠ CONNECTION_BAD }.

Lemma start_connection_open f ids id : in_place f ids → id ∈ ids → start_connection id f = Ret false f.
Proof.
  intros [_ _ Hnd Hop] Hin. destruct (Hop id Hin) as (c & conn & Hf & Hc & Hs). unfold start_connection.
  rewrite bind_mget, Hf. simpl. unfold put_connection. rewrite bind_mmodify.
  assert (f <| ForeignServerConnectionManager ::= hash_put fc_serverId c |> = f) as ->.
  { destruct f as [rel cache ver inv mgr lver lid lname nw]. unfold set_field. simpl in *. f_equal. apply hash_put_same; [done|].
    unfold find_connection in Hf. simpl in Hf. pose proof (hash_find_Some _ _ _ _ Hf) as [_ <-]. exact Hf. }
  rewrite Hc, decide_False by done. rewrite bind_mret. by rewrite Hc.
Qed.

Lemma connections_open f ids : in_place f ids → GetForeignServerConnection fuel ids f = Ret ids f.
Proof.
  intros Hip. unfold GetForeignServerConnection.
  assert (wait_servers 2 f = Ret () f) as Hw by (cbn [wait_servers]; by rewrite (ip_valid _ _ Hip)).
  erewrite bind_ret by exact Hw. rewrite bind_mget. rewrite decide_False by (pose proof (ip_version _ _ Hip); lia). rewrite bind_mret.
  assert (∀ l, (∀ id, id ∈ l → id ∈ ids) → start_connections l f = Ret ((λ id, (id, false)) <$> l) f) as Hst.
  { induction l as [|id l IH]; intros Hsub; [done|]. cbn [start_connections].
    erewrite bind_ret by (eapply start_connection_open; [done|apply Hsub; by left]).
    erewrite bind_ret by (apply IH; intros id' Hid'; apply Hsub; by right). done. }
  erewrite bind_ret by by apply Hst.
  assert (∀ l : list Z, complete_connections fuel ((λ id, (id, false)) <$> l) f = Ret true f) as Hcc.
  { induction l as [|id l IH]; [done|]. rewrite fmap_cons. cbn [complete_connections]. rewrite bind_mret.
    erewrite bind_ret by exact IH. done. }
  erewrite bind_ret by by apply Hcc. done.
Qed.

Lemma count_writers_eq s ids : linked s ids → count_writers ids s = Ret (Z.of_nat (length (writers s ids))) s.
Proof.
  induction ids as [|id ids IH]; intros Hl; [done|]. destruct (Hl id) as [[conn st] Hid]; [by left|]. cbn [count_writers].
  erewrite bind_ret by by apply get_connection_eq. erewrite bind_ret by (apply IH; intros id' Hin; apply Hl; by right).
  unfold writers. rewrite filter_cons, Hid. simpl. destruct (decide (st = _)) as [->|Hne].
  - rewrite decide_True by done. simpl. by rewrite Nat2Z.inj_succ, Z.add_1_l.
  - by rewrite decide_False by congruence.
Qed.

(** The transaction is about to commit: its commands were sent to [ids]. *)
Record committing (s : State) (ids : list Z) : Prop := {
  cm_cache : ∃ cache, RemoteConnectionCommandCache s = Some cache ∧ ids = cached_servers cache;
  cm_NoDup : NoDup ids;
  cm_open : in_place (rm_foreign s) ids;
  cm_distinct : distinct s ids;
  cm_fuel : enough_fuel s ids;
  cm_local : fs_LocalServerId (rm_foreign s) ≠ -1 }.

Lemma open_linked s ids : in_place (rm_foreign s) ids → linked s ids.
Proof. intros Hip id Hin. destruct (ip_open _ _ Hip id Hin) as (c & conn & Hf & Hc & _). unfold link. rewrite Hf. simpl. rewrite Hc. by eexists. Qed.

Definition gid_of (s : State) : string :=
  (CUCKOO_TRANSACTION_2PC_HEAD ++ pretty TopTransactionId ++ ":" ++ pretty (fs_LocalServerId (rm_foreign s)) ++ ":" ++
   (if LocalServerWrite s then "T" else "F"))%string.

Lemma gid_spec s :
  fs_LocalServerId (rm_foreign s) ≠ -1 →
  GetImplicitTransactionGid TopTransactionId s =
    if decide (MAX_TRANSACTION_GID_LENGTH < String.length (gid_of s))%nat then Elog (Cuckoo PROGRAM_ERROR) s else Ret (gid_of s) s.
Proof.
  intros Hid. unfold GetImplicitTransactionGid, IsLocalWrite. rewrite bind_assoc, bind_mget, bind_mret.
  assert (on_foreign GetLocalServerId s = Ret (fs_LocalServerId (rm_foreign s)) s) as Hg.
  { unfold on_foreign, mzoom, GetLocalServerId. rewrite bind_mget, decide_False by done. rewrite bind_mret, bind_mget. simpl.
    by destruct s. }
  erewrite bind_ret by exact Hg. fold (gid_of s). by destruct (decide _).
Qed.

(** The servers that have written, the local one included. *)
Definition writer_count (s : State) (ids : list Z) : Z := (if LocalServerWrite s then 1 else 0) + Z.of_nat (length (writers s ids)).

End remote_spec.
