(* ===== verification/DirOps.v ===== *)
(** * Handlers of directories: mkdir, rmdir and rename (metadb/meta_handle.c)

    These run on the coordinator (server 0), which keeps the directory table
    like every other server: it changes its own table, queues the sub-operations
    for the other servers and waits for their answers.  The inode row of a
    directory lives, like the row of a file, on the one server that owns its
    shard.  The end of the file dispatches a call by its service
    (metadb/meta_serialize_interface.c). *)

From S2P Require Import Prelude Pg Shard RWLock DirHash PathParse Inode FileOps ForeignServer RemoteComm.

(** ** Parameters and responses

    The FlatBuffers encoding is not modelled; what travels is the list of the
    requests, each with the fields that meta_serialize_interface_helper.cpp
    writes and reads for the service, the others blank. *)
Definition SerializedData : Type := list MetaProcessInfoData.

Definition blank_info : MetaProcessInfoData :=
  mkInfo "" 0 0 0 0 None 0 0 0 0 0 0 0 0 0 0 0 0 "" 0 0 None [] "" 0 0 None false 0 SUCCESS.

Definition SerializedDataMetaParamEncode_fields (metaService : CuckooSupportMetaService) (x : MetaProcessInfoData)
    : option MetaProcessInfoData :=
  match metaService with
  | MKDIR_SUB_MKDIR =>
      Some $ blank_info <| mi_parentId := mi_parentId x |> <| mi_name := mi_name x |> <| mi_inodeId := mi_inodeId x |>
  | MKDIR_SUB_CREATE =>
      Some $ blank_info <| mi_parentId_partId := mi_parentId_partId x |> <| mi_name := mi_name x |>
        <| mi_inodeId := mi_inodeId x |> <| st_mode := st_mode x |> <| st_mtim := st_mtim x |>
        <| st_size := st_size x |>
  | RMDIR_SUB_RMDIR => Some $ blank_info <| mi_parentId := mi_parentId x |> <| mi_name := mi_name x |>
  | RMDIR_SUB_UNLINK => Some $ blank_info <| mi_parentId_partId := mi_parentId_partId x |> <| mi_name := mi_name x |>
  | RENAME_SUB_RENAME_LOCALLY =>
      Some $ blank_info <| mi_parentId := mi_parentId x |> <| mi_parentId_partId := mi_parentId_partId x |>
        <| mi_name := mi_name x |> <| dstParentId := dstParentId x |> <| dstParentIdPartId := dstParentIdPartId x |>
        <| dstName := dstName x |> <| targetIsDirectory := targetIsDirectory x |> <| mi_inodeId := mi_inodeId x |>
        <| srcLockOrder := srcLockOrder x |>
  | RENAME_SUB_CREATE =>
      Some $ blank_info <| mi_parentId_partId := mi_parentId_partId x |> <| mi_name := mi_name x |>
        <| mi_inodeId := mi_inodeId x |> <| st_dev := st_dev x |> <| st_mode := st_mode x |> <| st_nlink := st_nlink x |>
        <| st_uid := st_uid x |> <| st_gid := st_gid x |> <| st_rdev := st_rdev x |> <| st_size := st_size x |>
        <| st_blksize := st_blksize x |> <| st_blocks := st_blocks x |> <| st_atim := st_atim x |>
        <| st_mtim := st_mtim x |> <| st_ctim := st_ctim x |> <| node_id := node_id x |>
  | _ => None
  end.

(** The handlers do not look at the result: a service that has no encoding
    leaves an empty parameter. *)
Definition SerializedDataMetaParamEncode (metaService : CuckooSupportMetaService) (l : list MetaProcessInfoData)
    : SerializedData := default [] (mapM (SerializedDataMetaParamEncode_fields metaService) l).

(** Decoding fails when there are fewer items than requests. *)
Definition decode_items (count : Z) (l : SerializedData) : option (list MetaProcessInfoData) :=
  if decide (count ≤ Z.of_nat (length l)) then Some (take (Z.to_nat count) l) else None.

(** The attributes that travel in the answer to RENAME_SUB_RENAME_LOCALLY. *)
Definition copy_attributes (x y : MetaProcessInfoData) : MetaProcessInfoData :=
  y <| mi_inodeId := mi_inodeId x |> <| st_dev := st_dev x |> <| st_mode := st_mode x |> <| st_nlink := st_nlink x |>
    <| st_uid := st_uid x |> <| st_gid := st_gid x |> <| st_rdev := st_rdev x |> <| st_size := st_size x |>
    <| st_blksize := st_blksize x |> <| st_blocks := st_blocks x |> <| st_atim := st_atim x |>
    <| st_mtim := st_mtim x |> <| st_ctim := st_ctim x |> <| node_id := node_id x |>.

(** One item of a response: the error code and, for the services whose
    answer the coordinator or a client reads, the fields of the result. *)
Definition SerializedDataMetaResponseEncode_fields (metaService : CuckooSupportMetaService) (x : MetaProcessInfoData)
    : option MetaProcessInfoData :=
  let code := blank_info <| errorCode := errorCode x |> in
  if decide (errorCode x ≠ SUCCESS ∧ errorCode x ≠ FILE_EXISTS) then Some code
  else match metaService with
  | MKDIR | MKDIR_SUB_MKDIR | MKDIR_SUB_CREATE | CLOSE | RMDIR | RMDIR_SUB_RMDIR | RMDIR_SUB_UNLINK | RENAME
  | RENAME_SUB_CREATE | UTIMENS | CHOWN | CHMOD => Some code
  | CREATE | OPEN => Some (copy_attributes x code)
  | STAT => Some ((copy_attributes x code) <| node_id := 0 |>)
  | UNLINK => Some $ code <| mi_inodeId := mi_inodeId x |> <| st_size := st_size x |> <| node_id := node_id x |>
  | READDIR => Some $ code <| readDirLastShardIndex := readDirLastShardIndex x |>
                 <| readDirLastFileName := readDirLastFileName x |> <| readDirResultList := readDirResultList x |>
  | OPENDIR => Some $ code <| mi_inodeId := mi_inodeId x |>
  | RENAME_SUB_RENAME_LOCALLY =>
      Some (if decide (mi_parentId_partId x ≠ 0 ∧ dstParentIdPartId x = 0) then copy_attributes x code else code)
  | PLAIN_COMMAND | NOT_SUPPORTED => None
  end.

Section dir_ops.
Context `{!PgEnv, !Collation, !DirHashEnv, !TextBuffer, !PgRelation dir_key id_text_le,
          !PgRelation range_point Z.le, !PgRelation inode_key id_text_le, !Libpq SerializedData,
          !PgRelation fs_server_id Z.le, !PgRelation dt_key id_text_le}.
(** GetLocalServerId(), the clock, MetaServiceTypeEncode, the bound on polls
    and results, the value of a variable that was not initialised and the
    error code in a request that palloc has not cleared. *)
Context (LocalServerId : Z) (timestamp : Z → Z) (MetaServiceTypeEncode : CuckooSupportMetaService → Z) (fuel : nat)
        (indeterminate : Z) (stale_code : CuckooErrorCode).

Abbreviation MM := (M MetaState).

Definition on_directory {A} (m : M DirState A) : MM A := on_path (on_dir m).

(** ** Sub-operations of mkdir *)

Definition mkdir_sub_one (i : nat) : MM () :=
  info ← get_info i;
  match mi_name info with
  | None => melog ARGUMENT_ERROR
  | Some name =>
      if decide (mi_parentId info = u64 (-1)) then melog ARGUMENT_ERROR
      else
        on_directory (InsertDirectoryByDirectoryHashTable (mi_parentId info) name (mi_inodeId info)
                        DEFAULT_SUBPART_NUM DIR_LOCK_EXCLUSIVE) ;;
        set_error i SUCCESS
  end.

Definition CuckooMkdirSubMkdirHandle (infoArray : list nat) : MM () := mfor infoArray mkdir_sub_one.

(** The shard of a request of MKDIR_SUB_CREATE. *)
Definition sub_create_shard (i : nat) : MM Z :=
  info ← get_info i;
  if decide (mi_inodeId info = u64 (-1) ∨ mi_parentId_partId info = u64 (-1) ∨ mi_name info = None)
  then melog ARGUMENT_ERROR
  else
    loc ← on_shard (SearchShardInfoByShardValue (mi_parentId_partId info));
    if decide (loc.2 ≠ LocalServerId) then melog ARGUMENT_ERROR else mret loc.1.

Fixpoint sub_create_group (infoArray : list nat) (table : list (Z * list nat)) : MM (list (Z * list nat)) :=
  match infoArray with
  | [] => mret table
  | i :: infoArray' => shardId ← sub_create_shard i; sub_create_group infoArray' (hash_append shardId i table)
  end.

Definition sub_create_row (x : MetaProcessInfoData) : FormData_dfs_inode_table :=
  mkInode (default ""%string (mi_name x)) (mi_inodeId x) (mi_parentId_partId x) 0 (st_mode x) 1 0 0 0
    (st_size x) 0 0 (st_mtim x) (st_mtim x) (st_mtim x) (etag x) 0 (-1) (-1).

Definition sub_create_one (shardId : Z) (i : nat) : MM () :=
  set_info i (λ x, x <| etag := ""%string |>) ;;
  info ← get_info i;
  InsertIntoInodeTable shardId (sub_create_row info) ;;
  set_error i SUCCESS.

Definition CuckooMkdirSubCreateHandle (infoArray : list nat) : MM () :=
  on_shard GetShardTableSize ;;
  table ← sub_create_group infoArray [];
  mfor (hash_seq_order table) (λ entry,
    open_inode_rel entry.1 ;; mfor entry.2 (sub_create_one entry.1)).

(** ** Sub-operations of rmdir *)

(** The scan of one shard of the directory finds a row. *)
Definition directory_row (directoryId : Z) (r : FormData_dfs_inode_table) : bool :=
  bool_decide (i64 (CombineParentIdWithPartId directoryId 0) ≤ i64 (it_parentid_partid r) ∧
               i64 (it_parentid_partid r) ≤ i64 (CombineParentIdWithPartId directoryId PART_ID_MASK)).

Definition check_shard_empty (directoryId : Z) (row : FormData_cuckoo_shard_table) : MM () :=
  if decide (server_id row ≠ LocalServerId) then mret ()
  else
    t ← open_inode_rel (range_point row);
    match filter (λ r, directory_row directoryId r = true) (index_scan t) with
    | [] => mret ()
    | _ :: _ => melog ARGUMENT_ERROR
    end.

Definition CuckooRmdirSubRmdirHandle (i : nat) : MM () :=
  info ← get_info i;
  match mi_name info with
  | None => mundefined
  | Some name =>
      directoryId ← on_directory (SearchDirectoryByDirectoryHashTable (mi_parentId info) name DIR_LOCK_EXCLUSIVE);
      if decide (directoryId = DIR_HASH_TABLE_PATH_NOT_EXIST) then melog FILE_NOT_EXISTS
      else
        on_directory (DeleteDirectoryByDirectoryHashTable (mi_parentId info) name DIR_LOCK_NONE) ;;
        shards ← on_shard GetShardTableData;
        mfor shards (check_shard_empty directoryId) ;;
        set_error i SUCCESS
  end.

Definition CuckooRmdirSubUnlinkHandle (i : nat) : MM () :=
  info ← get_info i;
  loc ← on_shard (SearchShardInfoByShardValue (mi_parentId_partId info));
  if decide (loc.2 ≠ LocalServerId) then melog ARGUMENT_ERROR
  else match mi_name info with
  | None => mundefined
  | Some name =>
      old ← SearchAndUpdateInodeTableInfo loc.1 (mi_parentId_partId info) name
              ((no_update true) <| nlinkChange := Some (-1) |>);
      let nlink := match old with Some r => it_st_nlink r | None => indeterminate end in
      if decide (nlink ≠ 1) then melog PROGRAM_ERROR
      else match old with
      | None => melog FILE_NOT_EXISTS
      | Some _ => set_error i SUCCESS
      end
  end.

(** ** Sub-operations of rename *)

(** The change of the directory table: source and destination in the order in
    which the coordinator locked them. *)
Definition rename_directory_step (info : MetaProcessInfoData) (name dst : string) (step : Z) : MM () :=
  (if decide (step = srcLockOrder info) then
     on_directory (DeleteDirectoryByDirectoryHashTable (mi_parentId info) name DIR_LOCK_EXCLUSIVE)
   else
     on_directory (InsertDirectoryByDirectoryHashTable (dstParentId info) dst (mi_inodeId info)
                     DEFAULT_SUBPART_NUM DIR_LOCK_EXCLUSIVE)) ;;
  command_counter_increment.

(** info's fields from the row that was moved away. *)
Definition store_row (r : FormData_dfs_inode_table) (x : MetaProcessInfoData) : MetaProcessInfoData :=
  x <| mi_inodeId := it_st_ino r |> <| st_dev := it_st_dev r |> <| st_mode := it_st_mode r |>
    <| st_nlink := it_st_nlink r |> <| st_uid := it_st_uid r |> <| st_gid := it_st_gid r |>
    <| st_rdev := it_st_rdev r |> <| st_size := it_st_size r |> <| st_blksize := it_st_blksize r |>
    <| st_blocks := it_st_blocks r |> <| st_atim := it_st_atim r |> <| st_mtim := it_st_mtim r |>
    <| st_ctim := it_st_ctim r |> <| node_id := it_primary_nodeid r |>.

(** Take the row of the source out of its shard. *)
Definition rename_take (info : MetaProcessInfoData) (name : string) : MM FormData_dfs_inode_table :=
  loc ← on_shard (SearchShardInfoByShardValue (mi_parentId_partId info));
  if decide (loc.2 ≠ LocalServerId) then melog WRONG_WORKER
  else
    t ← open_inode_rel loc.1;
    match scan_eq t (i64 (mi_parentId_partId info), name) with
    | None => melog FILE_NOT_EXISTS
    | Some row =>
        match CatalogTupleDelete t (inode_key row) with
        | None => mpgerror TupleAlreadyModified
        | Some t' => put_inode_rel loc.1 t' ;; command_counter_increment ;; mret row
        end
    end.

(** Put it into the shard of the destination, under its new name. *)
Definition rename_put (info : MetaProcessInfoData) (dst : string) (row : FormData_dfs_inode_table) : MM () :=
  loc ← on_shard (SearchShardInfoByShardValue (dstParentIdPartId info));
  if decide (loc.2 ≠ LocalServerId) then melog WRONG_WORKER
  else InsertIntoInodeTable loc.1 (row <| it_parentid_partid := dstParentIdPartId info |> <| it_name := dst |>).

Definition CuckooRenameSubRenameLocallyHandle (i : nat) : MM () :=
  info ← get_info i;
  match mi_name info, dstName info with
  | Some name, Some dst =>
      (if targetIsDirectory info then
         if decide (srcLockOrder info < 0 ∨ srcLockOrder info > 1) then melog ARGUMENT_ERROR
         else rename_directory_step info name dst 0 ;; rename_directory_step info name dst 1
       else mret ()) ;;
      if decide (mi_parentId_partId info = 0) then set_error i SUCCESS
      else
        row ← rename_take info name;
        (if decide (dstParentIdPartId info ≠ 0) then rename_put info dst row
         else set_info i (store_row row)) ;;
        set_error i SUCCESS
  | _, _ => mundefined
  end.

Definition rename_created_row (x : MetaProcessInfoData) : FormData_dfs_inode_table :=
  mkInode (default ""%string (mi_name x)) (mi_inodeId x) (mi_parentId_partId x) (st_dev x) (st_mode x) (st_nlink x)
    (st_uid x) (st_gid x) (st_rdev x) (st_size x) (st_blksize x) (st_blocks x) (st_atim x) (st_mtim x) (st_ctim x)
    "" 0 (node_id x) (-1).

Definition CuckooRenameSubCreateHandle (i : nat) : MM () :=
  info ← get_info i;
  loc ← on_shard (SearchShardInfoByShardValue (mi_parentId_partId info));
  if decide (loc.2 ≠ LocalServerId) then melog WRONG_WORKER
  else
    InsertIntoInodeTable loc.1 (rename_created_row info) ;;
    set_error i SUCCESS.

(** ** The coordinator *)

(** A server: its metadata and its side of the commands to other servers. *)
Record Server := mkServerState { sv_meta : MetaState; sv_remote : RemoteState (D := SerializedData) }.
#[global] Instance eta_Server : Eta Server := λ s, mkServerState (sv_meta s) (sv_remote s).

Abbreviation C := (M Server).
Definition on_meta {A} (m : MM A) : C A := mzoom sv_meta (λ p s, s <| sv_meta := p |>) m.
Definition on_remote {A} (m : M RemoteState A) : C A := mzoom sv_remote (λ p s, s <| sv_remote := p |>) m.

(** The requests at the given positions of the array. *)
Definition get_infos (l : list nat) : C (list MetaProcessInfoData) :=
  s ← mget; mret (omap (λ i, infos (sv_meta s) !! i) l).

(** Queue a call with the given requests as its parameter. *)
Definition call_on (metaService : CuckooSupportMetaService) (requests : list MetaProcessInfoData) (ids : list Z) : C () :=
  on_remote (CuckooMetaCallOnWorkerList metaService (Z.of_nat (length requests))
               (SerializedDataMetaParamEncode metaService requests) REMOTE_COMMAND_FLAG_WRITE ids).

(** The answer of one call: one row with one column, that decodes. *)
Definition read_answer (count : Z) (r : PGresult SerializedData) : C (list MetaProcessInfoData) :=
  match PQrows r with
  | [[v]] =>
      match v with
      | VData d => match decode_items count d with Some l => mret l | None => melog ARGUMENT_ERROR end
      | VText _ => melog ARGUMENT_ERROR
      end
  | _ => melog REMOTE_QUERY_FAILED
  end.

Definition expect_success (l : list MetaProcessInfoData) : C () :=
  if decide (Forall (λ x, errorCode x = SUCCESS) l) then mret () else melog PROGRAM_ERROR.

(** *** mkdir *)

Definition mkdir_flags : Z :=
  Z.lor (Z.lor PATH_PARSE_FLAG_TARGET_IS_DIRECTORY PATH_PARSE_FLAG_TARGET_TO_BE_CREATED)
        PATH_PARSE_FLAG_ALLOW_OPERATION_UNDER_CREATED_DIRECTORY.

(** The body of the second loop: whether the request is a valid one. *)
Definition mkdir_one (i : nat) : MM bool :=
  info ← get_info i;
  if decide (errorCode info ≠ SUCCESS) then mret false
  else
    code ← parse_path LocalServerId i mkdir_flags true;
    if decide (code ≠ SUCCESS) then set_error i code ;; mret false
    else
      info ← get_info i;
      match mi_name info with
      | None => mundefined
      | Some name =>
          on_directory (InsertDirectoryByDirectoryHashTable (mi_parentId info) name (mi_inodeId info)
                          DEFAULT_SUBPART_NUM DIR_LOCK_NONE) ;;
          mret true
      end.

Fixpoint mkdir_parse (infoArray : list nat) : MM (list nat) :=
  match infoArray with
  | [] => mret []
  | i :: infoArray' =>
      valid ← mkdir_one i;
      rest ← mkdir_parse infoArray';
      mret (if valid : bool then i :: rest else rest)
  end.

(** Where the inode row of a new directory goes, and its attributes. *)
Definition mkdir_locate (i : nat) : MM Z :=
  info ← get_info i;
  match mi_name info with
  | None => mundefined
  | Some name =>
      let pp := CombineParentIdWithPartId (mi_parentId info) (HashPartId name) in
      loc ← on_shard (SearchShardInfoByShardValue pp);
      now ← GetCurrentTimestamp timestamp;
      set_info i (λ x, x <| mi_parentId_partId := pp |> <| st_mode := Z.lor S_IFDIR 493 |>
                         <| st_mtim := now |> <| st_size := 0 |>) ;;
      mret loc.2
  end.

Fixpoint mkdir_group (valid : list nat) (table : list (Z * list nat)) : MM (list (Z * list nat)) :=
  match valid with
  | [] => mret table
  | i :: valid' => workerId ← mkdir_locate i; mkdir_group valid' (hash_append workerId i table)
  end.

(** The answers of one server: to MKDIR_SUB_MKDIR and, on a server that was
    sent it, to MKDIR_SUB_CREATE. *)
Definition mkdir_check (validCount : Z) (table : list (Z * list nat)) (res : Z * list (PGresult SerializedData)) : C () :=
  let second (r : PGresult SerializedData) : C () :=
    (match PQrows r with [[_]] => mret () | _ => melog REMOTE_QUERY_FAILED end) ;;
    match hash_find fst res.1 table with
    | None => melog PROGRAM_ERROR
    | Some entry => l ← read_answer (Z.of_nat (length entry.2)) r; expect_success l
    end in
  match res.2 with
  | [r] => l ← read_answer validCount r; expect_success l
  | [r; r'] => (l ← read_answer validCount r; expect_success l) ;; second r'
  | _ => melog PROGRAM_ERROR
  end.

Definition CuckooMkdirHandle (infoArray : list nat) : C () :=
  if decide (LocalServerId ≠ CUCKOO_CN_SERVER_ID) then melog WRONG_WORKER
  else
    on_meta (verify_paths VERIFY_PATH_VALIDITY_REQUIREMENT_MUST_BE_DIRECTORY infoArray) ;;
    infoArray ← on_meta (sort_infos infoArray);
    on_remote (RegisterLocalProcessFlag false) ;;
    valid ← on_meta (mkdir_parse infoArray);
    if decide (length valid = 0%nat) then mret ()
    else
      requests ← get_infos valid;
      ids ← on_remote (on_foreign (GetAllForeignServerId true false));
      call_on MKDIR_SUB_MKDIR requests ids ;;
      table ← on_meta (mkdir_group valid []);
      mfor (hash_seq_order table) (λ entry,
        requests ← get_infos entry.2;
        call_on MKDIR_SUB_CREATE requests [entry.1]) ;;
      total ← on_remote (CuckooSendCommandAndWaitForResult MetaServiceTypeEncode fuel);
      mfor total (mkdir_check (Z.of_nat (length valid)) table).

(** *** rmdir *)

Definition rmdir_check (workerId : Z) (res : Z * list (PGresult SerializedData)) : C () :=
  match res.2 with
  | [r] => l ← read_answer 1 r; expect_success l
  | [r; r'] =>
      (l ← read_answer 1 r; expect_success l) ;;
      (match PQrows r' with [[_]] => mret () | _ => melog REMOTE_QUERY_FAILED end) ;;
      if decide (res.1 ≠ workerId) then melog PROGRAM_ERROR
      else l ← read_answer 1 r'; expect_success l
  | _ => melog PROGRAM_ERROR
  end.

Definition rmdir_flags : Z :=
  Z.lor (Z.lor PATH_PARSE_FLAG_TARGET_IS_DIRECTORY PATH_PARSE_FLAG_TARGET_TO_BE_DELETED) PATH_PARSE_FLAG_NOT_ROOT.

(** Step 1 of rmdir: the coordinator's own table. *)
Definition rmdir_local (i : nat) : MM () :=
  code ← parse_path LocalServerId i rmdir_flags true;
  if decide (code ≠ SUCCESS) then melog code
  else
    info ← get_info i;
    match mi_name info with
    | None => mundefined
    | Some name => on_directory (DeleteDirectoryByDirectoryHashTable (mi_parentId info) name DIR_LOCK_NONE)
    end.

Definition CuckooRmdirHandle (i : nat) : C () :=
  if decide (LocalServerId ≠ CUCKOO_CN_SERVER_ID) then melog WRONG_WORKER
  else
    info ← on_meta (get_info i);
    let '(code, _) := VerifyPathValidity (path info) VERIFY_PATH_VALIDITY_REQUIREMENT_MUST_BE_DIRECTORY in
    if decide (code ≠ SUCCESS) then melog code
    else
      on_remote (RegisterLocalProcessFlag false) ;;
      on_meta (rmdir_local i) ;;
      requests ← get_infos [i];
      ids ← on_remote (on_foreign (GetAllForeignServerId true false));
      call_on RMDIR_SUB_RMDIR requests ids ;;
      loc ← on_meta (locate_info i);
      requests ← get_infos [i];
      call_on RMDIR_SUB_UNLINK requests [loc.2] ;;
      total ← on_remote (CuckooSendCommandAndWaitForResult MetaServiceTypeEncode fuel);
      mfor total (rmdir_check loc.2).

(** *** rename *)

Definition rename_flags (renameDirectory isDst : bool) : Z :=
  let flag := PATH_PARSE_FLAG_NOT_ROOT in
  let flag := if renameDirectory then Z.lor flag PATH_PARSE_FLAG_TARGET_IS_DIRECTORY else flag in
  if isDst then Z.lor flag (Z.lor PATH_PARSE_FLAG_TARGET_TO_BE_CREATED PATH_PARSE_FLAG_INODE_ID_FOR_INPUT)
  else Z.lor flag PATH_PARSE_FLAG_TARGET_TO_BE_DELETED.

(** One path: (parentId, name, directoryId).  The id is an input for the
    destination; for the source the variable is not initialised. *)
Definition rename_parse (renameDirectory isDst : bool) (p : string) (srcDirectoryId : Z) : MM (Z * string * Z) :=
  r ← on_path (PathParseTreeInsert LocalServerId p (rename_flags renameDirectory isDst)
                 (Some (if isDst then srcDirectoryId else indeterminate)));
  if decide (pr_errorCode r ≠ SUCCESS) then melog (pr_errorCode r)
  else match pr_parentId r, pr_fileName r, pr_inodeId r with
       | Some parentId, Some name, Some id => mret (parentId, name, id)
       | _, _, _ => mundefined
       end.

(** Steps 1 to 3: both paths in the order of pathcmp, then the coordinator's
    own directory table.  (renameDirectory, srcLockOrder, source, destination). *)
Definition rename_local (i : nat) : MM (bool * Z * (Z * string * Z) * (Z * string * Z)) :=
  info ← get_info i;
  let '(_, srcProperty) := VerifyPathValidity (path info) 0 in
  srcDirectoryId ← on_path (CheckWhetherPathExistsInDirectoryTable (path info));
  let renameDirectory := bool_decide (srcDirectoryId ≠ DIR_HASH_TABLE_PATH_NOT_EXIST) in
  if renameDirectory && negb (has_flag srcProperty VERIFY_PATH_VALIDITY_PROPERTY_CAN_BE_DIRECTORY) then melog ARGUMENT_ERROR
  else if negb renameDirectory && negb (has_flag srcProperty VERIFY_PATH_VALIDITY_PROPERTY_CAN_BE_FILE) then melog ARGUMENT_ERROR
  else match pathcmp (path info) (dstPath info) with
  | None => mundefined
  | Some cmp =>
      let srcIndex := if decide (cmp > 0) then 1 else 0 in
      both ← (if decide (cmp > 0) then
                d ← rename_parse renameDirectory true (dstPath info) srcDirectoryId;
                s ← rename_parse renameDirectory false (path info) srcDirectoryId;
                mret (s, d)
              else
                s ← rename_parse renameDirectory false (path info) srcDirectoryId;
                d ← rename_parse renameDirectory true (dstPath info) srcDirectoryId;
                mret (s, d));
      let '(src, dst) := both in
      (if renameDirectory then
         on_directory (DeleteDirectoryByDirectoryHashTable src.1.1 src.1.2 DIR_LOCK_NONE) ;;
         command_counter_increment ;;
         on_directory (InsertDirectoryByDirectoryHashTable dst.1.1 dst.1.2 dst.2 DEFAULT_SUBPART_NUM DIR_LOCK_NONE) ;;
         command_counter_increment
       else mret ()) ;;
      mret (renameDirectory, srcIndex, src, dst)
  end.

(** One answer of step 5: the call of RENAME_SUB_CREATE is queued when the
    row has left the server of the source for another one. *)
Definition rename_check (srcWorkerId dstWorkerId dstPP : Z) (dst : string) (res : Z * list (PGresult SerializedData)) : C () :=
  match res.2 with
  | [r] =>
      l ← read_answer 1 r;
      expect_success l ;;
      if decide (srcWorkerId ≠ dstWorkerId ∧ res.1 = srcWorkerId) then
        match l with
        | x :: _ => call_on RENAME_SUB_CREATE [x <| mi_parentId_partId := dstPP |> <| mi_name := Some dst |>] [dstWorkerId]
        | [] => mundefined
        end
      else mret ()
  | _ => melog PROGRAM_ERROR
  end.

(** list_delete_int removes every occurrence. *)
Definition list_delete_int (l : list Z) (z : Z) : list Z := filter (λ x, x ≠ z) l.

Definition rename_finish (dstWorkerId : Z) : C () :=
  total ← on_remote (CuckooSendCommandAndWaitForResult MetaServiceTypeEncode fuel);
  match total with
  | [(serverId, results)] =>
      if decide (serverId ≠ dstWorkerId) then melog PROGRAM_ERROR
      else match results with
           | [r] => l ← read_answer 1 r; expect_success l
           | _ => melog PROGRAM_ERROR
           end
  | _ => melog PROGRAM_ERROR
  end.

Definition CuckooRenameHandle (i : nat) : C () :=
  if decide (LocalServerId ≠ 0) then melog WRONG_WORKER
  else
    r ← on_meta (rename_local i);
    let '(renameDirectory, srcIndex, src, dst) := r in
    on_meta (set_info i (λ x, x <| targetIsDirectory := renameDirectory |> <| mi_inodeId := dst.2 |>
      <| srcLockOrder := srcIndex |> <| mi_parentId := src.1.1 |> <| mi_name := Some src.1.2 |>
      <| dstParentId := dst.1.1 |> <| dstName := Some dst.1.2 |>)) ;;
    let srcPP := CombineParentIdWithPartId src.1.1 (HashPartId src.1.2) in
    let dstPP := CombineParentIdWithPartId dst.1.1 (HashPartId dst.1.2) in
    srcLoc ← on_meta (on_shard (SearchShardInfoByShardValue srcPP));
    dstLoc ← on_meta (on_shard (SearchShardInfoByShardValue dstPP));
    on_meta (set_info i (λ x, x <| mi_parentId_partId := srcPP |>
      <| dstParentIdPartId := if decide (dstLoc.2 = srcLoc.2) then dstPP else 0 |>)) ;;
    requests ← get_infos [i];
    call_on RENAME_SUB_RENAME_LOCALLY requests [srcLoc.2] ;;
    on_meta (set_info i (λ x, x <| mi_parentId_partId := 0 |> <| dstParentIdPartId := 0 |>)) ;;
    requests ← get_infos [i];
    ids ← on_remote (on_foreign (GetAllForeignServerId true true));
    call_on RENAME_SUB_RENAME_LOCALLY requests (list_delete_int ids srcLoc.2) ;;
    total ← on_remote (CuckooSendCommandAndWaitForResult MetaServiceTypeEncode fuel);
    mfor total (rename_check srcLoc.2 dstLoc.2 dstPP dst.1.2) ;;
    (if decide (srcLoc.2 ≠ dstLoc.2) then rename_finish dstLoc.2 else mret ()) ;;
    on_meta (set_error i SUCCESS).

(** ** Dispatch *)

(** The services that take more than one request. *)
Definition batch_service (metaService : CuckooSupportMetaService) : bool :=
  match metaService with
  | MKDIR | MKDIR_SUB_MKDIR | MKDIR_SUB_CREATE | CREATE | STAT | OPEN | CLOSE | UNLINK => true
  | _ => false
  end.

Definition handle (metaService : CuckooSupportMetaService) (infoArray : list nat) : C () :=
  let one (h : nat → C ()) : C () := match infoArray with i :: _ => h i | [] => mundefined end in
  match metaService with
  | MKDIR => CuckooMkdirHandle infoArray
  | MKDIR_SUB_MKDIR => on_meta (CuckooMkdirSubMkdirHandle infoArray)
  | MKDIR_SUB_CREATE => on_meta (CuckooMkdirSubCreateHandle infoArray)
  | CREATE => on_meta (CuckooCreateHandle LocalServerId timestamp false infoArray)
  | STAT => on_meta (CuckooStatHandle LocalServerId infoArray)
  | OPEN => on_meta (CuckooOpenHandle LocalServerId infoArray)
  | CLOSE => on_meta (CuckooCloseHandle LocalServerId timestamp infoArray)
  | UNLINK => on_meta (CuckooUnlinkHandle LocalServerId infoArray)
  | READDIR => one (λ i, on_meta (CuckooReadDirHandle LocalServerId i))
  | OPENDIR => one (λ i, on_meta (CuckooOpenDirHandle LocalServerId i))
  | RMDIR => one CuckooRmdirHandle
  | RMDIR_SUB_RMDIR => one (λ i, on_meta (CuckooRmdirSubRmdirHandle i))
  | RMDIR_SUB_UNLINK => one (λ i, on_meta (CuckooRmdirSubUnlinkHandle i))
  | RENAME => one CuckooRenameHandle
  | RENAME_SUB_RENAME_LOCALLY => one (λ i, on_meta (CuckooRenameSubRenameLocallyHandle i))
  | RENAME_SUB_CREATE => one (λ i, on_meta (CuckooRenameSubCreateHandle i))
  | UTIMENS => one (λ i, on_meta (CuckooUtimeNsHandle LocalServerId timestamp i))
  | CHOWN => one (λ i, on_meta (CuckooChownHandle LocalServerId i))
  | CHMOD => one (λ i, on_meta (CuckooChmodHandle LocalServerId i))
  | PLAIN_COMMAND | NOT_SUPPORTED => melog ARGUMENT_ERROR
  end.

(** The array of requests: decoding fills the fields of the service and
    leaves the error code as it is. *)
Definition set_requests (l : list MetaProcessInfoData) : C () :=
  mmodify (λ s, s <| sv_meta ::= λ m, m <| infos := (λ x, x <| errorCode := stale_code |>) <$> l |> |>).

Definition MetaProcess (metaService : CuckooSupportMetaService) (count : Z) (param : SerializedData) : C SerializedData :=
  if decide (count ≠ 1 ∧ batch_service metaService = false) then melog ARGUMENT_ERROR
  else match decode_items count param with
  | None => melog ARGUMENT_ERROR
  | Some l =>
      set_requests l ;;
      handle metaService (seq 0 (length l)) ;;
      s ← mget;
      match mapM (SerializedDataMetaResponseEncode_fields metaService) (infos (sv_meta s)) with
      | None => melog ARGUMENT_ERROR
      | Some response => mret response
      end
  end.

(** ** The SQL functions of metadb/meta_plain_interface.c: one request with a
    path, and its error code. *)
Definition plain_call (request : MetaProcessInfoData) (h : C ()) : C CuckooErrorCode :=
  set_requests [request] ;; h ;; info ← on_meta (get_info 0); mret (errorCode info).

Definition cuckoo_plain_mkdir (p : string) : C CuckooErrorCode :=
  plain_call (blank_info <| path := p |>) (CuckooMkdirHandle [0%nat]).
Definition cuckoo_plain_create (p : string) : C CuckooErrorCode :=
  plain_call (blank_info <| path := p |>) (on_meta (CuckooCreateHandle LocalServerId timestamp false [0%nat])).
Definition cuckoo_plain_stat (p : string) : C CuckooErrorCode :=
  plain_call (blank_info <| path := p |>) (on_meta (CuckooStatHandle LocalServerId [0%nat])).
Definition cuckoo_plain_rmdir (p : string) : C CuckooErrorCode :=
  plain_call (blank_info <| path := p |>) (CuckooRmdirHandle 0).

(** The names of the entries, each followed by a blank. *)
Definition cuckoo_plain_readdir (p : string) : C string :=
  plain_call (blank_info <| path := p |> <| readDirMaxReadCount := -1 |> <| readDirLastShardIndex := -1 |>
                <| readDirLastFileName := Some ""%string |>)
    (on_meta (CuckooReadDirHandle LocalServerId 0)) ;;
  info ← on_meta (get_info 0);
  mret (String.concat "" ((λ r, rd_fileName r ++ " ")%string <$> readDirResultList info)).
End dir_ops.
