(* ===== verification/DirSpec.v ===== *)
(** * What the sub-operations on directories do to a server

    mkdir, rmdir and rename run these on the servers that own a copy of the
    directory table and a part of the inode rows. *)

From S2P Require Import Prelude Pg Shard RWLock DirHash PathParse Inode Route FileOps FileSpec ReadDir.
From S2P Require Import ForeignServer RemoteComm DirOps.

Section dir_spec.
Context `{!PgEnv, !Collation, !DirHashEnv, !PgRelation dir_key id_text_le,
          !PgRelation range_point Z.le, !PgRelation inode_key id_text_le}.
Context (LocalServerId : Z).

Abbreviation dir_map := (gmap (Z * string) FormData_cuckoo_directory_table).
Abbreviation inode_map := (gmap (Z * string) FormData_dfs_inode_table).

Definition dir_of (s : MetaState) : DirState := ps_dir (ms_path s).
Definition with_dir (d : DirState) (s : MetaState) : MetaState :=
  s <| ms_path ::= λ p, p <| ps_dir := d |> |>.

(** A server inside a transaction that started from the directories [D0]. *)
Record worker_ok (D0 : dir_map) (rows : list FormData_cuckoo_shard_table) (s : MetaState) : Prop := {
  wk_txn : txn D0 (dir_of s);
  wk_real : real_ids D0;
  wk_map : shard_map_ok rows;
  wk_len : Z.of_nat (length rows) ≤ SHARD_COUNT_MAX;
  wk_shard : shard_inv (ms_shard s);
  wk_rows : shard_rows (ms_shard s) = rows;
  wk_settled : db_settled s;
  wk_present row : row ∈ rows → server_id row = LocalServerId → is_Some (db s !! range_point row) }.

Lemma on_directory_ok {A} (m : M DirState A) s P E W :
  outcome_ok (m (dir_of s)) P E W →
  outcome_ok (on_directory m s) (λ a s', ∃ d, s' = with_dir d s ∧ P a d) (λ e s', ∃ d, s' = with_dir d s ∧ E e d) W.
Proof.
  unfold on_directory, on_path, on_dir, mzoom, dir_of. destruct (m _); simpl; eauto.
Qed.

Lemma worker_with_dir D0 rows s d : worker_ok D0 rows s → txn D0 d → worker_ok D0 rows (with_dir d s).
Proof. intros [] Hd. by split. Qed.

Lemma worker_infos D0 rows s l : worker_ok D0 rows s → worker_ok D0 rows (s <| infos := l |>).
Proof. intros []. by split. Qed.

(** The tables of the server after the shard map was looked at. *)
Definition same_tables (s s' : MetaState) : Prop :=
  ms_path s' = ms_path s ∧ inode_rels s' = inode_rels s ∧ infos s' = infos s ∧ clock_calls s' = clock_calls s.

Lemma same_tables_db s s' : same_tables s s' → db s' = db s.
Proof. unfold db. by intros (_ & -> & _). Qed.

Lemma worker_tables D0 rows s s' :
  worker_ok D0 rows s → same_tables s s' → shard_inv (ms_shard s') → shard_rows (ms_shard s') = rows → worker_ok D0 rows s'.
Proof.
  intros [] Hst Hi Hr. pose proof (same_tables_db _ _ Hst) as Hdb. destruct Hst as (Hp & Hrel & _).
  split; try done.
  - unfold dir_of. by rewrite Hp.
  - intros sid t. rewrite Hrel. by apply wk_settled0.
  - intros row. rewrite Hdb. by apply wk_present0.
Qed.

Lemma find_shard D0 rows s v :
  worker_ok D0 rows s →
  ∃ row s', on_shard (SearchShardInfoByShardValue v) s = Ret (range_point row, server_id row) s' ∧
    row ∈ rows ∧ shard_for rows (HashShard v) = Some row ∧ worker_ok D0 rows s' ∧ same_tables s s'.
Proof.
  intros Hs. destruct (search_info_spec (ms_shard s) v) as (row & sh & Hr & Hcov & Htab & Hinv);
    [apply Hs|rewrite (wk_rows _ _ _ Hs); apply Hs..|]. rewrite (wk_rows _ _ _ Hs) in Hcov.
  exists row, (s <| ms_shard := sh |>). unfold on_shard, mzoom. rewrite Hr. split; [done|]. split; [apply Hcov|].
  split; [by apply shard_for_covers; [apply Hs|]|]. split; [|by destruct s].
  apply (worker_tables D0 rows s); [done|done|done|]. simpl. unfold shard_rows. rewrite Htab. apply Hs.
Qed.

Lemma get_shards D0 rows s :
  worker_ok D0 rows s →
  ∃ s', on_shard GetShardTableData s = Ret rows s' ∧ worker_ok D0 rows s' ∧ same_tables s s'.
Proof.
  intros Hs. unfold on_shard, mzoom, GetShardTableData.
  erewrite bind_ret by (apply wait_valid_spec; [apply Hs|rewrite (wk_rows _ _ _ Hs); apply Hs]).
  rewrite bind_mget. simpl. rewrite (wk_rows _ _ _ Hs). eexists. split; [done|]. split; [|by destruct s].
  eapply worker_tables; [done|done| |apply Hs]. intros _. simpl. symmetry. apply Hs.
Qed.

(** ** rmdir *)

Lemma check_shards D0 rows s d shards j :
  worker_ok D0 rows s → (∀ row, row ∈ shards → row ∈ rows) →
  mfor shards (check_shard_empty LocalServerId d) s =
    match listing_from LocalServerId s d j shards with [] => Ret () s | _ :: _ => Elog (Cuckoo ARGUMENT_ERROR) s end.
Proof.
  intros Hs. revert j. induction shards as [|row shards IH]; intros j Hsub; [done|].
  cbn [mfor listing_from]. unfold check_shard_empty, shard_entries.
  destruct (decide (server_id row ≠ LocalServerId)) as [Hne|Heq%dec_stable].
  { rewrite decide_False by done. rewrite bind_mret. simpl. apply IH. intros; apply Hsub; by right. }
  rewrite decide_True by done.
  destruct (wk_present _ _ _ Hs row) as [m Hm]; [apply Hsub; by left|done|].
  destruct (open_db _ _ _ Hm) as (t & Ht & _ & Ho). rewrite Ht, bind_assoc. erewrite bind_ret by exact Ho.
  assert (filter (λ r, directory_row d r = true) (index_scan t) = entries d t) as -> by done.
  destruct (entries d t) as [|r l]; [|done]. rewrite bind_mret. simpl. apply IH. intros; apply Hsub; by right.
Qed.

Lemma search_locked D0 pid name s d :
  txn D0 s → locked s d (mkKey name pid) DIR_LOCK_EXCLUSIVE → lockable d (mkKey name pid) DIR_LOCK_NONE.
Proof.
  intros _ Hl. unfold locked in Hl. rewrite decide_False in Hl by done. destruct Hl as [Hh _].
  right. exists (rw_mode DIR_LOCK_EXCLUSIVE). rewrite Hh. apply elem_of_app. right. by left.
Qed.

(** (C26) RMDIR_SUB_RMDIR removes the row of a directory from the server's
    table and locks the directory exclusively, and it succeeds only when
    readdir would list nothing of it on this server; a directory that has
    entries is refused with ARGUMENT_ERROR, one that does not exist with
    FILE_NOT_EXISTS.  No inode row changes, with success or without, and after an
    error an abort restores the directories. *)
Theorem RmdirSubRmdir_only_empty D0 rows s i x name (key := mkKey name (mi_parentId x)) (d := id_of D0 key) :
  worker_ok D0 rows s → infos s !! i = Some x → mi_name x = Some name → ¬ updated (dir_of s) key →
  (String.length name < MAX_DIRECTORY_PATH_HASH_SIZE)%nat →
  outcome_ok (CuckooRmdirSubRmdirHandle LocalServerId i s)
    (λ _ s', d ≠ DIR_HASH_TABLE_PATH_NOT_EXIST ∧ listing_from LocalServerId s d 0 rows = [] ∧ db s' = db s ∧
       worker_ok D0 rows s' ∧ updated (dir_of s') key ∧ (key, RW_EXCLUSIVE) ∈ held_rwlocks (dir_locks (dir_of s')) ∧
       latest (directory_rel (dir_of s')) = delete (row_key key) (latest (directory_rel (dir_of s))) ∧
       infos s' = <[i := x <| errorCode := SUCCESS |>]> (infos s))
    (λ e s', abort_safe D0 (dir_of s') ∧ db s' = db s ∧
       (e = Cuckoo PROGRAM_ERROR ∨ (e = Cuckoo FILE_NOT_EXISTS ∧ d = DIR_HASH_TABLE_PATH_NOT_EXIST) ∨
        (e = Cuckoo ARGUMENT_ERROR ∧ listing_from LocalServerId s d 0 rows ≠ [])))
    (spins (dir_of s) key DIR_LOCK_EXCLUSIVE).
Proof.
  intros Hs Hi Hn Hu Hl. unfold CuckooRmdirSubRmdirHandle. erewrite bind_ret by by apply get_info_eq. rewrite Hn.
  eapply outcome_ok_bind.
  { eapply outcome_ok_mono; [apply on_directory_ok, (search_txn D0); [apply Hs|apply Hs|by right|done]|exact (λ a s H, H)| |done].
    intros e s' (d' & -> & -> & Ha). split; [done|]. split; [done|by left]. }
  intros id s1 (d1 & -> & -> & Ht1 & Hx1 & Hlk). fold key. fold d.
  destruct (decide (d = DIR_HASH_TABLE_PATH_NOT_EXIST)) as [Hd|Hd].
  { split; [split; apply Ht1|]. split; [done|]. right. left. done. }
  assert (worker_ok D0 rows (with_dir d1 s)) as Hs1 by by apply worker_with_dir.
  assert (¬ updated d1 key) as Hu1 by by rewrite (extends_updated (dir_of s)).
  assert (is_Some (D0 !! (mi_parentId x, name))) as Hrow.
  { unfold d, id_of, key in Hd. simpl in Hd. destruct (D0 !! _); [by eexists|done]. }
  destruct (txn_rest _ _ Ht1 key Hu1) as [Hv Hla].
  eapply outcome_ok_bind.
  { eapply outcome_ok_mono; [apply on_directory_ok, (delete_txn D0); [done|by eapply (search_locked D0); [apply Hs|]|done|done]|exact (λ a s H, H)| |].
    - intros e s' (d' & -> & [->|[[-> He]|[-> He]]] & Ha); [split; [done|split; [done|by left]]|exfalso..].
      + change (directory_rel (dir_of (with_dir d1 s))) with (directory_rel d1) in He. unfold row_key in Hv. simpl in Hv. rewrite Hv in He. rewrite He in Hrow. by destruct Hrow.
      + change (directory_rel (dir_of (with_dir d1 s))) with (directory_rel d1) in He. unfold row_key in Hla. simpl in Hla. rewrite Hla in He. rewrite He in Hrow. by destruct Hrow.
    - by intros [? _]. }
  intros [] s2 (d2 & -> & Ht2 & Hch2 & _ & Hlat & _).
  assert (updated d2 key) as Hup2 by (apply (ch_updated _ _ _ Hch2); by right).
  assert (worker_ok D0 rows (with_dir d2 (with_dir d1 s))) as Hs2 by by apply worker_with_dir.
  destruct (get_shards _ _ _ Hs2) as (s3 & Hg & Hs3 & Hst3). erewrite bind_ret by exact Hg.
  assert (listing_from LocalServerId s3 d 0 rows = listing_from LocalServerId s d 0 rows) as Hlist.
  { destruct Hst3 as (_ & Hrel & _). clear -Hrel. revert Hrel. generalize 0. induction rows as [|row l IH]; intros j Hrel; [done|].
    cbn [listing_from]. unfold shard_entries. rewrite Hrel, IH by done. done. }
  destruct Hst3 as (Hp3 & Hrel3 & Hi3 & Hc3).
  pose proof (check_shards D0 rows s3 d rows 0 Hs3 (λ row H, H)) as Hchk. rewrite Hlist in Hchk.
  destruct (listing_from LocalServerId s d 0 rows) as [|r l].
  - erewrite bind_ret by exact Hchk. unfold set_error. rewrite (set_info_eq s3 i x) by (rewrite Hi3; exact Hi). simpl.
    split; [done|]. split; [done|]. split; [unfold db; simpl; by rewrite Hrel3|]. split.
    + apply (worker_infos D0 rows s3). exact Hs3.
    + unfold dir_of. simpl. rewrite Hp3, Hi3. simpl. split; [done|]. split.
      { apply (ch_held _ _ _ Hch2). destruct Hlk as [Hh _]. change (held_rwlocks (dir_locks (dir_of (with_dir d1 s)))) with (held_rwlocks (dir_locks d1)).
        rewrite Hh. apply elem_of_app. right. by left. }
      split; [|done]. rewrite Hlat. change (directory_rel (dir_of (with_dir d1 s))) with (directory_rel d1). destruct Hx1 as [-> _ _ _]. done.
  - unfold mbind, M_bind. rewrite Hchk. simpl. split; [unfold dir_of; rewrite Hp3; split; apply Ht2|].
    split; [unfold db; by rewrite Hrel3|by right; right].
Qed.

(** ** rename *)

(** Rows taken from and put into a shard. *)
Definition take_row (d : gmap Z inode_map) (sid : Z) (k : Z * string) : gmap Z inode_map := alter (delete k) sid d.
Definition put_row (d : gmap Z inode_map) (sid : Z) (r : FormData_dfs_inode_table) : gmap Z inode_map :=
  alter (insert (inode_key r) r) sid d.

(** The row under its new name. *)
Definition renamed (r : FormData_dfs_inode_table) (pp : Z) (name : string) : FormData_dfs_inode_table :=
  r <| it_parentid_partid := pp |> <| it_name := name |>.

Lemma worker_rows D0 rows s s' :
  worker_ok D0 rows s → rows_only s s' → db_settled s' → dom (db s') = dom (db s) → worker_ok D0 rows s'.
Proof.
  intros [] [Hsh _ _ [n Hp]] Hset Hdom. split; try done; rewrite ?Hsh; try done.
  - unfold dir_of. rewrite Hp. clear -wk_txn0. induction n as [|n IH]; [done|]. rewrite Nat.iter_succ. unfold cci_path at 1.
    simpl. by apply txn_cci.
  - intros row Hr Hl. apply elem_of_dom. rewrite Hdom. apply elem_of_dom. by apply wk_present0.
Qed.

(** The rows of the directory table after the last command. *)
Definition dirs_of (s : MetaState) : dir_map := latest (directory_rel (dir_of s)).

(** A step that leaves the directories and the requests alone. *)
Record kept (D0 : dir_map) (rows : list FormData_cuckoo_shard_table) (s s' : MetaState) : Prop := {
  kp_ok : worker_ok D0 rows s';
  kp_dirs : dirs_of s' = dirs_of s;
  kp_infos : infos s' = infos s }.

Lemma kept_trans D0 rows s1 s2 s3 : kept D0 rows s1 s2 → kept D0 rows s2 s3 → kept D0 rows s1 s3.
Proof. intros [_ Hd Hi] [? Hd' Hi']. split; [done|by rewrite Hd'|by rewrite Hi']. Qed.

Lemma kept_tables D0 rows s s' : worker_ok D0 rows s' → same_tables s s' → kept D0 rows s s'.
Proof. intros Hw (Hp & _ & Hi & _). split; [done| |done]. unfold dirs_of, dir_of. by rewrite Hp. Qed.

Lemma kept_rows D0 rows s s' :
  worker_ok D0 rows s → rows_only s s' → db_settled s' → dom (db s') = dom (db s) → kept D0 rows s s'.
Proof.
  intros Hs Hro Hset Hdom. split; [by eapply worker_rows| |apply Hro]. destruct (ro_path _ _ Hro) as [n Hp].
  unfold dirs_of, dir_of. rewrite Hp. clear. induction n as [|n IH]; [done|]. rewrite Nat.iter_succ.
  unfold cci_path at 1. simpl. by rewrite cci_latest.
Qed.

(** The row of (pp, name) is where the map says, on this server. *)
Definition located (rows : list FormData_cuckoo_shard_table) (pp : Z) (row : FormData_cuckoo_shard_table) : Prop :=
  shard_for rows (HashShard pp) = Some row ∧ row ∈ rows.

Lemma rename_take_spec D0 rows s x name :
  worker_ok D0 rows s →
  ∃ row, located rows (mi_parentId_partId x) row ∧
  outcome_ok (rename_take LocalServerId x name s)
    (λ r s', server_id row = LocalServerId ∧ cell (db s) (range_point row) (i64 (mi_parentId_partId x), name) = Some r ∧
       db s' = take_row (db s) (range_point row) (i64 (mi_parentId_partId x), name) ∧
       kept D0 rows s s')
    (λ e s', worker_ok D0 rows s' ∧
       ((e = Cuckoo WRONG_WORKER ∧ server_id row ≠ LocalServerId) ∨
        (e = Cuckoo FILE_NOT_EXISTS ∧ cell (db s) (range_point row) (i64 (mi_parentId_partId x), name) = None))) False.
Proof.
  intros Hs. destruct (find_shard _ _ _ (mi_parentId_partId x) Hs) as (row & s1 & Hr & Hin & Hf & Hs1 & Hst).
  exists row. split; [by split|]. unfold rename_take. erewrite bind_ret by exact Hr. simpl.
  destruct (decide (server_id row ≠ LocalServerId)) as [Hne|Heq%dec_stable]; [split; [done|by left]|].
  rewrite <-(same_tables_db _ _ Hst). destruct (wk_present _ _ _ Hs1 row Hin Heq) as [m Hm].
  destruct (open_db _ _ _ Hm) as (t & Ht & Hv & Ho). erewrite bind_ret by exact Ho. rewrite scan_eq_visible, Hv.
  unfold cell. rewrite Hm. simpl. destruct (m !! _) as [r|] eqn:Hk; [|split; [done|by right]].
  pose proof (db_keyed s1 _ _ _ _ Hm Hk) as Hkey. rewrite Hkey.
  destruct (delete_is_Some t (i64 (mi_parentId_partId x), name)) as [t' Et].
  { rewrite <-(wk_settled _ _ _ Hs1 _ _ Ht), Hv, Hk. by eexists. }
  rewrite Et. apply delete_Some in Et as [_ El]. destruct (put_rows s1 (range_point row) t' (wk_settled _ _ _ Hs1)) as (s2 & H2 & Hd2 & Hs2 & Hro).
  rewrite <-bind_assoc. erewrite bind_ret by exact H2. simpl.
  assert (db s2 = take_row (db s1) (range_point row) (i64 (mi_parentId_partId x), name)) as Hdb.
  { rewrite Hd2, El. unfold take_row. rewrite <-(wk_settled _ _ _ Hs1 _ _ Ht), Hv. apply map_eq. intros j.
    destruct (decide (j = range_point row)) as [->|Hj].
    - rewrite lookup_insert_eq, lookup_alter_eq, Hm. done.
    - rewrite lookup_insert_ne, lookup_alter_ne by done. done. }
  split; [done|]. split; [done|]. split; [done|]. eapply kept_trans; [by apply kept_tables|].
  eapply kept_rows; [exact Hs1|done|done|]. rewrite Hdb. unfold take_row. apply dom_alter_L.
Qed.

Lemma put_spec D0 rows s row r :
  worker_ok D0 rows s → row ∈ rows → server_id row = LocalServerId →
  outcome_ok (InsertIntoInodeTable (range_point row) r s)
    (λ _ s', cell (db s) (range_point row) (inode_key r) = None ∧ db s' = put_row (db s) (range_point row) r ∧
       kept D0 rows s s')
    (λ e s', worker_ok D0 rows s' ∧ e = UniqueViolation ∧ is_Some (cell (db s) (range_point row) (inode_key r))) False.
Proof.
  intros Hs Hin Hl. destruct (wk_present _ _ _ Hs row Hin Hl) as [m Hm]. unfold cell. rewrite Hm. simpl.
  destruct (m !! inode_key r) as [old|] eqn:Hk.
  - rewrite (Insert_duplicate s (range_point row) m r); [|apply Hs|done|by rewrite Hk; eexists]. simpl. split; [done|]. split; [done|by eexists].
  - destruct (Insert_new s (range_point row) m r) as (s' & Hr & Hd & Hset & Hro); [apply Hs|done|done|]. rewrite Hr. simpl.
    assert (db s' = put_row (db s) (range_point row) r) as Hdb.
    { rewrite Hd. unfold put_row. apply map_eq. intros j. destruct (decide (j = range_point row)) as [->|Hj].
      - rewrite lookup_insert_eq, lookup_alter_eq, Hm. done.
      - rewrite lookup_insert_ne, lookup_alter_ne by done. done. }
    split; [done|]. split; [done|].
    eapply kept_rows; [exact Hs|done|done|]. rewrite Hdb. unfold put_row. apply dom_alter_L.
Qed.

Lemma rename_put_spec D0 rows s x dst r :
  worker_ok D0 rows s →
  ∃ row, located rows (dstParentIdPartId x) row ∧
  outcome_ok (rename_put LocalServerId x dst r s)
    (λ _ s', server_id row = LocalServerId ∧
       cell (db s) (range_point row) (i64 (dstParentIdPartId x), dst) = None ∧
       db s' = put_row (db s) (range_point row) (renamed r (dstParentIdPartId x) dst) ∧ kept D0 rows s s')
    (λ e s', worker_ok D0 rows s' ∧ ((e = Cuckoo WRONG_WORKER ∧ server_id row ≠ LocalServerId) ∨
       (e = UniqueViolation ∧ is_Some (cell (db s) (range_point row) (i64 (dstParentIdPartId x), dst))))) False.
Proof.
  intros Hs. destruct (find_shard _ _ _ (dstParentIdPartId x) Hs) as (row & s1 & Hr & Hin & Hf & Hs1 & Hst).
  exists row. split; [by split|]. unfold rename_put. erewrite bind_ret by exact Hr. simpl.
  destruct (decide (server_id row ≠ LocalServerId)) as [Hne|Heq%dec_stable]; [split; [done|by left]|].
  rewrite <-(same_tables_db _ _ Hst). fold (renamed r (dstParentIdPartId x) dst).
  eapply outcome_ok_mono; [by apply (put_spec D0 rows s1 row)| | |done].
  - intros [] s2 (Hc & Hd & Hk). split; [done|]. split; [done|]. split; [done|].
    eapply kept_trans; [by apply kept_tables|done].
  - intros e s2 (Hok & -> & Hc). split; [done|]. by right.
Qed.
(** *** The directory table *)

(** A change of one pair of the directory table, followed by
    CommandCounterIncrement. *)
Record dir_changed (D0 : dir_map) (rows : list FormData_cuckoo_shard_table) (key : DirPathHashKey) (new : dir_map) (s s' : MetaState) : Prop := {
  dc_ok : worker_ok D0 rows s';
  dc_db : db s' = db s;
  dc_infos : infos s' = infos s;
  dc_updated k : updated (dir_of s') k ↔ updated (dir_of s) k ∨ k = key;
  dc_dirs : dirs_of s' = new;
  dc_visible : visible (directory_rel (dir_of s')) = dirs_of s' }.

Lemma cci_eq D0 rows s : worker_ok D0 rows s →
  ∃ s', command_counter_increment s = Ret () s' ∧ worker_ok D0 rows s' ∧ db s' = db s ∧ infos s' = infos s ∧
    dir_of s' = (dir_of s) <| directory_rel ::= CommandCounterIncrement |>.
Proof.
  intros Hs. eexists. split; [done|].
  assert (∀ f, db (s <| ms_path ::= f |> <| inode_rels ::= fmap CommandCounterIncrement |>) = db s) as Hdb.
  { intros f. apply map_eq. intros sid. unfold db. simpl. rewrite !lookup_fmap.
    destruct (inode_rels s !! sid) as [t|] eqn:Et; [|done]. simpl. by rewrite cci_visible, <-(wk_settled _ _ _ Hs _ _ Et). }
  split; [|by rewrite Hdb]. destruct Hs. split; try done; [by apply txn_cci| |].
  - intros sid t. simpl. rewrite lookup_fmap, fmap_Some. intros (t0 & _ & ->). apply settled_cci.
  - intros row. rewrite Hdb. by apply wk_present0.
Qed.

Lemma cci_changed D0 rows key new s s1 d :
  worker_ok D0 rows s → s1 = with_dir d s → txn D0 d → changes key (dir_of s) d → latest (directory_rel d) = new →
  outcome_ok (command_counter_increment s1) (λ _ s', dir_changed D0 rows key new s s') (λ _ _, False) False.
Proof.
  intros Hs -> Ht Hc Hn. destruct (cci_eq D0 rows (with_dir d s)) as (s' & Hr & Hok & Hdb & Hi & Hd); [by apply worker_with_dir|].
  rewrite Hr. simpl. split; [done|done|done| | |].
  - intros k. rewrite Hd. change (updated d k ↔ updated (dir_of s) k ∨ k = key). apply Hc.
  - unfold dirs_of. rewrite Hd. simpl. by rewrite cci_latest.
  - unfold dirs_of. rewrite Hd. simpl. by rewrite cci_visible, cci_latest.
Qed.

(** Why the directory table refuses a change, and when it waits. *)
Definition changed_by_other (D0 : dir_map) (e : ErrorData) (s' : MetaState) (P : Prop) : Prop :=
  abort_safe D0 (dir_of s') ∧ (e = Cuckoo PROGRAM_ERROR ∨ P).
Definition waits_for (key : DirPathHashKey) : Prop := ∃ d, spins d key DIR_LOCK_EXCLUSIVE.

Lemma dir_delete_spec D0 rows s pid name (key := mkKey name pid) :
  worker_ok D0 rows s → (String.length name < MAX_DIRECTORY_PATH_HASH_SIZE)%nat →
  visible (directory_rel (dir_of s)) !! (pid, name) = D0 !! (pid, name) → dirs_of s !! (pid, name) = D0 !! (pid, name) →
  outcome_ok ((on_directory (DeleteDirectoryByDirectoryHashTable pid name DIR_LOCK_EXCLUSIVE) ;; command_counter_increment) s)
    (λ _ s', is_Some (D0 !! (pid, name)) ∧ dir_changed D0 rows key (delete (pid, name) (dirs_of s)) s s')
    (λ e s', changed_by_other D0 e s' (D0 !! (pid, name) = None)) (waits_for key).
Proof.
  intros Hs Hl Hv Hla. eapply outcome_ok_bind.
  { eapply outcome_ok_mono; [apply on_directory_ok, (delete_txn D0); [apply Hs|by left|done|done]|exact (λ a s H, H)| |].
    - intros e s' (d & -> & He & Ha). split; [done|]. destruct He as [->|[[_ He]|[_ He]]]; [by left|right..].
      + by rewrite <-Hv.
      + unfold dirs_of in Hla. by rewrite <-Hla.
    - intros Hsp. by eexists. }
  intros [] s1 (d & Hs1 & Ht & Hc & His & Hlat & _). eapply outcome_ok_mono; [by eapply cci_changed| |done|done].
  intros [] s2 H2. split; [by rewrite <-Hv|done].
Qed.

Lemma dir_insert_spec D0 rows s pid name newId nsub (key := mkKey name pid) :
  worker_ok D0 rows s → (String.length name < MAX_DIRECTORY_PATH_HASH_SIZE)%nat →
  ¬ updated (dir_of s) key → dirs_of s !! (pid, name) = D0 !! (pid, name) →
  outcome_ok ((on_directory (InsertDirectoryByDirectoryHashTable pid name newId nsub DIR_LOCK_EXCLUSIVE) ;;
               command_counter_increment) s)
    (λ _ s', D0 !! (pid, name) = None ∧ dir_changed D0 rows key (<[(pid, name) := mkDirRow pid name newId]> (dirs_of s)) s s')
    (λ e s', changed_by_other D0 e s' (is_Some (D0 !! (pid, name)))) (waits_for key).
Proof.
  intros Hs Hl Hu Hla. eapply outcome_ok_bind.
  { eapply outcome_ok_mono; [apply on_directory_ok, (insert_txn D0); [apply Hs|apply Hs|by right|by left|done]|exact (λ a s H, H)| |].
    - intros e s' (d & -> & He & Ha). split; [done|]. destruct He as [->|[[_ He]|[_ He]]]; [by left|right..].
      + unfold id_of in He. simpl in He. by destruct (D0 !! _).
      + unfold dirs_of in Hla. by rewrite <-Hla.
    - intros Hsp. by eexists. }
  intros [] s1 (d & Hs1 & Ht & Hc & Hnone & Hlat & _). eapply outcome_ok_mono; [by eapply cci_changed| |done|done].
  intros [] s2 H2. split; [by rewrite <-Hla|done].
Qed.
(** The two pairs of a renamed directory. *)
Definition src_key (x : MetaProcessInfoData) (name : string) : DirPathHashKey := mkKey name (mi_parentId x).
Definition dst_key (x : MetaProcessInfoData) (dst : string) : DirPathHashKey := mkKey dst (dstParentId x).

(** The pairs are different, short enough, and this transaction has not
    changed them; the lock order is one of the two there are. *)
Record can_rename (s : MetaState) (x : MetaProcessInfoData) (name dst : string) : Prop := {
  cr_order : 0 ≤ srcLockOrder x ≤ 1;
  cr_diff : src_key x name ≠ dst_key x dst;
  cr_src : ¬ updated (dir_of s) (src_key x name);
  cr_dst : ¬ updated (dir_of s) (dst_key x dst);
  cr_name : (String.length name < MAX_DIRECTORY_PATH_HASH_SIZE)%nat;
  cr_dname : (String.length dst < MAX_DIRECTORY_PATH_HASH_SIZE)%nat }.

(** The directories after the rename. *)
Definition moved_dirs (x : MetaProcessInfoData) (name dst : string) (d : dir_map) : dir_map :=
  <[(dstParentId x, dst) := mkDirRow (dstParentId x) dst (mi_inodeId x)]> (delete (mi_parentId x, name) d).

Record dirs_renamed (D0 : dir_map) (rows : list FormData_cuckoo_shard_table) (x : MetaProcessInfoData)
    (name dst : string) (s s' : MetaState) : Prop := {
  dr_ok : worker_ok D0 rows s';
  dr_db : db s' = db s;
  dr_infos : infos s' = infos s;
  dr_src : is_Some (D0 !! (mi_parentId x, name));
  dr_dst : D0 !! (dstParentId x, dst) = None;
  dr_dirs : dirs_of s' = moved_dirs x name dst (dirs_of s) }.

Lemma untouched D0 rows s key : worker_ok D0 rows s → ¬ updated (dir_of s) key →
  visible (directory_rel (dir_of s)) !! row_key key = D0 !! row_key key ∧ dirs_of s !! row_key key = D0 !! row_key key.
Proof. intros Hs Hu. apply (txn_rest _ _ (wk_txn _ _ _ Hs) key Hu). Qed.

Lemma rename_dirs_spec D0 rows s x name dst :
  worker_ok D0 rows s → can_rename s x name dst →
  outcome_ok ((rename_directory_step x name dst 0 ;; rename_directory_step x name dst 1) s)
    (λ _ s', dirs_renamed D0 rows x name dst s s')
    (λ e s', changed_by_other D0 e s' (D0 !! (mi_parentId x, name) = None ∨ is_Some (D0 !! (dstParentId x, dst))))
    (waits_for (src_key x name) ∨ waits_for (dst_key x dst)).
Proof.
  intros Hs [Ho Hd Hus Hud Hn Hdn].
  destruct (untouched _ _ _ _ Hs Hus) as [Hvs Hls]. destruct (untouched _ _ _ _ Hs Hud) as [Hvd Hld].
  unfold row_key in *. simpl in *.
  assert ((mi_parentId x, name) ≠ (dstParentId x, dst)) as Hne by (intros [= He1 He2]; by apply Hd; unfold src_key, dst_key; rewrite He1, He2).
  unfold rename_directory_step. destruct (decide (0 = srcLockOrder x)) as [Hz|Hz].
  - rewrite decide_False by lia. eapply outcome_ok_bind.
    { eapply outcome_ok_mono; [by apply (dir_delete_spec D0 rows)|exact (λ a s H, H)| |by left].
      intros e s' [Ha [?|?]]; split; auto. }
    intros [] s1 [His Hc1]. eapply outcome_ok_mono; [apply (dir_insert_spec D0 rows s1)| | |by right].
    + apply Hc1.
    + done.
    + rewrite (dc_updated _ _ _ _ _ _ Hc1). intros [?|?]; [done|]. by apply Hd.
    + rewrite (dc_dirs _ _ _ _ _ _ Hc1), lookup_delete_ne by done. done.
    + intros [] s2 [Hdn0 Hc2]. split; [apply Hc2| | |done|done|].
      * by rewrite (dc_db _ _ _ _ _ _ Hc2), (dc_db _ _ _ _ _ _ Hc1).
      * by rewrite (dc_infos _ _ _ _ _ _ Hc2), (dc_infos _ _ _ _ _ _ Hc1).
      * by rewrite (dc_dirs _ _ _ _ _ _ Hc2), (dc_dirs _ _ _ _ _ _ Hc1).
    + intros e s' [Ha [?|?]]; split; auto.
  - rewrite decide_True by lia. eapply outcome_ok_bind.
    { eapply outcome_ok_mono; [by apply (dir_insert_spec D0 rows)|exact (λ a s H, H)| |by right].
      intros e s' [Ha [?|?]]; split; auto. }
    intros [] s1 [His Hc1]. eapply outcome_ok_mono; [apply (dir_delete_spec D0 rows s1)| | |by left].
    + apply Hc1.
    + done.
    + rewrite (dc_visible _ _ _ _ _ _ Hc1), (dc_dirs _ _ _ _ _ _ Hc1), lookup_insert_ne by done. done.
    + rewrite (dc_dirs _ _ _ _ _ _ Hc1), lookup_insert_ne by done. done.
    + intros [] s2 [Hdn0 Hc2]. split; [apply Hc2| | |done|done|].
      * by rewrite (dc_db _ _ _ _ _ _ Hc2), (dc_db _ _ _ _ _ _ Hc1).
      * by rewrite (dc_infos _ _ _ _ _ _ Hc2), (dc_infos _ _ _ _ _ _ Hc1).
      * rewrite (dc_dirs _ _ _ _ _ _ Hc2), (dc_dirs _ _ _ _ _ _ Hc1). unfold moved_dirs. by rewrite delete_insert_ne.
    + intros e s' [Ha [?|?]]; split; auto.
Qed.
(** *** The rows *)

(** The row that [pp] and [name] select, in the shard that owns them. *)
Record owned_row (rows : list FormData_cuckoo_shard_table) (d : gmap Z inode_map) (pp : Z) (name : string)
    (row : FormData_cuckoo_shard_table) (r : FormData_dfs_inode_table) : Prop := {
  or_located : located rows pp row;
  or_local : server_id row = LocalServerId;
  or_row : cell d (range_point row) (i64 pp, name) = Some r }.

(** What a rename does to the rows of this server: nothing when the source
    row is elsewhere, else it moves the row under its new name, or takes it
    out and puts its attributes into the request when the destination is on
    another server. *)
Definition rows_renamed (rows : list FormData_cuckoo_shard_table) (i : nat) (x : MetaProcessInfoData) (name dst : string)
    (s s' : MetaState) : Prop :=
  if decide (mi_parentId_partId x = 0) then db s' = db s ∧ infos s' = <[i := x <| errorCode := SUCCESS |>]> (infos s)
  else ∃ row r, owned_row rows (db s) (mi_parentId_partId x) name row r ∧
    let left := take_row (db s) (range_point row) (i64 (mi_parentId_partId x), name) in
    if decide (dstParentIdPartId x ≠ 0) then
      ∃ row', located rows (dstParentIdPartId x) row' ∧ server_id row' = LocalServerId ∧
        cell left (range_point row') (i64 (dstParentIdPartId x), dst) = None ∧
        db s' = put_row left (range_point row') (renamed r (dstParentIdPartId x) dst) ∧
        infos s' = <[i := x <| errorCode := SUCCESS |>]> (infos s)
    else db s' = left ∧ infos s' = <[i := (store_row r x) <| errorCode := SUCCESS |>]> (infos s).

Definition rows_refuse (rows : list FormData_cuckoo_shard_table) (x : MetaProcessInfoData) (name dst : string)
    (s : MetaState) (e : ErrorData) : Prop :=
  (e = Cuckoo WRONG_WORKER ∧ ∃ row, (located rows (mi_parentId_partId x) row ∨ located rows (dstParentIdPartId x) row) ∧
     server_id row ≠ LocalServerId) ∨
  (e = Cuckoo FILE_NOT_EXISTS ∧ ∃ row, located rows (mi_parentId_partId x) row ∧
     cell (db s) (range_point row) (i64 (mi_parentId_partId x), name) = None) ∨
  (e = UniqueViolation ∧ ∃ row row' r, owned_row rows (db s) (mi_parentId_partId x) name row r ∧
     located rows (dstParentIdPartId x) row' ∧
     is_Some (cell (take_row (db s) (range_point row) (i64 (mi_parentId_partId x), name)) (range_point row')
                (i64 (dstParentIdPartId x), dst))).

Definition rename_rows_part (i : nat) (info : MetaProcessInfoData) (name dst : string) : M MetaState () :=
  if decide (mi_parentId_partId info = 0) then set_error i SUCCESS
  else
    row ← rename_take LocalServerId info name;
    (if decide (dstParentIdPartId info ≠ 0) then rename_put LocalServerId info dst row
     else set_info i (store_row row)) ;;
    set_error i SUCCESS.

Lemma rename_rows_spec D0 rows s i x name dst :
  worker_ok D0 rows s → infos s !! i = Some x →
  outcome_ok (rename_rows_part i x name dst s)
    (λ _ s', worker_ok D0 rows s' ∧ dirs_of s' = dirs_of s ∧ rows_renamed rows i x name dst s s')
    (λ e s', worker_ok D0 rows s' ∧ rows_refuse rows x name dst s e) False.
Proof.
  intros Hs Hi. unfold rename_rows_part, rows_renamed. destruct (decide (mi_parentId_partId x = 0)) as [Hz|Hz].
  { unfold set_error. rewrite (set_info_eq s i x) by done. simpl. split; [by apply worker_infos|]. done. }
  destruct (rename_take_spec D0 rows s x name Hs) as (row & Hloc & Htake). eapply outcome_ok_bind.
  { eapply outcome_ok_mono; [exact Htake|exact (λ a s H, H)| |done].
    intros e s' [Hok [[-> Hne]|[-> Hc]]]; (split; [done|]); [left|right; left]; (split; [done|]); exists row; auto. }
  intros r s1 (Hl & Hr & Hdb & Hk). assert (infos s1 !! i = Some x) as Hi1 by by rewrite (kp_infos _ _ _ _ Hk).
  assert (owned_row rows (db s) (mi_parentId_partId x) name row r) as Hown by done.
  destruct (decide (dstParentIdPartId x ≠ 0)) as [Hd|Hd].
  - destruct (rename_put_spec D0 rows s1 x dst r (kp_ok _ _ _ _ Hk)) as (row' & Hloc' & Hput). eapply outcome_ok_bind.
    { eapply outcome_ok_mono; [exact Hput|exact (λ a s H, H)| |done]. rewrite Hdb.
      intros e s' [Hok [[-> Hne]|[-> Hc]]]; (split; [done|]); [left|right; right]; (split; [done|]); [exists row'|exists row, row', r]; auto. }
    rewrite Hdb. intros [] s2 (Hl' & Hc & Hdb2 & Hk2). unfold set_error.
    pose proof (kept_trans _ _ _ _ _ Hk Hk2) as Hk'.
    rewrite (set_info_eq s2 i x) by by rewrite (kp_infos _ _ _ _ Hk'). simpl.
    split; [apply worker_infos, Hk2|]. split; [apply Hk'|]. exists row, r. split; [done|]. exists row'.
    rewrite (kp_infos _ _ _ _ Hk'). done.
  - erewrite bind_ret by by apply set_info_eq. unfold set_error.
    erewrite set_info_eq by (simpl; apply list_lookup_insert_eq; by eapply lookup_lt_Some).
    simpl. split; [apply worker_infos, worker_infos, Hk|]. split; [apply Hk|]. exists row, r. split; [done|]. split; [done|].
    by rewrite list_insert_insert_eq, (kp_infos _ _ _ _ Hk).
Qed.

(** (C27) RENAME_SUB_RENAME_LOCALLY.  For a directory, its row moves in the
    directory table from the old pair to the new one with its inode id, in
    whichever order the coordinator locked the pairs.  When this server owns
    the source's inode row, that row moves to the shard of the new name with
    all its other columns, or leaves the server with its attributes in the
    request.  Every refusal is classified, and an abort finds the shared table
    in agreement with the committed directories. *)
Theorem RenameSubRenameLocally_moves D0 rows s i x name dst :
  worker_ok D0 rows s → infos s !! i = Some x → mi_name x = Some name → dstName x = Some dst →
  (targetIsDirectory x = true → can_rename s x name dst) →
  outcome_ok (CuckooRenameSubRenameLocallyHandle LocalServerId i s)
    (λ _ s', worker_ok D0 rows s' ∧ rows_renamed rows i x name dst s s' ∧
       if targetIsDirectory x
       then is_Some (D0 !! (mi_parentId x, name)) ∧ D0 !! (dstParentId x, dst) = None ∧
            dirs_of s' = moved_dirs x name dst (dirs_of s)
       else dirs_of s' = dirs_of s)
    (λ e s', abort_safe D0 (dir_of s') ∧
       (rows_refuse rows x name dst s e ∨
        (targetIsDirectory x = true ∧ (e = Cuckoo PROGRAM_ERROR ∨ D0 !! (mi_parentId x, name) = None ∨
           is_Some (D0 !! (dstParentId x, dst))))))
    (targetIsDirectory x = true ∧ (waits_for (src_key x name) ∨ waits_for (dst_key x dst))).
Proof.
  intros Hs Hi Hn Hd Hdir. unfold CuckooRenameSubRenameLocallyHandle. erewrite bind_ret by by apply get_info_eq.
  rewrite Hn, Hd. fold (rename_rows_part i x name dst).
  destruct (targetIsDirectory x) eqn:Ht.
  - specialize (Hdir eq_refl). rewrite decide_False by (destruct Hdir; lia). eapply outcome_ok_bind.
    { eapply outcome_ok_mono; [by apply (rename_dirs_spec D0 rows)|exact (λ a s H, H)| |by auto].
      intros e s' [Ha He]. split; [done|]. right. split; [done|]. tauto. }
    intros [] s1 Hr. eapply outcome_ok_mono; [apply (rename_rows_spec D0 rows s1)|..].
    + apply Hr.
    + by rewrite (dr_infos _ _ _ _ _ _ _ Hr).
    + intros [] s2 (Hok & Hdirs & Hrow). split; [done|]. split.
      * unfold rows_renamed in *. rewrite (dr_db _ _ _ _ _ _ _ Hr), (dr_infos _ _ _ _ _ _ _ Hr) in Hrow. exact Hrow.
      * rewrite Hdirs. by destruct Hr.
    + intros e s2 [Hok He]. split; [split; apply Hok|]. left. unfold rows_refuse in *.
      rewrite (dr_db _ _ _ _ _ _ _ Hr) in He. exact He.
    + done.
  - rewrite bind_mret. eapply outcome_ok_mono; [by apply (rename_rows_spec D0 rows s)|..].
    + intros [] s2 (Hok & Hdirs & Hrow). done.
    + intros e s2 [Hok He]. split; [split; apply Hok|by left].
    + done.
Qed.
(** ** The row of a removed directory *)

(** RMDIR_SUB_UNLINK removes the inode row of the directory, which has
    one link, from the shard that owns it and changes nothing else; a request
    for another server's shard is ARGUMENT_ERROR.  A missing row is
    FILE_NOT_EXISTS only when the variable the link count is read into happens
    to hold 1. *)
Theorem RmdirSubUnlink_removes D0 rows s i x name indeterminate :
  worker_ok D0 rows s → one_link (db s) → infos s !! i = Some x → mi_name x = Some name →
  ∃ row, located rows (mi_parentId_partId x) row ∧
  outcome_ok (CuckooRmdirSubUnlinkHandle LocalServerId indeterminate i s)
    (λ _ s', worker_ok D0 rows s' ∧ (∃ r, owned_row rows (db s) (mi_parentId_partId x) name row r) ∧
       db s' = take_row (db s) (range_point row) (i64 (mi_parentId_partId x), name) ∧ dirs_of s' = dirs_of s ∧
       infos s' = <[i := x <| errorCode := SUCCESS |>]> (infos s))
    (λ e s', worker_ok D0 rows s' ∧ db s' = db s ∧
       ((e = Cuckoo ARGUMENT_ERROR ∧ server_id row ≠ LocalServerId) ∨
        (cell (db s) (range_point row) (i64 (mi_parentId_partId x), name) = None ∧
         e = Cuckoo (if decide (indeterminate = 1) then FILE_NOT_EXISTS else PROGRAM_ERROR)))) False.
Proof.
  intros Hs Hone Hi Hn. destruct (find_shard _ _ _ (mi_parentId_partId x) Hs) as (row & s1 & Hr & Hin & Hf & Hs1 & Hst).
  exists row. split; [by split|]. unfold CuckooRmdirSubUnlinkHandle. erewrite bind_ret by by apply get_info_eq.
  erewrite bind_ret by exact Hr. pose proof (same_tables_db _ _ Hst) as Hdb. simpl.
  destruct (decide (server_id row ≠ LocalServerId)) as [Hne|Heq%dec_stable]; [split; [done|]; split; [done|]; by left|].
  rewrite Hn. destruct (wk_present _ _ _ Hs1 row Hin Heq) as [m Hm]. rewrite <-Hdb in *.
  assert (cell (db s1) (range_point row) (i64 (mi_parentId_partId x), name) = m !! (i64 (mi_parentId_partId x), name)) as Hcell
    by (unfold cell; by rewrite Hm). rewrite Hcell.
  destruct (m !! _) as [r|] eqn:Hk.
  - destruct (Search_unlink s1 (range_point row) m (mi_parentId_partId x) name r (wk_settled _ _ _ Hs1) Hm Hk)
      as (s2 & Hr2 & Hd2 & Hset2 & Hro). erewrite bind_ret by exact Hr2.
    pose proof (Hone _ _ _ Hcell) as Hnl. rewrite Hnl, decide_True in Hd2 by done. cbv beta iota zeta. rewrite Hnl.
    rewrite decide_False by by intros Hx. rewrite (db_keyed s1 _ _ _ _ Hm Hk) in Hd2.
    assert (db s2 = take_row (db s1) (range_point row) (i64 (mi_parentId_partId x), name)) as Hdb2.
    { rewrite Hd2. unfold take_row. apply map_eq. intros j. destruct (decide (j = range_point row)) as [->|Hj].
      - by rewrite lookup_insert_eq, lookup_alter_eq, Hm.
      - by rewrite lookup_insert_ne, lookup_alter_ne by done. }
    assert (kept D0 rows s s2) as Hkept.
    { eapply kept_trans; [by apply kept_tables|]. eapply kept_rows; [exact Hs1|done|done|]. rewrite Hdb2. apply dom_alter_L. }
    unfold set_error. rewrite (set_info_eq s2 i x) by by rewrite (kp_infos _ _ _ _ Hkept). simpl.
    split; [apply worker_infos, Hkept|]. split; [exists r; by split|]. split; [done|]. split; [apply Hkept|].
    by rewrite (kp_infos _ _ _ _ Hkept).
  - assert (SearchAndUpdateInodeTableInfo (range_point row) (mi_parentId_partId x) name
      ((no_update true) <| nlinkChange := Some (-1) |>) s1 = Ret None s1) as Hr2
      by by apply (Search_miss _ _ m). erewrite bind_ret by exact Hr2. cbv beta iota.
    destruct (decide (indeterminate ≠ 1)) as [Hi1|Hi1%dec_stable].
    + simpl. split; [done|]. split; [done|]. right. by rewrite decide_False.
    + simpl. split; [done|]. split; [done|]. right. by rewrite decide_True.
Qed.

(** ** The row of a renamed file on another server *)

Lemma rename_create_spec D0 rows s i z name :
  worker_ok D0 rows s → infos s !! i = Some z → mi_name z = Some name →
  ∃ row, located rows (mi_parentId_partId z) row ∧
  outcome_ok (CuckooRenameSubCreateHandle LocalServerId i s)
    (λ _ s', server_id row = LocalServerId ∧
       cell (db s) (range_point row) (i64 (mi_parentId_partId z), name) = None ∧
       db s' = put_row (db s) (range_point row) (rename_created_row z) ∧ worker_ok D0 rows s' ∧
       dirs_of s' = dirs_of s ∧ infos s' = <[i := z <| errorCode := SUCCESS |>]> (infos s))
    (λ e s', worker_ok D0 rows s' ∧ ((e = Cuckoo WRONG_WORKER ∧ server_id row ≠ LocalServerId) ∨
       (e = UniqueViolation ∧ is_Some (cell (db s) (range_point row) (i64 (mi_parentId_partId z), name))))) False.
Proof.
  intros Hs Hi Hn. destruct (find_shard _ _ _ (mi_parentId_partId z) Hs) as (row & s1 & Hr & Hin & Hf & Hs1 & Hst).
  exists row. split; [by split|]. unfold CuckooRenameSubCreateHandle. erewrite bind_ret by by apply get_info_eq.
  erewrite bind_ret by exact Hr. simpl.
  destruct (decide (server_id row ≠ LocalServerId)) as [Hne|Heq%dec_stable]; [split; [done|by left]|].
  assert (inode_key (rename_created_row z) = (i64 (mi_parentId_partId z), name)) as Hkey
    by (unfold inode_key, rename_created_row; simpl; by rewrite Hn).
  rewrite <-(same_tables_db _ _ Hst), <-Hkey. eapply outcome_ok_bind.
  { eapply outcome_ok_mono; [by apply (put_spec D0 rows s1 row)|exact (λ a s H, H)| |done].
    intros e s2 (Hok & -> & Hc). split; [done|]. by right. }
  intros [] s2 (Hc & Hd & Hk). pose proof (kept_trans _ _ _ _ _ (kept_tables _ _ _ _ Hs1 Hst) Hk) as Hk'.
  unfold set_error. rewrite (set_info_eq s2 i z) by by rewrite (kp_infos _ _ _ _ Hk'). simpl.
  split_and!; [done|done|done|apply worker_infos, Hk|apply Hk'|by rewrite (kp_infos _ _ _ _ Hk')].
Qed.
End dir_spec.

(** ** A rename from one server to another *)
Section rename_across.
Context `{!PgEnv, !Collation, !DirHashEnv, !PgRelation dir_key id_text_le,
          !PgRelation range_point Z.le, !PgRelation inode_key id_text_le}.

(** What travels: the answer of the source's server, completed by the
    coordinator and sent to the destination's. *)
Definition travelled (dstPP : Z) (dst : string) (y z : MetaProcessInfoData) : Prop :=
  ∃ response, SerializedDataMetaResponseEncode_fields RENAME_SUB_RENAME_LOCALLY y = Some response ∧
    SerializedDataMetaParamEncode_fields RENAME_SUB_CREATE
      (response <| mi_parentId_partId := dstPP |> <| mi_name := Some dst |>) = Some z.

Lemma response_attributes y :
  errorCode y = SUCCESS → mi_parentId_partId y ≠ 0 → dstParentIdPartId y = 0 →
  SerializedDataMetaResponseEncode_fields RENAME_SUB_RENAME_LOCALLY y = Some (copy_attributes y blank_info).
Proof.
  intros He Hp Hd. unfold SerializedDataMetaResponseEncode_fields. rewrite He.
  rewrite decide_False by by intros [? _]. by rewrite decide_True.
Qed.

(** (C28) The inode row of a file renamed to a name that another server owns:
    the source's server gives up the row and the destination's gets one under
    the new name with the same inode id, mode, links, owner, size, blocks,
    times and primary node.  The entity tag, the update version and the backup
    node do not travel. *)
Theorem rename_across_servers A B D0 D0' rows sA sA' sB i j x y z name dst dstPP :
  worker_ok A D0 rows sA → infos sA !! i = Some x → mi_name x = Some name → dstName x = Some dst →
  targetIsDirectory x = false → mi_parentId_partId x ≠ 0 → dstParentIdPartId x = 0 →
  CuckooRenameSubRenameLocallyHandle A i sA = Ret () sA' → infos sA' !! i = Some y → travelled dstPP dst y z →
  worker_ok B D0' rows sB → infos sB !! j = Some z →
  ∃ row r, owned_row A rows (db sA) (mi_parentId_partId x) name row r ∧
    db sA' = take_row (db sA) (range_point row) (i64 (mi_parentId_partId x), name) ∧
    outcome_ok (CuckooRenameSubCreateHandle B j sB)
      (λ _ sB', ∃ row', located rows dstPP row' ∧ server_id row' = B ∧
         db sB' = put_row (db sB) (range_point row')
           ((renamed r dstPP dst) <| it_etag := "" |> <| it_update_version := 0 |> <| it_backup_nodeid := -1 |>))
      (λ e _, e = Cuckoo WRONG_WORKER ∨ e = UniqueViolation) False.
Proof.
  intros HA Hi Hn Hd Hdir Hpp Hdpp Hrun Hy (response & Hresp & Hz) HB Hj.
  assert (rename_rows_part A i x name dst sA = Ret () sA') as Hrun'.
  { revert Hrun. unfold CuckooRenameSubRenameLocallyHandle. erewrite bind_ret by by apply get_info_eq.
    by rewrite Hn, Hd, Hdir, bind_mret. }
  destruct (outcome_ok_ret _ _ _ _ _ _ (rename_rows_spec A D0 rows sA i x name dst HA Hi) Hrun') as (_ & _ & Hrow).
  unfold rows_renamed in Hrow. rewrite decide_False in Hrow by done. destruct Hrow as (row & r & Hown & Hrow).
  simpl in Hrow. rewrite decide_False in Hrow by (intros Hx; by apply Hx). destruct Hrow as [Hdb Hinfos].
  exists row, r. split; [done|]. split; [done|].
  rewrite Hinfos, list_lookup_insert_eq in Hy by by eapply lookup_lt_Some. injection Hy as <-.
  rewrite response_attributes in Hresp by done. apply (inj Some) in Hresp. subst response.
  unfold SerializedDataMetaParamEncode_fields in Hz. apply (inj Some) in Hz. subst z.
  match goal with Hj : infos sB !! j = Some ?w |- _ =>
    destruct (rename_create_spec B D0' rows sB j w dst HB Hj eq_refl) as (row' & Hloc & Hout) end.
  eapply outcome_ok_mono; [exact Hout| | |done].
  - intros [] s' (Hl & _ & Hdb' & _). exists row'. split; [done|]. split; [done|]. rewrite Hdb'. by destruct r.
  - intros e s' [_ [[? _]|[? _]]]; auto.
Qed.
End rename_across.
