(* ===== verification/DirCreate.v ===== *)
(** * What the sub-operations of mkdir do to a server

    MKDIR_SUB_MKDIR adds a batch of directories to the server's copy of the
    directory table, MKDIR_SUB_CREATE the inode rows of those whose shards the
    server owns. *)

From S2P Require Import Prelude Pg Shard RWLock DirHash PathParse Inode Route FileOps FileSpec ReadDir.
From S2P Require Import ForeignServer RemoteComm DirOps DirSpec.

Section dir_create.
Context `{!PgEnv, !Collation, !DirHashEnv, !PgRelation dir_key id_text_le,
          !PgRelation range_point Z.le, !PgRelation inode_key id_text_le}.
Context (LocalServerId : Z).

Abbreviation dir_map := (gmap (Z * string) FormData_cuckoo_directory_table).
Abbreviation inode_map := (gmap (Z * string) FormData_dfs_inode_table).
Abbreviation worker_ok := (worker_ok LocalServerId).
Abbreviation request := MetaProcessInfoData.

(** The requests at the positions [l] of the array. *)
Definition requests_at (s : MetaState) (l : list nat) (reqs : list request) : Prop :=
  Forall2 (λ i x, infos s !! i = Some x) l reqs.

Lemma requests_other s l reqs i x s' :
  requests_at s l reqs → i ∉ l → infos s' = <[i := x]> (infos s) → requests_at s' l reqs.
Proof.
  intros Hr Hi Hs. unfold requests_at. rewrite Hs. induction Hr as [|j y l reqs Hj Hr IH]; [done|].
  apply not_elem_of_cons in Hi as [Hne Hi]. constructor; [by rewrite list_lookup_insert_ne|by apply IH].
Qed.

(** ** MKDIR_SUB_MKDIR *)

Definition dir_name (x : request) : string := default ""%string (mi_name x).
Definition dir_req_key (x : request) : DirPathHashKey := mkKey (dir_name x) (mi_parentId x).

Definition mkdir_valid (x : request) : Prop := mi_name x ≠ None ∧ mi_parentId x ≠ u64 (-1).

(** A request this transaction has not handled yet, with a name that fits. *)
Definition mkdir_new (s : MetaState) (x : request) : Prop :=
  (String.length (dir_name x) < MAX_DIRECTORY_PATH_HASH_SIZE)%nat ∧ ¬ updated (dir_of s) (dir_req_key x).

Definition add_dir (d : dir_map) (x : request) : dir_map :=
  <[row_key (dir_req_key x) := mkDirRow (mi_parentId x) (dir_name x) (mi_inodeId x)]> d.

(** The request is answered with SUCCESS. *)
Definition answer (l : list request) (e : nat * request) : list request := <[e.1 := e.2 <| errorCode := SUCCESS |>]> l.

Record dirs_added (D0 : dir_map) (rows : list FormData_cuckoo_shard_table) (l : list nat) (reqs : list request)
    (s s' : MetaState) : Prop := {
  da_ok : worker_ok D0 rows s';
  da_valid : Forall mkdir_valid reqs;
  da_new : Forall (λ x, D0 !! row_key (dir_req_key x) = None) reqs;
  da_db : db s' = db s;
  da_dirs : dirs_of s' = foldl add_dir (dirs_of s) reqs;
  da_infos : infos s' = foldl answer (infos s) (zip l reqs) }.

Lemma mkdir_sub_one_spec D0 rows s i x :
  worker_ok D0 rows s → infos s !! i = Some x → mkdir_new s x →
  outcome_ok (mkdir_sub_one i s)
    (λ _ s', dirs_added D0 rows [i] [x] s s' ∧
       ∀ k, updated (dir_of s') k ↔ updated (dir_of s) k ∨ k = dir_req_key x)
    (λ e s', abort_safe D0 (dir_of s') ∧ ((e = Cuckoo ARGUMENT_ERROR ∧ ¬ mkdir_valid x) ∨
       e = Cuckoo PROGRAM_ERROR ∨ is_Some (D0 !! row_key (dir_req_key x))))
    (waits_for (dir_req_key x)).
Proof.
  intros Hs Hi [Hlen Hu]. unfold mkdir_sub_one. erewrite bind_ret by by apply get_info_eq.
  unfold dir_req_key, dir_name in *. destruct (mi_name x) as [name|] eqn:Hn.
  2: { simpl. split; [split; apply Hs|]. left. split; [done|]. intros [? _]. congruence. }
  simpl in *. destruct (decide (mi_parentId x = u64 (-1))) as [He|He].
  { simpl. split; [split; apply Hs|]. left. split; [done|]. by intros [_ ?]. }
  destruct (untouched _ _ _ _ _ Hs Hu) as [_ Hla].
  eapply outcome_ok_bind.
  { eapply outcome_ok_mono; [apply on_directory_ok, (insert_txn D0); [apply Hs|apply Hs|by right|by left|done]|exact (λ a s H, H)| |].
    - intros e s' (d & -> & Hx & Ha). split; [done|]. right. destruct Hx as [->|[[_ Hx]|[_ Hx]]]; [by left|right..].
      + unfold id_of in Hx. unfold row_key. simpl in *. by destruct (D0 !! _).
      + unfold dirs_of, row_key in *. simpl in *. by rewrite <-Hla.
    - intros Hsp. by eexists. }
  intros [] s1 (d & -> & Ht & Hc & Hnone & Hlat & _). unfold set_error. rewrite (set_info_eq _ i x) by done. simpl.
  split; [|apply Hc]. split; [apply worker_infos; by apply worker_with_dir| | |done| |done].
  - apply Forall_singleton. split; [congruence|done].
  - apply Forall_singleton. unfold dir_req_key, dir_name. rewrite Hn. unfold dirs_of, row_key in *. simpl in *. by rewrite <-Hla.
  - cbn [foldl]. unfold add_dir, dir_req_key, dir_name, row_key. rewrite Hn. exact Hlat.
Qed.

(** MKDIR_SUB_MKDIR adds the whole batch to the directory table, each
    directory with the inode id the coordinator gave it, answers SUCCESS to
    every request and touches no inode row.  A batch that has a request
    without a name or a parent is ARGUMENT_ERROR; a directory that exists
    raises an error; an abort then finds the shared table as it was. *)
Theorem MkdirSubMkdir_adds D0 rows s l reqs :
  worker_ok D0 rows s → NoDup l → requests_at s l reqs → NoDup (dir_req_key <$> reqs) → Forall (mkdir_new s) reqs →
  outcome_ok (CuckooMkdirSubMkdirHandle l s)
    (λ _ s', dirs_added D0 rows l reqs s s')
    (λ e s', abort_safe D0 (dir_of s') ∧
       ((e = Cuckoo ARGUMENT_ERROR ∧ Exists (λ x, ¬ mkdir_valid x) reqs) ∨ e = Cuckoo PROGRAM_ERROR ∨
        Exists (λ x, is_Some (D0 !! row_key (dir_req_key x))) reqs))
    (Exists (λ x, waits_for (dir_req_key x)) reqs).
Proof.
  intros Hs Hnd Hreq. unfold CuckooMkdirSubMkdirHandle.
  revert reqs s Hs Hreq. induction l as [|i l IH]; intros reqs s Hs Hreq Hk Hnew.
  { apply Forall2_nil_inv_l in Hreq as ->. simpl. by split. }
  apply Forall2_cons_inv_l in Hreq as (x & reqs' & Hi & Hreq & ->). apply NoDup_cons in Hnd as [Hil Hnd].
  rewrite fmap_cons in Hk. apply NoDup_cons in Hk as [Hxk Hk]. apply Forall_cons in Hnew as [Hx Hnew].
  cbn [mfor]. eapply outcome_ok_bind.
  { eapply outcome_ok_mono; [by apply (mkdir_sub_one_spec D0 rows s i x)|exact (λ a s H, H)| |by left].
    intros e s' [Ha [[? ?]|[?|?]]]; (split; [done|]); [left; split; [done|by left]|right; by left|right; right; by left]. }
  intros [] s1 [[Hok Hva Hno Hdb Hdi Hin] Hup]. eapply outcome_ok_mono; [apply (IH Hnd reqs' s1)|..]; try done.
  - eapply requests_other; [done|done|]. exact Hin.
  - rewrite Forall_forall in Hnew |- *. intros y Hy. destruct (Hnew y Hy) as [Hl Hu]. split; [done|].
    rewrite Hup. intros [?|Heq]; [done|]. apply Hxk. rewrite <-Heq. by apply list_elem_of_fmap_2.
  - intros [] s2 [Hok2 Hva2 Hno2 Hdb2 Hdi2 Hin2]. split; [done| | | | |].
    + by apply (Forall_app_2 _ [x]).
    + by apply (Forall_app_2 _ [x]).
    + by rewrite Hdb2.
    + by rewrite Hdi2, Hdi.
    + by rewrite Hin2, Hin.
  - intros e s' [Ha [[? ?]|[?|?]]]; (split; [done|]); [left; split; [done|by right]|right; by left|right; right; by right].
  - intros Hw. by right.
Qed.

(** ** MKDIR_SUB_CREATE *)

(** The shard of a request. *)
Definition home (rows : list FormData_cuckoo_shard_table) (x : request) : Z :=
  from_option range_point 0 (shard_for rows (HashShard (mi_parentId_partId x))).

(** The request is complete and this server owns its shard. *)
Definition create_valid (rows : list FormData_cuckoo_shard_table) (x : request) : Prop :=
  mi_inodeId x ≠ u64 (-1) ∧ mi_parentId_partId x ≠ u64 (-1) ∧ mi_name x ≠ None ∧
  ∃ row, located rows (mi_parentId_partId x) row ∧ server_id row = LocalServerId.

Lemma flatten_append id i table : NoDup table.*1 → flatten (hash_append id i table) ≡ₚ (id, i) :: flatten table.
Proof.
  unfold hash_append, flatten. intros Hnd. destruct (decide (id ∈ table.*1)) as [Hin|Hin].
  2: { rewrite fmap_app, concat_app. simpl. by rewrite Permutation_app_comm. }
  induction table as [|[id' l] table IH]; [by apply not_elem_of_nil in Hin|].
  rewrite fmap_cons in Hnd, Hin. cbn [fst] in Hnd, Hin. apply NoDup_cons in Hnd as [Hn Hnd].
  rewrite !fmap_cons. cbn [fst snd concat]. destruct (decide (id' = id)) as [->|Hne]; cbn [fst snd].
  - assert ((λ e : Z * list nat, if decide (e.1 = id) then (e.1, e.2 ++ [i]) else e) <$> table = table) as ->.
    { rewrite <-(list_fmap_id table) at 2. apply list_fmap_ext. intros j e He. simpl. rewrite decide_False; [done|].
      intros <-. apply Hn. apply list_elem_of_fmap_2. by eapply list_elem_of_lookup_2. }
    rewrite fmap_app, <-app_assoc. simpl. by rewrite <-Permutation_middle.
  - rewrite IH; [by rewrite Permutation_middle|done|]. apply elem_of_cons in Hin as [?|?]; [congruence|done].
Qed.

Lemma append_NoDup id i (table : list (Z * list nat)) : NoDup table.*1 → NoDup (hash_append id i table).*1.
Proof.
  intros Hnd. rewrite hash_append_keys. destruct (decide _) as [|Hn]; [done|]. apply NoDup_app.
  split; [done|]. split; [|apply NoDup_singleton]. intros x Hx Hx'. by apply list_elem_of_singleton in Hx' as ->.
Qed.

Lemma append_nonempty id i (table : list (Z * list nat)) :
  Forall (λ e, e.2 ≠ []) table → Forall (λ e, e.2 ≠ []) (hash_append id i table).
Proof.
  intros Hne. unfold hash_append. destruct (decide _).
  - rewrite Forall_fmap. eapply Forall_impl; [exact Hne|]. intros [id' l] Hl. simpl. destruct (decide _); simpl; [by destruct l|done].
  - apply Forall_app. split; [done|]. by apply Forall_singleton.
Qed.

Lemma sub_create_shard_spec D0 rows s i x :
  worker_ok D0 rows s → infos s !! i = Some x →
  outcome_ok (sub_create_shard LocalServerId i s)
    (λ sid s', worker_ok D0 rows s' ∧ same_tables s s' ∧ create_valid rows x ∧ sid = home rows x)
    (λ e s', worker_ok D0 rows s' ∧ same_tables s s' ∧ e = Cuckoo ARGUMENT_ERROR ∧ ¬ create_valid rows x) False.
Proof.
  intros Hs Hi. unfold sub_create_shard. erewrite bind_ret by by apply get_info_eq.
  destruct (decide _) as [Hbad|Hgood].
  { split; [done|]. split; [done|]. split; [done|]. unfold create_valid. tauto. }
  destruct (find_shard _ _ _ _ (mi_parentId_partId x) Hs) as (row & s1 & Hr & Hin & Hf & Hs1 & Hst).
  erewrite bind_ret by exact Hr. simpl. destruct (decide (server_id row ≠ LocalServerId)) as [Hne|Heq%dec_stable].
  - split; [done|]. split; [done|]. split; [done|]. intros (_ & _ & _ & row' & [Hf' _] & Hl). congruence.
  - split; [done|]. split; [done|]. split; [|unfold home; by rewrite Hf]. split_and!; try tauto. by exists row.
Qed.

Lemma same_tables_trans s1 s2 s3 : same_tables s1 s2 → same_tables s2 s3 → same_tables s1 s3.
Proof. intros (E1 & E2 & E3 & E4) (F1 & F2 & F3 & F4). split_and!; congruence. Qed.

Lemma sub_create_group_spec D0 rows s l reqs table :
  worker_ok D0 rows s → requests_at s l reqs → NoDup table.*1 → Forall (λ e, e.2 ≠ []) table →
  outcome_ok (sub_create_group LocalServerId l table s)
    (λ table' s', worker_ok D0 rows s' ∧ same_tables s s' ∧ NoDup table'.*1 ∧ Forall (λ e, e.2 ≠ []) table' ∧ Forall (create_valid rows) reqs ∧
       flatten table' ≡ₚ zip (home rows <$> reqs) l ++ flatten table)
    (λ e s', worker_ok D0 rows s' ∧ same_tables s s' ∧ e = Cuckoo ARGUMENT_ERROR ∧
       Exists (λ x, ¬ create_valid rows x) reqs) False.
Proof.
  intros Hs Hreq. revert s table Hs Hreq. revert reqs. induction l as [|i l IH]; intros reqs s table Hs Hreq Hnd Hne.
  { apply Forall2_nil_inv_l in Hreq as ->. simpl. by split_and!. }
  apply Forall2_cons_inv_l in Hreq as (x & reqs' & Hi & Hreq & ->). cbn [sub_create_group]. eapply outcome_ok_bind.
  { eapply outcome_ok_mono; [by apply (sub_create_shard_spec D0 rows s i x)|exact (λ a s H, H)| |done].
    intros e s' (? & ? & ? & ?). split_and!; try done. by left. }
  intros sid s1 (Hs1 & Hst & Hv & ->). eapply outcome_ok_mono; [apply (IH reqs' s1)|..]; [done| |by apply append_NoDup|by apply append_nonempty|..].
  - unfold requests_at in *. destruct Hst as (_ & _ & -> & _). done.
  - intros table' s' (Hs' & Hst' & Hnd' & Hne' & Hv' & Hp). split_and!; [done|by eapply same_tables_trans|done|done|by constructor|].
    rewrite Hp, flatten_append by done. simpl. by rewrite Permutation_middle.
  - intros e s' (? & ? & ? & ?). split_and!; try done; [by eapply same_tables_trans|by right].
  - done.
Qed.
(** *** The rows of a batch *)

Definition new_row (x : request) : FormData_dfs_inode_table := sub_create_row (x <| etag := ""%string |>).
Definition made (x : request) : request := x <| etag := ""%string |> <| errorCode := SUCCESS |>.

Lemma new_row_key x : inode_key (new_row x) = req_key x.
Proof. done. Qed.

Lemma cell_put d sid m r sid' k :
  d !! sid = Some m →
  cell (put_row d sid r) sid' k = if decide ((sid', k) = (sid, inode_key r)) then Some r else cell d sid' k.
Proof.
  intros Hm. unfold cell, put_row. destruct (decide (sid' = sid)) as [->|Hne].
  - rewrite lookup_alter_eq, Hm. simpl. destruct (decide (k = inode_key r)) as [->|Hk].
    + by rewrite lookup_insert_eq, decide_True.
    + rewrite lookup_insert_ne by done. by rewrite decide_False by congruence.
  - rewrite lookup_alter_ne by done. by rewrite decide_False by congruence.
Qed.

Section batch.
(** The request at each position of the array. *)
Variable req : nat → request.

Definition put_new (d : gmap Z inode_map) (e : Z * nat) : gmap Z inode_map := put_row d e.1 (new_row (req e.2)).
Definition mark (l : list request) (e : Z * nat) : list request := <[e.2 := made (req e.2)]> l.
Definition slot (e : Z * nat) : Z * (Z * string) := (e.1, req_key (req e.2)).

(** No row is there for any of the requests, and no two are for one row. *)
Definition all_new (d : gmap Z inode_map) (todo : list (Z * nat)) : Prop :=
  NoDup (slot <$> todo) ∧ ∀ e, e ∈ todo → cell d e.1 (req_key (req e.2)) = None.

Definition present (d : gmap Z inode_map) (todo : list (Z * nat)) : Prop := ∀ e, e ∈ todo → is_Some (d !! e.1).

Lemma present_put d e todo : present d todo → present (put_new d e) todo.
Proof.
  intros Hp f Hf. unfold put_new, put_row. apply elem_of_dom. rewrite dom_alter_L. by apply elem_of_dom, Hp.
Qed.

Lemma all_new_cons d e todo :
  is_Some (d !! e.1) → all_new d (e :: todo) ↔ cell d e.1 (req_key (req e.2)) = None ∧ all_new (put_new d e) todo.
Proof.
  intros [m Hm]. unfold all_new, put_new. rewrite fmap_cons, NoDup_cons. split.
  - intros [[Hn Hnd] Hall]. split; [by apply Hall; left|]. split; [done|]. intros f Hf. erewrite cell_put by done.
    rewrite decide_False; [by apply Hall; right|]. rewrite new_row_key. intros [= E1 E2 E3]. apply Hn.
    apply list_elem_of_fmap. exists f. split; [|done]. unfold slot, req_key. by rewrite E1, E2, E3.
  - intros [Hc [Hnd Hall]]. split; [split; [|done]|].
    + intros (f & Hs & Hf)%list_elem_of_fmap. specialize (Hall f Hf). erewrite cell_put in Hall by done.
      unfold slot in Hs. injection Hs as E1 E2 E3. rewrite decide_True in Hall; [done|].
      rewrite new_row_key. unfold req_key. congruence.
    + intros f [->|Hf]%elem_of_cons; [done|]. specialize (Hall f Hf). erewrite cell_put in Hall by done.
      destruct (decide _); [done|exact Hall].
Qed.

(** The table after the batch. *)
Lemma put_all_cell d todo sid k :
  present d todo → all_new d todo →
  cell (foldl put_new d todo) sid k =
    match list_find (λ e, slot e = (sid, k)) todo with Some (_, e) => Some (new_row (req e.2)) | None => cell d sid k end.
Proof.
  revert d. induction todo as [|e todo IH]; intros d Hp Hn; [done|]. cbn [foldl list_find].
  assert (is_Some (d !! e.1)) as He by (apply Hp; by left). apply all_new_cons in Hn as [Hc Hn]; [|done].
  rewrite IH; [|apply present_put; intros f Hf; apply Hp; by right|done]. destruct He as [m Hm].
  destruct (decide (slot e = (sid, k))) as [Heq|Hne].
  - assert (list_find (λ e, slot e = (sid, k)) todo = None) as ->.
    { apply list_find_None, Forall_forall. intros f Hf Hs. destruct Hn as [_ Hn]. specialize (Hn f Hf).
      unfold put_new in Hn. erewrite cell_put in Hn by done. rewrite decide_True in Hn; [done|].
      rewrite new_row_key. rewrite <-Heq in Hs. exact Hs. }
    unfold put_new. erewrite cell_put by done. by rewrite decide_True by (rewrite new_row_key; symmetry; exact Heq).
  - destruct (list_find _ todo) as [[j f]|]; [done|]. simpl. unfold put_new. erewrite cell_put by done.
    rewrite decide_False; [done|]. rewrite new_row_key. intros Hx. by apply Hne.
Qed.

(** What has become of the server when the requests [todo] are done. *)
Record rows_added (D0 : dir_map) (rows : list FormData_cuckoo_shard_table) (todo : list (Z * nat)) (s s' : MetaState)
    : Prop := {
  ra_ok : worker_ok D0 rows s';
  ra_dirs : dirs_of s' = dirs_of s;
  ra_new : all_new (db s) todo;
  ra_db : db s' = foldl put_new (db s) todo;
  ra_infos : infos s' = foldl mark (infos s) todo }.

Definition rows_conflict (D0 : dir_map) (rows : list FormData_cuckoo_shard_table) (todo : list (Z * nat)) (s : MetaState)
    (e : ErrorData) (s' : MetaState) : Prop :=
  worker_ok D0 rows s' ∧ e = UniqueViolation ∧ ¬ all_new (db s) todo.

Definition todo_ok (rows : list FormData_cuckoo_shard_table) (s : MetaState) (todo : list (Z * nat)) : Prop :=
  NoDup todo.*2 ∧ ∀ e, e ∈ todo → infos s !! e.2 = Some (req e.2) ∧
    ∃ row, row ∈ rows ∧ server_id row = LocalServerId ∧ range_point row = e.1.

Lemma todo_present D0 rows s todo : worker_ok D0 rows s → todo_ok rows s todo → present (db s) todo.
Proof. intros Hs [_ Ht] e He. destruct (Ht e He) as (_ & row & Hr & Hl & <-). by apply (wk_present _ _ _ _ Hs). Qed.

Lemma sub_create_one_spec D0 rows s e :
  worker_ok D0 rows s → todo_ok rows s [e] →
  outcome_ok (sub_create_one e.1 e.2 s) (λ _ s', rows_added D0 rows [e] s s') (rows_conflict D0 rows [e] s) False.
Proof.
  intros Hs Ht. pose proof (todo_present _ _ _ _ Hs Ht) as Hp. destruct Ht as [_ Ht].
  destruct (Ht e) as (Hi & row & Hr & Hl & Hsid); [by left|]. destruct (Hp e) as [m Hm]; [by left|].
  pose proof (all_new_cons (db s) e []) as Hnew. ospecialize* Hnew; [by eexists|].
  assert (∀ d, all_new d []) as Hnil by (intros d; split; [apply NoDup_nil_2|]; intros f Hf; by apply not_elem_of_nil in Hf).
  unfold sub_create_one. erewrite bind_ret by by apply set_info_eq.
  erewrite bind_ret by (apply get_info_eq; simpl; apply list_lookup_insert_eq; by eapply lookup_lt_Some).
  set (s1 := s <| infos ::= _ |>). assert (worker_ok D0 rows s1) as Hs1 by by apply worker_infos.
  rewrite <-Hsid. eapply outcome_ok_bind.
  { eapply outcome_ok_mono; [by apply (put_spec LocalServerId D0 rows s1 row (new_row (req e.2)))|exact (λ a s H, H)| |done].
    rewrite Hsid, new_row_key. intros err s' (Hok & -> & [r Hc]). split; [done|]. split; [done|].
    rewrite Hnew. intros [Hx _]. change (db s1) with (db s) in Hc. congruence. }
  rewrite Hsid, new_row_key. intros [] s2 (Hc & Hd & Hk). unfold set_error.
  erewrite set_info_eq by (rewrite (kp_infos _ _ _ _ _ Hk); simpl; apply list_lookup_insert_eq; by eapply lookup_lt_Some).
  simpl. split; [apply worker_infos, Hk|apply Hk| |done|].
  - rewrite Hnew. done.
  - simpl. rewrite (kp_infos _ _ _ _ _ Hk). simpl. unfold mark. by rewrite list_insert_insert_eq.
Qed.
Lemma present_all d l todo : present d todo → present (foldl put_new d l) todo.
Proof. revert d. induction l as [|e l IH]; intros d Hp; [done|]. by apply IH, present_put. Qed.

Lemma all_new_app d l1 l2 :
  present d (l1 ++ l2) → all_new d (l1 ++ l2) ↔ all_new d l1 ∧ all_new (foldl put_new d l1) l2.
Proof.
  revert d. induction l1 as [|e l1 IH]; intros d Hp; simpl.
  { split; [|tauto]. intros Hn. split; [|done]. split; [apply NoDup_nil_2|]. intros f Hf. by apply not_elem_of_nil in Hf. }
  assert (is_Some (d !! e.1)) as He by (apply Hp; by left). rewrite !all_new_cons by done.
  rewrite IH by (apply present_put; intros f Hf; apply Hp; by right). tauto.
Qed.

Lemma mark_other l todo i : i ∉ todo.*2 → foldl mark l todo !! i = l !! i.
Proof.
  revert l. induction todo as [|e todo IH]; intros l Hi; [done|]. rewrite fmap_cons in Hi.
  apply not_elem_of_cons in Hi as [Hne Hi]. simpl. rewrite IH by done. unfold mark. by rewrite list_lookup_insert_ne.
Qed.

Lemma mark_length l todo : length (foldl mark l todo) = length l.
Proof. revert l. induction todo as [|e todo IH]; intros l; [done|]. simpl. rewrite IH. apply length_insert. Qed.

Lemma mark_in l todo i : NoDup todo.*2 → i ∈ todo.*2 → (i < length l)%nat → foldl mark l todo !! i = Some (made (req i)).
Proof.
  revert l. induction todo as [|e todo IH]; intros l Hnd Hi Hlt; [by apply not_elem_of_nil in Hi|].
  rewrite fmap_cons in Hnd, Hi. apply NoDup_cons in Hnd as [Hn Hnd]. simpl. destruct (decide (i = e.2)) as [->|Hne].
  - rewrite mark_other by done. unfold mark. by apply list_lookup_insert_eq.
  - apply IH; [done|by apply elem_of_cons in Hi as [?|?]|]. unfold mark. by rewrite length_insert.
Qed.

(** The requests that are left after the first ones. *)
Lemma todo_rest D0 rows l1 l2 s s1 :
  todo_ok rows s (l1 ++ l2) → rows_added D0 rows l1 s s1 → todo_ok rows s1 l2.
Proof.
  intros [Hnd Ht] Ha. rewrite fmap_app in Hnd. apply NoDup_app in Hnd as (_ & Hdisj & Hnd). split; [done|].
  intros e He. destruct (Ht e) as [Hi Hr]; [apply elem_of_app; by right|]. split; [|done].
  rewrite (ra_infos _ _ _ _ _ Ha), mark_other; [done|]. intros Hx. apply (Hdisj _ Hx). by apply list_elem_of_fmap_2.
Qed.

Lemma todo_first rows l1 l2 s : todo_ok rows s (l1 ++ l2) → todo_ok rows s l1.
Proof.
  intros [Hnd Ht]. rewrite fmap_app in Hnd. apply NoDup_app in Hnd as (Hnd & _ & _). split; [done|].
  intros e He. apply Ht, elem_of_app. by left.
Qed.

(** One part of the batch after another. *)
Lemma rows_added_bind D0 rows l1 l2 s (m1 : M MetaState ()) (m2 : () → M MetaState ()) :
  worker_ok D0 rows s → todo_ok rows s (l1 ++ l2) →
  outcome_ok (m1 s) (λ _ s', rows_added D0 rows l1 s s') (rows_conflict D0 rows l1 s) False →
  (∀ s1, rows_added D0 rows l1 s s1 →
     outcome_ok (m2 () s1) (λ _ s', rows_added D0 rows l2 s1 s') (rows_conflict D0 rows l2 s1) False) →
  outcome_ok ((m1 ≫= m2) s) (λ _ s', rows_added D0 rows (l1 ++ l2) s s') (rows_conflict D0 rows (l1 ++ l2) s) False.
Proof.
  intros Hs Ht Hm1 Hm2. pose proof (todo_present _ _ _ _ Hs Ht) as Hp. eapply outcome_ok_bind.
  { eapply outcome_ok_mono; [exact Hm1|exact (λ a s H, H)| |done]. intros e s' (Hok & -> & Hn).
    split; [done|]. split; [done|]. rewrite all_new_app by done. tauto. }
  intros [] s1 Ha. eapply outcome_ok_mono; [by apply Hm2| | |done].
  - intros [] s2 Hb. split; [apply Hb| | | |].
    + by rewrite (ra_dirs _ _ _ _ _ Hb), (ra_dirs _ _ _ _ _ Ha).
    + rewrite all_new_app by done. split; [apply Ha|]. rewrite <-(ra_db _ _ _ _ _ Ha). apply Hb.
    + by rewrite (ra_db _ _ _ _ _ Hb), (ra_db _ _ _ _ _ Ha), foldl_app.
    + by rewrite (ra_infos _ _ _ _ _ Hb), (ra_infos _ _ _ _ _ Ha), foldl_app.
  - intros e s' (Hok & -> & Hn). split; [done|]. split; [done|]. rewrite all_new_app by done.
    rewrite <-(ra_db _ _ _ _ _ Ha). tauto.
Qed.

Lemma rows_added_nil D0 rows s : worker_ok D0 rows s → rows_added D0 rows [] s s.
Proof.
  intros Hs. split; [done|done| |done|done]. split; [apply NoDup_nil_2|]. intros f Hf. by apply not_elem_of_nil in Hf.
Qed.

Lemma sub_create_queue D0 rows s sid q :
  worker_ok D0 rows s → todo_ok rows s (pair sid <$> q) →
  outcome_ok (mfor q (sub_create_one sid) s) (λ _ s', rows_added D0 rows (pair sid <$> q) s s')
    (rows_conflict D0 rows (pair sid <$> q) s) False.
Proof.
  revert s. induction q as [|i q IH]; intros s Hs Ht; [by apply rows_added_nil|].
  change (pair sid <$> i :: q) with ([(sid, i)] ++ (pair sid <$> q)) in *. cbn [mfor]. apply (rows_added_bind D0 rows [(sid, i)] (pair sid <$> q)); [done|done| |].
  - apply (sub_create_one_spec D0 rows s (sid, i)); [done|]. by eapply (todo_first _ [_]).
  - intros s1 Ha. apply IH; [apply Ha|]. by eapply (todo_rest _ _ [_]).
Qed.

Lemma sub_create_queues D0 rows s table :
  worker_ok D0 rows s → Forall (λ e, e.2 ≠ []) table → todo_ok rows s (flatten table) →
  outcome_ok (mfor table (λ e, open_inode_rel e.1 ;; mfor e.2 (sub_create_one e.1)) s)
    (λ _ s', rows_added D0 rows (flatten table) s s') (rows_conflict D0 rows (flatten table) s) False.
Proof.
  revert s. induction table as [|[sid q] table IH]; intros s Hs Hne Ht; [by apply rows_added_nil|].
  apply Forall_cons in Hne as [Hq Hne]. change (flatten ((sid, q) :: table)) with ((pair sid <$> q) ++ flatten table) in *.
  cbn [mfor]. apply (rows_added_bind D0 rows (pair sid <$> q) (flatten table)); [done|done| |].
  - pose proof (todo_first _ _ _ _ Ht) as Ht1. destruct q as [|i q]; [done|].
    destruct (todo_present _ _ _ _ Hs Ht1 (sid, i)) as [m Hm]; [by left|]. simpl in Hm.
    destruct (open_db _ _ _ Hm) as (t & _ & _ & Ho). cbn [fst snd]. erewrite bind_ret by exact Ho. by apply sub_create_queue.
  - intros s1 Ha. apply IH; [apply Ha|done|by eapply todo_rest].
Qed.
End batch.
Definition row_slot (rows : list FormData_cuckoo_shard_table) (x : request) : Z * (Z * string) := (home rows x, req_key x).

(** The position of each request in the array. *)
Lemma todo_slots rows s l reqs (req := λ i, default blank_info (infos s !! i)) :
  requests_at s l reqs → slot req <$> zip (home rows <$> reqs) l = row_slot rows <$> reqs.
Proof.
  intros Hr. induction Hr as [|i x l reqs Hi Hr IH]; [done|].
  cbn [fmap list_fmap zip_with]. f_equal; [|exact IH]. unfold slot, row_slot, req. simpl. by rewrite Hi.
Qed.

Lemma todo_elem rows s l reqs e (req := λ i, default blank_info (infos s !! i)) :
  requests_at s l reqs → e ∈ zip (home rows <$> reqs) l →
  ∃ x, x ∈ reqs ∧ infos s !! e.2 = Some x ∧ e.1 = home rows x ∧ req e.2 = x.
Proof.
  intros Hr. induction Hr as [|i x l reqs Hi Hr IH]; [intros He; by apply not_elem_of_nil in He|].
  simpl. intros [->|He]%elem_of_cons.
  - exists x. simpl. split; [by left|]. split; [done|]. split; [done|]. unfold req. by rewrite Hi.
  - destruct (IH He) as (y & Hy & Hrest). exists y. split; [by right|done].
Qed.

Lemma home_located rows x row : located rows (mi_parentId_partId x) row → home rows x = range_point row.
Proof. intros [Hf _]. unfold home. by rewrite Hf. Qed.

Lemma todo_ok_zip rows s l reqs (req := λ i, default blank_info (infos s !! i)) :
  NoDup l → requests_at s l reqs → Forall (create_valid rows) reqs → todo_ok req rows s (zip (home rows <$> reqs) l).
Proof.
  intros Hnd Hr Hv. split.
  - rewrite snd_zip; [done|]. rewrite length_fmap. by rewrite (Forall2_length _ _ _ Hr).
  - intros e He. destruct (todo_elem _ _ _ _ _ Hr He) as (x & Hx & Hi & Hh & Hq). rewrite Hi. split; [by rewrite <-Hq|].
    rewrite Forall_forall in Hv. destruct (Hv x Hx) as (_ & _ & _ & row & Hloc & Hl). exists row.
    split; [apply Hloc|]. split; [done|]. by rewrite Hh, (home_located _ _ _ Hloc).
Qed.

Lemma todo_ok_perm req rows s todo todo' : todo ≡ₚ todo' → todo_ok req rows s todo → todo_ok req rows s todo'.
Proof.
  intros Hp [Hnd Ht]. split; [by rewrite <-Hp|]. intros e He. apply Ht. by rewrite Hp.
Qed.

Lemma all_new_perm req d todo todo' : todo ≡ₚ todo' → all_new req d todo → all_new req d todo'.
Proof. intros Hp [Hnd Ht]. split; [by rewrite <-Hp|]. intros e He. apply Ht. by rewrite Hp. Qed.

Lemma NoDup_fmap_elem {A B} (f : A → B) l x y : NoDup (f <$> l) → x ∈ l → y ∈ l → f x = f y → x = y.
Proof.
  intros Hnd Hx Hy Hf. apply list_elem_of_lookup in Hx as [i Hi]. apply list_elem_of_lookup in Hy as [j Hj].
  assert (i = j) as ->; [|congruence].
  eapply (NoDup_lookup _ _ _ (f x) Hnd); rewrite list_lookup_fmap; [by rewrite Hi|by rewrite Hj, Hf].
Qed.

Lemma cells_added req D0 rows todo s s' x sid k :
  worker_ok D0 rows s → todo_ok req rows s todo → rows_added req D0 rows todo s s' →
  (∀ i, (sid, i) ∈ todo → req_key (req i) = k → new_row (req i) = new_row x) →
  cell (db s') sid k = if decide ((sid, k) ∈ slot req <$> todo) then Some (new_row x) else cell (db s) sid k.
Proof.
  intros Hs Ht Ha Hx. rewrite (ra_db _ _ _ _ _ _ Ha), put_all_cell; [|by eapply todo_present|apply Ha].
  destruct (list_find _ todo) as [[j e]|] eqn:Hf.
  - apply list_find_Some in Hf as (Hj & Hsl & _). apply list_elem_of_lookup_2 in Hj.
    rewrite decide_True by (rewrite <-Hsl; by apply list_elem_of_fmap_2). f_equal.
    unfold slot in Hsl. injection Hsl as E1 E2. apply Hx; [rewrite <-E1; by destruct e|done].
  - apply list_find_None in Hf. rewrite decide_False; [done|]. intros (e & Hsl & He)%list_elem_of_fmap.
    rewrite Forall_forall in Hf. by apply (Hf e).
Qed.

Lemma shard_size D0 rows s :
  worker_ok D0 rows s → ∃ s' n, on_shard GetShardTableSize s = Ret n s' ∧ worker_ok D0 rows s' ∧ same_tables s s'.
Proof.
  intros Hs. unfold on_shard, mzoom, GetShardTableSize.
  erewrite bind_ret by (apply wait_valid_spec; [apply Hs|rewrite (wk_rows _ _ _ _ Hs); apply Hs]).
  rewrite bind_mget. simpl. rewrite (wk_rows _ _ _ _ Hs). eexists _, _. split; [done|]. split; [|by destruct s].
  eapply worker_tables; [done|done| |apply Hs]. intros _. simpl. symmetry. apply Hs.
Qed.

(** MKDIR_SUB_CREATE: whatever way the batch is grouped by shard, every
    request's inode row is inserted into the shard that owns it, with the
    mode, size and time of the request and one link, every request is answered
    with SUCCESS, and no other row or directory changes.  The batch is refused
    with ARGUMENT_ERROR when a request is incomplete or belongs to another
    server, and with a unique violation when a row exists or two requests are
    for the same row. *)
Theorem MkdirSubCreate_creates D0 rows s l reqs :
  worker_ok D0 rows s → NoDup l → requests_at s l reqs →
  outcome_ok (CuckooMkdirSubCreateHandle LocalServerId l s)
    (λ _ s', worker_ok D0 rows s' ∧ dirs_of s' = dirs_of s ∧ Forall (create_valid rows) reqs ∧
       (∀ x, x ∈ reqs → cell (db s) (home rows x) (req_key x) = None ∧
          cell (db s') (home rows x) (req_key x) = Some (new_row x)) ∧
       (∀ sid k, (sid, k) ∉ row_slot rows <$> reqs → cell (db s') sid k = cell (db s) sid k) ∧
       (∀ i x, infos s !! i = Some x → infos s' !! i = Some (if decide (i ∈ l) then made x else x)))
    (λ e s', worker_ok D0 rows s' ∧
       ((e = Cuckoo ARGUMENT_ERROR ∧ Exists (λ x, ¬ create_valid rows x) reqs) ∨
        (e = UniqueViolation ∧
         ¬ (NoDup (row_slot rows <$> reqs) ∧ ∀ x, x ∈ reqs → cell (db s) (home rows x) (req_key x) = None)))) False.
Proof.
  intros Hs Hnd Hreq. set (req := λ i, default blank_info (infos s !! i)). unfold CuckooMkdirSubCreateHandle.
  destruct (shard_size D0 rows s Hs) as (s0 & n & Hsz & Hs0 & Hst0). erewrite bind_ret by exact Hsz.
  assert (requests_at s0 l reqs) as Hreq0 by (unfold requests_at; destruct Hst0 as (_ & _ & -> & _); done).
  eapply outcome_ok_bind.
  { eapply outcome_ok_mono; [apply (sub_create_group_spec D0 rows s0 l reqs []); [done|done|apply NoDup_nil_2|done]|exact (λ a s H, H)| |done].
    intros e s' (Hok & _ & -> & He). split; [done|]. by left. }
  intros table s1 (Hs1 & Hst & Hnt & Hne & Hv & Hp). rewrite app_nil_r in Hp.
  pose proof (same_tables_trans _ _ _ Hst0 Hst) as Hst1. clear Hst0 Hst. pose proof (same_tables_db _ _ Hst1) as Hdb.
  assert (infos s1 = infos s) as Hin by apply Hst1.
  assert (flatten (hash_seq_order table) ≡ₚ zip (home rows <$> reqs) l) as Hp'.
  { rewrite <-Hp. unfold flatten. by rewrite hash_seq_order_perm. }
  pose proof (todo_ok_zip _ _ _ _ Hnd Hreq Hv) as Hok. fold req in Hok.
  assert (todo_ok req rows s1 (flatten (hash_seq_order table))) as Hok1.
  { eapply todo_ok_perm; [symmetry; exact Hp'|]. unfold todo_ok. rewrite Hin. exact Hok. }
  eapply outcome_ok_mono; [apply (sub_create_queues req D0 rows s1 (hash_seq_order table)); [done| |done]|..]; [by rewrite hash_seq_order_perm|..].
  - intros [] s2 Ha. split; [apply Ha|].
    assert (slot req <$> flatten (hash_seq_order table) ≡ₚ row_slot rows <$> reqs) as Hslots
      by (rewrite Hp', <-(todo_slots rows s l reqs Hreq); done).
    pose proof (ra_new _ _ _ _ _ _ Ha) as [Hnds Hnone]. rewrite Hdb in Hnone.
    split_and!; [rewrite (ra_dirs _ _ _ _ _ _ Ha); unfold dirs_of, dir_of; by destruct Hst1 as (-> & _)|done|..].
    + intros x Hx.
      assert (∃ i, (home rows x, i) ∈ flatten (hash_seq_order table) ∧ req i = x) as (i & Hi & Hqi).
      { apply list_elem_of_lookup in Hx as [j Hj]. destruct (Forall2_lookup_r _ _ _ _ _ Hreq Hj) as (i & Hl & Hxi).
        exists i. split; [|unfold req; by rewrite Hxi]. rewrite Hp'. apply list_elem_of_lookup. exists j.
        apply lookup_zip_with_Some. exists (home rows x), i. split; [done|]. rewrite list_lookup_fmap, Hj. done. }
      split; [specialize (Hnone _ Hi); simpl in Hnone; by rewrite Hqi in Hnone|].
      rewrite (cells_added req D0 rows (flatten (hash_seq_order table)) s1 s2 x); [|done|done|done|].
      * rewrite decide_True; [done|]. apply list_elem_of_fmap. exists (home rows x, i). split; [|done]. unfold slot. simpl. by rewrite Hqi.
      * intros i' Hi' Hk. f_equal. assert ((home rows x, i') = (home rows x, i)) as [= ->]; [|done].
        eapply (NoDup_fmap_elem (slot req)); [done|done|done|]. unfold slot. simpl. by rewrite Hk, Hqi.
    + intros sid k Hk. rewrite (cells_added req D0 rows (flatten (hash_seq_order table)) s1 s2 blank_info); [|done|done|done|].
      * rewrite decide_False, Hdb by (by rewrite Hslots). done.
      * intros i Hi Hki. destruct Hk. rewrite <-Hslots. apply list_elem_of_fmap. exists (sid, i). unfold slot. simpl. by rewrite Hki.
    + intros i x Hx. rewrite (ra_infos _ _ _ _ _ _ Ha), Hin.
      assert ((flatten (hash_seq_order table)).*2 ≡ₚ l) as Hl2.
      { rewrite Hp', snd_zip; [done|]. rewrite length_fmap. by rewrite (Forall2_length _ _ _ Hreq). }
      destruct (decide (i ∈ l)) as [Hi|Hi].
      * rewrite mark_in; [unfold req; by rewrite Hx|by rewrite Hl2|by rewrite Hl2|by eapply lookup_lt_Some].
      * rewrite mark_other; [done|]. by rewrite Hl2.
  - intros e s2 (Hok2 & -> & Hn). split; [done|]. right. split; [done|]. intros [Hnds Hnone]. apply Hn.
    eapply all_new_perm; [symmetry; exact Hp'|]. pose proof (todo_slots rows s l reqs Hreq) as Hts. fold req in Hts.
    split; [by rewrite Hts|].
    intros e He. rewrite Hdb. destruct (todo_elem _ _ _ _ _ Hreq He) as (x & Hx & _ & Hh & Hq).
    change (req e.2 = x) in Hq. rewrite Hh, Hq. by apply Hnone.
  - done.
Qed.
End dir_create.
