(* ===== verification/Transaction.v ===== *)
(** * The end of a transaction (transaction/transaction.c) and the cleanup of
    prepared transactions (transaction/transaction_cleanup.c)

    PostgreSQL calls [CuckooTransactionCallback] when a transaction ends.  A
    background process of the coordinator looks, server by server, for
    transactions that were prepared and never finished, and finishes them:
    [CleanupPreparedTransactions]. *)

From S2P Require Import Prelude Pg Shard RWLock DirHash PathParse Inode FileOps ForeignServer RemoteComm DirOps.

(** ** Cleanup: what to do with a transaction *)

Inductive CleanupAction := Leave | CommitPrepared | RollbackPrepared | DropRecord.
#[global] Instance CleanupAction_eq_dec : EqDecision CleanupAction.
Proof. solve_decision. Defined.

(** A transaction x of which C, the records of the server, has a row: B are
    the transactions in progress, A and D the ones prepared on the server
    before B and after C were read. *)
Definition record_action (foundInSetA foundInSetB foundInSetD : bool) : CleanupAction :=
  if foundInSetB then Leave
  else if foundInSetA && foundInSetD then CommitPrepared
  else if negb foundInSetA && foundInSetD then Leave
  else DropRecord.

(** A transaction that is left in A when C has been dealt with. *)
Definition prepared_action (foundInSetB : bool) : CleanupAction :=
  if foundInSetB then Leave else RollbackPrepared.

(** HashSetErase *)
Definition HashSetErase (set : list string) (transaction : string) : list string := filter (λ g, g ≠ transaction) set.
Definition IsTransactionInSet (set : list string) (transaction : string) : bool := bool_decide (transaction ∈ set).

(** A after the action on a record. *)
Definition after_record (a : CleanupAction) (setA : list string) (gid : string) : list string :=
  match a with Leave => setA | _ => HashSetErase setA gid end.

Section cleanup.
Context {D : Type} `{!Libpq D, !PgEnv, !Collation, !TextBuffer, !PgRelation fs_server_id Z.le,
          !PgRelation dt_key id_text_le}.
Context (MetaServiceTypeEncode : CuckooSupportMetaService → Z) (fuel : nat).

Abbreviation R := (M (RemoteState (D := D))).

(** SELECT gid FROM pg_prepared_xacts on the server: the transactions that
    this server has prepared there. *)
Definition GetRemotePreparedTransactionSet (serverId : Z) : R (list string) :=
  localId ← on_foreign GetLocalServerId;
  CuckooPlainCommandOnWorkerList (SELECT_PREPARED_XACTS localId) REMOTE_COMMAND_FLAG_NO_BEGIN [serverId] ;;
  allResList ← CuckooSendCommandAndWaitForResult MetaServiceTypeEncode fuel;
  match allResList with
  | (_, res :: _) :: _ =>
      match mapM (λ row : list (Value D), match row with VText gid :: _ => Some gid | _ => None end) (PQrows res) with
      | Some gids => mret (remove_dups gids)
      | None => mundefined
      end
  | _ => mundefined
  end.

(** A copy of the shared table. *)
Definition GetActiveTransactionSet : R (list string) := s ← mget; mret (InprogressTransactions s).

Definition CommitOrRollbackPreparedTransaction (serverId : Z) (transactionGid : string) (isCommit : bool) : R () :=
  CuckooPlainCommandOnWorkerList
    (if isCommit then COMMIT_PREPARED transactionGid else ROLLBACK_PREPARED transactionGid)
    REMOTE_COMMAND_FLAG_NO_BEGIN [serverId] ;;
  CuckooSendCommandAndWaitForResult MetaServiceTypeEncode fuel ;;
  mret ().

Definition DeleteRecord (row : FormData_cuckoo_distributed_transaction) : R () :=
  s ← mget;
  match CatalogTupleDelete (transaction_rel s) (dt_key row) with
  | None => mpgerror TupleAlreadyModified
  | Some t => mput (s <| transaction_rel := t |>)
  end.

(** The loop over C: the rest of A and the count. *)
Fixpoint cleanup_records (serverId : Z) (setB setD : list string) (rows : list FormData_cuckoo_distributed_transaction)
    (setA : list string) (cleanedTransactionCount : Z) : R (list string * Z) :=
  match rows with
  | [] => mret (setA, cleanedTransactionCount)
  | row :: rows' =>
      let gid := dt_gid row in
      let a := record_action (IsTransactionInSet setA gid) (IsTransactionInSet setB gid) (IsTransactionInSet setD gid) in
      match a with
      | CommitPrepared =>
          CommitOrRollbackPreparedTransaction serverId gid true ;;
          cleanup_records serverId setB setD rows' (after_record a setA gid) (cleanedTransactionCount + 1)
      | DropRecord =>
          DeleteRecord row ;;
          cleanup_records serverId setB setD rows' (after_record a setA gid) cleanedTransactionCount
      | _ => cleanup_records serverId setB setD rows' (after_record a setA gid) cleanedTransactionCount
      end
  end.

(** The loop over what is left of A. *)
Fixpoint cleanup_prepared (serverId : Z) (setB setA : list string) (cleanedTransactionCount : Z) : R Z :=
  match setA with
  | [] => mret cleanedTransactionCount
  | gid :: setA' =>
      match prepared_action (IsTransactionInSet setB gid) with
      | RollbackPrepared =>
          CommitOrRollbackPreparedTransaction serverId gid false ;;
          cleanup_prepared serverId setB setA' (cleanedTransactionCount + 1)
      | _ => cleanup_prepared serverId setB setA' cleanedTransactionCount
      end
  end.

Definition CleanupPreparedTransactions (serverId : Z) : R Z :=
  setA ← GetRemotePreparedTransactionSet serverId;
  setB ← GetActiveTransactionSet;
  s ← mget;
  let rows := filter (λ r, dt_nodeId r = serverId) (index_scan (transaction_rel s)) in
  setD ← GetRemotePreparedTransactionSet serverId;
  r ← cleanup_records serverId setB setD rows setA 0;
  let '(setA, count) := r in
  cleanup_prepared serverId setB (hash_seq_order setA) count.

(** An error on one server gives a warning. *)
Fixpoint cleanup_servers (workerIdList : list Z) (count : Z) : R Z :=
  match workerIdList with
  | [] => mret count
  | id :: workerIdList' =>
      r ← mtry (CleanupPreparedTransactions id);
      cleanup_servers workerIdList' (match r with inr n => count + n | inl _ => count end)
  end.

(** The lock CUCKOO_LOCK_2PC_CLEANUP is held throughout. *)
Definition Cleanup2PC : R Z :=
  workerIdList ← on_foreign (GetAllForeignServerId true false);
  cleanup_servers workerIdList 0.
End cleanup.

(** ** The end of a transaction *)

Inductive CuckooExplicitTransactionState :=
  | CUCKOO_EXPLICIT_TRANSACTION_NONE
  | CUCKOO_EXPLICIT_TRANSACTION_BEGIN
  | CUCKOO_EXPLICIT_TRANSACTION_PREPARED.
#[global] Instance CuckooExplicitTransactionState_eq_dec : EqDecision CuckooExplicitTransactionState.
Proof. solve_decision. Defined.

Inductive XactEvent :=
  | XACT_EVENT_COMMIT | XACT_EVENT_PARALLEL_COMMIT | XACT_EVENT_ABORT | XACT_EVENT_PARALLEL_ABORT | XACT_EVENT_PREPARE
  | XACT_EVENT_PRE_COMMIT | XACT_EVENT_PARALLEL_PRE_COMMIT | XACT_EVENT_PRE_PREPARE.

(** *** Transaction blocks of the backend

    The arguments are what PostgreSQL's own functions return. *)
Section explicit.
Abbreviation X := (M CuckooExplicitTransactionState).

Definition in_state (st : CuckooExplicitTransactionState) {A} (m : X A) : X A :=
  s ← mget; if decide (s ≠ st) then melog PROGRAM_ERROR else m.

Definition CuckooExplicitTransactionBegin (setIsolationLevelRes : Z) : X () :=
  in_state CUCKOO_EXPLICIT_TRANSACTION_NONE
    (if decide (setIsolationLevelRes ≠ 1) then melog PROGRAM_ERROR else mput CUCKOO_EXPLICIT_TRANSACTION_BEGIN).
Definition CuckooExplicitTransactionCommit (isCommit : bool) : X bool :=
  in_state CUCKOO_EXPLICIT_TRANSACTION_BEGIN (mput CUCKOO_EXPLICIT_TRANSACTION_NONE ;; mret isCommit).
Definition CuckooExplicitTransactionRollback : X () :=
  in_state CUCKOO_EXPLICIT_TRANSACTION_BEGIN (mput CUCKOO_EXPLICIT_TRANSACTION_NONE).
Definition CuckooExplicitTransactionPrepare (isPrepare : bool) : X bool :=
  in_state CUCKOO_EXPLICIT_TRANSACTION_BEGIN (mput CUCKOO_EXPLICIT_TRANSACTION_NONE ;; mret isPrepare).
Definition CuckooExplicitTransactionCommitPrepared : X () :=
  in_state CUCKOO_EXPLICIT_TRANSACTION_PREPARED (mput CUCKOO_EXPLICIT_TRANSACTION_NONE).
Definition CuckooExplicitTransactionRollbackPrepared : X () :=
  in_state CUCKOO_EXPLICIT_TRANSACTION_PREPARED (mput CUCKOO_EXPLICIT_TRANSACTION_NONE).
End explicit.

(** The state PREPARED is never reached: PREPARE TRANSACTION leaves the state
    NONE, so that COMMIT PREPARED and ROLLBACK PREPARED always raise. *)
Definition never_prepared {A} (o : outcome CuckooExplicitTransactionState A) : Prop :=
  outcome_ok o (λ _ st, st ≠ CUCKOO_EXPLICIT_TRANSACTION_PREPARED) (λ _ st, st ≠ CUCKOO_EXPLICIT_TRANSACTION_PREPARED) False.

Lemma explicit_prepared_unreachable st res commit prepare :
  st ≠ CUCKOO_EXPLICIT_TRANSACTION_PREPARED →
  never_prepared (CuckooExplicitTransactionBegin res st) ∧ never_prepared (CuckooExplicitTransactionCommit commit st) ∧
  never_prepared (CuckooExplicitTransactionRollback st) ∧ never_prepared (CuckooExplicitTransactionPrepare prepare st) ∧
  CuckooExplicitTransactionCommitPrepared st = Elog (Cuckoo PROGRAM_ERROR) st ∧
  CuckooExplicitTransactionRollbackPrepared st = Elog (Cuckoo PROGRAM_ERROR) st.
Proof.
  intros Hst. destruct st; [| |done]; split_and!; try done.
  unfold CuckooExplicitTransactionBegin. by destruct (decide (res ≠ 1)).
Qed.

Section transaction.
Context `{!PgEnv, !Collation, !DirHashEnv, !TextBuffer, !PgRelation dir_key id_text_le,
          !PgRelation range_point Z.le, !PgRelation inode_key id_text_le, !Libpq SerializedData,
          !PgRelation fs_server_id Z.le, !PgRelation dt_key id_text_le}.
Context (fuel : nat) (TopTransactionId : N).

(** A backend: its server's state, its transaction block, and whether it is
    rolling back. *)
Record Backend := mkBackend {
  bk_server : Server;
  cuckooExplicitTransactionState : CuckooExplicitTransactionState;
  CuckooInAbortProgress : bool }.
#[global] Instance eta_Backend : Eta Backend := λ b,
  mkBackend (bk_server b) (cuckooExplicitTransactionState b) (CuckooInAbortProgress b).

Abbreviation B := (M Backend).
Definition on_server {A} (m : M Server A) : B A := mzoom bk_server (λ x b, b <| bk_server := x |>) m.
Definition on_explicit {A} (m : M CuckooExplicitTransactionState A) : B A :=
  mzoom cuckooExplicitTransactionState (λ x b, b <| cuckooExplicitTransactionState := x |>) m.
Definition on_backend_dir {A} (m : M DirState A) : B A := on_server (on_meta (on_directory m)).
Definition on_backend_remote {A} (m : M RemoteState A) : B A := on_server (on_remote m).

Definition CuckooTransactionCallback (event : XactEvent) : B () :=
  match event with
  | XACT_EVENT_PRE_COMMIT => on_backend_remote (CuckooRemoteCommandPrepare fuel TopTransactionId)
  | XACT_EVENT_COMMIT =>
      on_backend_remote (CuckooRemoteCommandCommit fuel) ;;
      on_server (on_meta (on_path TransactionLevelPathParseReset)) ;;
      on_backend_dir CommitForDirPathHash ;;
      on_backend_dir (on_locks (RWLockReleaseAll false)) ;;
      on_backend_remote ClearRemoteTransactionGid ;;
      on_backend_remote ClearRemoteConnectionCommand
  | XACT_EVENT_ABORT =>
      mmodify (λ b, b <| CuckooInAbortProgress := true |>) ;;
      on_server (on_meta (on_path TransactionLevelPathParseReset)) ;;
      on_backend_dir AbortForDirPathHash ;;
      on_backend_dir (on_locks (RWLockReleaseAll true)) ;;
      on_backend_remote (CuckooRemoteCommandAbort fuel) ;;
      on_backend_remote ClearRemoteTransactionGid ;;
      on_backend_remote ClearRemoteConnectionCommand ;;
      b ← mget;
      (if decide (cuckooExplicitTransactionState b = CUCKOO_EXPLICIT_TRANSACTION_BEGIN)
       then on_explicit CuckooExplicitTransactionRollback else mret ()) ;;
      mmodify (λ b, b <| CuckooInAbortProgress := false |>)
  | XACT_EVENT_PRE_PREPARE => mret ()
  | XACT_EVENT_PREPARE => on_server (on_meta (on_path TransactionLevelPathParseReset))
  | XACT_EVENT_PARALLEL_COMMIT | XACT_EVENT_PARALLEL_PRE_COMMIT | XACT_EVENT_PARALLEL_ABORT => mret ()
  end.
End transaction.
