(* ===== verification/TwoPhase.v ===== *)
(** * Two-phase commit with the cleanup of what it leaves behind

    The steps of CuckooRemoteCommandPrepare, CuckooRemoteCommandCommit and
    CuckooRemoteCommandAbort (distributed_backend/remote_comm_cuckoo.c), of the
    servers and of CleanupPreparedTransactions
    (transaction/transaction_cleanup.c), interleaved in any way; the cleanup
    decides with the functions of Transaction.v.  The specification is atomic
    commitment: each participant works, then is prepared, then is committed or
    aborted, one is committed only when every one is prepared or committed, and
    none is aborted when one is committed. *)

From S2P Require Import Prelude Transaction.

(** ** Specification *)

Inductive RMState := Working | Prepared | Committed | Aborted.

(** The coordinator's own transaction is the participant [None], the server
    [S] the participant [Some S]. *)
Abbreviation RM := (option Z).
Definition TState : Type := string → RM → option RMState.

Definition canCommit (f : TState) (g : string) : Prop := ∀ r x, f g r = Some x → x = Prepared ∨ x = Committed.
Definition notCommitted (f : TState) (g : string) : Prop := ∀ r, f g r ≠ Some Committed.

(** Only the participant [r] of the transaction [g] changes. *)
Definition only (g : string) (r : RM) (f f' : TState) : Prop := ∀ g' r', (g', r') ≠ (g, r) → f' g' r' = f g' r'.

Inductive tcommit : TState → TState → Prop :=
  | t_begin f f' g : (∀ r, f g r = None) → (∀ r x, f' g r = Some x → x = Working) →
      (∀ g' r, g' ≠ g → f' g' r = f g' r) → tcommit f f'
  | t_prepare f f' g r : f g r = Some Working → f' g r = Some Prepared → only g r f f' → tcommit f f'
  | t_commit f f' g r : f g r = Some Prepared → canCommit f g → f' g r = Some Committed → only g r f f' → tcommit f f'
  | t_abort f f' g r : f g r = Some Working ∨ f g r = Some Prepared → notCommitted f g → f' g r = Some Aborted →
      only g r f f' → tcommit f f'.

Inductive tsteps : TState → TState → Prop :=
  | ts_refl f f' : (∀ g r, f' g r = f g r) → tsteps f f'
  | ts_step f f1 f' : tcommit f f1 → tsteps f1 f' → tsteps f f'.

(** The specification never lets one participant commit and another abort. *)
Definition consistent (f : TState) : Prop := ∀ g r r', f g r = Some Committed → f g r' = Some Aborted → False.
Definition decided_ok (f : TState) : Prop :=
  ∀ g r, f g r = Some Committed → ∀ r' x, f g r' = Some x → x = Prepared ∨ x = Committed.

Lemma tcommit_decided f f' : tcommit f f' → decided_ok f → decided_ok f'.
Proof.
  intros Hst Hok g0 r0 Hc r1 x Hx. destruct Hst as [f f' g Hn Hw Ho|f f' g r Hw Hp Ho|f f' g r Hp Hcan Hc' Ho|f f' g r Hw Hnot Ha Ho].
  - destruct (decide (g0 = g)) as [->|Hne]; [by apply Hw in Hc|]. rewrite !Ho in * by done. by eapply Hok.
  - destruct (decide ((g0, r0) = (g, r))) as [[= -> ->]|Hne]; [congruence|]. rewrite Ho in Hc by done.
    destruct (decide ((g0, r1) = (g, r))) as [[= -> ->]|Hne1]; [left; congruence|]. rewrite Ho in Hx by done. by eapply Hok.
  - assert (f g0 r0 = Some Committed ∨ (g0, r0) = (g, r)) as Hcase.
    { destruct (decide ((g0, r0) = (g, r))) as [?|Hne]; [by right|left; by rewrite <-(Ho _ _ Hne)]. }
    destruct (decide ((g0, r1) = (g, r))) as [[= -> ->]|Hne1]; [right; congruence|]. rewrite Ho in Hx by done.
    destruct Hcase as [Hf|[= -> ->]]; [by eapply Hok|by eapply Hcan].
  - destruct (decide ((g0, r0) = (g, r))) as [[= -> ->]|Hne]; [congruence|]. rewrite Ho in Hc by done.
    destruct (decide (g0 = g)) as [->|Hg]; [by destruct (Hnot r0)|]. rewrite Ho in Hx by congruence. by eapply Hok.
Qed.

Lemma tsteps_decided f f' : tsteps f f' → decided_ok f → decided_ok f'.
Proof.
  induction 1 as [f f' He|f f1 f' Hst _ IH]; intros Hok.
  - intros g r Hc r' x Hx. rewrite He in Hc, Hx. by eapply Hok.
  - by apply IH, (tcommit_decided f).
Qed.

Lemma decided_consistent f : decided_ok f → consistent f.
Proof. intros Hok g r r' Hc Ha. by destruct (Hok g r Hc r' Aborted Ha). Qed.

(** ** The protocol *)

(** A transaction of the coordinator: the servers that take part and those
    whose answer to PREPARE TRANSACTION has come; once it is decided, the
    local transaction has committed or not. *)
Inductive Phase := Active (ws acked : gset Z) | Decided (ws : gset Z) (commit : bool).
Definition servers_of (p : Phase) : gset Z := match p with Active ws _ | Decided ws _ => ws end.

(** The cleanup of a server: after set A, A and B, or A, B and C were read;
    the loop over C; the loop over what is left of A. *)
Inductive Cleaner :=
  | HasA (setA : list string)
  | HasAB (setA setB : list string)
  | HasABC (setA setB setC : list string)
  | Records (setA setB setC setD : list string)
  | Leftovers (setA setB : list string).

Record Global := mkGlobal {
  phase : gmap string Phase;
  (** in the table of the transactions in progress *)
  inprogress : gset string;
  (** the committed rows of cuckoo_distributed_transaction *)
  records : gset (Z * string);
  (** (S, g): S has executed PREPARE TRANSACTION g; g is prepared on S; S has
      committed or rolled back its part *)
  answered : gset (Z * string);
  prepared : gset (Z * string);
  finished : gmap (Z * string) bool;
  cleaners : gmap Z Cleaner;
  (** rows deleted by a cleanup that has not committed yet *)
  deletions : gset (Z * string) }.
#[global] Instance eta_Global : Eta Global := λ s,
  mkGlobal (phase s) (inprogress s) (records s) (answered s) (prepared s) (finished s) (cleaners s) (deletions s).

Definition init : Global := mkGlobal ∅ ∅ ∅ ∅ ∅ ∅ ∅ ∅.

(** S executes COMMIT PREPARED or ROLLBACK PREPARED. *)
Definition finish (sv : Z) (g : string) (commit : bool) (s : Global) : Global :=
  s <| prepared ::= λ p, p ∖ {[(sv, g)]} |> <| finished ::= <[(sv, g) := commit]> |>.

(** What an action of the cleanup of S does; an error of the remote statement
    ends the cleanup. *)
Definition act (sv : Z) (g : string) (a : CleanupAction) (next : Cleaner) (s : Global) : Global :=
  match a with
  | Leave => s <| cleaners ::= <[sv := next]> |>
  | DropRecord => s <| deletions ::= λ d, d ∪ {[(sv, g)]} |> <| cleaners ::= <[sv := next]> |>
  | CommitPrepared | RollbackPrepared =>
      if decide ((sv, g) ∈ prepared s) then
        (finish sv g (bool_decide (a = CommitPrepared)) s) <| cleaners ::= <[sv := next]> |>
      else s <| cleaners ::= delete sv |>
  end.

(** CleanupPreparedTransactions of S *)
Inductive cstep (sv : Z) : Global → Global → Prop :=
  | cl_A s setA : cleaners s !! sv = None → (∀ g, g ∈ setA ↔ (sv, g) ∈ prepared s) →
      cstep sv s (s <| cleaners ::= <[sv := HasA setA]> |>)
  | cl_B s setA setB : cleaners s !! sv = Some (HasA setA) → (∀ g, g ∈ setB ↔ g ∈ inprogress s) →
      cstep sv s (s <| cleaners ::= <[sv := HasAB setA setB]> |>)
  | cl_C s setA setB setC : cleaners s !! sv = Some (HasAB setA setB) → (∀ g, g ∈ setC ↔ (sv, g) ∈ records s) →
      cstep sv s (s <| cleaners ::= <[sv := HasABC setA setB setC]> |>)
  | cl_D s setA setB setC setD : cleaners s !! sv = Some (HasABC setA setB setC) →
      (∀ g, g ∈ setD ↔ (sv, g) ∈ prepared s) →
      cstep sv s (s <| cleaners ::= <[sv := Records setA setB setC setD]> |>)
  | cl_record s setA setB g setC setD a : cleaners s !! sv = Some (Records setA setB (g :: setC) setD) →
      a = record_action (IsTransactionInSet setA g) (IsTransactionInSet setB g) (IsTransactionInSet setD g) →
      cstep sv s (act sv g a (Records (after_record a setA g) setB setC setD) s)
  | cl_rest s setA setB setD : cleaners s !! sv = Some (Records setA setB [] setD) →
      cstep sv s (s <| cleaners ::= <[sv := Leftovers setA setB]> |>)
  | cl_prepared s g setA setB : cleaners s !! sv = Some (Leftovers (g :: setA) setB) →
      cstep sv s (act sv g (prepared_action (IsTransactionInSet setB g)) (Leftovers setA setB) s)
  (** it ends, or fails *)
  | cl_stop s : cstep sv s (s <| cleaners ::= delete sv |>)
  (** its transaction commits *)
  | cl_delete s g : (sv, g) ∈ deletions s →
      cstep sv s (s <| records ::= λ x, x ∖ {[(sv, g)]} |> <| deletions ::= λ x, x ∖ {[(sv, g)]} |>).

Inductive step : Global → Global → Prop :=
  (** AddInprogressTransaction, with a gid that is new *)
  | st_begin s g ws : phase s !! g = None →
      step s (s <| phase ::= <[g := Active ws ∅]> |> <| inprogress ::= λ x, x ∪ {[g]} |>)
  (** PREPARE TRANSACTION arrives at S, and succeeds or not *)
  | st_prepare s g p sv : phase s !! g = Some p → sv ∈ servers_of p → (sv, g) ∉ prepared s → finished s !! (sv, g) = None →
      step s (s <| answered ::= λ x, x ∪ {[(sv, g)]} |> <| prepared ::= λ x, x ∪ {[(sv, g)]} |>)
  | st_refuse s g p sv : phase s !! g = Some p → sv ∈ servers_of p → (sv, g) ∉ prepared s → finished s !! (sv, g) = None →
      step s (s <| finished ::= <[(sv, g) := false]> |>)
  (** the answer arrives: Write2PCRecord in the local transaction *)
  | st_ack s g ws acked sv : phase s !! g = Some (Active ws acked) → (sv, g) ∈ answered s →
      step s (s <| phase ::= <[g := Active ws (acked ∪ {[sv]})]> |>)
  (** the local transaction commits with the records, or aborts *)
  | st_commit s g ws acked : phase s !! g = Some (Active ws acked) → ws ⊆ acked →
      step s (s <| phase ::= <[g := Decided ws true]> |> <| records ::= λ x, x ∪ set_map (λ sv, (sv, g)) ws |>)
  | st_abort s g ws acked : phase s !! g = Some (Active ws acked) →
      step s (s <| phase ::= <[g := Decided ws false]> |>)
  (** COMMIT PREPARED or ROLLBACK PREPARED of the coordinator arrives *)
  | st_finish s g ws commit sv : phase s !! g = Some (Decided ws commit) → (sv, g) ∈ prepared s →
      step s (finish sv g commit s)
  (** ClearRemoteTransactionGid *)
  | st_clear s g ws commit : phase s !! g = Some (Decided ws commit) →
      step s (s <| inprogress ::= λ x, x ∖ {[g]} |>)
  (** the coordinator restarts, its transactions aborted: the shared table is
      empty and the cleanup is gone *)
  | st_restart s : (∀ g ws acked, phase s !! g ≠ Some (Active ws acked)) →
      step s (s <| inprogress := ∅ |> <| cleaners := ∅ |>)
  | st_cleanup s s' sv : cstep sv s s' → step s s'.

Inductive reachable : Global → Prop :=
  | reach_init : reachable init
  | reach_step s s' : reachable s → step s s' → reachable s'.

(** What the specification sees. *)
Definition participant (s : Global) (sv : Z) (g : string) : RMState :=
  match finished s !! (sv, g) with
  | Some true => Committed
  | Some false => Aborted
  | None => if decide ((sv, g) ∈ prepared s) then Prepared else Working
  end.

Definition abs (s : Global) : TState := λ g r,
  match phase s !! g with
  | None => None
  | Some p =>
      match r with
      | None => Some (match p with Active _ _ => Working | Decided _ true => Committed | Decided _ false => Aborted end)
      | Some sv => if decide (sv ∈ servers_of p) then Some (participant s sv g) else None
      end
  end.

(** ** Invariant *)

Definition committed (s : Global) (sv : Z) (g : string) : Prop :=
  ∃ ws, phase s !! g = Some (Decided ws true) ∧ sv ∈ ws.
Definition aborted (s : Global) (g : string) : Prop := ∃ ws, phase s !! g = Some (Decided ws false).
Definition member (s : Global) (sv : Z) (g : string) : Prop := ∃ p, phase s !! g = Some p ∧ sv ∈ servers_of p.
Definition over (s : Global) (sv : Z) (g : string) : Prop := is_Some (finished s !! (sv, g)).

(** What the cleanup may conclude from the sets it has read, and when it read
    them. *)
Definition cleaner_ok (s : Global) (sv : Z) (c : Cleaner) : Prop :=
  match c with
  | HasA setA => ∀ g, g ∈ setA → (sv, g) ∈ answered s
  | HasAB setA setB => ∀ g, g ∈ setA → g ∉ setB → committed s sv g ∨ aborted s g
  | HasABC setA setB setC =>
      (∀ g, g ∈ setC → committed s sv g) ∧
      (∀ g, g ∈ setA → g ∉ setB → g ∉ setC → aborted s g ∨ over s sv g)
  | Records setA setB setC setD =>
      (∀ g, g ∈ setC → committed s sv g ∧ (g ∉ setD → over s sv g)) ∧
      (∀ g, g ∈ setA → g ∉ setB → g ∉ setC → aborted s g ∨ over s sv g)
  | Leftovers setA setB => ∀ g, g ∈ setA → g ∉ setB → aborted s g ∨ over s sv g
  end.

Record inv (s : Global) : Prop := {
  i_answered sv g : (sv, g) ∈ answered s → member s sv g ∧ ((sv, g) ∈ prepared s ∨ over s sv g);
  i_prepared sv g : (sv, g) ∈ prepared s → (sv, g) ∈ answered s ∧ finished s !! (sv, g) = None;
  i_finished sv g : over s sv g → member s sv g;
  i_true sv g : finished s !! (sv, g) = Some true → committed s sv g;
  i_false sv g : finished s !! (sv, g) = Some false → (sv, g) ∉ answered s ∨ aborted s g;
  i_acked g ws acked sv : phase s !! g = Some (Active ws acked) → sv ∈ acked → (sv, g) ∈ answered s;
  i_committed sv g : committed s sv g → (sv, g) ∈ answered s ∧ ((sv, g) ∈ records s ∨ over s sv g);
  i_inprogress g ws acked : phase s !! g = Some (Active ws acked) → g ∈ inprogress s;
  i_records sv g : (sv, g) ∈ records s → committed s sv g;
  i_deletions sv g : (sv, g) ∈ deletions s → over s sv g;
  i_cleaners sv c : cleaners s !! sv = Some c → cleaner_ok s sv c }.

(** What never goes back. *)
Record grows (s s' : Global) : Prop := {
  g_committed sv g : committed s sv g → committed s' sv g;
  g_aborted g : aborted s g → aborted s' g;
  g_over sv g : over s sv g → over s' sv g;
  g_answered : answered s ⊆ answered s' }.

Lemma cleaner_grows s s' sv c : grows s s' → cleaner_ok s sv c → cleaner_ok s' sv c.
Proof.
  intros [Hc Ha Ho Hw]. destruct c; simpl.
  - intros H g Hg. by apply Hw, H.
  - intros H g Hg Hb. destruct (H g Hg Hb); auto.
  - intros [H1 H2]. split; [auto|]. intros g HA HB HC. destruct (H2 g HA HB HC); auto.
  - intros [H1 H2]. split; [|intros g HA HB HC; destruct (H2 g HA HB HC); auto].
    intros g Hg. destruct (H1 g Hg). auto.
  - intros H g Hg Hb. destruct (H g Hg Hb); auto.
Qed.

Lemma cleaners_grow s s' :
  grows s s' → cleaners s' = cleaners s → (∀ sv c, cleaners s !! sv = Some c → cleaner_ok s sv c) →
  ∀ sv c, cleaners s' !! sv = Some c → cleaner_ok s' sv c.
Proof. intros Hg -> H sv c Hc. by apply (cleaner_grows s), H. Qed.

(** A new cleaner. *)
Lemma inv_cleaner s sv c : inv s → cleaner_ok s sv c → inv (s <| cleaners ::= <[sv := c]> |>).
Proof.
  intros [] Hc. split; try done. simpl. intros sv' c'. rewrite lookup_insert_Some. intros [[<- <-]|[_ H]]; [done|].
  by apply i_cleaners0.
Qed.

Lemma inv_cleaner_gone s sv : inv s → inv (s <| cleaners ::= delete sv |>).
Proof.
  intros []. split; try done. simpl. intros sv' c'. rewrite lookup_delete_Some. intros [_ H]. by apply i_cleaners0.
Qed.

(** The participant [sv] of [g] finishes the way the transaction was decided. *)
Lemma inv_finish s sv g commit ws :
  inv s → phase s !! g = Some (Decided ws commit) → (sv, g) ∈ prepared s → inv (finish sv g commit s).
Proof.
  intros Hi Hp Hin. destruct (i_prepared _ Hi _ _ Hin) as [Hans Hnone]. pose proof (i_answered _ Hi _ _ Hans) as [Hmem _].
  assert (∀ k, is_Some (finished s !! k) → is_Some (<[(sv, g) := commit]> (finished s) !! k)) as Hov.
  { intros k Hk. destruct (decide (k = (sv, g))) as [->|Hne]; [by rewrite lookup_insert_eq|by rewrite lookup_insert_ne]. }
  assert (∀ sv' g', over s sv' g' → over (finish sv g commit s) sv' g') as Hover by (intros sv' g'; apply Hov).
  destruct Hi. unfold finish. split; simpl; try done.
  - intros sv' g' H. destruct (i_answered0 _ _ H) as [? [?|?]]; (split; [done|]); [|right; by apply Hover].
    destruct (decide ((sv', g') = (sv, g))) as [[= -> ->]|Hne]; [right; unfold over; simpl; by rewrite lookup_insert_eq|].
    left. apply elem_of_difference. split; [done|]. by apply not_elem_of_singleton.
  - intros sv' g'. rewrite elem_of_difference, not_elem_of_singleton. intros [H Hne]. destruct (i_prepared0 _ _ H).
    split; [done|]. by rewrite lookup_insert_ne.
  - intros sv' g'. unfold over. simpl. intros [b Hb]. apply lookup_insert_Some in Hb as [[[= <- <-] _]|[_ Hb]]; [done|].
    apply i_finished0. by exists b.
  - intros sv' g'. rewrite lookup_insert_Some. intros [[[= <- <-] ->]|[_ H]]; [|by apply i_true0].
    exists ws. split; [done|]. destruct Hmem as (p & Hp' & Hsv). rewrite Hp in Hp'. by injection Hp' as <-.
  - intros sv' g'. rewrite lookup_insert_Some. intros [[[= <- <-] ->]|[_ H]]; [|by apply i_false0].
    right. by exists ws.
  - intros sv' g' H. destruct (i_committed0 _ _ H) as [? [?|?]]; auto.
  - intros sv' g' H. by apply Hover, i_deletions0.
  - intros sv' c H. eapply (cleaner_grows s); [|by apply i_cleaners0]. by split.
Qed.

(** A transaction that is new or not decided yet moves on. *)
Definition undecided (s : Global) (g : string) : Prop :=
  match phase s !! g with Some (Decided _ _) => False | _ => True end.

Lemma decided_other s g p sv : undecided s g → ∀ g',
  (committed s sv g' → committed (s <| phase ::= <[g := p]> |>) sv g') ∧
  (aborted s g' → aborted (s <| phase ::= <[g := p]> |>) g').
Proof.
  intros Hu g'. unfold committed, aborted, undecided in *. simpl. destruct (decide (g' = g)) as [->|Hne].
  - destruct (phase s !! g) as [[ws0 acked|ws0 b]|]; [|done|]; (split; [intros (ws & H & _)|intros (ws & H)]; congruence).
  - by rewrite lookup_insert_ne.
Qed.

(** The participants stay. *)
Lemma member_other s g p sv g' :
  (∀ q, phase s !! g = Some q → servers_of p = servers_of q) →
  member s sv g' → member (s <| phase ::= <[g := p]> |>) sv g'.
Proof.
  intros Hq (q & Hp & Hin). unfold member. simpl. destruct (decide (g' = g)) as [->|Hne].
  - exists p. rewrite lookup_insert_eq. split; [done|]. by rewrite (Hq q).
  - exists q. by rewrite lookup_insert_ne.
Qed.

Lemma grows_phase s g p : undecided s g → grows s (s <| phase ::= <[g := p]> |>).
Proof.
  intros Hu. split; [|..|done|done].
  - intros sv g'. apply (decided_other s g p sv Hu g').
  - intros g'. apply (decided_other s g p 0 Hu g').
Qed.

(** A step of an undecided transaction that does not commit it. *)
Lemma inv_phase s g p :
  inv s → undecided s g → (∀ q, phase s !! g = Some q → servers_of p = servers_of q) →
  (∀ ws, p ≠ Decided ws true) →
  (∀ ws acked, p = Active ws acked → g ∈ inprogress s ∧ ∀ sv, sv ∈ acked → (sv, g) ∈ answered s) →
  inv (s <| phase ::= <[g := p]> |>).
Proof.
  intros Hi Hu Hq Hn Ha. assert (∀ sv g', committed (s <| phase ::= <[g := p]> |>) sv g' → committed s sv g') as Hback.
  { intros sv g' (ws & H & Hin). simpl in H. apply lookup_insert_Some in H as [[_ Hp]|[_ H]]; [by destruct (Hn ws)|]. by exists ws. }
  assert (∀ sv g', member s sv g' → member (s <| phase ::= <[g := p]> |>) sv g') as Hm by (intros; by apply member_other).
  pose proof (grows_phase s g p Hu) as Hg. destruct Hi. split; simpl.
  - intros sv g' H. destruct (i_answered0 _ _ H). split; [by apply Hm|done].
  - done.
  - intros sv g' H. by apply Hm, i_finished0.
  - intros sv g' H. by apply Hg, i_true0.
  - intros sv g' H. destruct (i_false0 _ _ H); [by left|right; by apply Hg].
  - intros g' ws acked sv. rewrite lookup_insert_Some. intros [[<- Hp]|[_ H]]; [by apply (Ha ws)|by eapply i_acked0].
  - intros sv g' H. by apply i_committed0, Hback.
  - intros g' ws acked. rewrite lookup_insert_Some. intros [[<- Hp]|[_ H]]; [by apply (Ha ws acked)|by eapply i_inprogress0].
  - intros sv g' H. by apply Hg, i_records0.
  - done.
  - by apply (cleaners_grow s _ Hg eq_refl).
Qed.

Lemma inv_inprogress s b : inv s → inprogress s ⊆ b → inv (s <| inprogress := b |>).
Proof. intros [] Hb. split; try done. simpl. intros g ws acked H. by eapply Hb, i_inprogress0. Qed.

Lemma inv_begin s g ws :
  inv s → phase s !! g = None → inv (s <| phase ::= <[g := Active ws ∅]> |> <| inprogress ::= λ x, x ∪ {[g]} |>).
Proof.
  intros Hi Hp. assert (inv (s <| inprogress := inprogress s ∪ {[g]} |>)) as Hi' by (apply inv_inprogress; [done|set_solver]).
  change (inv ((s <| inprogress := inprogress s ∪ {[g]} |>) <| phase ::= <[g := Active ws ∅]> |>)). apply inv_phase; [done| | |done|].
  - unfold undecided. simpl. by rewrite Hp.
  - simpl. by rewrite Hp.
  - intros ws' acked [= <- <-]. simpl. split; [set_solver|]. intros sv Hsv. by apply not_elem_of_empty in Hsv.
Qed.

Lemma inv_ack s g ws acked sv :
  inv s → phase s !! g = Some (Active ws acked) → (sv, g) ∈ answered s →
  inv (s <| phase ::= <[g := Active ws (acked ∪ {[sv]})]> |>).
Proof.
  intros Hi Hp Hans. apply inv_phase; [done|by unfold undecided; rewrite Hp|by rewrite Hp; intros q [= <-]|done|].
  intros ws' acked' [= <- <-]. split; [by eapply i_inprogress|]. intros sv'. rewrite elem_of_union, elem_of_singleton.
  intros [H|<-]; [by eapply i_acked|done].
Qed.

Lemma inv_abort s g ws acked :
  inv s → phase s !! g = Some (Active ws acked) → inv (s <| phase ::= <[g := Decided ws false]> |>).
Proof. intros Hi Hp. apply inv_phase; [done|by unfold undecided; rewrite Hp|by rewrite Hp; intros q [= <-]|done|done]. Qed.

Lemma inv_commit s g ws acked :
  inv s → phase s !! g = Some (Active ws acked) → ws ⊆ acked →
  inv (s <| phase ::= <[g := Decided ws true]> |> <| records ::= λ x, x ∪ set_map (λ sv, (sv, g)) ws |>).
Proof.
  intros Hi Hp Hws. set (s' := s <| phase ::= _ |> <| records ::= _ |>).
  assert (undecided s g) as Hu by (unfold undecided; by rewrite Hp).
  assert (grows s s') as Hg by (destruct (grows_phase s g (Decided ws true) Hu); by split).
  assert (∀ sv g', member s sv g' → member s' sv g') as Hm
    by (intros sv g' H; apply (member_other s g (Decided ws true)); [by rewrite Hp; intros q [= <-]|done]).
  assert (∀ sv g', committed s' sv g' → (g' = g ∧ sv ∈ ws) ∨ committed s sv g') as Hback.
  { intros sv g' (ws' & H & Hin). simpl in H. apply lookup_insert_Some in H as [[<- [= <-]]|[_ H]]; [by left|right; by exists ws']. }
  assert (∀ sv, (sv, g) ∈ set_map (C := gset Z) (D := gset (Z * string)) (λ sv, (sv, g)) ws ↔ sv ∈ ws) as Hset.
  { intros sv. rewrite elem_of_map. split; [by intros (x & [= ->] & Hx)|]. intros H. by exists sv. }
  destruct Hi. split; simpl.
  - intros sv g' H. destruct (i_answered0 _ _ H). split; [by apply Hm|done].
  - done.
  - intros sv g' H. by apply Hm, i_finished0.
  - intros sv g' H. by apply Hg, i_true0.
  - intros sv g' H. destruct (i_false0 _ _ H); [by left|right; by apply Hg].
  - intros g' ws' acked' sv. rewrite lookup_insert_Some. intros [[_ Hx]|[_ H]]; [done|by eapply i_acked0].
  - intros sv g' [[-> Hin]|H]%Hback.
    + split; [eapply i_acked0; [done|by apply Hws]|]. left. apply elem_of_union. right. by apply Hset.
    + destruct (i_committed0 _ _ H) as [? [?|?]]; (split; [done|]); [left; apply elem_of_union; by left|by right].
  - intros g' ws' acked'. rewrite lookup_insert_Some. intros [[_ Hx]|[_ H]]; [done|by eapply i_inprogress0].
  - intros sv g' [H|H]%elem_of_union; [by apply Hg, i_records0|]. apply elem_of_map in H as (x & [= -> ->] & Hx).
    exists ws. simpl. by rewrite lookup_insert_eq.
  - done.
  - by apply (cleaners_grow s _ Hg eq_refl).
Qed.

Lemma inv_prepare s g p sv :
  inv s → phase s !! g = Some p → sv ∈ servers_of p → (sv, g) ∉ prepared s → finished s !! (sv, g) = None →
  inv (s <| answered ::= λ x, x ∪ {[(sv, g)]} |> <| prepared ::= λ x, x ∪ {[(sv, g)]} |>).
Proof.
  intros Hi Hp Hin Hnp Hnf. set (s' := s <| answered ::= _ |> <| prepared ::= _ |>).
  assert (grows s s') as Hg by (split; [done|done|done|simpl; set_solver]).
  destruct Hi. split; simpl; try done.
  - intros sv' g' [H|[= -> ->]%elem_of_singleton]%elem_of_union.
    + destruct (i_answered0 _ _ H) as [? [?|?]]; (split; [done|]); [left; apply elem_of_union; by left|by right].
    + split; [by exists p|]. left. apply elem_of_union. right. by apply elem_of_singleton.
  - intros sv' g' [H|[= -> ->]%elem_of_singleton]%elem_of_union.
    + destruct (i_prepared0 _ _ H). split; [apply elem_of_union; by left|done].
    + split; [apply elem_of_union; right; by apply elem_of_singleton|done].
  - intros sv' g' H. destruct (i_false0 _ _ H) as [Hn|?]; [|by right]. left. intros [?|[= -> ->]%elem_of_singleton]%elem_of_union; [done|congruence].
  - intros g' ws acked sv' H Ha. apply elem_of_union. left. by eapply i_acked0.
  - intros sv' g' H. destruct (i_committed0 _ _ H). split; [apply elem_of_union; by left|done].
  - by apply (cleaners_grow s _ Hg eq_refl).
Qed.

Lemma inv_refuse s g p sv :
  inv s → phase s !! g = Some p → sv ∈ servers_of p → (sv, g) ∉ prepared s → finished s !! (sv, g) = None →
  inv (s <| finished ::= <[(sv, g) := false]> |>).
Proof.
  intros Hi Hp Hin Hnp Hnf. set (s' := s <| finished ::= _ |>).
  assert (∀ sv' g', over s sv' g' → over s' sv' g') as Hov.
  { intros sv' g' H. unfold over. simpl. destruct (decide ((sv', g') = (sv, g))) as [->|Hne]; [by rewrite lookup_insert_eq|by rewrite lookup_insert_ne]. }
  assert (grows s s') as Hg by by split.
  assert ((sv, g) ∉ answered s) as Hna.
  { intros H. destruct (i_answered _ Hi _ _ H) as [_ [?|[b Hb]]]; [done|congruence]. }
  destruct Hi. split; simpl; try done.
  - intros sv' g' H. destruct (i_answered0 _ _ H) as [? [?|?]]; (split; [done|]); [by left|right; by apply Hov].
  - intros sv' g' H. destruct (i_prepared0 _ _ H). split; [done|]. rewrite lookup_insert_ne; [done|]. intros [= -> ->]. done.
  - intros sv' g' [b Hb]. simpl in Hb. apply lookup_insert_Some in Hb as [[[= <- <-] _]|[_ Hb]]; [by exists p|]. apply i_finished0. by exists b.
  - intros sv' g'. rewrite lookup_insert_Some. intros [[_ Hx]|[_ H]]; [done|by apply i_true0].
  - intros sv' g'. rewrite lookup_insert_Some. intros [[[= <- <-] _]|[_ H]]; [by left|by apply i_false0].
  - intros sv' g' H. destruct (i_committed0 _ _ H) as [? [?|?]]; auto.
  - intros sv' g' H. by apply Hov, i_deletions0.
  - by apply (cleaners_grow s _ Hg eq_refl).
Qed.

Lemma inv_clear s b : inv s → (∀ g ws acked, phase s !! g = Some (Active ws acked) → g ∈ b) → inv (s <| inprogress := b |>).
Proof. intros [] Hb. by split. Qed.

Lemma inv_delete s sv g : inv s → (sv, g) ∈ deletions s →
  inv (s <| records ::= λ x, x ∖ {[(sv, g)]} |> <| deletions ::= λ x, x ∖ {[(sv, g)]} |>).
Proof.
  intros Hi Hd. pose proof (i_deletions _ Hi _ _ Hd) as Hov. destruct Hi. split; simpl; try done.
  - intros sv' g' H. destruct (i_committed0 _ _ H) as [? [Hr|?]]; (split; [done|]); [|by right].
    destruct (decide ((sv', g') = (sv, g))) as [[= -> ->]|Hne]; [by right|]. left. apply elem_of_difference.
    split; [done|by apply not_elem_of_singleton].
  - intros sv' g' [H _]%elem_of_difference. by apply i_records0.
  - intros sv' g' [H _]%elem_of_difference. by apply i_deletions0.
Qed.

Lemma inv_drop s sv g : inv s → over s sv g → inv (s <| deletions ::= λ d, d ∪ {[(sv, g)]} |>).
Proof.
  intros [] Ho. split; try done. simpl. intros sv' g' [H|[= -> ->]%elem_of_singleton]%elem_of_union; [by apply i_deletions0|done].
Qed.

(** *** The cleanup *)

Lemma grows_finish s sv g commit : grows s (finish sv g commit s).
Proof.
  split; try done. intros sv' g' H. unfold over. simpl.
  destruct (decide ((sv', g') = (sv, g))) as [->|Hne]; [by rewrite lookup_insert_eq|by rewrite lookup_insert_ne].
Qed.

Lemma inv_act s sv g a next :
  inv s → cleaner_ok s sv next →
  match a with
  | Leave => True
  | CommitPrepared => committed s sv g
  | RollbackPrepared => aborted s g ∨ over s sv g
  | DropRecord => over s sv g
  end → inv (act sv g a next s).
Proof.
  intros Hi Hn Ha.
  assert (∀ commit ws, phase s !! g = Some (Decided ws commit) → (sv, g) ∈ prepared s →
    inv ((finish sv g commit s) <| cleaners ::= <[sv := next]> |>)) as Hfin.
  { intros commit ws Hp Hin. apply inv_cleaner; [by eapply inv_finish|]. by eapply cleaner_grows; [apply grows_finish|]. }
  destruct a; unfold act.
  - by apply inv_cleaner.
  - destruct (decide _) as [Hin|Hin]; [|by apply inv_cleaner_gone]. destruct Ha as (ws & Hp & _). by eapply Hfin.
  - destruct (decide _) as [Hin|Hin]; [|by apply inv_cleaner_gone].
    destruct Ha as [[ws Hp]|[b Hb]]; [by eapply Hfin|]. destruct (i_prepared _ Hi _ _ Hin). congruence.
  - apply inv_cleaner; [by apply inv_drop|]. eapply cleaner_grows; [|exact Hn]. by split.
Qed.

Lemma in_set l g : IsTransactionInSet l g = true ↔ g ∈ l.
Proof. unfold IsTransactionInSet. by rewrite bool_decide_eq_true. Qed.
Lemma not_in_set l g : IsTransactionInSet l g = false ↔ g ∉ l.
Proof. unfold IsTransactionInSet. by rewrite bool_decide_eq_false. Qed.
Lemma in_erase l g g' : g' ∈ HashSetErase l g ↔ g' ∈ l ∧ g' ≠ g.
Proof. unfold HashSetErase. rewrite list_elem_of_filter. tauto. Qed.

Lemma inv_record s sv setA setB g setC setD :
  inv s → cleaner_ok s sv (Records setA setB (g :: setC) setD) →
  let a := record_action (IsTransactionInSet setA g) (IsTransactionInSet setB g) (IsTransactionInSet setD g) in
  inv (act sv g a (Records (after_record a setA g) setB setC setD) s).
Proof.
  intros Hi [Hrec Hleft] a. destruct (Hrec g) as [Hcom Hfin]; [by left|].
  assert (∀ x, x ∈ setC → committed s sv x ∧ (x ∉ setD → over s sv x)) as Hrec' by (intros x Hx; apply Hrec; by right).
  assert (∀ x, x ∈ after_record a setA g → x ∉ setB → x ∉ setC → aborted s x ∨ over s sv x) as Hleft'.
  { intros x Hx HB HC. assert (x ∈ setA) as HA by (destruct a; simpl in Hx; [done|by apply in_erase in Hx as [? _]..]).
    destruct (decide (x = g)) as [->|Hne]; [|apply Hleft; [done|done|by apply not_elem_of_cons]].
    assert (a = Leave) as Ea by (destruct a; [done|by apply in_erase in Hx as [_ ?]..]).
    unfold a, record_action in Ea. rewrite (proj2 (not_in_set setB g) HB), (proj2 (in_set setA g) HA) in Ea.
    destruct (IsTransactionInSet setD g); done. }
  apply inv_act; [done|by split|]. unfold a, record_action.
  destruct (IsTransactionInSet setB g); [done|]. destruct (IsTransactionInSet setD g) eqn:ED.
  - by destruct (IsTransactionInSet setA g).
  - apply not_in_set in ED. rewrite !andb_false_r. by apply Hfin.
Qed.

Lemma inv_prepared s sv g setA setB :
  inv s → cleaner_ok s sv (Leftovers (g :: setA) setB) →
  inv (act sv g (prepared_action (IsTransactionInSet setB g)) (Leftovers setA setB) s).
Proof.
  intros Hi Hl. apply inv_act; [done|intros x Hx; apply Hl; by right|].
  unfold prepared_action. destruct (IsTransactionInSet setB g) eqn:EB; [done|]. apply not_in_set in EB. apply Hl; [by left|done].
Qed.

Lemma inv_sets s s' sv c c' : inv s → cleaners s !! sv = Some c → s' = s <| cleaners ::= <[sv := c']> |> →
  (cleaner_ok s sv c → cleaner_ok s sv c') → inv s'.
Proof. intros Hi Hc -> H. apply inv_cleaner; [done|]. by apply H, (i_cleaners _ Hi). Qed.

Lemma inv_init : inv init.
Proof.
  split; unfold over, committed; simpl; intros;
    repeat match goal with
    | H : _ ∈ ∅ |- _ => by apply not_elem_of_empty in H
    | H : is_Some _ |- _ => destruct H as [? H]
    | H : ∃ _, _ |- _ => destruct H as (? & H & _)
    | H : ∅ !! _ = Some _ |- _ => by rewrite lookup_empty in H
    end.
Qed.

Lemma inv_cstep sv s s' : cstep sv s s' → inv s → inv s'.
Proof.
  intros Hst Hi. destruct Hst as [s setA Hc HA|s setA setB Hc HB|s setA setB setC Hc HC|s setA setB setC setD Hc HD
    |s setA setB g setC setD a Hc ->|s setA setB setD Hc|s g setA setB Hc|s|s g Hd].
  - apply inv_cleaner; [done|]. intros g Hg. by apply HA, i_prepared in Hg as [? _].
  - eapply inv_sets; [done|done|done|]. intros HsA g Hg Hn. rewrite HB in Hn.
    destruct (i_answered _ Hi _ _ (HsA g Hg)) as [([ws acked|ws []] & Hp & Hin) _]; [|left; by exists ws|right; by exists ws].
    destruct Hn. by eapply i_inprogress.
  - eapply inv_sets; [done|done|done|]. intros HAB. split; [intros g Hg; by apply HC, i_records in Hg|].
    intros g Hg Hb Hn. destruct (HAB g Hg Hb) as [Hcm|?]; [|by left]. right.
    destruct (i_committed _ Hi _ _ Hcm) as [_ [Hr|?]]; [|done]. by apply HC in Hr.
  - eapply inv_sets; [done|done|done|]. intros [HC HA]. split; [|done]. intros g Hg. split; [by apply HC|].
    intros Hn. destruct (i_committed _ Hi _ _ (HC g Hg)) as [Hans _].
    destruct (i_answered _ Hi _ _ Hans) as [_ [Hp|?]]; [|done]. by apply HD in Hp.
  - by apply inv_record, (i_cleaners _ Hi).
  - eapply inv_sets; [done|done|done|]. intros [_ HA] g Hg HB. apply HA; [done|done|]. apply not_elem_of_nil.
  - by apply inv_prepared, (i_cleaners _ Hi).
  - by apply inv_cleaner_gone.
  - by apply inv_delete.
Qed.

Lemma tp_inv_step s s' : step s s' → inv s → inv s'.
Proof.
  intros Hst Hi. destruct Hst as [| | | | | | | |s Hno|].
  - by apply inv_begin.
  - by eapply inv_prepare.
  - by eapply inv_refuse.
  - by eapply inv_ack.
  - by eapply inv_commit.
  - by eapply inv_abort.
  - by eapply inv_finish.
  - apply (inv_clear s); [done|]. intros g' ws' acked Hp. apply elem_of_difference. split; [by eapply i_inprogress|].
    apply not_elem_of_singleton. intros ->. congruence.
  - assert (inv (s <| inprogress := ∅ |>)) as Hi' by (apply inv_clear; [done|]; intros g ws acked Hp; by destruct (Hno g ws acked)).
    destruct Hi'. by split.
  - by eapply inv_cstep.
Qed.

Lemma tp_inv_reachable s : reachable s → inv s.
Proof. induction 1; [apply inv_init|by eapply tp_inv_step]. Qed.

(** ** Refinement *)

Lemma sim_same s s' :
  phase s' = phase s → finished s' = finished s → prepared s' = prepared s → tsteps (abs s) (abs s').
Proof. intros Hp Hf Hr. apply ts_refl. intros g r. unfold abs, participant. by rewrite Hp, Hf, Hr. Qed.

Lemma tsteps_one f f' : tcommit f f' → tsteps f f'.
Proof. intros H. eapply ts_step; [exact H|]. by apply ts_refl. Qed.

Lemma abs_some s g p sv : phase s !! g = Some p → sv ∈ servers_of p → abs s g (Some sv) = Some (participant s sv g).
Proof. intros Hp Hin. unfold abs. by rewrite Hp, decide_True. Qed.

(** A change of the part of one server. *)
Lemma abs_only s s' sv g :
  phase s' = phase s → (∀ k, k ≠ (sv, g) → finished s' !! k = finished s !! k) →
  (∀ k, k ≠ (sv, g) → k ∈ prepared s' ↔ k ∈ prepared s) → only g (Some sv) (abs s) (abs s').
Proof.
  intros Hp Hf Hr g' r' Hne. unfold abs. rewrite Hp. destruct (phase s !! g') as [p|]; [|done]. destruct r' as [sv'|]; [|done].
  destruct (decide (sv' ∈ servers_of p)); [|done]. f_equal. unfold participant.
  assert ((sv', g') ≠ (sv, g)) as Hk by congruence. rewrite Hf by done.
  destruct (finished s !! (sv', g')) as [[]|]; [done|done|]. pose proof (Hr _ Hk).
  destruct (decide ((sv', g') ∈ prepared s')), (decide ((sv', g') ∈ prepared s)); tauto.
Qed.

Lemma not_committed s g ws acked b :
  inv s → phase s !! g = Some (Active ws acked) ∨ (phase s !! g = Some (Decided ws b) ∧ b = false) → notCommitted (abs s) g.
Proof.
  intros Hi Hp r. unfold abs. destruct (phase s !! g) as [p|] eqn:E; [|done]. destruct r as [sv|].
  - destruct (decide (sv ∈ servers_of p)); [|done]. unfold participant. destruct (finished s !! (sv, g)) as [[]|] eqn:Ef; [|done|by destruct (decide _)].
    destruct (i_true _ Hi _ _ Ef) as (ws' & Hp' & _). rewrite Hp' in E. destruct Hp as [?|[? ?]]; congruence.
  - destruct Hp as [[= ->]|[[= ->] ->]]; done.
Qed.

Lemma can_commit s g ws : inv s → phase s !! g = Some (Decided ws true) → canCommit (abs s) g.
Proof.
  intros Hi Hp r x. unfold abs. rewrite Hp. destruct r as [sv|]; [|intros [= <-]; by right].
  simpl. destruct (decide (sv ∈ ws)) as [Hin|]; [|done]. intros [= <-]. unfold participant.
  destruct (i_committed _ Hi sv g) as [Hans _]; [by exists ws|].
  destruct (finished s !! (sv, g)) as [[]|] eqn:Ef; [by right| |].
  - destruct (i_false _ Hi _ _ Ef) as [?|[ws' Hp']]; [done|congruence].
  - destruct (i_answered _ Hi _ _ Hans) as [_ [Hpr|[b Hb]]]; [|congruence]. left. by rewrite decide_True.
Qed.

Lemma sim_finish s s' sv g commit ws :
  inv s → phase s !! g = Some (Decided ws commit) → (sv, g) ∈ prepared s →
  phase s' = phase s → finished s' = finished (finish sv g commit s) → prepared s' = prepared (finish sv g commit s) →
  tsteps (abs s) (abs s').
Proof.
  intros Hi Hp Hin Hp' Hf Hr. apply tsteps_one. destruct (i_prepared _ Hi _ _ Hin) as [Hans Hnone].
  destruct (i_answered _ Hi _ _ Hans) as [(p & Hpp & Hsv) _].
  assert (only g (Some sv) (abs s) (abs s')) as Ho.
  { apply abs_only; [done| |].
    - intros k Hk. rewrite Hf. simpl. by rewrite lookup_insert_ne.
    - intros k Hk. rewrite Hr. simpl. rewrite elem_of_difference, not_elem_of_singleton. tauto. }
  assert (abs s g (Some sv) = Some Prepared) as Hbefore.
  { rewrite (abs_some s g p sv) by done. unfold participant. by rewrite Hnone, decide_True. }
  assert (abs s' g (Some sv) = Some (if commit then Committed else Aborted)) as Hafter.
  { rewrite (abs_some s' g p sv) by (by rewrite ?Hp'). unfold participant. rewrite Hf. simpl. rewrite lookup_insert_eq. by destruct commit. }
  destruct commit.
  - eapply t_commit; [done|by eapply can_commit|done|done].
  - eapply t_abort; [by right|eapply (not_committed _ _ ws ∅ false); [done|by right]|done|done].
Qed.

Lemma sim_act s sv g a next :
  inv s →
  match a with
  | CommitPrepared => committed s sv g
  | RollbackPrepared => aborted s g ∨ over s sv g
  | _ => True
  end → tsteps (abs s) (abs (act sv g a next s)).
Proof.
  intros Hi Ha. destruct a; unfold act; [by apply sim_same| | |by apply sim_same];
    (destruct (decide _) as [Hin|Hin]; [|by apply sim_same]).
  - destruct Ha as (ws & Hp & _). by eapply (sim_finish _ _ sv g true).
  - destruct Ha as [[ws Hp]|[b Hb]]; [by eapply (sim_finish _ _ sv g false)|]. destruct (i_prepared _ Hi _ _ Hin). congruence.
Qed.

Lemma sim_begin s g ws : inv s → phase s !! g = None →
  tsteps (abs s) (abs (s <| phase ::= <[g := Active ws ∅]> |> <| inprogress ::= λ x, x ∪ {[g]} |>)).
Proof.
  intros Hi Hp. apply tsteps_one. eapply (t_begin _ _ g).
  - intros r. unfold abs. by rewrite Hp.
  - intros r x. unfold abs. simpl. rewrite lookup_insert_eq. destruct r as [sv|]; [|by intros [= <-]]. simpl.
    destruct (decide (sv ∈ ws)); [|done]. intros [= <-]. unfold participant. simpl.
    destruct (finished s !! (sv, g)) as [b|] eqn:Ef.
    + destruct (i_finished _ Hi sv g) as (p & Hp' & _); [by exists b|congruence].
    + destruct (decide _) as [Hin|]; [|done]. destruct (i_prepared _ Hi _ _ Hin) as [Hans _].
      destruct (i_answered _ Hi _ _ Hans) as [(p & Hp' & _) _]. congruence.
  - intros g' r Hne. unfold abs. simpl. by rewrite lookup_insert_ne.
Qed.

Lemma sim_refuse s g p sv :
  inv s → phase s !! g = Some p → sv ∈ servers_of p → (sv, g) ∉ prepared s → finished s !! (sv, g) = None →
  tsteps (abs s) (abs (s <| finished ::= <[(sv, g) := false]> |>)).
Proof.
  intros Hi Hp Hin Hnp Hnf. apply tsteps_one. apply (t_abort _ _ g (Some sv)).
  - left. rewrite (abs_some s g p sv) by done. unfold participant. by rewrite Hnf, decide_False.
  - destruct p as [ws acked|ws []].
    + eapply (not_committed _ _ ws acked false); [done|by left].
    + destruct (i_committed _ Hi sv g) as [Hans _]; [by exists ws|].
      destruct (i_answered _ Hi _ _ Hans) as [_ [?|[b Hb]]]; [done|congruence].
    + eapply (not_committed _ _ ws ∅ false); [done|by right].
  - rewrite (abs_some _ g p sv) by done. unfold participant. simpl. by rewrite lookup_insert_eq.
  - apply abs_only; [done| |done]. intros k Hk. simpl. by rewrite lookup_insert_ne.
Qed.

Lemma sim_prepare s g p sv :
  phase s !! g = Some p → sv ∈ servers_of p → (sv, g) ∉ prepared s → finished s !! (sv, g) = None →
  tsteps (abs s) (abs (s <| answered ::= λ x, x ∪ {[(sv, g)]} |> <| prepared ::= λ x, x ∪ {[(sv, g)]} |>)).
Proof.
  intros Hp Hin Hnp Hnf. apply tsteps_one. apply (t_prepare _ _ g (Some sv)).
  - rewrite (abs_some s g p sv) by done. unfold participant. by rewrite Hnf, decide_False.
  - rewrite (abs_some _ g p sv) by done. unfold participant. simpl. rewrite Hnf, decide_True; [done|].
    apply elem_of_union. right. by apply elem_of_singleton.
  - apply abs_only; [done|done|]. intros k Hk. simpl. rewrite elem_of_union, elem_of_singleton. tauto.
Qed.

(** The coordinator's own part changes. *)
Lemma abs_coordinator s s' g p p' :
  phase s !! g = Some p → servers_of p' = servers_of p → phase s' = <[g := p']> (phase s) →
  finished s' = finished s → prepared s' = prepared s → only g None (abs s) (abs s').
Proof.
  intros Hp Hs Hp' Hf Hr g' r' Hne. unfold abs, participant. rewrite Hp', Hf, Hr. destruct (decide (g' = g)) as [->|Hg].
  - rewrite lookup_insert_eq, Hp. destruct r' as [sv|]; [by rewrite Hs|congruence].
  - by rewrite lookup_insert_ne.
Qed.

Lemma sim_commit s g ws acked :
  inv s → phase s !! g = Some (Active ws acked) → ws ⊆ acked →
  tsteps (abs s) (abs (s <| phase ::= <[g := Decided ws true]> |> <| records ::= λ x, x ∪ set_map (λ sv, (sv, g)) ws |>)).
Proof.
  intros Hi Hp Hws. set (s' := s <| phase ::= _ |> <| records ::= _ |>).
  set (f1 := λ g' (r' : RM), if decide ((g', r') = (g, None)) then Some Prepared else abs s g' r').
  assert (only g None (abs s) (abs s')) as Ho by by apply (abs_coordinator s s' g (Active ws acked) (Decided ws true)).
  eapply (ts_step _ f1); [apply (t_prepare _ _ g None)|eapply tsteps_one, (t_commit _ _ g None)].
  - unfold abs. by rewrite Hp.
  - unfold f1. by rewrite decide_True.
  - intros g' r' Hne. unfold f1. by rewrite decide_False.
  - unfold f1. by rewrite decide_True.
  - intros r x. unfold f1. destruct (decide _) as [_|Hne]; [intros [= <-]; by left|]. unfold abs. rewrite Hp.
    destruct r as [sv|]; [|by destruct Hne]. simpl. destruct (decide (sv ∈ ws)) as [Hin|]; [|done]. intros [= <-].
    assert ((sv, g) ∈ answered s) as Hans by (eapply i_acked; [done|done|by apply Hws]). unfold participant.
    destruct (finished s !! (sv, g)) as [[]|] eqn:Ef; [by right| |].
    + destruct (i_false _ Hi _ _ Ef) as [?|[ws' Hp']]; [done|congruence].
    + destruct (i_answered _ Hi _ _ Hans) as [_ [Hpr|[b Hb]]]; [|congruence]. left. by rewrite decide_True.
  - unfold abs. simpl. by rewrite lookup_insert_eq.
  - intros g' r' Hne. unfold f1. rewrite decide_False by done. by apply Ho.
Qed.

Lemma sim_abort s g ws acked :
  inv s → phase s !! g = Some (Active ws acked) → tsteps (abs s) (abs (s <| phase ::= <[g := Decided ws false]> |>)).
Proof.
  intros Hi Hp. apply tsteps_one, (t_abort _ _ g None).
  - left. unfold abs. by rewrite Hp.
  - eapply (not_committed _ _ ws acked false); [done|by left].
  - unfold abs. simpl. by rewrite lookup_insert_eq.
  - by apply (abs_coordinator s _ g (Active ws acked) (Decided ws false)).
Qed.

Lemma sim_ack s g ws acked sv :
  phase s !! g = Some (Active ws acked) → tsteps (abs s) (abs (s <| phase ::= <[g := Active ws (acked ∪ {[sv]})]> |>)).
Proof.
  intros Hp. apply ts_refl. intros g' r. unfold abs. simpl. destruct (decide (g' = g)) as [->|Hne].
  - by rewrite lookup_insert_eq, Hp.
  - by rewrite lookup_insert_ne.
Qed.

Lemma sim_cstep sv s s' : inv s → cstep sv s s' → tsteps (abs s) (abs s').
Proof.
  intros Hi Hst. destruct Hst as [| | | |s setA setB g setC setD a Hc ->| |s g setA setB Hc| |]; try by apply sim_same.
  - apply sim_act; [done|]. destruct (i_cleaners _ Hi _ _ Hc) as [Hrec _].
    destruct (Hrec g) as [Hcm _]; [by left|]. unfold record_action.
    by destruct (IsTransactionInSet setB g), (IsTransactionInSet setA g), (IsTransactionInSet setD g).
  - apply sim_act; [done|]. unfold prepared_action. destruct (IsTransactionInSet setB g) eqn:EB; [done|].
    apply not_in_set in EB. apply (i_cleaners _ Hi _ _ Hc); [by left|done].
Qed.

(** (C2) Two-phase commit with the cleanup implements atomic commitment: every
    step of a coordinator, a server, a restart or a cleanup that decides on
    sets it has read one after another while all the others go on, is a
    sequence of steps of the specification. *)
Theorem two_phase_refines_commit s s' : reachable s → step s s' → tsteps (abs s) (abs s').
Proof.
  intros Hr Hst. pose proof (tp_inv_reachable s Hr) as Hi. destruct Hst.
  - by apply sim_begin.
  - by eapply sim_prepare.
  - by eapply sim_refuse.
  - by apply sim_ack.
  - by eapply sim_commit.
  - by eapply sim_abort.
  - by eapply sim_finish.
  - by apply sim_same.
  - by apply sim_same.
  - by eapply sim_cstep.
Qed.

(** (C13) Atomicity, in every reachable state: a server that has committed its
    part of a transaction took part in one that the coordinator committed; no
    server rolls back a part it had prepared of a transaction the coordinator
    committed; and a record is dropped only after the server's part is over. *)
Theorem two_phase_atomic s : reachable s → ∀ sv g,
  (finished s !! (sv, g) = Some true → committed s sv g) ∧
  (committed s sv g → finished s !! (sv, g) ≠ Some false) ∧
  (committed s sv g → finished s !! (sv, g) = None → (sv, g) ∈ prepared s ∧ (sv, g) ∈ records s).
Proof.
  intros Hr sv g. pose proof (tp_inv_reachable s Hr) as Hi. split; [apply i_true, Hi|]. split.
  - intros Hc Hf. destruct (i_committed _ Hi _ _ Hc) as [Hans _].
    destruct (i_false _ Hi _ _ Hf) as [?|[ws Hp]]; [done|]. destruct Hc as (ws' & Hp' & _). congruence.
  - intros Hc Hn. destruct (i_committed _ Hi _ _ Hc) as [Hans [Hrec|[b Hb]]]; [|congruence].
    destruct (i_answered _ Hi _ _ Hans) as [_ [?|[b Hb]]]; [done|congruence].
Qed.

(** ** A cleanup that is not disturbed *)

Lemma act_done sv g a next s :
  (a = CommitPrepared ∨ a = RollbackPrepared) → (sv, g) ∈ prepared s →
  cleaners (act sv g a next s) !! sv = Some next ∧
  finished (act sv g a next s) = <[(sv, g) := bool_decide (a = CommitPrepared)]> (finished s) ∧
  prepared (act sv g a next s) = prepared s ∖ {[(sv, g)]}.
Proof.
  intros [-> | ->] Hin; unfold act; rewrite decide_True by done; simpl; rewrite lookup_insert_eq; done.
Qed.

Lemma act_kept sv g a next s :
  (a = Leave ∨ a = DropRecord) →
  cleaners (act sv g a next s) !! sv = Some next ∧ finished (act sv g a next s) = finished s ∧
  prepared (act sv g a next s) = prepared s.
Proof. intros [-> | ->]; unfold act; simpl; by rewrite lookup_insert_eq. Qed.

Lemma minus_other (k k' : Z * string) (l : gset (Z * string)) : k ≠ k' → k ∈ l ∖ {[k']} ↔ k ∈ l.
Proof. intros Hne. rewrite elem_of_difference, not_elem_of_singleton. tauto. Qed.

(** The part of [sv] in [x] is as it was. *)
Definition untouched (s s' : Global) (sv : Z) (x : string) : Prop :=
  finished s' !! (sv, x) = finished s !! (sv, x) ∧ ((sv, x) ∈ prepared s' ↔ (sv, x) ∈ prepared s).

Lemma run_records sv setB setC setD s setA :
  cleaners s !! sv = Some (Records setA setB setC setD) → NoDup setC → (∀ x, x ∈ setA → x ∈ setD) →
  (∀ x, x ∈ setC → x ∈ setA → (sv, x) ∈ prepared s) →
  ∃ s' setA', rtc (cstep sv) s s' ∧ cleaners s' !! sv = Some (Records setA' setB [] setD) ∧ sublist setA' setA ∧
    (∀ x, x ∈ setC → x ∈ setA → x ∉ setB → finished s' !! (sv, x) = Some true ∧ x ∉ setA') ∧
    (∀ x, x ∉ setC → (x ∈ setA → x ∈ setA') ∧ untouched s s' sv x).
Proof.
  revert s setA. induction setC as [|g setC IH]; intros s setA Hc Hnd HAD Hpr.
  { exists s, setA. split; [apply rtc_refl|]. split; [done|]. split; [done|]. split; [|done].
    intros x Hx. by apply not_elem_of_nil in Hx. }
  apply NoDup_cons in Hnd as [Hg Hnd].
  set (a := record_action (IsTransactionInSet setA g) (IsTransactionInSet setB g) (IsTransactionInSet setD g)).
  set (s1 := act sv g a (Records (after_record a setA g) setB setC setD) s).
  assert (cstep sv s s1) as Hst by by eapply cl_record.
  assert (sublist (after_record a setA g) setA) as Hsub by (destruct a; simpl; [done|apply sublist_filter..]).
  assert (∀ x, x ∈ setA → x ≠ g → x ∈ after_record a setA g) as Hkeep.
  { intros x Hx Hne. destruct a; simpl; [done|by apply in_erase..]. }
  assert (cleaners s1 !! sv = Some (Records (after_record a setA g) setB setC setD) ∧
    (∀ x, x ≠ g → untouched s s1 sv x) ∧
    (g ∈ setA → g ∉ setB → finished s1 !! (sv, g) = Some true ∧ g ∉ after_record a setA g)) as (Hc1 & Hun & Hgf).
  { destruct (decide (g ∈ setA ∧ g ∉ setB)) as [[HA HB]|HAB].
    - assert (a = CommitPrepared) as Ea.
      { unfold a, record_action. rewrite (proj2 (not_in_set setB g) HB), (proj2 (in_set setA g) HA).
        by rewrite (proj2 (in_set setD g) (HAD g HA)). }
      destruct (act_done sv g a (Records (after_record a setA g) setB setC setD) s) as (H1 & H2 & H3);
        [by left|apply Hpr; [by left|done]|].
      split; [done|]. split.
      + intros x Hne. unfold untouched, s1. rewrite H2, H3, lookup_insert_ne by congruence. split; [done|]. apply minus_other. congruence.
      + intros _ _. unfold s1. rewrite H2, lookup_insert_eq, Ea. split; [done|]. simpl. rewrite in_erase. tauto.
    - assert (a = Leave ∨ a = DropRecord) as Ea.
      { unfold a, record_action. destruct (IsTransactionInSet setB g) eqn:EB; [by left|]. apply not_in_set in EB.
        assert (g ∉ setA) as HA by tauto. rewrite (proj2 (not_in_set setA g) HA). simpl.
        destruct (IsTransactionInSet setD g); auto. }
      destruct (act_kept sv g a (Records (after_record a setA g) setB setC setD) s Ea) as (H1 & H2 & H3).
      split; [done|]. split; [intros x _; unfold untouched, s1; by rewrite H2, H3|tauto]. }
  destruct (IH s1 (after_record a setA g)) as (s' & setA' & Hrun & Hc' & Hsub' & Hdone & Hrest); [done|done| | |].
  { intros x Hx. by eapply HAD, elem_of_sublist. }
  { intros x Hx HA. apply Hun; [by intros ->|]. apply Hpr; [by right|by eapply elem_of_sublist]. }
  exists s', setA'. split; [by eapply rtc_l|]. split; [done|]. split; [by etrans|]. split.
  - intros x [->|Hx]%elem_of_cons HA HB.
    + destruct (Hgf HA HB) as [Hf Hna]. destruct (Hrest g Hg) as [_ [Hf' _]]. rewrite Hf'. split; [done|].
      intros Hx. by apply Hna, (elem_of_sublist setA').
    + apply Hdone; [done| |done]. apply Hkeep; [done|]. by intros ->.
  - intros x [Hne Hx]%not_elem_of_cons. destruct (Hrest x Hx) as [HA' [Hf Hp]]. destruct (Hun x Hne) as [Hf1 Hp1].
    split; [intros HA; by apply HA', Hkeep|]. split; [congruence|tauto].
Qed.

Lemma run_leftovers sv setB setA s :
  cleaners s !! sv = Some (Leftovers setA setB) → NoDup setA → (∀ x, x ∈ setA → x ∉ setB → (sv, x) ∈ prepared s) →
  ∃ s', rtc (cstep sv) s s' ∧ (∀ x, x ∈ setA → x ∉ setB → finished s' !! (sv, x) = Some false) ∧
    (∀ x, x ∉ setA → untouched s s' sv x).
Proof.
  revert s. induction setA as [|g setA IH]; intros s Hc Hnd Hpr.
  { exists s. split; [apply rtc_refl|]. split; [|done]. intros x Hx. by apply not_elem_of_nil in Hx. }
  apply NoDup_cons in Hnd as [Hg Hnd]. set (a := prepared_action (IsTransactionInSet setB g)).
  set (s1 := act sv g a (Leftovers setA setB) s). assert (cstep sv s s1) as Hst by by eapply cl_prepared.
  assert (cleaners s1 !! sv = Some (Leftovers setA setB) ∧ (∀ x, x ≠ g → untouched s s1 sv x) ∧
    (g ∉ setB → finished s1 !! (sv, g) = Some false)) as (Hc1 & Hun & Hgf).
  { destruct (decide (g ∈ setB)) as [HB|HB].
    - assert (a = Leave) as Ea by (unfold a, prepared_action; by rewrite (proj2 (in_set setB g) HB)).
      destruct (act_kept sv g a (Leftovers setA setB) s) as (H1 & H2 & H3); [by left|].
      split; [done|]. split; [intros x _; unfold untouched, s1; by rewrite H2, H3|done].
    - assert (a = RollbackPrepared) as Ea by (unfold a, prepared_action; by rewrite (proj2 (not_in_set setB g) HB)).
      destruct (act_done sv g a (Leftovers setA setB) s) as (H1 & H2 & H3); [by right|apply Hpr; [by left|done]|].
      split; [done|]. split.
      + intros x Hne. unfold untouched, s1. rewrite H2, H3, lookup_insert_ne by congruence. split; [done|]. apply minus_other. congruence.
      + intros _. unfold s1. by rewrite H2, lookup_insert_eq, Ea. }
  destruct (IH s1) as (s' & Hrun & Hdone & Hrest); [done|done| |].
  { intros x Hx HB. apply Hun; [by intros ->|]. apply Hpr; [by right|done]. }
  exists s'. split; [by eapply rtc_l|]. split.
  - intros x [->|Hx]%elem_of_cons HB; [|by apply Hdone]. destruct (Hrest g Hg) as [-> _]. by apply Hgf.
  - intros x [Hne Hx]%not_elem_of_cons. destruct (Hrest x Hx) as [Hf Hp]. destruct (Hun x Hne) as [Hf1 Hp1].
    split; [congruence|tauto].
Qed.

(** The gids of a server in a set of pairs. *)
Definition gids_of (sv : Z) (l : gset (Z * string)) : list string := remove_dups (filter (λ k, k.1 = sv) (elements l)).*2.

Lemma gids_of_elem sv l g : g ∈ gids_of sv l ↔ (sv, g) ∈ l.
Proof.
  unfold gids_of. rewrite elem_of_remove_dups, list_elem_of_fmap. split.
  - intros ([sv' g'] & -> & [Hk Hin]%list_elem_of_filter). simpl in *. subst. by apply elem_of_elements.
  - intros Hin. exists (sv, g). split; [done|]. apply list_elem_of_filter. split; [done|by apply elem_of_elements].
Qed.

(** (C39) A cleanup of a server that runs without interference finishes every
    transaction that is prepared there and no longer in progress, the way the
    coordinator decided it. *)
Theorem cleanup_finishes s sv g :
  reachable s → cleaners s !! sv = None → (sv, g) ∈ prepared s → g ∉ inprogress s →
  ∃ s' ws commit, rtc (cstep sv) s s' ∧ phase s !! g = Some (Decided ws commit) ∧ finished s' !! (sv, g) = Some commit.
Proof.
  intros Hr Hcl Hp Hn. pose proof (tp_inv_reachable s Hr) as Hi. destruct (i_prepared _ Hi _ _ Hp) as [Hans Hnone].
  destruct (i_answered _ Hi _ _ Hans) as [(p & Hph & Hsv) _].
  set (setA := gids_of sv (prepared s)). set (setB := elements (inprogress s)). set (setC := gids_of sv (records s)).
  set (s1 := s <| cleaners ::= <[sv := HasA setA]> |> <| cleaners ::= <[sv := HasAB setA setB]> |>
               <| cleaners ::= <[sv := HasABC setA setB setC]> |> <| cleaners ::= <[sv := Records setA setB setC setA]> |>).
  assert (rtc (cstep sv) s s1) as Hrun1.
  { eapply rtc_l; [apply (cl_A sv s setA); [done|intros x; apply gids_of_elem]|].
    eapply rtc_l; [apply (cl_B sv _ setA setB); [apply lookup_insert_eq|intros x; apply elem_of_elements]|].
    eapply rtc_l; [apply (cl_C sv _ setA setB setC); [apply lookup_insert_eq|intros x; apply gids_of_elem]|].
    apply rtc_once. apply (cl_D sv _ setA setB setC setA); [apply lookup_insert_eq|intros x; apply gids_of_elem]. }
  assert (g ∈ setA) as HgA by by apply gids_of_elem. assert (g ∉ setB) as HgB by by unfold setB; rewrite elem_of_elements.
  destruct (run_records sv setB setC setA s1 setA) as (s2 & setA' & Hrun2 & Hc2 & Hsub & Hdone & Hrest);
    [apply lookup_insert_eq|apply NoDup_remove_dups|done|by intros x _ Hx; apply gids_of_elem in Hx|].
  destruct p as [ws acked|ws commit]; [by destruct Hn; eapply i_inprogress|]. destruct commit.
  - exists s2, ws, true. split; [by etrans|]. split; [done|]. apply Hdone; [|done|done].
    destruct (i_committed _ Hi sv g) as [_ [Hrec|[b Hb]]]; [by exists ws|by apply gids_of_elem|congruence].
  - assert (g ∉ setC) as HgC.
    { unfold setC. rewrite gids_of_elem. intros Hrec. destruct (i_records _ Hi _ _ Hrec) as (ws' & Hx & _). congruence. }
    destruct (run_leftovers sv setB setA' (s2 <| cleaners ::= <[sv := Leftovers setA' setB]> |>)) as (s3 & Hrun3 & Hfin & _).
    + apply lookup_insert_eq.
    + eapply sublist_NoDup; [|exact Hsub]. apply NoDup_remove_dups.
    + intros x Hx HB. assert (x ∈ setA) as HA by by eapply elem_of_sublist. simpl.
      destruct (decide (x ∈ setC)) as [HC|HC]; [by destruct (Hdone x HC HA HB)|].
      destruct (Hrest x HC) as [_ [_ Hpx]]. apply Hpx. by apply gids_of_elem.
    + exists s3, ws, false. split; [|split; [done|]].
      * etrans; [exact Hrun1|]. etrans; [exact Hrun2|]. eapply rtc_l; [by eapply cl_rest|done].
      * apply Hfin; [by apply (Hrest g HgC)|done].
Qed.

(** ** Examples *)
Module TwoPhaseWitness.
Definition gid : string := "cuckoo_xact_7:0:T".

(** The transaction takes part on servers 1 and 2, server 1 prepares, the
    coordinator gives up without having told server 1. *)
Definition w1 : Global := init <| phase ::= <[gid := Active {[1; 2]} ∅]> |> <| inprogress ::= λ x, x ∪ {[gid]} |>.
Definition w2 : Global := w1 <| answered ::= λ x, x ∪ {[(1, gid)]} |> <| prepared ::= λ x, x ∪ {[(1, gid)]} |>.
Definition w3 : Global := w2 <| phase ::= <[gid := Decided {[1; 2]} false]> |>.
Definition w4 : Global := w3 <| inprogress ::= λ x, x ∖ {[gid]} |>.

Lemma step1 : step init w1.
Proof. by apply st_begin. Defined.
Lemma step2 : step w1 w2.
Proof.
  apply (st_prepare w1 gid (Active {[1; 2]} ∅) 1); [reflexivity|..|reflexivity].
  - by apply (bool_decide_unpack (1 ∈ ({[1; 2]} : gset Z))).
  - apply (bool_decide_unpack ((1, gid) ∉ (∅ : gset (Z * string)))). by vm_compute.
Defined.
Lemma step3 : step w2 w3.
Proof. by apply (st_abort w2 gid {[1; 2]} ∅). Defined.
Lemma step4 : step w3 w4.
Proof. by apply (st_clear w3 gid {[1; 2]} false). Defined.
Lemma reach4 : reachable w4.
Proof. repeat (eapply reach_step; [|first [apply step4|apply step3|apply step2|apply step1]]). apply reach_init. Defined.

Lemma two_phase_refines_commit_witness : tsteps (abs w3) (abs w4).
Proof.
  apply two_phase_refines_commit; [|exact step4].
  repeat (eapply reach_step; [|first [apply step3|apply step2|apply step1]]). apply reach_init.
Defined.

(** Both servers prepare and answer, and the coordinator commits. *)
Definition v3 : Global := w2 <| answered ::= λ x, x ∪ {[(2, gid)]} |> <| prepared ::= λ x, x ∪ {[(2, gid)]} |>.
Definition v4 : Global := v3 <| phase ::= <[gid := Active {[1; 2]} (∅ ∪ {[1]})]> |>.
Definition v5 : Global := v4 <| phase ::= <[gid := Active {[1; 2]} (∅ ∪ {[1]} ∪ {[2]})]> |>.
Definition v6 : Global :=
  v5 <| phase ::= <[gid := Decided {[1; 2]} true]> |> <| records ::= λ x, x ∪ set_map (λ sv, (sv, gid)) ({[1; 2]} : gset Z) |>.

Lemma committing_run : reachable v6.
Proof.
  apply (reach_step v5), (st_commit v5 gid {[1; 2]} (∅ ∪ {[1]} ∪ {[2]})); [|reflexivity|set_solver].
  apply (reach_step v4), (st_ack v4 gid {[1; 2]} (∅ ∪ {[1]}) 2); [|reflexivity|by apply (bool_decide_unpack ((2, gid) ∈ answered v4))].
  apply (reach_step v3), (st_ack v3 gid {[1; 2]} ∅ 1); [|reflexivity|by apply (bool_decide_unpack ((1, gid) ∈ answered v3))].
  apply (reach_step w2), (st_prepare w2 gid (Active {[1; 2]} ∅) 2); [|reflexivity| | |reflexivity].
  - repeat (eapply reach_step; [|first [apply step2|apply step1]]). apply reach_init.
  - by apply (bool_decide_unpack (2 ∈ ({[1; 2]} : gset Z))).
  - apply (bool_decide_unpack ((2, gid) ∉ prepared w2)). by vm_compute.
Qed.

Lemma two_phase_atomic_witness : (2, gid) ∈ prepared v6 ∧ (2, gid) ∈ records v6.
Proof.
  destruct (two_phase_atomic v6 committing_run 2 gid) as (_ & _ & Hlive). apply Hlive; [|reflexivity].
  exists {[1; 2]}. split; [reflexivity|by apply (bool_decide_unpack (2 ∈ ({[1; 2]} : gset Z)))].
Defined.

(** The cleanup rolls server 1 back. *)
Lemma cleanup_finishes_witness :
  ∃ s' ws commit, rtc (cstep 1) w4 s' ∧ phase w4 !! gid = Some (Decided ws commit) ∧ finished s' !! (1, gid) = Some commit.
Proof.
  apply cleanup_finishes; [exact reach4|reflexivity| |].
  - by apply (bool_decide_unpack ((1, gid) ∈ prepared w4)).
  - by apply (bool_decide_unpack (gid ∉ inprogress w4)).
Defined.
End TwoPhaseWitness.
