(* ===== verification/RemoteWitness.v ===== *)
(** * Concrete runs with other servers

    A network in which every server answers at once, and a coordinator (server
    0) with the servers 1 and 2. *)

From S2P Require Import Prelude Pg ForeignServer RemoteComm RemoteSpec.

(** ** A network that keeps, for each connection, the results still to be
    fetched with their statements and whether the null pointer after a result is
    due, and the statements whose success was reported *)
Module LibpqRef.
#[local] Obligation Tactic := idtac.
Section libpq.
Context (D : Type) (answer : Query D → PGresult D).

Definition conn : Type := nat * string * Z.
Definition queued : Type := list (option (Query D) * PGresult D) * bool.
Record network := mkNetwork { next : nat; queues : gmap conn queued; log : list (conn * Query D) }.

Definition queue (c : conn) (n : network) : queued := default ([], false) (queues n !! c).
Definition set_queue (c : conn) (q : queued) (n : network) : network :=
  mkNetwork (next n) (<[c := q]> (queues n)) (log n).
Definition enqueue (c : conn) (q : option (Query D)) (r : PGresult D) (n : network) : network :=
  set_queue c ((queue c n).1 ++ [(q, r)], (queue c n).2) n.
Definition note (c : conn) (q : option (Query D)) (r : PGresult D) (n : network) : network :=
  match q, PQresultStatus r with
  | Some q, (PGRES_COMMAND_OK | PGRES_TUPLES_OK) => mkNetwork (next n) (queues n) ((c, q) :: log n)
  | _, _ => n
  end.

Definition get (c : conn) (n : network) : option (PGresult D) * network :=
  let '(l, due) := queue c n in
  if due then (None, set_queue c (l, false) n)
  else match l with [] => (None, n) | (q, r) :: l' => (Some r, note c q r (set_queue c (l', true) n)) end.

Program Instance libpq_ref : Libpq D := {|
  PGconn := conn;
  net := network;
  PQconnectStart h p u n := ((next n, h, p), mkNetwork (S (next n)) (queues n) (log n));
  PQstatus c n := CONNECTION_OK;
  PQconnectPoll c n := n;
  hostaddr c := c.1.2;
  port_of c := c.2;
  PQfinish c n := n;
  PQenterPipelineMode c n := (true, n);
  PQsendQuery c q n := (true, enqueue c (Some q) (answer q) n);
  PQpipelineSync c n := (true, enqueue c None (mkPGresult PGRES_PIPELINE_SYNC []) n);
  PQgetResult := get;
|}.
Next Obligation. done. Qed.
Next Obligation. done. Qed.

Lemma queue_set c c' q n : queue c (set_queue c' q n) = if decide (c = c') then q else queue c n.
Proof.
  unfold queue, set_queue. simpl. destruct (decide (c = c')) as [->|Hne]; [by rewrite lookup_insert_eq|by rewrite lookup_insert_ne].
Qed.

Lemma queue_note c c' q r n : queue c (note c' q r n) = queue c n.
Proof. unfold note. by destruct q, (PQresultStatus r). Qed.

Lemma queue_enqueue_ne c c' q r n : c ≠ c' → queue c (enqueue c' q r n) = queue c n.
Proof. intros Hne. unfold enqueue. by rewrite queue_set, decide_False. Qed.

Lemma queue_get c c' n : c ≠ c' → queue c (get c' n).2 = queue c n.
Proof.
  intros Hne. unfold get. destruct (queue c' n) as [[|[q r] l] []]; simpl; rewrite ?queue_note, ?queue_set, ?decide_False; done.
Qed.

Lemma log_get x c n : x ∈ log n → x ∈ log (get c n).2.
Proof.
  intros Hx. unfold get. destruct (queue c n) as [[|[q r] l] []]; simpl; try done. unfold note.
  destruct q, (PQresultStatus r); simpl; try done; by right.
Qed.

Program Instance libpq_laws : LibpqLaws D := {|
  PGconn_eq_dec := (λ a b : conn, decide (a = b));
  idle c n := queue c n = ([], false);
  unfetched c n := length (queue c n).1;
  awaits c q n := (queue c n).2 = false ∧ ∃ r l, (queue c n).1 = (Some q, r) :: l;
  executed c q n := (c, q) ∈ log n;
|}.
Next Obligation.
  intros c n. cbn [PQgetResult libpq_ref]. unfold get. destruct (queue c n) as [l b] eqn:E. destruct b; cbn [fst snd].
  - rewrite queue_set, decide_True by done. destruct l as [|[q r] l]; [|done]. cbn [fst snd]. intros _ _. by rewrite queue_set, decide_True.
  - destruct l as [|[q r] l]; [|done]. cbn [fst snd]. rewrite E. done.
Qed.
Next Obligation.
  intros c n. cbn [PQgetResult libpq_ref]. unfold get. destruct (queue c n) as [[|[q r] l] []] eqn:E; cbn [fst snd];
    rewrite ?queue_note, ?queue_set, ?decide_True, ?E; simpl; try done; lia.
Qed.
Next Obligation. intros c c' n Hne. cbn [PQgetResult libpq_ref]. by rewrite queue_get. Qed.
Next Obligation. intros c c' q n Hne. cbn [PQsendQuery libpq_ref fst snd]. by rewrite queue_enqueue_ne. Qed.
Next Obligation. intros c c' n Hne. cbn [PQpipelineSync libpq_ref fst snd]. by rewrite queue_enqueue_ne. Qed.
Next Obligation.
  intros c q n. cbn [PQsendQuery libpq_ref fst snd]. intros E _. unfold enqueue. rewrite queue_set, decide_True by done. rewrite E.
  split; [done|]. by eexists _, _.
Qed.
Next Obligation.
  intros c q c' n. cbn [PQpipelineSync libpq_ref fst snd]. unfold enqueue. rewrite queue_set. case_decide as Heq; [|done]. subst c'. cbn [fst snd].
  intros (E & r & l & ->). split; [done|]. by eexists _, _.
Qed.
Next Obligation. intros c q n. cbn [PQgetResult libpq_ref]. unfold get. destruct (queue c n) as [l b]. simpl. by intros (-> & r & l' & ->). Qed.
Next Obligation. intros c c' q q' n Hne. cbn [PQsendQuery libpq_ref fst snd]. by rewrite queue_enqueue_ne. Qed.
Next Obligation. intros c c' q n Hne. cbn [PQgetResult libpq_ref]. by rewrite queue_get. Qed.
Next Obligation.
  intros c q n r. cbn [PQgetResult libpq_ref]. unfold get. destruct (queue c n) as [l b]. simpl. intros (-> & r' & l' & ->). simpl.
  intros [= ->]. unfold note. intros [->| ->]; by left.
Qed.
Next Obligation. intros c q c' n. cbn [PQgetResult libpq_ref]. apply log_get. Qed.
Next Obligation. done. Qed.
Next Obligation. done. Qed.
End libpq.
End LibpqRef.

Module RemoteWitness.
Import PgRef LibpqRef.

Lemma substring_whole s n : (String.length s ≤ n)%nat → String.substring 0 n s = s.
Proof.
  revert n. induction s as [|c s IH]; intros n Hn; [by destruct n|]. destruct n as [|n]; simpl in *; [lia|]. by rewrite IH by lia.
Qed.

#[export] Program Instance text_buffer : TextBuffer := {| text_to_cstring_buffer s n := String.substring 0 (n - 1) s |}.
Next Obligation. intros s n Hn. apply substring_whole. lia. Qed.

Definition answer (q : Query ()) : PGresult () :=
  match q with
  | SELECT_cuckoo_prepare_commands => mkPGresult PGRES_TUPLES_OK [[VText "0"%string]]
  | cs_meta_call _ _ _ => mkPGresult PGRES_TUPLES_OK [[VData ()]]
  | _ => mkPGresult PGRES_COMMAND_OK []
  end.
#[export] Instance libpq_unit : Libpq () := libpq_ref () answer.
#[export] Instance laws_unit : LibpqLaws () := libpq_laws () answer.
#[export] Instance foreign_table : PgRelation fs_server_id Z.le := pg_table fs_server_id Z.le.
#[export] Instance transaction_table : PgRelation dt_key id_text_le := pg_table dt_key id_text_le.

(** ** Servers *)

Definition servers : list FormData_cuckoo_foreign_server :=
  [mkServer 0 "cn" "10.0.0.1" 55500 true "u"; mkServer 1 "w1" "10.0.0.2" 55520 false "u"; mkServer 2 "w2" "10.0.0.3" 55540 false "u"].

Definition f0 : ForeignState (D := ()) :=
  mkForeign (of_rows fs_server_id servers : rel fs_server_id Z.le) [] 0 true [] 0 (-1) "" (mkNetwork () 0 ∅ []).

Lemma GetAllForeignServerId_lists_witness :
  returns (GetAllForeignServerId true false f0) (λ ids _, NoDup ids ∧ ids ≡ₚ server_ids true false (visible (foreign_rel f0))).
Proof.
  eapply returns_mono; [eapply outcome_ok_returns; [|vm_compute; reflexivity]|].
  - apply (GetAllForeignServerId_lists true false f0). apply mirrors_invalid. reflexivity.
  - intros ids s' (_ & _ & Hnd & Hp). split; assumption.
Defined.

Lemma f0_ok : connections_ok f0.
Proof.
  split; [by apply mirrors_invalid|apply NoDup_nil_2|vm_compute; discriminate|]. intros Hi. discriminate Hi.
Qed.

Lemma GetForeignServerConnection_current_witness :
  returns (GetForeignServerConnection 3 [1; 2] f0) (λ _ s', ∃ conn st, find_connection 1 s' = Some (mkConnection _ _ 1 (Some conn) st)).
Proof.
  eapply returns_mono; [eapply outcome_ok_returns; [|vm_compute; reflexivity]|].
  - apply (GetForeignServerConnection_current 3 [1; 2] f0 f0_ok). vm_compute. split; [discriminate|reflexivity].
  - intros ids s' (_ & _ & _ & Hc). destruct (Hc 1) as (conn & st & row & Hf & _); [by left|]. exists conn, st. exact Hf.
Defined.

(** ** Two servers have written *)

Definition w0 : RemoteState (D := ()) :=
  mkRemote (f0 <| ForeignServerShmemCache := servers |> <| ForeignServerShmemCacheInvalid := false |> <| fs_LocalServerId := 0 |>
      <| ForeignServerConnectionManager :=
           [mkConnection _ _ 1 (Some (0%nat, "10.0.0.2"%string, 55520)) CUCKOO_REMOTE_TRANSACTION_BEGIN_FOR_WRITE;
            mkConnection _ _ 2 (Some (1%nat, "10.0.0.3"%string, 55540)) CUCKOO_REMOTE_TRANSACTION_BEGIN_FOR_WRITE] |>)
    (Some [mkCommandData 1 2 []; mkCommandData 2 2 []]) true "" (of_rows dt_key [] : rel dt_key id_text_le) [].

Ltac each_server H := repeat (apply elem_of_cons in H as [->|H]; [|]); [..|by apply not_elem_of_nil in H].

Lemma w0_committing : committing 3 w0 [1; 2].
Proof.
  split.
  - by eexists.
  - apply (bool_decide_eq_true_1 (NoDup _)). vm_compute. reflexivity.
  - split; [reflexivity|reflexivity|apply (bool_decide_eq_true_1 (NoDup _)); vm_compute; reflexivity|].
    intros id Hid. each_server Hid; (eexists _, _; split; [reflexivity|split; [reflexivity|discriminate]]).
  - intros id id' conn st st' Hid Hid'. each_server Hid; each_server Hid'; try done; vm_compute; congruence.
  - intros id conn st Hid. each_server Hid; vm_compute; intros [= <- <-]; lia.
  - discriminate.
Qed.

End RemoteWitness.
