(* ===== verification/DirOpsWitness.v ===== *)
(** * Concrete runs of the sub-operations on directories

    Server 1 of [FileWitness] with one more directory, the empty /b, and
    server 2, which owns the shard of /a/x. *)

From S2P Require Import Prelude Pg Shard RWLock DirHash PathParse Inode Route FileOps FileSpec ReadDir FileWitness.
From S2P Require Import ForeignServer RemoteComm DirOps DirSpec DirCreate.

Module DirOpsWitness.
Import PgRef DirWitness ShardWitness PathWitness FileWitness.

Definition d1 : state :=
  mkDirState (of_rows dir_key [mkDirRow 0 "/" 1; mkDirRow 1 "a" 7; mkDirRow 1 "b" 8] : rel dir_key id_text_le)
    ∅ ∅ (mkRWLocks ∅ [] 0) [] None 0.
Abbreviation D1 := (latest (directory_rel d1)).

Definition pp (name : string) : Z := CombineParentIdWithPartId 7 (HashPartId name).

(** rmdir /b; rename of /b to /c; unlink of /a/g; mkdir /a/d and its row;
    rename of /a/f to /a/x. *)
Definition requests : list MetaProcessInfoData :=
  [blank_info <| mi_parentId := 1 |> <| mi_name := Some "b"%string |>;
   blank_info <| mi_parentId := 1 |> <| mi_name := Some "b"%string |> <| dstParentId := 1 |> <| dstName := Some "c"%string |>
     <| mi_inodeId := 8 |> <| targetIsDirectory := true |>;
   blank_info <| mi_parentId_partId := pp "g" |> <| mi_name := Some "g"%string |>;
   blank_info <| mi_parentId := 7 |> <| mi_name := Some "d"%string |> <| mi_inodeId := 20 |>;
   blank_info <| mi_parentId_partId := pp "c" |> <| mi_name := Some "c"%string |> <| mi_inodeId := 21 |>;
   blank_info <| mi_parentId_partId := pp "f" |> <| mi_name := Some "f"%string |> <| dstName := Some "x"%string |>].

Definition m1 : MetaState := f0 <| ms_path := mkPathState d1 None 0 0 1 |> <| infos := requests |>.

Lemma d1_txn : txn D1 d1.
Proof. apply txn_begin; [apply empty_safe|reflexivity|reflexivity]. Qed.

Lemma d1_real : real_ids D1.
Proof.
  apply real_ids_rows. apply map_Forall_to_list.
  let l := eval vm_compute in (map_to_list D1) in replace (map_to_list D1) with l by (vm_compute; reflexivity).
  repeat (apply Forall_cons; split; [discriminate|]). apply Forall_nil_2.
Qed.

Lemma m1_ok : worker_ok 1 D1 rows3 m1.
Proof.
  destruct f0_ready as [_ Hmap Hlen _ Hinv Hrows Hset Hpres]. split; try assumption; [exact d1_txn|exact d1_real].
Qed.

Ltac fresh_key := let v := fresh in let H := fresh in intros [v H]; by apply not_elem_of_nil in H.

Lemma RmdirSubRmdir_only_empty_witness :
  returns (CuckooRmdirSubRmdirHandle 1 0 m1) (λ _ s', latest (directory_rel (dir_of s')) !! (1, "b"%string) = None).
Proof.
  eapply returns_mono; [eapply outcome_ok_returns; [|vm_compute; reflexivity]|].
  - apply (RmdirSubRmdir_only_empty 1 D1 rows3 m1 0 _ "b" m1_ok eq_refl eq_refl); [fresh_key|fits].
  - intros u s' (_ & _ & _ & _ & _ & _ & Hl & _). rewrite Hl. vm_compute. reflexivity.
Defined.

Lemma RenameSubRenameLocally_moves_witness :
  returns (CuckooRenameSubRenameLocallyHandle 1 1 m1)
    (λ _ s', dirs_of s' !! (1, "b"%string) = None ∧ dirs_of s' !! (1, "c"%string) = Some (mkDirRow 1 "c" 8)).
Proof.
  eapply returns_mono; [eapply outcome_ok_returns; [|vm_compute; reflexivity]|].
  - apply (RenameSubRenameLocally_moves 1 D1 rows3 m1 1 _ "b" "c" m1_ok eq_refl eq_refl eq_refl).
    intros _. split; [vm_compute; split; discriminate|discriminate|fresh_key|fresh_key|fits|fits].
  - intros u s' (_ & _ & _ & _ & Hd). rewrite Hd. split; vm_compute; reflexivity.
Defined.

Lemma RmdirSubUnlink_removes_witness :
  returns (CuckooRmdirSubUnlinkHandle 1 77 2 m1) (λ _ s', cell (db s') 2147483647 (i64 (pp "g"), "g"%string) = None).
Proof.
  destruct (RmdirSubUnlink_removes 1 D1 rows3 m1 2 _ "g" 77 m1_ok f0_one_link eq_refl eq_refl) as (row & Hloc & Hout).
  eapply returns_mono; [eapply outcome_ok_returns; [exact Hout|vm_compute; reflexivity]|].
  intros u s' (_ & _ & Hdb & _). rewrite Hdb. assert (row = mkShard 2147483647 1) as ->.
  { destruct Hloc as [Hf _]. replace (shard_for _ _) with (Some (mkShard 2147483647 1)) in Hf by (vm_compute; reflexivity). by injection Hf. }
  vm_compute. reflexivity.
Defined.

Lemma MkdirSubMkdir_adds_witness :
  returns (CuckooMkdirSubMkdirHandle [3%nat] m1) (λ _ s', dirs_of s' !! (7, "d"%string) = Some (mkDirRow 7 "d" 20)).
Proof.
  eapply returns_mono; [eapply outcome_ok_returns; [|vm_compute; reflexivity]|].
  - eapply (MkdirSubMkdir_adds 1 D1 rows3 m1 [3%nat] _ m1_ok).
    + apply NoDup_singleton.
    + constructor; [reflexivity|constructor].
    + apply NoDup_singleton.
    + constructor; [split; [fits|fresh_key]|constructor].
  - intros u s' [_ _ _ _ Hd _]. rewrite Hd. vm_compute. reflexivity.
Defined.

Lemma MkdirSubCreate_creates_witness :
  returns (CuckooMkdirSubCreateHandle 1 [4%nat] m1)
    (λ _ s', cell (db s') (home rows3 (nth 4 requests blank_info)) (req_key (nth 4 requests blank_info)) = Some (new_row (nth 4 requests blank_info))).
Proof.
  eapply returns_mono; [eapply outcome_ok_returns; [|vm_compute; reflexivity]|].
  - eapply (MkdirSubCreate_creates 1 D1 rows3 m1 [4%nat] [(nth 4 requests blank_info)] m1_ok).
    + apply NoDup_singleton.
    + constructor; [reflexivity|constructor].
  - intros u s' (_ & _ & _ & Hr & _). apply Hr. by left.
Defined.

(** /a/f moves to /a/x, from server 1 to server 2. *)
Definition mA : MetaState := match CuckooRenameSubRenameLocallyHandle 1 5 m1 with Ret _ s => s | _ => m1 end.
Definition y : MetaProcessInfoData := (store_row (file "f" 100 regular) (nth 5 requests blank_info)) <| errorCode := SUCCESS |>.
Definition response : MetaProcessInfoData :=
  default blank_info (SerializedDataMetaResponseEncode_fields RENAME_SUB_RENAME_LOCALLY y).
Definition z : MetaProcessInfoData :=
  default blank_info (SerializedDataMetaParamEncode_fields RENAME_SUB_CREATE
    (response <| mi_parentId_partId := pp "x" |> <| mi_name := Some "x"%string |>)).
Definition mB : MetaState :=
  m1 <| inode_rels := {[ 1431655764 := of_rows inode_key [] : rel inode_key id_text_le ]} |> <| infos := [z] |>.

Lemma mB_ok : worker_ok 2 D1 rows3 mB.
Proof.
  destruct m1_ok as [Ht Hr Hmap Hlen Hinv Hrows _ _]. split; try assumption.
  - intros sid t Hs. change (inode_rels mB) with ({[ 1431655764 := of_rows inode_key [] : rel inode_key id_text_le ]} : gmap Z _) in Hs. apply lookup_singleton_Some in Hs as [_ <-]. reflexivity.
  - intros row Hrow Hl. unfold db. rewrite lookup_fmap.
    apply elem_of_cons in Hrow as [->|Hrow]; [discriminate Hl|].
    apply elem_of_cons in Hrow as [->|Hrow]; [eexists; reflexivity|].
    apply elem_of_cons in Hrow as [->|Hrow]; [discriminate Hl|]. destruct (not_elem_of_nil _ Hrow).
Qed.

Lemma mA_run : CuckooRenameSubRenameLocallyHandle 1 5 m1 = Ret () mA.
Proof.
  assert (is_ret (CuckooRenameSubRenameLocallyHandle 1 5 m1) = true) as Hr by (vm_compute; reflexivity).
  unfold mA. by destruct (CuckooRenameSubRenameLocallyHandle 1 5 m1) as [[] s| | |].
Qed.

Lemma rename_across_servers_witness :
  ∃ row r, owned_row 1 rows3 (db m1) (pp "f") "f" row r ∧
    outcome_ok (CuckooRenameSubCreateHandle 2 0 mB)
      (λ _ sB', ∃ row', located rows3 (pp "x") row' ∧ server_id row' = 2 ∧
         db sB' = put_row (db mB) (range_point row')
           ((renamed r (pp "x") "x") <| it_etag := "" |> <| it_update_version := 0 |> <| it_backup_nodeid := -1 |>))
      (λ e _, e = Cuckoo WRONG_WORKER ∨ e = UniqueViolation) False.
Proof.
  destruct (rename_across_servers 1 2 D1 D1 rows3 m1 mA mB 5 0 (nth 5 requests blank_info) y z "f" "x" (pp "x")
    m1_ok eq_refl eq_refl eq_refl eq_refl ltac:(vm_compute; discriminate) eq_refl mA_run
    ltac:(vm_compute; reflexivity) (ex_intro _ response (conj eq_refl eq_refl)) mB_ok eq_refl) as (row & r & Hown & _ & Hout).
  exact (ex_intro _ row (ex_intro _ r (conj Hown Hout))).
Defined.
End DirOpsWitness.
