(* ===== verification/SerializedData.v ===== *)
(** * The framing of requests and responses
    (remote_connection_def/remote_connection_utils/serialized_data.h)

    A message is a sequence of segments, each preceded by its size in four
    bytes, little endian, and padded to a multiple of four bytes.  The buffer
    grows through a memory manager ([MemoryManager]), or is one the caller got
    from elsewhere and declares the size of. *)

From stdpp Require Import list_numbers.
From S2P Require Import Prelude.
#[local] Open Scope Z_scope.

Definition SERIALIZED_DATA_DEFAULT_CAPACITY : Z := 128.
Definition SERIALIZED_DATA_ALIGNMENT : Z := 4.
Definition SERIALIZED_DATA_ALIGNMENT_MASK : Z := 3.

(** (sd_size_t)-1 *)
Definition SD_INVALID : Z := 2 ^ 32 - 1.

Definition is_byte (b : Z) : Prop := 0 ≤ b < 2 ^ 8.
#[global] Instance is_byte_dec b : Decision (is_byte b).
Proof. unfold is_byte. apply _. Defined.

(** malloc and realloc, or palloc and repalloc: [None] is a null pointer. *)
Class MemoryManager := {
  heap : Type;
  mm_alloc : heap → Z → option (list Z) * heap;
  mm_realloc : heap → list Z → Z → option (list Z) * heap;
  mm_alloc_size h n b h' : mm_alloc h n = (Some b, h') → Z.of_nat (length b) = n ∧ Forall is_byte b;
  mm_realloc_size h b n b' h' : mm_realloc h b n = (Some b', h') → Forall is_byte b →
    Z.of_nat (length b') = n ∧ Forall is_byte b';
  mm_realloc_keeps h b n b' h' : mm_realloc h b n = (Some b', h') → (length b ≤ length b')%nat → b `prefix_of` b' }.

Section serialized_data.
Context `{MM : MemoryManager}.

(** The byte order of the machine: SystemIsLittleEndian(). *)
Variable little : bool.

(** The bytes of the memory behind [buffer] (a null pointer is [None]), what
    the struct says about it, whether it has a memory manager, and the heap. *)
Record SerializedData := mkSD {
  sd_buffer : option (list Z);
  sd_size : Z;
  sd_capacity : Z;
  sd_managed : bool;
  sd_heap : heap }.
#[global] Instance eta_SerializedData : Eta SerializedData := λ d,
  mkSD (sd_buffer d) (sd_size d) (sd_capacity d) (sd_managed d) (sd_heap d).

Abbreviation SD := (M SerializedData).

(** Reading and writing an sd_size_t through a pointer into the buffer. *)
Definition in_host_order (bs : list Z) : list Z := if little then bs else reverse bs.
Definition load (b : list Z) (off : Z) : option Z :=
  if decide (0 ≤ off ∧ off + SERIALIZED_DATA_ALIGNMENT ≤ Z.of_nat (length b))
  then Some (little_endian_to_Z 8 (in_host_order (take 4 (drop (Z.to_nat off) b)))) else None.

(** memcpy out of the buffer, and into it. *)
Definition read (b : list Z) (off n : Z) : option (list Z) :=
  if decide (0 ≤ off ∧ 0 ≤ n ∧ off + n ≤ Z.of_nat (length b)) then Some (take (Z.to_nat n) (drop (Z.to_nat off) b)) else None.
Definition write (b : list Z) (off : Z) (bs : list Z) : option (list Z) :=
  if decide (0 ≤ off ∧ off + Z.of_nat (length bs) ≤ Z.of_nat (length b))
  then Some (take (Z.to_nat off) b ++ bs ++ drop (Z.to_nat off + length bs) b) else None.
Definition store (b : list Z) (off v : Z) : option (list Z) :=
  write b off (in_host_order (Z_to_little_endian 4 8 v)).

Definition ConvertBetweenBigAndLittleEndian (value : Z) : Z :=
  Z.lor (Z.lor (Z.lor (Z.shiftr (Z.land value 0xFF000000) 24) (Z.shiftr (Z.land value 0x00FF0000) 8))
               (Z.shiftl (Z.land value 0x0000FF00) 8))
        (Z.shiftl (Z.land value 0x000000FF) 24).

Definition little_endian (value : Z) : Z := if little then value else ConvertBetweenBigAndLittleEndian value.

(** [None]: it returns false. *)
Definition SerializedDataInit (buffer : option (list Z)) (bufferSize validBytes : Z) (managed : bool) (h : heap)
    : option SerializedData :=
  match buffer with
  | Some b =>
      if decide (Z.land bufferSize SERIALIZED_DATA_ALIGNMENT_MASK ≠ 0 ∨
                 Z.land validBytes SERIALIZED_DATA_ALIGNMENT_MASK ≠ 0) then None
      else Some (mkSD (Some b) validBytes bufferSize managed h)
  | None => Some (mkSD None 0 0 true h)
  end.

Definition SerializedDataClear : SD () := mmodify (λ d, d <| sd_size := 0 |>).

(** while (newCapacity < size) newCapacity *= 2; *)
Fixpoint double_until (fuel : nat) (newCapacity size : Z) : option Z :=
  if decide (newCapacity < size) then
    match fuel with O => None | S fuel' => double_until fuel' (u32 (newCapacity * 2)) size end
  else Some newCapacity.

Definition SerializedDataEnlarge (fuel : nat) (size : Z) : SD bool :=
  d ← mget;
  if decide (size ≤ sd_capacity d) then mret true
  else if sd_managed d then
    match double_until fuel (if decide (sd_capacity d = 0) then SERIALIZED_DATA_DEFAULT_CAPACITY
                             else u32 (sd_capacity d * 2)) size with
    | None => mdiverge
    | Some newCapacity =>
        match (match sd_buffer d with
               | Some b => mm_realloc (sd_heap d) b newCapacity
               | None => mm_alloc (sd_heap d) newCapacity end) with
        | (None, h) => mput (d <| sd_heap := h |>) ;; mret false
        | (Some b, h) =>
            mput (d <| sd_buffer := Some b |> <| sd_capacity := newCapacity |> <| sd_heap := h |>) ;; mret true
        end
    end
  else mret false.

(** The size of a segment, up to the next multiple of the alignment. *)
Definition aligned (size : Z) : Z :=
  u32 (size + Z.land (u64 (u64 (Z.lnot (Z.land size SERIALIZED_DATA_ALIGNMENT_MASK)) + 1)) SERIALIZED_DATA_ALIGNMENT_MASK).

(** The offset of the segment in the buffer, or a null pointer. *)
Definition SerializedDataApplyForSegment (fuel : nat) (size : Z) : SD (option Z) :=
  d ← mget;
  let size := aligned size in
  ok ← SerializedDataEnlarge fuel (u32 (sd_size d + SERIALIZED_DATA_ALIGNMENT + size));
  if negb ok then mret None
  else
    d ← mget;
    match sd_buffer d ≫= λ b, store b (sd_size d) (little_endian size) with
    | None => mundefined
    | Some b =>
        mput (d <| sd_buffer := Some b |> <| sd_size := u32 (sd_size d + SERIALIZED_DATA_ALIGNMENT + size) |>) ;;
        mret (Some (sd_size d + SERIALIZED_DATA_ALIGNMENT))
    end.

(** The valid bytes of a message. *)
Definition valid_bytes (src : SerializedData) : option (list Z) :=
  match sd_buffer src with
  | None => if decide (sd_size src = 0) then Some [] else None
  | Some b => if decide (sd_size src ≤ Z.of_nat (length b)) then Some (take (Z.to_nat (sd_size src)) b) else None
  end.

Definition SerializedDataAppend (fuel : nat) (src : SerializedData) : SD bool :=
  d ← mget;
  ok ← SerializedDataEnlarge fuel (u32 (sd_size d + sd_size src));
  if negb ok then mret false
  else
    d ← mget;
    match valid_bytes src, sd_buffer d with
    | Some [], None => mret true
    | Some bs, Some b =>
        match write b (sd_size d) bs with
        | None => mundefined
        | Some b => mput (d <| sd_buffer := Some b |> <| sd_size := u32 (sd_size d + sd_size src) |>) ;; mret true
        end
    | _, _ => mundefined
    end.

(** The loop of SerializedDataNextSeveralItemSize from the offset [p];
    [None]: the size of an item is read outside the memory. *)
Fixpoint next_items (itemCount : nat) (b : list Z) (size p : Z) : option (option Z) :=
  match itemCount with
  | O => Some (Some p)
  | S itemCount' =>
      itemSize ← load b p;
      let itemSize := little_endian itemSize in
      if decide (Z.land itemSize SERIALIZED_DATA_ALIGNMENT_MASK ≠ 0) then Some None
      else
        let p := p + (SERIALIZED_DATA_ALIGNMENT + itemSize) in
        if decide (p > size) then Some None else next_items itemCount' b size p
  end.

Definition SerializedDataNextSeveralItemSize (d : SerializedData) (start : Z) (itemCount : Z) : option Z :=
  if decide (Z.land start SERIALIZED_DATA_ALIGNMENT_MASK ≠ 0) then Some SD_INVALID
  else
    r ← next_items (Z.to_nat itemCount) (default [] (sd_buffer d)) (sd_size d) start;
    mret (match r with None => SD_INVALID | Some p => u32 (u32 p - start) end).

(** ** The loops of metadb/meta_serialize_interface_helper.cpp

    One segment per item, which the item is copied into; the result of
    SerializedDataApplyForSegment is not tested. *)
Definition put_item (fuel : nat) (item : list Z) : SD () :=
  seg ← SerializedDataApplyForSegment fuel (Z.of_nat (length item));
  match seg with
  | None => mundefined
  | Some off =>
      d ← mget;
      match sd_buffer d ≫= λ b, write b off item with
      | None => mundefined
      | Some b => mput (d <| sd_buffer := Some b |>)
      end
  end.

Definition put_items (fuel : nat) (items : list (list Z)) : SD () := mfor items (put_item fuel).

(** The items of a message from the offset [p] on, each with its padding, or
    [Some None] when the decoder returns false. *)
Fixpoint get_items (count : nat) (d : SerializedData) (p : Z) : option (option (list (list Z))) :=
  match count with
  | O => Some (Some [])
  | S count' =>
      size ← SerializedDataNextSeveralItemSize d p 1;
      if decide (size = SD_INVALID) then Some None
      else
        item ← read (default [] (sd_buffer d)) (p + SERIALIZED_DATA_ALIGNMENT) (size - SERIALIZED_DATA_ALIGNMENT);
        rest ← get_items count' d (u32 (p + size));
        Some (option_map (cons item) rest)
  end.
End serialized_data.

(** ** Bytes *)

Lemma le4 v : Z_to_little_endian 4 8 v = [Z.land v 255; Z.land (v ≫ 8) 255; Z.land (v ≫ 16) 255; Z.land (v ≫ 24) 255].
Proof.
  change 4 with (Z.succ (Z.succ (Z.succ (Z.succ 0)))). rewrite !Z_to_little_endian_succ, Z_to_little_endian_0 by lia.
  by rewrite !Z.shiftr_shiftr by lia.
Qed.

Lemma take_byte v k : 0 ≤ k → Z.land v (255 ≪ k) = Z.land (v ≫ k) 255 ≪ k.
Proof.
  intros Hk. rewrite Z.shiftl_land. apply Z.bits_inj'. intros n Hn. rewrite !Z.land_spec.
  destruct (decide (n < k)); [by rewrite !(Z.shiftl_spec_low _ k n) by lia; rewrite !andb_false_r|].
  f_equal. rewrite Z.shiftl_spec, Z.shiftr_spec by lia. f_equal. lia.
Qed.

Lemma convert_value v : ConvertBetweenBigAndLittleEndian v = little_endian_to_Z 8 (reverse (Z_to_little_endian 4 8 v)).
Proof.
  rewrite le4. unfold ConvertBetweenBigAndLittleEndian.
  change 0xFF000000 with (255 ≪ 24). change 0x00FF0000 with (255 ≪ 16). change 0x0000FF00 with (255 ≪ 8).
  rewrite !take_byte by lia. rewrite !Z.shiftr_shiftl_l, !Z.shiftl_shiftl by lia. simpl.
  rewrite !Z.shiftl_lor, !Z.shiftl_shiftl, Z.lor_0_r by lia.
  by rewrite !Z.lor_assoc, Z.shiftl_0_r.
Qed.

Lemma le4_length v : length (Z_to_little_endian 4 8 v) = 4%nat.
Proof. by rewrite le4. Qed.

Lemma le4_bytes v : Forall is_byte (Z_to_little_endian 4 8 v).
Proof. by apply Z_to_little_endian_bound. Qed.

Lemma le4_value bs : length bs = 4%nat → Forall is_byte bs → Z_to_little_endian 4 8 (little_endian_to_Z 8 bs) = bs.
Proof. intros Hl Hb. apply Z_to_little_endian_to_Z; [by rewrite Hl|lia|done]. Qed.

(** Whatever the byte order of the machine, what is written is little endian,
    and read as such. *)
Lemma wire_order little v : in_host_order little (Z_to_little_endian 4 8 (little_endian little v)) = Z_to_little_endian 4 8 v.
Proof.
  destruct little; [done|]. simpl. rewrite convert_value, le4_value; [by rewrite reverse_involutive|..].
  - by rewrite length_reverse, le4_length.
  - apply Forall_reverse, le4_bytes.
Qed.

Lemma wire_value little bs :
  length bs = 4%nat → Forall is_byte bs → little_endian little (little_endian_to_Z 8 (in_host_order little bs)) = little_endian_to_Z 8 bs.
Proof.
  intros Hl Hb. destruct little; [done|]. simpl. rewrite convert_value, le4_value, reverse_involutive; [done|..].
  - by rewrite length_reverse.
  - by apply Forall_reverse.
Qed.

Lemma land3 z : Z.land z 3 = z mod 4.
Proof. exact (land_ones_mod z 2 ltac:(lia)). Qed.

(** A size rounded up to a multiple of four. *)
Definition pad4 (size : Z) : Z := (size + 3) / 4 * 4.

Lemma pad4_bounds size : size ≤ pad4 size < size + 4.
Proof. unfold pad4. pose proof (Z.div_mod (size + 3) 4). pose proof (Z.mod_pos_bound (size + 3) 4). lia. Qed.

Lemma aligned_eq size : 0 ≤ size → pad4 size < 2 ^ 32 → aligned size = pad4 size.
Proof.
  intros H0 Hs. unfold aligned, SERIALIZED_DATA_ALIGNMENT_MASK. rewrite !land3.
  assert (u64 (u64 (Z.lnot (size mod 4)) + 1) mod 4 = (- size) mod 4) as ->.
  { unfold u64, Z.lnot. rewrite Zplus_mod_idemp_l. change (2 ^ 64) with (4 * 2 ^ 62).
    rewrite Z.rem_mul_r by lia. rewrite Z.mul_comm, Z_mod_plus_full, Zmod_mod.
    pose proof (Z.div_mod size 4). pose proof (Z.mod_pos_bound size 4).
    rewrite <-(Z_mod_plus_full (- size) (size / 4) 4). f_equal. lia. }
  pose proof (pad4_bounds size). unfold pad4, u32 in *.
  pose proof (Z.div_mod (size + 3) 4). pose proof (Z.mod_pos_bound (size + 3) 4). pose proof (Z.div_mod (- size) 4).
  pose proof (Z.mod_pos_bound (- size) 4).
  assert (size + (- size) mod 4 = (size + 3) / 4 * 4) as -> by lia. apply Z.mod_small. lia.
Qed.

Section framing.
Context `{MM : MemoryManager} (little : bool).

(** ** Growing the buffer *)

(** The struct describes the memory it has. *)
Record sd_ok (d : SerializedData) : Prop := {
  ok_buffer : match sd_buffer d with
              | None => sd_capacity d = 0
              | Some b => Z.of_nat (length b) = sd_capacity d ∧ Forall is_byte b end;
  ok_size : 0 ≤ sd_size d ≤ sd_capacity d;
  ok_aligned : (4 | sd_size d);
  ok_capacity : sd_capacity d < 2 ^ 32 }.

Definition content (d : SerializedData) : list Z := take (Z.to_nat (sd_size d)) (default [] (sd_buffer d)).

(** No memory manager, or a null pointer from it. *)
Definition out_of_memory (d : SerializedData) : Prop :=
  sd_managed d = false ∨
  ∃ n, 0 ≤ n ∧ (match sd_buffer d with Some b => mm_realloc (sd_heap d) b n | None => mm_alloc (sd_heap d) n end).1 = None.

Lemma content_length d : sd_ok d → Z.of_nat (length (content d)) = sd_size d.
Proof.
  intros [Hb Hs _ _]. unfold content. rewrite length_take.
  destruct (sd_buffer d) as [b|]; simpl in *; [destruct Hb|]; lia.
Qed.

(** The loop ends for every size up to 2^31: 31 doublings reach it. *)
Lemma double_until_ends fuel c size :
  0 < c < 2 ^ 32 → size ≤ 2 ^ 31 → 2 ^ 31 ≤ c * 2 ^ Z.of_nat fuel →
  ∃ c', double_until fuel c size = Some c' ∧ size ≤ c' < 2 ^ 32 ∧ c ≤ c'.
Proof.
  revert c. induction fuel as [|fuel IH]; intros c Hc Hs Hf; simpl.
  - rewrite decide_False by lia. exists c. split; [done|lia].
  - destruct (decide (c < size)); [|exists c; split; [done|lia]].
    assert (u32 (c * 2) = c * 2) as -> by (apply Z.mod_small; lia).
    destruct (IH (c * 2)) as (c' & -> & ?); [lia|done|rewrite Nat2Z.inj_succ, Z.pow_succ_r in Hf; lia|].
    exists c'. split; [done|lia].
Qed.

(** A larger size is never reached by doubling a power of two: the capacity
    wraps to zero and stays there. *)
Lemma double_until_spins fuel k size : 0 ≤ k → 2 ^ 31 < size → double_until fuel (u32 (2 ^ k)) size = None.
Proof.
  revert k. induction fuel as [|fuel IH]; intros k Hk Hs; simpl.
  all: assert (u32 (2 ^ k) ≤ 2 ^ 31) as Hle
    by (unfold u32; destruct (decide (k < 32));
        [rewrite Z.mod_small; [apply Z.pow_le_mono_r; lia|split; [lia|apply Z.pow_lt_mono_r; lia]]
        |replace (2 ^ k) with (2 ^ (k - 32) * 2 ^ 32) by (rewrite <-Z.pow_add_r by lia; f_equal; lia);
         rewrite Z.mod_mul by lia; lia]).
  - by rewrite decide_True by lia.
  - rewrite decide_True by lia. rewrite <-(IH (Z.succ k)) by lia. f_equal.
    unfold u32. rewrite Zmult_mod_idemp_l, Z.pow_succ_r by lia. f_equal. lia.
Qed.

Lemma memory_grows d n b h :
  sd_ok d → sd_capacity d ≤ n →
  (match sd_buffer d with Some b => mm_realloc (sd_heap d) b n | None => mm_alloc (sd_heap d) n end) = (Some b, h) →
  Z.of_nat (length b) = n ∧ Forall is_byte b ∧ take (Z.to_nat (sd_size d)) b = content d.
Proof.
  intros [Hb Hs _ _] Hn H. unfold content. destruct (sd_buffer d) as [b0|] eqn:E; simpl.
  - destruct Hb as [Hl Hbs]. destruct (mm_realloc_size _ _ _ _ _ H Hbs) as [Hl' Hbs']. split_and!; [done..|].
    destruct (mm_realloc_keeps _ _ _ _ _ H) as [t ->]; [lia|]. rewrite take_app_le by lia. done.
  - destruct (mm_alloc_size _ _ _ _ H). split_and!; [done..|]. assert (sd_size d = 0) as -> by lia. done.
Qed.

Lemma Enlarge_spec fuel size d :
  sd_ok d → size ≤ 2 ^ 31 → (31 ≤ fuel)%nat →
  outcome_ok (SerializedDataEnlarge fuel size d)
    (λ ok d', sd_size d' = sd_size d ∧ sd_managed d' = sd_managed d ∧
       if ok : bool then sd_ok d' ∧ size ≤ sd_capacity d' ∧ content d' = content d
       else d' = d <| sd_heap := sd_heap d' |> ∧ out_of_memory d) (λ _ _, False) False.
Proof.
  intros Hd Hs Hf. unfold SerializedDataEnlarge. mstep. destruct (decide (size ≤ sd_capacity d)); [by split_and!|].
  destruct (sd_managed d) eqn:Em.
  2: { split_and!; [done..|by destruct d|by left]. }
  destruct (double_until_ends fuel (if decide (sd_capacity d = 0) then SERIALIZED_DATA_DEFAULT_CAPACITY
    else u32 (sd_capacity d * 2)) size) as (c & -> & Hc & Hge).
  { pose proof (ok_size d Hd). case_decide; [unfold SERIALIZED_DATA_DEFAULT_CAPACITY; lia|].
    unfold u32. rewrite Z.mod_small; lia. }
  { done. }
  { pose proof (ok_size d Hd). assert (2 ^ 31 ≤ 2 ^ Z.of_nat fuel) by (apply Z.pow_le_mono_r; lia).
    case_decide; [unfold SERIALIZED_DATA_DEFAULT_CAPACITY; lia|]. unfold u32. rewrite Z.mod_small by lia. nia. }
  destruct (match sd_buffer d with Some b => _ | None => _ end) as [[b|] h] eqn:E.
  - destruct (memory_grows d c b h Hd) as (Hl & Hb & Hcon); [lia|done|]. mstep. split; [done|split; [exact Em|]].
    split; [|split; [by simpl; lia|done]]. destruct Hd. split; simpl; [done|lia|done|lia].
  - mstep. split; [done|split; [exact Em|]]. split; [done|]. right. exists c.
    pose proof (ok_size d Hd). split; [lia|by rewrite E].
Qed.

(** ** Segments *)

Lemma write_eq (b : list Z) off bs pre mid post :
  b = pre ++ mid ++ post → off = Z.of_nat (length pre) → length mid = length bs → write b off bs = Some (pre ++ bs ++ post).
Proof.
  intros -> -> Hl. unfold write. rewrite decide_True by (rewrite !length_app; lia). rewrite Nat2Z.id. f_equal.
  rewrite take_app_length, drop_app_ge by lia. f_equal. f_equal.
  rewrite drop_app_ge by lia. by replace (length pre + length bs - length pre - length mid)%nat with 0%nat by lia.
Qed.

(** The memory after the valid bytes, up to the size [n]. *)
Lemma room d n : sd_ok d → 0 ≤ n → sd_size d + n ≤ sd_capacity d → 0 < n →
  ∃ b mid post, sd_buffer d = Some b ∧ b = content d ++ mid ++ post ∧ Z.of_nat (length mid) = n ∧ Forall is_byte b.
Proof.
  intros [Hb Hs _ _] Hn Hcap Hpos. unfold content. destruct (sd_buffer d) as [b|]; simpl in *; [|lia]. destruct Hb as [Hl Hby].
  exists b, (take (Z.to_nat n) (drop (Z.to_nat (sd_size d)) b)), (drop (Z.to_nat n) (drop (Z.to_nat (sd_size d)) b)).
  rewrite !take_drop. split_and!; [done..| |done]. rewrite length_take, length_drop. lia.
Qed.

Definition header (n : Z) : list Z := Z_to_little_endian 4 8 n.

Lemma header_length n : length (header n) = 4%nat.
Proof. apply le4_length. Qed.

(** A segment appended to the valid bytes. *)
Definition extended (d : SerializedData) (bs : list Z) (d' : SerializedData) : Prop :=
  sd_ok d' ∧ sd_managed d' = sd_managed d ∧ content d' = content d ++ bs.

Lemma extend_ok d b bs post :
  sd_ok d → b = content d ++ bs ++ post → Z.of_nat (length b) = sd_capacity d → Forall is_byte b → (4 | Z.of_nat (length bs)) →
  extended d bs (d <| sd_buffer := Some b |> <| sd_size := sd_size d + Z.of_nat (length bs) |>).
Proof.
  intros Hd Hb Hl Hby Hdiv. pose proof (content_length d Hd) as Hc. destruct Hd as [_ Hs Hal Hcap].
  rewrite Hb, !length_app in Hl.
  split; [|split; [done|]].
  - split; simpl; [rewrite Hb, !length_app|lia|by apply Z.divide_add_r|done]. rewrite <-Hb. split; [lia|done].
  - unfold content at 1. simpl. rewrite Hb, app_assoc. apply take_app_length'. rewrite length_app. lia.
Qed.

(** The frame of a segment: its size and its bytes. *)
Definition frame (bs : list Z) : list Z := header (Z.of_nat (length bs)) ++ bs.

Lemma pad4_divide n : (4 | pad4 n).
Proof. unfold pad4. apply Z.divide_factor_r. Qed.

Lemma pad4_nonneg n : 0 ≤ n → 0 ≤ pad4 n.
Proof. pose proof (pad4_bounds n). lia. Qed.

Lemma frame_length bs : Z.of_nat (length (frame bs)) = 4 + Z.of_nat (length bs).
Proof. unfold frame. rewrite length_app, header_length. lia. Qed.

Lemma Apply_spec fuel size d :
  sd_ok d → 0 ≤ size → (31 ≤ fuel)%nat → sd_size d + 4 + pad4 size ≤ 2 ^ 31 →
  outcome_ok (SerializedDataApplyForSegment little fuel size d)
    (λ r d', match r with
       | Some off => off = sd_size d + 4 ∧ ∃ seg, Z.of_nat (length seg) = pad4 size ∧ extended d (frame seg) d'
       | None => d' = d <| sd_heap := sd_heap d' |> ∧ out_of_memory d end) (λ _ _, False) False.
Proof.
  intros Hd H0 Hf Hs. pose proof (pad4_nonneg size H0) as Hp. pose proof (ok_size d Hd).
  unfold SerializedDataApplyForSegment, SERIALIZED_DATA_ALIGNMENT. mstep.
  rewrite aligned_eq by lia.
  assert (u32 (sd_size d + 4 + pad4 size) = sd_size d + 4 + pad4 size) as Hu by (apply Z.mod_small; lia). rewrite Hu.
  eapply outcome_ok_bind; [by apply (Enlarge_spec fuel)|]. intros [] d' (Hsz & Hm & Hok); [|done].
  simpl. mstep. destruct Hok as (Hd' & Hcap & Hcon). rewrite Hsz, Hu.
  destruct (room d' (4 + pad4 size) Hd') as (b & mid & post & Hb & Hsplit & Hlen & Hby); [lia..|]. rewrite Hb. simpl.
  rewrite <-(take_drop 4 mid), <-app_assoc in Hsplit. unfold store. rewrite wire_order.
  rewrite (write_eq b _ _ _ _ _ Hsplit).
  2: { by rewrite content_length. }
  2: { rewrite le4_length, length_take. lia. }
  mstep. split; [done|]. exists (drop 4 mid). assert (Z.of_nat (length (drop 4 mid)) = pad4 size) as Hl by (rewrite length_drop; lia).
  split; [done|]. pose proof Hd' as [Hb' _ _ _]. rewrite Hb in Hb'. destruct Hb' as [Hlb _].
  destruct (extend_ok d' (content d' ++ frame (drop 4 mid) ++ post) (frame (drop 4 mid)) post) as (H1 & H2 & H3); [done..| | | |].
  - rewrite <-Hlb, Hsplit, !length_app, length_take. pose proof (frame_length (drop 4 mid)). lia.
  - rewrite Hsplit, !Forall_app in Hby. destruct Hby as (Hb1 & _ & Hb2 & Hb3).
    unfold frame. rewrite !Forall_app. split_and!; [done|apply le4_bytes|done..].
  - rewrite frame_length, Hl. apply Z.divide_add_r; [by exists 1|apply pad4_divide].
  - rewrite frame_length, Hl, Hsz in H1, H3. unfold extended. unfold frame in *. rewrite Hl in *. rewrite <-app_assoc in *.
    rewrite Hsz in *. rewrite <-Z.add_assoc. rewrite <-Hcon. split_and!; [exact H1|by rewrite <-Hm|exact H3].
Qed.

(** ** Items *)

(** An item as it is in the message: followed by up to three bytes. *)
Definition padded (item bs : list Z) : Prop := item `prefix_of` bs ∧ Z.of_nat (length bs) = pad4 (Z.of_nat (length item)).
Definition wire (l : list (list Z)) : list Z := concat (frame <$> l).
Definition wire_size (items : list (list Z)) : Z := foldr (λ item n, 4 + pad4 (Z.of_nat (length item)) + n) 0 items.

Lemma wire_cons bs l : wire (bs :: l) = frame bs ++ wire l.
Proof. done. Qed.

Lemma wire_length items l : Forall2 padded items l → Z.of_nat (length (wire l)) = wire_size items.
Proof.
  induction 1 as [|item bs items l [_ Hl] _ IH]; [done|].
  rewrite wire_cons, length_app, Nat2Z.inj_add, frame_length, IH. simpl. lia.
Qed.

Lemma wire_size_nonneg items : 0 ≤ wire_size items.
Proof. induction items as [|item items IH]; simpl; [done|]. pose proof (pad4_nonneg (Z.of_nat (length item))). lia. Qed.

(** The memory manager does not return null pointers. *)
Definition never_null : Prop :=
  (∀ h n, 0 ≤ n → (mm_alloc h n).1 ≠ None) ∧ (∀ h b n, 0 ≤ n → (mm_realloc h b n).1 ≠ None).

Lemma put_item_spec fuel item d :
  sd_ok d → sd_managed d = true → never_null → (31 ≤ fuel)%nat → Forall is_byte item →
  sd_size d + 4 + pad4 (Z.of_nat (length item)) ≤ 2 ^ 31 →
  returns (put_item little fuel item d) (λ _ d', ∃ bs, padded item bs ∧ extended d (frame bs) d').
Proof.
  intros Hd Hm [Ha Hr] Hf Hi Hs. unfold put_item.
  pose proof (Apply_spec fuel (Z.of_nat (length item)) d Hd ltac:(lia) Hf Hs) as Happ.
  destruct (SerializedDataApplyForSegment little fuel _ d) as [[off|] d'|?| |] eqn:E; simpl in Happ; [| |done..].
  2: { destruct Happ as [_ [?|(n & H0 & Hn)]]; [congruence|]. exfalso. destruct (sd_buffer d); [by eapply Hr|by eapply Ha]. }
  rewrite (bind_ret _ _ _ _ _ E). mstep. destruct Happ as (-> & seg & Hseg & Hok & Hm' & Hcon).
  pose proof (content_length d' Hok) as Hl'. pose proof (content_length d Hd) as Hl.
  pose proof Hok as [Hb' _ _ _]. destruct (sd_buffer d') as [b|] eqn:Eb.
  2: { unfold content in Hcon. rewrite Eb in Hcon. simpl in Hcon. rewrite take_nil in Hcon.
       apply (f_equal length) in Hcon. rewrite length_app in Hcon. pose proof (frame_length seg). simpl in Hcon. lia. }
  destruct Hb' as [Hlb Hby]. simpl.
  pose proof (pad4_bounds (Z.of_nat (length item))) as Hpad.
  assert (b = (content d ++ header (Z.of_nat (length seg))) ++ take (length item) seg ++ (drop (length item) seg ++ drop (Z.to_nat (sd_size d')) b)) as Hsplit.
  { rewrite (app_assoc (take _ _)), take_drop. rewrite <-!app_assoc. rewrite (app_assoc (header _)). fold (frame seg).
    rewrite app_assoc, <-Hcon. unfold content. rewrite Eb. simpl. by rewrite take_drop. }
  rewrite (write_eq b _ _ _ _ _ Hsplit).
  2: { rewrite length_app, header_length. lia. }
  2: { rewrite length_take. lia. }
  simpl. set (bs := item ++ drop (length item) seg).
  assert (length bs = length seg) as Hbs by (unfold bs; rewrite length_app, length_drop; lia).
  exists bs. split; [split; [by eexists|by rewrite Hbs]|].
  assert (Forall is_byte (frame seg) ∧ Forall is_byte (drop (Z.to_nat (sd_size d')) b)) as [Hfr Hrest].
  { rewrite Hsplit, !Forall_app in Hby. destruct Hby as ((_ & Hh) & Ht & Hdr & Hr'). split; [|done].
    unfold frame. rewrite Forall_app. split; [done|]. rewrite <-(take_drop (length item) seg). by apply Forall_app. }
  apply Forall_app in Hfr as [Hh Hsg].
  split_and!; [| |].
  - destruct Hok as [_ Hs' Hal Hcap]. split; simpl; [|done..].
    rewrite Hsplit, !length_app, length_take in Hlb. rewrite !length_app. split; [lia|].
    rewrite Hsplit, !Forall_app in Hby. rewrite !Forall_app. split_and!; try done; try apply Hby.
    all: try (by apply Forall_drop). 
  - done.
  - unfold content at 1. simpl. rewrite <-(app_assoc (content d)), (app_assoc item), (app_assoc (header _)), app_assoc.
    fold bs. replace (header (Z.of_nat (length seg))) with (header (Z.of_nat (length bs))) by (by rewrite Hbs).
    fold (frame bs). apply take_app_length'. rewrite length_app. pose proof (frame_length bs). pose proof (frame_length seg).
    apply (f_equal length) in Hcon. rewrite length_app in Hcon. lia.
Qed.

Lemma extended_trans d bs d' bs' d'' : extended d bs d' → extended d' bs' d'' → extended d (bs ++ bs') d''.
Proof. intros (_ & Hm & Hc) (Hok & Hm' & Hc'). split_and!; [done|congruence|]. by rewrite Hc', Hc, app_assoc. Qed.

Lemma extended_size d bs d' : sd_ok d → extended d bs d' → sd_size d' = sd_size d + Z.of_nat (length bs).
Proof.
  intros Hd (Hd' & _ & Hc). rewrite <-(content_length d Hd), <-(content_length d' Hd'), Hc, length_app. lia.
Qed.

Lemma put_items_spec fuel items d :
  sd_ok d → sd_managed d = true → never_null → (31 ≤ fuel)%nat → Forall (Forall is_byte) items →
  sd_size d + wire_size items ≤ 2 ^ 31 →
  returns (put_items little fuel items d) (λ _ d', ∃ l, Forall2 padded items l ∧ extended d (wire l) d').
Proof.
  intros Hd Hm Hn Hf Hi. revert d Hd Hm. induction Hi as [|item items Hitem _ IH]; intros d Hd Hm Hs.
  - exists []. split; [done|]. split_and!; [done..|by rewrite app_nil_r].
  - cbn [wire_size foldr] in Hs. fold (wire_size items) in Hs. pose proof (wire_size_nonneg items).
    pose proof (put_item_spec fuel item d Hd Hm Hn Hf Hitem ltac:(lia)) as H1.
    unfold put_items. cbn [mfor]. destruct (put_item little fuel item d) as [u d1|?| |] eqn:E; [|done..].
    rewrite (bind_ret _ _ _ _ _ E). destruct H1 as (bs & Hp & He). pose proof (extended_size _ _ _ Hd He) as Hs1.
    rewrite frame_length in Hs1. destruct Hp as [Hpre Hlen]. pose proof He as (Hd1 & Hm1 & _).
    specialize (IH d1 Hd1 ltac:(congruence) ltac:(lia)). fold (put_items little fuel items).
    eapply returns_mono; [exact IH|]. intros _ d' (l & Hl & He'). exists (bs :: l).
    split; [by constructor|]. rewrite wire_cons. by eapply extended_trans.
Qed.

(** ** Reading a message *)

Lemma load_header b pre n post :
  b = pre ++ header n ++ post → 0 ≤ n < 2 ^ 32 →
  ∃ x, load little b (Z.of_nat (length pre)) = Some x ∧ little_endian little x = n.
Proof.
  intros -> Hn. unfold load. rewrite !length_app, header_length, decide_True by (unfold SERIALIZED_DATA_ALIGNMENT; lia).
  eexists. split; [done|]. rewrite Nat2Z.id, drop_app_length. rewrite take_app_length' by by rewrite header_length.
  rewrite wire_value by first [apply header_length|apply le4_bytes].
  unfold header. rewrite little_endian_to_Z_to_little_endian by lia. by apply Z.mod_small.
Qed.

(** Segments are padded. *)
Definition whole (l : list (list Z)) : Prop := Forall (λ bs, (4 | Z.of_nat (length bs))) l.

Lemma padded_whole items l : Forall2 padded items l → whole l.
Proof. unfold whole. induction 1 as [|item bs items l [_ Hl] _ IH]; constructor; [|done]. rewrite Hl. apply pad4_divide. Qed.

Lemma divide_land z : (4 | z) → ¬ Z.land z SERIALIZED_DATA_ALIGNMENT_MASK ≠ 0.
Proof. intros Hz Hne. apply Hne. unfold SERIALIZED_DATA_ALIGNMENT_MASK. rewrite land3. by apply Z.mod_divide. Qed.

Lemma next_items_wire l b size pre post :
  b = pre ++ wire l ++ post → whole l → Z.of_nat (length (pre ++ wire l)) ≤ size → size < 2 ^ 32 →
  next_items little (length l) b size (Z.of_nat (length pre)) = Some (Some (Z.of_nat (length (pre ++ wire l)))).
Proof.
  revert pre. induction l as [|bs l IH]; intros pre Hb Hw Hs Hu; simpl; [by rewrite app_nil_r|].
  inversion Hw as [|? ? Hbs Hw']; subst. rewrite wire_cons in *. unfold frame in *. rewrite !length_app, header_length in Hs.
  destruct (load_header (pre ++ ((header (Z.of_nat (length bs)) ++ bs) ++ wire l) ++ post) pre (Z.of_nat (length bs))
    (bs ++ wire l ++ post)) as (x & -> & Hx); [by rewrite <-!app_assoc|lia|]. simpl. rewrite Hx.
  rewrite decide_False by by apply divide_land. unfold SERIALIZED_DATA_ALIGNMENT. rewrite decide_False by lia.
  replace (Z.of_nat (length pre) + (4 + Z.of_nat (length bs))) with (Z.of_nat (length (pre ++ header (Z.of_nat (length bs)) ++ bs)))
    by (rewrite !length_app, header_length; lia).
  rewrite IH; [by rewrite <-!app_assoc|by rewrite <-!app_assoc|done| |done].
  rewrite !length_app, header_length. lia.
Qed.

Lemma NextSize_wire d pre l post :
  sd_ok d → content d = pre ++ wire l ++ post → whole l → (4 | Z.of_nat (length pre)) →
  SerializedDataNextSeveralItemSize little d (Z.of_nat (length pre)) (Z.of_nat (length l)) = Some (Z.of_nat (length (wire l))).
Proof.
  intros Hd Hc Hw Hp. pose proof (content_length d Hd) as Hl. pose proof Hd as [_ Hs _ Hcap].
  rewrite Hc, !length_app in Hl.
  unfold SerializedDataNextSeveralItemSize. rewrite decide_False by by apply divide_land. rewrite Nat2Z.id.
  assert (default [] (sd_buffer d) = pre ++ wire l ++ (post ++ drop (Z.to_nat (sd_size d)) (default [] (sd_buffer d)))) as Hb.
  { rewrite (app_assoc (wire l)), (app_assoc pre), <-Hc. unfold content. by rewrite take_drop. }
  rewrite (next_items_wire l _ _ _ _ Hb); [|done|rewrite length_app; lia|lia].
  simpl. f_equal. unfold u32. rewrite length_app. rewrite !Z.mod_small by (rewrite ?Z.mod_small; lia). lia.
Qed.

Lemma wire_one bs : wire [bs] = frame bs.
Proof. apply app_nil_r. Qed.

Lemma get_items_wire d l pre post :
  sd_ok d → content d = pre ++ wire l ++ post → whole l → (4 | Z.of_nat (length pre)) →
  get_items little (length l) d (Z.of_nat (length pre)) = Some (Some l).
Proof.
  intros Hd. revert pre. induction l as [|bs l IH]; intros pre Hc Hw Hp; [done|].
  inversion Hw as [|? ? Hbs Hw']; subst. rewrite wire_cons in Hc. cbn [length get_items].
  pose proof (content_length d Hd) as Hl. pose proof Hd as [_ Hs _ Hcap]. rewrite Hc, !length_app in Hl.
  pose proof (frame_length bs) as Hfl.
  rewrite <-app_assoc in Hc.
  pose proof (NextSize_wire d pre [bs] (wire l ++ post) Hd) as Hn. rewrite wire_one in Hn.
  specialize (Hn Hc ltac:(by constructor) Hp). change (Z.of_nat (length [bs])) with 1 in Hn. rewrite Hn, Hfl. cbn [mbind option_bind].
  rewrite decide_False by (unfold SD_INVALID; intros Heq; destruct Hbs as [k Hk]; lia).
  assert (default [] (sd_buffer d) = (pre ++ header (Z.of_nat (length bs))) ++ bs ++ (wire l ++ post ++ drop (Z.to_nat (sd_size d)) (default [] (sd_buffer d)))) as Hb.
  { rewrite <-app_assoc. rewrite (app_assoc (header _)). fold (frame bs).
    replace (wire l ++ post ++ drop (Z.to_nat (sd_size d)) (default [] (sd_buffer d)))
      with ((wire l ++ post) ++ drop (Z.to_nat (sd_size d)) (default [] (sd_buffer d))) by by rewrite <-app_assoc.
    rewrite (app_assoc (frame bs)), (app_assoc pre), <-Hc. unfold content. by rewrite take_drop. }
  unfold read, SERIALIZED_DATA_ALIGNMENT. rewrite decide_True.
  2: { rewrite Hb, !length_app, header_length. lia. }
  simpl. replace (Z.to_nat (Z.of_nat (length pre) + 4)) with (length (pre ++ header (Z.of_nat (length bs))))
    by (rewrite length_app, header_length; lia).
  replace (Z.to_nat (4 + Z.of_nat (length bs) - 4)) with (length bs) by lia.
  rewrite Hb, drop_app_length, take_app_length.
  replace (u32 (Z.of_nat (length pre) + (4 + Z.of_nat (length bs)))) with (Z.of_nat (length (pre ++ frame bs))).
  2: { rewrite length_app, Nat2Z.inj_add, Hfl. unfold u32. rewrite Z.mod_small; lia. }
  rewrite IH; [done|by rewrite Hc, <-app_assoc|done|].
  rewrite length_app, Nat2Z.inj_add, Hfl. apply Z.divide_add_r; [done|]. apply Z.divide_add_r; [by exists 1|done].
Qed.

(** What is put into a message comes out again: on a machine of either
    byte order, each item is one segment, little endian size first, that
    starts with the item and ends at the next multiple of four bytes; the
    decoder returns these segments, and the size of the items is the size of
    the part of the message they make up.  The buffer has grown as needed;
    messages of up to 2^31 bytes are covered. *)
Theorem items_round_trip fuel items d :
  sd_ok d → sd_managed d = true → never_null → (31 ≤ fuel)%nat → Forall (Forall is_byte) items →
  sd_size d + wire_size items ≤ 2 ^ 31 →
  returns (put_items little fuel items d) (λ _ d', sd_ok d' ∧ ∃ l, Forall2 padded items l ∧
    content d' = content d ++ wire l ∧
    get_items little (length items) d' (sd_size d) = Some (Some l) ∧
    SerializedDataNextSeveralItemSize little d' (sd_size d) (Z.of_nat (length items)) = Some (wire_size items)).
Proof.
  intros Hd Hm Hn Hf Hi Hs. eapply returns_mono; [by apply put_items_spec|].
  intros _ d' (l & Hl & Hd' & _ & Hc). split; [done|]. exists l. split; [done|]. split; [done|].
  rewrite <-(content_length d Hd), (Forall2_length _ _ _ Hl), <-(wire_length _ _ Hl).
  pose proof (padded_whole _ _ Hl) as Hw. pose proof (ok_aligned d Hd) as Hal. rewrite <-(content_length d Hd) in Hal.
  rewrite <-(app_nil_r (wire l)) in Hc. split; [by eapply get_items_wire|by eapply NextSize_wire].
Qed.

(** The capacities that doubling the default one gives. *)
Definition grown (d : SerializedData) : Prop := sd_capacity d = 0 ∨ ∃ k, 0 ≤ k ∧ sd_capacity d = 2 ^ k.

Lemma Enlarge_spins fuel size d :
  sd_managed d = true → grown d → sd_capacity d < size → 2 ^ 31 < size → SerializedDataEnlarge fuel size d = Diverge.
Proof.
  intros Hm Hg Hc Hs. unfold SerializedDataEnlarge. mstep. rewrite decide_False by lia. rewrite Hm.
  assert (∃ k, 0 ≤ k ∧ (if decide (sd_capacity d = 0) then SERIALIZED_DATA_DEFAULT_CAPACITY
    else u32 (sd_capacity d * 2)) = u32 (2 ^ k)) as (k & Hk & ->).
  { case_decide as Hz; [by exists 7|]. destruct Hg as [?|(k & Hk & ->)]; [done|]. exists (Z.succ k). split; [lia|].
    rewrite Z.pow_succ_r by lia. f_equal. lia. }
  by rewrite double_until_spins.
Qed.

(** SerializedDataApplyForSegment.  When the message stays within 2^31
    bytes it ends: it returns a null pointer and leaves the message as it was
    when the buffer cannot grow, and else the offset of a segment of the size
    asked for, rounded up, that lies in the buffer after its size and after
    everything that was in the message.  A message that would be longer, up to
    2^32 bytes, makes it loop forever: the capacity wraps around to zero. *)
Theorem ApplyForSegment_bounds fuel size d :
  sd_ok d → 0 ≤ size → (31 ≤ fuel)%nat →
  (sd_size d + 4 + pad4 size ≤ 2 ^ 31 →
   outcome_ok (SerializedDataApplyForSegment little fuel size d)
     (λ r d', match r with
        | Some off => off = sd_size d + 4 ∧ ∃ seg, Z.of_nat (length seg) = pad4 size ∧ sd_ok d' ∧
                        content d' = content d ++ Z_to_little_endian 4 8 (pad4 size) ++ seg
        | None => d' = d <| sd_heap := sd_heap d' |> ∧ out_of_memory d end) (λ _ _, False) False) ∧
  (2 ^ 31 < sd_size d + 4 + pad4 size < 2 ^ 32 → sd_managed d = true → grown d →
   sd_capacity d < sd_size d + 4 + pad4 size →
   SerializedDataApplyForSegment little fuel size d = Diverge).
Proof.
  intros Hd H0 Hf. split.
  - intros Hs. eapply outcome_ok_mono; [by apply Apply_spec| |done..].
    intros [off|] d'; [|done]. intros (-> & seg & Hl & Hok & _ & Hc). split; [done|]. exists seg. rewrite <-Hl. done.
  - intros Hs Hm Hg Hc. pose proof (pad4_nonneg size H0). pose proof (ok_size d Hd).
    unfold SerializedDataApplyForSegment. mstep. rewrite aligned_eq by lia. unfold SERIALIZED_DATA_ALIGNMENT.
    unfold mbind, M_bind. rewrite (Enlarge_spins fuel); [done|done|done|..].
    all: unfold u32; rewrite Z.mod_small by lia; lia.
Qed.

(** The size read at [p] is the little-endian value of the four bytes there. *)
Lemma load_value b p x :
  load little b p = Some x → Forall is_byte b →
  read b p 4 = Some (header (little_endian little x)) ∧ 0 ≤ little_endian little x < 2 ^ 32 ∧ 0 ≤ p ∧
  p + 4 ≤ Z.of_nat (length b).
Proof.
  unfold load, read, SERIALIZED_DATA_ALIGNMENT. case_decide as Hp; [|done]. intros [= <-] Hb.
  assert (length (take 4 (drop (Z.to_nat p) b)) = 4%nat) as Hl by (rewrite length_take, length_drop; lia).
  assert (Forall is_byte (take 4 (drop (Z.to_nat p) b))) as Hby by by apply Forall_take, Forall_drop.
  pose proof (little_endian_to_Z_bound 8 _ ltac:(lia) Hby) as Hbound. rewrite Hl in Hbound.
  rewrite decide_True by lia. rewrite (wire_value _ _ Hl Hby). split; [|lia].
  unfold header. by rewrite (le4_value _ Hl Hby).
Qed.

Lemma read_app b p n m x y : read b p n = Some x → read b (p + n) m = Some y → read b p (n + m) = Some (x ++ y).
Proof.
  unfold read. case_decide; [|done]. intros [= <-]. case_decide; [|done]. intros [= <-]. rewrite decide_True by lia.
  f_equal. rewrite !Z2Nat.inj_add by lia. rewrite <-drop_drop, take_take_drop. done.
Qed.

Lemma next_items_bounds n b size p :
  Forall is_byte b → size ≤ Z.of_nat (length b) → 0 ≤ p ≤ size →
  match next_items little n b size p with
  | None => Z.of_nat (length b) < size + 4
  | Some None => True
  | Some (Some q) => p ≤ q ≤ size ∧ ∃ l, length l = n ∧ whole l ∧ read b p (q - p) = Some (wire l)
  end.
Proof.
  intros Hb Hs. revert p. induction n as [|n IH]; intros p Hp; cbn [next_items].
  { split; [lia|]. exists []. split_and!; [done|constructor|]. unfold read. rewrite decide_True by lia.
    by rewrite Z.sub_diag. }
  destruct (load little b p) as [x|] eqn:El; cbn [mbind option_bind].
  2: { unfold load, SERIALIZED_DATA_ALIGNMENT in El. case_decide; [done|lia]. }
  destruct (load_value _ _ _ El Hb) as (Hr & Hv & _ & Hin). set (v := little_endian little x) in *.
  case_decide as Hal; [done|]. unfold SERIALIZED_DATA_ALIGNMENT. case_decide as Hgt; [done|].
  specialize (IH (p + (4 + v)) ltac:(lia)). destruct (next_items little n b size _) as [[q|]|]; [|done..].
  destruct IH as (Hq & l & Hn & Hw & Hl). split; [lia|].
  set (bs := take (Z.to_nat v) (drop (Z.to_nat (p + 4)) b)).
  assert (Z.of_nat (length bs) = v) as Hbs by (unfold bs; rewrite length_take, length_drop; lia).
  exists (bs :: l). split; [by simpl; rewrite Hn|]. split.
  { constructor; [|done]. rewrite Hbs. unfold SERIALIZED_DATA_ALIGNMENT_MASK in Hal. rewrite land3 in Hal.
    apply Z.mod_divide; [done|]. destruct (decide (v mod 4 = 0)); [done|by destruct Hal]. }
  replace (q - p) with ((4 + v) + (q - (p + (4 + v)))) by lia. rewrite wire_cons.
  eapply read_app; [|exact Hl]. unfold frame. rewrite Hbs. eapply read_app; [exact Hr|].
  unfold read. by rewrite decide_True by lia.
Qed.

(** (C38) SerializedDataNextSeveralItemSize on a message that came from
    elsewhere, whatever its bytes: when it answers with a size, so many
    complete segments lie within the message from [start] on; it may read
    outside the memory only when the memory ends less than four bytes after
    the message. *)
Theorem NextSeveralItemSize_bounds d b start count :
  sd_buffer d = Some b → Forall is_byte b → sd_size d ≤ Z.of_nat (length b) → sd_size d < 2 ^ 32 →
  0 ≤ start ≤ sd_size d → 0 ≤ count →
  match SerializedDataNextSeveralItemSize little d start count with
  | None => Z.of_nat (length b) < sd_size d + 4
  | Some r => r = SD_INVALID ∨
      (0 ≤ r ∧ start + r ≤ sd_size d ∧ ∃ l, Z.of_nat (length l) = count ∧ whole l ∧ read b start r = Some (wire l))
  end.
Proof.
  intros Hb Hby Hs Hu Hst Hc. unfold SerializedDataNextSeveralItemSize. case_decide; [by left|]. rewrite Hb. simpl.
  pose proof (next_items_bounds (Z.to_nat count) b (sd_size d) start Hby Hs Hst) as Hn.
  destruct (next_items _ _ b _ _) as [[q|]|]; simpl; [|by left|done]. destruct Hn as (Hq & l & Hl & Hw & Hr). right.
  assert (u32 (u32 q - start) = q - start) as -> by (unfold u32; rewrite !Z.mod_small; rewrite ?Z.mod_small; lia).
  split_and!; [lia..|]. exists l. split_and!; [lia|done..].
Qed.
End framing.

(** ** Examples *)
Module SerializedWitness.

(** A heap that always has memory, filled with zeros. *)
Definition fill (b : list Z) (n : Z) : list Z := take (Z.to_nat n) b ++ replicate (Z.to_nat n - length b) 0.

Lemma fill_bytes b n : Forall is_byte b → Forall is_byte (fill b n).
Proof. intros Hb. apply Forall_app. split; [by apply Forall_take|]. apply Forall_replicate. by vm_compute. Qed.

#[export] Program Instance zero_memory : MemoryManager := {|
  heap := ();
  mm_alloc _ n := (if decide (0 ≤ n) then Some (fill [] n) else None, ());
  mm_realloc _ b n := (if decide (0 ≤ n) then Some (fill b n) else None, ()) |}.
Next Obligation.
  intros [] n b [] H. case_decide; [|done]. injection H as <-. split; [|by apply fill_bytes].
  unfold fill. rewrite length_app, length_take, length_replicate. simpl. lia.
Qed.
Next Obligation.
  intros [] b n b' [] H Hb. case_decide; [|done]. injection H as <-. split; [|by apply fill_bytes].
  unfold fill. rewrite length_app, length_take, length_replicate. lia.
Qed.
Next Obligation.
  intros [] b n b' [] H Hl. case_decide; [|done]. injection H as <-. unfold fill in *.
  rewrite length_app, length_take, length_replicate in Hl. rewrite take_ge by lia. by eexists.
Qed.

Definition d0 : SerializedData := mkSD None 0 0 true ().
Definition message : list (list Z) := [[1; 2; 3; 4; 5]; []; [6; 7]].

Lemma d0_ok : sd_ok d0.
Proof. split; simpl; [done|lia|by exists 0|lia]. Qed.

Lemma zero_never_null : never_null.
Proof. split; intros; simpl; by rewrite decide_True by done. Qed.

(** A big-endian machine writes the items. *)
Lemma items_round_trip_witness :
  returns (put_items false 31 message d0) (λ _ d', content d' =
    [8; 0; 0; 0; 1; 2; 3; 4; 5; 0; 0; 0; 0; 0; 0; 0; 4; 0; 0; 0; 6; 7; 0; 0]) ∧
  returns (put_items false 31 message d0) (λ _ d', sd_ok d' ∧ ∃ l, Forall2 padded message l ∧
    content d' = content d0 ++ wire l ∧
    get_items false (length message) d' (sd_size d0) = Some (Some l) ∧
    SerializedDataNextSeveralItemSize false d' (sd_size d0) (Z.of_nat (length message)) = Some (wire_size message)).
Proof.
  split; [vm_compute; reflexivity|].
  apply (items_round_trip false 31 message d0 d0_ok eq_refl zero_never_null (le_n _)).
  - by apply (bool_decide_unpack (Forall (Forall is_byte) message)).
  - by vm_compute.
Defined.

(** 5 bytes need 12 with their size; asked for 2^31 bytes, the loop does not
    end. *)
Lemma ApplyForSegment_bounds_witness :
  returns (SerializedDataApplyForSegment true 31 5 d0) (λ r d', r = Some 4 ∧ sd_size d' = 12) ∧
  SerializedDataApplyForSegment true 31 (2 ^ 31) d0 = Diverge.
Proof.
  split; [vm_compute; split; reflexivity|].
  apply (ApplyForSegment_bounds true 31 (2 ^ 31) d0 d0_ok ltac:(lia) (le_n _)); [by vm_compute|reflexivity|by left|by vm_compute].
Defined.

(** A whole message, and one that is cut off in its second item. *)
Definition sent : list Z := [4; 0; 0; 0; 6; 7; 0; 0; 8; 0; 0; 0; 9; 9; 9; 9].
Definition received : SerializedData := mkSD (Some (sent ++ [0; 0; 0; 0])) 16 20 false ().

Lemma NextSeveralItemSize_bounds_witness :
  SerializedDataNextSeveralItemSize true received 0 1 = Some 8 ∧
  SerializedDataNextSeveralItemSize true received 0 2 = Some SD_INVALID ∧
  ∃ l, Z.of_nat (length l) = 1 ∧ whole l ∧ read (sent ++ [0; 0; 0; 0]) 0 8 = Some (wire l).
Proof.
  split; [reflexivity|split; [reflexivity|]].
  pose proof (NextSeveralItemSize_bounds true received (sent ++ [0; 0; 0; 0]) 0 1 eq_refl) as H.
  change (SerializedDataNextSeveralItemSize true received 0 1) with (Some 8) in H.
  destruct H as [H|(_ & _ & H)]; [by apply (bool_decide_unpack (Forall is_byte (sent ++ [0; 0; 0; 0])))|by vm_compute|by vm_compute|by vm_compute|lia|discriminate H|exact H].
Defined.

(** An empty message: asking for an item reads the four bytes after it. *)
Example reads_past_the_end : SerializedDataNextSeveralItemSize true (mkSD (Some []) 0 0 false ()) 0 1 = None.
Proof. reflexivity. Qed.
End SerializedWitness.
