(* ===== verification/ShmemAllocator.v ===== *)
(** * The allocator of shared memory (utils/cuckoo_shmem_allocator.c)

    The connection pool passes requests and responses through shared memory.
    It is divided into pages of 64 blocks; one 64-bit word per page says which
    blocks are in use.  A request is served with 64, 32, ..., or one block
    (level 0 to 6), aligned to its size, by a compare-and-exchange on the word
    of a page.  The first part gives the functions as one process runs them;
    the second part interleaves the atomic accesses of many processes. *)

From stdpp Require Import list_numbers.
From S2P Require Import Prelude.
#[local] Open Scope Z_scope.

Definition CUCKOO_SHMEM_ALLOCATOR_STATE_BIT_COUNT : Z := 64.
Definition CUCKOO_SHMEM_ALLOCATOR_FREE_LIST_COUNT : Z := 7.
Definition CUCKOO_SHMEM_ALLOCATOR_MAX_SUPPORT_ALLOC_SIZE : Z := 1024 * 1024.
Definition CUCKOO_SHMEM_ALLOCATOR_MIN_SUPPORT_ALLOC_SIZE : Z :=
  CUCKOO_SHMEM_ALLOCATOR_MAX_SUPPORT_ALLOC_SIZE / CUCKOO_SHMEM_ALLOCATOR_STATE_BIT_COUNT.
Definition CUCKOO_SHMEM_ALLOCATOR_PAGE_SIZE : Z := CUCKOO_SHMEM_ALLOCATOR_MAX_SUPPORT_ALLOC_SIZE.
Definition CUCKOO_SHMEM_ALLOCATOR_MIN_BLOCK_SIZE : Z := CUCKOO_SHMEM_ALLOCATOR_MIN_SUPPORT_ALLOC_SIZE.
Definition CUCKOO_SHMEM_ALLOCATOR_PAD_SIZE : Z := 128.
Definition sizeof_MemoryHdr : Z := 24.

Record MemoryHdr := mkHdr { hdr_signature : Z; hdr_size : Z; hdr_capacity : Z }.

(** The words in shared memory and the headers that are stored in the blocks,
    by the offset of the block. *)
Record CuckooShmemAllocator := mkAllocator {
  pageCount : Z;
  signatureCounter : Z;
  freeListHint : list Z;
  pageCntlArray : list Z;
  headers : gmap Z MemoryHdr }.
#[global] Instance eta_CuckooShmemAllocator : Eta CuckooShmemAllocator := λ a,
  mkAllocator (pageCount a) (signatureCounter a) (freeListHint a) (pageCntlArray a) (headers a).

(** The number of pages for [size] bytes of shared memory; [None]: -1. *)
Definition CuckooShmemAllocatorInit (size : Z) : option Z :=
  let pageCount := u32 (u64 (size - CUCKOO_SHMEM_ALLOCATOR_PAD_SIZE * (1 + CUCKOO_SHMEM_ALLOCATOR_FREE_LIST_COUNT)) /
                        (CUCKOO_SHMEM_ALLOCATOR_PAD_SIZE + CUCKOO_SHMEM_ALLOCATOR_PAGE_SIZE)) in
  if decide (pageCount = 0) then None else Some pageCount.

Definition CuckooShmemAllocatorGetUniqueSignature (a : CuckooShmemAllocator) : Z * CuckooShmemAllocator :=
  (i64 (i64 (signatureCounter a) + 1), a <| signatureCounter ::= λ c, u64 (c + 1) |>).

(** __builtin_clzll and __builtin_ctzll of a word that is not zero. *)
Definition clz64 (x : Z) : Z := 63 - Z.log2 x.
Definition ctz64 (x : Z) : Z := match list_find (λ i, Z.testbit x i = true) (seqZ 0 64) with Some (_, i) => i | None => 64 end.

Definition GetNextPowerOfTwo (num : Z) : Z :=
  if decide (num = 0 ∨ Z.land num (Z.shiftl 1 63) ≠ 0) then 0
  else if decide (num = 1) then 1
  else u64 (Z.shiftl 1 (64 - clz64 (num - 1))).

Definition LevelBlockMask : list Z :=
  [0x0000000000000001; 0x0000000100000001; 0x0001000100010001; 0x0101010101010101;
   0x1111111111111111; 0x5555555555555555; 0xFFFFFFFFFFFFFFFF].
Definition LevelBlockOccupyBitMap : list Z :=
  [0xFFFFFFFFFFFFFFFF; 0x00000000FFFFFFFF; 0x000000000000FFFF; 0x00000000000000FF;
   0x000000000000000F; 0x0000000000000003; 0x0000000000000001].
Definition level_mask (level : Z) : Z := nth (Z.to_nat level) LevelBlockMask 0.
Definition occupy_bitmap (level : Z) : Z := nth (Z.to_nat level) LevelBlockOccupyBitMap 0.

Definition not64 (x : Z) : Z := u64 (Z.lnot x).

(** for (j = FREE_LIST_COUNT - 1; j > level; --j): the bitmap of the blocks of
    a level, from the bitmap of the smallest ones. *)
Fixpoint level_bitmap (count : nat) (j shift bitmap : Z) : Z :=
  match count with
  | O => bitmap
  | S count' =>
      level_bitmap count' (j - 1) (shift * 2) (Z.land (Z.lor (Z.shiftr bitmap shift) bitmap) (level_mask (j - 1)))
  end.

(** The first block of the level that is free in the word of a page, and the
    word with the block in use. *)
Definition choose_block (level bitmap : Z) : option (Z * Z) :=
  if decide (level = 0) then
    if decide (bitmap ≠ 0) then None else Some (0, not64 0)
  else
    let b := level_bitmap (Z.to_nat (CUCKOO_SHMEM_ALLOCATOR_FREE_LIST_COUNT - 1 - level))
               (CUCKOO_SHMEM_ALLOCATOR_FREE_LIST_COUNT - 1) 1 bitmap in
    if decide (b = level_mask level) then None
    else
      let firstEmptyBlockInLevel := ctz64 (Z.land (not64 b) (level_mask level)) in
      Some (firstEmptyBlockInLevel, Z.lor bitmap (u64 (Z.shiftl (occupy_bitmap level) firstEmptyBlockInLevel))).

Definition required_size (size : Z) : Z :=
  let requiredSize := u64 (size + sizeof_MemoryHdr) in
  if decide (requiredSize < CUCKOO_SHMEM_ALLOCATOR_MIN_SUPPORT_ALLOC_SIZE)
  then CUCKOO_SHMEM_ALLOCATOR_MIN_SUPPORT_ALLOC_SIZE else GetNextPowerOfTwo requiredSize.

Definition level_of (requiredSize : Z) : Z := ctz64 CUCKOO_SHMEM_ALLOCATOR_PAGE_SIZE - ctz64 requiredSize.

(** In the arithmetic of uint32_t, the type of pageNo. *)
Definition shift_of (pageNo block : Z) : Z :=
  u32 (CUCKOO_SHMEM_ALLOCATOR_PAGE_SIZE * pageNo + CUCKOO_SHMEM_ALLOCATOR_MIN_BLOCK_SIZE * block).

(** Set only when the level is not 0. *)
Definition page_is_full (level requiredSize shift : Z) : bool :=
  bool_decide (level ≠ 0 ∧ shift + requiredSize = CUCKOO_SHMEM_ALLOCATOR_PAGE_SIZE).

(** What becomes of the hint of the level after a block of [pageNo] was taken:
    in the first scan it moves forward from [start], where it still is; in the
    second one it moves back. *)
Definition hint_after (scan start pageNo : Z) (pageIsFull : bool) (hint : Z) : Z :=
  if decide (scan = 0) then
    if decide (hint = start ∧ (pageIsFull = true ∨ pageNo ≠ start))
    then (if pageIsFull then pageNo + 1 else pageNo) else hint
  else if pageIsFull then hint
  else if decide (hint ≤ pageNo) then hint else pageNo.

Definition set_hint (level : Z) (f : Z → Z) (a : CuckooShmemAllocator) : CuckooShmemAllocator :=
  a <| freeListHint ::= alter f (Z.to_nat level) |>.

(** The loop over the pages from [pageNo] on, of which [pages] are left. *)
Fixpoint scan_pages (pages : nat) (size requiredSize level scan start pageNo : Z) (a : CuckooShmemAllocator)
    : option (Z * CuckooShmemAllocator) :=
  match pages with
  | O => None
  | S pages' =>
      match choose_block level (nth (Z.to_nat pageNo) (pageCntlArray a) 0) with
      | None => scan_pages pages' size requiredSize level scan start (pageNo + 1) a
      | Some (block, desired) =>
          let shift := shift_of pageNo block in
          let a := a <| pageCntlArray ::= <[Z.to_nat pageNo := desired]> |> in
          let a := set_hint level (hint_after scan start pageNo (page_is_full level requiredSize shift)) a in
          Some (shift + sizeof_MemoryHdr, a <| headers ::= <[shift := mkHdr 0 size requiredSize]> |>)
      end
  end.

Definition pages_from (start : Z) (a : CuckooShmemAllocator) : nat := Z.to_nat (pageCount a - u32 start).

Definition CuckooShmemAllocatorMalloc (size : Z) (a : CuckooShmemAllocator) : Z * CuckooShmemAllocator :=
  if decide (size > CUCKOO_SHMEM_ALLOCATOR_MAX_SUPPORT_ALLOC_SIZE - sizeof_MemoryHdr) then (0, a)
  else
    let requiredSize := required_size size in
    let level := level_of requiredSize in
    let start := nth (Z.to_nat level) (freeListHint a) 0 in
    match scan_pages (pages_from start a) size requiredSize level 0 start (u32 start) a with
    | Some r => r
    | None =>
        match scan_pages (pages_from 0 a) size requiredSize level 1 0 0 a with
        | Some r => r
        | None => (0, a)
        end
    end.

(** The level of a block that has the capacity its header says; [None]: the
    capacity is not one of a block. *)
Definition level_of_capacity (capacity : Z) : option Z :=
  if decide (capacity < CUCKOO_SHMEM_ALLOCATOR_MIN_SUPPORT_ALLOC_SIZE ∨
             capacity > CUCKOO_SHMEM_ALLOCATOR_MAX_SUPPORT_ALLOC_SIZE) then None
  else
    let level := ctz64 CUCKOO_SHMEM_ALLOCATOR_MAX_SUPPORT_ALLOC_SIZE - ctz64 capacity in
    if decide (capacity ≠ Z.shiftr CUCKOO_SHMEM_ALLOCATOR_MAX_SUPPORT_ALLOC_SIZE level) then None else Some level.

(** The page, the first block and the bits of a block of the level. *)
Definition page_of (shift : Z) : Z := shift / CUCKOO_SHMEM_ALLOCATOR_PAGE_SIZE.
Definition block_of (shift : Z) : Z :=
  u32 (shift / CUCKOO_SHMEM_ALLOCATOR_MIN_BLOCK_SIZE - page_of shift * CUCKOO_SHMEM_ALLOCATOR_STATE_BIT_COUNT).
Definition release_bits (level shift word : Z) : Z :=
  Z.land word (not64 (u64 (Z.shiftl (occupy_bitmap level) (block_of shift)))).

(** [None]: the header is read where none has been written. *)
Definition CuckooShmemAllocatorFree (shift : Z) (a : CuckooShmemAllocator) : option CuckooShmemAllocator :=
  let shift := u64 (shift - sizeof_MemoryHdr) in
  hdr ← headers a !! shift;
  mret (match level_of_capacity (hdr_capacity hdr) with
        | None => a
        | Some level =>
            let pageNo := page_of shift in
            set_hint level (λ freeHint, if decide (freeHint ≤ pageNo) then freeHint else pageNo)
              (a <| pageCntlArray ::= alter (release_bits level shift) (Z.to_nat pageNo) |>)
        end).

(** ** Levels and bits *)

(** The number of blocks of a request of the level. *)
Definition width (level : Z) : Z := 2 ^ (6 - level).

(** The block [f] of the level: where it may start, and the bits it has. *)
Definition aligned_block (level f : Z) : Prop := 0 ≤ f ∧ f + width level ≤ 64 ∧ f mod width level = 0.
Definition in_block (level f i : Z) : Prop := f ≤ i < f + width level.
#[global] Instance in_block_dec level f i : Decision (in_block level f i).
Proof. unfold in_block. apply _. Defined.

Definition word64 (w : Z) : Prop := 0 ≤ w < 2 ^ 64.
Definition clear (w level f : Z) : Prop := ∀ i, in_block level f i → Z.testbit w i = false.

(** A case for each of the seven levels. *)
Lemma levels (P : Z → Prop) : P 0 → P 1 → P 2 → P 3 → P 4 → P 5 → P 6 → ∀ level, 0 ≤ level ≤ 6 → P level.
Proof.
  intros ? ? ? ? ? ? ? l Hl. assert (l = 0 ∨ l = 1 ∨ l = 2 ∨ l = 3 ∨ l = 4 ∨ l = 5 ∨ l = 6) as Hc by lia.
  by repeat destruct Hc as [->|Hc]; [..|subst].
Qed.

Lemma width_pos level : 0 ≤ level ≤ 6 → 0 < width level ≤ 64.
Proof. revert level. apply levels; by vm_compute. Qed.

Lemma width_half level : 0 < level ≤ 6 → width (level - 1) = 2 * width level.
Proof. intros Hl. unfold width. rewrite <-Z.pow_succ_r by lia. f_equal. lia. Qed.

(** Blocks of a level divide the page. *)
Lemma mod_room level i : 0 ≤ level ≤ 6 → i mod width level = 0 → i < 64 → i + width level ≤ 64.
Proof.
  intros Hl Hm Hi. assert (64 mod width level = 0) as H64 by (revert level Hl Hm; apply (levels (λ l, _ → _)); by vm_compute).
  pose proof (width_pos level Hl). pose proof (Z.div_mod i (width level) ltac:(lia)).
  pose proof (Z.div_mod 64 (width level) ltac:(lia)). assert (i / width level < 64 / width level) by nia. nia.
Qed.

Lemma testbit_word w i : word64 w → 64 ≤ i → Z.testbit w i = false.
Proof. intros Hw Hi. by apply (testbit_above w 64 i). Qed.

Lemma word_ext v w : word64 v → word64 w → (∀ i, 0 ≤ i < 64 → Z.testbit v i = Z.testbit w i) → v = w.
Proof.
  intros Hv Hw H. apply Z.bits_inj'. intros i Hi. destruct (decide (i < 64)); [auto|].
  by rewrite !testbit_word by (done || lia).
Qed.

Lemma bits_word w : (∀ i, 64 ≤ i → Z.testbit w i = false) → word64 w.
Proof.
  intros H. assert (w = w mod 2 ^ 64) as ->; [|apply u64_range]. apply Z.bits_inj'. intros i Hi.
  destruct (decide (i < 64)); [by rewrite Z.mod_pow2_bits_low by lia|]. rewrite Z.mod_pow2_bits_high by lia. apply H. lia.
Qed.

Lemma land_word v w : word64 w → word64 (Z.land v w).
Proof. intros Hw. apply bits_word. intros i Hi. by rewrite Z.land_spec, (testbit_word w), andb_false_r. Qed.

Lemma lor_word v w : word64 v → word64 w → word64 (Z.lor v w).
Proof. intros Hv Hw. apply bits_word. intros i Hi. by rewrite Z.lor_spec, !testbit_word. Qed.

(** The bits of the mask of a level. *)
Definition mask_ok (level : Z) : bool :=
  forallb (λ i, Bool.eqb (Z.testbit (level_mask level) i) (bool_decide (i mod width level = 0))) (seqZ 0 64).

Lemma mask_bit level i : 0 ≤ level ≤ 6 → 0 ≤ i < 64 → Z.testbit (level_mask level) i = bool_decide (i mod width level = 0).
Proof.
  intros Hl Hi. assert (mask_ok level = true) as H by (revert level Hl; apply levels; by vm_compute).
  unfold mask_ok in H. rewrite forallb_forall in H.
  apply Bool.eqb_prop, H, list_elem_of_In, elem_of_seqZ. lia.
Qed.

Lemma mask_word level : 0 ≤ level ≤ 6 → word64 (level_mask level).
Proof. revert level. apply levels; by vm_compute. Qed.

Lemma occupy_ones level : 0 ≤ level ≤ 6 → occupy_bitmap level = Z.ones (width level).
Proof. revert level. apply levels; by vm_compute. Qed.

Lemma not64_bit w i : 0 ≤ i < 64 → Z.testbit (not64 w) i = negb (Z.testbit w i).
Proof. intros Hi. unfold not64, u64. rewrite Z.mod_pow2_bits_low by lia. apply Z.lnot_spec. lia. Qed.

Lemma not64_word w : word64 (not64 w).
Proof. apply u64_range. Qed.

(** The bits of a block. *)
Lemma block_bits level f i : 0 ≤ level ≤ 6 → aligned_block level f → 0 ≤ i →
  Z.testbit (u64 (Z.shiftl (occupy_bitmap level) f)) i = bool_decide (in_block level f i).
Proof.
  intros Hl (H0 & H1 & _) Hi. pose proof (width_pos level Hl). rewrite occupy_ones by done. unfold u64.
  destruct (decide (i < 64)).
  - rewrite Z.mod_pow2_bits_low, Z.shiftl_spec by lia. unfold in_block.
    destruct (decide (i < f)); [rewrite Z.testbit_neg_r, bool_decide_false by lia; done|].
    rewrite Z.testbit_ones_nonneg by lia. apply eq_true_iff_eq. rewrite bool_decide_eq_true, Z.ltb_lt. lia.
  - rewrite Z.mod_pow2_bits_high by lia. rewrite bool_decide_false; [done|]. unfold in_block. lia.
Qed.

Lemma block_word level f : word64 (u64 (Z.shiftl (occupy_bitmap level) f)).
Proof. apply u64_range. Qed.

(** __builtin_ctzll finds the lowest bit. *)
Lemma ctz64_spec x : word64 x → x ≠ 0 →
  0 ≤ ctz64 x < 64 ∧ Z.testbit x (ctz64 x) = true ∧ ∀ i, 0 ≤ i < ctz64 x → Z.testbit x i = false.
Proof.
  intros Hx Hne. unfold ctz64. destruct (list_find _ _) as [[n i]|] eqn:E.
  - apply list_find_Some in E as (Hn & Hb & Hmin). apply lookup_seqZ in Hn as [-> Hn]. split; [lia|]. split; [done|].
    intros i Hi. specialize (Hmin (Z.to_nat i) i). apply not_true_is_false. apply Hmin; [|lia].
    apply lookup_seqZ. lia.
  - exfalso. apply Hne. apply word_ext; [done|by vm_compute|]. intros i Hi. rewrite Z.bits_0. apply not_true_is_false.
    intros Hb. apply list_find_None in E. rewrite Forall_forall in E. apply (E i); [|done]. apply elem_of_seqZ. lia.
Qed.

(** The bitmap of a level: a bit per block, set when a bit of the block is. *)
Definition level_bits (orig level b : Z) : Prop := word64 b ∧
  ∀ i, 0 ≤ i < 64 → Z.testbit b i = true ↔ i mod width level = 0 ∧ ∃ k, in_block level i k ∧ Z.testbit orig k = true.

Lemma level_bits_step orig j b :
  0 < j ≤ 6 → level_bits orig j b →
  level_bits orig (j - 1) (Z.land (Z.lor (Z.shiftr b (width j)) b) (level_mask (j - 1))).
Proof.
  intros Hj [Hw Hb]. pose proof (width_half j Hj) as Hh. pose proof (width_pos j ltac:(lia)) as Hp.
  split.
  { apply land_word, mask_word. lia. }
  intros i Hi. rewrite Z.land_spec, Z.lor_spec, Z.shiftr_spec, mask_bit by lia.
  rewrite andb_true_iff, orb_true_iff, bool_decide_eq_true, Hh.
  assert (i mod (2 * width j) = 0 → i mod width j = 0 ∧ (i + width j) mod width j = 0 ∧ i + 2 * width j ≤ 64) as Hmod.
  { intros Hm. assert (i mod width j = 0) as Hi0.
    { rewrite Z.mul_comm, Z.rem_mul_r in Hm by lia. pose proof (Z.mod_pos_bound i (width j)).
      pose proof (Z.mod_pos_bound (i / width j) 2). nia. }
    split; [done|]. split; [replace (i + width j) with (i + 1 * width j) by lia; by rewrite Z.mod_add by lia|].
    rewrite <-Hh in Hm |- *. apply mod_room; [lia|done|lia]. }
  unfold in_block in *. rewrite Hh. split.
  - intros [Hor Hm]. destruct (Hmod Hm) as (H1 & H2 & H3). split; [done|]. destruct Hor as [Hor|Hor]; apply Hb in Hor; try lia.
    all: destruct Hor as (_ & k & Hk & Ht); exists k; split; [lia|done].
  - intros (Hm & k & Hk & Ht). destruct (Hmod Hm) as (H1 & H2 & H3). split; [|done].
    destruct (decide (k < i + width j)); [right|left]; apply Hb; try lia.
    all: split; [done|]; exists k; split; [lia|done].
Qed.

Lemma level_bitmap_spec count orig j b :
  0 ≤ j - Z.of_nat count → j ≤ 6 → level_bits orig j b →
  level_bits orig (j - Z.of_nat count) (level_bitmap count j (width j) b).
Proof.
  revert j b. induction count as [|n IH]; intros j b H0 Hj Hb; simpl.
  - by rewrite Z.sub_0_r.
  - replace (width j * 2) with (width (j - 1)) by (rewrite width_half by lia; lia).
    replace (j - Z.of_nat (S n)) with (j - 1 - Z.of_nat n) by lia. apply IH; [lia..|]. apply level_bits_step; [lia|done].
Qed.

(** The word [w'] is [w] with the block in use. *)
Definition taken (level f w w' : Z) : Prop :=
  word64 w' ∧ ∀ i, 0 ≤ i < 64 → Z.testbit w' i = Z.testbit w i || bool_decide (in_block level f i).

Lemma bitmap_bits level w : 0 ≤ level ≤ 6 → word64 w →
  level_bits w level (level_bitmap (Z.to_nat (CUCKOO_SHMEM_ALLOCATOR_FREE_LIST_COUNT - 1 - level))
                        (CUCKOO_SHMEM_ALLOCATOR_FREE_LIST_COUNT - 1) 1 w).
Proof.
  intros Hl Hw. change (CUCKOO_SHMEM_ALLOCATOR_FREE_LIST_COUNT - 1) with 6.
  replace level with (6 - Z.of_nat (Z.to_nat (6 - level))) at 1 by lia.
  change 1 with (width 6) at 1. apply level_bitmap_spec; [lia|done|]. split; [done|]. intros i Hi.
  change (width 6) with 1. rewrite Z.mod_1_r. unfold in_block. change (width 6) with 1. split.
  - intros Hb. split; [done|]. exists i. split; [lia|done].
  - intros (_ & k & Hk & Hb). by replace i with k by lia.
Qed.

Lemma zero_word w : word64 w → w ≠ 0 → ∃ i, 0 ≤ i < 64 ∧ Z.testbit w i = true.
Proof. intros Hw Hne. destruct (ctz64_spec w Hw Hne) as (Hi & Hb & _). by exists (ctz64 w). Qed.

Lemma width_0 : width 0 = 64.
Proof. done. Qed.

(** A block is found exactly when the level has a free one. *)
Lemma choose_block_Some level w f w' :
  0 ≤ level ≤ 6 → word64 w → choose_block level w = Some (f, w') →
  aligned_block level f ∧ clear w level f ∧ taken level f w w'.
Proof.
  intros Hl Hw. unfold choose_block. destruct (decide (level = 0)) as [->|Hne].
  { case_decide as Hz; [done|]. intros [= <- <-]. assert (w = 0) as -> by (destruct (decide (w = 0)); [done|by destruct Hz]).
    split; [by vm_compute|]. split; [intros i _; apply Z.bits_0|]. split; [apply not64_word|].
    intros i Hi. rewrite not64_bit, Z.bits_0, bool_decide_true; [done|unfold in_block; rewrite width_0; lia|done]. }
  destruct (bitmap_bits level w Hl Hw) as [Hbw Hb]. set (b := level_bitmap _ _ _ w) in *.
  case_decide as Hfull; [done|]. intros [= <- <-]. set (x := Z.land (not64 b) (level_mask level)).
  assert (word64 x) as Hx by (apply land_word; by apply mask_word).
  assert (x ≠ 0) as Hx0.
  { intros H0. apply Hfull. apply word_ext; [done|by apply mask_word|]. intros i Hi.
    assert (Z.testbit x i = false) as Hxi by (rewrite H0; apply Z.bits_0).
    unfold x in Hxi. rewrite Z.land_spec, not64_bit in Hxi by done. rewrite mask_bit in * by done.
    destruct (Z.testbit b i) eqn:E; [|by simpl in Hxi; rewrite Hxi].
    apply Hb in E as [Hm _]; [|done]. by rewrite bool_decide_true. }
  destruct (ctz64_spec x Hx Hx0) as (Hr & Ht & _). set (f := ctz64 x) in *.
  unfold x in Ht. rewrite Z.land_spec, not64_bit, mask_bit in Ht by done. apply andb_true_iff in Ht as [Hnb Hm].
  apply bool_decide_eq_true in Hm. apply negb_true_iff in Hnb.
  assert (aligned_block level f) as Hal by (split; [lia|split; [apply mod_room; [done|done|lia]|done]]).
  split; [done|]. split.
  - intros i Hin. apply not_true_is_false. intros Hwi. apply not_true_iff_false in Hnb. apply Hnb. apply Hb; [done|].
    split; [done|]. by exists i.
  - split; [apply lor_word; [done|apply block_word]|]. intros i Hi. by rewrite Z.lor_spec, block_bits by (done || lia).
Qed.

Lemma choose_block_None level w f :
  0 ≤ level ≤ 6 → word64 w → choose_block level w = None → aligned_block level f → ¬ clear w level f.
Proof.
  intros Hl Hw. unfold choose_block. destruct (decide (level = 0)) as [->|Hne].
  { case_decide as Hz; [|done]. intros _ (H0 & H1 & _) Hc. destruct (zero_word w Hw Hz) as (i & Hi & Hb).
    rewrite width_0 in H1. rewrite Hc in Hb; [done|]. unfold in_block. rewrite width_0. lia. }
  destruct (bitmap_bits level w Hl Hw) as [_ Hb]. case_decide as Hfull; [|done]. intros _ (H0 & H1 & Hm) Hc.
  pose proof (width_pos level Hl).
  assert (Z.testbit (level_mask level) f = true) as Ht by (rewrite mask_bit by lia; by rewrite bool_decide_true).
  rewrite <-Hfull in Ht. apply Hb in Ht as (_ & k & Hk & Hwk); [|lia]. by rewrite Hc in Hwk.
Qed.

Lemma release_bits_spec level f w i :
  0 ≤ level ≤ 6 → aligned_block level f → 0 ≤ i < 64 →
  Z.testbit (Z.land w (not64 (u64 (Z.shiftl (occupy_bitmap level) f)))) i = Z.testbit w i && negb (bool_decide (in_block level f i)).
Proof. intros Hl Hf Hi. by rewrite Z.land_spec, not64_bit, block_bits by (done || lia). Qed.

(** ** Sizes *)

Definition capacity_of (level : Z) : Z := 2 ^ (20 - level).

Lemma ctz64_pow k : 0 ≤ k < 64 → ctz64 (2 ^ k) = k.
Proof.
  intros Hk. destruct (ctz64_spec (2 ^ k)) as (Hr & Hb & Hlow).
  { split; [lia|]. apply Z.pow_lt_mono_r; lia. }
  { pose proof (Z.pow_pos_nonneg 2 k). lia. }
  rewrite Z.pow2_bits_eqb in Hb by lia. by apply Z.eqb_eq in Hb.
Qed.

Lemma next_power n : 1 < n ≤ 2 ^ 20 → ∃ k, 0 < k ≤ 20 ∧ GetNextPowerOfTwo n = 2 ^ k ∧ n ≤ 2 ^ k < 2 * n.
Proof.
  intros Hn. unfold GetNextPowerOfTwo. rewrite decide_False.
  2: { intros [?|H]; [lia|]. apply H. apply Z.bits_inj'. intros i Hi.
       rewrite Z.land_spec, Z.shiftl_1_l, Z.bits_0, Z.pow2_bits_eqb by lia. destruct (Z.eqb_spec 63 i) as [<-|]; [|apply andb_false_r].
       rewrite (testbit_above n 21) by (done || lia). done. }
  rewrite decide_False by lia. unfold clz64. rewrite Z.shiftl_1_l.
  replace (64 - (63 - Z.log2 (n - 1))) with (Z.succ (Z.log2 (n - 1))) by lia.
  pose proof (Z.log2_spec (n - 1) ltac:(lia)) as [Hlo Hhi]. pose proof (Z.log2_nonneg (n - 1)).
  assert (Z.log2 (n - 1) < 20) by (apply Z.log2_lt_pow2; lia).
  exists (Z.succ (Z.log2 (n - 1))). split; [lia|]. rewrite Z.pow_succ_r in * by lia. split; [|lia].
  apply Z.mod_small. split; [lia|]. assert (2 ^ Z.log2 (n - 1) ≤ 2 ^ 20) by (apply Z.pow_le_mono_r; lia). lia.
Qed.

(** The level a request gets: its block is large enough, and not twice as large
    as it has to be. *)
Lemma request_level size : 0 ≤ size ≤ 2 ^ 20 - 24 →
  let level := level_of (required_size size) in
  0 ≤ level ≤ 6 ∧ required_size size = capacity_of level ∧ size + 24 ≤ capacity_of level ∧
  (level = 6 ∨ capacity_of level < 2 * (size + 24)).
Proof.
  intros Hs. unfold required_size, sizeof_MemoryHdr. assert (u64 (size + 24) = size + 24) as -> by (apply u64_small; lia).
  assert (∀ k, 14 ≤ k ≤ 20 → level_of (2 ^ k) = 20 - k) as Hlevel.
  { intros k Hk. unfold level_of. change CUCKOO_SHMEM_ALLOCATOR_PAGE_SIZE with (2 ^ 20). by rewrite !ctz64_pow by lia. }
  unfold capacity_of. case_decide as Hmin.
  - change CUCKOO_SHMEM_ALLOCATOR_MIN_SUPPORT_ALLOC_SIZE with (2 ^ 14) in *. cbv zeta. rewrite Hlevel by lia.
    split; [lia|]. split; [done|]. split; [|by left]. change (20 - (20 - 14)) with 14. lia.
  - change CUCKOO_SHMEM_ALLOCATOR_MIN_SUPPORT_ALLOC_SIZE with (2 ^ 14) in *.
    destruct (next_power (size + 24)) as (k & Hk & -> & Hle & Hlt); [lia|].
    assert (14 ≤ k) by (apply (Z.pow_le_mono_r_iff 2); lia). cbv zeta. rewrite Hlevel by lia.
    replace (20 - (20 - k)) with k by lia. split; [lia|]. split; [done|]. split; [lia|by right].
Qed.

(** ** One process *)

(** Less than 4 GiB of pages: beyond that the offsets wrap around. *)
Definition PAGE_LIMIT : Z := 4096.

Record allocator_ok (a : CuckooShmemAllocator) : Prop := {
  ao_count : 0 < pageCount a < PAGE_LIMIT;
  ao_pages : Z.of_nat (length (pageCntlArray a)) = pageCount a;
  ao_words : Forall word64 (pageCntlArray a);
  ao_hints : length (freeListHint a) = 7%nat ∧ Forall (λ h, 0 ≤ h ≤ pageCount a) (freeListHint a) }.

Lemma shift_place p f : 0 ≤ p < PAGE_LIMIT → 0 ≤ f < 64 → shift_of p f = 2 ^ 20 * p + 2 ^ 14 * f.
Proof.
  intros Hp Hf. unfold shift_of, PAGE_LIMIT in *. change CUCKOO_SHMEM_ALLOCATOR_PAGE_SIZE with (2 ^ 20).
  change CUCKOO_SHMEM_ALLOCATOR_MIN_BLOCK_SIZE with (2 ^ 14). apply Z.mod_small. lia.
Qed.

Definition page_word (a : CuckooShmemAllocator) (p : Z) : Z := nth (Z.to_nat p) (pageCntlArray a) 0.
Definition free_block (a : CuckooShmemAllocator) (level p f : Z) : Prop :=
  0 ≤ p < pageCount a ∧ aligned_block level f ∧ clear (page_word a p) level f.

(** The block [f] of page [p] is handed out: the result points behind its
    header. *)
Definition allocated (size level : Z) (a : CuckooShmemAllocator) (r : Z) (a' : CuckooShmemAllocator) : Prop :=
  ∃ p f w, free_block a level p f ∧ r = shift_of p f + sizeof_MemoryHdr ∧ taken level f (page_word a p) w ∧
    pageCntlArray a' = <[Z.to_nat p := w]> (pageCntlArray a) ∧
    headers a' = <[shift_of p f := mkHdr 0 size (capacity_of level)]> (headers a) ∧
    pageCount a' = pageCount a ∧ allocator_ok a'.

Lemma page_word_lookup a p : allocator_ok a → 0 ≤ p < pageCount a → pageCntlArray a !! Z.to_nat p = Some (page_word a p).
Proof.
  intros Ha Hp. unfold page_word. destruct (pageCntlArray a !! Z.to_nat p) as [w|] eqn:E.
  - by rewrite (nth_lookup_Some _ _ _ _ E).
  - apply lookup_ge_None in E. pose proof (ao_pages a Ha). lia.
Qed.

Lemma page_word_word a p : allocator_ok a → 0 ≤ p < pageCount a → word64 (page_word a p).
Proof. intros Ha Hp. pose proof (page_word_lookup a p Ha Hp). by eapply (Forall_lookup_1 _ _ _ _ (ao_words a Ha)). Qed.

Lemma hints_alter (P : Z → Prop) (f : Z → Z) i (l : list Z) : Forall P l → (∀ h, P h → P (f h)) → Forall P (alter f i l).
Proof.
  intros Hl Hf. apply Forall_lookup. intros j h Hj. destruct (decide (i = j)) as [<-|Hne].
  - rewrite list_lookup_alter_eq in Hj. destruct (l !! i) as [h'|] eqn:E; [|done]. injection Hj as <-.
    apply Hf. by eapply Forall_lookup_1.
  - rewrite list_lookup_alter_ne in Hj by done. by eapply Forall_lookup_1.
Qed.

Lemma hint_range scan start p full h n : 0 ≤ p < n → 0 ≤ h ≤ n → 0 ≤ hint_after scan start p full h ≤ n.
Proof. intros Hp Hh. unfold hint_after. repeat case_decide; destruct full; lia. Qed.

Lemma ok_change a l g hs level :
  allocator_ok a → length l = length (pageCntlArray a) → Forall word64 l → (∀ h, 0 ≤ h ≤ pageCount a → 0 ≤ g h ≤ pageCount a) →
  allocator_ok ((set_hint level g (a <| pageCntlArray := l |>)) <| headers := hs |>).
Proof.
  intros [Hc Hp Hw [Hl Hh]] Hlen Hf Hg. split; simpl; [done|by rewrite Hlen|done|].
  rewrite length_alter. split; [done|]. by apply hints_alter.
Qed.

Lemma scan_pages_spec pages size level scan start pageNo a :
  allocator_ok a → 0 ≤ level ≤ 6 → 0 ≤ pageNo → pageNo + Z.of_nat pages = pageCount a →
  match scan_pages pages size (capacity_of level) level scan start pageNo a with
  | Some (r, a') => allocated size level a r a'
  | None => ∀ p f, pageNo ≤ p → ¬ free_block a level p f
  end.
Proof.
  intros Ha Hl. revert pageNo. induction pages as [|n IH]; intros pageNo H0 Hn; cbn [scan_pages].
  { intros p f Hp (Hr & _). lia. }
  assert (0 ≤ pageNo < pageCount a) as Hr by lia. fold (page_word a pageNo).
  pose proof (page_word_word a pageNo Ha Hr) as Hw.
  destruct (choose_block level (page_word a pageNo)) as [[f w]|] eqn:E.
  - destruct (choose_block_Some _ _ _ _ Hl Hw E) as (Hal & Hcl & Hw' & Hbits). exists pageNo, f, w.
    split_and!; try done. apply (ok_change a (<[Z.to_nat pageNo := w]> (pageCntlArray a)) _ (<[shift_of pageNo f := _]> (headers a)) level);
      [done|by rewrite length_insert|by apply Forall_insert; [apply ao_words|]|].
    intros h Hh. by apply hint_range.
  - specialize (IH (pageNo + 1) ltac:(lia) ltac:(lia)). destruct (scan_pages n _ _ _ _ _ _ a) as [[r a']|]; [done|].
    intros p f Hp Hfree. destruct (decide (p = pageNo)) as [->|Hne].
    + destruct Hfree as (_ & Hal & Hc). by eapply choose_block_None.
    + apply (IH p f); [lia|done].
Qed.

Lemma malloc_spec size a :
  allocator_ok a → 0 ≤ size →
  let '(r, a') := CuckooShmemAllocatorMalloc size a in
  let level := level_of (required_size size) in
  if decide (size > CUCKOO_SHMEM_ALLOCATOR_MAX_SUPPORT_ALLOC_SIZE - sizeof_MemoryHdr) then r = 0 ∧ a' = a
  else 0 ≤ level ≤ 6 ∧ size + sizeof_MemoryHdr ≤ capacity_of level ∧
       (level = 6 ∨ capacity_of level < 2 * (size + sizeof_MemoryHdr)) ∧
       ((r = 0 ∧ a' = a ∧ ∀ p f, ¬ free_block a level p f) ∨ (0 < r ∧ allocated size level a r a')).
Proof.
  intros Ha Hs. unfold CuckooShmemAllocatorMalloc.
  destruct (decide (size > CUCKOO_SHMEM_ALLOCATOR_MAX_SUPPORT_ALLOC_SIZE - sizeof_MemoryHdr)) as [|Hsz]; [done|].
  change CUCKOO_SHMEM_ALLOCATOR_MAX_SUPPORT_ALLOC_SIZE with (2 ^ 20) in Hsz.
  destruct (request_level size) as (Hl & Hcap & Hfit & Htight); [unfold sizeof_MemoryHdr in Hsz; lia|].
  set (level := level_of (required_size size)) in *. rewrite Hcap. set (start := nth _ (freeListHint a) 0).
  pose proof (ao_count a Ha) as Hc. destruct (ao_hints a Ha) as [Hlen Hh].
  assert (0 ≤ start ≤ pageCount a) as Hstart.
  { unfold start. destruct (freeListHint a !! Z.to_nat level) as [h|] eqn:E.
    - rewrite (nth_lookup_Some _ _ _ _ E). exact (Forall_lookup_1 _ _ _ _ Hh E).
    - apply lookup_ge_None in E. lia. }
  assert (u32 start = start) as Hu by (apply Z.mod_small; unfold PAGE_LIMIT in Hc; lia).
  assert (∀ r a', allocated size level a r a' → 0 < r) as Hpos.
  { intros r a' (p & f & w & _ & -> & _). unfold shift_of, sizeof_MemoryHdr. pose proof (u32_range (CUCKOO_SHMEM_ALLOCATOR_PAGE_SIZE * p + CUCKOO_SHMEM_ALLOCATOR_MIN_BLOCK_SIZE * f)). lia. }
  pose proof (scan_pages_spec (pages_from start a) size level 0 start (u32 start) a Ha Hl) as H1.
  destruct (scan_pages (pages_from start a) _ _ _ _ _ _ a) as [[r a']|].
  { split; [done|]. split; [done|]. split; [done|]. right. unfold pages_from in H1. rewrite Hu in H1.
    specialize (H1 ltac:(lia) ltac:(lia)). split; [by eapply Hpos|done]. }
  pose proof (scan_pages_spec (pages_from 0 a) size level 1 0 0 a Ha Hl) as H2. clear H1.
  unfold pages_from in H2. change (u32 0) with 0 in H2. specialize (H2 ltac:(lia) ltac:(lia)).
  unfold pages_from. change (u32 0) with 0. destruct (scan_pages _ _ _ _ _ _ _ a) as [[r a']|].
  - split; [done|]. split; [done|]. split; [done|]. right. split; [by eapply Hpos|done].
  - split; [done|]. split; [done|]. split; [done|]. left. split; [done|]. split; [done|].
    intros p f Hf. apply (H2 p f); [by destruct Hf as [[? _] _]|done].
Qed.

(** CuckooShmemAllocatorMalloc.  A request that does not fit in a page is
    refused.  Any other gets a level whose blocks are large enough for it and
    its header, and less than twice as large as needed unless they are the
    smallest; if some page has a free block of this level, wherever the hint
    points, one is handed out, marked in use and given its header, and no other
    page or header changes; the answer is 0 only when there is none. *)
Theorem Malloc_finds size a :
  allocator_ok a → 0 ≤ size →
  let '(r, a') := CuckooShmemAllocatorMalloc size a in
  let level := level_of (required_size size) in
  if decide (size > CUCKOO_SHMEM_ALLOCATOR_MAX_SUPPORT_ALLOC_SIZE - sizeof_MemoryHdr) then r = 0 ∧ a' = a
  else 0 ≤ level ≤ 6 ∧ size + sizeof_MemoryHdr ≤ capacity_of level ∧
       (level = 6 ∨ capacity_of level < 2 * (size + sizeof_MemoryHdr)) ∧
       ((r = 0 ∧ a' = a ∧ ∀ p f, ¬ free_block a level p f) ∨ (0 < r ∧ allocated size level a r a')).
Proof. apply malloc_spec. Qed.

Lemma shift_page p f : 0 ≤ p < PAGE_LIMIT → 0 ≤ f < 64 → page_of (shift_of p f) = p.
Proof.
  intros Hp Hf. rewrite shift_place by done. unfold page_of. change CUCKOO_SHMEM_ALLOCATOR_PAGE_SIZE with (2 ^ 20).
  symmetry. apply Z.div_unique_pos with (2 ^ 14 * f); lia.
Qed.

Lemma shift_block p f : 0 ≤ p < PAGE_LIMIT → 0 ≤ f < 64 → block_of (shift_of p f) = f.
Proof.
  intros Hp Hf. unfold block_of. rewrite shift_page by done. rewrite shift_place by done.
  change CUCKOO_SHMEM_ALLOCATOR_MIN_BLOCK_SIZE with (2 ^ 14). change CUCKOO_SHMEM_ALLOCATOR_STATE_BIT_COUNT with 64.
  replace (2 ^ 20 * p + 2 ^ 14 * f) with ((64 * p + f) * 2 ^ 14) by lia. rewrite Z.div_mul by lia.
  unfold u32. rewrite Z.mod_small; lia.
Qed.

Lemma capacity_level level : 0 ≤ level ≤ 6 → level_of_capacity (capacity_of level) = Some level.
Proof. revert level. apply levels; by vm_compute. Qed.

Lemma aligned_range level f : 0 ≤ level ≤ 6 → aligned_block level f → 0 ≤ f < 64.
Proof. intros Hl (H0 & H1 & _). pose proof (width_pos level Hl). lia. Qed.

(** A block is given back: its bits, and nothing else. *)
Lemma Free_spec a level p f hdr :
  allocator_ok a → 0 ≤ level ≤ 6 → 0 ≤ p < pageCount a → aligned_block level f →
  headers a !! shift_of p f = Some hdr → hdr_capacity hdr = capacity_of level →
  ∃ a', CuckooShmemAllocatorFree (shift_of p f + sizeof_MemoryHdr) a = Some a' ∧ allocator_ok a' ∧
    headers a' = headers a ∧ pageCount a' = pageCount a ∧
    pageCntlArray a' = alter (λ w, Z.land w (not64 (u64 (Z.shiftl (occupy_bitmap level) f)))) (Z.to_nat p) (pageCntlArray a).
Proof.
  intros Ha Hl Hp Hf Hh Hc. pose proof (aligned_range level f Hl Hf) as Hf'. pose proof (ao_count a Ha).
  unfold CuckooShmemAllocatorFree. rewrite Z.add_simpl_r.
  assert (u64 (shift_of p f) = shift_of p f) as ->.
  { apply u64_small. rewrite shift_place by lia. unfold PAGE_LIMIT in *. lia. }
  rewrite Hh. cbn [mbind option_bind]. rewrite Hc, capacity_level by done. eexists. split; [done|].
  unfold release_bits. rewrite shift_page, shift_block by (done || lia).
  set (l := alter _ (Z.to_nat p) (pageCntlArray a)). split; [|done].
  apply (ok_change a l _ (headers a) level); [done|unfold l; by rewrite length_alter| |].
  - apply hints_alter; [apply Ha|]. intros w _. apply land_word, not64_word.
  - intros h Hh'. case_decide; lia.
Qed.

(** What Malloc hands out, Free takes back: the pages are as they were
    before, whatever other blocks are in use. *)
Theorem Malloc_Free_restores size a r a' :
  allocator_ok a → 0 ≤ size → CuckooShmemAllocatorMalloc size a = (r, a') → r ≠ 0 →
  ∃ a'', CuckooShmemAllocatorFree r a' = Some a'' ∧ allocator_ok a'' ∧ pageCntlArray a'' = pageCntlArray a.
Proof.
  intros Ha Hs Hm Hr. pose proof (malloc_spec size a Ha Hs) as H. rewrite Hm in H. case_decide; [by destruct H|].
  destruct H as (Hl & _ & _ & [[? _]|[_ H]]); [done|]. set (level := level_of _) in *.
  destruct H as (p & f & w & (Hp & Hf & Hc) & -> & (Hw & Hbits) & Hpages & Hh & Hcount & Ha').
  destruct (Free_spec a' level p f (mkHdr 0 size (capacity_of level))) as (a'' & HF & Hok & _ & _ & Hp'');
    [done|done|by rewrite Hcount|done|by rewrite Hh, lookup_insert_eq|done|].
  exists a''. split; [done|]. split; [done|]. rewrite Hp'', Hpages.
  pose proof (page_word_lookup a p Ha Hp) as Hlook. pose proof (page_word_word a p Ha Hp) as Hpw.
  pose proof (lookup_lt_Some _ _ _ Hlook).
  rewrite (list_alter_insert _ _ _ w) by by apply list_lookup_insert_eq. rewrite list_insert_insert_eq. apply list_insert_id.
  rewrite Hlook. f_equal. apply word_ext; [done|apply land_word, not64_word|]. intros i Hi.
  rewrite release_bits_spec, Hbits by done. case_bool_decide as Hin; simpl.
  - rewrite andb_false_r. by apply Hc.
  - by rewrite orb_false_r, andb_true_r.
Qed.

(** ** Many processes

    Each atomic access is a step of its own: the loads and the
    compare-and-exchanges on the words of the pages, the clearing of bits, the
    updates of the hints and the accesses to the headers. *)
Module Processes.
Section interleaving.
(** The number of pages. *)
Variable n : Z.

Inductive proc :=
  | Idle
  (** Malloc: the word of the page is to be loaded; the exchange is to be tried
      with the bitmap that was loaded; the hint is to be renewed; the header is
      to be written *)
  | Loading (size scan start pageNo : Z)
  | Trying (size scan start pageNo bitmap : Z) (pageIsFull : bool)
  | Hinting (size scan start pageNo block : Z) (pageIsFull : bool)
  | Heading (size pageNo block : Z)
  (** Free: the bits are to be cleared; the hint is to be lowered *)
  | Clearing (level shift : Z)
  | Lowering (level pageNo : Z).

(** The shared memory; the blocks in use, with their level, and those of them
    that a caller has (for the proof only); the processes. *)
Record Shared := mkShared {
  words : list Z;
  hints : list Z;
  hdrs : gmap Z MemoryHdr;
  live : gmap Z Z;
  given : gset Z;
  procs : gmap nat proc }.
#[global] Instance eta_Shared : Eta Shared := λ s,
  mkShared (words s) (hints s) (hdrs s) (live s) (given s) (procs s).

Definition level_for (size : Z) : Z := level_of (required_size size).

(** One access of a process, and what becomes of the process. *)
Inductive pstep : Shared → proc → Shared → proc → Prop :=
  | p_malloc s size h : 0 ≤ size ≤ CUCKOO_SHMEM_ALLOCATOR_MAX_SUPPORT_ALLOC_SIZE - sizeof_MemoryHdr →
      hints s !! Z.to_nat (level_for size) = Some h → pstep s Idle s (Loading size 0 h (u32 h))
  | p_load s size scan start p w : p < n → words s !! Z.to_nat p = Some w →
      pstep s (Loading size scan start p) s (Trying size scan start p w false)
  | p_rescan s size start p : n ≤ p → pstep s (Loading size 0 start p) s (Loading size 1 0 0)
  | p_fail s size start p : n ≤ p → pstep s (Loading size 1 start p) s Idle
  | p_page_full s size scan start p w full : choose_block (level_for size) w = None →
      pstep s (Trying size scan start p w full) s (Loading size scan start (p + 1))
  | p_exchange s size scan start p w full f w' (full' := full || page_is_full (level_for size) (required_size size) (shift_of p f)) :
      choose_block (level_for size) w = Some (f, w') → words s !! Z.to_nat p = Some w →
      pstep s (Trying size scan start p w full)
        (s <| words ::= <[Z.to_nat p := w']> |> <| live ::= <[shift_of p f := level_for size]> |>)
        (Hinting size scan start p f full')
  | p_retry s size scan start p w full f w' v (full' := full || page_is_full (level_for size) (required_size size) (shift_of p f)) :
      choose_block (level_for size) w = Some (f, w') → words s !! Z.to_nat p = Some v → v ≠ w →
      pstep s (Trying size scan start p w full) s (Trying size scan start p v full')
  | p_hint s size scan start p f full g : g = hint_after scan start p full ∨ g = id →
      pstep s (Hinting size scan start p f full) (s <| hints ::= alter g (Z.to_nat (level_for size)) |>) (Heading size p f)
  | p_header s size p f :
      pstep s (Heading size p f)
        (s <| hdrs ::= <[shift_of p f := mkHdr 0 size (required_size size)]> |> <| given ::= union {[shift_of p f]} |>) Idle
  (** the caller of Malloc sets the signature *)
  | p_sign s sh hdr sign : sh ∈ given s → hdrs s !! sh = Some hdr →
      pstep s Idle (s <| hdrs ::= <[sh := mkHdr sign (hdr_size hdr) (hdr_capacity hdr)]> |>) Idle
  | p_free s sh hdr level : sh ∈ given s → hdrs s !! sh = Some hdr → level_of_capacity (hdr_capacity hdr) = Some level →
      pstep s Idle (s <| given ::= (.∖ {[sh]}) |>) (Clearing level sh)
  | p_clear s level sh :
      pstep s (Clearing level sh)
        (s <| words ::= alter (release_bits level sh) (Z.to_nat (page_of sh)) |> <| live ::= delete sh |>)
        (Lowering level (page_of sh))
  | p_lower s level p g : g = (λ h, if decide (h ≤ p) then h else p) ∨ g = id →
      pstep s (Lowering level p) (s <| hints ::= alter g (Z.to_nat level) |>) Idle.

Inductive step : Shared → Shared → Prop :=
  | step_proc s k p s' p' : procs s !! k = Some p → pstep s p s' p' → step s (s' <| procs ::= <[k := p']> |>).

(** Empty pages, and processes that do nothing yet. *)
Definition initial (s : Shared) : Prop :=
  words s = replicate (Z.to_nat n) 0 ∧ live s = ∅ ∧ given s = ∅ ∧ ∀ k p, procs s !! k = Some p → p = Idle.

Inductive reachable : Shared → Prop :=
  | reach_initial s : initial s → reachable s
  | reach_next s s' : reachable s → step s s' → reachable s'.

(** *** Invariant *)

Definition size_ok (size : Z) : Prop := 0 ≤ size ≤ CUCKOO_SHMEM_ALLOCATOR_MAX_SUPPORT_ALLOC_SIZE - sizeof_MemoryHdr.

(** A block of a level that lies in a page. *)
Definition proper (sh l : Z) : Prop := 0 ≤ l ≤ 6 ∧ ∃ p f, sh = shift_of p f ∧ 0 ≤ p < n ∧ aligned_block l f.

(** The bit [i] of page [p] belongs to the block. *)
Definition covers (sh l p i : Z) : Prop := page_of sh = p ∧ in_block l (block_of sh) i.

(** The block a process has taken and not handed out yet, or is freeing. *)
Definition claims (q : proc) : option Z :=
  match q with
  | Hinting _ _ _ p f _ | Heading _ p f => Some (shift_of p f)
  | Clearing _ sh => Some sh
  | _ => None
  end.

Definition proc_ok (s : Shared) (q : proc) : Prop :=
  match q with
  | Idle | Lowering _ _ => True
  | Loading size _ _ p => size_ok size ∧ 0 ≤ p
  | Trying size _ _ p w _ => size_ok size ∧ 0 ≤ p < n ∧ word64 w
  | Hinting size _ _ p f _ | Heading size p f => size_ok size ∧ live s !! shift_of p f = Some (level_for size)
  | Clearing level sh => live s !! sh = Some level
  end.

Record inv (s : Shared) : Prop := {
  i_words : Z.of_nat (length (words s)) = n ∧ Forall word64 (words s);
  i_proper sh l : live s !! sh = Some l → proper sh l;
  i_bits p w i : words s !! Z.to_nat p = Some w → 0 ≤ p → 0 ≤ i < 64 →
    Z.testbit w i = true ↔ (∃ sh l, live s !! sh = Some l ∧ covers sh l p i);
  i_disjoint sh1 l1 sh2 l2 p i : live s !! sh1 = Some l1 → live s !! sh2 = Some l2 →
    covers sh1 l1 p i → covers sh2 l2 p i → sh1 = sh2;
  i_given sh : sh ∈ given s → ∃ l hdr, live s !! sh = Some l ∧ hdrs s !! sh = Some hdr ∧
    hdr_capacity hdr = capacity_of l ∧ hdr_size hdr + sizeof_MemoryHdr ≤ capacity_of l;
  i_procs k q : procs s !! k = Some q → proc_ok s q;
  i_claims k q sh : procs s !! k = Some q → claims q = Some sh → (sh ∉ given s) ∧
    ∀ k' q', procs s !! k' = Some q' → claims q' = Some sh → k' = k;
  i_owned sh l : live s !! sh = Some l → sh ∈ given s ∨ ∃ k q, procs s !! k = Some q ∧ claims q = Some sh }.

(** The offsets do not wrap around. *)
Hypothesis n_small : n ≤ PAGE_LIMIT.

Lemma level_for_ok size : size_ok size →
  0 ≤ level_for size ≤ 6 ∧ required_size size = capacity_of (level_for size) ∧ size + 24 ≤ capacity_of (level_for size).
Proof.
  unfold size_ok, sizeof_MemoryHdr. change CUCKOO_SHMEM_ALLOCATOR_MAX_SUPPORT_ALLOC_SIZE with (2 ^ 20). intros Hs.
  destruct (request_level size ltac:(lia)) as (? & ? & ? & _). done.
Qed.

Lemma proper_place sh l : proper sh l →
  0 ≤ l ≤ 6 ∧ 0 ≤ page_of sh < n ∧ aligned_block l (block_of sh) ∧ sh = shift_of (page_of sh) (block_of sh).
Proof.
  intros (Hl & p & f & -> & Hp & Hf). pose proof (aligned_range l f Hl Hf). by rewrite shift_page, shift_block by (done || lia).
Qed.

Lemma covers_first l p f : 0 ≤ l ≤ 6 → 0 ≤ p < n → 0 ≤ f < 64 → covers (shift_of p f) l p f.
Proof.
  intros Hl Hp Hf. unfold covers, in_block. rewrite shift_page, shift_block by (done || lia). pose proof (width_pos l Hl). split; [done|lia].
Qed.

Lemma word_at s p w : inv s → words s !! Z.to_nat p = Some w → word64 w.
Proof. intros Hs. destruct (i_words s Hs) as [_ Hw]. apply (Forall_lookup_1 _ _ _ _ Hw). Qed.

Lemma page_at s p w : inv s → words s !! Z.to_nat p = Some w → 0 ≤ p → 0 ≤ p < n.
Proof. intros Hs Hw Hp. destruct (i_words s Hs) as [Hl _]. apply lookup_lt_Some in Hw. lia. Qed.

Lemma proc_ok_live s s' q : (∀ sh l, claims q = Some sh → live s !! sh = Some l → live s' !! sh = Some l) → proc_ok s q → proc_ok s' q.
Proof.
  intros Hl. destruct q; simpl; intros Hok; try exact Hok.
  1,2: destruct Hok as [Hsz Hok]; split; [exact Hsz|].
  all: by apply (Hl _ _ eq_refl).
Qed.

Lemma claims_live s q sh : proc_ok s q → claims q = Some sh → ∃ l, live s !! sh = Some l.
Proof. destruct q; simpl; intros Hok [= <-]; [destruct Hok..|]; eauto. Qed.

(** A step that leaves the blocks as they are. *)
Lemma inv_keep s s' k q q' :
  inv s → procs s !! k = Some q → claims q' = claims q → proc_ok s q' →
  words s' = words s → live s' = live s → given s' = given s → procs s' = <[k := q']> (procs s) →
  (∀ sh, sh ∈ given s → ∃ hdr hdr', hdrs s !! sh = Some hdr ∧ hdrs s' !! sh = Some hdr' ∧
     hdr_capacity hdr' = hdr_capacity hdr ∧ hdr_size hdr' = hdr_size hdr) → inv s'.
Proof.
  intros Hs Hk Hcl Hok Hw Hl Hg Hp Hh.
  assert (∀ k' q1, procs s' !! k' = Some q1 → ∃ q0, procs s !! k' = Some q0 ∧ claims q1 = claims q0 ∧ proc_ok s q1) as Hold.
  { intros k' q1. rewrite Hp. destruct (decide (k = k')) as [<-|Hne].
    - rewrite lookup_insert_eq. intros [= <-]. eauto.
    - rewrite lookup_insert_ne by done. intros H1. exists q1. split_and!; [done..|]. by apply (i_procs s Hs k'). }
  split; rewrite ?Hw, ?Hl, ?Hg.
  - apply Hs.
  - apply Hs.
  - apply Hs.
  - apply Hs.
  - intros sh Hsh. destruct (i_given s Hs sh Hsh) as (l & hdr & Hlv & Hhdr & Hcap & Hsz). destruct (Hh sh Hsh) as (h0 & h1 & Hh0 & Hh1 & Hcap1 & Hsz1).
    rewrite Hhdr in Hh0. injection Hh0 as <-. exists l, h1. split_and!; [done..|congruence|congruence].
  - intros k' q1 H1. destruct (Hold _ _ H1) as (q0 & _ & _ & H2). revert H2. apply proc_ok_live. intros. by rewrite Hl.
  - intros k' q1 sh H1 Hc. destruct (Hold _ _ H1) as (q0 & H0 & Hc0 & _). rewrite Hc0 in Hc.
    destruct (i_claims s Hs k' q0 sh H0 Hc) as [Hn Hu]. split; [done|]. intros k2 q2 H2 Hc2.
    destruct (Hold _ _ H2) as (q3 & H3 & Hc3 & _). rewrite Hc3 in Hc2. by eapply Hu.
  - intros sh l Hlive. destruct (i_owned s Hs sh l Hlive) as [?|(k' & q1 & H1 & Hc)]; [by left|right].
    destruct (decide (k = k')) as [<-|Hne].
    + exists k, q'. rewrite Hp, lookup_insert_eq. split; [done|]. rewrite Hcl. congruence.
    + exists k', q1. by rewrite Hp, lookup_insert_ne.
Qed.

(** A block is taken. *)
Lemma not_live s p w f L l : inv s → words s !! Z.to_nat p = Some w → 0 ≤ p → 0 ≤ L ≤ 6 → aligned_block L f → clear w L f →
  live s !! shift_of p f = Some l → False.
Proof.
  intros Hs Hw Hp HL Hf Hc Hl. pose proof (aligned_range L f HL Hf) as Hr. destruct (proper_place _ _ (i_proper s Hs _ _ Hl)) as (Hl6 & _).
  assert (Z.testbit w f = true) as Ht. { apply (i_bits s Hs p w f Hw Hp Hr). exists (shift_of p f), l. split; [done|apply covers_first; [done|by eapply page_at|done]]. }
  rewrite Hc in Ht; [done|]. unfold in_block. pose proof (width_pos L HL). lia.
Qed.

Lemma inv_exchange s k size scan start p w full full' f w' :
  inv s → procs s !! k = Some (Trying size scan start p w full) → choose_block (level_for size) w = Some (f, w') →
  words s !! Z.to_nat p = Some w →
  inv (s <| words ::= <[Z.to_nat p := w']> |> <| live ::= <[shift_of p f := level_for size]> |>
         <| procs ::= <[k := Hinting size scan start p f full']> |>).
Proof.
  intros Hs Hk Hch Hw. destruct (i_procs s Hs k _ Hk) as (Hsz & Hp & Hw64). destruct (level_for_ok size Hsz) as (HL & _ & _).
  set (L := level_for size) in *. destruct (choose_block_Some _ _ _ _ HL Hw64 Hch) as (Hf & Hc & Hw' & Hbits).
  pose proof (aligned_range L f HL Hf) as Hr. set (sh := shift_of p f) in *.
  assert (∀ l, live s !! sh = Some l → False) as Hnew by (intros l; apply (not_live s p w f L l Hs Hw ltac:(lia) HL Hf Hc)).
  assert (∀ sh0 l, live s !! sh0 = Some l → sh0 ≠ sh) as Hne by (intros sh0 l H0 ->; by eapply Hnew).
  assert (∀ q i, covers sh L q i ↔ q = p ∧ in_block L f i) as Hcov.
  { intros q i. unfold covers, sh. rewrite shift_page, shift_block by (done || lia). split; intros [-> Hin]; done. }
  destruct (i_words s Hs) as [Hlen Hall]. split; simpl.
  - rewrite length_insert. split; [done|]. by apply Forall_insert.
  - intros sh0 l. rewrite lookup_insert_Some. intros [[<- <-]|[_ H0]]; [|by apply (i_proper s Hs)]. split; [done|]. by exists p, f.
  - intros q v i Hv Hq Hi. destruct (decide (q = p)) as [->|Hqp].
    + rewrite list_lookup_insert_eq in Hv by (by eapply lookup_lt_Some). injection Hv as <-.
      rewrite Hbits, orb_true_iff, bool_decide_eq_true, (i_bits s Hs p w i Hw Hq Hi) by done. split.
      * intros [(sh0 & l & H0 & Hc0)|Hin]; [|exists sh, L; rewrite lookup_insert_eq; split; [done|by apply Hcov]].
        exists sh0, l. rewrite lookup_insert_ne by (intros <-; by eapply Hnew). done.
      * intros (sh0 & l & H0 & Hc0). apply lookup_insert_Some in H0 as [[<- <-]|[_ H0]]; [right; by apply Hcov in Hc0 as [_ ?]|left; eauto].
    + rewrite list_lookup_insert_ne in Hv by lia. rewrite (i_bits s Hs q v i Hv Hq Hi). split.
      * intros (sh0 & l & H0 & Hc0). exists sh0, l. rewrite lookup_insert_ne by (intros <-; by eapply Hnew). done.
      * intros (sh0 & l & H0 & Hc0). apply lookup_insert_Some in H0 as [[<- <-]|[_ H0]]; [by apply Hcov in Hc0 as [? _]|eauto].
  - intros sh1 l1 sh2 l2 q i H1 H2 Hc1 Hc2.
    assert (∀ sh0 l, live s !! sh0 = Some l → covers sh0 l q i → covers sh L q i → False) as Hno.
    { intros sh0 l H0 Hc0 HcL. apply Hcov in HcL as [-> Hin].
      assert (0 ≤ i < 64) as Hi by (destruct Hf as (? & ? & _); unfold in_block in Hin; lia).
      assert (Z.testbit w i = true) as Ht by (apply (i_bits s Hs p w i Hw ltac:(lia) Hi); eauto). by rewrite Hc in Ht. }
    apply lookup_insert_Some in H1 as [[<- <-]|[_ H1]]; apply lookup_insert_Some in H2 as [[<- <-]|[_ H2]]; [done|..].
    + exfalso. by eapply Hno.
    + exfalso. by eapply Hno.
    + by eapply (i_disjoint s Hs).
  - intros sh0 Hg. destruct (i_given s Hs sh0 Hg) as (l & hdr & H0 & ?). exists l, hdr.
    rewrite lookup_insert_ne by (intros <-; by eapply Hnew). done.
  - intros k' q. rewrite lookup_insert_Some. intros [[<- <-]|[_ Hq]].
    + simpl. fold sh. by rewrite lookup_insert_eq.
    + eapply proc_ok_live; [|by apply (i_procs s Hs k')]. simpl. intros sh0 l _ H0.
      by rewrite lookup_insert_ne by (intros <-; by eapply Hnew).
  - assert (sh ∉ given s) as Hng by (intros Hg; destruct (i_given s Hs sh Hg) as (l & _ & H0 & _); by eapply Hnew).
    assert (∀ k' q, procs s !! k' = Some q → claims q = Some sh → False) as Hnc.
    { intros k' q Hq Hcl. destruct (claims_live s q sh (i_procs s Hs k' q Hq) Hcl) as [l Hl]. by eapply Hnew. }
    intros k' q sh0. rewrite lookup_insert_Some. intros [[<- <-]|[Hkk Hq]] Hcl.
    + simpl in Hcl. injection Hcl as <-. split; [done|]. intros k2 q2. rewrite lookup_insert_Some.
      intros [[<- _]|[_ Hq2]] Hc2; [done|]. exfalso. by eapply Hnc.
    + destruct (i_claims s Hs k' q sh0 Hq Hcl) as [Hn Hu]. split; [done|]. intros k2 q2. rewrite lookup_insert_Some.
      intros [[<- <-]|[_ Hq2]] Hc2; [|by eapply Hu]. simpl in Hc2. injection Hc2 as <-. exfalso. by eapply Hnc.
  - intros sh0 l. rewrite lookup_insert_Some. intros [[<- <-]|[_ H0]].
    + right. exists k, (Hinting size scan start p f full'). by rewrite lookup_insert_eq.
    + destruct (i_owned s Hs sh0 l H0) as [?|(k' & q & Hq & Hcl)]; [by left|right]. exists k', q.
      rewrite lookup_insert_ne; [done|]. intros <-. rewrite Hk in Hq. by injection Hq as <-.
Qed.

(** The block is handed to the caller. *)
Lemma inv_header s k size p f :
  inv s → procs s !! k = Some (Heading size p f) →
  inv (s <| hdrs ::= <[shift_of p f := mkHdr 0 size (required_size size)]> |> <| given ::= union {[shift_of p f]} |>
         <| procs ::= <[k := Idle]> |>).
Proof.
  intros Hs Hk. destruct (i_procs s Hs k _ Hk) as [Hsz Hl]. set (sh := shift_of p f) in *.
  destruct (i_claims s Hs k _ sh Hk eq_refl) as [Hng Hu]. destruct (level_for_ok size Hsz) as (_ & Hcap & Hfit).
  split; simpl; try apply Hs.
  - intros sh0 Hg. destruct (decide (sh0 = sh)) as [->|Hne].
    + exists (level_for size), (mkHdr 0 size (required_size size)). rewrite lookup_insert_eq. done.
    + apply elem_of_union in Hg as [Hg|Hg]; [by apply elem_of_singleton in Hg|].
      destruct (i_given s Hs sh0 Hg) as (l & hdr & Hi). exists l, hdr. by rewrite lookup_insert_ne.
  - intros k' q. rewrite lookup_insert_Some. intros [[<- <-]|[_ Hq]]; [done|]. by apply (i_procs s Hs k').
  - intros k' q sh0. rewrite lookup_insert_Some. intros [[<- <-]|[Hkk Hq]] Hcl; [done|].
    destruct (i_claims s Hs k' q sh0 Hq Hcl) as [Hn Hu0]. split.
    + rewrite not_elem_of_union, not_elem_of_singleton. split; [|done]. intros ->. apply Hkk. symmetry. by eapply Hu.
    + intros k2 q2. rewrite lookup_insert_Some. intros [[<- <-]|[_ Hq2]] Hc2; [done|by eapply Hu0].
  - intros sh0 l H0. destruct (i_owned s Hs sh0 l H0) as [?|(k' & q & Hq & Hcl)].
    + left. apply elem_of_union. by right.
    + destruct (decide (k = k')) as [<-|Hne].
      * rewrite Hk in Hq. injection Hq as <-. simpl in Hcl. injection Hcl as <-. left. apply elem_of_union. left.
        by apply elem_of_singleton.
      * right. exists k', q. by rewrite lookup_insert_ne.
Qed.

(** The caller gives it back. *)
Lemma inv_free s k sh hdr level :
  inv s → procs s !! k = Some Idle → sh ∈ given s → hdrs s !! sh = Some hdr →
  level_of_capacity (hdr_capacity hdr) = Some level →
  inv (s <| given ::= (.∖ {[sh]}) |> <| procs ::= <[k := Clearing level sh]> |>).
Proof.
  intros Hs Hk Hsh Hhdr Hlev. destruct (i_given s Hs sh Hsh) as (l & hdr' & Hl & Hhdr' & Hcap & _).
  rewrite Hhdr in Hhdr'. injection Hhdr' as <-. destruct (proper_place _ _ (i_proper s Hs _ _ Hl)) as (Hl6 & _).
  rewrite Hcap, capacity_level in Hlev by done. injection Hlev as <-.
  assert (∀ k' q, procs s !! k' = Some q → claims q ≠ Some sh) as Hnc.
  { intros k' q Hq Hcl. by destruct (i_claims s Hs k' q sh Hq Hcl). }
  split; simpl; try apply Hs.
  - intros sh0 Hg. apply elem_of_difference in Hg as [Hg _]. by apply (i_given s Hs).
  - intros k' q. rewrite lookup_insert_Some. intros [[<- <-]|[_ Hq]]; [done|]. by apply (i_procs s Hs k').
  - intros k' q sh0. rewrite lookup_insert_Some. intros [[<- <-]|[Hkk Hq]] Hcl.
    + simpl in Hcl. injection Hcl as <-. split; [by rewrite elem_of_difference, elem_of_singleton; intros []|].
      intros k2 q2. rewrite lookup_insert_Some. intros [[<- _]|[_ Hq2]] Hc2; [done|]. by destruct (Hnc _ _ Hq2).
    + destruct (i_claims s Hs k' q sh0 Hq Hcl) as [Hn Hu]. split; [by rewrite elem_of_difference; intros []|].
      intros k2 q2. rewrite lookup_insert_Some. intros [[<- <-]|[_ Hq2]] Hc2; [|by eapply Hu].
      simpl in Hc2. injection Hc2 as <-. by destruct (Hnc _ _ Hq).
  - intros sh0 l0 H0. destruct (decide (sh0 = sh)) as [->|Hne].
    + right. exists k, (Clearing l sh). by rewrite lookup_insert_eq.
    + destruct (i_owned s Hs sh0 l0 H0) as [Hg|(k' & q & Hq & Hcl)].
      * left. by rewrite elem_of_difference, elem_of_singleton.
      * right. exists k', q. rewrite lookup_insert_ne; [done|]. intros <-. rewrite Hk in Hq. by injection Hq as <-.
Qed.

(** Its bits are cleared. *)
Lemma shmem_inv_clear s k level sh :
  inv s → procs s !! k = Some (Clearing level sh) →
  inv (s <| words ::= alter (release_bits level sh) (Z.to_nat (page_of sh)) |> <| live ::= delete sh |>
         <| procs ::= <[k := Lowering level (page_of sh)]> |>).
Proof.
  intros Hs Hk. pose proof (i_procs s Hs k _ Hk : live s !! sh = Some level) as Hl.
  destruct (i_claims s Hs k _ sh Hk eq_refl) as [Hng Hu].
  destruct (proper_place _ _ (i_proper s Hs _ _ Hl)) as (HL & Hp & Hf & _). destruct (i_words s Hs) as [Hlen Hall].
  split; simpl.
  - rewrite length_alter. split; [done|]. apply hints_alter; [done|]. intros w _. apply land_word, not64_word.
  - intros sh0 l H0. apply lookup_delete_Some in H0 as [_ H0]. by apply (i_proper s Hs).
  - intros p v i Hv Hp0 Hi. destruct (decide (p = page_of sh)) as [->|Hne].
    + rewrite list_lookup_alter_eq in Hv. destruct (words s !! Z.to_nat (page_of sh)) as [w|] eqn:Hw; [|done].
      injection Hv as <-. unfold release_bits. rewrite release_bits_spec by done.
      rewrite andb_true_iff, negb_true_iff, bool_decide_eq_false, (i_bits s Hs _ w i Hw Hp0 Hi). split.
      * intros [(sh0 & l & H0 & Hc0) Hno]. exists sh0, l. split; [|done]. apply lookup_delete_Some. split; [|done].
        intros <-. rewrite Hl in H0. injection H0 as <-. by destruct Hc0.
      * intros (sh0 & l & H0 & Hc0). apply lookup_delete_Some in H0 as [Hne H0]. split; [by exists sh0, l|].
        intros Hin. apply Hne. by apply (i_disjoint s Hs sh level sh0 l (page_of sh) i).
    + rewrite list_lookup_alter_ne in Hv by lia. rewrite (i_bits s Hs p v i Hv Hp0 Hi). split.
      * intros (sh0 & l & H0 & Hc0). exists sh0, l. split; [|done]. apply lookup_delete_Some. split; [|done].
        intros <-. by destruct Hc0.
      * intros (sh0 & l & H0 & Hc0). apply lookup_delete_Some in H0 as [_ H0]. by exists sh0, l.
  - intros sh1 l1 sh2 l2 p i H1 H2. apply lookup_delete_Some in H1 as [_ H1]. apply lookup_delete_Some in H2 as [_ H2].
    by apply (i_disjoint s Hs).
  - intros sh0 Hg. destruct (i_given s Hs sh0 Hg) as (l & hdr & H0 & Hi). exists l, hdr. split; [|done].
    apply lookup_delete_Some. split; [|done]. by intros <-.
  - intros k' q. rewrite lookup_insert_Some. intros [[<- <-]|[Hkk Hq]]; [done|].
    eapply proc_ok_live; [|by apply (i_procs s Hs k')]. simpl. intros sh0 l Hcl H0. apply lookup_delete_Some. split; [|done].
    intros <-. apply Hkk. symmetry. by eapply Hu.
  - intros k' q sh0. rewrite lookup_insert_Some. intros [[<- <-]|[_ Hq]] Hcl; [done|].
    destruct (i_claims s Hs k' q sh0 Hq Hcl) as [Hn Hu0]. split; [done|]. intros k2 q2. rewrite lookup_insert_Some.
    intros [[<- <-]|[_ Hq2]] Hc2; [done|by eapply Hu0].
  - intros sh0 l H0. apply lookup_delete_Some in H0 as [Hne H0].
    destruct (i_owned s Hs sh0 l H0) as [Hg|(k' & q & Hq & Hcl)]; [by left|right]. exists k', q.
    rewrite lookup_insert_ne; [done|]. intros <-. rewrite Hk in Hq. injection Hq as <-. simpl in Hcl. by injection Hcl as ->.
Qed.

Lemma shmem_inv_initial s : 0 ≤ n → initial s → inv s.
Proof.
  intros Hn (Hw & Hl & Hg & Hp).
  assert (∀ sh l, live s !! sh = Some l → False) as Hno by (intros sh l; by rewrite Hl, lookup_empty).
  split.
  - rewrite Hw, length_replicate. split; [lia|]. apply Forall_replicate. by vm_compute.
  - intros sh l H0. destruct (Hno _ _ H0).
  - intros p w i H0 _ Hi. rewrite Hw in H0. apply lookup_replicate in H0 as [-> _]. rewrite Z.bits_0. split; [done|].
    intros (sh & l & H0 & _). destruct (Hno _ _ H0).
  - intros sh1 l1 sh2 l2 p i H0. destruct (Hno _ _ H0).
  - intros sh. rewrite Hg. intros H0. by apply elem_of_empty in H0.
  - intros k q Hq. by rewrite (Hp k q Hq).
  - intros k q sh Hq Hc. by rewrite (Hp k q Hq) in Hc.
  - intros sh l H0. destruct (Hno _ _ H0).
Qed.

(** Steps that touch no block and no header. *)
Lemma inv_local s k q q' hs :
  inv s → procs s !! k = Some q → claims q' = claims q → proc_ok s q' →
  inv (s <| hints := hs |> <| procs ::= <[k := q']> |>).
Proof.
  intros Hs Hk Hc Hok. eapply (inv_keep s _ k q q' Hs Hk Hc Hok); [done..|]. intros sh Hg.
  destruct (i_given s Hs sh Hg) as (l & hdr & _ & Hh & _). by exists hdr, hdr.
Qed.

Lemma inv_same s k q q' :
  inv s → procs s !! k = Some q → claims q' = claims q → proc_ok s q' → inv (s <| procs ::= <[k := q']> |>).
Proof.
  intros Hs Hk Hc Hok. eapply (inv_keep s _ k q q' Hs Hk Hc Hok); [done..|]. intros sh Hg.
  destruct (i_given s Hs sh Hg) as (l & hdr & _ & Hh & _). by exists hdr, hdr.
Qed.

Lemma shmem_inv_step s s' : inv s → step s s' → inv s'.
Proof.
  intros Hs Hstep. destruct Hstep as [s k q s' q' Hk Hp]. pose proof (i_procs s Hs k q Hk) as Hok. destruct Hp.
  - eapply inv_same; [done..|]. split; [done|]. apply u32_range.
  - destruct Hok as [Hsz Hp]. eapply inv_same; [done..|]. split_and!; [done..|]. by eapply word_at.
  - destruct Hok as [Hsz Hp]. eapply inv_same; [done..|]. by split.
  - by eapply inv_same.
  - destruct Hok as (Hsz & Hp & _). eapply inv_same; [done..|]. split; [done|lia].
  - by eapply inv_exchange.
  - destruct Hok as (Hsz & Hp & _). eapply inv_same; [done..|]. split; [done|split; [exact Hp|]]. by eapply word_at.
  - by eapply (inv_local s k _ (Heading size p f)).
  - by apply inv_header.
  - destruct (i_given s Hs sh H) as (l & hdr' & _ & Hh & _). rewrite H0 in Hh. injection Hh as <-.
    eapply (inv_keep s _ k Idle Idle Hs Hk); [done..|]. intros sh0 Hg. simpl.
    destruct (decide (sh0 = sh)) as [->|Hne].
    + exists hdr, (mkHdr sign (hdr_size hdr) (hdr_capacity hdr)). by rewrite lookup_insert_eq.
    + destruct (i_given s Hs sh0 Hg) as (l0 & h0 & _ & Hh0 & _). exists h0, h0. by rewrite lookup_insert_ne.
  - by eapply inv_free.
  - by apply shmem_inv_clear.
  - by eapply (inv_local s k _ Idle).
Qed.

Lemma shmem_inv_reachable s : 0 ≤ n → reachable s → inv s.
Proof. intros Hn. induction 1 as [s Hi|s s' _ IH Hst]; [by apply shmem_inv_initial|by eapply shmem_inv_step]. Qed.

Lemma capacity_width l : 0 ≤ l ≤ 6 → capacity_of l = 2 ^ 14 * width l.
Proof. intros Hl. unfold capacity_of, width. rewrite <-Z.pow_add_r by lia. f_equal. lia. Qed.

(** The bytes of a block are those of its bits. *)
Lemma covers_bytes sh l p i : proper sh l → 0 ≤ p < n → 0 ≤ i < 64 → covers sh l p i ↔ sh ≤ shift_of p i < sh + capacity_of l.
Proof.
  intros Hpr Hpn Hi. destruct (proper_place sh l Hpr) as (Hl & Hp & (H0 & H1 & _) & Hsh). rewrite capacity_width by done.
  pose proof (width_pos l Hl). unfold covers, in_block. set (q := page_of sh) in *. set (f := block_of sh) in *. rewrite Hsh.
  rewrite !shift_place by lia. lia.
Qed.

Lemma disjoint_blocks s : 0 ≤ n → reachable s →
  (∀ sh, sh ∈ given s → ∃ hdr, hdrs s !! sh = Some hdr ∧ 0 ≤ sh ∧
     sh + hdr_capacity hdr ≤ n * CUCKOO_SHMEM_ALLOCATOR_PAGE_SIZE ∧ hdr_size hdr + sizeof_MemoryHdr ≤ hdr_capacity hdr) ∧
  (∀ sh1 sh2 hdr1 hdr2, sh1 ∈ given s → sh2 ∈ given s → sh1 ≠ sh2 → hdrs s !! sh1 = Some hdr1 → hdrs s !! sh2 = Some hdr2 →
     sh1 + hdr_capacity hdr1 ≤ sh2 ∨ sh2 + hdr_capacity hdr2 ≤ sh1) ∧
  ((∀ k q, procs s !! k = Some q → q = Idle) → ∀ p w i, words s !! Z.to_nat p = Some w → 0 ≤ p → 0 ≤ i < 64 →
     Z.testbit w i = true ↔ ∃ sh hdr, sh ∈ given s ∧ hdrs s !! sh = Some hdr ∧ sh ≤ shift_of p i < sh + hdr_capacity hdr).
Proof.
  intros Hn Hr. pose proof (shmem_inv_reachable s Hn Hr) as Hs. split_and!.
  - intros sh Hg. destruct (i_given s Hs sh Hg) as (l & hdr & Hl & Hh & Hc & Hsz). exists hdr. split; [done|].
    rewrite Hc. destruct (proper_place _ _ (i_proper s Hs _ _ Hl)) as (HL & Hp & (H0 & H1 & _) & Hsh).
    pose proof (width_pos l HL). rewrite capacity_width in * by done. rewrite Hsh. rewrite shift_place by lia.
    change CUCKOO_SHMEM_ALLOCATOR_PAGE_SIZE with (2 ^ 20). lia.
  - intros sh1 sh2 hdr1 hdr2 Hg1 Hg2 Hne Hh1 Hh2.
    destruct (i_given s Hs sh1 Hg1) as (l1 & h1 & Hl1 & Hh1' & Hc1 & _). destruct (i_given s Hs sh2 Hg2) as (l2 & h2 & Hl2 & Hh2' & Hc2 & _).
    assert (h1 = hdr1) as -> by congruence. assert (h2 = hdr2) as -> by congruence. rewrite Hc1, Hc2.
    pose proof (i_proper s Hs _ _ Hl1) as Hp1. pose proof (i_proper s Hs _ _ Hl2) as Hp2.
    destruct (decide (sh1 ≤ sh2 < sh1 + capacity_of l1)) as [Hin|]; [|destruct (decide (sh2 ≤ sh1 < sh2 + capacity_of l2)) as [Hin|]; [|lia]].
    + exfalso. destruct (proper_place _ _ Hp2) as (HL2 & Hpg2 & Hf2 & Hsh2). pose proof (aligned_range _ _ HL2 Hf2) as Hr2. apply Hne.
      apply (i_disjoint s Hs sh1 l1 sh2 l2 (page_of sh2) (block_of sh2)); [done|done|apply covers_bytes; [done|done|done|by rewrite <-Hsh2]|].
      rewrite Hsh2 at 1. by apply covers_first.
    + exfalso. destruct (proper_place _ _ Hp1) as (HL1 & Hpg1 & Hf1 & Hsh1). pose proof (aligned_range _ _ HL1 Hf1) as Hr1. apply Hne.
      apply (i_disjoint s Hs sh1 l1 sh2 l2 (page_of sh1) (block_of sh1)); [done|done| |apply covers_bytes; [done|done|done|by rewrite <-Hsh1]].
      rewrite Hsh1 at 1. by apply covers_first.
  - intros Hidle p w i Hw Hp Hi. rewrite (i_bits s Hs p w i Hw Hp Hi). split.
    + intros (sh & l & Hl & Hcov). destruct (i_owned s Hs sh l Hl) as [Hg|(k & q & Hq & Hc)]; [|by rewrite (Hidle k q Hq) in Hc].
      destruct (i_given s Hs sh Hg) as (l' & hdr & Hl' & Hh & Hcap & _). assert (l' = l) as -> by congruence. exists sh, hdr.
      split_and!; [done..| |]; rewrite ?Hcap; apply (covers_bytes sh l p i (i_proper s Hs _ _ Hl) (page_at s p w Hs Hw Hp) Hi) in Hcov; lia.
    + intros (sh & hdr & Hg & Hh & Hin). destruct (i_given s Hs sh Hg) as (l & hdr' & Hl & Hh' & Hcap & _).
      assert (hdr' = hdr) as -> by congruence. exists sh, l. split; [done|]. rewrite Hcap in Hin.
      by apply covers_bytes; [apply (i_proper s Hs)|eapply page_at| |].
Qed.
End interleaving.

(** (C36) In an allocator of at most 4096 pages (4 GiB; beyond that offsets wrap
    around), whatever way the atomic accesses of the processes interleave: every
    block a caller has lies in the pages, its header says how large it is and
    this is enough for what was asked for; two blocks that callers have do not
    overlap; and when no process is inside Malloc or Free, the bits in use are
    those of the blocks that callers have, so that nothing is lost. *)
Theorem shmem_blocks_disjoint n s : 0 ≤ n ≤ 4096 → reachable n s →
  (∀ sh, sh ∈ given s → ∃ hdr, hdrs s !! sh = Some hdr ∧ 0 ≤ sh ∧
     sh + hdr_capacity hdr ≤ n * CUCKOO_SHMEM_ALLOCATOR_PAGE_SIZE ∧ hdr_size hdr + sizeof_MemoryHdr ≤ hdr_capacity hdr) ∧
  (∀ sh1 sh2 hdr1 hdr2, sh1 ∈ given s → sh2 ∈ given s → sh1 ≠ sh2 → hdrs s !! sh1 = Some hdr1 → hdrs s !! sh2 = Some hdr2 →
     sh1 + hdr_capacity hdr1 ≤ sh2 ∨ sh2 + hdr_capacity hdr2 ≤ sh1) ∧
  ((∀ k q, procs s !! k = Some q → q = Idle) → ∀ p w i, words s !! Z.to_nat p = Some w → 0 ≤ p → 0 ≤ i < 64 →
     Z.testbit w i = true ↔ ∃ sh hdr, sh ∈ given s ∧ hdrs s !! sh = Some hdr ∧ sh ≤ shift_of p i < sh + hdr_capacity hdr).
Proof. intros [Hn Hsmall]. by apply disjoint_blocks. Qed.
End Processes.

(** ** Examples: two pages, of which nothing is in use *)
Module ShmemWitness.
Definition a0 : CuckooShmemAllocator := mkAllocator 2 0 (replicate 7 0) [0; 0] ∅.

Lemma a0_ok : allocator_ok a0.
Proof.
  split; simpl; [by unfold PAGE_LIMIT|done|repeat constructor; by vm_compute|]. split; [done|]. repeat constructor; lia.
Qed.

Lemma Malloc_finds_witness : ∃ a', CuckooShmemAllocatorMalloc 100 a0 = (24, a') ∧ allocated 100 6 a0 24 a'.
Proof.
  pose proof (Malloc_finds 100 a0 a0_ok ltac:(lia)) as H. destruct (CuckooShmemAllocatorMalloc 100 a0) as [r a'] eqn:E.
  assert (r = 24) as -> by (vm_compute in E; by injection E). exists a'. split; [done|].
  rewrite decide_False in H by by vm_compute. replace (level_of (required_size 100)) with 6 in H by by vm_compute.
  destruct H as (_ & _ & _ & [[H _]|[_ H]]); [discriminate H|exact H].
Defined.

Definition a1 : CuckooShmemAllocator := (CuckooShmemAllocatorMalloc 500000 a0).2.

(** A large block and a small one; the small one is given back. *)
Lemma Malloc_Free_restores_witness :
  ∃ a'', CuckooShmemAllocatorFree 524312 (CuckooShmemAllocatorMalloc 100 a1).2 = Some a'' ∧ allocator_ok a'' ∧
    pageCntlArray a'' = [0x00000000FFFFFFFF; 0].
Proof.
  apply (Malloc_Free_restores 100 a1 524312 (CuckooShmemAllocatorMalloc 100 a1).2).
  - pose proof (malloc_spec 500000 a0 a0_ok ltac:(lia)) as H. fold a1 in H.
    destruct (CuckooShmemAllocatorMalloc 500000 a0) as [r a'] eqn:E. change a1 with (CuckooShmemAllocatorMalloc 500000 a0).2.
    rewrite E. simpl. rewrite decide_False in H by by vm_compute.
    destruct H as (_ & _ & _ & [(_ & -> & _)|(_ & p & f & w & _ & _ & _ & _ & _ & _ & H)]); [exact a0_ok|exact H].
  - lia.
  - vm_compute. reflexivity.
  - discriminate.
Defined.

Import Processes.
Definition s0 : Shared := mkShared [0; 0] (replicate 7 0) ∅ ∅ ∅ {[0%nat := Idle; 1%nat := Idle]}.

(** Process 0 takes a block. *)
Definition s1 : Shared := s0 <| procs ::= <[0%nat := Loading 100 0 0 0]> |>.
Definition s2 : Shared := s1 <| procs ::= <[0%nat := Trying 100 0 0 0 0 false]> |>.
Definition s3 : Shared :=
  s2 <| words ::= <[0%nat := 1]> |> <| live ::= <[0 := 6]> |> <| procs ::= <[0%nat := Hinting 100 0 0 0 0 false]> |>.
Definition s4 : Shared := s3 <| hints ::= alter id 6%nat |> <| procs ::= <[0%nat := Heading 100 0 0]> |>.
Definition s5 : Shared :=
  s4 <| hdrs ::= <[0 := mkHdr 0 100 16384]> |> <| given ::= union {[0]} |> <| procs ::= <[0%nat := Idle]> |>.

Lemma s5_reachable : reachable 2 s5.
Proof.
  apply (reach_next 2 s4). 2: { apply (step_proc 2 s4 0%nat (Heading 100 0 0)); [done|]. apply (p_header 2 s4 100 0 0). }
  apply (reach_next 2 s3). 2: { apply (step_proc 2 s3 0%nat (Hinting 100 0 0 0 0 false)); [done|]. by apply (p_hint 2 s3 100 0 0 0 0 false id); right. }
  apply (reach_next 2 s2). 2: { apply (step_proc 2 s2 0%nat (Trying 100 0 0 0 0 false)); [done|]. by apply (p_exchange 2 s2 100 0 0 0 0 false 0 1). }
  apply (reach_next 2 s1). 2: { apply (step_proc 2 s1 0%nat (Loading 100 0 0 0)); [done|]. by apply p_load. }
  apply (reach_next 2 s0). 2: { apply (step_proc 2 s0 0%nat Idle); [done|]. by apply p_malloc. }
  apply reach_initial. split_and!; [done..|]. intros k p Hp. change (procs s0) with ({[0%nat := Idle; 1%nat := Idle]} : gmap nat proc) in Hp.
  apply lookup_insert_Some in Hp as [[_ <-]|[_ Hp]]; [done|]. by apply lookup_singleton_Some in Hp as [_ <-].
Qed.

Lemma shmem_blocks_disjoint_witness : ∃ hdr, hdrs s5 !! 0 = Some hdr ∧ 0 ≤ 0 ∧
  0 + hdr_capacity hdr ≤ 2 * CUCKOO_SHMEM_ALLOCATOR_PAGE_SIZE ∧ hdr_size hdr + sizeof_MemoryHdr ≤ hdr_capacity hdr.
Proof.
  destruct (shmem_blocks_disjoint 2 s5 ltac:(lia) s5_reachable) as (H & _ & _). apply H.
  by apply (bool_decide_unpack (0 ∈ given s5)).
Defined.

(** The test for the last block of a page holds only for page 0: on page 1 the
    hint stays on the full page. *)
Example page_is_full_on_page_1 : page_is_full 6 16384 (shift_of 1 63) = false.
Proof. reflexivity. Qed.

(** 4 GiB and one page: a request that finds the first page in use gets the
    block of the page at 4 GiB, which is the memory of the first page. *)
Definition a_large : CuckooShmemAllocator :=
  mkAllocator 4097 0 (replicate 7 0) (replicate 4096 (2 ^ 64 - 1) ++ [0]) ∅.
Example blocks_overlap_above_4GiB : (CuckooShmemAllocatorMalloc 100 a_large).1 = 24 ∧
  page_word a_large 0 = 2 ^ 64 - 1 ∧ shift_of 0 0 + sizeof_MemoryHdr = 24.
Proof. vm_compute. done. Qed.
End ShmemWitness.
