(* ===== verification/Posix.v ===== *)
(** * What the data store uses of POSIX

    Files are named by paths and used through descriptors.  Every call may fail
    or do less than asked, and the time passes: the operations are those of a
    type class over a state [F] that the code cannot look into.  Error numbers
    are those of errno.h on Linux. *)
From S2P Require Import Prelude.

Record statfs_info := mkStatfs { f_bsize : Z; f_blocks : Z; f_bavail : Z; f_files : Z; f_ffree : Z }.

Class Posix (F : Type) := {
  (** remove(3): whether it returned 0 *)
  posix_remove : string → F → bool * F;
  (** access(2) with F_OK *)
  posix_access : string → F → bool;
  (** open(2): the descriptor, or -1 *)
  posix_open : string → Z → F → Z * F;
  posix_close : Z → F → F;
  (** pread(2) of a descriptor, a length and an offset: the value returned and
      the bytes put into the buffer *)
  posix_pread : Z → Z → Z → F → Z * list Z * F;
  (** pwrite(2) of a descriptor, the bytes of a buffer and an offset *)
  posix_pwrite : Z → list Z → Z → F → Z * F;
  posix_ftruncate : Z → Z → F → Z * F;
  posix_fsync : Z → F → F;
  (** opendir(3), readdir(3) and stat(2) of every entry: name, access time and
      size (zeros when stat fails), and whether closedir(3) returned 0 *)
  posix_listdir : string → F → option (list (string * Z * Z) * bool);
  (** statfs(2) of the directory of the cache *)
  posix_statfs : F → option statfs_info;
  (** whether malloc(3) or aligned_alloc(3) gives memory *)
  posix_alloc : F → bool * F;
  posix_time : F → Z;
  posix_errno : F → Z }.

Definition ENOENT : Z := 2.
Definition EIO : Z := 5.
Definition EBADF : Z := 9.
Definition EAGAIN : Z := 11.
Definition ENOMEM : Z := 12.
Definition EINVAL : Z := 22.
Definition ENOSPC : Z := 28.
Definition EHOSTUNREACH : Z := 113.

Definition UINT64_MAX : Z := 2 ^ 64 - 1.

(** The flags of open(2) that the code tests. *)
Definition O_RDONLY : Z := 0.
Definition O_WRONLY : Z := 1.
Definition O_ACCMODE : Z := 3.
Definition O_CREAT : Z := 64.
Definition O_DIRECT : Z := 16384.

(** ** Contents of files *)

(** The content after [bs], at least one byte, has been written at offset
    [off]; a gap is zeros. *)
Definition file_write (f : list Z) (off : Z) (bs : list Z) : list Z :=
  let o := Z.to_nat off in
  take o (f ++ replicate (o - length f) 0) ++ bs ++ drop (o + length bs) f.

Definition file_read (f : list Z) (off n : Z) : list Z := take (Z.to_nat n) (drop (Z.to_nat off) f).

Lemma lookup_file_write f off bs i : 0 ≤ off →
  file_write f off bs !! i =
    if decide (i < Z.to_nat off)%nat then
      if decide (i < length f)%nat then f !! i else Some 0
    else if decide (i < Z.to_nat off + length bs)%nat then bs !! (i - Z.to_nat off)%nat else f !! i.
Proof.
  intros Hoff. unfold file_write. set (o := Z.to_nat off). set (g := f ++ replicate (o - length f) 0).
  assert (length (take o g) = o) as Hlen by (unfold g; rewrite length_take, length_app, length_replicate; lia).
  destruct (decide (i < o)%nat) as [Hi|Hi].
  - rewrite lookup_app_l by lia. rewrite lookup_take_lt by done. unfold g. destruct (decide (i < length f)%nat) as [Hf|Hf].
    + by rewrite lookup_app_l.
    + rewrite lookup_app_r by lia. apply lookup_replicate_2. lia.
  - rewrite lookup_app_r, Hlen by lia. destruct (decide (i < o + length bs)%nat) as [Hb|Hb].
    + by rewrite lookup_app_l by lia.
    + rewrite lookup_app_r by lia. rewrite lookup_drop. f_equal. lia.
Qed.

Lemma length_file_write f off bs : 0 ≤ off →
  length (file_write f off bs) = (Z.to_nat off + length bs + (length f - (Z.to_nat off + length bs)))%nat.
Proof.
  intros Hoff. unfold file_write. rewrite !length_app, length_take, length_app, length_replicate, length_drop. lia.
Qed.

(** Two writes one after the other are one write. *)
Lemma file_write_append f off a b : 0 ≤ off →
  file_write (file_write f off a) (off + Z.of_nat (length a)) b = file_write f off (a ++ b).
Proof.
  intros Hoff. apply list_eq. intros i. rewrite !lookup_file_write, length_file_write, length_app by (done || lia).
  replace (Z.to_nat (off + Z.of_nat (length a))) with (Z.to_nat off + length a)%nat by lia.
  repeat (destruct (decide _); try lia); try done; rewrite ?lookup_app_l, ?lookup_app_r by lia; try done.
  - f_equal. lia.
Qed.

(** Open files: the result of pwrite or pread, when it is not negative, says how
    many bytes have been written or read, and pwrite of some bytes does not
    return 0; a pwrite that fails changes nothing; a file that is removed while it is open keeps its content. *)
Class PosixFiles (F : Type) `{!Posix F} := {
  fd_content : F → Z → list Z;
  posix_pwrite_law fd bs off f n f' : posix_pwrite fd bs off f = (n, f') → 0 ≤ n → 0 ≤ off →
    n ≤ Z.of_nat (length bs) ∧ fd_content f' fd = file_write (fd_content f fd) off (take (Z.to_nat n) bs);
  posix_pwrite_failed fd bs off f n f' : posix_pwrite fd bs off f = (n, f') → n < 0 → fd_content f' fd = fd_content f fd;
  posix_pwrite_some fd bs off f n f' : posix_pwrite fd bs off f = (n, f') → bs ≠ [] → n ≠ 0;
  posix_pread_law fd n off f r bs f' : posix_pread fd n off f = (r, bs, f') → 0 ≤ r → 0 ≤ off →
    r ≤ Z.max 0 n ∧ Z.of_nat (length bs) = r ∧ bs = file_read (fd_content f fd) off r;
  posix_pread_keeps fd n off f r bs f' fd' : posix_pread fd n off f = (r, bs, f') → -1 ≤ r ∧ fd_content f' fd' = fd_content f fd';
  posix_remove_law p f b f' fd : posix_remove p f = (b, f') → fd_content f' fd = fd_content f fd;
  posix_fsync_law fd f fd' : fd_content (posix_fsync fd f) fd' = fd_content f fd';
  posix_alloc_law f fd : fd_content (posix_alloc f).2 fd = fd_content f fd;
  posix_errno_law f : 0 ≤ posix_errno f < 4096 }.

(** ** A file system without failures, for examples

    Names of files, their contents by number, open descriptors, time, errno and
    the size of the disk in bytes. *)
Record RefFs := mkRefFs {
  ref_names : gmap string Z;
  ref_files : gmap Z (list Z);
  ref_fds : gmap Z Z;
  ref_next : Z;
  ref_time : Z;
  ref_errno : Z;
  ref_blocks : Z }.
#[global] Instance eta_RefFs : Eta RefFs := λ f,
  mkRefFs (ref_names f) (ref_files f) (ref_fds f) (ref_next f) (ref_time f) (ref_errno f) (ref_blocks f).

Definition ref_file (f : RefFs) (o : Z) : list Z := default [] (ref_files f !! o).
Definition ref_used (f : RefFs) : Z := map_fold (λ _ o n, n + Z.of_nat (length (ref_file f o))) 0 (ref_names f).
Definition ref_content (f : RefFs) (fd : Z) : list Z := default [] (ref_file f <$> ref_fds f !! fd).

(** The name of the entry of directory [dir] that [path] is, if it is one. *)
Definition entry_of (dir path : string) : option string :=
  let p := (dir +:+ "/")%string in
  if String.prefix p path then Some (String.substring (String.length p) (String.length path - String.length p) path) else None.

#[global] Instance RefPosix : Posix RefFs := {|
  posix_remove p f := match ref_names f !! p with
    | Some _ => (true, f <| ref_names ::= delete p |>)
    | None => (false, f <| ref_errno := ENOENT |>)
    end;
  posix_access p f := bool_decide (is_Some (ref_names f !! p));
  posix_open p flags f :=
    let fd := ref_next f in
    match ref_names f !! p with
    | Some o => (fd, f <| ref_fds ::= <[fd := o]> |> <| ref_next := fd + 1 |>)
    | None => if decide (Z.land flags O_CREAT ≠ 0) then
        (fd, f <| ref_names ::= <[p := fd]> |> <| ref_files ::= <[fd := []]> |> <| ref_fds ::= <[fd := fd]> |> <| ref_next := fd + 1 |>)
      else (-1, f <| ref_errno := ENOENT |>)
    end;
  posix_close fd f := f <| ref_fds ::= delete fd |>;
  posix_pread fd n off f := match ref_fds f !! fd with
    | Some o => let r := file_read (ref_file f o) off n in (Z.of_nat (length r), r, f)
    | None => (-1, [], f <| ref_errno := EBADF |>)
    end;
  posix_pwrite fd bs off f := match ref_fds f !! fd with
    | Some o => (Z.of_nat (length bs), f <| ref_files ::= <[o := file_write (ref_file f o) off bs]> |>)
    | None => (-1, f <| ref_errno := EBADF |>)
    end;
  posix_ftruncate fd n f := match ref_fds f !! fd with
    | Some o => (0, f <| ref_files ::= <[o := take (Z.to_nat n) (ref_file f o ++ replicate (Z.to_nat n - length (ref_file f o)) 0)]> |>)
    | None => (-1, f <| ref_errno := EBADF |>)
    end;
  posix_fsync _ f := f;
  posix_listdir dir f := Some (omap (λ '(p, o), (λ n, (n, 0, Z.of_nat (length (ref_file f o)))) <$> entry_of dir p) (map_to_list (ref_names f)), true);
  posix_statfs f := Some (mkStatfs 1 (ref_blocks f) (ref_blocks f - ref_used f) 1000 (1000 - Z.of_nat (size (ref_names f))));
  posix_alloc f := (true, f);
  posix_time f := ref_time f;
  posix_errno f := ref_errno f mod 4096 |}.

#[global, program] Instance RefPosixFiles : PosixFiles RefFs := {| fd_content := ref_content |}.
Next Obligation.
  intros fd bs off f n f'. simpl. unfold ref_content. destruct (ref_fds f !! fd) as [o|] eqn:Ho; intros [= <- <-] Hn; [|lia].
  intros _. split; [lia|]. simpl. rewrite Ho. simpl. unfold ref_file at 1. simpl. rewrite lookup_insert_eq. simpl.
  by rewrite Nat2Z.id, firstn_all.
Qed.
Next Obligation. intros fd bs off f n f'. simpl. destruct (ref_fds f !! fd); intros [= <- <-] ?; [lia|done]. Qed.
Next Obligation.
  intros fd bs off f n f'. simpl. destruct (ref_fds f !! fd); intros [= <- _]; [|done]. destruct bs; simpl; [done|lia].
Qed.
Next Obligation.
  intros fd n off f r bs f'. simpl. unfold ref_content. destruct (ref_fds f !! fd) as [o|] eqn:Ho; intros [= <- <- _] Hr; [|lia].
  intros Hoff. simpl. unfold file_read. rewrite length_take, Nat2Z.id. split_and!; [lia|done|].
  rewrite <-(firstn_all (take (Z.to_nat n) _)) at 1. rewrite take_take. f_equal. rewrite length_take, length_drop. lia.
Qed.
Next Obligation. intros fd n off f r bs f' fd'. simpl. destruct (ref_fds f !! fd); intros [= <- <- <-]; (split; [lia|done]). Qed.
Next Obligation. intros p f b f' fd. simpl. destruct (ref_names f !! p); by intros [= <- <-]. Qed.
Next Obligation. done. Qed.
Next Obligation. done. Qed.
Next Obligation. intros f. simpl. by apply Z.mod_pos_bound. Qed.
