(* ===== verification/FileLock.v ===== *)
(** * Locks of cache files (cuckoo_store/src/util/file_lock.cpp)

    A [FileLock] is a monitor: a map from inode ids to lock states under one
    mutex, with a condition variable per locked inode.  The functions below are
    the critical sections of its methods; [innerGetFileLock] is split where it
    waits.  Module Lockers has any number of [FileLocker] objects in any
    interleaving: the locks exclude, and no wake-up is lost.

    [lockCount] is an int in the code: it is a [Z] here, and the invariant
    bounds it by the number of lockers. *)
From S2P Require Import Prelude.

(** enum class LockMode { X = -1, S = 1 } *)
Inductive LockMode := LockX | LockS.

#[global] Instance LockMode_eq_dec : EqDecision LockMode.
Proof. solve_decision. Defined.

Definition mode_int (m : LockMode) : Z := match m with LockX => -1 | LockS => 1 end.

(** A condition variable is its identity; [None] is the null pointer. *)
Record FileLockState := mkFileLockState {
  cv : option nat;
  lockCount : Z;
  waitingThreads : Z }.
#[global] Instance eta_FileLockState : Eta FileLockState := λ s,
  mkFileLockState (cv s) (lockCount s) (waitingThreads s).

(** The map, and the identity that the next condition variable gets. *)
Record FileLock := mkFileLock {
  lockStates : gmap Z FileLockState;
  nextCv : nat }.
#[global] Instance eta_FileLock : Eta FileLock := λ l, mkFileLock (lockStates l) (nextCv l).

Definition new_FileLock : FileLock := mkFileLock ∅ 0.

(** inodeIdTofileLockStateMap[inodeId]: a missing entry is value-initialised. *)
Definition state_at (l : FileLock) (inodeId : Z) : FileLockState :=
  default (mkFileLockState None 0 0) (lockStates l !! inodeId).

Definition set_state (l : FileLock) (inodeId : Z) (st : FileLockState) : FileLock :=
  l <| lockStates ::= <[inodeId := st]> |>.

(** The new state, and the condition variable that is notified. *)
Definition ReleaseFileLock (inodeId : Z) (m : LockMode) (l : FileLock) : FileLock * option nat :=
  match lockStates l !! inodeId with
  | None => (l, None)
  | Some st =>
    let count := if decide (m = LockS) then lockCount st - 1 else lockCount st + 1 in
    let st' := st <| lockCount := count |> in
    if decide (count = 0) then
      if decide (waitingThreads st = 0) then (l <| lockStates ::= delete inodeId |>, None)
      else (set_state l inodeId st', cv st)
    else (set_state l inodeId st', None)
  end.

(** What [innerGetFileLock] does before it waits: it returns a boolean, or goes
    to sleep on a condition variable. *)
Inductive get_result := Returns (locked : bool) | Waits (c : nat).

Definition innerGetFileLock (inodeId : Z) (m : LockMode) (wait : bool) (l : FileLock) : get_result * FileLock :=
  let lockCnt := match lockStates l !! inodeId with Some st => lockCount st | None => 0 end in
  if decide (lockCnt = 0) then
    let st := state_at l inodeId in
    if decide (waitingThreads st = 0) then
      (Returns true,
       mkFileLock (<[inodeId := st <| cv := Some (nextCv l) |> <| lockCount := mode_int m |>]> (lockStates l)) (nextCv l + 1))
    else (Returns true, set_state l inodeId (st <| lockCount := mode_int m |>))
  else if decide (lockCnt > 0 ∧ m = LockS) then
    let st := state_at l inodeId in
    (Returns true, set_state l inodeId (st <| lockCount := lockCount st + 1 |>))
  else if wait then
    let st := state_at l inodeId in
    match cv st with
    | None => (Returns false, set_state l inodeId st)
    | Some c => (Waits c, set_state l inodeId (st <| waitingThreads := waitingThreads st + 1 |>))
    end
  else (Returns false, l).

(** The predicate a waiting thread evaluates whenever it wakes up. *)
Definition wait_over (m : LockMode) (st : FileLockState) : bool :=
  match m with LockX => bool_decide (lockCount st = 0) | LockS => bool_decide (0 ≤ lockCount st) end.

(** What [innerGetFileLock] does after its wait, or that it goes on waiting. *)
Definition resume (inodeId : Z) (m : LockMode) (l : FileLock) : option FileLock :=
  let st := state_at l inodeId in
  if wait_over m st then
    Some (set_state l inodeId (st <| waitingThreads := waitingThreads st - 1 |> <| lockCount := lockCount st + mode_int m |>))
  else None.

Definition GetFileLock := innerGetFileLock.
Definition TryGetFileLock (inodeId : Z) (m : LockMode) (l : FileLock) : get_result * FileLock := innerGetFileLock inodeId m false l.
Definition WaitGetFileLock (inodeId : Z) (m : LockMode) (l : FileLock) : get_result * FileLock := innerGetFileLock inodeId m true l.

Definition TestLocked (inodeId : Z) (m : LockMode) (l : FileLock) : bool :=
  match lockStates l !! inodeId with
  | None => false
  | Some st => if decide (m = LockX) then true else bool_decide (lockCount st < 0)
  end.

(** ** Lockers *)
Module Lockers.

(** A [FileLocker]: not constructed, or constructed without the lock and so of
    no effect; asleep in the constructor on condition variable [c]; woken up and
    about to take the mutex and look again; constructed with the lock. *)
Inductive locker :=
  | Off
  | Asleep (inodeId : Z) (m : LockMode) (c : nat)
  | Awake (inodeId : Z) (m : LockMode) (c : nat)
  | Locked (inodeId : Z) (m : LockMode).

#[global] Instance locker_eq_dec : EqDecision locker.
Proof. solve_decision. Defined.

Record config := mkConfig { fileLock : FileLock; lockers : list locker }.

(** notify_all *)
Definition wake (o : option nat) (k : locker) : locker :=
  match k with
  | Asleep i m c => if decide (o = Some c) then Awake i m c else k
  | _ => k
  end.

Inductive step : config → config → Prop :=
  (** the constructor, up to its end or its wait *)
  | construct l ks k i m w l' b : ks !! k = Some Off → GetFileLock i m w l = (Returns b, l') →
      step (mkConfig l ks) (mkConfig l' (<[k := if b then Locked i m else Off]> ks))
  | construct_waits l ks k i m w l' c : ks !! k = Some Off → GetFileLock i m w l = (Waits c, l') →
      step (mkConfig l ks) (mkConfig l' (<[k := Asleep i m c]> ks))
  (** a wake-up without a notification *)
  | spurious l ks k i m c : ks !! k = Some (Asleep i m c) →
      step (mkConfig l ks) (mkConfig l (<[k := Awake i m c]> ks))
  | look_again l ks k i m c : ks !! k = Some (Awake i m c) → resume i m l = None →
      step (mkConfig l ks) (mkConfig l (<[k := Asleep i m c]> ks))
  | look_succeeds l ks k i m c l' : ks !! k = Some (Awake i m c) → resume i m l = Some l' →
      step (mkConfig l ks) (mkConfig l' (<[k := Locked i m]> ks))
  (** the destructor *)
  | destruct_locker l ks k i m l' o : ks !! k = Some (Locked i m) → ReleaseFileLock i m l = (l', o) →
      step (mkConfig l ks) (mkConfig l' (wake o <$> <[k := Off]> ks)).

Definition initial (n : nat) : config := mkConfig new_FileLock (replicate n Off).

Inductive reachable (n : nat) : config → Prop :=
  | reach_initial : reachable n (initial n)
  | reach_next c c' : reachable n c → step c c' → reachable n c'.

(** *** Counting *)
Definition holds (i : Z) (m : LockMode) (k : locker) : Z :=
  match k with Locked j m' => if decide (j = i ∧ m' = m) then 1 else 0 | _ => 0 end.

Definition waits (i : Z) (k : locker) : Z :=
  match k with Asleep j _ _ | Awake j _ _ => if decide (j = i) then 1 else 0 | _ => 0 end.

Definition sharers (i : Z) (ks : list locker) : Z := zsum (holds i LockS) ks.
Definition owners (i : Z) (ks : list locker) : Z := zsum (holds i LockX) ks.
Definition waiters (i : Z) (ks : list locker) : Z := zsum (waits i) ks.

(** A waiter sleeps or wakes on the condition variable of the entry, and sleeps
    only while its predicate is false. *)
Definition locker_ok (l : FileLock) (k : locker) : Prop :=
  match k with
  | Asleep i m c => cv (state_at l i) = Some c ∧ wait_over m (state_at l i) = false
  | Awake i m c => cv (state_at l i) = Some c
  | _ => True
  end.

Record inv (c : config) : Prop := {
  v_count i : lockCount (state_at (fileLock c) i) = sharers i (lockers c) - owners i (lockers c);
  v_waiting i : waitingThreads (state_at (fileLock c) i) = waiters i (lockers c);
  v_owner i : owners i (lockers c) ≤ 1 ∧ (owners i (lockers c) = 1 → sharers i (lockers c) = 0);
  v_entry i st : lockStates (fileLock c) !! i = Some st →
    (lockCount st ≠ 0 ∨ waitingThreads st ≠ 0) ∧ is_Some (cv st);
  v_lockers k : k ∈ lockers c → locker_ok (fileLock c) k }.

Lemma holds_nonneg i m k : 0 ≤ holds i m k.
Proof. destruct k; simpl; try lia. destruct (decide _); lia. Qed.
Lemma waits_nonneg i k : 0 ≤ waits i k.
Proof. destruct k; simpl; try lia; destruct (decide _); lia. Qed.

Lemma sharers_nonneg i ks : 0 ≤ sharers i ks.
Proof. apply zsum_nonneg. intros. apply holds_nonneg. Qed.
Lemma owners_nonneg i ks : 0 ≤ owners i ks.
Proof. apply zsum_nonneg. intros. apply holds_nonneg. Qed.
Lemma waiters_nonneg i ks : 0 ≤ waiters i ks.
Proof. apply zsum_nonneg. intros. apply waits_nonneg. Qed.

Lemma zsum_wake (f : locker → Z) o ks : (∀ i m c, f (Awake i m c) = f (Asleep i m c)) → zsum f (wake o <$> ks) = zsum f ks.
Proof.
  intros Hf. rewrite zsum_fmap. apply zsum_ext. intros k _. destruct k; simpl; try done. by destruct (decide _).
Qed.

Lemma state_at_set l i st j : state_at (set_state l i st) j = if decide (i = j) then st else state_at l j.
Proof.
  unfold state_at, set_state. simpl. destruct (decide (i = j)) as [<-|]; [by rewrite lookup_insert_eq|by rewrite lookup_insert_ne].
Qed.

Lemma state_at_delete l i j :
  state_at (l <| lockStates ::= delete i |>) j = if decide (i = j) then mkFileLockState None 0 0 else state_at l j.
Proof.
  unfold state_at. simpl. destruct (decide (i = j)) as [<-|]; [by rewrite lookup_delete_eq|by rewrite lookup_delete_ne].
Qed.

Lemma state_at_eq l i st : lockStates l !! i = Some st → state_at l i = st.
Proof. unfold state_at. by intros ->. Qed.

Lemma wake_None k : wake None k = k.
Proof. by destruct k. Qed.

(** A locker stays right when the entry of its inode keeps its condition
    variable, and does not let it through unless it is notified. *)
Lemma locker_ok_wake l l' o q :
  (∀ i m c, q = Asleep i m c → cv (state_at l i) = Some c → wait_over m (state_at l i) = false →
     cv (state_at l' i) = Some c ∧ (o = Some c ∨ wait_over m (state_at l' i) = false)) →
  (∀ i m c, q = Awake i m c → cv (state_at l i) = Some c → cv (state_at l' i) = Some c) →
  locker_ok l q → locker_ok l' (wake o q).
Proof.
  intros H1 H2. destruct q as [|i m c|i m c|i m]; simpl; try done.
  - intros [Hc Hw]. destruct (H1 i m c eq_refl Hc Hw) as [Hc' Ho]. destruct (decide (o = Some c)) as [->|Hne]; [done|].
    simpl. destruct Ho as [?|?]; [done|by split].
  - apply (H2 i m c eq_refl).
Qed.

(** One locker changes together with the entry of inode [i]. *)
Lemma inv_update l l' ks k old new i o
    (sh := sharers i ks - holds i LockS old + holds i LockS new)
    (ow := owners i ks - holds i LockX old + holds i LockX new) :
  inv (mkConfig l ks) → ks !! k = Some old →
  (∀ j, j ≠ i → (∀ m, holds j m new = holds j m old) ∧ waits j new = waits j old) →
  (∀ j, j ≠ i → lockStates l' !! j = lockStates l !! j) →
  lockCount (state_at l' i) = sh - ow →
  waitingThreads (state_at l' i) = waiters i ks - waits i old + waits i new →
  ow ≤ 1 ∧ (ow = 1 → sh = 0) →
  (∀ st, lockStates l' !! i = Some st → (lockCount st ≠ 0 ∨ waitingThreads st ≠ 0) ∧ is_Some (cv st)) →
  (∀ q, q ∈ <[k := new]> ks → locker_ok l' (wake o q)) →
  inv (mkConfig l' (wake o <$> <[k := new]> ks)).
Proof.
  intros Hs Hk Hother Hl Hc Hw Ho He Hq.
  assert (∀ j m, zsum (holds j m) (wake o <$> <[k := new]> ks) = zsum (holds j m) ks - holds j m old + holds j m new) as Hh.
  { intros j m. rewrite zsum_wake by done. by rewrite (zsum_insert _ _ _ old). }
  assert (∀ j, waiters j (wake o <$> <[k := new]> ks) = waiters j ks - waits j old + waits j new) as Hwt.
  { intros j. unfold waiters. rewrite zsum_wake by done. by rewrite (zsum_insert _ _ _ old). }
  assert (∀ j, j ≠ i → state_at l' j = state_at l j) as Hst by (intros j Hj; unfold state_at; by rewrite Hl).
  unfold sh, ow, sharers, owners in *. split; simpl; unfold sharers, owners.
  - intros j. rewrite !Hh. destruct (decide (j = i)) as [->|Hj]; [done|]. destruct (Hother j Hj) as [Hm _].
    rewrite !Hm, Hst by done. pose proof (v_count _ Hs j) as Hv. unfold sharers, owners in Hv. simpl in Hv. lia.
  - intros j. rewrite Hwt. destruct (decide (j = i)) as [->|Hj]; [done|]. destruct (Hother j Hj) as [_ Hm].
    rewrite Hm, Hst by done. pose proof (v_waiting _ Hs j) as Hv. simpl in Hv. lia.
  - intros j. rewrite !Hh. destruct (decide (j = i)) as [->|Hj]; [done|]. destruct (Hother j Hj) as [Hm _].
    rewrite !Hm. pose proof (v_owner _ Hs j) as Hv. unfold sharers, owners in Hv. simpl in Hv. lia.
  - intros j st. destruct (decide (j = i)) as [->|Hj]; [apply He|]. rewrite Hl by done. apply (v_entry _ Hs).
  - intros q Hin. apply list_elem_of_fmap in Hin as (q0 & -> & Hin). by apply Hq.
Qed.

(** The same without a notification. *)
Lemma inv_update_silent l l' ks k old new i
    (sh := sharers i ks - holds i LockS old + holds i LockS new)
    (ow := owners i ks - holds i LockX old + holds i LockX new) :
  inv (mkConfig l ks) → ks !! k = Some old →
  (∀ j, j ≠ i → (∀ m, holds j m new = holds j m old) ∧ waits j new = waits j old) →
  (∀ j, j ≠ i → lockStates l' !! j = lockStates l !! j) →
  lockCount (state_at l' i) = sh - ow →
  waitingThreads (state_at l' i) = waiters i ks - waits i old + waits i new →
  ow ≤ 1 ∧ (ow = 1 → sh = 0) →
  (∀ st, lockStates l' !! i = Some st → (lockCount st ≠ 0 ∨ waitingThreads st ≠ 0) ∧ is_Some (cv st)) →
  (∀ q, q ∈ <[k := new]> ks → locker_ok l' q) →
  inv (mkConfig l' (<[k := new]> ks)).
Proof.
  intros Hs Hk Hother Hl Hc Hw Ho He Hq.
  replace (<[k := new]> ks) with (wake None <$> <[k := new]> ks).
  - apply (inv_update l l' ks k old new i); try done. intros q Hin. rewrite wake_None. by apply Hq.
  - rewrite <-(list_fmap_id (<[k := new]> ks)) at 2. apply list_fmap_ext. intros _ x _. apply wake_None.
Qed.

(** [at_inode]: reduce what lockers of inode [i] count for, at [i] and elsewhere. *)
Ltac at_inode :=
  simpl; repeat first [rewrite decide_True by done | rewrite decide_False by (congruence || (intros [? ?]; congruence))]; try lia.

Lemma locked_or_waited l ks i : inv (mkConfig l ks) → lockStates l !! i = None →
  sharers i ks = 0 ∧ owners i ks = 0 ∧ waiters i ks = 0.
Proof.
  intros Hs Hn. pose proof (v_count _ Hs i) as Hc. pose proof (v_waiting _ Hs i) as Hw. pose proof (v_owner _ Hs i) as Ho.
  pose proof (sharers_nonneg i ks). pose proof (owners_nonneg i ks). unfold state_at in *. simpl in *. rewrite Hn in *.
  simpl in *. lia.
Qed.

Lemma waiter_counted l ks q i : inv (mkConfig l ks) → q ∈ ks → waits i q = 1 → 1 ≤ waiters i ks.
Proof.
  intros _ Hq Hw. apply list_elem_of_lookup in Hq as [j Hj]. rewrite <-Hw. unfold waiters.
  apply (zsum_elem (waits i) ks j q); [apply waits_nonneg|done].
Qed.

(** The lockers of a list in which one has been replaced. *)
Lemma elem_insert (ks : list locker) k new q : q ∈ <[k := new]> ks → q = new ∨ q ∈ ks.
Proof.
  intros Hq. apply list_elem_of_lookup in Hq as [j Hj]. destruct (decide (k = j)) as [<-|Hne].
  - apply list_lookup_insert_Some in Hj as [(_ & -> & _)|[? ?]]; [by left|done].
  - rewrite list_lookup_insert_ne in Hj by done. right. by eapply list_elem_of_lookup_2.
Qed.

(** A fast path of the constructor. *)
Lemma inv_take l ks k i m c n :
  inv (mkConfig l ks) → ks !! k = Some Off →
  (lockCount (state_at l i) = 0 ∨ lockCount (state_at l i) > 0 ∧ m = LockS) →
  (cv (state_at l i) = Some c ∨ waitingThreads (state_at l i) = 0) →
  inv (mkConfig (mkFileLock (<[i := mkFileLockState (Some c) (lockCount (state_at l i) + mode_int m)
                                     (waitingThreads (state_at l i))]> (lockStates l)) n) (<[k := Locked i m]> ks)).
Proof.
  intros Hs Hk Hfree Hcv. pose proof (v_count _ Hs i) as Hc. pose proof (v_waiting _ Hs i) as Hw. pose proof (v_owner _ Hs i) as Ho.
  pose proof (sharers_nonneg i ks). pose proof (owners_nonneg i ks). simpl in Hc, Hw, Ho.
  assert (0 ≤ lockCount (state_at l i) ∧ (mode_int m = -1 → lockCount (state_at l i) = 0)) as [Hge HX].
  { destruct Hfree as [?|[? ->]]; simpl; lia. }
  set (st' := mkFileLockState _ _ _).
  assert (∀ j, state_at (mkFileLock (<[i := st']> (lockStates l)) n) j = if decide (i = j) then st' else state_at l j) as Hat.
  { intros j. exact (state_at_set l i st' j). }
  assert (lockCount st' ≠ 0) as Hnz by (unfold st'; destruct m; simpl in *; lia).
  eapply (inv_update_silent l _ ks k Off (Locked i m) i); try done.
  - intros j Hj. split; [intros m'|]; at_inode.
  - intros j Hj. simpl. by rewrite lookup_insert_ne.
  - rewrite Hat, decide_True by done. unfold st'. destruct m; simpl in HX; at_inode.
  - rewrite Hat, decide_True by done. at_inode.
  - destruct m; simpl in HX; at_inode.
  - intros st. simpl. rewrite lookup_insert_eq. intros [= <-]. split; [by left|]. simpl. by eexists.
  - intros q [->|Hq]%elem_insert; [done|]. rewrite <-(wake_None q).
    pose proof (v_lockers _ Hs q Hq) as Hok. simpl in Hok. revert Hok. apply locker_ok_wake.
    + intros j m' c' -> Hc' Hw'. rewrite Hat. destruct (decide (i = j)) as [<-|]; [|by auto].
      pose proof (waiter_counted l ks _ i Hs Hq ltac:(at_inode)).
      destruct Hcv as [Hcv|?]; [|lia]. split; [simpl; congruence|]. right. unfold wait_over in *.
      destruct m'; apply bool_decide_eq_false in Hw'; apply bool_decide_eq_false; simpl in *; [done|]. lia.
    + intros j m' c' -> Hc'. rewrite Hat. destruct (decide (i = j)) as [<-|]; [|by auto].
      pose proof (waiter_counted l ks _ i Hs Hq ltac:(at_inode)). destruct Hcv as [Hcv|?]; [simpl; congruence|lia].
Qed.

(** The constructor goes to sleep. *)
Lemma inv_sleep l ks k i m c :
  inv (mkConfig l ks) → ks !! k = Some Off → cv (state_at l i) = Some c → wait_over m (state_at l i) = false →
  inv (mkConfig (set_state l i ((state_at l i) <| waitingThreads := waitingThreads (state_at l i) + 1 |>)) (<[k := Asleep i m c]> ks)).
Proof.
  intros Hs Hk Hcv Hover. pose proof (v_count _ Hs i) as Hc. pose proof (v_waiting _ Hs i) as Hw. pose proof (v_owner _ Hs i) as Ho.
  pose proof (waiters_nonneg i ks). simpl in Hc, Hw, Ho. set (st' := set_field _ _ _).
  assert (∀ j, state_at (set_state l i st') j = if decide (i = j) then st' else state_at l j) as Hat by (intros; apply state_at_set).
  assert (∀ m, wait_over m st' = wait_over m (state_at l i)) as Hsame by (by intros []).
  apply (inv_update_silent l _ ks k Off (Asleep i m c) i); try done.
  - intros j Hj. split; [done|]. at_inode.
  - intros j Hj. simpl. by rewrite lookup_insert_ne.
  - rewrite Hat, decide_True by done. unfold st'. at_inode.
  - rewrite Hat, decide_True by done. unfold st'. at_inode.
  - at_inode.
  - intros st. simpl. rewrite lookup_insert_eq. intros [= <-]. split; [right; unfold st'; simpl; lia|]. by exists c.
  - intros q [->|Hq]%elem_insert.
    + simpl. rewrite Hat, decide_True by done. by rewrite Hsame.
    + rewrite <-(wake_None q). pose proof (v_lockers _ Hs q Hq) as Hok. simpl in Hok. revert Hok. apply locker_ok_wake.
      * intros j m' c' _ Hc' Hw'. rewrite Hat. destruct (decide (i = j)) as [<-|]; [|by auto]. rewrite Hsame. by auto.
      * intros j m' c' _ Hc'. rewrite Hat. by destruct (decide (i = j)) as [<-|].
Qed.

(** A waiter goes to sleep or wakes up. *)
Lemma inv_relabel l ks k old new :
  inv (mkConfig l ks) → ks !! k = Some old → (∀ i m, holds i m new = holds i m old) → (∀ i, waits i new = waits i old) →
  locker_ok l new → inv (mkConfig l (<[k := new]> ks)).
Proof.
  intros Hs Hk Hh Hw Hok. apply (inv_update_silent l l ks k old new 0); try done.
  - rewrite !Hh. pose proof (v_count _ Hs 0) as Hc. simpl in Hc. lia.
  - rewrite Hw. pose proof (v_waiting _ Hs 0) as Hc. simpl in Hc. lia.
  - rewrite !Hh. pose proof (v_owner _ Hs 0) as Hc. simpl in Hc. lia.
  - intros st. apply (v_entry _ Hs 0).
  - intros q [->|Hq]%elem_insert; [done|]. by apply (v_lockers _ Hs).
Qed.

(** A waiter gets the lock. *)
Lemma inv_resume l ks k i m c l' :
  inv (mkConfig l ks) → ks !! k = Some (Awake i m c) → resume i m l = Some l' → inv (mkConfig l' (<[k := Locked i m]> ks)).
Proof.
  intros Hs Hk Hr. pose proof (v_count _ Hs i) as Hc. pose proof (v_waiting _ Hs i) as Hw. pose proof (v_owner _ Hs i) as Ho.
  pose proof (v_lockers _ Hs _ (list_elem_of_lookup_2 _ _ _ Hk)) as Hok.
  pose proof (sharers_nonneg i ks). pose proof (owners_nonneg i ks). simpl in Hc, Hw, Ho, Hok.
  unfold resume in Hr. destruct (wait_over m (state_at l i)) eqn:Hover; [|done]. injection Hr as <-.
  set (st' := set_field _ _ _).
  assert (∀ j, state_at (set_state l i st') j = if decide (i = j) then st' else state_at l j) as Hat by (intros; apply state_at_set).
  assert (0 ≤ lockCount (state_at l i) ∧ (mode_int m = -1 → lockCount (state_at l i) = 0)) as [Hge HX].
  { unfold wait_over in Hover. destruct m; apply bool_decide_eq_true in Hover; simpl; lia. }
  apply (inv_update_silent l _ ks k (Awake i m c) (Locked i m) i); try done.
  - intros j Hj. split; [intros m'|]; at_inode.
  - intros j Hj. simpl. by rewrite lookup_insert_ne.
  - rewrite Hat, decide_True by done. unfold st'. destruct m; simpl in HX; at_inode.
  - rewrite Hat, decide_True by done. unfold st'. at_inode.
  - destruct m; simpl in HX; at_inode.
  - intros st. simpl. rewrite lookup_insert_eq. intros [= <-]. split; [|by exists c]. left. unfold st'. destruct m; simpl in *; lia.
  - intros q [->|Hq]%elem_insert; [done|]. rewrite <-(wake_None q). pose proof (v_lockers _ Hs q Hq) as Hok'. simpl in Hok'. revert Hok'. apply locker_ok_wake.
    + intros j m' c' _ Hc' Hw'. rewrite Hat. destruct (decide (i = j)) as [<-|]; [|by auto]. split; [done|]. right.
      unfold wait_over in *. destruct m'; apply bool_decide_eq_false in Hw'; apply bool_decide_eq_false; unfold st'; simpl; [|lia].
      destruct m; simpl in *; lia.
    + intros j m' c' _ Hc'. rewrite Hat. by destruct (decide (i = j)) as [<-|].
Qed.

(** A locker gives the lock back. *)
Lemma inv_release l ks k i m l' o :
  inv (mkConfig l ks) → ks !! k = Some (Locked i m) → ReleaseFileLock i m l = (l', o) →
  inv (mkConfig l' (wake o <$> <[k := Off]> ks)).
Proof.
  intros Hs Hk Hr. pose proof (v_count _ Hs i) as Hc. pose proof (v_waiting _ Hs i) as Hw. pose proof (v_owner _ Hs i) as Ho.
  pose proof (sharers_nonneg i ks). pose proof (owners_nonneg i ks). simpl in Hc, Hw, Ho.
  assert (1 ≤ zsum (holds i m) ks) as Hone.
  { replace 1 with (holds i m (Locked i m)) by at_inode. apply (zsum_elem _ ks k); [apply holds_nonneg|done]. }
  assert (lockStates l !! i ≠ None) as Hsome.
  { intros Hn. destruct (locked_or_waited l ks i Hs Hn) as (Hsh & How & _). unfold sharers, owners in *. destruct m; lia. }
  unfold ReleaseFileLock in Hr. destruct (lockStates l !! i) as [st|] eqn:Hi; [clear Hsome|done].
  rewrite (state_at_eq _ _ _ Hi) in Hc, Hw. destruct (v_entry _ Hs i st Hi) as [_ [c Hcv]].
  set (count := if decide (m = LockS) then _ else _) in Hr. set (st' := st <| lockCount := count |>) in Hr.
  assert (count = sharers i ks - holds i LockS (Locked i m) - (owners i ks - holds i LockX (Locked i m))) as Hcount.
  { unfold count. destruct m; at_inode. }
  assert (owners i ks - holds i LockX (Locked i m) ≤ 0 ∧ 0 ≤ sharers i ks - holds i LockS (Locked i m)) as Hfew.
  { unfold sharers, owners in *. destruct m; at_inode. }
  assert (∀ j, j ≠ i → (∀ m', holds j m' Off = holds j m' (Locked i m)) ∧ waits j Off = waits j (Locked i m)) as Hother.
  { intros j Hj. split; [intros m'|]; at_inode. }
  assert (∀ j, state_at (set_state l i st') j = if decide (i = j) then st' else state_at l j) as Hat by (intros; apply state_at_set).
  assert (holds i LockS Off = 0 ∧ holds i LockX Off = 0 ∧ waits i Off = 0 ∧ waits i (Locked i m) = 0) as (HS0 & HX0 & HW0 & HW1) by done.
  pose proof (owners_nonneg i (<[k := Off]> ks)) as Hnn. unfold owners in Hnn. rewrite (zsum_insert _ _ _ _ _ Hk) in Hnn. fold (owners i ks) in Hnn.
  assert (∀ l'', (∀ j, j ≠ i → state_at l'' j = state_at l j) → (∀ q, q ∈ ks → waits i q = 1 → locker_ok l'' (wake o q)) →
     ∀ q, q ∈ <[k := Off]> ks → locker_ok l'' (wake o q)) as Hrest.
  { intros l'' Hsame Hin q [->|Hq]%elem_insert; [done|]. destruct (decide (waits i q = 1)) as [Hq1|Hq1]; [by apply Hin|].
    pose proof (v_lockers _ Hs q Hq) as Hok. simpl in Hok. revert Hok. apply locker_ok_wake.
    - intros j m' c' -> Hc' Hw'. simpl in Hq1. destruct (decide (j = i)); [done|]. rewrite Hsame by done. by auto.
    - intros j m' c' -> Hc'. simpl in Hq1. destruct (decide (j = i)); [done|]. by rewrite Hsame. }
  destruct (decide (count = 0)) as [Hz|Hz]; [destruct (decide (waitingThreads st = 0)) as [Hn|Hn]|]; injection Hr as <- <-.
  - apply (inv_update l _ ks k (Locked i m) Off i); try done; rewrite ?HS0, ?HX0, ?HW0, ?HW1.
    + intros j Hj. simpl. by rewrite lookup_delete_ne.
    + rewrite state_at_delete, decide_True by done. cbn [lockCount]. lia.
    + rewrite state_at_delete, decide_True by done. cbn [waitingThreads]. lia.
    + lia.
    + intros st0. simpl. by rewrite lookup_delete_eq.
    + apply Hrest; [intros j Hj; rewrite state_at_delete; by rewrite decide_False|]. intros q Hq Hq1.
      pose proof (waiter_counted l ks q i Hs Hq Hq1). lia.
  - apply (inv_update l _ ks k (Locked i m) Off i); try done; rewrite ?HS0, ?HX0, ?HW0, ?HW1.
    + intros j Hj. simpl. by rewrite lookup_insert_ne.
    + rewrite Hat, decide_True by done. change (lockCount st') with count. lia.
    + rewrite Hat, decide_True by done. change (waitingThreads st') with (waitingThreads st). lia.
    + lia.
    + intros st0. simpl. rewrite lookup_insert_eq. intros [= <-]. split; [by right|]. by exists c.
    + apply Hrest; [intros j Hj; rewrite Hat; by rewrite decide_False|]. intros q Hq Hq1.
      pose proof (v_lockers _ Hs q Hq) as Hok. simpl in Hok. revert Hok. apply locker_ok_wake; intros j m' c' ->; simpl in Hq1; destruct (decide (j = i)) as [->|]; try done;
        rewrite Hat, decide_True, (state_at_eq _ _ _ Hi) by done; by auto.
  - apply (inv_update l _ ks k (Locked i m) Off i); try done; rewrite ?HS0, ?HX0, ?HW0, ?HW1.
    + intros j Hj. simpl. by rewrite lookup_insert_ne.
    + rewrite Hat, decide_True by done. change (lockCount st') with count. lia.
    + rewrite Hat, decide_True by done. change (waitingThreads st') with (waitingThreads st). lia.
    + lia.
    + intros st0. simpl. rewrite lookup_insert_eq. intros [= <-]. split; [by left|]. by exists c.
    + apply Hrest; [intros j Hj; rewrite Hat; by rewrite decide_False|]. intros q Hq Hq1.
      pose proof (v_lockers _ Hs q Hq) as Hok. simpl in Hok. revert Hok. apply locker_ok_wake; intros j m' c' ->; simpl in Hq1; destruct (decide (j = i)) as [->|]; try done;
        rewrite Hat, decide_True, (state_at_eq _ _ _ Hi) by done; [|by auto]. intros Hc' Hw'. split; [done|]. right.
      unfold wait_over in *. destruct m'; apply bool_decide_eq_false in Hw'; apply bool_decide_eq_false; simpl; [done|]. pose proof (holds_nonneg i LockS (Locked i m)). lia.
Qed.

Lemma lock_inv_initial n : inv (initial n).
Proof.
  assert (∀ f : locker → Z, f Off = 0 → zsum f (replicate n Off) = 0) as Hz.
  { intros f Hf. transitivity (zsum (λ _, 0) (replicate n Off)).
    - apply zsum_ext. intros b Hb. by apply elem_of_replicate in Hb as [-> _].
    - by rewrite zsum_const. }
  split; simpl; unfold sharers, owners, waiters; intros; rewrite ?Hz by done; try done; try lia.
  match goal with H : _ ∈ replicate _ _ |- _ => apply elem_of_replicate in H as [-> _] end. done.
Qed.

(** What [innerGetFileLock] makes of a state that satisfies the invariant. *)
Lemma inv_construct l ks k i m w r l' :
  inv (mkConfig l ks) → ks !! k = Some Off → GetFileLock i m w l = (r, l') →
  match r with
  | Returns b => inv (mkConfig l' (<[k := if b then Locked i m else Off]> ks))
  | Waits c => inv (mkConfig l' (<[k := Asleep i m c]> ks))
  end.
Proof.
  intros Hs Hk. unfold GetFileLock, innerGetFileLock.
  assert (match lockStates l !! i with Some st => lockCount st | None => 0 end = lockCount (state_at l i)) as ->.
  { unfold state_at. by destruct (lockStates l !! i). }
  assert (lockCount (state_at l i) ≠ 0 ∨ waitingThreads (state_at l i) ≠ 0 → is_Some (cv (state_at l i))) as Hcv.
  { unfold state_at. destruct (lockStates l !! i) as [st|] eqn:Hi; simpl; [|intros [?|?]; done]. intros _. by apply (v_entry _ Hs i st Hi). }
  destruct (decide (lockCount (state_at l i) = 0)) as [Hz|Hz].
  - destruct (decide (waitingThreads (state_at l i) = 0)) as [Hn|Hn]; intros [= <- <-].
    + pose proof (inv_take l ks k i m (nextCv l) (nextCv l + 1) Hs Hk (or_introl Hz) (or_intror Hn)) as Ht.
      rewrite Hz in Ht. exact Ht.
    + destruct (Hcv (or_intror Hn)) as [c Hc].
      pose proof (inv_take l ks k i m c (nextCv l) Hs Hk (or_introl Hz) (or_introl Hc)) as Ht. rewrite Hz in Ht.
      unfold set_state. simpl. rewrite <-Hc in Ht. exact Ht.
  - destruct (Hcv (or_introl Hz)) as [c Hc].
    destruct (decide (lockCount (state_at l i) > 0 ∧ m = LockS)) as [[Hp ->]|Hp].
    { intros [= <- <-]. pose proof (inv_take l ks k i LockS c (nextCv l) Hs Hk (or_intror (conj Hp eq_refl)) (or_introl Hc)) as Ht.
      rewrite <-Hc in Ht. exact Ht. }
    destruct w.
    + rewrite Hc. intros [= <- <-]. apply inv_sleep; try done. unfold wait_over.
      destruct m; apply bool_decide_eq_false; [done|]. intros Hge. apply Hp. split; [lia|done].
    + intros [= <- <-]. by apply (inv_relabel l ks k Off Off).
Qed.

Lemma lock_inv_step c c' : inv c → step c c' → inv c'.
Proof.
  intros Hs Hst. destruct Hst as [l ks k i m w l' b Hk Hg|l ks k i m w l' c Hk Hg|l ks k i m c Hk|l ks k i m c Hk Hr|l ks k i m c l' Hk Hr|l ks k i m l' o Hk Hr].
  - exact (inv_construct l ks k i m w (Returns b) l' Hs Hk Hg).
  - exact (inv_construct l ks k i m w (Waits c) l' Hs Hk Hg).
  - apply (inv_relabel l ks k (Asleep i m c)); try done. by apply (v_lockers _ Hs _ (list_elem_of_lookup_2 _ _ _ Hk)).
  - apply (inv_relabel l ks k (Awake i m c)); try done.
    pose proof (v_lockers _ Hs _ (list_elem_of_lookup_2 _ _ _ Hk)) as Hc. simpl in Hc. split; [done|].
    unfold resume in Hr. by destruct (wait_over m (state_at l i)).
  - by apply (inv_resume l ks k i m c).
  - by apply (inv_release l ks k i m).
Qed.

Lemma reachable_inv n c : reachable n c → inv c.
Proof. induction 1; [apply lock_inv_initial|by eapply lock_inv_step]. Qed.

Lemma holder_counted ks k i m : ks !! k = Some (Locked i m) → 1 ≤ zsum (holds i m) ks.
Proof.
  intros Hk. replace 1 with (holds i m (Locked i m)) by at_inode. apply (zsum_elem _ ks k); [apply holds_nonneg|done].
Qed.

Lemma counted_holder ks i m : 1 ≤ zsum (holds i m) ks → ∃ k, ks !! k = Some (Locked i m).
Proof.
  induction ks as [|q ks IH]; simpl; [lia|]. intros H. destruct (decide (q = Locked i m)) as [->|Hne]; [by exists 0%nat|].
  assert (holds i m q = 0) as Hz.
  { destruct q as [| | |j m']; try done. simpl. rewrite decide_False; [done|]. intros [-> ->]. done. }
  destruct IH as [k Hk]; [lia|]. by exists (S k).
Qed.

(** (C24) Mutual exclusion of the locks of cache files, whatever the order in
    which any number of lockers take the lock on the fast path, sleep, wake up
    with or without a notification and give it back: two lockers that hold the
    lock of an inode at the same time both hold it shared.  [TestLocked] in
    shared mode says whether somebody holds the lock exclusively, in exclusive
    mode whether somebody holds it or waits for it. *)
Theorem file_lock_exclusion n c :
  reachable n c →
  (∀ k1 k2 i m1 m2, k1 ≠ k2 → lockers c !! k1 = Some (Locked i m1) → lockers c !! k2 = Some (Locked i m2) →
     m1 = LockS ∧ m2 = LockS) ∧
  (∀ i, TestLocked i LockS (fileLock c) = true ↔ ∃ k, lockers c !! k = Some (Locked i LockX)) ∧
  (∀ i, TestLocked i LockX (fileLock c) = true ↔
     ∃ k q, lockers c !! k = Some q ∧ (q = Locked i LockS ∨ q = Locked i LockX ∨ waits i q = 1)).
Proof.
  intros Hr%reachable_inv. destruct c as [l ks]. simpl. split_and!.
  - intros k1 k2 i m1 m2 Hne H1 H2. destruct (v_owner _ Hr i) as [Ho Hx]. simpl in Ho, Hx. unfold owners, sharers in *.
    assert (∀ m, m1 = m → m2 = m → 2 ≤ zsum (holds i m) ks) as Htwo.
    { intros m -> ->. pose proof (zsum_two (holds i m) ks k1 k2 _ _ (holds_nonneg i m) Hne H1 H2) as Ht.
      cbn [holds] in Ht. rewrite decide_True in Ht by done. lia. }
    pose proof (holder_counted ks k1 i m1 H1). pose proof (holder_counted ks k2 i m2 H2).
    destruct m1, m2; try done; try lia. pose proof (Htwo LockX eq_refl eq_refl). lia.
  - intros i. pose proof (v_count _ Hr i) as Hc. destruct (v_owner _ Hr i) as [Ho Hx]. simpl in *.
    pose proof (sharers_nonneg i ks). unfold TestLocked, state_at in *.
    destruct (lockStates l !! i) as [st|] eqn:Hi; simpl in *.
    + rewrite bool_decide_eq_true. split; [intros Hn; apply counted_holder; unfold owners in *; lia|].
      intros [k Hk]. pose proof (holder_counted ks k i LockX Hk). unfold owners in *. lia.
    + split; [done|]. intros [k Hk]. pose proof (holder_counted ks k i LockX Hk).
      destruct (locked_or_waited l ks i Hr Hi) as (_ & How & _). unfold owners in *. lia.
  - intros i. unfold TestLocked. destruct (lockStates l !! i) as [st|] eqn:Hi; simpl; split; try done.
    + intros _. destruct (v_entry _ Hr i st Hi) as [Hor _]. pose proof (v_count _ Hr i) as Hc. pose proof (v_waiting _ Hr i) as Hw.
      simpl in Hc, Hw. rewrite (state_at_eq _ _ _ Hi) in Hc, Hw. pose proof (sharers_nonneg i ks). pose proof (owners_nonneg i ks). pose proof (waiters_nonneg i ks).
      destruct (decide (1 ≤ waiters i ks)) as [Hge|Hlt].
      * clear -Hge. unfold waiters in Hge. induction ks as [|q ks IH]; simpl in *; [lia|].
        destruct (decide (waits i q = 1)) as [Hq|Hq]; [exists 0%nat, q; auto|].
        assert (waits i q = 0) as Hz by (destruct q; simpl in *; try done; by destruct (decide _)).
        destruct IH as (k & q' & Hk & Hq'); [lia|]. by exists (S k), q'.
      * destruct (decide (1 ≤ owners i ks)) as [Hge|Hlt2].
        -- destruct (counted_holder ks i LockX Hge) as [k Hk]. eexists k, _. split; [exact Hk|]. auto.
        -- destruct (counted_holder ks i LockS ltac:(unfold sharers in *; lia)) as [k Hk]. eexists k, _. split; [exact Hk|]. auto.
    + intros (k & q & Hk & Hq). destruct (locked_or_waited l ks i Hr Hi) as (Hsh & How & Hwt). unfold sharers, owners in *.
      destruct Hq as [->|[->|Hq]].
      * pose proof (holder_counted ks k i LockS Hk). lia.
      * pose proof (holder_counted ks k i LockX Hk). lia.
      * pose proof (waiter_counted l ks q i Hr (list_elem_of_lookup_2 _ _ _ Hk) Hq). lia.
Qed.

(** (C31) No wake-up is lost: a locker that sleeps sleeps on the condition
    variable of its inode, and somebody holds the lock of that inode in a mode
    that excludes it, so that the release which lets it through will notify it;
    a locker that is awake takes the lock at its next look unless somebody holds
    it in a mode that excludes it.  When every locker is done the map is empty. *)
Theorem file_lock_no_lost_wakeup n c :
  reachable n c →
  (∀ k i m cv0, lockers c !! k = Some (Asleep i m cv0) → cv (state_at (fileLock c) i) = Some cv0 ∧
     ∃ k' m', lockers c !! k' = Some (Locked i m') ∧ (m' = LockX ∨ m = LockX)) ∧
  (∀ k i m cv0, lockers c !! k = Some (Awake i m cv0) →
     (∃ l', resume i m (fileLock c) = Some l') ∨ ∃ k' m', lockers c !! k' = Some (Locked i m') ∧ (m' = LockX ∨ m = LockX)) ∧
  ((∀ k q, lockers c !! k = Some q → q = Off) → lockStates (fileLock c) = ∅).
Proof.
  intros Hr%reachable_inv. destruct c as [l ks]. simpl.
  assert (∀ i m, wait_over m (state_at l i) = false → ∃ k' m', ks !! k' = Some (Locked i m') ∧ (m' = LockX ∨ m = LockX)) as Hheld.
  { intros i m Hw. pose proof (v_count _ Hr i) as Hc. pose proof (sharers_nonneg i ks). simpl in Hc. unfold wait_over in Hw.
    destruct (decide (1 ≤ owners i ks)) as [Hge|Hlt]; [destruct (counted_holder ks i LockX Hge) as [k Hk]; exists k, LockX; auto|].
    destruct m; apply bool_decide_eq_false in Hw.
    - destruct (counted_holder ks i LockS) as [k Hk]; [|exists k, LockS; auto]. pose proof (owners_nonneg i ks). unfold sharers in *. lia.
    - pose proof (owners_nonneg i ks). lia. }
  split_and!.
  - intros k i m c Hk. destruct (v_lockers _ Hr _ (list_elem_of_lookup_2 _ _ _ Hk)) as [Hc Hw]. split; [done|]. by apply Hheld.
  - intros k i m c Hk. unfold resume. destruct (wait_over m (state_at l i)) eqn:Hw; [left; eauto|right; by apply Hheld].
  - intros Hoff. apply map_empty. intros i. destruct (lockStates l !! i) as [st|] eqn:Hi; [|done]. exfalso.
    assert (∀ f : locker → Z, f Off = 0 → zsum f ks = 0) as Hz.
    { intros f Hf. transitivity (zsum (λ _, 0) ks); [|by rewrite zsum_const]. apply zsum_ext. intros q Hq.
      apply list_elem_of_lookup in Hq as [k Hk]. by rewrite (Hoff k q Hk). }
    destruct (v_entry _ Hr i st Hi) as [Hor _]. pose proof (v_count _ Hr i) as Hc. pose proof (v_waiting _ Hr i) as Hw. simpl in Hc, Hw.
    rewrite (state_at_eq _ _ _ Hi) in Hc, Hw. unfold sharers, owners, waiters in *. rewrite (Hz (holds i LockS)), (Hz (holds i LockX)) in Hc by done. rewrite (Hz (waits i)) in Hw by done. destruct Hor as [Hor|Hor]; apply Hor; lia.
Qed.

End Lockers.

(** ** Runs *)
Module FileLockWitness.
Import Lockers.

(** One locker holds the lock of inode 7 exclusively, another waits for it. *)
Definition waiting : config :=
  mkConfig (mkFileLock {[7 := mkFileLockState (Some 0%nat) (-1) 1]} 1) [Locked 7 LockX; Asleep 7 LockX 0].

Definition held : config :=
  mkConfig (mkFileLock {[7 := mkFileLockState (Some 0%nat) (-1) 0]} 1) [Locked 7 LockX; Off].

Lemma waiting_reachable : reachable 2 waiting.
Proof.
  apply (reach_next _ held); [apply (reach_next _ (initial 2)); [apply reach_initial|]|].
  - exact (construct new_FileLock [Off; Off] 0%nat 7 LockX true (fileLock held) true eq_refl eq_refl).
  - exact (construct_waits (fileLock held) (lockers held) 1%nat 7 LockX true (fileLock waiting) 0%nat eq_refl eq_refl).
Qed.

(** The holder is gone and the waiter has been notified. *)
Definition notified : config :=
  mkConfig (mkFileLock {[7 := mkFileLockState (Some 0%nat) 0 1]} 1) [Off; Awake 7 LockX 0].

Lemma notified_reachable : reachable 2 notified.
Proof.
  apply (reach_next _ waiting); [apply waiting_reachable|].
  exact (destruct_locker (fileLock waiting) (lockers waiting) 0%nat 7 LockX (fileLock notified) (Some 0%nat) eq_refl eq_refl).
Qed.

Lemma file_lock_exclusion_witness : ∃ k, lockers waiting !! k = Some (Locked 7 LockX).
Proof. apply (file_lock_exclusion 2 waiting waiting_reachable). reflexivity. Defined.

Lemma file_lock_no_lost_wakeup_witness :
  (∃ k' m', lockers waiting !! k' = Some (Locked 7 m') ∧ (m' = LockX ∨ LockX = LockX)) ∧
  ((∃ l', resume 7 LockX (fileLock notified) = Some l') ∨
   ∃ k' m', lockers notified !! k' = Some (Locked 7 m') ∧ (m' = LockX ∨ LockX = LockX)).
Proof.
  split.
  - exact (proj2 (proj1 (file_lock_no_lost_wakeup 2 waiting waiting_reachable) 1%nat 7 LockX 0%nat eq_refl)).
  - exact (proj1 (proj2 (file_lock_no_lost_wakeup 2 notified notified_reachable)) 1%nat 7 LockX 0%nat eq_refl).
Defined.

(** Lockers that only try do not wait. *)
Example try_fails : fst (TryGetFileLock 7 LockX (fileLock waiting)) = Returns false.
Proof. reflexivity. Qed.
End FileLockWitness.
