(* ===== verification/DiskCache.v ===== *)
(** * The cache of files on the local disk
      (cuckoo_store/src/disk_cache/disk_cache.cpp, GetFilePath of util/utils.cpp)

    State: the list of cached files with stable nodes, the map from inode ids to
    nodes (iterators), and the counters of capacity.  Methods run under the
    cache's mutex and are atomic.  Ratios are IEEE single precision numbers, and
    what is computed with 1.0 is double precision. *)
From stdpp Require Import pretty.
From Stdlib Require Import SpecFloat.
From S2P Require Import Prelude Decimal Posix.

(** ** Floating point *)
Definition f32 := spec_float.
Definition f64 := spec_float.

Definition f64_of_Z (z : Z) : f64 := binary_normalize 53 1024 z 0 false.
Definition f32_of_Z (z : Z) : f32 := binary_normalize 24 128 z 0 false.
Definition convert (prec emax : Z) (x : spec_float) : spec_float :=
  match x with
  | S754_finite s m e => binary_normalize prec emax (if s then Zneg m else Zpos m) e s
  | _ => x
  end.
Definition f32_of_f64 : f64 → f32 := convert 24 128.
Definition f64_of_f32 : f32 → f64 := convert 53 1024.
Definition f64_div (x y : f64) : f64 := SFdiv 53 1024 x y.
Definition f64_sub (x y : f64) : f64 := SFsub 53 1024 x y.
Definition f32_sub (x y : f32) : f32 := SFsub 24 128 x y.
Definition f32_mul (x y : f32) : f32 := SFmul 24 128 x y.

(** (uint64_t)x: truncation; out of range it is undefined. *)
Definition u64_of_f32 (x : f32) : option Z :=
  match x with
  | S754_zero _ => Some 0
  | S754_finite s m e =>
    let t := if decide (0 ≤ e) then Zpos m * 2 ^ e else Zpos m / 2 ^ (- e) in
    if decide (t = 0) then Some 0 else if s then None else if decide (t < 2 ^ 64) then Some t else None
  | _ => None
  end.

(** a * 1.0 / b *)
Definition ratio (a b : Z) : f64 := f64_div (f64_of_Z a) (f64_of_Z b).

(** ** State *)
Record CacheItem := mkItem { inode : Z; size : Z; atime : Z; refs : Z }.
#[global] Instance eta_CacheItem : Eta CacheItem := λ i, mkItem (inode i) (size i) (atime i) (refs i).

(** A node of the list keeps its identity while others come and go. *)
Record DiskCache := mkCache {
  totalCap : Z; freeCap : Z; blockRatio : f32;
  totalInodes : Z; freeInodes : Z; inodeRatio : f32;
  freeRatio : f32; bgFreeRatio : f32;
  testOBS : bool;
  usedCap : Z;
  cacheItems : list (nat * CacheItem);
  nextNode : nat;
  inodeToCacheIter : gmap Z nat;
  stop : bool;
  hasFreeSpace : bool;
  totalDirNum : Z;
  reservedCap : Z }.
#[global] Instance eta_DiskCache : Eta DiskCache := λ d,
  mkCache (totalCap d) (freeCap d) (blockRatio d) (totalInodes d) (freeInodes d) (inodeRatio d) (freeRatio d) (bgFreeRatio d)
    (testOBS d) (usedCap d) (cacheItems d) (nextNode d) (inodeToCacheIter d) (stop d) (hasFreeSpace d) (totalDirNum d) (reservedCap d).

Fixpoint node_at (n : nat) (l : list (nat * CacheItem)) : option CacheItem :=
  match l with
  | [] => None
  | (k, item) :: l' => if decide (k = n) then Some item else node_at n l'
  end.
Definition alter_node (n : nat) (f : CacheItem → CacheItem) (l : list (nat * CacheItem)) : list (nat * CacheItem) :=
  (λ p, if decide (p.1 = n) then (p.1, f p.2) else p) <$> l.

(** cacheItems.erase, inodeToCacheIter.erase and the counters, for a file of
    [sz] bytes *)
Definition without (n : nat) (key sz : Z) (d : DiskCache) : DiskCache :=
  d <| cacheItems ::= filter (λ p, p.1 ≠ n) |> <| inodeToCacheIter ::= delete key |>
    <| usedCap := u64 (usedCap d - sz) |> <| freeCap := u64 (freeCap d + sz) |>.

(** The ratio of free blocks when [preAllocSize] more bytes will have been
    written, in [CleanupForEvict]. *)
Definition freeBlockRatio (preAllocSize : Z) (d : DiskCache) : f32 :=
  f32_of_f64 (f64_sub (f64_of_f32 (blockRatio d)) (ratio (u64 (preAllocSize + reservedCap d)) (totalCap d))).

Section disk_cache.
Context {F : Type} `{!Posix F}.
(** The global variables of util/utils.cpp, set when the store starts. *)
Context (rootPath : string) (totalDirectory : Z).

Local Abbreviation DC := (M (DiskCache * F)).

Definition cache : DC DiskCache := '(d, _) ← mget; mret d.
Definition set_cache (f : DiskCache → DiskCache) : DC () := mmodify (λ '(d, fs), (f d, fs)).
Definition with_fs {A} (op : F → A * F) : DC A := λ '(d, fs), let '(a, fs') := op fs in Ret a (d, fs').
Definition now : DC Z := '(_, fs) ← mget; mret (u64 (posix_time fs)).
Definition errno : DC Z := '(_, fs) ← mget; mret (posix_errno fs).

Definition GetFilePath (inodeId : Z) : string :=
  (rootPath +:+ "/" +:+ pretty (Z.to_N (inodeId mod totalDirectory)) +:+ "/" +:+ pretty (Z.to_N inodeId) +:+ "-large")%string.

Definition remove_file (inodeId : Z) : DC bool := with_fs (posix_remove (GetFilePath inodeId)).

(** An iterator is used: the node it stands for, or undefined behaviour. *)
Definition deref (n : nat) : DC CacheItem :=
  d ← cache;
  match node_at n (cacheItems d) with Some item => mret item | None => mundefined end.
Definition update_node (n : nat) (f : CacheItem → CacheItem) : DC () :=
  set_cache (λ d, d <| cacheItems ::= alter_node n f |>).

Definition forget (n : nat) (key sz : Z) : DC () := set_cache (without n key sz).

Definition GetCurFreeRatio : DC Z :=
  '(_, fs) ← mget;
  match posix_statfs fs with
  | None => mret (-1)
  | Some info =>
    let total := u64 (u64 (f_bsize info) * u64 (f_blocks info)) in
    let capacity := u64 (u64 (f_bsize info) * u64 (f_bavail info)) in
    set_cache (λ d, d <| totalCap := total |> <| freeCap := capacity |> <| blockRatio := f32_of_f64 (ratio capacity total) |>
                      <| totalInodes := u64 (f_files info) |> <| freeInodes := u64 (f_ffree info) |>
                      <| inodeRatio := f32_of_f64 (ratio (u64 (f_ffree info)) (u64 (f_files info))) |>) ;;
    mret 0
  end.

(** The loop over the items that [CleanupForEvict] and [Cleanup] share, from
    node to node; a pinned item is met with continue, which does not advance. *)
Fixpoint evict_loop (rest : list nat) (toFreeCap toFreeInode freedCap freedInode : Z) : DC () :=
  match rest with
  | [] => mret ()
  | n :: rest' =>
    item ← deref n;
    if decide (refs item > 0) then mdiverge
    else
      removed ← remove_file (inode item);
      (if (removed : bool) then forget n (inode item) (size item) else mret ()) ;;
      let freedCap' := if (removed : bool) then u64 (freedCap + size item) else freedCap in
      let freedInode' := if (removed : bool) then u64 (freedInode + 1) else freedInode in
      if decide (freedCap' >= toFreeCap ∧ freedInode' >= toFreeInode) then mret ()
      else evict_loop rest' toFreeCap toFreeInode freedCap' freedInode'
  end.

(** How much is to be freed when [free] is less than the ratio wanted, at most
    what there is. *)
Definition to_free (total : Z) (wanted free : f32) (limit : Z) : option Z :=
  if SFltb free wanted then
    t ← u64_of_f32 (f32_mul (f32_of_Z total) (f32_sub wanted free));
    Some (if decide (t > limit) then limit else t)
  else Some 0.

Definition evict (wanted freeBlocks : f32) : DC () :=
  d ← cache;
  match to_free (totalCap d) wanted freeBlocks (usedCap d),
        to_free (totalInodes d) wanted (inodeRatio d) (Z.of_nat (base.size (inodeToCacheIter d))) with
  | Some toFreeCap, Some toFreeInode => evict_loop (cacheItems d).*1 toFreeCap toFreeInode 0 0
  | _, _ => mundefined
  end.

Definition CleanupForEvict (preAllocSize : Z) : DC () :=
  d ← cache;
  evict (freeRatio d) (freeBlockRatio preAllocSize d).

Definition Cleanup : DC () :=
  d ← cache;
  evict (bgFreeRatio d) (blockRatio d).

(** One round of the background thread, whether it goes on. *)
Definition CheckFreeSpace_round : DC bool :=
  d ← cache;
  if stop d then mret false
  else
    ret ← GetCurFreeRatio;
    if decide (ret ≠ 0) then mret false
    else
      d ← cache;
      (if SFltb (blockRatio d) (bgFreeRatio d) || SFltb (inodeRatio d) (bgFreeRatio d) then
         set_cache (λ d, d <| hasFreeSpace := false |>) ;; Cleanup
       else mret ()) ;;
      d ← cache;
      set_cache (λ d, d <| hasFreeSpace := SFleb (bgFreeRatio d) (blockRatio d) && SFleb (bgFreeRatio d) (inodeRatio d) |>) ;;
      mret true.

(** Removes the file of a node; the error number when that fails. *)
Definition remove_cached (n : nat) (key : Z) : DC Z :=
  item ← deref n;
  removed ← remove_file key;
  if (removed : bool) then forget n key (size item) ;; mret 0 else errno.

Definition Delete (key : Z) : DC Z :=
  d ← cache;
  if stop d then
    removed ← remove_file key;
    mret (if (removed : bool) then 0 else -1)
  else
    match inodeToCacheIter d !! key with
    | Some n => err ← remove_cached n key; mret (- err)
    | None => mret 0
    end.

Definition DeleteOldCacheWithNoPin (key : Z) : DC () :=
  d ← cache;
  match inodeToCacheIter d !! key with
  | Some n =>
    item ← deref n;
    if decide (refs item ≤ 0) then remove_cached n key ;; mret () else mret ()
  | None => mret ()
  end.

Definition Pin (key : Z) : DC () :=
  d ← cache;
  if stop d then mret ()
  else
    match inodeToCacheIter d !! key with
    | Some n =>
      deref n ;;
      t ← now;
      update_node n (λ i, i <| refs := u32 (refs i + 1) |> <| atime := t |>)
    | None => mundefined
    end.

Definition Unpin (key : Z) : DC () :=
  d ← cache;
  if stop d then mret ()
  else
    match inodeToCacheIter d !! key with
    | Some n =>
      item ← deref n;
      if decide (refs item > 0) then update_node n (λ i, i <| refs := u32 (refs i - 1) |>) else mret ()
    | None => mret ()
    end.

Definition Find (key : Z) (needPin : bool) : DC bool :=
  d ← cache;
  if stop d then '(_, fs) ← mget; mret (posix_access (GetFilePath key) fs)
  else if testOBS d then mret false
  else
    match inodeToCacheIter d !! key with
    | Some _ => (if needPin then Pin key else mret ()) ;; mret true
    | None => mret false
    end.

(** usedCap += delta; freeCap -= delta *)
Definition account (delta : Z) : DC () :=
  set_cache (λ d, d <| usedCap := u64 (usedCap d + delta) |> <| freeCap := u64 (freeCap d - delta) |>).

Definition InsertAndUpdate (key sz : Z) (needPin : bool) : DC () :=
  d ← cache;
  if stop d then mret ()
  else
    match inodeToCacheIter d !! key with
    | Some n =>
      item ← deref n;
      account (i64 (sz - size item)) ;;
      t ← now;
      update_node n (λ i, i <| atime := t |> <| size := sz |>)
    | None =>
      t ← now;
      set_cache (λ d, d <| cacheItems ::= (.++ [(nextNode d, mkItem key sz t 0)]) |>
                        <| inodeToCacheIter ::= <[key := nextNode d]> |> <| nextNode := (nextNode d + 1)%nat |>) ;;
      account sz ;;
      if needPin then Pin key else mret ()
    end.

Definition Update (key sz : Z) : DC bool :=
  d ← cache;
  if stop d then mret true
  else
    match inodeToCacheIter d !! key with
    | Some n =>
      item ← deref n;
      if decide (sz ≤ size item) then mret true
      else
        account (i64 (sz - size item)) ;;
        t ← now;
        update_node n (λ i, i <| atime := t |> <| size := sz |>) ;;
        mret true
    | None => mret false
    end.

Definition Add (key sz : Z) : DC bool :=
  d ← cache;
  if stop d then mret true
  else
    match inodeToCacheIter d !! key with
    | Some n =>
      deref n ;;
      account (i64 sz) ;;
      t ← now;
      update_node n (λ i, i <| atime := t |> <| size := u64 (size i + sz) |>) ;;
      mret true
    | None => mret false
    end.

Definition Evict (sz : Z) : DC () := GetCurFreeRatio ;; CleanupForEvict sz.

(** The do-while loop of [PreAllocSpace] with [retryCnt] attempts left. *)
Fixpoint prealloc_retry (retryCnt : nat) (sz : Z) : DC bool :=
  match retryCnt with
  | O => mret false
  | S r =>
    Evict sz ;;
    d ← cache;
    if decide (u64 (reservedCap d + sz) >= freeCap d) then prealloc_retry r sz
    else set_cache (λ d, d <| hasFreeSpace := true |> <| reservedCap := u64 (reservedCap d + sz) |>) ;; mret true
  end.

Definition PreAllocSpace (sz : Z) : DC bool :=
  d ← cache;
  if stop d then mret true
  else if decide (u64 (reservedCap d + sz) < freeCap d) then
    set_cache (λ d, d <| reservedCap := u64 (reservedCap d + sz) |>) ;; mret true
  else
    set_cache (λ d, d <| hasFreeSpace := false |>) ;; prealloc_retry 3 sz.

Definition FreePreAllocSpace (sz : Z) : DC () :=
  d ← cache;
  if stop d then mret () else set_cache (λ d, d <| reservedCap := u64 (reservedCap d - sz) |>).

Definition HasFreeSpace : DC bool := d ← cache; mret (hasFreeSpace d).

Definition CheckSpaceEnough : DC Z :=
  d ← cache;
  let blocks := f32_of_f64 (ratio (u64 (freeCap d + usedCap d)) (totalCap d)) in
  let inodes := f32_of_f64 (ratio (u64 (freeInodes d + Z.of_nat (base.size (inodeToCacheIter d)))) (totalInodes d)) in
  mret (if SFleb blocks (bgFreeRatio d) || SFleb inodes (bgFreeRatio d) || SFleb blocks (freeRatio d) || SFltb inodes (freeRatio d)
        then -1 else 0).

(** *** Reading the directories at start *)

(** What [Walk] adds to initCacheVector for one directory. *)
Definition Walk (dirPath : string) (fs : F) : list CacheItem :=
  match posix_listdir dirPath fs with
  | Some (entries, true) =>
    (λ '(name, st_atime, st_size), mkItem (u64 (atoll name)) (u64 st_size) (u64 st_atime) 0) <$>
      filter (λ '(name, _, _), name ≠ "."%string ∧ name ≠ ".."%string) entries
  | _ => []
  end.

Definition older (a b : CacheItem) : Prop := atime a ≤ atime b.
#[global] Instance older_dec : RelDecision older.
Proof. intros a b. unfold older. apply _. Defined.

(** [order]: the directories in the order in which their threads finish. *)
Definition ScanCache (rootDir : string) (order : list Z) : DC Z :=
  '(_, fs) ← mget;
  let initCacheVector := mbind (λ i, Walk (rootDir +:+ "/" +:+ pretty (Z.to_N i)) fs) order in
  mfor (merge_sort older initCacheVector) (λ c, InsertAndUpdate (inode c) (size c) false) ;;
  mret 0.

(** Up to the start of the background thread; [env] is TestOBS(). *)
Definition Start (rootDir : string) (dirNum : Z) (rat bgEvitRatio : f32) (order : list Z) (env : bool) : DC Z :=
  set_cache (λ d, d <| totalDirNum := dirNum |> <| freeRatio := rat |>) ;;
  (if SFeqb rat (S754_zero false) then set_cache (λ d, d <| stop := true |>) else mret ()) ;;
  set_cache (λ d, d <| bgFreeRatio := bgEvitRatio |>) ;;
  ret ← ScanCache rootDir order;
  if decide (ret ≠ 0) then mret ret
  else
    ret ← GetCurFreeRatio;
    if decide (ret ≠ 0) then mret ret
    else
      ret ← CheckSpaceEnough;
      if decide (ret ≠ 0) then mret ret
      else set_cache (λ d, d <| testOBS := env |>) ;; mret 0.
End disk_cache.

(** ** Nodes *)
Section nodes.
Implicit Types (l : list (nat * CacheItem)) (f : CacheItem → CacheItem).

Lemma node_at_alter n m f l : node_at n (alter_node m f l) = if decide (n = m) then f <$> node_at n l else node_at n l.
Proof.
  unfold alter_node. induction l as [|[k i] l IH]; [by destruct (decide (n = m))|]. rewrite fmap_cons. cbn [node_at fst snd].
  destruct (decide (k = m)) as [->|Hkm]; cbn [node_at fst snd]; rewrite IH.
  - destruct (decide (m = n)) as [->|Hmn]; [by rewrite decide_True|]. by rewrite (decide_False (P := n = m)).
  - destruct (decide (k = n)) as [->|Hkn]; [by rewrite decide_False|]. by destruct (decide (n = m)).
Qed.

Lemma node_at_filter n m l : node_at n (filter (λ p, p.1 ≠ m) l) = if decide (n = m) then None else node_at n l.
Proof.
  induction l as [|[k i] l IH]; [by destruct (decide (n = m))|]. rewrite filter_cons. cbn [fst].
  destruct (decide (k ≠ m)) as [Hkm|Hkm]; cbn [node_at]; rewrite IH.
  - destruct (decide (k = n)) as [->|]; [by rewrite decide_False|done].
  - apply dec_stable in Hkm as ->. destruct (decide (n = m)) as [->|]; [done|]. by rewrite decide_False.
Qed.

Lemma node_at_app n l k i : node_at n (l ++ [(k, i)]) = match node_at n l with Some x => Some x | None => if decide (k = n) then Some i else None end.
Proof. induction l as [|[m j] l IH]; simpl; [done|]. destruct (decide (m = n)); [done|exact IH]. Qed.

Lemma node_at_elem n i l : node_at n l = Some i → (n, i) ∈ l.
Proof.
  induction l as [|[k j] l IH]; simpl; [done|]. destruct (decide (k = n)) as [->|]; [intros [= ->]; by left|]. right. auto.
Qed.

Lemma node_at_dom n l : n ∈ l.*1 ↔ is_Some (node_at n l).
Proof.
  induction l as [|[k j] l IH].
  - split; [intros H; destruct (not_elem_of_nil _ H)|by intros [? ?]].
  - rewrite fmap_cons, elem_of_cons, IH. simpl. destruct (decide (k = n)) as [->|Hne]; [split; eauto|].
    split; [intros [->|?]; done|by right].
Qed.

Lemma nodes_alter n f l : (alter_node n f l).*1 = l.*1.
Proof.
  unfold alter_node. rewrite <-list_fmap_compose. apply list_fmap_ext. intros _ [k i] _. simpl. by destruct (decide (k = n)).
Qed.

Lemma nodes_filter m l : (filter (λ p, p.1 ≠ m) l).*1 = filter (λ n, n ≠ m) l.*1.
Proof. by rewrite filter_fmap. Qed.

(** The bytes of all files. *)
Definition sizes l : Z := zsum (λ p, size p.2) l.

Lemma sizes_alter n f l i : NoDup l.*1 → node_at n l = Some i → sizes (alter_node n f l) = sizes l - size i + size (f i).
Proof.
  unfold sizes, alter_node. induction l as [|[k j] l IH]; [done|]. rewrite !fmap_cons, NoDup_cons. cbn [fst node_at zsum snd].
  intros [Hk Hnd]. destruct (decide (k = n)) as [->|Hne]; cbn [snd].
  - intros [= ->].
    assert ((λ p, if decide (p.1 = n) then (p.1, f p.2) else p) <$> l = l) as ->; [|lia].
    rewrite <-(list_fmap_id l) at 2. apply list_fmap_ext. intros i0 [m x] Hin. cbn [fst]. rewrite decide_False; [done|].
    intros ->. apply Hk. apply list_elem_of_fmap. exists (n, x). split; [done|]. by eapply list_elem_of_lookup_2.
  - intros Hn. rewrite IH by done. lia.
Qed.

Lemma sizes_filter n l i : NoDup l.*1 → node_at n l = Some i → sizes (filter (λ p, p.1 ≠ n) l) = sizes l - size i.
Proof.
  unfold sizes. induction l as [|[k j] l IH]; [done|]. rewrite fmap_cons, NoDup_cons, filter_cons. cbn [fst node_at zsum snd].
  intros [Hk Hnd]. destruct (decide (k = n)) as [->|Hne].
  - intros [= ->]. rewrite decide_False by auto. rewrite filter_all; [lia|]. intros [m x] Hin. cbn [fst]. intros ->. apply Hk.
    apply list_elem_of_fmap. by exists (n, x).
  - intros Hn. rewrite decide_True by done. cbn [zsum snd]. rewrite IH by done. lia.
Qed.

Lemma sizes_app l k i : sizes (l ++ [(k, i)]) = sizes l + size i.
Proof. unfold sizes. rewrite zsum_app. simpl. lia. Qed.
End nodes.

(** ** Invariant and abstraction *)

(** The map and the list name the same files, no iterator dangles, and usedCap
    is the sum of the sizes. *)
Record cache_ok (d : DiskCache) : Prop := {
  ok_nodes : NoDup (cacheItems d).*1;
  ok_fresh n item : node_at n (cacheItems d) = Some item → (n < nextNode d)%nat;
  ok_map key n : inodeToCacheIter d !! key = Some n → ∃ item, node_at n (cacheItems d) = Some item ∧ inode item = key;
  ok_items n item : node_at n (cacheItems d) = Some item → inodeToCacheIter d !! inode item = Some n;
  ok_used : usedCap d = u64 (sizes (cacheItems d)) }.

(** What the cache promises: a finite map from inode ids to the size and the
    number of pins of the cached file, with the counters. *)
Record Abs := mkAbs { a_items : gmap Z (Z * Z); a_used : Z; a_free : Z; a_reserved : Z }.

Definition item_view (i : CacheItem) : Z * Z := (size i, refs i).
Definition view_items (d : DiskCache) : gmap Z (Z * Z) :=
  item_view <$> omap (λ n, node_at n (cacheItems d)) (inodeToCacheIter d).
Definition abs (d : DiskCache) : Abs := mkAbs (view_items d) (usedCap d) (freeCap d) (reservedCap d).

Lemma u64_add_l a b : u64 (u64 a + b) = u64 (a + b).
Proof. unfold u64. by rewrite Zplus_mod_idemp_l. Qed.
Lemma u64_add_i64 a b : u64 (a + i64 b) = u64 (a + b).
Proof.
  unfold u64, i64. replace (a + ((b + 2 ^ 63) mod 2 ^ 64 - 2 ^ 63)) with (a - 2 ^ 63 + (b + 2 ^ 63) mod 2 ^ 64) by lia.
  rewrite Zplus_mod_idemp_r. f_equal. lia.
Qed.

Lemma view_lookup d key :
  view_items d !! key = n ← inodeToCacheIter d !! key; item_view <$> node_at n (cacheItems d).
Proof. unfold view_items. rewrite lookup_fmap, lookup_omap. by destruct (inodeToCacheIter d !! key). Qed.

Lemma cached_view d key n item : inodeToCacheIter d !! key = Some n → node_at n (cacheItems d) = Some item →
  view_items d !! key = Some (item_view item).
Proof. intros Hk Hn. rewrite view_lookup, Hk. simpl. by rewrite Hn. Qed.

Lemma view_none d key : cache_ok d → inodeToCacheIter d !! key = None ↔ view_items d !! key = None.
Proof.
  intros Hok. rewrite view_lookup. destruct (inodeToCacheIter d !! key) as [n|] eqn:Hk; [|done]. simpl.
  destruct (ok_map d Hok key n Hk) as (i & -> & _). by split.
Qed.

(** *** Three changes of the list *)

(** The file of one node changes. *)
Lemma ok_alter d d' n item f delta :
  cache_ok d → node_at n (cacheItems d) = Some item → (∀ i, inode (f i) = inode i) →
  cacheItems d' = alter_node n f (cacheItems d) → nextNode d' = nextNode d → inodeToCacheIter d' = inodeToCacheIter d →
  usedCap d' = u64 (usedCap d + delta) → u64 (size (f item)) = u64 (size item + delta) →
  cache_ok d' ∧ view_items d' = <[inode item := item_view (f item)]> (view_items d).
Proof.
  intros Hok Hn Hf Hi Hnx Hm Hu Hd. split.
  - split; rewrite ?Hi, ?Hnx, ?Hm, ?nodes_alter; [apply Hok|..].
    + intros m i. rewrite node_at_alter. destruct (decide (m = n)) as [->|]; [|apply (ok_fresh d Hok)].
      intros _. by apply (ok_fresh d Hok n item).
    + intros key m Hk. destruct (ok_map d Hok key m Hk) as (i & Hm' & <-). rewrite node_at_alter, Hm'.
      destruct (decide (m = n)); simpl; eauto.
    + intros m i. rewrite node_at_alter. destruct (decide (m = n)) as [->|]; [|apply (ok_items d Hok)].
      rewrite Hn. intros [= <-]. rewrite Hf. by apply (ok_items d Hok).
    + rewrite Hu, (ok_used d Hok), (sizes_alter _ _ _ item), u64_add_l by (done || apply Hok).
      replace (sizes (cacheItems d) - size item + size (f item)) with (size (f item) + (sizes (cacheItems d) - size item)) by lia.
      rewrite <-(u64_add_l (size (f item))), Hd, u64_add_l. f_equal. lia.
  - apply map_eq. intros key. rewrite view_lookup, Hi, Hm. destruct (decide (key = inode item)) as [->|Hne].
    + rewrite lookup_insert_eq, (ok_items d Hok n item Hn). simpl. by rewrite node_at_alter, decide_True, Hn by done.
    + rewrite lookup_insert_ne, view_lookup by done. destruct (inodeToCacheIter d !! key) as [m|] eqn:Hk; [|done]. simpl.
      destruct (ok_map d Hok key m Hk) as (i & Hm' & Hkey). rewrite node_at_alter, decide_False; [done|].
      intros ->. congruence.
Qed.

(** A file leaves the cache. *)
Lemma ok_forget d d' n item :
  cache_ok d → node_at n (cacheItems d) = Some item →
  cacheItems d' = filter (λ p, p.1 ≠ n) (cacheItems d) → nextNode d' = nextNode d →
  inodeToCacheIter d' = delete (inode item) (inodeToCacheIter d) → usedCap d' = u64 (usedCap d - size item) →
  cache_ok d' ∧ view_items d' = delete (inode item) (view_items d).
Proof.
  intros Hok Hn Hi Hnx Hm Hu. split.
  - split; rewrite ?Hi, ?Hnx, ?Hm.
    + rewrite nodes_filter. apply NoDup_filter, Hok.
    + intros m i. rewrite node_at_filter. destruct (decide (m = n)); [done|]. apply (ok_fresh d Hok).
    + intros key m [Hne Hk]%lookup_delete_Some. destruct (ok_map d Hok key m Hk) as (i & Hm' & Hkey).
      rewrite node_at_filter, decide_False; [eauto|]. intros ->. congruence.
    + intros m i. rewrite node_at_filter. destruct (decide (m = n)) as [|Hmn]; [done|]. intros Hi'. apply lookup_delete_Some.
      split; [|by apply (ok_items d Hok)]. intros He. apply Hmn. pose proof (ok_items d Hok m i Hi') as H1.
      pose proof (ok_items d Hok n item Hn) as H2. congruence.
    + rewrite Hu, (ok_used d Hok), (sizes_filter _ _ item) by (done || apply Hok). unfold u64. by rewrite Zminus_mod_idemp_l.
  - apply map_eq. intros key. rewrite view_lookup, Hi, Hm. destruct (decide (key = inode item)) as [->|Hne].
    + by rewrite !lookup_delete_eq.
    + rewrite !lookup_delete_ne, view_lookup by done. destruct (inodeToCacheIter d !! key) as [m|] eqn:Hk; [|done]. simpl.
      destruct (ok_map d Hok key m Hk) as (i & Hm' & Hkey). rewrite node_at_filter, decide_False; [done|]. intros ->. congruence.
Qed.

(** A file enters it. *)
Lemma ok_append d d' item :
  cache_ok d → inodeToCacheIter d !! inode item = None →
  cacheItems d' = cacheItems d ++ [(nextNode d, item)] → nextNode d' = (nextNode d + 1)%nat →
  inodeToCacheIter d' = <[inode item := nextNode d]> (inodeToCacheIter d) → usedCap d' = u64 (usedCap d + size item) →
  cache_ok d' ∧ view_items d' = <[inode item := item_view item]> (view_items d).
Proof.
  intros Hok Hnone Hi Hnx Hm Hu.
  assert (node_at (nextNode d) (cacheItems d) = None) as Hfresh.
  { destruct (node_at (nextNode d) (cacheItems d)) as [i|] eqn:E; [|done]. pose proof (ok_fresh d Hok _ _ E). lia. }
  split.
  - split; rewrite ?Hi, ?Hnx, ?Hm.
    + rewrite fmap_app, NoDup_app. split; [apply Hok|]. split; [|by apply NoDup_singleton].
      intros m Hin Hm2. cbn in Hm2. apply list_elem_of_singleton in Hm2 as ->. apply node_at_dom in Hin as [? ?]. congruence.
    + intros m i. rewrite node_at_app. destruct (node_at m (cacheItems d)) as [x|] eqn:E.
      * intros _. pose proof (ok_fresh d Hok _ _ E). lia.
      * destruct (decide _) as [<-|]; [lia|done].
    + intros key m. rewrite lookup_insert_Some. intros [[<- <-]|[Hne Hk]].
      * exists item. by rewrite node_at_app, Hfresh, decide_True.
      * destruct (ok_map d Hok key m Hk) as (i & Hm' & Hkey). exists i. by rewrite node_at_app, Hm'.
    + intros m i. rewrite node_at_app. destruct (node_at m (cacheItems d)) as [x|] eqn:E.
      * intros [= <-]. apply lookup_insert_Some. right. pose proof (ok_items d Hok _ _ E). split; congruence.
      * destruct (decide _) as [<-|]; [|done]. intros [= <-]. apply lookup_insert_eq.
    + rewrite Hu, (ok_used d Hok), sizes_app. apply u64_add_l.
  - apply map_eq. intros key. rewrite view_lookup, Hi, Hm. destruct (decide (key = inode item)) as [->|Hne].
    + rewrite !lookup_insert_eq. simpl. by rewrite node_at_app, Hfresh, decide_True.
    + rewrite !lookup_insert_ne, view_lookup by done. destruct (inodeToCacheIter d !! key) as [m|] eqn:Hk; [|done]. simpl.
      destruct (ok_map d Hok key m Hk) as (i & Hm' & Hkey). by rewrite node_at_app, Hm'.
Qed.

(** ** Refinement *)
Section refinement.
Context {F : Type} `{!Posix F}.
Context (rootPath : string) (totalDirectory : Z).
Local Abbreviation DC := (M (DiskCache * F)).

Lemma bind_cache {B} (f : DiskCache → DC B) d fs : (cache ≫= f) (d, fs) = f d (d, fs).
Proof. done. Qed.
Lemma bind_set_cache {B} g (f : () → DC B) d fs : (set_cache g ≫= f) (d, fs) = f () (g d, fs).
Proof. done. Qed.
Lemma bind_now {B} (f : Z → DC B) d fs : (now ≫= f) (d, fs) = f (u64 (posix_time fs)) (d, fs).
Proof. done. Qed.
Lemma bind_errno {B} (f : Z → DC B) d fs : (errno ≫= f) (d, fs) = f (posix_errno fs) (d, fs).
Proof. done. Qed.
Lemma bind_remove {B} key (f : bool → DC B) d fs (r := posix_remove (GetFilePath rootPath totalDirectory key) fs) :
  (remove_file rootPath totalDirectory key ≫= f) (d, fs) = f r.1 (d, r.2).
Proof. unfold remove_file, with_fs, mbind, M_bind. fold r. by destruct r. Qed.
Lemma bind_deref {B} n item (f : CacheItem → DC B) d fs :
  node_at n (cacheItems d) = Some item → (deref n ≫= f) (d, fs) = f item (d, fs).
Proof. intros Hn. unfold deref, cache, mbind, M_bind. simpl. by rewrite Hn. Qed.

Local Hint Rewrite @bind_cache @bind_set_cache @bind_now @bind_errno @bind_remove : cuckoo.

(** *** Operations by name, and what they promise *)
Inductive cache_op :=
  | OpFind (key : Z) (needPin : bool)
  | OpInsertAndUpdate (key sz : Z) (needPin : bool)
  | OpUpdate (key sz : Z)
  | OpAdd (key sz : Z)
  | OpUnpin (key : Z)
  | OpDelete (key : Z)
  | OpDeleteOldCacheWithNoPin (key : Z)
  | OpFreePreAllocSpace (sz : Z).

Definition run (o : cache_op) : DC Z :=
  match o with
  | OpFind key pin => b ← Find rootPath totalDirectory key pin; mret (Z.b2z b)
  | OpInsertAndUpdate key sz pin => InsertAndUpdate key sz pin ;; mret 0
  | OpUpdate key sz => b ← Update key sz; mret (Z.b2z b)
  | OpAdd key sz => b ← Add key sz; mret (Z.b2z b)
  | OpUnpin key => Unpin key ;; mret 0
  | OpDelete key => Delete rootPath totalDirectory key
  | OpDeleteOldCacheWithNoPin key => DeleteOldCacheWithNoPin rootPath totalDirectory key ;; mret 0
  | OpFreePreAllocSpace sz => FreePreAllocSpace sz ;; mret 0
  end.

(** The entry of [key] becomes [v] and the file grows by [delta] bytes. *)
Definition a_set (key : Z) (v : Z * Z) (delta : Z) (a : Abs) : Abs :=
  mkAbs (<[key := v]> (a_items a)) (u64 (a_used a + delta)) (u64 (a_free a - delta)) (a_reserved a).
Definition a_pin (key : Z) (v : Z * Z) (a : Abs) : Abs :=
  mkAbs (<[key := v]> (a_items a)) (a_used a) (a_free a) (a_reserved a).
Definition a_drop (key sz : Z) (a : Abs) : Abs :=
  mkAbs (delete key (a_items a)) (u64 (a_used a - sz)) (u64 (a_free a + sz)) (a_reserved a).

(** [removed] and [err]: whether remove(3) of the file succeeds, and errno. *)
Definition promise (removed : bool) (err : Z) (o : cache_op) (a : Abs) : Z * Abs :=
  match o with
  | OpFind key pin =>
    match a_items a !! key with
    | Some (s, r) => (1, if pin then a_pin key (s, u32 (r + 1)) a else a)
    | None => (0, a)
    end
  | OpInsertAndUpdate key sz pin =>
    match a_items a !! key with
    | Some (s, r) => (0, a_set key (sz, r) (i64 (sz - s)) a)
    | None => (0, a_set key (sz, if pin then 1 else 0) sz a)
    end
  | OpUpdate key sz =>
    match a_items a !! key with
    | Some (s, r) => (1, if decide (sz ≤ s) then a else a_set key (sz, r) (i64 (sz - s)) a)
    | None => (0, a)
    end
  | OpAdd key sz =>
    match a_items a !! key with
    | Some (s, r) => (1, a_set key (u64 (s + sz), r) (i64 sz) a)
    | None => (0, a)
    end
  | OpUnpin key =>
    match a_items a !! key with
    | Some (s, r) => (0, if decide (r > 0) then a_pin key (s, u32 (r - 1)) a else a)
    | None => (0, a)
    end
  | OpDelete key =>
    match a_items a !! key with
    | Some (s, r) => if removed then (0, a_drop key s a) else (- err, a)
    | None => (0, a)
    end
  | OpDeleteOldCacheWithNoPin key =>
    match a_items a !! key with
    | Some (s, r) => (0, if removed && bool_decide (r ≤ 0) then a_drop key s a else a)
    | None => (0, a)
    end
  | OpFreePreAllocSpace sz => (0, mkAbs (a_items a) (a_used a) (a_free a) (u64 (a_reserved a - sz)))
  end.

Definition op_key (o : cache_op) : Z :=
  match o with
  | OpFind key _ | OpInsertAndUpdate key _ _ | OpUpdate key _ | OpAdd key _ | OpUnpin key | OpDelete key
  | OpDeleteOldCacheWithNoPin key => key
  | OpFreePreAllocSpace _ => 0
  end.

(** The cache works (it was started with a ratio, and not for tests). *)
Definition active (d : DiskCache) : Prop := stop d = false ∧ testOBS d = false.

(** The run of an operation returns with the invariant, and [Q] of the result. *)
Definition does (m : DC Z) d fs (p : Z * Abs) : Prop :=
  returns (m (d, fs)) (λ r '(d', _), cache_ok d' ∧ active d' ∧ (r, abs d') = p).

Lemma does_ret (m : DC Z) d fs r a d' fs' :
  m (d, fs) = Ret r (d', fs') → cache_ok d' → active d' → view_items d' = a_items a → usedCap d' = a_used a →
  freeCap d' = a_free a → reservedCap d' = a_reserved a → does m d fs (r, a).
Proof.
  intros Hm Hok Hact H1 H2 H3 H4. unfold does. rewrite Hm. simpl. split_and!; try done. unfold abs. rewrite H1, H2, H3, H4. by destruct a.
Qed.

Lemma Pin_does d fs key n item :
  cache_ok d → active d → inodeToCacheIter d !! key = Some n → node_at n (cacheItems d) = Some item →
  ∃ d', Pin key (d, fs) = Ret () (d', fs) ∧ cache_ok d' ∧ active d' ∧
    view_items d' = <[key := (size item, u32 (refs item + 1))]> (view_items d) ∧
    usedCap d' = usedCap d ∧ freeCap d' = freeCap d ∧ reservedCap d' = reservedCap d.
Proof.
  intros Hok [Hstop Hobs] Hk Hn. unfold Pin. mstep. rewrite Hstop, Hk, (bind_deref n item) by done. mstep. unfold update_node.
  eexists. split; [reflexivity|]. destruct (ok_map d Hok key n Hk) as (i & Hi & <-). rewrite Hn in Hi. injection Hi as <-.
  set (d' := set_field _ _ _).
  destruct (ok_alter d d' n item (λ i, i <| refs := u32 (refs i + 1) |> <| atime := u64 (posix_time fs) |>) 0 Hok Hn) as [Hok' Hv];
    try done.
  - simpl. rewrite Z.add_0_r, (ok_used d Hok). unfold u64. by rewrite Zmod_mod.
  - simpl. by rewrite Z.add_0_r.
Qed.

(** A cached file, by its entry in the abstract map. *)
Lemma cached_cases d key : cache_ok d →
  (inodeToCacheIter d !! key = None ∧ a_items (abs d) !! key = None) ∨
  ∃ n item, inodeToCacheIter d !! key = Some n ∧ node_at n (cacheItems d) = Some item ∧ inode item = key ∧
    a_items (abs d) !! key = Some (size item, refs item).
Proof.
  intros Hok. simpl. destruct (inodeToCacheIter d !! key) as [n|] eqn:Hk.
  - right. destruct (ok_map d Hok key n Hk) as (item & Hn & Hi). exists n, item. split_and!; try done.
    by apply (cached_view d key n item).
  - left. split; [done|]. by apply view_none.
Qed.

(** [cached key]: the cases of the lookup of [key]. *)
Ltac cached key :=
  match goal with Hok : cache_ok ?d |- _ =>
    destruct (cached_cases d key Hok) as [(Hk & Ha)|(n & item & Hk & Hn & Hi & Ha)]; rewrite Ha
  end.


Lemma unchanged (m : DC Z) d fs fs' r : cache_ok d → active d → m (d, fs) = Ret r (d, fs') → does m d fs (r, abs d).
Proof. intros Hok Hact Hm. by apply (does_ret m d fs r (abs d) d fs'). Qed.

Lemma resized (m : DC Z) d fs r n item f delta d' fs' v :
  cache_ok d → active d → item_view (f item) = v → node_at n (cacheItems d) = Some item → (∀ i, inode (f i) = inode i) →
  m (d, fs) = Ret r (d', fs') → cacheItems d' = alter_node n f (cacheItems d) → nextNode d' = nextNode d →
  inodeToCacheIter d' = inodeToCacheIter d → active d' →
  usedCap d' = u64 (usedCap d + delta) → freeCap d' = u64 (freeCap d - delta) → reservedCap d' = reservedCap d →
  u64 (size (f item)) = u64 (size item + delta) →
  does m d fs (r, a_set (inode item) v delta (abs d)).
Proof.
  intros Hok Hact <- Hn Hf Hm H1 H2 H3 H4 H5 H6 H7 H8. destruct (ok_alter d d' n item f delta) as [Hok' Hv]; try done.
  by apply (does_ret m d fs r _ d' fs').
Qed.

Lemma dropped (m : DC Z) d fs r n item d' fs' :
  cache_ok d → active d → node_at n (cacheItems d) = Some item →
  m (d, fs) = Ret r (d', fs') → cacheItems d' = filter (λ p, p.1 ≠ n) (cacheItems d) → nextNode d' = nextNode d →
  inodeToCacheIter d' = delete (inode item) (inodeToCacheIter d) → active d' →
  usedCap d' = u64 (usedCap d - size item) → freeCap d' = u64 (freeCap d + size item) → reservedCap d' = reservedCap d →
  does m d fs (r, a_drop (inode item) (size item) (abs d)).
Proof.
  intros Hok Hact Hn Hm H1 H2 H3 H4 H5 H6 H7. destruct (ok_forget d d' n item) as [Hok' Hv]; try done.
  by apply (does_ret m d fs r _ d' fs').
Qed.

Lemma u64_size_delta a b : u64 b = u64 (a + i64 (b - a)).
Proof. rewrite u64_add_i64. f_equal. lia. Qed.

Lemma Find_does d fs key pin rm err : cache_ok d → active d → does (run (OpFind key pin)) d fs (promise rm err (OpFind key pin) (abs d)).
Proof.
  intros Hok Hact. pose proof Hact as [Hstop Hobs]. unfold run, promise, Find. cached key; [|destruct pin].
  - apply (unchanged _ d fs fs 0); try done. mstep. by rewrite Hstop, Hobs, Hk.
  - destruct (Pin_does d fs key n item Hok Hact Hk Hn) as (d' & Hp & Hok' & Hact' & Hv & Hu & Hf & Hr).
    apply (does_ret _ d fs 1 _ d' fs); try done. mstep. rewrite Hstop, Hobs, Hk. mstep. by rewrite (bind_ret _ _ _ _ _ Hp).
  - apply (unchanged _ d fs fs 1); try done. mstep. by rewrite Hstop, Hobs, Hk.
Qed.

Lemma Insert_does d fs key sz pin rm err : cache_ok d → active d → 0 ≤ sz < 2 ^ 64 →
  does (run (OpInsertAndUpdate key sz pin)) d fs (promise rm err (OpInsertAndUpdate key sz pin) (abs d)).
Proof.
  intros Hok Hact Hsz. pose proof Hact as [Hstop Hobs]. unfold run, promise, InsertAndUpdate. cached key.
  - set (t := u64 (posix_time fs)). set (item := mkItem key sz t 0).
    set (d1 := d <| cacheItems ::= (.++ [(nextNode d, item)]) |> <| inodeToCacheIter ::= <[key := nextNode d]> |>
                 <| nextNode := (nextNode d + 1)%nat |> <| usedCap := u64 (usedCap d + sz) |> <| freeCap := u64 (freeCap d - sz) |>).
    destruct (ok_append d d1 item Hok Hk) as [Hok1 Hv1]; try done.
    assert (node_at (nextNode d) (cacheItems d1) = Some item) as Hn1.
    { simpl. rewrite node_at_app. destruct (node_at (nextNode d) (cacheItems d)) as [x|] eqn:E; [|by rewrite decide_True].
      pose proof (ok_fresh d Hok _ _ E). lia. }
    destruct pin.
    + destruct (Pin_does d1 fs key (nextNode d) item Hok1 Hact (lookup_insert_eq _ _ _) Hn1) as (d' & Hp & Hok' & Hact' & Hv & Hu & Hf & Hr).
      apply (does_ret _ d fs 0 _ d' fs); try done.
      * mstep. rewrite Hstop, Hk. unfold account. mstep. by rewrite (bind_ret _ _ _ _ _ Hp).
      * rewrite Hv, Hv1. simpl. by rewrite insert_insert_eq.
    + apply (does_ret _ d fs 0 _ d1 fs); try done. mstep. by rewrite Hstop, Hk.
  - rewrite <-Hi. apply (resized _ d fs 0 n item (λ i, i <| atime := u64 (posix_time fs) |> <| size := sz |>) (i64 (sz - size item))
      (d <| usedCap := u64 (usedCap d + i64 (sz - size item)) |> <| freeCap := u64 (freeCap d - i64 (sz - size item)) |>
         <| cacheItems ::= alter_node n (λ i, i <| atime := u64 (posix_time fs) |> <| size := sz |>) |>) fs); try done.
    + rewrite Hi. mstep. rewrite Hstop, Hk. mstep. rewrite (bind_deref n item) by done. unfold account, update_node. by mstep.
    + apply u64_size_delta.
Qed.

Lemma Update_does d fs key sz rm err : cache_ok d → active d →
  does (run (OpUpdate key sz)) d fs (promise rm err (OpUpdate key sz) (abs d)).
Proof.
  intros Hok Hact. pose proof Hact as [Hstop Hobs]. unfold run, promise, Update. cached key; [|destruct (decide (sz ≤ size item)) as [Hle|Hgt]].
  - apply (unchanged _ d fs fs 0); try done. mstep. by rewrite Hstop, Hk.
  - apply (unchanged _ d fs fs 1); try done. mstep. rewrite Hstop, Hk. mstep. rewrite (bind_deref n item) by done. by rewrite decide_True.
  - rewrite <-Hi. apply (resized _ d fs 1 n item (λ i, i <| atime := u64 (posix_time fs) |> <| size := sz |>) (i64 (sz - size item))
      (d <| usedCap := u64 (usedCap d + i64 (sz - size item)) |> <| freeCap := u64 (freeCap d - i64 (sz - size item)) |>
         <| cacheItems ::= alter_node n (λ i, i <| atime := u64 (posix_time fs) |> <| size := sz |>) |>) fs); try done.
    + rewrite Hi. mstep. rewrite Hstop, Hk. mstep. rewrite (bind_deref n item) by done. rewrite decide_False by done.
      unfold account, update_node. by mstep.
    + apply u64_size_delta.
Qed.

Lemma Add_does d fs key sz rm err : cache_ok d → active d →
  does (run (OpAdd key sz)) d fs (promise rm err (OpAdd key sz) (abs d)).
Proof.
  intros Hok Hact. pose proof Hact as [Hstop Hobs]. unfold run, promise, Add. cached key.
  - apply (unchanged _ d fs fs 0); try done. mstep. by rewrite Hstop, Hk.
  - rewrite <-Hi. apply (resized _ d fs 1 n item (λ i, i <| atime := u64 (posix_time fs) |> <| size := u64 (size i + sz) |>) (i64 sz)
      (d <| usedCap := u64 (usedCap d + i64 sz) |> <| freeCap := u64 (freeCap d - i64 sz) |>
         <| cacheItems ::= alter_node n (λ i, i <| atime := u64 (posix_time fs) |> <| size := u64 (size i + sz) |>) |>) fs); try done.
    + rewrite Hi. mstep. rewrite Hstop, Hk. mstep. rewrite (bind_deref n item) by done. unfold account, update_node. by mstep.
    + simpl. rewrite u64_add_i64. unfold u64. by rewrite Zmod_mod.
Qed.

Lemma Unpin_does d fs key rm err : cache_ok d → active d →
  does (run (OpUnpin key)) d fs (promise rm err (OpUnpin key) (abs d)).
Proof.
  intros Hok Hact. pose proof Hact as [Hstop Hobs]. unfold run, promise, Unpin. cached key; [|destruct (decide (refs item > 0)) as [Hr|Hr]].
  - apply (unchanged _ d fs fs 0); try done. mstep. by rewrite Hstop, Hk.
  - set (f i := i <| refs := u32 (refs i - 1) |>). set (d' := d <| cacheItems ::= alter_node n f |>).
    destruct (ok_alter d d' n item f 0) as [Hok' Hv]; try done.
    { change (usedCap d') with (usedCap d). rewrite Z.add_0_r, (ok_used d Hok). unfold u64. by rewrite Zmod_mod. }
    { simpl. by rewrite Z.add_0_r. }
    rewrite <-Hi. apply (does_ret _ d fs 0 _ d' fs); try done. rewrite Hi. mstep. rewrite Hstop, Hk. mstep.
    rewrite (bind_deref n item) by done. rewrite decide_True by done. unfold update_node. by mstep.
  - apply (unchanged _ d fs fs 0); try done. mstep. rewrite Hstop, Hk. mstep. rewrite (bind_deref n item) by done. by rewrite decide_False.
Qed.

Lemma remove_cached_runs d fs key n item (r := posix_remove (GetFilePath rootPath totalDirectory key) fs) :
  node_at n (cacheItems d) = Some item →
  remove_cached rootPath totalDirectory n key (d, fs) =
    if r.1 then Ret 0 (without n key (size item) d, r.2)
    else Ret (posix_errno r.2) (d, r.2).
Proof.
  intros Hn. unfold remove_cached. rewrite (bind_deref n item) by done. rewrite bind_remove. fold r. destruct r as [[] fs']; [|done].
  unfold forget. by mstep.
Qed.

Lemma Delete_does d fs key (r := posix_remove (GetFilePath rootPath totalDirectory key) fs) :
  cache_ok d → active d → does (run (OpDelete key)) d fs (promise r.1 (posix_errno r.2) (OpDelete key) (abs d)).
Proof.
  intros Hok Hact. pose proof Hact as [Hstop Hobs]. unfold run, promise, Delete. cached key; [|destruct r.1 eqn:Hr].
  - apply (unchanged _ d fs fs 0); try done. mstep. by rewrite Hstop, Hk.
  - rewrite <-Hi. apply (dropped _ d fs 0 n item (without n (inode item) (size item) d) r.2); try done. rewrite Hi. mstep. rewrite Hstop, Hk. mstep.
    unfold mbind, M_bind. rewrite (remove_cached_runs d fs key n item Hn). fold r. rewrite Hr, <-Hi. reflexivity.
  - apply (unchanged _ d fs r.2); try done. mstep. rewrite Hstop, Hk. mstep. unfold mbind, M_bind.
    rewrite (remove_cached_runs d fs key n item Hn). fold r. by rewrite Hr.
Qed.

Lemma DeleteOld_does d fs key (r := posix_remove (GetFilePath rootPath totalDirectory key) fs) :
  cache_ok d → active d →
  does (run (OpDeleteOldCacheWithNoPin key)) d fs (promise r.1 (posix_errno r.2) (OpDeleteOldCacheWithNoPin key) (abs d)).
Proof.
  intros Hok Hact. pose proof Hact as [Hstop Hobs]. unfold run, promise, DeleteOldCacheWithNoPin.
  cached key; [|destruct (decide (refs item ≤ 0)) as [Hle|Hgt]; [rewrite bool_decide_eq_true_2, andb_true_r by done; destruct r.1 eqn:Hr|]].
  - apply (unchanged _ d fs fs 0); try done. mstep. by rewrite Hk.
  - rewrite <-Hi. apply (dropped _ d fs 0 n item (without n (inode item) (size item) d) r.2); try done. rewrite Hi. mstep. rewrite Hk. mstep.
    rewrite (bind_deref n item) by done. rewrite decide_True by done. unfold mbind, M_bind.
    rewrite (remove_cached_runs d fs key n item Hn). fold r. rewrite Hr, <-Hi. reflexivity.
  - apply (unchanged _ d fs r.2); try done. mstep. rewrite Hk. mstep. rewrite (bind_deref n item) by done. rewrite decide_True by done.
    unfold mbind, M_bind. rewrite (remove_cached_runs d fs key n item Hn). fold r. by rewrite Hr.
  - rewrite bool_decide_eq_false_2, andb_false_r by done. apply (unchanged _ d fs fs 0); try done. mstep. rewrite Hk. mstep.
    rewrite (bind_deref n item) by done. by rewrite decide_False.
Qed.

(** (C3) The disk cache implements a finite map from inode ids to the size and
    the number of pins of the cached file: on a state in which list, iterators
    and counters agree, every operation other than eviction returns (no iterator
    dangles), leaves such a state, and changes the map, usedCap, freeCap and
    reservedCap exactly as promised; a file is forgotten only if it could be
    removed from the disk. *)
Theorem disk_cache_refines o d fs (r := posix_remove (GetFilePath rootPath totalDirectory (op_key o)) fs) :
  cache_ok d → active d →
  match o with OpInsertAndUpdate _ sz _ => 0 ≤ sz < 2 ^ 64 | _ => True end →
  does (run o) d fs (promise r.1 (posix_errno r.2) o (abs d)).
Proof.
  intros Hok Hact Harg. destruct o.
  - by apply Find_does.
  - by apply Insert_does.
  - by apply Update_does.
  - by apply Add_does.
  - by apply Unpin_does.
  - by apply Delete_does.
  - by apply DeleteOld_does.
  - apply (does_ret _ d fs 0 _ (d <| reservedCap := u64 (reservedCap d - sz) |>) fs); try done.
    + unfold run, FreePreAllocSpace. mstep. destruct Hact as [-> _]. by mstep.
    + destruct Hok. by split.
Qed.

(** *** Eviction *)

(** The files [gone], none of them pinned, have left the cache, and nothing else
    has changed. *)
Definition evicted (gone : list CacheItem) (d d' : DiskCache) : Prop :=
  Forall (λ i, refs i ≤ 0 ∧ view_items d !! inode i = Some (item_view i)) gone ∧
  view_items d' = foldl (λ m i, delete (inode i) m) (view_items d) gone ∧
  usedCap d' = u64 (usedCap d - zsum size gone) ∧ u64 (freeCap d') = u64 (freeCap d + zsum size gone) ∧
  reservedCap d' = reservedCap d.

Lemma ok_used_range d : cache_ok d → u64 (usedCap d) = usedCap d.
Proof. intros Hok. rewrite (ok_used d Hok). unfold u64. apply Zmod_mod. Qed.

Lemma evicted_nil d : cache_ok d → evicted [] d d.
Proof. intros Hok. unfold evicted. simpl. rewrite Z.sub_0_r, Z.add_0_r, ok_used_range by done. by split_and!. Qed.

Lemma evicted_cons d n item gone d' :
  cache_ok d → node_at n (cacheItems d) = Some item → refs item ≤ 0 →
  evicted gone (without n (inode item) (size item) d) d' → evicted (item :: gone) d d'.
Proof.
  intros Hok Hn Hr (Hall & Hv & Hu & Hf & Hres). unfold evicted. simpl.
  destruct (ok_forget d (without n (inode item) (size item) d) n item Hok Hn) as [_ Hv1]; try done. rewrite Hv1 in *.
  split_and!; try done.
  - apply Forall_cons. split; [split; [done|]; by apply (cached_view d _ n item (ok_items d Hok n item Hn))|].
    eapply Forall_impl; [exact Hall|]. intros i [Hi Hl]. simpl in Hl. split; [done|]. by apply lookup_delete_Some in Hl as [_ ?].
  - rewrite Hu. simpl. unfold u64. rewrite Zminus_mod_idemp_l. f_equal. lia.
  - rewrite Hf. simpl. rewrite u64_add_l. f_equal. lia.
Qed.

(** Enough bytes and files: the targets of an eviction that has freed [fc] bytes and
    [fi] files before it removes [gone]. *)
Definition enough (toCap toInode fc fi : Z) (gone : list CacheItem) : Prop :=
  toCap ≤ u64 (fc + zsum size gone) ∧ toInode ≤ u64 (fi + Z.of_nat (length gone)).

(** It was not enough before the last of them. *)
Definition none_too_many (toCap toInode fc fi : Z) (gone : list CacheItem) : Prop :=
  ∀ k, (0 < k < length gone)%nat → ¬ enough toCap toInode fc fi (take k gone).

(** remove(3) has failed for the file. *)
Definition stays (key : Z) : Prop := ∃ fs : F, (posix_remove (GetFilePath rootPath totalDirectory key) fs).1 = false.

Lemma enough_cons toCap toInode fc fi item gone :
  enough toCap toInode (u64 (fc + size item)) (u64 (fi + 1)) gone ↔ enough toCap toInode fc fi (item :: gone).
Proof.
  unfold enough. rewrite !u64_add_l. cbn [zsum length]. rewrite Nat2Z.inj_succ, Z.add_assoc.
  by replace (fi + Z.succ (Z.of_nat (length gone))) with (fi + 1 + Z.of_nat (length gone)) by lia.
Qed.

Lemma none_too_many_cons toCap toInode fc fi item gone :
  ¬ enough toCap toInode fc fi [item] → none_too_many toCap toInode (u64 (fc + size item)) (u64 (fi + 1)) gone →
  none_too_many toCap toInode fc fi (item :: gone).
Proof.
  intros H1 Hg [|[|k]] Hk; [lia|done|]. cbn [take]. rewrite <-enough_cons. apply Hg. simpl in Hk. lia.
Qed.

Lemma evict_loop_spec rest d fs toCap toInode fc fi :
  cache_ok d → active d → NoDup rest → (∀ n, n ∈ rest → is_Some (node_at n (cacheItems d))) → u64 fc = fc → u64 fi = fi →
  match evict_loop rootPath totalDirectory rest toCap toInode fc fi (d, fs) with
  | Ret _ (d', _) => ∃ gone, cache_ok d' ∧ active d' ∧ evicted gone d d' ∧
      gone `sublist_of` omap (λ n, node_at n (cacheItems d)) rest ∧ none_too_many toCap toInode fc fi gone ∧
      (enough toCap toInode fc fi gone ∨
       ∀ n item, n ∈ rest → node_at n (cacheItems d) = Some item → refs item ≤ 0 ∧ (item ∈ gone ∨ stays (inode item)))
  | Diverge => ∃ n item, n ∈ rest ∧ node_at n (cacheItems d) = Some item ∧ refs item > 0
  | _ => False
  end.
Proof.
  revert d fs fc fi. induction rest as [|n rest IH]; intros d fs fc fi Hok Hact Hnd Hex Hfc Hfi.
  { exists []. split_and!; try done; [by apply evicted_nil|by intros k [? ?%Nat.nlt_0_r]|]. right. intros n item Hin. by apply not_elem_of_nil in Hin. }
  apply NoDup_cons in Hnd as [Hni Hnd]. destruct (Hex n) as [item Hn]; [by left|]. cbn [evict_loop omap list_omap]. rewrite Hn.
  rewrite (bind_deref n item) by done. destruct (decide (refs item > 0)) as [Hp|Hp].
  { exists n, item. split_and!; try done. by left. }
  rewrite bind_remove. set (r := posix_remove _ fs).
  destruct r.1 eqn:Er; cbv beta iota.
  - unfold forget. mstep. set (d1 := without n (inode item) (size item) d).
    destruct (ok_forget d d1 n item Hok Hn) as [Hok1 _]; try done.
    assert (∀ m, m ∈ rest → node_at m (cacheItems d1) = node_at m (cacheItems d)) as Hsame.
    { intros m Hin. simpl. rewrite node_at_filter, decide_False; [done|]. by intros ->. }
    assert (∀ m, m ∈ rest → is_Some (node_at m (cacheItems d1))) as Hex1 by (intros m Hm; rewrite Hsame by done; apply Hex; by right).
    assert (enough toCap toInode fc fi [item] ↔ u64 (fc + size item) >= toCap ∧ u64 (fi + 1) >= toInode) as Hone
      by (unfold enough; cbn [zsum length]; rewrite Z.add_0_r; change (Z.of_nat 1) with 1; lia).
    destruct (decide _) as [Hen|Hgo].
    + exists [item]. split_and!; try done.
      * apply (evicted_cons d n item); [done..|lia|by apply evicted_nil].
      * apply sublist_skip, sublist_nil_l.
      * intros k Hk. simpl in Hk. lia.
      * left. by apply Hone.
    + specialize (IH d1 r.2 (u64 (fc + size item)) (u64 (fi + 1)) Hok1 Hact Hnd Hex1 (Zmod_mod _ _) (Zmod_mod _ _)).
      destruct (evict_loop _ _ _ _ _ _ _ _) as [[] [d' fs']| | |]; try done.
      * destruct IH as (gone & Hok' & Hact' & Hev & Hsub & Hfew & Hor).
        exists (item :: gone). split_and!; try done; [apply (evicted_cons d n item); [done..|lia|done]| | |].
        -- apply sublist_skip. etransitivity; [exact Hsub|]. clear -Hsame. induction rest as [|m rest IH]; [done|]. cbn [omap list_omap].
           rewrite Hsame by by left. specialize (IH (λ k Hk, Hsame k ltac:(by right))). destruct (node_at m (cacheItems d)); [by apply sublist_skip|exact IH].
        -- by apply none_too_many_cons; [rewrite Hone|].
        -- destruct Hor as [Hen|Hall]; [left; by apply enough_cons|right].
           intros m i [->|Hm]%elem_of_cons Hi; [rewrite Hn in Hi; injection Hi as <-; split; [lia|left; by left]|].
           destruct (Hall m i Hm) as [Hr [Hg|Hst]]; [by rewrite Hsame|split; [done|left; by right]|split; [done|by right]].
      * destruct IH as (m & i & Hm & Hi & Hpin). exists m, i. split_and!; [by right|by rewrite <-Hsame|done].
  - mstep. destruct (decide _) as [[Hc Hi]|Hgo].
    + exists []. split_and!; try done; [by apply evicted_nil|apply sublist_nil_l|by intros k [? ?%Nat.nlt_0_r]|].
      left. unfold enough. simpl. rewrite !Z.add_0_r. lia.
    + specialize (IH d r.2 fc fi Hok Hact Hnd).
      assert (∀ m, m ∈ rest → is_Some (node_at m (cacheItems d))) as Hex' by (intros m Hm; apply Hex; by right). specialize (IH Hex' Hfc Hfi).
      destruct (evict_loop _ _ _ _ _ _ _ _) as [[] [d' fs']| | |]; try done.
      * destruct IH as (gone & Hok' & Hact' & Hev & Hsub & Hfew & Hor). exists gone. split_and!; try done; [by apply sublist_cons|].
        destruct Hor as [Hc|Hall]; [by left|right].
        intros m i [->|Hm]%elem_of_cons Hi; [rewrite Hn in Hi; injection Hi as <-; split; [lia|right; by exists fs]|]. by apply (Hall m i).
      * destruct IH as (m & i & Hm & Hi & Hpin). exists m, i. split_and!; [by right|done..].
Qed.

(** What an eviction with given targets does to the cache. *)
Definition eviction_result (d : DiskCache) (toCap toInode : Z) (o : outcome (DiskCache * F) ()) : Prop :=
  match o with
  | Ret _ (d', _) => ∃ gone, cache_ok d' ∧ active d' ∧ evicted gone d d' ∧
      gone `sublist_of` (cacheItems d).*2 ∧ none_too_many toCap toInode 0 0 gone ∧
      (enough toCap toInode 0 0 gone ∨
       ∀ key s r, view_items d !! key = Some (s, r) → r ≤ 0 ∧ (view_items d' !! key = None ∨ stays key))
  | Diverge => ∃ key s r, view_items d !! key = Some (s, r) ∧ r > 0
  | _ => False
  end.

Lemma evicted_gone gone d d' item : evicted gone d d' → item ∈ gone → view_items d' !! inode item = None.
Proof.
  intros (_ & -> & _). generalize (view_items d) as m. induction gone as [|i gone IH]; intros m Hin; [by apply not_elem_of_nil in Hin|]. simpl.
  apply elem_of_cons in Hin as [->|Hin]; [|by apply IH]. clear IH. assert (delete (inode i) m !! inode i = None) as Hm by apply lookup_delete_eq.
  revert Hm. generalize (delete (inode i) m) as m'. induction gone as [|j gone IH]; intros m' Hm; [done|]. simpl. apply IH.
  apply lookup_delete_None. by right.
Qed.

Lemma omap_nodes (l : list (nat * CacheItem)) : NoDup l.*1 → omap (λ n, node_at n l) l.*1 = l.*2.
Proof.
  intros Hnd. assert (∀ n i, (n, i) ∈ l → node_at n l = Some i) as Hat.
  { induction l as [|[m j] l IH]; intros n i Hin; [by apply not_elem_of_nil in Hin|]. apply NoDup_cons in Hnd as [Hm Hnd].
    cbn [node_at]. apply elem_of_cons in Hin as [[= -> ->]|Hin]; [by rewrite decide_True|]. rewrite decide_False; [by apply IH|].
    intros ->. apply Hm. apply list_elem_of_fmap. by exists (n, i). }
  assert (∀ l', (∀ n i, (n, i) ∈ l' → node_at n l = Some i) → omap (λ n, node_at n l) l'.*1 = l'.*2) as H; [|by apply H].
  induction l' as [|[n i] l' IH]; intros H; [done|]. rewrite !fmap_cons. cbn [omap list_omap fst snd]. rewrite (H n i) by by left.
  f_equal. apply IH. intros. apply H. by right.
Qed.

Lemma evict_outcome wanted freeBlocks d fs toCap toInode :
  cache_ok d → active d →
  to_free (totalCap d) wanted freeBlocks (usedCap d) = Some toCap →
  to_free (totalInodes d) wanted (inodeRatio d) (Z.of_nat (base.size (inodeToCacheIter d))) = Some toInode →
  eviction_result d toCap toInode (evict rootPath totalDirectory wanted freeBlocks (d, fs)).
Proof.
  intros Hok Hact Hc Hi. unfold evict. mstep. rewrite Hc, Hi.
  assert (∀ n, n ∈ (cacheItems d).*1 → is_Some (node_at n (cacheItems d))) as Hex by (intros n; apply node_at_dom).
  pose proof (evict_loop_spec _ d fs toCap toInode 0 0 Hok Hact (ok_nodes d Hok) Hex eq_refl eq_refl) as H. unfold eviction_result.
  destruct (evict_loop _ _ _ _ _ _ _ _) as [[] [d' fs']| | |]; try done.
  - destruct H as (gone & Hok' & Hact' & Hev & Hsub & Hfew & Hor). exists gone. rewrite omap_nodes in Hsub by apply (ok_nodes d Hok).
    split_and!; try done. destruct Hor as [?|Hall]; [by left|right].
    intros key s r. rewrite view_lookup. destruct (inodeToCacheIter d !! key) as [n|] eqn:Hk; [|done]. simpl.
    destruct (ok_map d Hok key n Hk) as (item & Hn & <-). rewrite Hn. intros [= <- <-].
    destruct (Hall n item) as [Hr [Hg|Hst]]; [apply node_at_dom; by eexists|done|split; [done|left; by eapply evicted_gone]|split; [done|by right]].
  - destruct H as (n & item & _ & Hn & Hp). exists (inode item), (size item), (refs item). split; [|done].
    by apply (cached_view d _ n item (ok_items d Hok n item Hn)).
Qed.


Lemma evicted_pinned gone d d' key s r :
  evicted gone d d' → view_items d !! key = Some (s, r) → r > 0 → view_items d' !! key = Some (s, r).
Proof.
  intros (Hall & -> & _) Hk Hr. assert (∀ i, i ∈ gone → inode i ≠ key) as Hne.
  { intros i Hi <-. destruct (proj1 (Forall_forall _ _) Hall i Hi) as [Hle Hv]. rewrite Hk in Hv. injection Hv as -> ->. lia. }
  clear Hall. revert Hne. generalize (view_items d) Hk. clear Hk. induction gone as [|i gone IH]; intros m Hk Hne; simpl; [done|].
  apply IH; [|intros j Hj; apply Hne; by right]. rewrite lookup_delete_ne; [done|]. apply Hne. by left.
Qed.

(** [d'] is a coherent cache that still has every pinned file of [d]. *)
Definition keeps_pinned (d d' : DiskCache) : Prop :=
  cache_ok d' ∧ active d' ∧ freeRatio d' = freeRatio d ∧ reservedCap d' = reservedCap d ∧
  ∀ key s r, view_items d !! key = Some (s, r) → r > 0 → view_items d' !! key = Some (s, r).

#[local] Instance keeps_pinned_trans : Transitive keeps_pinned.
Proof. intros d1 d2 d3 (?&?&?&?&Hp1) (?&?&?&?&Hp2). unfold keeps_pinned. split_and!; try done; try congruence. intros. apply Hp2; auto. Qed.

Lemma loop_keeps_ratio rest toCap toInode fc fi d fs d' fs' :
  evict_loop rootPath totalDirectory rest toCap toInode fc fi (d, fs) = Ret () (d', fs') →
  freeRatio d' = freeRatio d ∧ hasFreeSpace d' = hasFreeSpace d.
Proof.
  revert d fs fc fi. induction rest as [|n rest IH]; intros d fs fc fi; cbn [evict_loop]; [by intros [= -> ->]|].
  unfold deref. mstep. destruct (node_at n (cacheItems d)) as [item|]; [|done]. mstep.
  destruct (decide (refs item > 0)); [done|]. rewrite bind_remove. set (r := posix_remove _ fs).
  destruct r.1; unfold forget; mstep; (destruct (decide _); [by intros [= <- <-]|]); intros H%IH; exact H.
Qed.

(** What the statistics of the file system change. *)
Lemma GetCurFreeRatio_runs d fs : cache_ok d → active d →
  ∃ r d', GetCurFreeRatio (d, fs) = Ret r (d', fs) ∧ keeps_pinned d d' ∧ hasFreeSpace d' = hasFreeSpace d.
Proof.
  intros Hok Hact. unfold GetCurFreeRatio. mstep. destruct (posix_statfs fs) as [info|]; mstep.
  - eexists _, _. split; [reflexivity|]. split; [|done]. split_and!; try done. destruct Hok. by split.
  - eexists _, _. split; [reflexivity|]. done.
Qed.

(** A conversion of [Evict] is out of range. *)
Definition out_of_range (sz : Z) (d : DiskCache) : Prop :=
  ∃ d1, keeps_pinned d d1 ∧
    (to_free (totalCap d1) (freeRatio d1) (freeBlockRatio sz d1) (usedCap d1) = None ∨
     to_free (totalInodes d1) (freeRatio d1) (inodeRatio d1) (Z.of_nat (base.size (inodeToCacheIter d1))) = None).

Definition some_pinned (d : DiskCache) : Prop := ∃ key s r, view_items d !! key = Some (s, r) ∧ r > 0.

Lemma Evict_spec sz d fs : cache_ok d → active d →
  match Evict rootPath totalDirectory sz (d, fs) with
  | Ret _ (d', _) => keeps_pinned d d' ∧ hasFreeSpace d' = hasFreeSpace d
  | Elog _ _ => False
  | Diverge => ∃ d1, keeps_pinned d d1 ∧ some_pinned d1
  | Undefined => out_of_range sz d
  end.
Proof.
  intros Hok Hact. unfold Evict. destruct (GetCurFreeRatio_runs d fs Hok Hact) as (r & d1 & Hg & Hk & Hsp). rewrite (bind_ret _ _ _ _ _ Hg).
  pose proof Hk as (Hok1 & Hact1 & Hrest). unfold CleanupForEvict. mstep.
  destruct (to_free (totalCap d1) (freeRatio d1) (freeBlockRatio sz d1) (usedCap d1)) as [c|] eqn:Hc.
  2: { unfold evict. mstep. rewrite Hc. exists d1. split; [done|by left]. }
  destruct (to_free (totalInodes d1) (freeRatio d1) (inodeRatio d1) (Z.of_nat (base.size (inodeToCacheIter d1)))) as [i|] eqn:Hi.
  2: { unfold evict. mstep. rewrite Hc, Hi. exists d1. split; [done|by right]. }
  pose proof (evict_outcome (freeRatio d1) (freeBlockRatio sz d1) d1 fs c i Hok1 Hact1 Hc Hi) as H.
  assert (∀ d' fs', evict rootPath totalDirectory (freeRatio d1) (freeBlockRatio sz d1) (d1, fs) = Ret () (d', fs') →
    freeRatio d' = freeRatio d1 ∧ hasFreeSpace d' = hasFreeSpace d1) as Hfr.
  { intros d' fs'. unfold evict. mstep. rewrite Hc, Hi. apply loop_keeps_ratio. }
  unfold eviction_result in H. destruct (evict _ _ _ _ _) as [[] [d' fs']| | |]; try done.
  - destruct H as (gone & Hok' & Hact' & Hev & _). destruct (Hfr d' fs' eq_refl) as [Hf Hh]. split; [|congruence].
    transitivity d1; [done|]. split_and!; try done; [apply Hev|]. intros key s r0. by apply (evicted_pinned gone).
  - exists d1. split; [done|]. exact H.
Qed.

Definition reservation_result (sz : Z) (d : DiskCache) (o : outcome (DiskCache * F) bool) : Prop :=
  match o with
  | Ret true (d', _) => keeps_pinned (d <| reservedCap := u64 (reservedCap d + sz) |>) d' ∧ reservedCap d' < freeCap d'
  | Ret false (d', _) => keeps_pinned d d' ∧ hasFreeSpace d' = false ∧ freeCap d' ≤ u64 (reservedCap d' + sz)
  | Elog _ _ => False
  | Diverge => freeCap d ≤ u64 (reservedCap d + sz) ∧ ∃ d1, keeps_pinned d d1 ∧ some_pinned d1
  | Undefined => freeCap d ≤ u64 (reservedCap d + sz) ∧ out_of_range sz d
  end.

Lemma prealloc_outcome sz d fs :
  cache_ok d → active d →
  reservation_result sz d (PreAllocSpace rootPath totalDirectory sz (d, fs)).
Proof.
  intros Hok Hact. assert (∀ d, cache_ok d → ∀ v, cache_ok (d <| reservedCap := v |>)) as Hres by (intros ? [] ?; by split).
  unfold PreAllocSpace. mstep. destruct Hact as [Hstop Hobs]. rewrite Hstop. mstep.
  destruct (decide (u64 (reservedCap d + sz) < freeCap d)) as [Hlt|Hge].
  { mstep. split; [|done]. split_and!; try done. by apply Hres. }
  mstep. set (d0 := d <| hasFreeSpace := false |>).
  assert (keeps_pinned d d0 ∧ hasFreeSpace d0 = false ∧ freeCap d0 ≤ u64 (reservedCap d0 + sz)) as (H0 & Hh & Hf).
  { split_and!; try done; [by destruct Hok|simpl; lia]. }
  clearbody d0. assert (freeCap d ≤ u64 (reservedCap d + sz)) as Hshort by lia. clear Hge. revert d0 fs H0 Hh Hf. generalize 3%nat as k.
  induction k as [|k IH]; intros d0 fs0 H0 Hh Hf; cbn [prealloc_retry]; [done|].
  pose proof (Evict_spec sz d0 fs0 (proj1 H0) (proj1 (proj2 H0))) as He. unfold mbind at 1, M_bind.
  destruct (Evict _ _ _ _) as [[] [d1 fs1]| | |]; try done.
  - destruct He as [Hk1 Hh1]. rewrite Hh in Hh1. assert (keeps_pinned d d1) as Hd1 by (by transitivity d0). mstep.
    destruct (decide (u64 (reservedCap d1 + sz) >= freeCap d1)) as [Hge|Hlt].
    + apply IH; try done. lia.
    + mstep. destruct Hd1 as (Hok1 & Hact1 & Hfr1 & Hr1 & Hp1). simpl. split; [|lia]. split_and!; try done.
      * destruct Hok1. by split.
      * simpl. congruence.
  - destruct He as (d1 & Hd1 & Hp). split; [done|]. exists d1. split; [by transitivity d0|done].
  - destruct He as (d1 & Hd1 & Hn). split; [done|]. exists d1. split; [by transitivity d0|done].
Qed.

Lemma FreePreAllocSpace_runs sz d (fs : F) : active d →
  FreePreAllocSpace sz (d, fs) = Ret () (d <| reservedCap := u64 (reservedCap d - sz) |>, fs).
Proof. intros [Hstop _]. unfold FreePreAllocSpace. mstep. by rewrite Hstop. Qed.

(** Reserving space: when PreAllocSpace says yes, the reservation has been
    added and all reservations fit into the free space, and giving it back
    restores the amount that was reserved before; when it says no after three
    evictions, nothing has been reserved and the cache is marked full.  In both
    cases no pinned file has left the cache.  Only when space is short can it
    fail to return: when an eviction does not end because of a pinned file, or
    converts a ratio that is out of range. *)
Theorem PreAllocSpace_reserves sz d fs :
  cache_ok d → active d → u64 (reservedCap d) = reservedCap d →
  reservation_result sz d (PreAllocSpace rootPath totalDirectory sz (d, fs)) ∧
  ∀ d1 fs1, PreAllocSpace rootPath totalDirectory sz (d, fs) = Ret true (d1, fs1) →
    returns (FreePreAllocSpace sz (d1, fs1)) (λ _ '(d2, _), reservedCap d2 = reservedCap d).
Proof.
  intros Hok Hact Hr. pose proof (prealloc_outcome sz d fs Hok Hact) as H. split; [exact H|]. intros d1 fs1 He. rewrite He in H.
  destruct H as ((_ & Hact1 & _ & Hres & _) & _). rewrite FreePreAllocSpace_runs by done. simpl. rewrite Hres. simpl.
  unfold u64 in *. rewrite Zminus_mod_idemp_l. rewrite <-Hr at 2. f_equal. lia.
Qed.
End refinement.

#[global] Hint Rewrite @bind_cache @bind_set_cache @bind_now @bind_errno @bind_remove : cuckoo.

(** ** Names of cache files, and reading them back *)
Section names.

Definition cache_name (inodeId : Z) : string := (pretty (Z.to_N inodeId) +:+ "-large")%string.

Lemma atoll_name i : 0 ≤ i < 2 ^ 63 → u64 (atoll (cache_name i)) = i.
Proof. intros Hi. unfold cache_name. rewrite atoll_pretty by done. apply u64_small. lia. Qed.

(** Distributing a list over the values of a function. *)
Lemma mbind_filter_perm {A} (f : A → Z) (l : list A) (order : list Z) : NoDup order →
  mbind (λ k, filter (λ x, f x = k) l) order ≡ₚ filter (λ x, f x ∈ order) l.
Proof.
  induction order as [|k order IH]; intros Hnd.
  { cbn. by rewrite filter_none by (intros; apply not_elem_of_nil). }
  apply NoDup_cons in Hnd as [Hk Hnd]. rewrite bind_cons, (IH Hnd). clear IH. induction l as [|x l IH]; [done|].
  rewrite !filter_cons. destruct (decide (f x = k)) as [->|Hne].
  - rewrite decide_False by done. rewrite decide_True by (by left). simpl. by rewrite IH.
  - destruct (decide (f x ∈ order)) as [Hin|Hin].
    + rewrite decide_True by (by right). rewrite <-Permutation_middle. by rewrite IH.
    + rewrite decide_False; [exact IH|]. by rewrite not_elem_of_cons.
Qed.
End names.

Section restart.
Context {F : Type} `{!Posix F}.
Context (rootPath : string) (totalDirectory : Z) (Hdirs : 0 < totalDirectory).
Local Abbreviation DC := (M (DiskCache * F)).

(** What the cache knows of a list of files found on the disk. *)
Definition found (l : list CacheItem) : gmap Z (Z * Z) := list_to_map ((λ c, (inode c, (size c, 0))) <$> l).

Lemma insert_all l d (fs : F) :
  cache_ok d → active d → NoDup (inode <$> l) → (∀ c, c ∈ l → view_items d !! inode c = None ∧ 0 ≤ size c < 2 ^ 64) →
  returns (mfor l (λ c, InsertAndUpdate (inode c) (size c) false) (d, fs))
    (λ _ '(d', _), cache_ok d' ∧ active d' ∧ view_items d' = found l ∪ view_items d).
Proof.
  revert d fs. induction l as [|c l IH]; intros d fs Hok Hact Hnd Hnew; cbn [mfor].
  { simpl. split; [done|]. split; [done|]. unfold found. simpl. by rewrite (left_id ∅ (∪)). }
  rewrite fmap_cons in Hnd. apply NoDup_cons in Hnd as [Hc Hnd]. destruct (Hnew c) as [Hnone Hsz]; [by left|].
  pose proof (Insert_does rootPath totalDirectory d fs (inode c) (size c) false true 0 Hok Hact Hsz) as Hd.
  unfold does, run, promise in Hd. simpl a_items in Hd. rewrite Hnone in Hd. unfold mbind, M_bind in Hd |- *.
  destruct (InsertAndUpdate _ _ _ _) as [[] [d1 fs1]| | |]; simpl in Hd; try done. destruct Hd as (Hok1 & Hact1 & Ha).
  assert (view_items d1 = <[inode c := (size c, 0)]> (view_items d)) as Hv.
  { transitivity (a_items (abs d1)); [done|]. injection Ha as Hv _ _ _. exact Hv. }
  eapply returns_mono; [apply (IH d1 fs1 Hok1 Hact1 Hnd)|].
  - intros c' Hc'. destruct (Hnew c') as [Hn Hs]; [by right|]. split; [|done]. rewrite Hv, lookup_insert_ne; [done|].
    intros He. apply Hc. rewrite He. by apply list_elem_of_fmap_2.
  - intros [] [d2 fs2] (Hok2 & Hact2 & Hv2). split; [done|]. split; [done|]. rewrite Hv2, Hv. unfold found.
    rewrite fmap_cons. cbn [list_to_map foldr]. cbn [fst snd]. rewrite <-insert_union_r; [by rewrite insert_union_l|].
    apply not_elem_of_list_to_map_1. intros Hin. apply Hc. rewrite <-list_fmap_compose in Hin. exact Hin.
Qed.

(** A cache that has just been constructed. *)
Definition fresh (d : DiskCache) : Prop :=
  cacheItems d = [] ∧ inodeToCacheIter d = ∅ ∧ usedCap d = 0 ∧ active d.

Lemma fresh_ok d : fresh d → cache_ok d ∧ view_items d = ∅.
Proof.
  intros (Hi & Hm & Hu & _). split.
  - split; rewrite ?Hi, ?Hm; try done. constructor.
  - unfold view_items. rewrite Hm. done.
Qed.

(** Restart: when the directories hold the files that [GetFilePath] names,
    of the inodes and sizes [files] (and nothing else but . and ..), reading them
    in any order leaves a coherent cache that knows exactly these files with
    their sizes, none of them pinned, whatever their access times.  In
    particular the number in front of a name reads back as the inode id. *)
Theorem ScanCache_recovers (files : gmap Z Z) (entries : Z → list (string * Z * Z)) order d (fs : F) :
  fresh d → order ≡ₚ seqZ 0 totalDirectory →
  (∀ i sz, files !! i = Some sz → 0 ≤ i < 2 ^ 63 ∧ 0 ≤ sz < 2 ^ 63) →
  (∀ k, 0 ≤ k < totalDirectory → posix_listdir (rootPath +:+ "/" +:+ pretty (Z.to_N k))%string fs = Some (entries k, true)) →
  (∀ k, 0 ≤ k < totalDirectory → ∃ time : Z → Z,
     filter (λ '(name, _, _), name ≠ "."%string ∧ name ≠ ".."%string) (entries k) ≡ₚ
     (λ '(i, sz), (cache_name i, time i, sz)) <$> filter (λ '(i, _), i mod totalDirectory = k) (map_to_list files)) →
  (∀ i sz, files !! i = Some sz →
     GetFilePath rootPath totalDirectory i = (rootPath +:+ "/" +:+ pretty (Z.to_N (i mod totalDirectory)) +:+ "/" +:+ cache_name i)%string) ∧
  returns (ScanCache rootPath order (d, fs))
    (λ r '(d', _), r = 0 ∧ cache_ok d' ∧ view_items d' = (λ sz, (sz, 0)) <$> files).
Proof.
  intros Hfresh Hord Hrange Hlist Hent. split; [done|]. destruct (fresh_ok d Hfresh) as [Hok Hv0]. destruct Hfresh as (_ & _ & _ & Hact).
  unfold ScanCache. mstep. set (l := mbind _ order). set (l' := merge_sort older l).
  assert ((λ c, (inode c, size c)) <$> l' ≡ₚ map_to_list files) as Hperm.
  { unfold l'. rewrite merge_sort_Permutation. unfold l.
    transitivity (mbind (λ k, filter (λ p : Z * Z, p.1 mod totalDirectory = k) (map_to_list files)) order).
    - assert (∀ k, k ∈ order → 0 ≤ k < totalDirectory) as Hin by (intros k; rewrite Hord, elem_of_seqZ; lia).
      clear Hord. induction order as [|k order IH]; [done|]. rewrite !bind_cons, fmap_app. apply Permutation_app; [|apply IH; intros; apply Hin; by right].
      assert (0 ≤ k < totalDirectory) as Hk by (apply Hin; by left). unfold Walk. rewrite (Hlist k Hk). destruct (Hent k Hk) as [time He].
      rewrite <-list_fmap_compose, He, <-list_fmap_compose.
      replace (filter (λ '(i, _), i mod totalDirectory = k) (map_to_list files)) with (filter (λ p : Z * Z, p.1 mod totalDirectory = k) (map_to_list files)).
      2: { apply list_filter_iff. by intros [i sz]. }
      rewrite <-(list_fmap_id (filter (λ p : Z * Z, p.1 mod totalDirectory = k) (map_to_list files))) at 2.
      erewrite list_fmap_ext; [reflexivity|]. intros j [i sz] Hj. apply list_elem_of_lookup_2 in Hj. apply list_elem_of_filter in Hj as [_ Hj].
      apply elem_of_map_to_list in Hj. destruct (Hrange i sz Hj) as [Hi Hsz]. simpl. rewrite atoll_name by done. by rewrite u64_small by lia.
    - rewrite mbind_filter_perm; [|rewrite Hord; apply NoDup_seqZ]. rewrite filter_all; [done|]. intros [i sz] _. rewrite Hord, elem_of_seqZ.
      pose proof (Z.mod_pos_bound i totalDirectory Hdirs). simpl. lia. }
  assert ((inode <$> l') = ((λ c, (inode c, size c)) <$> l').*1) as Hfst by (by rewrite <-list_fmap_compose).
  assert (NoDup (inode <$> l')) as Hnd by (rewrite Hfst, Hperm; apply NoDup_fst_map_to_list).
  assert (∀ c, c ∈ l' → files !! inode c = Some (size c)) as Hfile.
  { intros c Hc. apply elem_of_map_to_list. rewrite <-Hperm. apply list_elem_of_fmap. by exists c. }
  assert (∀ c, c ∈ l' → view_items d !! inode c = None ∧ 0 ≤ size c < 2 ^ 64) as Hnew.
  { intros c Hc. rewrite Hv0. pose proof (Hrange _ _ (Hfile c Hc)). split; [done|lia]. }
  pose proof (insert_all l' d fs Hok Hact Hnd Hnew) as Hins. unfold mbind, M_bind.
  destruct (mfor l' _ _) as [[] [d' fs']| | |]; simpl in Hins |- *; try done. destruct Hins as (Hok' & _ & Hv).
  split_and!; try done. rewrite Hv, Hv0, (right_id ∅ (∪)). apply map_eq. intros key. rewrite lookup_fmap. unfold found.
  apply option_eq. intros v. rewrite <-elem_of_list_to_map; cycle 1.
  { rewrite <-list_fmap_compose. exact Hnd. }
  rewrite list_elem_of_fmap, fmap_Some. split.
  - intros (c & [= -> ->] & Hc). exists (size c). split; [by apply Hfile|done].
  - intros (sz & Hs & ->). apply elem_of_map_to_list in Hs. rewrite <-Hperm in Hs. apply list_elem_of_fmap in Hs as (c & [= -> ->] & Hc). by exists c.
Qed.
End restart.

(** ** Runs *)
Module DiskCacheWitness.
Local Abbreviation run_op := (run (F := RefFs) "/c"%string 2).

(** A disk of 1000 bytes with the files of inodes 7 (300 bytes) and 8 (500). *)
Definition names0 : gmap string Z := {["/c/1/7-large"%string := 1; "/c/0/8-large"%string := 2]}.
Definition files0 : gmap Z (list Z) := {[1 := replicate 300 0; 2 := replicate 500 0]}.
Definition fs0 : RefFs := mkRefFs names0 files0 ∅ 3 1700000000 0 1000.

Definition zero : f32 := S754_zero false.
Definition tenth (n : Z) : f32 := f32_of_f64 (ratio n 10).

Definition d0 : DiskCache :=
  mkCache 0 0 zero 0 0 zero (tenth 1) (tenth 2) false 0 [] 0 ∅ false true 2 0.

Lemma d0_fresh : fresh d0.
Proof. done. Qed.

Lemma ScanCache_recovers_witness :
  returns (ScanCache "/c" [0; 1] (d0, fs0)) (λ r '(d', _), r = 0 ∧ cache_ok d' ∧ view_items d' = (λ sz, (sz, 0)) <$> {[7 := 300; 8 := 500]}).
Proof.
  refine (proj2 (ScanCache_recovers (F := RefFs) "/c" 2 eq_refl {[7 := 300; 8 := 500]}
    (λ k, if decide (k = 0) then [("8-large"%string, 0, 500)] else [("7-large"%string, 0, 300)]) [0; 1] d0 fs0 d0_fresh _ _ _ _)).
  - reflexivity.
  - intros i sz H. apply lookup_insert_Some in H as [[<- <-]|[_ H]]; [lia|]. apply lookup_singleton_Some in H as [<- <-]. lia.
  - intros k Hk. assert (k = 0 ∨ k = 1) as [->| ->] by lia; vm_compute; reflexivity.
  - intros k Hk. exists (λ _, 0). assert (k = 0 ∨ k = 1) as [->| ->] by lia; vm_compute; reflexivity.
Defined.

(** The cache after the start: both files known. *)
Definition started : DiskCache * RefFs :=
  match Start "/c" 2 (tenth 1) (tenth 2) [0; 1] false (d0, fs0) with Ret _ s => s | _ => (d0, fs0) end.

Example start_works :
  match Start "/c" 2 (tenth 1) (tenth 2) [0; 1] false (d0, fs0) with
  | Ret r (d, _) => r = 0 ∧ usedCap d = 800 ∧ freeCap d = 200 ∧ view_items d = {[7 := (300, 0); 8 := (500, 0)]}
  | _ => False
  end.
Proof. vm_compute. split_and!; reflexivity. Qed.

(** The same cache, by insertion into an empty one. *)
Definition d1 : DiskCache :=
  mkCache 1000 1000 (tenth 2) 1000 998 (f32_of_f64 (ratio 998 1000)) (tenth 1) (tenth 2) false 0 [] 0 ∅ false true 2 0.
Definition two_files : list CacheItem := [mkItem 7 300 0 0; mkItem 8 500 0 0].
Definition both : DiskCache * RefFs :=
  match mfor two_files (λ c, InsertAndUpdate (inode c) (size c) false) (d1, fs0) with Ret _ s => s | _ => (d1, fs0) end.

Lemma both_ok : cache_ok both.1 ∧ active both.1.
Proof.
  destruct (fresh_ok d1 ltac:(done)) as [Hok Hv].
  assert (NoDup (inode <$> two_files)) as Hnd by (apply (bool_decide_unpack _); vm_compute; exact I).
  assert (∀ c, c ∈ two_files → view_items d1 !! inode c = None ∧ 0 ≤ size c < 2 ^ 64) as Hnew.
  { intros c Hc. rewrite Hv. split; [done|]. unfold two_files in Hc. rewrite !elem_of_cons in Hc.
    destruct Hc as [->|[->|Hc]]; simpl; [lia..|]. by apply not_elem_of_nil in Hc. }
  pose proof (insert_all "/c" 2 two_files d1 fs0 Hok ltac:(done) Hnd Hnew) as H. unfold both.
  destruct (mfor two_files _ (d1, fs0)) as [[] [d fs]| | |]; simpl in H; try done. by destruct H as (? & ? & _).
Qed.

Lemma disk_cache_refines_witness :
  does (run_op (OpFind 7 true)) both.1 both.2 (1, mkAbs {[7 := (300, 1); 8 := (500, 0)]} 800 200 0).
Proof.
  pose proof (disk_cache_refines (F := RefFs) "/c"%string 2 (OpFind 7 true)) as H. specialize (H both.1 both.2). cbv zeta in H.
  specialize (H (proj1 both_ok) (proj2 both_ok) I).
  assert (∀ rm err, promise rm err (OpFind 7 true) (abs both.1) = (1, mkAbs {[7 := (300, 1); 8 := (500, 0)]} 800 200 0)) as Hp
    by (intros; vm_compute; reflexivity).
  by rewrite Hp in H.
Defined.


Example one_file_goes :
  match CleanupForEvict "/c" 2 150 both with Ret _ (d, _) => view_items d = {[8 := (500, 0)]} ∧ freeCap d = 500 | _ => False end.
Proof. vm_compute. split; reflexivity. Qed.

Lemma PreAllocSpace_reserves_witness : reservation_result 250 both.1 (PreAllocSpace "/c" 2 250 (both.1, both.2)).
Proof. exact (proj1 (PreAllocSpace_reserves "/c" 2 250 both.1 both.2 (proj1 both_ok) (proj2 both_ok) eq_refl)). Defined.

Example prealloc_evicts :
  match PreAllocSpace "/c" 2 250 both with Ret b (d, _) => b = true ∧ reservedCap d = 250 ∧ freeCap d = 500 | _ => False end.
Proof. vm_compute. split_and!; reflexivity. Qed.

(** When the oldest file is pinned, the eviction spins under the mutex, although
    the other file could go. *)
Example eviction_spins_on_a_pinned_file :
  (run_op (OpFind 7 true) ;; CleanupForEvict "/c" 2 150) both = Diverge.
Proof. vm_compute. reflexivity. Qed.

(** An eviction that has nothing to free removes a file. *)
Example eviction_without_need :
  match CleanupForEvict "/c" 2 0 both with Ret _ (d, _) => view_items d = {[8 := (500, 0)]} | _ => False end.
Proof. vm_compute. reflexivity. Qed.

(** The file of an inode that is cached already is not pinned by InsertAndUpdate. *)
Example insert_does_not_pin :
  match run_op (OpInsertAndUpdate 7 400 true) both with Ret _ (d, _) => view_items d !! 7 = Some (400, 0) | _ => False end.
Proof. vm_compute. reflexivity. Qed.
End DiskCacheWitness.
