(* ===== verification/IOClient.v ===== *)
(** * Calls to other data nodes (cuckoo_store/src/connection/cuckoo_io_client.cpp)

    The stub that protobuf generates and the transport of brpc are the class
    [Stub]: a call fails with a brpc error code or brings a reply, and the state
    [R] of the other nodes changes in a way the client cannot see.  Every method
    of CuckooIOClient turns the outcome of its call into one number. *)
From S2P Require Import Prelude Posix.

Definition EPERM : Z := 1.
Definition EFAULT : Z := 14.
Definition EOPNOTSUPP : Z := 95.
Definition ETIMEDOUT : Z := 110.

(** cntl.Failed() with its error code, or a reply. *)
Inductive rpc (A : Type) := Failed (code : Z) | Reply (a : A).
Arguments Failed {A} code.
Arguments Reply {A} a.

Record StatFSBuf := mkStatFSBuf { sf_blocks : Z; sf_bfree : Z; sf_bavail : Z; sf_files : Z; sf_ffree : Z }.

(** The calls of the service, with what the reply carries: an error code, and a
    descriptor, an attachment, the number of bytes written or statistics. *)
Class Stub (R : Type) := {
  brpc_ENOSERVICE : Z;
  brpc_ENOMETHOD : Z;
  brpc_EREQUEST : Z;
  brpc_ERPCAUTH : Z;
  brpc_ERPCTIMEDOUT : Z;
  brpc_EFAILEDSOCKET : Z;
  stub_OpenFile : Z → Z → Z → string → bool → R → rpc (Z * Z) * R;
  stub_CloseFile : Z → bool → bool → list Z → Z → R → rpc Z * R;
  stub_ReadFile : Z → Z → Z → string → R → rpc (Z * list Z) * R;
  stub_ReadSmallFile : Z → Z → string → Z → bool → R → rpc (Z * list Z) * R;
  stub_WriteFile : Z → list Z → Z → R → rpc (Z * Z) * R;
  stub_DeleteFile : Z → Z → string → R → rpc Z * R;
  stub_StatFS : string → R → rpc (Z * StatFSBuf) * R;
  stub_TruncateOpenInstance : Z → Z → R → rpc Z * R;
  stub_TruncateFile : Z → Z → R → rpc Z * R;
  stub_CheckConnection : R → rpc Z * R }.

Section client.
Context {R : Type} `{!Stub R}.
Local Abbreviation IOC := (M R).

Definition call {A} (op : R → A * R) : IOC A := λ r, let '(a, r') := op r in Ret a r'.

Definition BrpcErrorCodeToFuseErrno (brpcErrorCode : Z) : Z :=
  if decide (brpcErrorCode = 0) then 0
  else if decide (brpcErrorCode = brpc_ENOSERVICE ∨ brpcErrorCode = brpc_ENOMETHOD) then EOPNOTSUPP
  else if decide (brpcErrorCode = brpc_EREQUEST) then EINVAL
  else if decide (brpcErrorCode = brpc_ERPCAUTH) then EPERM
  else if decide (brpcErrorCode = brpc_ERPCTIMEDOUT) then ETIMEDOUT
  else if decide (brpcErrorCode = brpc_EFAILEDSOCKET) then EIO
  else EFAULT.

(** The return value, and the new descriptor when the file was opened. *)
Definition client_OpenFile (inodeId oflags originalSize : Z) (path : string) (nodeFail : bool) : IOC (Z * option Z) :=
  response ← call (stub_OpenFile inodeId oflags originalSize path nodeFail);
  mret match response with
  | Failed code => (BrpcErrorCodeToFuseErrno code, None)
  | Reply (error_code, physical_fd) => if decide (error_code ≠ 0) then (error_code, None) else (0, Some physical_fd)
  end.

Definition only_error_code (response : rpc Z) : Z :=
  match response with
  | Failed code => - BrpcErrorCodeToFuseErrno code
  | Reply error_code => error_code
  end.

Definition client_CloseFile (physicalFd : Z) (isFlush isSync : bool) (buf : list Z) (offset : Z) : IOC Z :=
  response ← call (stub_CloseFile physicalFd isFlush isSync buf offset);
  mret (only_error_code response).

(** The return value, and the bytes put into the buffer. *)
Definition client_ReadFile (physicalFd bufferSize offset : Z) (path : string) : IOC (Z * list Z) :=
  response ← call (stub_ReadFile physicalFd offset bufferSize path);
  mret match response with
  | Failed code => (- BrpcErrorCodeToFuseErrno code, [])
  | Reply (error_code, attachment) =>
    if decide (error_code ≠ 0) then (error_code, [])
    else
      let retLen := i32 (Z.of_nat (length attachment)) in
      if decide (retLen > bufferSize) then (- EIO, []) else (retLen, attachment)
  end.

Definition client_ReadSmallFile (inodeId size : Z) (path : string) (oflags : Z) (nodeFail : bool) : IOC (Z * list Z) :=
  response ← call (stub_ReadSmallFile inodeId size path oflags nodeFail);
  mret match response with
  | Failed code => (BrpcErrorCodeToFuseErrno code, [])
  | Reply (error_code, attachment) =>
    if decide (error_code ≠ 0) then (error_code, [])
    else if decide (i32 (Z.of_nat (length attachment)) ≠ size) then (- EIO, []) else (0, attachment)
  end.

Definition client_WriteFile (physicalFd : Z) (writeBuffer : list Z) (offset : Z) : IOC Z :=
  response ← call (stub_WriteFile physicalFd writeBuffer offset);
  mret match response with
  | Failed code => - BrpcErrorCodeToFuseErrno code
  | Reply (error_code, write_size) =>
    if decide (error_code ≠ 0) then error_code
    else if decide (u64 (i32 write_size) ≠ Z.of_nat (length writeBuffer)) then - EIO else 0
  end.

Definition client_DeleteFile (inodeId nodeId : Z) (path : string) : IOC Z :=
  response ← call (stub_DeleteFile inodeId nodeId path);
  mret (only_error_code response).

Definition client_StatFS (path : string) : IOC (Z * option StatFSBuf) :=
  response ← call (stub_StatFS path);
  mret match response with
  | Failed code => (- BrpcErrorCodeToFuseErrno code, None)
  | Reply (error_code, fsBuf) => if decide (error_code ≠ 0) then (error_code, None) else (0, Some fsBuf)
  end.

Definition client_TruncateOpenInstance (physicalFd size : Z) : IOC Z :=
  response ← call (stub_TruncateOpenInstance physicalFd size);
  mret (only_error_code response).

Definition client_TruncateFile (physicalFd size : Z) : IOC Z :=
  response ← call (stub_TruncateFile physicalFd size);
  mret (only_error_code response).

Definition CheckConnection : IOC Z :=
  response ← call stub_CheckConnection;
  mret (only_error_code response).

Lemma fuse_errno_pos code : code ≠ 0 → 0 < BrpcErrorCodeToFuseErrno code.
Proof. intros Hc. unfold BrpcErrorCodeToFuseErrno. rewrite decide_False by done. repeat case_decide; done. Qed.

Lemma call_eq {A} (op : R → A * R) r : call op r = Ret (op r).1 (op r).2.
Proof. unfold call. by destruct (op r). Qed.
End client.
