(* ===== verification/WriteStream.v ===== *)
(** * Buffering writes (common/src/write_stream/stream_assembler.cpp and .h)

    A [WriteStream] writes to a local cache file through its descriptor, or
    collects consecutive writes to a file of another node and sends them when
    they are not consecutive, too many, or at the end.  A buffer is the list of
    its bytes; a null pointer is [None].  Merging of slices (MergedSlice, Merge)
    is not used by the program and is left out. *)
From S2P Require Import Prelude Posix DiskCache IOClient.

Definition CUCKOO_STORE_STREAM_MAX_SIZE : Z := 256 * 1024.

Record CuckooWriteBuffer := mkWriteBuffer { wb_ptr : option (list Z); wb_size : Z }.

(** Whether mem is allocated, and its first [size] bytes. *)
Record FixMemory := mkFixMemory { fm_mem : bool; fm_bytes : list Z }.

Record SerialData := mkSerialData { sd_buf : FixMemory; sd_size : Z; sd_offset : Z }.

(** [ws_client]: whether there is a connection to the node of the file. *)
Record WriteStream := mkWriteStream {
  ws_physicalFd : Z;
  ws_client : bool;
  ws_data : SerialData;
  ws_inodeId : Z;
  ws_direct : bool }.
#[global] Instance eta_WriteStream : Eta WriteStream := λ w,
  mkWriteStream (ws_physicalFd w) (ws_client w) (ws_data w) (ws_inodeId w) (ws_direct w).

Definition new_SerialData : SerialData := mkSerialData (mkFixMemory false []) 0 (-1).
Definition new_WriteStream : WriteStream := mkWriteStream UINT64_MAX false new_SerialData 0 false.

(** What is outside of the stream: the cache on the local disk, the local file
    system and the other nodes. *)
Record IO (F R : Type) := mkIO { io_cache : DiskCache; io_fs : F; io_remote : R }.
Arguments mkIO {F R} io_cache io_fs io_remote.
Arguments io_cache {F R} i.
Arguments io_fs {F R} i.
Arguments io_remote {F R} i.

Section write_stream.
Context {F R : Type} `{!Posix F} `{!Stub R}.
Context (rootPath : string) (totalDirectory : Z).
Local Abbreviation IOM := (M (IO F R)).

Definition on_cache {A} (m : M (DiskCache * F) A) : IOM A :=
  mzoom (λ s, (io_cache s, io_fs s)) (λ p s, mkIO p.1 p.2 (io_remote s)) m.
Definition on_remote {A} (m : M R A) : IOM A :=
  mzoom io_remote (λ r s, mkIO (io_cache s) (io_fs s) r) m.
Definition on_fs {A} (op : F → A * F) : IOM A :=
  mzoom io_fs (λ f s, mkIO (io_cache s) f (io_remote s)) (λ f, let '(a, f') := op f in Ret a f').
Definition get_errno : IOM Z := s ← mget; mret (posix_errno (io_fs s)).

(** FixMemory::Append: memory from the pool at the first use, a check of the
    capacity, and memcpy_s, which refuses a null pointer. *)
Definition FixMemory_Append (buf : option (list Z)) (appendSize : Z) (m : FixMemory) : IOM (bool * FixMemory) :=
  got ← (if fm_mem m then mret true else on_fs posix_alloc);
  if (got : bool) then
    if decide (Z.of_nat (length (fm_bytes m)) + appendSize > CUCKOO_STORE_STREAM_MAX_SIZE) then mret (false, mkFixMemory true (fm_bytes m))
    else
      match buf with
      | None => mret (false, mkFixMemory true (fm_bytes m))
      | Some bytes => mret (true, mkFixMemory true (fm_bytes m ++ bytes))
      end
  else mret (false, m).

Definition SerialData_Append (appendBuf : option (list Z)) (appendSize appendOffset : Z) (d : SerialData) : IOM (bool * SerialData) :=
  '(ok, b) ← FixMemory_Append appendBuf appendSize (sd_buf d);
  if (ok : bool) then
    mret (true, mkSerialData b (sd_size d + appendSize) (if decide (sd_offset d = -1) then appendOffset else sd_offset d))
  else mret (false, mkSerialData b (sd_size d) (sd_offset d)).

Definition SerialData_Clear (d : SerialData) : SerialData := mkSerialData (mkFixMemory (fm_mem (sd_buf d)) []) 0 (-1).
Definition SerialData_Empty (d : SerialData) : bool := bool_decide (sd_size d = 0).
Definition SerialData_End (d : SerialData) : Z := u64 (sd_size d + (if decide (sd_offset d = -1) then 0 else sd_offset d)).

(** Write data directly to file. *)
Definition PersistToFile (w : WriteStream) (buf : option (list Z)) (size offset currentSize : Z) : IOM Z :=
  if decide (size ≤ 0) then mret 0
  else
    match buf with
    | None => mret (- EINVAL)
    | Some bytes =>
      if ws_client w then on_remote (client_WriteFile (ws_physicalFd w) bytes offset)
      else
        let newSize := Z.max (u64 (offset + size)) currentSize in
        let sizeToAdd := u64 (newSize - currentSize) in
        ok ← on_cache (PreAllocSpace rootPath totalDirectory sizeToAdd);
        if (ok : bool) then
          retSize ← on_fs (posix_pwrite (ws_physicalFd w) bytes offset);
          if decide (retSize < 0) then
            err ← get_errno;
            on_cache (FreePreAllocSpace sizeToAdd) ;;
            mret (- err)
          else
            added ← on_cache (Add (ws_inodeId w) sizeToAdd);
            on_cache (FreePreAllocSpace sizeToAdd) ;;
            mret (if (added : bool) then 0 else - ENOENT)
        else mret (- ENOSPC)
    end.

Definition data_ptr (d : SerialData) : option (list Z) := if fm_mem (sd_buf d) then Some (fm_bytes (sd_buf d)) else None.

Definition Persist (w : WriteStream) (currentSize : Z) : IOM (Z * WriteStream) :=
  if decide (ws_client w = false ∧ ws_physicalFd w = UINT64_MAX) then mret (- EBADF, w)
  else
    ret ← (if SerialData_Empty (ws_data w) then mret 0
           else PersistToFile w (data_ptr (ws_data w)) (sd_size (ws_data w)) (sd_offset (ws_data w)) currentSize);
    mret (ret, w <| ws_data ::= SerialData_Clear |>).

Definition Push (w : WriteStream) (buf : CuckooWriteBuffer) (offset currentSize : Z) : IOM (Z * WriteStream) :=
  if decide (wb_size buf ≤ 0) then mret (0, w)
  else if negb (ws_client w) then
    if negb (ws_direct w) then
      ret ← PersistToFile w (wb_ptr buf) (wb_size buf) offset currentSize;
      mret (ret, w)
    else
      got ← on_fs posix_alloc;
      if (got : bool) then
        match wb_ptr buf with
        | None => mret (- EIO, w)
        | Some bytes =>
          ret ← PersistToFile w (Some bytes) (wb_size buf) offset currentSize;
          mret (ret, w)
        end
      else mret (- ENOMEM, w)
  else
    '(ret, w) ← (if decide (SerialData_End (ws_data w) ≠ u64 offset ∨ wb_size buf >= CUCKOO_STORE_STREAM_MAX_SIZE)
                 then Persist w currentSize else mret (0, w));
    if decide (ret ≠ 0) then mret (ret, w)
    else if decide (wb_size buf >= CUCKOO_STORE_STREAM_MAX_SIZE) then
      ret ← PersistToFile w (wb_ptr buf) (wb_size buf) offset currentSize;
      mret (ret, w)
    else
      '(ret, w) ← (if decide (sd_size (ws_data w) + wb_size buf > CUCKOO_STORE_STREAM_MAX_SIZE)
                   then Persist w currentSize else mret (0, w));
      if decide (ret ≠ 0) then mret (ret, w)
      else
        '(_, d) ← SerialData_Append (wb_ptr buf) (wb_size buf) offset (ws_data w);
        mret (0, w <| ws_data := d |>).

Definition Complete (w : WriteStream) (currentSize : Z) (isFlush isSync : bool) : IOM (Z * WriteStream) :=
  if ws_client w then
    if negb (SerialData_Empty (ws_data w)) then
      ret ← on_remote (client_CloseFile (ws_physicalFd w) isFlush isSync (default [] (data_ptr (ws_data w))) (sd_offset (ws_data w)));
      mret (ret, w <| ws_data ::= SerialData_Clear |>)
    else
      ret ← on_remote (client_CloseFile (ws_physicalFd w) isFlush isSync [] 0);
      mret (ret, w)
  else Persist w currentSize.

Definition SetFd (newPhysicalFd : Z) (w : WriteStream) : Z * WriteStream :=
  if decide (ws_physicalFd w ≠ UINT64_MAX ∧ ws_physicalFd w ≠ newPhysicalFd) then (- EBADF, w)
  else (0, w <| ws_physicalFd := newPhysicalFd |>).

Definition SetClient (client : bool) (w : WriteStream) : WriteStream :=
  if client then w <| ws_client := true |> else w.
Definition SetInodeId (newInodeId : Z) (w : WriteStream) : WriteStream := w <| ws_inodeId := newInodeId |>.
Definition SetDirect (isDirect : bool) (w : WriteStream) : WriteStream := w <| ws_direct := isDirect |>.
Definition GetSize (w : WriteStream) : Z := sd_size (ws_data w).
End write_stream.

(** ** A stream to another node is the file *)

(** What the other node and brpc promise for a descriptor that is open there: a
    write or a flush that is answered with success has been applied to the file
    behind the descriptor, and a call that fails has an error code. *)
Class StubFiles (R : Type) `{!Stub R} := {
  remote_file : R → Z → list Z;
  remote_open : R → Z → Prop;
  stub_write_law fd bs off r n r' : remote_open r fd → bs ≠ [] → 0 ≤ off → off + Z.of_nat (length bs) < 2 ^ 63 →
    stub_WriteFile fd bs off r = (Reply (0, n), r') → i32 n = Z.of_nat (length bs) →
    remote_open r' fd ∧ remote_file r' fd = file_write (remote_file r fd) off bs;
  stub_flush_law fd sync bs off r r' : remote_open r fd → 0 ≤ off → off + Z.of_nat (length bs) < 2 ^ 63 →
    stub_CloseFile fd true sync bs off r = (Reply 0, r') →
    remote_open r' fd ∧ remote_file r' fd = if decide (bs = []) then remote_file r fd else file_write (remote_file r fd) off bs;
  stub_write_failed fd bs off r code r' : stub_WriteFile fd bs off r = (Failed code, r') → code ≠ 0;
  stub_close_failed fd flush sync bs off r code r' : stub_CloseFile fd flush sync bs off r = (Failed code, r') → code ≠ 0 }.

Section remote.
Context {F R : Type} `{!Posix F} `{!Stub R} `{!StubFiles R}.
Context (rootPath : string) (totalDirectory : Z).
Local Abbreviation IOM := (M (IO F R)).

Record stream_ok (w : WriteStream) : Prop := {
  k_client : ws_client w = true;
  k_size : sd_size (ws_data w) = Z.of_nat (length (fm_bytes (sd_buf (ws_data w))));
  k_max : sd_size (ws_data w) ≤ CUCKOO_STORE_STREAM_MAX_SIZE;
  k_offset : if decide (sd_size (ws_data w) = 0) then sd_offset (ws_data w) = -1
             else 0 ≤ sd_offset (ws_data w) ∧ sd_offset (ws_data w) + sd_size (ws_data w) < 2 ^ 63 ∧ fm_mem (sd_buf (ws_data w)) = true }.

(** The content of the file once what is buffered has arrived. *)
Definition logical (w : WriteStream) (s : IO F R) : list Z :=
  let f := remote_file (io_remote s) (ws_physicalFd w) in
  if decide (sd_size (ws_data w) = 0) then f else file_write f (sd_offset (ws_data w)) (fm_bytes (sd_buf (ws_data w))).

(** A write that fits the types of the code. *)
Definition write_ok (bytes : list Z) (offset : Z) : Prop :=
  (0 < length bytes)%nat ∧ Z.of_nat (length bytes) < 2 ^ 31 ∧ 0 ≤ offset ∧ offset + Z.of_nat (length bytes) < 2 ^ 63.

(** Which writes arrive.  A write that is not sent at once needs the buffer, whose
    memory is taken from the pool at its first use and kept; when the pool has none
    the bytes are dropped and the write returns 0 all the same.  [mem]: whether the
    stream has its buffer. *)
Definition accepts (mem : bool) (f : F) (bytes : list Z) : bool * (bool * F) :=
  if decide (Z.of_nat (length bytes) >= CUCKOO_STORE_STREAM_MAX_SIZE) then (true, (mem, f))
  else if mem then (true, (true, f))
  else let '(b, f') := posix_alloc f in (b, (b, f')).

Fixpoint arriving (mem : bool) (f : F) (l : list (list Z * Z)) : list (list Z * Z) :=
  match l with
  | [] => []
  | (bytes, off) :: l' =>
    let '(ok, (mem', f')) := accepts mem f bytes in
    if (ok : bool) then (bytes, off) :: arriving mem' f' l' else arriving mem' f' l'
  end.

Definition has_buffer (w : WriteStream) : bool := fm_mem (sd_buf (ws_data w)).
(** The writes [l] to the stream that arrive, and what they make of a file. *)
Definition after_writes (w : WriteStream) (s : IO F R) (l : list (list Z * Z)) (content : list Z) : list Z :=
  foldl (λ f '(bytes, off), file_write f off bytes) content (arriving (has_buffer w) (io_fs s) l).

(** With the buffer, or memory for it at its first use, they all do. *)
Lemma arriving_all mem (f : F) l : mem = true ∨ (posix_alloc f).1 = true → arriving mem f l = l.
Proof.
  revert mem f. induction l as [|[bytes off] l IH]; intros mem f H; [done|]. cbn [arriving]. unfold accepts.
  destruct (decide _); [by rewrite IH|]. destruct mem; [by rewrite IH by auto|]. destruct H as [|H]; [done|].
  destruct (posix_alloc f) as [b f']. simpl in H. subst b. by rewrite IH by auto.
Qed.

Lemma bind_on_remote {A B} (m : M R A) (f : A → IOM B) (s : IO F R) a r' :
  m (io_remote s) = Ret a r' → (on_remote m ≫= f) s = f a (mkIO (io_cache s) (io_fs s) r').
Proof. intros H. unfold on_remote, mzoom, mbind, M_bind. by rewrite H. Qed.

Lemma bind_on_fs {A B} (op : F → A * F) (f : A → IOM B) (s : IO F R) :
  (on_fs op ≫= f) s = f (op (io_fs s)).1 (mkIO (io_cache s) (op (io_fs s)).2 (io_remote s)).
Proof. unfold on_fs, mzoom, mbind, M_bind. by destruct (op (io_fs s)). Qed.

(** Sending bytes to the other node. *)
Lemma stream_send fd bytes off (s : IO F R) : remote_open (io_remote s) fd → write_ok bytes off →
  ∃ ret r', on_remote (client_WriteFile fd bytes off) s = Ret ret (mkIO (io_cache s) (io_fs s) r') ∧
    (ret = 0 → remote_open r' fd ∧ remote_file r' fd = file_write (remote_file (io_remote s) fd) off bytes).
Proof.
  intros Hopen (Hne & Hlen & Hoff & Hend). unfold on_remote, mzoom, client_WriteFile. unfold mbind, M_bind. rewrite call_eq.
  destruct (stub_WriteFile fd bytes off (io_remote s)) as [[code|[e n]] r'] eqn:Hst; cbv beta iota zeta; simpl.
  - eexists _, r'. split; [reflexivity|]. intros H0. pose proof (fuse_errno_pos code (stub_write_failed _ _ _ _ _ _ Hst)). lia.
  - eexists _, r'. split; [reflexivity|]. destruct (decide (e ≠ 0)) as [He|He]; [done|]. apply dec_stable in He as ->.
    destruct (decide (u64 (i32 n) ≠ _)) as [Hn|Hn]; [done|]. intros _. apply dec_stable in Hn.
    apply (stub_write_law _ _ _ _ _ _ Hopen) with (4 := Hst); [by destruct bytes; simpl in Hne; [lia|]|done|done|]. revert Hn Hlen. unfold u64, i32. clear. intros.
    pose proof (Z.mod_pos_bound (n + 2 ^ 31) (2 ^ 32)). set (m := (n + 2 ^ 31) mod 2 ^ 32) in *.
    destruct (decide (0 ≤ m - 2 ^ 31)).
    + by rewrite Z.mod_small in Hn by lia.
    + rewrite <-(Z_mod_plus_full _ 1), Z.mod_small in Hn by lia. lia.
Qed.

Lemma flush_spec fd sync bytes off (s : IO F R) :
  remote_open (io_remote s) fd → 0 ≤ off → off + Z.of_nat (length bytes) < 2 ^ 63 →
  ∃ ret r', on_remote (client_CloseFile fd true sync bytes off) s = Ret ret (mkIO (io_cache s) (io_fs s) r') ∧
    (ret = 0 → remote_open r' fd ∧ remote_file r' fd = if decide (bytes = []) then remote_file (io_remote s) fd else file_write (remote_file (io_remote s) fd) off bytes).
Proof.
  intros Hopen Hoff Hend. unfold on_remote, mzoom, client_CloseFile. unfold mbind, M_bind. rewrite call_eq.
  destruct (stub_CloseFile fd true sync bytes off (io_remote s)) as [[code|e] r'] eqn:Hst; cbv beta iota zeta; simpl.
  - eexists _, r'. split; [reflexivity|]. intros H0. pose proof (fuse_errno_pos code (stub_close_failed _ _ _ _ _ _ _ _ Hst)). lia.
  - eexists _, r'. split; [reflexivity|]. intros ->. by apply (stub_flush_law _ _ _ _ _ _ Hopen) with (3 := Hst).
Qed.

Definition emptied (w : WriteStream) : WriteStream := w <| ws_data ::= SerialData_Clear |>.

Lemma emptied_ok w : stream_ok w → stream_ok (emptied w).
Proof. intros [Hc _ _ _]. by split. Qed.

(** The buffer is sent and empty afterwards, whatever happens. *)
Lemma Persist_spec w (s : IO F R) cur : stream_ok w → remote_open (io_remote s) (ws_physicalFd w) →
  ∃ ret r', Persist rootPath totalDirectory w cur s = Ret (ret, emptied w) (mkIO (io_cache s) (io_fs s) r') ∧
    (ret = 0 → remote_open r' (ws_physicalFd w) ∧ remote_file r' (ws_physicalFd w) = logical w s).
Proof.
  intros [Hc Hsz Hmax Hoff] Hopen. unfold Persist, logical, SerialData_Empty. rewrite decide_False by (intros [? _]; congruence).
  destruct (decide (sd_size (ws_data w) = 0)) as [Hz|Hz].
  - rewrite bool_decide_eq_true_2 by done. mstep. destruct s as [dc fs r]. eexists 0, r. by split.
  - rewrite bool_decide_eq_false_2 by done. destruct Hoff as (Ho & Hend & Hm). unfold PersistToFile, data_ptr.
    rewrite decide_False by lia. rewrite Hm, Hc.
    destruct (stream_send (ws_physicalFd w) (fm_bytes (sd_buf (ws_data w))) (sd_offset (ws_data w)) s Hopen) as (ret & r' & Hs & Hr).
    { unfold CUCKOO_STORE_STREAM_MAX_SIZE in Hmax. unfold write_ok. lia. }
    exists ret, r'. split; [|done]. by rewrite (bind_ret _ _ _ _ _ Hs).
Qed.

(** Bytes are added to the buffer, or dropped when there is none. *)
Lemma Append_spec w (s : IO F R) bytes off :
  stream_ok w → write_ok bytes off → sd_size (ws_data w) + Z.of_nat (length bytes) ≤ CUCKOO_STORE_STREAM_MAX_SIZE →
  Z.of_nat (length bytes) < CUCKOO_STORE_STREAM_MAX_SIZE →
  SerialData_End (ws_data w) = u64 off ∨ sd_size (ws_data w) = 0 →
  ∃ b d fs', SerialData_Append (Some bytes) (Z.of_nat (length bytes)) off (ws_data w) s = Ret (b, d) (mkIO (io_cache s) fs' (io_remote s)) ∧
    stream_ok (w <| ws_data := d |>) ∧ accepts (has_buffer w) (io_fs s) bytes = (b, (fm_mem (sd_buf d), fs')) ∧
    logical (w <| ws_data := d |>) (mkIO (io_cache s) fs' (io_remote s)) = if (b : bool) then file_write (logical w s) off bytes else logical w s.
Proof.
  intros [Hc Hsz Hmax Hoff] (Hlen & H31 & Hoff0 & H63) Hfit Hsmall Hend. unfold SerialData_Append, FixMemory_Append, has_buffer, accepts.
  rewrite (decide_False (P := _ >= CUCKOO_STORE_STREAM_MAX_SIZE)) by lia.
  assert (∃ b fs', (if fm_mem (sd_buf (ws_data w)) then mret true else on_fs posix_alloc) s = Ret b (mkIO (io_cache s) fs' (io_remote s)) ∧
    (if fm_mem (sd_buf (ws_data w)) then (true, (true, io_fs s)) else let '(b, f') := posix_alloc (io_fs s) in (b, (b, f'))) = (b, (b, fs')) ∧
    (b = false → fm_mem (sd_buf (ws_data w)) = false)) as (b & fs' & Hgot & Hacc & Hb).
  { destruct (fm_mem (sd_buf (ws_data w))); [by exists true, (io_fs s); destruct s|]. unfold on_fs, mzoom.
    destruct (posix_alloc (io_fs s)) as [b f']. by exists b, f'. }
  rewrite Hacc. destruct b.
  - eexists true, _, fs'. split; [|split; [|split]].
    + rewrite bind_assoc. rewrite (bind_ret _ _ _ _ _ Hgot). cbv beta iota.
      rewrite (decide_False (P := _ > CUCKOO_STORE_STREAM_MAX_SIZE)) by lia. mstep. reflexivity.
    + split; simpl; [done|rewrite length_app; lia|lia|]. rewrite (decide_False (P := sd_size (ws_data w) + Z.of_nat (length bytes) = 0)) by lia.
      destruct (decide (sd_size (ws_data w) = 0)) as [Hz|Hz].
      * rewrite decide_True by done. split_and!; lia || done.
      * destruct Hoff as (Ho & Hd & Hm). rewrite decide_False by lia. destruct Hend as [Hend|?]; [|done].
        unfold SerialData_End in Hend. rewrite decide_False, !u64_small in Hend by lia. split_and!; lia || done.
    + done.
    + unfold logical. simpl. rewrite (decide_False (P := sd_size (ws_data w) + Z.of_nat (length bytes) = 0)) by lia. destruct (decide (sd_size (ws_data w) = 0)) as [Hz|Hz].
      * rewrite decide_True by done. destruct (fm_bytes (sd_buf (ws_data w))); [done|]. simpl in Hsz. lia.
      * destruct Hoff as (Ho & Hd & Hm). rewrite decide_False by lia. destruct Hend as [Hend|?]; [|done].
        unfold SerialData_End in Hend. rewrite decide_False, !u64_small in Hend by lia.
        rewrite <-file_write_append by done. f_equal. lia.
  - specialize (Hb eq_refl). eexists false, _, fs'. split; [|split; [|split]].
    + rewrite bind_assoc. rewrite (bind_ret _ _ _ _ _ Hgot). mstep. reflexivity.
    + by split.
    + simpl. by rewrite Hb.
    + done.
Qed.

Lemma logical_emptied w (s : IO F R) : logical (emptied w) s = remote_file (io_remote s) (ws_physicalFd w).
Proof. done. Qed.

(** The end of [Push]: the bytes fit into the buffer. *)
Lemma buffered w (s : IO F R) bytes off (P : Z → WriteStream → IO F R → Prop) :
  stream_ok w → write_ok bytes off → sd_size (ws_data w) + Z.of_nat (length bytes) ≤ CUCKOO_STORE_STREAM_MAX_SIZE →
  Z.of_nat (length bytes) < CUCKOO_STORE_STREAM_MAX_SIZE →
  SerialData_End (ws_data w) = u64 off ∨ sd_size (ws_data w) = 0 →
  (∀ b w' s', stream_ok w' → ws_physicalFd w' = ws_physicalFd w → io_remote s' = io_remote s →
     accepts (has_buffer w) (io_fs s) bytes = (b, (has_buffer w', io_fs s')) →
     logical w' s' = (if (b : bool) then file_write (logical w s) off bytes else logical w s) → P 0 w' s') →
  returns (('(_, d) ← SerialData_Append (Some bytes) (Z.of_nat (length bytes)) off (ws_data w);
            mret (0, w <| ws_data := d |>)) s) (λ '(ret, w') s', P ret w' s').
Proof.
  intros Hok Hw Hfit Hsmall Hend HP. destruct (Append_spec w s bytes off Hok Hw Hfit Hsmall Hend) as (b & d & fs' & Ha & Hok' & Hacc & Hl).
  rewrite (bind_ret _ _ _ _ _ Ha). simpl. by apply (HP b).
Qed.

Lemma Push_remote w (s : IO F R) bytes off cur :
  stream_ok w → remote_open (io_remote s) (ws_physicalFd w) → write_ok bytes off →
  returns (Push rootPath totalDirectory w (mkWriteBuffer (Some bytes) (Z.of_nat (length bytes))) off cur s)
    (λ '(ret, w') s', stream_ok w' ∧ ws_physicalFd w' = ws_physicalFd w ∧
       (ret = 0 → remote_open (io_remote s') (ws_physicalFd w) ∧
          ∃ b : bool, accepts (has_buffer w) (io_fs s) bytes = (b, (has_buffer w', io_fs s')) ∧
            logical w' s' = if b then file_write (logical w s) off bytes else logical w s) ∧
       (ret ≠ 0 → GetSize w' = 0)).
Proof.
  intros Hok Hopen Hw. pose proof Hw as (Hlen & H31 & Ho & H63). unfold Push. cbn [wb_size wb_ptr]. rewrite (k_client w Hok).
  rewrite (decide_False (P := _ ≤ 0)) by lia. cbn [negb].
  assert (∀ r', remote_file r' (ws_physicalFd w) = logical w s →
    logical (emptied w) (mkIO (io_cache s) (io_fs s) r') = logical w s) as Hsent by (intros r' Hr'; by rewrite logical_emptied).
  destruct (Persist_spec w s cur Hok Hopen) as (ret & r' & Hp & Hr).
  destruct (decide (SerialData_End (ws_data w) ≠ u64 off ∨ _)) as [Hsend|Hkeep].
  - rewrite (bind_ret _ _ _ _ _ Hp). cbv beta iota. destruct (decide (ret ≠ 0)) as [Hne|He].
    { simpl. split_and!; [by apply emptied_ok|done|done|done]. }
    apply dec_stable in He as ->. destruct (Hr eq_refl) as [Hopen' Hr']. specialize (Hsent r' Hr').
    destruct (decide (Z.of_nat (length bytes) >= CUCKOO_STORE_STREAM_MAX_SIZE)) as [Hbig|Hsmall].
    + unfold PersistToFile. rewrite decide_False by lia. change (ws_client (emptied w)) with (ws_client w). rewrite (k_client w Hok).
      destruct (stream_send (ws_physicalFd (emptied w)) bytes off (mkIO (io_cache s) (io_fs s) r') Hopen' Hw) as (ret & r2 & Hs & Hr2).
      rewrite (bind_ret _ _ _ _ _ Hs). simpl. split_and!; [by apply emptied_ok|done|intros H0|done].
      destruct (Hr2 H0) as [? Hf]. split; [done|]. exists true. unfold accepts. rewrite decide_True by lia.
      split; [done|]. by rewrite <-Hsent, !logical_emptied.
    + rewrite decide_False by (simpl; lia). mstep. rewrite decide_False by auto.
      apply (buffered (emptied w) _ bytes off _ (emptied_ok w Hok) Hw); [simpl; lia|lia|by right|]. intros b w' s' Hok' Hfd Hrem Hacc Hl.
      split_and!; try done. intros _. rewrite Hrem. split; [done|]. exists b. by rewrite Hl, Hsent.
  - apply Decidable.not_or in Hkeep as [Hend Hsmall]. apply dec_stable in Hend. mstep. rewrite decide_False by auto.
    rewrite decide_False by done.
    destruct (decide (sd_size (ws_data w) + Z.of_nat (length bytes) > CUCKOO_STORE_STREAM_MAX_SIZE)) as [Hfull|Hfit].
    + rewrite (bind_ret _ _ _ _ _ Hp). cbv beta iota. destruct (decide (ret ≠ 0)) as [Hne|He].
      { simpl. split_and!; [by apply emptied_ok|done|done|done]. }
      apply dec_stable in He as ->. destruct (Hr eq_refl) as [Hopen' Hr']. specialize (Hsent r' Hr').
      apply (buffered (emptied w) _ bytes off _ (emptied_ok w Hok) Hw); [simpl; lia|lia|by right|]. intros b w' s' Hok' Hfd Hrem Hacc Hl.
      split_and!; try done. intros _. rewrite Hrem. split; [done|]. exists b. by rewrite Hl, Hsent.
    + mstep. rewrite decide_False by auto. apply (buffered w _ bytes off _ Hok Hw); [lia|lia|by left|]. intros b w' s' Hok' Hfd Hrem Hacc Hl.
      rewrite Hrem. split_and!; try done. intros _. split; [done|]. by exists b.
Qed.

Lemma Complete_remote w (s : IO F R) cur sync :
  stream_ok w → remote_open (io_remote s) (ws_physicalFd w) →
  returns (Complete rootPath totalDirectory w cur true sync s)
    (λ '(ret, w') s', stream_ok w' ∧ ws_physicalFd w' = ws_physicalFd w ∧ GetSize w' = 0 ∧
       (ret = 0 → remote_open (io_remote s') (ws_physicalFd w) ∧ remote_file (io_remote s') (ws_physicalFd w) = logical w s)).
Proof.
  intros Hok Hopen. pose proof Hok as [Hc Hsz Hmax Hoff]. unfold Complete, SerialData_Empty, logical. rewrite Hc.
  destruct (decide (sd_size (ws_data w) = 0)) as [Hz|Hz].
  - rewrite bool_decide_eq_true_2 by done. cbn [negb].
    destruct (flush_spec (ws_physicalFd w) sync [] 0 s Hopen) as (ret & r' & Hs & Hr); [done|done|]. rewrite (bind_ret _ _ _ _ _ Hs).
    simpl. split_and!; done.
  - rewrite bool_decide_eq_false_2 by done. cbn [negb]. unfold data_ptr. destruct Hoff as (Ho & Hend & ->).
    destruct (flush_spec (ws_physicalFd w) sync (fm_bytes (sd_buf (ws_data w))) (sd_offset (ws_data w)) s Hopen) as (ret & r' & Hs & Hr); [done|lia|].
    cbn [default]. rewrite (bind_ret _ _ _ _ _ Hs). simpl. split_and!; [by apply emptied_ok|done|done|]. intros H0. destruct (Hr H0) as [? ->]. split; [done|].
    rewrite decide_False; [done|]. intros Hnil. rewrite Hnil in Hsz. simpl in Hsz. lia.
Qed.

(** A sequence of writes, up to the first that fails. *)
Fixpoint push_all (w : WriteStream) (l : list (list Z * Z)) (cur : Z) : IOM (Z * WriteStream) :=
  match l with
  | [] => mret (0, w)
  | (bytes, off) :: l' =>
    '(ret, w') ← Push rootPath totalDirectory w (mkWriteBuffer (Some bytes) (Z.of_nat (length bytes))) off cur;
    if decide (ret ≠ 0) then mret (ret, w') else push_all w' l' cur
  end.

Lemma push_all_remote w (s : IO F R) l cur :
  stream_ok w → remote_open (io_remote s) (ws_physicalFd w) → Forall (λ '(bytes, off), write_ok bytes off) l →
  returns (push_all w l cur s)
    (λ '(ret, w') s', stream_ok w' ∧ ws_physicalFd w' = ws_physicalFd w ∧
       (ret = 0 → remote_open (io_remote s') (ws_physicalFd w) ∧
          logical w' s' = after_writes w s l (logical w s)) ∧ (ret ≠ 0 → GetSize w' = 0)).
Proof.
  intros Hok Hopen Hall. revert w s Hok Hopen. induction Hall as [|[bytes off] l Hw Hall IH]; intros w s Hok Hopen; cbn [push_all].
  { simpl. by split_and!. }
  pose proof (Push_remote w s bytes off cur Hok Hopen Hw) as Hp. unfold mbind, M_bind.
  destruct (Push _ _ _ _ _ _ _) as [[ret w'] s'| | |]; try done. destruct Hp as (Hok' & Hfd & Hl & Hz).
  destruct (decide (ret ≠ 0)) as [Hne|He]; [simpl; by split_and!|]. apply dec_stable in He.
  destruct (Hl He) as (Hopen' & b & Hacc & Hl').
  eapply returns_mono; [apply (IH w' s' Hok'); by rewrite Hfd|]. intros [ret2 w2] s2 (Hok2 & Hfd2 & Hl2 & Hz2). split_and!; try done; [congruence|].
  intros H0. destruct (Hl2 H0) as [? ->]. rewrite <-Hfd. split; [done|]. unfold after_writes. cbn [arriving]. rewrite Hacc, Hl'. by destruct b.
Qed.

Definition write_and_flush (w : WriteStream) (l : list (list Z * Z)) (cur : Z) (sync : bool) : IOM (Z * WriteStream) :=
  '(ret, w1) ← push_all w l cur;
  if decide (ret ≠ 0) then mret (ret, w1) else Complete rootPath totalDirectory w1 cur true sync.

Lemma write_and_flush_spec w (s : IO F R) l cur sync :
  stream_ok w → remote_open (io_remote s) (ws_physicalFd w) → Forall (λ '(bytes, off), write_ok bytes off) l →
  returns (write_and_flush w l cur sync s)
    (λ '(ret, w') s', stream_ok w' ∧ ws_physicalFd w' = ws_physicalFd w ∧ GetSize w' = 0 ∧
       (ret = 0 → remote_open (io_remote s') (ws_physicalFd w) ∧
          remote_file (io_remote s') (ws_physicalFd w) = after_writes w s l (logical w s))).
Proof.
  intros Hok Hopen Hall. pose proof (push_all_remote w s l cur Hok Hopen Hall) as Hp. unfold write_and_flush, mbind, M_bind.
  destruct (push_all _ _ _ _) as [[ret w1] s1| | |]; try done. destruct Hp as (Hok1 & Hfd & Hl & Hz).
  destruct (decide (ret ≠ 0)) as [Hne|He]; [simpl; by split_and!; auto|]. apply dec_stable in He. destruct (Hl He) as [Hopen1 Hl1].
  eapply returns_mono; [apply (Complete_remote w1 s1 cur sync Hok1); by rewrite Hfd|]. intros [ret2 w2] s2 (Hok2 & Hfd2 & Hz2 & Hc).
  split_and!; try done; [congruence|]. intros H0. rewrite <-Hl1, <-Hfd. by apply Hc.
Qed.

(** (C14) The write stream to another node implements a plain file: after any
    sequence of writes that all return 0, and a flush that returns 0, the file on
    the node holds exactly what the writes that arrive, applied one after the
    other, make of its old content, although they were collected, joined and
    sent in other pieces.  All of them arrive when the stream has its buffer or the
    pool has memory for it at its first use; as long as the pool has none, exactly
    the writes below 256 KiB are dropped, although they return 0.  When a write or
    the flush returns an error, what was collected is dropped. *)
Theorem write_stream_refines_file w (s : IO F R) l cur sync :
  stream_ok w → remote_open (io_remote s) (ws_physicalFd w) → Forall (λ '(bytes, off), write_ok bytes off) l →
  returns (write_and_flush w l cur sync s)
    (λ '(ret, w') s', stream_ok w' ∧ GetSize w' = 0 ∧
       (ret = 0 → remote_file (io_remote s') (ws_physicalFd w) =
          foldl (λ f '(bytes, off), file_write f off bytes) (logical w s) (arriving (has_buffer w) (io_fs s) l))) ∧
  (has_buffer w = true ∨ (posix_alloc (io_fs s)).1 = true → arriving (has_buffer w) (io_fs s) l = l).
Proof.
  intros Hok Hopen Hall. split; [|apply arriving_all]. eapply returns_mono; [by apply write_and_flush_spec|]. intros [ret w'] s' (? & _ & ? & H).
  split_and!; [done|done|]. intros Hret. apply (H Hret).
Qed.
End remote.

(** ** A stream to a local file *)
Section local.
Context {F R : Type} `{!Posix F} `{!PosixFiles F} `{!Stub R}.
Context (rootPath : string) (totalDirectory : Z).
Local Abbreviation IOM := (M (IO F R)).

(** Reservations leave open files as they are. *)
Definition same_content {A} (fs : F) (o : outcome (DiskCache * F) A) : Prop :=
  match o with Ret _ (_, fs') => ∀ fd, fd_content fs' fd = fd_content fs fd | _ => True end.

Lemma same_content_bind {A B} (m : M (DiskCache * F) A) (f : A → M (DiskCache * F) B) d fs :
  same_content fs (m (d, fs)) → (∀ a d' fs', same_content fs' (f a (d', fs'))) → same_content fs ((m ≫= f) (d, fs)).
Proof.
  intros Hm Hf. unfold mbind, M_bind. destruct (m (d, fs)) as [a [d' fs']| | |]; try done. specialize (Hf a d' fs').
  unfold same_content in *. destruct (f a (d', fs')) as [b [d2 fs2]| | |]; try done. intros fd. by rewrite Hf.
Qed.

Lemma evict_loop_content rest c i fc fi d fs : same_content fs (evict_loop rootPath totalDirectory rest c i fc fi (d, fs)).
Proof.
  revert d fs fc fi. induction rest as [|n rest IH]; intros d fs fc fi; cbn [evict_loop]; [done|].
  apply same_content_bind; [unfold deref; mstep; by destruct (node_at n _)|]. intros item d1 fs1. destruct (decide _); [done|].
  apply same_content_bind.
  - unfold remove_file, with_fs. destruct (posix_remove _ fs1) as [b fs2] eqn:Hr. intros fd. by apply (posix_remove_law _ _ _ _ _ Hr).
  - intros b d2 fs2. apply same_content_bind; [by destruct b|]. intros [] d3 fs3. destruct (decide _); [done|apply IH].
Qed.

Lemma Evict_content sz d fs : same_content fs (Evict rootPath totalDirectory sz (d, fs)).
Proof.
  unfold Evict. apply same_content_bind; [unfold GetCurFreeRatio; mstep; by destruct (posix_statfs fs)|]. intros z d1 fs1.
  unfold CleanupForEvict, evict. apply same_content_bind; [done|]. intros d2 d3 fs3. apply same_content_bind; [done|]. intros d4 d5 fs5.
  do 2 (case_match; try done). apply evict_loop_content.
Qed.

Lemma PreAllocSpace_content sz d fs : same_content fs (PreAllocSpace rootPath totalDirectory sz (d, fs)).
Proof.
  unfold PreAllocSpace. apply same_content_bind; [done|]. intros d1 d2 fs2. destruct (stop d1); [done|]. destruct (decide _); [done|].
  apply same_content_bind; [done|]. intros [] d3 fs3. generalize 3%nat as k. intros k. revert d3 fs3.
  induction k as [|k IH]; intros d3 fs3; cbn [prealloc_retry]; [done|]. apply same_content_bind; [apply Evict_content|]. intros [] d4 fs4.
  apply same_content_bind; [done|]. intros d5 d6 fs6. destruct (decide _); [apply IH|done].
Qed.

(** The entry of [key], with at least one pin, in a state reached from [d]. *)
Lemma pinned_kept d d' key s r : keeps_pinned d d' → view_items d !! key = Some (s, r) → r > 0 → view_items d' !! key = Some (s, r).
Proof. intros (_ & _ & _ & _ & H). apply H. Qed.

Lemma bind_on_cache {A B} (m : M (DiskCache * F) A) (f : A → IOM B) d fs (r : R) :
  (on_cache m ≫= f) (mkIO d fs r) =
    match m (d, fs) with
    | Ret a (d', fs') => f a (mkIO d' fs' r)
    | Elog e (d', fs') => Elog e (mkIO d' fs' r)
    | Diverge => Diverge
    | Undefined => Undefined
    end.
Proof. unfold on_cache, mzoom, mbind, M_bind. simpl. destruct (m (d, fs)) as [a [d' fs']|e [d' fs']| |]; done. Qed.

Lemma reserved_back a b : u64 a = a → u64 (u64 (a + b) - b) = a.
Proof. intros Ha. unfold u64 in *. rewrite Zminus_mod_idemp_l. rewrite <-Ha at 2. f_equal. lia. Qed.

Lemma cache_ok_reserved d v : cache_ok d → cache_ok (d <| reservedCap := v |>).
Proof. intros []. by split. Qed.

(** Writing to a local cache file that the cache has pinned: on every path
    that returns, successful or not, the cache stays coherent, keeps the file
    pinned and gets its reservation back.  With 0 the file's entry has grown by
    the bytes beyond the old size, and the descriptor's content is the old one
    overwritten with what pwrite took, which may be less than what was asked for;
    the errors are ENOSPC and that of pwrite, with the entry unchanged.  Only
    when space is short can the call fail to return. *)
Theorem PersistToFile_local w bytes offset cur d fs (r : R) sz pins
    (sizeToAdd := u64 (Z.max (u64 (offset + Z.of_nat (length bytes))) cur - cur)) :
  cache_ok d → active d → u64 (reservedCap d) = reservedCap d → ws_client w = false →
  (0 < length bytes)%nat → 0 ≤ offset → view_items d !! ws_inodeId w = Some (sz, pins) → pins > 0 →
  match PersistToFile rootPath totalDirectory w (Some bytes) (Z.of_nat (length bytes)) offset cur (mkIO d fs r) with
  | Ret ret s' =>
    cache_ok (io_cache s') ∧ active (io_cache s') ∧ reservedCap (io_cache s') = reservedCap d ∧
    (ret = 0 ∧ view_items (io_cache s') !! ws_inodeId w = Some (u64 (sz + sizeToAdd), pins) ∧
       (∃ n, (n ≤ length bytes)%nat ∧
          fd_content (io_fs s') (ws_physicalFd w) = file_write (fd_content fs (ws_physicalFd w)) offset (take n bytes)) ∨
     (ret = - ENOSPC ∨ ret = - posix_errno (io_fs s')) ∧ view_items (io_cache s') !! ws_inodeId w = Some (sz, pins))
  | Elog _ _ => False
  | Diverge | Undefined => freeCap d ≤ u64 (reservedCap d + sizeToAdd)
  end.
Proof.
  intros Hok Hact Hres Hc Hlen Hoff Hv Hp. unfold PersistToFile. rewrite decide_False by lia. rewrite Hc. fold sizeToAdd.
  rewrite bind_on_cache. pose proof (prealloc_outcome rootPath totalDirectory sizeToAdd d fs Hok Hact) as H.
  pose proof (PreAllocSpace_content sizeToAdd d fs) as Hcon. unfold reservation_result in H.
  destruct (PreAllocSpace _ _ _ _) as [ok [d1 fs1]| | |]; try done; [|apply H|apply H].
  destruct ok.
  2: { destruct H as ((Hok1 & Hact1 & _ & Hr1 & Hk1) & _). simpl. split_and!; try done; try apply Hact1. right. split; [by left|]. by apply Hk1. }
  destruct H as ((Hok1 & Hact1 & _ & Hr1 & Hk1) & _). simpl in Hr1. specialize (Hk1 _ _ _ Hv Hp). rewrite bind_on_fs. cbn [io_fs io_cache io_remote].
  destruct (posix_pwrite (ws_physicalFd w) bytes offset fs1) as [n fs2] eqn:Hw. cbn [fst snd]. destruct (decide (n < 0)) as [Hn|Hn].
  - unfold get_errno. mstep. rewrite bind_on_cache, FreePreAllocSpace_runs by done. simpl. rewrite Hr1, (reserved_back _ _ Hres).
    split_and!; try done; try apply Hact1; [by apply cache_ok_reserved|]. right. split; [by right|done].
  - rewrite bind_on_cache. pose proof (disk_add := Add_does rootPath totalDirectory d1 fs2 (ws_inodeId w) sizeToAdd true 0 Hok1 Hact1).
    unfold does, run, promise in disk_add. simpl a_items in disk_add. rewrite Hk1 in disk_add. unfold mbind at 1, M_bind in disk_add.
    destruct (Add _ _ _) as [added [d3 fs3]| | |] eqn:Hadd; try done. simpl in disk_add. destruct disk_add as (Hok3 & Hact3 & Ha).
    destruct added; [|done]. injection Ha as Hv3 _ _ Hr3.
    assert (fs3 = fs2) as ->.
    { revert Hadd. unfold Add, account, update_node, deref. mstep. destruct Hact1 as [-> _].
      destruct (inodeToCacheIter d1 !! _) as [m|]; [|by intros [= _ _ ->]]. mstep. destruct (node_at m _); [|done]. by intros [= _ ->]. }
    rewrite bind_on_cache, FreePreAllocSpace_runs by done. simpl. rewrite Hr3, Hr1, (reserved_back _ _ Hres).
    split_and!; try done; try apply Hact3; [by apply cache_ok_reserved|]. left. split_and!; try done.
    + change (view_items d3 !! ws_inodeId w = Some (u64 (sz + sizeToAdd), pins)). rewrite Hv3. apply lookup_insert_eq.
    + destruct (posix_pwrite_law _ _ _ _ _ _ Hw ltac:(lia) Hoff) as [Hle Hf]. exists (Z.to_nat n). split; [lia|]. rewrite Hf.
      f_equal. apply Hcon.
Qed.
End local.

(** ** Runs *)
Module WriteStreamWitness.
Import DiskCacheWitness.

(** Another node that does what it is asked: files by descriptor. *)
Abbreviation Peer := (gmap Z (list Z)).
Definition peer_file (r : Peer) (fd : Z) : list Z := default [] (r !! fd).
Lemma peer_file_insert (r : Peer) fd b : peer_file (<[fd := b]> r) fd = b.
Proof. unfold peer_file. by rewrite lookup_insert_eq. Qed.

#[global] Instance PeerStub : Stub Peer := {|
  brpc_ENOSERVICE := 1001; brpc_ENOMETHOD := 1002; brpc_EREQUEST := 1003; brpc_ERPCAUTH := 1004;
  brpc_ERPCTIMEDOUT := 1008; brpc_EFAILEDSOCKET := 1009;
  stub_OpenFile i _ _ _ _ r := (Reply (0, i), r);
  stub_CloseFile fd _ _ bs off r := (Reply 0, if decide (bs = []) then r else <[fd := file_write (peer_file r fd) off bs]> r);
  stub_ReadFile fd off n _ r := (Reply (0, file_read (peer_file r fd) off n), r);
  stub_ReadSmallFile i n _ _ _ r := (Reply (0, file_read (peer_file r i) 0 n), r);
  stub_WriteFile fd bs off r := (Reply (0, Z.of_nat (length bs)), <[fd := file_write (peer_file r fd) off bs]> r);
  stub_DeleteFile i _ _ r := (Reply 0, delete i r);
  stub_StatFS _ r := (Reply (0, mkStatFSBuf 0 0 0 0 0), r);
  stub_TruncateOpenInstance _ _ r := (Reply 0, r);
  stub_TruncateFile fd n r := (Reply 0, <[fd := take (Z.to_nat n) (peer_file r fd)]> r);
  stub_CheckConnection r := (Reply 0, r) |}.

#[global, program] Instance PeerFiles : StubFiles Peer := {| remote_file := peer_file; remote_open _ _ := True |}.
Next Obligation. intros fd bs off r n r' _ _ _ _. simpl. intros [= _ <-] _. split; [done|apply peer_file_insert]. Qed.
Next Obligation.
  intros fd sync bs off r r' _ _ _. simpl. intros [= <-]. split; [done|]. destruct (decide (bs = [])); [done|]. apply peer_file_insert.
Qed.
Next Obligation. done. Qed.
Next Obligation. done. Qed.

Definition stream0 : WriteStream := mkWriteStream 5 true new_SerialData 9 false.
Definition io0 : IO RefFs Peer := mkIO both.1 both.2 {[5 := [9; 9; 9; 9; 9; 9]]}.

Lemma stream0_ok : stream_ok stream0.
Proof. by split. Qed.

Definition writes0 : list (list Z * Z) := [([1; 2], 0); ([3; 4], 2); ([7], 1)].

Lemma write_stream_refines_file_witness :
  returns (write_and_flush "/c" 2 stream0 writes0 6 false io0)
    (λ '(ret, w') s', stream_ok w' ∧ GetSize w' = 0 ∧
       (ret = 0 → remote_file (io_remote s') 5 = foldl (λ f '(bytes, off), file_write f off bytes) (logical stream0 io0) writes0)).
Proof.
  assert (Forall (λ '(bytes, off), write_ok bytes off) writes0) as Hl by (repeat constructor; simpl; lia).
  destruct (write_stream_refines_file "/c" 2 stream0 io0 writes0 6 false stream0_ok) as [H Hall]; [exact I|exact Hl|].
  rewrite Hall in H by (right; reflexivity). exact H.
Defined.

(** The first two writes are joined, the third makes them go. *)
Example joined :
  match write_and_flush "/c" 2 stream0 writes0 6 false io0 with
  | Ret (ret, _) s => ret = 0 ∧ io_remote s = {[5 := [1; 7; 3; 4; 9; 9]]}
  | _ => False
  end.
Proof. vm_compute. split; reflexivity. Qed.

(** When the pool has no memory for the buffer, the bytes of a write that
    returns 0 are nowhere. *)
Definition NoMemory : Posix RefFs := {|
  posix_remove := posix_remove; posix_access := posix_access; posix_open := posix_open; posix_close := posix_close;
  posix_pread := posix_pread; posix_pwrite := posix_pwrite; posix_ftruncate := posix_ftruncate; posix_fsync := posix_fsync;
  posix_listdir := posix_listdir; posix_statfs := posix_statfs; posix_alloc f := (false, f); posix_time := posix_time;
  posix_errno := posix_errno |}.
Example write_without_memory :
  match Push (Posix0 := NoMemory) "/c" 2 stream0 (mkWriteBuffer (Some [1; 2]) 2) 0 6 io0 with
  | Ret (ret, w) s => ret = 0 ∧ logical w s = logical stream0 io0 ∧ GetSize w = 0
  | _ => False
  end.
Proof. vm_compute. split_and!; reflexivity. Qed.

(** A local file of 300 bytes, pinned and open as descriptor 4. *)
Definition pinned7 : DiskCache := match Pin 7 both with Ret _ (d, _) => d | _ => both.1 end.
Definition fs_open : RefFs := both.2 <| ref_fds := {[4 := 1]} |>.
Lemma pinned7_ok : cache_ok pinned7 ∧ active pinned7.
Proof.
  destruct both_ok as [Hok Hact]. destruct (Pin_does both.1 both.2 7 0%nat (mkItem 7 300 1700000000 0) Hok Hact) as (d' & Hp & Hok' & Hact' & _).
  - vm_compute. reflexivity.
  - vm_compute. reflexivity.
  - unfold pinned7. rewrite (surjective_pairing both), Hp. done.
Qed.

Definition local7 : WriteStream := mkWriteStream 4 false new_SerialData 7 false.

Lemma PersistToFile_local_witness :
  match PersistToFile "/c" 2 local7 (Some [1; 2; 3]) 3 299 300 (mkIO pinned7 fs_open (∅ : Peer)) with
  | Ret ret s' => cache_ok (io_cache s') ∧ reservedCap (io_cache s') = 0
  | Elog _ _ => False
  | Diverge | Undefined => freeCap pinned7 ≤ u64 (reservedCap pinned7 + 2)
  end.
Proof.
  pose proof (PersistToFile_local "/c" 2 local7 [1; 2; 3] 299 300 pinned7 fs_open (∅ : Peer) 300 1 (proj1 pinned7_ok) (proj2 pinned7_ok)
    ltac:(vm_compute; reflexivity) eq_refl ltac:(simpl; lia) ltac:(lia) ltac:(vm_compute; reflexivity) ltac:(lia)) as H.
  change (Z.of_nat (length [1; 2; 3])) with 3 in H. cbv zeta in H. destruct (PersistToFile _ _ _ _ _ _ _ _) as [ret s'| | |]; try done.
  by destruct H as (? & _ & ? & _).
Defined.

Example local_write :
  match PersistToFile "/c" 2 local7 (Some [1; 2; 3]) 3 299 300 (mkIO pinned7 fs_open (∅ : Peer)) with
  | Ret ret s' => ret = 0 ∧ view_items (io_cache s') !! 7 = Some (302, 1) ∧ length (fd_content (io_fs s') 4) = 302%nat
  | _ => False
  end.
Proof. vm_compute. split_and!; reflexivity. Qed.
End WriteStreamWitness.
