(* ===== verification/ReadStream.v ===== *)
(** * Reading ahead (common/src/read_stream/read_stream.cpp)

    A [ReadStream] has up to three pipes of one block each.  Thread [i] fills
    pipe [i] with blocks i, i + n, i + 2n, ... of the file; the reader takes the
    pipes in turn.  The threads and the reader are a transition system whose
    steps are the accesses under a pipe's mutex and the accesses to the atomic
    variables outside of it; [do_step] runs the step with a given label.

    The file does not change while it is read (a write stops the stream), and a
    read of a block returns the bytes there are or an error.  Offsets are not
    wrapped: the files are smaller than 2^63 bytes. *)
From S2P Require Import Prelude Posix.

Definition QUEUE_SIZE : Z := 3.

(** A pipe; [p_next] is the next block its thread will fetch (for the proof). *)
Record Pipe := mkPipe {
  p_mem : list Z;
  p_capacity : Z;
  p_size : Z;
  p_index : Z;
  p_stop : bool;
  p_next : Z }.
#[global] Instance eta_Pipe : Eta Pipe := λ p, mkPipe (p_mem p) (p_capacity p) (p_size p) (p_index p) (p_stop p) (p_next p).

Definition Pipe_Init (initSize : Z) (block : Z) : Pipe := mkPipe [] initSize initSize initSize false block.

Definition Destroy (p : Pipe) : Pipe := mkPipe [] 0 0 0 true (p_next p).

(** The predicates of the two condition variables. *)
Definition can_pop (p : Pipe) : bool := bool_decide (p_index p ≠ p_size p ∨ p_size p ≤ 0) || p_stop p.
Definition can_push (p : Pipe) : bool := bool_decide (p_index p = p_size p) || p_stop p.

(** Pipe::WaitPop after its wait: the value returned, the bytes put into the
    buffer, [end], and the pipe. *)
Definition Pipe_Pop (popSize : Z) (p : Pipe) : Z * list Z * bool * Pipe :=
  if decide (p_size p < 0) then (p_size p, [], false, Destroy p)
  else if decide (p_size p = 0) then (0, [], false, Destroy p)
  else if decide (p_index p = p_size p ∧ p_stop p = true) then (0, [], false, Destroy p)
  else
    let readSize := Z.min popSize (p_size p - p_index p) in
    let bytes := file_read (p_mem p) (p_index p) readSize in
    let p' := p <| p_index := p_index p + readSize |> in
    if decide (p_index p' = p_size p') then (readSize, bytes, true, if p_stop p then Destroy p' else p')
    else (readSize, bytes, false, p').

(** Pipe::WaitPush after its wait, when the pipe is not stopped: [data] are the
    bytes of the block or an error. *)
Definition Pipe_Push (n : Z) (data : Z + list Z) (p : Pipe) : Z * Pipe :=
  match data with
  | inl err => (err, p <| p_index := 0 |> <| p_size := err |> <| p_mem := [] |> <| p_next := p_next p + n |>)
  | inr bytes => (Z.of_nat (length bytes),
      p <| p_index := 0 |> <| p_size := Z.of_nat (length bytes) |> <| p_mem := bytes |> <| p_next := p_next p + n |>)
  end.

(** A filling thread: testing the condition of its loop, about to lock the pipe
    in WaitPush, asleep there, comparing the result, about to stop the pipe,
    about to notify, or ended. *)
Inductive pusher :=
  | PLoop (offset : Z) | PWait (offset : Z) | PAsleep (offset : Z) | PTest (offset ret : Z) | PExit | PNotify | PDone.

(** The reader: outside of WaitPop; at the condition of its loop; about to lock
    the pipe; in WaitPop of the pipe with its predicate false, about to sleep;
    asleep. *)
Inductive reader :=
  | RIdle | RLoop (want : Z) (got : list Z) | RWait (want : Z) (got : list Z)
  | RBlock (want : Z) (got : list Z) | RAsleep (want : Z) (got : list Z).

(** The stream; then, for the proof, the bytes given to the reader so far, the
    block it is reading, whether a read has failed, whether WaitPop has found
    the end. *)
Record ReadStream := mkStream {
  stopOffset : Z;
  pipeIndex : Z;
  pipes : list Pipe;
  pushers : list pusher;
  rs_stop : bool;
  rs_reader : reader;
  consumed : list Z;
  current : Z;
  failed : bool;
  ended : bool }.
#[global] Instance eta_ReadStream : Eta ReadStream := λ s,
  mkStream (stopOffset s) (pipeIndex s) (pipes s) (pushers s) (rs_stop s) (rs_reader s) (consumed s) (current s) (failed s) (ended s).

Section stream.
Context (file : list Z) (pipeCap : Z) (fileBlocks : Z).

Definition pipeNum : Z := Z.min fileBlocks QUEUE_SIZE.

(** ReadStream::Init and StartPushThreaded. *)
Definition Init : ReadStream :=
  mkStream UINT64_MAX 0 ((λ i, Pipe_Init pipeCap i) <$> seqZ 0 pipeNum) ((λ i, PLoop (i * pipeCap)) <$> seqZ 0 pipeNum)
    false RIdle [] 0 false false.

(** readCV.notify_all of pipe [i] *)
Definition notify (i : nat) (s : ReadStream) : ReadStream :=
  match rs_reader s with
  | RAsleep want got => if decide (pipeIndex s = Z.of_nat i) then s <| rs_reader := RWait want got |> else s
  | _ => s
  end.

(** writeCV.notify_all of pipe [i], on which only its own thread waits. *)
Definition wake_pusher (i : nat) (l : list pusher) : list pusher :=
  match l !! i with Some (PAsleep offset) => <[i := PWait offset]> l | _ => l end.
Definition notify_writer (i : nat) (s : ReadStream) : ReadStream := s <| pushers ::= wake_pusher i |>.

(** The mutex of pipe [i] is free. *)
Definition unlocked (i : nat) (s : ReadStream) : bool :=
  match rs_reader s with RBlock _ _ => negb (bool_decide (pipeIndex s = Z.of_nat i)) | _ => true end.

Definition addPipeIndex (s : ReadStream) : ReadStream :=
  s <| pipeIndex := (pipeIndex s + 1) mod pipeNum |> <| current := current s + 1 |>.

Inductive label :=
  | LTest (i : nat) | LPush (i : nat) (err : option Z) | LCompare (i : nat) | LStopPipe (i : nat) | LNotify (i : nat)
  | LWakePush (i : nat)
  | LCall (want : Z) | LReadTest | LReadPop | LReadSleep | LWake
  | LStop | LDestroy (i : nat).

Definition set_pusher (i : nat) (q : pusher) (s : ReadStream) : ReadStream := s <| pushers ::= <[i := q]> |>.
Definition set_pipe (i : nat) (p : Pipe) (s : ReadStream) : ReadStream := s <| pipes ::= <[i := p]> |>.

(** What reading the block at [offset] gives. *)
Definition fetch (offset : Z) (err : option Z) : Z + list Z :=
  match err with Some e => inl e | None => inr (file_read file offset pipeCap) end.

(** The loop of ReadStream::WaitPop around Pipe::WaitPop, which wakes the thread
    of the pipe when it has emptied it. *)
Definition read_pop (want : Z) (got : list Z) (p : Pipe) (s : ReadStream) : ReadStream :=
  let '(curSize, bytes, isEnd, p') := Pipe_Pop (want - Z.of_nat (length got)) p in
  let s1 := (set_pipe (Z.to_nat (pipeIndex s)) p' s) <| consumed ::= (.++ bytes) |> in
  let s2 := if (isEnd : bool) then addPipeIndex (notify_writer (Z.to_nat (pipeIndex s)) s1) else s1 in
  if decide (curSize < 0) then s2 <| rs_reader := RIdle |>
  else if decide (curSize = 0) then s2 <| rs_reader := RIdle |> <| ended := true |>
  else s2 <| rs_reader := RLoop want (got ++ bytes) |>.

Definition do_step (l : label) (s : ReadStream) : option ReadStream :=
  match l with
  (** the filling threads *)
  | LTest i =>
    match pushers s !! i with
    | Some (PLoop offset) =>
      Some (set_pusher i (if rs_stop s || bool_decide (offset >= stopOffset s) then PExit else PWait offset) s)
    | _ => None
    end
  | LPush i err =>
    match pushers s !! i, pipes s !! i with
    | Some (PWait offset), Some p =>
      if negb (unlocked i s && match err with Some e => bool_decide (e < 0) | None => true end) then None
      else if negb (can_push p) then Some (set_pusher i (PAsleep offset) s)
      else if p_stop p then Some (notify i (set_pusher i (PTest offset 0) s))
      else
        let '(ret, p') := Pipe_Push pipeNum (fetch offset err) p in
        Some (notify i ((set_pusher i (PTest offset ret) (set_pipe i p' s)) <| failed := failed s || match err with Some _ => true | None => false end |>))
    | _, _ => None
    end
  | LCompare i =>
    match pushers s !! i, pipes s !! i with
    | Some (PTest offset ret), Some p =>
      if decide (ret ≠ p_capacity p) then Some ((set_pusher i PExit s) <| stopOffset := offset |>)
      else Some (set_pusher i (PLoop (offset + pipeNum * pipeCap)) s)
    | _, _ => None
    end
  | LStopPipe i =>
    match pushers s !! i, pipes s !! i with
    | Some PExit, Some p => Some (set_pusher i PNotify (set_pipe i (p <| p_stop := true |>) s))
    | _, _ => None
    end
  | LNotify i =>
    match pushers s !! i with
    | Some PNotify => Some (notify i (set_pusher i PDone s))
    | _ => None
    end
  | LWakePush i => match pushers s !! i with Some (PAsleep offset) => Some (set_pusher i (PWait offset) s) | _ => None end
  (** the reader *)
  | LCall want =>
    match rs_reader s with
    | RIdle => if decide (0 ≤ want) then Some (s <| rs_reader := RLoop want [] |> <| ended := false |>) else None
    | _ => None
    end
  | LReadTest =>
    match rs_reader s with
    | RLoop want got =>
      Some (s <| rs_reader := if rs_stop s || bool_decide (Z.of_nat (length got) = want) then RIdle else RWait want got |>)
    | _ => None
    end
  | LReadPop =>
    match rs_reader s, pipes s !! Z.to_nat (pipeIndex s) with
    | RWait want got, Some p => Some (if can_pop p then read_pop want got p s else s <| rs_reader := RBlock want got |>)
    | _, _ => None
    end
  | LReadSleep => match rs_reader s with RBlock want got => Some (s <| rs_reader := RAsleep want got |>) | _ => None end
  | LWake => match rs_reader s with RAsleep want got => Some (s <| rs_reader := RWait want got |>) | _ => None end
  (** StopPushThreaded, which has the mutex of the stream *)
  | LStop => match rs_reader s with RIdle => Some (s <| rs_stop := true |>) | _ => None end
  | LDestroy i =>
    match rs_reader s, pipes s !! i with
    | RIdle, Some p => if rs_stop s then Some (notify_writer i (set_pipe i (Destroy p) s)) else None
    | _, _ => None
    end
  end.

Definition step (s s' : ReadStream) : Prop := ∃ l, do_step l s = Some s'.

Inductive reachable : ReadStream → Prop :=
  | reach_init : reachable Init
  | reach_step s s' : reachable s → step s s' → reachable s'.

Fixpoint run_labels (ls : list label) (s : ReadStream) : option ReadStream :=
  match ls with [] => Some s | l :: ls' => s' ← do_step l s; run_labels ls' s' end.

(** ** Invariant *)
Context (cap_pos : 0 < pipeCap) (blocks_pos : 0 < fileBlocks) (file_small : Z.of_nat (length file) < 2 ^ 63).
Local Abbreviation N := pipeNum.
Local Abbreviation len := (Z.of_nat (length file)).

Definition block (b : Z) : list Z := file_read file (b * pipeCap) pipeCap.

(** Nothing has gone wrong: every read succeeded and nobody stopped the stream. *)
Definition fine (s : ReadStream) : Prop := failed s = false ∧ rs_stop s = false.

Definition dead (p : Pipe) : Prop := p_capacity p = 0 ∧ p_size p = 0 ∧ p_index p = 0 ∧ p_stop p = true.

(** The reader has had everything that was put into the pipe. *)
Definition drained (c : Z) (p : Pipe) : Prop :=
  p_index p = p_size p ∧ 0 < p_size p ∧ c ≤ p_next p < c + N.

(** A block, or an error, waits to be read. *)
Definition filled (c : Z) (fl : bool) (p : Pipe) : Prop :=
  (0 ≤ p_index p < p_size p ∨ p_index p = 0 ∧ p_size p ≤ 0) ∧ c ≤ p_next p - N < c + N ∧ (p_next p - N = c ∨ p_index p = 0) ∧
  (p_size p < 0 ∧ fl = true ∨ p_mem p = block (p_next p - N) ∧ p_size p = Z.of_nat (length (p_mem p))).

(** What the thread of a live pipe knows; [ok]: nothing has gone wrong. *)
Definition pusher_ok (ok : Prop) (p : Pipe) (q : pusher) : Prop :=
  match q with
  | PLoop off | PWait off | PAsleep off => off = p_next p * pipeCap ∧ p_size p = pipeCap ∧ p_stop p = false
  | PTest off ret => off = (p_next p - N) * pipeCap ∧ ret = p_size p ∧ p_stop p = false
  | PExit => p_stop p = false ∧ (ok → len ≤ p_next p * pipeCap)
  | PNotify | PDone => p_stop p = true ∧ (ok → len ≤ p_next p * pipeCap)
  end.

(** A pipe with its thread; [done]: the reader has the whole file. *)
Definition pipe_ok (ok done : Prop) (c : Z) (fl : bool) (i : nat) (p : Pipe) (q : pusher) : Prop :=
  p_next p mod N = Z.of_nat i ∧
  (p_capacity p = pipeCap ∧ (drained c p ∨ filled c fl p) ∧ pusher_ok ok p q ∧
     (p_size p ≠ pipeCap → fl = false → len < (p_next p - N + 1) * pipeCap) ∨
   dead p ∧ (ok → (done ∨ len ≤ p_next p * pipeCap ∧ c ≤ p_next p < c + N) ∧ ∀ off ret, q = PTest off ret → ret = 0)).

(** How much of the block it is reading the reader has had. *)
Definition had (p : Pipe) : Z := if decide (p_index p < p_size p) then p_index p else 0.

Definition position (s : ReadStream) : Z :=
  match pipes s !! Z.to_nat (pipeIndex s) with Some p => had p | None => 0 end.

Definition reader_ok (s : ReadStream) : Prop :=
  match rs_reader s with
  | RIdle => True
  | RLoop want got => Z.of_nat (length got) ≤ want
  | RWait want got | RBlock want got | RAsleep want got => Z.of_nat (length got) < want ∧ rs_stop s = false
  end.

(** The block at [stopOffset] is the last one, and it has been fetched. *)
Definition stop_ok (so : Z) (ps : list Pipe) : Prop :=
  so = UINT64_MAX ∨
  ∃ t, so = t * pipeCap ∧ len < (t + 1) * pipeCap ∧
    ∀ i p, ps !! i = Some p → p_next p mod N = t mod N → t < p_next p.

Record inv (s : ReadStream) : Prop := {
  n_pipes : length (pipes s) = Z.to_nat N ∧ length (pushers s) = Z.to_nat N;
  n_index : pipeIndex s = current s mod N ∧ 0 ≤ current s;
  n_pipe i p q : pipes s !! i = Some p → pushers s !! i = Some q →
    pipe_ok (fine s) (consumed s = file) (current s) (failed s) i p q;
  n_stop : fine s → stop_ok (stopOffset s) (pipes s);
  n_consumed : rs_stop s = false → consumed s = take (Z.to_nat (current s * pipeCap + position s)) file;
  n_prefix : consumed s `prefix_of` file;
  n_reader : reader_ok s;
  n_ended : ended s = true → fine s → consumed s = file }.

Lemma N_pos : 1 ≤ N ≤ 3.
Proof. unfold pipeNum, QUEUE_SIZE. lia. Qed.

Lemma mod_same a b : a mod N = b mod N → b ≤ a < b + N → a = b.
Proof.
  intros Hm Hr. pose proof N_pos. pose proof (Z.div_mod a N ltac:(lia)). pose proof (Z.div_mod b N ltac:(lia)).
  assert (a / N = b / N); [nia|congruence].
Qed.

Lemma mod_shift a : (a + N) mod N = a mod N.
Proof. rewrite <- (Z_mod_plus_full a 1 N). f_equal. lia. Qed.

Lemma length_block b : 0 ≤ b → Z.of_nat (length (block b)) = Z.min pipeCap (Z.max 0 (len - b * pipeCap)).
Proof. intros Hb. unfold block, file_read. rewrite length_take, length_drop. lia. Qed.

(** Reading on in a block. *)
Lemma take_block b j k : 0 ≤ b → 0 ≤ j → 0 ≤ k → j + k ≤ pipeCap →
  take (Z.to_nat (b * pipeCap + j)) file ++ file_read (block b) j k = take (Z.to_nat (b * pipeCap + (j + k))) file.
Proof.
  intros Hb Hj Hk Hl. unfold block, file_read.
  rewrite skipn_firstn_comm, take_take, drop_drop, Nat.min_l by lia.
  replace (Z.to_nat (b * pipeCap) + Z.to_nat j)%nat with (Z.to_nat (b * pipeCap + j)) by lia.
  rewrite take_take_drop. f_equal. lia.
Qed.

Lemma pipe_ok_mono ok ok' done done' c fl fl' i p q : (ok' → ok) → (done → done') → (fl = true → fl' = true) →
  pipe_ok ok done c fl i p q → pipe_ok ok' done' c fl' i p q.
Proof.
  intros Hok Hdone Hfl (Hi & [(Hc & Hd & Hq & Hl)|[Hd Hl]]); (split; [done|]).
  - left. split_and!; [done| | |intros ? ->; apply Hl; [done|destruct fl; [by discriminate Hfl|done]]].
    + destruct Hd as [?|(?&?&?&H)]; [by left|right; split; [done|split; [done|split; [done|]]]]. destruct H as [[??]|?]; [left; auto|by right].
    + destruct q; naive_solver.
  - right. split; [done|]. intros H. destruct (Hl (Hok H)) as [[?|?] ?]; split; auto.
Qed.

(** A change of the reader. *)
Lemma inv_reader s r : inv s → reader_ok (s <| rs_reader := r |>) → inv (s <| rs_reader := r |>).
Proof. intros [] ?. by split. Qed.

Lemma inv_notify i s : inv s → inv (notify i s).
Proof.
  intros Hs. unfold notify. destruct (rs_reader s) eqn:Hr; try done. case_decide; [|done].
  apply inv_reader; [done|]. pose proof (n_reader _ Hs) as H'. unfold reader_ok in *. by rewrite Hr in H'.
Qed.

(** A change of a pipe and of its thread. *)
Lemma inv_pipe s i p q p' q' fl so : inv s → pipes s !! i = Some p → pushers s !! i = Some q →
  (failed s = true → fl = true) →
  had p' = had p →
  (fl = false → rs_stop s = false → stop_ok so (<[i := p']> (pipes s))) →
  pipe_ok (fl = false ∧ rs_stop s = false) (consumed s = file) (current s) fl i p' q' →
  inv (s <| pipes ::= <[i := p']> |> <| pushers ::= <[i := q']> |> <| failed := fl |> <| stopOffset := so |>).
Proof.
  intros Hs Hp Hq Hfl Hh Hso Hok. destruct (n_pipes _ Hs) as [Hn1 Hn2].
  assert (fl = false ∧ rs_stop s = false → fine s) as Hf.
  { intros [-> ?]. split; [|done]. destruct (failed s); [by discriminate Hfl|done]. }
  split; simpl; try apply Hs.
  - by rewrite !length_insert.
  - intros j pj qj. simpl. destruct (decide (j = i)) as [->|Hj].
    + rewrite !list_lookup_insert_eq by (by eapply lookup_lt_Some). intros [= <-] [= <-]. done.
    + rewrite !list_lookup_insert_ne by done. intros Hpj Hqj. eapply pipe_ok_mono; [exact Hf|exact id|exact Hfl|].
      by apply (n_pipe _ Hs).
  - intros [??]. by apply Hso.
  - intros Hst. rewrite (n_consumed _ Hs Hst). do 3 f_equal. unfold position. simpl.
    destruct (decide (Z.to_nat (pipeIndex s) = i)) as [->|Hj].
    + rewrite list_lookup_insert_eq by (by eapply lookup_lt_Some). by rewrite Hp, Hh.
    + by rewrite list_lookup_insert_ne.
  - intros He Hf'. apply (n_ended _ Hs He), Hf, Hf'.
Qed.

Lemma stop_ok_insert so ps i p p' : ps !! i = Some p → p_next p' mod N = p_next p mod N → p_next p ≤ p_next p' →
  stop_ok so ps → stop_ok so (<[i := p']> ps).
Proof.
  intros Hp Hm Hle [->|(t & -> & Hl & Ht)]; [by left|right]. exists t. split_and!; [done|done|].
  intros j pj. destruct (decide (j = i)) as [->|Hj].
  - rewrite list_lookup_insert_eq by (by eapply lookup_lt_Some). intros [= <-] Hpm. rewrite Hm in Hpm. specialize (Ht _ _ Hp Hpm). lia.
  - rewrite list_lookup_insert_ne by done. apply Ht.
Qed.

Lemma inv_pusher s i p q q' so : inv s → pipes s !! i = Some p → pushers s !! i = Some q →
  (fine s → stop_ok so (pipes s)) →
  pipe_ok (fine s) (consumed s = file) (current s) (failed s) i p q' →
  inv ((set_pusher i q' s) <| stopOffset := so |>).
Proof.
  intros Hs Hp Hq Hso Hok. pose proof (inv_pipe s i p q p q' (failed s) so Hs Hp Hq id eq_refl) as H'.
  rewrite list_insert_id in H' by done. specialize (H' (λ a b, Hso (conj a b)) Hok).
  destruct s; unfold set_pusher, set_field in *; simpl in *. by rewrite list_insert_id in H'.
Qed.

Lemma inv_pusher' s i p q q' : inv s → pipes s !! i = Some p → pushers s !! i = Some q →
  pipe_ok (fine s) (consumed s = file) (current s) (failed s) i p q' → inv (set_pusher i q' s).
Proof. intros Hs Hp Hq Hok. eapply (inv_pusher s i p q q' (stopOffset s)) in Hok; [by destruct s|done..|apply (n_stop _ Hs)]. Qed.

Lemma pusher_pipe s i q : inv s → pushers s !! i = Some q →
  ∃ p, pipes s !! i = Some p ∧ pipe_ok (fine s) (consumed s = file) (current s) (failed s) i p q.
Proof.
  intros Hs Hq. destruct (pipes s !! i) as [p|] eqn:Hp; [exists p; split; [done|by apply (n_pipe _ Hs)]|].
  apply lookup_ge_None in Hp. apply lookup_lt_Some in Hq. destruct (n_pipes _ Hs). lia.
Qed.

(** ** The filling threads *)
Lemma inv_test i off s : inv s → pushers s !! i = Some (PLoop off) →
  inv (set_pusher i (if rs_stop s || bool_decide (off >= stopOffset s) then PExit else PWait off) s).
Proof.
  intros Hs Hq. destruct (pusher_pipe _ _ _ Hs Hq) as (p & Hp & Hok).
  eapply inv_pusher'; [done|done|done|]. pose proof N_pos.
  destruct Hok as (Hi & [(Hc & Hd & (Hoff & Hsz & Hst) & Hl)|[Hd Hl]]); (split; [done|]).
  - left. split_and!; [done|done| |done].
    destruct (rs_stop s) eqn:Hstop; [split; [done|by intros []; congruence]|]. cbn [orb]. case_bool_decide as Ho; [|done].
    split; [done|]. intros Hf. destruct (n_stop _ Hs Hf) as [He|(t & He & Hlt & Ht)].
    + rewrite He, Hoff in Ho. unfold UINT64_MAX in Ho. lia.
    + rewrite He, Hoff in Ho. destruct (decide (p_next p = t)) as [Heq|]; [|nia].
      specialize (Ht _ _ Hp ltac:(by rewrite Heq)). lia.
  - right. split; [done|]. intros Hf. destruct (Hl Hf) as [? ?]. split; [done|]. intros ? ?. by case_match.
Qed.

(** A block, or an error, is put into an empty pipe. *)
Lemma pushed_ok ok done c fl i p off err ret p' : 0 ≤ c →
  pipe_ok ok done c fl i p (PWait off) → can_push p = true → p_stop p = false →
  match err with Some e => e < 0 | None => True end →
  Pipe_Push N (fetch off err) p = (ret, p') →
  let fl' := fl || match err with Some _ => true | None => false end in
  had p' = had p ∧ p_next p' = p_next p + N ∧ pipe_ok (fl' = false ∧ ok) done c fl' i p' (PTest off ret).
Proof.
  intros Hc (Hi & H) Hcan Hst He Hpush fl'. pose proof N_pos.
  destruct H as [(Hcap & Hd & (Hoff & Hsz & _) & _)|[[? [? [? ?]]] ?]]; [|congruence].
  unfold can_push in Hcan. rewrite Hst, orb_false_r in Hcan. apply bool_decide_eq_true in Hcan.
  destruct Hd as [(_ & _ & Hn)|([?|[??]] & _)]; [|lia|lia].
  assert ((p_next p + N) mod N = Z.of_nat i) as Hm by (by rewrite mod_shift).
  assert (had p = 0) as -> by (unfold had; case_decide; lia).
  destruct err as [e|]; simpl in Hpush; injection Hpush as <- <-.
  - split_and!; [unfold had; simpl; by case_decide|done|split; [done|left]]. split_and!; [done| |simpl; split_and!; [lia|done|done]|].
    + right. unfold filled; simpl. split; [right; lia|split; [lia|split; [by right|left]]]. split; [done|apply orb_true_r].
    + simpl. unfold fl'. rewrite orb_true_r. done.
  - assert (file_read file off pipeCap = block (p_next p)) as -> by (by rewrite Hoff).
    pose proof (length_block (p_next p) ltac:(lia)) as Hlen.
    split_and!; [unfold had; simpl; by case_decide|done|split; [done|left]]. split_and!; [done| |simpl; split_and!; [lia|done|done]|].
    + right. unfold filled; simpl. split; [lia|split; [lia|split; [by right|right]]]. split; [f_equal; lia|done].
    + simpl. intros Hne _. lia.
Qed.

(** Sleeping and waking up change nothing else. *)
Lemma pipe_ok_sleep ok done c fl i p off :
  pipe_ok ok done c fl i p (PWait off) ↔ pipe_ok ok done c fl i p (PAsleep off).
Proof.
  split; intros (Hi & [Hl|[Hd Hl]]); (split; [done|]); [by left|right|by left|right];
    (split; [done|]; intros Ho; split; [by apply Hl|done]).
Qed.

Lemma notify_writer_eq i s :
  notify_writer i s = match pushers s !! i with Some (PAsleep off) => set_pusher i (PWait off) s | _ => s end.
Proof.
  destruct s; unfold notify_writer, wake_pusher, set_pusher, set_field; simpl.
  by destruct (_ !! i) as [[]|] eqn:Hq; simpl; rewrite ?Hq.
Qed.

Lemma inv_notify_writer i s : inv s → inv (notify_writer i s).
Proof.
  intros Hs. rewrite notify_writer_eq. destruct (pushers s !! i) as [[]|] eqn:Hq; try done.
  destruct (pusher_pipe _ _ _ Hs Hq) as (p & Hp & Hok). eapply inv_pusher'; [done|done|done|]. by apply pipe_ok_sleep.
Qed.

Lemma inv_push i off err p s s' : inv s → pushers s !! i = Some (PWait off) → pipes s !! i = Some p →
  do_step (LPush i err) s = Some s' → inv s'.
Proof.
  intros Hs Hq Hp. simpl. rewrite Hq, Hp. destruct (unlocked i s && _) eqn:Hg; [|done]. cbn [negb].
  apply andb_true_iff in Hg as [_ He]. pose proof (n_pipe _ Hs _ _ _ Hp Hq) as Hok.
  destruct (can_push p) eqn:Hcan; cbn [negb].
  2: { intros [= <-]. eapply inv_pusher'; [done|done|done|]. by eapply pipe_ok_sleep. }
  destruct (p_stop p) eqn:Hst.
  - intros [= <-]. apply inv_notify.
    eapply inv_pusher'; [done|done|done|].
    destruct Hok as (Hi & [(_ & _ & (_ & _ & ?) & _)|[Hd Hl]]); [congruence|]. split; [done|right]. split; [done|].
    intros Hf. split; [by apply Hl|]. by intros ? ? [= _ <-].
  - destruct (Pipe_Push N (fetch off err) p) as [ret p'] eqn:Hpush. intros [= <-]. apply inv_notify.
    destruct (pushed_ok _ _ _ _ _ _ _ err ret p' (proj2 (n_index _ Hs)) Hok Hcan Hst) as (Hh & Hn & Hok'); [|done|].
    { destruct err; [by apply bool_decide_eq_true in He|done]. }
    pose proof N_pos.
    eapply (inv_pipe s i p _ p' (PTest off ret) (failed s || match err with Some _ => true | None => false end) (stopOffset s)) in Hs as Hs'; [| | |by intros ->|exact Hh| |].
    + destruct s; exact Hs'.
    + done.
    + exact Hq.
    + intros [Hf ?]%orb_false_iff Hst'. eapply stop_ok_insert; [done| |lia|apply (n_stop _ Hs); done].
      by rewrite Hn, mod_shift.
    + eapply pipe_ok_mono; [|exact id|done|exact Hok'].
      intros [Hf ?]. split; [done|]. apply orb_false_iff in Hf as [? ?]. done.
Qed.

Lemma inv_compare i off ret p s : inv s → pushers s !! i = Some (PTest off ret) → pipes s !! i = Some p →
  inv (if decide (ret ≠ p_capacity p) then (set_pusher i PExit s) <| stopOffset := off |>
       else set_pusher i (PLoop (off + N * pipeCap)) s).
Proof.
  intros Hs Hq Hp. pose proof (n_pipe _ Hs _ _ _ Hp Hq) as (Hi & Hok). pose proof N_pos. case_decide as Hr.
  - eapply inv_pusher; [done|done|done| |split; [done|]].
    + intros [Hf Hst]. destruct Hok as [(Hcap & Hd & (Hoff & Hret & _) & Hl)|[(Hcap & _) Hl]].
      * right. exists (p_next p - N). split_and!; [done|apply Hl; congruence|].
        intros j pj Hpj Hm. replace (p_next p - N) with (p_next p + -1 * N) in Hm by lia. rewrite Z_mod_plus_full, Hi in Hm.
        destruct (lookup_lt_is_Some_2 (pushers s) j) as [qj Hqj].
        { destruct (n_pipes _ Hs). apply lookup_lt_Some in Hpj. lia. }
        destruct (n_pipe _ Hs _ _ _ Hpj Hqj) as [Hij _]. assert (j = i) as -> by lia. simplify_eq. lia.
      * destruct (Hl (conj Hf Hst)) as [_ Hz]. specialize (Hz off ret eq_refl). congruence.
    + destruct Hok as [(Hcap & Hd & (Hoff & Hret & Hst) & Hl)|[Hd Hl]].
      * left. split_and!; [done|done| |done]. split; [done|]. intros [Hf _]. specialize (Hl ltac:(congruence) Hf). nia.
      * right. split; [done|]. intros Hf. split; [by apply Hl|done].
  - eapply inv_pusher'; [done|done|done|split; [done|]].
    destruct Hok as [(Hcap & Hd & (Hoff & Hret & Hst) & Hl)|[Hd Hl]].
    + left. split_and!; [done|done| |done]. simpl. split_and!; [lia|congruence|done].
    + right. split; [done|]. intros Hf. split; [by apply Hl|done].
Qed.

Lemma inv_stop_pipe i p s : inv s → pushers s !! i = Some PExit → pipes s !! i = Some p →
  inv (set_pusher i PNotify (set_pipe i (p <| p_stop := true |>) s)).
Proof.
  intros Hs Hq Hp. pose proof (n_pipe _ Hs _ _ _ Hp Hq) as (Hi & Hok).
  eapply (inv_pipe s i p _ (p <| p_stop := true |>) PNotify (failed s) (stopOffset s)) in Hs as Hs'; [|done|exact Hq|done|done| |].
  - destruct s; exact Hs'.
  - intros ? ?. eapply stop_ok_insert; [done|done|simpl; lia|by apply (n_stop _ Hs)].
  - split; [done|]. destruct Hok as [(Hcap & Hd & (_ & Hl') & Hl)|[Hd Hl]]; [left|right; split; [|by intros Hf; split; [apply Hl, Hf|]]].
    + split_and!; [done|exact Hd|done|exact Hl].
    + destruct Hd as (?&?&?&?). done.
Qed.

Lemma inv_end_thread i s : inv s → pushers s !! i = Some PNotify → inv (set_pusher i PDone s).
Proof.
  intros Hs Hq. destruct (pusher_pipe _ _ _ Hs Hq) as (p & Hp & Hi & Hok).
  eapply inv_pusher'; [done|done|done|split; [done|]].
  destruct Hok as [?|[Hd Hl]]; [by left|right]. split; [done|]. intros Hf. split; [by apply Hl|done].
Qed.

(** ** The reader *)
Definition taken (i : nat) (p' : Pipe) (cs : list Z) (c : Z) (r : reader) (e : bool) (s : ReadStream) : ReadStream :=
  s <| pipes ::= <[i := p']> |> <| consumed := cs |> <| pipeIndex := c mod N |> <| current := c |>
    <| rs_reader := r |> <| ended := e |>.

Lemma inv_taken i p q p' cs c r e s : inv s → pipes s !! i = Some p → pushers s !! i = Some q →
  p_next p' = p_next p → 0 ≤ c →
  (∀ j pj qj, j ≠ i → pipes s !! j = Some pj → pushers s !! j = Some qj →
     pipe_ok (fine s) (cs = file) c (failed s) j pj qj) →
  pipe_ok (fine s) (cs = file) c (failed s) i p' q →
  cs = take (Z.to_nat (c * pipeCap + position (taken i p' cs c r e s))) file →
  reader_ok (taken i p' cs c r e s) → (e = true → fine s → cs = file) →
  inv (taken i p' cs c r e s).
Proof.
  intros Hs Hp Hq Hn Hc Hother Hok Hcs Hr He. destruct (n_pipes _ Hs) as [Hn1 Hn2].
  split; simpl; try done.
  - by rewrite length_insert.
  - intros j pj qj. simpl. destruct (decide (j = i)) as [->|Hj].
    + rewrite list_lookup_insert_eq by (by eapply lookup_lt_Some). intros [= <-] Hqj. by simplify_eq.
    + rewrite list_lookup_insert_ne by done. by apply Hother.
  - intros Hf. eapply stop_ok_insert; [done|by rewrite Hn|lia|by apply (n_stop _ Hs)].
  - rewrite Hcs. apply prefix_take.
Qed.

(** The pipe the reader is at has nothing: the reader has the whole file. *)
Lemma pop_nothing ok cs c fl p q : 0 ≤ c →
  pipe_ok ok (cs = file) c fl (Z.to_nat (c mod N)) p q → cs = take (Z.to_nat (c * pipeCap + had p)) file →
  p_size p ≤ 0 ∨ p_index p = p_size p ∧ p_stop p = true →
  had p = 0 ∧ (ok → fl = false → cs = file ∧ ∀ off ret, q = PTest off ret → ret = 0).
Proof.
  intros Hc [Hi Hok] Hcs Hend. pose proof N_pos. pose proof (Z.mod_pos_bound c N ltac:(lia)). rewrite Z2Nat.id in Hi by lia.
  assert (had p = 0) as Hh.
  { unfold had. case_decide; [|done]. destruct Hok as [(_ & [Hd|Hd] & _)|[Hd _]]; unfold drained, filled, dead in *; lia. }
  split; [done|]. rewrite Hh, Z.add_0_r in Hcs. intros Ho Hfl.
  assert (len ≤ c * pipeCap → cs = file) as Hall by (intros; rewrite Hcs; apply take_ge; lia).
  destruct Hok as [(_ & [(? & ? & Hr)|(? & Hr & _ & Hm)] & Hq & _)|[Hd Hl]].
  - assert (p_stop p = true) as Hst by (destruct Hend as [?|[??]]; [lia|done]). pose proof (mod_same _ _ Hi Hr) as He.
    destruct q; simpl in Hq; rewrite ?Hst in Hq; try (exfalso; destruct_and?; congruence); (split; [|done]); apply Hall; rewrite <- He; by apply Hq.
  - assert (p_next p - N = c) as He.
    { apply mod_same; [|lia]. rewrite <- mod_shift. by replace (p_next p - N + N) with (p_next p) by lia. }
    destruct Hm as [[_ ?]|[Hm Hsz]]; [congruence|].
    rewrite Hm, He, length_block in Hsz by done. split; [apply Hall; lia|].
    intros off ret ->. destruct Hq as (_ & -> & _). lia.
  - destruct (Hl Ho) as [[?|[Hle Hr]] ?]; [done|]. split; [|done]. apply Hall. by rewrite <- (mod_same _ _ Hi Hr).
Qed.

Lemma inv_pop_nothing p q r e s : inv s → rs_stop s = false →
  pipes s !! Z.to_nat (pipeIndex s) = Some p → pushers s !! Z.to_nat (pipeIndex s) = Some q →
  p_size p ≤ 0 ∨ p_index p = p_size p ∧ p_stop p = true → reader_ok (s <| rs_reader := r |>) →
  inv (taken (Z.to_nat (pipeIndex s)) (Destroy p) (consumed s) (current s) r e s).
Proof.
  intros Hs Hst Hp Hq Hend Hr. pose proof (n_pipe _ Hs _ _ _ Hp Hq) as Hok. destruct (n_index _ Hs) as [Hi Hc].
  pose proof (n_consumed _ Hs Hst) as Hcs. unfold position in Hcs. rewrite Hp in Hcs. rewrite Hi in Hok.
  destruct (pop_nothing _ _ _ _ _ _ Hc Hok Hcs Hend) as [Hh Hall].
  eapply inv_taken; [done..| | | | |].
  - intros. by apply (n_pipe _ Hs).
  - rewrite Hi. split; [apply Hok|right]. split; [done|]. intros [??]. destruct Hall as [??]; [done|done|]. split; [by left|done].
  - unfold position, taken. simpl. rewrite <- Hi. rewrite list_lookup_insert_eq by (by eapply lookup_lt_Some).
    change (had (Destroy p)) with 0. by rewrite Hh in Hcs.
  - exact Hr.
  - intros _ [??]. by apply Hall.
Qed.

(** The reader takes [k] bytes of the block it is at. *)
Lemma some_block ok cs c fl i p q : 0 ≤ c → pipe_ok ok cs c fl i p q → Z.of_nat i = c mod N → 0 ≤ p_index p < p_size p →
  p_capacity p = pipeCap ∧ p_next p = c + N ∧ p_mem p = block c ∧ p_size p = Z.of_nat (length (block c)) ∧ pusher_ok ok p q ∧
  (p_size p ≠ pipeCap → fl = false → len < (c + 1) * pipeCap) ∧ p_size p ≤ pipeCap ∧ p_next p mod N = Z.of_nat i.
Proof.
  intros Hc [Hi Hok] Hci Hidx. pose proof N_pos.
  destruct Hok as [(Hcap & [Hd|(_ & Hr & _ & Hm)] & Hq & Hl)|[Hd _]]; [unfold drained in Hd; lia| |unfold dead in Hd; lia].
  assert (p_next p - N = c) as He.
  { apply mod_same; [|lia]. rewrite <- mod_shift, <- Hci, <- Hi. by replace (p_next p - N + N) with (p_next p) by lia. }
  destruct Hm as [[? _]|[Hm Hsz]]; [lia|]. rewrite He in *. rewrite Hm in Hsz.
  pose proof (length_block c Hc). split_and!; try done; lia.
Qed.

(** The other pipes, when the reader goes on to the next one. *)
Lemma pipe_ok_advance ok done done' c fl i p q : 0 ≤ c → (done → done') → Z.of_nat i ≠ c mod N →
  pipe_ok ok done c fl i p q → pipe_ok ok done' (c + 1) fl i p q ∧ ((c + 1) mod N = Z.of_nat i → had p = 0).
Proof.
  intros Hc Hdone Hne [Hi Hok]. pose proof N_pos.
  assert (p_next p ≠ c ∧ p_next p - N ≠ c) as [Hn1 Hn2].
  { split; intros He; apply Hne; rewrite <- Hi, <- He; [done|].
    rewrite <- (mod_shift (p_next p - N)). f_equal. lia. }
  split.
  - split; [done|]. destruct Hok as [(Hcap & Hd & Hq & Hl)|[Hd Hl]]; [left; split_and!; try done|right; split; [done|]].
    + destruct Hd as [(?&?&?)|(?&?&[?|?]&?)]; [left; split_and!; lia|lia|right]. split; [done|split; [lia|split; [by right|done]]].
    + intros Ho. destruct (Hl Ho) as [[?|?] ?]; (split; [|done]); [left; auto|right; lia].
  - intros _. unfold had. case_decide; [|done].
    destruct Hok as [(_ & [Hd|(_ & _ & [?|?] & _)] & _)|[Hd _]]; [unfold drained in Hd; lia|done|done|unfold dead in Hd; lia].
Qed.

Lemma done_grows cs bytes n : cs ++ bytes = take n file → cs = file → cs ++ bytes = file.
Proof.
  intros H ->. rewrite H. apply take_ge. apply (f_equal length) in H. rewrite length_app, length_take in H. lia.
Qed.

Lemma pusher_ok_pipe ok p p' q : p_next p' = p_next p → p_size p' = p_size p → p_stop p' = p_stop p →
  pusher_ok ok p q → pusher_ok ok p' q.
Proof. intros Hn Hs Hst. destruct q; simpl; by rewrite ?Hn, ?Hs, ?Hst. Qed.

Lemma inv_pop_part p q k r s : inv s → rs_stop s = false →
  pipes s !! Z.to_nat (pipeIndex s) = Some p → pushers s !! Z.to_nat (pipeIndex s) = Some q →
  0 ≤ p_index p → 0 ≤ k → p_index p + k < p_size p → reader_ok (s <| rs_reader := r |>) →
  inv (taken (Z.to_nat (pipeIndex s)) (p <| p_index := p_index p + k |>)
         (consumed s ++ file_read (p_mem p) (p_index p) k) (current s) r (ended s) s).
Proof.
  intros Hs Hst Hp Hq H0 Hk Hlt Hr. pose proof (n_pipe _ Hs _ _ _ Hp Hq) as Hok. destruct (n_index _ Hs) as [Hi Hc].
  pose proof (n_consumed _ Hs Hst) as Hcs. unfold position in Hcs. rewrite Hp in Hcs. pose proof N_pos.
  pose proof (Z.mod_pos_bound (current s) N ltac:(lia)).
  destruct (some_block _ _ _ _ _ _ _ Hc Hok) as (Hcap & Hn & Hm & Hsz & Hqok & Hl & Hle & Hmod); [lia|lia|].
  assert (had p = p_index p) as Hh by (unfold had; case_decide; [done|lia]). rewrite Hh in Hcs.
  assert (consumed s ++ file_read (p_mem p) (p_index p) k = take (Z.to_nat (current s * pipeCap + (p_index p + k))) file) as Hnew.
  { rewrite Hcs, Hm. apply take_block; lia. }
  pose proof (done_grows _ _ _ Hnew) as Hdone.
  eapply inv_taken; [done..| | | | |].
  - intros. eapply pipe_ok_mono; [exact id|exact Hdone|exact id|by apply (n_pipe _ Hs)].
  - split; [done|left]. split_and!; [done| |by eapply pusher_ok_pipe|simpl; rewrite Hn; intros ? ?].
    + right. unfold filled. simpl. split; [lia|split; [lia|split; [left; lia|right]]].
      rewrite Hm at 1. split; [f_equal; lia|by rewrite Hm].
    + replace (current s + N - N) with (current s) by lia. by apply Hl.
  - rewrite Hnew at 1. do 3 f_equal. unfold position, taken. simpl. rewrite <- Hi, list_lookup_insert_eq by (by eapply lookup_lt_Some).
    unfold had. simpl. case_decide; [done|lia].
  - exact Hr.
  - intros He Hf. apply Hdone, (n_ended _ Hs He Hf).
Qed.

Lemma inv_pop_whole p q r s : inv s → rs_stop s = false →
  pipes s !! Z.to_nat (pipeIndex s) = Some p → pushers s !! Z.to_nat (pipeIndex s) = Some q →
  0 ≤ p_index p → p_index p < p_size p → reader_ok (s <| rs_reader := r |>) →
  let p' := p <| p_index := p_size p |> in
  inv (taken (Z.to_nat (pipeIndex s)) (if p_stop p then Destroy p' else p')
         (consumed s ++ file_read (p_mem p) (p_index p) (p_size p - p_index p)) (current s + 1) r (ended s) s).
Proof.
  intros Hs Hst Hp Hq H0 Hlt Hr p'. pose proof (n_pipe _ Hs _ _ _ Hp Hq) as Hok. destruct (n_index _ Hs) as [Hi Hc].
  pose proof (n_consumed _ Hs Hst) as Hcs. unfold position in Hcs. rewrite Hp in Hcs. pose proof N_pos.
  pose proof (Z.mod_pos_bound (current s) N ltac:(lia)).
  destruct (some_block _ _ _ _ _ _ _ Hc Hok) as (Hcap & Hn & Hm & Hsz & Hqok & Hl & Hle & Hmod); [lia|lia|].
  assert (had p = p_index p) as Hh by (unfold had; case_decide; [done|lia]). rewrite Hh in Hcs.
  assert (consumed s ++ file_read (p_mem p) (p_index p) (p_size p - p_index p) = take (Z.to_nat ((current s + 1) * pipeCap)) file) as Hnew.
  { rewrite Hcs, Hm, take_block by lia. pose proof (length_block (current s) Hc).
    destruct (decide (p_size p = pipeCap)) as [He|]; [f_equal; lia|]. rewrite !take_ge; [done|nia|nia]. }
  pose proof (done_grows _ _ _ Hnew) as Hdone.
  assert (had (if p_stop p then Destroy p' else p') = 0) as Hh'.
  { destruct (p_stop p); [done|]. unfold had. simpl. case_decide; [lia|done]. }
  eapply inv_taken; [done..| | | | | | |].
  - by destruct (p_stop p).
  - lia.
  - intros j pj qj Hj Hpj Hqj. eapply pipe_ok_advance; [done|exact Hdone|lia|by apply (n_pipe _ Hs)].
  - destruct (p_stop p) eqn:Hps; (split; [done|]).
    + right. split; [done|]. intros Hf. split.
      * right. simpl. split; [|lia]. destruct q; simpl in Hqok; rewrite ?Hps in Hqok; try (exfalso; destruct_and?; congruence); by apply Hqok.
      * intros off ret ->. destruct Hqok as (_ & _ & ?). congruence.
    + left. split_and!; [done| |by eapply pusher_ok_pipe|simpl; rewrite Hn; intros ? ?].
      * left. unfold drained. simpl. lia.
      * replace (current s + N - N) with (current s) by lia. by apply Hl.
  - rewrite Hnew at 1. do 2 f_equal. rewrite <- (Z.add_0_r (_ * _)) at 1. f_equal. unfold position, taken. simpl.
    pose proof (Z.mod_pos_bound (current s + 1) N ltac:(lia)).
    destruct (decide (Z.to_nat ((current s + 1) mod N) = Z.to_nat (pipeIndex s))) as [->|Hj].
    + rewrite list_lookup_insert_eq by (by eapply lookup_lt_Some). by rewrite Hh'.
    + rewrite list_lookup_insert_ne by done. destruct (pipes s !! Z.to_nat ((current s + 1) mod N)) as [pj|] eqn:Hpj; [|done].
      destruct (lookup_lt_is_Some_2 (pushers s) (Z.to_nat ((current s + 1) mod N))) as [qj Hqj].
      { destruct (n_pipes _ Hs). lia. }
      symmetry. eapply (pipe_ok_advance _ _ _ _ _ _ _ _ Hc id); [|by apply (n_pipe _ Hs)|]; lia.
  - exact Hr.
  - intros He Hf. apply Hdone, (n_ended _ Hs He Hf).
Qed.

(** Pipe::WaitPop of a pipe whose predicate holds: nothing to read, or some bytes of the block. *)
Lemma can_pop_cases ok done c fl i p q : pipe_ok ok done c fl i p q → can_pop p = true →
  (p_size p ≤ 0 ∨ p_index p = p_size p ∧ p_stop p = true) ∨ 0 ≤ p_index p < p_size p.
Proof.
  intros [_ Hok] Hcan. unfold can_pop in Hcan. apply orb_true_iff in Hcan.
  destruct Hok as [(_ & [(?&?&_)|([?|?]&_)] & _)|[(_&?&?&?) _]]; [|lia|lia|lia].
  destruct Hcan as [Hcan|?]; [apply bool_decide_eq_true in Hcan; lia|left; right; done].
Qed.

Lemma read_pop_nothing want got p s : pipeIndex s = current s mod N →
  p_size p ≤ 0 ∨ p_index p = p_size p ∧ p_stop p = true →
  ∃ e, read_pop want got p s = taken (Z.to_nat (pipeIndex s)) (Destroy p) (consumed s) (current s) RIdle e s.
Proof.
  intros Hi Hend.
  assert (∃ cur, Pipe_Pop (want - Z.of_nat (length got)) p = (cur, [], false, Destroy p) ∧ cur ≤ 0) as (cur & Hpop & Hcur).
  { unfold Pipe_Pop. repeat case_decide; try (by eexists; split; [reflexivity|lia]); exfalso; (destruct Hend; [lia|done]). }
  unfold read_pop. rewrite Hpop. unfold taken. destruct s; simpl in *. subst. unfold set_pipe, set_field; simpl. rewrite app_nil_r.
  repeat case_decide; [by eexists..|lia].
Qed.

Lemma read_pop_some want got p s : pipeIndex s = current s mod N → Z.of_nat (length got) < want → 0 ≤ p_index p < p_size p →
  let k := Z.min (want - Z.of_nat (length got)) (p_size p - p_index p) in
  let bytes := file_read (p_mem p) (p_index p) k in
  let r := RLoop want (got ++ bytes) in
  read_pop want got p s =
    if decide (k = p_size p - p_index p) then notify_writer (Z.to_nat (pipeIndex s))
      (taken (Z.to_nat (pipeIndex s)) (if p_stop p then Destroy (p <| p_index := p_size p |>) else p <| p_index := p_size p |>)
        (consumed s ++ bytes) (current s + 1) r (ended s) s)
    else taken (Z.to_nat (pipeIndex s)) (p <| p_index := p_index p + k |>) (consumed s ++ bytes) (current s) r (ended s) s.
Proof.
  intros Hi Hw Hidx k bytes r. unfold read_pop, Pipe_Pop. fold k. fold bytes. pose proof N_pos.
  rewrite (decide_False (P := p_size p < 0)), (decide_False (P := p_size p = 0)), (decide_False (P := p_index p = _ ∧ _)) by lia.
  simpl. destruct (decide (k = p_size p - p_index p)) as [Hk|Hk].
  - rewrite decide_True by lia. rewrite (decide_False (P := k < 0)), (decide_False (P := k = 0)) by lia.
    replace (p_index p + k) with (p_size p) by lia. unfold taken. rewrite <- Z.add_mod_idemp_l, <- Hi by lia. by destruct s.
  - rewrite decide_False by lia. rewrite (decide_False (P := k < 0)), (decide_False (P := k = 0)) by lia.
    unfold taken. rewrite <- Hi. by destruct s.
Qed.

Lemma inv_read_pop want got p s : inv s → rs_reader s = RWait want got → pipes s !! Z.to_nat (pipeIndex s) = Some p →
  can_pop p = true → inv (read_pop want got p s).
Proof.
  intros Hs Hr Hp Hcan. pose proof (n_reader _ Hs) as Hro. unfold reader_ok in Hro. rewrite Hr in Hro. destruct Hro as [Hw Hst].
  destruct (lookup_lt_is_Some_2 (pushers s) (Z.to_nat (pipeIndex s))) as [q Hq].
  { destruct (n_pipes _ Hs). apply lookup_lt_Some in Hp. lia. }
  pose proof (n_pipe _ Hs _ _ _ Hp Hq) as Hok. destruct (n_index _ Hs) as [Hi _].
  destruct (can_pop_cases _ _ _ _ _ _ _ Hok Hcan) as [Hend|Hidx].
  - destruct (read_pop_nothing want got p s Hi Hend) as [e ->]. by eapply inv_pop_nothing.
  - rewrite (read_pop_some want got p s Hi Hw Hidx). cbv zeta. case_decide as Hk.
    + rewrite Hk. apply inv_notify_writer. eapply inv_pop_whole; [done|done|done|done|lia|lia|]. unfold reader_ok. simpl.
      unfold file_read. rewrite length_app, length_take. lia.
    + eapply inv_pop_part; [done|done|done|done|lia|lia|lia|]. unfold reader_ok. simpl.
      unfold file_read. rewrite length_app, length_take. lia.
Qed.

(** ** Reachable states *)
Lemma inv_Init : inv Init.
Proof.
  pose proof N_pos. split; simpl; try done.
  - rewrite !length_fmap, !length_seqZ. done.
  - intros i p q Hp Hq. unfold Init in *. cbn [pipes pushers] in *. rewrite list_lookup_fmap in Hp. rewrite list_lookup_fmap in Hq.
    destruct (seqZ 0 N !! i) as [z|] eqn:Hz; [|done]. apply lookup_seqZ in Hz as [-> Hz]. simplify_eq/=.
    split; [simpl; rewrite Z.mod_small; lia|left]. unfold drained. simpl. split_and!; [done|left; lia|lia|done|done|done].
  - by left.
  - intros _. unfold position. simpl. rewrite list_lookup_fmap, lookup_seqZ_lt by lia. simpl. unfold had. simpl. by case_decide; [lia|].
  - apply prefix_nil.
Qed.

Lemma inv_stop s : inv s → rs_reader s = RIdle → inv (s <| rs_stop := true |>).
Proof.
  intros [] Hr. split; simpl; try done; try (by intros []).
  - intros i p q Hp Hq. eapply pipe_ok_mono; [|exact id|exact id|by apply n_pipe0]. by intros [].
  - unfold reader_ok. simpl. by rewrite Hr.
  - intros _ []. done.
Qed.

Lemma inv_destroy i p s : inv s → rs_reader s = RIdle → rs_stop s = true → pipes s !! i = Some p → inv (set_pipe i (Destroy p) s).
Proof.
  intros Hs Hr Hst Hp. destruct (n_pipes _ Hs) as [Hn1 Hn2]. assert (¬ fine s) as Hf by (intros []; congruence).
  split; simpl; try apply Hs.
  - by rewrite length_insert.
  - intros j pj qj. destruct (decide (j = i)) as [->|Hj].
    + simpl. rewrite list_lookup_insert_eq by (by eapply lookup_lt_Some). intros [= <-] Hq.
      split; [exact (proj1 (n_pipe _ Hs _ _ _ Hp Hq))|right]. by split.
    + simpl. rewrite list_lookup_insert_ne by done. apply (n_pipe _ Hs).
  - intros Hf'. by destruct (Hf Hf').
  - congruence.
Qed.

Lemma inv_do_step l s s' : inv s → do_step l s = Some s' → inv s'.
Proof.
  intros Hs. pose proof (n_reader _ Hs) as Hro. destruct l; simpl.
  - destruct (pushers s !! i) as [[]|] eqn:Hq; try done. intros [= <-]. by apply inv_test.
  - destruct (pushers s !! i) as [[]|] eqn:Hq; try done. destruct (pipes s !! i) eqn:Hp; [|done].
    intros H. eapply inv_push; [done|done|done|]. simpl. rewrite Hq, Hp. exact H.
  - destruct (pushers s !! i) as [[]|] eqn:Hq; try done. destruct (pipes s !! i) as [p|] eqn:Hp; [|done].
    pose proof (inv_compare _ _ _ _ _ Hs Hq Hp). by case_decide; intros [= <-].
  - destruct (pushers s !! i) as [[]|] eqn:Hq; try done. destruct (pipes s !! i) as [p|] eqn:Hp; [|done].
    intros [= <-]. by apply inv_stop_pipe.
  - destruct (pushers s !! i) as [[]|] eqn:Hq; try done. intros [= <-]. by apply inv_notify, inv_end_thread.
  - destruct (pushers s !! i) as [[]|] eqn:Hq; try done. intros [= <-].
    destruct (pusher_pipe _ _ _ Hs Hq) as (p & Hp & Hok). eapply inv_pusher'; [done|done|done|]. by apply pipe_ok_sleep.
  - destruct (rs_reader s) eqn:Hr; try done. case_decide; [|done]. intros [= <-].
    destruct Hs; split; simpl; try done.
  - destruct (rs_reader s) eqn:Hr; try done. intros [= <-]. apply inv_reader; [done|].
    unfold reader_ok in *. rewrite Hr in Hro. simpl. destruct (rs_stop s) eqn:Hst; [done|]. simpl. case_bool_decide; [done|]. split; [lia|done].
  - destruct (rs_reader s) eqn:Hr; try done. destruct (pipes s !! _) as [p|] eqn:Hp; [|done]. intros [= <-].
    destruct (can_pop p) eqn:Hcan; [by apply inv_read_pop|]. apply inv_reader; [done|]. unfold reader_ok in *. by rewrite Hr in Hro.
  - destruct (rs_reader s) eqn:Hr; try done. intros [= <-]. apply inv_reader; [done|]. unfold reader_ok in *. by rewrite Hr in Hro.
  - destruct (rs_reader s) eqn:Hr; try done. intros [= <-]. apply inv_reader; [done|]. unfold reader_ok in *. by rewrite Hr in Hro.
  - destruct (rs_reader s) eqn:Hr; try done. intros [= <-]. by apply inv_stop.
  - destruct (rs_reader s) eqn:Hr; try done. destruct (pipes s !! i) as [p|] eqn:Hp; [|done].
    destruct (rs_stop s) eqn:Hst; [|done]. intros [= <-]. by apply inv_notify_writer, inv_destroy.
Qed.

Lemma reachable_stream_inv s : reachable s → inv s.
Proof. induction 1 as [|s s' _ IH [l Hl]]; [apply inv_Init|by eapply inv_do_step]. Qed.

(** (C4) However the filling threads, the reader and StopPushThreaded interleave,
    and whether or not reads fail, what the reads have returned is always a
    prefix of the file, in order and without a gap; and when a read finds the
    end (returns fewer bytes than asked for) with no read of a block having
    failed and the stream not stopped, the reads have returned the whole file. *)
Theorem read_stream_in_order s : reachable s →
  consumed s `prefix_of` file ∧ (ended s = true → failed s = false → rs_stop s = false → consumed s = file).
Proof.
  intros Hs%reachable_stream_inv. split; [apply (n_prefix _ Hs)|]. intros He Hf Hst. by apply (n_ended _ Hs He).
Qed.

(** *** Sleeping threads

    The thread of a pipe sleeps only while the pipe is full; the reader found
    its pipe empty when it fell asleep, and it is still empty. *)
Record sleepers (s : ReadStream) : Prop := {
  sl_push i off p : pushers s !! i = Some (PAsleep off) → pipes s !! i = Some p → can_push p = false;
  sl_read p : match rs_reader s with RBlock _ _ | RAsleep _ _ => True | _ => False end →
    pipes s !! Z.to_nat (pipeIndex s) = Some p → p_index p = p_size p ∧ 0 < p_size p }.

Lemma lookup_insert_cases {A} (l : list A) i j x y : <[i := x]> l !! j = Some y →
  (j = i ∧ y = x) ∨ (j ≠ i ∧ l !! j = Some y).
Proof.
  intros H. destruct (decide (j = i)) as [->|Hj]; [left|right; by rewrite list_lookup_insert_ne in H].
  split; [done|]. apply list_lookup_insert_Some in H as [(_ & ? & _)|(? & _)]; done.
Qed.

(** A thread that does not fall asleep. *)
Lemma sleepers_pusher i q s : sleepers s → (∀ off, q ≠ PAsleep off) → sleepers (set_pusher i q s).
Proof.
  intros [Hp Hr] Hq. split; [|exact Hr]. intros j off p. simpl. intros [[-> H]|[_ H]]%lookup_insert_cases; [by destruct (Hq off)|].
  by eapply Hp.
Qed.

(** A thread that is not asleep and changes its pipe, at which the reader does not sleep. *)
Lemma sleepers_pipe i q p' s : sleepers s → (∀ off, q ≠ PAsleep off) → pushers s !! i = Some q →
  match rs_reader s with RBlock _ _ | RAsleep _ _ => Z.to_nat (pipeIndex s) ≠ i | _ => True end → sleepers (set_pipe i p' s).
Proof.
  intros [Hp Hr] Hq Hi Hn. split; simpl.
  - intros j off p Hj [[-> ->]|[_ H]]%lookup_insert_cases; [|by eapply Hp]. rewrite Hj in Hi. by destruct (Hq off); congruence.
  - intros p Hs [[He _]|[_ H]]%lookup_insert_cases; [|by apply Hr]. by destruct (rs_reader s).
Qed.

Lemma sleepers_notify_writer i s : sleepers s → sleepers (notify_writer i s).
Proof.
  intros Hs. rewrite notify_writer_eq. destruct (pushers s !! i) as [[]|]; try done. by apply sleepers_pusher.
Qed.

Lemma sleepers_same s s' : pipes s' = pipes s → pushers s' = pushers s →
  match rs_reader s' with RBlock _ _ | RAsleep _ _ => rs_reader s' = rs_reader s ∧ pipeIndex s' = pipeIndex s | _ => True end →
  sleepers s → sleepers s'.
Proof.
  intros H1 H2 Hr [Hp Hs]. split; rewrite H1, ?H2; [done|]. intros p Ha. destruct (rs_reader s') eqn:E; try done; destruct Hr as [Hr ->];
    apply Hs; by rewrite <-Hr.
Qed.
(** What the reader takes: the thread of the pipe is woken when there is room. *)
Lemma sleepers_pop want got p s : inv s → sleepers s → rs_reader s = RWait want got →
  pipes s !! Z.to_nat (pipeIndex s) = Some p → can_pop p = true → sleepers (read_pop want got p s).
Proof.
  intros Hs Hsl Hr Hp Hcan. pose proof (n_reader _ Hs) as Hro. unfold reader_ok in Hro. rewrite Hr in Hro. destruct Hro as [Hw _].
  set (i := Z.to_nat (pipeIndex s)) in *. destruct (n_index _ Hs) as [Hi _].
  destruct (lookup_lt_is_Some_2 (pushers s) i) as [q Hq]; [destruct (n_pipes _ Hs); apply lookup_lt_Some in Hp; lia|].
  pose proof (n_pipe _ Hs _ _ _ Hp Hq) as Hok.
  assert (∀ off, q = PAsleep off → p_index p ≠ p_size p ∧ 0 < p_size p ∧ p_stop p = false) as Hasleep.
  { intros off ->. pose proof (sl_push _ Hsl _ _ _ Hq Hp) as Hc. unfold can_push in Hc. apply orb_false_iff in Hc as [Hc Hst].
    apply bool_decide_eq_false in Hc. destruct Hok as [_ [(_ & _ & (_ & Hsz & _) & _)|[(_ & ? & ? & ?) _]]]; [split_and!; [done|lia|done]|congruence]. }
  assert (∀ p' cs c r e, (∀ off, q = PAsleep off → can_push p' = false) →
    match r with RBlock _ _ | RAsleep _ _ => False | _ => True end → sleepers (taken i p' cs c r e s)) as Htaken.
  { intros p' cs c r e Hq' Hr'. split; simpl; [|by destruct r].
    intros j off pj Hj [[-> ->]|[_ H]]%lookup_insert_cases; [|by eapply (sl_push _ Hsl)]. eapply Hq'. rewrite Hj in Hq. by injection Hq. }
  destruct (can_pop_cases _ _ _ _ _ _ _ Hok Hcan) as [Hend|Hidx].
  - destruct (read_pop_nothing want got p s Hi Hend) as [e ->]. apply Htaken; [|done].
    intros off Hoff. destruct (Hasleep off Hoff) as (? & ? & Hst). destruct Hend as [?|[? ?]]; [lia|congruence].
  - rewrite (read_pop_some want got p s Hi Hw Hidx). cbv zeta. case_decide as Hk.
    + fold i. rewrite notify_writer_eq. simpl. rewrite Hq.
      destruct q as [| |off| | | |]; try (by apply Htaken). split; simpl; [|done].
      intros j off' pj [[-> ?]|[Hne Hj]]%lookup_insert_cases; [done|].
      rewrite list_lookup_insert_ne by done. by eapply (sl_push _ Hsl).
    + apply Htaken; [|done]. intros off Hoff. destruct (Hasleep off Hoff) as (? & ? & Hst). unfold can_push. simpl. rewrite Hst.
      rewrite bool_decide_eq_false_2 by lia. done.
Qed.

Lemma sleepers_push i off err p s s' : inv s → sleepers s → pushers s !! i = Some (PWait off) → pipes s !! i = Some p →
  do_step (LPush i err) s = Some s' → sleepers s'.
Proof.
  intros Hs Hsl Hq Hp. simpl. rewrite Hq, Hp. destruct (unlocked i s && _) eqn:Hg; [|done]. cbn [negb].
  apply andb_true_iff in Hg as [Hul _]. destruct (can_push p) eqn:Hcan; cbn [negb].
  2: { intros [= <-]. split; [|apply Hsl]. simpl. intros j off' pj [[-> _]|[_ Hj]]%lookup_insert_cases Hpj; [congruence|by eapply (sl_push _ Hsl)]. }
  assert (∀ p' q fl, (∀ o, q ≠ PAsleep o) → sleepers (notify i ((set_pusher i q (set_pipe i p' s)) <| failed := fl |>))) as Hput.
  { intros p' q fl Hno. set (s1 := set_pusher i q (set_pipe i p' s) <| failed := fl |>).
    assert (∀ j off' pj, pushers s1 !! j = Some (PAsleep off') → pipes s1 !! j = Some pj → can_push pj = false) as Hpu.
    { intros j off' pj. simpl. intros [[-> He]|[Hne Hj]]%lookup_insert_cases; [by destruct (Hno off')|].
      rewrite list_lookup_insert_ne by done. by eapply (sl_push _ Hsl). }
    assert (∀ pj, match rs_reader s with RBlock _ _ | RAsleep _ _ => True | _ => False end → Z.to_nat (pipeIndex s) ≠ i →
      pipes s1 !! Z.to_nat (pipeIndex s) = Some pj → p_index pj = p_size pj ∧ 0 < p_size pj) as Hre.
    { intros pj Ha Hne. simpl. rewrite list_lookup_insert_ne by done. by apply (sl_read _ Hsl). }
    destruct (n_index _ Hs) as [Hi _]. pose proof N_pos. pose proof (Z.mod_pos_bound (current s) N ltac:(lia)).
    unfold notify, unlocked in *. simpl. destruct (rs_reader s) eqn:Hr; try (split; [done|]; simpl; rewrite Hr; done).
    - apply negb_true_iff, bool_decide_eq_false in Hul. split; [done|]. simpl. rewrite Hr. intros pj Ha. apply Hre; [done|lia].
    - case_decide as He; [split; [done|]; simpl; done|]. split; [done|]. simpl. rewrite Hr. intros pj Ha. apply Hre; [done|lia]. }
  destruct (p_stop p).
  - intros [= <-]. specialize (Hput p (PTest off 0) (failed s) ltac:(done)).
    unfold set_pusher, set_pipe, set_field in *; simpl in *. rewrite list_insert_id in Hput by done. by destruct s.
  - destruct (Pipe_Push _ _ _) as [ret p']. intros [= <-]. by apply Hput.
Qed.

Lemma sleepers_step l s s' : inv s → sleepers s → do_step l s = Some s' → sleepers s'.
Proof.
  intros Hs Hsl. destruct l; simpl.
  - destruct (pushers s !! i) as [[]|] eqn:Hq; try done. intros [= <-]. apply sleepers_pusher; [done|]. intros off. by case_match.
  - destruct (pushers s !! i) as [[]|] eqn:Hq; try done. destruct (pipes s !! i) eqn:Hp; [|done].
    intros H. eapply sleepers_push; [done|done|done|done|]. simpl. rewrite Hq, Hp. exact H.
  - destruct (pushers s !! i) as [[]|] eqn:Hq; try done. destruct (pipes s !! i) as [p|] eqn:Hp; [|done].
    case_decide; intros [= <-]; [|by apply sleepers_pusher].
    eapply (sleepers_same (set_pusher i PExit s)); [done|done|simpl; by destruct (rs_reader s)|by apply sleepers_pusher].
  - destruct (pushers s !! i) as [[]|] eqn:Hq; try done. destruct (pipes s !! i) as [p|] eqn:Hp; [|done]. intros [= <-].
    apply sleepers_pusher; [|done]. split; simpl.
    + intros j off pj Hj [[-> ->]|[_ H]]%lookup_insert_cases; [congruence|by eapply (sl_push _ Hsl)].
    + intros pj Ha [[He ->]|[_ H]]%lookup_insert_cases; [simpl; rewrite <-He in Hp; by apply (sl_read _ Hsl)|by apply (sl_read _ Hsl)].
  - destruct (pushers s !! i) as [[]|] eqn:Hq; try done. intros [= <-].
    eapply (sleepers_same (set_pusher i PDone s)); [unfold notify; simpl; destruct (rs_reader s); try case_decide; done..| |by apply sleepers_pusher].
    unfold notify. simpl. destruct (rs_reader s) eqn:Hr; simpl; rewrite ?Hr; try done. case_decide; simpl; rewrite ?Hr; done.
  - destruct (pushers s !! i) as [[]|] eqn:Hq; try done. intros [= <-]. by apply sleepers_pusher.
  - destruct (rs_reader s) eqn:Hr; try done. case_decide; [|done]. intros [= <-]. by apply (sleepers_same s).
  - destruct (rs_reader s) eqn:Hr; try done. intros [= <-]. apply (sleepers_same s); [done|done| |done]. simpl. by destruct (_ || _).
  - destruct (rs_reader s) eqn:Hr; try done. destruct (pipes s !! _) as [p|] eqn:Hp; [|done]. intros [= <-].
    destruct (can_pop p) eqn:Hcan; [by eapply sleepers_pop|]. split; [apply Hsl|]. simpl. intros p' _ Hp'. simplify_eq.
    unfold can_pop in Hcan. apply orb_false_iff in Hcan as [Hcan _]. apply bool_decide_eq_false in Hcan. lia.
  - destruct (rs_reader s) eqn:Hr; try done. intros [= <-]. split; [apply Hsl|]. simpl. intros p _. apply (sl_read _ Hsl). by rewrite Hr.
  - destruct (rs_reader s) eqn:Hr; try done. intros [= <-]. by apply (sleepers_same s).
  - destruct (rs_reader s) eqn:Hr; try done. intros [= <-]. apply (sleepers_same s); [done|done| |done]. simpl. by rewrite Hr.
  - destruct (rs_reader s) eqn:Hr; try done. destruct (pipes s !! i) as [p|] eqn:Hp; [|done].
    destruct (rs_stop s); [|done]. intros [= <-]. rewrite notify_writer_eq. simpl. destruct (pushers s !! i) as [q|] eqn:Hq.
    + assert (∀ q', (∀ o, q' ≠ PAsleep o) → sleepers (set_pusher i q' (set_pipe i (Destroy p) s))) as Hput.
      { intros q' Hno. split; simpl; [|by rewrite Hr]. intros j off pj [[-> He]|[Hne Hj]]%lookup_insert_cases; [by destruct (Hno off)|].
        rewrite list_lookup_insert_ne by done. by eapply (sl_push _ Hsl). }
      destruct q; try (specialize (Hput _ ltac:(intros ?; discriminate)); done); try (eapply sleepers_pipe; [done| |done|by rewrite Hr]; done).
      by apply Hput.
    + exfalso. destruct (n_pipes _ Hs). apply lookup_lt_Some in Hp. apply lookup_ge_None in Hq. lia.
Qed.

Lemma sleepers_Init : sleepers Init.
Proof.
  split; simpl; [|done]. intros i off p Hq. unfold Init in *. cbn [pushers] in *. rewrite list_lookup_fmap in Hq.
  by destruct (seqZ 0 N !! i).
Qed.

Lemma reachable_sleepers s : reachable s → sleepers s.
Proof.
  induction 1 as [|s s' Hr IH [l Hl]]; [apply sleepers_Init|]. eapply sleepers_step; [by apply reachable_stream_inv|done|done].
Qed.

(** *** Progress: a pipe the reader waits for is filled or stopped. *)
Definition of_thread (i : nat) (l : label) : bool :=
  match l with
  | LTest j | LPush j None | LCompare j | LStopPipe j | LNotify j => bool_decide (j = i)
  | _ => false
  end.

(** Thread [i], on its own, makes pipe [i] readable and wakes the reader in at most [n] steps. *)
Definition serves (n : nat) (i : nat) (s : ReadStream) : Prop :=
  ∃ ls s' p', run_labels ls s = Some s' ∧ (length ls ≤ n)%nat ∧ forallb (of_thread i) ls = true ∧
    pipes s' !! i = Some p' ∧ can_pop p' = true ∧ match rs_reader s' with RWait _ _ => True | _ => False end.

Definition waiting (i : nat) (s : ReadStream) : Prop :=
  match rs_reader s with RWait _ _ | RAsleep _ _ => pipeIndex s = Z.of_nat i | _ => False end.

Lemma serves_step n i l s s' : of_thread i l = true → do_step l s = Some s' → serves n i s' → serves (S n) i s.
Proof.
  intros Hl Hd (ls & s'' & p' & Hr & Hn & Hf & H). exists (l :: ls), s'', p'. simpl. rewrite Hd, Hl.
  split; [done|split; [lia|by split]].
Qed.

Lemma serves_weaken n m i s : (n ≤ m)%nat → serves n i s → serves m i s.
Proof. intros ? (ls & s' & p' & ? & ? & ?). exists ls, s', p'. split_and!; try tauto. lia. Qed.

Lemma serves_now i p s : pipes s !! i = Some p → can_pop p = true → waiting i s → serves 0 i (notify i s).
Proof.
  intros Hp Hcan Hw. exists [], (notify i s), p. unfold waiting, notify in *.
  destruct (rs_reader s) eqn:Hr; try done; [by rewrite Hr; split_and!; try lia|].
  rewrite decide_True by done. split_and!; try done; simpl; lia.
Qed.

Lemma serves_exit i p s : pushers s !! i = Some PExit → pipes s !! i = Some p → waiting i s → serves 2 i s.
Proof.
  intros Hq Hp Hw. pose proof (lookup_lt_Some _ _ _ Hq). pose proof (lookup_lt_Some _ _ _ Hp).
  eapply (serves_step _ _ (LStopPipe i)); [by apply bool_decide_eq_true|simpl; by rewrite Hq, Hp|].
  eapply (serves_step _ _ (LNotify i)); [by apply bool_decide_eq_true|simpl; by rewrite list_lookup_insert_eq|].
  eapply serves_now; [simpl; by rewrite list_lookup_insert_eq|unfold can_pop; apply orb_true_r|exact Hw].
Qed.

Lemma serves_wait i p off s : 0 < p_size p → pushers s !! i = Some (PWait off) → pipes s !! i = Some p → can_pop p = false → waiting i s →
  serves 1 i s.
Proof.
  intros Hsz Hq Hp Hcan Hw. pose proof (lookup_lt_Some _ _ _ Hp). unfold can_pop in Hcan. apply orb_false_iff in Hcan as [Hcan Hst].
  apply bool_decide_eq_false in Hcan.
  eapply (serves_step _ _ (LPush i None)); [by apply bool_decide_eq_true| |].
  - simpl. rewrite Hq, Hp, Hst. unfold unlocked, can_push. rewrite Hst, orb_false_r.
    rewrite (bool_decide_true (p_index p = p_size p)) by lia. unfold waiting in Hw. destruct (rs_reader s); done.
  - simpl. eapply serves_now; [simpl; by rewrite list_lookup_insert_eq| |exact Hw].
    unfold can_pop. simpl. rewrite orb_true_iff. left. apply bool_decide_eq_true. lia.
Qed.

Lemma serves_loop i p off s : 0 < p_size p → pushers s !! i = Some (PLoop off) → pipes s !! i = Some p → can_pop p = false → waiting i s →
  serves 3 i s.
Proof.
  intros Hsz Hq Hp Hcan Hw. pose proof (lookup_lt_Some _ _ _ Hq).
  eapply (serves_step _ _ (LTest i)); [by apply bool_decide_eq_true|simpl; by rewrite Hq|]. destruct (_ || _).
  - eapply serves_exit; [simpl; by rewrite list_lookup_insert_eq|done|exact Hw].
  - eapply (serves_weaken 1); [lia|]. eapply serves_wait; [done|simpl; by rewrite list_lookup_insert_eq|done|done|exact Hw].
Qed.

(** A pipe that cannot be read: its thread fills or stops it. *)
Lemma serves_empty s i p : reachable s → waiting i s → pipes s !! i = Some p → can_pop p = false → serves 4 i s.
Proof.
  intros Hre Hw Hp Hcan. pose proof (reachable_stream_inv _ Hre) as Hs.
  destruct (lookup_lt_is_Some_2 (pushers s) i) as [q Hq].
  { destruct (n_pipes _ Hs). apply lookup_lt_Some in Hp. lia. }
  pose proof (n_pipe _ Hs _ _ _ Hp Hq) as [_ Hok]. pose proof Hcan as Hcan'.
  unfold can_pop in Hcan. apply orb_false_iff in Hcan as [Hcan Hps]. apply bool_decide_eq_false in Hcan.
  destruct Hok as [(Hcap & Hd & Hqok & Hl)|[Hd _]]; [|unfold dead in Hd; destruct_and!; congruence].
  assert (0 < p_size p) as Hsz by lia. pose proof (lookup_lt_Some _ _ _ Hq).
  destruct q as [off|off|off|off ret| | |]; simpl in Hqok.
  - eapply (serves_weaken 3); [lia|by eapply serves_loop].
  - eapply (serves_weaken 1); [lia|by eapply serves_wait].
  - pose proof (sl_push _ (reachable_sleepers _ Hre) _ _ _ Hq Hp) as Hpush. unfold can_push in Hpush.
    apply orb_false_iff in Hpush as [Hpush _]. apply bool_decide_eq_false in Hpush. lia.
  - destruct (decide (ret ≠ p_capacity p)) as [Hr|Hr];
      (eapply (serves_step _ _ (LCompare i)); [by apply bool_decide_eq_true| |]).
    + simpl. rewrite Hq, Hp, decide_True by done. done.
    + eapply (serves_weaken 2); [lia|]. eapply serves_exit; [simpl; by rewrite list_lookup_insert_eq|done|exact Hw].
    + simpl. rewrite Hq, Hp, decide_False by done. done.
    + eapply serves_loop; [done|simpl; by rewrite list_lookup_insert_eq|done|done|exact Hw].
  - eapply (serves_weaken 2); [lia|by eapply serves_exit].
  - destruct Hqok. congruence.
  - destruct Hqok. congruence.
Qed.

(** The end of the thread of a pipe went unnoticed: the reader sleeps although
    the pipe is stopped, and the thread that should wake it has ended. *)
Definition missed_the_end (i : nat) (s : ReadStream) : Prop :=
  pushers s !! i = Some PDone ∧ (∃ want got, rs_reader s = RAsleep want got) ∧ (failed s = false → consumed s = file).

(** A pipe that can be read while the reader sleeps: its thread is about to
    notify the reader, or has ended. *)
Lemma serves_stopped s i p want got : reachable s → rs_stop s = false → rs_reader s = RAsleep want got → pipeIndex s = Z.of_nat i →
  pipes s !! i = Some p → can_pop p = true → serves 1 i s ∨ missed_the_end i s.
Proof.
  intros Hre Hst Hr Hi Hp Hcan. pose proof (reachable_stream_inv _ Hre) as Hs.
  destruct (lookup_lt_is_Some_2 (pushers s) i) as [q Hq].
  { destruct (n_pipes _ Hs). apply lookup_lt_Some in Hp. lia. }
  assert (Z.to_nat (pipeIndex s) = i) as Hidx by lia.
  destruct (sl_read _ (reachable_sleepers _ Hre) p) as [Hempty Hpos]; [by rewrite Hr|by rewrite Hidx|].
  assert (p_stop p = true) as Hstop.
  { unfold can_pop in Hcan. apply orb_true_iff in Hcan as [Hcan|?]; [|done]. apply bool_decide_eq_true in Hcan. lia. }
  destruct (n_index _ Hs) as [Hci Hc]. pose proof (n_pipe _ Hs _ _ _ Hp Hq) as Hok.
  pose proof (n_consumed _ Hs Hst) as Hcs. unfold position in Hcs. rewrite Hidx, Hp in Hcs.
  assert (waiting i s) as Hw by (unfold waiting; by rewrite Hr).
  assert (q = PNotify ∨ q = PDone) as [->| ->].
  { destruct Hok as [_ [(_ & _ & Hqok & _)|[(_ & ? & _) _]]]; [|lia].
    destruct q; simpl in Hqok; auto; exfalso; destruct_and?; congruence. }
  - left. eapply (serves_step _ _ (LNotify i)); [by apply bool_decide_eq_true|simpl; by rewrite Hq|].
    eapply serves_now; [simpl; exact Hp|done|exact Hw].
  - right. split; [done|]. split; [eauto|]. intros Hf. rewrite <-Hidx, Hci in Hok.
    destruct (pop_nothing _ _ _ _ _ _ Hc Hok Hcs) as [_ Hall]; [by right|]. by apply Hall.
Qed.

(** (C25) In every reachable state of a stream that is not stopped, while the
    reader waits for a pipe, awake or asleep on its condition variable, the
    thread of that pipe does not sleep: it was woken when the pipe was emptied,
    and within four steps of its own it leaves the pipe readable, with a block
    or by stopping it, and the reader awake.  There is one
    exception, in which the reader sleeps for ever: the thread has ended and
    its notification came between the reader's test and its sleep; this happens
    only when the reader has had the whole file, if no read has failed. *)
Theorem read_stream_progress s i p : reachable s → rs_stop s = false → waiting i s →
  pipes s !! i = Some p → serves 4 i s ∨ missed_the_end i s.
Proof.
  intros Hs Hst Hw Hp. destruct (can_pop p) eqn:Hcan; [|left; by eapply serves_empty].
  pose proof Hw as Hw'. unfold waiting in Hw'. destruct (rs_reader s) as [| |want got| |want got] eqn:Hr; try done.
  - left. exists [], s, p. simpl. rewrite Hr. split_and!; try done. lia.
  - destruct (serves_stopped s i p want got Hs Hst Hr Hw' Hp Hcan) as [H|H]; [left|by right].
    eapply serves_weaken; [|exact H]. lia.
Qed.
End stream.

Module ReadStreamWitness.
(** A file of three bytes in two blocks of two: the threads fetch both blocks,
    the reader asks for ten bytes. *)
Definition fill : list label := [LTest 0; LTest 1; LPush 0 None; LPush 1 None; LCompare 0; LCompare 1].
Definition read_all : list label := [LCall 10; LReadTest; LReadPop; LReadTest; LReadPop; LReadTest].

Lemma run_reachable file cap blocks ls s s' : reachable file cap blocks s → run_labels file cap blocks ls s = Some s' →
  reachable file cap blocks s'.
Proof.
  revert s. induction ls as [|l ls IH]; simpl; intros s Hs; [by intros [= <-]|].
  destruct (do_step _ _ _ l s) as [s1|] eqn:Hl; simpl; [|done]. apply IH. eapply reach_step; [done|by exists l].
Qed.

(** All of the file is read: the reader finds the end in the pipe its thread has stopped. *)
Definition done_state : ReadStream :=
  default (Init 2 2) (run_labels [1; 2; 3] 2 2 (fill ++ [LTest 0; LStopPipe 0; LNotify 0] ++ read_all ++ [LReadPop]) (Init 2 2)).

Lemma read_stream_in_order_witness : reachable [1; 2; 3] 2 2 done_state ∧ ended done_state = true ∧ consumed done_state = [1; 2; 3].
Proof.
  assert (reachable [1; 2; 3] 2 2 done_state) as Hr.
  { eapply (run_reachable _ _ _ (fill ++ [LTest 0; LStopPipe 0; LNotify 0] ++ read_all ++ [LReadPop])); [apply reach_init|]. vm_compute. reflexivity. }
  split; [exact Hr|split; [vm_compute; reflexivity|]].
  destruct (read_stream_in_order [1; 2; 3] 2 2 ltac:(lia) ltac:(lia) ltac:(simpl; lia) _ Hr) as [_ H].
  apply H; vm_compute; reflexivity.
Defined.

(** The threads wait for their pipes to be emptied; the reader has emptied the
    first one of a file of three blocks, whose thread sleeps until then. *)
Definition sleep_and_wake : list label :=
  [LTest 0; LPush 0 None; LCompare 0; LTest 0; LPush 0 None; LCall 10; LReadTest; LReadPop; LReadTest; LReadPop; LReadSleep].
Definition asleep_state : ReadStream := default (Init 2 1) (run_labels [1; 2; 3] 2 1 sleep_and_wake (Init 2 1)).

Example thread_was_asleep :
  pushers <$> run_labels [1; 2; 3] 2 1 (take 5 sleep_and_wake) (Init 2 1) = Some [PAsleep 2].
Proof. vm_compute. reflexivity. Qed.

Lemma read_stream_progress_witness :
  rs_reader asleep_state = RAsleep 10 [1; 2] ∧
  (serves [1; 2; 3] 2 1 4 0 asleep_state ∨ missed_the_end [1; 2; 3] 0 asleep_state).
Proof.
  split; [vm_compute; reflexivity|].
  eapply (read_stream_progress [1; 2; 3] 2 1 ltac:(lia) ltac:(lia) ltac:(simpl; lia) asleep_state 0
    (mkPipe [1; 2] 2 2 2 false 1)).
  - eapply (run_reachable _ _ _ sleep_and_wake); [apply reach_init|]. vm_compute. reflexivity.
  - vm_compute. reflexivity.
  - vm_compute. reflexivity.
  - vm_compute. reflexivity.
Defined.

(** A wake-up is lost: a thread that ends sets [stop] and notifies without the
    mutex of the pipe, between the moment the reader finds the predicate false
    and the moment it sleeps.  Nobody will wake the reader: all the threads have
    ended, and the whole file has been read. *)
Example lost_wakeup :
  match run_labels [1; 2; 3] 2 2 (fill ++ [LTest 0] ++ read_all ++
          [LReadPop; LStopPipe 0; LNotify 0; LReadSleep; LStopPipe 1; LNotify 1]) (Init 2 2) with
  | Some s => rs_reader s = RAsleep 10 [1; 2; 3] ∧ pushers s = [PDone; PDone] ∧ consumed s = [1; 2; 3] ∧
      can_pop <$> pipes s !! 0%nat = Some true
  | None => False
  end.
Proof. vm_compute. split_and!; reflexivity. Qed.

(** A filling thread spins: the reader destroys the pipe, whose last block is
    empty, before the thread compares its result 0 with the capacity, now 0; the
    thread goes on as if the block had been full. *)
Example thread_spins :
  match run_labels [] 2 1 [LTest 0; LPush 0 None; LCall 10; LReadTest; LReadPop; LCompare 0; LTest 0; LPush 0 None; LCompare 0; LTest 0]
          (Init 2 1) with
  | Some s => pushers s = [PWait 4] ∧ rs_reader s = RIdle ∧ ended s = true ∧ rs_stop s = false
  | None => False
  end.
Proof. vm_compute. split_and!; reflexivity. Qed.
End ReadStreamWitness.
