(* ===== verification/Node.v ===== *)
(** * The data nodes of the cluster (cuckoo_store/src/connection/node.cpp)

    [StoreNode] maps node numbers to end points with a connection to each.  The
    map is an unordered_map: it is an association list in the order in which it
    is iterated over; inserting may change that order in any way, erasing keeps
    the order of the others.  A connection is known by its end point. *)
From S2P Require Import Prelude.

Record StoreNode := mkStoreNode { initStatus : Z; nodeId : Z; nodeMap : list (Z * string) }.
#[global] Instance eta_StoreNode : Eta StoreNode := λ s, mkStoreNode (initStatus s) (nodeId s) (nodeMap s).

Fixpoint assoc (k : Z) (m : list (Z * string)) : option string :=
  match m with
  | [] => None
  | (k', v) :: m' => if decide (k' = k) then Some v else assoc k m'
  end.

Section nodes.
(** The order of iteration after an insertion. *)
Context (rehash : list (Z * string) → list (Z * string)).

Definition emplace (k : Z) (v : string) (m : list (Z * string)) : list (Z * string) :=
  match assoc k m with Some _ => m | None => rehash ((k, v) :: m) end.
Definition erase (k : Z) (m : list (Z * string)) : list (Z * string) := filter (λ p, p.1 ≠ k) m.

(** clusterView | split(',') *)
Fixpoint split_commas (acc s : string) : list string :=
  match s with
  | EmptyString => [acc]
  | String c s' => if decide (c = ","%char) then acc :: split_commas "" s' else split_commas (acc +:+ String c "") s'
  end.
Definition cluster (clusterView : string) : list string :=
  match clusterView with EmptyString => [] | _ => split_commas "" clusterView end.

(** Once CheckConnection has succeeded for every node. *)
Definition SetNodeConfig (initNodeId : Z) (clusterView : string) (s : StoreNode) : StoreNode :=
  mkStoreNode 0 initNodeId
    (foldl (λ m '(i, rpcEndPoint), emplace (Z.of_nat i) rpcEndPoint m) (nodeMap s) (imap pair (cluster clusterView))).

(** With ZK_INIT: [storeNodes] is what FetchStoreNodes returned, in its order of iteration. *)
Definition UpdateNodeConfig (fetched : Z + list (Z * string)) (s : StoreNode) : Z * StoreNode :=
  match fetched with
  | inl ret => (ret, s)
  | inr storeNodes =>
    let toDel := filter (λ k, assoc k storeNodes = None) (nodeMap s).*1 in
    let added := filter (λ p, assoc p.1 (nodeMap s) = None) storeNodes in
    let m := foldl (λ m k, erase k m) (nodeMap s) toDel in
    (0, s <| nodeMap := foldl (λ m '(k, v), emplace k v m) m added |>)
  end.

Definition Delete (s : StoreNode) : StoreNode := s <| nodeMap := [] |>.
Definition GetRpcConnection (n : Z) (s : StoreNode) : option string := assoc n (nodeMap s).
Definition GetNodeId (s : StoreNode) : Z := nodeId s.
Definition IsLocal (otherNodeId : Z) (s : StoreNode) : bool := bool_decide (nodeId s = otherNodeId).
Definition GetRpcEndPoint (n : Z) (s : StoreNode) : string := default ""%string (assoc n (nodeMap s)).
Definition GetNumberofAllNodes (s : StoreNode) : Z := Z.of_nat (length (nodeMap s)).
Definition DeleteNode (n : Z) (s : StoreNode) : StoreNode := s <| nodeMap ::= erase n |>.
Definition GetAllNodeId (s : StoreNode) : list Z := (nodeMap s).*1.

(** ipPort up to its first colon *)
Fixpoint SplitIp (ipPort : string) : string :=
  match ipPort with
  | EmptyString => EmptyString
  | String c s => if decide (c = ":"%char) then EmptyString else String c (SplitIp s)
  end.

(** The overload for an address, or -1. *)
Definition GetNodeId_of (ipPort : string) (s : StoreNode) : Z :=
  match filter (λ p, SplitIp p.2 = SplitIp ipPort) (nodeMap s) with p :: _ => p.1 | [] => -1 end.

(** nodeMap[nodeId] inserts an empty end point when this node is not in the map
    (under a shared lock). *)
Definition IsLocal_addr (ipPort : string) (s : StoreNode) : bool * StoreNode :=
  let s' := s <| nodeMap ::= emplace (nodeId s) "" |> in
  (bool_decide (SplitIp ipPort = SplitIp (default ""%string (assoc (nodeId s) (nodeMap s')))), s').

Definition hash64 (x : Z) : Z :=
  let x := u64 (Z.lxor x (Z.shiftr x 30) * 0xbf58476d1ce4e5b9) in
  let x := u64 (Z.lxor x (Z.shiftr x 27) * 0x94d049bb133111eb) in
  Z.lxor x (Z.shiftr x 31).

(** it = begin(); advance(it, index); it->first *)
Definition nth_node (index : Z) (s : StoreNode) : option Z := fst <$> nodeMap s !! Z.to_nat index.

Definition AllocNode (inodeId : Z) (s : StoreNode) : Z :=
  match nodeMap s with
  | [] => nodeId s
  | _ => default (nodeId s) (nth_node (i32 (hash64 inodeId mod Z.of_nat (length (nodeMap s)))) s)
  end.

(** The node after [n] in the order of iteration. *)
Fixpoint next_in (n first : Z) (m : list (Z * string)) : option Z :=
  match m with
  | [] => None
  | (k, _) :: m' => if decide (k = n) then Some (match m' with (k', _) :: _ => k' | [] => first end) else next_in n first m'
  end.

Definition GetNextNode (n inodeId : Z) (s : StoreNode) : Z :=
  match nodeMap s with
  | [] => n
  | (first, _) :: _ => match next_in n first (nodeMap s) with Some k => k | None => AllocNode inodeId s end
  end.

(** [random]: GenerateRandom(0, nodeNum - 1); the iterator is not advanced past the end. *)
Definition GetBackupNodeId (random : Z) (s : StoreNode) : option Z :=
  it ← nodeMap s !! Z.to_nat random;
  if decide (nodeId s = it.1) then
    match nodeMap s !! S (Z.to_nat random) with
    | Some p => Some p.1
    | None => fst <$> head (nodeMap s)
    end
  else Some it.1.

(** ** The hash is a permutation of the inode ids *)
Lemma xorshift_inj k x y : 0 < k → 0 ≤ x → 0 ≤ y →
  Z.lxor x (Z.shiftr x k) = Z.lxor y (Z.shiftr y k) → x = y.
Proof.
  intros Hk Hx Hy H. apply Z.lxor_eq. set (d := Z.lxor x y).
  assert (0 ≤ d) by (apply Z.lxor_nonneg; lia).
  assert (d = Z.shiftr d k) as Hd.
  { apply Z.lxor_eq. unfold d. rewrite Z.shiftr_lxor.
    rewrite Z.lxor_assoc, <- (Z.lxor_assoc y), (Z.lxor_comm y), Z.lxor_assoc, <- Z.lxor_assoc, H. apply Z.lxor_nilpotent. }
  rewrite Z.shiftr_div_pow2 in Hd by lia.
  destruct (decide (d = 0)) as [|Hne]; [done|].
  pose proof (Z.div_lt d (2 ^ k) ltac:(lia) (proj1 (Z.pow_gt_1 2 k ltac:(lia)) Hk)). lia.
Qed.

Lemma lxor_shiftr_range k x : 0 ≤ k → 0 ≤ x < 2 ^ 64 → 0 ≤ Z.lxor x (Z.shiftr x k) < 2 ^ 64.
Proof.
  intros Hk Hx. assert (0 ≤ Z.shiftr x k ≤ x) as Hs.
  { rewrite Z.shiftr_div_pow2 by lia. pose proof (Z.pow_pos_nonneg 2 k ltac:(lia) Hk).
    split; [apply Z.div_pos; lia|apply Z.div_le_upper_bound; nia]. }
  split; [apply Z.lxor_nonneg; lia|].
  destruct (decide (Z.lxor x (Z.shiftr x k) = 0)) as [->|]; [lia|].
  apply Z.log2_lt_pow2; [assert (0 ≤ Z.lxor x (Z.shiftr x k)) by (apply Z.lxor_nonneg; lia); lia|].
  eapply Z.le_lt_trans; [apply Z.log2_lxor; lia|].
  assert (∀ z, 0 ≤ z < 2 ^ 64 → Z.log2 z < 64) as Hlog.
  { intros z Hz. destruct (decide (z = 0)) as [->|]; [done|]. apply Z.log2_lt_pow2; lia. }
  apply Z.max_lub_lt; apply Hlog; lia.
Qed.

Lemma mul_odd_inj c cinv x y : u64 (c * cinv) = 1 → 0 ≤ x < 2 ^ 64 → 0 ≤ y < 2 ^ 64 → u64 (x * c) = u64 (y * c) → x = y.
Proof.
  intros Hc Hx Hy H. assert (∀ z, 0 ≤ z < 2 ^ 64 → u64 (u64 (z * c) * cinv) = z) as Hz.
  { intros z Hz. unfold u64 in *. rewrite Z.mul_mod_idemp_l by lia. rewrite <- Z.mul_assoc, <- Z.mul_mod_idemp_r, Hc by lia.
    rewrite Z.mul_1_r. apply Z.mod_small. lia. }
  rewrite <- (Hz x), <- (Hz y) by done. by rewrite H.
Qed.

Lemma hash64_range x : 0 ≤ x < 2 ^ 64 → 0 ≤ hash64 x < 2 ^ 64.
Proof. intros. apply lxor_shiftr_range; [lia|apply u64_range]. Qed.

Lemma hash64_inj x y : 0 ≤ x < 2 ^ 64 → 0 ≤ y < 2 ^ 64 → hash64 x = hash64 y → x = y.
Proof.
  intros Hx Hy H. unfold hash64 in H. apply xorshift_inj in H; [|lia|apply u64_range|apply u64_range].
  eapply (mul_odd_inj _ 0x319642b2d24d8ec3) in H; [|by vm_compute|apply lxor_shiftr_range; [lia|apply u64_range]..].
  apply xorshift_inj in H; [|lia|apply u64_range|apply u64_range].
  eapply (mul_odd_inj _ 0x96de1b173f119089) in H; [|by vm_compute|apply lxor_shiftr_range; lia..].
  by apply xorshift_inj in H; [| lia..].
Qed.

(** ** The node of a file *)
Lemma AllocNode_in i s : nodeMap s ≠ [] → Z.of_nat (length (nodeMap s)) < 2 ^ 31 → AllocNode i s ∈ (nodeMap s).*1.
Proof.
  intros Hne Hlen. unfold AllocNode, nth_node. destruct (nodeMap s) as [|e m] eqn:Hm; [done|].
  set (l := Z.of_nat (length (e :: m))) in *. assert (0 < l) by (unfold l; simpl; lia).
  pose proof (Z.mod_pos_bound (hash64 i) l ltac:(lia)).
  assert (i32 (hash64 i mod l) = hash64 i mod l) as -> by (unfold i32; rewrite Z.mod_small; lia).
  destruct (lookup_lt_is_Some_2 (e :: m) (Z.to_nat (hash64 i mod l))) as [p Hp]; [unfold l in *; lia|].
  rewrite Hp. change (default (nodeId s) (fst <$> Some p)) with p.1.
  apply list_elem_of_fmap. exists p. split; [done|by eapply list_elem_of_lookup_2].
Qed.

Lemma erase_not_in n m : n ∉ (erase n m).*1.
Proof. intros (p & -> & Hp)%list_elem_of_fmap. by apply list_elem_of_filter in Hp as [? _]. Qed.

Lemma length_erase n m : (length (erase n m) ≤ length m)%nat.
Proof. apply length_filter. Qed.

(** A node that was deleted is not chosen any more. *)
Lemma AllocNode_switches i n s : erase n (nodeMap s) ≠ [] → Z.of_nat (length (nodeMap s)) < 2 ^ 31 →
  AllocNode i (DeleteNode n s) ≠ n ∧ AllocNode i (DeleteNode n s) ∈ (nodeMap s).*1.
Proof.
  intros Hne Hlen. pose proof (AllocNode_in i (DeleteNode n s) Hne) as H.
  assert (AllocNode i (DeleteNode n s) ∈ (erase n (nodeMap s)).*1) as Hin.
  { apply H. simpl. pose proof (length_erase n (nodeMap s)). lia. }
  split; [intros He; rewrite He in Hin; by apply erase_not_in in Hin|].
  apply list_elem_of_fmap in Hin as (p & -> & Hp). apply list_elem_of_filter in Hp as [_ Hp]. by apply list_elem_of_fmap_2.
Qed.

Lemma assoc_in n m : n ∈ m.*1 → is_Some (assoc n m).
Proof.
  induction m as [|[k v] m IH]; simpl; [by intros ?%elem_of_nil|]. intros [->|?]%elem_of_cons; [by rewrite decide_True|].
  case_decide; [done|by apply IH].
Qed.
End nodes.
