(* ===== verification/Store.v ===== *)
(** * The data store (cuckoo_store/src/cuckoo_store/cuckoo_store.cpp)

    [CuckooStore] opens, reads, writes and closes files on behalf of the FUSE
    client and of other nodes: the file is in the cache on the local disk, or at
    another node, or in the object storage only.  Calls run one after the other;
    what they hand to the thread pool stays in [s_tasks] until [run_task] runs it,
    at any later point.  A call that waits for a file lock another one has ends in
    [Diverge].

    Parameters: POSIX, the stubs of the other nodes (one per end point), the
    object storage (the virtual class [Storage]), and the read-ahead of an open
    file, whose own model is ReadStream. *)
From S2P Require Import Prelude Posix FileLock DiskCache IOClient WriteStream Node.
Local Open Scope string_scope.
Local Open Scope Z_scope.

(** The virtual class of storage.h.  ReadObject gives its result and the bytes
    it put into the buffer, when there is one; with a descriptor it also writes
    the object there. *)
Class Storage (B F : Type) := {
  ReadObject : string → Z → Z → option Z → bool → B * F → Z * list Z * (B * F);
  PutFile : string → string → B * F → Z * (B * F);
  DeleteObject : string → B → Z * B;
  CopyObject : string → string → B → Z * B;
  StatFs : B → Z * StatFSBuf }.

(** statvfs(2) *)
Class Statvfs (F : Type) := posix_statvfs : string → F → option StatFSBuf.

(** The stream of blocks read ahead, with Init and StartPushThreaded together. *)
Class ReadAhead (T : Type) := {
  rs_new : T;
  rs_Start : Z → Z → T → bool * T;
  rs_WaitPop : Z → T → Z * list Z * T;
  rs_StopPushThreaded : T → T;
  rs_WaitPushEnded : T → T }.

(** Set when the store starts. *)
Record Config := mkConfig {
  rootPath : string;
  totalDirectory : Z;
  dataPath : string;
  persistToStorage : bool;
  isInference : bool;
  toLocal : bool;
  parentPathLevel : Z;
  READ_BIGFILE_SIZE : Z;
  CUCKOO_BLOCK_SIZE : Z }.

(** OpenInstance of buffer/open_instance.h; [client] is the end point of the
    connection of its write stream. *)
Record OpenInstance (T : Type) := mkOpen {
  inodeId : Z;
  serialReadEnd : Z;
  currentSize : Z;
  originalSize : Z;
  physicalFd : Z;
  oflags : Z;
  oi_nodeId : Z;
  nodeFail : bool;
  writeCnt : Z;
  writeFail : bool;
  readFail : bool;
  isRemoteCall : bool;
  remoteFailed : bool;
  isFlushed : bool;
  isClosed : bool;
  readBuffer : list Z;
  readBufferSize : Z;
  preReadStarted : bool;
  preReadStopped : bool;
  directReadFile : bool;
  path : string;
  isOpened : bool;
  writeStream : WriteStream;
  client : string;
  readStream : T }.
Arguments mkOpen {T}.
Arguments inodeId {T} o. Arguments serialReadEnd {T} o. Arguments currentSize {T} o. Arguments originalSize {T} o.
Arguments physicalFd {T} o. Arguments oflags {T} o. Arguments oi_nodeId {T} o. Arguments nodeFail {T} o.
Arguments writeCnt {T} o. Arguments writeFail {T} o. Arguments readFail {T} o. Arguments isRemoteCall {T} o. Arguments remoteFailed {T} o.
Arguments isFlushed {T} o. Arguments isClosed {T} o. Arguments readBuffer {T} o. Arguments readBufferSize {T} o.
Arguments preReadStarted {T} o. Arguments preReadStopped {T} o. Arguments directReadFile {T} o. Arguments path {T} o.
Arguments isOpened {T} o. Arguments writeStream {T} o. Arguments client {T} o. Arguments readStream {T} o.
#[global] Instance eta_OpenInstance T : Eta (OpenInstance T) := λ o,
  mkOpen (inodeId o) (serialReadEnd o) (currentSize o) (originalSize o) (physicalFd o) (oflags o) (oi_nodeId o) (nodeFail o)
    (writeCnt o) (writeFail o) (readFail o) (isRemoteCall o) (remoteFailed o) (isFlushed o) (isClosed o) (readBuffer o) (readBufferSize o)
    (preReadStarted o) (preReadStopped o) (directReadFile o) (path o) (isOpened o) (writeStream o) (client o) (readStream o).

Definition new_OpenInstance {T} `{!ReadAhead T} : OpenInstance T :=
  mkOpen 0 0 0 0 UINT64_MAX 0 (-1) false 0 false false false false false false [] 0 false false false "" false new_WriteStream "" rs_new.

(** What the thread pool has to do: loadObs of DownLoadFromStorage, or the task
    of WriteToFileAsync, which holds the lock of the file. *)
Inductive task :=
  | LoadTask (inode fileSize fd : Z) (object : string)
  | WriteTask (inode bufSize fd : Z) (buf : list Z).

Record Store (F R B : Type) := mkStore {
  s_io : IO F R;
  s_obs : B;
  s_locks : FileLock;
  s_nodes : StoreNode;
  s_hash : gmap string Z;
  s_tasks : list task }.
Arguments mkStore {F R B}.
Arguments s_io {F R B} s. Arguments s_obs {F R B} s. Arguments s_locks {F R B} s.
Arguments s_nodes {F R B} s. Arguments s_hash {F R B} s. Arguments s_tasks {F R B} s.
#[global] Instance eta_Store F R B : Eta (Store F R B) := λ s,
  mkStore (s_io s) (s_obs s) (s_locks s) (s_nodes s) (s_hash s) (s_tasks s).

(** ** Paths *)

(** The components of a path that are not empty, as getline gives them. *)
Fixpoint components (acc s : string) : list string :=
  match s with
  | EmptyString => if decide (acc = "") then [] else [acc]
  | String c s' =>
    if decide (c = "/"%char) then (if decide (acc = "") then components "" s' else acc :: components "" s')
    else components (acc +:+ String c "") s'
  end.

(** The position of the last '/' after position 0, or 0. *)
Fixpoint last_slash (pos best : nat) (s : string) : nat :=
  match s with
  | EmptyString => best
  | String c s' => last_slash (S pos) (if decide (c = "/"%char ∧ pos ≠ O) then pos else best) s'
  end.

Definition join_dirs (parts : list string) : string := foldl (λ p c, p +:+ c +:+ "/") "/" parts.

(** GetParentPath; [None] where the code reads outside of the path or of the
    vector. *)
Definition GetParentPath (p : string) (level : Z) : option string :=
  if decide (level = -1) then
    match p with "" => None | _ => Some (String.substring 0 (last_slash 0 0 p) p) end
  else
    let all := components "" p in
    let parts := take (Z.to_nat (Z.max 1 level)) all in
    if decide (1 + Z.of_nat (length parts) = level + 1) then Some (join_dirs (take (Z.to_nat (level - 1)) parts))
    else match parts with [] => None | _ => Some (join_dirs (take (length parts - 1) parts)) end.

(** A char is signed. *)
Definition char_value (c : ascii) : Z := let n := Z.of_N (N_of_ascii c) in if decide (n < 128) then n else n - 256.

Fixpoint myHash_from (hash : Z) (s : string) : Z :=
  match s with
  | EmptyString => hash
  | String c s' => myHash_from (u64 (u64 (u64 (Z.shiftl hash 5) + hash) + char_value c)) s'
  end.
Definition myHash (s : string) : Z := myHash_from 5381 s.

(** path.substr(1) *)
Definition object_of (p : string) : string := match p with EmptyString => EmptyString | String _ s => s end.

Definition ConnectionError (err : Z) : bool := bool_decide (err > 0).
Definition IoError (err : Z) : bool := bool_decide (err < 0).

Section store.
Context {F R B T : Type} `{!Posix F} `{!Statvfs F} `{!Storage B F} `{!ReadAhead T}.
(** The stub behind an end point. *)
Context (peers : string → Stub R).
Context (cfg : Config).
Local Abbreviation SM := (M (Store F R B)).
Local Abbreviation Open := (OpenInstance T).

(** ** The parts of the state *)
Definition io {A} (m : M (IO F R) A) : SM A := mzoom s_io (λ i s, s <| s_io := i |>) m.
Definition dc {A} (m : M (DiskCache * F) A) : SM A := io (on_cache m).
Definition fs {A} (op : F → A * F) : SM A := io (on_fs op).
Definition errno : SM Z := io get_errno.
Definition access (p : string) : SM bool := s ← mget; mret (posix_access p (io_fs (s_io s))).
Definition close (fd : Z) : SM () := fs (λ f, ((), posix_close fd f)).
Definition pread (fd n off : Z) : SM (Z * list Z) := fs (λ f, let '(r, bs, f') := posix_pread fd n off f in ((r, bs), f')).
Definition obs {A} (op : B * F → A * (B * F)) : SM A := λ s,
  let '(a, (o, f)) := op (s_obs s, io_fs (s_io s)) in
  Ret a (s <| s_obs := o |> <| s_io := mkIO (io_cache (s_io s)) f (io_remote (s_io s)) |>).
Definition at_peer {A} (endPoint : string) (m : Stub R → M R A) : SM A := io (on_remote (m (peers endPoint))).
Definition nodes : SM StoreNode := s ← mget; mret (s_nodes s).
Definition set_nodes (f : StoreNode → StoreNode) : SM () := mmodify (λ s, s <| s_nodes ::= f |>).
Definition is_local (oi : Open) : SM bool := n ← nodes; mret (IsLocal (oi_nodeId oi) n).
Definition Submit (t : task) : SM () := mmodify (λ s, s <| s_tasks ::= (.++ [t]) |>).
Definition file_name (inode : Z) : string := GetFilePath (rootPath cfg) (totalDirectory cfg) inode.

(** FileLocker(&fileLock, inodeId, X, wait) and its destructor *)
Definition lock_file (inode : Z) (wait : bool) : SM bool :=
  s ← mget;
  match innerGetFileLock inode LockX wait (s_locks s) with
  | (Returns b, l) => mput (s <| s_locks := l |>) ;; mret b
  | (Waits _, _) => mdiverge
  end.
Definition unlock_file (inode : Z) : SM () := mmodify (λ s, s <| s_locks ::= (λ l, (ReleaseFileLock inode LockX l).1) |>).

(** ** The node of a file *)
Definition PathToNodeId (p : string) : SM Z :=
  match GetParentPath p (parentPathLevel cfg) with
  | None => mundefined
  | Some parentPath =>
    n ← nodes;
    if decide (parentPath = "") then mret (AllocNode (myHash parentPath) n)
    else
      s ← mget;
      match s_hash s !! parentPath with
      | Some node => mret node
      | None =>
        let node := AllocNode (myHash parentPath) n in
        mput (s <| s_hash ::= <[parentPath := node]> |>) ;; mret node
      end
  end.

Definition AllocNodeId (oi : Open) : SM Open :=
  if decide (oi_nodeId oi ≠ -1) then mret oi
  else
    n ← nodes;
    free ← dc HasFreeSpace;
    if toLocal cfg && (free : bool) then mret (oi <| oi_nodeId := GetNodeId n |>)
    else if isInference cfg then node ← PathToNodeId (path oi); mret (oi <| oi_nodeId := node |>)
    else mret (oi <| oi_nodeId := AllocNode (inodeId oi) n |>).

(** ** Writes that arrive from other nodes *)
Definition update_size (oi : Open) (sz : Z) (ret : Z) (sizeToAdd : Z) : SM (Z * Open) :=
  let oi := oi <| currentSize := sz |> in
  updated ← dc (Update (inodeId oi) sz);
  dc (FreePreAllocSpace sizeToAdd) ;;
  mret (if (updated : bool) then ret else - ENOENT, oi).

(** The while loop: [bytes] are left to write, at [offset]; POSIX writes at
    least a byte or fails. *)
Fixpoint write_all (fuel : nat) (oi : Open) (bytes : list Z) (offset sizeToAdd cur newSize : Z) : SM (Z * Open) :=
  match bytes, fuel with
  | [], _ => update_size oi newSize 0 sizeToAdd
  | _, S k =>
    nwrite ← fs (posix_pwrite (physicalFd oi) bytes offset);
    if decide (nwrite < 0 ∨ nwrite > Z.of_nat (length bytes)) then
      let offset := offset + (if decide (nwrite > 0) then nwrite else 0) in
      if decide (u64 offset > cur) then update_size oi (u64 offset) (- EINVAL) sizeToAdd
      else dc (FreePreAllocSpace sizeToAdd) ;; mret (- EINVAL, oi)
    else write_all k oi (drop (Z.to_nat nwrite) bytes) (offset + nwrite) sizeToAdd cur newSize
  | _, O => mdiverge
  end.

Definition is_direct (flags : Z) : bool := negb (bool_decide (Z.land flags O_DIRECT = 0)).

Definition WriteLocalFileForBrpc (oi : Open) (buf : list Z) (offset : Z) : SM (Z * Open) :=
  let writeSize := Z.of_nat (length buf) in
  let newSize := Z.max (currentSize oi) (u64 (offset + writeSize)) in
  let sizeToAdd := u64 (newSize - currentSize oi) in
  ok ← dc (PreAllocSpace (rootPath cfg) (totalDirectory cfg) sizeToAdd);
  if negb ok then mret (- ENOSPC, oi)
  else if negb (is_direct (oflags oi)) then write_all (length buf) oi buf offset sizeToAdd (currentSize oi) newSize
  else
    got ← fs posix_alloc;
    if negb got then dc (FreePreAllocSpace sizeToAdd) ;; mret (- ENOMEM, oi)
    else
      retSize ← fs (posix_pwrite (physicalFd oi) buf offset);
      if decide (retSize < 0) then
        err ← errno;
        dc (FreePreAllocSpace sizeToAdd) ;;
        mret (- err, oi)
      else update_size oi newSize 0 sizeToAdd.

(** ** Reading *)

(** pread of a cache file: what came instead of [want] bytes is an error with
    errno, after a second attempt when that is EAGAIN; [ty] is the type of the
    variable for the result. *)
Definition pread_checked (ty : Z → Z) (fd n off want : Z) : SM (Z * list Z) :=
  '(r, bs) ← pread fd n off;
  if decide (ty r = want) then mret (ty r, bs)
  else
    err ← errno;
    if decide (err = EAGAIN) then
      '(r, bs) ← pread fd want off;
      if decide (ty r = want) then mret (ty r, bs) else err ← errno; mret (- err, bs)
    else mret (- err, bs).

(** Read from local cache file, remote cache file, or obs. *)
Definition ReadFileLR (oi : Open) (offset readBufferSize : Z) : SM (Z * list Z * Open) :=
  if decide (offset >= i64 (currentSize oi)) then mret (0, [], oi)
  else
    let checkReadLength := Z.min readBufferSize (u64 (currentSize oi - offset)) in
    local ← is_local oi;
    '(retSize, bs, oi) ←
      (if (local : bool) then
         s ← mget;
         if decide (physicalFd oi ≠ UINT64_MAX ∧ TestLocked (inodeId oi) LockX (s_locks s) = false) then
           '(retSize, bs) ← pread_checked i32 (physicalFd oi) readBufferSize offset checkReadLength;
           mret (retSize, bs, oi)
         else mret (-1, [], oi)
       else if remoteFailed oi then mret (-1, [], oi)
       else
         n ← nodes;
         '(retSize, bs) ←
           match GetRpcConnection (oi_nodeId oi) n with
           | Some e => at_peer e (λ st, client_ReadFile (physicalFd oi) readBufferSize offset (path oi))
           | None => mret (- EHOSTUNREACH, [])
           end;
         mret (retSize, bs, if decide (retSize ≠ checkReadLength) then oi <| remoteFailed := true |> else oi));
    if decide (retSize < 0 ∧ isRemoteCall oi = false ∧ persistToStorage cfg = true) then
      '(ret, bs) ← obs (ReadObject (object_of (path oi)) offset readBufferSize None true);
      if decide (i32 ret < 0) then mret (- EIO, bs, oi) else mret (i32 ret, bs, oi)
    else mret (retSize, bs, oi).

Definition StopPreReadThreaded (oi : Open) : Open :=
  oi <| preReadStopped := true |> <| directReadFile := true |> <| readStream ::= rs_StopPushThreaded |>.

Definition StartPreReadThreaded (oi : Open) : bool * Open :=
  let fileBlocks := i32 (u64 (u64 (currentSize oi + CUCKOO_BLOCK_SIZE cfg) - 1) / CUCKOO_BLOCK_SIZE cfg) in
  let '(ok, t) := rs_Start fileBlocks (CUCKOO_BLOCK_SIZE cfg) (readStream oi) in
  (ok, oi <| readStream := t |>).

(** With O_DIRECT through an aligned buffer. *)
Definition RandomRead (oi : Open) (size offset : Z) : SM (Z * list Z * Open) :=
  if negb (is_direct (oflags oi)) then
    '(ret, bs, oi) ← ReadFileLR oi offset size;
    mret (i32 ret, bs, oi)
  else
    got ← fs posix_alloc;
    if negb got then mret (- ENOMEM, [], oi)
    else '(ret, bs, oi) ← ReadFileLR oi offset size; mret (i32 ret, bs, oi).

Definition SequenceRead (oi : Open) (size : Z) : Z * list Z * Open :=
  let '(ret, bs, t) := rs_WaitPop size (readStream oi) in
  let retSize := i32 ret in
  let oi := oi <| readStream := t |> in
  (retSize, bs, if decide (retSize > 0) then oi <| serialReadEnd := serialReadEnd oi + retSize |> else oi).

Definition ReadToBuffer (oi : Open) (size offset : Z) : SM (Z * list Z * Open) :=
  if directReadFile oi then RandomRead oi size offset
  else if decide (serialReadEnd oi ≠ offset) then RandomRead (StopPreReadThreaded oi) size offset
  else mret (SequenceRead oi size).

(** ** Loading a file from the object storage *)

(** loadObs of DownLoadFromStorage and of DownLoadFromStorageForBrpc: the bytes
    put into the buffer, if any *)
Definition loadObs (inode fileSize fd : Z) (object : string) (bufSize : Z) (toBuffer isSync : bool) : SM (Z * option (list Z)) :=
  '(ret, bs) ← obs (ReadObject object 0 (if toBuffer then bufSize else 0) (Some fd) toBuffer);
  close fd ;;
  let size := i32 ret in
  (if decide (size < 0) then fs (posix_remove (file_name inode)) ;; mret ()
   else dc (InsertAndUpdate inode fileSize isSync)) ;;
  dc (FreePreAllocSpace fileSize) ;;
  mret (if decide (size < 0) then - EIO else 0, if toBuffer then Some bs else None).

(** DownLoadFromStorage after the lock: [fileSize] bytes are reserved and given
    to the disk cache.  The lambda does not use [lockerPtr] and so does not
    keep it: the lock is released when the function returns. *)
Definition download (inode fileSize bufSize : Z) (object : string) (isSync toBuffer : bool) : SM (Z * option (list Z)) :=
  found ← dc (Find (rootPath cfg) (totalDirectory cfg) inode isSync);
  if (found : bool) then mret (0, None)
  else
    ok ← dc (PreAllocSpace (rootPath cfg) (totalDirectory cfg) fileSize);
    if negb ok then mret (- ENOSPC, None)
    else
      fd ← fs (posix_open (file_name inode) (Z.lor O_WRONLY O_CREAT));
      if decide (fd < 0) then
        err ← errno;
        dc (FreePreAllocSpace fileSize) ;;
        mret (- err, None)
      else if isSync then loadObs inode fileSize fd object bufSize toBuffer isSync
      else Submit (LoadTask inode fileSize fd object) ;; mret (0, None).

Definition with_file_lock {A} (inode : Z) (wait : bool) (busy : A) (m : SM A) : SM A :=
  locked ← lock_file inode wait;
  if (locked : bool) then a ← m; unlock_file inode ;; mret a else mret busy.

Definition fill_buffer (bs : option (list Z)) (oi : Open) : Open :=
  match bs with Some b => oi <| readBuffer := b |> | None => oi end.

Definition DownLoadFromStorage (oi : Open) (isSync toBuffer : bool) : SM (Z * Open) :=
  '(ret, bs) ← with_file_lock (inodeId oi) isSync (0, None)
                 (download (inodeId oi) (originalSize oi) (readBufferSize oi) (object_of (path oi)) isSync toBuffer);
  mret (ret, fill_buffer bs oi).

Definition DownLoadFromStorageForBrpc (inode : Z) (p : string) (bufSize : Z) (isSync toBuffer : bool) : SM (Z * option (list Z)) :=
  with_file_lock inode isSync (0, None) (download inode bufSize bufSize (object_of p) isSync toBuffer).

(** The lock goes to the task, or is released. *)
Definition WriteToFileAsync (inode : Z) (buf : list Z) (bufSize : Z) : SM Z :=
  locked ← lock_file inode false;
  if negb locked then mret 0
  else
    found ← dc (Find (rootPath cfg) (totalDirectory cfg) inode false);
    if (found : bool) then unlock_file inode ;; mret 0
    else
      ok ← dc (PreAllocSpace (rootPath cfg) (totalDirectory cfg) bufSize);
      if negb ok then unlock_file inode ;; mret (- ENOSPC)
      else
        fd ← fs (posix_open (file_name inode) (Z.lor O_WRONLY O_CREAT));
        if decide (fd < 0) then
          err ← errno;
          dc (FreePreAllocSpace bufSize) ;;
          unlock_file inode ;;
          mret (- err)
        else Submit (WriteTask inode bufSize fd buf) ;; mret 0.

(** A thread of the pool runs a task. *)
Definition run_task (t : task) : SM () :=
  match t with
  | LoadTask inode fileSize fd object => loadObs inode fileSize fd object 0 false false ;; mret ()
  | WriteTask inode bufSize fd buf =>
    retSize ← fs (posix_pwrite fd buf 0);
    close fd ;;
    (if decide (i32 retSize < 0) then mret () else dc (InsertAndUpdate inode bufSize false)) ;;
    dc (FreePreAllocSpace bufSize) ;;
    unlock_file inode
  end.
Definition run_pool (i : nat) : SM () :=
  s ← mget;
  match s_tasks s !! i with
  | Some t => mput (s <| s_tasks ::= delete i |>) ;; run_task t
  | None => mret ()
  end.

(** ** Open *)

(** The local branch: [fileName] is opened in the cache, or created, or loaded. *)
Definition open_cached (oi : Open) : SM (Z * Open) :=
  (if nodeFail oi then dc (DeleteOldCacheWithNoPin (rootPath cfg) (totalDirectory cfg) (inodeId oi)) else mret ()) ;;
  found ← dc (Find (rootPath cfg) (totalDirectory cfg) (inodeId oi) true);
  if (found : bool) then
    localFd ← fs (posix_open (file_name (inodeId oi)) (oflags oi));
    if decide (localFd < 0) then
      err ← errno;
      dc (Unpin (inodeId oi)) ;;
      mret (- err, oi)
    else mret (0, oi <| physicalFd := localFd |>)
  else if decide (Z.land (oflags oi) O_ACCMODE ≠ O_RDONLY) then
    '(ret, oi) ← (if decide (Z.land (oflags oi) O_CREAT = 0 ∧ originalSize oi > 0) then
                    if persistToStorage cfg then DownLoadFromStorage oi true false
                    else access (file_name (inodeId oi)) ;; mret (- ENOENT, oi)
                  else mret (0, oi));
    if decide (ret ≠ 0) then mret (ret, oi)
    else
      localFd ← fs (posix_open (file_name (inodeId oi)) (Z.lor (oflags oi) O_CREAT));
      if decide (localFd < 0) then err ← errno; mret (- err, oi)
      else
        (if decide (originalSize oi = 0 ∨ Z.land (oflags oi) O_CREAT ≠ 0) then dc (InsertAndUpdate (inodeId oi) 0 true) else mret ()) ;;
        mret (0, oi <| physicalFd := localFd |>)
  else if persistToStorage cfg then DownLoadFromStorage oi false false
  else access (file_name (inodeId oi)) ;; mret (- ENOENT, oi).

(** What OpenFile does once the file is open at its node. *)
Definition set_stream (oi : Open) : Z * Open :=
  let '(ret, w) := SetFd (physicalFd oi) (SetDirect (is_direct (oflags oi)) (SetInodeId (inodeId oi) (writeStream oi))) in
  (ret, oi <| writeStream := w |>).

(** OpenFile calls OpenFileFromRemote, which calls OpenFile when the file has
    moved to this node: [remote] is OpenFileFromRemote. *)
Definition OpenFile_with (remote : Open → SM (Z * Open)) (oi : Open) : SM (Z * Open) :=
  if decide (physicalFd oi = UINT64_MAX) then
    oi ← AllocNodeId oi;
    local ← is_local oi;
    '(ret, oi) ← (if (local : bool) then open_cached oi else remote oi);
    if decide (ret ≠ 0) then mret (ret, oi) else mret (set_stream oi)
  else mret (0, oi).

(** One attempt of the loop at the node of the file: its result, when there is a
    connection. *)
Definition try_remote (oi : Open) (largeFile : bool) : SM (option Z * Open) :=
  n ← nodes;
  match GetRpcConnection (oi_nodeId oi) n with
  | None => mret (None, oi)
  | Some e =>
    let oi := oi <| client := e |> in
    if largeFile then
      '(ret, fd) ← at_peer e (λ _, client_OpenFile (inodeId oi) (oflags oi) (originalSize oi) (path oi) (nodeFail oi));
      mret (Some ret, match fd with Some d => oi <| physicalFd := d |> | None => oi end)
    else
      '(ret, bs) ← at_peer e (λ _, client_ReadSmallFile (inodeId oi) (originalSize oi) (path oi) (oflags oi) (nodeFail oi));
      mret (Some ret, if decide (ret = 0) then oi <| readBuffer := bs |> else oi)
  end.

(** After the loop. *)
Definition remote_result (oi : Open) (largeFile : bool) (ret : Z) : SM (Z * Open) :=
  if decide (ret = 0 ∨ largeFile = true) then
    mret (if decide (ret > 0) then - ret else ret,
          if ConnectionError ret || IoError ret then oi else oi <| writeStream ::= SetClient true |>)
  else if persistToStorage cfg then
    '(ret, bs) ← obs (ReadObject (object_of (path oi)) 0 (readBufferSize oi) None true);
    let oi := oi <| readBuffer := bs |> in
    if decide (ret < 0) then mret (- EIO, oi) else mret (0, oi)
  else mret (if decide (ret > 0) then - ret else ret, oi).

(** Another node for the file; in inference also for the files beside it. *)
Definition switch_node (oi : Open) : SM Open :=
  n ← nodes;
  let oi := oi <| oi_nodeId := AllocNode (inodeId oi) n |> <| nodeFail := true |> in
  (if isInference cfg then
     match GetParentPath (path oi) (parentPathLevel cfg) with
     | Some p => mmodify (λ s, s <| s_hash ::= <[p := oi_nodeId oi]> |>)
     | None => mundefined
     end
   else mret ()) ;;
  mret oi.

(** The for loop with [k] attempts left; [here] is OpenFile. *)
Fixpoint remote_loop (here : Open → SM (Z * Open)) (k : nat) (oi : Open) (largeFile : bool) (ret : Z) : SM (Z * Open) :=
  match k with
  | O => remote_result oi largeFile ret
  | S k' =>
    if ConnectionError ret then
      '(answer, oi) ← try_remote oi largeFile;
      let ret := default ret answer in
      if ConnectionError ret then
        set_nodes (DeleteNode (oi_nodeId oi)) ;;
        if decide (persistToStorage cfg = false ∧ Z.land (oflags oi) O_CREAT = 0) then remote_result oi largeFile ret
        else
          oi ← switch_node oi;
          local ← is_local oi;
          if (local : bool) then here oi else remote_loop here k' oi largeFile ret
      else remote_loop here k' oi largeFile ret
    else remote_result oi largeFile ret
  end.

(** A file of this node is opened without going to another one. *)
Definition OpenFileHere (oi : Open) : SM (Z * Open) := OpenFile_with (λ _, mdiverge) oi.

Definition OpenFileFromRemote (oi : Open) (largeFile : bool) : SM (Z * Open) :=
  n ← nodes;
  remote_loop OpenFileHere (Z.to_nat (GetNumberofAllNodes n)) oi largeFile EHOSTUNREACH.

Definition OpenFile (oi : Open) : SM (Z * Open) := OpenFile_with (λ oi, OpenFileFromRemote oi true) oi.

(** ** Write and read, called by FUSE *)

(** Complete of the write stream of an open file. *)
Definition on_stream {A} (oi : Open) (m : Stub R → M (IO F R) A) : SM A := io (m (peers (client oi))).
Definition complete_stream (oi : Open) (isFlush isSync : bool) : SM (Z * Open) :=
  '(ret, w) ← on_stream oi (λ _, Complete (rootPath cfg) (totalDirectory cfg) (writeStream oi) (currentSize oi) isFlush isSync);
  mret (ret, oi <| writeStream := w |>).

(** Opens the physical file when that has not been done. *)
Definition ensure_open (oi : Open) : SM (Z * Open) :=
  if isOpened oi then mret (0, oi)
  else
    '(ret, oi) ← OpenFile oi;
    mret (ret, if decide (ret = 0) then oi <| isOpened := true |> else oi).

Definition WriteFile (oi : Open) (buf : option (list Z)) (size offset : Z) : SM (Z * Open) :=
  let oi := if preReadStarted oi && negb (preReadStopped oi) then StopPreReadThreaded oi else oi in
  '(ret, oi) ← ensure_open oi;
  if decide (ret ≠ 0) then mret (ret, oi <| writeFail := true |>)
  else
    '(ret, w) ← on_stream oi (λ _, Push (rootPath cfg) (totalDirectory cfg) (writeStream oi) (mkWriteBuffer buf size) offset (currentSize oi));
    let oi := oi <| writeStream := w |> in
    if decide (ret ≠ 0) then mret (ret, oi <| writeFail := true |>)
    else if decide (size ≠ 0) then mret (0, oi <| currentSize := Z.max (currentSize oi) (u64 (size + offset)) |>)
    else mret (0, oi).

(** first persist the current write stream *)
Definition persist_written (oi : Open) : SM (Z * Open) :=
  if decide (GetSize (writeStream oi) > 0) then complete_stream oi true false else mret (0, oi).

(** init and start the read stream *)
Definition start_stream (oi : Open) : SM Open :=
  if preReadStarted oi then mret oi
  else
    let oi := oi <| preReadStarted := true |> in
    local ← is_local oi;
    mret (if (local : bool) then StopPreReadThreaded oi
          else let '(ok, oi) := StartPreReadThreaded oi in if (ok : bool) then oi else (StartPreReadThreaded oi).2).

Definition ReadFile (oi : Open) (size offset : Z) : SM (Z * list Z * Open) :=
  '(ret, oi) ← persist_written oi;
  if decide (ret ≠ 0) then mret (ret, [], oi)
  else if decide (originalSize oi >= READ_BIGFILE_SIZE cfg ∨ Z.land (oflags oi) O_ACCMODE ≠ O_RDONLY) then
    '(ret, oi) ← ensure_open oi;
    if decide (ret ≠ 0) then mret (ret, [], oi)
    else oi ← start_stream oi; ReadToBuffer oi size offset
  else if decide (u64 (offset + size) ≤ u64 (readBufferSize oi)) then mret (i32 size, file_read (readBuffer oi) offset size, oi)
  else if decide (offset < readBufferSize oi) then
    mret (i32 (readBufferSize oi - offset), file_read (readBuffer oi) offset (readBufferSize oi - offset), oi)
  else mret (0, [], oi).

(** ** Flush and close *)
Definition FlushToStorage (p : string) (inode : Z) : SM Z :=
  ret ← obs (PutFile (object_of p) (file_name inode));
  mret (if decide (ret = 0) then 0 else - EIO).

(** The end of CloseTmpFiles, for a file of this node. *)
Definition finish_local (oi : Open) (isFlush isSync : bool) (ret : Z) : SM (Z * Open) :=
  if negb isFlush then
    close (physicalFd oi) ;;
    dc (Unpin (inodeId oi)) ;;
    mret (ret, oi)
  else
    dc (InsertAndUpdate (inodeId oi) (currentSize oi) false) ;;
    if decide (writeCnt oi > 0 ∧ writeFail oi = false) then
      (if isSync then fs (λ f, ((), posix_fsync (physicalFd oi) f)) else mret ()) ;;
      if persistToStorage cfg then
        ret ← FlushToStorage (path oi) (inodeId oi);
        mret (ret, oi <| writeFail := bool_decide (ret ≠ 0) |>)
      else mret (ret, oi)
    else mret (ret, oi).

(** CloseTmpFiles calls itself to flush what has not been flushed before a close:
    [flush] is that call. *)
Definition CloseTmpFiles_with (flush : Open → SM (Z * Open)) (oi : Open) (isFlush isSync : bool) : SM (Z * Open) :=
  if decide (physicalFd oi = UINT64_MAX ∨ oi_nodeId oi = -1) then mret (0, oi)
  else
    '(ret, oi) ←
      (if isFlush then mret (0, oi <| isFlushed := true |>)
       else if isFlushed oi then mret (0, oi)
       else '(ret, oi) ← flush oi; mret (ret, if decide (ret ≠ 0) then oi <| writeFail := true |> else oi));
    let oi := if negb isFlush && negb (isRemoteCall oi)
              then StopPreReadThreaded oi <| readStream ::= rs_WaitPushEnded |> else oi in
    '(ret, oi) ←
      (if isRemoteCall oi then mret (ret, oi)
       else
         '(completeRet, oi) ← complete_stream oi isFlush isSync;
         mret (if decide (completeRet ≠ 0) then (completeRet, oi <| writeFail := true |>) else (ret, oi)));
    local ← is_local oi;
    if (local : bool) then finish_local oi isFlush isSync ret else mret (ret, oi).

Definition flush_files (isSync : bool) (oi : Open) : SM (Z * Open) := CloseTmpFiles_with (λ _, mdiverge) oi true isSync.
Definition CloseTmpFiles (oi : Open) (isFlush isSync : bool) : SM (Z * Open) := CloseTmpFiles_with (flush_files isSync) oi isFlush isSync.

(** ** Small files *)

(** A cache hit: open, read, close, unpin. *)
Definition read_cached (inode size : Z) : SM (Z * option (list Z)) :=
  localFd ← fs (posix_open (file_name inode) O_RDONLY);
  if decide (localFd < 0) then
    err ← errno;
    dc (Unpin inode) ;;
    mret (- err, None)
  else
    '(ret, bs) ← pread_checked id localFd size 0 size;
    close localFd ;;
    dc (Unpin inode) ;;
    mret (if decide (ret = size) then 0 else ret, Some bs).

Definition ReadSmallFiles (oi : Open) : SM (Z * Open) :=
  oi ← AllocNodeId oi;
  local ← is_local oi;
  if negb local then OpenFileFromRemote oi false
  else
    (if nodeFail oi then dc (DeleteOldCacheWithNoPin (rootPath cfg) (totalDirectory cfg) (inodeId oi)) else mret ()) ;;
    found ← dc (Find (rootPath cfg) (totalDirectory cfg) (inodeId oi) true);
    if (found : bool) then
      '(ret, bs) ← read_cached (inodeId oi) (readBufferSize oi);
      mret (ret, fill_buffer bs oi)
    else if negb (persistToStorage cfg) then mret (- ENOENT, oi)
    else if decide (Z.land (oflags oi) O_ACCMODE ≠ O_RDONLY) then DownLoadFromStorage oi true true
    else if isRemoteCall oi then
      '(ret, oi) ← DownLoadFromStorage oi false false;
      mret (if decide (ret = 0) then - ENOENT else ret, oi)
    else
      '(ret, bs) ← obs (ReadObject (object_of (path oi)) 0 (readBufferSize oi) None true);
      let oi := oi <| readBuffer := bs |> in
      if decide (i32 ret < 0) then mret (- EIO, oi)
      else ret ← WriteToFileAsync (inodeId oi) bs (readBufferSize oi); mret (ret, oi).

Definition ReadSmallFilesForBrpc (inode : Z) (p : string) (size flags : Z) (nodeFailed : bool) : SM (Z * option (list Z)) :=
  (if nodeFailed then dc (DeleteOldCacheWithNoPin (rootPath cfg) (totalDirectory cfg) inode) else mret ()) ;;
  found ← dc (Find (rootPath cfg) (totalDirectory cfg) inode true);
  if (found : bool) then read_cached inode size
  else if negb (persistToStorage cfg) then mret (- ENOENT, None)
  else if decide (Z.land flags O_ACCMODE ≠ O_RDONLY) then DownLoadFromStorageForBrpc inode p size true true
  else
    '(ret, bs) ← DownLoadFromStorageForBrpc inode p size false false;
    mret (if decide (ret = 0) then - ENOENT else ret, bs).

(** ** Other functions *)
Definition delete_object (p : string) (ret : Z) : SM Z :=
  if persistToStorage cfg then
    ret ← obs (λ '(o, f), let '(r, o') := DeleteObject (object_of p) o in (r, (o', f)));
    mret (if decide (ret ≠ 0) then - EIO else ret)
  else mret ret.

Definition DeleteFiles (inode node : Z) (p : string) : SM Z :=
  n ← nodes;
  if decide (node = -1 ∨ IsLocal node n = true) then
    found ← dc (Find (rootPath cfg) (totalDirectory cfg) inode false);
    if (found : bool) then
      ret ← dc (DiskCache.Delete (rootPath cfg) (totalDirectory cfg) inode);
      if decide (ret ≠ 0) then mret ret else delete_object p ret
    else if negb (persistToStorage cfg) then mret (- ENOENT)
    else delete_object p 0
  else
    match GetRpcConnection node n with
    | Some e =>
      ret ← at_peer e (λ _, client_DeleteFile inode node p);
      if decide (ret ≠ 0) then delete_object p ret else mret ret
    | None => mret (- EHOSTUNREACH)
    end.

Definition add_stat (a b : StatFSBuf) : StatFSBuf :=
  mkStatFSBuf (u64 (sf_blocks a + sf_blocks b)) (u64 (sf_bfree a + sf_bfree b)) (u64 (sf_bavail a + sf_bavail b))
    (u64 (sf_files a + sf_files b)) (u64 (sf_ffree a + sf_ffree b)).

(** The loop over the nodes of StatFS. *)
Fixpoint stat_nodes (ns : list Z) (acc : StatFSBuf) : SM (Z * StatFSBuf) :=
  match ns with
  | [] => mret (0, acc)
  | node :: ns' =>
    n ← nodes;
    if IsLocal node n then stat_nodes ns' acc
    else
      match GetRpcConnection node n with
      | Some e =>
        '(ret, buf) ← at_peer e (λ _, client_StatFS (GetRpcEndPoint node n));
        stat_nodes ns' (match buf with Some b => if decide (ret = 0) then add_stat acc b else acc | None => acc end)
      | None => mret (- EHOSTUNREACH, acc)
      end
  end.

Definition statvfs (p : string) : SM (option StatFSBuf) := s ← mget; mret (posix_statvfs p (io_fs (s_io s))).

Definition no_stat : StatFSBuf := mkStatFSBuf 0 0 0 0 0.

Definition StatFS : SM (Z * StatFSBuf) :=
  if persistToStorage cfg then s ← mget; mret (StatFs (s_obs s))
  else
    local ← statvfs (dataPath cfg);
    match local with
    | None => err ← errno; mret (- err, no_stat)
    | Some buf => n ← nodes; stat_nodes (GetAllNodeId n) buf
    end.

(** [rehash]: the order of iteration of the map of nodes after an insertion. *)
Definition StatFSForBrpc (rehash : list (Z * string) → list (Z * string)) (p : string) : SM (Z * StatFSBuf) :=
  n ← nodes;
  let '(local, n') := IsLocal_addr rehash p n in
  set_nodes (λ _, n') ;;
  if negb local then mret (0, no_stat)
  else
    st ← statvfs (dataPath cfg);
    match st with
    | Some buf => mret (0, buf)
    | None => err ← errno; mret (- err, no_stat)
    end.

Definition CopyData (srcName dstName : string) : SM Z :=
  obs (λ '(o, f), let '(r, o') := CopyObject (object_of srcName) (object_of dstName) o in (r, (o', f))).
Definition DeleteDataAfterRename (objectName : string) : SM Z :=
  obs (λ '(o, f), let '(r, o') := DeleteObject (object_of objectName) o in (r, (o', f))).

Definition TruncateFile (oi : Open) (size : Z) : SM (Z * Open) :=
  '(ret, oi) ← ensure_open oi;
  if decide (ret ≠ 0) then mret (ret, oi)
  else
    local ← is_local oi;
    if (local : bool) then
      ret ← fs (posix_ftruncate (physicalFd oi) size);
      if decide (ret ≠ 0) then err ← errno; mret (- err, oi) else mret (0, oi)
    else
      n ← nodes;
      match GetRpcConnection (oi_nodeId oi) n with
      | Some e => ret ← at_peer e (λ _, client_TruncateFile (physicalFd oi) size); mret (ret, oi)
      | None => mret (- EHOSTUNREACH, oi)
      end.

Definition TruncateOpenInstance (oi : Open) (size : Z) : SM (Z * Open) :=
  '(ret, oi) ← persist_written oi;
  if decide (ret ≠ 0) then mret (ret, oi)
  else
    local ← is_local oi;
    ret ← (if negb local && isOpened oi then
             n ← nodes;
             match GetRpcConnection (oi_nodeId oi) n with
             | Some e => at_peer e (λ _, client_TruncateOpenInstance (physicalFd oi) size)
             | None => mret 0
             end
           else mret 0);
    if decide (ret ≠ 0) then mret (ret, oi)
    else mret (0, oi <| currentSize := u64 size |> <| originalSize := u64 size |>).
End store.
