(* ===== verification/Server.v ===== *)
(** * Open files and the service for other nodes
      (common/src/buffer/dir_open_instance.cpp, cuckoo_store/src/brpc/brpc_main.cpp)

    [CuckooFd] numbers the open files of a node.  The handlers of the service
    find an open file by its number and call the store.  An open instance is
    shared by pointers in the code: here it is known by its number, under which
    the map keeps it.  A handler runs with the instance's closeMutex, so that it
    is not closed meanwhile. *)
From S2P Require Import Prelude Posix FileLock DiskCache IOClient WriteStream Node Store.
Local Open Scope Z_scope.

Definition START_FD : Z := 3.
Definition MAX_OPENINSTANCE_NUM : Z := 4000.
Definition ALIGNMENT : Z := 512.

Record CuckooFd (T : Type) := mkFds {
  openInstanceMap : gmap Z (OpenInstance T);
  inodeToOpenInstanceMap : gmap Z (gset Z);
  nextFD : Z;
  currOpenInstance : Z }.
Arguments mkFds {T}.
Arguments openInstanceMap {T} c. Arguments inodeToOpenInstanceMap {T} c. Arguments nextFD {T} c. Arguments currOpenInstance {T} c.
#[global] Instance eta_CuckooFd T : Eta (CuckooFd T) := λ c,
  mkFds (openInstanceMap c) (inodeToOpenInstanceMap c) (nextFD c) (currOpenInstance c).

Section fds.
Context {T : Type} `{!ReadAhead T}.

Definition new_CuckooFd : CuckooFd T := mkFds ∅ ∅ START_FD 0.

(** nextFD++ until the number is none of 0, 1, 2 and the largest; [fuel] calls. *)
Fixpoint ObtainFd_fuel (fuel : nat) (c : CuckooFd T) : option Z * CuckooFd T :=
  match fuel with
  | O => (None, c)
  | S k =>
    let newFd := nextFD c in
    let c := c <| nextFD := u64 (newFd + 1) |> in
    if decide (newFd ≤ 2 ∨ newFd = UINT64_MAX) then ObtainFd_fuel k c else (Some newFd, c)
  end.

(** At most four numbers in a row are refused ([ObtainFd_fresh]). *)
Definition ObtainFd (c : CuckooFd T) : Z * CuckooFd T :=
  let '(fd, c) := ObtainFd_fuel 5 c in (default 0 fd, c).

(** try_emplace: an entry that exists stays *)
Definition AddOpenInstance (fd : Z) (oi : OpenInstance T) (c : CuckooFd T) : CuckooFd T :=
  match openInstanceMap c !! fd with Some _ => c | None => c <| openInstanceMap ::= <[fd := oi]> |> end.

Definition add_to_inode (inode fd : Z) (c : CuckooFd T) : CuckooFd T :=
  c <| inodeToOpenInstanceMap ::= <[inode := {[fd]} ∪ default ∅ (inodeToOpenInstanceMap c !! inode)]> |>.

Definition ReleaseOpenInstance (c : CuckooFd T) : CuckooFd T := c <| currOpenInstance := u32 (currOpenInstance c - 1) |>.

Definition DeleteOpenInstance (fd : Z) (subCnt : bool) (c : CuckooFd T) : Z * CuckooFd T :=
  match openInstanceMap c !! fd with
  | None => (- EBADF, c)
  | Some oi =>
    let c := c <| openInstanceMap ::= delete fd |> in
    let left := default ∅ (inodeToOpenInstanceMap c !! inodeId oi) ∖ {[fd]} in
    let c := c <| inodeToOpenInstanceMap ::= if decide (left = ∅) then delete (inodeId oi) else <[inodeId oi := left]> |> in
    (0, if subCnt then ReleaseOpenInstance c else c)
  end.

(** WaitGetNewOpenInstance when [memory] for it can be had: a new instance, or a
    null pointer; with [addCnt] it waits ([None]) while there are too many. *)
Definition WaitGetNewOpenInstance (addCnt memory : bool) (c : CuckooFd T) : option (option (OpenInstance T) * CuckooFd T) :=
  if addCnt && negb (bool_decide (currOpenInstance c < MAX_OPENINSTANCE_NUM)) then None
  else if memory then
    Some (Some new_OpenInstance, if addCnt then c <| currOpenInstance := u32 (currOpenInstance c + 1) |> else c)
  else Some (None, c).

(** AttachFd of a new instance for a file. *)
Definition AttachFd (inode flags : Z) (buffer : list Z) (size : Z) (p : string) (node : Z) (isRead memory : bool)
    (c : CuckooFd T) : option (Z * CuckooFd T) :=
  match WaitGetNewOpenInstance true memory c with
  | None => None
  | Some (None, c) => Some (UINT64_MAX, c)
  | Some (Some oi, c) =>
    let '(fd, c) := ObtainFd c in
    let oi := (if isRead then oi <| readBuffer := buffer |> else oi) <| inodeId := inode |> <| physicalFd := UINT64_MAX |>
                <| oflags := flags |> <| originalSize := size |> <| currentSize := size |> <| oi_nodeId := node |> <| path := p |> in
    Some (fd, add_to_inode inode fd (AddOpenInstance fd oi c))
  end.

(** AttachFd of an instance that is there. *)
Definition AttachFd_instance (oi : OpenInstance T) (c : CuckooFd T) : Z * CuckooFd T :=
  let '(fd, c) := ObtainFd c in
  (fd, add_to_inode (inodeId oi) fd (AddOpenInstance fd oi c)).

Definition GetOpenInstanceByFd (fd : Z) (c : CuckooFd T) : option (OpenInstance T) := openInstanceMap c !! fd.

Definition GetInodetoOpenInstanceSet (inode : Z) (c : CuckooFd T) : gset Z := default ∅ (inodeToOpenInstanceMap c !! inode).

(** ** The table of open files *)

Lemma ObtainFd_small (c : CuckooFd T) : 2 < nextFD c < UINT64_MAX → ObtainFd c = (nextFD c, c <| nextFD := nextFD c + 1 |>).
Proof.
  intros Hn. unfold ObtainFd. cbn [ObtainFd_fuel]. rewrite decide_False by lia. simpl. f_equal. unfold u64, UINT64_MAX in *.
  by rewrite Z.mod_small by lia.
Qed.

(** Whatever the counter is, a number is found that is none of 0, 1, 2 and the
    one for "no file". *)
Lemma ObtainFd_fresh (c : CuckooFd T) : 0 ≤ nextFD c < 2 ^ 64 →
  2 < (ObtainFd c).1 < UINT64_MAX ∧ ∃ n, (ObtainFd c).2 = c <| nextFD := n |> ∧ n = (ObtainFd c).1 + 1.
Proof.
  intros Hn. assert (2 < nextFD c < UINT64_MAX ∨ nextFD c = UINT64_MAX ∨ nextFD c = 0 ∨ nextFD c = 1 ∨ nextFD c = 2) as Hc
    by (unfold UINT64_MAX in *; lia).
  destruct c as [om im n cnt]. simpl in *. destruct Hc as [Hc|[->|[->|[->| ->]]]].
  - rewrite ObtainFd_small by done. simpl. eauto.
  - split; [vm_compute; done|by eexists].
  - split; [vm_compute; done|by eexists].
  - split; [vm_compute; done|by eexists].
  - split; [vm_compute; done|by eexists].
Qed.

(** The two maps agree: the set of an inode holds the numbers of its open files,
    is not empty, and every number has been given out. *)
Record fds_ok (c : CuckooFd T) : Prop := {
  fk_set inode fd : fd ∈ GetInodetoOpenInstanceSet inode c ↔ ∃ oi, openInstanceMap c !! fd = Some oi ∧ inodeId oi = inode;
  fk_some inode st : inodeToOpenInstanceMap c !! inode = Some st → st ≠ ∅;
  fk_used fd : is_Some (openInstanceMap c !! fd) → 2 < fd < nextFD c;
  fk_next : 2 < nextFD c }.

Lemma fds_ok_new : fds_ok new_CuckooFd.
Proof.
  split; [|by intros ? ?|by intros ? []|done]. intros i fd. unfold GetInodetoOpenInstanceSet. simpl. rewrite lookup_empty. simpl.
  split; [by intros ?%not_elem_of_empty|by intros (? & ? & _)].
Qed.

Lemma fds_ok_count (c : CuckooFd T) n : fds_ok c → fds_ok (c <| currOpenInstance := n |>).
Proof. by intros []. Qed.

(** A new number for an instance, as both AttachFd do it. *)
Definition attach (oi : OpenInstance T) (c : CuckooFd T) : Z * CuckooFd T :=
  let '(fd, c) := ObtainFd c in (fd, add_to_inode (inodeId oi) fd (AddOpenInstance fd oi c)).

Lemma attach_ok oi (c : CuckooFd T) : fds_ok c → nextFD c < UINT64_MAX →
  let '(fd, c') := attach oi c in
  fds_ok c' ∧ fd = nextFD c ∧ nextFD c' = nextFD c + 1 ∧ openInstanceMap c !! fd = None ∧ openInstanceMap c' = <[fd := oi]> (openInstanceMap c).
Proof.
  intros [Hset Hsome Hused Hnext] Hmax. unfold attach. rewrite ObtainFd_small by lia.
  assert (openInstanceMap c !! nextFD c = None) as Hnone by (apply eq_None_not_Some; intros H; apply Hused in H; lia).
  unfold AddOpenInstance. simpl. rewrite Hnone. split; [|done]. set (fd := nextFD c) in *. split; simpl.
  - intros i fd'. unfold GetInodetoOpenInstanceSet. simpl. destruct (decide (i = inodeId oi)) as [->|Hi].
    + rewrite lookup_insert_eq. simpl. rewrite elem_of_union, elem_of_singleton.
      change (default ∅ (inodeToOpenInstanceMap c !! inodeId oi)) with (GetInodetoOpenInstanceSet (inodeId oi) c). rewrite Hset.
      destruct (decide (fd' = fd)) as [->|Hf]; [rewrite lookup_insert_eq; naive_solver|rewrite lookup_insert_ne by done; naive_solver].
    + rewrite lookup_insert_ne by done. change (default ∅ (inodeToOpenInstanceMap c !! i)) with (GetInodetoOpenInstanceSet i c). rewrite Hset.
      destruct (decide (fd' = fd)) as [->|Hf]; [rewrite lookup_insert_eq; naive_solver|by rewrite lookup_insert_ne].
  - intros i st. destruct (decide (i = inodeId oi)) as [->|Hi].
    + rewrite lookup_insert_eq. intros [= <-]. set_solver.
    + rewrite lookup_insert_ne by done. apply Hsome.
  - intros fd'. destruct (decide (fd' = fd)) as [->|Hf]; [lia|]. rewrite lookup_insert_ne by done. intros H. apply Hused in H. lia.
  - lia.
Qed.

Lemma DeleteOpenInstance_ok fd sub (c : CuckooFd T) : fds_ok c → fds_ok (DeleteOpenInstance fd sub c).2.
Proof.
  intros [Hset Hsome Hused Hnext]. unfold DeleteOpenInstance. destruct (openInstanceMap c !! fd) as [oi|] eqn:Hoi; [|by split]. simpl.
  set (left := default ∅ _ ∖ _). match goal with |- fds_ok (if sub then ReleaseOpenInstance ?d else _) => set (d' := d) end.
  enough (fds_ok d') as Hd by (destruct sub; [by apply fds_ok_count|done]). clear sub. subst d'. split; simpl.
  - intros i fd'. unfold GetInodetoOpenInstanceSet. simpl.
    assert (default ∅ ((if decide (left = ∅) then delete (inodeId oi) else <[inodeId oi := left]>) (inodeToOpenInstanceMap c) !! i) =
            GetInodetoOpenInstanceSet i c ∖ {[fd]}) as ->.
    { destruct (decide (i = inodeId oi)) as [->|Hi].
      - destruct (decide (left = ∅)) as [He|He]; [rewrite lookup_delete_eq; simpl; by rewrite <-He|by rewrite lookup_insert_eq].
      - assert (fd ∉ GetInodetoOpenInstanceSet i c) as Hn by (rewrite Hset, Hoi; naive_solver).
        transitivity (GetInodetoOpenInstanceSet i c); [|set_solver].
        destruct (decide (left = ∅)); [by rewrite lookup_delete_ne|by rewrite lookup_insert_ne]. }
    rewrite elem_of_difference, elem_of_singleton, Hset. destruct (decide (fd' = fd)) as [->|Hf].
    + rewrite lookup_delete_eq. naive_solver.
    + rewrite lookup_delete_ne by done. naive_solver.
  - intros i st. destruct (decide (left = ∅)) as [He|He].
    + intros [_ H]%lookup_delete_Some. by eapply Hsome.
    + intros [[_ <-]|[_ H]]%lookup_insert_Some; [done|by eapply Hsome].
  - intros fd' [o [_ H]%lookup_delete_Some]. apply Hused. by exists o.
  - done.
Qed.

(** A call on an open file puts the instance back, of the same inode. *)
Lemma replace_ok fd oi oi' (c : CuckooFd T) : fds_ok c → openInstanceMap c !! fd = Some oi → inodeId oi' = inodeId oi →
  fds_ok (c <| openInstanceMap ::= <[fd := oi']> |>).
Proof.
  intros [Hset Hsome Hused Hnext] Hoi Hi. split; simpl; [|exact Hsome| |exact Hnext].
  - intros i fd'. change (GetInodetoOpenInstanceSet i (c <| openInstanceMap ::= <[fd:=oi']> |>)) with (GetInodetoOpenInstanceSet i c).
    rewrite Hset. destruct (decide (fd' = fd)) as [->|Hf]; [rewrite lookup_insert_eq; naive_solver|by rewrite lookup_insert_ne].
  - intros fd' [o H]. apply Hused. destruct (decide (fd' = fd)) as [->|Hf]; [eauto|]. rewrite lookup_insert_ne in H by done. eauto.
Qed.

(** ** Sequences of operations of the table *)
Inductive fd_op :=
  | OpAttach (inode flags : Z) (buffer : list Z) (size : Z) (p : string) (node : Z) (isRead memory : bool)
  | OpAttachInstance (oi : OpenInstance T)
  | OpDelete (fd : Z) (sub : bool)
  | OpCall (fd : Z) (f : OpenInstance T → OpenInstance T)
  | OpReleaseCount.

(** The number given out, if any; a call that has to wait does nothing yet. *)
Definition run_fd (o : fd_op) (c : CuckooFd T) : option Z * CuckooFd T :=
  match o with
  | OpAttach inode flags buffer size p node isRead memory =>
    match AttachFd inode flags buffer size p node isRead memory c with
    | Some (fd, c') => (if decide (fd = UINT64_MAX) then None else Some fd, c')
    | None => (None, c)
    end
  | OpAttachInstance oi => let '(fd, c') := AttachFd_instance oi c in (Some fd, c')
  | OpDelete fd sub => (None, (DeleteOpenInstance fd sub c).2)
  | OpCall fd f => (None, match openInstanceMap c !! fd with Some oi => c <| openInstanceMap ::= <[fd := f oi]> |> | None => c end)
  | OpReleaseCount => (None, ReleaseOpenInstance c)
  end.
Definition fd_op_ok (o : fd_op) : Prop := match o with OpCall _ f => ∀ oi, inodeId (f oi) = inodeId oi | _ => True end.

Fixpoint run_fds (l : list fd_op) (c : CuckooFd T) : list Z * CuckooFd T :=
  match l with
  | [] => ([], c)
  | o :: l' => let '(fd, c1) := run_fd o c in let '(fds, c2) := run_fds l' c1 in (option_list fd ++ fds, c2)
  end.

Lemma run_fd_ok o (c : CuckooFd T) : fds_ok c → fd_op_ok o → nextFD c < UINT64_MAX →
  let '(fd, c') := run_fd o c in
  fds_ok c' ∧ (nextFD c' = nextFD c ∧ fd = None ∨ nextFD c' = nextFD c + 1 ∧ fd = Some (nextFD c)).
Proof.
  intros Hok Ho Hmax. destruct o as [i fl b sz p n r m|oi|fd sub|fd f|]; simpl in *.
  - unfold AttachFd, WaitGetNewOpenInstance. destruct (true && _); [by split; [|left]|]. destruct m; [|by split; [|left]].
    set (c1 := c <| currOpenInstance := _ |>). assert (fds_ok c1) as Hok1 by (by apply fds_ok_count).
    match goal with |- context [AddOpenInstance _ ?o _] => set (oi := o) end.
    assert (inodeId oi = i) as Hi by (by destruct r). pose proof (attach_ok oi c1 Hok1 Hmax) as H. unfold attach in H. rewrite Hi in H.
    destruct (ObtainFd c1) as [fd c2]. destruct H as (H & Hfd & Hn & _). split; [done|]. right. split; [exact Hn|].
    rewrite decide_False; [by rewrite Hfd|]. rewrite Hfd. change (nextFD c1) with (nextFD c). lia.
  - pose proof (attach_ok oi c Hok Hmax) as H. unfold attach, AttachFd_instance in *. destruct (ObtainFd c) as [fd c2].
    destruct H as (H & Hfd & Hn & _). split; [done|]. right. split; [exact Hn|by rewrite Hfd].
  - split; [by apply DeleteOpenInstance_ok|]. left. split; [|done]. unfold DeleteOpenInstance. destruct (_ !! fd); [|done]. by destruct sub.
  - destruct (_ !! fd) eqn:Hfd; [|by split; [|left]]. split; [by eapply replace_ok|by left].
  - split; [by apply fds_ok_count|by left].
Qed.

(** (C33) The table of open files stays coherent: after any sequence of opens
    (of both kinds), closes and calls on open files, the set kept for an inode
    holds exactly the numbers of the open files of that inode and sets do not
    stay behind empty; and no number is given out twice, 0, 1, 2 and the one for
    "no file" never.  The sequence is shorter than the 64-bit counter. *)
Theorem open_files_coherent l (c : CuckooFd T) : fds_ok c → Forall fd_op_ok l → nextFD c + Z.of_nat (length l) ≤ UINT64_MAX →
  let '(fds, c') := run_fds l c in
  fds_ok c' ∧ NoDup fds ∧ (∀ fd, fd ∈ fds → 2 < fd < UINT64_MAX ∧ openInstanceMap c !! fd = None).
Proof.
  intros Hok Hl Hmax. enough (let '(fds, c') := run_fds l c in fds_ok c' ∧ NoDup fds ∧ ∀ fd, fd ∈ fds → nextFD c ≤ fd < UINT64_MAX) as H.
  { destruct (run_fds l c) as [fds c']. destruct H as (H1 & H2 & H3). split; [done|]. split; [done|]. intros fd Hfd. apply H3 in Hfd.
    pose proof (fk_next c Hok). split; [lia|]. apply eq_None_not_Some. intros Hs. apply (fk_used c Hok) in Hs. lia. }
  revert c Hok Hmax. induction Hl as [|o l Ho Hl IH]; intros c Hok Hmax; simpl.
  { split; [done|]. split; [constructor|]. by intros ? ?%elem_of_nil. }
  cbn [length] in Hmax. pose proof (run_fd_ok o c Hok Ho ltac:(lia)) as H1. destruct (run_fd o c) as [fd c1]. destruct H1 as [Hok1 Hn].
  specialize (IH c1 Hok1 ltac:(destruct Hn as [[-> _]|[-> _]]; lia)). destruct (run_fds l c1) as [fds c2]. destruct IH as (Hok2 & Hnd & Hr).
  split; [done|]. destruct Hn as [[Hn ->]|[Hn ->]]; simpl.
  - split; [done|]. intros fd' Hfd'. apply Hr in Hfd'. lia.
  - split; [constructor; [|done]; intros H%Hr; lia|]. intros fd' [->|Hfd']%elem_of_cons; [lia|]. apply Hr in Hfd'. lia.
Qed.
End fds.

(** ** The service *)
Record Server (F R B T : Type) := mkServer { v_store : Store F R B; v_fds : CuckooFd T }.
Arguments mkServer {F R B T}.
Arguments v_store {F R B T} s. Arguments v_fds {F R B T} s.
#[global] Instance eta_Server F R B T : Eta (Server F R B T) := λ s, mkServer (v_store s) (v_fds s).

Section server.
Context {F R B T : Type} `{!Posix F} `{!Statvfs F} `{!Storage B F} `{!ReadAhead T}.
Context (peers : string → Stub R) (cfg : Config) (rehash : list (Z * string) → list (Z * string)).
Local Abbreviation VM := (M (Server F R B T)).
Local Abbreviation Open := (OpenInstance T).

Definition store {A} (m : M (Store F R B) A) : VM A := mzoom v_store (λ t s, s <| v_store := t |>) m.
Definition on_fds {A} (f : CuckooFd T → A * CuckooFd T) : VM A := λ s, let '(a, c) := f (v_fds s) in Ret a (s <| v_fds := c |>).

(** The open file [fd], the call on it, and the instance as the call leaves it. *)
Definition with_instance {A} (fd : Z) (bad : Z → A) (m : Open → M (Store F R B) (A * Open)) : VM A :=
  s ← mget;
  match GetOpenInstanceByFd fd (v_fds s) with
  | None => mret (bad (- EBADF))
  | Some oi =>
    if isClosed oi then mret (bad (- ETIMEDOUT))
    else
      '(a, oi) ← store (m oi);
      on_fds (λ c, ((), c <| openInstanceMap ::= <[fd := oi]> |>)) ;;
      mret a
  end.

Definition count_write (oi : Open) : Open := oi <| writeCnt := i32 (writeCnt oi + 1) |>.

(** The error code and the descriptor. *)
Definition handle_OpenFile (inode flags size : Z) (p : string) (failed : bool) : VM (Z * Z) :=
  memory ← store (fs posix_alloc);
  if negb memory then mret (- ENOMEM, 0)
  else
    s ← mget;
    let oi := new_OpenInstance <| inodeId := inode |> <| path := p |> <| oflags := flags |> <| physicalFd := UINT64_MAX |>
                <| originalSize := size |> <| currentSize := size |> <| directReadFile := true |>
                <| oi_nodeId := GetNodeId (s_nodes (v_store s)) |> <| isRemoteCall := true |> <| nodeFail := failed |> in
    '(ret, oi) ← store (OpenFile peers cfg oi);
    if decide (ret ≠ 0) then mret (ret, 0)
    else fd ← on_fds (AttachFd_instance (oi <| isOpened := true |>)); mret (0, fd).

Definition handle_WriteFile (fd : Z) (buf : list Z) (offset : Z) : VM (Z * Z) :=
  with_instance fd (λ e, (e, 0)) (λ oi,
    '(ret, oi) ← WriteLocalFileForBrpc cfg (count_write oi) buf (i64 offset);
    mret (if decide (ret < 0) then (ret, 0) else (0, i32 (Z.of_nat (length buf))), oi)).

(** The bytes that come with a flush or a close. *)
Definition write_attached (oi : Open) (buf : list Z) (offset : Z) : M (Store F R B) (Z * Open) :=
  if decide (buf = []) then mret (0, oi) else WriteLocalFileForBrpc cfg (count_write oi) buf offset.

Definition handle_CloseFile (fd : Z) (flush sync : bool) (buf : list Z) (offset : Z) : VM Z :=
  ret ← with_instance fd (λ e, (e, false)) (λ oi,
    '(ret, oi) ← write_attached oi buf offset;
    '(closeRet, oi) ← CloseTmpFiles peers cfg oi flush sync;
    mret ((if decide (ret = 0) then closeRet else ret, true), if flush then oi else oi <| isClosed := true |>));
  (if (ret.2 : bool) && negb flush then on_fds (DeleteOpenInstance fd false) ;; mret () else mret ()) ;;
  mret ret.1.

(** The error code and the attachment. *)
Definition handle_ReadFile (fd readSize offset : Z) : VM (Z * list Z) :=
  if decide (readSize < 0) then mret (- EAGAIN, [])
  else
    with_instance fd (λ e, (e, [])) (λ oi,
      let allocSize := if is_direct (oflags oi) then (readSize / ALIGNMENT + (if decide (readSize mod ALIGNMENT ≠ 0) then 1 else 0)) * ALIGNMENT
                       else readSize in
      got ← fs posix_alloc;
      if negb got then mret ((- ENOMEM, []), oi)
      else
        '(ret, bs, oi) ← ReadFileLR peers cfg oi (i64 offset) allocSize;
        let retSize := i32 ret in
        mret (if decide (retSize < 0) then (retSize, []) else (0, take (Z.to_nat retSize) bs), oi)).

(** [None]: the attachment is a buffer nobody has written to. *)
Definition handle_ReadSmallFile (inode readSize : Z) (p : string) (flags : Z) (failed : bool) : VM (Z * option (list Z)) :=
  if decide (readSize < 0 ∨ readSize > i32 (READ_BIGFILE_SIZE cfg)) then mret (- EAGAIN, Some [])
  else
    got ← store (fs posix_alloc);
    if negb got then mret (- ENOMEM, Some [])
    else
      '(ret, bs) ← store (ReadSmallFilesForBrpc cfg inode p readSize flags failed);
      mret (if decide (ret < 0) then (ret, Some []) else (0, bs)).

Definition handle_DeleteFile (inode : Z) (p : string) : VM Z := store (DeleteFiles peers cfg inode (-1) p).

Definition handle_StatFS (p : string) : VM (Z * StatFSBuf) :=
  '(ret, buf) ← store (StatFSForBrpc cfg rehash p);
  mret (if decide (ret < 0) then (ret, no_stat) else (0, buf)).

Definition handle_TruncateOpenInstance (fd size : Z) : VM Z :=
  with_instance fd id (λ oi, TruncateOpenInstance peers cfg oi size).

Definition handle_TruncateFile (fd size : Z) : VM Z :=
  with_instance fd id (λ oi, TruncateFile peers cfg (count_write oi) size).

Definition handle_CheckConnection : VM Z := mret 0.
End server.
