(* ===== verification/StoreSpec.v ===== *)
(** * What the data store promises for its open files

    A write that arrives from another node, and the service as the other node
    that a write stream talks to: the handlers of Server discharge the class
    [StubFiles] against which the theorems of WriteStream are proved. *)
From S2P Require Import Prelude Posix FileLock DiskCache IOClient WriteStream Node Store Server.
Local Open Scope Z_scope.

(** ** Operations of the cache that leave the file system alone *)
Section kept.
Context {F : Type} `{!Posix F}.
Local Abbreviation DC := (M (DiskCache * F)).

Definition fs_kept {A} (m : DC A) : Prop :=
  ∀ d f, match m (d, f) with Ret _ (_, f') => f' = f | _ => True end.

Lemma fs_kept_bind {A B} (m : DC A) (k : A → DC B) : fs_kept m → (∀ a, fs_kept (k a)) → fs_kept (m ≫= k).
Proof.
  intros Hm Hk d f. specialize (Hm d f). unfold mbind, M_bind. destruct (m (d, f)) as [a [d1 f1]| | |]; try done. subst f1. apply Hk.
Qed.
Lemma fs_kept_ret {A} (a : A) : fs_kept (mret a).
Proof. by intros d f. Qed.
Lemma fs_kept_cache : fs_kept cache.
Proof. by intros d f. Qed.
Lemma fs_kept_now : fs_kept now.
Proof. by intros d f. Qed.
Lemma fs_kept_set g : fs_kept (set_cache g).
Proof. by intros d f. Qed.
Lemma fs_kept_undefined {A} : fs_kept (mundefined (A := A)).
Proof. by intros d f. Qed.
Lemma fs_kept_get {A} (k : DiskCache * F → DC A) : (∀ p, fs_kept (k p)) → fs_kept (mget ≫= k).
Proof. intros Hk d f. unfold mbind, M_bind, mget. apply Hk. Qed.

Ltac kept :=
  repeat match goal with
    | |- fs_kept (mbind _ mget) => apply fs_kept_get; intros ?
    | |- fs_kept (mbind _ _) => apply fs_kept_bind; [|intros ?]
    | |- fs_kept (mret _) => apply fs_kept_ret
    | |- fs_kept cache => apply fs_kept_cache
    | |- fs_kept now => apply fs_kept_now
    | |- fs_kept (set_cache _) => apply fs_kept_set
    | |- fs_kept mundefined => apply fs_kept_undefined
    | |- fs_kept (match ?x with _ => _ end) => destruct x
    end.

Lemma fs_kept_Update key sz : fs_kept (Update key sz).
Proof. unfold Update, account, update_node, deref. kept. Qed.
Lemma fs_kept_Pin key : fs_kept (Pin key).
Proof. unfold Pin, update_node, deref. kept. Qed.
Lemma fs_kept_Unpin key : fs_kept (Unpin key).
Proof. unfold Unpin, update_node, deref. kept. Qed.
Lemma fs_kept_Insert key sz pin : fs_kept (InsertAndUpdate key sz pin).
Proof. unfold InsertAndUpdate, account, update_node, deref. kept. apply fs_kept_Pin. Qed.
Lemma fs_kept_Find root dirs key pin : fs_kept (Find root dirs key pin).
Proof. unfold Find. kept. apply fs_kept_Pin. Qed.
Lemma fs_kept_Free sz : fs_kept (FreePreAllocSpace sz).
Proof. unfold FreePreAllocSpace. kept. Qed.

(** An operation that [does] something, in one equation. *)
Lemma does_runs {A} (m : DC A) (code : A → Z) d f z a : fs_kept m →
  does (x ← m; mret (code x)) d f (z, a) →
  ∃ x d', m (d, f) = Ret x (d', f) ∧ code x = z ∧ cache_ok d' ∧ active d' ∧ abs d' = a.
Proof.
  intros Hk Hd. specialize (Hk d f). unfold does, mbind, M_bind in Hd. destruct (m (d, f)) as [x [d' f']| | |]; try done.
  subst f'. simpl in Hd. destruct Hd as (? & ? & [= <- <-]). by exists x, d'.
Qed.
End kept.

(** ** Running the parts of the store *)
Section runs.
Context {F R B T : Type} `{!Posix F} `{!Statvfs F} `{!Storage B F} `{!ReadAhead T}.
Context (peers : string → Stub R) (cfg : Config).
Local Abbreviation SM := (M (Store F R B)).
Local Abbreviation Open := (OpenInstance T).

Definition the_cache (s : Store F R B) : DiskCache := io_cache (s_io s).
Definition the_fs (s : Store F R B) : F := io_fs (s_io s).
Definition with_disk (d : DiskCache) (f : F) (s : Store F R B) : Store F R B :=
  s <| s_io := mkIO d f (io_remote (s_io s)) |>.

Lemma with_disk_twice d f d' f' s : with_disk d f (with_disk d' f' s) = with_disk d f s.
Proof. by destruct s. Qed.

Lemma bind_dc {A C} (m : M (DiskCache * F) A) (k : A → SM C) s :
  (dc m ≫= k) s =
    match m (the_cache s, the_fs s) with
    | Ret a (d, f) => k a (with_disk d f s)
    | Elog e (d, f) => Elog e (with_disk d f s)
    | Diverge => Diverge
    | Undefined => Undefined
    end.
Proof. unfold dc, io, on_cache, mzoom, mbind, M_bind. simpl. destruct (m _) as [a [d f]|e [d f]| |]; done. Qed.

Lemma bind_fs {A C} (op : F → A * F) (k : A → SM C) s :
  (fs op ≫= k) s = k (op (the_fs s)).1 (with_disk (the_cache s) (op (the_fs s)).2 s).
Proof. unfold fs, io, on_fs, mzoom, mbind, M_bind. simpl. unfold the_fs. destruct (op (io_fs (s_io s))). done. Qed.

Lemma bind_store_errno {C} (k : Z → SM C) s : (Store.errno ≫= k) s = k (posix_errno (the_fs s)) s.
Proof. unfold Store.errno, io, get_errno, mzoom, mbind, M_bind. destruct s as [[]]. done. Qed.

Definition with_obs (o : B) (f : F) (s : Store F R B) : Store F R B := (with_disk (the_cache s) f s) <| s_obs := o |>.

Lemma bind_obs {A C} (op : B * F → A * (B * F)) (k : A → SM C) s a o f :
  op (s_obs s, the_fs s) = (a, (o, f)) → (obs op ≫= k) s = k a (with_obs o f s).
Proof. intros H. unfold obs, mbind, M_bind. unfold the_fs in H. rewrite H. by destruct s. Qed.

Lemma bind_nodes {C} (k : StoreNode → SM C) s : (nodes ≫= k) s = k (s_nodes s) s.
Proof. done. Qed.

Lemma bind_is_local {C} (oi : Open) (k : bool → SM C) s : (is_local oi ≫= k) s = k (IsLocal (oi_nodeId oi) (s_nodes s)) s.
Proof. done. Qed.
End runs.
#[global] Hint Rewrite @bind_fs @bind_store_errno @bind_nodes @bind_is_local : cuckoo.

(** ** Writing to a file that is open on this node *)
Section local_write.
Context {F R B T : Type} `{!Posix F} `{!PosixFiles F} `{!Statvfs F} `{!Storage B F} `{!ReadAhead T}.
Context (peers : string → Stub R) (cfg : Config).
Local Abbreviation SM := (M (Store F R B)).
Local Abbreviation Open := (OpenInstance T).

(** The cache is coherent, [key] is cached and pinned, and nothing but what is
    being written is reserved for this call. *)
Record disk_ok (res key : Z) (d : DiskCache) : Prop := {
  dk_ok : cache_ok d;
  dk_active : active d;
  dk_res : reservedCap d = res;
  dk_pin : ∃ sz pins, view_items d !! key = Some (sz, pins) ∧ pins > 0 }.

Definition content (oi : Open) (s : Store F R B) : list Z := fd_content (the_fs s) (physicalFd oi).

(** The content after the first [n] bytes of [bytes] have been written. *)
Definition written (f : list Z) (off : Z) (bytes : list Z) : list Z :=
  if decide (bytes = []) then f else file_write f off bytes.

Lemma written_app f off a b : 0 ≤ off → written (written f off a) (off + Z.of_nat (length a)) b = written f off (a ++ b).
Proof.
  intros Ho. unfold written. destruct (decide (a = [])) as [->|Ha]; [simpl; by rewrite Z.add_0_r|].
  destruct (decide (b = [])) as [->|Hb]; [by rewrite app_nil_r, decide_False|].
  rewrite decide_False by (destruct a; done). by apply file_write_append.
Qed.

(** The result of a write: the reservation is given back; all was written and the
    sizes are up to date, or an error and a part was written. *)
Definition write_result (res : Z) (oi : Open) (bytes : list Z) (off : Z) (s0 : Store F R B) (p : Z * Open) (s : Store F R B) : Prop :=
  let '(ret, oi') := p in
  ∃ d f n, s = with_disk d f s0 ∧ disk_ok res (inodeId oi) d ∧ oi' = oi <| currentSize := n |> ∧ 0 ≤ n < 2 ^ 63 ∧
    (ret = 0 ∧ n = Z.max (currentSize oi) (off + Z.of_nat (length bytes)) ∧
       fd_content f (physicalFd oi) = written (content oi s0) off bytes ∨
     ret < 0 ∧ ∃ k, (k ≤ length bytes)%nat ∧ fd_content f (physicalFd oi) = written (content oi s0) off (take k bytes)).

Lemma free_back res add key d (f : F) : disk_ok (u64 (res + add)) key d → u64 res = res →
  ∃ d', FreePreAllocSpace add (d, f) = Ret () (d', f) ∧ disk_ok res key d'.
Proof.
  intros [Hok Hact Hres Hpin] Hr. rewrite FreePreAllocSpace_runs by done. eexists. split; [reflexivity|].
  split; [by apply cache_ok_reserved|done|simpl; by rewrite Hres, reserved_back|done].
Qed.

Lemma update_pinned res key sz d (f : F) : disk_ok res key d →
  ∃ d', Update key sz (d, f) = Ret true (d', f) ∧ disk_ok res key d'.
Proof.
  intros [Hok Hact Hres (s0 & pins & Hv & Hp)].
  pose proof (Update_does ""%string 1 d f key sz true 0 Hok Hact) as H. unfold run, promise in H. simpl a_items in H. rewrite Hv in H.
  apply (does_runs _ Z.b2z) in H as (b & d' & Hu & Hb & Hok' & Hact' & Ha); [|apply fs_kept_Update].
  exists d'. split; [by destruct b|]. split; [done|done| |].
  - destruct (decide (sz ≤ s0)); by injection Ha as _ _ _ ->.
  - destruct (decide (sz ≤ s0)); injection Ha as -> _ _ _; eauto. exists sz, pins. by rewrite lookup_insert_eq.
Qed.

Lemma update_size_spec res add (oi : Open) sz ret (s : Store F R B) :
  disk_ok (u64 (res + add)) (inodeId oi) (the_cache s) → u64 res = res →
  ∃ d, update_size oi sz ret add s = Ret (ret, oi <| currentSize := sz |>) (with_disk d (the_fs s) s) ∧ disk_ok res (inodeId oi) d.
Proof.
  intros Hd Hr. unfold update_size. rewrite bind_dc. destruct (update_pinned _ _ sz _ (the_fs s) Hd) as (d1 & Hu & Hd1).
  cbn [inodeId]. change (inodeId (oi <| currentSize := sz |>)) with (inodeId oi). rewrite Hu, bind_dc.
  destruct (free_back res add (inodeId oi) d1 (the_fs s) Hd1 Hr) as (d2 & Hf & Hd2).
  change (the_cache (with_disk d1 (the_fs s) s)) with d1. change (the_fs (with_disk d1 (the_fs s) s)) with (the_fs s).
  rewrite Hf. exists d2. by rewrite with_disk_twice.
Qed.

(** The loop: [done] bytes of [bytes] have been written. *)
Lemma write_all_spec fuel res add (oi : Open) done todo off newSize (s0 s : Store F R B) d f :
  (length todo ≤ fuel)%nat → s = with_disk d f s0 → disk_ok (u64 (res + add)) (inodeId oi) d → u64 res = res →
  0 ≤ off → off + Z.of_nat (length (done ++ todo)) < 2 ^ 63 → 0 ≤ currentSize oi < 2 ^ 63 →
  newSize = Z.max (currentSize oi) (off + Z.of_nat (length (done ++ todo))) →
  fd_content f (physicalFd oi) = written (content oi s0) off done →
  ∃ p s', write_all fuel oi todo (off + Z.of_nat (length done)) add (currentSize oi) newSize s = Ret p s' ∧
    write_result res oi (done ++ todo) off s0 p s'.
Proof.
  revert done todo d f s. induction fuel as [|fuel IH]; intros done todo d f s Hfuel -> Hd Hr Hoff Hend Hcur Hnew Hf.
  all: destruct todo as [|b todo]; cbn [write_all]; [|try (simpl in Hfuel; lia)].
  1,2: destruct (update_size_spec res add oi newSize 0 (with_disk d f s0) Hd Hr) as (d' & -> & Hd');
    eexists _, _; (split; [reflexivity|]); exists d', f, newSize; rewrite with_disk_twice, app_nil_r in *;
    split_and!; try done; try lia; left; by rewrite ?app_nil_r.
  mstep. change (the_fs (with_disk d f s0)) with f. change (the_cache (with_disk d f s0)) with d. rewrite with_disk_twice.
  set (bs := b :: todo) in *. destruct (posix_pwrite (physicalFd oi) bs (off + Z.of_nat (length done)) f) as [nw f'] eqn:Hw. cbn [fst snd].
  pose proof (posix_pwrite_some _ _ _ _ _ _ Hw ltac:(done)) as Hnz.
  destruct (decide (nw < 0 ∨ _)) as [Hbad|Hgood].
  - assert (nw < 0) as Hneg.
    { destruct Hbad as [?|Hbad]; [done|]. destruct (posix_pwrite_law _ _ _ _ _ _ Hw ltac:(lia) ltac:(lia)) as [? _]. lia. }
    rewrite (decide_False (P := nw > 0)), Z.add_0_r by lia. rewrite length_app in Hend, Hnew.
    assert (fd_content f' (physicalFd oi) = written (content oi s0) off (take (length done) (done ++ bs))) as Hf'.
    { rewrite take_app_length. by rewrite (posix_pwrite_failed _ _ _ _ _ _ Hw Hneg). }
    rewrite u64_small by lia. destruct (decide (off + Z.of_nat (length done) > currentSize oi)) as [Hgt|Hle].
    + destruct (update_size_spec res add oi (off + Z.of_nat (length done)) (- EINVAL) (with_disk d f' s0) Hd Hr) as (d' & -> & Hd').
      eexists _, _. split; [reflexivity|]. exists d', f', (off + Z.of_nat (length done)). rewrite with_disk_twice.
      split_and!; try done; try lia. right. split; [done|]. exists (length done). split; [rewrite length_app; lia|done].
    + destruct (free_back res add (inodeId oi) d f' Hd Hr) as (d' & Hfree & Hd'). rewrite bind_dc.
      change (the_cache (with_disk d f' s0)) with d. change (the_fs (with_disk d f' s0)) with f'. rewrite Hfree, with_disk_twice.
      eexists _, _. split; [reflexivity|]. exists d', f', (currentSize oi). split_and!; try done; try lia; [by destruct oi|].
      right. split; [done|]. exists (length done). split; [rewrite length_app; lia|done].
  - apply Decidable.not_or in Hgood as [Hn1 Hn2].
    destruct (posix_pwrite_law _ _ _ _ _ _ Hw ltac:(lia) ltac:(lia)) as [_ Hcon]. set (k := Z.to_nat nw) in *.
    assert (length (take k bs) = k) as Hlk by (rewrite length_take; lia).
    assert (done ++ bs = (done ++ take k bs) ++ drop k bs) as Hsplit by (by rewrite <-app_assoc, take_drop).
    rewrite Hsplit in *. replace (off + Z.of_nat (length done) + nw) with (off + Z.of_nat (length (done ++ take k bs))) by (rewrite length_app; lia).
    apply (IH (done ++ take k bs) (drop k bs) d f'); try done; [rewrite length_drop; simpl in *; lia|].
    rewrite <-written_app by done. rewrite <-Hf. unfold written. rewrite decide_False; [done|]. intros He. rewrite He in Hlk. simpl in Hlk. lia.
Qed.

(** Reserving space for a file that is pinned. *)
Lemma prealloc_pinned root dirs res key add d (f : F) : disk_ok res key d →
  match PreAllocSpace root dirs add (d, f) with
  | Ret true (d', f') => disk_ok (u64 (res + add)) key d' ∧ ∀ fd, fd_content f' fd = fd_content f fd
  | Ret false (d', f') => disk_ok res key d' ∧ ∀ fd, fd_content f' fd = fd_content f fd
  | Elog _ _ => False
  | Diverge | Undefined => freeCap d ≤ u64 (res + add)
  end.
Proof.
  intros [Hok Hact Hres (sz & pins & Hv & Hp)]. pose proof (prealloc_outcome root dirs add d f Hok Hact) as H.
  pose proof (PreAllocSpace_content root dirs add d f) as Hcon. unfold reservation_result in H. rewrite <-Hres.
  destruct (PreAllocSpace _ _ _ _) as [[] [d1 f1]| | |]; try done; [..|apply H|apply H].
  - destruct H as ((Hok1 & Hact1 & _ & Hr1 & Hk1) & _). simpl in Hr1. split; [|exact Hcon].
    split; [done|done|by rewrite Hr1|]. exists sz, pins. split; [by apply Hk1|done].
  - destruct H as ((Hok1 & Hact1 & _ & Hr1 & Hk1) & _). split; [|exact Hcon].
    split; [done|done|done|]. exists sz, pins. split; [by apply Hk1|done].
Qed.

Lemma write_local_result (oi : Open) bytes off (s : Store F R B) res
    (sizeToAdd := u64 (Z.max (currentSize oi) (u64 (off + Z.of_nat (length bytes))) - currentSize oi)) :
  disk_ok res (inodeId oi) (the_cache s) → u64 res = res → is_direct (oflags oi) = false →
  0 ≤ off → off + Z.of_nat (length bytes) < 2 ^ 63 → 0 ≤ currentSize oi < 2 ^ 63 →
  match WriteLocalFileForBrpc cfg oi bytes off s with
  | Ret p s' => write_result res oi bytes off s p s'
  | Elog _ _ => False
  | Diverge | Undefined => freeCap (the_cache s) ≤ u64 (res + sizeToAdd)
  end.
Proof.
  intros Hd Hr Hdir Hoff Hend Hcur. unfold WriteLocalFileForBrpc. fold sizeToAdd. rewrite bind_dc.
  pose proof (prealloc_pinned (rootPath cfg) (totalDirectory cfg) res (inodeId oi) sizeToAdd (the_cache s) (the_fs s) Hd) as Hpre.
  destruct (PreAllocSpace _ _ _ _) as [[] [d1 f1]| | |]; try done; destruct Hpre as [Hd1 Hf1]; cbn [negb].
  - rewrite Hdir. cbn [negb]. rewrite (u64_small (off + _)) by lia.
    destruct (write_all_spec (length bytes) res sizeToAdd oi [] bytes off (Z.max (currentSize oi) (off + Z.of_nat (length bytes)))
      s (with_disk d1 f1 s) d1 f1) as (p & s' & Hrun & Hres); try done.
    simpl in Hrun. rewrite Z.add_0_r in Hrun. by rewrite Hrun.
  - exists d1, f1, (currentSize oi). split_and!; try done; try lia; [by destruct oi|]. right. split; [done|]. exists 0%nat.
    split; [lia|]. apply Hf1.
Qed.

(** A write to a file that is open on this node, as it arrives from another
    one: when it returns 0 the file holds all the bytes at their place, however
    many calls of pwrite that took, and the size of the open file is the larger
    of the old one and the end of the write; when it returns an error a prefix of
    the bytes was written and the size covers it.  On every path the file stays
    pinned, the cache stays coherent and the space that was reserved for the
    write is given back.  The call fails to return only when space is short. *)
Theorem WriteLocalFileForBrpc_writes (oi : Open) bytes off (s : Store F R B) res
    (sizeToAdd := u64 (Z.max (currentSize oi) (u64 (off + Z.of_nat (length bytes))) - currentSize oi)) :
  disk_ok res (inodeId oi) (the_cache s) → u64 res = res → is_direct (oflags oi) = false →
  0 ≤ off → off + Z.of_nat (length bytes) < 2 ^ 63 → 0 ≤ currentSize oi < 2 ^ 63 →
  match WriteLocalFileForBrpc cfg oi bytes off s with
  | Ret p s' => write_result res oi bytes off s p s'
  | Elog _ _ => False
  | Diverge | Undefined => freeCap (the_cache s) ≤ u64 (res + sizeToAdd)
  end.
Proof. apply write_local_result. Qed.
End local_write.
