(* ===== verification/ServerSpec.v ===== *)
(** * The service as the other end of a write stream

    The handlers of one node, seen through the stub of another one
    ([ServerStub]), keep the promise [StubFiles] that the write stream relies
    on: what a client writes arrives in the file of the node that has it. *)
From S2P Require Import Prelude Posix FileLock DiskCache IOClient WriteStream Node Store Server StoreSpec.
Local Open Scope Z_scope.

(** Uploading a file leaves open files as they are. *)
Class StorageFiles (B F : Type) `{!Posix F} `{!PosixFiles F} `{!Storage B F} := {
  put_file_law key p o f r o' f' fd : PutFile key p (o, f) = (r, (o', f')) → fd_content f' fd = fd_content f fd }.

Section flush.
Context {F R B T : Type} `{!Posix F} `{!PosixFiles F} `{!Statvfs F} `{!Storage B F} `{!StorageFiles B F} `{!ReadAhead T}.
Context (peers : string → Stub R) (cfg : Config).
Local Abbreviation Open := (OpenInstance T).

Lemma insert_pinned res key sz d (f : F) : disk_ok res key d → 0 ≤ sz < 2 ^ 64 →
  ∃ d', InsertAndUpdate key sz false (d, f) = Ret () (d', f) ∧ disk_ok res key d'.
Proof.
  intros [Hok Hact Hres (s0 & pins & Hv & Hp)] Hsz.
  pose proof (Insert_does ""%string 1 d f key sz false true 0 Hok Hact Hsz) as H. unfold run, promise in H. simpl a_items in H. rewrite Hv in H.
  apply (does_runs _ (λ _, 0)) in H as ([] & d' & Hu & _ & Hok' & Hact' & Ha); [|apply fs_kept_Insert].
  exists d'. split; [done|]. injection Ha as Hi _ _ Hr. split; [done|done|by rewrite Hr|]. exists sz, pins. by rewrite Hi, lookup_insert_eq.
Qed.

(** What a call leaves of the state of the store. *)
Definition only_files (s s' : Store F R B) : Prop :=
  (∀ fd, fd_content (the_fs s') fd = fd_content (the_fs s) fd) ∧ s_nodes s' = s_nodes s ∧ s_locks s' = s_locks s.

Lemma flush_served (oi : Open) sync res (s : Store F R B) :
  disk_ok res (inodeId oi) (the_cache s) → 0 ≤ currentSize oi < 2 ^ 63 → isRemoteCall oi = true →
  physicalFd oi ≠ UINT64_MAX → oi_nodeId oi ≠ -1 → IsLocal (oi_nodeId oi) (s_nodes s) = true →
  ∃ ret w s', CloseTmpFiles peers cfg oi true sync s = Ret (ret, oi <| isFlushed := true |> <| writeFail := w |>) s' ∧
    disk_ok res (inodeId oi) (the_cache s') ∧ only_files s s'.
Proof.
  intros Hd Hsz Hrc Hfd Hnode Hloc. unfold CloseTmpFiles, CloseTmpFiles_with. rewrite decide_False by tauto. mstep.
  cbn [negb andb]. change (isRemoteCall (oi <| isFlushed := true |>)) with (isRemoteCall oi). rewrite Hrc. mstep.
  change (oi_nodeId (oi <| isFlushed := true |>)) with (oi_nodeId oi). rewrite Hloc.
  unfold finish_local. cbn [negb]. rewrite bind_dc. cbn [inodeId currentSize].
  destruct (insert_pinned res (inodeId oi) (currentSize oi) (the_cache s) (the_fs s) Hd ltac:(lia)) as (d1 & Hi & Hd1).
  change (inodeId (oi <| isFlushed := true |>)) with (inodeId oi). change (currentSize (oi <| isFlushed := true |>)) with (currentSize oi).
  rewrite Hi. set (s1 := with_disk d1 (the_fs s) s).
  destruct (decide _) as [_|_].
  2: { exists 0, (writeFail oi), s1. split_and!; [by destruct oi|done|done]. }
  assert (∃ s2, (if sync then fs (λ f, ((), posix_fsync (physicalFd (oi <| isFlushed := true |>)) f)) else mret ()) s1 = Ret () s2 ∧
    disk_ok res (inodeId oi) (the_cache s2) ∧ only_files s s2) as (s2 & Hsync & Hd2 & Hof & Hns & Hls).
  { destruct sync; [|by exists s1]. eexists. split; [reflexivity|]. split; [done|]. split; [|done].
    intros fd'. cbn [the_fs]. unfold the_fs. simpl. apply posix_fsync_law. }
  rewrite (bind_ret _ _ _ _ _ Hsync). destruct (persistToStorage cfg).
  2: { exists 0, (writeFail oi), s2. split_and!; [by destruct oi|done|done]. }
  unfold FlushToStorage.
  destruct (PutFile (object_of (path oi)) (file_name cfg (inodeId oi)) (s_obs s2, the_fs s2)) as [r [o' f']] eqn:Hput.
  rewrite bind_assoc, (bind_obs _ _ _ _ _ _ Hput). mstep.
  eexists _, _, _. split; [reflexivity|]. split; [done|]. split; [|done].
  intros fd'. rewrite <-Hof. exact (put_file_law _ _ _ _ _ _ _ fd' Hput).
Qed.
End flush.

(** ** The stub of a node *)
Section stub.
Context {F R B T : Type} `{!Posix F} `{!Statvfs F} `{!Storage B F} `{!ReadAhead T}.
Context (peers : string → Stub R) (cfg : Config) (rehash : list (Z * string) → list (Z * string)).
(** What is in memory that was never written to. *)
Context (garbage : list Z).
Local Abbreviation Srv := (Server F R B T).

(** A call that does not return is given up by the client. *)
Definition answer {A} (m : M Srv A) (v : Srv) : rpc A * Srv :=
  match m v with Ret a v' => (Reply a, v') | _ => (Failed 1008, v) end.

Definition ServerStub : Stub Srv := {|
  brpc_ENOSERVICE := 1001; brpc_ENOMETHOD := 1002; brpc_EREQUEST := 1003; brpc_ERPCAUTH := 1004;
  brpc_ERPCTIMEDOUT := 1008; brpc_EFAILEDSOCKET := 1009;
  stub_OpenFile i fl n p failed := answer (handle_OpenFile peers cfg i fl n p failed);
  stub_CloseFile fd flush sync bs off := answer (handle_CloseFile peers cfg fd flush sync bs off);
  stub_ReadFile fd off n _ := answer (handle_ReadFile peers cfg fd n off);
  stub_ReadSmallFile i n p fl failed :=
    answer ('(e, bs) ← handle_ReadSmallFile cfg i n p fl failed; mret (e, default (take (Z.to_nat n) garbage) bs));
  stub_WriteFile fd bs off := answer (handle_WriteFile cfg fd bs off);
  stub_DeleteFile i _ p := answer (handle_DeleteFile peers cfg i p);
  stub_StatFS p := answer (handle_StatFS cfg rehash p);
  stub_TruncateOpenInstance fd n := answer (handle_TruncateOpenInstance peers cfg fd n);
  stub_TruncateFile fd n := answer (handle_TruncateFile peers cfg fd n);
  stub_CheckConnection := answer handle_CheckConnection |}.
End stub.

Section files.
Context {F R B T : Type} `{!Posix F} `{!PosixFiles F} `{!Statvfs F} `{!Storage B F} `{!StorageFiles B F} `{!ReadAhead T}.
Context (peers : string → Stub R) (cfg : Config) (rehash : list (Z * string) → list (Z * string)) (garbage : list Z).
Local Abbreviation Srv := (Server F R B T).
Local Abbreviation Open := (OpenInstance T).

(** An open file the service writes to: on this node, open and not closed, not
    O_DIRECT, not being loaded, with its cache entry pinned. *)
Record served (oi : Open) (s : Store F R B) : Prop := {
  sv_closed : isClosed oi = false;
  sv_remote : isRemoteCall oi = true;
  sv_direct : is_direct (oflags oi) = false;
  sv_fd : physicalFd oi ≠ UINT64_MAX;
  sv_node : oi_nodeId oi ≠ -1;
  sv_local : IsLocal (oi_nodeId oi) (s_nodes s) = true;
  sv_unlocked : TestLocked (inodeId oi) LockX (s_locks s) = false;
  sv_size : 0 ≤ currentSize oi < 2 ^ 63;
  sv_disk : ∃ res, u64 res = res ∧ disk_ok res (inodeId oi) (the_cache s) }.

Definition server_file (v : Srv) (fd : Z) : list Z :=
  match openInstanceMap (v_fds v) !! fd with Some oi => content oi (v_store v) | None => [] end.
Definition server_open (v : Srv) (fd : Z) : Prop :=
  ∃ oi, openInstanceMap (v_fds v) !! fd = Some oi ∧ served oi (v_store v).

Lemma with_instance_runs {A} fd (bad : Z → A) (m : Open → M (Store F R B) (A * Open)) v oi :
  openInstanceMap (v_fds v) !! fd = Some oi → isClosed oi = false →
  with_instance fd bad m v =
    match m oi (v_store v) with
    | Ret (a, oi') s' => Ret a (mkServer s' ((v_fds v) <| openInstanceMap ::= <[fd := oi']> |>))
    | Elog e s' => Elog e (v <| v_store := s' |>)
    | Diverge => Diverge
    | Undefined => Undefined
    end.
Proof.
  intros Hoi Hcl. unfold with_instance, GetOpenInstanceByFd. mstep. rewrite Hoi, Hcl. unfold store, mzoom, mbind, M_bind.
  destruct (m oi (v_store v)) as [[a oi'] s'| | |]; done.
Qed.

Lemma served_write (oi : Open) (s : Store F R B) res bytes off ret oi' s' : served oi s →
  disk_ok res (inodeId oi) (the_cache s) → u64 res = res →
  write_result res oi bytes off s (ret, oi') s' → served oi' s'.
Proof.
  intros [] Hd Hr (d & f & n & -> & Hd' & -> & Hn & _). split; try done. by exists res.
Qed.

Lemma handle_WriteFile_law fd bs off v n v' : server_open v fd → bs ≠ [] → 0 ≤ off → off + Z.of_nat (length bs) < 2 ^ 63 →
  handle_WriteFile cfg fd bs off v = Ret (0, n) v' → i32 n = Z.of_nat (length bs) →
  server_open v' fd ∧ server_file v' fd = file_write (server_file v fd) off bs.
Proof.
  intros (oi & Hoi & Hsv) Hne Hoff Hend Hrun Hn. unfold handle_WriteFile in Hrun.
  rewrite (with_instance_runs _ _ _ _ _ Hoi (sv_closed _ _ Hsv)), i64_small in Hrun by lia.
  destruct (sv_disk _ _ Hsv) as (res & Hr & Hd).
  assert (served (count_write oi) (v_store v)) as Hsv1 by (destruct Hsv; by split).
  pose proof (write_local_result cfg (count_write oi) bs off (v_store v) res Hd Hr (sv_direct _ _ Hsv1) Hoff Hend (sv_size _ _ Hsv1)) as Hw.
  unfold mbind at 1, M_bind in Hrun.
  destruct (WriteLocalFileForBrpc _ _ _ _ _) as [[ret oi'] s'| | |]; try done.
  pose proof (served_write _ _ _ _ _ _ _ _ Hsv1 Hd Hr Hw) as Hsv'.
  destruct Hw as (d & f & sz & -> & Hd' & -> & Hsz & [(-> & _ & Hf)|(Hneg & _)]).
  - simpl in Hrun. injection Hrun as <- <-. split.
    + exists ((count_write oi) <| currentSize := sz |>). split; [apply lookup_insert_eq|exact Hsv'].
    + unfold server_file. simpl. rewrite lookup_insert_eq, Hoi. change (content _ _) with (fd_content f (physicalFd (count_write oi))) at 1.
      rewrite Hf. unfold written. by rewrite decide_False.
  - simpl in Hrun. rewrite decide_True in Hrun by done. injection Hrun as -> _ _. lia.
Qed.

(** The first part of the handler: the bytes that come with the call. *)
Lemma close_writes (oi : Open) (s : Store F R B) bs off : served oi s → 0 ≤ off → off + Z.of_nat (length bs) < 2 ^ 63 →
  match write_attached cfg oi bs off s with
  | Ret (ret, oi') s' => served oi' s' ∧ physicalFd oi' = physicalFd oi ∧
      (ret = 0 → content oi' s' = written (content oi s) off bs)
  | Elog _ _ => False
  | _ => True
  end.
Proof.
  intros Hsv Hoff Hend. unfold write_attached, written. destruct (decide (bs = [])) as [->|Hne]; [by split_and!|].
  destruct (sv_disk _ _ Hsv) as (res & Hr & Hd).
  assert (served (count_write oi) s) as Hsv1 by (destruct Hsv; by split).
  pose proof (write_local_result cfg (count_write oi) bs off s res Hd Hr (sv_direct _ _ Hsv1) Hoff Hend (sv_size _ _ Hsv1)) as Hw.
  destruct (WriteLocalFileForBrpc _ _ _ _ _) as [[ret oi'] s'| | |]; try done.
  split; [by eapply served_write|]. destruct Hw as (d & f & sz & -> & Hd' & -> & Hsz & [(-> & _ & Hf)|(Hneg & _)]); split; try done.
  - intros _. change (content _ _) with (fd_content f (physicalFd (count_write oi))) at 1. rewrite Hf. unfold written. by rewrite decide_False.
  - intros ->. lia.
Qed.

Lemma handle_flush_law fd sync bs off v v' : server_open v fd → 0 ≤ off → off + Z.of_nat (length bs) < 2 ^ 63 →
  handle_CloseFile peers cfg fd true sync bs off v = Ret 0 v' →
  server_open v' fd ∧ server_file v' fd = if decide (bs = []) then server_file v fd else file_write (server_file v fd) off bs.
Proof.
  intros (oi & Hoi & Hsv) Hoff Hend Hrun. unfold handle_CloseFile in Hrun. unfold mbind at 1, M_bind in Hrun.
  rewrite (with_instance_runs _ _ _ _ _ Hoi (sv_closed _ _ Hsv)) in Hrun.
  pose proof (close_writes oi (v_store v) bs off Hsv Hoff Hend) as Hw. unfold mbind at 1, M_bind in Hrun.
  destruct (write_attached cfg oi bs off (v_store v)) as [[ret oi1] s1| | |]; try done.
  destruct Hw as (Hsv1 & Hfd1 & Hcon1). destruct (sv_disk _ _ Hsv1) as (res & Hr & Hd).
  destruct (flush_served peers cfg oi1 sync res s1 Hd (sv_size _ _ Hsv1) (sv_remote _ _ Hsv1) (sv_fd _ _ Hsv1) (sv_node _ _ Hsv1)
    (sv_local _ _ Hsv1)) as (ret2 & w & s2 & Hclose & Hd2 & Hof & Hns & Hls).
  unfold mbind at 1, M_bind in Hrun. rewrite Hclose in Hrun. simpl in Hrun. injection Hrun as Hret <-.
  set (oi2 := oi1 <| isFlushed := true |> <| writeFail := w |>) in *. split.
  - exists oi2. split; [apply lookup_insert_eq|]. destruct Hsv1. split; try done; [simpl; by rewrite Hns|simpl; by rewrite Hls|by exists res].
  - unfold server_file. simpl. rewrite lookup_insert_eq, Hoi.
    assert (ret = 0) as H0 by (by case_decide). specialize (Hcon1 H0). unfold written in Hcon1.
    rewrite <-Hcon1. unfold content. simpl. by rewrite Hof.
Qed.

(** pread with its checks: bytes of the file, in the number asked for, or minus
    errno. *)
Lemma pread_checked_spec fd n off want (s : Store F R B) : 0 ≤ off → 0 < want ≤ n → n < 2 ^ 31 →
  ∃ r bs f, pread_checked i32 fd n off want s = Ret (r, bs) (with_disk (the_cache s) f s) ∧
    (∀ fd', fd_content f fd' = fd_content (the_fs s) fd') ∧
    (r = want ∧ bs = file_read (fd_content (the_fs s) fd) off want ∨ r = - posix_errno f).
Proof.
  intros Hoff Hw Hn. assert (∀ m f r bs f', want ≤ m ≤ n → posix_pread fd m off f = (r, bs, f') →
    (∀ fd', fd_content f' fd' = fd_content f fd') ∧ (i32 r = want → bs = file_read (fd_content f fd) off want)) as Hread.
  { intros m f r bs f' Hm Hp. split; [intros fd'; apply (posix_pread_keeps _ _ _ _ _ _ _ fd' Hp)|].
    destruct (posix_pread_keeps _ _ _ _ _ _ _ fd Hp) as [Hge _]. intros Hr.
    destruct (decide (r = -1)) as [->|]; [vm_compute in Hr; lia|].
    destruct (posix_pread_law _ _ _ _ _ _ _ Hp ltac:(lia) Hoff) as (Hle & Hlen & Hbs). rewrite Z.max_r in Hle by lia.
    unfold i32 in Hr. rewrite Z.mod_small in Hr by lia.
    assert (r = want) as -> by lia. done. }
  unfold pread_checked, pread. mstep.
  destruct (posix_pread fd n off (the_fs s)) as [[r bs] f1] eqn:H1. cbn [fst snd]. destruct (Hread n _ _ _ _ ltac:(lia) H1) as [Hk1 Hb1].
  destruct (decide (i32 r = want)) as [Hr|Hr].
  { eexists _, _, _. split; [reflexivity|]. split; [done|]. left. by rewrite Hr in *; auto. }
  mstep. change (the_fs (with_disk (the_cache s) f1 s)) with f1. destruct (decide (posix_errno f1 = EAGAIN)).
  2: { eexists _, _, f1. split; [reflexivity|]. split; [done|by right]. }
  mstep. change (the_fs (with_disk (the_cache s) f1 s)) with f1. change (the_cache (with_disk (the_cache s) f1 s)) with (the_cache s).
  destruct (posix_pread fd want off f1) as [[r2 bs2] f2] eqn:H2. cbn [fst snd]. destruct (Hread want _ _ _ _ ltac:(lia) H2) as [Hk2 Hb2].
  rewrite with_disk_twice. destruct (decide (i32 r2 = want)) as [Hr2|Hr2].
  - eexists _, _, f2. split; [reflexivity|]. split; [intros fd'; by rewrite Hk2|]. left. split; [done|]. rewrite <-Hk1. auto.
  - mstep. eexists _, _, f2. split; [reflexivity|]. split; [intros fd'; by rewrite Hk2|]. by right.
Qed.

Lemma ReadFileLR_served (oi : Open) off n (s : Store F R B) : served oi s → 0 < n < 2 ^ 31 → 0 ≤ off →
  ∃ ret bs f, ReadFileLR peers cfg oi off n s = Ret (ret, bs, oi) (with_disk (the_cache s) f s) ∧
    (∀ fd', fd_content f fd' = fd_content (the_fs s) fd') ∧
    (0 < ret < 2 ^ 31 ∧ ret = Z.min n (currentSize oi - off) ∧ bs = file_read (content oi s) off ret ∨ -4096 < ret ≤ 0).
Proof.
  intros Hsv Hn Hoff. pose proof (sv_size _ _ Hsv) as Hsz. unfold ReadFileLR. rewrite i64_small by lia.
  destruct (decide (off >= currentSize oi)) as [Hge|Hlt].
  { exists 0, [], (the_fs s). split; [by destruct s as [[]]|]. split; [done|by right]. }
  rewrite u64_small by lia. mstep. rewrite (sv_local _ _ Hsv). mstep.
  rewrite (decide_True (P := physicalFd oi ≠ UINT64_MAX ∧ _)) by (split; [apply (sv_fd _ _ Hsv)|apply (sv_unlocked _ _ Hsv)]).
  destruct (pread_checked_spec (physicalFd oi) n off (Z.min n (currentSize oi - off)) s Hoff ltac:(lia) ltac:(lia))
    as (r & bs & f & Hp & Hk & Hr). rewrite bind_assoc, (bind_ret _ _ _ _ _ Hp). mstep.
  rewrite decide_False by (rewrite (sv_remote _ _ Hsv); intros (_ & ? & _); done).
  exists r, bs, f. split; [reflexivity|]. split; [done|]. destruct Hr as [[-> ->]| ->].
  - left. split_and!; [lia|lia|done|done].
  - right. pose proof (posix_errno_law f). lia.
Qed.

(** Reading a served file: bytes of the file, or an error, or nothing. *)
Lemma handle_ReadFile_law fd n off v e bs v' : server_open v fd → 0 < n < 2 ^ 31 → 0 ≤ off < 2 ^ 63 →
  handle_ReadFile peers cfg fd n off v = Ret (e, bs) v' →
  server_open v' fd ∧ server_file v' fd = server_file v fd ∧ e ≤ 0 ∧ Z.of_nat (length bs) ≤ n ∧
  (bs = [] ∨ bs = file_read (server_file v fd) off (Z.of_nat (length bs))).
Proof.
  intros (oi & Hoi & Hsv) Hn Hoff Hrun. unfold handle_ReadFile in Hrun. rewrite decide_False in Hrun by lia.
  rewrite (with_instance_runs _ _ _ _ _ Hoi (sv_closed _ _ Hsv)), (sv_direct _ _ Hsv), i64_small in Hrun by lia.
  rewrite bind_fs in Hrun.
  set (s := v_store v) in *. set (s1 := with_disk (the_cache s) (posix_alloc (the_fs s)).2 s) in *.
  assert (∀ s2 f, s2 = with_disk (the_cache s) f s → (∀ fd', fd_content f fd' = fd_content (the_fs s) fd') →
    served oi s2 ∧ content oi s2 = content oi s) as Hsame.
  { intros s2 f -> Hf. split; [destruct Hsv; by split|]. unfold content. simpl. by rewrite Hf. }
  assert (∀ s2, served oi s2 ∧ content oi s2 = content oi s → v' = mkServer s2 ((v_fds v) <| openInstanceMap ::= <[fd := oi]> |>) →
    server_open v' fd ∧ server_file v' fd = server_file v fd) as Hfin.
  { intros s2 [Hs2 Hc2] ->. split; [exists oi; split; [apply lookup_insert_eq|done]|].
    unfold server_file. simpl. by rewrite lookup_insert_eq, Hoi. }
  destruct (Hsame s1 _ eq_refl (posix_alloc_law (the_fs s))) as [Hsv1 Hc1].
  destruct ((posix_alloc (the_fs s)).1); cbn [negb] in Hrun.
  2: { injection Hrun as <- <- <-. destruct (Hfin s1 (conj Hsv1 Hc1) eq_refl). split_and!; try done; [simpl; lia|by left]. }
  destruct (ReadFileLR_served oi off n s1 Hsv1 Hn ltac:(lia)) as (ret & bs' & f & Hread & Hk & Hr).
  rewrite (bind_ret _ _ _ _ _ Hread) in Hrun. cbv beta iota zeta in Hrun. injection Hrun as Hrep Hv.
  destruct (Hfin (with_disk (the_cache s1) f s1)) as [Hopen' Hfile']; [|done|split; [done|split; [done|]]].
  { apply (Hsame _ f); [by unfold s1; rewrite with_disk_twice|]. intros fd'. rewrite Hk. apply posix_alloc_law. }
  destruct Hr as [(Hrange & Hwant & Hbs)|Hneg].
  - assert (i32 ret = ret) as Hi by (unfold i32; rewrite Z.mod_small; lia). rewrite Hi in Hrep.
    rewrite decide_False in Hrep by lia. injection Hrep as <- <-. split; [done|]. split; [rewrite length_take; lia|]. right. unfold server_file. rewrite Hoi. fold s.
    rewrite Hbs, Hc1. unfold file_read. rewrite take_take, Nat.min_id. rewrite length_take, length_drop.
    set (L := length (content oi s)). destruct (decide (Z.to_nat ret ≤ L - Z.to_nat off)%nat).
    + f_equal. lia.
    + rewrite !take_ge; [done|rewrite length_drop; fold L; lia..].
  - assert (i32 ret = ret) as Hi by (unfold i32; rewrite Z.mod_small; lia). rewrite Hi in Hrep.
    assert (e ≤ 0 ∧ bs = []) as [? ->]; [|split_and!; [done|simpl; lia|by left]].
    destruct (decide (ret < 0)); injection Hrep as <- <-; [split; [lia|done]|]. by assert (ret = 0) as -> by lia.
Qed.

#[local] Existing Instance ServerStub.
#[program] Definition ServerFiles : StubFiles Srv (Stub0 := ServerStub peers cfg rehash garbage) :=
  {| remote_file := server_file; remote_open := server_open |}.
Next Obligation.
  intros fd bs off v n v' Ho Hne Hoff Hend. simpl. unfold answer. destruct (handle_WriteFile _ _ _ _ _) as [[e m] v1| | |] eqn:Hrun; try done.
  intros [= -> -> ->] Hn. by eapply handle_WriteFile_law.
Qed.
Next Obligation.
  intros fd sync bs off v v' Ho Hoff Hend. simpl. unfold answer. destruct (handle_CloseFile _ _ _ _ _ _ _ _) as [e v1| | |] eqn:Hrun; try done.
  intros [= -> ->]. by eapply handle_flush_law.
Qed.
Next Obligation. intros fd bs off v code v'. simpl. unfold answer. case_match; intros [= <- _]; done. Qed.
Next Obligation. intros fd flush sync bs off v code v'. simpl. unfold answer. case_match; intros [= <- _]; done. Qed.

(** From a client to the disk of the node that has the file: after any
    sequence of writes to a write stream that all return 0, and a flush that
    returns 0, the open file on the serving node holds exactly what those writes,
    one after the other, make of its old content.  Between the two lie the
    client's buffer, the calls and their error codes, the handlers of the
    service, the reservation of space in the cache and the loop around pwrite. *)
Theorem remote_writes_arrive {F' : Type} `{!Posix F'} root dirs w (s : IO F' Srv) l cur sync :
  let Hs := ServerStub peers cfg rehash garbage in
  stream_ok w → server_open (io_remote s) (ws_physicalFd w) → GetSize w = 0 →
  Forall (λ '(bytes, off), write_ok bytes off) l →
  returns (write_and_flush root dirs w l cur sync s)
    (λ '(ret, w') s', ret = 0 →
       server_file (io_remote s') (ws_physicalFd w) =
         after_writes w s l (server_file (io_remote s) (ws_physicalFd w))).
Proof.
  intros Hs Hok Hopen Hz Hall. eapply returns_mono.
  - exact (write_and_flush_spec (StubFiles0 := ServerFiles) root dirs w s l cur sync Hok Hopen Hall).
  - intros [ret w'] s' (_ & _ & _ & H) Hret. destruct (H Hret) as [_ H']. unfold logical in H'.
    unfold GetSize in Hz. rewrite decide_True in H' by done. exact H'.
Qed.

(** Writing, flushing, and then reading [n] bytes at [off]; [None] when a write or the flush failed. *)
Definition write_then_read {F' : Type} `{!Posix F'} root dirs w l cur sync n off p : M (IO F' Srv) (option (Z * list Z)) :=
  let Hs := ServerStub peers cfg rehash garbage in
  '(ret, _) ← write_and_flush root dirs w l cur sync;
  if decide (ret ≠ 0) then mret None else r ← on_remote (client_ReadFile (ws_physicalFd w) n off p); mret (Some r).

(** (C5) A client reads what it has written: when writes to a file of another
    node and their flush have returned 0, a read of that file that returns a
    positive number returns that many bytes, and they are the bytes at this
    offset in what the writes that arrive, one after the other, make of the old
    content.  All of them arrive when the client's stream has its buffer or the
    pool has memory for it at its first use; else the writes below 256 KiB are
    dropped until it has.  The serving node has the file open without O_DIRECT,
    pinned in its cache and not locked for loading ([served]). *)
Theorem remote_read_after_write {F' : Type} `{!Posix F'} root dirs w (s : IO F' Srv) l cur sync n off p :
  stream_ok w → server_open (io_remote s) (ws_physicalFd w) → GetSize w = 0 →
  Forall (λ '(bytes, off), write_ok bytes off) l → 0 < n < 2 ^ 31 → 0 ≤ off < 2 ^ 63 →
  returns (write_then_read root dirs w l cur sync n off p s)
    (λ r s', match r with
       | Some (ret, bs) => 0 < ret → Z.of_nat (length bs) = ret ∧
           bs = file_read (foldl (λ f '(bytes, off), file_write f off bytes) (server_file (io_remote s) (ws_physicalFd w))
                              (arriving (has_buffer w) (io_fs s) l)) off ret
       | None => True
       end) ∧
  (has_buffer w = true ∨ (posix_alloc (io_fs s)).1 = true → arriving (has_buffer w) (io_fs s) l = l).
Proof.
  intros Hok Hopen Hz Hall Hn Hoff. split; [|apply arriving_all]. unfold write_then_read. cbv zeta.
  pose proof (write_and_flush_spec (StubFiles0 := ServerFiles) root dirs w s l cur sync Hok Hopen Hall) as Hwf.
  unfold mbind at 1, M_bind. destruct (write_and_flush _ _ _ _ _ _ _) as [[ret w'] s1| | |]; try done.
  destruct Hwf as (_ & _ & _ & Hwf). destruct (decide (ret ≠ 0)) as [|Hret]; [done|]. apply dec_stable in Hret.
  destruct (Hwf Hret) as [Hopen1 Hfile1]. unfold logical in Hfile1. unfold GetSize in Hz. rewrite decide_True in Hfile1 by done.
  simpl in Hopen1, Hfile1.
  unfold on_remote, mzoom, client_ReadFile, mbind, M_bind. rewrite call_eq. cbn [stub_ReadFile ServerStub]. unfold answer.
  pose proof (fuse_errno_pos (Stub0 := ServerStub peers cfg rehash garbage) 1008 ltac:(done)) as Hto.
  destruct (handle_ReadFile _ _ _ _ _ _) as [[e bs] v'| | |] eqn:Hrun; cbv beta iota zeta; cbn [fst snd]; [|intros ?; exfalso; lia..].
  destruct (handle_ReadFile_law _ _ _ _ _ _ _ Hopen1 Hn Hoff Hrun) as (_ & _ & He & Hlen & Hbs). simpl.
  destruct (decide (e ≠ 0)); [simpl; lia|]. assert (i32 (Z.of_nat (length bs)) = Z.of_nat (length bs)) as ->.
  { unfold i32. rewrite Z.mod_small; lia. }
  destruct (decide _); [simpl; done|]. simpl. intros Hpos. split; [done|]. destruct Hbs as [->|Hbs]; [done|]. rewrite Hbs at 1. f_equal. exact Hfile1.
Qed.
End files.
