(* ===== verification/StoreSpace.v ===== *)
(** * No operation of the store loses reserved space

    Space on the disk is reserved before bytes are written and given back
    afterwards, on every path, by the call itself or by the task it hands to the
    thread pool.  [owes c m]: [m] ends with [c] more bytes reserved than it
    found, not counting what its tasks will give back. *)
From S2P Require Import Prelude Posix FileLock DiskCache IOClient WriteStream Node Store Server StoreSpec.
Local Open Scope Z_scope.

(** ** Accounting in a state monad *)
Section owes.
Context {S : Type} (owed : S → Z) (live : S → Prop).

Definition owes {A} (c : Z) (m : M S A) : Prop :=
  ∀ s, live s → match m s with Ret _ s' => live s' ∧ u64 (owed s') = u64 (owed s + c) | _ => True end.

Lemma owes_ret {A} (a : A) c : c = 0 → owes c (mret a).
Proof. intros -> s Hs. simpl. by rewrite Z.add_0_r. Qed.

(** After [m], which owes [c1]. *)
Lemma owes_then {A B} c1 (m : M S A) (f : A → M S B) c : owes c1 m → (∀ a, owes (c - c1) (f a)) → owes c (m ≫= f).
Proof.
  intros Hm Hf s Hs. specialize (Hm s Hs). unfold mbind, M_bind. destruct (m s) as [a s1| | |]; try done. destruct Hm as [Hl1 H1].
  specialize (Hf a s1 Hl1). destruct (f a s1) as [b s2| | |]; try done. destruct Hf as [Hl2 H2]. split; [done|]. rewrite H2.
  unfold u64 in *. rewrite Z.add_mod, H1, <-Z.add_mod by lia. f_equal. lia.
Qed.

Lemma owes_bind {A B} (m : M S A) (f : A → M S B) c : owes 0 m → (∀ a, owes c (f a)) → owes c (m ≫= f).
Proof. intros Hm Hf. apply (owes_then 0); [done|]. intros a. by rewrite Z.sub_0_r. Qed.

Lemma owes_diverge {A} c : owes c (mdiverge (A := A)).
Proof. by intros s. Qed.
Lemma owes_undefined {A} c : owes c (mundefined (A := A)).
Proof. by intros s. Qed.
Lemma owes_mget : owes 0 mget.
Proof. intros s Hs. simpl. by rewrite Z.add_0_r. Qed.
Lemma owes_modify g : (∀ s, live s → live (g s) ∧ owed (g s) = owed s) → owes 0 (mmodify g).
Proof. intros Hg s Hs. destruct (Hg s Hs) as [? He]. simpl. by rewrite He, Z.add_0_r. Qed.
Lemma owes_neutral {A} c (m : M S A) : c = 0 → owes 0 m → owes c m.
Proof. by intros ->. Qed.
End owes.

(** Part of the state. *)
Lemma owes_zoom {S U A} owedS (liveS : S → Prop) owedU (liveU : U → Prop) (get : S → U) put (m : M U A) c k :
  (∀ s, liveS s → liveU (get s) ∧ owedS s = owedU (get s) + k s) →
  (∀ u s, liveS s → liveU u → liveS (put u s) ∧ owedS (put u s) = owedU u + k s) →
  owes owedU liveU c m → owes owedS liveS c (mzoom get put m).
Proof.
  intros Hget Hput Hm s Hs. destruct (Hget s Hs) as [Hu He]. specialize (Hm (get s) Hu). unfold mzoom.
  destruct (m (get s)) as [a u| | |]; try done. destruct Hm as [Hu' H']. destruct (Hput u s Hs Hu') as [? He']. split; [done|].
  rewrite He', He. unfold u64 in *. rewrite Z.add_mod, H', <-Z.add_mod by lia. f_equal. lia.
Qed.

(** The rules that do not change what is owed, read off the program. *)
Ltac owes_step :=
  match goal with
  | |- owes _ _ _ (mret _) => apply owes_ret; lia
  | |- owes _ _ _ mget => apply owes_mget
  | |- owes _ _ _ mdiverge => apply owes_diverge
  | |- owes _ _ _ mundefined => apply owes_undefined
  | |- owes _ _ _ (match ?x with _ => _ end) => destruct x
  | |- owes _ _ _ (let _ := _ in _) => cbv zeta
  | |- owes _ _ _ (mbind _ _) => apply owes_bind; [|intros ?]
  end.

(** ** The cache *)
Section cache.
Context {F : Type} `{!Posix F}.
Context (root : string) (dirs : Z).
Local Abbreviation DC := (M (DiskCache * F)).

Definition d_owed (p : DiskCache * F) : Z := reservedCap p.1.
Definition d_live (p : DiskCache * F) : Prop := stop p.1 = false.
Local Abbreviation dowes := (owes d_owed d_live).

Lemma owes_cache_read : dowes 0 cache.
Proof. intros [d f] Hs. simpl. by rewrite Z.add_0_r. Qed.
Lemma owes_now : dowes 0 now.
Proof. intros [d f] Hs. simpl. by rewrite Z.add_0_r. Qed.
Lemma owes_cache_errno : dowes 0 DiskCache.errno.
Proof. intros [d f] Hs. simpl. by rewrite Z.add_0_r. Qed.
Lemma owes_with_fs {A} (op : F → A * F) : dowes 0 (with_fs op).
Proof. intros [d f] Hs. unfold with_fs. destruct (op f). simpl. by rewrite Z.add_0_r. Qed.
Lemma owes_set_cache g : (∀ d, stop (g d) = stop d ∧ reservedCap (g d) = reservedCap d) → dowes 0 (set_cache g).
Proof. intros Hg. apply owes_modify. intros [d f] Hs. unfold d_live, d_owed in *. simpl in *. destruct (Hg d) as [-> ->]. done. Qed.
Ltac cache_step :=
  first
    [ owes_step
    | match goal with
      | |- owes _ _ _ cache => apply owes_cache_read
      | |- owes _ _ _ now => apply owes_now
      | |- owes _ _ _ DiskCache.errno => apply owes_cache_errno
      | |- owes _ _ _ (with_fs _) => apply owes_with_fs
      | |- owes _ _ _ (set_cache _) => apply owes_set_cache; intros ?; split; reflexivity
      end ].
Ltac cache_steps := repeat cache_step.

Lemma owes_deref n : dowes 0 (deref n).
Proof. unfold deref. cache_steps. Qed.
Lemma owes_update_node n g : dowes 0 (update_node n g).
Proof. unfold update_node. cache_steps. Qed.
Lemma owes_account delta : dowes 0 (account delta).
Proof. unfold account. cache_steps. Qed.
Lemma owes_forget n key sz : dowes 0 (forget n key sz).
Proof. unfold forget. cache_steps. Qed.

Ltac cache_steps' :=
  repeat first
    [ cache_step
    | match goal with
      | |- owes _ _ _ (deref _) => apply owes_deref
      | |- owes _ _ _ (update_node _ _) => apply owes_update_node
      | |- owes _ _ _ (account _) => apply owes_account
      | |- owes _ _ _ (forget _ _ _) => apply owes_forget
      | |- owes _ _ _ (remove_file _ _ _) => unfold remove_file
      end ].

Lemma owes_Pin key : dowes 0 (Pin key).
Proof. unfold Pin. cache_steps'. Qed.
Lemma owes_Unpin key : dowes 0 (Unpin key).
Proof. unfold Unpin. cache_steps'. Qed.
Lemma owes_Find key pin : dowes 0 (Find root dirs key pin).
Proof. unfold Find. cache_steps'. apply owes_Pin. Qed.
Lemma owes_Insert key sz pin : dowes 0 (InsertAndUpdate key sz pin).
Proof. unfold InsertAndUpdate. cache_steps'. apply owes_Pin. Qed.
Lemma owes_Update key sz : dowes 0 (Update key sz).
Proof. unfold Update. cache_steps'. Qed.
Lemma owes_Add key sz : dowes 0 (Add key sz).
Proof. unfold Add. cache_steps'. Qed.
Lemma owes_remove_cached n key : dowes 0 (remove_cached root dirs n key).
Proof. unfold remove_cached. cache_steps'. Qed.
Lemma owes_Delete key : dowes 0 (DiskCache.Delete root dirs key).
Proof. unfold DiskCache.Delete. cache_steps'. apply owes_remove_cached. Qed.
Lemma owes_DeleteOld key : dowes 0 (DeleteOldCacheWithNoPin root dirs key).
Proof. unfold DeleteOldCacheWithNoPin. cache_steps'. apply owes_remove_cached. Qed.
Lemma owes_HasFreeSpace : dowes 0 HasFreeSpace.
Proof. unfold HasFreeSpace. cache_steps'. Qed.

Lemma owes_evict_loop rest c i fc fi : dowes 0 (evict_loop root dirs rest c i fc fi).
Proof.
  revert fc fi. induction rest as [|n rest IH]; intros fc fi; cbn [evict_loop]; [cache_steps'|]. cache_steps'; apply IH.
Qed.
Lemma owes_Evict sz : dowes 0 (Evict root dirs sz).
Proof.
  unfold Evict, GetCurFreeRatio, CleanupForEvict, evict. cache_steps'; apply owes_evict_loop.
Qed.

(** The two operations that change what is owed. *)
Lemma owes_Free sz : dowes (- sz) (FreePreAllocSpace sz).
Proof.
  intros [d f] Hs. unfold FreePreAllocSpace. mstep. unfold d_live in Hs. simpl in Hs. rewrite Hs. simpl. split; [done|].
  unfold d_owed. simpl. unfold u64. by rewrite Zmod_mod.
Qed.

Lemma reserve_state (sz : Z) (p : DiskCache * F) : u64 (u64 (reservedCap p.1 + sz)) = u64 (reservedCap p.1 + sz).
Proof. unfold u64. apply Zmod_mod. Qed.

Lemma owes_retry k sz : ∀ p, d_live p →
  match prealloc_retry root dirs k sz p with
  | Ret b p' => d_live p' ∧ u64 (d_owed p') = u64 (d_owed p + if (b : bool) then sz else 0)
  | _ => True
  end.
Proof.
  induction k as [|k IH]; intros p Hp; cbn [prealloc_retry]; [simpl; by rewrite Z.add_0_r|].
  pose proof (owes_Evict sz p Hp) as He. unfold mbind at 1, M_bind. destruct (Evict root dirs sz p) as [[] [d1 f1]| | |]; try done.
  destruct He as [Hl1 He]. rewrite Z.add_0_r in He. mstep. destruct (decide _).
  - specialize (IH (d1, f1) Hl1). destruct (prealloc_retry _ _ _ _ _) as [b p'| | |]; try done. destruct IH as [? IH]. split; [done|].
    rewrite IH. unfold u64 in *. by rewrite Z.add_mod, He, <-Z.add_mod by lia.
  - simpl. split; [done|]. unfold d_owed. simpl. unfold d_owed in He. simpl in He. unfold u64 in *.
    by rewrite Zmod_mod, Z.add_mod, He, <-Z.add_mod by lia.
Qed.

Lemma prealloc_owes sz : ∀ p, d_live p →
  match PreAllocSpace root dirs sz p with
  | Ret b p' => d_live p' ∧ u64 (d_owed p') = u64 (d_owed p + if (b : bool) then sz else 0)
  | _ => True
  end.
Proof.
  intros [d f] Hp. unfold PreAllocSpace. mstep. unfold d_live in Hp. simpl in Hp. rewrite Hp. destruct (decide _).
  - simpl. split; [done|]. apply (reserve_state sz (d, f)).
  - mstep. change (d_owed (d, f)) with (d_owed (d <| hasFreeSpace := false |>, f)). apply (owes_retry 3 sz (d <| hasFreeSpace := false |>, f)). done.
Qed.
End cache.

(** ** The write stream *)
Section stream.
Context {F R : Type} `{!Posix F} `{!Stub R}.
Context (root : string) (dirs : Z).

Definition i_owed (s : IO F R) : Z := reservedCap (io_cache s).
Definition i_live (s : IO F R) : Prop := stop (io_cache s) = false.
Local Abbreviation iowes := (owes i_owed i_live).

Lemma owes_on_cache {A} c (m : M (DiskCache * F) A) : owes d_owed d_live c m → iowes c (on_cache m).
Proof.
  apply (owes_zoom _ _ _ _ _ _ _ _ (λ _, 0)); intros; unfold i_live, d_live, i_owed, d_owed in *; simpl in *; split; lia || done.
Qed.
Lemma owes_on_fs {A} (op : F → A * F) : iowes 0 (on_fs op).
Proof. intros s Hs. unfold on_fs, mzoom. destruct (op (io_fs s)). unfold i_owed, i_live in *. simpl. by rewrite Z.add_0_r. Qed.
Lemma owes_on_remote {A} (m : M R A) : iowes 0 (on_remote m).
Proof. intros s Hs. unfold on_remote, mzoom. destruct (m (io_remote s)); try done. unfold i_owed, i_live in *. simpl. by rewrite Z.add_0_r. Qed.
Lemma owes_get_errno : iowes 0 get_errno.
Proof. intros s Hs. simpl. by rewrite Z.add_0_r. Qed.

(** A reservation, and what follows when it is granted and when it is not. *)
Lemma owes_prealloc {A} sz c (k : bool → M (IO F R) A) :
  iowes (c - sz) (k true) → iowes c (k false) → iowes c (on_cache (PreAllocSpace root dirs sz) ≫= k).
Proof.
  intros Ht Hf s Hs. pose proof (prealloc_owes root dirs sz (io_cache s, io_fs s) Hs) as H.
  unfold on_cache, mzoom, mbind, M_bind. destruct (PreAllocSpace _ _ _ _) as [b [d f]| | |]; try done. destruct H as [Hl Ho].
  unfold d_live, d_owed in *. simpl in Hl, Ho |- *. destruct b.
  - specialize (Ht (mkIO d f (io_remote s)) Hl). destruct (k true _) as [a s'| | |]; try done. destruct Ht as [? Ht]. split; [done|].
    rewrite Ht. unfold i_owed. simpl. unfold u64 in *. rewrite Z.add_mod, Ho, <-Z.add_mod by lia. f_equal. lia.
  - specialize (Hf (mkIO d f (io_remote s)) Hl). destruct (k false _) as [a s'| | |]; try done. destruct Hf as [? Hf]. split; [done|].
    rewrite Hf. unfold i_owed. simpl. rewrite Z.add_0_r in Ho. unfold u64 in *. by rewrite Z.add_mod, Ho, <-Z.add_mod by lia.
Qed.

Lemma owes_free {A} sz c (k : () → M (IO F R) A) : iowes (c + sz) (k ()) → iowes c (on_cache (FreePreAllocSpace sz) ≫= k).
Proof.
  intros Hk. apply (owes_then _ _ (- sz)); [apply owes_on_cache, owes_Free|]. intros []. by replace (c - - sz) with (c + sz) by lia.
Qed.

Ltac stream_step :=
  match goal with
  | |- owes _ _ _ (mbind _ (on_cache (PreAllocSpace _ _ _))) => apply owes_prealloc
  | |- owes _ _ _ (mbind _ (on_cache (FreePreAllocSpace _))) => apply owes_free
  | |- owes _ _ _ (on_cache (Add _ _)) => apply owes_on_cache, owes_Add
  | |- owes _ _ _ (on_fs _) => apply owes_on_fs
  | |- owes _ _ _ (on_remote _) => apply owes_on_remote
  | |- owes _ _ _ get_errno => apply owes_get_errno
  | _ => owes_step
  end.

Lemma owes_PersistToFile w buf size off cur : iowes 0 (PersistToFile root dirs w buf size off cur).
Proof. unfold PersistToFile. repeat stream_step. Qed.
Lemma owes_Persist w cur : iowes 0 (Persist root dirs w cur).
Proof. unfold Persist. repeat stream_step. apply owes_PersistToFile. Qed.
Lemma owes_Append buf n off d : iowes 0 (SerialData_Append buf n off d).
Proof. unfold SerialData_Append, FixMemory_Append. repeat stream_step. Qed.
Lemma owes_Push w buf off cur : iowes 0 (Push root dirs w buf off cur).
Proof. unfold Push. repeat stream_step; first [apply owes_PersistToFile|apply owes_Persist|apply owes_Append]. Qed.
Lemma owes_Complete w cur flush sync : iowes 0 (Complete root dirs w cur flush sync).
Proof. unfold Complete. repeat stream_step. apply owes_Persist. Qed.
End stream.

(** ** The store *)
Section store.
Context {F R B T : Type} `{!Posix F} `{!Statvfs F} `{!Storage B F} `{!ReadAhead T}.
Context (peers : string → Stub R) (cfg : Config) (rehash : list (Z * string) → list (Z * string)).
Local Abbreviation SM := (M (Store F R B)).
Local Abbreviation Open := (OpenInstance T).

(** What a task has reserved. *)
Definition task_space (t : task) : Z := match t with LoadTask _ sz _ _ => sz | WriteTask _ sz _ _ => sz end.
Definition pending (s : Store F R B) : Z := zsum task_space (s_tasks s).

Definition s_owed (s : Store F R B) : Z := reservedCap (the_cache s) - pending s.
Definition s_live (s : Store F R B) : Prop := stop (the_cache s) = false.
Local Abbreviation sowes := (owes s_owed s_live).

Lemma owes_io {A} c (m : M (IO F R) A) : owes i_owed i_live c m → sowes c (io m).
Proof.
  apply (owes_zoom _ _ _ _ _ _ _ _ (λ s, - pending s)); intros; unfold s_live, i_live, s_owed, i_owed in *; simpl in *; split; lia || done.
Qed.
Lemma owes_dc {A} (m : M (DiskCache * F) A) : owes d_owed d_live 0 m → sowes 0 (dc m).
Proof. intros H. by apply owes_io, owes_on_cache. Qed.
Lemma owes_fs {A} (op : F → A * F) : sowes 0 (fs op).
Proof. apply owes_io, owes_on_fs. Qed.
Lemma owes_errno : sowes 0 Store.errno.
Proof. apply owes_io, owes_get_errno. Qed.
Lemma owes_obs {A} (op : B * F → A * (B * F)) : sowes 0 (obs op).
Proof. intros s Hs. unfold obs. destruct (op _) as [a [o f]]. unfold s_live, s_owed, pending in *. simpl. by rewrite Z.add_0_r. Qed.
Lemma owes_at_peer {A} e (m : Stub R → M R A) : sowes 0 (at_peer peers e m).
Proof. apply owes_io, owes_on_remote. Qed.
Lemma owes_nodes : sowes 0 nodes.
Proof. intros s Hs. simpl. by rewrite Z.add_0_r. Qed.
Lemma owes_same {A} (m : SM A) : (∀ s, match m s with
    | Ret _ s' => the_cache s' = the_cache s ∧ s_tasks s' = s_tasks s | _ => True end) → sowes 0 m.
Proof.
  intros Hm s Hs. specialize (Hm s). destruct (m s) as [a s'| | |]; try done. destruct Hm as [Hc Ht].
  unfold s_live, s_owed, pending in *. by rewrite Hc, Ht, Z.add_0_r.
Qed.
Lemma owes_lock inode wait : sowes 0 (lock_file inode wait).
Proof. apply owes_same. intros s. unfold lock_file, mbind, M_bind. simpl. destruct (innerGetFileLock _ _ _ _) as [[]]; done. Qed.
Lemma owes_unlock inode : sowes 0 (unlock_file inode).
Proof. by apply owes_same. Qed.
Lemma owes_set_nodes g : sowes 0 (set_nodes g).
Proof. by apply owes_same. Qed.
Lemma owes_set_hash p n : sowes 0 (mmodify (λ s : Store F R B, s <| s_hash ::= <[p := n]> |>)).
Proof. by apply owes_same. Qed.

Lemma owes_Submit {A} t c (k : () → SM A) : sowes (c + task_space t) (k ()) → sowes c (Submit t ≫= k).
Proof.
  intros Hk. apply (owes_then _ _ (- task_space t)); [|intros []; by replace (c - - task_space t) with (c + task_space t) by lia].
  intros s Hs. split; [done|]. unfold s_owed, pending. cbn [s_tasks]. simpl. rewrite zsum_app. cbn [zsum]. f_equal. change (the_cache (s <| s_tasks ::= (.++ [t]) |>)) with (the_cache s). lia.
Qed.

Lemma owes_dc_prealloc {A} root dirs sz c (k : bool → SM A) :
  sowes (c - sz) (k true) → sowes c (k false) → sowes c (dc (PreAllocSpace root dirs sz) ≫= k).
Proof.
  intros Ht Hf s Hs. rewrite bind_dc. pose proof (prealloc_owes root dirs sz (the_cache s, the_fs s) Hs) as H.
  destruct (PreAllocSpace _ _ _ _) as [b [d f]|e [d f]| |]; try done. destruct H as [Hl Ho]. unfold d_live, d_owed in *. simpl in Hl, Ho.
  assert (∀ x, u64 (reservedCap d) = u64 (reservedCap (the_cache s) + x) → u64 (s_owed (with_disk d f s)) = u64 (s_owed s + x)) as Hw.
  { intros x Hx. change (s_owed (with_disk d f s)) with (reservedCap d - pending s). unfold s_owed, u64 in *.
    rewrite Zminus_mod, Hx, <-Zminus_mod. f_equal. lia. }
  destruct b.
  - specialize (Ht (with_disk d f s) Hl). destruct (k true _) as [a s'| | |]; try done. destruct Ht as [? Ht]. split; [done|].
    rewrite Ht. apply Hw in Ho. unfold u64 in *. rewrite Z.add_mod, Ho, <-Z.add_mod by lia. f_equal. lia.
  - specialize (Hf (with_disk d f s) Hl). destruct (k false _) as [a s'| | |]; try done. destruct Hf as [? Hf]. split; [done|].
    rewrite Hf. apply Hw in Ho. rewrite Z.add_0_r in Ho. unfold u64 in *. by rewrite Z.add_mod, Ho, <-Z.add_mod by lia.
Qed.

Lemma owes_dc_free {A} sz c (k : () → SM A) : sowes (c + sz) (k ()) → sowes c (dc (FreePreAllocSpace sz) ≫= k).
Proof.
  intros Hk. apply (owes_then _ _ (- sz)); [apply owes_io, owes_on_cache, owes_Free|]. intros []. by replace (c - - sz) with (c + sz) by lia.
Qed.

Ltac store_step :=
  match goal with
  | |- owes _ _ _ (mbind _ (dc (PreAllocSpace _ _ _))) => apply owes_dc_prealloc; cbn [negb]
  | |- owes _ _ _ (mbind _ (dc (FreePreAllocSpace _))) => apply owes_dc_free
  | |- owes _ _ _ (mbind _ (Submit _)) => apply owes_Submit; cbn [task_space]
  | |- owes _ _ _ (dc HasFreeSpace) => apply owes_dc, owes_HasFreeSpace
  | |- owes _ _ _ (dc (Find _ _ _ _)) => apply owes_dc, owes_Find
  | |- owes _ _ _ (dc (Unpin _)) => apply owes_dc, owes_Unpin
  | |- owes _ _ _ (dc (Update _ _)) => apply owes_dc, owes_Update
  | |- owes _ _ _ (dc (InsertAndUpdate _ _ _)) => apply owes_dc, owes_Insert
  | |- owes _ _ _ (dc (DiskCache.Delete _ _ _)) => apply owes_dc, owes_Delete
  | |- owes _ _ _ (dc (DeleteOldCacheWithNoPin _ _ _)) => apply owes_dc, owes_DeleteOld
  | |- owes _ _ _ (fs _) => apply owes_fs
  | |- owes _ _ _ Store.errno => apply owes_errno
  | |- owes _ _ _ (obs _) => apply owes_obs
  | |- owes _ _ _ (at_peer _ _ _) => apply owes_at_peer
  | |- owes _ _ _ nodes => apply owes_nodes
  | |- owes _ _ _ (lock_file _ _) => apply owes_lock
  | |- owes _ _ _ (unlock_file _) => apply owes_neutral; [lia|apply owes_unlock]
  | |- owes _ _ _ (set_nodes _) => apply owes_set_nodes
  | |- owes _ _ _ (mmodify (λ s, s <| s_hash ::= _ |>)) => apply owes_set_hash
  | |- owes _ _ _ (is_local _) => unfold is_local
  | |- owes _ _ _ (close _) => unfold close
  | |- owes _ _ _ (pread _ _ _) => unfold pread
  | |- owes _ _ _ (access _) => unfold access
  | _ => owes_step
  end.
Ltac store_steps := repeat store_step.

Lemma owes_PathToNodeId p : sowes 0 (PathToNodeId cfg p).
Proof.
  unfold PathToNodeId. destruct (GetParentPath p _); [|apply owes_undefined]. apply owes_same. intros s0. unfold mbind, M_bind, nodes, mget. simpl.
  destruct (decide _); [done|]. simpl. destruct (s_hash s0 !! s); done.
Qed.
Lemma owes_AllocNodeId (oi : Open) : sowes 0 (AllocNodeId cfg oi).
Proof. unfold AllocNodeId. store_steps. apply owes_PathToNodeId. Qed.
Lemma owes_update_size (oi : Open) sz ret add : sowes (- add) (update_size oi sz ret add).
Proof. unfold update_size. store_steps. Qed.
Lemma owes_write_all fuel (oi : Open) bytes off add cur newSize : sowes (- add) (write_all fuel oi bytes off add cur newSize).
Proof.
  revert bytes off. induction fuel as [|fuel IH]; intros bytes off; destruct bytes; cbn [write_all]; store_steps; try apply owes_update_size; apply IH.
Qed.
Lemma owes_WriteLocal (oi : Open) buf off : sowes 0 (WriteLocalFileForBrpc cfg oi buf off).
Proof. unfold WriteLocalFileForBrpc. store_steps; try apply owes_write_all; apply owes_update_size. Qed.
Lemma owes_pread_checked ty fd n off want : sowes 0 (pread_checked ty fd n off want).
Proof. unfold pread_checked. store_steps. Qed.
Lemma owes_ReadFileLR (oi : Open) off n : sowes 0 (ReadFileLR peers cfg oi off n).
Proof. unfold ReadFileLR. store_steps. apply owes_pread_checked. Qed.
Lemma owes_RandomRead (oi : Open) n off : sowes 0 (RandomRead peers cfg oi n off).
Proof. unfold RandomRead. store_steps; apply owes_ReadFileLR. Qed.
Lemma owes_ReadToBuffer (oi : Open) n off : sowes 0 (ReadToBuffer peers cfg oi n off).
Proof. unfold ReadToBuffer. store_steps; apply owes_RandomRead. Qed.
Lemma owes_loadObs inode sz fd object n toBuffer isSync : sowes (- sz) (loadObs cfg inode sz fd object n toBuffer isSync).
Proof. unfold loadObs. store_steps. Qed.
Lemma owes_download inode sz n object isSync toBuffer : sowes 0 (download cfg inode sz n object isSync toBuffer).
Proof. unfold download. store_steps. apply owes_loadObs. Qed.
Lemma owes_with_file_lock {A} inode wait (busy : A) m : sowes 0 m → sowes 0 (with_file_lock inode wait busy m).
Proof. intros Hm. unfold with_file_lock. store_steps. exact Hm. Qed.
Lemma owes_DownLoad (oi : Open) isSync toBuffer : sowes 0 (DownLoadFromStorage cfg oi isSync toBuffer).
Proof. unfold DownLoadFromStorage. store_steps. apply owes_with_file_lock, owes_download. Qed.
Lemma owes_DownLoadForBrpc inode p n isSync toBuffer : sowes 0 (DownLoadFromStorageForBrpc cfg inode p n isSync toBuffer).
Proof. apply owes_with_file_lock, owes_download. Qed.
Lemma owes_WriteToFileAsync inode buf n : sowes 0 (WriteToFileAsync cfg inode buf n).
Proof. unfold WriteToFileAsync. store_steps. Qed.
Lemma owes_run_task t : sowes (- task_space t) (run_task cfg t).
Proof. destruct t; cbn [run_task task_space]; [|store_steps]. apply (owes_then _ _ (- fileSize)); [apply owes_loadObs|]. intros ?. store_steps. Qed.
Lemma owes_open_cached (oi : Open) : sowes 0 (open_cached cfg oi).
Proof. unfold open_cached. store_steps; apply owes_DownLoad. Qed.
Lemma owes_OpenFile_with remote (oi : Open) : (∀ oi, sowes 0 (remote oi)) → sowes 0 (OpenFile_with cfg remote oi).
Proof. intros Hr. unfold OpenFile_with. store_steps; [apply owes_AllocNodeId|apply owes_open_cached|apply Hr]. Qed.
Lemma owes_try_remote (oi : Open) large : sowes 0 (try_remote peers oi large).
Proof. unfold try_remote. store_steps. Qed.
Lemma owes_remote_result (oi : Open) large ret : sowes 0 (remote_result cfg oi large ret).
Proof. unfold remote_result. store_steps. Qed.
Lemma owes_remote_loop here k (oi : Open) large ret : (∀ oi, sowes 0 (here oi)) → sowes 0 (remote_loop peers cfg here k oi large ret).
Proof.
  intros Hh. revert oi ret. induction k as [|k IH]; intros oi ret; cbn [remote_loop]; [apply owes_remote_result|].
  unfold switch_node. store_steps; try apply owes_try_remote; try apply owes_remote_result; try apply Hh; apply IH.
Qed.
Lemma owes_OpenFileFromRemote (oi : Open) large : sowes 0 (OpenFileFromRemote peers cfg oi large).
Proof. unfold OpenFileFromRemote. store_steps. apply owes_remote_loop. intros ?. apply owes_OpenFile_with. intros ?. apply owes_diverge. Qed.
Lemma owes_OpenFile (oi : Open) : sowes 0 (OpenFile peers cfg oi).
Proof. apply owes_OpenFile_with. intros ?. apply owes_OpenFileFromRemote. Qed.
Lemma owes_complete_stream (oi : Open) flush sync : sowes 0 (complete_stream peers cfg oi flush sync).
Proof. unfold complete_stream, on_stream. store_steps. apply owes_io, owes_Complete. Qed.
Lemma owes_ensure_open (oi : Open) : sowes 0 (ensure_open peers cfg oi).
Proof. unfold ensure_open. store_steps. apply owes_OpenFile. Qed.
Lemma owes_WriteFile (oi : Open) buf size off : sowes 0 (WriteFile peers cfg oi buf size off).
Proof. unfold WriteFile, on_stream. cbv zeta. apply owes_bind; [apply owes_ensure_open|]. intros [ret oi']. store_steps. apply owes_io, owes_Push. Qed.
Lemma owes_persist_written (oi : Open) : sowes 0 (persist_written peers cfg oi).
Proof. unfold persist_written. store_steps. apply owes_complete_stream. Qed.
Lemma owes_ReadFile (oi : Open) n off : sowes 0 (ReadFile peers cfg oi n off).
Proof.
  unfold ReadFile, start_stream. store_steps; first [apply owes_persist_written|apply owes_ensure_open|apply owes_ReadToBuffer].
Qed.
Lemma owes_finish_local (oi : Open) flush sync ret : sowes 0 (finish_local cfg oi flush sync ret).
Proof. unfold finish_local, FlushToStorage. store_steps. Qed.
Lemma owes_Close_with fl (oi : Open) flush sync : (∀ oi, sowes 0 (fl oi)) → sowes 0 (CloseTmpFiles_with peers cfg fl oi flush sync).
Proof. intros Hf. unfold CloseTmpFiles_with. store_steps; first [apply Hf|apply owes_complete_stream|apply owes_finish_local]. Qed.
Lemma owes_CloseTmpFiles (oi : Open) flush sync : sowes 0 (CloseTmpFiles peers cfg oi flush sync).
Proof. apply owes_Close_with. intros ?. apply owes_Close_with. intros ?. apply owes_diverge. Qed.
Lemma owes_read_cached inode n : sowes 0 (read_cached cfg inode n).
Proof. unfold read_cached. store_steps. apply owes_pread_checked. Qed.
Lemma owes_ReadSmallFiles (oi : Open) : sowes 0 (ReadSmallFiles peers cfg oi).
Proof.
  unfold ReadSmallFiles.
  store_steps; first [apply owes_AllocNodeId|apply owes_OpenFileFromRemote|apply owes_read_cached|apply owes_DownLoad|apply owes_WriteToFileAsync].
Qed.
Lemma owes_ReadSmallForBrpc inode p n flags failed : sowes 0 (ReadSmallFilesForBrpc cfg inode p n flags failed).
Proof. unfold ReadSmallFilesForBrpc. store_steps; first [apply owes_read_cached|apply owes_DownLoadForBrpc]. Qed.
Lemma owes_DeleteFiles inode node p : sowes 0 (DeleteFiles peers cfg inode node p).
Proof. unfold DeleteFiles, delete_object. store_steps. Qed.
Lemma owes_TruncateFile (oi : Open) n : sowes 0 (TruncateFile peers cfg oi n).
Proof. unfold TruncateFile. store_steps. apply owes_ensure_open. Qed.
Lemma owes_TruncateOpenInstance (oi : Open) n : sowes 0 (TruncateOpenInstance peers cfg oi n).
Proof. unfold TruncateOpenInstance. store_steps. apply owes_persist_written. Qed.

(** *** Any sequence of calls and tasks *)
Inductive store_op :=
  | OpWrite (oi : Open) (buf : option (list Z)) (size off : Z)
  | OpRead (oi : Open) (size off : Z)
  | OpOpen (oi : Open)
  | OpClose (oi : Open) (flush sync : bool)
  | OpReadSmall (oi : Open)
  | OpWriteForBrpc (oi : Open) (buf : list Z) (off : Z)
  | OpReadForBrpc (oi : Open) (off n : Z)
  | OpReadSmallForBrpc (inode : Z) (p : string) (n flags : Z) (failed : bool)
  | OpDeleteFiles (inode node : Z) (p : string)
  | OpTruncateFile (oi : Open) (n : Z)
  | OpTruncateOpenInstance (oi : Open) (n : Z)
  | OpTask (i : nat).

Definition run_op (o : store_op) : SM () :=
  match o with
  | OpWrite oi buf size off => WriteFile peers cfg oi buf size off ;; mret ()
  | OpRead oi size off => ReadFile peers cfg oi size off ;; mret ()
  | OpOpen oi => OpenFile peers cfg oi ;; mret ()
  | OpClose oi flush sync => CloseTmpFiles peers cfg oi flush sync ;; mret ()
  | OpReadSmall oi => ReadSmallFiles peers cfg oi ;; mret ()
  | OpWriteForBrpc oi buf off => WriteLocalFileForBrpc cfg oi buf off ;; mret ()
  | OpReadForBrpc oi off n => ReadFileLR peers cfg oi off n ;; mret ()
  | OpReadSmallForBrpc inode p n flags failed => ReadSmallFilesForBrpc cfg inode p n flags failed ;; mret ()
  | OpDeleteFiles inode node p => DeleteFiles peers cfg inode node p ;; mret ()
  | OpTruncateFile oi n => TruncateFile peers cfg oi n ;; mret ()
  | OpTruncateOpenInstance oi n => TruncateOpenInstance peers cfg oi n ;; mret ()
  | OpTask i => run_pool cfg i
  end.

Lemma zsum_delete {A} (f : A → Z) l i x : l !! i = Some x → zsum f (delete i l) = zsum f l - f x.
Proof.
  revert i. induction l as [|y l IH]; intros [|i]; simpl; try done; [intros [= ->]; lia|]. intros H. rewrite (IH i H). lia.
Qed.

Lemma owes_run_op o : sowes 0 (run_op o).
Proof.
  destruct o; cbn [run_op]; try (apply owes_bind; [|intros ?; by apply owes_ret]).
  all: first [ apply owes_WriteFile | apply owes_ReadFile | apply owes_OpenFile | apply owes_CloseTmpFiles | apply owes_ReadSmallFiles
             | apply owes_WriteLocal | apply owes_ReadFileLR | apply owes_ReadSmallForBrpc | apply owes_DeleteFiles
             | apply owes_TruncateFile | apply owes_TruncateOpenInstance | idtac ].
  intros s Hs. unfold run_pool, mbind, M_bind, mget. destruct (s_tasks s !! i) as [t|] eqn:Ht; [|simpl; by rewrite Z.add_0_r].
  simpl. set (s1 := s <| s_tasks ::= delete i |>). assert (s_live s1) as Hl1 by done.
  pose proof (owes_run_task t s1 Hl1) as H. destruct (run_task cfg t s1) as [a s2| | |]; try done. destruct H as [? H]. split; [done|].
  rewrite H. f_equal. unfold s_owed, pending, s1. simpl. rewrite (zsum_delete _ _ _ _ Ht). change (the_cache (s <| s_tasks ::= delete i |>)) with (the_cache s). lia.
Qed.

(** (C20) Reserved space is never lost: after any sequence of operations of the
    store that return, successful or not, for files and open instances of any
    kind, interleaved with the tasks of the thread pool in any way, the space that
    is reserved is what the tasks still to be run have reserved, modulo 2^64;
    none once the pool is idle. *)
Theorem reserved_space_is_pending ops (s s' : Store F R B) :
  stop (the_cache s) = false → s_tasks s = [] → reservedCap (the_cache s) = 0 →
  mfor ops run_op s = Ret () s' →
  u64 (reservedCap (the_cache s')) = u64 (pending s') ∧ (s_tasks s' = [] → u64 (reservedCap (the_cache s')) = 0).
Proof.
  intros Hs Ht Hr Hrun. assert (sowes 0 (mfor ops run_op)) as H.
  { clear Hrun. induction ops as [|o ops IH]; cbn [mfor]; [by apply owes_ret|]. apply owes_bind; [apply owes_run_op|done]. }
  specialize (H s Hs). rewrite Hrun in H. destruct H as [_ H]. unfold s_owed, pending in H. rewrite Ht, Hr in H.
  assert (u64 (reservedCap (the_cache s')) = u64 (pending s')) as Hp.
  { unfold pending, u64 in *. rewrite <-(Z.sub_add (zsum task_space (s_tasks s')) (reservedCap (the_cache s'))).
    rewrite <-Zplus_mod_idemp_l, H. done. }
  split; [done|]. intros He. rewrite Hp. unfold pending. by rewrite He.
Qed.
End store.
