(* ===== verification/StoreOpen.v ===== *)
(** * Opening a file: the node it goes to, and its pin

    OpenFile and OpenFileFromRemote call each other; when a node does not answer
    it is given up and another one is chosen.  A file of this node is pinned in
    the cache from OpenFile until it is closed. *)
From S2P Require Import Prelude Posix FileLock DiskCache IOClient WriteStream Node Store Server StoreSpec.
Local Open Scope Z_scope.

Section open.
Context {F R B T : Type} `{!Posix F} `{!Statvfs F} `{!Storage B F} `{!ReadAhead T}.
Context (peers : string → Stub R) (cfg : Config).
Local Abbreviation SM := (M (Store F R B)).
Local Abbreviation Open := (OpenInstance T).

(** ** The recursion of the code *)

(** OpenFileFromRemote as it is written, with OpenFile itself for a file that has moved to this node. *)
Definition OpenFileFromRemote_code (oi : Open) (largeFile : bool) : SM (Z * Open) :=
  n ← nodes;
  remote_loop peers cfg (OpenFile peers cfg) (Z.to_nat (GetNumberofAllNodes n)) oi largeFile EHOSTUNREACH.

Lemma OpenFile_here (oi : Open) (s : Store F R B) : nodeId (s_nodes s) ≠ -1 → IsLocal (oi_nodeId oi) (s_nodes s) = true →
  ∀ r, OpenFile_with cfg r oi s = OpenFileHere cfg oi s.
Proof.
  intros Hn Hl r. unfold OpenFileHere, OpenFile_with. destruct (decide (physicalFd oi = UINT64_MAX)); [|done].
  unfold AllocNodeId. unfold IsLocal in Hl. apply bool_decide_eq_true in Hl. rewrite decide_True by congruence. mstep.
  unfold IsLocal. rewrite bool_decide_eq_true_2 by done. done.
Qed.

(** What the calls to other nodes leave of the state. *)
Lemma try_remote_nodes (oi : Open) large (s : Store F R B) p s' : try_remote peers oi large s = Ret p s' → s_nodes s' = s_nodes s.
Proof.
  unfold try_remote. mstep. destruct (GetRpcConnection _ _) as [e|]; [|by intros [= _ <-]].
  destruct large; unfold at_peer, io, on_remote, mzoom, mbind, M_bind; simpl.
  - destruct (client_OpenFile _ _ _ _ _ _) as [[ret fd] r| | |]; try done. by intros [= _ <-].
  - destruct (client_ReadSmallFile _ _ _ _ _ _) as [[ret bs] r| | |]; try done. by intros [= _ <-].
Qed.

Lemma switch_node_runs (oi : Open) (s : Store F R B) oi' s' : switch_node cfg oi s = Ret oi' s' →
  s_nodes s' = s_nodes s ∧ oi' = oi <| oi_nodeId := AllocNode (inodeId oi) (s_nodes s) |> <| nodeFail := true |>.
Proof.
  unfold switch_node. mstep. destruct (isInference cfg); [|by intros [= <- <-]].
  destruct (GetParentPath _ _); [|done]. by intros [= <- <-].
Qed.

Lemma switch_node_io (oi : Open) (s : Store F R B) oi' s' : switch_node cfg oi s = Ret oi' s' → s_io s' = s_io s.
Proof.
  unfold switch_node. mstep. destruct (isInference cfg); [|by intros [= _ <-]].
  destruct (GetParentPath _ _); [|done]. by intros [= _ <-].
Qed.

Lemma remote_loop_here k (oi : Open) large ret (s : Store F R B) : nodeId (s_nodes s) ≠ -1 →
  remote_loop peers cfg (OpenFileHere cfg) k oi large ret s = remote_loop peers cfg (OpenFile peers cfg) k oi large ret s.
Proof.
  revert oi ret s. induction k as [|k IH]; intros oi ret s Hn; cbn [remote_loop]; [done|].
  destruct (ConnectionError ret); [|done]. unfold mbind, M_bind. destruct (try_remote _ _ _ _) as [[a oi1] s1| | |] eqn:Ht; try done.
  apply try_remote_nodes in Ht. rewrite <-Ht in Hn. cbv zeta. destruct (ConnectionError _); [|by apply IH].
  cbn [set_nodes mmodify]. unfold set_nodes, mmodify. destruct (decide _); [done|].
  destruct (switch_node _ _ _) as [oi2 s2| | |] eqn:Hsw; try done. apply switch_node_runs in Hsw as [Hs2 _].
  assert (nodeId (s_nodes s2) ≠ -1) as Hn2 by (rewrite Hs2; exact Hn). unfold is_local, nodes, mget, mbind, M_bind, mret, M_ret.
  destruct (IsLocal _ _) eqn:Hl; [|by apply IH]. symmetry. by apply OpenFile_here.
Qed.

Lemma AllocNodeId_nodes (oi oi' : Open) (s s' : Store F R B) : AllocNodeId cfg oi s = Ret oi' s' →
  s_nodes s' = s_nodes s ∧ s_io s' = s_io s ∧ ∃ n, oi' = oi <| oi_nodeId := n |>.
Proof.
  unfold AllocNodeId. destruct (decide _); [intros [= <- <-]; split_and!; [done|done|]; exists (oi_nodeId oi); by destruct oi|]. mstep. rewrite bind_dc.
  change (HasFreeSpace (the_cache s, the_fs s)) with (Ret (hasFreeSpace (the_cache s)) (the_cache s, the_fs s)).
  cbv beta iota. assert (with_disk (the_cache s) (the_fs s) s = s) as -> by (by destruct s as [[]]).
  destruct (toLocal cfg && hasFreeSpace (the_cache s)); [intros [= <- <-]; eauto|].
  destruct (isInference cfg); [|intros [= <- <-]; eauto]. unfold PathToNodeId. destruct (GetParentPath _ _) as [p|]; [|done].
  unfold mbind, M_bind, nodes, mget, mret, M_ret. simpl. destruct (decide (p = "")%string); [intros [= <- <-]; eauto|].
  simpl. destruct (s_hash s !! p); intros [= <- <-]; eauto.
Qed.

(** The recursion of OpenFile and OpenFileFromRemote is one level deep: the
    model, which lets a file that has moved to this node be opened without going
    to another one again, satisfies the recursive equation of the code for every
    open instance and state in which this node has a number. *)
Theorem OpenFile_recursion (oi : Open) (s : Store F R B) : nodeId (s_nodes s) ≠ -1 →
  OpenFile peers cfg oi s = OpenFile_with cfg (λ oi, OpenFileFromRemote_code oi true) oi s.
Proof.
  intros Hn. unfold OpenFile, OpenFile_with. destruct (decide _); [|done]. unfold mbind, M_bind.
  destruct (AllocNodeId _ _ _) as [oi1 s1| | |] eqn:Ha; try done. apply AllocNodeId_nodes in Ha as [Hs1 _]. rewrite <-Hs1 in Hn.
  unfold is_local, nodes, mget, mbind, M_bind, mret, M_ret. destruct (IsLocal _ _); [done|].
  unfold OpenFileFromRemote, OpenFileFromRemote_code. mstep. by rewrite remote_loop_here.
Qed.

(** ** What a call leaves of the nodes, and what it returns *)
Definition keeps {A} (P : A → Prop) (m : SM A) : Prop :=
  ∀ s, match m s with Ret a s' => s_nodes s' = s_nodes s ∧ P a | _ => True end.

Lemma keeps_ret {A} (P : A → Prop) a : P a → keeps P (mret a).
Proof. by intros ? s. Qed.
Lemma keeps_bind {A C} (P : A → Prop) (Q : C → Prop) m f : keeps P m → (∀ a, P a → keeps Q (f a)) → keeps Q (m ≫= f).
Proof.
  intros Hm Hf s. specialize (Hm s). unfold mbind, M_bind. destruct (m s) as [a s1| | |]; try done. destruct Hm as [Hn Ha].
  specialize (Hf a Ha s1). destruct (f a s1) as [b s2| | |]; try done. destruct Hf as [Hn2 ?]. by rewrite Hn2.
Qed.
Lemma keeps_any {A C} (Q : C → Prop) (m : SM A) f : keeps (λ _, True) m → (∀ a, keeps Q (f a)) → keeps Q (m ≫= f).
Proof. intros Hm Hf. eapply keeps_bind; [exact Hm|]. intros a _. apply Hf. Qed.
Lemma keeps_mono {A} (P Q : A → Prop) m : keeps P m → (∀ a, P a → Q a) → keeps Q m.
Proof. intros Hm HPQ s. specialize (Hm s). destruct (m s); try done. destruct Hm. auto. Qed.
Lemma keeps_io {A} (m : M (IO F R) A) : keeps (λ _, True) (io m).
Proof. intros s. unfold io, mzoom. by destruct (m (s_io s)). Qed.
Lemma keeps_obs {A} (op : B * F → A * (B * F)) : keeps (λ _, True) (obs op).
Proof. intros s. unfold obs. by destruct (op _) as [? []]. Qed.
Lemma keeps_lock inode wait : keeps (λ _, True) (lock_file inode wait).
Proof. intros s. unfold lock_file, mbind, M_bind. simpl. by destruct (innerGetFileLock _ _ _ _) as [[]]. Qed.
Lemma keeps_unlock inode : keeps (λ _, True) (unlock_file inode).
Proof. by intros s. Qed.
Lemma keeps_Submit t : keeps (λ _, True) (Submit t).
Proof. by intros s. Qed.
Lemma keeps_access p : keeps (λ _, True) (access p).
Proof. by intros s. Qed.

Context (errno_nonneg : ∀ f : F, 0 ≤ posix_errno f).
Lemma keeps_errno : keeps (λ e, 0 ≤ e) Store.errno.
Proof. intros [[d f r] o l n h t]. split; [done|apply errno_nonneg]. Qed.

(** brpc: a controller that has failed has an error code. *)
Context (open_failed : ∀ e i o z pa fail r code,
  (stub_OpenFile (Stub := peers e) i o z pa fail r).1 = Failed code → code ≠ 0).

Ltac keep_step :=
  match goal with
  | |- keeps _ (mbind _ Store.errno) => eapply keeps_bind; [apply keeps_errno|let H := fresh in intros ? H; cbv beta in H]
  | |- keeps _ (mbind _ (dc _)) => apply keeps_any; [apply keeps_io|intros ?]
  | |- keeps _ (mbind _ (fs _)) => apply keeps_any; [apply keeps_io|intros ?]
  | |- keeps _ (mbind _ (close _)) => apply keeps_any; [apply keeps_io|intros ?]
  | |- keeps _ (mbind _ (obs _)) => apply keeps_any; [apply keeps_obs|intros [? ?]]
  | |- keeps _ (mbind _ (Submit _)) => apply keeps_any; [apply keeps_Submit|intros ?]
  | |- keeps _ (mbind _ (access _)) => apply keeps_any; [apply keeps_access|intros ?]
  | |- keeps _ (mbind _ (lock_file _ _)) => apply keeps_any; [apply keeps_lock|intros ?]
  | |- keeps _ (mbind _ (unlock_file _)) => apply keeps_any; [apply keeps_unlock|intros ?]
  | |- keeps (λ _, True) (dc _) => apply keeps_io
  | |- keeps _ (mbind _ (match ?x with _ => _ end)) => apply keeps_any; [|intros ?]
  | |- keeps _ (match ?x with _ => _ end) => destruct x
  | |- keeps _ (mret _) => apply keeps_ret
  end.

Lemma keeps_loadObs inode sz fd object n toBuffer isSync : keeps (λ p, p.1 ≤ 0) (loadObs cfg inode sz fd object n toBuffer isSync).
Proof. unfold loadObs. repeat keep_step; simpl; try case_decide; try lia; done. Qed.
Lemma keeps_download inode sz n object isSync toBuffer : keeps (λ p, p.1 ≤ 0) (download cfg inode sz n object isSync toBuffer).
Proof. unfold download. repeat keep_step; simpl; try lia; try done. apply keeps_loadObs. Qed.
Lemma keeps_DownLoad (oi : Open) isSync toBuffer :
  keeps (λ p, p.1 ≤ 0 ∧ oi_nodeId p.2 = oi_nodeId oi) (DownLoadFromStorage cfg oi isSync toBuffer).
Proof.
  unfold DownLoadFromStorage, with_file_lock. eapply (keeps_bind (λ p, p.1 ≤ 0)).
  - apply keeps_any; [apply keeps_lock|]. intros []; [|by apply keeps_ret]. eapply keeps_bind; [apply keeps_download|].
    intros [ret bs] ?. apply keeps_any; [apply keeps_unlock|]. intros ?. by apply keeps_ret.
  - intros [ret bs] ?. apply keeps_ret. split; [done|]. by destruct bs.
Qed.

Definition opened_here (oi : Open) (p : Z * Open) : Prop := p.1 ≤ 0 ∧ oi_nodeId p.2 = oi_nodeId oi.

Lemma keeps_open_cached (oi : Open) : keeps (opened_here oi) (open_cached cfg oi).
Proof.
  unfold open_cached, opened_here. apply keeps_any; [destruct (nodeFail oi); [apply keeps_io|by apply keeps_ret]|]. intros _.
  apply keeps_any; [apply keeps_io|]. intros found. destruct found.
  - repeat keep_step; simpl; split; lia || done.
  - destruct (decide _).
    + eapply (keeps_bind (opened_here oi)).
      * repeat keep_step; unfold opened_here; simpl; try (split; lia || done). apply keeps_DownLoad.
      * intros [ret oi1] [Hr Ho]. simpl in Hr, Ho. repeat keep_step; simpl; try done; split; lia || done.
    + repeat keep_step; simpl; [apply keeps_DownLoad|split; lia || done].
Qed.

(** ** Going to another node *)

(** What the loop reads and changes: the map of nodes and the other nodes. *)
Definition reach (s : Store F R B) : StoreNode * R := (s_nodes s, io_remote (s_io s)).

(** A node given up: it has no connection, or it was asked to open the file
    and the call came back with a connection error. *)
Definition gave_up (oi : Open) (a b : StoreNode * R) : Prop :=
  ∃ node, b.1 = DeleteNode node a.1 ∧
    match GetRpcConnection node a.1 with
    | None => b.2 = a.2
    | Some e => ∃ fail ret,
        client_OpenFile (Stub0 := peers e) (inodeId oi) (oflags oi) (originalSize oi) (path oi) fail a.2 = Ret (ret, None) b.2 ∧
        ConnectionError ret = true
    end.

(** The node behind [e] was asked to open the file and replied with a descriptor. *)
Definition answered (oi : Open) (e : string) (r : R) (fd : Z) (r' : R) : Prop :=
  ∃ fail, stub_OpenFile (Stub := peers e) (inodeId oi) (oflags oi) (originalSize oi) (path oi) fail r = (Reply (0, fd), r').

(** The file is on this node, or on a node of the map that answered and to
    which its write stream is connected. *)
Definition settled (oi : Open) (r : R) (oi' : Open) (s' : Store F R B) : Prop :=
  IsLocal (oi_nodeId oi') (s_nodes s') = true ∨
  GetRpcConnection (oi_nodeId oi') (s_nodes s') = Some (client oi') ∧ ws_client (writeStream oi') = true ∧
  answered oi (client oi') r (physicalFd oi') (io_remote (s_io s')).

(** Nodes are only ever given up, and this node keeps its number. *)
Definition fewer_nodes (s s' : Store F R B) : Prop :=
  nodeMap (s_nodes s') `sublist_of` nodeMap (s_nodes s) ∧ nodeId (s_nodes s') = nodeId (s_nodes s).

Definition open_result (oi : Open) (s : Store F R B) (p : Z * Open) (s' : Store F R B) : Prop :=
  p.1 ≤ 0 ∧ fewer_nodes s s' ∧
  ∃ r, rtc (gave_up oi) (reach s) (s_nodes s', r) ∧ (p.1 = 0 → settled oi r p.2 s').

Lemma gave_up_fewer oi a b : rtc (gave_up oi) a b →
  nodeMap b.1 `sublist_of` nodeMap a.1 ∧ nodeId b.1 = nodeId a.1.
Proof.
  induction 1 as [a|a b c (node & Hn & _) _ [IH1 IH2]]; [done|]. rewrite Hn in IH1, IH2.
  split; [|done]. etrans; [exact IH1|]. apply sublist_filter.
Qed.

Lemma open_result_intro oi s ret oi' s' r :
  ret ≤ 0 → rtc (gave_up oi) (reach s) (s_nodes s', r) → (ret = 0 → settled oi r oi' s') → open_result oi s (ret, oi') s'.
Proof. intros Hr Hg Hs. split; [done|]. split; [apply (gave_up_fewer _ _ _ Hg)|]. by exists r. Qed.

Lemma set_stream_result (oi : Open) : (set_stream oi).1 ≤ 0 ∧ oi_nodeId (set_stream oi).2 = oi_nodeId oi ∧ client (set_stream oi).2 = client oi ∧
  ws_client (writeStream (set_stream oi).2) = ws_client (writeStream oi) ∧ physicalFd (set_stream oi).2 = physicalFd oi.
Proof. unfold set_stream, SetFd, SetDirect, SetInodeId. case_decide; simpl; split_and!; try done; lia. Qed.

Lemma settled_stream oi r (oi' : Open) s : settled oi r oi' s → settled oi r (set_stream oi').2 s.
Proof. destruct (set_stream_result oi') as (_ & H1 & H2 & H3 & H4). unfold settled. by rewrite H1, H2, H3, H4. Qed.

(** The end of OpenFile, after the file has been opened somewhere. *)
Lemma stream_result oi s r o s1 : open_result oi s (r, o) s1 →
  ∀ p s2, (if decide (r ≠ 0) then Ret (r, o) s1 else Ret (set_stream o) s1) = Ret p s2 → open_result oi s p s2.
Proof.
  intros (Hr & Hf & r1 & Hg & Hs) p s2. simpl in *. destruct (decide (r ≠ 0)) as [|Hz]; intros [= <- <-].
  - split_and!; [done|done|]. exists r1. split; [done|]. simpl. lia.
  - apply dec_stable in Hz. destruct (set_stream_result o) as [Hr' _]. split_and!; [done|done|].
    exists r1. split; [done|]. intros _. by apply settled_stream, Hs.
Qed.

Lemma here_result oi0 s0 (oi : Open) (s : Store F R B) p s' r : nodeId (s_nodes s) ≠ -1 → IsLocal (oi_nodeId oi) (s_nodes s) = true →
  rtc (gave_up oi0) (reach s0) (s_nodes s, r) → OpenFileHere cfg oi s = Ret p s' → open_result oi0 s0 p s'.
Proof.
  intros Hn Hl Hg. unfold OpenFileHere, OpenFile_with. destruct (decide (physicalFd oi = UINT64_MAX)).
  2: { intros [= <- <-]. eapply open_result_intro; [done|done|]. intros _. by left. }
  unfold AllocNodeId. pose proof Hl as Hl'. unfold IsLocal in Hl'. apply bool_decide_eq_true in Hl'. rewrite decide_True by congruence. mstep.
  rewrite Hl. pose proof (keeps_open_cached oi s) as H. unfold mbind, M_bind. destruct (open_cached cfg oi s) as [[ret oi1] s1| | |]; try done.
  destruct H as [Hs1 [Hr Ho]]. simpl in Hr, Ho. intros H. apply (stream_result oi0 s0 ret oi1 s1); [|by destruct (decide _)].
  eapply open_result_intro; [done|by rewrite Hs1|]. intros _. left. by rewrite Ho, Hs1.
Qed.

(** The open instances of one call of the loop ask for the same file. *)
Definition same_file (oi0 oi : Open) : Prop :=
  inodeId oi = inodeId oi0 ∧ oflags oi = oflags oi0 ∧ originalSize oi = originalSize oi0 ∧ path oi = path oi0.

(** The loop so far: the nodes given up, and the answer of the node of the
    file when it has answered. *)
Definition so_far (oi0 : Open) s0 (oi : Open) (ret : Z) (s : Store F R B) : Prop :=
  same_file oi0 oi ∧ ∃ r, rtc (gave_up oi0) (reach s0) (s_nodes s, r) ∧
    (ConnectionError ret = true → r = io_remote (s_io s)) ∧
    (ret = 0 → GetRpcConnection (oi_nodeId oi) (s_nodes s) = Some (client oi) ∧
      answered oi0 (client oi) r (physicalFd oi) (io_remote (s_io s))).

Lemma remote_result_large oi0 s0 (oi : Open) ret (s : Store F R B) p s' :
  so_far oi0 s0 oi ret s → remote_result cfg oi true ret s = Ret p s' → open_result oi0 s0 p s'.
Proof.
  intros (_ & r & Hg & _ & Ha). unfold remote_result. rewrite decide_True by auto. intros [= <- <-].
  eapply open_result_intro; [destruct (decide (ret > 0)); lia|exact Hg|]. intros H0.
  assert (ret = 0) as -> by (destruct (decide (ret > 0)); lia). right. destruct (Ha eq_refl) as [Hc Hans]. done.
Qed.

(** One attempt: either nothing was learned, or the node of the file was
    called, and what it said. *)
Lemma try_remote_result oi0 (oi : Open) (s : Store F R B) a oi1 s1 :
  same_file oi0 oi → try_remote peers oi true s = Ret (a, oi1) s1 →
  same_file oi0 oi1 ∧ oi_nodeId oi1 = oi_nodeId oi ∧ s_nodes s1 = s_nodes s ∧
  match GetRpcConnection (oi_nodeId oi) (s_nodes s), a with
  | None, None => io_remote (s_io s1) = io_remote (s_io s)
  | Some e, Some ret => client oi1 = e ∧ ∃ fd,
      client_OpenFile (Stub0 := peers e) (inodeId oi0) (oflags oi0) (originalSize oi0) (path oi0) (nodeFail oi) (io_remote (s_io s)) =
        Ret (ret, fd) (io_remote (s_io s1)) ∧ physicalFd oi1 = default (physicalFd oi) fd
  | _, _ => False
  end.
Proof.
  intros (H1 & H2 & H3 & H4) H. pose proof (try_remote_nodes _ _ _ _ _ H) as Hn. rewrite Hn. revert H. unfold try_remote. mstep.
  destruct (GetRpcConnection _ _) as [e|] eqn:He; [|by intros [= <- <- <-]]. rewrite <-H1, <-H2, <-H3, <-H4.
  unfold at_peer, io, on_remote, mzoom, mbind, M_bind; simpl. destruct (client_OpenFile _ _ _ _ _ _) as [[ret fd] r| | |]; try done.
  intros [= <- <- <-]. destruct fd; by split_and!; try eexists.
Qed.

(** What the return value of the client says of the call. *)
Lemma client_open_result e i o z pa fail r ret fd r' :
  client_OpenFile (Stub0 := peers e) i o z pa fail r = Ret (ret, fd) r' →
  (ret = 0 → ∃ d, fd = Some d ∧ stub_OpenFile (Stub := peers e) i o z pa fail r = (Reply (0, d), r')) ∧ (ret ≠ 0 → fd = None).
Proof.
  unfold client_OpenFile. unfold mbind, M_bind. rewrite call_eq.
  destruct (stub_OpenFile i o z pa fail r) as [[code|[err d]] r1] eqn:Hst; simpl; [|destruct (decide (err ≠ 0)) as [|Hz%dec_stable]];
    intros [= <- <- <-].
  - split; [|done]. intros H0. exfalso. pose proof (open_failed e i o z pa fail r code) as Hne. rewrite Hst in Hne.
    pose proof (fuse_errno_pos (Stub0 := peers e) code (Hne eq_refl)). lia.
  - by split.
  - subst. split; [|done]. eauto.
Qed.

Lemma remote_loop_result oi0 s0 k (oi : Open) ret (s : Store F R B) p s' :
  nodeId (s_nodes s) ≠ -1 → so_far oi0 s0 oi ret s →
  remote_loop peers cfg (OpenFileHere cfg) k oi true ret s = Ret p s' → open_result oi0 s0 p s'.
Proof.
  revert oi ret s. induction k as [|k IH]; intros oi ret s Hn Hso; cbn [remote_loop]; [by apply remote_result_large|].
  destruct (ConnectionError ret) eqn:Hce; [|by apply remote_result_large]. unfold mbind, M_bind.
  destruct (try_remote _ _ _ _) as [[a oi1] s1| | |] eqn:Ht; try done.
  destruct Hso as (Hsame & r & Hg & Hr & _). rewrite (Hr Hce) in Hg. clear Hr.
  destruct (try_remote_result oi0 oi s a oi1 s1 Hsame Ht) as (Hsame1 & Ho1 & Hs1 & Hcall).
  cbv zeta. destruct (ConnectionError (default ret a)) eqn:Hce1.
  - set (s2 := s1 <| s_nodes ::= DeleteNode (oi_nodeId oi1) |>).
    assert (rtc (gave_up oi0) (reach s0) (reach s2)) as Hg2.
    { eapply rtc_r; [exact Hg|]. exists (oi_nodeId oi). simpl. rewrite Ho1, Hs1. split; [done|].
      destruct (GetRpcConnection _ _) as [e|], a as [ret1|]; try done. destruct Hcall as (_ & fd & Hc & _). simpl in Hce1.
      destruct (client_open_result _ _ _ _ _ _ _ _ _ _ Hc) as [_ Hfd]. unfold ConnectionError in Hce1. apply bool_decide_eq_true in Hce1.
      rewrite Hfd in Hc by lia. exists (nodeFail oi), ret1. split; [exact Hc|]. by apply bool_decide_eq_true. }
    assert (so_far oi0 s0 oi1 (default ret a) s2) as Hso2.
    { split; [done|]. exists (io_remote (s_io s2)). split_and!; [exact Hg2|done|].
      intros H0. rewrite H0 in Hce1. done. }
    unfold set_nodes, mmodify. destruct (decide _); [by apply remote_result_large|].
    fold s2. destruct (switch_node _ _ _) as [oi2 s3| | |] eqn:Hsw; try done.
    pose proof (switch_node_io _ _ _ _ Hsw) as Hio. apply switch_node_runs in Hsw as [Hs3 ->].
    assert (nodeId (s_nodes s3) ≠ -1) as Hn3 by (rewrite Hs3; simpl; by rewrite Hs1). unfold is_local, nodes, mget, mbind, M_bind, mret, M_ret.
    destruct (IsLocal _ _) eqn:Hl; [eapply here_result; [done|done|by rewrite Hs3]|]. apply IH; [done|]. split; [done|].
    exists (io_remote (s_io s3)). rewrite Hs3, Hio. split_and!; [exact Hg2|done|]. intros H0. rewrite H0 in Hce1. done.
  - apply IH; [by rewrite Hs1|]. split; [done|]. exists (io_remote (s_io s)). rewrite Hs1. split_and!; [done|congruence|].
    destruct (GetRpcConnection _ _) as [e|] eqn:He, a as [ret1|]; try done; [|simpl in *; congruence]. simpl.
    destruct Hcall as (<- & fd & Hc & Hfd). intros ->. rewrite Ho1.
    destruct (client_open_result _ _ _ _ _ _ _ _ _ _ Hc) as [(d & -> & Hst) _]; [done|]. split; [done|]. rewrite Hfd. by eexists.
Qed.

(** (C21) Opening a file gives 0 or a negative error number, also when nodes do
    not answer (their positive codes stay inside).  The map of nodes loses
    exactly the nodes that were given up one after the other: each of them had
    no connection, or was asked to open the file and its call ended in a
    connection error.  When the result is 0 the file is at this node, or at a
    node that is still in the map, that was then called and replied to it with
    the descriptor the file has now, and that its write stream is connected
    to.  (Of the environment: errno is not negative, and a call that brpc reports
    as failed has an error code.) *)
Theorem OpenFile_settles (oi : Open) (s : Store F R B) ret oi' s' :
  nodeId (s_nodes s) ≠ -1 → physicalFd oi = UINT64_MAX →
  OpenFile peers cfg oi s = Ret (ret, oi') s' → open_result oi s (ret, oi') s'.
Proof.
  intros Hn Hfd. unfold OpenFile, OpenFile_with. rewrite decide_True by done. unfold mbind, M_bind.
  destruct (AllocNodeId _ _ _) as [oi1 s1| | |] eqn:Ha; try done.
  apply AllocNodeId_nodes in Ha as (Hs1 & Hio & n & ->). rewrite <-Hs1 in Hn.
  assert (reach s1 = reach s) as Hreach by (unfold reach; by rewrite Hs1, Hio).
  unfold is_local, nodes, mget, mbind, M_bind, mret, M_ret. destruct (IsLocal _ _) eqn:Hl.
  - pose proof (keeps_open_cached (oi <| oi_nodeId := n |>) s1) as H. destruct (open_cached cfg _ s1) as [[r o] s2| | |]; try done.
    destruct H as [Hs2 [Hr Ho]]. simpl in Hr, Ho. intros H. apply (stream_result oi s r o s2); [|by destruct (decide _)].
    eapply (open_result_intro _ _ _ _ _ (io_remote (s_io s1))); [done|rewrite Hs2, <-Hreach; done|]. intros _. left. by rewrite Ho, Hs2.
  - unfold OpenFileFromRemote. unfold nodes, mget, mbind, M_bind, mret, M_ret.
    destruct (remote_loop _ _ _ _ _ _ _ _) as [[r o] s2| | |] eqn:Hloop; try done. intros H.
    apply (stream_result oi s r o s2); [|by destruct (decide _)].
    eapply remote_loop_result; [exact Hn| |exact Hloop]. split; [done|]. exists (io_remote (s_io s1)).
    split_and!; [rewrite <-Hreach; done|done|done].
Qed.
End open.

(** ** The pin of an open file *)
Section pins.
Context {F R B T : Type} `{!Posix F} `{!Statvfs F} `{!Storage B F} `{!ReadAhead T}.
Context (peers : string → Stub R) (cfg : Config).
Local Abbreviation Open := (OpenInstance T).

(** The entry of [key] in a coherent cache. *)
Definition entry (key sz pins : Z) (d : DiskCache) : Prop :=
  cache_ok d ∧ active d ∧ view_items d !! key = Some (sz, pins).

Lemma find_pins root dirs key sz pins d (f : F) : entry key sz pins d →
  ∃ d', Find root dirs key true (d, f) = Ret true (d', f) ∧ entry key sz (u32 (pins + 1)) d'.
Proof.
  intros (Hok & Hact & Hv). pose proof (Find_does root dirs d f key true true 0 Hok Hact) as H. unfold run, promise in H.
  simpl a_items in H. rewrite Hv in H.
  apply (does_runs _ Z.b2z) in H as (b & d' & Hu & Hb & Hok' & Hact' & Ha); [|apply fs_kept_Find].
  exists d'. split; [by destruct b|]. split_and!; [done|done|]. injection Ha as -> _ _ _. apply lookup_insert_eq.
Qed.

Lemma unpin_entry key sz pins d (f : F) : entry key sz pins d → pins > 0 →
  ∃ d', Unpin key (d, f) = Ret () (d', f) ∧ entry key sz (u32 (pins - 1)) d'.
Proof.
  intros (Hok & Hact & Hv) Hp. pose proof (Unpin_does ""%string 1 d f key true 0 Hok Hact) as H. unfold run, promise in H.
  simpl a_items in H. rewrite Hv, decide_True in H by done.
  apply (does_runs _ (λ _, 0)) in H as ([] & d' & Hu & _ & Hok' & Hact' & Ha); [|apply fs_kept_Unpin].
  exists d'. split; [done|]. split_and!; [done|done|]. injection Ha as -> _ _ _. apply lookup_insert_eq.
Qed.

Lemma insert_entry key sz pins n d (f : F) : entry key sz pins d → 0 ≤ n < 2 ^ 64 →
  ∃ d', InsertAndUpdate key n false (d, f) = Ret () (d', f) ∧ entry key n pins d'.
Proof.
  intros (Hok & Hact & Hv) Hn. pose proof (Insert_does ""%string 1 d f key n false true 0 Hok Hact Hn) as H. unfold run, promise in H.
  simpl a_items in H. rewrite Hv in H.
  apply (does_runs _ (λ _, 0)) in H as ([] & d' & Hu & _ & Hok' & Hact' & Ha); [|apply fs_kept_Insert].
  exists d'. split; [done|]. split_and!; [done|done|]. injection Ha as -> _ _ _. apply lookup_insert_eq.
Qed.

(** A write stream to a local file, with nothing in it. *)
Definition idle (w : WriteStream) : Prop := ws_client w = false ∧ ws_physicalFd w ≠ UINT64_MAX ∧ sd_size (ws_data w) = 0.

Lemma complete_idle (oi : Open) flush sync (s : Store F R B) : idle (writeStream oi) →
  ∃ w, complete_stream peers cfg oi flush sync s = Ret (0, oi <| writeStream := w |>) s ∧ idle w.
Proof.
  intros (Hc & Hfd & Hz). unfold complete_stream, on_stream, io, mzoom, Complete. unfold mbind at 1, M_bind. rewrite Hc.
  unfold Persist. rewrite decide_False by tauto. unfold SerialData_Empty. rewrite bool_decide_eq_true_2 by done.
  eexists. split; [by destruct s|done].
Qed.

(** A file of this node that is open for the first time. *)
Record fresh_open (oi : Open) (s : Store F R B) : Prop := {
  fo_fd : physicalFd oi = UINT64_MAX;
  fo_node : oi_nodeId oi ≠ -1;
  fo_local : IsLocal (oi_nodeId oi) (s_nodes s) = true;
  fo_fail : nodeFail oi = false;
  fo_stream : writeStream oi = new_WriteStream;
  fo_flushed : isFlushed oi = false;
  fo_writes : writeCnt oi = 0;
  fo_remote : isRemoteCall oi = false;
  fo_size : 0 ≤ currentSize oi < 2 ^ 63 }.

(** OpenFile of a cached file in one equation. *)
Lemma open_cached_hit (oi : Open) (s : Store F R B) sz pins :
  fresh_open oi s → entry (inodeId oi) sz pins (the_cache s) → 0 ≤ pins < 2 ^ 32 - 1 →
  let r := posix_open (file_name cfg (inodeId oi)) (oflags oi) (the_fs s) in
  ∃ d, OpenFile peers cfg oi s =
    (if decide (r.1 < 0) then
       (if decide (posix_errno r.2 = 0) then Ret (set_stream oi) (with_disk d r.2 s) else Ret (- posix_errno r.2, oi) (with_disk d r.2 s))
     else Ret (set_stream (oi <| physicalFd := r.1 |>)) (with_disk d r.2 s)) ∧
    entry (inodeId oi) sz (if decide (r.1 < 0) then pins else pins + 1) d.
Proof.
  intros [Hfd Hnode Hloc Hfail Hstream Hfl Hwr Hrem Hsz] He Hp r. unfold OpenFile, OpenFile_with, AllocNodeId.
  rewrite (decide_True (P := physicalFd oi = _)), (decide_True (P := _ ≠ -1)) by done. mstep. rewrite Hloc. unfold open_cached. rewrite Hfail. mstep.
  rewrite bind_dc. destruct (find_pins (rootPath cfg) (totalDirectory cfg) _ _ _ _ (the_fs s) He) as (d1 & Hf1 & He1).
  rewrite Hf1. assert (u32 (pins + 1) = pins + 1) as Hu by (unfold u32; apply Z.mod_small; lia). rewrite Hu in He1.
  mstep. change (the_fs (with_disk d1 (the_fs s) s)) with (the_fs s). fold r.
  change (the_cache (with_disk d1 (the_fs s) s)) with d1. rewrite with_disk_twice. destruct (decide (r.1 < 0)) as [Hneg|Hpos].
  - mstep. rewrite bind_dc. change (the_fs (with_disk d1 r.2 s)) with r.2.
    change (the_cache (with_disk d1 r.2 s)) with d1. destruct (unpin_entry _ _ _ _ r.2 He1 ltac:(lia)) as (d2 & Hf2 & He2).
    rewrite Hf2, with_disk_twice. mstep. exists d2. split.
    + destruct (decide (posix_errno r.2 = 0)) as [->|]; [by rewrite decide_False by (intros []; lia)|by rewrite decide_True by lia].
    + assert (u32 (pins + 1 - 1) = pins) as Hu2 by (unfold u32; rewrite Z.mod_small; lia). by rewrite Hu2 in He2.
  - mstep. exists d1. split; [|done]. by rewrite decide_False by (intros []; lia).
Qed.

(** Closing an open file that was not written to: flush, close, unpin. *)
Lemma close_unpins (oi : Open) sync (s : Store F R B) sz pins :
  idle (writeStream oi) → physicalFd oi ≠ UINT64_MAX → oi_nodeId oi ≠ -1 → IsLocal (oi_nodeId oi) (s_nodes s) = true →
  isFlushed oi = false → writeCnt oi = 0 → isRemoteCall oi = false → 0 ≤ currentSize oi < 2 ^ 63 →
  entry (inodeId oi) sz pins (the_cache s) → 0 < pins < 2 ^ 32 →
  returns (CloseTmpFiles peers cfg oi false sync s)
    (λ '(ret, _) s', ret = 0 ∧ entry (inodeId oi) (currentSize oi) (pins - 1) (the_cache s')).
Proof.
  intros Hidle Hfd Hnode Hloc Hfl Hwr Hrem Hsz He Hp. unfold CloseTmpFiles, CloseTmpFiles_with at 1. rewrite decide_False by tauto.
  rewrite Hfl.
  (* the flush *)
  assert (∃ w d, flush_files peers cfg sync oi s = Ret (0, oi <| isFlushed := true |> <| writeStream := w |>) (with_disk d (the_fs s) s) ∧ idle w ∧
    entry (inodeId oi) (currentSize oi) pins d) as (w & d & Hflush & Hidle1 & He1).
  { assert (idle (writeStream (oi <| isFlushed := true |>))) as Hidle0 by exact Hidle.
    destruct (complete_idle (oi <| isFlushed := true |>) true sync s Hidle0) as (w & Hc & Hw).
    destruct (insert_entry (inodeId oi) sz pins (currentSize oi) _ (the_fs s) He ltac:(lia)) as (d & Hi & He1).
    exists w, d. split; [|done]. unfold flush_files, CloseTmpFiles_with. rewrite decide_False by tauto. mstep. cbn [negb andb].
    change (isRemoteCall (oi <| isFlushed := true |>)) with (isRemoteCall oi). rewrite Hrem, bind_assoc, (bind_ret _ _ _ _ _ Hc). mstep.
    rewrite (decide_False (P := 0 ≠ 0)) by auto. mstep.
    match goal with |- context [IsLocal ?n _] => change n with (oi_nodeId oi) end. rewrite Hloc. unfold finish_local. cbn [negb].
    rewrite bind_dc. match goal with |- context [InsertAndUpdate ?i ?n] => change i with (inodeId oi); change n with (currentSize oi) end.
    rewrite Hi.
    by rewrite decide_False by (simpl; lia). }
  rewrite ?bind_assoc, (bind_ret _ _ _ _ _ Hflush). mstep. cbn [negb andb].
  repeat rewrite (decide_False (P := 0 ≠ 0)) by auto.
  repeat match goal with |- context [negb (isRemoteCall ?o)] => change (isRemoteCall o) with (isRemoteCall oi) end. rewrite Hrem. cbn [negb].
  set (oi1 := StopPreReadThreaded _ <| readStream ::= _ |>). assert (isRemoteCall oi1 = false) as -> by done.
  set (s1 := with_disk d (the_fs s) s).
  destruct (complete_idle oi1 false sync s1 Hidle1) as (w2 & Hc2 & _). rewrite ?bind_assoc, (bind_ret _ _ _ _ _ Hc2). mstep.
  rewrite (decide_False (P := 0 ≠ 0)) by auto. mstep.
  change (IsLocal (oi_nodeId (oi1 <| writeStream := w2 |>)) (s_nodes s1)) with (IsLocal (oi_nodeId oi) (s_nodes s)). rewrite Hloc.
  unfold finish_local, close. cbn [negb]. mstep. rewrite bind_dc. cbn [fst snd].
  change (the_cache (with_disk (the_cache s1) _ s1)) with d.
  destruct (unpin_entry (inodeId oi) (currentSize oi) pins d (posix_close (physicalFd (oi1 <| writeStream := w2 |>)) (the_fs s1)) He1 ltac:(lia))
    as (d2 & Hu & He2).
  change (inodeId (oi1 <| writeStream := w2 |>)) with (inodeId oi).
  match goal with |- context [Unpin (inodeId oi) (d, ?f)] => change f with (posix_close (physicalFd (oi1 <| writeStream := w2 |>)) (the_fs s1)) end.
  rewrite Hu. simpl. split; [done|]. assert (u32 (pins - 1) = pins - 1) as <- by (unfold u32; apply Z.mod_small; lia). done.
Qed.

(** Opening and closing a cached file of this node leaves its pins as they
    were: while it is open it has one more, so that it is not evicted; when
    open(2) fails it has no more than before; after the close, which returns 0,
    the pin is gone and the entry has the size of the open file. *)
Theorem open_close_balances_pins (oi : Open) sync (s : Store F R B) sz pins :
  let opened := posix_open (file_name cfg (inodeId oi)) (oflags oi) (the_fs s) in
  opened.1 < 2 ^ 31 → (opened.1 < 0 → posix_errno opened.2 ≠ 0) →
  fresh_open oi s → entry (inodeId oi) sz pins (the_cache s) → 0 ≤ pins < 2 ^ 32 - 1 →
  returns (OpenFile peers cfg oi s) (λ '(ret, oi1) s1,
    entry (inodeId oi) sz (if decide (ret = 0) then pins + 1 else pins) (the_cache s1) ∧
    (ret = 0 → returns (CloseTmpFiles peers cfg oi1 false sync s1) (λ '(ret2, _) s2,
       ret2 = 0 ∧ entry (inodeId oi) (currentSize oi) pins (the_cache s2)))).
Proof.
  intros opened Hmax Hopen Hfo He Hp. destruct (open_cached_hit oi s sz pins Hfo He Hp) as (d & Hrun & He1). rewrite Hrun.
  unfold opened in *. destruct (posix_open _ _ _) as [fd f]. cbn [fst snd] in *. destruct (decide (fd < 0)) as [Hneg|Hpos].
  - rewrite decide_False by (apply Hopen; lia). simpl. assert (posix_errno f ≠ 0) by (by apply Hopen).
    rewrite decide_False by lia. split; [done|lia].
  - destruct Hfo as [Hfd Hnode Hloc Hfail Hstream Hfl Hwr Hrem Hsz]. unfold set_stream.
    change (writeStream (oi <| physicalFd := fd |>)) with (writeStream oi). rewrite Hstream.
    unfold SetFd, SetDirect, SetInodeId, new_WriteStream. simpl ws_physicalFd. rewrite (decide_False (P := UINT64_MAX ≠ _ ∧ _)) by tauto.
    cbv beta iota zeta. simpl returns. split; [done|]. intros _.
    eapply returns_mono; [eapply (close_unpins _ sync _ sz (pins + 1))|]; try done.
    + split_and!; try done. simpl. unfold UINT64_MAX. lia.
    + simpl. unfold UINT64_MAX. lia.
    + lia.
    + intros [ret ?] s2 [-> He2]. split; [done|]. simpl in He2. by replace (pins + 1 - 1) with pins in He2 by lia.
Qed.
End pins.
