(* ===== verification/StoreWitness.v ===== *)
(** * Examples of the data store

    Concrete instances of the object storage, the read-ahead and the disk's
    statistics, the theorems on the data store applied to a node with two files
    in its cache, and what the code does in cases nobody seems to have meant. *)
From S2P Require Import Prelude Posix FileLock DiskCache IOClient WriteStream Node Store Server StoreSpec ServerSpec StoreSpace StoreOpen.
Local Open Scope Z_scope.

Module StoreWitness.
Import DiskCacheWitness WriteStreamWitness.

(** ** Parameters *)

(** Objects by name; a size of 0 stands for the whole object. *)
Abbreviation Objects := (gmap string (list Z)).
#[global] Instance RefStorage : Storage Objects RefFs := {|
  ReadObject key off n fd toBuffer '(o, f) :=
    match o !! key with
    | None => (-1, [], (o, f))
    | Some bs =>
      let part := if decide (n = 0) then drop (Z.to_nat off) bs else file_read bs off n in
      (Z.of_nat (length part), if (toBuffer : bool) then part else [],
       (o, match fd with Some d => (posix_pwrite d part 0 f).2 | None => f end))
    end;
  PutFile key p '(o, f) :=
    match ref_names f !! p with Some i => (0, (<[key := ref_file f i]> o, f)) | None => (-1, (o, f)) end;
  DeleteObject key o := (0, delete key o);
  CopyObject a b o := match o !! a with Some bs => (0, <[b := bs]> o) | None => (-1, o) end;
  StatFs o := (0, mkStatFSBuf 1000 500 500 1000 500) |}.

#[global] Instance RefStorageFiles : StorageFiles Objects RefFs.
Proof. split. intros key p o f r o' f' fd. simpl. destruct (ref_names f !! p); by intros [= <- <- <-]. Qed.

#[global] Instance RefStatvfs : Statvfs RefFs := λ _ f, Some (mkStatFSBuf (ref_blocks f) 0 0 1000 0).

(** What has been read ahead. *)
#[global] Instance RefReadAhead : ReadAhead (list Z) := {|
  rs_new := [];
  rs_Start _ _ t := (true, t);
  rs_WaitPop n t := (Z.of_nat (length (take (Z.to_nat n) t)), take (Z.to_nat n) t, drop (Z.to_nat n) t);
  rs_StopPushThreaded t := t;
  rs_WaitPushEnded t := t |}.

(** ** A node *)
Definition cfg0 : Config := mkConfig "/c" 2 "/data" true false false (-1) 1024 512.
Definition nodes0 : StoreNode := mkStoreNode 0 1 [(1, "b:1"%string); (0, "a:1"%string)].
Definition peers0 : string → Stub Peer := λ _, PeerStub.

Definition store_with (d : DiskCache) (f : RefFs) : Store RefFs Peer Objects :=
  mkStore (mkIO d f ∅) {["dir/x"%string := [5; 6; 7]]} new_FileLock nodes0 ∅ [].

(** The file of inode 7, open for another node as descriptor 4, and its cache entry pinned. *)
Definition open7 : OpenInstance (list Z) :=
  new_OpenInstance <| inodeId := 7 |> <| currentSize := 300 |> <| originalSize := 300 |> <| physicalFd := 4 |> <| oflags := 2 |>
    <| oi_nodeId := 1 |> <| isRemoteCall := true |> <| isOpened := true |> <| path := "/dir/y"%string |>.
Definition store7 : Store RefFs Peer Objects := store_with pinned7 fs_open.

Lemma pinned7_disk : disk_ok 0 7 pinned7.
Proof.
  destruct pinned7_ok as [Hok Hact]. split; [done|done|vm_compute; reflexivity|].
  exists 300, 1. split; [vm_compute; reflexivity|lia].
Qed.

Lemma WriteLocalFileForBrpc_writes_witness :
  match WriteLocalFileForBrpc cfg0 open7 [1; 2; 3] 299 store7 with
  | Ret p s' => write_result 0 open7 [1; 2; 3] 299 store7 p s'
  | Elog _ _ => False
  | Diverge | Undefined => freeCap pinned7 ≤ u64 2
  end.
Proof.
  exact (WriteLocalFileForBrpc_writes cfg0 open7 [1; 2; 3] 299 store7 0 pinned7_disk eq_refl eq_refl
    ltac:(lia) ltac:(simpl; lia) ltac:(simpl; lia)).
Defined.

Example write_for_another_node :
  match WriteLocalFileForBrpc cfg0 open7 [1; 2; 3] 299 store7 with
  | Ret (ret, oi) s => ret = 0 ∧ currentSize oi = 302 ∧ drop 298 (content oi s) = [0; 1; 2; 3] ∧
      view_items (the_cache s) !! 7 = Some (302, 1) ∧ reservedCap (the_cache s) = 0
  | _ => False
  end.
Proof. vm_compute. split_and!; reflexivity. Qed.

(** ** Its service, seen by another node *)
Abbreviation Srv := (Server RefFs Peer Objects (list Z)).
Definition server7 : Srv := mkServer store7 (mkFds {[5 := open7]} {[7 := {[5]}]} 6 0).
Definition client_io : IO RefFs Srv := mkIO both.1 both.2 server7.

Lemma served7 : served open7 store7.
Proof.
  split; try reflexivity.
  - intros H. discriminate H.
  - intros H. discriminate H.
  - simpl. lia.
  - exists 0. split; [reflexivity|exact pinned7_disk].
Qed.

Lemma server7_open : server_open server7 5.
Proof. exists open7. split; [reflexivity|exact served7]. Qed.

Lemma writes0_ok : Forall (λ '(bytes, off), write_ok bytes off) writes0.
Proof. repeat constructor; simpl; lia. Qed.

Lemma remote_writes_arrive_witness :
  let Hs := ServerStub peers0 cfg0 id [] in
  returns (write_and_flush "/c" 2 stream0 writes0 6 false client_io)
    (λ '(ret, w') s', ret = 0 →
       server_file (io_remote s') 5 = foldl (λ f '(bytes, off), file_write f off bytes) (server_file server7 5) writes0).
Proof.
  exact (remote_writes_arrive peers0 cfg0 id [] "/c" 2 stream0 client_io writes0 6 false stream0_ok server7_open eq_refl writes0_ok).
Defined.

Lemma remote_read_after_write_witness :
  returns (write_then_read peers0 cfg0 id [] "/c" 2 stream0 writes0 6 false 8 1 "" client_io)
    (λ r s', match r with
       | Some (ret, bs) => 0 < ret → Z.of_nat (length bs) = ret ∧
           bs = file_read (foldl (λ f '(bytes, off), file_write f off bytes) (server_file server7 5) writes0) 1 ret
       | None => True
       end).
Proof.
  destruct (remote_read_after_write peers0 cfg0 id [] "/c" 2 stream0 client_io writes0 6 false 8 1 ""%string stream0_ok server7_open eq_refl
    writes0_ok ltac:(lia) ltac:(lia)) as [H Hall].
  rewrite Hall in H by (right; reflexivity). exact H.
Defined.

Example written_and_read :
  match write_then_read peers0 cfg0 id [] "/c" 2 stream0 writes0 6 false 8 1 "" client_io with
  | Ret r _ => r = Some (8, [7; 3; 4; 0; 0; 0; 0; 0])
  | _ => False
  end.
Proof. vm_compute. reflexivity. Qed.

(** Two files are opened, the first one is closed. *)
Definition fd_ops0 : list (fd_op (T := list Z)) :=
  [OpAttachInstance open7; OpAttach 8 0 [] 500 "/dir/z" 1 false true; OpCall 3 count_write; Server.OpDelete 3 false].

Lemma open_files_coherent_witness :
  let '(fds, c') := run_fds fd_ops0 (new_CuckooFd (T := list Z)) in
  fds_ok c' ∧ NoDup fds ∧ (∀ fd, fd ∈ fds → 2 < fd < UINT64_MAX ∧ openInstanceMap (new_CuckooFd (T := list Z)) !! fd = None).
Proof.
  apply (open_files_coherent fd_ops0 new_CuckooFd fds_ok_new); [unfold fd_ops0; repeat (apply Forall_cons_2; [done|]); apply Forall_nil_2|vm_compute; discriminate].
Defined.

Example one_left :
  (run_fds fd_ops0 (new_CuckooFd (T := list Z))).1 = [3; 4] ∧
  inodeToOpenInstanceMap (run_fds fd_ops0 (new_CuckooFd (T := list Z))).2 = {[8 := {[4]}]}.
Proof. vm_compute. split; reflexivity. Qed.

(** ** Opening files *)

(** A node that never answers. *)
Definition DeadStub : Stub Peer := {|
  brpc_ENOSERVICE := 1001; brpc_ENOMETHOD := 1002; brpc_EREQUEST := 1003; brpc_ERPCAUTH := 1004;
  brpc_ERPCTIMEDOUT := 1008; brpc_EFAILEDSOCKET := 1009;
  stub_OpenFile _ _ _ _ _ r := (Failed 1009, r); stub_CloseFile _ _ _ _ _ r := (Failed 1009, r);
  stub_ReadFile _ _ _ _ r := (Failed 1009, r); stub_ReadSmallFile _ _ _ _ _ r := (Failed 1009, r);
  stub_WriteFile _ _ _ r := (Failed 1009, r); stub_DeleteFile _ _ _ r := (Failed 1009, r); stub_StatFS _ r := (Failed 1009, r);
  stub_TruncateOpenInstance _ _ r := (Failed 1009, r); stub_TruncateFile _ _ r := (Failed 1009, r);
  stub_CheckConnection r := (Failed 1009, r) |}.
Definition peers1 : string → Stub Peer := λ e, if decide (e = "a:1"%string) then DeadStub else PeerStub.

Definition store0 : Store RefFs Peer Objects := store_with both.1 both.2.

(** A file of three bytes that is in the object storage only, at node 0. *)
Definition open9 : OpenInstance (list Z) :=
  new_OpenInstance <| inodeId := 9 |> <| currentSize := 3 |> <| originalSize := 3 |> <| readBufferSize := 3 |> <| oi_nodeId := 0 |>
    <| path := "/dir/x"%string |>.

Lemma OpenFile_recursion_witness :
  OpenFile peers1 cfg0 open9 store0 = OpenFile_with cfg0 (λ oi, OpenFileFromRemote_code peers1 cfg0 oi true) open9 store0.
Proof. apply (OpenFile_recursion peers1 cfg0 open9 store0). simpl. lia. Defined.

Definition result_of {A} (d : A) (m : M (Store RefFs Peer Objects) A) (s : Store RefFs Peer Objects) : A * Store RefFs Peer Objects :=
  match m s with Ret a s' => (a, s') | _ => (d, s) end.
Definition opened9 := result_of (0, open9) (OpenFile peers1 cfg0 open9) store0.

(** The same file as seen by node 2, where node 1 answers. *)
Definition store2 : Store RefFs Peer Objects :=
  store0 <| s_nodes := mkStoreNode 0 2 [(0, "a:1"%string); (2, "c:1"%string); (1, "b:1"%string)] |>.
Definition opened2 := result_of (0, open9) (OpenFile peers1 cfg0 open9) store2.

Lemma peers1_failed e i o z pa fail r code :
  (stub_OpenFile (Stub := peers1 e) i o z pa fail r).1 = Failed code → code ≠ 0.
Proof. unfold peers1. destruct (decide _); simpl; [by intros [= <-]|done]. Qed.

(** Node 0 does not answer and is given up; node 1 opens the file as its descriptor 9. *)
Lemma OpenFile_settles_witness :
  open_result peers1 open9 store2 (opened2.1.1, opened2.1.2) opened2.2 ∧
  opened2.1.1 = 0 ∧ oi_nodeId opened2.1.2 = 1 ∧ physicalFd opened2.1.2 = 9 ∧
  nodeMap (s_nodes opened2.2) = [(2, "c:1"%string); (1, "b:1"%string)].
Proof.
  split.
  - apply (OpenFile_settles peers1 cfg0 (λ f, proj1 (posix_errno_law f)) peers1_failed open9 store2 opened2.1.1 opened2.1.2 opened2.2).
    + simpl. lia.
    + reflexivity.
    + vm_compute. reflexivity.
  - vm_compute. split_and!; reflexivity.
Defined.

(** The node is given up, the file comes to this node and is being loaded. *)
Example moved_here :
  opened9.1.1 = 0 ∧ oi_nodeId opened9.1.2 = 1 ∧ nodeMap (s_nodes opened9.2) = [(1, "b:1"%string)] ∧
  s_tasks opened9.2 = [LoadTask 9 3 3 "dir/x"] ∧ reservedCap (the_cache opened9.2) = 3.
Proof. vm_compute. split_and!; reflexivity. Qed.

Definition ops0 : list store_op := [OpOpen open9; OpTask 0].
Definition after_ops := result_of () (mfor ops0 (run_op peers1 cfg0)) store0.

Lemma reserved_space_is_pending_witness :
  u64 (reservedCap (the_cache after_ops.2)) = u64 (pending after_ops.2) ∧
  (s_tasks after_ops.2 = [] → u64 (reservedCap (the_cache after_ops.2)) = 0).
Proof.
  apply (reserved_space_is_pending peers1 cfg0 ops0 store0 after_ops.2); vm_compute; reflexivity.
Defined.

Example loaded : s_tasks after_ops.2 = [] ∧ reservedCap (the_cache after_ops.2) = 0 ∧ view_items (the_cache after_ops.2) !! 9 = Some (3, 0).
Proof. vm_compute. split_and!; reflexivity. Qed.

(** The file of inode 7 is opened by a process of this node. *)
Definition closed7 : OpenInstance (list Z) :=
  new_OpenInstance <| inodeId := 7 |> <| currentSize := 300 |> <| originalSize := 300 |> <| oflags := 2 |> <| oi_nodeId := 1 |>
    <| path := "/dir/y"%string |>.

Lemma closed7_fresh : fresh_open closed7 store0.
Proof. split; try reflexivity; simpl; lia. Qed.
Lemma both_entry : entry 7 300 0 both.1.
Proof. destruct both_ok. split_and!; [done|done|vm_compute; reflexivity]. Qed.

Lemma open_close_balances_pins_witness :
  returns (OpenFile peers0 cfg0 closed7 store0) (λ '(ret, oi1) s1,
    entry 7 300 (if decide (ret = 0) then 1 else 0) (the_cache s1) ∧
    (ret = 0 → returns (CloseTmpFiles peers0 cfg0 oi1 false false s1) (λ '(ret2, _) s2,
       ret2 = 0 ∧ entry 7 300 0 (the_cache s2)))).
Proof.
  apply (open_close_balances_pins peers0 cfg0 closed7 false store0 300 0).
  - vm_compute. reflexivity.
  - vm_compute. discriminate.
  - exact closed7_fresh.
  - exact both_entry.
  - lia.
Defined.

(** ** Cases the code does not handle *)

(** A small file whose node does not answer moves to this node: OpenFile loads
    it in the background and 0 is returned, but nobody fills the buffer. *)
Example moved_small_file_is_empty :
  match ReadSmallFiles peers1 cfg0 open9 store0 with
  | Ret (ret, oi) s => ret = 0 ∧ readBuffer oi = []
  | _ => False
  end.
Proof. vm_compute. split; reflexivity. Qed.

(** A small file that is opened for writing and not cached stays pinned. *)
Example small_file_stays_pinned :
  match ReadSmallFiles peers0 cfg0 (open9 <| oi_nodeId := 1 |> <| oflags := 2 |>) store0 with
  | Ret (ret, oi) s => ret = 0 ∧ readBuffer oi = [5; 6; 7] ∧ view_items (the_cache s) !! 9 = Some (3, 1)
  | _ => False
  end.
Proof. vm_compute. split_and!; reflexivity. Qed.

(** Loading in the background does not keep the lock of the file. *)
Example loading_without_lock :
  match OpenFile peers0 cfg0 (open9 <| oi_nodeId := 1 |>) store0 with
  | Ret (ret, _) s => ret = 0 ∧ s_tasks s ≠ [] ∧ TestLocked 9 LockX (s_locks s) = false
  | _ => False
  end.
Proof. vm_compute. split_and!; [reflexivity|discriminate|reflexivity]. Qed.

(** A read that ends at the end of a file that is shorter than its recorded size
    answers errno, which nothing has set: 0, the end of the file, although some
    bytes were there. *)
Example short_read_is_lost :
  match ReadFileLR peers0 cfg0 (open7 <| currentSize := 310 |>) 295 20 store7 with
  | Ret (ret, bs, _) _ => ret = 0 ∧ length bs = 5%nat
  | _ => False
  end.
Proof. vm_compute. split; reflexivity. Qed.
End StoreWitness.
