(* ===== verification/Connection.v ===== *)
(** * Connections of a client to the metadata servers
      (cuckoo_client/src/connection.cpp, cuckoo_client/src/error_code.cpp)

    A request carries a service type and a parameter, a member of a FlatBuffers
    union whose tag is chosen apart from it; the reply carries an error code and
    a member of the union of responses.  The encoding of both and the channel are
    generated code or brpc: [MetaService] stands for the server behind a
    channel. *)
From S2P Require Import Prelude Posix.

Definition EHOSTDOWN : Z := 112.
Definition EEXIST : Z := 17.
Definition ESRCH : Z := 3.
Definition ENXIO : Z := 6.
Definition EREMOTEIO : Z := 121.
Definition EILSEQ : Z := 84.
Definition ECONNRESET : Z := 104.
Definition ENOTCONN : Z := 107.
Definition EFAULT : Z := 14.

(** ** Error codes as integers *)
Definition error_codes : list CuckooErrorCode :=
  [SUCCESS; PATH_IS_INVALID; PATH_IS_ROOT; PATH_EXISTS; PATH_NOT_EXISTS; PATH_LOCK_CONFLICT; PATH_VERIFY_FAILED;
   REMOTE_TRANSFER_FAILED; WRONG_WORKER; OBSOLETE_SHARD; REMOTE_QUERY_FAILED; ARGUMENT_ERROR; INODE_ROW_TYPE_ERROR; FILE_EXISTS;
   FILE_NOT_EXISTS; OUT_OF_MEMORY; STREAM_ERROR; PROGRAM_ERROR; SMART_ROUTE_ERROR; UNDEFINED; MKDIR_DUPLICATE; XKEY_EXISTS;
   XKEY_NOT_EXISTS; VERSION_OUT_OF_DATE; INVALID_PARAMETER; UNKNOWN; SERVER_FAULT; ZK_NOT_CONNECT; ZK_FETCH_RESULT_FAILED;
   TRANSACTION_FAULT; POOLED_FAULT; NOT_FOUND_FD; GET_ALL_WORKER_CONN_FAILED; IO_ERROR; READDIR_RENEW_CONN; LAST_CUCKOO_ERROR_CODE].

Fixpoint position {A} `{!EqDecision A} (x : A) (l : list A) : Z :=
  match l with
  | [] => 0
  | y :: l' => if decide (y = x) then 0 else 1 + position x l'
  end.
Definition code (c : CuckooErrorCode) : Z := position c error_codes.
Coercion code : CuckooErrorCode >-> Z.

Definition ErrorCodeToErrno (errorCode : Z) : Z :=
  match error_codes !! Z.to_nat errorCode with
  | Some SUCCESS => 0
  | Some PATH_IS_INVALID => ENOENT
  | Some WRONG_WORKER => ESRCH
  | Some OBSOLETE_SHARD => ENXIO
  | Some REMOTE_QUERY_FAILED => EREMOTEIO
  | Some ARGUMENT_ERROR => EINVAL
  | Some INODE_ROW_TYPE_ERROR => EILSEQ
  | Some FILE_EXISTS => EEXIST
  | Some FILE_NOT_EXISTS => ENOENT
  | Some OUT_OF_MEMORY => ENOMEM
  | Some STREAM_ERROR => EIO
  | Some PROGRAM_ERROR => EFAULT
  | Some SMART_ROUTE_ERROR => EHOSTUNREACH
  | Some SERVER_FAULT => ECONNRESET
  | Some UNDEFINED => EAGAIN
  | Some MKDIR_DUPLICATE => MKDIR_DUPLICATE
  | Some XKEY_EXISTS => EEXIST
  | Some XKEY_NOT_EXISTS => ENOENT
  | Some ZK_NOT_CONNECT => ENOTCONN
  | Some ZK_FETCH_RESULT_FAILED => EIO
  | Some TRANSACTION_FAULT => EIO
  | Some POOLED_FAULT => EAGAIN
  | Some NOT_FOUND_FD => EBADF
  | Some GET_ALL_WORKER_CONN_FAILED => EHOSTUNREACH
  | Some IO_ERROR => EIO
  | Some PATH_NOT_EXISTS => ENOENT
  | _ => EIO
  end.

(** ** Requests *)
Inductive MetaServiceType :=
  | PLAIN_COMMAND | MKDIR | CREATE | STAT | OPEN | CLOSE | UNLINK | READDIR | OPENDIR | RMDIR | RENAME | UTIMENS | CHOWN | CHMOD.
#[global] Instance MetaServiceType_eq_dec : EqDecision MetaServiceType.
Proof. solve_decision. Defined.

Inductive AnyMetaParam :=
  | AnyMetaParam_PlainCommandParam | AnyMetaParam_PathOnlyParam | AnyMetaParam_CloseParam | AnyMetaParam_ReadDirParam
  | AnyMetaParam_RenameParam | AnyMetaParam_UtimeNsParam | AnyMetaParam_ChownParam | AnyMetaParam_ChmodParam.

Definition ToFlatBuffersType (type : MetaServiceType) : AnyMetaParam :=
  match type with
  | PLAIN_COMMAND => AnyMetaParam_PlainCommandParam
  | MKDIR | CREATE | STAT | OPEN | UNLINK | OPENDIR | RMDIR => AnyMetaParam_PathOnlyParam
  | CLOSE => AnyMetaParam_CloseParam
  | READDIR => AnyMetaParam_ReadDirParam
  | RENAME => AnyMetaParam_RenameParam
  | UTIMENS => AnyMetaParam_UtimeNsParam
  | CHOWN => AnyMetaParam_ChownParam
  | CHMOD => AnyMetaParam_ChmodParam
  end.

(** The tables of the union. *)
Inductive MetaParam :=
  | PlainCommandParam (command : string)
  | PathOnlyParam (path : string)
  | CloseParam (path : string) (size mtime nodeId : Z)
  | ReadDirParam (path : string) (maxReadCount lastShardIndex : Z) (lastFileName : option string)
  | RenameParam (src dst : string)
  | UtimeNsParam (path : string) (atime mtime : Z)
  | ChownParam (path : string) (uid gid : Z)
  | ChmodParam (path : string) (mode : Z).

Record MetaRequest := mkRequest {
  rq_type : MetaServiceType;
  rq_union : AnyMetaParam;
  rq_param : MetaParam;
  rq_allow_batch_with_others : bool }.

(** ** Responses *)

(** The columns that travel; times are PostgreSQL's microseconds since 2000. *)
Record Attributes := mkAttributes {
  at_ino : Z; at_dev : Z; at_mode : Z; at_nlink : Z; at_uid : Z; at_gid : Z; at_rdev : Z; at_size : Z;
  at_atim : Z; at_mtim : Z; at_ctim : Z }.

Inductive AnyMetaResponse :=
  | NoResponse
  | PlainCommandResponse (row col : Z) (data : list string)
  | CreateResponse (a : Attributes) (node_id : Z)
  | StatResponse (a : Attributes)
  | OpenResponse (a : Attributes) (node_id : Z)
  | UnlinkResponse (st_ino st_size node_id : Z)
  | ReadDirResponse (last_shard_index : Z) (last_file_name : option string) (result_list : list (string * Z))
  | OpenDirResponse (st_ino : Z).

(** What comes back: brpc's error code, bytes that are no response, or a
    response. *)
Inductive meta_reply :=
  | CallFailed (errorCode : Z)
  | CorruptReply
  | MetaResponse (error_code : Z) (response : AnyMetaResponse).

Record ServerIdentifier := mkServerId { srv_ip : string; srv_port : Z; srv_id : Z }.
#[global] Instance ServerIdentifier_eq_dec : EqDecision ServerIdentifier.
Proof. solve_decision. Defined.

Class MetaService (W : Type) := {
  brpc_ELOGOFF : Z;
  MetaCall : ServerIdentifier → MetaRequest → W → meta_reply * W;
  (** whether channel.Init succeeds *)
  channel_Init : ServerIdentifier → W → bool }.

(** ** Attributes for stat(2) *)
Definition ST_NBLOCKSIZE : Z := 512.
Definition ST_BLKSIZE : Z := 4096.

Record stat := mkStat {
  st_ino : Z; st_dev : Z; st_mode : Z; st_nlink : Z; st_uid : Z; st_gid : Z; st_rdev : Z; st_size : Z;
  st_blksize : Z; st_blocks : Z; st_atim : Z * Z; st_mtim : Z * Z; st_ctim : Z * Z }.
Definition no_attributes : stat := mkStat 0 0 0 0 0 0 0 0 0 0 (0, 0) (0, 0) (0, 0).

(** tv_sec and tv_nsec *)
Definition ConvertTimestampFromPGToUnix (t : Z) : Z * Z := (u64 (u64 t / 1000000 + 946684800), u64 t mod 1000000).

Definition fill_stat (a : Attributes) : stat :=
  mkStat (at_ino a) (at_dev a) (at_mode a) (at_nlink a) (at_uid a) (at_gid a) (at_rdev a) (at_size a) ST_BLKSIZE
    (Z.quot (at_size a + ST_BLKSIZE - 1) ST_BLKSIZE * (ST_BLKSIZE `div` ST_NBLOCKSIZE))
    (ConvertTimestampFromPGToUnix (at_atim a)) (ConvertTimestampFromPGToUnix (at_mtim a)) (ConvertTimestampFromPGToUnix (at_ctim a)).

Section connection.
Context {W : Type} `{!MetaService W}.
Local Abbreviation WM := (M W).

Definition allow_batch (type : MetaServiceType) : bool :=
  match type with MKDIR | CREATE | STAT | OPEN | CLOSE | UNLINK => true | _ => false end.

Definition make_request (type : MetaServiceType) (param : MetaParam) : MetaRequest :=
  mkRequest type (ToFlatBuffersType type) param (allow_batch type).

(** The error code, and what the response handler took from the response: it
    runs only when the server reports SUCCESS. *)
Definition ProcessRequest {A} (server : ServerIdentifier) (type : MetaServiceType) (param : MetaParam)
    (responseHandler : AnyMetaResponse → Z * option A) : WM (Z * option A) := λ w,
  let '(reply, w') := MetaCall server (make_request type param) w in
  Ret (match reply with
       | CallFailed e => (if decide (e = brpc_ELOGOFF ∨ e = EHOSTDOWN) then code SERVER_FAULT else code REMOTE_QUERY_FAILED, None)
       | CorruptReply => (code REMOTE_QUERY_FAILED, None)
       | MetaResponse error_code response =>
         if decide (error_code ≠ SUCCESS) then
           (if decide (error_code < LAST_CUCKOO_ERROR_CODE) then error_code else PROGRAM_ERROR, None)
         else responseHandler response
       end) w'.

(** The handlers of requests without a response of their own. *)
Definition only_code : AnyMetaResponse → Z * option () := λ _, (code SUCCESS, None).
Definition code_only (server : ServerIdentifier) (type : MetaServiceType) (param : MetaParam) : WM Z :=
  '(ret, _) ← ProcessRequest server type param only_code; mret ret.

Definition PlainCommand (server : ServerIdentifier) (command : string) : WM (Z * option (Z * Z * list string)) :=
  ProcessRequest server PLAIN_COMMAND (PlainCommandParam command)
    (λ r, match r with PlainCommandResponse row col data => (code SUCCESS, Some (row, col, data)) | _ => (code PROGRAM_ERROR, None) end).

Definition Mkdir (server : ServerIdentifier) (path : string) : WM Z := code_only server MKDIR (PathOnlyParam path).

(** Inode id, node and attributes, which stay what they were when there is no response. *)
Definition Create (server : ServerIdentifier) (path : string) : WM (Z * option (Z * Z * stat)) :=
  ProcessRequest server CREATE (PathOnlyParam path)
    (λ r, match r with CreateResponse a node => (code SUCCESS, Some (at_ino a, node, fill_stat a)) | _ => (code PROGRAM_ERROR, None) end).

Definition Stat (server : ServerIdentifier) (path : string) : WM (Z * option stat) :=
  ProcessRequest server STAT (PathOnlyParam path)
    (λ r, match r with StatResponse a => (code SUCCESS, Some (fill_stat a)) | _ => (code PROGRAM_ERROR, None) end).

(** Inode id, size, node and attributes. *)
Definition Open (server : ServerIdentifier) (path : string) : WM (Z * option (Z * Z * Z * stat)) :=
  ProcessRequest server OPEN (PathOnlyParam path)
    (λ r, match r with OpenResponse a node => (code SUCCESS, Some (at_ino a, at_size a, node, fill_stat a)) | _ => (code PROGRAM_ERROR, None) end).

Definition Close (server : ServerIdentifier) (path : string) (size mtime nodeId : Z) : WM Z :=
  code_only server CLOSE (CloseParam path size mtime nodeId).

Definition Unlink (server : ServerIdentifier) (path : string) : WM (Z * option (Z * Z * Z)) :=
  ProcessRequest server UNLINK (PathOnlyParam path)
    (λ r, match r with UnlinkResponse ino size node => (code SUCCESS, Some (ino, size, node)) | _ => (code PROGRAM_ERROR, None) end).

Definition ReadDir (server : ServerIdentifier) (path : string) (maxReadCount lastShardIndex : Z) (lastFileName : option string)
    : WM (Z * option (Z * option string * list (string * Z))) :=
  ProcessRequest server READDIR (ReadDirParam path maxReadCount lastShardIndex lastFileName)
    (λ r, match r with
       | ReadDirResponse last_shard_index last_file_name result_list => (code SUCCESS, Some (last_shard_index, last_file_name, result_list))
       | _ => (code PROGRAM_ERROR, None)
       end).

Definition OpenDir (server : ServerIdentifier) (path : string) : WM (Z * option Z) :=
  ProcessRequest server OPENDIR (PathOnlyParam path)
    (λ r, match r with OpenDirResponse ino => (code SUCCESS, Some ino) | _ => (code PROGRAM_ERROR, None) end).

Definition Rmdir (server : ServerIdentifier) (path : string) : WM Z := code_only server RMDIR (PathOnlyParam path).
Definition Rename (server : ServerIdentifier) (src dst : string) : WM Z := code_only server RENAME (RenameParam src dst).
Definition UtimeNs (server : ServerIdentifier) (path : string) (atime mtime : Z) : WM Z :=
  code_only server UTIMENS (UtimeNsParam path atime mtime).
Definition Chown (server : ServerIdentifier) (path : string) (uid gid : Z) : WM Z := code_only server CHOWN (ChownParam path uid gid).
Definition Chmod (server : ServerIdentifier) (path : string) (mode : Z) : WM Z := code_only server CHMOD (ChmodParam path mode).
End connection.
