(* ===== verification/Router.v ===== *)
(** * Routing of a client's requests (cuckoo_client/src/router.cpp, utils.cpp,
      common/src/cm/cuckoo_cm.cpp)

    A client keeps the table of shards, fetched from the coordinator, and a
    connection per server; a connection is known by its server.  A
    std::runtime_error is the outcome [Elog].  ZooKeeper is an interface. *)
From stdpp Require Import pretty.
From S2P Require Import Prelude Decimal Posix Connection.
Local Open Scope Z_scope.

Definition throw {S A} : M S A := melog PROGRAM_ERROR.

(** ** Numbers and hashes (utils.cpp) *)
Definition StringToInt32 (s : string) : Z := i32 (atoll s).

Definition FILENAME_LENGTH : nat := 256.
Definition INT32_MIN : Z := - 2 ^ 31.

Section hash.
(** whether plain char is signed on the client's platform *)
Context (char_signed : bool).

Definition char_int (c : ascii) : Z :=
  let v := Z.of_nat (nat_of_ascii c) in
  if char_signed then (if decide (v < 128) then v else v - 256) else v.

Definition HashPartId (fileName : string) : Z :=
  Z.land (fold_left (λ hashValue c, u16 (hashValue * 31 + char_int c)) (take FILENAME_LENGTH (String.list_ascii_of_string fileName)) 0) 8191.
End hash.

Definition RotateLeft32 (word n : Z) : Z := Z.lor (u32 (Z.shiftl word n)) (Z.shiftr word (32 - n)).

Definition HashBytesUint32 (k : Z) : Z :=
  let a := u32 (2654435769 + 4 + 3923095) in
  let b := a in
  let c := a in
  let a := u32 (a + k) in
  let c := Z.lxor c b in
  let c := u32 (c - RotateLeft32 b 14) in
  let a := Z.lxor a c in
  let a := u32 (a - RotateLeft32 c 11) in
  let b := Z.lxor b a in
  let b := u32 (b - RotateLeft32 a 25) in
  let c := Z.lxor c b in
  let c := u32 (c - RotateLeft32 b 16) in
  let a := Z.lxor a c in
  let a := u32 (a - RotateLeft32 c 4) in
  let b := Z.lxor b a in
  let b := u32 (b - RotateLeft32 a 14) in
  let c := Z.lxor c b in
  u32 (c - RotateLeft32 b 24).

Definition HashInt8 (val : Z) : Z :=
  let lohalf := u32 val in
  let hihalf := u32 (Z.shiftr val 32) in
  let lohalf := Z.lxor lohalf (if decide (val >= 0) then hihalf else u32 (Z.lnot hihalf)) in
  let res := i32 (HashBytesUint32 lohalf) in
  u32 (i32 (Z.land (u32 res) (u32 (Z.lnot (Z.shiftl 1 31))))).

(** ** The cluster manager *)
Definition BUFF_SIZE : Z := 512.

(** zoo_get and zoo_get_children: the error, or the text. *)
Class Zookeeper (W : Type) := {
  zoo_get : string → W → Z + string;
  zoo_get_children : string → W → Z + list string }.

Section cm.
Context {W : Type} `{!Zookeeper W} (clusterName : string).

(** The text up to its first colon and after it. *)
Fixpoint split_colon (s : string) : option (string * string) :=
  match s with
  | EmptyString => None
  | String c s' => if decide (c = ":"%char) then Some (""%string, s') else (λ '(a, b), (String c a, b)) <$> split_colon s'
  end.

Definition FetchCNLeader (w : W) : option string :=
  match zoo_get (clusterName +:+ "/leaders/cn") w with inl _ => None | inr s => Some s end.

(** Address and port of the coordinator; [None] for RETURN_ERROR. *)
Definition FetchCoordinatorInfo (w : W) : option (string * Z) :=
  match FetchCNLeader w with
  | None | Some EmptyString => None
  | Some s => (λ '(ip, port), (ip, i32 (StringToInt32 port + 10))) <$> split_colon s
  end.

(** The loop over the children: an error of one of them ends it. *)
Fixpoint fetch_children {A} (get : string → option A) (l : list string) : list A * bool :=
  match l with
  | [] => ([], true)
  | c :: l' => match get c with Some x => let '(r, ok) := fetch_children get l' in (x :: r, ok) | None => ([], false) end
  end.

Definition FetchLeaders (w : W) : option (list string) :=
  let leaderPath := (clusterName +:+ "/leaders")%string in
  match zoo_get_children leaderPath w with
  | inl _ => None
  | inr names =>
    let '(l, ok) := fetch_children (λ c, match zoo_get (leaderPath +:+ "/" +:+ c) w with inr s => Some s | inl _ => None end) names in
    if (ok : bool) then Some l else None
  end.

(** childName.substr(5) throws when the name is shorter *)
Definition substr_from (n : nat) (s : string) : option string :=
  if decide (n ≤ String.length s)%nat then Some (String.substring n (String.length s - n) s) else None.

(** The result and the nodes: when reading one of them fails, the result is the
    one of zoo_get_children, which was ZOK. *)
Definition FetchStoreNodes (w : W) : option (Z * list (Z * string)) :=
  let viewPath := (clusterName +:+ "/StoreNode/Nodes")%string in
  match zoo_get_children viewPath w with
  | inl ret => Some (ret, [])
  | inr names =>
    let '(l, _) := fetch_children (λ c, match zoo_get (viewPath +:+ "/" +:+ c) w with inr s => Some (c, s) | inl _ => None end) names in
    l' ← mapM (λ '(c, s), (λ n, (StringToInt32 n, s)) <$> substr_from 5 c) l;
    Some (0, l')
  end.
End cm.

(** ** The router *)
Definition RETRY_CNT : nat := 3.

(** shardTable is ordered by its keys; routeMap is the servers of the
    unordered_map in the order in which it is iterated over. *)
Record Router := mkRouter {
  coordinatorConn : ServerIdentifier;
  shardTable : list (Z * ServerIdentifier);
  routeMap : list ServerIdentifier }.
#[global] Instance eta_Router : Eta Router := λ r, mkRouter (coordinatorConn r) (shardTable r) (routeMap r).

(** std::map::emplace: an entry that exists stays *)
Fixpoint table_emplace (k : Z) (v : ServerIdentifier) (m : list (Z * ServerIdentifier)) : list (Z * ServerIdentifier) :=
  match m with
  | [] => [(k, v)]
  | (k', v') :: m' => if decide (k < k') then (k, v) :: m else if decide (k = k') then m else (k', v') :: table_emplace k v m'
  end.

Definition lower_bound (h : Z) (m : list (Z * ServerIdentifier)) : option (Z * ServerIdentifier) := head (filter (λ p, h ≤ p.1) m).

Section router.
Context {W : Type} `{!MetaService W} `{!Zookeeper W}.
Context (char_signed : bool) (clusterName : string).
(** The order of iteration of an unordered_map after an insertion. *)
Context (rehash : list ServerIdentifier → list ServerIdentifier).
Local Abbreviation RM := (M (Router * W)).

Definition world {A} (m : M W A) : RM A := mzoom snd (λ w s, (s.1, w)) m.
Definition router : RM Router := s ← mget; mret s.1.
Definition set_router (f : Router → Router) : RM () := mmodify (λ s, (f s.1, s.2)).

Definition route_emplace (server : ServerIdentifier) (m : list ServerIdentifier) : list ServerIdentifier :=
  if decide (server ∈ m) then m else rehash (server :: m).

(** One row of the table: its cells are [data.(i * col) ..]. *)
Definition fetch_row (tmpRouteMap : list ServerIdentifier) (col : Z) (data : list string) (i lastShardMaxValue : Z) : RM Z :=
  match data !! Z.to_nat (i * col + 0), data !! Z.to_nat (i * col + 1), data !! Z.to_nat (i * col + 2),
        data !! Z.to_nat (i * col + 3), data !! Z.to_nat (i * col + 4) with
  | Some min, Some max, Some ip, Some port, Some id =>
    let shardMinValue := StringToInt32 min in
    let shardMaxValue := StringToInt32 max in
    let server := mkServerId ip (i32 (StringToInt32 port + 10)) (StringToInt32 id) in
    if decide (lastShardMaxValue ≠ INT32_MIN ∧ i32 (lastShardMaxValue + 1) ≠ shardMinValue) then throw
    else
      (if decide (lastShardMaxValue = INT32_MIN ∧ shardMinValue ≠ INT32_MIN) then
         set_router (λ r, r <| shardTable ::= table_emplace (shardMinValue - 1) (mkServerId "" 0 (-1)) |>)
       else mret ()) ;;
      set_router (λ r, r <| shardTable ::= table_emplace shardMaxValue server |>) ;;
      s ← mget;
      (if decide (server ∈ tmpRouteMap) then mret ()
       else if channel_Init server s.2 then mret () else throw) ;;
      set_router (λ r, r <| routeMap ::= route_emplace server |>) ;;
      mret shardMaxValue
  | _, _, _, _, _ => mundefined
  end.

Fixpoint fetch_rows (tmpRouteMap : list ServerIdentifier) (col : Z) (data : list string) (n : nat) (i lastShardMaxValue : Z) : RM Z :=
  match n with
  | O => mret lastShardMaxValue
  | S n' =>
    max ← fetch_row tmpRouteMap col data i lastShardMaxValue;
    fetch_rows tmpRouteMap col data n' (i + 1) max
  end.

(** A null response, after any other error, is dereferenced. *)
Definition FetchShardTable (conn : ServerIdentifier) : RM Z :=
  '(ret, res) ← world (PlainCommand conn "select * from cuckoo_renew_shard_table();");
  if decide (ret = code SERVER_FAULT) then mret (code SERVER_FAULT)
  else
    match res with
    | None => mundefined
    | Some (shardCount, col, data) =>
      r ← router;
      set_router (λ r, r <| shardTable := [] |> <| routeMap := [] |>) ;;
      last ← fetch_rows (routeMap r) col data (Z.to_nat shardCount) 0 INT32_MIN;
      if decide (last ≠ INT32_MAX) then throw else mret 0
    end.

(** Router::Router *)
Definition new_Router (coordinator : ServerIdentifier) : M W Router := λ w,
  if channel_Init coordinator w then
    match FetchShardTable coordinator (mkRouter coordinator [] [], w) with
    | Ret _ (r, w') => Ret r w'
    | Elog e (_, w') => Elog e w'
    | Diverge => Diverge
    | Undefined => Undefined
    end
  else throw w.

Definition GetCoordinatorConn : RM ServerIdentifier := r ← router; mret (coordinatorConn r).

(** The file name that is hashed: filename.data() is not cut where the view
    ends, so that a slash at the end of the path stays. *)
Fixpoint after_last_slash (acc s : string) : string :=
  match s with
  | EmptyString => acc
  | String c s' => after_last_slash (if decide (c = "/"%char) then s' else acc) s'
  end.
Definition drop_last (s : string) : string := String.substring 0 (String.length s - 1) s.
Definition last_char (s : string) : option ascii := String.get (String.length s - 1) s.

Definition hashed_name (path : string) : string :=
  let trimmed := if decide ((1 < String.length path)%nat ∧ last_char path = Some "/"%char) then drop_last path else path in
  let filename := after_last_slash trimmed trimmed in
  let start := (String.length trimmed - String.length filename)%nat in
  (* dir is empty: at most one character in front of the last slash *)
  if decide (filename = ""%string ∧ (start ≤ 2)%nat) then "/"%string
  else String.substring start (String.length path - start) path.

(** [None]: a null pointer *)
Definition GetWorkerConnByPath (path : string) : RM (option ServerIdentifier) :=
  match path with
  | String "/" _ =>
    r ← router;
    match lower_bound (HashInt8 (HashPartId char_signed (hashed_name path))) (shardTable r) with
    | None => throw
    | Some (_, server) => if decide (server ∈ routeMap r) then mret (Some server) else throw
    end
  | _ => mret None
  end.

(** Address and connection; emplace keeps the first of an address. *)
Definition address (s : ServerIdentifier) : string := (srv_ip s +:+ ":" +:+ pretty (srv_port s))%string.
Definition GetAllWorkerConnection : RM (list (string * ServerIdentifier)) :=
  r ← router;
  mret (foldl (λ m s, if decide (address s ∈ m.*1) then m else m ++ [(address s, s)]) [] (routeMap r)).

(** The do loop of TryToUpdateCNConn with [n] attempts left: the last result. *)
Fixpoint ask_coordinator (n : nat) (conn : ServerIdentifier) : RM (option ServerIdentifier) :=
  s ← mget;
  let found := (λ '(ip, port), mkServerId ip port (srv_id conn)) <$> FetchCoordinatorInfo clusterName s.2 in
  match n with
  | S n' => if decide (found = None ∨ found = Some conn) then ask_coordinator n' conn else mret found
  | O => mret found
  end.

Definition TryToUpdateCNConn (conn : ServerIdentifier) : RM ServerIdentifier :=
  r ← router;
  if decide (conn ≠ coordinatorConn r) then mret (coordinatorConn r)
  else
    found ← ask_coordinator RETRY_CNT conn;
    match found with
    | None => mret (coordinatorConn r)
    | Some server =>
      if decide (server = conn) then mret (coordinatorConn r)
      else
        s ← mget;
        if channel_Init server s.2 then set_router (λ r, r <| coordinatorConn := server |>) ;; mret server else throw
    end.

Definition GetWorkerConnBySvrId (id : Z) : RM (option ServerIdentifier) :=
  r ← router; mret (head (filter (λ s, srv_id s = id) (routeMap r))).

(** The do loop of TryToUpdateWorkerConn with [n] rounds left. *)
Fixpoint update_worker (n : nat) (conn : ServerIdentifier) : RM ServerIdentifier :=
  newConn ← GetWorkerConnBySvrId (srv_id conn);
  match newConn with
  | None => throw
  | Some server =>
    if decide (server ≠ conn) then mret server
    else
      coordinator ← GetCoordinatorConn;
      ret ← FetchShardTable coordinator;
      (if decide (ret = code SERVER_FAULT) then
         coordinator ← TryToUpdateCNConn coordinator;
         FetchShardTable coordinator ;;
         mret ()
       else mret ()) ;;
      match n with S n' => update_worker n' conn | O => mret conn end
  end.
Definition TryToUpdateWorkerConn (conn : ServerIdentifier) : RM ServerIdentifier := update_worker RETRY_CNT conn.
End router.
