(* ===== verification/RouterSpec.v ===== *)
(** * The client's routing agrees with the servers'

    The table a client fetches is the text of cuckoo_renew_shard_table; for every
    path the client's choice is the server whose shard holds the name that the
    server itself resolves the path to. *)
From stdpp Require Import pretty.
From S2P Require Import Prelude Decimal Pg Shard PathParse Posix Connection Router.
Local Open Scope Z_scope.

(** ** The name that is hashed *)
Definition no_slash (s : string) : Prop := Forall (λ c, c ≠ "/"%char) (String.list_ascii_of_string s).

Lemma after_last_slash_none acc s : no_slash s → after_last_slash acc s = acc.
Proof.
  unfold no_slash. revert acc. induction s as [|c s IH]; intros acc H; simpl in *; [done|]. apply Forall_cons in H as [Hc H].
  rewrite decide_False by done. by apply IH.
Qed.

Lemma after_last_slash_app acc p name : no_slash name → after_last_slash acc (p ++ "/" ++ name) = name.
Proof.
  intros Hn. revert acc. induction p as [|c p IH]; intros acc; [by apply (after_last_slash_none name)|].
  exact (IH (if decide (c = "/"%char) then (p ++ "/" ++ name)%string else acc)).
Qed.

Lemma cut_last s : no_slash s ∨ ∃ p name, s = (p ++ "/" ++ name)%string ∧ no_slash name.
Proof.
  unfold no_slash. induction s as [|c s IH]; simpl; [left; constructor|]. destruct IH as [H|(p & name & -> & H)].
  - destruct (decide (c = "/"%char)) as [->|Hc]; [right; by exists ""%string, s|left; by constructor].
  - right. by exists (String c p), name.
Qed.

Lemma split_one s : no_slash s → PathParse.split s = [s].
Proof.
  unfold no_slash. induction s as [|c s IH]; intros H; simpl in *; [done|]. apply Forall_cons in H as [Hc H].
  rewrite decide_False by done. by rewrite IH.
Qed.

Lemma split_app p name : no_slash name → last (PathParse.split (p ++ "/" ++ name)) = Some name ∧ (2 ≤ length (PathParse.split (p ++ "/" ++ name)))%nat.
Proof.
  intros Hn. induction p as [|c p [IH Hl]].
  { change (last (""%string :: PathParse.split name) = Some name ∧ (2 ≤ length (""%string :: PathParse.split name))%nat). by rewrite split_one. }
  change ((String c p ++ "/" ++ name)%string) with (String c (p ++ "/" ++ name)). cbn [PathParse.split].
  destruct (PathParse.split (p ++ "/" ++ name)) as [|x [|y l]] eqn:E; simpl in Hl; try lia.
  destruct (decide (c = c_slash)); simpl; (split; [exact IH|lia]).
Qed.

Lemma last_char_app p name : name ≠ ""%string → last_char (p ++ name) = last_char name.
Proof.
  intros Hn. unfold last_char. rewrite string_length_app. destruct name as [|c name]; [done|].
  replace (String.length p + String.length (String c name) - 1)%nat with (String.length p + (String.length (String c name) - 1))%nat
    by (simpl; lia).
  induction p; simpl; auto.
Qed.

Lemma last_char_no_slash s : no_slash s → last_char s ≠ Some "/"%char.
Proof.
  unfold no_slash, last_char. intros H. destruct s as [|c s]; [done|]. simpl. rewrite Nat.sub_0_r. revert c H.
  induction s as [|d s IH]; intros c H; simpl in *; apply Forall_cons in H as [Hc H]; [naive_solver|]. by apply IH.
Qed.

(** A path that does not end in a slash: its last component, as the server cuts
    it, is what the client hashes. *)
Lemma hashed_name_last rest name :
  last (components (String "/" rest)) = Some name → name ≠ ""%string → hashed_name (String "/" rest) = name.
Proof.
  intros Hl Hne. unfold components in Hl. destruct (decide (rest = ""%string)) as [->|Hr].
  { simpl in Hl. injection Hl as <-. reflexivity. }
  assert (∃ p, String "/" rest = (p ++ "/" ++ name)%string ∧ no_slash name) as (p & Hp & Hn).
  { destruct (cut_last rest) as [H|(p & n & -> & H)].
    - rewrite (split_one _ H) in Hl. injection Hl as <-. by exists ""%string.
    - destruct (split_app p n H) as [H1 _]. exists (String "/" p).
      change (last (String "/" "" :: PathParse.split (p ++ "/" ++ n)) = Some name) in Hl.
      rewrite last_cons, H1 in Hl. assert (n = name) as -> by congruence. split; [reflexivity|done]. }
  rewrite Hp. unfold hashed_name. rewrite (decide_False (P := _ ∧ last_char _ = _)).
  2: { intros [_ H]. replace (p ++ "/" ++ name)%string with ((p ++ "/") ++ name)%string in H by apply string_app_assoc.
       rewrite last_char_app in H by done. exact (last_char_no_slash _ Hn H). }
  cbv zeta. rewrite after_last_slash_app by done. rewrite decide_False by tauto.
  replace (String.length (p ++ "/" ++ name) - String.length name)%nat with (String.length (p ++ "/"))
    by (rewrite !string_length_app; simpl; lia).
  replace (p ++ "/" ++ name)%string with ((p ++ "/") ++ name)%string by apply string_app_assoc.
  rewrite substring_app, string_length_app. replace (_ + _ - _)%nat with (String.length name) by lia. apply substring_all.
Qed.

(** ** The hash *)
Section agree.
Context `{!PgEnv, !PgRelation range_point Z.le}.
(** common/hashfn.c of PostgreSQL *)
Context (hash_documented : ∀ k, 0 ≤ k < 2 ^ 32 → hash_bytes_uint32 k = HashBytesUint32 k).

Lemma HashPartId_client name : Router.HashPartId char_is_signed name = Shard.HashPartId name.
Proof. reflexivity. Qed.

Lemma HashInt8_HashShard d p : 0 ≤ p < 2 ^ 13 → HashInt8 p = HashShard (CombineParentIdWithPartId d p).
Proof.
  intros Hp. pose proof (HashShard_range (CombineParentIdWithPartId d p)) as Hr. revert Hr.
  unfold HashShard, HashInt8. rewrite Combine_part by done. rewrite (i64_small p) by lia. rewrite !(decide_True (P := p >= 0)) by lia.
  replace (Z.shiftr p 32) with 0 by (rewrite Z.shiftr_div_pow2, Z.div_small; lia). change (u32 0) with 0.
  rewrite Z.lxor_0_r. rewrite (hash_documented (u32 p)) by apply (Z.mod_pos_bound _ (2 ^ 32) eq_refl).
  intros Hr. unfold u32 at 1. apply Z.mod_small. unfold INT32_MAX in Hr. lia.
Qed.

(** ** The table *)

(** The text that travels, and the server a row names. *)
Definition decimal (n : Z) : string := pretty (Z.to_N n).
Definition shard_text (infos : list ShardInfo) : list string :=
  infos ≫= λ i, [decimal (si_rangeMin i); decimal (si_rangeMax i); si_host i; decimal (si_port i); decimal (si_serverId i)].
Definition server_of (i : ShardInfo) : ServerIdentifier := mkServerId (si_host i) (si_port i + 10) (si_serverId i).

(** Ranges one behind the other from [lo] on, with numbers that fit. *)
Fixpoint chained (lo : Z) (infos : list ShardInfo) : Prop :=
  match infos with
  | [] => True
  | i :: l => si_rangeMin i = lo ∧ 0 ≤ lo ≤ si_rangeMax i ∧ si_rangeMax i ≤ INT32_MAX ∧ 0 ≤ si_port i < 2 ^ 31 - 10 ∧
              0 ≤ si_serverId i < 2 ^ 31 ∧ chained (si_rangeMax i + 1) l
  end.

Lemma StringToInt32_decimal n : 0 ≤ n < 2 ^ 31 → StringToInt32 (decimal n) = n.
Proof.
  intros Hn. unfold StringToInt32, decimal. rewrite <-(string_app_nil (pretty _)).
  rewrite atoll_pretty by (try done; lia). apply i32_small. lia.
Qed.

Definition row_text (i : ShardInfo) : list string :=
  [decimal (si_rangeMin i); decimal (si_rangeMax i); si_host i; decimal (si_port i); decimal (si_serverId i)].

Lemma shard_text_at pre i infos k x c : Z.of_nat (length pre) = 5 * k → row_text i !! x = Some c →
  (pre ++ shard_text (i :: infos)) !! Z.to_nat (k * 5 + Z.of_nat x) = Some c.
Proof.
  intros Hk Hx. rewrite lookup_app_r by lia. replace (Z.to_nat (k * 5 + Z.of_nat x) - length pre)%nat with x by lia.
  change (shard_text (i :: infos)) with (row_text i ++ shard_text infos). by apply lookup_app_l_Some.
Qed.

Lemma table_emplace_last k v m : Forall (λ p, p.1 < k) m → table_emplace k v m = m ++ [(k, v)].
Proof.
  induction 1 as [|[k' v'] m Hk _ IH]; simpl in *; [done|]. rewrite decide_False, decide_False by lia. by rewrite IH.
Qed.

Section fetch.
Context {W : Type} `{!MetaService W} `{!Zookeeper W}.
Context (clusterName : string) (rehash : list ServerIdentifier → list ServerIdentifier).
Context (rehash_perm : ∀ l, rehash l ≡ₚ l).
Implicit Types (r : Router) (w : W).

Lemma route_emplace_elem x y m : x ∈ route_emplace rehash y m ↔ x = y ∨ x ∈ m.
Proof.
  unfold route_emplace. destruct (decide _); [naive_solver|]. rewrite rehash_perm. apply elem_of_cons.
Qed.

(** What a row adds in front of the first range. *)
Definition before_first (last lo : Z) : list (Z * ServerIdentifier) :=
  if decide (last = INT32_MIN) then [(lo - 1, mkServerId "" 0 (-1))] else [].

Lemma fetch_row_runs tmp pre i l k last lo r w : Z.of_nat (length pre) = 5 * k → chained lo (i :: l) →
  last = INT32_MIN ∨ last + 1 = lo → Forall (λ p, p.1 < lo - 1) (shardTable r) ∨ (last ≠ INT32_MIN ∧ Forall (λ p, p.1 < lo) (shardTable r)) →
  (∀ s, channel_Init s w = true) →
  ∃ r', fetch_row rehash tmp 5 (pre ++ shard_text (i :: l)) k last (r, w) = Ret (si_rangeMax i) (r', w) ∧
    shardTable r' = shardTable r ++ before_first last lo ++ [(si_rangeMax i, server_of i)] ∧
    coordinatorConn r' = coordinatorConn r ∧ (∀ x, x ∈ routeMap r' ↔ x = server_of i ∨ x ∈ routeMap r).
Proof.
  intros Hk (Hmin & Hlo & Hmax & Hport & Hid & _) Hlast Htab Hch. unfold INT32_MAX in Hmax. unfold fetch_row.
  pose proof (shard_text_at pre i l k 0 _ Hk eq_refl) as H0. pose proof (shard_text_at pre i l k 1 _ Hk eq_refl) as H1.
  pose proof (shard_text_at pre i l k 2 _ Hk eq_refl) as H2. pose proof (shard_text_at pre i l k 3 _ Hk eq_refl) as H3.
  pose proof (shard_text_at pre i l k 4 _ Hk eq_refl) as H4.
  change (Z.of_nat 0) with 0 in H0. change (Z.of_nat 1) with 1 in H1. change (Z.of_nat 2) with 2 in H2.
  change (Z.of_nat 3) with 3 in H3. change (Z.of_nat 4) with 4 in H4.
  rewrite H0, H1, H2, H3, H4. clear H0 H1 H2 H3 H4.
  rewrite !StringToInt32_decimal by lia.
  rewrite (i32_small (si_port i + 10)) by lia. fold (server_of i). rewrite Hmin.
  rewrite (decide_False (P := last ≠ INT32_MIN ∧ _)) by (intros [? Hne]; apply Hne; destruct Hlast; [done|]; rewrite i32_small; lia).
  assert (∀ m, Forall (λ p, p.1 < lo - 1) m ∨ (last ≠ INT32_MIN ∧ Forall (λ p, p.1 < lo) m) →
    Forall (λ p, p.1 < si_rangeMax i) (m ++ before_first last lo)) as Hall.
  { intros m Hm. apply Forall_app. unfold before_first. split.
    - destruct Hm as [Hm|[_ Hm]]; (eapply Forall_impl; [exact Hm|]; simpl; intros; lia).
    - destruct (decide _); repeat constructor; simpl; lia. }
  assert ((if decide (last = INT32_MIN ∧ lo ≠ INT32_MIN) then set_router (λ r, r <| shardTable ::= table_emplace (lo - 1) (mkServerId "" 0 (-1)) |>)
     else mret ()) (r, w) = Ret () (r <| shardTable := shardTable r ++ before_first last lo |>, w) :> outcome (Router * W) ()) as Hfirst.
  { unfold before_first. destruct (decide (last = INT32_MIN)) as [He|He].
    - rewrite decide_True by (split; [done|unfold INT32_MIN; lia]). destruct Htab as [Htab|[Htab _]]; [|done].
      rewrite <-table_emplace_last by exact Htab. reflexivity.
    - rewrite decide_False by tauto. rewrite app_nil_r. by destruct r. }
  rewrite (bind_ret _ _ _ _ _ Hfirst). rewrite (bind_ret (set_router _) _ _ () _ eq_refl).
  rewrite (bind_ret mget _ _ _ _ eq_refl). cbn [fst snd].
  match goal with |- context [((if decide (server_of i ∈ tmp) then ?a else ?b) ≫= ?f) ?s] =>
    assert ((if decide (server_of i ∈ tmp) then a else b) s = Ret () s) as Hinit by (destruct (decide (server_of i ∈ tmp)); [reflexivity|rewrite Hch; reflexivity]) end.
  rewrite (bind_ret _ _ _ _ _ Hinit).
  eexists. split; [reflexivity|]. cbn. split; [|split; [done|intros x; apply route_emplace_elem]].
  rewrite table_emplace_last by (by apply Hall). by rewrite <-app_assoc.
Qed.

Definition row_entry (i : ShardInfo) : Z * ServerIdentifier := (si_rangeMax i, server_of i).
Definition last_max (m : Z) (infos : list ShardInfo) : Z := from_option si_rangeMax m (last infos).

(** The rows after the first. *)
Lemma fetch_rows_runs tmp infos : ∀ pre k last lo r w, Z.of_nat (length pre) = 5 * k → chained lo infos →
  0 ≤ last → last + 1 = lo → Forall (λ p, p.1 < lo) (shardTable r) → (∀ s, channel_Init s w = true) →
  ∃ r', fetch_rows rehash tmp 5 (pre ++ shard_text infos) (length infos) k last (r, w) = Ret (last_max last infos) (r', w) ∧
    shardTable r' = shardTable r ++ (row_entry <$> infos) ∧ coordinatorConn r' = coordinatorConn r ∧
    (∀ x, x ∈ routeMap r' ↔ x ∈ server_of <$> infos ∨ x ∈ routeMap r).
Proof.
  induction infos as [|i infos IH]; intros pre k last lo r w Hk Hc Hl Hlo Ht Hch.
  { exists r. split; [reflexivity|]. split; [symmetry; apply app_nil_r|]. split; [done|]. intros x. simpl. rewrite elem_of_nil. tauto. }
  assert (last ≠ INT32_MIN) as Hne by (unfold INT32_MIN; lia).
  destruct (fetch_row_runs tmp pre i infos k last lo r w Hk Hc) as (r1 & H1 & Ht1 & Hc1 & Hm1); [by right|by right|done|].
  unfold before_first in Ht1. rewrite decide_False in Ht1 by done. simpl in Ht1.
  destruct Hc as (Hmin & Hr & Hmax & _ & _ & Hc).
  destruct (IH (pre ++ row_text i) (k + 1) (si_rangeMax i) (si_rangeMax i + 1) r1 w) as (r2 & H2 & Ht2 & Hc2 & Hm2); try done; [|lia| |].
  - rewrite length_app. simpl. lia.
  - rewrite Ht1. apply Forall_app. split; [eapply Forall_impl; [exact Ht|]; simpl; intros; lia|]. constructor; [simpl; lia|constructor].
  - exists r2. split; [|split; [|split; [congruence|]]].
    + change (length (i :: infos)) with (S (length infos)). cbn [fetch_rows]. rewrite (bind_ret _ _ _ _ _ H1).
      rewrite <-app_assoc in H2. change (row_text i ++ shard_text infos) with (shard_text (i :: infos)) in H2.
      rewrite H2. f_equal. unfold last_max. rewrite last_cons. by destruct (list.last infos).
    + rewrite Ht2, Ht1, <-app_assoc. done.
    + intros x. rewrite Hm2, Hm1, fmap_cons, elem_of_cons. tauto.
Qed.

(** The whole table, when the coordinator answers. *)
Definition table_reply (infos : list ShardInfo) : meta_reply :=
  MetaResponse SUCCESS (PlainCommandResponse (Z.of_nat (length infos)) 5 (shard_text infos)).
Definition table_request : MetaRequest := make_request PLAIN_COMMAND (PlainCommandParam "select * from cuckoo_renew_shard_table();").

Lemma FetchShardTable_runs coordinator i infos r w w' :
  MetaCall coordinator table_request w = (table_reply (i :: infos), w') → chained 0 (i :: infos) →
  last_max 0 (i :: infos) = INT32_MAX → (∀ s, channel_Init s w' = true) →
  ∃ r', FetchShardTable rehash coordinator (r, w) = Ret 0 (r', w') ∧
    shardTable r' = (-1, mkServerId "" 0 (-1)) :: (row_entry <$> i :: infos) ∧ coordinatorConn r' = coordinatorConn r ∧
    (∀ x, x ∈ routeMap r' ↔ x ∈ server_of <$> i :: infos).
Proof.
  intros Hcall Hc Hlast Hch. unfold FetchShardTable.
  assert (world (PlainCommand coordinator "select * from cuckoo_renew_shard_table();") (r, w) =
    Ret (code SUCCESS, Some (Z.of_nat (length (i :: infos)), 5, shard_text (i :: infos))) (r, w')) as H0.
  { unfold world, mzoom, PlainCommand, ProcessRequest. cbn [snd]. fold table_request. rewrite Hcall. reflexivity. }
  rewrite (bind_ret _ _ _ _ _ H0). rewrite (decide_False (P := code SUCCESS = code SERVER_FAULT)) by done.
  rewrite (bind_ret router _ (r, w') r _ eq_refl), (bind_ret (set_router _) _ _ () _ eq_refl). cbn [fst snd]. rewrite Nat2Z.id.
  set (r0 := r <| shardTable := [] |> <| routeMap := [] |>).
  destruct (fetch_row_runs (routeMap r) [] i infos 0 INT32_MIN 0 r0 w') as (r1 & H1 & Ht1 & Hc1 & Hm1); [done|done|by left|left; constructor|done|].
  destruct Hc as (Hmin & Hr & Hmax & _ & _ & Hc).
  destruct (fetch_rows_runs (routeMap r) infos (row_text i) 1 (si_rangeMax i) (si_rangeMax i + 1) r1 w') as (r2 & H2 & Ht2 & Hc2 & Hm2); try done; [lia| |].
  { rewrite Ht1. repeat constructor; simpl; lia. }
  exists r2. split; [|split; [|split; [rewrite Hc2, Hc1; reflexivity|]]].
  - assert (fetch_rows rehash (routeMap r) 5 (shard_text (i :: infos)) (length (i :: infos)) 0 INT32_MIN (r0, w') =
      Ret INT32_MAX (r2, w')) as Hrows.
    { change (length (i :: infos)) with (S (length infos)). cbn [fetch_rows]. change ([] ++ shard_text (i :: infos)) with (shard_text (i :: infos)) in H1.
      rewrite (bind_ret _ _ _ _ _ H1). change (row_text i ++ shard_text infos) with (shard_text (i :: infos)) in H2.
      change (0 + 1) with 1. rewrite H2. f_equal. rewrite <-Hlast. unfold last_max. rewrite last_cons. by destruct (list.last infos). }
    rewrite (bind_ret _ _ _ _ _ Hrows). rewrite (decide_False (P := INT32_MAX ≠ INT32_MAX)) by tauto. reflexivity.
  - rewrite Ht2, Ht1. reflexivity.
  - intros x. rewrite Hm2, Hm1, fmap_cons, elem_of_cons. cbn. rewrite elem_of_nil. tauto.
Qed.

(** ** The rows a server advertises *)
Definition info_row (i : ShardInfo) : FormData_cuckoo_shard_table := mkShard (si_rangeMax i) (si_serverId i).

Lemma renew_rows lo rows : (λ x, mkShard x.1.2 x.2) <$> renew_ranges lo rows = rows.
Proof. revert lo. induction rows as [|[b id] rows IH]; intros lo; [done|]. simpl. by rewrite IH. Qed.

Lemma renew_chained lo rows infos : in_order lo rows →
  (λ i, (si_rangeMin i, si_rangeMax i, si_serverId i)) <$> infos = renew_ranges lo rows →
  Forall (λ i, 0 ≤ si_port i < 2 ^ 31 - 10 ∧ 0 ≤ si_serverId i < 2 ^ 31) infos → chained lo infos.
Proof.
  revert lo rows. induction infos as [|i infos IH]; intros lo rows Ho Hm Hf; [done|].
  destruct rows as [|row rows]; [done|]. apply Forall_cons in Hf as [[Hp Hid] Hf].
  destruct (in_order_tail _ _ _ Ho) as [Ho' Heq]. simpl in Hm. rewrite Heq in Hm. injection Hm as H1 H2 H3 Hm.
  destruct Ho as (Hlo & _ & Hr). apply Forall_cons in Hr as [Hr _].
  simpl. rewrite H2 in *. repeat split; try lia. by eapply IH.
Qed.

Lemma filter_head_fmap {A B} (f : A → B) (P : B → Prop) `{!∀ x, Decision (P x)} (l : list A) :
  head (filter P (f <$> l)) = f <$> head (filter (λ x, P (f x)) l).
Proof.
  induction l as [|x l IH]; [done|]. rewrite fmap_cons, !filter_cons. by destruct (decide (P (f x))).
Qed.

Lemma shard_for_infos h infos : shard_for (info_row <$> infos) h = info_row <$> head (filter (λ i, h ≤ si_rangeMax i) infos).
Proof. apply (filter_head_fmap info_row). Qed.

Lemma lower_bound_infos h x infos : -1 < h →
  lower_bound h ((-1, x) :: (row_entry <$> infos)) = row_entry <$> head (filter (λ i, h ≤ si_rangeMax i) infos).
Proof.
  intros Hh. unfold lower_bound. rewrite filter_cons, decide_False by (simpl; lia). apply (filter_head_fmap row_entry).
Qed.

(** The last advertised range ends where the map does. *)
Lemma last_max_rows infos : shard_map_ok (info_row <$> infos) → last_max 0 infos = INT32_MAX.
Proof.
  intros (_ & _ & r & Hl & Hr). rewrite fmap_last in Hl. unfold last_max. destruct (last infos) as [i|]; [|done].
  simpl in *. injection Hl as <-. exact Hr.
Qed.

(** What one lookup in the fetched table returns. *)
Lemma lookup_routes infos parent rest name r w :
  shard_map_ok (info_row <$> infos) → shardTable r = (-1, mkServerId "" 0 (-1)) :: (row_entry <$> infos) →
  (∀ x, x ∈ routeMap r ↔ x ∈ server_of <$> infos) →
  last (components (String "/" rest)) = Some name → name ≠ ""%string →
  ∃ i, i ∈ infos ∧ covers (info_row <$> infos) (HashShard (CombineParentIdWithPartId parent (Shard.HashPartId name))) (info_row i) ∧
    GetWorkerConnByPath char_is_signed (String "/" rest) (r, w) = Ret (Some (server_of i)) (r, w).
Proof.
  intros Hok Ht Hm Hl Hne. pose proof (HashShard_range (CombineParentIdWithPartId parent (Shard.HashPartId name))) as Hh.
  destruct (search_covers (info_row <$> infos) _ Hok (proj2 Hh)) as (k & row & _ & _ & _ & Hcov).
  pose proof (shard_for_covers _ _ _ Hok Hcov) as Hfor. rewrite shard_for_infos in Hfor.
  destruct (head (filter _ infos)) as [i|] eqn:Hi; [|done]. injection Hfor as <-. exists i.
  assert (i ∈ infos) as Hin.
  { destruct (filter (λ i0, _ ≤ si_rangeMax i0) infos) as [|i' l] eqn:Hf; [done|]. injection Hi as ->.
    assert (i ∈ i :: l) as Hin by left. rewrite <-Hf in Hin. by apply list_elem_of_filter in Hin as [_ ?]. }
  split; [done|]. split; [done|]. unfold GetWorkerConnByPath.
  rewrite (bind_ret router _ (r, w) r _ eq_refl). rewrite (hashed_name_last _ _ Hl Hne), HashPartId_client.
  rewrite (HashInt8_HashShard parent) by apply HashPartId_range. rewrite Ht, lower_bound_infos by lia. rewrite Hi. simpl.
  rewrite decide_True; [done|]. apply Hm. by apply list_elem_of_fmap_2.
Qed.

(** (C7) A client that fetches its shard table from a coordinator whose map
    covers every hash value gets it without an error, and from then on sends
    every request for a path to the very server whose shard holds the path's last
    component, as the server's own lookup finds it, whatever the parent directory
    is: the number in the row, at the address of that foreign server, ten ports
    up. *)
Theorem client_routes_to_owner connectionInfo s infos s' coordinator r w w' :
  shard_inv s → shard_map_ok (shard_rows s) → Z.of_nat (length (shard_rows s)) ≤ SHARD_COUNT_MAX →
  (∀ row, row ∈ shard_rows s → 0 ≤ server_id row < 2 ^ 31 ∧
     ∃ host port, connectionInfo (server_id row) = Some (host, port) ∧ 0 ≤ port < 2 ^ 31 - 10) →
  cuckoo_renew_shard_table connectionInfo s = Ret infos s' →
  MetaCall coordinator table_request w = (table_reply infos, w') → (∀ server, channel_Init server w' = true) →
  ∃ r', FetchShardTable rehash coordinator (r, w) = Ret 0 (r', w') ∧
    ∀ rest name parent, last (components (String "/" rest)) = Some name → name ≠ ""%string →
      ∃ rangePoint serverId host port s'',
        SearchShardInfoByShardValue (CombineParentIdWithPartId parent (Shard.HashPartId name)) s = Ret (rangePoint, serverId) s'' ∧
        connectionInfo serverId = Some (host, port) ∧
        GetWorkerConnByPath char_is_signed (String "/" rest) (r', w') = Ret (Some (mkServerId host (port + 10) serverId)) (r', w').
Proof.
  intros Hinv Hok Hlen Hconn Hrenew Hcall Hch.
  destruct (renew_infos_spec connectionInfo (renew_ranges 0 (shard_rows s))) as (l & Hl & Hm & Hf).
  { intros x Hx. apply renew_ranges_server in Hx as (row & Hr & ->). destruct (Hconn _ Hr) as (_ & h & p & -> & _). eauto. }
  assert (infos = l) as ->.
  { unfold cuckoo_renew_shard_table in Hrenew. rewrite (bind_ret _ _ _ _ _ (wait_valid_spec s Hinv Hlen)) in Hrenew.
    mstep_in Hrenew. cbn [shard_cache set_field] in Hrenew. unfold SHARD_TABLE_RANGE_MIN in Hrenew. rewrite Hl in Hrenew. mstep_in Hrenew. by injection Hrenew. }
  assert (shard_rows s = info_row <$> l) as Hrows.
  { rewrite <-(renew_rows 0 (shard_rows s)), <-Hm, <-list_fmap_compose. done. }
  assert (Forall (λ i, 0 ≤ si_port i < 2 ^ 31 - 10 ∧ 0 ≤ si_serverId i < 2 ^ 31) l) as Hnum.
  { apply Forall_forall. intros i Hi. rewrite Forall_forall in Hf. specialize (Hf i Hi).
    destruct (Hconn (info_row i)) as (Hid & h & p & Hc & Hp); [rewrite Hrows; by apply list_elem_of_fmap_2|].
    simpl in *. split; [|done]. congruence. }
  pose proof (renew_chained 0 _ _ (map_ok_in_order _ Hok) Hm Hnum) as Hchain.
  rewrite Hrows in Hok. pose proof (last_max_rows _ Hok) as Hlast.
  destruct l as [|i l]; [by destruct Hok as (_ & _ & ? & ? & _)|].
  destruct (FetchShardTable_runs coordinator i l r w w' Hcall Hchain Hlast Hch) as (r' & Hfetch & Ht & _ & Hroute).
  exists r'. split; [done|]. intros rest name parent Hcomp Hne.
  destruct (lookup_routes (i :: l) parent rest name r' w' Hok Ht Hroute Hcomp Hne) as (j & Hj & Hcov & Hget).
  destruct (search_info_spec s (CombineParentIdWithPartId parent (Shard.HashPartId name)) Hinv) as (row & s'' & Hs & Hcov' & _); [by rewrite Hrows|done|].
  rewrite Hrows in Hcov'. pose proof (shard_for_covers _ _ _ Hok Hcov) as E1. pose proof (shard_for_covers _ _ _ Hok Hcov') as E2.
  assert (row = info_row j) as -> by congruence.
  exists (si_rangeMax j), (si_serverId j), (si_host j), (si_port j), s''. rewrite Forall_forall in Hf. split; [done|]. split; [by apply Hf|exact Hget].
Qed.
End fetch.
End agree.

(** ** Witness: the map of three shards on two workers *)
Module RouterWitness.
Import PgRef ShardWitness.

Lemma jenkins_agrees k : 0 ≤ k < 2 ^ 32 → hash_bytes_uint32 k = HashBytesUint32 k.
Proof. intros _. change (jenkins32 k = HashBytesUint32 k). cbv delta [jenkins32 HashBytesUint32 RotateLeft32 rot32]. reflexivity. Qed.

Definition addresses (id : Z) : option (string * Z) := Some ("10.0.0.1", 5432 + id).
Definition infos3 : list ShardInfo :=
  [mkShardInfo 0 715827882 "10.0.0.1" 5433 1; mkShardInfo 715827883 1431655764 "10.0.0.1" 5434 2;
   mkShardInfo 1431655765 2147483647 "10.0.0.1" 5433 1].

(** A coordinator that answers the one command with its table. *)
#[local] Instance coordinator_only : MetaService () := {
  brpc_ELOGOFF := 2002;
  MetaCall server rq w := (table_reply infos3, w);
  channel_Init server w := true }.
Definition cn : ServerIdentifier := mkServerId "10.0.0.9" 5442 0.

Lemma renew3 : ∃ s', cuckoo_renew_shard_table addresses state3 = Ret infos3 s'.
Proof. eexists. vm_compute. reflexivity. Qed.

Lemma rows3_addresses row : row ∈ rows3 →
  0 ≤ server_id row < 2 ^ 31 ∧ ∃ host port, addresses (server_id row) = Some (host, port) ∧ 0 ≤ port < 2 ^ 31 - 10.
Proof.
  intros Hr. assert (server_id row = 1 ∨ server_id row = 2) as Hid.
  { revert row Hr. apply Forall_forall. unfold rows3. repeat constructor; simpl; lia. }
  split; [lia|]. exists "10.0.0.1"%string, (5432 + server_id row). split; [done|lia].
Qed.

Lemma client_routes_to_owner_witness :
  ∃ r', FetchShardTable id cn (mkRouter cn [] [], ()) = Ret 0 (r', ()) ∧
    ∀ rest name parent, last (components (String "/" rest)) = Some name → name ≠ ""%string →
      ∃ rangePoint serverId host port s'',
        SearchShardInfoByShardValue (CombineParentIdWithPartId parent (Shard.HashPartId name)) state3 = Ret (rangePoint, serverId) s'' ∧
        addresses serverId = Some (host, port) ∧
        GetWorkerConnByPath char_is_signed (String "/" rest) (r', ()) = Ret (Some (mkServerId host (port + 10) serverId)) (r', ()).
Proof.
  destruct renew3 as [s' Hs'].
  apply (client_routes_to_owner jenkins_agrees id (λ l, reflexivity l) addresses state3 infos3 s' cn (mkRouter cn [] []) () ()).
  - intros H. discriminate H.
  - rewrite state3_rows. exact rows3_ok.
  - rewrite state3_rows. vm_compute. discriminate.
  - rewrite state3_rows. exact rows3_addresses.
  - exact Hs'.
  - reflexivity.
  - reflexivity.
Defined.

(** The same choice, computed: two directories on both sides of a boundary. *)
Example route_example :
  (λ r, match GetWorkerConnByPath true "/data/a" (r, ()) with Ret x _ => x | _ => None end) <$>
    match FetchShardTable id cn (mkRouter cn [] [], ()) with Ret _ (r, _) => Some r | _ => None end
  = Some (match SearchShardInfoByShardValue (CombineParentIdWithPartId 77 (Shard.HashPartId "a")) state3 with
          | Ret (_, id) _ => Some (mkServerId "10.0.0.1" (5442 + id) id) | _ => None end).
Proof. vm_compute. reflexivity. Qed.
End RouterWitness.
