(* ===== verification/Client.v ===== *)
(** * The client library (cuckoo_client/src/cuckoo_meta.cpp, inner_cuckoo_meta.cpp)

    Every operation asks a metadata server, chosen by the router, and then, for
    the contents of files, the store of this node.  The state is the store and
    the open files ([Server]), the open directories, the router and the metadata
    servers.  The library is built with ZK_INIT when [zk] is set: a request that
    finds its server dead is repeated after the router has looked for another
    one.  Sleeping is not modelled, and operations run one after the other. *)
From S2P Require Import Prelude Posix FileLock DiskCache IOClient WriteStream Node Store Server Connection Router.
Local Open Scope Z_scope.

Definition FILE_NUMBER_PER_EPOCH : Z := 1048576.
Definition FILE_NUMBER_PER_WORKER : Z := 4096.
Definition O_EXCL : Z := 128.
Definition EOPNOTSUPP : Z := 95.
Definition S_IFMT : Z := 61440.
Definition S_IFREG : Z := 32768.

(** A map from addresses to connections, in its order of iteration. *)
Local Abbreviation Workers := (list (string * ServerIdentifier)).

(** DirOpenInstance of buffer/dir_open_instance.h. *)
Record DirOpenInstance := mkDir {
  workers : Workers;
  partialEntryVec : list string;
  fileModes : list Z;
  readFileCount : gmap string Z;
  readFileCountIndex : gmap string Z;
  lastFileNames : gmap string string;
  lastShardIndexes : gmap string Z;
  allWorkerIPAndPorts : gset string;
  dir_offset : Z;
  workingWorkers : Workers }.
#[global] Instance eta_DirOpenInstance : Eta DirOpenInstance := λ d,
  mkDir (workers d) (partialEntryVec d) (fileModes d) (readFileCount d) (readFileCountIndex d) (lastFileNames d) (lastShardIndexes d)
    (allWorkerIPAndPorts d) (dir_offset d) (workingWorkers d).

Definition new_DirOpenInstance : DirOpenInstance := mkDir [] [] [] ∅ ∅ ∅ ∅ ∅ 0 [].

(** emplace: an entry that exists stays *)
Definition emplace {A} (k : string) (v : A) (m : gmap string A) : gmap string A :=
  match m !! k with Some _ => m | None => <[k := v]> m end.

Definition SetAllWorkerInfo (tmpWorkers : Workers) (d : DirOpenInstance) : DirOpenInstance :=
  foldl (λ d ipPort, d <| readFileCount ::= emplace ipPort 0 |> <| readFileCountIndex ::= emplace ipPort 0 |>
                       <| lastFileNames ::= emplace ipPort ""%string |> <| allWorkerIPAndPorts ::= (λ s, {[ipPort]} ∪ s) |>
                       <| lastShardIndexes ::= emplace ipPort (-1) |>)
    (d <| workers := tmpWorkers |> <| workingWorkers := tmpWorkers |>) tmpWorkers.*1.

Record Client (F R B T W : Type) := mkClient {
  c_server : Server F R B T;
  c_dirs : gmap Z DirOpenInstance;
  c_router : Router;
  c_meta : W }.
Arguments mkClient {F R B T W}.
Arguments c_server {F R B T W} c. Arguments c_dirs {F R B T W} c. Arguments c_router {F R B T W} c. Arguments c_meta {F R B T W} c.
#[global] Instance eta_Client F R B T W : Eta (Client F R B T W) := λ c, mkClient (c_server c) (c_dirs c) (c_router c) (c_meta c).

Section client.
Context {F R B T W : Type} `{!Posix F} `{!Statvfs F} `{!Storage B F} `{!ReadAhead T} `{!MetaService W} `{!Zookeeper W}.
Context (peers : string → Stub R) (cfg : Config).
Context (zk char_signed : bool) (clusterName : string).
(** The orders of iteration of unordered containers: of connections after an
    insertion, of the copy of a map of workers, of a set of open files. *)
Context (rehash : list ServerIdentifier → list ServerIdentifier) (order : Workers → Workers) (order_fds : list Z → list Z).
Local Abbreviation CM := (M (Client F R B T W)).
Local Abbreviation Open := (OpenInstance T).

(** ** The parts of the state *)
Definition routing {A} (m : M (Router * W) A) : CM A :=
  mzoom (λ c, (c_router c, c_meta c)) (λ p c, c <| c_router := p.1 |> <| c_meta := p.2 |>) m.
Definition ask {A} (m : M W A) : CM A := mzoom c_meta (λ w c, c <| c_meta := w |>) m.
Definition on_store {A} (m : M (Store F R B) A) : CM A := mzoom c_server (λ v c, c <| c_server := v |>) (store m).
Definition on_open_files {A} (f : CuckooFd T → A * CuckooFd T) : CM A := mzoom c_server (λ v c, c <| c_server := v |>) (on_fds f).
Definition instance_of (fd : Z) : CM (option Open) := c ← mget; mret (GetOpenInstanceByFd fd (v_fds (c_server c))).
Definition put_instance (fd : Z) (oi : Open) : CM () := on_open_files (λ f, ((), f <| openInstanceMap ::= <[fd := oi]> |>)).
Definition delete_instance (fd : Z) : CM () := on_open_files (λ f, ((), (DeleteOpenInstance fd true f).2)).
Definition memory : CM bool := on_store (fs posix_alloc).

(** ** Requests *)

(** The while loop of ZK_INIT with [n] attempts left, after a first answer. *)
Fixpoint retry {A} (n : nat) (update : ServerIdentifier → M (Router * W) ServerIdentifier)
    (request : ServerIdentifier → M W (Z * option A)) (conn : ServerIdentifier) (answer : Z * option A)
    : CM (Z * option A * ServerIdentifier) :=
  match n with
  | O => mret (answer, conn)
  | S n' =>
    if decide (zk = true ∧ answer.1 = code SERVER_FAULT) then
      conn ← routing (update conn);
      answer ← ask (request conn);
      retry n' update request conn answer
    else mret (answer, conn)
  end.

Definition send {A} update (request : ServerIdentifier → M W (Z * option A)) (conn : ServerIdentifier) : CM (Z * option A * ServerIdentifier) :=
  answer ← ask (request conn);
  retry RETRY_CNT update request conn answer.

(** A request to the server of a path. *)
Definition to_worker {A} (request : ServerIdentifier → M W (Z * option A)) (conn : ServerIdentifier) : CM (Z * option A * ServerIdentifier) :=
  send (TryToUpdateWorkerConn clusterName rehash) request conn.

(** A request to the coordinator. *)
Definition to_coordinator {A} (request : ServerIdentifier → M W (Z * option A)) : CM (Z * option A) :=
  conn ← routing GetCoordinatorConn;
  '(answer, _) ← send (TryToUpdateCNConn clusterName) request conn;
  mret answer.

Definition plain (request : ServerIdentifier → M W Z) (conn : ServerIdentifier) : M W (Z * option ()) :=
  ret ← request conn; mret (ret, None).

(** The operations that are one request to the server of their path. *)
Definition path_request {A} (path : string) (request : ServerIdentifier → M W (Z * option A)) : CM (Z * option A) :=
  conn ← routing (GetWorkerConnByPath char_signed path);
  match conn with
  | None => mret (code PROGRAM_ERROR, None)
  | Some conn => '(answer, _) ← to_worker request conn; mret answer
  end.

(** ** Start *)
Definition CuckooInit (storeStatus : Z) (coordinatorIp : string) (coordinatorPort : Z) : CM Z :=
  if decide (storeStatus ≠ code SUCCESS) then mret storeStatus
  else
    r ← ask (new_Router rehash (mkServerId coordinatorIp coordinatorPort 0));
    mmodify (λ c, c <| c_router := r |>) ;;
    mret 0.

(** ** Operations on names *)
Definition CuckooMkdir (path : string) : CM Z := '(ret, _) ← to_coordinator (plain (λ conn, Mkdir conn path)); mret ret.
Definition CuckooRmDir (path : string) : CM Z := '(ret, _) ← to_coordinator (plain (λ conn, Rmdir conn path)); mret ret.
Definition CuckooRename (srcName dstName : string) : CM Z :=
  '(ret, _) ← to_coordinator (plain (λ conn, Rename conn srcName dstName)); mret ret.

Definition CuckooGetStat (path : string) : CM (Z * option stat) := path_request path (λ conn, Stat conn path).
Definition CuckooUtimens (path : string) (accessTime modifyTime : Z) : CM Z :=
  '(ret, _) ← path_request path (plain (λ conn, UtimeNs conn path accessTime modifyTime)); mret ret.
Definition CuckooChown (path : string) (uid gid : Z) : CM Z :=
  '(ret, _) ← path_request path (plain (λ conn, Chown conn path uid gid)); mret ret.
Definition CuckooChmod (path : string) (mode : Z) : CM Z :=
  '(ret, _) ← path_request path (plain (λ conn, Chmod conn path mode)); mret ret.

(** The number of a node travels as 32 bits and is compared as an int. *)
Definition CuckooUnlink (path : string) : CM Z :=
  conn ← routing (GetWorkerConnByPath char_signed path);
  match conn with
  | None => mret (code PROGRAM_ERROR)
  | Some conn =>
    '(errorCode, res, _) ← to_worker (λ conn, Unlink conn path) conn;
    (if decide (errorCode = code SUCCESS) then
       let '(inodeId, _, nodeId) := default (0, 0, 0) res in
       on_store (DeleteFiles peers cfg inodeId nodeId path) ;; mret ()
     else mret ()) ;;
    mret errorCode
  end.

(** Data first, then the name; then the source or the copy is deleted. *)
Definition CuckooRenamePersist (srcName dstName : string) : CM Z :=
  '(ret, st) ← CuckooGetStat srcName;
  if decide (ret ≠ 0) then mret ret
  else if decide (Z.land (st_mode (default no_attributes st)) S_IFMT ≠ S_IFREG) then mret (- EOPNOTSUPP)
  else
    ret ← on_store (CopyData srcName dstName);
    if decide (ret ≠ 0) then mret ret
    else
      '(errorCode, _) ← to_coordinator (plain (λ conn, Rename conn srcName dstName));
      on_store (DeleteDataAfterRename (if decide (errorCode = code SUCCESS) then srcName else dstName)) ;;
      mret errorCode.

(** ** Open files *)

(** The result, the number of the open file and the attributes, where they are
    set.  Without an answer that has them, inode and node are read although
    nothing was stored there. *)
Definition CuckooCreate (path : string) (oflags : Z) : CM (Z * option Z * option stat) :=
  conn ← routing (GetWorkerConnByPath char_signed path);
  match conn with
  | None => mret (code PROGRAM_ERROR, None, None)
  | Some conn =>
    '(errorCode, res, _) ← to_worker (λ conn, Create conn path) conn;
    if decide (errorCode = code FILE_EXISTS ∧ Z.land oflags O_EXCL ≠ 0) then mret (code FILE_EXISTS, None, None)
    else
      match res with
      | None => mundefined
      | Some (inodeId, nodeId, st) =>
        got ← memory;
        c ← mget;
        match AttachFd inodeId oflags [] (u64 (st_size st)) path nodeId true got (v_fds (c_server c)) with
        | None => mdiverge
        | Some (fd, f) =>
          on_open_files (λ _, ((), f)) ;;
          if decide (fd = UINT64_MAX) then delete_instance fd ;; mret (code NOT_FOUND_FD, Some fd, Some st)
          else mret (errorCode, Some fd, Some st)
        end
      end
  end.

(** The buffer of a small file is filled when it is opened. *)
Definition read_when_opened (oi : Open) : CM (option Z * Open) :=
  if decide (originalSize oi > 0 ∧ originalSize oi < READ_BIGFILE_SIZE cfg ∧ Z.land (Store.oflags oi) O_ACCMODE = O_RDONLY) then
    got ← memory;
    if negb got then mret (Some (- ENOMEM), oi)
    else
      '(ret, oi) ← on_store (ReadSmallFiles peers cfg (oi <| readBuffer := [] |> <| readBufferSize := i32 (originalSize oi) |>));
      mret (if decide (ret < 0) then Some ret else None, oi)
  else mret (None, oi).

Definition CuckooOpen (path : string) (oflags : Z) : CM (Z * option Z * option stat) :=
  conn ← routing (GetWorkerConnByPath char_signed path);
  match conn with
  | None => mret (code PROGRAM_ERROR, None, None)
  | Some conn =>
    got ← memory;
    c ← mget;
    match WaitGetNewOpenInstance true got (v_fds (c_server c)) with
    | None => mdiverge
    | Some (None, f) => on_open_files (λ _, ((), f)) ;; mret (- ENOMEM, None, None)
    | Some (Some oi, f) =>
      on_open_files (λ _, ((), f)) ;;
      '(errorCode, res, _) ← to_worker (λ conn, Connection.Open conn path) conn;
      let '(inodeId, size, nodeId) := match res with Some (i, sz, n, _) => (i, sz, n) | None => (0, 0, 0) end in
      let st := match res with Some (_, _, _, st) => Some st | None => None end in
      let oi := oi <| Store.inodeId := inodeId |> <| originalSize := u64 size |> <| currentSize := u64 size |>
                   <| oi_nodeId := nodeId |> <| Store.path := path |> <| Store.oflags := oflags |> in
      if decide (errorCode = code SUCCESS) then
        '(failed, oi) ← read_when_opened oi;
        match failed with
        | Some ret => on_open_files (λ f, ((), ReleaseOpenInstance f)) ;; mret (ret, None, st)
        | None => fd ← on_open_files (AttachFd_instance oi); mret (errorCode, Some fd, st)
        end
      else mret (errorCode, None, st)
    end
  end.

Definition delete_unless (isFlush : bool) (fd : Z) : CM () := if isFlush then mret () else delete_instance fd.

(** The metadata are told only when the size or the node has changed. *)
Definition CuckooClose (path : string) (fd : Z) (isFlush : bool) (datasync : Z) : CM Z :=
  found ← instance_of fd;
  match found with
  | None => mret (code NOT_FOUND_FD)
  | Some oi =>
    let size := currentSize oi in
    '(innerRet, oi) ←
      (if isOpened oi then
         '(innerRet, oi) ← on_store (CloseTmpFiles peers cfg oi isFlush (bool_decide (datasync >= 0)));
         put_instance fd oi ;;
         mret (innerRet, oi)
       else mret (0, oi));
    if decide (innerRet ≠ 0) then delete_unless isFlush fd ;; mret innerRet
    else if decide (readFail oi = true ∨ writeFail oi = true ∨ datasync > 0 ∨ (nodeFail oi = false ∧ size = originalSize oi)) then
      delete_unless isFlush fd ;;
      mret (if readFail oi then - EIO else code SUCCESS)
    else
      conn ← routing (GetWorkerConnByPath char_signed path);
      match conn with
      | None => mret (code PROGRAM_ERROR)
      | Some conn =>
        '(errorCode, _, _) ← to_worker (plain (λ conn, Close conn path (i64 size) 0 (oi_nodeId oi))) conn;
        put_instance fd (oi <| originalSize := size |>) ;;
        delete_unless isFlush fd ;;
        mret errorCode
      end
  end.

Definition CuckooFsync (path : string) (fd datasync : Z) : CM Z := CuckooClose path fd true (if decide (datasync = 0) then 0 else 1).

Definition CuckooWrite (fd : Z) (buffer : list Z) (offset : Z) : CM Z :=
  found ← instance_of fd;
  match found with
  | None => mret (code NOT_FOUND_FD)
  | Some oi =>
    '(ret, oi) ← on_store (WriteFile peers cfg (count_write oi) (Some buffer) (Z.of_nat (length buffer)) offset);
    put_instance fd oi ;;
    mret ret
  end.

(** The result and the bytes. *)
Definition CuckooRead (fd size offset : Z) : CM (Z * list Z) :=
  found ← instance_of fd;
  match found with
  | None => mret (code NOT_FOUND_FD, [])
  | Some oi =>
    '(ret, bs, oi) ← on_store (ReadFile peers cfg oi size offset);
    put_instance fd (if decide (ret < 0) then oi <| readFail := true |> else oi) ;;
    mret (ret, bs)
  end.

Definition CuckooStatFS : CM (Z * StatFSBuf) := on_store (StatFS peers cfg).

(** The loop over the open files of an inode; one that is gone meanwhile would
    still be reached through its pointer, but nothing runs in between. *)
Fixpoint truncate_open (fds : list Z) (size : Z) : CM () :=
  match fds with
  | [] => mret ()
  | fd :: fds' =>
    found ← instance_of fd;
    (match found with
     | None => mundefined
     | Some oi => '(_, oi) ← on_store (TruncateOpenInstance peers cfg oi size); put_instance fd oi
     end) ;;
    truncate_open fds' size
  end.

Definition first_error (ret next : Z) : Z := if decide (next ≠ 0) then (if decide (ret = 0) then next else ret) else ret.

Definition CuckooTruncate (path : string) (size : Z) : CM Z :=
  '(ret, fd, _) ← CuckooOpen path O_WRONLY;
  let fd := default 0 fd in
  if decide (ret ≠ 0) then
    CuckooClose path fd true (-1) ;;
    CuckooClose path fd false (-1) ;;
    mret ret
  else
    found ← instance_of fd;
    match found with
    | None => mundefined
    | Some oi =>
      let size0 := originalSize oi in
      c ← mget;
      truncate_open (order_fds (elements (GetInodetoOpenInstanceSet (Store.inodeId oi) (v_fds (c_server c))))) size ;;
      found ← instance_of fd;
      match found with
      | None => mundefined
      | Some oi =>
        '(ret, oi) ← on_store (TruncateFile peers cfg (count_write oi <| originalSize := size0 |>) size);
        put_instance fd (if decide (ret ≠ 0) then oi <| writeFail := true |> else oi) ;;
        flushRet ← CuckooClose path fd true (-1);
        releaseRet ← CuckooClose path fd false (-1);
        mret (first_error (first_error ret flushRet) releaseRet)
      end
    end.
End client.
