(* ===== verification/ClientDir.v ===== *)
(** * Directories of the client library (cuckoo_client/src/cuckoo_meta.cpp,
      common/src/buffer/dir_open_instance.cpp)

    A listing is read from every worker in rounds ("epochs"); each worker answers
    with the next names after the last one it gave.  The names of a round are
    handed to FUSE until its buffer is full, and over several calls. *)
From S2P Require Import Prelude Posix FileLock DiskCache IOClient WriteStream Node Store Server Connection Router Client.
Local Open Scope Z_scope.

Section dirs.
Context {F R B T W : Type} `{!Posix F} `{!Statvfs F} `{!Storage B F} `{!ReadAhead T} `{!MetaService W} `{!Zookeeper W}.
Context (zk : bool) (clusterName : string).
Context (rehash : list ServerIdentifier → list ServerIdentifier) (order : list (string * ServerIdentifier) → list (string * ServerIdentifier)).
(** FUSE's buffer, and the function that puts a name with its mode and offset
    there and says whether it is full. *)
Context {Buf : Type} (filler : Buf → string → option Z → Z → bool * Buf).
Local Abbreviation CM := (M (Client F R B T W)).

(** ** Open directories *)
Definition AddDirOpenInstance (fd : Z) (d : DirOpenInstance) : CM Z :=
  c ← mget;
  match c_dirs c !! fd with
  | Some _ => mret (- EBADF)
  | None => mput (c <| c_dirs ::= <[fd := d]> |>) ;; mret 0
  end.

Definition AttachDirFd : CM Z :=
  fd ← on_open_files ObtainFd;
  got ← memory;
  if negb got then mret UINT64_MAX
  else AddDirOpenInstance fd new_DirOpenInstance ;; mret fd.

Definition GetDirOpenInstanceByFd (fd : Z) : CM (option DirOpenInstance) := c ← mget; mret (c_dirs c !! fd).

Definition DeleteDirOpenInstance (fd : Z) : CM Z :=
  c ← mget;
  match c_dirs c !! fd with
  | None => mret (- EBADF)
  | Some _ => mput (c <| c_dirs ::= delete fd |>) ;; mret 0
  end.

Definition CuckooOpenDir (path : string) : CM (Z * option Z) :=
  '(errorCode, _) ← to_coordinator zk clusterName (λ conn, OpenDir conn path);
  if decide (errorCode = 0) then fd ← AttachDirFd; mret (errorCode, Some fd) else mret (errorCode, None).

Definition CuckooCloseDir (fd : Z) : CM Z :=
  found ← GetDirOpenInstanceByFd fd;
  match found with
  | None => mret (code NOT_FOUND_FD)
  | Some _ => DeleteDirOpenInstance fd
  end.

(** ** Reading *)

(** A name that is empty is sent as none. *)
Definition name_sent (d : DirOpenInstance) (ipPort : string) : option string :=
  let n := default ""%string (lastFileNames d !! ipPort) in if decide (n = ""%string) then None else Some n.

(** What a worker's answer changes; without one a null pointer is dereferenced. *)
Definition take_answer (n : Z) (ipPort : string) (conn : ServerIdentifier) (ret : Z)
    (res : Z * option string * list (string * Z)) (d : DirOpenInstance) : DirOpenInstance :=
  let '(last_shard_index, last_file_name, result_list) := res in
  let d := d <| lastShardIndexes ::= <[ipPort := last_shard_index]> |>
             <| lastFileNames ::= <[ipPort := default ""%string last_file_name]> |>
             <| partialEntryVec ::= (.++ result_list.*1) |> <| fileModes ::= (.++ (result_list.*2)) |> in
  if decide (Z.of_nat (length result_list) < n ∧ ret = code SUCCESS) then d <| lastFileNames ::= delete ipPort |>
  else d <| workingWorkers ::= (λ l, if decide (ipPort ∈ l.*1) then l else l ++ [(ipPort, conn)]) |>.

(** The loop over the workers of a round. *)
Fixpoint read_workers (path : string) (n : Z) (l : list (string * ServerIdentifier)) (ret : Z) (d : DirOpenInstance) : CM (Z * DirOpenInstance) :=
  match l with
  | [] => mret (ret, d)
  | (ipPort, conn) :: l' =>
    '(ret, res, conn) ← to_worker zk clusterName rehash
       (λ conn, ReadDir conn path n (default 0 (lastShardIndexes d !! ipPort)) (name_sent d ipPort)) conn;
    match res with
    | None => mundefined
    | Some res => read_workers path n l' ret (take_answer n ipPort conn ret res d)
    end
  end.

(** A round, when the names of the last one have been handed over. *)
Definition next_epoch (path : string) (ret : Z) (d : DirOpenInstance) : CM (Z * DirOpenInstance) :=
  let workerNotFinished := Z.of_nat (length (workingWorkers d)) in
  if decide (dir_offset d >= Z.of_nat (length (partialEntryVec d)) ∧ workerNotFinished ≠ 0) then
    let fileNumberPerWorker := Z.min (FILE_NUMBER_PER_EPOCH `quot` workerNotFinished) FILE_NUMBER_PER_WORKER in
    let d := d <| workers := order (workingWorkers d) |> <| workingWorkers := [] |> <| partialEntryVec := [] |> <| dir_offset := 0 |> in
    read_workers path fileNumberPerWorker (workers d) ret d
  else mret (ret, d).

(** The loop over the names from [i] on: [Some] and where it stopped, when the
    buffer is full.  [fileModes] is indexed without a check. *)
Fixpoint fill (modes : list Z) (i : nat) (names : list string) (idx : Z) (buf : Buf) : option (option nat * Buf) :=
  match names with
  | [] => Some (None, buf)
  | name :: names' =>
    match modes !! i with
    | None => None
    | Some mode =>
      let '(full, buf) := filler buf name (Some mode) idx in
      if (full : bool) then Some (Some i, buf) else fill modes (S i) names' (idx + 1) buf
    end
  end.

Definition hand_over (d : DirOpenInstance) (idx ret : Z) (buf : Buf) : option (Z * DirOpenInstance * Buf) :=
  let start := Z.to_nat (dir_offset d) in
  match fill (fileModes d) start (drop start (partialEntryVec d)) idx buf with
  | None => None
  | Some (Some i, buf) => Some (0, d <| dir_offset := Z.of_nat i |>, buf)
  | Some (None, buf) => Some (ret, d <| dir_offset := u32 (Z.of_nat (length (partialEntryVec d))) |>, buf)
  end.

(** The result and the buffer. *)
Definition CuckooReadDir (path : string) (buf : Buf) (offset fd : Z) : CM (Z * Buf) :=
  found ← GetDirOpenInstanceByFd fd;
  match found with
  | None => mret (code NOT_FOUND_FD, buf)
  | Some d =>
    '(d, idx, buf) ←
      (if decide (offset = 0) then
         workerInfo ← routing GetAllWorkerConnection;
         let buf := (filler buf "." None 1).2 in
         let buf := (filler buf ".." None 2).2 in
         mret (SetAllWorkerInfo workerInfo d, 3, buf)
       else mret (d, i32 offset, buf));
    '(ret, d) ← next_epoch path (code SUCCESS) d;
    match hand_over d idx ret buf with
    | None => mundefined
    | Some (ret, d, buf) =>
      mmodify (λ c, c <| c_dirs ::= <[fd := d]> |>) ;;
      mret (ret, buf)
    end
  end.
End dirs.
