(* ===== verification/Fuse.v ===== *)
(** * The FUSE operations (cuckoo_client/fuse_main.cpp)

    Each operation checks its arguments, calls the library and turns a positive
    error code into a negative errno.  The counters and timers of CuckooStats are
    left out.  A path is [None] for a null pointer, and [fi] is the open file's
    number and flags. *)
From S2P Require Import Prelude Posix FileLock DiskCache IOClient WriteStream Node Store Server Connection Router Client ClientDir.
Local Open Scope Z_scope.

Definition O_CREAT : Z := 64.
Definition UTIME_NOW : Z := 2 ^ 30 - 1.
Definition S_directory : Z := 16895. (* 040777 *)

(** ret > 0 ? -ErrorCodeToErrno(ret) : ret *)
Definition to_errno (ret : Z) : Z := if decide (ret > 0) then - ErrorCodeToErrno ret else ret.

(** What follows the last slash. *)
Fixpoint after_slash (s : string) : option string :=
  match s with
  | EmptyString => None
  | String c s' => match after_slash s' with Some r => Some r | None => if decide (c = "/"%char) then Some s' else None end
  end.

(** The path without [n] characters after its last slash, when they are there. *)
Definition strip (path : string) (name rest : string) : string :=
  (String.substring 0 (String.length path - String.length name) path +:+ rest)%string.

Section fuse.
Context {F R B T W : Type} `{!Posix F} `{!Statvfs F} `{!Storage B F} `{!ReadAhead T} `{!MetaService W} `{!Zookeeper W}.
Context (peers : string → Stub R) (cfg : Config) (zk char_signed : bool) (clusterName : string).
Context (rehash : list ServerIdentifier → list ServerIdentifier) (order : list (string * ServerIdentifier) → list (string * ServerIdentifier)).
Context (order_fds : list Z → list Z) {Buf : Type} (filler : Buf → string → option Z → Z → bool * Buf).
(** CUCKOO_PERSIST of the configuration *)
Context (g_persist : bool).
Local Abbreviation CM := (M (Client F R B T W)).

(** path == nullptr || strlen(path) == 0 *)
Definition with_path {A} (bad : Z → A) (path : option string) (f : string → CM A) : CM A :=
  match path with
  | None | Some EmptyString => mret (bad (- EINVAL))
  | Some p => f p
  end.
Definition errno_of (m : CM Z) : CM Z := ret ← m; mret (to_errno ret).

(** The attributes come zeroed.  A last component that starts with the byte 1 and a flag is a lookup by the
    kernel: for the flag '1' the answer is a directory without asking anyone. *)
Definition DoGetAttr (path : option string) : CM (Z * option stat) :=
  with_path (λ e, (e, None)) path (λ p,
    match after_slash p with
    | Some (String c name as full) =>
      if decide (c = ascii_of_nat 1) then
        match name with
        | EmptyString => mundefined
        | String flag rest =>
          if decide (flag = "1"%char) then mret (0, Some (mkStat 0 0 S_directory 0 0 0 0 0 0 0 (0, 0) (0, 0) (0, 0)))
          else '(ret, st) ← CuckooGetStat zk char_signed clusterName rehash (strip p full rest); mret (to_errno ret, st)
        end
      else '(ret, st) ← CuckooGetStat zk char_signed clusterName rehash p; mret (to_errno ret, st)
    | _ => '(ret, st) ← CuckooGetStat zk char_signed clusterName rehash p; mret (to_errno ret, st)
    end).

Definition DoMkDir (path : option string) : CM Z := with_path id path (λ p, errno_of (CuckooMkdir zk clusterName p)).

(** The result and fi->fh. *)
Definition DoOpen (path : option string) (flags : Z) : CM (Z * option Z) :=
  with_path (λ e, (e, None)) path (λ p,
    '(ret, fd, _) ← CuckooOpen peers cfg zk char_signed clusterName rehash p flags;
    mret (to_errno ret, Some (default UINT64_MAX fd))).

Definition DoOpenAtomic (path : option string) (flags : Z) : CM (Z * option Z * option stat) :=
  with_path (λ e, (e, None, None)) path (λ p,
    '(ret, fd, st) ←
      (if decide (Z.land flags O_CREAT ≠ 0) then
         '(ret, fd, st) ← CuckooCreate zk char_signed clusterName rehash p flags;
         mret (if decide (ret = code FILE_EXISTS ∧ Z.land flags O_EXCL = 0) then code SUCCESS else ret, fd, st)
       else CuckooOpen peers cfg zk char_signed clusterName rehash p flags);
    mret (to_errno ret, Some (default UINT64_MAX fd), st)).

Definition DoOpenDir (path : option string) : CM (Z * option Z) :=
  with_path (λ e, (e, None)) path (λ p, '(ret, fd) ← CuckooOpenDir zk clusterName p; mret (to_errno ret, fd)).

Definition DoReadDir (path : option string) (buf : option Buf) (offset fh : Z) : CM (Z * option Buf) :=
  match buf with
  | None => mret (- EINVAL, None)
  | Some buf =>
    with_path (λ e, (e, Some buf)) path (λ p,
      '(ret, buf) ← CuckooReadDir zk clusterName rehash order filler p buf offset fh; mret (to_errno ret, Some buf))
  end.

Definition DoCreate (path : option string) (flags : Z) : CM (Z * option Z) :=
  with_path (λ e, (e, None)) path (λ p,
    '(ret, fd, _) ← CuckooCreate zk char_signed clusterName rehash p flags;
    mret (to_errno ret, Some (default 0 fd))).

Definition DoAccess (path : option string) : CM Z := with_path id path (λ _, mret 0).
Definition DoRelease (path : option string) (fh : Z) : CM Z :=
  with_path id path (λ p, errno_of (CuckooClose peers cfg zk char_signed clusterName rehash p fh false (-1))).
Definition DoReleaseDir (path : option string) (fh : Z) : CM Z := with_path id path (λ _, errno_of (CuckooCloseDir fh)).
Definition DoUnlink (path : option string) : CM Z :=
  with_path id path (λ p, errno_of (CuckooUnlink peers cfg zk char_signed clusterName rehash p)).
Definition DoRmDir (path : option string) : CM Z := with_path id path (λ p, errno_of (CuckooRmDir zk clusterName p)).

(** The result is kept in an unsigned int and returned as an int; a code of the
    library is not turned into an errno. *)
Definition DoWrite (path : option string) (buffer : option (list Z)) (offset fh : Z) : CM Z :=
  match buffer with
  | None => mret (- EINVAL)
  | Some buffer =>
    with_path id path (λ _,
      ret ← CuckooWrite peers cfg fh buffer offset;
      mret (if decide (u32 ret ≠ 0) then i32 (u32 ret) else i32 (Z.of_nat (length buffer))))
  end.

Definition DoRead (path : option string) (size offset fh : Z) : CM (Z * list Z) :=
  with_path (λ e, (e, [])) path (λ _, CuckooRead peers cfg fh size offset).

Definition DoSetXAttr (path : option string) (value : option string) : CM Z :=
  match value with None => mret (- EINVAL) | Some _ => with_path id path (λ _, mret 0) end.
Definition DoTruncate (path : option string) (size : Z) : CM Z :=
  with_path id path (λ p, errno_of (CuckooTruncate peers cfg zk char_signed clusterName rehash order_fds p size)).
Definition DoFtruncate (path : option string) (size : Z) : CM Z :=
  with_path id path (λ p, errno_of (CuckooTruncate peers cfg zk char_signed clusterName rehash order_fds p size)).
Definition DoFlush (path : option string) (fh : Z) : CM Z :=
  with_path id path (λ p, errno_of (CuckooClose peers cfg zk char_signed clusterName rehash p fh true (-1))).

Definition DoRename (srcPath dstPath : option string) : CM Z :=
  with_path id srcPath (λ src, with_path id dstPath (λ dst,
    errno_of (if g_persist then CuckooRenamePersist zk char_signed clusterName rehash src dst
              else CuckooRename zk clusterName src dst))).

Definition DoFsync (path : option string) (datasync fh : Z) : CM Z :=
  with_path id path (λ p, errno_of (CuckooFsync peers cfg zk char_signed clusterName rehash p fh datasync)).
Definition DoStatfs (path : option string) : CM (Z * option StatFSBuf) :=
  with_path (λ e, (e, None)) path (λ _, '(ret, buf) ← CuckooStatFS peers cfg; mret (to_errno ret, Some buf)).

(** [tv]: seconds and nanoseconds of access and of modification. *)
Definition DoUtimens (path : option string) (tv : option ((Z * Z) * (Z * Z))) : CM Z :=
  with_path id path (λ p, errno_of (
    match tv with
    | Some ((sec0, nsec0), (sec1, _)) =>
      if decide (nsec0 = UTIME_NOW) then CuckooUtimens zk char_signed clusterName rehash p (-1) (-1)
      else CuckooUtimens zk char_signed clusterName rehash p sec0 sec1
    | None => CuckooUtimens zk char_signed clusterName rehash p (-1) (-1)
    end)).
Definition DoChmod (path : option string) (mode : Z) : CM Z :=
  with_path id path (λ p, errno_of (CuckooChmod zk char_signed clusterName rehash p mode)).
Definition DoChown (path : option string) (uid gid : Z) : CM Z :=
  with_path id path (λ p, errno_of (CuckooChown zk char_signed clusterName rehash p uid gid)).
End fuse.
