(* ===== verification/ClientDirSpec.v ===== *)
(** * A directory as FUSE sees it

    Every worker answers for its part of a directory page by page, as
    CuckooReadDirHandle does ([page_answer] of ReadDir); the client's rounds over
    the workers and the calls FUSE makes, each with a buffer of its own, hand
    over every name of every worker once. *)
From S2P Require Import Prelude Pg Shard DirHash Inode FileOps ReadDir Posix FileLock DiskCache IOClient WriteStream Node Store Server Connection Router Client ClientDir Fuse.
Local Open Scope Z_scope.

(** ** FUSE *)

(** A buffer for [cap] entries. *)
Definition fill_dir (cap : nat) (buf : list (string * option Z * Z)) (name : string) (mode : option Z) (off : Z)
    : bool * list (string * option Z * Z) :=
  if decide (length buf < cap)%nat then (false, buf ++ [(name, mode, off)]) else (true, buf).
Definition entry_names (buf : list (string * option Z * Z)) : list string := (λ e, e.1.1) <$> buf.
Definition next_offset (buf : list (string * option Z * Z)) : Z := from_option snd 0 (last buf).

(** The entries the loop of [fill] hands over. *)
Fixpoint numbered (modes : list Z) (i : nat) (names : list string) (idx : Z) : list (string * option Z * Z) :=
  match names with
  | [] => []
  | name :: names' => (name, modes !! i, idx) :: numbered modes (S i) names' (idx + 1)
  end.

Lemma numbered_names modes i names idx : entry_names (numbered modes i names idx) = names.
Proof. revert i idx. induction names as [|n names IH]; intros; [done|]. unfold entry_names in *. simpl. by rewrite IH. Qed.

Lemma numbered_last modes i names idx : names ≠ [] → next_offset (numbered modes i names idx) = idx + Z.of_nat (length names) - 1.
Proof.
  unfold next_offset. revert i idx. induction names as [|n names IH]; intros i idx H; [done|]. destruct names as [|n' names]; [simpl; lia|].
  cbn [numbered]. rewrite last_cons_cons. specialize (IH (S i) (idx + 1)). cbn [numbered] in IH. rewrite IH by done. simpl. lia.
Qed.

(** The buffer takes what it has room for. *)
Lemma fill_names_spec cap modes : ∀ names i idx buf, (length buf ≤ cap)%nat → (i + length names ≤ length modes)%nat →
  let m := (cap - length buf)%nat in
  fill (fill_dir cap) modes i names idx buf =
  Some (if decide (m < length names)%nat then Some (i + m)%nat else None, buf ++ numbered modes i (take m names) idx).
Proof.
  induction names as [|name names IH]; intros i idx buf Hb Hm m; subst m; cbn [fill].
  { rewrite decide_False by (simpl; lia). by rewrite take_nil, app_nil_r. }
  destruct (lookup_lt_is_Some_2 modes i) as [mode Hmode]; [simpl in Hm; lia|]. rewrite Hmode. unfold fill_dir at 1.
  destruct (decide (length buf < cap)%nat) as [Hlt|Hlt].
  - rewrite IH by (rewrite ?length_app; simpl in *; lia). rewrite length_app. cbn [length].
    replace (cap - length buf)%nat with (S (cap - (length buf + 1))) by lia. cbn [take numbered]. rewrite Hmode, <-app_assoc.
    f_equal. f_equal. destruct (decide _), (decide _); try lia; [f_equal; lia|done].
  - replace (cap - length buf)%nat with 0%nat by lia. rewrite decide_True by (simpl; lia). by rewrite Nat.add_0_r, app_nil_r.
Qed.

(** ** Workers *)
Definition reply_of (x : MetaProcessInfoData) : meta_reply :=
  MetaResponse (errorCode x) (ReadDirResponse (readDirLastShardIndex x) (readDirLastFileName x)
    ((λ r, (rd_fileName r, rd_mode r)) <$> readDirResultList x)).

Definition listing_names (l : list (Z * FormData_dfs_inode_table)) : list string := it_name <$> l.*2.

Section listing.
Context {F R B T W : Type} `{!Posix F} `{!Statvfs F} `{!Storage B F} `{!ReadAhead T} `{!MetaService W} `{!Zookeeper W}.
Context (zk : bool) (clusterName : string) (rehash : list ServerIdentifier → list ServerIdentifier).
Context (order : list (string * ServerIdentifier) → list (string * ServerIdentifier)) (order_perm : ∀ l, order l ≡ₚ l).
Local Abbreviation CM := (M (Client F R B T W)).
Context (p : string) (w : W).
(** The part of the directory every worker has. *)
Context (part : ServerIdentifier → list (Z * FormData_dfs_inode_table)).

(** A worker answers a request for [k] entries at position [n] as the server's
    handler does. *)
Definition serves (conn : ServerIdentifier) : Prop :=
  ∀ x n k, at_position (part conn) n x → (n ≤ length (part conn))%nat → 0 < k →
    ∃ x', page_answer (part conn) n (Z.to_nat k) x' ∧
      MetaCall conn (make_request READDIR (ReadDirParam p k (readDirLastShardIndex x) (readDirLastFileName x))) w = (reply_of x', w).
Definition named (conn : ServerIdentifier) : Prop := Forall (λ n, n ≠ ""%string) (listing_names (part conn)).

(** A worker that has given [n] names, and what it has left. *)
Local Abbreviation progress := (string * ServerIdentifier * nat)%type.
Definition cursor_at (d : DirOpenInstance) (x : progress) : Prop :=
  let '(ip, conn, n) := x in
  (n ≤ length (part conn))%nat ∧
  match n with
  | O => lastShardIndexes d !! ip = Some (-1)
  | S n' => ∃ j e, part conn !! n' = Some (j, e) ∧ lastShardIndexes d !! ip = Some j ∧ lastFileNames d !! ip = Some (it_name e)
  end.
Definition left_of (l : list progress) : list string := l ≫= λ '(_, conn, n), listing_names (drop n (part conn)).

Lemma cursor_request d ip conn n : named conn → cursor_at d (ip, conn, n) →
  ∃ x, at_position (part conn) n x ∧ readDirLastShardIndex x = default 0 (lastShardIndexes d !! ip) ∧ readDirLastFileName x = name_sent d ip.
Proof.
  intros Hn [Hl H]. set (x0 := λ j m, mkInfo "" 0 0 0 0 None 0 0 0 0 0 0 0 0 0 0 0 0 "" 0 j m [] "" 0 0 None false 0 SUCCESS).
  exists (x0 (default 0 (lastShardIndexes d !! ip)) (name_sent d ip)). split; [|by split]. destruct n as [|n].
  - simpl. by rewrite H.
  - destruct H as (j & e & He & Hj & Hname). exists j, e. simpl. rewrite Hj. split; [done|]. split; [done|]. unfold name_sent. rewrite Hname. simpl.
    rewrite decide_False; [done|]. unfold named in Hn. rewrite Forall_forall in Hn. apply Hn. unfold listing_names. rewrite <-list_fmap_compose.
    apply list_elem_of_fmap. exists (j, e). split; [done|]. by eapply list_elem_of_lookup_2.
Qed.

Lemma to_worker_answers {A} (request : ServerIdentifier → M W (Z * option A)) conn res (c : Client F R B T W) :
  request conn (c_meta c) = Ret (code SUCCESS, res) (c_meta c) →
  to_worker zk clusterName rehash request conn c = Ret (code SUCCESS, res, conn) c.
Proof.
  intros H. unfold to_worker, send. assert (ask (request conn) c = Ret (code SUCCESS, res) c) as Ha.
  { unfold ask, mzoom. rewrite H. by destruct c. }
  rewrite (bind_ret _ _ _ _ _ Ha). unfold RETRY_CNT. cbn [retry]. rewrite decide_False by (intros [_ ?]; done). done.
Qed.

(** One worker: a page, and where it stands afterwards. *)
Definition page_of (k : Z) (x : progress) : list string :=
  let '(_, conn, n) := x in listing_names (take (Z.to_nat k) (drop n (part conn))).
Definition still_working (k : Z) (x : progress) : list progress :=
  let '(ip, conn, n) := x in if decide (n + Z.to_nat k ≤ length (part conn))%nat then [(ip, conn, n + Z.to_nat k)%nat] else [].

Lemma page_and_rest k x : page_of k x ++ left_of (still_working k x) = left_of [x].
Proof.
  destruct x as [[ip conn] n]. unfold page_of, still_working, left_of. simpl. rewrite app_nil_r. destruct (decide _) as [Hle|Hle]; simpl.
  - rewrite app_nil_r, <-drop_drop. unfold listing_names. rewrite <-!fmap_app, take_drop. done.
  - rewrite app_nil_r, take_ge by (rewrite length_drop; lia). done.
Qed.

Lemma page_nonempty k x : 0 < k → page_of k x = [] → still_working k x = [].
Proof.
  destruct x as [[ip conn] n]. unfold page_of, still_working. intros Hk Hp. rewrite decide_False; [done|]. intros Hle.
  apply (f_equal length) in Hp. unfold listing_names in Hp. rewrite !length_fmap, length_take, length_drop in Hp. simpl in Hp. lia.
Qed.

(** What a round leaves alone. *)
Record same_dir (d d' : DirOpenInstance) : Prop := {
  sd_offset : dir_offset d' = dir_offset d;
  sd_modes : Z.of_nat (length (fileModes d')) - Z.of_nat (length (partialEntryVec d')) =
             Z.of_nat (length (fileModes d)) - Z.of_nat (length (partialEntryVec d)) }.

Lemma take_answer_spec k x conn d x' : 0 < k → let '(ip, _, n) := x in x.1.2 = conn → ip ∉ (workingWorkers d).*1 →
  (n ≤ length (part conn))%nat → page_answer (part conn) n (Z.to_nat k) x' →
  let d' := take_answer k ip conn (code SUCCESS) (readDirLastShardIndex x', readDirLastFileName x',
              (λ r, (rd_fileName r, rd_mode r)) <$> readDirResultList x') d in
  partialEntryVec d' = partialEntryVec d ++ page_of k x ∧ workingWorkers d' = workingWorkers d ++ (still_working k x).*1 ∧
  Forall (cursor_at d') (still_working k x) ∧ same_dir d d' ∧
  (∀ ip', ip' ≠ ip → lastShardIndexes d' !! ip' = lastShardIndexes d !! ip' ∧ lastFileNames d' !! ip' = lastFileNames d !! ip').
Proof.
  intros Hk. destruct x as [[ip c0] n]. simpl. intros -> Hip Hn (_ & Hres & Hnext). unfold take_answer.
  assert (((λ r, (rd_fileName r, rd_mode r)) <$> readDirResultList x').*1 = page_of k (ip, conn, n)) as Hnames.
  { rewrite Hres. unfold page_of, page, listing_names. rewrite <-!list_fmap_compose. done. }
  assert (length ((λ r, (rd_fileName r, rd_mode r)) <$> readDirResultList x') = Nat.min (Z.to_nat k) (length (part conn) - n)) as Hlen.
  { rewrite Hres. unfold page. by rewrite !length_fmap, length_take, length_drop. }
  rewrite Hlen. unfold page_of in Hnames. unfold still_working. destruct (decide (n + Z.to_nat k ≤ length (part conn))%nat) as [Hle|Hle].
  - rewrite decide_False by lia. cbn [partialEntryVec workingWorkers set_field]. rewrite Hnames. split; [done|].
    rewrite decide_False by done. split; [done|]. split; [|split].
    + constructor; [|constructor]. cbn [cursor_at]. split; [done|]. destruct (n + Z.to_nat k)%nat as [|m] eqn:Hm; [lia|].
      destruct Hnext as (j & e & He & Hj & Hname). exists j, e. split; [done|]. cbn. rewrite Hj, Hname. split; apply lookup_insert_eq.
    + split; cbn; [done|]. rewrite !length_app, <-Hnames, !length_fmap. lia.
    + intros ip' Hne. cbn. rewrite !lookup_insert_ne by done. done.
  - rewrite decide_True by (split; [lia|done]). cbn [partialEntryVec workingWorkers set_field]. rewrite Hnames. split; [done|]. rewrite app_nil_r.
    split; [done|]. split; [constructor|]. split.
    + split; cbn; [done|]. rewrite !length_app, <-Hnames, !length_fmap. lia.
    + intros ip' Hne. cbn. rewrite lookup_delete_ne, !lookup_insert_ne by done. done.
Qed.

Lemma cursor_same d d' x : lastShardIndexes d' !! x.1.1 = lastShardIndexes d !! x.1.1 → lastFileNames d' !! x.1.1 = lastFileNames d !! x.1.1 →
  cursor_at d x → cursor_at d' x.
Proof. destruct x as [[ip conn] n]. simpl. intros -> ->. done. Qed.

Lemma cursors_same d d' l : (∀ ip, ip ∈ l.*1.*1 → lastShardIndexes d' !! ip = lastShardIndexes d !! ip ∧ lastFileNames d' !! ip = lastFileNames d !! ip) →
  Forall (cursor_at d) l → Forall (cursor_at d') l.
Proof.
  intros H Hl. rewrite Forall_forall in *. intros x Hx. destruct (H x.1.1) as [H1 H2]; [by do 2 apply list_elem_of_fmap_2|].
  eapply cursor_same; [exact H1|exact H2|by apply Hl].
Qed.

Lemma still_working_ip k x y : y ∈ still_working k x → y.1 = x.1.
Proof.
  destruct x as [[ip conn] n]. unfold still_working. destruct (decide _); [|by intros ?%not_elem_of_nil]. by intros ->%list_elem_of_singleton.
Qed.

Lemma still_working_sub k l : (l ≫= still_working k).*1 `sublist_of` l.*1.
Proof.
  induction l as [|x l IH]; [done|]. cbn [mbind list_bind]. rewrite fmap_app. change ((x :: l).*1) with ([x.1] ++ l.*1).
  apply sublist_app; [|done]. destruct x as [[ip conn] n]. unfold still_working. destruct (decide _); simpl; [done|apply sublist_nil_l].
Qed.

Lemma round_complete k l : (l ≫= page_of k) ++ left_of (l ≫= still_working k) ≡ₚ left_of l.
Proof.
  induction l as [|x l IH]; [done|]. cbn [mbind list_bind]. assert (∀ a b, left_of (a ++ b) = left_of a ++ left_of b) as Happ by apply bind_app.
  rewrite Happ. change (left_of (x :: l)) with (left_of ([x] ++ l)). rewrite Happ, <-(page_and_rest k x), <-IH.
  rewrite <-!app_assoc. apply Permutation_app_head. rewrite !app_assoc. apply Permutation_app_tail, Permutation_app_comm.
Qed.

Lemma round_nonempty k l : 0 < k → l ≫= page_of k = [] → l ≫= still_working k = [].
Proof.
  intros Hk. induction l as [|x l IH]; [done|]. cbn [mbind list_bind]. intros [H1 H2]%app_eq_nil. by rewrite (page_nonempty k x), (IH H2).
Qed.

Lemma read_workers_spec k todo : 0 < k → ∀ d (c : Client F R B T W), c_meta c = w → NoDup ((workingWorkers d).*1 ++ todo.*1.*1) →
  Forall (cursor_at d) todo → Forall (λ x, serves x.1.2 ∧ named x.1.2) todo →
  ∃ d', read_workers zk clusterName rehash p k todo.*1 (code SUCCESS) d c = Ret (code SUCCESS, d') c ∧
    partialEntryVec d' = partialEntryVec d ++ (todo ≫= page_of k) ∧ workingWorkers d' = workingWorkers d ++ (todo ≫= still_working k).*1 ∧
    Forall (cursor_at d') (todo ≫= still_working k) ∧ same_dir d d' ∧
    (∀ ip, ip ∉ todo.*1.*1 → lastShardIndexes d' !! ip = lastShardIndexes d !! ip ∧ lastFileNames d' !! ip = lastFileNames d !! ip).
Proof.
  intros Hk. induction todo as [|[[ip conn] n] todo IH]; intros d c Hw Hnd Hcur Hsrv.
  { exists d. cbn. rewrite !app_nil_r. repeat split; done. }
  apply Forall_cons in Hcur as [Hc Hcur]. apply Forall_cons in Hsrv as [[Hs Hn] Hsrv]. cbn in Hs, Hn, Hnd.
  destruct (cursor_request d ip conn n Hn Hc) as (x & Hx & Hx1 & Hx2).
  destruct (Hs x n k Hx (proj1 Hc) Hk) as (x' & Hpage & Hcall). rewrite Hx1, Hx2 in Hcall.
  apply NoDup_app in Hnd as (Hnd1 & Hdisj & Hnd2). apply NoDup_cons in Hnd2 as [Hip Hnd2].
  assert (ip ∉ (workingWorkers d).*1) as Hipw by (intros H; apply (Hdisj _ H); by left).
  pose proof (take_answer_spec k (ip, conn, n) conn d x' Hk eq_refl Hipw (proj1 Hc) Hpage) as Ht. cbv zeta in Ht.
  set (d1 := take_answer _ _ _ _ _ _) in Ht. destruct Ht as (Hp1 & Hw1 & Hc1 & Hd1 & Ho1).
  destruct (IH d1 c Hw) as (d' & Hrun & Hp' & Hw' & Hc' & Hd' & Ho'); [| |done|].
  - rewrite Hw1, fmap_app. apply NoDup_app. split; [|split; [|done]].
    + apply NoDup_app. split; [done|]. split.
      * intros y Hy Hy'. apply list_elem_of_fmap in Hy' as (z & -> & Hz). apply list_elem_of_fmap in Hz as (u & -> & Hu).
        apply still_working_ip in Hu. rewrite Hu in Hy. exact (Hipw Hy).
      * unfold still_working. destruct (decide _); [apply NoDup_singleton|apply NoDup_nil_2].
    + intros y Hy Hy'. apply elem_of_app in Hy as [Hy|Hy]; [apply (Hdisj _ Hy); by right|].
      apply list_elem_of_fmap in Hy as (z & -> & Hz). apply list_elem_of_fmap in Hz as (u & -> & Hu). apply still_working_ip in Hu. rewrite Hu in Hy'. done.
  - eapply cursors_same; [|exact Hcur]. intros ip' Hip'. apply Ho1. by intros ->.
  - exists d'. split; [|split; [|split; [|split; [|split]]]].
    + cbn [fmap list_fmap fst read_workers]. rewrite <-Hw in Hcall. erewrite bind_ret; [|apply to_worker_answers].
      2: { unfold ReadDir, ProcessRequest. rewrite Hcall. unfold reply_of. destruct Hpage as (-> & _).
           rewrite decide_False by (intros H; by apply H). reflexivity. }
      exact Hrun.
    + rewrite Hp', Hp1, <-app_assoc. done.
    + rewrite Hw', Hw1, <-app_assoc. cbn [mbind list_bind]. by rewrite fmap_app.
    + cbn [mbind list_bind]. apply Forall_app. split; [|done]. eapply cursors_same; [|exact Hc1].
      intros ip' Hip'. apply Ho'. apply list_elem_of_fmap in Hip' as (z & -> & Hz). apply list_elem_of_fmap in Hz as (u & -> & Hu).
      apply still_working_ip in Hu. by rewrite Hu.
    + destruct Hd1, Hd'. split; [congruence|lia].
    + cbn. intros ip' Hip'. apply not_elem_of_cons in Hip' as [Hne Hni]. destruct (Ho' ip' Hni) as [-> ->]. by apply Ho1.
Qed.

Lemma sublist_fmap {A C} (f : A → C) l1 l2 : l1 `sublist_of` l2 → f <$> l1 `sublist_of` f <$> l2.
Proof. induction 1; simpl; by constructor. Qed.

(** ** A call of readdir *)
Record reading (d : DirOpenInstance) (l : list progress) : Prop := {
  rg_workers : workingWorkers d = l.*1;
  rg_nodup : NoDup l.*1.*1;
  rg_cursors : Forall (cursor_at d) l;
  rg_serves : Forall (λ x, serves x.1.2 ∧ named x.1.2) l;
  rg_count : Z.of_nat (length l) ≤ FILE_NUMBER_PER_EPOCH;
  rg_offset : 0 ≤ dir_offset d ≤ Z.of_nat (length (partialEntryVec d));
  rg_epoch : Z.of_nat (length (partialEntryVec d)) ≤ FILE_NUMBER_PER_EPOCH;
  rg_modes : (length (partialEntryVec d) ≤ length (fileModes d))%nat }.

Definition to_hand_over (d : DirOpenInstance) : list string := drop (Z.to_nat (dir_offset d)) (partialEntryVec d).

Lemma page_of_length k x : 0 ≤ k → Z.of_nat (length (page_of k x)) ≤ k.
Proof.
  destruct x as [[ip conn] n]. unfold page_of, listing_names. intros Hk. rewrite !length_fmap, length_take. lia.
Qed.

Lemma round_length k l : 0 ≤ k → Z.of_nat (length (l ≫= page_of k)) ≤ Z.of_nat (length l) * k.
Proof.
  intros Hk. induction l as [|x l IH]; [done|]. cbn [mbind list_bind]. rewrite length_app. pose proof (page_of_length k x Hk).
  cbn [length]. lia.
Qed.

Lemma epoch_size n : 0 < n ≤ FILE_NUMBER_PER_EPOCH →
  let k := Z.min (FILE_NUMBER_PER_EPOCH `quot` n) FILE_NUMBER_PER_WORKER in 0 < k ∧ n * k ≤ FILE_NUMBER_PER_EPOCH.
Proof.
  intros Hn. unfold FILE_NUMBER_PER_WORKER. rewrite Z.quot_div_nonneg by lia. pose proof (Z.mul_div_le FILE_NUMBER_PER_EPOCH n ltac:(lia)).
  assert (1 ≤ FILE_NUMBER_PER_EPOCH / n) by (apply Z.div_le_lower_bound; lia). cbv zeta. nia.
Qed.

Lemma still_working_serves k l : Forall (λ x, serves x.1.2 ∧ named x.1.2) l → Forall (λ x, serves x.1.2 ∧ named x.1.2) (l ≫= still_working k).
Proof.
  rewrite !Forall_forall. intros H y Hy. apply list_elem_of_bind in Hy as (x & Hy & Hx). apply still_working_ip in Hy. rewrite Hy. by apply H.
Qed.

Lemma next_epoch_spec d l (c : Client F R B T W) : reading d l → c_meta c = w →
  ∃ d' l', next_epoch zk clusterName rehash order p (code SUCCESS) d c = Ret (code SUCCESS, d') c ∧ reading d' l' ∧
    to_hand_over d' ++ left_of l' ≡ₚ to_hand_over d ++ left_of l ∧ (to_hand_over d' = [] → l' = []).
Proof.
  intros [Hwk Hnd Hcur Hsrv Hcnt Hoff Hep Hmo] Hc. unfold next_epoch. rewrite Hwk, length_fmap.
  destruct (decide (_ ∧ _)) as [[Hdone Hne]|Hgo].
  - destruct (epoch_size (Z.of_nat (length l))) as [Hk Hlk]; [lia|]. set (k := Z.min _ _) in *.
    set (d0 := d <| workers := _ |> <| workingWorkers := [] |> <| partialEntryVec := [] |> <| dir_offset := 0 |>).
    destruct (Permutation_map_inv fst l (order_perm l.*1)) as (l2 & Hl2 & Hperm).
    assert (workers d0 = l2.*1) as -> by exact Hl2.
    assert (NoDup l2.*1.*1) as Hnd2 by (by rewrite <-Hperm).
    destruct (read_workers_spec k l2 Hk d0 c Hc) as (d' & Hrun & Hp & Hw' & Hc' & [Ho Hm] & _).
    { exact Hnd2. }
    { rewrite <-Hperm. exact Hcur. }
    { rewrite <-Hperm. exact Hsrv. }
    exists d', (l2 ≫= still_working k). split; [exact Hrun|]. cbn in Hp, Hw', Hm. change (dir_offset d0) with 0 in Ho.
    assert (Z.of_nat (length (partialEntryVec d')) ≤ FILE_NUMBER_PER_EPOCH) as Hlen.
    { rewrite Hp. pose proof (round_length k l2 ltac:(lia)) as H. rewrite <-Hperm in H at 2. cbn in H. lia. }
    assert (to_hand_over d' = l2 ≫= page_of k) as Hth by (unfold to_hand_over; rewrite Ho, Hp; done).
    split; [|split].
    + split; try done.
      * eapply sublist_NoDup; [exact Hnd2|apply sublist_fmap, still_working_sub].
      * apply still_working_serves. rewrite <-Hperm. exact Hsrv.
      * pose proof (sublist_length _ _ (still_working_sub k l2)) as H. rewrite !length_fmap in H. rewrite <-Hperm in H at 2. lia.
      * rewrite Ho. lia.
      * lia.
    + rewrite Hth, round_complete. assert (to_hand_over d = []) as -> by (unfold to_hand_over; apply drop_ge; lia).
      unfold left_of. by rewrite <-Hperm.
    + rewrite Hth. apply (round_nonempty k l2 Hk).
  - exists d, l. split; [done|]. split; [by split|]. split; [done|]. intros Hth. unfold to_hand_over in Hth.
    apply (f_equal length) in Hth. rewrite length_drop in Hth. simpl in Hth. destruct l; [done|]. exfalso. apply Hgo. cbn [length]. lia.
Qed.

Lemma hand_over_spec cap d l idx buf : reading d l → (length buf ≤ cap)%nat →
  let m := (cap - length buf)%nat in
  ∃ d', hand_over (fill_dir cap) d idx (code SUCCESS) buf =
      Some (code SUCCESS, d', buf ++ numbered (fileModes d) (Z.to_nat (dir_offset d)) (take m (to_hand_over d)) idx) ∧
    reading d' l ∧ to_hand_over d' = drop m (to_hand_over d).
Proof.
  intros [Hwk Hnd Hcur Hsrv Hcnt Hoff Hep Hmo] Hb m. unfold hand_over. fold (to_hand_over d).
  rewrite fill_names_spec; [|done|unfold to_hand_over; rewrite length_drop; lia]. fold m.
  assert (Z.of_nat (length (to_hand_over d)) = Z.of_nat (length (partialEntryVec d)) - dir_offset d) as Hlen by (unfold to_hand_over; rewrite length_drop; lia).
  destruct (decide (m < length (to_hand_over d))%nat) as [Hlt|Hge].
  - eexists. split; [reflexivity|]. split; [split; try done; cbn; lia|]. unfold to_hand_over. cbn. rewrite Nat2Z.id, <-drop_drop. done.
  - eexists. split; [reflexivity|]. unfold FILE_NUMBER_PER_EPOCH in *.
    assert (u32 (Z.of_nat (length (partialEntryVec d))) = Z.of_nat (length (partialEntryVec d))) as Hu by (apply Z.mod_small; lia).
    split; [split; try done; cbn; unfold FILE_NUMBER_PER_EPOCH; rewrite Hu; lia|]. unfold to_hand_over at 1. cbn. rewrite Hu, Nat2Z.id, drop_all.
    symmetry. apply drop_ge. lia.
Qed.

(** The workers of the router, when no two have the same address. *)
Definition all_workers (r : Router) : list (string * ServerIdentifier) := (λ s, (address s, s)) <$> routeMap r.

Lemma collect_workers l : ∀ acc : list (string * ServerIdentifier), NoDup (acc.*1 ++ (address <$> l)) →
  foldl (λ m s, if decide (address s ∈ m.*1) then m else m ++ [(address s, s)]) acc l = acc ++ ((λ s, (address s, s)) <$> l).
Proof.
  induction l as [|x l IH]; intros acc Hnd; [by rewrite app_nil_r|]. cbn [foldl fmap list_fmap] in *.
  pose proof Hnd as (H1 & H2 & H3)%NoDup_app. rewrite decide_False by (intros H; apply (H2 _ H); left).
  rewrite IH by (rewrite fmap_app, <-app_assoc; exact Hnd). by rewrite <-app_assoc.
Qed.

Lemma GetAllWorkerConnection_all r : NoDup (address <$> routeMap r) → GetAllWorkerConnection (W := W) (r, w) = Ret (all_workers r) (r, w).
Proof. intros H. unfold GetAllWorkerConnection, all_workers. rewrite (bind_ret router _ (r, w) r _ eq_refl). by rewrite (collect_workers _ []). Qed.

Definition add_worker (d : DirOpenInstance) (ipPort : string) : DirOpenInstance :=
  d <| readFileCount ::= emplace ipPort 0 |> <| readFileCountIndex ::= emplace ipPort 0 |>
    <| lastFileNames ::= emplace ipPort ""%string |> <| allWorkerIPAndPorts ::= (λ s, {[ipPort]} ∪ s) |>
    <| lastShardIndexes ::= emplace ipPort (-1) |>.

Lemma add_workers_spec ips : ∀ d, (∀ ip v, lastShardIndexes d !! ip = Some v → v = -1) →
  let d' := foldl add_worker d ips in
  workingWorkers d' = workingWorkers d ∧ partialEntryVec d' = partialEntryVec d ∧ fileModes d' = fileModes d ∧ dir_offset d' = dir_offset d ∧
  (∀ ip, ip ∈ ips ∨ is_Some (lastShardIndexes d !! ip) → lastShardIndexes d' !! ip = Some (-1)).
Proof.
  induction ips as [|ip0 ips IH]; intros d Hd; cbn [foldl].
  - repeat split; try done. intros ip [H|[v H]]; [by apply not_elem_of_nil in H|]. rewrite H. f_equal. by eapply Hd.
  - assert (∀ ip, lastShardIndexes (add_worker d ip0) !! ip = if decide (ip = ip0) then Some (default (-1) (lastShardIndexes d !! ip0)) else lastShardIndexes d !! ip) as Hl.
    { intros ip. unfold add_worker, emplace. cbn. destruct (lastShardIndexes d !! ip0) as [v|] eqn:E; destruct (decide (ip = ip0)) as [->|]; try done;
        [apply lookup_insert_eq|by apply lookup_insert_ne]. }
    destruct (IH (add_worker d ip0)) as (H1 & H2 & H3 & H4 & H5).
    { intros ip v. rewrite Hl. destruct (decide _); [|apply Hd]. destruct (lastShardIndexes d !! ip0) eqn:E; intros [= <-]; [by eapply Hd|done]. }
    split; [exact H1|]. split; [exact H2|]. split; [exact H3|]. split; [exact H4|]. intros ip Hip. apply H5. rewrite Hl.
    destruct (decide (ip = ip0)) as [->|Hne]; [right; eauto|]. destruct Hip as [[->|Hip]%elem_of_cons|Hip]; [done|by left|by right].
Qed.

(** A directory that has just been opened. *)
Lemma first_call_reading r : NoDup (address <$> routeMap r) → Forall (λ s, serves s ∧ named s) (routeMap r) →
  Z.of_nat (length (routeMap r)) ≤ FILE_NUMBER_PER_EPOCH →
  let l := (λ s, (address s, s, O)) <$> routeMap r in
  reading (SetAllWorkerInfo (all_workers r) new_DirOpenInstance) l ∧ to_hand_over (SetAllWorkerInfo (all_workers r) new_DirOpenInstance) = [] ∧
  left_of l = routeMap r ≫= λ s, listing_names (part s).
Proof.
  intros Hnd Hs Hc l. unfold SetAllWorkerInfo. change (foldl _) with (foldl add_worker).
  destruct (add_workers_spec (all_workers r).*1 (new_DirOpenInstance <| workers := all_workers r |> <| workingWorkers := all_workers r |>))
    as (H1 & H2 & H3 & H4 & H5); [by intros ip v|]. cbv zeta in *. set (d := foldl add_worker _ _) in *. cbn in H1, H2, H3, H4.
  assert (l.*1 = all_workers r) as Hl by (subst l; unfold all_workers; rewrite <-list_fmap_compose; done).
  split; [split|split].
  - by rewrite Hl.
  - rewrite Hl. unfold all_workers. rewrite <-list_fmap_compose. exact Hnd.
  - rewrite Forall_forall. intros x Hx. apply list_elem_of_fmap in Hx as (s & -> & Hin). cbn. split; [lia|]. apply H5. left.
    unfold all_workers. rewrite <-list_fmap_compose. apply list_elem_of_fmap. by exists s.
  - apply Forall_fmap. exact Hs.
  - subst l. by rewrite length_fmap.
  - rewrite H2, H4. done.
  - rewrite H2. done.
  - rewrite H2. simpl. lia.
  - unfold to_hand_over. rewrite H2. apply drop_nil.
  - subst l. unfold left_of. clear. induction (routeMap r) as [|s m IH]; [done|]. cbn [fmap list_fmap mbind list_bind]. by rewrite IH, drop_0.
Qed.

(** The part of CuckooReadDir after the workers are known. *)
Definition read_on (cap : nat) (fh idx : Z) (buf : list (string * option Z * Z)) (d : DirOpenInstance) : CM (Z * list (string * option Z * Z)) :=
  '(ret, d) ← next_epoch zk clusterName rehash order p (code SUCCESS) d;
  match hand_over (fill_dir cap) d idx ret buf with
  | None => mundefined
  | Some (ret, d, buf) =>
    mmodify (λ c, c <| c_dirs ::= <[fh := d]> |>) ;;
    mret (ret, buf)
  end.

Lemma read_on_spec cap fh idx buf d l (c : Client F R B T W) : reading d l → c_meta c = w → (length buf ≤ cap)%nat →
  ∃ d' l' modes i names, read_on cap fh idx buf d c = Ret (code SUCCESS, buf ++ numbered modes i names idx) (c <| c_dirs ::= <[fh := d']> |>) ∧
    reading d' l' ∧ names ++ to_hand_over d' ++ left_of l' ≡ₚ to_hand_over d ++ left_of l ∧
    ((length buf < cap)%nat → names = [] → to_hand_over d' ++ left_of l' = []).
Proof.
  intros Hr Hc Hb. destruct (next_epoch_spec d l c Hr Hc) as (d1 & l1 & H1 & Hr1 & Hp1 & He1).
  destruct (hand_over_spec cap d1 l1 idx buf Hr1 Hb) as (d2 & H2 & Hr2 & Hp2).
  eexists d2, l1, (fileModes d1), _, (take (cap - length buf) (to_hand_over d1)). split; [|split; [done|split]].
  - unfold read_on. rewrite (bind_ret _ _ _ _ _ H1). rewrite H2. reflexivity.
  - rewrite Hp2, app_assoc, take_drop. exact Hp1.
  - intros Hlt Hn. apply (f_equal length) in Hn. rewrite length_take in Hn. simpl in Hn.
    assert (to_hand_over d1 = []) as He by (apply length_zero_iff_nil; lia). rewrite Hp2, He, (He1 He), drop_nil. done.
Qed.

(** The kernel asks until a buffer stays empty, each time with the offset of the
    last entry it was given. *)
Fixpoint list_directory (cap fuel : nat) (fh offset : Z) : CM (list string) :=
  match fuel with
  | O => mdiverge
  | S fuel' =>
    '(ret, buf) ← DoReadDir zk clusterName rehash order (fill_dir cap) (Some p) (Some []) offset fh;
    match buf with
    | None | Some [] => mret []
    | Some b => rest ← list_directory cap fuel' fh (next_offset b); mret (entry_names b ++ rest)
    end
  end.

Context (p_given : p ≠ ""%string).

Lemma DoReadDir_runs cap fh offset d buf idx (c c' : Client F R B T W) b :
  c_dirs c !! fh = Some d →
  (if decide (offset = 0) then ∃ ws, routing (GetAllWorkerConnection) c = Ret ws c ∧ d = new_DirOpenInstance ∧ idx = 3 ∧
     buf = ((fill_dir cap (fill_dir cap [] "." None 1).2 ".." None 2).2) ∧ read_on cap fh idx buf (SetAllWorkerInfo ws d) c = Ret (code SUCCESS, b) c'
   else idx = i32 offset ∧ buf = [] ∧ read_on cap fh idx buf d c = Ret (code SUCCESS, b) c') →
  DoReadDir zk clusterName rehash order (fill_dir cap) (Some p) (Some []) offset fh c = Ret (0, Some b) c'.
Proof.
  intros Hd H. assert (CuckooReadDir zk clusterName rehash order (fill_dir cap) p [] offset fh c = Ret (code SUCCESS, b) c') as Hrun.
  { unfold CuckooReadDir. erewrite bind_ret by reflexivity. rewrite Hd. destruct (decide (offset = 0)) as [->|Hne].
    - destruct H as (ws & Hws & -> & -> & -> & H). rewrite bind_assoc. rewrite (bind_ret _ _ _ _ _ Hws). exact H.
    - destruct H as (-> & -> & H). exact H. }
  unfold DoReadDir, with_path. destruct p as [|a p']; [done|]. rewrite (bind_ret _ _ _ _ _ Hrun). reflexivity.
Qed.

Lemma list_rest cap fh : (0 < cap)%nat → ∀ fuel offset d l (c : Client F R B T W), c_dirs c !! fh = Some d → reading d l → c_meta c = w →
  0 < offset → offset + Z.of_nat (length (to_hand_over d ++ left_of l)) < 2 ^ 31 → (length (to_hand_over d ++ left_of l) < fuel)%nat →
  ∃ names c', list_directory cap fuel fh offset c = Ret names c' ∧ names ≡ₚ to_hand_over d ++ left_of l.
Proof.
  intros Hcap. induction fuel as [|fuel IH]; intros offset d l c Hd Hr Hc Ho Hsmall Hfuel; [lia|]. cbn [list_directory].
  destruct (read_on_spec cap fh (i32 offset) [] d l c Hr Hc) as (d' & l' & ms & i & names & Hrun & Hr' & Hp & He); [simpl; lia|].
  rewrite (i32_small offset) in Hrun by lia. cbn [app] in Hrun.
  erewrite bind_ret; [|eapply (DoReadDir_runs cap fh offset d [] offset); [done|]; rewrite decide_False by lia; rewrite i32_small by lia; by split; [|split]].
  cbv beta iota. pose proof (Permutation_length Hp) as Hlen. rewrite length_app in Hlen.
  destruct (numbered ms i names offset) as [|b0 b] eqn:Eb.
  { assert (names = []) as -> by (by destruct names). exists [], (c <| c_dirs ::= <[fh := d']> |>). split; [done|].
    rewrite <-Hp. simpl. by rewrite He by (simpl; done || lia). }
  rewrite <-Eb. assert (names ≠ []) as Hne by (intros ->; done). rewrite numbered_last by done.
  assert (length names ≠ 0)%nat as Hn0 by (by destruct names).
  destruct (IH (offset + Z.of_nat (length names) - 1) d' l' (c <| c_dirs ::= <[fh := d']> |>)) as (rest & c' & Hrest & Hprest);
    [apply lookup_insert_eq|done|done|lia|lia|lia|].
  exists (names ++ rest), c'. rewrite (bind_ret _ _ _ _ _ Hrest). rewrite numbered_names. split; [done|]. by rewrite Hprest.
Qed.

(** (C8) Listing a directory through FUSE: after opendir, the kernel calls
    readdir until a buffer comes back empty, with buffers of any size from two
    entries on.  When every worker answers its pages as the servers' handler does,
    the listing ends after at most one call more than there are names and two,
    and is "." and ".." and then every name of every worker exactly once, in
    whatever order the rounds bring them. *)
Theorem readdir_lists_every_worker cap fuel fh (c : Client F R B T W) (all := routeMap (c_router c) ≫= λ s, listing_names (part s)) :
  (2 ≤ cap)%nat → c_dirs c !! fh = Some new_DirOpenInstance → c_meta c = w →
  NoDup (address <$> routeMap (c_router c)) → Forall (λ s, serves s ∧ named s) (routeMap (c_router c)) →
  Z.of_nat (length (routeMap (c_router c))) ≤ FILE_NUMBER_PER_EPOCH →
  Z.of_nat (length all) < 2 ^ 31 - 3 → (length all + 1 < fuel)%nat →
  ∃ names c', list_directory cap fuel fh 0 c = Ret ("."%string :: ".."%string :: names) c' ∧ names ≡ₚ all.
Proof.
  intros Hcap Hd Hc Hnd Hs Hcnt Hsmall Hfuel. destruct (first_call_reading _ Hnd Hs Hcnt) as (Hr & Hth & Hl). fold all in Hl.
  destruct fuel as [|fuel]; [lia|]. cbn [list_directory].
  set (buf0 := [("."%string, None, 1); (".."%string, None, 2)] : list (string * option Z * Z)).
  destruct (read_on_spec cap fh 3 buf0 _ _ c Hr Hc) as (d' & l' & ms & i & names & Hrun & Hr' & Hp & _); [simpl; lia|].
  rewrite Hth, Hl in Hp. pose proof (Permutation_length Hp) as Hlen. rewrite length_app in Hlen.
  change (length ([] ++ all)) with (length all) in Hlen. clearbody all.
  erewrite bind_ret; [|eapply (DoReadDir_runs cap fh 0 _ buf0 3); [done|]; rewrite decide_True by done; exists (all_workers (c_router c)); split_and!; [|done|done| |exact Hrun]].
  2: { unfold routing, mzoom. rewrite Hc, GetAllWorkerConnection_all by done. simpl. rewrite <-Hc. by destruct c. }
  2: { assert (fill_dir cap [] "." None 1 = (false, [("."%string, None, 1)])) as -> by (unfold fill_dir; by rewrite decide_True by (simpl; lia)).
       cbn [snd]. unfold fill_dir. by rewrite decide_True by (simpl; lia). }
  cbn [buf0 app]. change (("."%string, None, 1) :: (".."%string, None, 2) :: numbered ms i names 3) with (buf0 ++ numbered ms i names 3).
  assert (next_offset (buf0 ++ numbered ms i names 3) = 2 + Z.of_nat (length names)) as ->.
  { destruct names as [|n names]; [done|]. unfold next_offset. rewrite last_app.
    pose proof (numbered_last ms i (n :: names) 3 ltac:(done)) as H. unfold next_offset in H. destruct (last (numbered _ _ _ _)); simpl in *; lia. }
  destruct (list_rest cap fh ltac:(lia) fuel (2 + Z.of_nat (length names)) d' l' (c <| c_dirs ::= <[fh := d']> |>)) as (rest & c' & Hrest & Hprest);
    [apply lookup_insert_eq|done|done|lia|lia|lia|].
  exists (names ++ rest), c'. rewrite (bind_ret _ _ _ _ _ Hrest). unfold entry_names. rewrite fmap_app. fold (entry_names (numbered ms i names 3)).
  rewrite numbered_names. split; [done|]. by rewrite Hprest.
Qed.
End listing.

(** ** The servers' handler is such a worker *)
Section handler.
Context `{!PgEnv, !Collation, !DirHashEnv, !PgRelation dir_key id_text_le, !PgRelation range_point Z.le, !PgRelation inode_key id_text_le}.
Context {W : Type} `{!MetaService W} (p : string) (w : W) (part : ServerIdentifier → list (Z * FormData_dfs_inode_table)).

(** The reply is what CuckooReadDirHandle makes, at a server that is ready and
    has this part of directory [d], of a request with the same cursor. *)
Definition handles (LocalServerId d : Z) (conn : ServerIdentifier) : Prop :=
  ∀ x k, 0 < k → ∃ x0 x', readDirLastShardIndex x0 = readDirLastShardIndex x ∧ readDirLastFileName x0 = readDirLastFileName x ∧
    reads LocalServerId (part conn) d k x0 x' ∧
    MetaCall conn (make_request READDIR (ReadDirParam p k (readDirLastShardIndex x) (readDirLastFileName x))) w = (reply_of x', w).

Lemma handler_serves LocalServerId d conn : handles LocalServerId d conn → serves p w part conn.
Proof.
  intros Hhandles x n k Hx Hn Hk. destruct (Hhandles x k Hk) as (x0 & x' & Hj & Hname & Hr & Hcall). exists x'. split; [|exact Hcall].
  apply (reads_answer LocalServerId (part conn) d k x0 x' n Hr Hk Hn). by apply (at_position_cursor (part conn) n x x0).
Qed.
End handler.
