(* ===== verification/ClientWrite.v ===== *)
(** * From the client library to the disk of another node

    A file that is open through the library and lies on another node: what
    CuckooWrite and a flush promise, with the write stream (WriteStream), the
    service of the other node (Server) and the metadata server together. *)
From S2P Require Import Prelude Posix FileLock DiskCache IOClient WriteStream Node Store Server StoreSpec ServerSpec Connection Router Client.
Local Open Scope Z_scope.

Section client_write.
Context {F R B T W : Type} `{!Posix F} `{!Statvfs F} `{!Storage B F} `{!ReadAhead T} `{!MetaService W} `{!Zookeeper W}.
Context (peers : string → Stub R) (cfg : Config) (zk char_signed : bool) (clusterName : string).
Context (rehash : list ServerIdentifier → list ServerIdentifier).
(** The node of the file. *)
Context (e : string) {SF : StubFiles R (Stub0 := peers e)}.
Local Abbreviation CM := (M (Client F R B T W)).
Local Abbreviation Open := (OpenInstance T).
Local Abbreviation St := (Client F R B T W).

Definition store_of (c : St) : Store F R B := v_store (c_server c).
Definition remote_of (c : St) : R := io_remote (s_io (store_of c)).
Definition opened (c : St) (fh : Z) : option Open := GetOpenInstanceByFd fh (v_fds (c_server c)).
(** The file system, for the memory of the client's buffers. *)
Definition fs_of (c : St) : F := io_fs (s_io (store_of c)).
(** What the file is once everything that is buffered has arrived. *)
Definition logical_file (c : St) (oi : Open) : list Z := logical (StubFiles0 := SF) (writeStream oi) (s_io (store_of c)).

(** An open file of another node with a working write stream. *)
Record remote_open_file (c : St) (oi : Open) : Prop := {
  ro_opened : isOpened oi = true;
  ro_client : client oi = e;
  ro_here : isRemoteCall oi = false;
  ro_fd : physicalFd oi ≠ UINT64_MAX;
  ro_node : oi_nodeId oi ≠ -1;
  ro_remote : IsLocal (oi_nodeId oi) (s_nodes (store_of c)) = false;
  ro_stream : stream_ok (writeStream oi);
  ro_size : 0 ≤ currentSize oi < 2 ^ 64;
  ro_there : remote_open (StubFiles := SF) (remote_of c) (ws_physicalFd (writeStream oi)) }.

Definition with_store (s : Store F R B) (c : St) : St := c <| c_server ::= (λ v, v <| v_store := s |>) |>.
Definition with_instance_at (fh : Z) (oi : Open) (c : St) : St :=
  c <| c_server ::= (λ v, v <| v_fds ::= (λ f, f <| openInstanceMap ::= <[fh := oi]> |>) |>) |>.

Lemma on_store_runs {A} (m : M (Store F R B) A) (c : St) a s' : m (store_of c) = Ret a s' → on_store m c = Ret a (with_store s' c).
Proof. intros H. unfold on_store, store, mzoom. unfold store_of in H. by rewrite H. Qed.

Lemma put_instance_runs fh oi (c : St) : put_instance fh oi c = Ret () (with_instance_at fh oi c).
Proof. done. Qed.

Lemma instance_of_runs fh (c : St) : instance_of fh c = Ret (opened c fh) c.
Proof. done. Qed.

Lemma opened_put fh oi (c : St) : opened (with_instance_at fh oi c) fh = Some oi.
Proof. apply lookup_insert_eq. Qed.

(** What a write and a flush that succeed leave as it was. *)
Definition kept (oi oi' : Open) : Prop :=
  (readFail oi', writeFail oi', nodeFail oi', originalSize oi') = (readFail oi, writeFail oi, nodeFail oi, originalSize oi).

(** ** One write *)
Lemma WriteFile_remote (oi : Open) bytes off (s : Store F R B) : isOpened oi = true → client oi = e → stream_ok (writeStream oi) →
  0 ≤ currentSize oi < 2 ^ 64 → remote_open (StubFiles := SF) (io_remote (s_io s)) (ws_physicalFd (writeStream oi)) → write_ok bytes off →
  returns (WriteFile peers cfg oi (Some bytes) (Z.of_nat (length bytes)) off s)
    (λ '(ret, oi') s', s_nodes s' = s_nodes s ∧ stream_ok (writeStream oi') ∧ ws_physicalFd (writeStream oi') = ws_physicalFd (writeStream oi) ∧
       (isOpened oi', client oi', isRemoteCall oi', physicalFd oi', oi_nodeId oi') = (isOpened oi, client oi, isRemoteCall oi, physicalFd oi, oi_nodeId oi) ∧
       (ret = 0 → remote_open (StubFiles := SF) (io_remote (s_io s')) (ws_physicalFd (writeStream oi)) ∧
          (∃ b : bool, accepts (has_buffer (writeStream oi)) (io_fs (s_io s)) bytes = (b, (has_buffer (writeStream oi'), io_fs (s_io s'))) ∧
             logical (StubFiles0 := SF) (writeStream oi') (s_io s') =
               let old := logical (StubFiles0 := SF) (writeStream oi) (s_io s) in if b then file_write old off bytes else old) ∧
          currentSize oi' = Z.max (currentSize oi) (off + Z.of_nat (length bytes)) ∧ kept oi oi')).
Proof.
  intros Ho Hc Hok Hsz Hrem Hw. unfold WriteFile.
  set (oi1 := if preReadStarted oi && negb (preReadStopped oi) then StopPreReadThreaded oi else oi).
  assert (writeStream oi1 = writeStream oi ∧ currentSize oi1 = currentSize oi ∧ kept oi oi1 ∧
    (isOpened oi1, client oi1, isRemoteCall oi1, physicalFd oi1, oi_nodeId oi1) = (isOpened oi, client oi, isRemoteCall oi, physicalFd oi, oi_nodeId oi))
    as (Hws & Hcs & Hk & Hsame) by (unfold oi1; destruct (_ && _); repeat split).
  clearbody oi1. injection Hsame as H1 H2 H3 H4 H5.
  unfold ensure_open at 1. rewrite H1, Ho. rewrite bind_mret. rewrite (decide_False (P := 0 ≠ 0)) by tauto.
  unfold on_stream, io. rewrite Hws, Hcs, H2, Hc.
  pose proof (Push_remote (Stub0 := peers e) (StubFiles0 := SF) (rootPath cfg) (totalDirectory cfg) (writeStream oi) (s_io s) bytes off (currentSize oi)
    Hok Hrem Hw) as Hp.
  unfold mzoom at 1. unfold mbind at 1, M_bind.
  destruct (Push _ _ _ _ _ _ _) as [[ret w'] io'| | |]; try done. destruct Hp as (Hok' & Hfd & Hl & _).
  destruct (decide (ret ≠ 0)) as [Hne|He].
  - simpl. split; [done|]. split; [done|]. split; [done|]. split; [congruence|]. intros ->. by exfalso.
  - apply dec_stable in He as ->. destruct (Hl eq_refl) as [Hr Hlog]. destruct Hw as (Hlen & Hmax & Hoff & Hend).
    rewrite decide_True by lia. simpl. split; [done|]. split; [done|]. split; [done|]. split; [congruence|]. intros _. split; [done|].
    split; [done|]. split; [|exact Hk]. rewrite Hcs. unfold u64. rewrite Z.mod_small by lia. lia.
Qed.

Lemma CuckooWrite_remote (c : St) fh oi bytes off : opened c fh = Some oi → remote_open_file c oi → write_ok bytes off →
  returns (CuckooWrite peers cfg fh bytes off c) (λ ret c', ret = 0 → ∃ oi', opened c' fh = Some oi' ∧ remote_open_file c' oi' ∧
    ws_physicalFd (writeStream oi') = ws_physicalFd (writeStream oi) ∧
    (∃ b : bool, accepts (has_buffer (writeStream oi)) (fs_of c) bytes = (b, (has_buffer (writeStream oi'), fs_of c')) ∧
       logical_file c' oi' = if b then file_write (logical_file c oi) off bytes else logical_file c oi) ∧ currentSize oi' = Z.max (currentSize oi) (off + Z.of_nat (length bytes)) ∧
    kept oi oi' ∧ oi_nodeId oi' = oi_nodeId oi ∧ c_meta c' = c_meta c ∧ c_router c' = c_router c).
Proof.
  intros Hoi [Ho Hc Hh Hf Hn Hr Hs Hz Ht] Hw. unfold CuckooWrite. rewrite (bind_ret _ _ _ _ _ (instance_of_runs fh c)), Hoi.
  pose proof (WriteFile_remote (count_write oi) bytes off (store_of c) Ho Hc Hs Hz Ht Hw) as H.
  destruct (WriteFile _ _ _ _ _ _ _) as [[ret oi'] s'| | |] eqn:E; try done. rewrite (bind_ret _ _ _ _ _ (on_store_runs _ _ _ _ E)).
  rewrite (bind_ret _ _ _ _ _ (put_instance_runs _ _ _)). destruct H as (Hnodes & Hok & Hfd & Hsame & Hret). injection Hsame as H1 H2 H3 H4 H5.
  simpl. intros H0. destruct (Hret H0) as (Hrem & Hlog & Hsz & Hk). exists oi'. split; [apply opened_put|]. split; [|by repeat split].
  destruct Hw as (_ & _ & Hoff & Hend).
  split; rewrite ?H1, ?H2, ?H3, ?H4, ?H5; try done.
  - change (store_of (with_instance_at fh oi' (with_store s' c))) with s'. rewrite Hnodes. exact Hr.
  - rewrite Hsz. simpl in *. lia.
  - rewrite Hfd. exact Hrem.
Qed.

(** ** The flush *)
Lemma complete_remote (oi : Open) sync (s : Store F R B) : client oi = e → stream_ok (writeStream oi) →
  remote_open (StubFiles := SF) (io_remote (s_io s)) (ws_physicalFd (writeStream oi)) →
  returns (complete_stream peers cfg oi true sync s)
    (λ '(ret, oi') s', s_nodes s' = s_nodes s ∧ (∃ w', oi' = oi <| writeStream := w' |>) ∧
       (ret = 0 → remote_file (StubFiles := SF) (io_remote (s_io s')) (ws_physicalFd (writeStream oi)) =
                  logical (StubFiles0 := SF) (writeStream oi) (s_io s))).
Proof.
  intros Hc Hok Hrem. unfold complete_stream, on_stream, io. rewrite Hc.
  pose proof (Complete_remote (Stub0 := peers e) (StubFiles0 := SF) (rootPath cfg) (totalDirectory cfg) (writeStream oi) (s_io s) (currentSize oi) sync Hok Hrem) as H.
  unfold mzoom, mbind, M_bind. destruct (Complete _ _ _ _ _ _ _) as [[ret w'] io'| | |]; try done. destruct H as (_ & _ & _ & H).
  simpl. split; [done|]. split; [by exists w'|]. intros H0. by apply H.
Qed.

Lemma CloseTmpFiles_remote (c : St) (oi : Open) sync : remote_open_file c oi →
  returns (CloseTmpFiles peers cfg oi true sync (store_of c))
    (λ '(ret, oi') s', ret = 0 → oi_nodeId oi' = oi_nodeId oi ∧ kept oi oi' ∧
       remote_file (StubFiles := SF) (io_remote (s_io s')) (ws_physicalFd (writeStream oi)) = logical_file c oi).
Proof.
  intros [Ho Hc Hh Hf Hn Hr Hs Hz Ht]. unfold CloseTmpFiles, CloseTmpFiles_with. rewrite decide_False by tauto. rewrite bind_mret. cbv beta iota zeta.
  cbn [negb andb]. change (isRemoteCall (oi <| isFlushed := true |>)) with (isRemoteCall oi). rewrite Hh.
  rewrite bind_assoc.
  match goal with |- context [complete_stream ?p ?g ?o true ?b] =>
    pose proof (complete_remote o sync (store_of c) Hc Hs Ht) as H; destruct (complete_stream p g o true b (store_of c)) as [[ret oi'] s'| | |] eqn:E; try done end.
  rewrite (bind_ret _ _ _ _ _ E). destruct H as (Hnodes & (w' & ->) & Hret).
  cbv beta iota. destruct (decide (ret ≠ 0)) as [Hne|He]; rewrite bind_mret; cbv beta iota.
  - rewrite bind_is_local. cbn [oi_nodeId set_field]. rewrite Hnodes, Hr. simpl. by intros ->.
  - apply dec_stable in He as ->. rewrite bind_is_local. cbn [oi_nodeId set_field]. rewrite Hnodes, Hr. simpl. intros _. split; [done|]. split; [done|]. by apply Hret.
Qed.

(** The code of a reply. *)
Definition reply_code (reply : meta_reply) : Z :=
  match reply with
  | CallFailed err => if decide (err = brpc_ELOGOFF ∨ err = EHOSTDOWN) then code SERVER_FAULT else code REMOTE_QUERY_FAILED
  | CorruptReply => code REMOTE_QUERY_FAILED
  | MetaResponse error_code _ =>
    if decide (error_code ≠ SUCCESS) then (if decide (error_code < LAST_CUCKOO_ERROR_CODE) then error_code else PROGRAM_ERROR) else SUCCESS
  end.

Lemma plain_runs type param conn (m : W) reply w' : MetaCall conn (make_request type param) m = (reply, w') →
  plain (λ conn, code_only conn type param) conn m = Ret (reply_code reply, None) w'.
Proof.
  intros H. unfold plain, code_only, ProcessRequest, mbind, M_bind. rewrite H. destruct reply as [err| |ec resp]; simpl; [done|done|].
  destruct (decide (ec ≠ SUCCESS)); done.
Qed.

Lemma reply_code_success reply : reply_code reply = 0 → ∃ response, reply = MetaResponse SUCCESS response.
Proof.
  destruct reply as [err| |ec resp]; simpl; [by destruct (decide _)|done|]. destruct (decide (ec ≠ SUCCESS)) as [Hne|Heq].
  - destruct (decide _); [|done]. intros ->. by exfalso.
  - apply dec_stable in Heq as ->. intros _. by exists resp.
Qed.

(** The metadata server that is asked, and the request. *)
Definition routed (c : St) (path : string) (conn : ServerIdentifier) : Prop :=
  GetWorkerConnByPath char_signed path (c_router c, c_meta c) = Ret (Some conn) (c_router c, c_meta c).
Definition close_request (path : string) (size node : Z) : MetaRequest := make_request CLOSE (CloseParam path (i64 size) 0 node).

Lemma to_worker_once {A} (request : ServerIdentifier → M W (Z * option A)) conn ans (c : St) w' : zk = false →
  request conn (c_meta c) = Ret ans w' → to_worker zk clusterName rehash request conn c = Ret (ans, conn) (c <| c_meta := w' |>).
Proof.
  intros Hzk H. unfold to_worker, send. assert (ask (request conn) c = Ret ans (c <| c_meta := w' |>)) as Ha by (unfold ask, mzoom; by rewrite H).
  rewrite (bind_ret _ _ _ _ _ Ha). unfold RETRY_CNT. cbn [retry]. by rewrite decide_False by (intros [? _]; congruence).
Qed.

Lemma flush_remote (c : St) fh (oi : Open) path conn : opened c fh = Some oi → remote_open_file c oi → routed c path conn → zk = false →
  readFail oi = false → writeFail oi = false →
  returns (CuckooClose peers cfg zk char_signed clusterName rehash path fh true (-1) c) (λ ret c', ret = 0 →
    remote_file (StubFiles := SF) (remote_of c') (ws_physicalFd (writeStream oi)) = logical_file c oi ∧
    ((nodeFail oi = false ∧ currentSize oi = originalSize oi) ∨
     ∃ response, MetaCall conn (close_request path (currentSize oi) (oi_nodeId oi)) (c_meta c) = (MetaResponse SUCCESS response, c_meta c'))).
Proof.
  intros Hoi Hro Hroute Hzk Hrf Hwf. unfold CuckooClose. rewrite (bind_ret _ _ _ _ _ (instance_of_runs fh c)), Hoi. rewrite (ro_opened _ _ Hro).
  pose proof (CloseTmpFiles_remote c oi (bool_decide (-1 >= 0)) Hro) as H.
  destruct (CloseTmpFiles _ _ _ _ _ _) as [[ret oi'] s'| | |] eqn:E; try done. rewrite bind_assoc, (bind_ret _ _ _ _ _ (on_store_runs _ _ _ _ E)).
  cbv beta iota. rewrite bind_assoc, (bind_ret _ _ _ _ _ (put_instance_runs _ _ _)), bind_mret. cbv beta iota.
  set (c1 := with_instance_at fh oi' (with_store s' c)). destruct (decide (ret ≠ 0)) as [Hne|He]; [simpl; intros ->; by exfalso|].
  apply dec_stable in He as ->. destruct (H eq_refl) as (Hn & Hk & Hfile). injection Hk as Hk1 Hk2 Hk3 Hk4. rewrite Hk1, Hk2, Hk3, Hk4, Hrf, Hwf, Hn.
  destruct (decide (false = true ∨ _)) as [Hdone|Hgo].
  - simpl. intros _. split; [exact Hfile|]. left. destruct Hdone as [?|[?|[?|?]]]; [done|done|lia|done].
  - unfold routing at 1. rewrite (bind_ret _ _ c1 (Some conn) c1).
    2: { unfold mzoom. change (c_router c1, c_meta c1) with (c_router c, c_meta c). rewrite Hroute. by destruct c as [[] ? ? ?]. }
    destruct (MetaCall conn (close_request path (currentSize oi) (oi_nodeId oi)) (c_meta c)) as [reply w'] eqn:Hcall.
    erewrite bind_ret; [|apply to_worker_once; [done|]; apply plain_runs; exact Hcall].
    simpl. intros Hcode. split; [exact Hfile|]. right. apply reply_code_success in Hcode as [resp ->]. by exists resp.
Qed.

(** ** Writes and a flush *)

(** Calls of write(2) up to the first that fails, then close(2)'s flush: its
    result, or [None] when a write failed. *)
Fixpoint write_then_flush (path : string) (fh : Z) (l : list (list Z * Z)) : CM (option Z) :=
  match l with
  | [] => ret ← CuckooClose peers cfg zk char_signed clusterName rehash path fh true (-1); mret (Some ret)
  | (bytes, off) :: l' =>
    ret ← CuckooWrite peers cfg fh bytes off;
    if decide (ret ≠ 0) then mret None else write_then_flush path fh l'
  end.

Definition end_of (size : Z) (l : list (list Z * Z)) : Z := foldl (λ m '(bytes, off), Z.max m (off + Z.of_nat (length bytes))) size l.

Lemma write_then_flush_remote path conn fh l : zk = false → ∀ (c : St) (oi : Open), opened c fh = Some oi → remote_open_file c oi →
  routed c path conn → readFail oi = false → writeFail oi = false → Forall (λ '(bytes, off), write_ok bytes off) l →
  returns (write_then_flush path fh l c) (λ r c', r = Some 0 →
    remote_file (StubFiles := SF) (remote_of c') (ws_physicalFd (writeStream oi)) =
      foldl (λ f '(bytes, off), file_write f off bytes) (logical_file c oi) (arriving (has_buffer (writeStream oi)) (fs_of c) l) ∧
    let size := end_of (currentSize oi) l in
    ((nodeFail oi = false ∧ size = originalSize oi) ∨
     ∃ response, MetaCall conn (close_request path size (oi_nodeId oi)) (c_meta c) = (MetaResponse SUCCESS response, c_meta c'))).
Proof.
  intros Hzk. induction l as [|[bytes off] l IH]; intros c oi Hoi Hro Hroute Hrf Hwf Hl; cbn [write_then_flush].
  - pose proof (flush_remote c fh oi path conn Hoi Hro Hroute Hzk Hrf Hwf) as H. unfold mbind, M_bind.
    destruct (CuckooClose _ _ _ _ _ _ _ _ _ _) as [ret c'| | |]; try done. intros [= ->]. by apply H.
  - apply Forall_cons in Hl as [Hw Hl]. pose proof (CuckooWrite_remote c fh oi bytes off Hoi Hro Hw) as H.
    destruct (CuckooWrite _ _ _ _ _ _) as [ret c1| | |] eqn:E; try done. rewrite (bind_ret _ _ _ _ _ E).
    destruct (decide (ret ≠ 0)) as [Hne|He]; [done|]. apply dec_stable in He as ->.
    destruct (H eq_refl) as (oi1 & Hoi1 & Hro1 & Hfd & (b & Hacc & Hlog) & Hsz & Hk & Hn & Hm & Hr). injection Hk as Hk1 Hk2 Hk3 Hk4.
    eapply returns_mono; [apply (IH c1 oi1 Hoi1 Hro1)|]; [unfold routed; rewrite Hm, Hr; exact Hroute|congruence|congruence|done|].
    intros r c' Hres H0. specialize (Hres H0). rewrite Hfd, Hlog, Hsz, Hk3, Hk4, Hn, Hm in Hres. cbn [arriving]. rewrite Hacc.
    destruct b; exact Hres.
Qed.
End client_write.

(** ** With the service of the other node *)
Section chain.
Context {F F' R B B' T T' W : Type} `{!Posix F} `{!Statvfs F} `{!Storage B F} `{!ReadAhead T} `{!MetaService W} `{!Zookeeper W}.
Context `{!Posix F'} `{!PosixFiles F'} `{!Statvfs F'} `{!Storage B' F'} `{!StorageFiles B' F'} `{!ReadAhead T'}.
(** The client's configuration and the other node's. *)
Context (cfg cfg' : Config) (peers' : string → Stub R) (rehash' : list (Z * string) → list (Z * string)) (garbage : list Z).
Context (char_signed : bool) (clusterName : string) (rehash : list ServerIdentifier → list ServerIdentifier).
Local Abbreviation Srv := (Server F' R B' T').
Local Abbreviation St := (Client F Srv B T W).

(** Every end point is the other node. *)
Definition to_server : string → Stub Srv := λ _, ServerStub peers' cfg' rehash' garbage.
Definition server_files (e : string) : StubFiles Srv (Stub0 := to_server e) := ServerFiles peers' cfg' rehash' garbage.

End chain.
