(* ===== verification/ClientSpec.v ===== *)
(** * Failing servers and failing opens

    With ZK_INIT a request that meets a dead server is repeated at its
    successor; an open that the metadata server refuses keeps its place among the
    counted open files. *)
From S2P Require Import Prelude Pg Shard Posix FileLock DiskCache IOClient WriteStream Node Store Server StoreSpec ServerSpec Connection Router RouterSpec Client ClientWrite.
Local Open Scope Z_scope.

Section failover.
Context {F R B T W : Type} `{!Posix F} `{!Statvfs F} `{!Storage B F} `{!ReadAhead T} `{!MetaService W} `{!Zookeeper W}.
Context (char_signed : bool) (clusterName : string) (rehash : list ServerIdentifier → list ServerIdentifier).
Context (rehash_perm : ∀ l, rehash l ≡ₚ l).
Local Abbreviation St := (Client F R B T W).

(** A server that does not answer. *)
Definition dead (conn : ServerIdentifier) (rq : MetaRequest) (w w' : W) : Prop :=
  ∃ err, (err = brpc_ELOGOFF ∨ err = EHOSTDOWN) ∧ MetaCall conn rq w = (CallFailed err, w').

Lemma dead_request {A} conn type param (h : AnyMetaResponse → Z * option A) w w' : dead conn (make_request type param) w w' →
  ProcessRequest conn type param h w = Ret (code SERVER_FAULT, None) w'.
Proof. intros (err & He & Hc). unfold ProcessRequest. rewrite Hc. by rewrite decide_True. Qed.

(** ** The coordinator *)
Lemma ask_coordinator_new n conn r w ip port : FetchCoordinatorInfo clusterName w = Some (ip, port) → mkServerId ip port (srv_id conn) ≠ conn →
  ask_coordinator clusterName n conn (r, w) = Ret (Some (mkServerId ip port (srv_id conn))) (r, w).
Proof.
  intros Hf Hne. destruct n; cbn [ask_coordinator]; rewrite bind_mget; cbn [snd]; rewrite Hf; cbn [fmap option_fmap option_map]; [done|].
  rewrite decide_False; [done|]. intros [?|[= ?]]; done.
Qed.

Lemma TryToUpdateCNConn_new r w ip port (conn := coordinatorConn r) (new := mkServerId ip port (srv_id conn)) :
  FetchCoordinatorInfo clusterName w = Some (ip, port) → new ≠ conn → channel_Init new w = true →
  TryToUpdateCNConn clusterName conn (r, w) = Ret new (r <| coordinatorConn := new |>, w).
Proof.
  intros Hf Hne Hch. unfold TryToUpdateCNConn. rewrite (bind_ret router _ (r, w) r _ eq_refl). rewrite decide_False by tauto.
  rewrite (bind_ret _ _ _ _ _ (ask_coordinator_new RETRY_CNT conn r w ip port Hf Hne)). fold new. rewrite decide_False by done.
  rewrite bind_mget. cbn [snd]. by rewrite Hch.
Qed.

(** When the coordinator does not answer and the cluster manager names a
    new one that can be reached, the library asks that one, returns its answer,
    and keeps to it afterwards. *)
Theorem mkdir_survives_failover (c : St) path ip port w1 w2 reply
    (old := coordinatorConn (c_router c)) (new := mkServerId ip port (srv_id old)) (rq := make_request MKDIR (PathOnlyParam path)) :
  dead old rq (c_meta c) w1 → FetchCoordinatorInfo clusterName w1 = Some (ip, port) → new ≠ old → channel_Init new w1 = true →
  MetaCall new rq w1 = (reply, w2) → reply_code reply ≠ code SERVER_FAULT →
  CuckooMkdir true clusterName path c = Ret (reply_code reply) (c <| c_router := (c_router c) <| coordinatorConn := new |> |> <| c_meta := w2 |>).
Proof.
  intros Hdead Hf Hne Hch Hcall Hok. unfold CuckooMkdir, to_coordinator. rewrite bind_assoc.
  assert (routing GetCoordinatorConn c = Ret old c) as Hold by (unfold routing, mzoom; by destruct c).
  rewrite (bind_ret _ _ _ _ _ Hold). rewrite bind_assoc. unfold send at 1.
  set (request := plain (λ conn, Mkdir conn path)).
  assert (ask (request old) c = Ret (code SERVER_FAULT, None) (c <| c_meta := w1 |>)) as H1.
  { unfold ask, mzoom, request, plain, Mkdir, code_only, mbind, M_bind. by rewrite (dead_request _ _ _ _ _ _ Hdead). }
  rewrite bind_assoc, (bind_ret _ _ _ _ _ H1). unfold RETRY_CNT. cbn [retry]. rewrite decide_True by done.
  assert (routing (TryToUpdateCNConn clusterName old) (c <| c_meta := w1 |>) =
    Ret new (c <| c_router := (c_router c) <| coordinatorConn := new |> |> <| c_meta := w1 |>)) as H2.
  { pose proof (TryToUpdateCNConn_new (c_router c) w1 ip port Hf Hne Hch) as H. fold old in H. fold new in H. unfold routing, mzoom.
    change (c_router (c <| c_meta := w1 |>), c_meta (c <| c_meta := w1 |>)) with (c_router c, w1). by rewrite H. }
  rewrite bind_assoc, (bind_ret _ _ _ _ _ H2). set (c2 := _ <| c_meta := w1 |>).
  assert (ask (request new) c2 = Ret (reply_code reply, None) (c2 <| c_meta := w2 |>)) as H3.
  { unfold ask, mzoom. change (c_meta c2) with w1. unfold request, Mkdir. by rewrite (plain_runs MKDIR (PathOnlyParam path) new w1 reply w2 Hcall). }
  rewrite bind_assoc, (bind_ret _ _ _ _ _ H3). cbn [retry]. by rewrite decide_False by (intros [_ ?]; done).
Qed.

(** ** A worker *)
Lemma first_with_id id x l : x ∈ l → srv_id x = id → (∀ y, y ∈ l → srv_id y = id → y = x) → head (filter (λ s, srv_id s = id) l) = Some x.
Proof.
  intros Hx Hid Hu. destruct (filter (λ s, srv_id s = id) l) as [|y l'] eqn:E.
  - exfalso. assert (x ∈ filter (λ s, srv_id s = id) l) as H by (by apply list_elem_of_filter). rewrite E in H. by apply not_elem_of_nil in H.
  - assert (y ∈ filter (λ s, srv_id s = id) l) as H by (rewrite E; left). apply list_elem_of_filter in H as [Hy Hin]. simpl. by rewrite (Hu y Hin Hy).
Qed.

Lemma GetWorkerConnBySvrId_runs id r (w : W) : GetWorkerConnBySvrId id (r, w) = Ret (head (filter (λ s, srv_id s = id) (routeMap r))) (r, w).
Proof. done. Qed.

Lemma TryToUpdateWorkerConn_new r w w' i infos (old new : ServerIdentifier) :
  old ∈ routeMap r → (∀ y, y ∈ routeMap r → srv_id y = srv_id old → y = old) →
  MetaCall (coordinatorConn r) table_request w = (table_reply (i :: infos), w') → chained 0 (i :: infos) → last_max 0 (i :: infos) = INT32_MAX →
  (∀ s, channel_Init s w' = true) → new ∈ server_of <$> i :: infos → srv_id new = srv_id old → new ≠ old →
  (∀ y, y ∈ server_of <$> i :: infos → srv_id y = srv_id old → y = new) →
  ∃ r', TryToUpdateWorkerConn clusterName rehash old (r, w) = Ret new (r', w') ∧ coordinatorConn r' = coordinatorConn r ∧
    shardTable r' = (-1, mkServerId "" 0 (-1)) :: (row_entry <$> i :: infos).
Proof.
  intros Hold Huniq Hcall Hchain Hlast Hch Hnew Hid Hne Huniq'.
  destruct (FetchShardTable_runs rehash rehash_perm (coordinatorConn r) i infos r w w' Hcall Hchain Hlast Hch) as (r' & Hfetch & Ht & Hc & Hm).
  exists r'. split; [|by split]. unfold TryToUpdateWorkerConn, RETRY_CNT. cbn [update_worker].
  rewrite (bind_ret _ _ _ _ _ (GetWorkerConnBySvrId_runs _ r w)), (first_with_id (srv_id old) old) by done.
  rewrite decide_False by tauto. rewrite (bind_ret GetCoordinatorConn _ (r, w) (coordinatorConn r) (r, w) eq_refl), (bind_ret _ _ _ _ _ Hfetch).
  rewrite (decide_False (P := 0 = code SERVER_FAULT)) by done. rewrite bind_mret.
  rewrite (bind_ret _ _ _ _ _ (GetWorkerConnBySvrId_runs _ r' w')), (first_with_id (srv_id old) new); [by rewrite decide_True| |done|].
  - by apply Hm.
  - intros y Hy. apply Huniq'. by apply Hm.
Qed.

(** A failover as the cluster goes through it: the server [old] of [path], the
    only one with its number, does not answer; the coordinator's shard table,
    chained up to INT32_MAX, has [new] as the only server of that number. *)
Record fails_over (c : St) (path : string) (rq : MetaRequest) (old new : ServerIdentifier) i infos (w1 w2 : W) : Prop := {
  fo_route : GetWorkerConnByPath char_signed path (c_router c, c_meta c) = Ret (Some old) (c_router c, c_meta c);
  fo_known : old ∈ routeMap (c_router c);
  fo_only : ∀ y, y ∈ routeMap (c_router c) → srv_id y = srv_id old → y = old;
  fo_dead : dead old rq (c_meta c) w1;
  fo_table : MetaCall (coordinatorConn (c_router c)) table_request w1 = (table_reply (i :: infos), w2);
  fo_chained : chained 0 (i :: infos);
  fo_last : last_max 0 (i :: infos) = INT32_MAX;
  fo_channels : ∀ s, channel_Init s w2 = true;
  fo_new : new ∈ server_of <$> i :: infos;
  fo_number : srv_id new = srv_id old;
  fo_moved : new ≠ old;
  fo_only_new : ∀ y, y ∈ server_of <$> i :: infos → srv_id y = srv_id old → y = new }.

(** The loop around a request, whatever is asked. *)
Lemma to_worker_survives {A} (request : ServerIdentifier → M W (Z * option A)) (c : St) path rq old new i infos w1 w2 w3 answer :
  fails_over c path rq old new i infos w1 w2 →
  request old (c_meta c) = Ret (code SERVER_FAULT, None) w1 → request new w2 = Ret answer w3 → answer.1 ≠ code SERVER_FAULT →
  ∃ r', to_worker true clusterName rehash request old c = Ret (answer, new) (c <| c_router := r' |> <| c_meta := w3 |>) ∧
    coordinatorConn r' = coordinatorConn (c_router c) ∧
    shardTable r' = (-1, mkServerId "" 0 (-1)) :: (row_entry <$> i :: infos).
Proof.
  intros [_ Hold Huniq _ Htable Hchain Hlast Hch Hnew Hid Hne Huniq'] Hfault Hans Hok. unfold to_worker, send.
  assert (ask (request old) c = Ret (code SERVER_FAULT, None) (c <| c_meta := w1 |>)) as H1 by (unfold ask, mzoom; by rewrite Hfault).
  rewrite (bind_ret _ _ _ _ _ H1). unfold RETRY_CNT. cbn [retry]. rewrite decide_True by done.
  destruct (TryToUpdateWorkerConn_new (c_router c) w1 w2 i infos old new Hold Huniq Htable Hchain Hlast Hch Hnew Hid Hne Huniq') as (r' & Hupd & Hc' & Ht').
  assert (routing (TryToUpdateWorkerConn clusterName rehash old) (c <| c_meta := w1 |>) = Ret new (c <| c_router := r' |> <| c_meta := w2 |>)) as H2.
  { unfold routing, mzoom. change (c_router (c <| c_meta := w1 |>), c_meta (c <| c_meta := w1 |>)) with (c_router c, w1). by rewrite Hupd. }
  rewrite (bind_ret _ _ _ _ _ H2). set (c2 := c <| c_router := r' |> <| c_meta := w2 |>).
  assert (ask (request new) c2 = Ret answer (c2 <| c_meta := w3 |>)) as H3.
  { unfold ask, mzoom. change (c_meta c2) with w2. by rewrite Hans. }
  rewrite (bind_ret _ _ _ _ _ H3). cbn [retry]. rewrite decide_False by (intros [_ ?]; done). by exists r'.
Qed.

(** The operations of the library that are one request to the server of a path. *)
Inductive path_op := GetStat | Utimens (accessTime modifyTime : Z) | ChangeOwner (uid gid : Z) | ChangeMode (mode : Z).

Definition run_path_op (op : path_op) (path : string) : M St (Z * option stat) :=
  match op with
  | GetStat => CuckooGetStat true char_signed clusterName rehash path
  | Utimens atime mtime => ret ← CuckooUtimens true char_signed clusterName rehash path atime mtime; mret (ret, None)
  | ChangeOwner uid gid => ret ← CuckooChown true char_signed clusterName rehash path uid gid; mret (ret, None)
  | ChangeMode mode => ret ← CuckooChmod true char_signed clusterName rehash path mode; mret (ret, None)
  end.

Definition op_request (op : path_op) (path : string) : MetaRequest :=
  match op with
  | GetStat => make_request STAT (PathOnlyParam path)
  | Utimens atime mtime => make_request UTIMENS (UtimeNsParam path atime mtime)
  | ChangeOwner uid gid => make_request CHOWN (ChownParam path uid gid)
  | ChangeMode mode => make_request CHMOD (ChmodParam path mode)
  end.

(** What a reply means: a code, and the attributes of a file for GetStat. *)
Definition op_answer (op : path_op) (reply : meta_reply) : Z * option stat :=
  match op, reply with
  | GetStat, MetaResponse error_code response =>
    if decide (error_code ≠ SUCCESS) then (reply_code reply, None)
    else match response with StatResponse a => (code SUCCESS, Some (fill_stat a)) | _ => (code PROGRAM_ERROR, None) end
  | _, _ => (reply_code reply, None)
  end.

Lemma path_request_survives {A} (request : ServerIdentifier → M W (Z * option A)) (c : St) path rq old new i infos w1 w2 w3 answer :
  fails_over c path rq old new i infos w1 w2 →
  request old (c_meta c) = Ret (code SERVER_FAULT, None) w1 → request new w2 = Ret answer w3 → answer.1 ≠ code SERVER_FAULT →
  ∃ r', path_request true char_signed clusterName rehash path request c = Ret answer (c <| c_router := r' |> <| c_meta := w3 |>) ∧
    coordinatorConn r' = coordinatorConn (c_router c) ∧
    shardTable r' = (-1, mkServerId "" 0 (-1)) :: (row_entry <$> i :: infos).
Proof.
  intros Hf H1 H2 Hok. destruct (to_worker_survives request c path rq old new i infos w1 w2 w3 answer Hf H1 H2 Hok) as (r' & Hw & ?).
  exists r'. split; [|done]. unfold path_request.
  assert (routing (GetWorkerConnByPath char_signed path) c = Ret (Some old) c) as H0
    by (unfold routing, mzoom; rewrite (fo_route _ _ _ _ _ _ _ _ _ Hf); by destruct c).
  rewrite (bind_ret _ _ _ _ _ H0), (bind_ret _ _ _ _ _ Hw). by destruct answer.
Qed.

(** The requests that answer with a code only. *)
Lemma code_request_survives (request : ServerIdentifier → M W Z) type param (c : St) path old new i infos w1 w2 w3 reply :
  (∀ conn, request conn = code_only conn type param) →
  fails_over c path (make_request type param) old new i infos w1 w2 →
  MetaCall new (make_request type param) w2 = (reply, w3) → reply_code reply ≠ code SERVER_FAULT →
  ∃ r', (ret ← ('(ret, _) ← path_request true char_signed clusterName rehash path (plain request); mret ret); mret (ret, None)) c =
      Ret (reply_code reply, None : option stat) (c <| c_router := r' |> <| c_meta := w3 |>) ∧
    coordinatorConn r' = coordinatorConn (c_router c) ∧
    shardTable r' = (-1, mkServerId "" 0 (-1)) :: (row_entry <$> i :: infos).
Proof.
  intros Hreq Hf Hcall Hok. pose proof (fo_dead _ _ _ _ _ _ _ _ _ Hf) as Hdead.
  destruct (path_request_survives (plain request) c path _ old new i infos w1 w2 w3 (reply_code reply, None) Hf) as (r' & H & ?).
  - unfold plain. rewrite Hreq. unfold code_only, mbind, M_bind. by rewrite (dead_request _ _ _ _ _ _ Hdead).
  - unfold plain. rewrite Hreq. by apply (plain_runs type param).
  - exact Hok.
  - exists r'. split; [|done]. by rewrite !bind_assoc, (bind_ret _ _ _ _ _ H).
Qed.

End failover.

(** ** Opens that are refused *)
Section refused.
Context {F R B T W : Type} `{!Posix F} `{!Statvfs F} `{!Storage B F} `{!ReadAhead T} `{!MetaService W} `{!Zookeeper W}.
Context (peers : string → Stub R) (cfg : Config) (char_signed : bool) (clusterName : string) (rehash : list ServerIdentifier → list ServerIdentifier).
Context (memory_given : ∀ f : F, (posix_alloc f).1 = true).
Local Abbreviation St := (Client F R B T W).
Local Abbreviation OpenOf := (CuckooOpen peers cfg false char_signed clusterName rehash).

Definition counted (c : St) : Z := currOpenInstance (v_fds (c_server c)).
(** The metadata server of [path] answers every open with [ec]. *)
Definition refuses (c : St) (path : string) (ec : Z) : Prop := ∃ conn response,
  routed char_signed c path conn ∧ MetaCall conn (make_request OPEN (PathOnlyParam path)) (c_meta c) = (MetaResponse ec response, c_meta c).

Lemma memory_runs (c : St) : ∃ s, memory c = Ret true (with_store s c).
Proof.
  assert (∃ s, fs (R := R) (B := B) posix_alloc (store_of c) = Ret true s) as [s Hs].
  { unfold fs, io, on_fs, mzoom. specialize (memory_given (io_fs (s_io (store_of c)))). destruct (posix_alloc _) as [b f']. simpl in memory_given. subst b. eauto. }
  exists s. by apply on_store_runs.
Qed.

Definition with_fds (f : CuckooFd T) (c : St) : St := c <| c_server ::= (λ v, v <| v_fds := f |>) |>.
Lemma on_open_files_runs {A} (g : CuckooFd T → A * CuckooFd T) (c : St) a f : g (v_fds (c_server c)) = (a, f) → on_open_files g c = Ret a (with_fds f c).
Proof. intros H. unfold on_open_files, on_fds, mzoom. by rewrite H. Qed.

Lemma refused_open (c : St) path flags ec : refuses c path ec → 0 < ec < code LAST_CUCKOO_ERROR_CODE → 0 ≤ counted c < MAX_OPENINSTANCE_NUM →
  ∃ c', OpenOf path flags c = Ret (ec, None, None) c' ∧ openInstanceMap (v_fds (c_server c')) = openInstanceMap (v_fds (c_server c)) ∧ counted c' = counted c + 1 ∧ c_router c' = c_router c ∧ c_meta c' = c_meta c.
Proof.
  intros (conn & resp & Hroute & Hcall) Hec Hcnt. unfold CuckooOpen.
  assert (routing (GetWorkerConnByPath char_signed path) c = Ret (Some conn) c) as H0 by (unfold routing, mzoom; rewrite Hroute; by destruct c).
  rewrite (bind_ret _ _ _ _ _ H0). destruct (memory_runs c) as [s Hs]. rewrite (bind_ret _ _ _ _ _ Hs), bind_mget.
  unfold WaitGetNewOpenInstance. change (currOpenInstance (v_fds (c_server (with_store s c)))) with (counted c). rewrite bool_decide_true by lia. cbn [negb andb].
  erewrite bind_ret by (apply on_open_files_runs; reflexivity). set (c1 := with_fds _ _).
  erewrite bind_ret.
  2: { apply to_worker_once; [done|]. unfold Connection.Open, ProcessRequest. change (c_meta c1) with (c_meta c). rewrite Hcall.
       rewrite decide_True, decide_True by (change (code SUCCESS) with 0; lia). reflexivity. }
  cbv beta iota zeta. rewrite decide_False by (change (code SUCCESS) with 0; lia). eexists. split; [reflexivity|]. split; [done|]. split; [|done].
  change (u32 (counted c + 1) = counted c + 1). unfold u32. rewrite Z.mod_small; [done|]. unfold MAX_OPENINSTANCE_NUM in Hcnt. lia.
Qed.

Lemma full_open (c : St) path flags conn : routed char_signed c path conn → counted c = MAX_OPENINSTANCE_NUM → OpenOf path flags c = Diverge.
Proof.
  intros Hroute Hcnt. unfold CuckooOpen.
  assert (routing (GetWorkerConnByPath char_signed path) c = Ret (Some conn) c) as H0 by (unfold routing, mzoom; rewrite Hroute; by destruct c).
  rewrite (bind_ret _ _ _ _ _ H0). destruct (memory_runs c) as [s Hs]. rewrite (bind_ret _ _ _ _ _ Hs), bind_mget.
  unfold WaitGetNewOpenInstance. change (currOpenInstance (v_fds (c_server (with_store s c)))) with (counted c). by rewrite bool_decide_false by lia.
Qed.

(** [n] opens, one after the other, whatever they return. *)
Fixpoint opens (n : nat) (path : string) (flags : Z) : M St () :=
  match n with O => mret () | S n' => OpenOf path flags ;; opens n' path flags end.

(** An open that the metadata server refuses gives its place among the
    counted open files never back: after as many refused opens as there are places,
    every further open of any file waits forever, although no file is open. *)
Theorem refused_opens_block n (c : St) path flags ec :
  refuses c path ec → 0 < ec < code LAST_CUCKOO_ERROR_CODE → 0 ≤ counted c → counted c + Z.of_nat n = MAX_OPENINSTANCE_NUM →
  ∃ c', opens n path flags c = Ret () c' ∧ openInstanceMap (v_fds (c_server c')) = openInstanceMap (v_fds (c_server c)) ∧
    ∀ path' flags' conn, routed char_signed c' path' conn → OpenOf path' flags' c' = Diverge.
Proof.
  intros Href Hec. revert c Href. induction n as [|n IH]; intros c Href Hc Hn; cbn [opens].
  - exists c. split; [done|]. split; [done|]. intros path' flags' conn Hroute. eapply full_open; [done|lia].
  - destruct (refused_open c path flags ec Href Hec ltac:(lia)) as (c1 & H1 & Hm & Hcnt & Hr & Hw).
    destruct (IH c1) as (c' & Hrun & Hmap & Hdiv); [|lia|lia|].
    + destruct Href as (conn & resp & Hroute & Hcall). exists conn, resp. unfold routed. rewrite Hr, Hw. by split.
    + exists c'. rewrite (bind_ret _ _ _ _ _ H1). split; [done|]. split; [congruence|done].
Qed.
End refused.
