(* ===== verification/ClientWitness.v ===== *)
(** * Examples of the client

    The theorems on the client applied to small clusters, and what the code does
    in cases nobody seems to have meant. *)
From stdpp Require Import pretty.
From S2P Require Import Prelude Pg Shard DirHash Inode FileOps ReadDir Posix FileLock DiskCache IOClient WriteStream Node Store Server StoreSpec ServerSpec StoreWitness.
From S2P Require Import Connection Router RouterSpec Client ClientDir Fuse ClientDirSpec ClientWrite ClientSpec.
Local Open Scope Z_scope.

Module ClientWitness.
Import DiskCacheWitness WriteStreamWitness StoreWitness.

#[local] Instance no_zookeeper {W} : Zookeeper W := { zoo_get _ _ := inl (-1); zoo_get_children _ _ := inl (-1) }.

Abbreviation St := (Client RefFs Peer Objects (list Z)).
Definition client_with {W} (r : Router) (w : W) (dirs : gmap Z DirOpenInstance) : St W :=
  mkClient (mkServer store7 new_CuckooFd) dirs r w.

(** ** A directory on two workers *)
Definition file_row (name : string) (mode : Z) : FormData_dfs_inode_table := mkInode name 0 0 0 mode 1 0 0 0 0 0 0 0 0 0 "" 0 0 0.
Definition s1 : ServerIdentifier := mkServerId "10.0.0.1" 5442 1.
Definition s2 : ServerIdentifier := mkServerId "10.0.0.2" 5442 2.
Definition parts (conn : ServerIdentifier) : list (Z * FormData_dfs_inode_table) :=
  if decide (conn = s1) then [(0, file_row "a" 1); (0, file_row "c" 1); (2, file_row "b" 2)] else [(1, file_row "d" 1)].

(** A worker that answers pages of a listing. *)
Definition page_info (l : list (Z * FormData_dfs_inode_table)) (n k : nat) : MetaProcessInfoData :=
  let next := if decide (n + k ≤ length l)%nat then l !! (n + k - 1)%nat else None in
  mkInfo "" 0 0 0 0 None 0 0 0 0 0 0 0 0 0 0 0 0 "" 0 (from_option fst (-1) next) ((λ e, it_name e.2) <$> next) (page k (drop n l)) "" 0 0 None false 0 SUCCESS.
Definition position_of (l : list (Z * FormData_dfs_inode_table)) (j : Z) (name : option string) : nat :=
  if decide (j = -1) then O else from_option (λ p, S p.1) O (list_find (λ e, Some (it_name e.2) = name) l).

Definition listing_service (part : ServerIdentifier → list (Z * FormData_dfs_inode_table)) : MetaService () := {|
  brpc_ELOGOFF := 2002;
  MetaCall conn rq w :=
    (match rq_param rq with
     | ReadDirParam _ k j name => reply_of (page_info (part conn) (position_of (part conn) j name) (Z.to_nat k))
     | _ => CorruptReply
     end, w);
  channel_Init _ _ := true |}.

Lemma page_info_answers l n k : (0 < k)%nat → (n ≤ length l)%nat → page_answer l n k (page_info l n k).
Proof.
  intros Hk Hn. unfold page_answer, page_info. split; [done|]. split; [done|]. destruct (decide (n + k ≤ length l)%nat) as [Hle|Hle]; [|done].
  destruct (n + k)%nat as [|m] eqn:Hm; [lia|]. simpl. rewrite Nat.sub_0_r. destruct (lookup_lt_is_Some_2 l m) as [[j e] He]; [lia|].
  exists j, e. by rewrite He.
Qed.

Lemma parts_serve conn : conn = s1 ∨ conn = s2 → serves (MetaService0 := listing_service parts) "/d" () parts conn ∧ named parts conn.
Proof.
  intros Hconn. split.
  - intros x n k Hx Hn Hk. exists (page_info (parts conn) n (Z.to_nat k)). split; [apply page_info_answers; [lia|done]|].
    cbn. do 3 f_equal. destruct Hconn as [->| ->].
    + change (parts s1) with [(0, file_row "a" 1); (0, file_row "c" 1); (2, file_row "b" 2)] in *.
      destruct n as [|[|[|[|n]]]]; simpl in Hn; try lia; simpl in Hx;
        [rewrite Hx; done|destruct Hx as (j & e & [= <- <-] & -> & ->); vm_compute; reflexivity..].
    + change (parts s2) with [(1, file_row "d" 1)] in *.
      destruct n as [|[|n]]; simpl in Hn; try lia; simpl in Hx; [rewrite Hx; done|destruct Hx as (j & e & [= <- <-] & -> & ->); vm_compute; reflexivity].
  - destruct Hconn as [->| ->]; unfold named; vm_compute; repeat constructor; discriminate.
Qed.

Definition two_workers : Router := mkRouter s1 [] [s1; s2].
Definition dir_client : St () := client_with two_workers () {[9 := new_DirOpenInstance]}.

Lemma readdir_lists_every_worker_witness :
  let Hm := listing_service parts in
  ∃ names c', list_directory false "c" id id "/d" 2 6 9 0 dir_client = Ret ("."%string :: ".."%string :: names) c' ∧
    names ≡ₚ ["a"; "c"; "b"; "d"]%string.
Proof.
  intros Hm. apply (readdir_lists_every_worker false "c" id id (λ l, reflexivity l) "/d" () parts ltac:(discriminate) 2 6 9 dir_client).
  - lia.
  - reflexivity.
  - reflexivity.
  - vm_compute. repeat constructor; set_solver.
  - apply Forall_cons_2; [apply parts_serve; by left|]. apply Forall_cons_2; [apply parts_serve; by right|apply Forall_nil_2].
  - vm_compute. discriminate.
  - vm_compute. reflexivity.
  - vm_compute. lia.
Defined.

(** The calls themselves, with a buffer for two entries. *)
Example directory_listed :
  let Hm := listing_service parts in
  match list_directory false "c" id id "/d" 2 6 9 0 dir_client with
  | Ret names _ => names = ["."; ".."; "a"; "c"; "b"; "d"]%string
  | _ => False
  end.
Proof. vm_compute. reflexivity. Qed.

(** ** A file of another node *)
Definition confirming : MetaService () := {|
  brpc_ELOGOFF := 2002;
  MetaCall conn rq w := (MetaResponse SUCCESS NoResponse, w);
  channel_Init _ _ := true |}.

Definition one_worker : Router := mkRouter s1 [(INT32_MAX, s1)] [s1].
Definition open_there : OpenInstance (list Z) :=
  new_OpenInstance <| inodeId := 7 |> <| currentSize := 300 |> <| originalSize := 300 |> <| physicalFd := 5 |> <| oflags := 1 |>
    <| oi_nodeId := 0 |> <| isOpened := true |> <| Store.path := "/dir/y"%string |> <| client := "a:1"%string |>
    <| writeStream := mkWriteStream 5 true new_SerialData 7 false |>.
Definition writing_client : Client RefFs Srv Objects (list Z) () :=
  mkClient (mkServer (mkStore (mkIO both.1 both.2 server7) ∅ new_FileLock nodes0 ∅ []) (mkFds {[8 := open_there]} {[7 := {[8]}]} 9 1)) ∅ one_worker ().
Definition there : string → Stub Srv := to_server cfg0 peers0 id [].
Definition writes1 : list (list Z * Z) := [([1; 2], 299); ([3], 301)].

Lemma open_there_ok : remote_open_file there "a:1" (SF := server_files cfg0 peers0 id [] "a:1") writing_client open_there.
Proof.
  split; try reflexivity.
  - intros H. discriminate H.
  - intros H. discriminate H.
  - split; try reflexivity. intros H. discriminate H.
  - simpl. lia.
  - exact server7_open.
Qed.


Example bytes_on_the_other_disk :
  let Hm := confirming in
  match write_then_flush there cfg0 false true "c" id "/dir/y" 8 writes1 writing_client with
  | Ret r c' => r = Some 0 ∧ drop 298 (server_file (remote_of c') 5) = [0; 1; 2; 3]
  | _ => False
  end.
Proof. vm_compute. split; reflexivity. Qed.

(** ** Servers that die *)
Definition leader : Zookeeper () := {|
  zoo_get p _ := if decide (p = "c/leaders/cn"%string) then inr "10.0.0.9:5442"%string else inl (-1);
  zoo_get_children _ _ := inl (-1) |}.
Definition moved : ShardInfo := mkShardInfo 0 2147483647 "10.0.0.7" 5432 1.
Definition attributes : Attributes := mkAttributes 7 0 33188 1 0 0 0 300 0 0 0.
(** [s1] is dead. *)
Definition one_dead : MetaService () := {|
  brpc_ELOGOFF := 2002;
  MetaCall conn rq w :=
    (if decide (conn = s1) then CallFailed 2002
     else match rq_type rq with
          | PLAIN_COMMAND => table_reply [moved]
          | STAT => MetaResponse SUCCESS (StatResponse attributes)
          | _ => MetaResponse SUCCESS NoResponse
          end, w);
  channel_Init _ _ := true |}.

Definition dead_coordinator : St () := client_with one_worker () ∅.
Lemma mkdir_survives_failover_witness :
  let Hm := one_dead in let Hz := leader in
  CuckooMkdir true "c" "/d" dead_coordinator = Ret 0 (dead_coordinator <| c_router := one_worker <| coordinatorConn := mkServerId "10.0.0.9" 5452 1 |> |> <| c_meta := () |>).
Proof.
  intros Hm Hz.
  apply (mkdir_survives_failover "c" dead_coordinator "/d" "10.0.0.9" 5452 () () (MetaResponse SUCCESS NoResponse)).
  - exists 2002. split; [by left|reflexivity].
  - vm_compute. reflexivity.
  - discriminate.
  - reflexivity.
  - reflexivity.
  - discriminate.
Defined.

Definition dead_worker : St () := client_with (one_worker <| coordinatorConn := mkServerId "10.0.0.8" 5442 0 |>) () ∅.

(** ** Opens of a file that does not exist *)
Definition refusing : MetaService () := {|
  brpc_ELOGOFF := 2002;
  MetaCall _ _ w := (MetaResponse FILE_NOT_EXISTS NoResponse, w);
  channel_Init _ _ := true |}.

Lemma ref_memory (f : RefFs) : (posix_alloc f).1 = true.
Proof. reflexivity. Qed.

Lemma refused_opens_block_witness :
  let Hm := refusing in
  ∃ c', opens peers0 cfg0 true "c" id 4000 "/d/f" 0 dead_coordinator = Ret () c' ∧
    openInstanceMap (v_fds (c_server c')) = openInstanceMap (v_fds (c_server dead_coordinator)) ∧
    ∀ path' flags' conn, routed true c' path' conn → CuckooOpen peers0 cfg0 false true "c" id path' flags' c' = Diverge.
Proof.
  intros Hm. apply (refused_opens_block peers0 cfg0 true "c" id ref_memory 4000 dead_coordinator "/d/f" 0 (code FILE_NOT_EXISTS)).
  - exists s1, NoResponse. split; [vm_compute; reflexivity|reflexivity].
  - vm_compute. split; reflexivity.
  - vm_compute. discriminate.
  - vm_compute. reflexivity.
Defined.

(** ** What nobody seems to have meant *)

(** Without O_EXCL, creating a file that exists: the answer carries no inode,
    and an inode nobody has stored anything in is used for the open file. *)
Definition existing : MetaService () := {|
  brpc_ELOGOFF := 2002;
  MetaCall _ _ w := (MetaResponse FILE_EXISTS NoResponse, w);
  channel_Init _ _ := true |}.
Theorem create_existing_reads_garbage :
  let Hm := existing in
  DoOpenAtomic peers0 cfg0 false true "c" id (Some "/d/f"%string) O_CREAT dead_coordinator = Undefined.
Proof. vm_compute. reflexivity. Qed.

(** A worker that answers a listing with an error: the response is a null pointer. *)
Theorem readdir_error_dereferences_null :
  let Hm := refusing in
  DoReadDir false "c" id id (fill_dir 4) (Some "/d"%string) (Some []) 0 9 dir_client = Undefined.
Proof. vm_compute. reflexivity. Qed.

(** The modes of a second round are looked up among those of the first: the file
    that is alone in it has mode 2 and is listed with mode 1. *)
Definition many : list (Z * FormData_dfs_inode_table) :=
  ((λ i, (0, file_row (pretty i) 1)) <$> seq 0 4096) ++ [(0, file_row "last" 2)].
Definition second_round (w : MetaService ()) : option (list (string * option Z)) :=
  let Hm := w in
  match (DoReadDir false "c" id id (fill_dir 5000) (Some "/d"%string) (Some []) 0 9 ;;
         DoReadDir false "c" id id (fill_dir 5000) (Some "/d"%string) (Some []) 4098 9) (client_with one_worker () {[9 := new_DirOpenInstance]}) with
  | Ret (_, Some b) _ => Some b.*1
  | _ => None
  end.
Theorem second_round_modes_wrong : second_round (listing_service (λ _, many)) = Some [("last"%string, Some 1)].
Proof. vm_compute. reflexivity. Qed.

(** A write to a file that is not open returns the code NOT_FOUND_FD, which FUSE
    takes for the number of bytes written. *)
Theorem write_to_closed_file_succeeds :
  let Hm := confirming in
  match DoWrite peers0 cfg0 (Some "/d/f"%string) (Some (repeat 0 64)) 0 77 dead_coordinator with Ret n _ => n = 31 | _ => False end.
Proof. vm_compute. reflexivity. Qed.

(** The slash at the end of a path stays in the name that is hashed. *)
Theorem trailing_slash_hashed : hashed_name "/data/a/" = "a/"%string ∧ hashed_name "/data/a" = "a"%string.
Proof. split; reflexivity. Qed.

(** A listing that is started again half way (rewinddir) goes on where it was. *)
Theorem rewind_goes_on :
  let Hm := listing_service (λ _, many) in
  match (DoReadDir false "c" id id (fill_dir 3) (Some "/d"%string) (Some []) 0 9 ;;
         DoReadDir false "c" id id (fill_dir 4) (Some "/d"%string) (Some []) 0 9) (client_with one_worker () {[9 := new_DirOpenInstance]}) with
  | Ret (_, Some b) _ => entry_names b = ["."; ".."; "1"; "2"]%string
  | _ => False
  end.
Proof. vm_compute. reflexivity. Qed.

(** A file changed half a second after midnight is shown with 500000 nanoseconds. *)
Theorem nanoseconds_are_microseconds : ConvertTimestampFromPGToUnix 500000 = (946684800, 500000).
Proof. reflexivity. Qed.
End ClientWitness.
