(* ===== verification/MetaCodec.v ===== *)
(** * Requests on the wire (metadb/meta_serialize_interface_helper.cpp)

    A request travels as a segment that holds a FlatBuffers table, with the
    number of its service beside it.  This file gives the tables of
    cuckoo_meta_param.fbs, the numbers of cuckoo_meta_rpc.proto, and the server's
    decoder, from bytes to the array of requests that the handlers work on.
    FlatBuffers itself is an interface: a builder, and a verifier that accepts
    what the builder made. *)

From S2P Require Import Prelude Pg Inode RemoteComm DirOps SerializedData Connection.
#[local] Open Scope Z_scope.

(** ** Service numbers *)
Definition MetaServiceTypeDecode (type : Z) : CuckooSupportMetaService :=
  match type with
  | 1 => RemoteComm.MKDIR | 2 => MKDIR_SUB_MKDIR | 3 => MKDIR_SUB_CREATE | 4 => RemoteComm.CREATE | 5 => RemoteComm.STAT
  | 6 => RemoteComm.OPEN | 7 => RemoteComm.CLOSE | 8 => RemoteComm.UNLINK | 9 => RemoteComm.READDIR | 10 => RemoteComm.OPENDIR
  | 11 => RemoteComm.RMDIR | 12 => RMDIR_SUB_RMDIR | 13 => RMDIR_SUB_UNLINK | 14 => RemoteComm.RENAME
  | 15 => RENAME_SUB_RENAME_LOCALLY | 16 => RENAME_SUB_CREATE | 17 => RemoteComm.UTIMENS | 18 => RemoteComm.CHOWN
  | 19 => RemoteComm.CHMOD
  | _ => NOT_SUPPORTED
  end.

Definition MetaServiceTypeEncode (metaService : CuckooSupportMetaService) : Z :=
  match metaService with
  | RemoteComm.MKDIR => 1 | MKDIR_SUB_MKDIR => 2 | MKDIR_SUB_CREATE => 3 | RemoteComm.CREATE => 4 | RemoteComm.STAT => 5
  | RemoteComm.OPEN => 6 | RemoteComm.CLOSE => 7 | RemoteComm.UNLINK => 8 | RemoteComm.READDIR => 9 | RemoteComm.OPENDIR => 10
  | RemoteComm.RMDIR => 11 | RMDIR_SUB_RMDIR => 12 | RMDIR_SUB_UNLINK => 13 | RemoteComm.RENAME => 14
  | RENAME_SUB_RENAME_LOCALLY => 15 | RENAME_SUB_CREATE => 16 | RemoteComm.UTIMENS => 17 | RemoteComm.CHOWN => 18
  | RemoteComm.CHMOD => 19
  | RemoteComm.PLAIN_COMMAND | NOT_SUPPORTED => -1
  end.

(** The number of a client's request. *)
Definition proto_number (type : MetaServiceType) : Z :=
  match type with
  | PLAIN_COMMAND => 0 | MKDIR => 1 | CREATE => 4 | STAT => 5 | OPEN => 6 | CLOSE => 7 | UNLINK => 8 | READDIR => 9
  | OPENDIR => 10 | RMDIR => 11 | RENAME => 14 | UTIMENS => 17 | CHOWN => 18 | CHMOD => 19
  end.

(** ** The tables of cuckoo_meta_param.fbs

    A string that is absent is [None]; a number that is absent has its default
    value. *)
Inductive FbParam :=
  | Fb_NONE
  | Fb_PlainCommandParam (command : option string)
  | Fb_PathOnlyParam (path : option string)
  | Fb_MkdirSubMkdirParam (parent_id : Z) (name : option string) (inode_id : Z)
  | Fb_MkdirSubCreateParam (parent_id_part_id : Z) (name : option string) (inode_id st_mode st_mtim st_size : Z)
  | Fb_CloseParam (path : option string) (st_size st_mtim node_id : Z)
  | Fb_ReadDirParam (path : option string) (max_read_count last_shard_index : Z) (last_file_name : option string)
  | Fb_RmdirSubRmdirParam (parent_id : Z) (name : option string)
  | Fb_RmdirSubUnlinkParam (parent_id_part_id : Z) (name : option string)
  | Fb_RenameParam (src dst : option string)
  | Fb_RenameSubRenameLocallyParam (src_parent_id src_parent_id_part_id : Z) (src_name : option string)
      (dst_parent_id dst_parent_id_part_id : Z) (dst_name : option string) (target_is_directory : bool)
      (directory_inode_id src_lock_order : Z)
  | Fb_RenameSubCreateParam (parentid_partid : Z) (name : option string)
      (st_ino st_dev st_mode st_nlink st_uid st_gid st_rdev st_size st_blksize st_blocks st_atim st_mtim st_ctim node_id : Z)
  | Fb_UtimeNsParam (path : option string) (st_atim st_mtim : Z)
  | Fb_ChownParam (path : option string) (st_uid st_gid : Z)
  | Fb_ChmodParam (path : option string) (st_mode : Z).

(** What the columns can hold. *)
Definition in_u64 (z : Z) : Prop := 0 ≤ z < 2 ^ 64.
Definition in_u32 (z : Z) : Prop := 0 ≤ z < 2 ^ 32.
Definition in_i64 (z : Z) : Prop := - 2 ^ 63 ≤ z < 2 ^ 63.
Definition in_i32 (z : Z) : Prop := - 2 ^ 31 ≤ z < 2 ^ 31.
Definition fb_typed (p : FbParam) : Prop :=
  match p with
  | Fb_NONE | Fb_PlainCommandParam _ | Fb_PathOnlyParam _ | Fb_RenameParam _ _ => True
  | Fb_MkdirSubMkdirParam a _ b => in_u64 a ∧ in_u64 b
  | Fb_MkdirSubCreateParam a _ b m t s => in_u64 a ∧ in_u64 b ∧ in_u32 m ∧ in_u64 t ∧ in_i64 s
  | Fb_CloseParam _ s t n => in_i64 s ∧ in_u64 t ∧ in_i32 n
  | Fb_ReadDirParam _ m l _ => in_i32 m ∧ in_i32 l
  | Fb_RmdirSubRmdirParam a _ | Fb_RmdirSubUnlinkParam a _ => in_u64 a
  | Fb_RenameSubRenameLocallyParam a b _ c d _ _ i o => in_u64 a ∧ in_u64 b ∧ in_u64 c ∧ in_u64 d ∧ in_u64 i ∧ in_i32 o
  | Fb_RenameSubCreateParam a _ i d m nl u g r s bs b at_ mt ct n =>
      in_u64 a ∧ in_u64 i ∧ in_u64 d ∧ in_u32 m ∧ in_u64 nl ∧ in_u32 u ∧ in_u32 g ∧ in_u64 r ∧ in_i64 s ∧ in_i64 bs ∧
      in_i64 b ∧ in_u64 at_ ∧ in_u64 mt ∧ in_u64 ct ∧ in_i32 n
  | Fb_UtimeNsParam _ a m => in_u64 a ∧ in_u64 m
  | Fb_ChownParam _ u g => in_u32 u ∧ in_u32 g
  | Fb_ChmodParam _ m => in_u64 m
  end.

(** The builder (Clear, Create..., Finish), and Verifier::VerifyBuffer with
    GetMetaParam.  The root is found from the start of the buffer, so bytes behind
    the table do not matter. *)
Class FlatBuffers := {
  fb_build : FbParam → list Z;
  fb_verify : list Z → option FbParam;
  fb_bytes p : Forall is_byte (fb_build p);
  fb_verify_build p rest : fb_typed p → fb_verify (fb_build p ++ rest) = Some p }.

(** ** Decoding *)

(** The fields of a request that a table fills in an element of the array,
    by the service: [Some None] when the table is not the service's (the decoder
    returns false), [None] when a string is missing and a null pointer is
    followed.  The name a listing starts behind is missing in a client's first
    request; the pointer that is made of it is never followed then, which is
    [None] here. *)
Definition decode_param (metaService : CuckooSupportMetaService) (p : FbParam) (info : MetaProcessInfoData)
    : option (option MetaProcessInfoData) :=
  match metaService with
  | RemoteComm.MKDIR | RemoteComm.CREATE | RemoteComm.STAT | RemoteComm.OPEN | RemoteComm.UNLINK | RemoteComm.OPENDIR
  | RemoteComm.RMDIR =>
    match p with Fb_PathOnlyParam q => q ← q; Some (Some (info <| Inode.path := q |>)) | _ => Some None end
  | MKDIR_SUB_MKDIR =>
    match p with
    | Fb_MkdirSubMkdirParam parent_id name inode_id =>
      name ← name; Some (Some (info <| mi_parentId := parent_id |> <| mi_name := Some name |> <| mi_inodeId := inode_id |>))
    | _ => Some None
    end
  | MKDIR_SUB_CREATE =>
    match p with
    | Fb_MkdirSubCreateParam pp name inode_id mode mtim size =>
      name ← name; Some (Some (info <| mi_parentId_partId := pp |> <| mi_name := Some name |> <| mi_inodeId := inode_id |>
        <| Inode.st_mode := mode |> <| Inode.st_size := size |> <| Inode.st_mtim := i64 mtim |>))
    | _ => Some None
    end
  | RemoteComm.CLOSE =>
    match p with
    | Fb_CloseParam q size mtim node =>
      q ← q; Some (Some (info <| Inode.path := q |> <| Inode.st_size := size |> <| Inode.st_mtim := i64 mtim |> <| Inode.node_id := node |>))
    | _ => Some None
    end
  | RemoteComm.READDIR =>
    match p with
    | Fb_ReadDirParam q max_read_count last_shard_index last_file_name =>
      q ← q; Some (Some (info <| Inode.path := q |> <| readDirMaxReadCount := max_read_count |>
        <| readDirLastShardIndex := last_shard_index |> <| readDirLastFileName := last_file_name |>))
    | _ => Some None
    end
  | RMDIR_SUB_RMDIR =>
    match p with
    | Fb_RmdirSubRmdirParam parent_id name => name ← name; Some (Some (info <| mi_parentId := parent_id |> <| mi_name := Some name |>))
    | _ => Some None
    end
  | RMDIR_SUB_UNLINK =>
    match p with
    | Fb_RmdirSubUnlinkParam pp name => name ← name; Some (Some (info <| mi_parentId_partId := pp |> <| mi_name := Some name |>))
    | _ => Some None
    end
  | RemoteComm.RENAME =>
    match p with
    | Fb_RenameParam src dst => src ← src; dst ← dst; Some (Some (info <| Inode.path := src |> <| dstPath := dst |>))
    | _ => Some None
    end
  | RENAME_SUB_RENAME_LOCALLY =>
    match p with
    | Fb_RenameSubRenameLocallyParam sp spp sname dp dpp dname dir ino order =>
      sname ← sname; dname ← dname;
      Some (Some (info <| mi_parentId := sp |> <| mi_parentId_partId := spp |> <| mi_name := Some sname |> <| dstParentId := dp |>
        <| dstParentIdPartId := dpp |> <| dstName := Some dname |> <| targetIsDirectory := dir |> <| srcLockOrder := order |>
        <| mi_inodeId := ino |>))
    | _ => Some None
    end
  | RENAME_SUB_CREATE =>
    match p with
    | Fb_RenameSubCreateParam pp name ino dev mode nlink uid gid rdev size blksize blocks atim mtim ctim node =>
      name ← name;
      Some (Some (info <| mi_parentId_partId := pp |> <| mi_name := Some name |> <| mi_inodeId := ino |> <| Inode.st_dev := dev |>
        <| Inode.st_mode := mode |> <| Inode.st_nlink := nlink |> <| Inode.st_uid := uid |> <| Inode.st_gid := gid |>
        <| Inode.st_rdev := rdev |> <| Inode.st_size := size |> <| Inode.st_blksize := blksize |> <| Inode.st_blocks := blocks |>
        <| Inode.st_atim := i64 atim |> <| Inode.st_mtim := i64 mtim |> <| Inode.st_ctim := i64 ctim |> <| Inode.node_id := node |>))
    | _ => Some None
    end
  | RemoteComm.UTIMENS =>
    match p with
    | Fb_UtimeNsParam q atim mtim => q ← q; Some (Some (info <| Inode.path := q |> <| Inode.st_atim := i64 atim |> <| Inode.st_mtim := i64 mtim |>))
    | _ => Some None
    end
  | RemoteComm.CHOWN =>
    match p with
    | Fb_ChownParam q uid gid => q ← q; Some (Some (info <| Inode.path := q |> <| Inode.st_uid := uid |> <| Inode.st_gid := gid |>))
    | _ => Some None
    end
  | RemoteComm.CHMOD =>
    match p with
    | Fb_ChmodParam q mode => q ← q; Some (Some (info <| Inode.path := q |> <| Inode.st_mode := u32 mode |>))
    | _ => Some None
    end
  | RemoteComm.PLAIN_COMMAND | NOT_SUPPORTED => Some None
  end.

(** ** Encoding of the requests between servers *)
Definition encode_param (metaService : CuckooSupportMetaService) (x : MetaProcessInfoData) : option FbParam :=
  match metaService with
  | MKDIR_SUB_MKDIR => Some (Fb_MkdirSubMkdirParam (mi_parentId x) (mi_name x) (mi_inodeId x))
  | MKDIR_SUB_CREATE =>
    Some (Fb_MkdirSubCreateParam (mi_parentId_partId x) (mi_name x) (mi_inodeId x) (Inode.st_mode x) (u64 (Inode.st_mtim x)) (Inode.st_size x))
  | RMDIR_SUB_RMDIR => Some (Fb_RmdirSubRmdirParam (mi_parentId x) (mi_name x))
  | RMDIR_SUB_UNLINK => Some (Fb_RmdirSubUnlinkParam (mi_parentId_partId x) (mi_name x))
  | RENAME_SUB_RENAME_LOCALLY =>
    Some (Fb_RenameSubRenameLocallyParam (mi_parentId x) (mi_parentId_partId x) (mi_name x) (dstParentId x) (dstParentIdPartId x)
            (dstName x) (targetIsDirectory x) (mi_inodeId x) (srcLockOrder x))
  | RENAME_SUB_CREATE =>
    Some (Fb_RenameSubCreateParam (mi_parentId_partId x) (mi_name x) (mi_inodeId x) (Inode.st_dev x) (Inode.st_mode x) (Inode.st_nlink x)
            (Inode.st_uid x) (Inode.st_gid x) (Inode.st_rdev x) (Inode.st_size x) (Inode.st_blksize x) (Inode.st_blocks x)
            (u64 (Inode.st_atim x)) (u64 (Inode.st_mtim x)) (u64 (Inode.st_ctim x)) (Inode.node_id x))
  | _ => None
  end.

Section codec.
Context `{FB : FlatBuffers} `{MM : MemoryManager} (little : bool).

(** The loop of SerializedDataMetaParamDecode over the elements of the array
    that are left, at the offset [p]. *)
Fixpoint decode_from (metaService : CuckooSupportMetaService) (d : SerializedData) (p : Z) (infoArray : list MetaProcessInfoData)
    : option (option (list MetaProcessInfoData)) :=
  match infoArray with
  | [] => Some (Some [])
  | info :: rest =>
    size ← SerializedDataNextSeveralItemSize little d p 1;
    if decide (size = SD_INVALID) then Some None
    else
      item ← SerializedData.read (default [] (sd_buffer d)) (p + SERIALIZED_DATA_ALIGNMENT) (size - SERIALIZED_DATA_ALIGNMENT);
      match fb_verify item with
      | None => Some None
      | Some param =>
        x ← decode_param metaService param info;
        match x with
        | None => Some None
        | Some x => l ← decode_from metaService d (u32 (p + size)) rest; Some (option_map (cons x) l)
        end
      end
  end.

(** [infoArray] has [count] elements. *)
Definition SerializedDataMetaParamDecode (metaService : CuckooSupportMetaService) (param : SerializedData)
    (infoArray : list MetaProcessInfoData) : option (option (list MetaProcessInfoData)) := decode_from metaService param 0 infoArray.

(** The loop of SerializedDataMetaParamEncode: [false] for a service that has
    no encoding. *)
Fixpoint encode_params (fuel : nat) (metaService : CuckooSupportMetaService) (l : list MetaProcessInfoData) : M SerializedData bool :=
  match l with
  | [] => mret true
  | x :: l' =>
    match encode_param metaService x with
    | None => mret false
    | Some p => put_item little fuel (fb_build p) ;; encode_params fuel metaService l'
    end
  end.

(** The message of a client: one segment with the table of its request. *)
Definition fb_of (param : MetaParam) : FbParam :=
  match param with
  | PlainCommandParam command => Fb_PlainCommandParam (Some command)
  | PathOnlyParam path => Fb_PathOnlyParam (Some path)
  | CloseParam path size mtime nodeId => Fb_CloseParam (Some path) size mtime nodeId
  | ReadDirParam path maxReadCount lastShardIndex lastFileName => Fb_ReadDirParam (Some path) maxReadCount lastShardIndex lastFileName
  | RenameParam src dst => Fb_RenameParam (Some src) (Some dst)
  | UtimeNsParam path atime mtime => Fb_UtimeNsParam (Some path) atime mtime
  | ChownParam path uid gid => Fb_ChownParam (Some path) uid gid
  | ChmodParam path mode => Fb_ChmodParam (Some path) mode
  end.
Definition client_message (fuel : nat) (param : MetaParam) : M SerializedData () :=
  SerializedDataClear ;; put_item little fuel (fb_build (fb_of param)).

(** ** A message of tables *)

(** Segments that hold tables. *)
Definition tables (ps : list FbParam) (l : list (list Z)) : Prop := Forall2 (λ p bs, padded (fb_build p) bs) ps l.

(** [n] items at an offset of a buffer that is declared to be [sd_size] long. *)
Lemma NextSize_in d pre l post :
  sd_buffer d = Some (pre ++ wire l ++ post) → whole l → (4 | Z.of_nat (length pre)) →
  Z.of_nat (length (pre ++ wire l)) ≤ sd_size d → sd_size d < 2 ^ 32 →
  SerializedDataNextSeveralItemSize little d (Z.of_nat (length pre)) (Z.of_nat (length l)) = Some (Z.of_nat (length (wire l))).
Proof.
  intros Hb Hw Hp Hs Hu. unfold SerializedDataNextSeveralItemSize. rewrite decide_False by by apply divide_land.
  rewrite Nat2Z.id, Hb. simpl. rewrite (next_items_wire little l _ _ _ post eq_refl) by done. simpl. f_equal.
  rewrite length_app in *. unfold u32. rewrite !Z.mod_small by (rewrite ?Z.mod_small; lia). lia.
Qed.

Lemma read_segment pre bs (post : list Z) :
  SerializedData.read (pre ++ frame bs ++ post) (Z.of_nat (length pre) + SERIALIZED_DATA_ALIGNMENT) (Z.of_nat (length bs)) = Some bs.
Proof.
  unfold SerializedData.read, frame, SERIALIZED_DATA_ALIGNMENT. rewrite decide_True by (rewrite !length_app, header_length; lia).
  rewrite Nat2Z.id. replace (Z.to_nat (Z.of_nat (length pre) + 4)) with (length (pre ++ header (Z.of_nat (length bs))))
    by (rewrite length_app, header_length; lia).
  rewrite <-(app_assoc (header _)), (app_assoc pre), drop_app_length. by rewrite take_app_length.
Qed.

Lemma decode_from_tables metaService d ps l infos xs pre post :
  tables ps l → Forall fb_typed ps → sd_buffer d = Some (pre ++ wire l ++ post) → (4 | Z.of_nat (length pre)) →
  Z.of_nat (length (pre ++ wire l)) ≤ sd_size d → sd_size d ≤ 2 ^ 32 - 4 →
  Forall3 (λ p info x, decode_param metaService p info = Some (Some x)) ps infos xs →
  decode_from metaService d (Z.of_nat (length pre)) infos = Some (Some xs).
Proof.
  intros Ht Hty. revert infos xs pre. induction Ht as [|p bs ps l Hp Ht IH]; intros infos xs pre Hb Hal Hs Hu Hx;
    inversion Hx as [|? info x ? infos' xs' Hd Hx']; subst; [done|].
  apply Forall_cons in Hty as [Hty Htys]. pose proof Hp as [[pad ->] Hlen]. set (bs := fb_build p ++ pad) in *.
  rewrite wire_cons in *. pose proof (frame_length bs) as Hfl. rewrite !length_app in Hs.
  assert ((4 | Z.of_nat (length bs))) as Hbs by (rewrite Hlen; apply pad4_divide).
  pose proof (NextSize_in d pre [bs] (wire l ++ post)) as Hn. rewrite wire_one in Hn.
  specialize (Hn ltac:(by rewrite Hb, <-app_assoc) ltac:(by constructor) Hal ltac:(rewrite length_app; lia) ltac:(lia)).
  change (Z.of_nat (length [bs])) with 1 in Hn. cbn [decode_from]. rewrite Hn, Hfl. cbn [mbind option_bind].
  rewrite decide_False by (unfold SD_INVALID; lia).
  replace (4 + Z.of_nat (length bs) - SERIALIZED_DATA_ALIGNMENT) with (Z.of_nat (length bs)) by (unfold SERIALIZED_DATA_ALIGNMENT; lia).
  rewrite Hb. cbn [default from_option id]. rewrite <-app_assoc, read_segment. cbn [mbind option_bind]. unfold bs at 1. rewrite fb_verify_build by done.
  rewrite Hd. cbn [mbind option_bind].
  replace (u32 (Z.of_nat (length pre) + (4 + Z.of_nat (length bs)))) with (Z.of_nat (length (pre ++ frame bs)))
    by (rewrite length_app, Nat2Z.inj_add, Hfl; unfold u32; rewrite Z.mod_small; lia).
  rewrite (IH Htys infos' xs'); [done|by rewrite Hb, <-!app_assoc| |rewrite !length_app; lia|done|done].
  rewrite length_app, Nat2Z.inj_add, Hfl. apply Z.divide_add_r; [done|]. apply Z.divide_add_r; [by exists 1|done].
Qed.

(** ** Requests between servers *)

(** The fields of a request hold values of their types. *)
Record info_typed (x : MetaProcessInfoData) : Prop := {
  it_parentId_ok : in_u64 (mi_parentId x); it_pp_ok : in_u64 (mi_parentId_partId x); it_inodeId_ok : in_u64 (mi_inodeId x);
  it_dstParentId_ok : in_u64 (dstParentId x); it_dstpp_ok : in_u64 (dstParentIdPartId x); it_order_ok : in_i32 (srcLockOrder x);
  it_dev_ok : in_u64 (Inode.st_dev x); it_mode_ok : in_u32 (Inode.st_mode x); it_nlink_ok : in_u64 (Inode.st_nlink x);
  it_uid_ok : in_u32 (Inode.st_uid x); it_gid_ok : in_u32 (Inode.st_gid x); it_rdev_ok : in_u64 (Inode.st_rdev x);
  it_size_ok : in_i64 (Inode.st_size x); it_blksize_ok : in_i64 (Inode.st_blksize x); it_blocks_ok : in_i64 (Inode.st_blocks x);
  it_atim_ok : in_i64 (Inode.st_atim x); it_mtim_ok : in_i64 (Inode.st_mtim x); it_ctim_ok : in_i64 (Inode.st_ctim x);
  it_node_ok : in_i32 (Inode.node_id x) }.

(** The names that the service sends are there. *)
Definition names_present (metaService : CuckooSupportMetaService) (x : MetaProcessInfoData) : Prop :=
  is_Some (mi_name x) ∧ (metaService = RENAME_SUB_RENAME_LOCALLY → is_Some (dstName x)).

Lemma i64_u64 z : in_i64 z → i64 (u64 z) = z.
Proof. unfold in_i64, i64, u64. intros Hz. rewrite Zplus_mod_idemp_l, Z.mod_small; lia. Qed.

Lemma encode_param_typed metaService x p : info_typed x → encode_param metaService x = Some p → fb_typed p.
Proof.
  intros [] He. destruct metaService; try discriminate He; injection He as <-; cbn [fb_typed]; split_and?; try done;
    unfold in_u64, u64; apply Z.mod_pos_bound; lia.
Qed.

Lemma encode_decode metaService x p : info_typed x → names_present metaService x → encode_param metaService x = Some p →
  is_Some (SerializedDataMetaParamEncode_fields metaService x) ∧
  decode_param metaService p blank_info = Some (SerializedDataMetaParamEncode_fields metaService x).
Proof.
  intros [] [[name Hn] Hd] He. destruct metaService; try discriminate He; injection He as <-; (split; [eexists; reflexivity|]);
    cbn [decode_param SerializedDataMetaParamEncode_fields];
    try (destruct (Hd eq_refl) as [dname Hdn]; rewrite Hdn); rewrite Hn; cbn [mbind option_bind]; rewrite ?i64_u64 by done; lazy; reflexivity.
Qed.

Lemma encode_params_spec fuel metaService xs (ps : list FbParam) d :
  sd_ok d → sd_managed d = true → never_null → (31 ≤ fuel)%nat → mapM (encode_param metaService) xs = Some ps →
  sd_size d + wire_size (fb_build <$> ps) ≤ 2 ^ 31 →
  returns (encode_params fuel metaService xs d) (λ r d', r = true ∧ ∃ l, tables ps l ∧ extended d (wire l) d').
Proof.
  intros Hd Hm Hn Hf He. apply mapM_Some in He. revert d Hd Hm. induction He as [|x p xs ps Hx _ IH]; intros d Hd Hm Hs.
  - split; [done|]. exists []. split; [constructor|]. split_and!; [done..|by rewrite app_nil_r].
  - rewrite fmap_cons in Hs. cbn [wire_size foldr] in Hs. fold (wire_size (fb_build <$> ps)) in Hs. pose proof (wire_size_nonneg (fb_build <$> ps)).
    assert (sd_size d + 4 + pad4 (Z.of_nat (length (fb_build p))) ≤ 2 ^ 31) as Hs0 by lia.
    pose proof (put_item_spec little fuel (fb_build p) d Hd Hm Hn Hf (fb_bytes p) Hs0) as H1.
    cbn [encode_params]. rewrite Hx. destruct (put_item little fuel (fb_build p) d) as [u d1|?| |] eqn:E; [|done..].
    rewrite (bind_ret _ _ _ _ _ E). destruct H1 as (bs & Hp & Hext). pose proof (extended_size _ _ _ Hd Hext) as Hs1.
    rewrite frame_length in Hs1. pose proof Hp as [_ Hlen]. pose proof Hext as (Hd1 & Hm1 & _).
    specialize (IH d1 Hd1 ltac:(congruence) ltac:(lia)). eapply returns_mono; [exact IH|].
    intros r d' (-> & l & Hl & Hext'). split; [done|]. exists (bs :: l). split; [by constructor|]. rewrite wire_cons. by eapply extended_trans.
Qed.

(** A message as MetaProcess takes it from memory: no end is known, the
    declared size is the largest there is. *)
Definition SD_SIZE_T_MAX : Z := 2 ^ 32 - 4.
Definition in_memory (bs : list Z) (h : heap) : SerializedData := mkSD (Some bs) SD_SIZE_T_MAX SD_SIZE_T_MAX false h.

Lemma decode_tables metaService ps l xs post h :
  tables ps l → Forall fb_typed ps → Z.of_nat (length (wire l)) ≤ SD_SIZE_T_MAX →
  Forall2 (λ p x, decode_param metaService p blank_info = Some (Some x)) ps xs →
  SerializedDataMetaParamDecode metaService (in_memory (wire l ++ post) h) (replicate (length ps) blank_info) = Some (Some xs).
Proof.
  intros Ht Hty Hs Hx. apply (decode_from_tables metaService _ ps l _ _ [] post); try done; [by exists 0|].
  clear -Hx. induction Hx; constructor; done.
Qed.

Lemma encode_decode_all metaService xs (ps : list FbParam) :
  mapM (encode_param metaService) xs = Some ps → Forall info_typed xs → Forall (names_present metaService) xs →
  Forall fb_typed ps ∧ ∃ ys, mapM (SerializedDataMetaParamEncode_fields metaService) xs = Some ys ∧
    Forall2 (λ p y, decode_param metaService p blank_info = Some (Some y)) ps ys.
Proof.
  intros He. apply mapM_Some in He. induction He as [|x p xs ps Hx _ IH]; intros Ht Hn; [split; [done|by exists []]|].
  apply Forall_cons in Ht as [Ht Hts]. apply Forall_cons in Hn as [Hn Hns]. destruct (IH Hts Hns) as (Hf & ys & Hys & Hd).
  destruct (encode_decode metaService x p Ht Hn Hx) as ([y Hy] & Hdy). rewrite Hy in Hdy. split; [constructor; [by eapply encode_param_typed|done]|].
  exists (y :: ys). split; [by cbn; rewrite Hy; cbn; rewrite Hys|by constructor].
Qed.

(** The requests that servers send to each other arrive: what a server
    encodes for a sub-operation, the other decodes from its memory, whatever lies
    behind the message, to exactly the fields that the service has (those by which
    the handlers of directories are modelled), the numbers of every width and
    sign as they were. *)
Theorem sub_requests_arrive fuel metaService xs (ps : list FbParam) d :
  sd_ok d → sd_size d = 0 → sd_managed d = true → never_null → (31 ≤ fuel)%nat →
  mapM (encode_param metaService) xs = Some ps → wire_size (fb_build <$> ps) ≤ 2 ^ 31 →
  Forall info_typed xs → Forall (names_present metaService) xs →
  returns (encode_params fuel metaService xs d) (λ r d', r = true ∧
    ∀ post h, SerializedDataMetaParamDecode metaService (in_memory (content d' ++ post) h) (replicate (length xs) blank_info) =
      Some (Some (SerializedDataMetaParamEncode metaService xs))).
Proof.
  intros Hd H0 Hm Hn Hf He Hs Hty Hnm. destruct (encode_decode_all _ _ _ He Hty Hnm) as (Hft & ys & Hys & Hdec).
  eapply returns_mono; [by eapply encode_params_spec; try done; lia|]. intros r d' (-> & l & Hl & Hd' & _ & Hc). split; [done|]. intros post h.
  pose proof (content_length d Hd) as Hl0. assert (content d = []) as Hnil by (apply length_zero_iff_nil; lia). rewrite Hc, Hnil.
  unfold SerializedDataMetaParamEncode. rewrite Hys. cbn [default from_option id].
  rewrite (Forall2_length _ _ _ (proj1 (mapM_Some _ _ _) He)). eapply decode_tables; [done|done| |done].
  rewrite (wire_length (fb_build <$> ps) l) by (by apply Forall2_fmap_l). unfold SD_SIZE_T_MAX. lia.
Qed.

(** ** Requests of clients *)

(** The table that belongs to a request, and that the request's union says. *)
Definition union_of (param : MetaParam) : AnyMetaParam :=
  match param with
  | PlainCommandParam _ => AnyMetaParam_PlainCommandParam
  | PathOnlyParam _ => AnyMetaParam_PathOnlyParam
  | CloseParam _ _ _ _ => AnyMetaParam_CloseParam
  | ReadDirParam _ _ _ _ => AnyMetaParam_ReadDirParam
  | RenameParam _ _ => AnyMetaParam_RenameParam
  | UtimeNsParam _ _ _ => AnyMetaParam_UtimeNsParam
  | ChownParam _ _ _ => AnyMetaParam_ChownParam
  | ChmodParam _ _ => AnyMetaParam_ChmodParam
  end.

(** What a handler gets of a request. *)
Definition request_info (param : MetaParam) : MetaProcessInfoData :=
  match param with
  | PlainCommandParam _ => blank_info
  | PathOnlyParam p => blank_info <| Inode.path := p |>
  | CloseParam p size mtime nodeId =>
    blank_info <| Inode.path := p |> <| Inode.st_size := size |> <| Inode.st_mtim := i64 mtime |> <| Inode.node_id := nodeId |>
  | ReadDirParam p maxReadCount lastShardIndex lastFileName =>
    blank_info <| Inode.path := p |> <| readDirMaxReadCount := maxReadCount |> <| readDirLastShardIndex := lastShardIndex |>
      <| readDirLastFileName := lastFileName |>
  | RenameParam src dst => blank_info <| Inode.path := src |> <| dstPath := dst |>
  | UtimeNsParam p atime mtime => blank_info <| Inode.path := p |> <| Inode.st_atim := i64 atime |> <| Inode.st_mtim := i64 mtime |>
  | ChownParam p uid gid => blank_info <| Inode.path := p |> <| Inode.st_uid := uid |> <| Inode.st_gid := gid |>
  | ChmodParam p mode => blank_info <| Inode.path := p |> <| Inode.st_mode := u32 mode |>
  end.

Lemma client_param_decoded type param : type ≠ PLAIN_COMMAND → union_of param = ToFlatBuffersType type →
  decode_param (MetaServiceTypeDecode (proto_number type)) (fb_of param) blank_info = Some (Some (request_info param)).
Proof. intros Ht Hu. destruct type; try done; destruct param; try discriminate Hu; reflexivity. Qed.

Lemma client_message_spec fuel param d :
  sd_ok d → sd_managed d = true → never_null → (31 ≤ fuel)%nat → 4 + pad4 (Z.of_nat (length (fb_build (fb_of param)))) ≤ 2 ^ 31 →
  returns (client_message fuel param d) (λ _ d', ∃ bs, padded (fb_build (fb_of param)) bs ∧ content d' = frame bs).
Proof.
  intros Hd Hm Hn Hf Hs. unfold client_message, SerializedDataClear. mstep. set (d0 := d <| sd_size := 0 |>).
  assert (sd_ok d0) as Hd0 by (destruct Hd as [Hb Hsz _ Hc]; split; [done|simpl; lia|by exists 0|done]).
  eapply returns_mono; [apply (put_item_spec little fuel _ d0 Hd0 Hm Hn Hf (fb_bytes _)); simpl; lia|].
  intros _ d' (bs & Hp & _ & _ & Hc). by exists bs.
Qed.

(** The message that a client sends for a request. *)
Definition sent_message (param : MetaParam) (m : list Z) : Prop :=
  ∃ fuel d d', sd_ok d ∧ sd_managed d = true ∧ (31 ≤ fuel)%nat ∧ client_message fuel param d = Ret () d' ∧ m = content d'.

(** (C12) Requests of one service from any number of clients, each framed by its
    own, that stand one behind the other in the server's memory, whatever follows,
    are decoded to what the clients asked for, in their order: the union agrees
    with the service's, no segment is refused, and no field of a request lands in
    another. *)
Theorem client_requests_arrive type params ms post h :
  never_null → type ≠ PLAIN_COMMAND → Forall (λ param, union_of param = ToFlatBuffersType type) params →
  Forall (λ param, fb_typed (fb_of param) ∧ 4 + pad4 (Z.of_nat (length (fb_build (fb_of param)))) ≤ 2 ^ 31) params →
  Forall2 sent_message params ms → Z.of_nat (length (concat ms)) ≤ SD_SIZE_T_MAX →
  SerializedDataMetaParamDecode (MetaServiceTypeDecode (proto_number type)) (in_memory (concat ms ++ post) h)
    (replicate (length params) blank_info) = Some (Some (request_info <$> params)).
Proof.
  intros Hn Ht Hu Hty Hms Hs.
  assert (∃ l, tables (fb_of <$> params) l ∧ concat ms = wire l) as (l & Hl & Hw).
  { clear Hs Hu. induction Hms as [|param m params ms (fuel & d & d' & Hd & Hm & Hf & Hc & ->) _ IH]; [by exists []; split; [constructor|]|].
    apply Forall_cons in Hty as [[_ Hsz] Hty]. destruct (IH Hty) as (l & Hl & Hw).
    pose proof (client_message_spec fuel param d Hd Hm Hn Hf Hsz) as Hsp. rewrite Hc in Hsp. destruct Hsp as (bs & Hp & Hcon).
    exists (bs :: l). split; [by constructor|]. cbn. by rewrite Hcon, Hw. }
  rewrite Hw in Hs |- *. rewrite <-(length_fmap fb_of params). eapply decode_tables; [done| |done|].
  - apply Forall_fmap. by eapply Forall_impl; [exact Hty|intros ? [? _]].
  - apply Forall2_fmap, Forall_Forall2_diag. eapply Forall_impl; [exact Hu|]. intros param Hp. by apply client_param_decoded.
Qed.
End codec.

(** ** An instance *)
Module CodecWitness.
Abbreviation leaf := (Z + option string + bool)%type.
Local Abbreviation z v := (GenLeaf (inl (inl v))).
Local Abbreviation t v := (GenLeaf (inl (inr v))).
Local Abbreviation b v := (GenLeaf (inr v)).

Definition to_tree (p : FbParam) : gen_tree leaf :=
  match p with
  | Fb_NONE => GenNode 0 []
  | Fb_PlainCommandParam c => GenNode 1 [t c]
  | Fb_PathOnlyParam p => GenNode 2 [t p]
  | Fb_MkdirSubMkdirParam a n i => GenNode 3 [z a; t n; z i]
  | Fb_MkdirSubCreateParam a n i m tm s => GenNode 4 [z a; t n; z i; z m; z tm; z s]
  | Fb_CloseParam p s tm n => GenNode 5 [t p; z s; z tm; z n]
  | Fb_ReadDirParam p m l f => GenNode 6 [t p; z m; z l; t f]
  | Fb_RmdirSubRmdirParam a n => GenNode 7 [z a; t n]
  | Fb_RmdirSubUnlinkParam a n => GenNode 8 [z a; t n]
  | Fb_RenameParam s d => GenNode 9 [t s; t d]
  | Fb_RenameSubRenameLocallyParam s1 s2 sn d1 d2 dn dir i o => GenNode 10 [z s1; z s2; t sn; z d1; z d2; t dn; b dir; z i; z o]
  | Fb_RenameSubCreateParam a n i d m nl u g r s bs bl t1 t2 t3 nd =>
    GenNode 11 [z a; t n; z i; z d; z m; z nl; z u; z g; z r; z s; z bs; z bl; z t1; z t2; z t3; z nd]
  | Fb_UtimeNsParam p a m => GenNode 12 [t p; z a; z m]
  | Fb_ChownParam p u g => GenNode 13 [t p; z u; z g]
  | Fb_ChmodParam p m => GenNode 14 [t p; z m]
  end.
Definition of_tree (x : gen_tree leaf) : option FbParam :=
  match x with
  | GenNode 0 [] => Some Fb_NONE
  | GenNode 1 [t c] => Some (Fb_PlainCommandParam c)
  | GenNode 2 [t p] => Some (Fb_PathOnlyParam p)
  | GenNode 3 [z a; t n; z i] => Some (Fb_MkdirSubMkdirParam a n i)
  | GenNode 4 [z a; t n; z i; z m; z tm; z s] => Some (Fb_MkdirSubCreateParam a n i m tm s)
  | GenNode 5 [t p; z s; z tm; z n] => Some (Fb_CloseParam p s tm n)
  | GenNode 6 [t p; z m; z l; t f] => Some (Fb_ReadDirParam p m l f)
  | GenNode 7 [z a; t n] => Some (Fb_RmdirSubRmdirParam a n)
  | GenNode 8 [z a; t n] => Some (Fb_RmdirSubUnlinkParam a n)
  | GenNode 9 [t s; t d] => Some (Fb_RenameParam s d)
  | GenNode 10 [z s1; z s2; t sn; z d1; z d2; t dn; b dir; z i; z o] => Some (Fb_RenameSubRenameLocallyParam s1 s2 sn d1 d2 dn dir i o)
  | GenNode 11 [z a; t n; z i; z d; z m; z nl; z u; z g; z r; z s; z bs; z bl; z t1; z t2; z t3; z nd] =>
    Some (Fb_RenameSubCreateParam a n i d m nl u g r s bs bl t1 t2 t3 nd)
  | GenNode 12 [t p; z a; z m] => Some (Fb_UtimeNsParam p a m)
  | GenNode 13 [t p; z u; z g] => Some (Fb_ChownParam p u g)
  | GenNode 14 [t p; z m] => Some (Fb_ChmodParam p m)
  | _ => None
  end.
Lemma of_to_tree p : of_tree (to_tree p) = Some p.
Proof. by destruct p. Qed.

(** A number as its binary digits, a byte each, and a byte that ends it. *)
Fixpoint digits (n : positive) : list Z := match n with xH => [2] | xO n => 0 :: digits n | xI n => 1 :: digits n end.
Fixpoint number (l : list Z) : option positive :=
  match l with
  | [] => None
  | c :: l' => if decide (c = 2) then Some xH else if decide (c = 0) then xO <$> number l' else xI <$> number l'
  end.
Lemma number_digits n rest : number (digits n ++ rest) = Some n.
Proof. induction n as [n IH|n IH|]; simpl; rewrite ?IH; done. Qed.
Lemma digits_bytes n : Forall is_byte (digits n).
Proof. induction n; simpl; constructor; done. Qed.

#[export] Program Instance binary_tables : FlatBuffers := {|
  fb_build p := digits (encode (to_tree p));
  fb_verify l := n ← number l; tree ← decode n; of_tree tree |}.
Next Obligation. intros. apply digits_bytes. Qed.
Next Obligation. intros p rest _. simpl. rewrite number_digits. cbn [mbind option_bind]. rewrite decode_encode. apply of_to_tree. Qed.

Import SerializedWitness.
Definition message_of (param : MetaParam) : list Z := match client_message true 31 param d0 with Ret _ d => content d | _ => [] end.
Definition asked : list MetaParam := [PathOnlyParam "/d/f"; PathOnlyParam "/d"].

(** Two clients' opens, and what was in memory behind them. *)
Lemma client_requests_arrive_witness :
  SerializedDataMetaParamDecode true (MetaServiceTypeDecode (proto_number OPEN)) (in_memory (MM := zero_memory) (concat (message_of <$> asked) ++ [7; 7; 7; 7]) ())
    (replicate 2 blank_info) = Some (Some [blank_info <| Inode.path := "/d/f"%string |>; blank_info <| Inode.path := "/d"%string |>]).
Proof.
  apply (client_requests_arrive (MM := zero_memory) true OPEN asked (message_of <$> asked) [7; 7; 7; 7] ()).
  - apply zero_never_null.
  - discriminate.
  - repeat constructor.
  - repeat constructor; vm_compute; discriminate.
  - apply Forall2_fmap_r, Forall_Forall2_diag. unfold asked.
    repeat constructor; (exists 31%nat, d0; eexists; split_and!; [apply d0_ok|reflexivity|lia|vm_compute; reflexivity|vm_compute; reflexivity]).
  - vm_compute. discriminate.
Defined.

Definition new_dirs : list MetaProcessInfoData :=
  [blank_info <| mi_parentId := 5 |> <| mi_name := Some "a"%string |> <| mi_inodeId := 2 ^ 63 |>;
   blank_info <| mi_parentId := 5 |> <| mi_name := Some "b"%string |> <| mi_inodeId := 9 |>].
Definition new_dir_tables : list FbParam := [Fb_MkdirSubMkdirParam 5 (Some "a"%string) (2 ^ 63); Fb_MkdirSubMkdirParam 5 (Some "b"%string) 9].

(** Two directories sent to another server. *)
Lemma sub_requests_arrive_witness :
  returns (encode_params true 31 MKDIR_SUB_MKDIR new_dirs d0) (λ r d', r = true ∧
    ∀ post h, SerializedDataMetaParamDecode true MKDIR_SUB_MKDIR (in_memory (content d' ++ post) h) (replicate 2 blank_info) = Some (Some new_dirs)).
Proof.
  apply (sub_requests_arrive true 31 MKDIR_SUB_MKDIR new_dirs new_dir_tables d0 d0_ok eq_refl eq_refl zero_never_null (le_n _) eq_refl).
  - vm_compute. discriminate.
  - repeat constructor; vm_compute; discriminate.
  - repeat constructor; try discriminate; by eexists.
Defined.
End CodecWitness.
