(* ===== verification/Counting.v ===== *)
(** * Counting in lists

    Indicators of propositions and the number of times a number occurs in a list,
    for invariants that say who has what. *)
From S2P Require Import Prelude.
#[local] Open Scope Z_scope.

Definition ind (P : Prop) `{Decision P} : Z := if decide P then 1 else 0.
Definition occ (x : nat) (l : list nat) : Z := zsum (λ y, ind (y = x)) l.

Lemma ind_range P `{Decision P} : 0 ≤ ind P ≤ 1.
Proof. unfold ind. case_decide; lia. Qed.
Lemma ind_true P `{Decision P} : P → ind P = 1.
Proof. unfold ind. by case_decide. Qed.
Lemma ind_false P `{Decision P} : ¬ P → ind P = 0.
Proof. unfold ind. by case_decide. Qed.

Lemma ind_Some (x y : nat) (H : Decision (Some x = Some y)) : @ind _ H = ind (x = y).
Proof. unfold ind. do 2 case_decide; congruence. Qed.

Lemma ind_None (y : nat) (H : Decision (None = Some y)) : @ind _ H = 0.
Proof. by apply ind_false. Qed.

Lemma occ_nonneg x l : 0 ≤ occ x l.
Proof. apply zsum_nonneg. intros. apply ind_range. Qed.
Lemma occ_app x l l' : occ x (l ++ l') = occ x l + occ x l'.
Proof. apply zsum_app. Qed.
Lemma occ_nil x : occ x [] = 0.
Proof. done. Qed.
Lemma occ_cons x y l : occ x (y :: l) = ind (y = x) + occ x l.
Proof. done. Qed.
Lemma occ_elem x l : x ∈ l ↔ 0 < occ x l.
Proof.
  induction l as [|y l IH]; [by split; [intros ?%elem_of_nil|]|]. cbn. rewrite elem_of_cons. pose proof (occ_nonneg x l). unfold occ in *.
  destruct (decide (y = x)) as [->|Hne]; [rewrite ind_true by done; split; [lia|by left]|]. rewrite ind_false by done.
  split; [intros [?|?%IH]; [congruence|lia]|intros; right; apply IH; lia].
Qed.
Lemma occ_not_elem x l : x ∉ l ↔ occ x l = 0.
Proof. rewrite occ_elem. pose proof (occ_nonneg x l). lia. Qed.
Lemma occ_NoDup l : (∀ x, occ x l ≤ 1) → NoDup l.
Proof.
  induction l as [|y l IH]; intros Hl; constructor.
  - specialize (Hl y). cbn in Hl. rewrite ind_true in Hl by done. apply occ_not_elem. pose proof (occ_nonneg y l). unfold occ in *. lia.
  - apply IH. intros x. specialize (Hl x). cbn in Hl. pose proof (ind_range (y = x)). unfold occ. lia.
Qed.

Lemma zsum_zero {A} (f : A → Z) (l : list A) : (∀ x, x ∈ l → f x = 0) → zsum f l = 0.
Proof.
  intros Hf. induction l as [|x l IH]; [done|]. cbn. rewrite (Hf x), IH; [done| |by left]. intros y Hy. apply Hf. by right.
Qed.

Lemma zsum_replicate {A} (f : A → Z) n x : f x = 0 → zsum f (replicate n x) = 0.
Proof. intros Hf. apply zsum_zero. intros y [-> _]%elem_of_replicate. done. Qed.
