(* ===== verification/Pool.v ===== *)
(** * The connection pool of a metadata server
    (connection_pool/pg_connection_pool.cpp, pg_connection.cpp, task.h)

    Every request that arrives over the network is a job.  The thread that
    brings it ([DispatchAsyncMetaServiceJob]) puts it into a task: jobs of one
    service that allow it share a batch, the others get a task of their own; the
    task is queued by the thread whose job is its first.  One manager thread
    ([BackgroundPoolManager]) takes a connection and a task and hands the task to
    the connection's worker thread ([BackgroundWorker]), which executes it.

    A step of the model is what a thread does under one mutex, or one
    notification of a condition variable; a thread whose predicate does not hold
    goes to sleep and runs again when it is notified, or for no reason.  A job is
    the number of the thread that brought it; a pointer to a task is a number that
    a later task may get again.

    What a worker does with a task is one step that answers its jobs
    (PgConnection.v has its content).  The exceptions of pg_connection.cpp (a
    connection that is lost, data that are corrupt, no shared memory for a
    service) are not caught by the thread and end the process: such runs are
    outside of this model. *)

From S2P Require Import Prelude.
#[local] Open Scope Z_scope.

(** What the pool looks at of a request. *)
Record Request := mkRequest { types : list Z; allow_batch_with_others : bool }.

Record Task := mkTask { isBatch : bool; jobList : list nat }.
#[global] Instance eta_Task : Eta Task := λ t, mkTask (isBatch t) (jobList t).

(** enum TaskSupportBatchType: MKDIR = 0, CREATE, STAT, UNLINK, OPEN, CLOSE, NOT_SUPPORT; the services by their numbers. *)
Definition NOT_SUPPORT : nat := 6.
Definition ConvertMetaServiceTypeToTaskSupportBatchType (type : Z) : nat :=
  match type with 1 => 0 | 4 => 1 | 5 => 2 | 8 => 3 | 6 => 4 | 7 => 5 | _ => NOT_SUPPORT end.

(** Which kind of task DispatchAsyncMetaServiceJob puts a job into. *)
Inductive destination := Dropped | Batch (taskSupportBatchType : nat) | Alone.
#[global] Instance destination_eq_dec : EqDecision destination.
Proof. solve_decision. Defined.
Definition destination_of (r : Request) : destination :=
  match types r with
  | [] => Dropped
  | type :: rest =>
    let taskSupportBatchType := ConvertMetaServiceTypeToTaskSupportBatchType type in
    if decide (allow_batch_with_others r = true ∧ taskSupportBatchType ≠ NOT_SUPPORT ∧ Forall (eq type) rest)
    then Batch taskSupportBatchType else Alone
  end.

(** ** Threads *)

(** In DispatchAsyncMetaServiceJob. *)
Inductive dispatcher_at :=
  | D_start
  | D_batch (b : nat)          (* at the wait for room in the batch *)
  | D_batch_asleep (b : nat)
  | D_push (t : nat)           (* at the wait for room in the queue *)
  | D_push_asleep (t : nat)
  | D_notify                   (* before cvPendingTaskNotEmpty.notify_one *)
  | D_done.

(** In BackgroundPoolManager, with the connection and the task it has. *)
Inductive manager_at :=
  | M_get                      (* at the wait for a connection *)
  | M_get_asleep
  | M_take (c : nat)           (* at the wait for a task *)
  | M_take_asleep (c : nat)
  | M_replace (c t i : nat)    (* in the loop over the batches, with pendingTaskMutex *)
  | M_notify_batch (c t i : nat) (* before cvBatchNotFull.notify_one, with pendingTaskMutex *)
  | M_notify_full (c t : nat)  (* before cvPendingTaskNotFull.notify_one *)
  | M_exec (c t : nat)         (* in Exec, at the wait for the worker *)
  | M_exec_asleep (c t : nat)
  | M_notify_exec (c : nat).   (* in Exec, before cvExecing.notify_one *)

(** In BackgroundWorker. *)
Inductive worker_at :=
  | W_wait                     (* at the wait for a task *)
  | W_asleep
  | W_execute
  | W_readd                    (* at ReaddWorkingPGConnection *)
  | W_notify_pool              (* before cvPoolNotEmpty.notify_one *)
  | W_reset                    (* deletes jobs and task *)
  | W_notify.                  (* before cvExecing.notify_one *)

#[global] Instance dispatcher_at_eq_dec : EqDecision dispatcher_at.
Proof. solve_decision. Defined.
#[global] Instance manager_at_eq_dec : EqDecision manager_at.
Proof. solve_decision. Defined.
#[global] Instance worker_at_eq_dec : EqDecision worker_at.
Proof. solve_decision. Defined.

Record PGConnection := mkConn { taskToExec : option nat; worker : worker_at }.

(** The pool, its connections and threads; the jobs that have been answered, and
    those that have been deleted, in this order. *)
Record Pool := mkPool {
  tasks : gmap nat Task;
  supportBatchTaskList : list nat;
  pendingTask : list nat;
  connPool : list nat;
  conns : list PGConnection;
  manager : manager_at;
  dispatchers : list dispatcher_at;
  answered : list nat;
  deleted : list nat }.
#[global] Instance eta_Pool : Eta Pool := λ s,
  mkPool (tasks s) (supportBatchTaskList s) (pendingTask s) (connPool s) (conns s) (manager s) (dispatchers s) (answered s) (deleted s).

Definition PGConnectionPool (connPoolSize : nat) (requests : list Request) : Pool :=
  mkPool (list_to_map ((λ t, (t, mkTask true [])) <$> seq 0 NOT_SUPPORT)) (seq 0 NOT_SUPPORT) [] (seq 0 connPoolSize)
    (replicate connPoolSize (mkConn None W_wait)) M_get (replicate (length requests) D_start) [] [].

(** pendingTaskMutex is held over several steps. *)
Definition pending_locked (m : manager_at) : bool :=
  match m with M_replace _ _ _ | M_notify_batch _ _ _ => true | _ => false end.

(** Sleepers on the condition variables of the dispatchers. *)
Definition wake_batch (b : nat) (d : dispatcher_at) : option dispatcher_at :=
  match d with D_batch_asleep b' => if decide (b' = b) then Some (D_batch b) else None | _ => None end.
Definition wake_push (d : dispatcher_at) : option dispatcher_at :=
  match d with D_push_asleep t => Some (D_push t) | _ => None end.

(** notify_one: any one of the sleepers, or nobody when there is none. *)
Inductive notify_one (wake : dispatcher_at → option dispatcher_at) (ds : list dispatcher_at) : list dispatcher_at → Prop :=
  | notify_nobody : (∀ d, d ∈ ds → wake d = None) → notify_one wake ds ds
  | notify_somebody k d d' : ds !! k = Some d → wake d = Some d' → notify_one wake ds (<[k := d']> ds).

(** The manager and the worker of a connection when somebody notifies. *)
Definition wake_manager_get (m : manager_at) : manager_at := match m with M_get_asleep => M_get | _ => m end.
Definition wake_manager_take (m : manager_at) : manager_at := match m with M_take_asleep c => M_take c | _ => m end.
Definition wake_manager_exec (c : nat) (m : manager_at) : manager_at :=
  match m with M_exec_asleep c' t => if decide (c' = c) then M_exec c' t else m | _ => m end.
Definition wake_worker (w : worker_at) : worker_at := match w with W_asleep => W_wait | _ => w end.

Section pool.
Context (requests : list Request) (pendingTaskBufferMaxSize batchTaskBufferMaxSize : nat).

Definition set_dispatcher (k : nat) (d : dispatcher_at) (s : Pool) : Pool := s <| dispatchers ::= <[k := d]> |>.
Definition set_conn (c : nat) (x : PGConnection) (s : Pool) : Pool := s <| conns ::= <[c := x]> |>.

(** Thread [k] in DispatchAsyncMetaServiceJob; a new task gets any pointer that
    is free. *)
Inductive dispatcher_step (k : nat) (s : Pool) : Pool → Prop :=
  | d_dropped r : dispatchers s !! k = Some D_start → requests !! k = Some r → destination_of r = Dropped →
      dispatcher_step k s (set_dispatcher k D_done s)
  | d_to_batch r b : dispatchers s !! k = Some D_start → requests !! k = Some r → destination_of r = Batch b →
      dispatcher_step k s (set_dispatcher k (D_batch b) s)
  | d_alone r t : dispatchers s !! k = Some D_start → requests !! k = Some r → destination_of r = Alone → tasks s !! t = None →
      dispatcher_step k s (set_dispatcher k (D_push t) (s <| tasks ::= <[t := mkTask false [k]]> |>))
  | d_batch_full b t task : dispatchers s !! k = Some (D_batch b) → supportBatchTaskList s !! b = Some t → tasks s !! t = Some task →
      (batchTaskBufferMaxSize ≤ length (jobList task))%nat →
      dispatcher_step k s (set_dispatcher k (D_batch_asleep b) s)
  | d_batch_append b t task : dispatchers s !! k = Some (D_batch b) → supportBatchTaskList s !! b = Some t → tasks s !! t = Some task →
      (length (jobList task) < batchTaskBufferMaxSize)%nat →
      dispatcher_step k s (set_dispatcher k (if decide (jobList task = []) then D_push t else D_done)
        (s <| tasks ::= <[t := task <| jobList ::= (.++ [k]) |>]> |>))
  | d_push_full t : dispatchers s !! k = Some (D_push t) → pending_locked (manager s) = false →
      (pendingTaskBufferMaxSize ≤ length (pendingTask s))%nat →
      dispatcher_step k s (set_dispatcher k (D_push_asleep t) s)
  | d_push t : dispatchers s !! k = Some (D_push t) → pending_locked (manager s) = false →
      (length (pendingTask s) < pendingTaskBufferMaxSize)%nat →
      dispatcher_step k s (set_dispatcher k D_notify (s <| pendingTask ::= (.++ [t]) |>))
  | d_notify : dispatchers s !! k = Some D_notify →
      dispatcher_step k s (set_dispatcher k D_done (s <| manager ::= wake_manager_take |>)).

(** The manager thread; [pendingTask.front()] and [connPool.front()]. *)
Inductive manager_step (s : Pool) : Pool → Prop :=
  | m_get_empty : manager s = M_get → connPool s = [] → manager_step s (s <| manager := M_get_asleep |>)
  | m_get c l : manager s = M_get → connPool s = c :: l → manager_step s (s <| connPool := l |> <| manager := M_take c |>)
  | m_take_empty c : manager s = M_take c → pendingTask s = [] → manager_step s (s <| manager := M_take_asleep c |>)
  | m_take c t l : manager s = M_take c → pendingTask s = t :: l →
      manager_step s (s <| pendingTask := l |> <| manager := M_replace c t 0 |>)
  | m_other_batch c t i t' : manager s = M_replace c t i → supportBatchTaskList s !! i = Some t' → t ≠ t' →
      manager_step s (s <| manager := M_replace c t (S i) |>)
  | m_replace c t i t' : manager s = M_replace c t i → supportBatchTaskList s !! i = Some t → tasks s !! t' = None →
      manager_step s (s <| supportBatchTaskList ::= <[i := t']> |> <| tasks ::= <[t' := mkTask true []]> |> <| manager := M_notify_batch c t i |>)
  | m_no_batch c t i : manager s = M_replace c t i → (NOT_SUPPORT ≤ i)%nat → manager_step s (s <| manager := M_notify_full c t |>)
  | m_notify_batch c t i ds : manager s = M_notify_batch c t i → notify_one (wake_batch i) (dispatchers s) ds →
      manager_step s (s <| dispatchers := ds |> <| manager := M_notify_full c t |>)
  | m_notify_full c t ds : manager s = M_notify_full c t → notify_one wake_push (dispatchers s) ds →
      manager_step s (s <| dispatchers := ds |> <| manager := M_exec c t |>)
  | m_exec_busy c t x : manager s = M_exec c t → conns s !! c = Some x → taskToExec x ≠ None →
      manager_step s (s <| manager := M_exec_asleep c t |>)
  | m_exec c t x : manager s = M_exec c t → conns s !! c = Some x → taskToExec x = None →
      manager_step s (set_conn c (mkConn (Some t) (worker x)) (s <| manager := M_notify_exec c |>))
  | m_notify_exec c x : manager s = M_notify_exec c → conns s !! c = Some x →
      manager_step s (set_conn c (mkConn (taskToExec x) (wake_worker (worker x))) (s <| manager := M_get |>)).

(** The worker of connection [c]: executing a task answers its jobs. *)
Inductive worker_step (c : nat) (s : Pool) : Pool → Prop :=
  | w_no_task : conns s !! c = Some (mkConn None W_wait) → worker_step c s (set_conn c (mkConn None W_asleep) s)
  | w_task t : conns s !! c = Some (mkConn (Some t) W_wait) → worker_step c s (set_conn c (mkConn (Some t) W_execute) s)
  | w_execute t task : conns s !! c = Some (mkConn (Some t) W_execute) → tasks s !! t = Some task →
      worker_step c s (set_conn c (mkConn (Some t) W_readd) (s <| answered ::= (.++ jobList task) |>))
  | w_readd x : conns s !! c = Some (mkConn x W_readd) →
      worker_step c s (set_conn c (mkConn x W_notify_pool) (s <| connPool ::= (.++ [c]) |>))
  | w_notify_pool x : conns s !! c = Some (mkConn x W_notify_pool) →
      worker_step c s (set_conn c (mkConn x W_reset) (s <| manager ::= wake_manager_get |>))
  | w_reset t task : conns s !! c = Some (mkConn (Some t) W_reset) → tasks s !! t = Some task →
      worker_step c s (set_conn c (mkConn None W_notify) (s <| tasks ::= delete t |> <| deleted ::= (.++ jobList task) |>))
  | w_notify x : conns s !! c = Some (mkConn x W_notify) →
      worker_step c s (set_conn c (mkConn x W_wait) (s <| manager ::= wake_manager_exec c |>)).

Inductive step (s s' : Pool) : Prop :=
  | by_dispatcher k : dispatcher_step k s s' → step s s'
  | by_manager : manager_step s s' → step s s'
  | by_worker c : worker_step c s s' → step s s'.

(** A thread wakes up without a notification. *)
Inductive spurious (s : Pool) : Pool → Prop :=
  | spurious_dispatcher k d d' : dispatchers s !! k = Some d → (wake_push d = Some d' ∨ ∃ b, wake_batch b d = Some d') →
      spurious s (set_dispatcher k d' s)
  | spurious_get : spurious s (s <| manager ::= wake_manager_get |>)
  | spurious_take : spurious s (s <| manager ::= wake_manager_take |>)
  | spurious_exec c : spurious s (s <| manager ::= wake_manager_exec c |>)
  | spurious_worker c x : conns s !! c = Some x → spurious s (set_conn c (mkConn (taskToExec x) (wake_worker (worker x))) s).

Inductive reachable (n : nat) : Pool → Prop :=
  | reachable_start : reachable n (PGConnectionPool n requests)
  | reachable_step s s' : reachable n s → step s s' → reachable n s'
  | reachable_spurious s s' : reachable n s → spurious s s' → reachable n s'.
End pool.
