(* ===== verification/PoolSpec.v ===== *)
(** * The connection pool: exclusion, and every job is answered once

    Invariants of the pool's threads in every interleaving ([Pool.step]), and the
    two theorems about it: what a worker executes is a complete task of its own,
    and without spurious wake-ups every run ends with all jobs answered, so that no
    notification is lost although each goes to one thread only. *)

From S2P Require Import Prelude Counting Pool.
#[local] Open Scope Z_scope.

#[local] Arguments occ : simpl never.

(** A sum over the tasks. *)
Definition tsum (f : Task → Z) (m : gmap nat Task) : Z := zsum (λ p, f p.2) (map_to_list m).

Lemma zsum_perm {A} (f : A → Z) l l' : l ≡ₚ l' → zsum f l = zsum f l'.
Proof. induction 1; simpl; lia. Qed.
Lemma tsum_fresh f m t x : m !! t = None → tsum f (<[t := x]> m) = f x + tsum f m.
Proof. intros Hm. unfold tsum. by rewrite (zsum_perm _ _ _ (map_to_list_insert m t x Hm)). Qed.
Lemma tsum_delete f m t x : m !! t = Some x → tsum f m = f x + tsum f (delete t m).
Proof. intros Hm. rewrite <-(tsum_fresh f (delete t m) t x) by apply lookup_delete_eq. by rewrite insert_delete_id. Qed.
Lemma tsum_update f m t x y : m !! t = Some x → tsum f (<[t := y]> m) = tsum f m - f x + f y.
Proof.
  intros Hm. rewrite (tsum_delete f m t x Hm), (tsum_delete f (<[t := y]> m) t y) by apply lookup_insert_eq. rewrite delete_insert_eq. lia.
Qed.
Lemma tsum_nonneg f m : (∀ x, 0 ≤ f x) → 0 ≤ tsum f m.
Proof. intros Hf. apply zsum_nonneg. intros [t x] _. apply Hf. Qed.
Lemma tsum_elem f m t x : (∀ x, 0 ≤ f x) → m !! t = Some x → f x ≤ tsum f m.
Proof. intros Hf Hm. rewrite (tsum_delete f m t x Hm). pose proof (tsum_nonneg f (delete t m) Hf). lia. Qed.

Lemma notify_sum wake ds ds' f : notify_one wake ds ds' → (∀ d d', wake d = Some d' → f d' = f d) → zsum f ds' = zsum f ds.
Proof. intros [Hn|k d d' Hk Hw] Hf; [done|]. rewrite (zsum_insert _ _ _ _ _ Hk), (Hf _ _ Hw). lia. Qed.

Section spec.
Context (requests : list Request) (pendingMax batchMax : nat).
Local Abbreviation step := (Pool.step requests pendingMax batchMax).
Local Abbreviation dispatcher_step := (Pool.dispatcher_step requests pendingMax batchMax).

(** ** Who has a task *)
Definition holds_d (t : nat) (d : dispatcher_at) : Z := match d with D_push t' | D_push_asleep t' => ind (t' = t) | _ => 0 end.
Definition manager_task (m : manager_at) : option nat :=
  match m with M_replace _ t _ | M_notify_batch _ t _ | M_notify_full _ t | M_exec _ t | M_exec_asleep _ t => Some t | _ => None end.
Definition manager_conn (m : manager_at) : option nat :=
  match m with
  | M_take c | M_take_asleep c | M_replace c _ _ | M_notify_batch c _ _ | M_notify_full c _ | M_exec c _ | M_exec_asleep c _ => Some c
  | _ => None
  end.
Definition holds_c (t : nat) (x : PGConnection) : Z := ind (taskToExec x = Some t).
Definition held (t : nat) (s : Pool) : Z :=
  zsum (holds_d t) (dispatchers s) + occ t (pendingTask s) + ind (manager_task (manager s) = Some t) + zsum (holds_c t) (conns s).

Definition goes_to (k : nat) (dest : destination) : Prop := ∃ r, requests !! k = Some r ∧ destination_of r = dest.

(** A batch of a service, and a task that is complete. *)
Definition batch_ok (b : nat) (l : list nat) : Prop := (length l ≤ batchMax)%nat ∧ Forall (λ k, goes_to k (Batch b)) l.
Definition task_ok (task : Task) : Prop :=
  jobList task ≠ [] ∧
  (if isBatch task then ∃ b, batch_ok b (jobList task) else ∃ k, jobList task = [k] ∧ goes_to k Alone).

Record tasks_ok (s : Pool) : Prop := {
  a_length : length (supportBatchTaskList s) = NOT_SUPPORT;
  a_nodup : NoDup (supportBatchTaskList s);
  a_once t : held t s ≤ 1;
  a_none t : tasks s !! t = None → held t s = 0 ∧ t ∉ supportBatchTaskList s;
  a_batch b t : supportBatchTaskList s !! b = Some t →
    (∃ l, tasks s !! t = Some (mkTask true l) ∧ (l = [] ↔ held t s = 0) ∧ batch_ok b l) ∧
    zsum (holds_c t) (conns s) = 0 ∧
    (manager_task (manager s) = Some t → ∃ c i, manager s = M_replace c t i ∧ (i ≤ b)%nat);
  a_other t task : tasks s !! t = Some task → t ∉ supportBatchTaskList s → held t s = 1 ∧ task_ok task;
  a_waits k b : dispatchers s !! k = Some (D_batch b) ∨ dispatchers s !! k = Some (D_batch_asleep b) → goes_to k (Batch b) }.

Lemma holders_nonneg t s : 0 ≤ zsum (holds_d t) (dispatchers s) ∧ 0 ≤ occ t (pendingTask s) ∧
  0 ≤ ind (manager_task (manager s) = Some t) ∧ 0 ≤ zsum (holds_c t) (conns s).
Proof.
  split_and!; [apply zsum_nonneg; intros [] _; simpl; try lia; apply ind_range|apply occ_nonneg|apply ind_range|].
  apply zsum_nonneg. intros. apply ind_range.
Qed.
Lemma held_nonneg t s : 0 ≤ held t s.
Proof. unfold held. pose proof (holders_nonneg t s). lia. Qed.

Lemma held_manager t s : manager_task (manager s) = Some t → 1 ≤ held t s.
Proof. intros Hm. unfold held. rewrite (ind_true _ Hm). pose proof (holders_nonneg t s). lia. Qed.
Lemma conn_holds c x t s : conns s !! c = Some x → taskToExec x = Some t → 1 ≤ zsum (holds_c t) (conns s) ≤ held t s.
Proof.
  intros Hc Hx. pose proof (zsum_elem (holds_c t) (conns s) c x (λ y, proj1 (ind_range _)) Hc) as Hz. unfold holds_c in Hz at 1.
  rewrite (ind_true _ Hx) in Hz. unfold held. pose proof (holders_nonneg t s). lia.
Qed.

Definition waits_ok (ds : list dispatcher_at) : Prop :=
  ∀ k b, ds !! k = Some (D_batch b) ∨ ds !! k = Some (D_batch_asleep b) → goes_to k (Batch b).

(** Steps that leave the tasks where they are. *)
Lemma tasks_ok_frame s s' :
  tasks_ok s → tasks s' = tasks s → supportBatchTaskList s' = supportBatchTaskList s → (∀ t, held t s' = held t s) →
  (∀ t, t ∈ supportBatchTaskList s → zsum (holds_c t) (conns s') = zsum (holds_c t) (conns s)) →
  (∀ b t, supportBatchTaskList s !! b = Some t → manager_task (manager s') = Some t →
     ∃ c i, manager s' = M_replace c t i ∧ (i ≤ b)%nat) →
  waits_ok (dispatchers s') → tasks_ok s'.
Proof.
  intros [Hl Hnd Ho Hn Hb Ht Hw] Et Es Eh Ec Em Ew. split; rewrite ?Et, ?Es; try done; intros t; rewrite ?Eh; auto.
  - intros t' Hb'. destruct (Hb t t' Hb') as ((l & ? & ? & ?) & Hc & _).
    split; [exists l; rewrite Eh; done|]. split; [rewrite Ec; [done|by eapply list_elem_of_lookup_2]|by apply Em].
Qed.

Definition waits_for (d : dispatcher_at) : option nat := match d with D_batch b | D_batch_asleep b => Some b | _ => None end.

Lemma waits_insert ds k d : waits_ok ds → (∀ b, waits_for d = Some b → goes_to k (Batch b)) → waits_ok (<[k := d]> ds).
Proof.
  intros Hds Hd k' b. rewrite !list_lookup_insert_Some. intros [[(<- & -> & _)|[_ H]]|[(<- & -> & _)|[_ H]]]; eauto.
Qed.

Lemma waits_notify wake ds ds' : waits_ok ds → notify_one wake ds ds' → (∀ d d', wake d = Some d' → waits_for d' = waits_for d) → waits_ok ds'.
Proof.
  intros Hds [|k d d' Hk Hw] Hwake; [done|]. apply waits_insert; [done|]. intros b. rewrite (Hwake d d' Hw).
  intros Hb. apply Hds. destruct d; simplify_eq/=; auto.
Qed.

Lemma wake_batch_waits i d d' : wake_batch i d = Some d' → waits_for d' = waits_for d.
Proof. destruct d; simpl; intros; case_decide || done; by simplify_eq/=. Qed.
Lemma wake_push_waits d d' : wake_push d = Some d' → waits_for d' = waits_for d.
Proof. destruct d; simpl; intros; by simplify_eq/=. Qed.
Lemma wake_batch_holds i t d d' : wake_batch i d = Some d' → holds_d t d' = holds_d t d.
Proof. destruct d; simpl; intros; case_decide || done; by simplify_eq/=. Qed.
Lemma wake_push_holds t d d' : wake_push d = Some d' → holds_d t d' = holds_d t d.
Proof. destruct d; simpl; intros; by simplify_eq/=. Qed.
Lemma wake_get_task m : manager_task (wake_manager_get m) = manager_task m.
Proof. by destruct m. Qed.
Lemma wake_take_task m : manager_task (wake_manager_take m) = manager_task m.
Proof. by destruct m. Qed.
Lemma wake_exec_task c m : manager_task (wake_manager_exec c m) = manager_task m.
Proof. destruct m; simpl; try done. by case_decide. Qed.
Lemma wake_get_replace m c t i : wake_manager_get m = M_replace c t i ↔ m = M_replace c t i.
Proof. by destruct m. Qed.
Lemma wake_take_replace m c t i : wake_manager_take m = M_replace c t i ↔ m = M_replace c t i.
Proof. by destruct m. Qed.
Lemma wake_exec_replace c' m c t i : wake_manager_exec c' m = M_replace c t i ↔ m = M_replace c t i.
Proof. destruct m; simpl; try done. by case_decide. Qed.

(** The sums after a step, from the lookups that are known. *)
Ltac sums :=
  unfold held, set_dispatcher, set_conn; cbn;
  repeat match goal with
  | Hk : _ !! _ = Some _ |- context [zsum _ (<[_ := _]> _)] => rewrite (zsum_insert _ _ _ _ _ Hk)
  | |- context [occ _ (_ ++ _)] => rewrite occ_app
  end; cbn; rewrite ?wake_get_task, ?wake_take_task, ?wake_exec_task.

Lemma waits_keep s k d : tasks_ok s → waits_for d = None → waits_ok (<[k := d]> (dispatchers s)).
Proof. intros Hs Hd. apply waits_insert; [exact (a_waits s Hs)|]. intros b. by rewrite Hd. Qed.

Lemma manager_keeps s m b t : tasks_ok s → manager_task m = manager_task (manager s) →
  (∀ c i, m = M_replace c t i ↔ manager s = M_replace c t i) →
  supportBatchTaskList s !! b = Some t → manager_task m = Some t → ∃ c i, m = M_replace c t i ∧ (i ≤ b)%nat.
Proof.
  intros Hs Hm Hr Hb Ht. destruct (a_batch s Hs b t Hb) as (_ & _ & H). destruct H as (c & i & H & Hi); [congruence|].
  exists c, i. split; [by apply Hr|done].
Qed.

(** A task is made for a job that does not share one. *)
Lemma tasks_ok_alone s k t : tasks_ok s → dispatchers s !! k = Some D_start → goes_to k Alone → tasks s !! t = None →
  tasks_ok (set_dispatcher k (D_push t) (s <| tasks ::= <[t := mkTask false [k]]> |>)).
Proof.
  intros Hs Hk Hg Ht. destruct (a_none s Hs t Ht) as [H0 Hsup].
  assert (∀ t', held t' (set_dispatcher k (D_push t) (s <| tasks ::= <[t := mkTask false [k]]> |>)) = held t' s + ind (t = t')) as Hh.
  { intros t'; sums; lia. }
  pose proof Hs as [Hl Hnd Ho Hn Hb Hoth Hw]. split; cbn; try done.
  - intros t'. rewrite Hh. unfold ind. specialize (Ho t'). case_decide; subst; lia.
  - intros t'. rewrite Hh, lookup_insert_None. intros [Hnone Hne]. rewrite ind_false by done. specialize (Hn t' Hnone). split; [lia|apply Hn].
  - intros b t' Hb'. destruct (Hb b t' Hb') as ((l & Hlook & Hl' & Hok) & Hc & Hm). split; [|done].
    assert (t ≠ t') by (intros <-; congruence). exists l. rewrite lookup_insert_ne, Hh, ind_false by done. split; [done|]. by rewrite Z.add_0_r.
  - intros t' task. rewrite Hh, lookup_insert_Some. intros [[<- <-]|[Hne Hlook]] Hns.
    + rewrite ind_true by done. split; [lia|]. split; [done|]. by exists k.
    + rewrite ind_false, Z.add_0_r by done. by apply Hoth.
  - apply waits_keep; done.
Qed.

(** A job joins the batch. *)
Lemma tasks_ok_append s k b t task : tasks_ok s → dispatchers s !! k = Some (D_batch b) → supportBatchTaskList s !! b = Some t →
  tasks s !! t = Some task → (length (jobList task) < batchMax)%nat →
  tasks_ok (set_dispatcher k (if decide (jobList task = []) then D_push t else D_done) (s <| tasks ::= <[t := task <| jobList ::= (.++ [k]) |>]> |>)).
Proof.
  intros Hs Hk Hb Ht Hlen. destruct (a_batch s Hs b t Hb) as ((l & Hlook & Hl & Hok) & Hc & Hm). rewrite Ht in Hlook. injection Hlook as ->.
  change (jobList (mkTask true l)) with l in *.
  set (s' := set_dispatcher _ _ _).
  assert (∀ t', held t' s' = held t' s + (if decide (l = []) then ind (t = t') else 0)) as Hh
    by (intros t'; unfold s'; sums; case_decide; cbn; lia).
  pose proof (held_nonneg t s) as Hpos. pose proof Hs as [Hlen' Hnd Ho Hn Hbs Hoth Hw].
  assert (held t s' = 1) as Ht1.
  { rewrite Hh. case_decide as Hd; [rewrite ind_true by done; apply Hl in Hd; lia|]. specialize (Ho t). assert (held t s ≠ 0) by (intros H0; by apply Hd, Hl). lia. }
  split; cbn; try done.
  - intros t'. destruct (decide (t = t')) as [<-|Hne]; [lia|]. rewrite Hh, (ind_false (t = t')) by done. specialize (Ho t'). case_decide; lia.
  - intros t'. rewrite lookup_insert_None, Hh. intros [Hnone Hne]. rewrite (ind_false (t = t')) by done. specialize (Hn t' Hnone). split; [case_decide; lia|apply Hn].
  - intros b' t' Hb'. destruct (decide (t = t')) as [<-|Hne].
    + assert (b' = b) as -> by (by eapply NoDup_lookup). split; [|done]. exists (l ++ [k]). split; [by rewrite lookup_insert_eq|].
      split; [rewrite Ht1; split; [intros [_ [=]]%app_nil|lia]|]. destruct Hok as [Hl1 Hl2]. split; [rewrite length_app; simpl; lia|].
      apply Forall_app. split; [done|]. constructor; [|done]. apply Hw. by left.
    + destruct (Hbs b' t' Hb') as ((l' & Hlook & Hl' & Hok') & Hc' & Hm'). split; [|done]. exists l'. rewrite lookup_insert_ne by done.
      split; [done|]. rewrite Hh, (ind_false (t = t')) by done. split; [|done]. case_decide; by rewrite Z.add_0_r.
  - intros t' task'. rewrite lookup_insert_Some. intros [[<- <-]|[Hne Hlook]] Hns; [destruct Hns; by eapply list_elem_of_lookup_2|].
    rewrite Hh, (ind_false (t = t')) by done. case_decide; rewrite Z.add_0_r; by apply Hoth.
  - apply waits_keep; [done|by case_decide].
Qed.

(** The manager takes the batch away and puts an empty one in its place. *)
Lemma tasks_ok_replace s c t i t' : tasks_ok s → manager s = M_replace c t i → supportBatchTaskList s !! i = Some t → tasks s !! t' = None →
  tasks_ok (s <| supportBatchTaskList ::= <[i := t']> |> <| tasks ::= <[t' := mkTask true []]> |> <| manager := M_notify_batch c t i |>).
Proof.
  intros Hs Hm Hi Ht'. destruct (a_none s Hs t' Ht') as [H0 Hsup]. match goal with |- tasks_ok ?x => set (s' := x) end.
  assert (∀ x, held x s' = held x s) as Hh by (intros x; unfold held, s'; cbn; by rewrite Hm).
  pose proof Hs as [Hl Hnd Ho Hn Hb Hoth Hw]. destruct (Hb i t Hi) as ((l & Hlook & Hl' & Hok) & Hc & _).
  assert (held t s = 1) as Ht1.
  { pose proof (held_manager t s). pose proof (Ho t). rewrite Hm in *. cbn in *. intuition lia. }
  assert (t ≠ t') as Hne by (intros ->; congruence).
  assert (∀ b x, b ≠ i → supportBatchTaskList s !! b = Some x → x ≠ t) as Hdist by (intros b x Hbi Hx ->; apply Hbi; by eapply NoDup_lookup).
  assert ((i < length (supportBatchTaskList s))%nat) as Hlt by by eapply lookup_lt_Some.
  split; unfold s'; cbn; fold s'.
  - by rewrite length_insert.
  - apply NoDup_alt. intros a b x. rewrite !list_lookup_insert_Some.
    intros [(<- & <- & _)|[Ha Hxa]] [(<- & Hx & _)|[Hb' Hxb]]; try done.
    + destruct Hsup. by eapply list_elem_of_lookup_2.
    + subst x. destruct Hsup. by eapply list_elem_of_lookup_2.
    + by eapply NoDup_lookup.
  - intros x. rewrite Hh. apply Ho.
  - intros x. rewrite Hh, lookup_insert_None. intros [Hx Hxt]. destruct (Hn x Hx) as [Hx0 Hxs]. split; [done|].
    rewrite list_elem_of_lookup. intros [b Hb']. rewrite list_lookup_insert_Some in Hb'. destruct Hb' as [(_ & ? & _)|[_ Hb']]; [done|].
    apply Hxs. by eapply list_elem_of_lookup_2.
  - intros b x. rewrite list_lookup_insert_Some. intros [(<- & <- & _)|[Hbi Hx]].
    + split; [exists []; rewrite lookup_insert_eq, Hh; split; [done|split; [done|split; [simpl; lia|done]]]|].
      split; [|intros [= <-]; done]. unfold held in H0. pose proof (holders_nonneg t' s). lia.
    + destruct (Hb b x Hx) as ((lx & Hlx & Hlx' & Hokx) & Hcx & _). pose proof (Hdist b x (not_eq_sym Hbi) Hx).
      split; [exists lx; rewrite Hh, lookup_insert_ne by congruence; done|]. split; [done|]. intros [= ->]. done.
  - intros x task. rewrite Hh, lookup_insert_Some. intros [[<- <-]|[Hxt Hx]] Hns.
    { destruct Hns. apply (list_elem_of_lookup_2 _ i). by apply list_lookup_insert_eq. }
    destruct (decide (x = t)) as [->|Hxt'].
    + split; [done|]. rewrite Hlook in Hx. injection Hx as <-. split; [cbn; intros ->; destruct Hl' as [Hl' _]; specialize (Hl' eq_refl); lia|].
      by exists i.
    + apply Hoth; [done|]. rewrite list_elem_of_lookup. intros [b Hb']. apply Hns. apply (list_elem_of_lookup_2 _ b).
      rewrite list_lookup_insert_ne; [done|]. intros <-. congruence.
  - exact Hw.
Qed.

(** A worker deletes the task it has executed. *)
Lemma tasks_ok_delete s c t task : tasks_ok s → conns s !! c = Some (mkConn (Some t) W_reset) → tasks s !! t = Some task →
  tasks_ok (set_conn c (mkConn None W_notify) (s <| tasks ::= delete t |> <| deleted ::= (.++ jobList task) |>)).
Proof.
  intros Hs Hc Ht. set (s' := set_conn _ _ _).
  assert (∀ x, zsum (holds_c x) (conns s') = zsum (holds_c x) (conns s) - ind (t = x)) as Hz.
  { intros x. unfold s', set_conn. cbn. rewrite (zsum_insert _ _ _ _ _ Hc). unfold holds_c. cbn. rewrite (ind_false (None = Some x)) by done.
    unfold ind. do 2 case_decide; simplify_eq; lia. }
  assert (∀ x, held x s' = held x s - ind (t = x)) as Hh by (intros x; unfold held at 1; rewrite Hz; unfold held, s', set_conn; cbn; lia).
  pose proof Hs as [Hl Hnd Ho Hn Hb Hoth Hw].
  assert (t ∉ supportBatchTaskList s) as Hns.
  { rewrite list_elem_of_lookup. intros [b Hbt]. destruct (Hb b t Hbt) as (_ & H0 & _). pose proof (conn_holds c _ t s Hc eq_refl). lia. }
  destruct (Hoth t task Ht Hns) as [Ht1 _].
  split; unfold s', set_conn; cbn; fold s'; try done.
  - intros x. rewrite Hh. specialize (Ho x). pose proof (ind_range (t = x)). lia.
  - intros x. rewrite Hh, lookup_delete_None. intros [<-|Hx]; [rewrite ind_true by done; split; [lia|done]|].
    assert (t ≠ x) by congruence. rewrite ind_false by done. destruct (Hn x Hx). split; [lia|done].
  - intros b x Hx. assert (t ≠ x) as Hne by (intros ->; apply Hns; by eapply list_elem_of_lookup_2).
    destruct (Hb b x Hx) as ((l & Hlook & Hl' & Hok) & Hcx & Hm). split; [exists l; rewrite lookup_delete_ne, Hh, ind_false, Z.sub_0_r by done; done|].
    split; [|done]. change (zsum (holds_c x) (conns s') = 0). rewrite Hz, ind_false by done. lia.
  - intros x task'. rewrite lookup_delete_Some. intros [Hne Hx] Hx'. rewrite Hh, ind_false, Z.sub_0_r by done. by apply Hoth.
Qed.

Lemma not_batch s t : tasks_ok s → manager_task (manager s) = Some t → (∀ c i, manager s ≠ M_replace c t i) → t ∉ supportBatchTaskList s.
Proof.
  intros Hs Hm Hr. rewrite list_elem_of_lookup. intros [b Hb]. destruct (a_batch s Hs b t Hb) as (_ & _ & H).
  destruct (H Hm) as (c & i & H' & _). by apply (Hr c i).
Qed.

(** The steps of [tasks_ok_frame], as far as they are the same in every case. *)
Ltac frame Hs :=
  apply (tasks_ok_frame _ _ Hs); [reflexivity|reflexivity| | | |];
  [intros ?; sums;
   repeat match goal with H : manager _ = _ |- _ => rewrite H; clear H | H : pendingTask _ = _ |- _ => rewrite H; clear H end;
   rewrite ?occ_cons, ?occ_nil; cbn; rewrite ?ind_Some, ?ind_None; try lia; try (unfold holds_c; cbn; rewrite ?ind_Some, ?ind_None; lia)
  |try (intros ? _; reflexivity)
  |try (intros ? ? _; cbn; discriminate); try (intros ? ?; apply (manager_keeps _ _ _ _ Hs);
      [first [reflexivity|apply wake_get_task|apply wake_take_task|apply wake_exec_task]
      |intros; first [reflexivity|apply wake_get_replace|apply wake_take_replace|apply wake_exec_replace]])
  |unfold set_dispatcher, set_conn; cbn; try exact (a_waits _ Hs); try (by apply waits_keep)].

Lemma tasks_ok_dispatcher s s' k : tasks_ok s → dispatcher_step k s s' → tasks_ok s'.
Proof.
  intros Hs Hstep. destruct Hstep as [r Hk Hr Hd|r b Hk Hr Hd|r t Hk Hr Hd Ht|b t task Hk Hb Ht Hl|b t task Hk Hb Ht Hl|t Hk Hp Hl|t Hk Hp Hl|Hk].
  - frame Hs.
  - frame Hs. apply waits_insert; [exact (a_waits _ Hs)|]. intros b' [= <-]. by exists r.
  - apply tasks_ok_alone; try done. by exists r.
  - frame Hs. apply waits_insert; [exact (a_waits _ Hs)|]. intros b' [= <-]. apply (a_waits _ Hs). by left.
  - by apply (tasks_ok_append s k b t task).
  - frame Hs.
  - frame Hs.
  - frame Hs.
Qed.

Lemma tasks_ok_manager s s' : tasks_ok s → manager_step s s' → tasks_ok s'.
Proof.
  intros Hs Hstep. destruct Hstep as [Hm Hp|c l Hm Hp|c Hm Hp|c t l Hm Hp|c t i t' Hm Hi Hne|c t i t' Hm Hi Ht|c t i Hm Hi|c t i ds Hm Hn|c t ds Hm Hn
                                     |c t x Hm Hc Hx|c t x Hm Hc Hx|c x Hm Hc].
  - frame Hs.
  - frame Hs.
  - frame Hs.
  - frame Hs. intros b x _ [= <-]. exists c, 0%nat. split; [done|lia].
  - frame Hs. intros b x Hb [= <-]. destruct (a_batch s Hs b t Hb) as (_ & _ & H). rewrite Hm in H. destruct (H eq_refl) as (c' & i' & [= <- <-] & Hle).
    exists c, (S i). split; [done|]. assert (i ≠ b) by (intros ->; congruence). lia.
  - by apply tasks_ok_replace.
  - frame Hs. intros b x Hb [= <-]. destruct (a_batch s Hs b t Hb) as (_ & _ & H). rewrite Hm in H. destruct (H eq_refl) as (c' & i' & [= <- <-] & Hle).
    apply lookup_lt_Some in Hb. rewrite (a_length s Hs) in Hb. lia.
  - frame Hs.
    + rewrite (notify_sum _ _ _ _ Hn) by (intros; by eapply wake_batch_holds). lia.
    + intros b x Hb [= <-]. destruct (not_batch s t Hs); [by rewrite Hm|by rewrite Hm|by eapply list_elem_of_lookup_2].
    + eapply waits_notify; [exact (a_waits _ Hs)|done|intros; by eapply wake_batch_waits].
  - frame Hs.
    + rewrite (notify_sum _ _ _ _ Hn) by (intros; by eapply wake_push_holds). lia.
    + intros b x Hb [= <-]. destruct (not_batch s t Hs); [by rewrite Hm|by rewrite Hm|by eapply list_elem_of_lookup_2].
    + eapply waits_notify; [exact (a_waits _ Hs)|done|intros; by eapply wake_push_waits].
  - frame Hs. intros b y Hb [= <-]. destruct (not_batch s t Hs); [by rewrite Hm|by rewrite Hm|by eapply list_elem_of_lookup_2].
  - frame Hs.
    + unfold holds_c at 2 3. cbn. rewrite Hx, !ind_Some, !ind_None. lia.
    + intros y Hy. unfold set_conn. cbn. rewrite (zsum_insert _ _ _ _ _ Hc). unfold holds_c at 2 3. cbn. rewrite Hx, ind_Some, ind_None.
      rewrite ind_false; [lia|]. intros <-. destruct (not_batch s t Hs); [by rewrite Hm|by rewrite Hm|done].
  - frame Hs. intros y Hy. unfold set_conn. cbn. rewrite (zsum_insert _ _ _ _ _ Hc). unfold holds_c. cbn. lia.
Qed.

Lemma tasks_ok_worker s s' c : tasks_ok s → worker_step c s s' → tasks_ok s'.
Proof.
  intros Hs Hstep. destruct Hstep as [Hc|t Hc|t task Hc Ht|x Hc|x Hc|t task Hc Ht|x Hc];
    try (frame Hs; intros; unfold set_conn; cbn; rewrite (zsum_insert _ _ _ _ _ Hc); unfold holds_c; cbn; lia).
  by apply tasks_ok_delete.
Qed.

Lemma tasks_ok_spurious s s' : tasks_ok s → spurious s s' → tasks_ok s'.
Proof.
  intros Hs Hstep. destruct Hstep as [k d d' Hk Hd| | |c|c x Hc].
  - frame Hs.
    + destruct Hd as [Hd|[b Hd]]; [rewrite (wake_push_holds _ _ _ Hd)|rewrite (wake_batch_holds _ _ _ _ Hd)]; lia.
    + apply waits_insert; [exact (a_waits _ Hs)|]. intros b Hb. apply (a_waits _ Hs).
      destruct Hd as [Hd|[b' Hd]]; [rewrite (wake_push_waits _ _ Hd) in Hb|rewrite (wake_batch_waits _ _ _ Hd) in Hb]; destruct d; simplify_eq/=; auto.
  - frame Hs.
  - frame Hs.
  - frame Hs.
  - frame Hs. intros y Hy. unfold set_conn. cbn. rewrite (zsum_insert _ _ _ _ _ Hc). unfold holds_c. cbn. lia.
Qed.

Lemma seq_tasks_lookup (n t : nat) (x : Task) :
  (list_to_map ((λ t, (t, x)) <$> seq 0 n) : gmap nat Task) !! t = if decide (t < n)%nat then Some x else None.
Proof.
  case_decide.
  - apply elem_of_list_to_map; [rewrite <-list_fmap_compose; apply NoDup_fmap; [by intros ?|apply NoDup_seq]|].
    apply list_elem_of_fmap. exists t. split; [done|]. apply elem_of_seq. lia.
  - apply not_elem_of_list_to_map. rewrite <-list_fmap_compose. intros (y & -> & Hy%elem_of_seq)%list_elem_of_fmap. cbn in *. lia.
Qed.

Lemma held_start n t : held t (PGConnectionPool n requests) = 0.
Proof.
  unfold held, PGConnectionPool. cbn [dispatchers pendingTask manager conns manager_task]. rewrite ind_false by done.
  assert (∀ {A} (f : A → Z) k x, f x = 0 → zsum f (replicate k x) = 0) as Hz by (intros A f k x Hf; induction k; simpl; lia).
  rewrite !Hz, occ_nil; [done|unfold holds_c; by rewrite ind_false|done].
Qed.

Lemma tasks_ok_start n : tasks_ok (PGConnectionPool n requests).
Proof.
  split.
  - done.
  - apply NoDup_seq.
  - intros t. rewrite held_start. lia.
  - intros t. rewrite held_start. cbn [tasks supportBatchTaskList PGConnectionPool]. rewrite seq_tasks_lookup. intros Hn. split; [done|].
    case_decide; [done|]. rewrite elem_of_seq. lia.
  - intros b t. cbn [tasks supportBatchTaskList PGConnectionPool manager]. intros [-> Hlt]%lookup_seq. rewrite held_start, seq_tasks_lookup, decide_True by lia.
    split; [exists []; split; [done|]; split; [done|]; split; [simpl; lia|done]|]. split; [|done].
    pose proof (held_start n (0 + b)) as Hh. unfold held in Hh. pose proof (holders_nonneg (0 + b) (PGConnectionPool n requests)). lia.
  - intros t task. cbn [tasks supportBatchTaskList PGConnectionPool]. rewrite seq_tasks_lookup. case_decide; [|done]. rewrite elem_of_seq. lia.
  - intros k b. cbn [dispatchers PGConnectionPool]. rewrite !lookup_replicate. by intros [[[=] _]|[[=] _]].
Qed.

Lemma tasks_ok_reachable n s : reachable requests pendingMax batchMax n s → tasks_ok s.
Proof.
  induction 1 as [|s s' _ IH [k Hs|Hs|c Hs]|s s' _ IH Hs]; [apply tasks_ok_start|by eapply tasks_ok_dispatcher|by eapply tasks_ok_manager
    |by eapply tasks_ok_worker|by eapply tasks_ok_spurious].
Qed.

(** ** Who has a connection *)
Definition owners (c : nat) (s : Pool) : Z := occ c (connPool s) + ind (manager_conn (manager s) = Some c).

(** How many, by what the connection is doing; none of the other cases occurs. *)
Definition owned (x : PGConnection) : Z :=
  match taskToExec x, worker x with
  | None, (W_wait | W_asleep | W_notify) | Some _, (W_notify_pool | W_reset) => 1
  | Some _, (W_wait | W_asleep | W_notify | W_execute | W_readd) => 0
  | _, _ => -1
  end.
Record conns_ok (s : Pool) : Prop := {
  b_owned c x : conns s !! c = Some x → owners c s = owned x;
  b_asleep c x t : conns s !! c = Some x → taskToExec x = Some t → worker x = W_asleep → manager s = M_notify_exec c;
  b_range c : 0 < owners c s ∨ manager s = M_notify_exec c → (c < length (conns s))%nat }.

Lemma pool_owners_nonneg c s : 0 ≤ owners c s.
Proof. unfold owners. pose proof (occ_nonneg c (connPool s)). pose proof (ind_range (manager_conn (manager s) = Some c)). lia. Qed.

Lemma wake_get_conn m : manager_conn (wake_manager_get m) = manager_conn m.
Proof. by destruct m. Qed.
Lemma wake_take_conn m : manager_conn (wake_manager_take m) = manager_conn m.
Proof. by destruct m. Qed.
Lemma wake_exec_conn c m : manager_conn (wake_manager_exec c m) = manager_conn m.
Proof. destruct m; simpl; try done. by case_decide. Qed.
Lemma wake_get_notify m c : wake_manager_get m = M_notify_exec c ↔ m = M_notify_exec c.
Proof. by destruct m. Qed.
Lemma wake_take_notify m c : wake_manager_take m = M_notify_exec c ↔ m = M_notify_exec c.
Proof. by destruct m. Qed.
Lemma wake_exec_notify c' m c : wake_manager_exec c' m = M_notify_exec c ↔ m = M_notify_exec c.
Proof. destruct m; simpl; try done. by case_decide. Qed.

(** Connection [c] becomes [x'], and the owners change accordingly. *)
Lemma conns_ok_change s s' c x x' :
  conns_ok s → conns s !! c = Some x → conns s' = <[c := x']> (conns s) →
  (∀ c', owners c' s' = owners c' s + (owned x' - owned x) * ind (c = c')) →
  (∀ t, taskToExec x' = Some t → worker x' = W_asleep → manager s' = M_notify_exec c) →
  (∀ c', c' ≠ c → manager s' = M_notify_exec c' ↔ manager s = M_notify_exec c') → conns_ok s'.
Proof.
  intros [Ho Ha Hr] Hc Ec Eo Ex Em. split; rewrite ?Ec.
  - intros c' y Hy. rewrite Eo. destruct (decide (c' = c)) as [->|Hne].
    + rewrite list_lookup_insert_eq in Hy by (by eapply lookup_lt_Some). injection Hy as <-. rewrite ind_true, (Ho c x Hc) by done. lia.
    + rewrite list_lookup_insert_ne in Hy by done. rewrite ind_false, (Ho c' y Hy) by congruence. lia.
  - intros c' y t Hy Ht Hw. destruct (decide (c' = c)) as [->|Hne].
    + rewrite list_lookup_insert_eq in Hy by (by eapply lookup_lt_Some). injection Hy as <-. by apply (Ex t).
    + rewrite list_lookup_insert_ne in Hy by done. apply Em; [done|]. by apply (Ha c' y t).
  - intros c'. rewrite length_insert, Eo. destruct (decide (c' = c)) as [->|Hne]; [intros _; by eapply lookup_lt_Some|].
    rewrite ind_false, Em by congruence. intros H. apply Hr. destruct H; [left; lia|by right].
Qed.

(** The connections are as they were. *)
Lemma conns_ok_same s s' : conns_ok s → conns s' = conns s → (∀ c, owners c s' = owners c s) →
  (∀ c, manager s' = M_notify_exec c ↔ manager s = M_notify_exec c) → conns_ok s'.
Proof.
  intros [Ho Ha Hr] Ec Eo Em. split; rewrite ?Ec; intros c; rewrite ?Eo, ?Em; auto.
  intros x t Hx Ht Hw. apply Em. by apply (Ha c x t).
Qed.

Ltac same Hs :=
  apply (conns_ok_same _ _ Hs); [reflexivity| |];
  [intros ?; unfold owners, set_dispatcher; cbn;
   repeat match goal with H : manager _ = _ |- _ => rewrite H; clear H | H : connPool _ = _ |- _ => rewrite H; clear H end;
   rewrite ?occ_cons, ?wake_get_conn, ?wake_take_conn, ?wake_exec_conn; cbn; rewrite ?ind_Some, ?ind_None; try lia
  |intros ?; cbn; rewrite ?wake_get_notify, ?wake_take_notify, ?wake_exec_notify;
   repeat match goal with H : manager _ = _ |- _ => rewrite H; clear H end; try done].

Ltac change_conn Hs Hc :=
  eapply (conns_ok_change _ _ _ _ _ Hs Hc); [reflexivity| | |];
  [intros ?; unfold owners, set_conn; cbn;
   repeat match goal with H : manager _ = _ |- _ => rewrite H; clear H end;
   rewrite ?wake_get_conn, ?wake_take_conn, ?wake_exec_conn; cbn; rewrite ?ind_Some, ?ind_None; try lia
  |try done
  |intros ? ?; cbn; rewrite ?wake_get_notify, ?wake_take_notify, ?wake_exec_notify;
   repeat match goal with H : manager _ = _ |- _ => rewrite H; clear H end; try done; try (split; congruence)].

Lemma conns_ok_step s s' : conns_ok s → step s s' → conns_ok s'.
Proof.
  intros Hs [k Hstep|Hstep|c Hstep].
  - destruct Hstep; same Hs.
  - destruct Hstep as [Hm Hp|c l Hm Hp|c Hm Hp|c t l Hm Hp|c t i t' Hm Hi Hne|c t i t' Hm Hi Ht|c t i Hm Hi|c t i ds Hm Hn|c t ds Hm Hn
                      |c t x Hm Hc Hx|c t x Hm Hc Hx|c x Hm Hc]; try same Hs.
    + assert (owned x = 1) as H1.
      { pose proof (b_owned s Hs c x Hc) as Ho. unfold owners in Ho. rewrite Hm in Ho. cbn in Ho. rewrite ind_true in Ho by done.
        pose proof (occ_nonneg c (connPool s)). unfold owned in *. rewrite Hx in *. destruct (worker x); lia. }
      change_conn Hs Hc.
      unfold owned in *. cbn. rewrite Hx in *. destruct (worker x); try done; lia.
    + change_conn Hs Hc.
      * unfold owned. cbn. destruct (taskToExec x), (worker x); cbn; lia.
      * intros t Ht. cbn. by destruct (worker x).
  - destruct Hstep as [Hc|t Hc|t task Hc Ht|x Hc|x Hc|t task Hc Ht|x Hc]; change_conn Hs Hc; try done; try (unfold owned; cbn; lia).
    + rewrite occ_app, occ_cons, occ_nil. pose proof (b_owned s Hs c _ Hc) as Ho. pose proof (pool_owners_nonneg c s). unfold owned in *. cbn in *.
      destruct x; lia.
Qed.

Lemma conns_ok_spurious s s' : conns_ok s → spurious s s' → conns_ok s'.
Proof.
  intros Hs Hstep. destruct Hstep as [k d d' Hk Hd| | |c|c x Hc]; try same Hs. change_conn Hs Hc.
  - unfold owned. cbn. destruct (taskToExec x), (worker x); cbn; lia.
  - intros t Ht. cbn. by destruct (worker x).
Qed.

Lemma occ_seq x n : occ x (seq 0 n) = ind (x < n)%nat.
Proof.
  destruct (decide (x < n)%nat) as [Hlt|Hge].
  - rewrite (ind_true _ Hlt). assert (∀ m, occ x (seq m (n - m)) ≤ 1) as Hle.
    { intros m. generalize (n - m)%nat. intros k. revert m. induction k as [|k IH]; intros m; cbn [seq]; [rewrite occ_nil; lia|]. rewrite occ_cons.
      destruct (decide (m = x)) as [->|Hne]; [|rewrite ind_false by done; apply IH].
      rewrite ind_true by done. assert (occ x (seq (S x) k) = 0) as ->; [|lia]. apply occ_not_elem. rewrite elem_of_seq. lia. }
    specialize (Hle 0%nat). rewrite Nat.sub_0_r in Hle. assert (0 < occ x (seq 0 n)); [|lia]. apply occ_elem, elem_of_seq. lia.
  - rewrite (ind_false _ Hge). apply occ_not_elem. rewrite elem_of_seq. lia.
Qed.

Lemma conns_ok_start n : conns_ok (PGConnectionPool n requests).
Proof.
  split; unfold owners; cbn [connPool conns manager PGConnectionPool manager_conn].
  - intros c x [-> Hlt]%lookup_replicate. rewrite occ_seq, ind_true, ind_None by done. done.
  - intros c x t [-> Hlt]%lookup_replicate. done.
  - intros c. rewrite length_replicate, occ_seq, ind_None. intros [H|H]; [|done]. unfold ind in H. case_decide; [done|lia].
Qed.

Lemma conns_ok_reachable n s : reachable requests pendingMax batchMax n s → conns_ok s.
Proof. induction 1 as [|s s' _ IH Hs|s s' _ IH Hs]; [apply conns_ok_start|by eapply conns_ok_step|by eapply conns_ok_spurious]. Qed.

(** ** No notification is lost *)
Definition push_asleep (d : dispatcher_at) : Z := match d with D_push_asleep _ => 1 | _ => 0 end.
Definition pushing (d : dispatcher_at) : Z := match d with D_push _ => 1 | _ => 0 end.
Definition batch_asleep (b : nat) (d : dispatcher_at) : Z := match d with D_batch_asleep b' => ind (b' = b) | _ => 0 end.
Definition batching (b : nat) (d : dispatcher_at) : Z := match d with D_batch b' => ind (b' = b) | _ => 0 end.
Definition popping (m : manager_at) : Z := match m with M_replace _ _ _ | M_notify_batch _ _ _ | M_notify_full _ _ => 1 | _ => 0 end.

(** Who sleeps before the queue: it is full, but for those who are awake. *)
Definition queue_ok (s : Pool) : Prop :=
  (length (pendingTask s) ≤ pendingMax)%nat ∧
  (0 < zsum push_asleep (dispatchers s) →
   Z.of_nat pendingMax ≤ Z.of_nat (length (pendingTask s)) + zsum pushing (dispatchers s) + popping (manager s)).

(** Who sleeps before a batch: it has a job, or somebody is awake, or about to
    be woken. *)
Definition has_job (s : Pool) (b : nat) : Prop :=
  ∃ t task, supportBatchTaskList s !! b = Some t ∧ tasks s !! t = Some task ∧ jobList task ≠ [].
Definition batches_ok (s : Pool) : Prop := ∀ b, 0 < zsum (batch_asleep b) (dispatchers s) →
  has_job s b ∨ 0 < zsum (batching b) (dispatchers s) ∨ ∃ c t, manager s = M_notify_batch c t b.

(** Why the manager sleeps. *)
Definition manager_ok (s : Pool) : Prop :=
  match manager s with
  | M_get_asleep => connPool s = [] ∨ ∃ c x, conns s !! c = Some (mkConn x W_notify_pool)
  | M_take_asleep _ => pendingTask s = [] ∨ D_notify ∈ dispatchers s
  | M_exec_asleep c _ => ∃ x, conns s !! c = Some x ∧ (taskToExec x ≠ None ∨ worker x = W_notify)
  | _ => True
  end.

Lemma wake_batch_Some i d d' : wake_batch i d = Some d' → d = D_batch_asleep i ∧ d' = D_batch i.
Proof. destruct d; simpl; intros; case_decide || done; by simplify_eq. Qed.
Lemma wake_push_Some d d' : wake_push d = Some d' → ∃ t, d = D_push_asleep t ∧ d' = D_push t.
Proof. destruct d; simpl; intros; simplify_eq; eauto. Qed.
Lemma wake_take_popping m : popping (wake_manager_take m) = popping m.
Proof. by destruct m. Qed.
Lemma wake_get_popping m : popping (wake_manager_get m) = popping m.
Proof. by destruct m. Qed.
Lemma wake_exec_popping c m : popping (wake_manager_exec c m) = popping m.
Proof. destruct m; simpl; try done. by case_decide. Qed.

Lemma popping_nonneg m : 0 ≤ popping m.
Proof. by destruct m. Qed.

Lemma notify_push ds ds' : notify_one wake_push ds ds' → 0 < zsum push_asleep ds' →
  zsum push_asleep ds' = zsum push_asleep ds - 1 ∧ zsum pushing ds' = zsum pushing ds + 1.
Proof.
  intros [Hn|k d d' Hk Hw] Hp.
  - rewrite zsum_zero in Hp; [lia|]. intros d Hd. specialize (Hn d Hd). by destruct d.
  - apply wake_push_Some in Hw as (t & -> & ->). rewrite !(zsum_insert _ _ _ _ _ Hk). simpl. lia.
Qed.

Ltac queue_case :=
  unfold queue_ok, set_dispatcher, set_conn; cbn;
  repeat match goal with
  | H : manager _ = _ |- _ => rewrite H in *; clear H
  | H : pendingTask _ = _ |- _ => rewrite H in *; clear H
  | Hk : _ !! _ = Some _ |- context [zsum _ (<[_ := _]> _)] => rewrite (zsum_insert _ _ _ _ _ Hk)
  end;
  rewrite ?length_app, ?wake_take_popping, ?wake_get_popping, ?wake_exec_popping; cbn in *; try lia.

Lemma queue_ok_step s s' : queue_ok s → step s s' → queue_ok s'.
Proof.
  intros [Hb Hq] [k Hstep|Hstep|c Hstep].
  - destruct Hstep as [r Hk Hr Hd|r b Hk Hr Hd|r t Hk Hr Hd Ht|b t task Hk Hbt Ht Hl|b t task Hk Hbt Ht Hl|t Hk Hp Hl|t Hk Hp Hl|Hk]; queue_case.
    + case_decide; cbn; lia.
    + pose proof (zsum_elem pushing _ _ _ ltac:(by intros []) Hk) as H1. pose proof (popping_nonneg (manager s)). cbn in H1. lia.
  - destruct Hstep as [Hm Hp|c l Hm Hp|c Hm Hp|c t l Hm Hp|c t i t' Hm Hi Hne|c t i t' Hm Hi Ht|c t i Hm Hi|c t i ds Hm Hn|c t ds Hm Hn
                      |c t x Hm Hc Hx|c t x Hm Hc Hx|c x Hm Hc]; queue_case.
    + rewrite !(notify_sum _ _ _ _ Hn) by (intros ? ? [-> ->]%wake_batch_Some; done). lia.
    + split; [done|]. intros Ha. destruct (notify_push _ _ Hn Ha) as [H1 H2]. rewrite H2. lia.
  - destruct Hstep; queue_case.
Qed.

Lemma queue_ok_spurious s s' : queue_ok s → spurious s s' → queue_ok s'.
Proof.
  intros [Hb Hq] Hstep. destruct Hstep as [k d d' Hk [(t & -> & ->)%wake_push_Some|(b & [-> ->]%wake_batch_Some)]| | |c|c x Hc]; queue_case.
Qed.

(** The batches keep their jobs. *)
Lemma batches_ok_frame s s' : batches_ok s → (∀ b, has_job s b → has_job s' b) →
  (∀ b, zsum (batch_asleep b) (dispatchers s') ≤ zsum (batch_asleep b) (dispatchers s)) →
  (∀ b, zsum (batching b) (dispatchers s) ≤ zsum (batching b) (dispatchers s')) →
  (∀ c t b, manager s = M_notify_batch c t b → manager s' = M_notify_batch c t b) → batches_ok s'.
Proof.
  intros Hs Hj Ha Hb Hm b H0. specialize (Ha b). specialize (Hb b). destruct (Hs b ltac:(lia)) as [H|[H|(c & t & H)]]; [left; auto|right; left; lia|].
  right; right. exists c, t. by apply Hm.
Qed.

Lemma has_job_tasks s s' b : supportBatchTaskList s' = supportBatchTaskList s →
  (∀ t task, supportBatchTaskList s !! b = Some t → tasks s !! t = Some task → jobList task ≠ [] → ∃ task', tasks s' !! t = Some task' ∧ jobList task' ≠ []) →
  has_job s b → has_job s' b.
Proof. intros Es Ht (t & task & H1 & H2 & H3). destruct (Ht t task H1 H2 H3) as (task' & ? & ?). exists t, task'. by rewrite Es. Qed.

Lemma batches_ok_append s k b t task d : batches_ok s → tasks_ok s → dispatchers s !! k = Some (D_batch b) → supportBatchTaskList s !! b = Some t →
  tasks s !! t = Some task → (∀ b', batch_asleep b' d = 0 ∧ batching b' d = 0) →
  batches_ok (set_dispatcher k d (s <| tasks ::= <[t := task <| jobList ::= (.++ [k]) |>]> |>)).
Proof.
  intros Hs Hok Hk Hb Ht Hd b' Ha. cbn in Ha. rewrite (zsum_insert _ _ _ _ _ Hk) in Ha. destruct (Hd b') as [Hd1 Hd2]. rewrite Hd1 in Ha. cbn in Ha.
  assert (∀ l : list nat, l ++ [k] ≠ []) as Hne by (intros l [_ ?]%app_nil; done).
  destruct (decide (b' = b)) as [->|Hbb]; [left; exists t; eexists; split; [done|]; cbn; rewrite lookup_insert_eq; split; [done|apply Hne]|].
  destruct (Hs b' ltac:(lia)) as [H|[H|H]].
  - left. revert H. apply has_job_tasks; [done|]. intros t' task' _ Ht' Hj. cbn. destruct (decide (t = t')) as [<-|].
    + eexists. rewrite lookup_insert_eq. split; [done|apply Hne].
    + exists task'. by rewrite lookup_insert_ne.
  - right; left. cbn. rewrite (zsum_insert _ _ _ _ _ Hk), Hd2. cbn. rewrite ind_false by done. lia.
  - right; right. exact H.
Qed.

Lemma batches_ok_replace s c t i t' : batches_ok s → tasks_ok s → manager s = M_replace c t i → supportBatchTaskList s !! i = Some t → tasks s !! t' = None →
  batches_ok (s <| supportBatchTaskList ::= <[i := t']> |> <| tasks ::= <[t' := mkTask true []]> |> <| manager := M_notify_batch c t i |>).
Proof.
  intros Hs Hok Hm Hi Ht b Ha. cbn in Ha. destruct (decide (b = i)) as [->|Hne]; [right; right; by exists c, t|].
  destruct (Hs b Ha) as [(x & task & H1 & H2 & H3)|[H|(c' & t0 & H)]]; [left|by right; left|congruence].
  exists x, task. cbn. rewrite list_lookup_insert_ne by done. split; [done|]. split; [|done]. rewrite lookup_insert_ne; [done|congruence].
Qed.

Lemma batches_ok_notify s c t i ds : batches_ok s → manager s = M_notify_batch c t i → notify_one (wake_batch i) (dispatchers s) ds →
  batches_ok (s <| dispatchers := ds |> <| manager := M_notify_full c t |>).
Proof.
  intros Hs Hm Hn b Ha. cbn in Ha. destruct Hn as [Hn|k d d' Hk [-> ->]%wake_batch_Some].
  - destruct (Hs b Ha) as [H|[H|(c' & t' & H)]]; [by left|by right; left|]. assert (b = i) as -> by congruence.
    rewrite zsum_zero in Ha; [lia|]. intros d Hd. specialize (Hn d Hd). destruct d; try done. simpl in *. case_decide; [done|]. by apply ind_false.
  - rewrite (zsum_insert _ _ _ _ _ Hk) in Ha. cbn in Ha. destruct (decide (b = i)) as [->|Hne].
    + right; left. cbn. rewrite (zsum_insert _ _ _ _ _ Hk). cbn. rewrite ind_true by done.
      assert (0 ≤ zsum (batching i) (dispatchers s)) by (apply zsum_nonneg; intros [] _; simpl; try lia; apply ind_range). lia.
    + rewrite ind_false in Ha by congruence. destruct (Hs b ltac:(lia)) as [H|[H|(c' & t' & H)]]; [by left| |congruence].
      right; left. cbn. rewrite (zsum_insert _ _ _ _ _ Hk). cbn. rewrite ind_false by congruence. lia.
Qed.

Ltac batches Hs :=
  apply (batches_ok_frame _ _ Hs);
  [try done
  |intros ?; unfold set_dispatcher, set_conn; cbn; repeat match goal with Hk : _ !! _ = Some _ |- context [zsum _ (<[_ := _]> _)] => rewrite (zsum_insert _ _ _ _ _ Hk) end; cbn;
   try lia; try match goal with |- context [ind ?P] => pose proof (ind_range P); lia end
  |intros ?; unfold set_dispatcher, set_conn; cbn; repeat match goal with Hk : _ !! _ = Some _ |- context [zsum _ (<[_ := _]> _)] => rewrite (zsum_insert _ _ _ _ _ Hk) end; cbn;
   try lia; try match goal with |- context [ind ?P] => pose proof (ind_range P); lia end
  |intros ? ? ?; cbn; try (intros ->; done); try congruence].

Lemma batches_ok_step s s' : (0 < batchMax)%nat → batches_ok s → tasks_ok s → step s s' → batches_ok s'.
Proof.
  intros H0 Hs Hok [k Hstep|Hstep|c Hstep].
  - destruct Hstep as [r Hk Hr Hd|r b Hk Hr Hd|r t Hk Hr Hd Ht|b t task Hk Hb Ht Hl|b t task Hk Hb Ht Hl|t Hk Hp Hl|t Hk Hp Hl|Hk]; try (batches Hs; fail).
    + batches Hs. intros b. apply has_job_tasks; [done|]. intros t' task' _ Ht' Hj. cbn. exists task'. rewrite lookup_insert_ne by congruence. done.
    + intros b' Ha. destruct (decide (b' = b)) as [->|Hne].
      { left. exists t, task. split; [done|]. split; [done|]. intros Hj. rewrite Hj in Hl. simpl in Hl. lia. }
      cbn in Ha. rewrite (zsum_insert _ _ _ _ _ Hk) in Ha. cbn in Ha. rewrite ind_false in Ha by congruence.
      destruct (Hs b' ltac:(lia)) as [H|[H|H]]; [by left| |by right; right]. right; left. cbn. rewrite (zsum_insert _ _ _ _ _ Hk). cbn.
      rewrite ind_false by congruence. lia.
    + apply (batches_ok_append s k b t task); try done. by case_decide.
  - destruct Hstep as [Hm Hp|c l Hm Hp|c Hm Hp|c t l Hm Hp|c t i t' Hm Hi Hne|c t i t' Hm Hi Ht|c t i Hm Hi|c t i ds Hm Hn|c t ds Hm Hn
                      |c t x Hm Hc Hx|c t x Hm Hc Hx|c x Hm Hc]; try (batches Hs; fail).
    + by apply batches_ok_replace.
    + by apply (batches_ok_notify s c t i).
    + batches Hs; rewrite (notify_sum _ _ _ _ Hn); [lia| |lia|]; intros ? ? (y & -> & ->)%wake_push_Some; done.
  - destruct Hstep as [Hc|t Hc|t task Hc Ht|x Hc|x Hc|t task Hc Ht|x Hc]; try (batches Hs; fail).
    batches Hs. intros b. apply has_job_tasks; [done|]. intros t' task' Hb Ht' Hj. cbn. exists task'. rewrite lookup_delete_ne; [done|].
    intros <-. destruct (a_batch s Hok b t Hb) as (_ & Hz & _). pose proof (conn_holds c _ t s Hc eq_refl). lia.
Qed.

Lemma batches_ok_spurious s s' : batches_ok s → spurious s s' → batches_ok s'.
Proof.
  intros Hs Hstep. destruct Hstep as [k d d' Hk [(t & -> & ->)%wake_push_Some|(b & [-> ->]%wake_batch_Some)]| | |c|c x Hc]; batches Hs.
Qed.

Lemma elem_insert_other {A} (l : list A) k x y z : l !! k = Some x → x ≠ z → z ∈ l → z ∈ <[k := y]> l.
Proof.
  intros Hk Hne (i & Hi)%list_elem_of_lookup. apply list_elem_of_lookup. exists i. rewrite list_lookup_insert_ne; [done|]. intros ->. congruence.
Qed.

(** A dispatcher's step that does not notify. *)
Lemma manager_ok_dispatcher s s' k d d' : manager_ok s → manager s' = manager s → connPool s' = connPool s → conns s' = conns s →
  dispatchers s !! k = Some d → dispatchers s' = <[k := d']> (dispatchers s) → d ≠ D_notify →
  (pendingTask s' = pendingTask s ∨ d' = D_notify) → manager_ok s'.
Proof.
  unfold manager_ok. intros Hs -> -> -> Hk Ed Hd Hp. destruct (manager s); try done. rewrite Ed. destruct Hp as [->| ->].
  - destruct Hs as [Hs|Hs]; [by left|right]. by eapply elem_insert_other.
  - right. apply (list_elem_of_lookup_2 _ k). apply list_lookup_insert_eq. by eapply lookup_lt_Some.
Qed.

(** A step of the worker of [c] that does not wake the manager. *)
Lemma manager_ok_worker s s' c x x' : manager_ok s → manager s' = manager s → pendingTask s' = pendingTask s → dispatchers s' = dispatchers s →
  conns s !! c = Some x → conns s' = <[c := x']> (conns s) → (worker x = W_notify_pool → worker x' = W_notify_pool) →
  (connPool s' = connPool s ∨ worker x' = W_notify_pool) →
  (taskToExec x ≠ None ∨ worker x = W_notify → taskToExec x' ≠ None ∨ worker x' = W_notify) → manager_ok s'.
Proof.
  unfold manager_ok. intros Hs -> -> -> Hc Ec Hx Hp Hx'. assert ((c < length (conns s))%nat) as Hlt by by eapply lookup_lt_Some.
  destruct (manager s) as [| | | | | | | |c' t|]; try done; rewrite Ec.
  - destruct Hp as [->|Hw].
    + destruct Hs as [Hs|(c' & y & Hy)]; [by left|right]. destruct (decide (c' = c)) as [->|Hne].
      * exists c, (taskToExec x'). rewrite Hc in Hy. simplify_eq/=. rewrite list_lookup_insert_eq by done. destruct x'. simpl in *. by rewrite Hx.
      * exists c', y. by rewrite list_lookup_insert_ne.
    + right. exists c, (taskToExec x'). rewrite list_lookup_insert_eq by done. destruct x'. simpl in *. by subst.
  - destruct Hs as (y & Hy & Hyp). destruct (decide (c' = c)) as [->|Hne].
    + rewrite Hc in Hy. injection Hy as <-. exists x'. rewrite list_lookup_insert_eq by done. auto.
    + exists y. by rewrite list_lookup_insert_ne.
Qed.

Lemma manager_ok_step s s' : manager_ok s → step s s' → manager_ok s'.
Proof.
  intros Hs [k Hstep|Hstep|c Hstep].
  - destruct Hstep as [r Hk Hr Hd|r b Hk Hr Hd|r t Hk Hr Hd Ht|b t task Hk Hb Ht Hl|b t task Hk Hb Ht Hl|t Hk Hp Hl|t Hk Hp Hl|Hk];
      try (by eapply (manager_ok_dispatcher s _ k); eauto).
    unfold manager_ok in *. cbn. by destruct (manager s).
  - destruct Hstep as [Hm Hp|c l Hm Hp|c Hm Hp|c t l Hm Hp|c t i t' Hm Hi Hne|c t i t' Hm Hi Ht|c t i Hm Hi|c t i ds Hm Hn|c t ds Hm Hn
                      |c t x Hm Hc Hx|c t x Hm Hc Hx|c x Hm Hc]; try done; unfold manager_ok; cbn; [by left|by left|].
    exists x. auto.
  - destruct Hstep as [Hc|t Hc|t task Hc Ht|x Hc|x Hc|t task Hc Ht|x Hc]; try (eapply (manager_ok_worker s _ c); eauto; cbn; naive_solver).
    + unfold manager_ok in *. cbn. destruct (manager s) as [| | | | | | | |c' t|]; try done; cbn.
      destruct Hs as (y & Hy & Hyp). destruct (decide (c' = c)) as [->|Hne].
      * rewrite Hc in Hy. injection Hy as <-. eexists. rewrite list_lookup_insert_eq by by eapply lookup_lt_Some. split; [done|]. naive_solver.
      * exists y. by rewrite list_lookup_insert_ne.
    + unfold manager_ok in *. cbn. destruct (manager s) as [| | | | | | | |c' t|]; try done; cbn.
      * destruct Hs as [Hs|(c' & y & Hy)]; [by left|right]. exists c', y. rewrite list_lookup_insert_ne; [done|]. intros <-. congruence.
      * case_decide as Hcc; [done|]. destruct Hs as (y & Hy & Hyp). exists y. by rewrite list_lookup_insert_ne.
Qed.

Lemma manager_ok_spurious s s' : manager_ok s → spurious s s' → manager_ok s'.
Proof.
  intros Hs Hstep. destruct Hstep as [k d d' Hk Hd| | |c|c x Hc].
  - eapply (manager_ok_dispatcher s _ k); eauto. destruct Hd as [(t & -> & ->)%wake_push_Some|(b & [-> ->]%wake_batch_Some)]; done.
  - unfold manager_ok in *. cbn. by destruct (manager s).
  - unfold manager_ok in *. cbn. by destruct (manager s).
  - unfold manager_ok in *. cbn. destruct (manager s); try done. cbn. by case_decide.
  - eapply (manager_ok_worker s _ c); eauto; cbn; [by intros ->|]. intros [?|Hx]; [by left|right]. by rewrite Hx.
Qed.

(** ** Where the jobs are *)
Definition accepted (k : nat) : bool := match requests !! k with Some r => negb (bool_decide (types r = [])) | None => false end.
Definition waiting (k : nat) (d : option dispatcher_at) : Z :=
  match d with
  | Some D_start => if accepted k then 1 else 0
  | Some (D_batch _ | D_batch_asleep _) => 1
  | _ => 0
  end.
Definition jobs_ok (s : Pool) : Prop := ∀ k,
  occ k (deleted s) + tsum (λ t, occ k (jobList t)) (tasks s) + waiting k (dispatchers s !! k) = if accepted k then 1 else 0.

Definition executed (x : PGConnection) : bool := match worker x with W_readd | W_notify_pool | W_reset => true | _ => false end.
Definition executed_jobs (k : nat) (m : gmap nat Task) (x : PGConnection) : Z :=
  if executed x then match taskToExec x ≫= (m !!.) with Some task => occ k (jobList task) | None => 0 end else 0.
Definition answers_ok (s : Pool) : Prop := ∀ k, occ k (answered s) = occ k (deleted s) + zsum (executed_jobs k (tasks s)) (conns s).

Lemma dest_accepted k dest : goes_to k dest → accepted k = bool_decide (dest ≠ Dropped).
Proof.
  intros (r & Hr & <-). unfold accepted, destination_of. rewrite Hr. destruct (types r) as [|y l]; [by rewrite bool_decide_eq_true_2, bool_decide_eq_false_2 by naive_solver|].
  rewrite bool_decide_eq_false_2 by done. symmetry. apply bool_decide_eq_true_2. by case_decide.
Qed.

(** The dispatcher [k] goes on and the tasks change accordingly. *)
Lemma jobs_ok_dispatcher s s' k d d' : jobs_ok s → dispatchers s !! k = Some d → dispatchers s' = <[k := d']> (dispatchers s) → deleted s' = deleted s →
  (∀ j, tsum (λ t, occ j (jobList t)) (tasks s') = tsum (λ t, occ j (jobList t)) (tasks s) + ind (k = j) * (waiting k (Some d) - waiting k (Some d'))) →
  jobs_ok s'.
Proof.
  intros Hs Hk Ed El Et j. rewrite El, Et, Ed. specialize (Hs j). destruct (decide (k = j)) as [<-|Hne].
  - rewrite list_lookup_insert_eq by by eapply lookup_lt_Some. rewrite ind_true by done. rewrite Hk in Hs. lia.
  - rewrite list_lookup_insert_ne, ind_false by done. lia.
Qed.

Lemma jobs_ok_notify wake s ds : jobs_ok s → notify_one wake (dispatchers s) ds →
  (∀ d d', wake d = Some d' → ∀ k, waiting k (Some d') = waiting k (Some d)) → ∀ s', tasks s' = tasks s → deleted s' = deleted s → dispatchers s' = ds → jobs_ok s'.
Proof.
  intros Hs Hn Hw s' Et El Ed k. rewrite Et, El, Ed. specialize (Hs k). destruct Hn as [|k' d d' Hk Hd]; [done|].
  destruct (decide (k' = k)) as [->|Hne]; [|by rewrite list_lookup_insert_ne].
  rewrite list_lookup_insert_eq, (Hw d d' Hd) by by eapply lookup_lt_Some. by rewrite <-Hk.
Qed.

Ltac job_step Hs Hk := eapply (jobs_ok_dispatcher _ _ _ _ _ Hs Hk); [reflexivity|reflexivity|]; intros ?; cbn; rewrite ?occ_nil; try lia.

Lemma jobs_ok_step s s' : jobs_ok s → tasks_ok s → step s s' → jobs_ok s'.
Proof.
  intros Hs Hok [k Hstep|Hstep|c Hstep].
  - destruct Hstep as [r Hk Hr Hd|r b Hk Hr Hd|r t Hk Hr Hd Ht|b t task Hk Hb Ht Hl|b t task Hk Hb Ht Hl|t Hk Hp Hl|t Hk Hp Hl|Hk]; job_step Hs Hk.
    + rewrite (dest_accepted k Dropped) by (by exists r). rewrite bool_decide_eq_false_2 by naive_solver. lia.
    + rewrite (dest_accepted k (Batch b)) by (by exists r). rewrite bool_decide_eq_true_2 by done. lia.
    + rewrite tsum_fresh by done. cbn. rewrite (dest_accepted k Alone) by (by exists r). rewrite bool_decide_eq_true_2, occ_cons, occ_nil by done. lia.
    + rewrite (tsum_update _ _ _ _ _ Ht). cbn. rewrite occ_app, occ_cons, occ_nil. case_decide; lia.
  - destruct Hstep as [Hm Hp|c l Hm Hp|c Hm Hp|c t l Hm Hp|c t i t' Hm Hi Hne|c t i t' Hm Hi Ht|c t i Hm Hi|c t i ds Hm Hn|c t ds Hm Hn
                      |c t x Hm Hc Hx|c t x Hm Hc Hx|c x Hm Hc]; try exact Hs.
    + intros k. specialize (Hs k). cbn. rewrite tsum_fresh by done. cbn. rewrite occ_nil. lia.
    + eapply (jobs_ok_notify _ s ds Hs Hn); [|done..]. by intros ? ? [-> ->]%wake_batch_Some.
    + eapply (jobs_ok_notify _ s ds Hs Hn); [|done..]. by intros ? ? (y & -> & ->)%wake_push_Some.
  - destruct Hstep as [Hc|t Hc|t task Hc Ht|x Hc|x Hc|t task Hc Ht|x Hc]; try exact Hs.
    intros k. specialize (Hs k). cbn. rewrite (tsum_delete _ _ _ _ Ht) in Hs. rewrite occ_app. lia.
Qed.

Lemma jobs_ok_spurious s s' : jobs_ok s → spurious s s' → jobs_ok s'.
Proof.
  intros Hs Hstep. destruct Hstep as [k d d' Hk Hd| | |c|c x Hc]; try exact Hs.
  job_step Hs Hk. destruct Hd as [(t & -> & ->)%wake_push_Some|(b & [-> ->]%wake_batch_Some)]; cbn; lia.
Qed.

(** The tasks that connections have do not change. *)
Lemma executed_ext m m' l k : (∀ c x t, l !! c = Some x → taskToExec x = Some t → m' !! t = m !! t) →
  zsum (executed_jobs k m') l = zsum (executed_jobs k m) l.
Proof.
  intros Hm. apply zsum_ext. intros x [c Hc]%list_elem_of_lookup. unfold executed_jobs. destruct (executed x); [|done].
  destruct (taskToExec x) as [t|] eqn:Ht; [|done]. cbn. by rewrite (Hm c x t Hc Ht).
Qed.

Lemma answers_ok_tasks s s' : answers_ok s → conns s' = conns s → answered s' = answered s → deleted s' = deleted s →
  (∀ c x t, conns s !! c = Some x → taskToExec x = Some t → tasks s' !! t = tasks s !! t) → answers_ok s'.
Proof. intros Hs Ec Ea Ed Et k. rewrite Ec, Ea, Ed, (executed_ext (tasks s) (tasks s')) by done. apply Hs. Qed.

(** The connection [c] goes on, with what that answers. *)
Lemma answers_ok_conn s s' c x x' l : answers_ok s → conns s !! c = Some x → conns s' = <[c := x']> (conns s) → tasks s' = tasks s → deleted s' = deleted s →
  answered s' = answered s ++ l → (∀ k, executed_jobs k (tasks s) x' = executed_jobs k (tasks s) x + occ k l) → answers_ok s'.
Proof.
  intros Hs Hc Ec Et Ed Ea Ex k. rewrite Ec, Et, Ed, Ea, occ_app, (zsum_insert _ _ _ _ _ Hc), (Ex k), (Hs k). lia.
Qed.

Lemma answers_ok_step s s' : answers_ok s → tasks_ok s → conns_ok s → step s s' → answers_ok s'.
Proof.
  intros Hs Hok Hcs [k Hstep|Hstep|c Hstep].
  - destruct Hstep as [r Hk Hr Hd|r b Hk Hr Hd|r t Hk Hr Hd Ht|b t task Hk Hb Ht Hl|b t task Hk Hb Ht Hl|t Hk Hp Hl|t Hk Hp Hl|Hk]; try exact Hs.
    + apply (answers_ok_tasks s); try done. intros c x t' Hc Hx. cbn. apply lookup_insert_ne. intros <-.
      pose proof (conn_holds c x t s Hc Hx). destruct (a_none s Hok t Ht). lia.
    + apply (answers_ok_tasks s); try done. intros c x t' Hc Hx. cbn. apply lookup_insert_ne. intros <-.
      pose proof (conn_holds c x t s Hc Hx). destruct (a_batch s Hok b t Hb) as (_ & H0 & _). lia.
  - destruct Hstep as [Hm Hp|c l Hm Hp|c Hm Hp|c t l Hm Hp|c t i t' Hm Hi Hne|c t i t' Hm Hi Ht|c t i Hm Hi|c t i ds Hm Hn|c t ds Hm Hn
                      |c t x Hm Hc Hx|c t x Hm Hc Hx|c x Hm Hc]; try exact Hs.
    + apply (answers_ok_tasks s); try done. intros c' x y Hc Hx. cbn. apply lookup_insert_ne. intros <-.
      pose proof (conn_holds c' x t' s Hc Hx). destruct (a_none s Hok t' Ht). lia.
    + eapply (answers_ok_conn s _ c x _ [] Hs Hc); [done..|by rewrite app_nil_r|]. intros k. rewrite occ_nil. unfold executed_jobs, executed. cbn.
      pose proof (b_owned s Hcs c x Hc) as Ho. pose proof (pool_owners_nonneg c s). unfold owned in Ho. rewrite Hx in *. destruct (worker x); lia.
    + eapply (answers_ok_conn s _ c x _ [] Hs Hc); [done..|by rewrite app_nil_r|]. intros k. rewrite occ_nil. unfold executed_jobs, executed. cbn.
      destruct (worker x); cbn; lia.
  - destruct Hstep as [Hc|t Hc|t task Hc Ht|x Hc|x Hc|t task Hc Ht|x Hc];
      try (eapply (answers_ok_conn s _ c _ _ [] Hs Hc); [done..|by rewrite app_nil_r|]; intros k; rewrite occ_nil; unfold executed_jobs; cbn; lia).
    + eapply (answers_ok_conn s _ c _ _ (jobList task) Hs Hc); [done..|]. intros k. unfold executed_jobs. cbn. by rewrite Ht.
    + intros k. cbn. specialize (Hs k). rewrite occ_app.
      rewrite (zsum_insert _ _ _ _ _ Hc).
      assert (zsum (executed_jobs k (delete t (tasks s))) (conns s) = zsum (executed_jobs k (tasks s)) (conns s) - occ k (jobList task)) as ->.
      { assert (conns s = <[c := mkConn (Some t) W_reset]> (<[c := mkConn None W_notify]> (conns s))) as Ec by (rewrite list_insert_insert_eq; symmetry; by apply list_insert_id).
        assert (<[c := mkConn None W_notify]> (conns s) !! c = Some (mkConn None W_notify)) as Hc' by (apply list_lookup_insert_eq; by eapply lookup_lt_Some).
        rewrite Ec, !(zsum_insert _ _ _ _ _ Hc'). unfold executed_jobs at 2 3 5 6. cbn. rewrite lookup_delete_eq, Ht.
        assert (zsum (executed_jobs k (delete t (tasks s))) (<[c := mkConn None W_notify]> (conns s)) =
                zsum (executed_jobs k (tasks s)) (<[c := mkConn None W_notify]> (conns s))) as ->; [|cbn; lia].
        apply executed_ext. intros c' x y. rewrite list_lookup_insert_Some. intros [(<- & <- & _)|[Hne Hx]] Hy; [done|]. apply lookup_delete_ne. intros <-.
        pose proof (a_once s Hok t) as H1. unfold held in H1. pose proof (holders_nonneg t s).
        pose proof (zsum_two (holds_c t) (conns s) c c' _ x (λ z, proj1 (ind_range _)) Hne Hc Hx) as H2. unfold holds_c in H2 at 1 2.
        rewrite (ind_true _ Hy) in H2. cbn in H2. rewrite ind_true in H2 by done. lia. }
      unfold executed_jobs at 2 3. cbn. rewrite lookup_delete_eq. lia.
Qed.

Lemma answers_ok_spurious s s' : answers_ok s → spurious s s' → answers_ok s'.
Proof.
  intros Hs Hstep. destruct Hstep as [k d d' Hk Hd| | |c|c x Hc]; try exact Hs.
  eapply (answers_ok_conn s _ c x _ [] Hs Hc); [done..|by rewrite app_nil_r|]. intros k. rewrite occ_nil. unfold executed_jobs, executed. cbn.
  destruct (worker x); cbn; lia.
Qed.

(** ** All of it *)
Record pool_ok (s : Pool) : Prop := {
  p_tasks : tasks_ok s; p_conns : conns_ok s; p_queue : queue_ok s; p_batches : batches_ok s; p_manager : manager_ok s;
  p_jobs : jobs_ok s; p_answers : answers_ok s; p_threads : length (dispatchers s) = length requests }.

Lemma threads_step s s' : step s s' → length (dispatchers s') = length (dispatchers s).
Proof.
  intros [k []|[]|c []]; unfold set_dispatcher, set_conn; cbn; rewrite ?length_insert; try done;
    match goal with H : notify_one _ _ _ |- _ => destruct H; [done|apply length_insert] end.
Qed.

Lemma threads_spurious s s' : spurious s s' → length (dispatchers s') = length (dispatchers s).
Proof. intros []; unfold set_dispatcher, set_conn; cbn; rewrite ?length_insert; done. Qed.

Lemma pool_ok_start n : pool_ok (PGConnectionPool n requests).
Proof.
  split; [apply tasks_ok_start|apply conns_ok_start| | |done| | |apply length_replicate].
  - split; [simpl; lia|]. cbn [PGConnectionPool dispatchers]. rewrite zsum_replicate by done. lia.
  - intros b. cbn [PGConnectionPool dispatchers]. rewrite zsum_replicate by done. lia.
  - intros k. cbn [PGConnectionPool dispatchers deleted tasks]. rewrite occ_nil.
    assert (tsum (λ t, occ k (jobList t)) (list_to_map ((λ t, (t, mkTask true [])) <$> seq 0 NOT_SUPPORT)) = 0) as ->.
    { apply zsum_zero. intros [t x] H%elem_of_map_to_list. rewrite seq_tasks_lookup in H. case_decide; by simplify_eq/=. }
    destruct (decide (k < length requests)%nat) as [Hlt|Hge]; [by rewrite lookup_replicate_2|].
    rewrite (lookup_ge_None_2 (replicate _ _)) by (rewrite length_replicate; lia). unfold accepted. by rewrite lookup_ge_None_2 by lia.
  - intros k. cbn [PGConnectionPool answered deleted conns tasks]. rewrite zsum_replicate by done. done.
Qed.

Lemma pool_ok_reachable n s : (0 < batchMax)%nat → reachable requests pendingMax batchMax n s → pool_ok s.
Proof.
  intros H0. induction 1 as [|s s' Hr [] Hs|s s' Hr [] Hs]; [apply pool_ok_start| |].
  - split; [apply (tasks_ok_reachable n); by eapply reachable_step|by eapply conns_ok_step|by eapply queue_ok_step|by eapply batches_ok_step
      |by eapply manager_ok_step|by eapply jobs_ok_step|by eapply answers_ok_step|by rewrite (threads_step s s')].
  - split; [by eapply tasks_ok_spurious|by eapply conns_ok_spurious|by eapply queue_ok_spurious|by eapply batches_ok_spurious
      |by eapply manager_ok_spurious|by eapply jobs_ok_spurious|by eapply answers_ok_spurious|by rewrite (threads_spurious s s')].
Qed.

(** ** Exclusion *)

(** What the connections have executed is part of the tasks. *)
Lemma executed_le s k : tasks_ok s → zsum (executed_jobs k (tasks s)) (conns s) ≤ tsum (λ t, occ k (jobList t)) (tasks s).
Proof.
  intros Hok. assert (∀ t, zsum (holds_c t) (conns s) ≤ 1) as Hone.
  { intros t. pose proof (a_once s Hok t) as H. unfold held in H. pose proof (holders_nonneg t s). lia. }
  generalize (tasks s) as m. clear Hok. induction (conns s) as [|x l IH]; intros m; cbn [zsum].
  { apply tsum_nonneg. intros. apply occ_nonneg. }
  assert (∀ t, zsum (holds_c t) l ≤ 1) as Hl by (intros t; specialize (Hone t); cbn in Hone; pose proof (ind_range (taskToExec x = Some t)); unfold holds_c in Hone at 1; lia).
  unfold executed_jobs at 1. destruct (taskToExec x ≫= (m !!.)) as [task|] eqn:Ht.
  2: { destruct (executed x); apply IH; done. }
  destruct (taskToExec x) as [t|] eqn:Hx; [|done]. cbn in Ht. rewrite (tsum_delete _ _ _ _ Ht). specialize (IH Hl (delete t m)).
  assert (zsum (executed_jobs k m) l = zsum (executed_jobs k (delete t m)) l) as ->.
  { apply executed_ext. intros c y t' Hc Hy. symmetry. apply lookup_delete_ne. intros <-. specialize (Hone t). cbn in Hone.
    unfold holds_c in Hone at 1. rewrite (ind_true _ Hx) in Hone. pose proof (zsum_elem (holds_c t) l c y (λ z, proj1 (ind_range _)) Hc) as H2.
    unfold holds_c in H2 at 1. rewrite (ind_true _ Hy) in H2. lia. }
  pose proof (occ_nonneg k (jobList task)). destruct (executed x); lia.
Qed.

Lemma convert_inj x y b : ConvertMetaServiceTypeToTaskSupportBatchType x = b → ConvertMetaServiceTypeToTaskSupportBatchType y = b → b ≠ NOT_SUPPORT → x = y.
Proof.
  assert (∀ z, ConvertMetaServiceTypeToTaskSupportBatchType z = b → b ≠ NOT_SUPPORT → z = nth b [1; 4; 5; 8; 6; 7] 0) as H.
  { intros z <- Hn. destruct z as [|p|p]; try done. do 4 (try destruct p as [p|p|]; try done). }
  intros Hx Hy Hn. by rewrite (H x Hx Hn), (H y Hy Hn).
Qed.

(** The jobs of a batch are all of one service and allow it. *)
Definition one_service (type : Z) (k : nat) : Prop :=
  ∃ r, requests !! k = Some r ∧ allow_batch_with_others r = true ∧ types r ≠ [] ∧ Forall (eq type) (types r).

Lemma batch_service b l : Forall (λ k, goes_to k (Batch b)) l → ∃ type, Forall (one_service type) l.
Proof.
  assert (∀ k, goes_to k (Batch b) → ∃ type, one_service type k ∧ ConvertMetaServiceTypeToTaskSupportBatchType type = b ∧ b ≠ NOT_SUPPORT) as H.
  { intros k (r & Hr & Hd). unfold destination_of in Hd. destruct (types r) as [|type rest] eqn:Ht; [done|]. case_decide as Hc; [|done]. injection Hd as <-.
    destruct Hc as (Ha & Hn & Hf). exists type. split; [exists r; rewrite Ht; auto|]. done. }
  destruct l as [|k l]; [exists 0; constructor|]. intros [Hk Hl]%Forall_cons. destruct (H k Hk) as (type & Hs & Hc & Hn). exists type. constructor; [done|].
  eapply Forall_impl; [exact Hl|]. intros k' Hk'. destruct (H k' Hk') as (type' & Hs' & Hc' & _). by rewrite (convert_inj type type' b Hc Hc' Hn).
Qed.

(** (C10) In every interleaving of the threads of the pool, what a worker executes
    is a task that nobody else has or can change any more: it is in no queue, it is
    not the batch that jobs are added to, no dispatcher, manager or other worker
    holds it.  It has a job; without the mark of a batch it has exactly one; as a
    batch it has at most as many as a batch may have, and all their requests are
    for one service and allow to be batched.  No job is answered twice, and none
    that was not dispatched. *)
Theorem pool_exclusive n s : (0 < batchMax)%nat → reachable requests pendingMax batchMax n s →
  (∀ c t, conns s !! c = Some (mkConn (Some t) W_execute) →
     t ∉ supportBatchTaskList s ∧ t ∉ pendingTask s ∧ manager_task (manager s) ≠ Some t ∧
     (∀ k, dispatchers s !! k ≠ Some (D_push t) ∧ dispatchers s !! k ≠ Some (D_push_asleep t)) ∧
     (∀ c' x, c' ≠ c → conns s !! c' = Some x → taskToExec x ≠ Some t) ∧
     ∃ task, tasks s !! t = Some task ∧ jobList task ≠ [] ∧
       (if isBatch task then (length (jobList task) ≤ batchMax)%nat ∧ ∃ type, Forall (one_service type) (jobList task)
        else ∃ k, jobList task = [k])) ∧
  NoDup (answered s) ∧ (∀ k, k ∈ answered s → accepted k = true).
Proof.
  intros H0 Hr. destruct (pool_ok_reachable n s H0 Hr) as [Hok _ _ _ _ Hj Ha _].
  split.
  - intros c t Hc. pose proof (conn_holds c _ t s Hc eq_refl) as Hh. pose proof (a_once s Hok t) as H1. pose proof (holders_nonneg t s) as Hn.
    assert (t ∉ supportBatchTaskList s) as Hns.
    { rewrite list_elem_of_lookup. intros [b Hb]. destruct (a_batch s Hok b t Hb) as (_ & Hz & _). lia. }
    unfold held in *. split_and!; [done|apply occ_not_elem; lia| | | |].
    + intros Hm. rewrite (ind_true _ Hm) in *. lia.
    + intros k. assert (∀ d, dispatchers s !! k = Some d → holds_d t d = 0) as Hd.
      { intros d Hd. pose proof (zsum_elem (holds_d t) _ _ _ ltac:(intros []; simpl; try lia; apply ind_range) Hd).
        assert (0 ≤ holds_d t d) by (destruct d; simpl; try lia; apply ind_range). lia. }
      split; intros Hk; specialize (Hd _ Hk); simpl in Hd; rewrite ind_true in Hd; done.
    + intros c' x Hne Hx Ht. pose proof (zsum_two (holds_c t) (conns s) c c' _ x (λ z, proj1 (ind_range _)) (not_eq_sym Hne) Hc Hx) as H2.
      unfold holds_c in H2 at 1 2. rewrite (ind_true _ Ht) in H2. cbn in H2. rewrite ind_true in H2 by done. lia.
    + destruct (tasks s !! t) as [task|] eqn:Ht; [|destruct (a_none s Hok t Ht); unfold held in *; lia].
      exists task. split; [done|]. destruct (a_other s Hok t task Ht Hns) as (_ & Hne & Hb). split; [done|].
      destruct (isBatch task); [|destruct Hb as (k & Hk & _); by exists k]. destruct Hb as (b & Hl & Hb). split; [done|]. by apply (batch_service b).
  - assert (∀ k, occ k (answered s) ≤ if accepted k then 1 else 0) as Hle.
    { intros k. rewrite (Ha k), <-(Hj k). assert (0 ≤ waiting k (dispatchers s !! k)) by (destruct (dispatchers s !! k) as [[]|]; simpl; try lia; destruct (accepted k); lia).
      enough (zsum (executed_jobs k (tasks s)) (conns s) ≤ tsum (λ t, occ k (jobList t)) (tasks s)) by lia. by apply executed_le. }
    split; [apply occ_NoDup; intros k; specialize (Hle k); destruct (accepted k); lia|].
    intros k Hk%occ_elem. specialize (Hle k). destruct (accepted k); [done|lia].
Qed.

(** ** Termination *)

(** What is still to be done, in steps. *)
Definition d_weight (d : dispatcher_at) : Z :=
  match d with D_start => 29 | D_batch _ => 28 | D_batch_asleep _ => 27 | D_push _ => 26 | D_push_asleep _ => 25 | D_notify => 2 | D_done => 0 end.
Definition m_weight (m : manager_at) : Z :=
  match m with
  | M_get => 2 | M_get_asleep => 1 | M_take _ => 2 | M_take_asleep _ => 1 | M_replace _ _ i => 24 - Z.min 6 (Z.of_nat i) | M_notify_batch _ _ _ => 18
  | M_notify_full _ _ => 16 | M_exec _ _ => 14 | M_exec_asleep _ _ => 13 | M_notify_exec _ => 4
  end.
Definition w_weight (x : PGConnection) : Z :=
  match taskToExec x, worker x with
  | None, W_wait => 1 | None, W_asleep => 0 | None, W_notify => 3
  | Some _, W_wait => 10 | Some _, W_asleep => 9 | Some _, W_notify => 12
  | _, W_execute => 9 | _, W_readd => 8 | _, W_notify_pool => 6 | _, W_reset => 4
  end.
Definition work (s : Pool) : Z :=
  zsum d_weight (dispatchers s) + m_weight (manager s) + zsum w_weight (conns s) + 23 * Z.of_nat (length (pendingTask s)) + Z.of_nat (length (connPool s)).

Lemma work_nonneg s : 0 ≤ work s.
Proof.
  unfold work. assert (0 ≤ zsum d_weight (dispatchers s)) by (apply zsum_nonneg; by intros []).
  assert (0 ≤ zsum w_weight (conns s)) by (apply zsum_nonneg; intros [[] []]; done).
  assert (0 ≤ m_weight (manager s)) by (destruct (manager s); simpl; lia). lia.
Qed.

Lemma notify_weight wake ds ds' : notify_one wake ds ds' → (∀ d d', wake d = Some d' → d_weight d' = d_weight d + 1) → zsum d_weight ds' ≤ zsum d_weight ds + 1.
Proof. intros [Hn|k d d' Hk Hw] Hwake; [lia|]. rewrite (zsum_insert _ _ _ _ _ Hk), (Hwake _ _ Hw). lia. Qed.
Lemma wake_take_weight m : m_weight (wake_manager_take m) ≤ m_weight m + 1.
Proof. destruct m; simpl; lia. Qed.
Lemma wake_get_weight m : m_weight (wake_manager_get m) ≤ m_weight m + 1.
Proof. destruct m; simpl; lia. Qed.
Lemma wake_exec_weight c m : m_weight (wake_manager_exec c m) ≤ m_weight m + 1.
Proof. destruct m; simpl; try lia. case_decide; simpl; lia. Qed.

Ltac work_case :=
  unfold work, set_dispatcher, set_conn; cbn;
  repeat match goal with
  | H : manager _ = _ |- _ => rewrite H; clear H
  | H : pendingTask _ = _ |- _ => rewrite H; clear H
  | H : connPool _ = _ |- _ => rewrite H; clear H
  | Hk : _ !! _ = Some _ |- context [zsum _ (<[_ := _]> _)] => rewrite (zsum_insert _ _ _ _ _ Hk)
  end; rewrite ?length_app; cbn; try lia.

Lemma step_works s s' : tasks_ok s → conns_ok s → step s s' → work s' < work s.
Proof.
  intros Hok Hcs [k Hstep|Hstep|c Hstep].
  - destruct Hstep as [r Hk Hr Hd|r b Hk Hr Hd|r t Hk Hr Hd Ht|b t task Hk Hbt Ht Hl|b t task Hk Hbt Ht Hl|t Hk Hp Hl|t Hk Hp Hl|Hk]; work_case.
    + case_decide; simpl; lia.
    + pose proof (wake_take_weight (manager s)) as Hw. lia.
  - destruct Hstep as [Hm Hp|c l Hm Hp|c Hm Hp|c t l Hm Hp|c t i t' Hm Hi Hne|c t i t' Hm Hi Ht|c t i Hm Hi|c t i ds Hm Hn|c t ds Hm Hn
                      |c t x Hm Hc Hx|c t x Hm Hc Hx|c x Hm Hc]; work_case.
    + apply lookup_lt_Some in Hi. rewrite (a_length s Hok) in Hi. unfold NOT_SUPPORT in Hi. lia.
    + apply lookup_lt_Some in Hi. rewrite (a_length s Hok) in Hi. unfold NOT_SUPPORT in Hi. lia.
    + pose proof (notify_weight _ _ _ Hn ltac:(intros ? ? [-> ->]%wake_batch_Some; done)). lia.
    + pose proof (notify_weight _ _ _ Hn ltac:(intros ? ? (y & -> & ->)%wake_push_Some; done)). lia.
    + pose proof (b_owned s Hcs c x Hc) as Ho. pose proof (pool_owners_nonneg c s). destruct x as [o w]. cbn in *. subst o. unfold owned in Ho. cbn in Ho. destruct w; cbn; lia.
    + destruct x as [[] []]; cbn; lia.
  - destruct Hstep as [Hc|t Hc|t task Hc Ht|x Hc|x Hc|t task Hc Ht|x Hc]; work_case.
    + destruct x; cbn; lia.
    + pose proof (wake_get_weight (manager s)). destruct x; cbn; lia.
    + pose proof (wake_exec_weight c (manager s)). destruct x; cbn; lia.
Qed.

(** ** Progress *)

Lemma notify_possible wake ds : ∃ ds', notify_one wake ds ds'.
Proof.
  destruct (decide (Exists (λ d, wake d ≠ None) ds)) as [He|Hn].
  - apply Exists_exists in He as (d & [k Hk]%list_elem_of_lookup & Hw). destruct (wake d) as [d'|] eqn:E; [|done]. eexists. by eapply notify_somebody.
  - exists ds. apply notify_nobody. intros d Hd. destruct (wake d) eqn:E; [|done]. destruct Hn. apply Exists_exists. exists d. by rewrite E.
Qed.

Lemma batch_index k b : goes_to k (Batch b) → (b < NOT_SUPPORT)%nat.
Proof.
  intros (r & _ & Hd). unfold destination_of in Hd. destruct (types r) as [|type l]; [done|]. case_decide as H; [|done]. injection Hd as <-.
  destruct H as (_ & H & _). revert H. unfold ConvertMetaServiceTypeToTaskSupportBatchType, NOT_SUPPORT. repeat case_match; lia.
Qed.

Definition stuck (s : Pool) : Prop := ∀ s', ¬ step s s'.

Lemma stuck_manager s : pool_ok s → stuck s →
  manager s = M_get_asleep ∨ (∃ c, manager s = M_take_asleep c) ∨ ∃ c t, manager s = M_exec_asleep c t.
Proof.
  intros [Hok Hcs _ _ _ _ _ _] Hst. assert (∀ s', ¬ manager_step s s') as Hno by (intros s' H; apply (Hst s'); by apply by_manager).
  assert (∀ c, manager_conn (manager s) = Some c ∨ manager s = M_notify_exec c → ∃ x, conns s !! c = Some x) as Hconn.
  { intros c Hc. apply lookup_lt_is_Some_2, (b_range s Hcs). destruct Hc as [Hc|Hc]; [left|by right]. unfold owners. rewrite (ind_true _ Hc).
    pose proof (occ_nonneg c (connPool s)). lia. }
  destruct (manager s) as [| |c|c|c t i|c t i|c t|c t|c t|c] eqn:Hm; eauto; exfalso.
  - destruct (connPool s) eqn:Hp; eapply Hno; [by apply m_get_empty|by eapply m_get].
  - destruct (pendingTask s) eqn:Hp; eapply Hno; [by eapply m_take_empty|by eapply m_take].
  - destruct (supportBatchTaskList s !! i) as [t'|] eqn:Hi.
    + destruct (decide (t = t')) as [<-|Hne]; eapply Hno; [|by eapply m_other_batch].
      eapply (m_replace s c t i (fresh (dom (tasks s)))); [done|done|]. apply not_elem_of_dom, is_fresh.
    + eapply Hno, m_no_batch; [done|]. apply lookup_ge_None in Hi. by rewrite (a_length s Hok) in Hi.
  - destruct (notify_possible (wake_batch i) (dispatchers s)) as [ds Hds]. eapply Hno. by eapply m_notify_batch.
  - destruct (notify_possible wake_push (dispatchers s)) as [ds Hds]. eapply Hno. by eapply m_notify_full.
  - destruct (Hconn c) as [x Hx]; [by left|]. destruct (taskToExec x) eqn:Ht; eapply Hno; [eapply m_exec_busy; [done|done|by rewrite Ht]|by eapply m_exec].
  - destruct (Hconn c) as [x Hx]; [by right|]. eapply Hno. by eapply m_notify_exec.
Qed.

Lemma stuck_dispatcher s k d : pool_ok s → stuck s → dispatchers s !! k = Some d →
  d = D_done ∨ (∃ b, d = D_batch_asleep b) ∨ ∃ t, d = D_push_asleep t.
Proof.
  intros Hp Hst Hk. pose proof (stuck_manager s Hp Hst) as Hm. destruct Hp as [Hok _ _ _ _ _ _ Hlen].
  assert (∀ s', ¬ dispatcher_step k s s') as Hno by (intros s' H; apply (Hst s'); by eapply by_dispatcher).
  assert (pending_locked (manager s) = false) as Hl by (destruct Hm as [->|[[c ->]|(c & t & ->)]]; done).
  destruct d as [|b|b|t|t| |]; eauto; exfalso.
  - destruct (lookup_lt_is_Some_2 requests k) as [r Hr]; [rewrite <-Hlen; by eapply lookup_lt_Some|].
    destruct (destination_of r) eqn:Hd; eapply Hno; [by eapply d_dropped|by eapply d_to_batch|].
    eapply (d_alone _ _ _ k s r (fresh (dom (tasks s)))); try done. apply not_elem_of_dom, is_fresh.
  - destruct (lookup_lt_is_Some_2 (supportBatchTaskList s) b) as [t Ht].
    { rewrite (a_length s Hok). apply (batch_index k). apply (a_waits s Hok). by left. }
    destruct (a_batch s Hok b t Ht) as ((l & Hlook & _) & _). destruct (decide (length l < batchMax)%nat) as [Hlt|Hge]; eapply Hno.
    + by eapply d_batch_append.
    + eapply d_batch_full; [done|done|done|simpl; lia].
  - destruct (decide (length (pendingTask s) < pendingMax)%nat); eapply Hno; [by eapply d_push|eapply d_push_full; [done|done|lia]].
  - eapply Hno. by eapply d_notify.
Qed.

Lemma stuck_conn s c x : pool_ok s → stuck s → conns s !! c = Some x → x = mkConn None W_asleep.
Proof.
  intros Hp Hst Hc. pose proof (stuck_manager s Hp Hst) as Hm. destruct Hp as [Hok Hcs _ _ _ _ _ _].
  assert (∀ s', ¬ worker_step c s s') as Hno by (intros s' H; apply (Hst s'); by eapply by_worker).
  pose proof (b_owned s Hcs c x Hc) as Ho. pose proof (pool_owners_nonneg c s) as H0.
  assert (∀ t, taskToExec x = Some t → ∃ task, tasks s !! t = Some task) as Ht.
  { intros t Hx. pose proof (conn_holds c x t s Hc Hx). destruct (tasks s !! t) eqn:E; [eauto|]. destruct (a_none s Hok t E). lia. }
  destruct x as [o w]. unfold owned in Ho. cbn in *.
  destruct o as [t|]; [destruct (Ht t eq_refl) as [task Htask]|]; destruct w; try lia; try done; exfalso.
  all: try (eapply Hno; first [by eapply w_no_task|by eapply w_task|by eapply w_execute|by eapply w_readd|by eapply w_notify_pool|by eapply w_reset|by eapply w_notify]).
  pose proof (b_asleep s Hcs c _ t Hc eq_refl eq_refl) as Hn. destruct Hm as [?|[[??]|(?&?&?)]]; congruence.
Qed.

Lemma nothing_held s t : (∀ c x, conns s !! c = Some x → x = mkConn None W_asleep) → pendingTask s = [] → manager_task (manager s) = None →
  (∀ k d, dispatchers s !! k = Some d → holds_d t d = 0) → held t s = 0.
Proof.
  intros Hc Hp Hm Hd. unfold held. rewrite Hp, Hm, occ_nil, ind_None. rewrite !zsum_zero; [done| |].
  - intros x [c Hx]%list_elem_of_lookup. rewrite (Hc c x Hx). unfold holds_c. apply ind_None.
  - intros d [k Hk]%list_elem_of_lookup. by eapply Hd.
Qed.

(** A pool in which no thread can go on has nothing left to do. *)
Lemma stuck_idle s : (0 < pendingMax)%nat → (0 < length (conns s))%nat → pool_ok s → stuck s →
  pendingTask s = [] ∧ (∀ k d, dispatchers s !! k = Some d → d = D_done) ∧ ∀ t, held t s = 0.
Proof.
  intros Hmax Hn Hp Hst. pose proof (λ c x, stuck_conn s c x Hp Hst) as Hc. pose proof (λ k d, stuck_dispatcher s k d Hp Hst) as Hd.
  pose proof (stuck_manager s Hp Hst) as Hm. destruct Hp as [Hok Hcs [_ Hq] Hb Hmok _ _ _]. unfold manager_ok in Hmok.
  assert (∃ c, manager s = M_take_asleep c) as [c Hmt].
  { destruct Hm as [Hm|[Hm|(c & t & Hm)]]; [|done|]; rewrite Hm in Hmok; exfalso.
    - destruct Hmok as [Hp|(c & x & Hx)]; [|by specialize (Hc c _ Hx)]. destruct (lookup_lt_is_Some_2 (conns s) 0 Hn) as [x Hx].
      pose proof (b_owned s Hcs _ x Hx) as Ho. rewrite (Hc _ x Hx) in Ho. unfold owners in Ho. rewrite Hp, Hm, occ_nil in Ho. cbn in Ho. rewrite ind_None in Ho. done.
    - destruct Hmok as (x & Hx & Hxp). rewrite (Hc c x Hx) in Hxp. by destruct Hxp. }
  rewrite Hmt in Hmok. assert (pendingTask s = []) as Hpe.
  { destruct Hmok as [?|[k Hk]%list_elem_of_lookup]; [done|]. by destruct (Hd k _ Hk) as [?|[[??]|[??]]]. }
  assert (zsum pushing (dispatchers s) = 0) as Hpu.
  { apply zsum_zero. intros d [k Hk]%list_elem_of_lookup. by destruct (Hd k d Hk) as [->|[[? ->]|[? ->]]]. }
  assert (∀ k t, dispatchers s !! k ≠ Some (D_push_asleep t)) as Hnp.
  { intros k t Hk. pose proof (zsum_elem push_asleep _ _ _ ltac:(by intros []) Hk) as H1. cbn in H1. rewrite Hpe, Hpu, Hmt in Hq. cbn in Hq. specialize (Hq ltac:(lia)). lia. }
  assert (∀ t, held t s = 0) as Hh.
  { intros t. apply nothing_held; [done|done|by rewrite Hmt|]. intros k d Hk. destruct (Hd k d Hk) as [->|[[b ->]|[t' ->]]]; [done|done|by destruct (Hnp k t')]. }
  split; [done|]. split; [|done]. intros k d Hk. destruct (Hd k d Hk) as [->|[[b ->]|[t' ->]]]; [done| |by destruct (Hnp k t')]. exfalso.
  pose proof (zsum_elem (batch_asleep b) _ _ _ ltac:(intros []; simpl; try lia; apply ind_range) Hk) as H1. cbn in H1. rewrite ind_true in H1 by done.
  destruct (Hb b ltac:(lia)) as [(t & task & Ht & Hlook & Hj)|[H2|(? & ? & ?)]]; [| |congruence].
  - destruct (a_batch s Hok b t Ht) as ((l & Hl & Hiff & _) & _). rewrite Hlook in Hl. injection Hl as ->. apply Hj. by apply Hiff.
  - rewrite zsum_zero in H2; [lia|]. intros d [k' Hk']%list_elem_of_lookup. by destruct (Hd k' d Hk') as [->|[[? ->]|[? ->]]].
Qed.

(** With nothing left, every accepted job has been answered. *)
Lemma idle_answered s k : pool_ok s → (∀ k d, dispatchers s !! k = Some d → d = D_done) → (∀ t, held t s = 0) →
  occ k (answered s) = if accepted k then 1 else 0.
Proof.
  intros [Hok _ _ _ _ Hj Ha _] Hd Hh. rewrite (Ha k), <-(Hj k).
  assert (tsum (λ t, occ k (jobList t)) (tasks s) = 0) as ->.
  { apply zsum_zero. intros [t task] Ht%elem_of_map_to_list. cbn. destruct (decide (t ∈ supportBatchTaskList s)) as [[b Hb]%list_elem_of_lookup|Hns].
    - destruct (a_batch s Hok b t Hb) as ((l & Hl & Hiff & _) & _). rewrite Ht in Hl. injection Hl as ->. cbn. rewrite (proj2 Hiff) by done. done.
    - destruct (a_other s Hok t task Ht Hns) as [H1 _]. rewrite Hh in H1. done. }
  rewrite zsum_zero.
  - destruct (dispatchers s !! k) as [d|] eqn:E; [rewrite (Hd k d E)|]; simpl; lia.
  - intros x [c Hc]%list_elem_of_lookup. unfold executed_jobs. destruct (taskToExec x) as [t|] eqn:Hx; [|by destruct (executed x)].
    pose proof (conn_holds c x t s Hc Hx) as H1. rewrite Hh in H1. lia.
Qed.

Lemma conns_step s s' : step s s' → length (conns s') = length (conns s).
Proof. intros [k []|[]|c []]; unfold set_dispatcher, set_conn; cbn; rewrite ?length_insert; done. Qed.
Lemma conns_reachable n s : reachable requests pendingMax batchMax n s → length (conns s) = n.
Proof.
  induction 1 as [|s s' _ IH Hs|s s' _ IH Hs]; [apply length_replicate|by rewrite (conns_step s s' Hs)|].
  rewrite <-IH. destruct Hs; unfold set_dispatcher, set_conn; cbn; rewrite ?length_insert; done.
Qed.

(** (C9) No job is left behind.  With at least one connection and room for one task
    and one job, from any state that the pool can get into: every run without
    spurious wake-ups ends, and when no thread can go on, all dispatchers have
    returned, the queue is empty and every job has been answered exactly once,
    except those whose request has no service at all, which are dropped.  So none
    of the notifications, each of which wakes one thread only, goes to the wrong
    one or comes too early. *)
Theorem pool_answers_all n s :
  (0 < n)%nat → (0 < pendingMax)%nat → (0 < batchMax)%nat → reachable requests pendingMax batchMax n s →
  Acc (λ s' s, step s s') s ∧
  (stuck s → Forall (eq D_done) (dispatchers s) ∧ pendingTask s = [] ∧
             answered s ≡ₚ filter (λ k, accepted k = true) (seq 0 (length requests))).
Proof.
  intros Hn Hmax Hb Hr. split.
  - assert (∀ w s, reachable requests pendingMax batchMax n s → work s < Z.of_nat w → Acc (λ s' s, step s s') s) as Hacc.
    { intros w. induction w as [|w IH]; intros s' Hr' Hw; [pose proof (work_nonneg s'); lia|]. constructor. intros s'' Hs.
      pose proof (pool_ok_reachable n s' Hb Hr') as Hp. pose proof (step_works s' s'' (p_tasks _ Hp) (p_conns _ Hp) Hs).
      apply IH; [by eapply reachable_step|lia]. }
    apply (Hacc (S (Z.to_nat (work s)))); [done|]. pose proof (work_nonneg s). lia.
  - intros Hst. pose proof (pool_ok_reachable n s Hb Hr) as Hp. destruct (stuck_idle s Hmax) as (Hpe & Hd & Hh); [by rewrite (conns_reachable n s Hr)|done|done|].
    split; [apply Forall_forall; intros d [k Hk]%list_elem_of_lookup; symmetry; by eapply Hd|]. split; [done|].
    pose proof (λ k, idle_answered s k Hp Hd Hh) as Ho. apply NoDup_Permutation.
    + apply occ_NoDup. intros k. rewrite Ho. destruct (accepted k); lia.
    + apply NoDup_filter, NoDup_seq.
    + intros k. rewrite occ_elem, Ho, list_elem_of_filter, elem_of_seq. destruct (accepted k) eqn:E; [|naive_solver lia].
      split; [intros _|lia]. split; [done|]. unfold accepted in E. destruct (requests !! k) eqn:Er; [|done]. apply lookup_lt_Some in Er. lia.
Qed.
End spec.
