(* ===== verification/PoolWitness.v ===== *)
(** * A schedule of the connection pool

    The threads' steps as functions, with the first sleeper and the smallest free
    pointer for what the code leaves open: every run of them is a run of
    [Pool.step].  With it the theorems about the pool are applied to a pool of two
    connections that five requests arrive at. *)

From S2P Require Import Prelude Pool PoolSpec.

Section scheduler.
Context (requests : list Request) (pendingMax batchMax : nat).

Definition first_sleeper (wake : dispatcher_at → option dispatcher_at) (ds : list dispatcher_at) : list dispatcher_at :=
  match list_find (λ d, is_Some (wake d)) ds with
  | Some (k, d) => match wake d with Some d' => <[k := d']> ds | None => ds end
  | None => ds
  end.

Definition dispatch (k : nat) (s : Pool) : option Pool :=
  d ← dispatchers s !! k;
  match d with
  | D_start =>
    r ← requests !! k;
    match destination_of r with
    | Dropped => Some (set_dispatcher k D_done s)
    | Batch b => Some (set_dispatcher k (D_batch b) s)
    | Alone => let t := fresh (dom (tasks s)) in Some (set_dispatcher k (D_push t) (s <| tasks ::= <[t := mkTask false [k]]> |>))
    end
  | D_batch b =>
    t ← supportBatchTaskList s !! b; task ← tasks s !! t;
    if decide (length (jobList task) < batchMax)%nat
    then Some (set_dispatcher k (if decide (jobList task = []) then D_push t else D_done) (s <| tasks ::= <[t := task <| jobList ::= (.++ [k]) |>]> |>))
    else Some (set_dispatcher k (D_batch_asleep b) s)
  | D_push t =>
    if pending_locked (manager s) then None
    else if decide (length (pendingTask s) < pendingMax)%nat then Some (set_dispatcher k D_notify (s <| pendingTask ::= (.++ [t]) |>))
    else Some (set_dispatcher k (D_push_asleep t) s)
  | D_notify => Some (set_dispatcher k D_done (s <| manager ::= wake_manager_take |>))
  | _ => None
  end.

Definition manage (s : Pool) : option Pool :=
  match manager s with
  | M_get => match connPool s with [] => Some (s <| manager := M_get_asleep |>) | c :: l => Some (s <| connPool := l |> <| manager := M_take c |>) end
  | M_take c =>
    match pendingTask s with [] => Some (s <| manager := M_take_asleep c |>) | t :: l => Some (s <| pendingTask := l |> <| manager := M_replace c t 0 |>) end
  | M_replace c t i =>
    match supportBatchTaskList s !! i with
    | Some t' =>
      if decide (t = t') then
        let t' := fresh (dom (tasks s)) in
        Some (s <| supportBatchTaskList ::= <[i := t']> |> <| tasks ::= <[t' := mkTask true []]> |> <| manager := M_notify_batch c t i |>)
      else Some (s <| manager := M_replace c t (S i) |>)
    | None => if decide (NOT_SUPPORT ≤ i)%nat then Some (s <| manager := M_notify_full c t |>) else None
    end
  | M_notify_batch c t i => Some (s <| dispatchers := first_sleeper (wake_batch i) (dispatchers s) |> <| manager := M_notify_full c t |>)
  | M_notify_full c t => Some (s <| dispatchers := first_sleeper wake_push (dispatchers s) |> <| manager := M_exec c t |>)
  | M_exec c t =>
    x ← conns s !! c;
    match taskToExec x with
    | Some _ => Some (s <| manager := M_exec_asleep c t |>)
    | None => Some (set_conn c (mkConn (Some t) (worker x)) (s <| manager := M_notify_exec c |>))
    end
  | M_notify_exec c => x ← conns s !! c; Some (set_conn c (mkConn (taskToExec x) (wake_worker (worker x))) (s <| manager := M_get |>))
  | _ => None
  end.

Definition work_on (c : nat) (s : Pool) : option Pool :=
  x ← conns s !! c;
  match worker x, taskToExec x with
  | W_wait, None => Some (set_conn c (mkConn None W_asleep) s)
  | W_wait, Some t => Some (set_conn c (mkConn (Some t) W_execute) s)
  | W_execute, Some t => task ← tasks s !! t; Some (set_conn c (mkConn (Some t) W_readd) (s <| answered ::= (.++ jobList task) |>))
  | W_readd, x => Some (set_conn c (mkConn x W_notify_pool) (s <| connPool ::= (.++ [c]) |>))
  | W_notify_pool, x => Some (set_conn c (mkConn x W_reset) (s <| manager ::= wake_manager_get |>))
  | W_reset, Some t =>
    task ← tasks s !! t; Some (set_conn c (mkConn None W_notify) (s <| tasks ::= delete t |> <| deleted ::= (.++ jobList task) |>))
  | W_notify, x => Some (set_conn c (mkConn x W_wait) (s <| manager ::= wake_manager_exec c |>))
  | _, _ => None
  end.

Lemma first_sleeper_notifies wake ds : notify_one wake ds (first_sleeper wake ds).
Proof.
  unfold first_sleeper. destruct (list_find _ ds) as [[k d]|] eqn:E.
  - apply list_find_Some in E as (Hk & [d' Hd] & _). rewrite Hd. by eapply notify_somebody.
  - apply notify_nobody. intros d Hd. apply list_find_None in E. rewrite Forall_forall in E. destruct (wake d) eqn:Hw; [|done]. destruct (E d Hd). by rewrite Hw.
Qed.

Lemma fresh_task (m : gmap nat Task) : m !! fresh (dom m) = None.
Proof. apply not_elem_of_dom, is_fresh. Qed.

Lemma dispatch_step k s s' : dispatch k s = Some s' → dispatcher_step requests pendingMax batchMax k s s'.
Proof.
  unfold dispatch. intros (d & Hk & H)%bind_Some. destruct d as [|b| |t| | |]; try done.
  - apply bind_Some in H as (r & Hr & H). destruct (destination_of r) eqn:Hd; simplify_eq; econstructor; eauto using fresh_task.
  - apply bind_Some in H as (t & Ht & (task & Htask & H)%bind_Some). case_decide; simplify_eq; econstructor; eauto; lia.
  - destruct (pending_locked (manager s)) eqn:El; [done|]. case_decide; simplify_eq; econstructor; eauto; lia.
  - simplify_eq. by econstructor.
Qed.

Lemma manage_step s s' : manage s = Some s' → manager_step s s'.
Proof.
  unfold manage. intros H. destruct (manager s) as [| |c|c|c t i|c t i|c t|c t|c t|c] eqn:Hm; try done.
  - destruct (connPool s) eqn:Hp; simplify_eq; econstructor; eauto.
  - destruct (pendingTask s) eqn:Hp; simplify_eq; econstructor; eauto.
  - destruct (supportBatchTaskList s !! i) as [t'|] eqn:Hi; [|case_decide; [|done]; simplify_eq; by eapply m_no_batch].
    case_decide; simplify_eq; [|by eapply m_other_batch]. eapply m_replace; eauto using fresh_task.
  - simplify_eq. eapply m_notify_batch; [done|apply first_sleeper_notifies].
  - simplify_eq. eapply m_notify_full; [done|apply first_sleeper_notifies].
  - apply bind_Some in H as (x & Hx & H). destruct (taskToExec x) eqn:Ht; simplify_eq; [eapply m_exec_busy; eauto; by rewrite Ht|by eapply m_exec].
  - apply bind_Some in H as (x & Hx & H). simplify_eq. by eapply m_notify_exec.
Qed.

Lemma work_on_step c s s' : work_on c s = Some s' → worker_step c s s'.
Proof.
  unfold work_on. intros (x & Hc & H)%bind_Some. destruct x as [o w]. cbn in H.
  destruct w, o as [t|]; try done; try (simplify_eq; by econstructor);
    apply bind_Some in H as (task & Ht & H); simplify_eq; by econstructor.
Qed.

(** Which thread goes next; a thread that cannot go on is passed over. *)
Inductive thread := Dispatcher (k : nat) | Manager | Worker (c : nat).
Definition next (i : thread) (s : Pool) : Pool :=
  default s (match i with Dispatcher k => dispatch k s | Manager => manage s | Worker c => work_on c s end).
Definition run (l : list thread) (s : Pool) : Pool := foldl (flip next) s l.

Lemma pool_run_reachable n l s : reachable requests pendingMax batchMax n s → reachable requests pendingMax batchMax n (run l s).
Proof.
  revert s. induction l as [|i l IH]; intros s Hs; [done|]. apply IH. unfold flip, next.
  destruct i; cbn; [destruct (dispatch k s) eqn:E|destruct (manage s) eqn:E|destruct (work_on c s) eqn:E]; cbn; try done;
    (eapply reachable_step; [exact Hs|]); [by eapply by_dispatcher, dispatch_step|by eapply by_manager, manage_step|by eapply by_worker, work_on_step].
Qed.
End scheduler.

Module PoolWitness.
(** Three requests for attributes that may share a batch, a rename and a request without a service; a queue for one task and batches of two jobs. *)
Definition arriving : list Request :=
  [mkRequest [5] true; mkRequest [14] false; mkRequest [5] true; mkRequest [5] true; mkRequest [] true].
Definition round : list thread := [Dispatcher 0; Dispatcher 1; Dispatcher 2; Dispatcher 3; Dispatcher 4; Manager; Worker 0; Worker 1].
Definition pool_after (n : nat) : Pool := run arriving 1 2 (concat (replicate n round)) (PGConnectionPool 2 arriving).

Lemma pool_after_reachable n : reachable arriving 1 2 2 (pool_after n).
Proof. apply pool_run_reachable, reachable_start. Qed.

(** After 21 rounds the worker of connection 1 executes a batch with jobs 0 and
    2; job 1 has been answered. *)
Lemma pool_exclusive_witness :
  conns (pool_after 21) !! 1%nat = Some (mkConn (Some 2%nat) W_execute) ∧ 2%nat ∉ supportBatchTaskList (pool_after 21) ∧
  (∃ task, tasks (pool_after 21) !! 2%nat = Some task ∧ jobList task ≠ []) ∧ NoDup (answered (pool_after 21)).
Proof.
  assert (conns (pool_after 21) !! 1%nat = Some (mkConn (Some 2%nat) W_execute)) as Hc by (vm_compute; reflexivity).
  destruct (pool_exclusive arriving 1 2 2 (pool_after 21) (Nat.lt_0_succ _) (pool_after_reachable 21)) as (He & Hn & _).
  destruct (He 1%nat 2%nat Hc) as (H1 & _ & _ & _ & _ & task & H2 & H3 & _). split; [exact Hc|]. split; [exact H1|]. split; [|exact Hn].
  exists task. split; [exact H2|exact H3].
Defined.

Lemma pool_after_stuck : stuck arriving 1 2 (pool_after 40).
Proof.
  assert (dispatchers (pool_after 40) = replicate 5 D_done) as Ed by (vm_compute; reflexivity).
  assert (conns (pool_after 40) = replicate 2 (mkConn None W_asleep)) as Ec by (vm_compute; reflexivity).
  assert (manager (pool_after 40) = M_take_asleep 1) as Em by (vm_compute; reflexivity).
  intros s' [k Hs|Hs|c Hs]; destruct Hs; congruence || (exfalso; rewrite ?Ed, ?Ec in *;
    match goal with H : replicate _ _ !! _ = Some _ |- _ => apply lookup_replicate in H as [H _]; discriminate H end).
Qed.

(** After 40 rounds nothing is left: four jobs answered, the fifth dropped. *)
Lemma pool_answers_all_witness :
  Acc (λ s' s, step arriving 1 2 s s') (pool_after 40) ∧ pendingTask (pool_after 40) = [] ∧ answered (pool_after 40) ≡ₚ [0; 1; 2; 3]%nat.
Proof.
  destruct (pool_answers_all arriving 1 2 2 (pool_after 40) (Nat.lt_0_succ _) (Nat.lt_0_succ _) (Nat.lt_0_succ _) (pool_after_reachable 40)) as [Ha Hs].
  destruct (Hs pool_after_stuck) as (_ & Hp & Hans). split; [exact Ha|]. split; [exact Hp|exact Hans].
Defined.

(** A request without a service is never answered: its client waits until its
    call times out. *)
Example no_service_no_answer : dispatchers (pool_after 1) !! 4%nat = Some D_done ∧ 4%nat ∉ answered (pool_after 40).
Proof. split; [vm_compute; reflexivity|]. apply (bool_decide_unpack (4%nat ∉ answered (pool_after 40))). vm_compute. exact I. Qed.
End PoolWitness.
