(* ===== verification/PgConnection.v ===== *)
(** * Executing a task: the worker of a connection
    (connection_pool/pg_connection.cpp, utils/error_code.c, metadb/meta_serialize_interface.c)

    The worker copies the parameters of the jobs of a task into shared memory,
    calls the metadata server over its connection, and splits the response, which
    comes back in shared memory too, among the jobs.  PostgreSQL, the metadata
    server behind [MetaProcess] and the builder of responses are interfaces; the
    allocator and the framing are those of ShmemAllocator.v and SerializedData.v. *)

From stdpp Require Import pretty list_numbers.
From S2P Require Import Prelude Decimal RemoteComm SerializedData ShmemAllocator Connection MetaCodec.
#[local] Open Scope Z_scope.

(** ** Error codes in texts *)

(** CUCKOO_ELOG_ERROR and CUCKOO_ELOG_ERROR_EXTENDED: "%c ..." with the code and 64. *)
Definition elog_text (errorCode : CuckooErrorCode) (msg : string) : string :=
  String (ascii_of_N (Z.to_N (code errorCode + 64))) (String " " msg).

(** What libpq makes of the text of an error. *)
Definition PQresultErrorMessage (text : string) : string := "ERROR:  " +:+ text.

(** The code, and the message without it; [None] when the byte that is looked
    at lies behind the end of the message. *)
Definition CuckooErrorMsgAnalyse (originalErrorMsg : option string) : option (CuckooErrorCode * option string) :=
  match originalErrorMsg with
  | None => Some (PROGRAM_ERROR, None)
  | Some m =>
    if decide (String.length m < 8)%nat then None
    else
      let errorCodeChar := match String.get 8 m with Some c => Z.of_N (N_of_ascii c) | None => 0 end in
      if decide (64 < errorCodeChar ∧ errorCodeChar < 64 + code LAST_CUCKOO_ERROR_CODE) then
        Some (default UNKNOWN (error_codes !! Z.to_nat (errorCodeChar - 64)), Some (String.substring 9 (String.length m - 9) m))
      else Some (UNKNOWN, Some m)
  end.

(** ** State *)

(** A job: the request and its attachment. *)
Record Job := mkJob { job_types : list Z; job_attachment : list Z }.

(** The allocator, the bytes of the shared memory, the builder for replies and
    the server's session. *)
Record Worker `{MM : MemoryManager} (W : Type) := mkWorker {
  wk_alloc : CuckooShmemAllocator;
  wk_memory : Z → Z;
  replyBuilder : SerializedData;
  wk_session : W }.
Arguments mkWorker {MM W}. Arguments wk_alloc {MM W} w. Arguments wk_memory {MM W} w. Arguments replyBuilder {MM W} w. Arguments wk_session {MM W} w.
#[global] Instance eta_Worker `{MM : MemoryManager} W : Eta (Worker W) := λ w, mkWorker (wk_alloc w) (wk_memory w) (replyBuilder w) (wk_session w).

(** The server behind the connection: the response to a call, or the text of the
    error it raises; what a plain command gives, [None] when that is no table; and
    whether the connection holds. *)
Class Backend (W : Type) := {
  MetaProcess : CuckooSupportMetaService → Z → (nat → Z) → W → (list Z + string) * W;
  plain_command : string → W → (option (nat * list (list string)) + string) * W;
  connected : W → bool }.

(** CreateMetaResponse with a code only, and with the table of a plain command. *)
Class ResponseBuilder := {
  fb_error : Z → list Z;
  fb_plain : Z → Z → list string → list Z;
  fb_error_bytes c : Forall is_byte (fb_error c);
  fb_plain_bytes r c d : Forall is_byte (fb_plain r c d) }.

Section worker.
Context `{MM : MemoryManager} `{RB : ResponseBuilder} `{FB : FlatBuffers} {W : Type} `{!Backend W} (little : bool) (fuel : nat).
Local Abbreviation PM := (M (Worker W)).

(** std::runtime_error, which nothing catches: the process ends. *)
Definition throw {A} : PM A := melog PROGRAM_ERROR.

Definition on_builder {A} (m : M SerializedData A) : PM A := mzoom replyBuilder (λ d w, w <| replyBuilder := d |>) m.

(** ** Shared memory *)
Definition mem_write (m : Z → Z) (a : Z) (bs : list Z) : Z → Z :=
  λ x, if decide (a ≤ x) then default (m x) (bs !! Z.to_nat (x - a)) else m x.
Definition mem_read (m : Z → Z) (a n : Z) : list Z := m <$> seqZ a n.

Definition shm_write (a : Z) (bs : list Z) : PM () := mmodify (λ w, w <| wk_memory := mem_write (wk_memory w) a bs |>).
Definition malloc (size : Z) : PM Z :=
  w ← mget; let '(shift, a) := CuckooShmemAllocatorMalloc size (wk_alloc w) in mput (w <| wk_alloc := a |>) ;; mret shift.
Definition free (shift : Z) : PM () :=
  w ← mget; match CuckooShmemAllocatorFree shift (wk_alloc w) with None => mundefined | Some a => mput (w <| wk_alloc := a |>) end.
Definition unique_signature : PM Z :=
  w ← mget; let '(sign, a) := CuckooShmemAllocatorGetUniqueSignature (wk_alloc w) in mput (w <| wk_alloc := a |>) ;; mret sign.
Definition block_header (shift : Z) : PM MemoryHdr :=
  w ← mget; match headers (wk_alloc w) !! (shift - sizeof_MemoryHdr) with None => mundefined | Some h => mret h end.
Definition set_signature (shift sign : Z) : PM () :=
  h ← block_header shift;
  mmodify (λ w, w <| wk_alloc ::= λ a, a <| headers ::= <[shift - sizeof_MemoryHdr := mkHdr sign (hdr_size h) (hdr_capacity h)]> |> |>).

(** ** The server's function: its result, or the text of an error.  The number of
    pages is a uint32_t. *)
Definition cuckoo_meta_call_by_serialized_shmem_internal (type count paramShmemShift signature : Z) : PM (Z + string) :=
  w ← mget;
  if decide (paramShmemShift > u32 (pageCount (wk_alloc w) * CUCKOO_SHMEM_ALLOCATOR_PAGE_SIZE))
  then mret (inr (elog_text ARGUMENT_ERROR "paramShmemShift is invalid."))
  else
    let '(response, v) := MetaProcess (MetaServiceTypeDecode type) count (λ i, wk_memory w (paramShmemShift + Z.of_nat i)) (wk_session w) in
    mput (w <| wk_session := v |>) ;;
    match response with
    | inr text => mret (inr text)
    | inl bytes =>
      responseShmemShift ← malloc (Z.of_nat (length bytes));
      if decide (responseShmemShift = 0) then mret (inr (elog_text PROGRAM_ERROR "CuckooShmemAllocMalloc failed."))
      else
        set_signature responseShmemShift signature ;;
        shm_write responseShmemShift bytes ;;
        mret (inl responseShmemShift)
    end.

(** ** Statements and their results *)
Inductive statement := Plain (command : string) | Call (serviceType count shift signature : Z).
Inductive PGresult := Tuples (cols : nat) (rows : list (list string)) | NoTuples (errorMessage : string).

Definition execute (st : statement) : PM PGresult :=
  match st with
  | Plain command =>
    w ← mget;
    let '(r, v) := plain_command command (wk_session w) in
    mput (w <| wk_session := v |>) ;;
    mret (match r with inl (Some (cols, rows)) => Tuples cols rows | inl None => NoTuples "" | inr text => NoTuples (PQresultErrorMessage text) end)
  | Call type count shift signature =>
    r ← cuckoo_meta_call_by_serialized_shmem_internal type count shift signature;
    mret (match r with inl v => Tuples 1 [[pretty v]] | inr text => NoTuples (PQresultErrorMessage text) end)
  end.

(** The statements of one string are executed one after the other until one of
    them fails. *)
Fixpoint execute_all (l : list statement) : PM (list PGresult) :=
  match l with
  | [] => mret []
  | st :: l' =>
    r ← execute st;
    match r with
    | NoTuples (String _ _ as m) => mret [NoTuples m]
    | r => rs ← execute_all l'; mret (r :: rs)
    end
  end.

(** The code of a result that is no table. *)
Definition result_code (errorMessage : string) : PM CuckooErrorCode :=
  match CuckooErrorMsgAnalyse (Some errorMessage) with
  | None => mundefined
  | Some (c, _) => mret (if decide (c = SUCCESS) then PROGRAM_ERROR else c)
  end.

(** ** A batch *)

(** The loop that copies the attachments. *)
Fixpoint copy_params (p : Z) (jobs : list Job) : PM () :=
  match jobs with
  | [] => mret ()
  | j :: jobs' => shm_write p (job_attachment j) ;; copy_params (p + Z.of_nat (length (job_attachment j))) jobs'
  end.

(** The loop that gives every job its part of the response. *)
Fixpoint split_replies (replyData : SerializedData) (p : Z) (jobs : list Job) : PM (list (list Z)) :=
  match jobs with
  | [] => mret []
  | j :: jobs' =>
    match SerializedDataNextSeveralItemSize little replyData p (Z.of_nat (length (job_types j))) with
    | None => mundefined
    | Some size =>
      if decide (size = SD_INVALID) then throw
      else
        match SerializedData.read (default [] (sd_buffer replyData)) p size with
        | None => mundefined
        | Some data => rest ← split_replies replyData (u32 (p + size)) jobs'; mret (data :: rest)
        end
    end
  end.

(** The end of a batch that was served: the response is in the block [r]. *)
Definition hand_back (jobs : list Job) (replyShift : Z) : PM (list (list Z)) :=
  h ← block_header replyShift;
  w ← mget;
  match SerializedDataInit (Some (mem_read (wk_memory w) replyShift (hdr_size h))) (u32 (hdr_size h)) (u32 (hdr_size h)) true (sd_heap (replyBuilder w)) with
  | None => throw
  | Some replyData => replies ← split_replies replyData 0 jobs; free replyShift ;; mret replies
  end.

(** The segment with the code that every job of a failed batch gets. *)
Definition error_reply (errorCode : CuckooErrorCode) : PM (list Z) :=
  on_builder (SerializedDataClear ;; put_item little fuel (fb_error (code errorCode))) ;;
  w ← mget;
  match valid_bytes (replyBuilder w) with None => mundefined | Some data => mret data end.

(** The parameters are given back, and the result is processed. *)
Definition finish_batch (jobs : list Job) (totalParamShift : Z) (res : PGresult) : PM (list (list Z)) :=
  free totalParamShift ;;
  match res with
  | NoTuples m =>
    errorCode ← result_code m;
    data ← error_reply errorCode;
    mret ((λ _, data) <$> jobs)
  | Tuples cols rows =>
    match cols, rows with
    | 1%nat, [[v]] =>
      let replyShift := u64 (atoll v) in
      if decide (replyShift ≠ 0) then hand_back jobs replyShift else mret ((λ _, []) <$> jobs)
    | _, _ => throw
    end
  end.

(** What the jobs of a batch are answered with, in their order. *)
Definition exec_batch (jobs : list Job) : PM (list (list Z)) :=
  match jobs with
  | [] => throw
  | j :: _ =>
    match job_types j with
    | [] => mundefined
    | serviceType :: _ =>
      if decide (Exists (λ j, Z.land (Z.of_nat (length (job_attachment j))) SERIALIZED_DATA_ALIGNMENT_MASK ≠ 0) jobs) then throw
      else
        let totalParamCount := foldl (λ n j, u32 (n + Z.of_nat (length (job_types j)))) 0 jobs in
        let totalParamSize := foldl (λ n j, u32 (n + Z.of_nat (length (job_attachment j)))) 0 jobs in
        signature ← unique_signature;
        totalParamShift ← malloc totalParamSize;
        if decide (totalParamShift = 0) then throw
        else
          copy_params totalParamShift jobs ;;
          set_signature totalParamShift signature ;;
          w ← mget;
          if negb (connected (wk_session w)) then throw
          else
            res ← execute (Call serviceType totalParamCount totalParamShift signature);
            finish_batch jobs totalParamShift res
    end
  end.

(** ** A request on its own: any services in any order *)

(** A local variable. *)
Definition with_data {A} (m : M SerializedData A) (d : SerializedData) : PM (A * SerializedData) := λ w,
  match m d with Ret a d' => Ret (a, d') w | Elog e _ => Elog e w | Diverge => Diverge | Undefined => Undefined end.

(** A command and what is known of it: whether it is plain, and its signature. *)
Record command := mkCommand { cmd_statement : statement; isPlainCommand : bool; cmd_signature : Z }.

(** while (j < type_size() && type(j) == serviceType) ++j, but for plain commands. *)
Definition PLAIN_COMMAND_TYPE : Z := 0.
Fixpoint same_types (serviceType : Z) (l : list Z) : nat :=
  match l with t :: l' => if decide (t = serviceType) then S (same_types serviceType l') else O | [] => O end.
Definition group_size (serviceType : Z) (rest : list Z) : nat :=
  if decide (serviceType = PLAIN_COMMAND_TYPE) then 1%nat else S (same_types serviceType rest).

(** The loop over the groups of equal services, of which at most [n] are left;
    the size of a group is used as it is, also when it is invalid. *)
Fixpoint make_commands (n : nat) (types : list Z) (requestData : SerializedData) (paramShift currentParamSegment : Z) : PM (list command) :=
  match n, types with
  | _, [] => mret []
  | O, _ => mdiverge
  | S n', serviceType :: rest =>
    let count := group_size serviceType rest in
    match SerializedDataNextSeveralItemSize little requestData (u32 currentParamSegment) (Z.of_nat count) with
    | None => mundefined
    | Some size =>
      c ← (if decide (serviceType = PLAIN_COMMAND_TYPE) then
             match SerializedData.read (default [] (sd_buffer requestData)) (currentParamSegment + SERIALIZED_DATA_ALIGNMENT) (size - SERIALIZED_DATA_ALIGNMENT) with
             | None => mundefined
             | Some bytes =>
               match fb_verify bytes with
               | Some (Fb_PlainCommandParam (Some command)) => mret (mkCommand (Plain command) true 0)
               | Some (Fb_PlainCommandParam None) => mundefined
               | _ => throw
               end
             end
           else
             signature ← unique_signature;
             mret (mkCommand (Call serviceType (Z.of_nat count) (paramShift + currentParamSegment) signature) false signature));
      l ← make_commands n' (drop (count - 1) rest) requestData paramShift (currentParamSegment + size);
      mret (c :: l)
    end
  end.

(** One result, put behind the replies so far. *)
Definition add_reply (c : command) (res : PGresult) (replyData : SerializedData) : PM SerializedData :=
  match res with
  | NoTuples m =>
    errorCode ← result_code m;
    '(_, replyData) ← with_data (put_item little fuel (fb_error (code errorCode))) replyData;
    mret replyData
  | Tuples cols rows =>
    if isPlainCommand c then
      '(_, replyData) ← with_data (put_item little fuel (fb_plain (Z.of_nat (length rows)) (Z.of_nat cols) (concat rows))) replyData;
      mret replyData
    else
      match cols, rows with
      | 1%nat, [[v]] =>
        let replyShift := u64 (atoll v) in
        h ← block_header replyShift;
        if decide (hdr_signature h ≠ cmd_signature c) then throw
        else
          w ← mget;
          match SerializedDataInit (Some (mem_read (wk_memory w) replyShift (hdr_size h))) (u32 (hdr_size h)) (u32 (hdr_size h)) true (sd_heap replyData) with
          | None => throw
          | Some oneReply =>
            '(_, replyData) ← with_data (SerializedDataAppend fuel oneReply) replyData;
            free replyShift ;;
            mret replyData
          end
      | _, _ => throw
      end
  end.

Fixpoint add_replies (l : list (command * PGresult)) (replyData : SerializedData) : PM SerializedData :=
  match l with
  | [] => mret replyData
  | (c, res) :: l' => replyData ← add_reply c res replyData; add_replies l' replyData
  end.

(** The parameters are given back, and the results become one reply. *)
Definition finish_single (h : heap) (paramShift : Z) (commands : list command) (results : list PGresult) : PM (list Z) :=
  free paramShift ;;
  if decide (length results ≠ length commands) then throw
  else
    replyData ← add_replies (zip commands results) (mkSD None 0 0 true h);
    match valid_bytes replyData with None => mundefined | Some data => mret data end.

(** What the job is answered with; [h] is the heap its reply is built in. *)
Definition exec_single (h : heap) (job : Job) : PM (list Z) :=
  let paramSize := Z.of_nat (length (job_attachment job)) in
  paramShift ← malloc paramSize;
  if decide (paramShift = 0) then throw
  else
    shm_write paramShift (job_attachment job) ;;
    match SerializedDataInit (Some (job_attachment job)) (u32 paramSize) (u32 paramSize) true h with
    | None => throw
    | Some requestData =>
      commands ← make_commands (length (job_types job)) (job_types job) requestData paramShift 0;
      w ← mget;
      results ← (if connected (wk_session w) then execute_all (cmd_statement <$> commands) else mret []);
      finish_single h paramShift commands results
    end.

(** ** The body of BackgroundWorker's loop *)
Definition exec_task (h : heap) (isBatch : bool) (jobList : list Job) : PM (list (list Z)) :=
  if decide (jobList = []) then throw
  else if isBatch then exec_batch jobList
  else match jobList with [job] => data ← exec_single h job; mret [data] | _ => throw end.
End worker.
