(* ===== verification/PgConnectionSpec.v ===== *)
(** * What a batch is answered with

    The error codes survive the texts they travel in; a worker that executes a
    batch gives every job exactly the replies to its own requests, or all of them the
    code of the error, and leaves the shared memory as it found it. *)

From stdpp Require Import pretty list_numbers.
From S2P Require Import Prelude Decimal RemoteComm SerializedData ShmemAllocator Connection MetaCodec PgConnection.
#[local] Open Scope Z_scope.

(** ** Error codes *)

(** The codes that a text can carry. *)
Definition reported (c : CuckooErrorCode) : Prop := 0 < code c < code LAST_CUCKOO_ERROR_CODE.

Lemma substring_text s : String.substring 0 (String.length s) s = s.
Proof. induction s as [|x s IH]; [done|]. cbn. by rewrite IH. Qed.

Lemma reported_analysed c msg : reported c →
  CuckooErrorMsgAnalyse (Some (PQresultErrorMessage (elog_text c msg))) = Some (c, Some (String " " msg)).
Proof.
  intros Hc. unfold CuckooErrorMsgAnalyse, elog_text, PQresultErrorMessage. cbv [String.append].
  rewrite decide_False by (cbn; lia). cbn [String.length String.get Nat.sub String.substring]. rewrite substring_text.
  destruct Hc as [H0 H1]. destruct c; first [discriminate H0|discriminate H1|reflexivity].
Qed.

(** ** Blocks of the shared memory *)

Definition used (a : CuckooShmemAllocator) (p i : Z) : bool := Z.testbit (page_word a p) i.

(** The block [f] of page [p] that [r] points into. *)
Record block_at (level : Z) (a : CuckooShmemAllocator) (r p f : Z) : Prop := {
  ba_level : 0 ≤ level ≤ 6;
  ba_page : 0 ≤ p < pageCount a;
  ba_block : aligned_block level f;
  ba_shift : r = shift_of p f + sizeof_MemoryHdr }.

Lemma pages_ext a a' : allocator_ok a → allocator_ok a' → pageCount a' = pageCount a →
  (∀ p i, 0 ≤ p < pageCount a → 0 ≤ i < 64 → used a' p i = used a p i) → pageCntlArray a' = pageCntlArray a.
Proof.
  intros Ha Ha' Hc Hu. apply list_eq_same_length with (length (pageCntlArray a)).
  { done. }
  { pose proof (ao_pages a Ha). pose proof (ao_pages a' Ha'). lia. }
  intros n x y Hn Hx Hy. assert (0 ≤ Z.of_nat n < pageCount a) as Hp by (rewrite <-(ao_pages a Ha); lia).
  pose proof (page_word_lookup a (Z.of_nat n) Ha Hp) as Ey. pose proof (page_word_lookup a' (Z.of_nat n) Ha' ltac:(lia)) as Ex.
  rewrite Nat2Z.id in Ex, Ey. assert (x = page_word a' (Z.of_nat n) ∧ y = page_word a (Z.of_nat n)) as [-> ->] by (split; congruence).
  apply word_ext; [apply page_word_word; by rewrite ?Hc..|]. intros i Hi. by apply Hu.
Qed.

Lemma page_word_insert a a' p w q : allocator_ok a → 0 ≤ p < pageCount a → 0 ≤ q →
  pageCntlArray a' = <[Z.to_nat p := w]> (pageCntlArray a) → page_word a' q = if decide (q = p) then w else page_word a q.
Proof.
  intros Ha Hp Hq He. unfold page_word. rewrite He, !nth_lookup. case_decide as Hd.
  - subst. rewrite list_lookup_insert_eq; [done|]. pose proof (ao_pages a Ha). lia.
  - rewrite list_lookup_insert_ne by lia. done.
Qed.

Lemma allocated_used size level a r a' : allocator_ok a → 0 ≤ level ≤ 6 → allocated size level a r a' →
  ∃ p f, block_at level a r p f ∧ (∀ i, in_block level f i → used a p i = false) ∧
    (∀ q i, 0 ≤ q < pageCount a → 0 ≤ i < 64 → used a' q i = used a q i || bool_decide (q = p ∧ in_block level f i)) ∧
    headers a' = <[r - sizeof_MemoryHdr := mkHdr 0 size (capacity_of level)]> (headers a).
Proof.
  intros Ha Hl (p & f & w & (Hp & Hf & Hc) & -> & (Hw & Hbits) & Hpages & Hh & Hcount & Ha').
  exists p, f. split_and!; [done|done| |by rewrite Z.add_simpl_r].
  intros q i Hq Hi. unfold used. rewrite (page_word_insert a a' p w q Ha Hp ltac:(lia) Hpages). case_decide as Hd.
  - subst. rewrite Hbits by done. f_equal. apply bool_decide_ext. tauto.
  - rewrite (bool_decide_false (q = p ∧ _)) by tauto. by rewrite orb_false_r.
Qed.

(** Giving a block back. *)
Lemma Free_used a level r p f hdr : allocator_ok a → block_at level a r p f →
  headers a !! (r - sizeof_MemoryHdr) = Some hdr → hdr_capacity hdr = capacity_of level →
  ∃ a', CuckooShmemAllocatorFree r a = Some a' ∧ allocator_ok a' ∧ headers a' = headers a ∧ pageCount a' = pageCount a ∧
    ∀ q i, 0 ≤ q < pageCount a → 0 ≤ i < 64 → used a' q i = used a q i && negb (bool_decide (q = p ∧ in_block level f i)).
Proof.
  intros Ha [Hl Hp Hf ->] Hh Hc. rewrite Z.add_simpl_r in Hh.
  destruct (Free_spec a level p f hdr Ha Hl Hp Hf Hh Hc) as (a' & HF & Ha' & Hh' & Hcount & Hpages). exists a'.
  split_and!; [done..|]. intros q i Hq Hi. pose proof (page_word_lookup a p Ha Hp) as Hlook.
  rewrite (list_alter_insert _ _ _ _ Hlook) in Hpages. unfold used.
  rewrite (page_word_insert a a' p _ q Ha Hp ltac:(lia) Hpages). case_decide as Hd.
  - subst. rewrite release_bits_spec by done. do 2 f_equal. apply bool_decide_ext. tauto.
  - rewrite (bool_decide_false (q = p ∧ _)) by tauto. by rewrite andb_true_r.
Qed.

(** A block in use does not start where another is handed out. *)
Lemma blocks_differ a a' level r p f level' r' p' f' : pageCount a ≤ PAGE_LIMIT → pageCount a' ≤ PAGE_LIMIT →
  block_at level a r p f → block_at level' a' r' p' f' → used a' p f = true → (∀ i, in_block level' f' i → used a' p' i = false) → r ≠ r'.
Proof.
  intros Hc Hc' [Hl Hp Hf ->] [Hl' Hp' Hf' ->] Hu Hfree He. pose proof (aligned_range _ _ Hl Hf). pose proof (aligned_range _ _ Hl' Hf').
  assert (shift_of p f = shift_of p' f') as Hs by lia. rewrite !shift_place in Hs by lia. assert (p = p' ∧ f = f') as [-> ->] by lia.
  rewrite Hfree in Hu; [done|]. pose proof (width_pos level' Hl'). unfold in_block. lia.
Qed.

(** The header of a block, written. *)
Definition with_hdr (r : Z) (h : MemoryHdr) (a : CuckooShmemAllocator) : CuckooShmemAllocator :=
  a <| headers ::= <[r - sizeof_MemoryHdr := h]> |>.

Lemma with_hdr_ok r h a : allocator_ok a → allocator_ok (with_hdr r h a).
Proof. by intros [? ? ? ?]. Qed.

Lemma with_hdr_lookup r h a : headers (with_hdr r h a) !! (r - sizeof_MemoryHdr) = Some h.
Proof. apply lookup_insert_eq. Qed.

Lemma block_at_count level a a' r p f : pageCount a' = pageCount a → block_at level a r p f → block_at level a' r p f.
Proof. intros Hc [? ? ? ?]. by split; rewrite ?Hc. Qed.

Lemma allocated_ok size level a r a' : allocated size level a r a' → allocator_ok a' ∧ pageCount a' = pageCount a.
Proof. intros (p & f & w & _ & _ & _ & _ & _ & Hc & Ha'). done. Qed.

(** A block is handed out and given back. *)
Lemma block_restored size level a r a1 h : allocator_ok a → 0 ≤ level ≤ 6 → allocated size level a r a1 → hdr_capacity h = capacity_of level →
  ∃ a2, CuckooShmemAllocatorFree r (with_hdr r h a1) = Some a2 ∧ allocator_ok a2 ∧ pageCntlArray a2 = pageCntlArray a.
Proof.
  intros Ha Hl H1 Hcap. destruct (allocated_ok _ _ _ _ _ H1) as [Ha1 Hc1].
  destruct (allocated_used _ _ _ _ _ Ha Hl H1) as (p & f & Hb & Hfree & Hu & _).
  destruct (Free_used (with_hdr r h a1) level r p f h) as (a2 & HF & Ha2 & _ & Hc2 & Hu2);
    [by apply with_hdr_ok|by eapply block_at_count|apply with_hdr_lookup|done|].
  exists a2. split_and!; [done..|]. change (pageCount (with_hdr r h a1)) with (pageCount a1) in *.
  apply pages_ext; [done..|congruence|]. intros q i Hq Hi. rewrite Hu2 by (done || by rewrite Hc1).
  change (used (with_hdr r h a1) q i) with (used a1 q i). rewrite Hu by done.
  case_bool_decide as Hin; [|by rewrite orb_false_r, andb_true_r]. destruct Hin as [-> Hin]. by rewrite Hfree, andb_false_r.
Qed.

(** Two blocks are handed out, and given back in the same order. *)
Lemma blocks_restored size level a r a1 h size' level' r' a2 h' :
  allocator_ok a → 0 ≤ level ≤ 6 → allocated size level a r a1 → hdr_capacity h = capacity_of level →
  0 ≤ level' ≤ 6 → allocated size' level' (with_hdr r h a1) r' a2 → hdr_capacity h' = capacity_of level' →
  ∃ a3, CuckooShmemAllocatorFree r (with_hdr r' h' a2) = Some a3 ∧ headers a3 !! (r' - sizeof_MemoryHdr) = Some h' ∧
  ∃ a4, CuckooShmemAllocatorFree r' a3 = Some a4 ∧ allocator_ok a4 ∧ pageCntlArray a4 = pageCntlArray a.
Proof.
  intros Ha Hl H1 Hcap Hl' H2 Hcap'. destruct (allocated_ok _ _ _ _ _ H1) as [Ha1 Hc1]. destruct (allocated_ok _ _ _ _ _ H2) as [Ha2 Hc2].
  destruct (allocated_used _ _ _ _ _ Ha Hl H1) as (p & f & Hb & Hfree & Hu & _).
  destruct (allocated_used _ _ _ _ _ (with_hdr_ok r h _ Ha1) Hl' H2) as (p' & f' & Hb' & Hfree' & Hu' & Hh2).
  change (pageCount (with_hdr r h a1)) with (pageCount a1) in *. change (used (with_hdr r h a1)) with (used a1) in *.
  pose proof (aligned_range _ _ (ba_level _ _ _ _ _ Hb) (ba_block _ _ _ _ _ Hb)) as Hf.
  assert (r ≠ r') as Hne.
  { pose proof (ao_count a Ha). eapply blocks_differ; [| |exact Hb|exact Hb'| |done]; [lia|cbn; lia|]. change (used (with_hdr r h a1) p f) with (used a1 p f). rewrite Hu by (done || apply Hb).
    rewrite bool_decide_true, orb_true_r; [done|]. split; [done|]. pose proof (width_pos level Hl). unfold in_block. lia. }
  destruct (Free_used (with_hdr r' h' a2) level r p f h) as (a3 & HF & Ha3 & Hh3 & Hc3 & Hu3);
    [by apply with_hdr_ok|by eapply block_at_count; [|exact Hb]; cbn; congruence| |done|].
  { cbn. rewrite lookup_insert_ne by lia. rewrite Hh2, lookup_insert_ne by lia. apply with_hdr_lookup. }
  change (pageCount (with_hdr r' h' a2)) with (pageCount a2) in *. change (used (with_hdr r' h' a2)) with (used a2) in *.
  exists a3. split; [done|]. assert (headers a3 !! (r' - sizeof_MemoryHdr) = Some h') as Hlook by (rewrite Hh3; apply with_hdr_lookup).
  split; [done|].
  destruct (Free_used a3 level' r' p' f' h') as (a4 & HF4 & Ha4 & _ & Hc4 & Hu4); [done|eapply block_at_count; [|exact Hb']; cbn; congruence|done|done|].
  exists a4. split_and!; [done..|]. apply pages_ext; [done..|congruence|]. intros q i Hq Hi.
  rewrite Hu4, Hu3, Hu', Hu by (done || congruence).
  destruct (bool_decide (q = p ∧ in_block level f i)) eqn:E1.
  - apply bool_decide_eq_true in E1 as [-> Hin]. by rewrite Hfree, ?orb_true_l, ?andb_false_r, ?andb_false_l.
  - destruct (bool_decide (q = p' ∧ in_block level' f' i)) eqn:E2; [|by rewrite !orb_false_r, !andb_true_r].
    apply bool_decide_eq_true in E2 as [-> Hin]. specialize (Hfree' i Hin). rewrite Hu, E1, orb_false_r in Hfree' by done. by rewrite Hfree', andb_false_r.
Qed.

Definition no_room (size : Z) (a : CuckooShmemAllocator) : Prop :=
  size > CUCKOO_SHMEM_ALLOCATOR_MAX_SUPPORT_ALLOC_SIZE - sizeof_MemoryHdr ∨
  ∀ p f, ¬ free_block a (level_of (required_size size)) p f.

(** What is in the block is in the memory. *)
Lemma mem_read_write m a bs : mem_read (mem_write m a bs) a (Z.of_nat (length bs)) = bs.
Proof.
  unfold mem_read, mem_write. apply list_eq. intros i. rewrite list_lookup_fmap. destruct (bs !! i) as [x|] eqn:E.
  - pose proof (lookup_lt_Some _ _ _ E). rewrite lookup_seqZ_lt by lia. simpl. rewrite decide_True by lia.
    replace (Z.to_nat (a + Z.of_nat i - a)) with i by lia. by rewrite E.
  - apply lookup_ge_None in E. rewrite lookup_seqZ_ge by lia. done.
Qed.

(** Consecutive parts of the given lengths. *)
Fixpoint slices {A} (counts : list nat) (l : list A) : list (list A) :=
  match counts with [] => [] | n :: counts' => take n l :: slices counts' (drop n l) end.

Section batch.
Context `{MM : MemoryManager} `{RB : ResponseBuilder} `{FB : FlatBuffers} {W : Type} `{!Backend W} (little : bool) (fuel : nat).
Local Abbreviation PM := (M (Worker W)).

Definition attachments (jobs : list Job) : list Z := concat (job_attachment <$> jobs).
Definition counts (jobs : list Job) : list nat := (λ j, length (job_types j)) <$> jobs.

(** ** The parameters *)
Lemma copy_params_spec p jobs (w : Worker W) : ∃ m, copy_params p jobs w = Ret () (w <| wk_memory := m |>) ∧
  (∀ x, x < p → m x = wk_memory w x) ∧ ∀ i x, attachments jobs !! i = Some x → m (p + Z.of_nat i) = x.
Proof.
  revert p w. induction jobs as [|j jobs IH]; intros p w.
  { exists (wk_memory w). by destruct w. }
  cbn [copy_params]. unfold shm_write at 1. mstep. set (w1 := w <| wk_memory := _ |>).
  destruct (IH (p + Z.of_nat (length (job_attachment j))) w1) as (m & -> & Hlow & Hm). exists m. split; [done|].
  assert (∀ x, x < p + Z.of_nat (length (job_attachment j)) → m x = mem_write (wk_memory w) p (job_attachment j) x) as Hlow' by exact Hlow.
  split.
  - intros x Hx. rewrite Hlow' by lia. unfold mem_write. by rewrite decide_False by lia.
  - intros i x. cbn. destruct (decide (i < length (job_attachment j))%nat).
    + rewrite lookup_app_l by done. intros Hi. rewrite Hlow' by lia. unfold mem_write. rewrite decide_True by lia.
      replace (Z.to_nat (p + Z.of_nat i - p)) with i by lia. by rewrite Hi.
    + rewrite lookup_app_r by lia. intros Hi. rewrite <-(Hm _ _ Hi). f_equal. lia.
Qed.

Lemma sum_u32 (f : Job → nat) jobs n : 0 ≤ n → n + Z.of_nat (sum_list (f <$> jobs)) < 2 ^ 32 →
  foldl (λ n j, u32 (n + Z.of_nat (f j))) n jobs = n + Z.of_nat (sum_list (f <$> jobs)).
Proof.
  revert n. induction jobs as [|j jobs IH]; intros n H0 Hn; cbn in *; [lia|].
  assert (u32 (n + Z.of_nat (f j)) = n + Z.of_nat (f j)) as -> by (apply Z.mod_small; lia). rewrite IH; lia.
Qed.

Lemma attachments_length jobs : length (attachments jobs) = sum_list ((λ j, length (job_attachment j)) <$> jobs).
Proof. induction jobs as [|j jobs IH]; [done|]. cbn. rewrite length_app. fold (attachments jobs). lia. Qed.

(** ** The replies *)
Lemma wire_app l l' : wire (l ++ l') = wire l ++ wire l'.
Proof. unfold wire. by rewrite fmap_app, concat_app. Qed.

Lemma wire_divide l : whole l → (4 | Z.of_nat (length (wire l))).
Proof.
  unfold whole. induction 1 as [|bs l Hbs _ IH]; [by exists 0|]. rewrite wire_cons, length_app, Nat2Z.inj_add, frame_length.
  apply Z.divide_add_r; [|done]. apply Z.divide_add_r; [by exists 1|done].
Qed.

Lemma split_replies_spec jobs d pre rs (w : Worker W) :
  sd_buffer d = Some (pre ++ wire rs) → sd_size d = Z.of_nat (length (pre ++ wire rs)) → sd_size d < SD_INVALID →
  whole rs → (4 | Z.of_nat (length pre)) → length rs = sum_list (counts jobs) →
  split_replies little d (Z.of_nat (length pre)) jobs w = Ret (wire <$> slices (counts jobs) rs) w.
Proof.
  revert pre rs. induction jobs as [|j jobs IH]; intros pre rs Hb Hs Hinv Hw Hp Hn; [done|].
  cbn [counts fmap list_fmap sum_list slices] in *. fold (counts jobs) in *. set (n := length (job_types j)) in *.
  rewrite <-(take_drop n rs) in Hb, Hs, Hw. set (l1 := take n rs) in *. set (l2 := drop n rs) in *.
  assert (length l1 = n ∧ length l2 = sum_list (counts jobs)) as [Hl1 Hl2]
    by (unfold l1, l2; rewrite length_take, length_drop; cbn in Hn; lia).
  apply Forall_app in Hw as [Hw1 Hw2]. rewrite wire_app in Hb, Hs. rewrite !length_app in Hs. unfold SD_INVALID in Hinv.
  cbn [split_replies]. fold n. replace (Z.of_nat n) with (Z.of_nat (length l1)) by lia.
  rewrite (NextSize_in little d pre l1 (wire l2) Hb Hw1 Hp) by (rewrite ?length_app; lia).
  rewrite decide_False by (unfold SD_INVALID; lia). rewrite Hb. cbn [default from_option id].
  unfold SerializedData.read at 1. rewrite decide_True by (rewrite !length_app; lia). rewrite !Nat2Z.id, drop_app_length, take_app_length.
  replace (u32 (Z.of_nat (length pre) + Z.of_nat (length (wire l1)))) with (Z.of_nat (length (pre ++ wire l1)))
    by (rewrite length_app; unfold u32; rewrite Z.mod_small; lia).
  rewrite (bind_ret _ _ _ _ _ (IH (pre ++ wire l1) l2 ltac:(by rewrite Hb, <-app_assoc) ltac:(rewrite !length_app; lia)
    ltac:(unfold SD_INVALID; lia) Hw2 ltac:(rewrite length_app, Nat2Z.inj_add; apply Z.divide_add_r; [done|by apply wire_divide]) Hl2)).
  done.
Qed.

(** ** The code of an error *)
Record worker_ok (w : Worker W) : Prop := {
  wo_alloc : allocator_ok (wk_alloc w);
  wo_builder : sd_ok (replyBuilder w);
  wo_managed : sd_managed (replyBuilder w) = true }.

Lemma error_reply_spec c (w : Worker W) :
  sd_ok (replyBuilder w) → sd_managed (replyBuilder w) = true → never_null → (31 ≤ fuel)%nat →
  4 + pad4 (Z.of_nat (length (fb_error (code c)))) ≤ 2 ^ 31 →
  returns (error_reply little fuel c w) (λ data w', ∃ bs d, padded (fb_error (code c)) bs ∧ data = frame bs ∧
    w' = w <| replyBuilder := d |> ∧ sd_ok d ∧ sd_managed d = true).
Proof.
  intros Hd Hm Hn Hf Hs. unfold error_reply, on_builder, SerializedDataClear. set (d0 := (replyBuilder w) <| sd_size := 0 |>).
  assert (sd_ok d0) as Hd0 by (destruct Hd as [Hb Hsz _ Hc]; split; [done|simpl; lia|by exists 0|done]).
  assert (sd_size d0 + 4 + pad4 (Z.of_nat (length (fb_error (code c)))) ≤ 2 ^ 31) as Hs0 by (change (sd_size d0) with 0; lia).
  pose proof (put_item_spec little fuel _ d0 Hd0 Hm Hn Hf (fb_error_bytes (code c)) Hs0) as Hp.
  destruct (put_item little fuel (fb_error (code c)) d0) as [u d'|?| |] eqn:E; [|done..].
  destruct Hp as (bs & Hpad & Hd' & Hm' & Hc). change (content d0 ++ frame bs) with (frame bs) in Hc.
  match goal with |- returns ((?m ≫= _) w) _ => assert (m w = Ret u (w <| replyBuilder := d' |>)) as Ez end.
  { unfold mzoom. mstep. fold d0. by rewrite E. }
  rewrite (bind_ret _ _ _ _ _ Ez). mstep. change (replyBuilder (w <| replyBuilder := d' |>)) with d'.
  assert (valid_bytes d' = Some (frame bs)) as ->.
  { pose proof (content_length d' Hd') as Hl. pose proof Hd' as [Hb Hsz _ _]. unfold content in Hc, Hl. unfold valid_bytes.
    destruct (sd_buffer d') as [b|]; cbn in *.
    - rewrite decide_True by lia. by rewrite Hc.
    - rewrite take_nil in Hc. pose proof (frame_length bs) as Hfl. by rewrite <-Hc in Hfl. }
  exists bs, d'. split_and!; [done..|]. cbn in Hm'. congruence.
Qed.

(** ** Running the allocator *)
Definition handed_out (size : Z) (a : CuckooShmemAllocator) (r : Z) (level : Z) (a' : CuckooShmemAllocator) : Prop :=
  0 < r ∧ 0 ≤ level ≤ 6 ∧ allocated size level a r a'.

Lemma malloc_run size (w : Worker W) : allocator_ok (wk_alloc w) → 0 ≤ size →
  malloc size w = Ret 0 w ∧ no_room size (wk_alloc w) ∨
  ∃ r level a', handed_out size (wk_alloc w) r level a' ∧ malloc size w = Ret r (w <| wk_alloc := a' |>).
Proof.
  intros Ha Hs. pose proof (malloc_spec size (wk_alloc w) Ha Hs) as H. unfold malloc. mstep.
  destruct (CuckooShmemAllocatorMalloc size (wk_alloc w)) as [r a']. mstep. case_decide.
  { destruct H as [-> ->]. left. split; [by destruct w|by left]. }
  destruct H as (Hl & _ & _ & [(-> & -> & Hno)|[Hr Hal]]); [left; split; [by destruct w|by right]|right].
  by eexists r, _, a'.
Qed.

Lemma set_signature_run r sign h (w : Worker W) : headers (wk_alloc w) !! (r - sizeof_MemoryHdr) = Some h →
  set_signature r sign w = Ret () (w <| wk_alloc ::= with_hdr r (mkHdr sign (hdr_size h) (hdr_capacity h)) |>).
Proof. intros Hh. unfold set_signature, block_header. mstep. rewrite Hh. mstep. done. Qed.

Lemma handed_out_header size a r level a' : handed_out size a r level a' →
  headers a' !! (r - sizeof_MemoryHdr) = Some (mkHdr 0 size (capacity_of level)).
Proof. intros (_ & _ & p & f & w & _ & -> & _ & _ & Hh & _). by rewrite Hh, Z.add_simpl_r, lookup_insert_eq. Qed.

Lemma block_below level a r p f : pageCount a < PAGE_LIMIT → block_at level a r p f →
  0 ≤ r ≤ u32 (pageCount a * CUCKOO_SHMEM_ALLOCATOR_PAGE_SIZE) ∧ r < 2 ^ 32.
Proof.
  intros Hc [Hl Hp Hf ->]. pose proof (aligned_range _ _ Hl Hf). unfold sizeof_MemoryHdr. rewrite shift_place by lia. unfold PAGE_LIMIT in Hc.
  change CUCKOO_SHMEM_ALLOCATOR_PAGE_SIZE with (2 ^ 20). unfold u32. rewrite Z.mod_small by lia. lia.
Qed.

Lemma handed_out_below size a r level a' : allocator_ok a → handed_out size a r level a' →
  r ≤ u32 (pageCount a' * CUCKOO_SHMEM_ALLOCATOR_PAGE_SIZE) ∧ r < 2 ^ 63.
Proof.
  intros Ha (_ & Hl & H). destruct (allocated_ok _ _ _ _ _ H) as [_ ->].
  destruct (allocated_used _ _ _ _ _ Ha Hl H) as (p & f & Hb & _). pose proof (ao_count a Ha) as [_ Hc].
  pose proof (block_below _ _ _ _ _ Hc Hb). lia.
Qed.

(** ** The call *)
Definition NO_MEMORY : string := elog_text PROGRAM_ERROR "CuckooShmemAllocMalloc failed.".

Lemma call_run type count shift sign (w : Worker W) response v :
  allocator_ok (wk_alloc w) → shift ≤ u32 (pageCount (wk_alloc w) * CUCKOO_SHMEM_ALLOCATOR_PAGE_SIZE) →
  MetaProcess (MetaServiceTypeDecode type) count (λ i, wk_memory w (shift + Z.of_nat i)) (wk_session w) = (response, v) →
  let run := cuckoo_meta_call_by_serialized_shmem_internal type count shift sign w in
  match response with
  | inr text => run = Ret (inr text) (w <| wk_session := v |>)
  | inl bytes =>
    let size := Z.of_nat (length bytes) in
    no_room size (wk_alloc w) ∧ run = Ret (inr NO_MEMORY) (w <| wk_session := v |>) ∨
    ∃ r level a' m, handed_out size (wk_alloc w) r level a' ∧ mem_read m r size = bytes ∧
      run = Ret (inl r) (w <| wk_session := v |> <| wk_alloc := with_hdr r (mkHdr sign size (capacity_of level)) a' |> <| wk_memory := m |>)
  end.
Proof.
  intros Ha Hsh Hmp. cbv zeta. unfold cuckoo_meta_call_by_serialized_shmem_internal. mstep. rewrite decide_False by lia.
  rewrite Hmp. mstep. destruct response as [bytes|text]; [|done]. cbv beta iota zeta.
  match goal with |- context [(malloc _ ≫= _) ?x] => set (w1 := x) end.
  destruct (malloc_run (Z.of_nat (length bytes)) w1 Ha ltac:(lia)) as [[Hm Hno]|(r & level & a' & Hout & Hm)];
    rewrite (bind_ret _ _ _ _ _ Hm).
  { left. rewrite decide_True by done. done. }
  right. rewrite decide_False by (destruct Hout; lia). pose proof (handed_out_header _ _ _ _ _ Hout) as Hh.
  match goal with |- context [(set_signature _ _ ≫= _) ?x] => set (w2 := x) end.
  rewrite (bind_ret _ _ _ _ _ (set_signature_run r sign _ w2 Hh)). unfold shm_write. mstep.
  eexists r, level, a', _. split; [exact Hout|]. split; [|reflexivity]. apply mem_read_write.
Qed.

(** ** The answers *)

(** Every job gets the segment with the code. *)
Definition failed (c : CuckooErrorCode) (jobs : list Job) (replies : list (list Z)) : Prop :=
  ∃ bs, padded (fb_error (code c)) bs ∧ replies = (λ _, frame bs) <$> jobs.

Definition errors_fit : Prop := ∀ c, 4 + pad4 (Z.of_nat (length (fb_error c))) ≤ 2 ^ 31.

Lemma free_run r (w : Worker W) a : CuckooShmemAllocatorFree r (wk_alloc w) = Some a → free r w = Ret () (w <| wk_alloc := a |>).
Proof. intros Hf. unfold free. mstep. by rewrite Hf. Qed.

Lemma result_code_run c msg (w : Worker W) : reported c → result_code (PQresultErrorMessage (elog_text c msg)) w = Ret c w.
Proof. intros Hc. unfold result_code. rewrite reported_analysed by done. rewrite decide_False; [done|]. intros ->. by destruct Hc. Qed.

(** The end of a batch that the server raised an error for. *)
Lemma failed_run c msg shift a jobs (w : Worker W) :
  worker_ok w → never_null → (31 ≤ fuel)%nat → errors_fit → reported c → CuckooShmemAllocatorFree shift (wk_alloc w) = Some a →
  returns ((free shift ;; errorCode ← result_code (PQresultErrorMessage (elog_text c msg));
            data ← error_reply little fuel errorCode; mret ((λ _, data) <$> jobs)) w)
    (λ replies w', failed c jobs replies ∧ wk_session w' = wk_session w ∧ wk_alloc w' = a ∧
       sd_ok (replyBuilder w') ∧ sd_managed (replyBuilder w') = true).
Proof.
  intros [_ Hb Hm] Hn Hf Hfit Hc HF. rewrite (bind_ret _ _ _ _ _ (free_run _ _ _ HF)).
  rewrite (bind_ret _ _ _ _ _ (result_code_run c msg _ Hc)). match goal with |- returns ((error_reply _ _ _ ≫= _) ?x) _ => set (w1 := x) end.
  pose proof (error_reply_spec c w1 Hb Hm Hn Hf (Hfit _)) as He. destruct (error_reply little fuel c w1) as [data w2|?| |] eqn:E; [|done..].
  rewrite (bind_ret _ _ _ _ _ E). destruct He as (bs & d & Hpad & -> & -> & Hd & Hdm). cbn. split_and!; [by exists bs|done..].
Qed.

Lemma string_app_empty (s : string) : s +:+ "" = s.
Proof. induction s as [|c s IH]; [done|]. change (String c (s +:+ "") = String c s). by rewrite IH. Qed.

(** A shift in a table. *)
Lemma shift_value r : 0 < r < 2 ^ 63 → u64 (atoll (pretty r)) = r.
Proof.
  intros Hr. pose proof (atoll_pretty r "" ltac:(lia) (λ _, eq_refl)) as H. destruct r as [|r|r]; [lia| |lia].
  change (pretty (Z.to_N (Z.pos r)) +:+ "") with (pretty (Z.pos r) +:+ "") in H. rewrite string_app_empty in H.
  rewrite H. apply u64_small. lia.
Qed.

Lemma hand_back_run jobs r rs h a (w : Worker W) :
  headers (wk_alloc w) !! (r - sizeof_MemoryHdr) = Some h → hdr_size h = Z.of_nat (length (wire rs)) →
  mem_read (wk_memory w) r (Z.of_nat (length (wire rs))) = wire rs → Z.of_nat (length (wire rs)) < SD_INVALID →
  whole rs → length rs = sum_list (counts jobs) → CuckooShmemAllocatorFree r (wk_alloc w) = Some a →
  hand_back little jobs r w = Ret (wire <$> slices (counts jobs) rs) (w <| wk_alloc := a |>).
Proof.
  intros Hh Hsz Hm Hi Hw Hn HF. unfold hand_back, block_header. mstep. rewrite Hh. mstep. rewrite Hsz, Hm.
  assert (u32 (Z.of_nat (length (wire rs))) = Z.of_nat (length (wire rs))) as -> by (apply Z.mod_small; unfold SD_INVALID in Hi; lia).
  cbn [SerializedDataInit]. rewrite decide_False by (intros [H|H]; revert H; by apply divide_land, wire_divide).
  match goal with |- (split_replies _ ?x _ _ ≫= _) _ = _ => set (d := x) end.
  rewrite (bind_ret _ _ _ _ _ (split_replies_spec jobs d [] rs w eq_refl eq_refl Hi Hw ltac:(by exists 0) Hn)).
  by rewrite (bind_ret _ _ _ _ _ (free_run _ _ _ HF)).
Qed.

(** What the server does with the parameters of a batch: a segment per request,
    or an error.  It only sees the memory from the first parameter on. *)
Definition serves (jobs : list Job) (type : Z) (session : W) (response : list (list Z) + CuckooErrorCode * string) (session' : W) : Prop :=
  ∀ m : nat → Z, (∀ i x, attachments jobs !! i = Some x → m i = x) →
    MetaProcess (MetaServiceTypeDecode type) (Z.of_nat (sum_list (counts jobs))) m session =
      (match response with inl rs => inl (wire rs) | inr (c, msg) => inr (elog_text c msg) end, session').

Definition response_ok (jobs : list Job) (response : list (list Z) + CuckooErrorCode * string) : Prop :=
  match response with
  | inl rs => whole rs ∧ length rs = sum_list (counts jobs) ∧ Z.of_nat (length (wire rs)) < SD_INVALID
  | inr (c, _) => reported c
  end.

(** Jobs that the pool puts into a batch: whole messages of one service. *)
Record batch_ok (type : Z) (jobs : list Job) : Prop := {
  bo_type : head jobs ≫= head ∘ job_types = Some type;
  bo_aligned : Forall (λ j, (4 | Z.of_nat (length (job_attachment j)))) jobs;
  bo_size : Z.of_nat (length (attachments jobs)) < 2 ^ 32;
  bo_count : Z.of_nat (sum_list (counts jobs)) < 2 ^ 32 }.

(** The call and what follows it, from the state in which the parameters are in
    the block [r] that was handed out from [a]. *)
Lemma served_batch type jobs response v size a r level a1 h sign (w : Worker W) :
  worker_ok w → never_null → (31 ≤ fuel)%nat → errors_fit → response_ok jobs response → allocator_ok a →
  handed_out size a r level a1 → wk_alloc w = with_hdr r h a1 → hdr_capacity h = capacity_of level →
  serves jobs type (wk_session w) response v → (∀ i x, attachments jobs !! i = Some x → wk_memory w (r + Z.of_nat i) = x) →
  returns ((res ← execute (Call type (Z.of_nat (sum_list (counts jobs))) r sign); finish_batch little fuel jobs r res) w)
    (λ replies w', worker_ok w' ∧ wk_session w' = v ∧ pageCntlArray (wk_alloc w') = pageCntlArray a ∧
       match response with
       | inl rs => replies = wire <$> slices (counts jobs) rs ∨
           failed PROGRAM_ERROR jobs replies ∧ no_room (Z.of_nat (length (wire rs))) a1
       | inr (c, _) => failed c jobs replies
       end).
Proof.
  intros [Ha Hb Hm] Hn Hf Hfit Hresp Ha0 Hout Hw Hcap Hserve Hmem. pose proof Hout as (_ & Hl & Hall).
  destruct (handed_out_below _ _ _ _ _ Ha0 Hout) as [Hbelow _].
  pose proof (call_run type (Z.of_nat (sum_list (counts jobs))) r sign w _ v Ha ltac:(by rewrite Hw) (Hserve _ Hmem)) as Hcall.
  cbn [execute]. rewrite bind_assoc.
  destruct (block_restored _ _ _ _ _ h Ha0 Hl Hall Hcap) as (a2 & HF & Ha2 & Hp2). rewrite <-Hw in HF.
  assert (∀ c msg (w1 : Worker W), reported c → w1 = w <| wk_session := v |> →
    returns (finish_batch little fuel jobs r (NoTuples (PQresultErrorMessage (elog_text c msg))) w1)
      (λ replies w', failed c jobs replies ∧ worker_ok w' ∧ wk_session w' = v ∧ pageCntlArray (wk_alloc w') = pageCntlArray a)) as Hfail.
  { intros c msg w1 Hc ->. eapply returns_mono; [apply (failed_run c msg r a2 jobs (w <| wk_session := v |>)); done|].
    intros replies w' (Hfl & Hs & Hwa & Hd & Hdm). split; [done|]. rewrite Hwa. split; [|done]. by split; [rewrite Hwa| |]. }
  destruct response as [rs|[c msg]].
  - destruct Hcall as [[Hno Hrun]|(r' & level' & a3 & m & Hout' & Hread & Hrun)]; rewrite (bind_ret _ _ _ _ _ Hrun); mstep.
    { eapply returns_mono; [apply Hfail; done|]. intros replies w' (Hfl & Hok & Hs & Hp). split_and!; [done..|].
      right. split; [done|]. by rewrite Hw in Hno. }
    pose proof Hout' as (Hr' & Hl' & Hall'). rewrite Hw in Hall'. destruct Hresp as (Hwh & Hlen & Hinv).
    set (h' := mkHdr sign (Z.of_nat (length (wire rs))) (capacity_of level')) in *.
    destruct (blocks_restored _ _ _ _ _ h _ _ _ _ h' Ha0 Hl Hall Hcap Hl' Hall' eq_refl)
      as (a4 & HF1 & Hh4 & a5 & HF2 & Ha5 & Hp5).
    unfold finish_batch. match goal with |- returns ((free r ≫= _) ?x) _ => set (w2 := x) end.
    rewrite (bind_ret _ _ _ _ _ (free_run r w2 a4 HF1)). destruct (handed_out_below _ _ _ _ _ Ha Hout') as [_ H63].
    rewrite (shift_value r') by lia. rewrite decide_True by lia.
    match goal with |- returns (hand_back _ _ _ ?x) _ => set (w3 := x) end. rewrite (hand_back_run jobs r' rs h' a5 w3 Hh4 eq_refl Hread Hinv Hwh Hlen HF2).
    cbn. split_and!; [by split|done|done|by left].
  - rewrite (bind_ret _ _ _ _ _ Hcall). mstep. eapply returns_mono; [by apply Hfail|]. intros replies w' (Hfl & Hok & Hs & Hp). done.
Qed.

Lemma returns_outcome {S A} (o : outcome S A) (P Q : A → S → Prop) E D : returns o P → (∀ a s, P a s → Q a s) → outcome_ok o Q E D.
Proof. destruct o; cbn; [auto|done..]. Qed.

Lemma unique_signature_run (w : Worker W) : ∃ sign c,
  unique_signature w = Ret sign (w <| wk_alloc ::= λ a, a <| signatureCounter := c |> |>).
Proof. by eexists _, _. Qed.


(** ** A request on its own *)
Lemma SerializedDataAppend_spec src bs d :
  sd_ok d → sd_managed d = true → never_null → (31 ≤ fuel)%nat → valid_bytes src = Some bs → sd_size src = Z.of_nat (length bs) →
  bs ≠ [] → Forall is_byte bs → (4 | Z.of_nat (length bs)) → sd_size d + Z.of_nat (length bs) ≤ 2 ^ 31 →
  returns (SerializedDataAppend fuel src d) (λ ok d', ok = true ∧ extended d bs d').
Proof.
  intros Hd Hm [Hna Hnr] Hf Hv Hs Hne Hby Hdiv Hsz. assert (0 < Z.of_nat (length bs)) as Hpos by (destruct bs; [done|cbn; lia]).
  pose proof (ok_size d Hd). unfold SerializedDataAppend. mstep. rewrite Hs.
  assert (u32 (sd_size d + Z.of_nat (length bs)) = sd_size d + Z.of_nat (length bs)) as Hu by (apply Z.mod_small; lia). rewrite Hu.
  pose proof (Enlarge_spec fuel _ d Hd Hsz Hf) as He. destruct (SerializedDataEnlarge fuel _ d) as [ok d'|?| |] eqn:E; [|done..].
  rewrite (bind_ret _ _ _ _ _ E). destruct He as (Hsz' & Hm' & He). destruct ok; cbn [negb].
  2: { destruct He as [_ [?|(n & H0 & Hn)]]; [congruence|]. exfalso. destruct (sd_buffer d); [by eapply Hnr|by eapply Hna]. }
  destruct He as (Hd' & Hcap & Hcon). mstep. rewrite Hv.
  destruct (room d' (Z.of_nat (length bs)) Hd') as (b & mid & post & Hb & Hsplit & Hlen & Hbb); [lia..|]. rewrite Hb.
  assert (write b (sd_size d') bs = Some (content d' ++ bs ++ post)) as Hwr by (apply (write_eq b _ _ _ mid); [done|by rewrite content_length|lia]).
  destruct bs as [|b0 bs0]; [done|]. set (bs := b0 :: bs0) in *. rewrite Hwr. mstep. rewrite Hsz', Hu. split; [done|].
  pose proof Hd' as [Hb' _ _ _]. rewrite Hb in Hb'. destruct Hb' as [Hlb _]. rewrite Hsplit, !Forall_app in Hbb. destruct Hbb as (Hb1 & _ & Hb2).
  destruct (extend_ok d' (content d' ++ bs ++ post) bs post) as (H1 & H2 & H3); [done|done| |by rewrite !Forall_app|done|].
  { rewrite <-Hlb, Hsplit, !length_app. lia. }
  rewrite Hsz' in H1, H3. split_and!; [exact H1|by rewrite <-Hm'|by rewrite <-Hcon].
Qed.

Lemma valid_content d bs : sd_ok d → content d = bs → valid_bytes d = Some bs.
Proof.
  intros Hd <-. pose proof Hd as [Hb Hsz _ _]. unfold content, valid_bytes. destruct (sd_buffer d) as [b|]; cbn in *.
  - by rewrite decide_True by lia.
  - by rewrite decide_True, take_nil by lia.
Qed.

Lemma same_types_replicate t n : same_types t (replicate n t) = n.
Proof. induction n as [|n IH]; [done|]. cbn. by rewrite decide_True, IH. Qed.

Lemma execute_all_one st res (w w' : Worker W) : execute st w = Ret res w' → execute_all [st] w = Ret [res] w'.
Proof. intros H. cbn [execute_all]. rewrite (bind_ret _ _ _ _ _ H). by destruct res as [|[|? ?]]. Qed.

Lemma execute_call type count shift sign r (w w' : Worker W) :
  cuckoo_meta_call_by_serialized_shmem_internal type count shift sign w = Ret r w' →
  execute_all [Call type count shift sign] w =
    Ret [match r with inl v => Tuples 1 [[pretty v]] | inr text => NoTuples (PQresultErrorMessage text) end] w'.
Proof. intros H. apply execute_all_one. cbn [execute]. by rewrite (bind_ret _ _ _ _ _ H). Qed.

(** Requests of one service make one command. *)
Lemma make_commands_one type reqs d r (w : Worker W) : type ≠ PLAIN_COMMAND_TYPE → reqs ≠ [] → whole reqs →
  sd_buffer d = Some (wire reqs) → sd_size d = Z.of_nat (length (wire reqs)) → sd_size d < SD_INVALID →
  ∃ sign c, make_commands little (length reqs) (replicate (length reqs) type) d r 0 w =
    Ret [mkCommand (Call type (Z.of_nat (length reqs)) r sign) false sign] (w <| wk_alloc ::= λ a, a <| signatureCounter := c |> |>).
Proof.
  intros Ht Hne Hw Hb Hs Hi. destruct (unique_signature_run w) as (sign & c & Hus). exists sign, c.
  pose proof (NextSize_in little d [] reqs []) as Hn. rewrite app_nil_r in Hn.
  specialize (Hn Hb Hw ltac:(by exists 0) ltac:(cbn; lia) ltac:(unfold SD_INVALID in Hi; lia)). change (Z.of_nat (length (@nil Z))) with 0 in Hn.
  destruct reqs as [|req reqs]; [done|]. cbn [length replicate make_commands]. unfold group_size. rewrite decide_False, same_types_replicate by done.
  change (u32 0) with 0. change (length (req :: reqs)) with (S (length reqs)) in Hn. rewrite Hn. rewrite decide_False by done. rewrite bind_assoc, (bind_ret _ _ _ _ _ Hus). mstep.
  replace (drop (S (length reqs) - 1) (replicate (length reqs) type)) with (@nil Z)
    by (symmetry; apply drop_ge; rewrite length_replicate; lia).
  rewrite Z.add_0_r. by destruct (length reqs).
Qed.

(** The answer to a request on its own that failed. *)
Definition failed_alone (c : CuckooErrorCode) (reply : list Z) : Prop := ∃ bs, padded (fb_error (code c)) bs ∧ reply = frame bs.

Definition empty_reply (h : heap) : SerializedData := mkSD None 0 0 true h.
Lemma empty_reply_ok h : sd_ok (empty_reply h).
Proof. split; cbn; [done|lia|by exists 0|lia]. Qed.

Lemma failed_alone_run h cmd c msg r a (w : Worker W) :
  never_null → (31 ≤ fuel)%nat → errors_fit → reported c → CuckooShmemAllocatorFree r (wk_alloc w) = Some a →
  returns (finish_single little fuel h r [cmd] [NoTuples (PQresultErrorMessage (elog_text c msg))] w)
    (λ reply w', failed_alone c reply ∧ w' = w <| wk_alloc := a |>).
Proof.
  intros Hn Hf Hfit Hc HF. unfold finish_single. rewrite (bind_ret _ _ _ _ _ (free_run _ _ _ HF)). cbn [length]. rewrite decide_False by lia.
  cbn [zip zip_with add_replies add_reply]. mstep. rewrite (bind_ret _ _ _ _ _ (result_code_run c msg _ Hc)). unfold with_data. mstep.
  assert (sd_size (empty_reply h) + 4 + pad4 (Z.of_nat (length (fb_error (code c)))) ≤ 2 ^ 31) as Hsz by (specialize (Hfit (code c)); cbn [sd_size empty_reply]; lia).
  pose proof (put_item_spec little fuel _ (empty_reply h) (empty_reply_ok h) eq_refl Hn Hf (fb_error_bytes (code c)) Hsz) as Hp.
  fold (empty_reply h). destruct (put_item little fuel _ (empty_reply h)) as [u d|?| |] eqn:E; [|done..].
  match goal with |- returns ((?m ≫= _) ?x) _ => assert (m x = Ret (u, d) x) as Em by done; rewrite (bind_ret _ _ _ _ _ Em) end.
  destruct Hp as (bs & Hpad & Hd & _ & Hcon). mstep. rewrite (valid_content d (frame bs) Hd Hcon). split; [by exists bs|done].
Qed.

Lemma served_alone_run h cmd rs r r' hd a3 a4 a5 (w : Worker W) :
  never_null → (31 ≤ fuel)%nat → whole rs → rs ≠ [] → Forall is_byte (wire rs) → Z.of_nat (length (wire rs)) ≤ 2 ^ 31 → 0 < r' < 2 ^ 63 →
  isPlainCommand cmd = false → hdr_signature hd = cmd_signature cmd → hdr_size hd = Z.of_nat (length (wire rs)) →
  wk_alloc w = a3 → CuckooShmemAllocatorFree r a3 = Some a4 → headers a4 !! (r' - sizeof_MemoryHdr) = Some hd →
  mem_read (wk_memory w) r' (Z.of_nat (length (wire rs))) = wire rs → CuckooShmemAllocatorFree r' a4 = Some a5 →
  finish_single little fuel h r [cmd] [Tuples 1 [[pretty r']]] w = Ret (wire rs) (w <| wk_alloc := a5 |>).
Proof.
  intros Hn Hf Hw Hne Hby Hsz Hr' Hpl Hsig Hhs <- HF Hh Hread HF'. unfold finish_single. rewrite (bind_ret _ _ _ _ _ (free_run _ _ _ HF)).
  cbn [length]. rewrite decide_False by lia. cbn [zip zip_with add_replies add_reply]. rewrite Hpl, (shift_value r') by done. mstep.
  match goal with |- (block_header _ ≫= _) ?x = _ => set (w1 := x) end.
  assert (block_header r' w1 = Ret hd w1) as Eh by (unfold block_header; mstep; change (wk_alloc w1) with a4; by rewrite Hh).
  rewrite (bind_ret _ _ _ _ _ Eh), Hsig, decide_False by tauto. mstep. change (wk_memory w1) with (wk_memory w). rewrite Hhs, Hread.
  assert (u32 (Z.of_nat (length (wire rs))) = Z.of_nat (length (wire rs))) as -> by (apply Z.mod_small; lia).
  pose proof (wire_divide rs Hw) as Hdiv.
  cbn [SerializedDataInit]. rewrite decide_False by (intros [H|H]; revert H; by apply divide_land). mstep.
  match goal with |- (with_data (SerializedDataAppend _ ?x) _ ≫= _) _ = _ => set (src := x) end.
  assert (wire rs ≠ []) as Hwne by (destruct rs as [|x rs]; [done|]; rewrite wire_cons; intros He; apply (f_equal length) in He;
    rewrite length_app in He; pose proof (frame_length x); cbn in He; lia).
  assert (valid_bytes src = Some (wire rs)) as Hv by (cbn; rewrite decide_True by lia; by rewrite Nat2Z.id, firstn_all).
  pose proof (SerializedDataAppend_spec src (wire rs) (empty_reply h) (empty_reply_ok h) eq_refl Hn Hf Hv eq_refl Hwne Hby Hdiv ltac:(cbn [sd_size empty_reply]; lia)) as Ha.
  fold (empty_reply h). destruct (SerializedDataAppend fuel src (empty_reply h)) as [u d|?| |] eqn:E; [|done..].
  assert (with_data (SerializedDataAppend fuel src) (empty_reply h) w1 = Ret (u, d) w1) as Em by (unfold with_data; by rewrite E).
  rewrite (bind_ret _ _ _ _ _ Em). mstep. rewrite (bind_ret _ _ _ _ _ (free_run r' w1 a5 HF')). mstep.
  destruct Ha as (_ & Hd & _ & Hcon). by rewrite (valid_content d (wire rs) Hd Hcon).
Qed.

Lemma with_hdr_id r h a : headers a !! (r - sizeof_MemoryHdr) = Some h → with_hdr r h a = a.
Proof. intros Hh. destruct a as [pc sc hi ar hs]. cbn [headers] in Hh.
  change (mkAllocator pc sc hi ar (<[r - sizeof_MemoryHdr := h]> hs) = mkAllocator pc sc hi ar hs). by rewrite insert_id. Qed.

(** The counter of signatures is of no account. *)
Lemma handed_out_counter size a r level a1 c : handed_out size a r level a1 → handed_out size a r level (a1 <| signatureCounter := c |>).
Proof.
  intros (Hr & Hl & p & f & w & H1 & H2 & H3 & H4 & H5 & H6 & [? ? ? ?]). split; [done|split; [done|]].
  exists p, f, w. split_and!; [done..|by split].
Qed.

(** What a client sends on its own: requests of one service, and not plain commands. *)
Record alone_ok (type : Z) (reqs : list (list Z)) (job : Job) : Prop := {
  al_types : job_types job = replicate (length reqs) type;
  al_some : reqs ≠ [];
  al_service : type ≠ PLAIN_COMMAND_TYPE;
  al_message : job_attachment job = wire reqs;
  al_whole : whole reqs;
  al_size : Z.of_nat (length (wire reqs)) < SD_INVALID }.

Lemma alone_counts type reqs job : alone_ok type reqs job → sum_list (counts [job]) = length reqs ∧ attachments [job] = wire reqs.
Proof. intros [Ht _ _ Hm _ _]. unfold counts, attachments. cbn. by rewrite Ht, length_replicate, Hm, app_nil_r, Nat.add_0_r. Qed.

Lemma served_single type reqs job response v size a r level a1 sign h (w : Worker W) :
  worker_ok w → never_null → (31 ≤ fuel)%nat → errors_fit → alone_ok type reqs job → response_ok [job] response →
  match response with inl rs => Forall is_byte (wire rs) ∧ Z.of_nat (length (wire rs)) ≤ 2 ^ 31 | inr _ => True end →
  allocator_ok a → handed_out size a r level a1 → wk_alloc w = a1 →
  serves [job] type (wk_session w) response v → (∀ i x, attachments [job] !! i = Some x → wk_memory w (r + Z.of_nat i) = x) →
  returns ((results ← execute_all [Call type (Z.of_nat (length reqs)) r sign];
            finish_single little fuel h r [mkCommand (Call type (Z.of_nat (length reqs)) r sign) false sign] results) w)
    (λ reply w', worker_ok w' ∧ wk_session w' = v ∧ pageCntlArray (wk_alloc w') = pageCntlArray a ∧
       match response with
       | inl rs => reply = wire rs ∨ failed_alone PROGRAM_ERROR reply ∧ no_room (Z.of_nat (length (wire rs))) a1
       | inr (c, _) => failed_alone c reply
       end).
Proof.
  intros [Ha Hb Hm] Hn Hf Hfit Hjob Hresp Hrb Ha0 Hout Hw Hserve Hmem. pose proof Hout as (_ & Hl & Hall). pose proof (handed_out_header _ _ _ _ _ Hout) as Hh.
  destruct (handed_out_below _ _ _ _ _ Ha0 Hout) as [Hbelow _]. destruct (alone_counts _ _ _ Hjob) as [Hcnt _].
  pose proof (Hserve _ Hmem) as Hmp. rewrite Hcnt in Hmp.
  pose proof (call_run type (Z.of_nat (length reqs)) r sign w _ v Ha ltac:(by rewrite Hw) Hmp) as Hcall.
  rewrite <-(with_hdr_id _ _ _ Hh) in Hw. set (h1 := mkHdr 0 size (capacity_of level)) in *.
  destruct (block_restored _ _ _ _ _ h1 Ha0 Hl Hall eq_refl) as (a2 & HF & Ha2 & Hp2). rewrite <-Hw in HF.
  set (cmd := mkCommand _ _ _).
  assert (∀ c msg, reported c → 
    returns (finish_single little fuel h r [cmd] [NoTuples (PQresultErrorMessage (elog_text c msg))] (w <| wk_session := v |>))
      (λ reply w', failed_alone c reply ∧ worker_ok w' ∧ wk_session w' = v ∧ pageCntlArray (wk_alloc w') = pageCntlArray a)) as Hfail.
  { intros c msg Hc. eapply returns_mono; [apply (failed_alone_run h cmd c msg r a2 (w <| wk_session := v |>)); done|].
    intros reply w' [Hfl ->]. split; [done|]. split; [by split|done]. }
  destruct response as [rs|[c msg]].
  - destruct Hcall as [[Hno Hrun]|(r' & level' & a3 & m & Hout' & Hread & Hrun)];
      rewrite (bind_ret _ _ _ _ _ (execute_call _ _ _ _ _ _ _ Hrun)).
    { eapply returns_mono; [apply Hfail; done|]. intros reply w' (Hfl & Hok & Hs & Hp). split_and!; [done..|].
      right. split; [done|]. by rewrite Hw in Hno. }
    pose proof Hout' as (Hr' & Hl' & Hall'). rewrite Hw in Hall'. destruct Hresp as (Hwh & Hlen & Hinv). destruct Hrb as [Hby H31].
    set (h' := mkHdr sign (Z.of_nat (length (wire rs))) (capacity_of level')) in *.
    destruct (blocks_restored _ _ _ _ _ h1 _ _ _ _ h' Ha0 Hl Hall eq_refl Hl' Hall' eq_refl) as (a4 & HF1 & Hh4 & a5 & HF2 & Ha5 & Hp5).
    destruct (handed_out_below _ _ _ _ _ Ha Hout') as [_ H63]. assert (rs ≠ []) as Hrs by (intros ->; destruct reqs; [by destruct Hjob|]; cbn in *; lia).
    match goal with |- returns (finish_single _ _ _ _ _ _ ?x) _ => set (w2 := x) end.
    rewrite (served_alone_run h cmd rs r r' h' (with_hdr r' h' a3) a4 a5 w2 Hn Hf Hwh Hrs Hby H31 ltac:(lia) eq_refl eq_refl eq_refl eq_refl HF1 Hh4 Hread HF2).
    cbn. split_and!; [by split|done|done|by left].
  - rewrite (bind_ret _ _ _ _ _ (execute_call _ _ _ _ _ _ _ Hcall)).
    eapply returns_mono; [by apply Hfail|]. intros reply w' (Hfl & Hok & Hs & Hp). done.
Qed.

(** A request that is executed on its own gets what the server answers, or the
    code of the error it raises; and both blocks of shared memory are given back.  When
    there is no room for the response the answer is PROGRAM_ERROR; the process ends only
    when there is no room for the parameters. *)
Theorem exec_single_answers type reqs job response v h (w : Worker W) :
  worker_ok w → connected (wk_session w) = true → never_null → (31 ≤ fuel)%nat → errors_fit → alone_ok type reqs job →
  serves [job] type (wk_session w) response v → response_ok [job] response →
  match response with inl rs => Forall is_byte (wire rs) ∧ Z.of_nat (length (wire rs)) ≤ 2 ^ 31 | inr _ => True end →
  let size := Z.of_nat (length (wire reqs)) in
  outcome_ok (exec_single little fuel h job w)
    (λ reply w', worker_ok w' ∧ wk_session w' = v ∧ pageCntlArray (wk_alloc w') = pageCntlArray (wk_alloc w) ∧
       match response with
       | inl rs => reply = wire rs ∨
           failed_alone PROGRAM_ERROR reply ∧
           ∃ r level a, handed_out size (wk_alloc w) r level a ∧ no_room (Z.of_nat (length (wire rs))) a
       | inr (c, _) => failed_alone c reply
       end)
    (λ _ w', no_room size (wk_alloc w) ∧ pageCntlArray (wk_alloc w') = pageCntlArray (wk_alloc w)) False.
Proof.
  intros Hw0 Hconn Hn Hf Hfit Hjob Hserve Hresp Hrb size. pose proof Hw0 as [Ha Hb Hm]. pose proof Hjob as [Ht Hne Hpl Hatt Hwh Hsz].
  unfold exec_single. rewrite Hatt, Ht, length_replicate. fold size.
  destruct (malloc_run size w Ha ltac:(lia)) as [[Hmal Hno]|(r & level & a1 & Hout & Hmal)]; rewrite (bind_ret _ _ _ _ _ Hmal).
  { rewrite decide_True by done. by split. }
  rewrite decide_False by (destruct Hout; lia). unfold shm_write. mstep.
  assert (u32 size = size) as -> by (apply Z.mod_small; unfold SD_INVALID in Hsz; lia). cbn [SerializedDataInit].
  rewrite decide_False by (intros [H|H]; revert H; by apply divide_land, wire_divide).
  match goal with |- outcome_ok ((make_commands _ _ _ ?x _ _ ≫= _) ?y) _ _ _ => set (d := x); set (w1 := y) end.
  destruct (make_commands_one type reqs d r w1 Hpl Hne Hwh eq_refl eq_refl Hsz) as (sign & c & Hmk). rewrite (bind_ret _ _ _ _ _ Hmk). mstep.
  match goal with |- outcome_ok (((if connected (wk_session ?x) then _ else _) ≫= _) _) _ _ _ => set (w2 := x) end.
  change (wk_session w2) with (wk_session w). rewrite Hconn. cbn [fmap list_fmap cmd_statement].
  pose proof (handed_out_counter _ _ _ _ _ c Hout) as Hout'. destruct (alone_counts _ _ _ Hjob) as [_ Hatts].
  eapply returns_outcome.
  - eapply (served_single type reqs job response v size (wk_alloc w) r level (a1 <| signatureCounter := c |>) sign h w2); try done.
    + split; [apply (allocated_ok _ _ _ _ _ (proj2 (proj2 Hout')))|done..].
    + rewrite Hatts. intros i x Hi. change (mem_write (wk_memory w) r (wire reqs) (r + Z.of_nat i) = x). unfold mem_write.
      rewrite decide_True by lia. replace (Z.to_nat (r + Z.of_nat i - r)) with i by lia. by rewrite Hi.
  - intros reply w' (Hok & Hs & Hp & Hcase). split_and!; [done..|]. destruct response as [rs|[e msg]]; [|done].
    destruct Hcase as [->|[Hfl Hno]]; [by left|right]. split; [done|]. by exists r, level, (a1 <| signatureCounter := c |>).
Qed.
End batch.

(** ** An instance *)
Module PgWitness.
Import SerializedWitness ShmemWitness CodecWitness.

#[export] Program Instance plain_responses : ResponseBuilder := {|
  fb_error c := Z_to_little_endian 4 8 c;
  fb_plain row col data := Z_to_little_endian 4 8 row ++ Z_to_little_endian 4 8 col |}.
Next Obligation. intros. apply le4_bytes. Qed.
Next Obligation. intros. apply Forall_app. split; apply le4_bytes. Qed.

(** A server that answers with the four bytes of each request, but does not do
    directories; it counts its calls. *)
#[export] Instance echo : Backend nat := {|
  MetaProcess service count m calls :=
    (if decide (service = RemoteComm.RMDIR) then inr (elog_text ARGUMENT_ERROR "no directories")
     else inl (wire ((λ k, m <$> seq (8 * k + 4) 4) <$> seq 0 (Z.to_nat count))), S calls);
  plain_command c calls := (inl (Some (1%nat, [[c]])), calls);
  connected _ := true |}.

Definition w0 : Worker (MM := zero_memory) nat := mkWorker (MM := zero_memory) a0 (λ _, 0) d0 O.

Definition first : Job := mkJob [4; 4] (wire [[1; 2; 3; 4]; [5; 6; 7; 8]]).
Definition second : Job := mkJob [4] (wire [[9; 9; 9; 9]]).

Example batch_replies :
  match exec_batch true 31 [first; second] w0 with Ret replies w => Some (replies, pageCntlArray (wk_alloc w)) | _ => None end =
  Some ([[4; 0; 0; 0; 1; 2; 3; 4; 4; 0; 0; 0; 5; 6; 7; 8]; [4; 0; 0; 0; 9; 9; 9; 9]], [0; 0]).
Proof. vm_compute. reflexivity. Qed.

Lemma w0_ok : worker_ok w0.
Proof. split; [exact a0_ok|exact d0_ok|done]. Qed.

Lemma first_served : serves [first; second] 4 O (inl [[1; 2; 3; 4]; [5; 6; 7; 8]; [9; 9; 9; 9]]) 1%nat.
Proof.
  intros m Hm. change (sum_list (counts [first; second])) with 3%nat. cbn [MetaProcess echo]. rewrite decide_False by done.
  change (Z.to_nat (Z.of_nat 3)) with 3%nat. cbn [seq fmap list_fmap Nat.mul Nat.add].
  rewrite (Hm 4%nat 1), (Hm 5%nat 2), (Hm 6%nat 3), (Hm 7%nat 4), (Hm 12%nat 5), (Hm 13%nat 6), (Hm 14%nat 7), (Hm 15%nat 8),
    (Hm 20%nat 9), (Hm 21%nat 9), (Hm 22%nat 9), (Hm 23%nat 9) by (vm_compute; reflexivity).
  reflexivity.
Qed.


(** The removal of a directory, which fails. *)
Definition removal : Job := mkJob [11] (wire [[7; 7; 7; 7]]).

Example removal_reply :
  match exec_single true 31 () removal w0 with Ret reply w => Some (reply, pageCntlArray (wk_alloc w)) | _ => None end =
  Some ([4; 0; 0; 0; 11; 0; 0; 0], [0; 0]).
Proof. vm_compute. reflexivity. Qed.

Lemma exec_single_answers_witness :
  outcome_ok (exec_single true 31 () removal w0)
    (λ reply w', worker_ok w' ∧ wk_session w' = 1%nat ∧ pageCntlArray (wk_alloc w') = [0; 0] ∧ failed_alone ARGUMENT_ERROR reply)
    (λ _ w', no_room 8 a0 ∧ pageCntlArray (wk_alloc w') = [0; 0]) False.
Proof.
  apply (exec_single_answers (MM := zero_memory) true 31 11 [[7; 7; 7; 7]] removal (inr (ARGUMENT_ERROR, "no directories"%string)) 1%nat () w0).
  - exact w0_ok.
  - done.
  - apply zero_never_null.
  - done.
  - intros c. unfold fb_error, plain_responses. rewrite le4_length. vm_compute. discriminate.
  - split; [done|done|done|done|apply Forall_singleton; by exists 1|by vm_compute].
  - by intros m _.
  - by split.
  - done.
Defined.

(** With 4 GiB of pages the product of their number and size is 0, and every
    call is refused. *)
Definition w_large : Worker (MM := zero_memory) nat :=
  mkWorker (MM := zero_memory) (mkAllocator 4096 0 (replicate 7 0) (replicate 4096 0) ∅) (λ _, 0) d0 O.
Example refused_above_4GiB :
  match exec_batch true 31 [second] w_large with Ret replies w => Some (replies, wk_session w) | _ => None end =
  Some ([[4; 0; 0; 0; code ARGUMENT_ERROR; 0; 0; 0]], 0%nat).
Proof. vm_compute. reflexivity. Qed.
End PgWitness.
