(* ===== verification/ObsStorage.v ===== *)
(** * Object storage (cuckoo_store/src/storage/obs_storage.cpp)

    The class [OBSStorage] that the store keeps its objects with.  The SDK of the
    object storage calls back into the code: it hands over the pieces of an object
    it receives, asks for the bytes of one it sends, and reports a status at the
    end.  The SDK and the service behind it are an interface ([ObsSdk]); the
    callbacks, the retries and the operations are the code's. *)

From stdpp Require Import pretty.
From S2P Require Import Prelude Decimal Posix IOClient.
Local Open Scope string_scope.
Local Open Scope Z_scope.

(** The statuses the code tests or returns. *)
Inductive obs_status :=
  | OBS_STATUS_OK | OBS_STATUS_NameLookupError | OBS_STATUS_FailedToConnect | OBS_STATUS_ConnectionFailed
  | OBS_STATUS_InternalError | OBS_STATUS_AbortedByCallback | OBS_STATUS_RequestTimeout | OBS_STATUS_PartialFile
  | OBS_STATUS_NoToken | OBS_STATUS_HttpErrorForbidden | OBS_STATUS_OutOfMemory | OBS_STATUS_BUTT
  | OBS_STATUS_other (number : Z).
#[global] Instance obs_status_eq_dec : EqDecision obs_status.
Proof. solve_decision. Defined.

Definition RETRY_NUM : nat := 10.
Definition UPLOAD_SLICE_SIZE : Z := 512 * 1024 * 1024.

Record OBSStorage := mkOBS {
  isInit : bool; hostName : string; bucketName : string; accessKey : string; secretAccessKey : string; isHttps : bool }.
#[global] Instance eta_OBSStorage : Eta OBSStorage := λ s,
  mkOBS (isInit s) (hostName s) (bucketName s) (accessKey s) (secretAccessKey s) (isHttps s).

Record obs_options := mkOptions { o_host : string; o_bucket : string; o_access : string; o_secret : string; o_https : bool }.

(** The SDK.  [get_object]: the pieces it has for the data callback, in order, and
    the status it completes with when they have all been taken.  [put_object]: the
    sizes of the buffers it asks to be filled, and what becomes of the bytes it got.
    [upload_file]: the statuses of the parts of a file and of the whole. *)
Class ObsSdk (U : Type) := {
  obs_initialize : U → Z * U;
  set_online_request_max_count : Z → U → Z * U;
  obs_deinitialize : U → U;
  obs_head_bucket : obs_options → U → obs_status * U;
  get_object : obs_options → string → Z → Z → U → list (list Z) * obs_status * U;
  (** when a callback returned another status than OK *)
  get_object_aborted : obs_status;
  put_object_asks : obs_options → string → Z → U → list Z;
  put_object : obs_options → string → Z → list Z → U → obs_status * U;
  upload_file : obs_options → string → option (list Z) → U → list obs_status * obs_status * U;
  (** with the message of the error, if there is one *)
  delete_object : obs_options → string → U → obs_status * option string * U;
  copy_object : obs_options → string → string → U → obs_status * U;
  (** capacity and number of objects *)
  get_bucket_storage_info : obs_options → U → obs_status * string * string * U;
  (** the quota, when it was set *)
  get_bucket_quota : obs_options → U → obs_status * option Z * U;
  (** the numbers of the statuses *)
  status_number : obs_status → Z }.

(** What the code uses of files by name: stat(2) and the bytes that fopen and
    fread give. *)
Class Stdio (F : Type) := { stat_size : string → F → option Z; fopen_rb : string → F → option (list Z) }.

(** ** Retries *)
Definition IsNeedRetry (status : obs_status) : bool :=
  match status with
  | OBS_STATUS_NameLookupError | OBS_STATUS_FailedToConnect | OBS_STATUS_ConnectionFailed | OBS_STATUS_InternalError
  | OBS_STATUS_AbortedByCallback | OBS_STATUS_RequestTimeout | OBS_STATUS_PartialFile | OBS_STATUS_NoToken
  | OBS_STATUS_HttpErrorForbidden => true
  | _ => false
  end.

(** The loops of DoRetry: [retry] attempts are left.  Sleeping has no effect
    here. *)
Fixpoint with_retries {S A} (retry : nat) (attempt : A → M S (obs_status * A)) (a : A) : M S A :=
  match retry with
  | O => mret a
  | S retry' =>
    '(status, a) ← attempt a;
    if IsNeedRetry status then with_retries retry' attempt a else mret a
  end.

(** ** Callbacks *)
Record GetObjectCallbackType := mkGet {
  get_fd : option Z;
  destBuffer : option (list Z);
  destBuffSize : Z;
  realSize : Z;
  get_offset : Z;
  get_retStatus : obs_status }.
#[global] Instance eta_GetObjectCallbackType : Eta GetObjectCallbackType := λ d,
  mkGet (get_fd d) (destBuffer d) (destBuffSize d) (realSize d) (get_offset d) (get_retStatus d).

(** The file that is sent: what has not been read of it; how much is left to
    send. *)
Record PutFileCallbackType := mkPut { infile : option (list Z); contentLength : Z; put_retStatus : obs_status }.
#[global] Instance eta_PutFileCallbackType : Eta PutFileCallbackType := λ d, mkPut (infile d) (contentLength d) (put_retStatus d).

Record PutBufCallbackType := mkPutBuf { putBuffer : option (list Z); bufferSize : Z; curOffset : Z; buf_retStatus : obs_status }.
#[global] Instance eta_PutBufCallbackType : Eta PutBufCallbackType := λ d, mkPutBuf (putBuffer d) (bufferSize d) (curOffset d) (buf_retStatus d).

(** The bytes put into the buffer, and the callback's data; [None]: without a
    file the number of a status is returned as the number of bytes, and the SDK
    sends what is in its buffer. *)
Definition PutFileCallback (bufferSize : Z) (data : PutFileCallbackType) : option (list Z * PutFileCallbackType) :=
  rest ← infile data;
  let got := if decide (contentLength data ≠ 0)
             then take (Z.to_nat (i32 (if decide (contentLength data > u32 bufferSize) then u32 bufferSize else contentLength data))) rest
             else [] in
  Some (got, data <| infile := Some (drop (length got) rest) |> <| contentLength ::= λ n, u64 (n - Z.of_nat (length got)) |>).

(** [None] also when bytes behind the end of the caller's buffer are read. *)
Definition PutBufCallBack (size : Z) (data : PutBufCallbackType) : option (list Z * PutBufCallbackType) :=
  b ← putBuffer data;
  let toRead := if decide (bufferSize data ≠ 0) then i32 (if decide (bufferSize data > u32 size) then u32 size else bufferSize data) else 0 in
  if decide (curOffset data + toRead ≤ Z.of_nat (length b)) then
    Some (take (Z.to_nat toRead) (drop (Z.to_nat (curOffset data)) b),
          data <| bufferSize ::= λ n, u64 (n - toRead) |> <| curOffset ::= λ n, u64 (n + toRead) |>)
  else None.

(** The bytes that a callback gives for the buffers it is asked to fill. *)
Fixpoint fill_buffers {D} (callback : Z → D → option (list Z * D)) (asks : list Z) (data : D) : option (list Z * D) :=
  match asks with
  | [] => Some ([], data)
  | n :: asks' =>
    '(bs, data) ← callback n data;
    '(rest, data) ← fill_buffers callback asks' data;
    Some ((bs ++ rest)%list, data)
  end.

Definition ResponseCompleteCallbackForMultiTask (status retStatus : obs_status) : obs_status :=
  if decide (retStatus = OBS_STATUS_OK ∨ retStatus = OBS_STATUS_BUTT) then status else retStatus.

Definition UploadFileResultCallback (status retStatus : obs_status) : obs_status := status.

Section operations.
Context {U F : Type} `{!ObsSdk U} `{!Posix F} `{!Stdio F}.
Local Abbreviation OM := (M (U * F)).

Definition on_sdk {A} (f : U → A * U) : OM A := λ s, let '(a, u) := f s.1 in Ret a (u, s.2).
Definition on_files {A} (f : F → A * F) : OM A := λ s, let '(a, g) := f s.2 in Ret a (s.1, g).
Definition look_at_files {A} (f : F → A) : OM A := λ s, Ret (f s.2) s.

(** memcpy_s: whether it succeeds, and the buffer; without room it clears what it
    was told there is. *)
Definition memcpy_s (b : list Z) (offset destMax : Z) (bs : list Z) : bool * list Z :=
  if decide (destMax <= 0) then (false, b)
  else if decide (Z.of_nat (length bs) > destMax) then (false, file_write b offset (replicate (Z.to_nat destMax) 0))
  else (true, file_write b offset bs).

Definition GetObjectDataCallback (buffer : list Z) (data : GetObjectCallbackType) : OM (obs_status * GetObjectCallbackType) :=
  let bufferSize := Z.of_nat (length buffer) in
  let data := data <| realSize ::= λ n, i32 (n + bufferSize) |> in
  let '(ok, data) := match destBuffer data with
    | None => (true, data)
    | Some b => let '(ok, b) := memcpy_s b (get_offset data) (destBuffSize data - get_offset data) buffer in
                (ok, data <| destBuffer := Some b |>)
    end in
  if negb ok then mret (OBS_STATUS_AbortedByCallback, data)
  else
    n ← match get_fd data with
        | None => mret 0
        | Some fd => on_files (posix_pwrite fd buffer (get_offset data))
        end;
    if decide (n = -1) then mret (OBS_STATUS_AbortedByCallback, data)
    else mret (OBS_STATUS_OK, data <| get_offset ::= Z.add bufferSize |>).

(** The SDK hands the pieces over until one is refused. *)
Fixpoint deliver (pieces : list (list Z)) (data : GetObjectCallbackType) : OM (bool * GetObjectCallbackType) :=
  match pieces with
  | [] => mret (true, data)
  | piece :: pieces' =>
    '(status, data) ← GetObjectDataCallback piece data;
    if decide (status = OBS_STATUS_OK) then deliver pieces' data else mret (false, data)
  end.

Definition InitObsOptions (st : OBSStorage) : obs_options :=
  mkOptions (hostName st) (bucketName st) (accessKey st) (secretAccessKey st) (isHttps st).

(** ** Operations *)

(** One turn of the loop of ReadObject. *)
Definition get_attempt (st : OBSStorage) (objectKey : string) (offset size : Z) (a : GetObjectCallbackType * Z)
    : OM (obs_status * (GetObjectCallbackType * Z)) :=
  '(pieces, status) ← on_sdk (get_object (InitObsOptions st) objectKey offset size);
  '(taken, data) ← deliver pieces a.1;
  let data := data <| get_retStatus := if (taken : bool) then status else get_object_aborted |> in
  let ret := if decide (get_retStatus data = OBS_STATUS_OK) then realSize data else -1 in
  mret (get_retStatus data, (data, ret)).

(** The result and the bytes in the buffer. *)
Definition ReadObject (st : OBSStorage) (objectKey : string) (offset size : Z) (fd : option Z) (toBuffer : bool) : OM (Z * option (list Z)) :=
  let data := mkGet fd (if toBuffer then Some [] else None) size 0 0 OBS_STATUS_BUTT in
  '(data, ret) ← with_retries RETRY_NUM (get_attempt st objectKey offset size) (data, 0);
  mret (ret, destBuffer data).

Definition OpenFileGetLength (localFile : string) : OM Z := n ← look_at_files (stat_size localFile); mret (default 0 n).

(** One turn of the loop of ObsPutObject. *)
Definition put_attempt (st : OBSStorage) (objectKey : string) (contentLen : Z) (data : PutFileCallbackType)
    : OM (obs_status * PutFileCallbackType) :=
  asks ← (λ s, Ret (put_object_asks (InitObsOptions st) objectKey contentLen s.1) s);
  match fill_buffers PutFileCallback asks data with
  | None => mundefined
  | Some (bs, data) =>
    status ← on_sdk (put_object (InitObsOptions st) objectKey contentLen bs);
    mret (status, data <| put_retStatus := status |>)
  end.

Definition ObsPutObject (st : OBSStorage) (objectKey filePath : string) (contentLen : Z) : OM obs_status :=
  file ← look_at_files (fopen_rb filePath);
  data ← with_retries RETRY_NUM (put_attempt st objectKey contentLen) (mkPut file contentLen OBS_STATUS_OK);
  mret (put_retStatus data).

(** One turn of the loop of ObsUploadFile. *)
Definition upload_attempt (st : OBSStorage) (objectKey filePath : string) (retStatus : obs_status) : OM (obs_status * obs_status) :=
  file ← look_at_files (fopen_rb filePath);
  '(parts, result) ← on_sdk (upload_file (InitObsOptions st) objectKey file);
  let retStatus := foldl (λ ret status, ResponseCompleteCallbackForMultiTask status ret) retStatus parts in
  let retStatus := UploadFileResultCallback result retStatus in
  mret (retStatus, retStatus).

Definition ObsUploadFile (st : OBSStorage) (objectKey filePath : string) : OM obs_status :=
  with_retries RETRY_NUM (upload_attempt st objectKey filePath) OBS_STATUS_BUTT.

Definition PutFile (st : OBSStorage) (objectKey filePath : string) : OM Z :=
  contentLen ← OpenFileGetLength filePath;
  retStatus ← (if decide (contentLen < UPLOAD_SLICE_SIZE) then ObsPutObject st objectKey filePath contentLen
               else ObsUploadFile st objectKey filePath);
  mret (status_number retStatus).

Definition PutBuffer (st : OBSStorage) (objectKey : string) (buf : option (list Z)) (size offset : Z) : OM Z :=
  let contentLen := match buf with Some _ => size | None => 0 end in
  let data := match buf with Some _ => mkPutBuf buf contentLen offset OBS_STATUS_OK | None => mkPutBuf None 0 0 OBS_STATUS_OK end in
  asks ← (λ s, Ret (put_object_asks (InitObsOptions st) objectKey contentLen s.1) s);
  match fill_buffers PutBufCallBack asks data with
  | None => mundefined
  | Some (bs, _) =>
    status ← on_sdk (put_object (InitObsOptions st) objectKey contentLen bs);
    mret (if decide (status = OBS_STATUS_OK) then i32 contentLen else -1)
  end.

(** The message of the error is printed, also when there is none. *)
Definition DeleteObject (st : OBSStorage) (objectKey : string) : OM Z :=
  '(status, error) ← on_sdk (delete_object (InitObsOptions st) objectKey);
  if decide (status = OBS_STATUS_OK) then mret 0
  else match error with None => mundefined | Some _ => mret (-1) end.

Definition CopyObject (st : OBSStorage) (fromPath toPath : string) : OM Z :=
  status ← on_sdk (copy_object (InitObsOptions st) fromPath toPath);
  mret (if decide (status = OBS_STATUS_OK) then 0 else -1).

Definition find_slash (s : string) : option nat := String.index 0 "/" s.
Definition findBucket (fullName : string) : string :=
  match find_slash fullName with Some pos => String.substring 0 pos fullName | None => fullName end.

Definition bucket_options (st : OBSStorage) : obs_options :=
  mkOptions (hostName st) (findBucket (bucketName st)) (accessKey st) (secretAccessKey st) (isHttps st).

Definition info_attempt (st : OBSStorage) (_ : obs_status * string * string) : OM (obs_status * (obs_status * string * string)) :=
  '(status, capacity, obj_num) ← on_sdk (get_bucket_storage_info (bucket_options st));
  mret (status, (status, capacity, obj_num)).

(** The number of objects and the capacity, or -1. *)
Definition GetStorageInfo (st : OBSStorage) : OM (option (Z * Z)) :=
  '(status, capacity, obj_num) ← with_retries RETRY_NUM (info_attempt st) (OBS_STATUS_BUTT, "", "");
  mret (if decide (status = OBS_STATUS_OK) then Some (u64 (atoll obj_num), u64 (atoll capacity)) else None).

Definition quota_attempt (st : OBSStorage) (a : obs_status * Z) : OM (obs_status * (obs_status * Z)) :=
  '(status, quota) ← on_sdk (get_bucket_quota (bucket_options st));
  mret (status, (status, default a.2 quota)).

Definition GetQuota (st : OBSStorage) (quota : Z) : OM (option Z) :=
  '(status, quota) ← with_retries RETRY_NUM (quota_attempt st) (OBS_STATUS_BUTT, quota);
  mret (if decide (status = OBS_STATUS_OK) then Some quota else None).

(** The fields of statvfs that depend on the storage. *)
Definition storage_blocks (objNum cap quota : Z) : StatFSBuf :=
  let quota := if decide (quota = 0) then UINT64_MAX else quota in
  let usedBlocks := u64 (cap + 4096 - 1) / 4096 in
  let f_blocks := quota / 4096 in
  let f_bfree := u64 (f_blocks - usedBlocks) in
  mkStatFSBuf f_blocks f_bfree f_bfree objNum (2 ^ 32 - 1).

Definition StatFs (st : OBSStorage) : OM (Z * option StatFSBuf) :=
  info ← GetStorageInfo st;
  match info with
  | None => mret (- EIO, None)
  | Some (objNum, cap) =>
    quota ← GetQuota st 0;
    match quota with
    | None => mret (- EIO, None)
    | Some quota => mret (0, Some (storage_blocks objNum cap quota))
    end
  end.

Definition HeadBucket (st : OBSStorage) : OM Z :=
  status ← on_sdk (obs_head_bucket (InitObsOptions st));
  mret (if decide (status = OBS_STATUS_OK) then 0 else -1).

(** The protocol in front of the host's name. *)
Definition set_host (host : string) (st : OBSStorage) : OBSStorage :=
  match String.index 0 "://" host with
  | None => st <| hostName := host |>
  | Some iPos =>
    st <| isHttps := bool_decide (is_Some (String.index 0 "https" host)) |>
       <| hostName := String.substring (iPos + 3) (String.length host - iPos - 3) host |>
  end.

(** A variable that is not set is a null pointer. *)
Definition Init (getenv : string → option string) (st : OBSStorage) : OM (Z * OBSStorage) :=
  if isInit st then mret (0, st)
  else
    ret ← on_sdk obs_initialize;
    if decide (ret ≠ 0) then mret (ret, st)
    else
      ret ← on_sdk (set_online_request_max_count 1024);
      if decide (ret ≠ 0) then mret (ret, st)
      else
        match getenv "OBS_HOST", getenv "OBS_BUCKET", getenv "OBS_AK", getenv "OBS_SK" with
        | Some host, Some bucket, Some ak, Some sk =>
          let st := set_host host st <| bucketName := bucket |> <| accessKey := ak |> <| secretAccessKey := sk |> in
          if decide (hostName st = "" ∨ bucketName st = "" ∨ accessKey st = "" ∨ secretAccessKey st = "") then mret (-1, st)
          else
            ret ← HeadBucket st;
            if decide (ret ≠ 0) then mret (-1, st)
            else mret (0, st <| isInit := true |>)
        | _, _, _, _ => mundefined
        end.

Definition DeleteInstance (st : OBSStorage) : OM OBSStorage :=
  if isInit st then (λ s, Ret () (obs_deinitialize s.1, s.2)) ;; mret (st <| isInit := false |>) else mret st.
End operations.
