(* ===== verification/ObsSpec.v ===== *)
(** * What the object storage does

    Against a service that keeps objects ([ObsObjects]): an upload that reports
    success has stored the file, and one that does not has stored nothing else; a download
    gives the range of the object it asked for, also when attempts before it failed
    without having received anything.  A retry after a part has arrived does not
    start over, which the examples show. *)

From stdpp Require Import pretty.
From S2P Require Import Prelude Decimal Posix IOClient ObsStorage.
Local Open Scope Z_scope.

(** The range of an object; a length of 0 is the rest of it. *)
Definition object_range (c : list Z) (off n : Z) : list Z := if decide (n = 0) then drop (Z.to_nat off) c else file_read c off n.

(** A service that keeps the objects of a bucket: a put is all or nothing, and
    stores only when it got as many bytes as were announced.  It may have stored
    the object also when the status is an error, for the answer may get lost. *)
Class ObsObjects (U : Type) `{!ObsSdk U} := {
  object : obs_options → U → string → option (list Z);
  get_object_law o key off n u pieces u' : get_object o key off n u = (pieces, OBS_STATUS_OK, u') →
    ∃ c, object o u key = Some c ∧ concat pieces = object_range c off n;
  get_object_keeps o key off n u pieces status u' k : get_object o key off n u = (pieces, status, u') → object o u' k = object o u k;
  get_object_aborted_law : get_object_aborted ≠ OBS_STATUS_OK;
  put_object_asks_law o key n u : Forall (λ size, 0 ≤ size < 2 ^ 31) (put_object_asks o key n u);
  put_object_law o key n bs u status u' : put_object o key n bs u = (status, u') →
    (Z.of_nat (length bs) = n ∧ object o u' key = Some bs) ∨ (status ≠ OBS_STATUS_OK ∧ object o u' key = object o u key);
  put_object_keeps o key n bs u status u' k : put_object o key n bs u = (status, u') → k ≠ key → object o u' k = object o u k;
  upload_file_law o key file u parts status u' : upload_file o key file u = (parts, status, u') →
    (is_Some file ∧ object o u' key = file) ∨ (status ≠ OBS_STATUS_OK ∧ object o u' key = object o u key);
  upload_file_keeps o key file u parts status u' k : upload_file o key file u = (parts, status, u') → k ≠ key → object o u' k = object o u k;
  status_number_law status : status_number status = 0 ↔ status = OBS_STATUS_OK }.

(** What every attempt keeps holds after the last one. *)
Lemma with_retries_spec {S A} (I Q : A → S → Prop) retry attempt a s :
  (∀ a s, I a s → returns (attempt a s) (λ r s', Q r.2 s' ∧ (IsNeedRetry r.1 = true → I r.2 s'))) →
  I a s → returns (with_retries (Datatypes.S retry) attempt a s) Q.
Proof.
  intros Hat. revert a s. induction retry as [|n IH]; intros a s Ha.
  all: cbn [with_retries]; specialize (Hat a s Ha); destruct (attempt a s) as [[status a'] s'|?| |] eqn:E; [|done..];
    rewrite (bind_ret _ _ _ _ _ E); destruct Hat as [HQ HI]; cbn [fst snd] in *; destruct (IsNeedRetry status); [|done].
  - done.
  - by apply IH, HI.
Qed.

Section spec.
Context {U F : Type} `{HU : ObsObjects U} `{!Posix F} `{!Stdio F}.
Local Abbreviation OM := (M (U * F)).

(** ** Uploads *)
Lemma PutFileCallback_spec n rest status : 0 ≤ n < 2 ^ 31 → Z.of_nat (length rest) < 2 ^ 64 →
  ∃ got rest', rest = got ++ rest' ∧
    PutFileCallback n (mkPut (Some rest) (Z.of_nat (length rest)) status) = Some (got, mkPut (Some rest') (Z.of_nat (length rest')) status).
Proof.
  intros Hn Hl. unfold PutFileCallback. cbn [infile contentLength mbind option_bind].
  match goal with |- context [if decide (Z.of_nat (length rest) ≠ 0) then ?t else []] => set (got := if decide (Z.of_nat (length rest) ≠ 0) then t else []) end.
  assert (∃ k, got = take k rest) as [k Hk].
  { unfold got. destruct (decide _); [by eexists|]. exists 0%nat. done. }
  exists got, (drop (length got) rest). assert (rest = got ++ drop (length got) rest) as Hsplit.
  { rewrite Hk, length_take. rewrite <-(take_drop k rest) at 1. f_equal. destruct (decide (k ≤ length rest)%nat); [f_equal; lia|].
    rewrite !drop_ge by lia. done. }
  split; [done|]. apply (f_equal length) in Hsplit. rewrite length_app in Hsplit.
  assert (u64 (Z.of_nat (length rest) - Z.of_nat (length got)) = Z.of_nat (length (drop (length got) rest))) as Hu
    by (unfold u64; rewrite Z.mod_small; lia).
  rewrite <-Hu. reflexivity.
Qed.

Lemma fill_file asks rest status : Forall (λ n, 0 ≤ n < 2 ^ 31) asks → Z.of_nat (length rest) < 2 ^ 64 →
  ∃ bs rest', rest = bs ++ rest' ∧
    fill_buffers PutFileCallback asks (mkPut (Some rest) (Z.of_nat (length rest)) status) = Some (bs, mkPut (Some rest') (Z.of_nat (length rest')) status).
Proof.
  intros Ha. revert rest. induction Ha as [|n asks Hn _ IH]; intros rest Hl; [by exists [], rest|].
  destruct (PutFileCallback_spec n rest status Hn Hl) as (got & rest1 & -> & Hg). rewrite length_app in Hl.
  destruct (IH rest1 ltac:(lia)) as (bs & rest2 & -> & Hf). exists (got ++ bs), rest2. split; [by rewrite app_assoc|].
  cbn [fill_buffers]. rewrite Hg. cbn [mbind option_bind]. rewrite Hf. done.
Qed.

(** The file has been stored, or nothing has, and that only without success. *)
Definition stored_iff (o : obs_options) (key : string) (c : list Z) (u : U) (f : F) (ok : Prop) (s : U * F) : Prop :=
  s.2 = f ∧ (∀ k, k ≠ key → object o s.1 k = object o u k) ∧ (object o s.1 key = Some c ∨ (¬ ok ∧ object o s.1 key = object o u key)).

Lemma stored_failed o key c u f ok s : stored_iff o key c u f ok s → stored_iff o key c u f False s.
Proof. intros (? & ? & [?|[_ ?]]); split_and!; auto. Qed.

Lemma ObsPutObject_spec st key path c u f : fopen_rb path f = Some c → Z.of_nat (length c) < 2 ^ 64 →
  returns (ObsPutObject st key path (Z.of_nat (length c)) (u, f))
    (λ status s, stored_iff (InitObsOptions st) key c u f (status = OBS_STATUS_OK) s).
Proof.
  intros Hopen Hl. unfold ObsPutObject, look_at_files. set (o := InitObsOptions st).
  rewrite (bind_ret _ _ _ (Some c) (u, f)) by (cbn; by rewrite Hopen).
  pose (I (d : PutFileCallbackType) (s : U * F) := stored_iff o key c u f False s ∧
    ∃ pre rest status, c = pre ++ rest ∧ d = mkPut (Some rest) (Z.of_nat (length rest)) status).
  pose (Q (d : PutFileCallbackType) (s : U * F) := stored_iff o key c u f (put_retStatus d = OBS_STATUS_OK) s).
  assert (returns (with_retries RETRY_NUM (put_attempt st key (Z.of_nat (length c))) (mkPut (Some c) (Z.of_nat (length c)) OBS_STATUS_OK) (u, f)) Q) as H.
  { apply (with_retries_spec I Q); [|split; [split_and!; auto|by exists [], c, OBS_STATUS_OK]].
    intros d [u1 f1] ((Hf & Hoth & Hobj) & pre & rest & status0 & Hc & ->). cbn [fst snd] in *. subst f1. unfold put_attempt.
    rewrite (bind_ret _ _ _ (put_object_asks o key (Z.of_nat (length c)) u1) (u1, f)) by done.
    assert (Z.of_nat (length rest) < 2 ^ 64) as Hr by (rewrite Hc, length_app in Hl; lia).
    destruct (fill_file _ rest status0 (put_object_asks_law o key (Z.of_nat (length c)) u1) Hr) as (bs & rest' & Hrest & ->).
    destruct (put_object o key (Z.of_nat (length c)) bs u1) as [status u2] eqn:Ep.
    rewrite (bind_ret _ _ _ status (u2, f)) by (unfold on_sdk; cbn [fst snd]; fold o; by rewrite Ep).
    pose proof (put_object_law _ _ _ _ _ _ _ Ep) as Hlaw. pose proof (λ k, put_object_keeps _ _ _ _ _ _ _ k Ep) as Hkeep.
    assert (stored_iff o key c u f (status = OBS_STATUS_OK) (u2, f)) as Hst.
    { split_and!; [done|intros k Hk; cbn; by rewrite Hkeep, Hoth|]. cbn. destruct Hlaw as [[Hlen ->]|[Hne ->]]; [|naive_solver]. left. f_equal.
      subst rest. apply (f_equal length) in Hc as Hcl. rewrite !length_app in Hcl.
      assert (pre = [] ∧ rest' = []) as [-> ->] by (split; apply nil_length_inv; lia). by rewrite app_nil_r in Hc. }
    cbn. split; [exact Hst|]. intros Hre. split; [by eapply stored_failed|exists (pre ++ bs), rest', status; rewrite <-app_assoc, <-Hrest; done]. }
  destruct (with_retries _ _ _ _) as [d s|?| |] eqn:E; [|done..]. by rewrite (bind_ret _ _ _ _ _ E).
Qed.

Lemma ObsUploadFile_spec st key path c u f : fopen_rb path f = Some c →
  returns (ObsUploadFile st key path (u, f)) (λ status s, stored_iff (InitObsOptions st) key c u f (status = OBS_STATUS_OK) s).
Proof.
  intros Hopen. unfold ObsUploadFile. set (o := InitObsOptions st).
  apply (with_retries_spec (λ _ (s : U * F), stored_iff o key c u f False s)); [|unfold stored_iff; split_and!; auto].
  intros status0 [u1 f1] (Hf & Hoth & Hobj). cbn [fst snd] in *. subst f1. unfold upload_attempt, look_at_files.
  rewrite (bind_ret _ _ _ (Some c) (u1, f)) by (cbn; by rewrite Hopen).
  destruct (upload_file o key (Some c) u1) as [[parts status] u2] eqn:Ep.
  rewrite (bind_ret _ _ _ (parts, status) (u2, f)) by (unfold on_sdk; cbn [fst snd]; fold o; by rewrite Ep).
  pose proof (upload_file_law _ _ _ _ _ _ _ Ep) as Hlaw. pose proof (λ k, upload_file_keeps _ _ _ _ _ _ _ k Ep) as Hkeep.
  cbn. unfold UploadFileResultCallback. assert (stored_iff o key c u f (status = OBS_STATUS_OK) (u2, f)) as Hst.
  { split_and!; [done|intros k Hk; cbn; by rewrite Hkeep, Hoth|]. cbn. destruct Hlaw as [[_ ->]|[Hne ->]]; naive_solver. }
  split; [exact Hst|]. intros _. by eapply stored_failed.
Qed.

(** (C29) PutFile of a file that is there ends; when it returns 0 the object is the
    content of the file, whatever its size and however many attempts it took;
    otherwise the object is what it was or the content of the file; other objects
    and files do not change. *)
Theorem PutFile_uploads st key path c u f :
  stat_size path f = Some (Z.of_nat (length c)) → fopen_rb path f = Some c → Z.of_nat (length c) < 2 ^ 63 →
  returns (PutFile st key path (u, f)) (λ ret s, stored_iff (InitObsOptions st) key c u f (ret = 0) s).
Proof.
  intros Hstat Hopen Hl. unfold PutFile.
  assert (OpenFileGetLength path (u, f) = Ret (Z.of_nat (length c)) (u, f)) as Hlen
    by (unfold OpenFileGetLength, look_at_files, mbind, M_bind; cbn; by rewrite Hstat).
  rewrite (bind_ret _ _ _ _ _ Hlen).
  set (o := InitObsOptions st).
  match goal with |- returns ((?m ≫= _) _) _ => assert (returns (m (u, f)) (λ status s, stored_iff o key c u f (status = OBS_STATUS_OK) s)) as H end.
  { destruct (decide _); [apply ObsPutObject_spec; [done|lia]|by apply ObsUploadFile_spec]. }
  match goal with |- returns ((?m ≫= _) _) _ => destruct (m (u, f)) as [status s|?| |] eqn:E; [|done..] end.
  rewrite (bind_ret _ _ _ _ _ E). cbn.
  pose proof (status_number_law status). destruct H as (Hf & Hk & Ho). split_and!; [done..|]. tauto.
Qed.

(** ** Downloads *)
Context `{!PosixFiles F}.

(** The attempt that succeeds comes after [k] that failed before anything
    arrived. *)
Inductive gets (o : obs_options) (key : string) (off n : Z) : nat → U → list (list Z) → U → Prop :=
  | gets_now u pieces u' : get_object o key off n u = (pieces, OBS_STATUS_OK, u') → gets o key off n 0 u pieces u'
  | gets_later k u status u1 pieces u' : get_object o key off n u = ([], status, u1) → IsNeedRetry status = true →
      gets o key off n k u1 pieces u' → gets o key off n (S k) u pieces u'.

Lemma gets_range o key off n k u pieces u' : gets o key off n k u pieces u' →
  ∃ c, object o u' key = Some c ∧ concat pieces = object_range c off n.
Proof.
  induction 1 as [u pieces u' Hg|]; [|done]. destruct (get_object_law _ _ _ _ _ _ _ Hg) as (c & Hc & Hr).
  exists c. split; [|done]. by rewrite (get_object_keeps _ _ _ _ _ _ _ _ key Hg).
Qed.

(** What has arrived so far. *)
Definition received (fd : option Z) (toBuffer : bool) (size : Z) (had : list Z) (status : obs_status) : GetObjectCallbackType :=
  mkGet fd (if toBuffer then Some had else None) size (Z.of_nat (length had)) (Z.of_nat (length had)) status.

Lemma file_write_end f bs : file_write f (Z.of_nat (length f)) bs = f ++ bs.
Proof.
  unfold file_write. rewrite Nat2Z.id, Nat.sub_diag, app_nil_r, firstn_all, drop_ge by lia. by rewrite app_nil_r.
Qed.

(** Each pwrite of a piece at its offset, one after the other, takes all of it. *)
Fixpoint written_in_full (fd : option Z) (off : Z) (pieces : list (list Z)) (f : F) : Prop :=
  match fd, pieces with
  | Some d, piece :: pieces' =>
    let r := posix_pwrite d piece off f in
    r.1 = Z.of_nat (length piece) ∧ written_in_full fd (off + Z.of_nat (length piece)) pieces' r.2
  | _, _ => True
  end.

(** The file of the descriptor has [bs] at its start. *)
Definition file_has (fd : option Z) (f : F) (bs : list Z) (f' : F) : Prop := ∀ d, fd = Some d → fd_content f' d = file_write (fd_content f d) 0 bs.

Lemma data_callback piece pieces fd toBuffer size had status (u : U) (f0 f : F) :
  piece ≠ [] → Z.of_nat (length (had ++ piece)) < 2 ^ 31 → (toBuffer = true → Z.of_nat (length (had ++ piece)) ≤ size) →
  written_in_full fd (Z.of_nat (length had)) (piece :: pieces) f → file_has fd f0 had f →
  ∃ f', GetObjectDataCallback piece (received fd toBuffer size had status) (u, f) =
      Ret (OBS_STATUS_OK, received fd toBuffer size (had ++ piece) status) (u, f') ∧ file_has fd f0 (had ++ piece) f' ∧
    written_in_full fd (Z.of_nat (length (had ++ piece))) pieces f'.
Proof.
  intros Hne Hl Hs Hw Hf. assert (0 < Z.of_nat (length piece)) as Hp by (destruct piece; [done|cbn; lia]). rewrite length_app in Hl, Hs.
  assert (i32 (Z.of_nat (length had) + Z.of_nat (length piece)) = Z.of_nat (length (had ++ piece))) as Hi
    by (rewrite i32_small by lia; rewrite length_app; lia).
  assert (Z.of_nat (length piece) + Z.of_nat (length had) = Z.of_nat (length (had ++ piece))) as Hadd by (rewrite length_app; lia).
  assert (∀ b, mkGet fd b size (i32 (Z.of_nat (length had) + Z.of_nat (length piece))) (Z.of_nat (length piece) + Z.of_nat (length had)) status
    = mkGet fd b size (Z.of_nat (length (had ++ piece))) (Z.of_nat (length (had ++ piece))) status) as Hrec by (intros; by rewrite Hi, Hadd).
  assert (∃ f', match fd with None => mret 0 | Some d => on_files (posix_pwrite d piece (Z.of_nat (length had))) end (u, f)
            = Ret (match fd with None => 0 | Some d => Z.of_nat (length piece) end) (u, f') ∧ file_has fd f0 (had ++ piece) f' ∧
              written_in_full fd (Z.of_nat (length (had ++ piece))) pieces f') as (f' & Hpw & Hf').
  { destruct fd as [d|]; [|exists f; split_and!; [done|by intros ? ?|by destruct pieces]].
    cbn [written_in_full] in Hw. destruct Hw as [Hr Hw].
    destruct (posix_pwrite d piece (Z.of_nat (length had)) f) as [r f'] eqn:E. exists f'. unfold on_files. cbn [snd fst].
    cbn in Hr, Hw. subst r. rewrite E. split; [done|]. split; [|by rewrite length_app, Nat2Z.inj_add].
    destruct (posix_pwrite_law _ _ _ _ _ _ E ltac:(lia) ltac:(lia)) as [_ Hc]. intros d' [= <-]. rewrite Hc, (Hf d eq_refl), Nat2Z.id, firstn_all.
    by rewrite <-(Z.add_0_l (Z.of_nat (length had))), file_write_append by lia. }
  exists f'. split; [|done]. unfold GetObjectDataCallback, received. cbn.
  assert (∀ A (x y : A), (if decide (match fd with None => 0 | Some _ => Z.of_nat (length piece) end = -1) then x else y) = y) as Hdec
    by (intros; rewrite decide_False; [done|destruct fd; lia]).
  destruct toBuffer; cbn.
  - unfold memcpy_s. rewrite !decide_False by (specialize (Hs eq_refl); lia). rewrite file_write_end. cbn.
    rewrite (bind_ret _ _ _ _ _ Hpw), Hdec. cbn. unfold mret, M_ret.
    rewrite <-Hrec. reflexivity.
  - rewrite (bind_ret _ _ _ _ _ Hpw), Hdec. cbn. unfold mret, M_ret. rewrite <-Hrec. reflexivity.
Qed.

Lemma deliver_spec pieces fd toBuffer size had status (u : U) (f0 f : F) :
  Forall (λ p, p ≠ []) pieces → Z.of_nat (length (had ++ concat pieces)) < 2 ^ 31 →
  (toBuffer = true → Z.of_nat (length (had ++ concat pieces)) ≤ size) →
  written_in_full fd (Z.of_nat (length had)) pieces f → file_has fd f0 had f →
  ∃ f', deliver pieces (received fd toBuffer size had status) (u, f) =
      Ret (true, received fd toBuffer size (had ++ concat pieces) status) (u, f') ∧ file_has fd f0 (had ++ concat pieces) f'.
Proof.
  intros Hp. revert had f. induction Hp as [|piece pieces Hne _ IH]; intros had f Hl Hs Hw Hf.
  { exists f. cbn. by rewrite app_nil_r. }
  cbn [concat] in *. rewrite app_assoc in *. rewrite length_app in Hl, Hs.
  destruct (data_callback piece pieces fd toBuffer size had status u f0 f Hne) as (f1 & Hc & Hf1 & Hw1); [lia|intros Ht; specialize (Hs Ht); lia|done|done|].
  destruct (IH (had ++ piece) f1) as (f2 & Hd & Hf2); [rewrite length_app; lia|intros Ht; specialize (Hs Ht); rewrite length_app; lia|done|done|].
  exists f2. split; [|done]. cbn [deliver]. rewrite (bind_ret _ _ _ _ _ Hc). rewrite decide_True by done. exact Hd.
Qed.

Lemma get_attempt_run st key off size d ret pieces status (u u' : U) (f f' : F) taken d' :
  get_object (InitObsOptions st) key off size u = (pieces, status, u') → deliver pieces d (u', f) = Ret (taken, d') (u', f') →
  let status' := if (taken : bool) then status else get_object_aborted in
  get_attempt st key off size (d, ret) (u, f) =
    Ret (status', (d' <| get_retStatus := status' |>, if decide (status' = OBS_STATUS_OK) then realSize d' else -1)) (u', f').
Proof.
  intros Hg Hd. unfold get_attempt. rewrite (bind_ret _ _ _ (pieces, status) (u', f)) by (unfold on_sdk; cbn [fst snd]; by rewrite Hg).
  cbn [fst snd]. by rewrite (bind_ret _ _ _ _ _ Hd).
Qed.

(** (C23) ReadObject with a buffer, a descriptor or both.  Take an object of
    less than 2 GiB whose range fits the buffer, when there is one, and a
    download of which fewer than ten attempts fail, each before anything
    arrived.  If there is a descriptor and each of the pwrite calls, one per
    piece of the object, takes its piece in full (the code does not look at
    short counts), the result is the number of bytes of the range, the buffer
    holds them, and the file has them at its start. *)
Theorem ReadObject_reads st key off size fd toBuffer k pieces u u' (f : F) :
  gets (InitObsOptions st) key off size k u pieces u' → (k < RETRY_NUM)%nat → Forall (λ p, p ≠ []) pieces →
  Z.of_nat (length (concat pieces)) < 2 ^ 31 → (toBuffer = true → Z.of_nat (length (concat pieces)) ≤ size) →
  written_in_full fd 0 pieces f →
  returns (ReadObject st key off size fd toBuffer (u, f)) (λ r s, ∃ c, object (InitObsOptions st) u' key = Some c ∧
    let range := object_range c off size in
    r = (Z.of_nat (length range), if toBuffer then Some range else None) ∧ s.1 = u' ∧ file_has fd f range s.2).
Proof.
  intros Hg Hk Hne Hl Hs Hw. destruct (gets_range _ _ _ _ _ _ _ _ Hg) as (c & Hc & Hr). unfold ReadObject.
  assert (∀ ret status, ∃ status' f', with_retries RETRY_NUM (get_attempt st key off size) (received fd toBuffer size [] status, ret) (u, f) =
    Ret (received fd toBuffer size (concat pieces) status', Z.of_nat (length (concat pieces))) (u', f') ∧ file_has fd f (concat pieces) f') as H.
  { revert Hk. generalize RETRY_NUM. induction Hg as [u pieces u' Hg|k u status1 u1 pieces u' Hg Hre Hg' IH]; intros [|n] Hk ret status; try lia; cbn [with_retries].
    - destruct (deliver_spec pieces fd toBuffer size [] status u' f f Hne Hl Hs Hw) as (f' & Hd & Hf'); [intros d _; done|].
      exists OBS_STATUS_OK, f'. split; [|done].
      rewrite (bind_ret _ _ _ _ _ (get_attempt_run _ _ _ _ _ ret _ _ _ _ _ _ _ _ Hg Hd)). cbn. by rewrite decide_True.
    - destruct (IH Hne Hl Hs Hw Hc Hr n ltac:(lia) (-1) status1) as (status' & f' & Hi & Hf'). exists status', f'. split; [|done].
      rewrite (bind_ret _ _ _ _ _ (get_attempt_run _ _ _ _ _ ret _ _ _ _ _ _ _ _ Hg eq_refl)).
      cbn [fst snd get_retStatus]. rewrite Hre, <-Hi. rewrite decide_False by (by intros ->). done. }
  destruct (H 0 OBS_STATUS_BUTT) as (status' & f' & He & Hf'). change (received fd toBuffer size [] OBS_STATUS_BUTT) with
    (mkGet fd (if toBuffer then Some [] else None) size 0 0 OBS_STATUS_BUTT) in He. rewrite (bind_ret _ _ _ _ _ He).
  cbn. exists c. rewrite Hr in *. split; [done|]. split; [by destruct toBuffer|done].
Qed.
End spec.

(** Free blocks do not wrap around exactly when the blocks in use are not more
    than those of the quota. *)
Theorem storage_blocks_free objNum cap quota : 0 ≤ cap < 2 ^ 64 - 4095 → 0 ≤ quota < 2 ^ 64 →
  let s := storage_blocks objNum cap quota in
  let used := (cap + 4095) / 4096 in
  sf_bfree s = (if decide (used ≤ sf_blocks s) then sf_blocks s - used else 2 ^ 64 + sf_blocks s - used) ∧ sf_bavail s = sf_bfree s.
Proof.
  intros Hc Hq. unfold storage_blocks. cbn. split; [|done]. replace (cap + 4096 - 1) with (cap + 4095) by lia.
  rewrite (u64_small (cap + 4095)) by lia. set (blocks := (if decide (quota = 0) then UINT64_MAX else quota) / 4096). set (used := (cap + 4095) / 4096).
  assert (0 ≤ used < 2 ^ 63) as Hu by (unfold used; split; [apply Z.div_pos; lia|apply Z.div_lt_upper_bound; lia]).
  assert (0 ≤ blocks < 2 ^ 63) as Hb.
  { unfold blocks. split; [apply Z.div_pos; [destruct (decide _); unfold UINT64_MAX; lia|lia]|].
    apply Z.div_lt_upper_bound; [lia|]. destruct (decide _); unfold UINT64_MAX; lia. }
  destruct (decide (used ≤ blocks)); [apply u64_small; lia|]. unfold u64. rewrite <-(Z_mod_plus_full _ 1). rewrite Z.mod_small; lia.
Qed.

(** ** A service with scripted failures *)
Module ObsWitness.
(** Every call takes one entry of the script: whether a part arrives first, and
    the status; without an entry it succeeds. *)
Record Service := mkService { objs : gmap string (list Z); script : list (bool * obs_status) }.
Definition next (s : Service) : bool * obs_status := default (false, OBS_STATUS_OK) (head (script s)).
Definition rest (s : Service) : Service := mkService (objs s) (tail (script s)).
Definition pieces_of (r : list Z) : list (list Z) := match r with [] => [] | [a] => [[a]] | [a; b] => [[a; b]] | a :: b :: r => [[a; b]; r] end.

Lemma pieces_concat r : concat (pieces_of r) = r.
Proof. destruct r as [|a [|b [|c r]]]; try done. cbn. by rewrite app_nil_r. Qed.

Definition put_service (key : string) (ok : bool) (c : list Z) (s : Service) : Service :=
  if ok then mkService (<[key := c]> (objs s)) (tail (script s)) else rest s.

#[export] Instance service : ObsSdk Service := {|
  obs_initialize s := (0, s);
  set_online_request_max_count _ s := (0, s);
  obs_deinitialize s := s;
  obs_head_bucket _ s := (OBS_STATUS_OK, s);
  get_object _ key off n s :=
    match objs s !! key with
    | None => ([], OBS_STATUS_other 404, rest s)
    | Some c =>
      let r := object_range c off n in
      if decide ((next s).2 = OBS_STATUS_OK) then (pieces_of r, OBS_STATUS_OK, rest s)
      else (if (next s).1 then take 1 (pieces_of r) else [], (next s).2, rest s)
    end;
  get_object_aborted := OBS_STATUS_AbortedByCallback;
  put_object_asks _ _ _ s := if decide ((next s).2 = OBS_STATUS_OK) then [3; 3; 3] else if (next s).1 then [3] else [];
  put_object _ key n bs s :=
    if decide ((next s).2 = OBS_STATUS_OK) then
      if decide (Z.of_nat (length bs) = n) then (OBS_STATUS_OK, put_service key true bs s) else (OBS_STATUS_PartialFile, rest s)
    else ((next s).2, rest s);
  upload_file _ key file s :=
    match file with
    | Some c => if decide ((next s).2 = OBS_STATUS_OK) then ([OBS_STATUS_OK], OBS_STATUS_OK, put_service key true c s) else ([], (next s).2, rest s)
    | None => ([], OBS_STATUS_other 1, rest s)
    end;
  delete_object _ key s := (OBS_STATUS_OK, None, mkService (delete key (objs s)) (tail (script s)));
  copy_object _ a b s := (OBS_STATUS_OK, mkService (match objs s !! a with Some c => <[b := c]> (objs s) | None => objs s end) (tail (script s)));
  get_bucket_storage_info _ s := (OBS_STATUS_OK, "0"%string, "0"%string, s);
  get_bucket_quota _ s := (OBS_STATUS_OK, Some 0, s);
  status_number status := match status with OBS_STATUS_OK => 0 | OBS_STATUS_other n => if decide (n = 0) then 1 else n | _ => 1 end |}.

#[export, program] Instance service_objects : ObsObjects Service := {| object _ s key := objs s !! key |}.
Next Obligation.
  intros o key off n u pieces u'. cbn. destruct (objs u !! key) as [c|]; [|done].
  destruct (decide ((next u).2 = OBS_STATUS_OK)); [intros [= <- <-]|intros [= <- ? <-]; done]. exists c. split; [done|]. apply pieces_concat.
Qed.
Next Obligation. intros o key off n u pieces status u' k. cbn. destruct (objs u !! key); [destruct (decide _)|]; by intros [= <- <- <-]. Qed.
Next Obligation. done. Qed.
Next Obligation. intros o key n u. cbn. destruct (decide _); [|destruct ((next u).1)]; repeat constructor; lia. Qed.
Next Obligation.
  intros o key n bs u status u'. cbn. destruct (decide ((next u).2 = OBS_STATUS_OK)) as [|Hne].
  - destruct (decide (Z.of_nat (length bs) = n)); intros [= <- <-]; [left|by right]. cbn. by rewrite lookup_insert_eq.
  - intros [= <- <-]. by right.
Qed.
Next Obligation.
  intros o key n bs u status u' k. cbn. destruct (decide ((next u).2 = OBS_STATUS_OK)); [destruct (decide _)|]; intros [= <- <-] Hk; cbn; rewrite ?lookup_insert_ne; done.
Qed.
Next Obligation.
  intros o key [c|] u parts status u'; cbn; [|intros [= <- <- <-]; by right]. destruct (decide ((next u).2 = OBS_STATUS_OK)).
  - intros [= <- <- <-]. left. cbn. by rewrite lookup_insert_eq.
  - intros [= <- <- <-]. by right.
Qed.
Next Obligation.
  intros o key [c|] u parts status u' k; cbn; [|by intros [= <- <- <-]]. destruct (decide _); intros [= <- <- <-] Hk; cbn; rewrite ?lookup_insert_ne; done.
Qed.
Next Obligation. intros status. cbn. destruct status as [| | | | | | | | | | | |n]; try done. destruct (decide (n = 0)); [done|]. split; [done|discriminate]. Qed.

#[export] Instance ref_stdio : Stdio RefFs := {|
  stat_size p f := (λ o, Z.of_nat (length (ref_file f o))) <$> ref_names f !! p;
  fopen_rb p f := ref_file f <$> ref_names f !! p |}.

Definition storage : OBSStorage := mkOBS true "host" "bucket" "ak" "sk" false.
Definition files : RefFs := mkRefFs {["/cache/7"%string := 1]} {[1 := [11; 22; 33; 44; 55]]} {[5 := 1]} 6 0 0 100.

(** The first attempt does not connect. *)
Definition slow : Service := mkService ∅ [(false, OBS_STATUS_FailedToConnect)].
Lemma PutFile_uploads_witness :
  returns (PutFile storage "a" "/cache/7" (slow, files)) (λ ret s,
    stored_iff (InitObsOptions storage) "a" [11; 22; 33; 44; 55] slow files (ret = 0) s).
Proof. apply (PutFile_uploads storage "a" "/cache/7" [11; 22; 33; 44; 55] slow files); reflexivity. Defined.

Definition outcome_of {A} (o : outcome (Service * RefFs) A) : option (A * gmap string (list Z) * list Z) :=
  match o with Ret a s => Some (a, objs s.1, fd_content s.2 5) | _ => None end.

Example put_file_retried : outcome_of (PutFile storage "a" "/cache/7" (slow, files)) =
  Some (0, {["a"%string := [11; 22; 33; 44; 55]]}, [11; 22; 33; 44; 55]).
Proof. vm_compute. reflexivity. Qed.

(** An attempt that fails after a part was sent is repeated ten times, and never
    sends the part again. *)
Definition lossy : Service := mkService ∅ [(true, OBS_STATUS_RequestTimeout)].
Example put_file_never_starts_over : outcome_of (PutFile storage "a" "/cache/7" (lossy, files)) = Some (1, ∅, [11; 22; 33; 44; 55]).
Proof. vm_compute. reflexivity. Qed.

(** A download that is repeated before anything arrived. *)
Definition kept : Service := mkService {["a"%string := [1; 2; 3; 4]]} [(false, OBS_STATUS_FailedToConnect)].
Definition empty_file : RefFs := mkRefFs {["/cache/7"%string := 1]} {[1 := []]} {[5 := 1]} 6 0 0 100.

Example download_retried : outcome_of (ReadObject storage "a" 0 0 (Some 5) false (kept, empty_file)) =
  Some ((4, None), {["a"%string := [1; 2; 3; 4]]}, [1; 2; 3; 4]).
Proof. vm_compute. reflexivity. Qed.

(** One that is repeated after a part has arrived: the result is no error, and
    the file is not the object. *)
Definition broken : Service := mkService {["a"%string := [1; 2; 3; 4]]} [(true, OBS_STATUS_RequestTimeout)].
Example download_corrupts : outcome_of (ReadObject storage "a" 0 0 (Some 5) false (broken, empty_file)) =
  Some ((6, None), {["a"%string := [1; 2; 3; 4]]}, [1; 2; 1; 2; 3; 4]).
Proof. vm_compute. reflexivity. Qed.

Lemma ReadObject_reads_witness :
  returns (ReadObject storage "a" 1 2 (Some 5) true (kept, empty_file)) (λ r s, ∃ c,
    objs (rest (rest kept)) !! "a"%string = Some c ∧
    let range := object_range c 1 2 in
    r = (Z.of_nat (length range), Some range) ∧ s.1 = rest (rest kept) ∧ file_has (Some 5) empty_file range s.2).
Proof.
  eapply returns_mono; [apply (ReadObject_reads storage "a" 1 2 (Some 5) true 1 [[2; 3]] kept (rest (rest kept)) empty_file)|intros r s H; exact H].
  - apply (gets_later _ _ _ _ _ _ OBS_STATUS_FailedToConnect (rest kept)); [reflexivity|reflexivity|]. apply gets_now. reflexivity.
  - unfold RETRY_NUM. lia.
  - repeat constructor; discriminate.
  - reflexivity.
  - intros _. cbn. lia.
  - repeat split; vm_compute; reflexivity.
Defined.

(** 4500 bytes of 5000 in use. *)
Lemma storage_blocks_free_witness : sf_bfree (storage_blocks 1 4500 5000) = 2 ^ 64 - 1.
Proof.
  assert (0 ≤ 4500 < 2 ^ 64 - 4095) as Hc by lia. assert (0 ≤ 5000 < 2 ^ 64) as Hq by lia.
  destruct (storage_blocks_free 1 4500 5000 Hc Hq) as [H _]. rewrite H. reflexivity.
Defined.
End ObsWitness.
