(* ===== verification/ThreadPool.v ===== *)
(** * The thread pool (common/src/thread_pool/thread_pool.cpp)

    Threads that call Submit, worker threads in WorkLoop, and Stop.  A step is what
    a thread does under the mutex, one operation on the semaphore or one
    notification; a sleeping worker may also wake up for no reason.  A task is the
    number of the call of Submit that brings it. *)

From S2P Require Import Prelude Counting.
#[local] Open Scope Z_scope.

(** In Submit. *)
Inductive submitter_at :=
  | S_acquire              (* at taskSem.acquire *)
  | S_push                 (* before tasks.push *)
  | S_notify               (* before cv.notify_one *)
  | S_returned.

(** In WorkLoop. *)
Inductive worker_at :=
  | W_loop                 (* has the mutex, at the test of the loop *)
  | W_asleep
  | W_run (task : nat)
  | W_release              (* before taskSem.release *)
  | W_ended.

#[global] Instance submitter_at_eq_dec : EqDecision submitter_at.
Proof. solve_decision. Defined.
#[global] Instance worker_at_eq_dec : EqDecision worker_at.
Proof. solve_decision. Defined.

(** The pool and its threads; the tasks that have run, in this order, and those
    that were in the queue before Stop (for the theorem only). *)
Record ThreadPool := mkThreadPool {
  tasks : list nat;
  taskSem : Z;
  stop_requested : bool;
  submitters : list submitter_at;
  threads : list worker_at;
  ran : list nat;
  early : list nat }.
#[global] Instance eta_ThreadPool : Eta ThreadPool := λ s,
  mkThreadPool (tasks s) (taskSem s) (stop_requested s) (submitters s) (threads s) (ran s) (early s).

(** CreateThreadPool and Start, with [calls] calls of Submit to come. *)
Definition CreateThreadPool (threadNum : nat) (maxTaskNum : Z) (calls : nat) : ThreadPool :=
  mkThreadPool [] maxTaskNum false (replicate calls S_acquire) (replicate threadNum W_loop) [] [].

Definition set_submitter (k : nat) (x : submitter_at) (s : ThreadPool) : ThreadPool := s <| submitters ::= <[k := x]> |>.
Definition set_thread (i : nat) (x : worker_at) (s : ThreadPool) : ThreadPool := s <| threads ::= <[i := x]> |>.

(** cv.notify_one: any one of the sleepers, or nobody when there is none. *)
Inductive notify_one (ws : list worker_at) : list worker_at → Prop :=
  | notify_nobody : (∀ w, w ∈ ws → w ≠ W_asleep) → notify_one ws ws
  | notify_somebody i : ws !! i = Some W_asleep → notify_one ws (<[i := W_loop]> ws).

(** Call [k] of Submit. *)
Inductive submit_step (k : nat) (s : ThreadPool) : ThreadPool → Prop :=
  | s_acquire : submitters s !! k = Some S_acquire → 0 < taskSem s →
      submit_step k s (set_submitter k S_push (s <| taskSem ::= Z.pred |>))
  | s_push : submitters s !! k = Some S_push →
      submit_step k s (set_submitter k S_notify (s <| tasks ::= (.++ [k]) |>
        <| early ::= λ l, if stop_requested s then l else l ++ [k] |>))
  | s_notify ws : submitters s !! k = Some S_notify → notify_one (threads s) ws →
      submit_step k s (set_submitter k S_returned (s <| threads := ws |>)).

(** Worker [i] in WorkLoop: the test of the loop, the predicate of the wait and
    taking a task are done under the mutex. *)
Inductive work_step (i : nat) (s : ThreadPool) : ThreadPool → Prop :=
  | w_end : threads s !! i = Some W_loop → tasks s = [] → stop_requested s = true → work_step i s (set_thread i W_ended s)
  | w_sleep : threads s !! i = Some W_loop → tasks s = [] → stop_requested s = false → work_step i s (set_thread i W_asleep s)
  | w_take t l : threads s !! i = Some W_loop → tasks s = t :: l → work_step i s (set_thread i (W_run t) (s <| tasks := l |>))
  | w_run t : threads s !! i = Some (W_run t) → work_step i s (set_thread i W_release (s <| ran ::= (.++ [t]) |>))
  | w_release : threads s !! i = Some W_release → work_step i s (set_thread i W_loop (s <| taskSem ::= Z.succ |>)).

Inductive step (s s' : ThreadPool) : Prop :=
  | by_submitter k : submit_step k s s' → step s s'
  | by_worker i : work_step i s s' → step s s'.

Definition wake (w : worker_at) : worker_at := match w with W_asleep => W_loop | w => w end.

(** Stop: the request wakes all sleepers, for the wait has the stop token. *)
Definition Stop (s : ThreadPool) : ThreadPool := s <| stop_requested := true |> <| threads ::= fmap wake |>.

Inductive reachable (threadNum : nat) (maxTaskNum : Z) (calls : nat) : ThreadPool → Prop :=
  | reachable_start : reachable threadNum maxTaskNum calls (CreateThreadPool threadNum maxTaskNum calls)
  | reachable_step s s' : reachable threadNum maxTaskNum calls s → step s s' → reachable threadNum maxTaskNum calls s'
  | reachable_stop s : reachable threadNum maxTaskNum calls s → reachable threadNum maxTaskNum calls (Stop s)
  | reachable_spurious s i : reachable threadNum maxTaskNum calls s → threads s !! i = Some W_asleep →
      reachable threadNum maxTaskNum calls (set_thread i W_loop s).

(** ** Invariant *)
Definition pushing (x : submitter_at) : Z := match x with S_push => 1 | _ => 0 end.
Definition notifying (x : submitter_at) : Z := match x with S_notify => 1 | _ => 0 end.
Definition pushed (x : submitter_at) : Z := match x with S_notify | S_returned => 1 | _ => 0 end.
Definition busy (w : worker_at) : Z := match w with W_run _ | W_release => 1 | _ => 0 end.
Definition awake (w : worker_at) : Z := match w with W_asleep | W_ended => 0 | _ => 1 end.
Definition runs (t : nat) (w : worker_at) : Z := match w with W_run t' => ind (t' = t) | _ => 0 end.

#[local] Arguments occ : simpl never.

Record inv (maxTaskNum : Z) (s : ThreadPool) : Prop := {
  (** a permit is free, or belongs to a task on its way *)
  i_permits : taskSem s + zsum pushing (submitters s) + Z.of_nat (length (tasks s)) + zsum busy (threads s) = maxTaskNum;
  i_sem : 0 ≤ taskSem s;
  (** every task that was pushed is in one place *)
  i_once k : occ k (ran s) + occ k (tasks s) + zsum (runs k) (threads s) = default 0 (pushed <$> submitters s !! k);
  (** no notification is lost *)
  i_wakes i : threads s !! i = Some W_asleep →
    stop_requested s = false ∧ Z.of_nat (length (tasks s)) ≤ zsum awake (threads s) + zsum notifying (submitters s);
  (** workers end when nothing is left from before Stop *)
  i_ends i : threads s !! i = Some W_ended → stop_requested s = true ∧ ∀ k, k ∈ early s → k ∉ tasks s;
  i_early k : k ∈ early s → ∃ x, submitters s !! k = Some x ∧ pushed x = 1 }.

Lemma pushed_insert (l : list submitter_at) (k : nat) (x y : submitter_at) (j : nat) : l !! k = Some x →
  default 0 (pushed <$> <[k := y]> l !! j) = default 0 (pushed <$> l !! j) + (if decide (j = k) then pushed y - pushed x else 0).
Proof.
  intros Hk. destruct (decide (j = k)) as [->|Hne].
  - rewrite list_lookup_insert_eq, Hk by (by eapply lookup_lt_Some). cbn. lia.
  - rewrite list_lookup_insert_ne by done. lia.
Qed.

Lemma counts_nonneg ws : 0 ≤ zsum busy ws ∧ 0 ≤ zsum awake ws ∧ ∀ t, 0 ≤ zsum (runs t) ws.
Proof.
  split_and!; [..|intros t]; apply zsum_nonneg; intros [] _; cbn; try lia. apply ind_range.
Qed.
Lemma submitters_nonneg l : 0 ≤ zsum pushing l ∧ 0 ≤ zsum notifying l.
Proof. split; apply zsum_nonneg; intros [] _; cbn; lia. Qed.

Lemma not_yet_pushed s k x : (∀ j, j ∈ early s → ∃ y, submitters s !! j = Some y ∧ pushed y = 1) →
  submitters s !! k = Some x → pushed x = 0 → k ∉ early s.
Proof. intros H Hk H0 Hin. destruct (H k Hin) as (y & Hy & Hp). rewrite Hk in Hy. injection Hy as <-. lia. Qed.

Lemma pool_inv_acquire m s k : inv m s → submitters s !! k = Some S_acquire → 0 < taskSem s →
  inv m (set_submitter k S_push (s <| taskSem ::= Z.pred |>)).
Proof.
  intros [H1 H2 H3 H4 H5 H6] Hk H0. pose proof (not_yet_pushed s k _ H6 Hk eq_refl) as Hne.
  split; cbn -[zsum]; rewrite ?(zsum_insert _ _ _ _ _ Hk); cbn [pushing notifying] in *.
  - lia.
  - lia.
  - intros j. rewrite (pushed_insert _ _ _ _ _ Hk), H3. case_decide; cbn; lia.
  - intros i Hi. destruct (H4 i Hi). split; [done|]. lia.
  - exact H5.
  - intros j Hj. destruct (H6 j Hj) as (x & Hx & Hp). exists x. split; [|done]. rewrite list_lookup_insert_ne; [done|congruence].
Qed.

Lemma pool_inv_push m s k : inv m s → submitters s !! k = Some S_push →
  inv m (set_submitter k S_notify (s <| tasks ::= (.++ [k]) |> <| early ::= λ l, if stop_requested s then l else l ++ [k] |>)).
Proof.
  intros [H1 H2 H3 H4 H5 H6] Hk. pose proof (not_yet_pushed s k _ H6 Hk eq_refl) as Hne.
  split; cbn -[zsum]; rewrite ?length_app, ?(zsum_insert _ _ _ _ _ Hk); cbn [pushing notifying length] in *.
  - lia.
  - done.
  - intros j. rewrite (pushed_insert _ _ _ _ _ Hk), <-H3, occ_app. unfold occ at 3. cbn. unfold ind. repeat case_decide; cbn; try lia; congruence.
  - intros i Hi. destruct (H4 i Hi). split; [done|]. lia.
  - intros i Hi. destruct (H5 i Hi) as [Hst Hno]. rewrite Hst. split; [done|]. intros j Hj [Ht|Ht]%elem_of_app; [by apply (Hno j)|].
    apply list_elem_of_singleton in Ht as ->. done.
  - intros j Hj. assert (j ∈ early s ∨ j = k) as [He| ->].
    { destruct (stop_requested s); [by left|]. apply elem_of_app in Hj as [?|Hj]; [by left|]. apply list_elem_of_singleton in Hj. by right. }
    + destruct (H6 j He) as (x & Hx & Hp). exists x. split; [|done]. rewrite list_lookup_insert_ne; [done|congruence].
    + exists S_notify. split; [|done]. apply list_lookup_insert_eq. by eapply lookup_lt_Some.
Qed.

(** What a worker may do: it keeps its task and its permit accounted for, sleeps and
    ends only when the queue is empty, and leaves no task to nobody. *)
Lemma pool_inv_worker m s i w w' q sem r :
  inv m s → threads s !! i = Some w →
  sem + Z.of_nat (length q) + busy w' = taskSem s + Z.of_nat (length (tasks s)) + busy w → 0 ≤ sem →
  (∀ k, occ k r + occ k q + runs k w' = occ k (ran s) + occ k (tasks s) + runs k w) →
  q = [] ∨ Z.of_nat (length q) - awake w' ≤ Z.of_nat (length (tasks s)) - awake w →
  (w' = W_asleep → stop_requested s = false ∧ q = []) → (w' = W_ended → stop_requested s = true ∧ q = []) →
  q ⊆ tasks s →
  inv m (set_thread i w' (s <| tasks := q |> <| taskSem := sem |> <| ran := r |>)).
Proof.
  intros [H1 H2 H3 H4 H5 H6] Hi Hp Hs Ho Hw Ha He Hq. destruct (counts_nonneg (<[i := w']> (threads s))) as (_ & Hnn & _).
  destruct (submitters_nonneg (submitters s)) as [_ Hnn'].
  split; cbn -[zsum]; rewrite ?(zsum_insert _ _ _ _ _ Hi) in *.
  - lia.
  - done.
  - intros k. rewrite (zsum_insert _ _ _ _ _ Hi), <-H3. specialize (Ho k). lia.
  - intros j Hj. assert (stop_requested s = false ∧ (q = [] ∨ threads s !! j = Some W_asleep)) as [Hst Hor].
    { apply list_lookup_insert_Some in Hj as [(-> & -> & _)|[_ Hj]]; [by destruct Ha; auto|]. by destruct (H4 j Hj); auto. }
    split; [done|]. destruct Hw as [-> |Hw]; [cbn; lia|]. destruct Hor as [-> |Hj']; [cbn; lia|]. destruct (H4 j Hj'). lia.
  - intros j [(-> & -> & _)|[_ Hj]]%list_lookup_insert_Some.
    + destruct He as [Hst ->]; [done|]. split; [done|]. intros ? _ ?%elem_of_nil. done.
    + destruct (H5 j Hj) as [Hst Hno]. split; [done|]. intros k Hk Hin. apply (Hno k Hk). by apply Hq.
  - exact H6.
Qed.

Lemma set_same s : s <| tasks := tasks s |> <| taskSem := taskSem s |> <| ran := ran s |> = s.
Proof. by destruct s. Qed.

Lemma pool_inv_work m s i s' : inv m s → work_step i s s' → inv m s'.
Proof.
  intros Hs Hst. pose proof (i_sem m s Hs) as H0. destruct Hst as [Hi Ht Hst|Hi Ht Hst|t l Hi Ht|t Hi|Hi].
  - rewrite <-(set_same s). apply (pool_inv_worker m s i W_loop W_ended (tasks s) _ _ Hs Hi); rewrite ?Ht; auto; done.
  - rewrite <-(set_same s). apply (pool_inv_worker m s i W_loop W_asleep (tasks s) _ _ Hs Hi); rewrite ?Ht; auto; done.
  - apply (pool_inv_worker m s i W_loop (W_run t) l (taskSem s) (ran s) Hs Hi); rewrite ?Ht; cbn [busy awake length runs]; try done; try lia.
    + intros k. rewrite occ_cons. lia.
    + set_solver.
  - apply (pool_inv_worker m s i (W_run t) W_release (tasks s) (taskSem s) (ran s ++ [t]) Hs Hi); cbn [busy awake runs]; try done; try lia.
    + intros k. rewrite occ_app, occ_cons, occ_nil. lia.
  - apply (pool_inv_worker m s i W_release W_loop (tasks s) (Z.succ (taskSem s)) (ran s) Hs Hi); cbn [busy awake runs]; try done; lia.
Qed.

(** The notification of [k], or none of it. *)
Lemma pool_inv_notify m s k ws : inv m s → submitters s !! k = Some S_notify → notify_one (threads s) ws →
  inv m (set_submitter k S_returned (s <| threads := ws |>)).
Proof.
  intros [H1 H2 H3 H4 H5 H6] Hk Hn.
  assert (zsum busy ws = zsum busy (threads s) ∧ (∀ t, zsum (runs t) ws = zsum (runs t) (threads s)) ∧
    (∀ i, ws !! i = Some W_ended → threads s !! i = Some W_ended) ∧
    ∀ i, ws !! i = Some W_asleep → threads s !! i = Some W_asleep ∧ zsum awake ws = zsum awake (threads s) + 1) as (Hb & Hr & He & Ha).
  { destruct Hn as [Hno|i Hi].
    - split_and!; try done. intros i Hi. by destruct (Hno W_asleep); [eapply list_elem_of_lookup_2|].
    - rewrite !(zsum_insert _ _ _ _ _ Hi). split_and!; cbn.
      + lia.
      + intros t. rewrite (zsum_insert _ _ _ _ _ Hi). cbn. lia.
      + intros j [(-> & ? & _)|[_ Hj]]%list_lookup_insert_Some; done.
      + intros j [(-> & ? & _)|[_ Hj]]%list_lookup_insert_Some; [done|]. split; [done|lia]. }
  split; cbn -[zsum]; rewrite ?Hb, ?(zsum_insert _ _ _ _ _ Hk); cbn [pushing notifying] in *.
  - lia.
  - done.
  - intros j. rewrite Hr, (pushed_insert _ _ _ _ _ Hk), H3. case_decide; cbn; lia.
  - intros i Hi. destruct (Ha i Hi) as [Hi' Haw]. destruct (H4 i Hi'). split; [done|]. lia.
  - intros i Hi. apply (H5 i). by apply He.
  - intros j Hj. destruct (decide (j = k)) as [->|Hne].
    + exists S_returned. split; [|done]. apply list_lookup_insert_eq. by eapply lookup_lt_Some.
    + by rewrite list_lookup_insert_ne by done; apply H6.
Qed.

Lemma pool_inv_step m s s' : inv m s → step s s' → inv m s'.
Proof.
  intros Hs [k [Hk H0|Hk|ws Hk Hn]|i Hi].
  - by apply pool_inv_acquire.
  - by apply pool_inv_push.
  - by apply pool_inv_notify.
  - by eapply pool_inv_work.
Qed.

Lemma pool_inv_stop m s : inv m s → inv m (Stop s).
Proof.
  intros [H1 H2 H3 H4 H5 H6].
  assert (∀ f, (∀ w, f (wake w) = f w) → zsum f (wake <$> threads s) = zsum f (threads s)) as Hw.
  { intros f Hf. rewrite zsum_fmap. by apply zsum_ext. }
  split; cbn -[zsum]; rewrite ?Hw by (by intros []); try done.
  - intros k. by rewrite Hw by (by intros []).
  - intros i Hi. apply list_lookup_fmap_Some in Hi as (w & Hi & _). by destruct w.
  - intros i Hi. apply list_lookup_fmap_Some in Hi as (w & Hi & Hw'). destruct w; try done. split; [done|]. by apply (H5 i).
Qed.

Lemma pool_inv_spurious m s i : inv m s → threads s !! i = Some W_asleep → inv m (set_thread i W_loop s).
Proof.
  intros Hs Hi. rewrite <-(set_same s). apply (pool_inv_worker m s i W_asleep W_loop _ _ _ Hs Hi); cbn [busy awake runs]; try done; try lia.
  apply (i_sem m s Hs).
Qed.

Lemma pool_inv_start threadNum m calls : 0 ≤ m → inv m (CreateThreadPool threadNum m calls).
Proof.
  intros Hm. split; cbn -[zsum]; rewrite ?(zsum_replicate pushing), ?(zsum_replicate busy) by done; try lia.
  - intros k. rewrite zsum_replicate, !occ_nil by done. destruct (replicate calls S_acquire !! k) eqn:E; [|done].
    by apply lookup_replicate in E as [-> _].
  - by intros i [? _]%lookup_replicate.
  - by intros i [? _]%lookup_replicate.
  - by intros k ?%elem_of_nil.
Qed.

Lemma reachable_pool_inv threadNum m calls s : 0 ≤ m → reachable threadNum m calls s → inv m s.
Proof.
  intros Hm. induction 1 as [|s s' _ IH Hs|s _ IH|s i _ IH Hi].
  - by apply pool_inv_start.
  - by eapply pool_inv_step.
  - by apply pool_inv_stop.
  - by apply pool_inv_spurious.
Qed.

(** ** Progress

    What is left to do at most, not counting spurious wake-ups. *)
Definition submitter_work (x : submitter_at) : Z := match x with S_acquire => 7 | S_push => 6 | S_notify => 2 | S_returned => 0 end.
Definition worker_work (w : worker_at) : Z := match w with W_run _ => 3 | W_release => 2 | W_loop => 1 | W_asleep | W_ended => 0 end.
Definition pool_work (s : ThreadPool) : Z :=
  zsum submitter_work (submitters s) + 3 * Z.of_nat (length (tasks s)) + zsum worker_work (threads s).

Lemma pool_work_nonneg s : 0 ≤ pool_work s.
Proof.
  unfold pool_work. assert (0 ≤ zsum submitter_work (submitters s)) by (apply zsum_nonneg; intros [] _; cbn; lia).
  assert (0 ≤ zsum worker_work (threads s)) by (apply zsum_nonneg; intros [] _; cbn; lia). lia.
Qed.

Lemma pool_step_works s s' : step s s' → pool_work s' < pool_work s.
Proof.
  unfold pool_work. intros [k [Hk H0|Hk|ws Hk Hn]|i [Hi|Hi|t l Hi Ht|t Hi|Hi]]; cbn -[zsum Z.mul];
    rewrite ?(zsum_insert _ _ _ _ _ Hk), ?(zsum_insert _ _ _ _ _ Hi), ?length_app; cbn [submitter_work worker_work length]; try lia.
  - destruct Hn as [Hno|i Hi]; rewrite ?(zsum_insert _ _ _ _ _ Hi); cbn; lia.
  - rewrite Ht. cbn [length]. lia.
Qed.

Lemma notify_exists ws : ∃ ws', notify_one ws ws'.
Proof.
  destruct (decide (W_asleep ∈ ws)) as [[i Hi]%list_elem_of_lookup|Hno].
  - eexists. by apply (notify_somebody _ i).
  - eexists. apply notify_nobody. by intros w Hw ->.
Qed.

(** No thread can go on. *)
Definition pool_stuck (s : ThreadPool) : Prop := ∀ s', ¬ step s s'.

Lemma stuck_worker s i w : pool_stuck s → threads s !! i = Some w → w = W_asleep ∨ w = W_ended.
Proof.
  intros Hst Hi. destruct w as [| |t| |]; auto; exfalso.
  - destruct (tasks s) as [|t l] eqn:Ht; [destruct (stop_requested s) eqn:Hs|].
    + by eapply Hst, (by_worker _ _ i), w_end.
    + by eapply Hst, (by_worker _ _ i), w_sleep.
    + by eapply Hst, (by_worker _ _ i), w_take.
  - by eapply Hst, (by_worker _ _ i), w_run.
  - by eapply Hst, (by_worker _ _ i), w_release.
Qed.

Lemma stuck_submitter s k x : pool_stuck s → submitters s !! k = Some x → (x = S_acquire ∧ taskSem s ≤ 0) ∨ x = S_returned.
Proof.
  intros Hst Hk. destruct x; auto.
  - left. split; [done|]. destruct (decide (taskSem s ≤ 0)); [done|]. exfalso. by eapply Hst, (by_submitter _ _ k), s_acquire; [|lia].
  - exfalso. by eapply Hst, (by_submitter _ _ k), s_push.
  - exfalso. destruct (notify_exists (threads s)). by eapply Hst, (by_submitter _ _ k), s_notify.
Qed.

(** Nobody holds a task or a permit when no thread can go on. *)
Lemma stuck_counts s : pool_stuck s →
  zsum busy (threads s) = 0 ∧ zsum awake (threads s) = 0 ∧ (∀ t, zsum (runs t) (threads s) = 0) ∧
  zsum pushing (submitters s) = 0 ∧ zsum notifying (submitters s) = 0.
Proof.
  intros Hst. split_and!; [| |intros t| |]; apply zsum_zero; intros x [i Hi]%list_elem_of_lookup.
  1-3: by destruct (stuck_worker s i x Hst Hi) as [-> | ->].
  1-2: by destruct (stuck_submitter s i x Hst Hi) as [[-> _]| ->].
Qed.

Lemma reachable_lengths threadNum m calls s : reachable threadNum m calls s →
  length (threads s) = threadNum ∧ length (submitters s) = calls.
Proof.
  induction 1 as [|s s' _ [IH1 IH2] Hs|s _ [IH1 IH2]|s i _ [IH1 IH2] Hi]; cbn; rewrite ?length_replicate, ?length_fmap, ?length_insert; try done.
  destruct Hs as [k [Hk H0|Hk|ws Hk Hn]|i []]; cbn; rewrite ?length_insert; try done. destruct Hn; rewrite ?length_insert; done.
Qed.

Lemma stuck_queue m s : inv m s → pool_stuck s → threads s ≠ [] → stop_requested s = false → tasks s = [].
Proof.
  intros Hs Hst Hne Hno. destruct (stuck_counts s Hst) as (_ & Haw & _ & _ & Hnt). destruct (threads s) as [|w ws] eqn:Hw; [done|].
  assert (threads s !! 0%nat = Some w) as H0 by by rewrite Hw. destruct (stuck_worker s 0 w Hst H0) as [-> | ->].
  - destruct (i_wakes m s Hs 0%nat H0) as [_ Hle]. rewrite Hw, Haw, Hnt in Hle. apply nil_length_inv. lia.
  - destruct (i_ends m s Hs 0%nat H0). congruence.
Qed.

Lemma stuck_all_ended m s : inv m s → pool_stuck s → stop_requested s = true → Forall (eq W_ended) (threads s).
Proof.
  intros Hs Hst Hstop. apply Forall_forall. intros w [i Hi]%list_elem_of_lookup. destruct (stuck_worker s i w Hst Hi) as [-> | ->]; [|done].
  destruct (i_wakes m s Hs i Hi). congruence.
Qed.

Lemma pool_once m s k : inv m s → 0 ≤ occ k (ran s) ≤ default 0 (pushed <$> submitters s !! k).
Proof.
  intros Hs. rewrite <-(i_once m s Hs). pose proof (occ_nonneg k (ran s)). pose proof (occ_nonneg k (tasks s)).
  destruct (counts_nonneg (threads s)) as (_ & _ & Hr). specialize (Hr k). lia.
Qed.

Lemma pool_bounds m s : inv m s → Z.of_nat (length (tasks s)) ≤ m ∧ NoDup (ran s).
Proof.
  intros Hs. split.
  - pose proof (i_permits m s Hs). pose proof (i_sem m s Hs). destruct (counts_nonneg (threads s)) as (? & _ & _).
    destruct (submitters_nonneg (submitters s)). lia.
  - apply occ_NoDup. intros k. destruct (pool_once m s k Hs) as [_ Hle]. destruct (submitters s !! k) as [[]|]; cbn in Hle; lia.
Qed.

Lemma stuck_ran m s : inv m s → pool_stuck s → threads s ≠ [] → 0 < m → stop_requested s = false →
  Forall (eq S_returned) (submitters s) ∧ ran s ≡ₚ seq 0 (length (submitters s)).
Proof.
  intros Hs Hst Hne Hm Hno. pose proof (stuck_queue m s Hs Hst Hne Hno) as Hq. destruct (stuck_counts s Hst) as (Hb & _ & Hr & Hp & _).
  assert (Forall (eq S_returned) (submitters s)) as Hret.
  { apply Forall_forall. intros x [k Hk]%list_elem_of_lookup. destruct (stuck_submitter s k x Hst Hk) as [[_ H0]| ->]; [|done].
    pose proof (i_permits m s Hs) as H. rewrite Hq, Hb, Hp in H. cbn in H. lia. }
  split; [done|]. apply NoDup_Permutation; [apply (pool_bounds m s Hs)|apply NoDup_seq|]. intros k.
  pose proof (i_once m s Hs k) as Ho. rewrite Hq, Hr, occ_nil in Ho. rewrite occ_elem, elem_of_seq. destruct (submitters s !! k) as [x|] eqn:Hk; cbn in Ho.
  - rewrite Forall_lookup in Hret. rewrite <-(Hret k x Hk) in Ho. cbn in Ho. apply lookup_lt_Some in Hk. lia.
  - apply lookup_ge_None in Hk. lia.
Qed.

Lemma stuck_early m s k : inv m s → pool_stuck s → threads s ≠ [] → stop_requested s = true → k ∈ early s → k ∈ ran s.
Proof.
  intros Hs Hst Hne Hstop Hk. destruct (stuck_counts s Hst) as (_ & _ & Hr & _). pose proof (stuck_all_ended m s Hs Hst Hstop) as He.
  destruct (threads s) as [|w ws] eqn:Hw; [done|]. apply Forall_cons in He as [<- _].
  destruct (i_ends m s Hs 0%nat) as [_ Hno]; [by rewrite Hw|]. specialize (Hno k Hk). apply occ_not_elem in Hno.
  destruct (i_early m s Hs k Hk) as (x & Hx & Hp). pose proof (i_once m s Hs k) as Ho. rewrite Hx, Hw, Hr, Hno in Ho. cbn in Ho. apply occ_elem. lia.
Qed.

(** (C35) The pool runs every task once.  With at least one worker and room for one task,
    from any state that its threads can get into, with or without a call of Stop:
    the queue never holds more than maxTaskNum tasks and no task runs twice; every
    run without spurious wake-ups ends.  When no thread can go on and Stop was not
    called, all calls of Submit have returned and exactly their tasks have run;
    when Stop was called, all workers have ended, so that Stop returns, and what
    was in the queue before it has run. *)
Theorem ThreadPool_runs_all threadNum maxTaskNum calls s :
  (0 < threadNum)%nat → 0 < maxTaskNum → reachable threadNum maxTaskNum calls s →
  Z.of_nat (length (tasks s)) ≤ maxTaskNum ∧ NoDup (ran s) ∧ Acc (λ s' s, step s s') s ∧
  (pool_stuck s →
    if (stop_requested s : bool) then Forall (eq W_ended) (threads s) ∧ early s ⊆ ran s
    else Forall (eq S_returned) (submitters s) ∧ ran s ≡ₚ seq 0 calls).
Proof.
  intros Hn Hm Hr. pose proof (reachable_pool_inv _ _ _ s (Z.lt_le_incl _ _ Hm) Hr) as Hs. destruct (reachable_lengths _ _ _ s Hr) as [Hlt Hls].
  destruct (pool_bounds _ s Hs) as [Hb Hnd]. assert (threads s ≠ []) as Hne by (intros H; rewrite H in Hlt; cbn in Hlt; lia).
  split_and!; [done|done| |].
  - apply (wf_projected (λ x y, 0 ≤ x < y) pool_work); [|apply (Z.lt_wf 0)].
    intros s' s'' H. split; [apply pool_work_nonneg|by apply pool_step_works].
  - intros Hst. destruct (stop_requested s) eqn:Hstop.
    + split; [by eapply stuck_all_ended|]. intros k Hk. by eapply stuck_early.
    + rewrite <-Hls. by eapply stuck_ran.
Qed.

Module ThreadPoolWitness.

(** One worker, room for one task and one call of Submit, when all is done. *)
Definition done_state : ThreadPool := mkThreadPool [] 1 false [S_returned] [W_asleep] [0%nat] [0%nat].
(** The same pool, stopped before two calls of Submit. *)
Definition late_state : ThreadPool := mkThreadPool [0%nat] 0 true [S_returned; S_acquire] [W_ended] [] [].

Ltac by_thread c := eapply reachable_step; [|c; [reflexivity|..]; try reflexivity; try (cbn; lia)].

Lemma done_reachable : reachable 1 1 1 done_state.
Proof.
  change done_state with (set_thread 0 W_asleep (mkThreadPool [] 1 false [S_returned] [W_loop] [0%nat] [0%nat])).
  by_thread ltac:(apply (by_worker _ _ 0), w_sleep).
  change (mkThreadPool [] 1 false [S_returned] [W_loop] [0%nat] [0%nat])
    with (set_thread 0 W_loop ((mkThreadPool [] 0 false [S_returned] [W_release] [0%nat] [0%nat]) <| taskSem ::= Z.succ |>)).
  by_thread ltac:(apply (by_worker _ _ 0), w_release).
  change (mkThreadPool [] 0 false [S_returned] [W_release] [0%nat] [0%nat])
    with (set_thread 0 W_release ((mkThreadPool [] 0 false [S_returned] [W_run 0] [] [0%nat]) <| ran ::= (.++ [0%nat]) |>)).
  by_thread ltac:(apply (by_worker _ _ 0), (w_run _ _ 0)).
  change (mkThreadPool [] 0 false [S_returned] [W_run 0] [] [0%nat])
    with (set_thread 0 (W_run 0) ((mkThreadPool [0%nat] 0 false [S_returned] [W_loop] [] [0%nat]) <| tasks := [] |>)).
  by_thread ltac:(apply (by_worker _ _ 0), w_take).
  change (mkThreadPool [0%nat] 0 false [S_returned] [W_loop] [] [0%nat])
    with (set_submitter 0 S_returned ((mkThreadPool [0%nat] 0 false [S_notify] [W_asleep] [] [0%nat]) <| threads := [W_loop] |>)).
  by_thread ltac:(apply (by_submitter _ _ 0), s_notify). 2: by apply (notify_somebody [W_asleep] 0).
  change (mkThreadPool [0%nat] 0 false [S_notify] [W_asleep] [] [0%nat])
    with (set_submitter 0 S_notify ((mkThreadPool [] 0 false [S_push] [W_asleep] [] []) <| tasks ::= (.++ [0%nat]) |> <| early ::= λ l, l ++ [0%nat] |>)).
  by_thread ltac:(apply (by_submitter _ _ 0), s_push).
  change (mkThreadPool [] 0 false [S_push] [W_asleep] [] [])
    with (set_submitter 0 S_push ((mkThreadPool [] 1 false [S_acquire] [W_asleep] [] []) <| taskSem ::= Z.pred |>)).
  by_thread ltac:(apply (by_submitter _ _ 0), s_acquire).
  change (mkThreadPool [] 1 false [S_acquire] [W_asleep] [] []) with (set_thread 0 W_asleep (CreateThreadPool 1 1 1)).
  by_thread ltac:(apply (by_worker _ _ 0), w_sleep). apply reachable_start.
Qed.

Lemma done_stuck : pool_stuck done_state.
Proof. intros s' [[|k] H|[|i] H]; inversion H; simplify_eq/=. Qed.

(** A task that is submitted to a pool that has stopped is never run, and the next
    call of Submit does not return. *)
Example late_task_lost : reachable 1 1 2 late_state ∧ pool_stuck late_state ∧ ran late_state = [].
Proof.
  split; [|split; [|done]].
  - change late_state with (set_submitter 0 S_returned ((mkThreadPool [0%nat] 0 true [S_notify; S_acquire] [W_ended] [] []) <| threads := [W_ended] |>)).
    by_thread ltac:(apply (by_submitter _ _ 0), s_notify). 2: { apply (notify_nobody [W_ended]). by intros w ->%list_elem_of_singleton. }
    change (mkThreadPool [0%nat] 0 true [S_notify; S_acquire] [W_ended] [] [])
      with (set_submitter 0 S_notify ((mkThreadPool [] 0 true [S_push; S_acquire] [W_ended] [] []) <| tasks ::= (.++ [0%nat]) |> <| early ::= λ l, l |>)).
    by_thread ltac:(apply (by_submitter _ _ 0), s_push).
    change (mkThreadPool [] 0 true [S_push; S_acquire] [W_ended] [] [])
      with (set_submitter 0 S_push ((mkThreadPool [] 1 true [S_acquire; S_acquire] [W_ended] [] []) <| taskSem ::= Z.pred |>)).
    by_thread ltac:(apply (by_submitter _ _ 0), s_acquire).
    change (mkThreadPool [] 1 true [S_acquire; S_acquire] [W_ended] [] []) with (set_thread 0 W_ended (Stop (CreateThreadPool 1 1 2))).
    by_thread ltac:(apply (by_worker _ _ 0), w_end). apply reachable_stop, reachable_start.
  - intros s' [[|[|k]] H|[|i] H]; inversion H; simplify_eq/=; lia.
Qed.

Lemma ThreadPool_runs_all_witness : Acc (λ s' s, step s s') done_state ∧ Forall (eq S_returned) [S_returned] ∧ [0%nat] ≡ₚ seq 0 1.
Proof.
  destruct (ThreadPool_runs_all 1 1 1 done_state ltac:(lia) ltac:(lia) done_reachable) as (_ & _ & Hacc & Hend).
  exact (conj Hacc (Hend done_stuck)).
Defined.

End ThreadPoolWitness.
